(* ===== verification/_CoqProject ===== *)
-Q . S2P
Prelude.v
Float64.v
Float64Round.v
Float64Mono.v
Deployment.v
Lifecycle.v
Command.v
Embodiment.v
SafetyFilter.v
RustStr.v
Json.v
Blackboard.v
BtEval.v
BtNodes.v
BtTree.v
Subjects.v
SafetyDaemon.v
JsonRepair.v
Guards.v
Evidence.v
TickController.v
LoopState.v
ControllerLoop.v
LoopInvariant.v
LoopSafety.v
FrameTree.v
FrameGraph.v
Snapshot.v
Workspace.v
TcpPlanning.v
Policy.v
Approvals.v
Context.v
Dispatch.v
ModelCalls.v
StructuredOutput.v
Anthropic.v
Gemini.v
AgentLoop.v
SessionData.v
SessionRuntime.v
TurnFlush.v
FactExtract.v
Tasks.v
TaskLife.v
Schedule.v
ScheduledTasks.v
EdgeHealth.v
PeerKeys.v
Coordination.v
Adapter.v
Wal.v
SimDistance.v
AdaptiveBitrate.v
Fallback.v
SimToReal.v
Retargeting.v
EmbodimentConvert.v
