(* ===== verification/Prelude.v ===== *)
(** * Roz: a verification development for the robot runtime

    Roz lets language models drive physical robots.  A task reaches a worker, whose
    agent loop asks a model for tool calls; guards check every call before it is
    dispatched; behaviour trees execute skills; a compiled controller runs in the
    control loop, behind a safety filter, once its evidence has taken it through a staged
    deployment; a separate daemon watches the workers' heartbeats and stops the silent
    ones.  This library models the parts of that path that decide what a robot may do,
    from the sources under [src/crates/], as executable definitions, and proves what
    makes each part correct.

    ** The parts and where they are

    - [Prelude]: [result] and the panicking outcome [exec] with their notations, machine
      integers, tactics, shared lemmas.  A Rust panic (an index or a slice out of range,
      [f64::clamp] with an empty range, an overflow of [+]) is the value [Panic], so that
      "never panics" is a theorem and not an assumption.
    - [Float64], [Float64Round], [Float64Mono]: [f64] as the executable binary64 of the
      standard library, its order (with the tactic [f64_order]), and the monotonicity of its
      rounding and of its sum.
    - [RustStr]: the functions on strings and the number parsers the program uses of the
      Rust standard library.
    - [Json]: the interface to [serde_json::Value]: the operations ([JsonOps],
      [JsonEdit]), their documented laws ([JsonLaws], [JsonEditLaws]), and a plain
      implementation for the examples.
    - Controller deployment.  [Deployment]: roz-core/controller ([DeploymentState],
      verdicts, artifacts, evidence).  [Lifecycle]: roz-copper/controller_lifecycle.rs (load,
      evidence, promotion gates, retirement, rollback) and deployment_manager.rs (the staged
      rollout policy).  [Evidence]: evidence_collector.rs.  A [&mut self] method is a function
      from the state to its result and the new state.
    - The controller loop, roz-copper/controller.rs.  [TickController]: one tick of one
      controller.  [LoopState]: the variables of the loop, with a journal of the calls it makes
      to the lifecycle manager, which nothing reads.  [ControllerLoop]: its commands and its
      body, block by block.  [LoopInvariant], [LoopSafety]: theorems on its runs.
    - Commands and filters.  [Command]: roz-core/command.rs and errors.rs.  [Embodiment]:
      joint limits, the control interface and its bindings, interventions.  [SafetyFilter]:
      roz-copper/safety_filter.rs, the task filter, the frame clamp and the hot-path filter.
    - The embodiment runtime, roz-core/embodiment.  [FrameTree]: frame_tree.rs.  [FrameGraph],
      [Snapshot]: the compiled frame graph of embodiment_runtime.rs and its snapshots.
      [Workspace]: workspace zones.  [TcpPlanning]: the planning of tool motions.
      [Retargeting]: roles and channels, retargeting.rs.  [EmbodimentConvert]: the messages of
      roz-server/grpc/embodiment_convert.rs, module [V1] their schema.
    - Behaviour trees.  [Blackboard] and [BtEval]: roz-core/bt (the store, condition
      expressions, the condition checker).  [BtNodes]: the [BtNode] trait as a class and every
      node of roz-agent/bt.  [BtTree]: executors, registry, builder and skill runner.
    - Policies.  [Policy]: trust, device trust, degradation, leases, power, crash recovery,
      the host gate, one Module for each file.
    - [Guards]: roz-agent/safety/stack.rs and guards/, with the stacks the worker
      (roz-worker/main.rs) and the local runtime (roz-local/runtime.rs) build.
    - The agent.  [Approvals]: human approval.  [Context]: messages and compaction.
      [Dispatch]: the tool table and the dispatch of a turn's calls.  [ModelCalls]: retries,
      streams, summaries.  [Fallback]: the chain of models in model/fallback.rs.  [AgentLoop]:
      agent_loop/core.rs and its parts.  [StructuredOutput], [Anthropic], [Gemini]: the
      structured answers and two of the providers in roz-agent/model, without the network.
    - Sessions.  [SessionData]: activities, recovery, snapshots, the system prompt.
      [SessionRuntime]: roz-agent/session_runtime.  [TurnFlush], [FactExtract]: the storing of
      turns and the extraction of user facts, with their tables.
    - Tasks across the system.  [Tasks], [TaskLife]: messages, rows, dispatch, the durable
      workflow, the worker's shell.  [Schedule], [ScheduledTasks]: schedules, the calls on
      scheduled tasks and their durable workflow.
    - [Subjects]: roz-nats/subjects.rs.  [SafetyDaemon]: roz-safety (heartbeats, e-stop,
      watchdog, the main loop) and the worker's e-stop listener and command watchdog.
    - The edge.  [EdgeHealth]: roz-core/edge_health.rs, roz-zenoh/health.rs and the worker's
      watcher.  [PeerKeys]: roz-zenoh/envelope.rs and session.rs.  [Coordination]: the edge
      state bus, poses and barriers.  [Adapter]: roz-core/adapter.rs and the worker's adapter
      manager.  [Wal]: the worker's write-ahead log.  [AdaptiveBitrate]: the bit rate of its
      cameras, camera/adaptive.rs.
    - Simulated against real runs, roz-core/sim2real.  [SimDistance]: time warping and the
      Fréchet distance.  [SimToReal]: alignment, the metrics and verdicts, failure signatures.
    - [JsonRepair]: roz-core/json_repair.rs, the repair of nearly valid model output.

    They meet as follows.  [SafetyFilter] clamps [Command] frames against [Embodiment]
    limits; [Lifecycle] moves [Deployment] states on the bundles of [Evidence];
    [ControllerLoop] drives [TickController] and [Lifecycle] together; the executors of
    [BtTree] and the nodes of [BtNodes] share a [Blackboard] and evaluate [BtEval]
    conditions; [AgentLoop] runs [ModelCalls] and [Dispatch], which passes calls through
    [Guards] and [Approvals]; [SessionRuntime] runs an executor such as [AgentLoop], whose
    turns [TurnFlush] stores; [Tasks] puts a worker's session between the workflow and the
    rows, and [ScheduledTasks] dispatches through [Tasks]; [SafetyDaemon] publishes on the
    subjects of [Subjects].  The node, executor, hardware and library interfaces are type
    classes, and their laws ([BtLaws], [JsonLaws], [CronLaws], [EnvelopeLaws], [WalLaws]), which
    state only what the libraries document, are what a client may rely on.

    ** What the theorems show

    - Lifecycle: in every sequence of calls only a controller whose evidence, of its own
      digests and of the stage it left, passed every gate is promoted; the exact condition of a
      promotion; failed calls change nothing; a rollback restores the last known good
      controller for verification only; rollouts are staged, finite and can succeed; collected
      evidence opens the gates exactly when the run was clean.
    - The controller loop: every frame it sends is a stop, a filtered command of a promoted
      controller or the enveloped command of a candidate on canary, promoted by calls the run
      itself made; its slots refine the lifecycle manager; a silent agent stops the robot;
      whatever the guest does, each value that leaves is the clamped value of its slot.
    - Safety filters: the filters never panic under non-negative limits, keep
      every command within velocity, acceleration and position limits, replace non-finite and
      unclaimed values by zero, stop exactly over a contact limit, and record an intervention
      for every alteration; the frame clamp panics exactly on an empty channel range
      ([inverted_limits_panic]).
    - Frames: lookups return on every tree and fail exactly when the frames do not climb to one
      root; a model compiles to one tree, calibrated exactly when the calibration is
      valid; verdicts on poses and trajectories; a runtime comes back from its message, and
      which messages are trees.
    - Guards and policies: the worker's stack bounds the velocity parameters it knows of every
      call and never blocks; the geofence's exact condition, with its floating-point ray
      casting exact on rectangles; the rate limit over every sliding window; the first
      objection decides a stack; the exact gate of a host.
    - Behaviour trees: a built tree runs to an end within its tick budget without
      panicking, with no action left running unless the tree has a parallel node
      ([parallel_leaves_running]), and reports success only when its conditions held;
      fallback is the dual of sequence; a subtree is isolated but for its ports; the meaning,
      the parsing and the only panic of condition expressions.
    - The agent: a gated call needs an approval that arrived in time; what is executed is what
      the guards or an operator approved, the guards being those the calls before left ([stack_at]);
      calls that act overlap no other; every call is answered and requests stay paired; retries
      are bounded; where a text can panic; a model is asked exactly when it is available; a
      streamed answer is the whole answer but for what [as_streamed] drops.
    - Sessions: turns are admitted only while a session runs, handed over or not ([session]),
      the exact effect of every
      outcome, what a handover keeps; the turns of a session are stored in order, each is
      extracted once.
    - Tasks: a dispatched task ends with one status everywhere; one unfinished run; what leaves
      the server; every fire of a schedule is answered as its policy says; no wake-up is lost.
    - Safety daemon: an e-stop is published only for a worker silent for thirty seconds
      and on its own subject; a silent worker is stopped once another speaks; a lone worker
      never is (the check runs on heartbeats only); watchdog deadlines are exact.
    - The edge: silent subsystems are reported when no signal is dropped, and what a dropped
      signal costs; only known keys are believed, departed ones no longer; what an observer of
      a barrier sees; hardware is driven through its lifecycle; recovery is about exactly the
      unacknowledged entries, and fails as a whole when one does not decode; the bit rate changes
      exactly after a sustained request.
    - Simulated and real runs: time warping and the Fréchet distance are optimal over all
      paths, whatever the samples; interpolation stays between its samples; verdicts.
    - Subjects, JSON repair, bindings, commands: round trips and ownership of subjects;
      soundness of each repair pass; the exact acceptance of bindings; termination of commands.

    Examples next to the theorems exhibit the behaviours the theorems exclude by hypothesis.

    ** Fuel and bounds

    - [trim_start_fuel], [trim_end_fuel]: the length of the text; each turn removes a
      white-space character, so the length is enough.
    - [node_ops]: the depth to which nested nodes are unfolded.  [build_sound] shows that any
      depth above that of the tree behaves alike: no tick or halt of a built tree runs out.
    - [repeat_loop]: the repetitions left and one more; every turn that does not return
      counts one ([repeat_loop_law]).  Loops with an iteration limit in the code recurse on
      that limit ([retry_loop] on [max_retries] and one, [run_cycles] on [max_cycles] and one).
    - [policy_path]: the number of stages; [deployment_chains_finite] bounds any chain.
    - The climbs of a frame lookup: the number of frames ([lookup_transform_total]);
      [compile_loop]: the frames still pending; the loops over links and joints: the number of
      names and one ([link_frame_loop_total], [joint_chain_loop_total]).
    - [split_loop]: the number of messages; [dispatch_loop]: the number of calls, each turn
      answers at least one; [fires_until]: the whole seconds of the window and one hour for a
      clock that is set back, as fires are at least a second apart; [backtrack]: the rows and
      columns together, each step leaves one; [bfs]: a turn per frame; [split_words]: the length of the text.
    - Integers keep their width where the code can overflow; sums of nanoseconds are
      unbounded, as the instants of the code fit in their type by centuries.

    ** Not modelled

    - Outside the program: NATS, Zenoh, wasmtime, Postgres, SQLite, Restate, gRPC, the services
      of the model providers, file systems, clocks, random identifiers; nalgebra, digests and signatures, the
      cron, time-zone and regular-expression libraries, serde's texts.  What they answer is an
      argument of the definitions or a method of a class with its documented laws, never a
      made-up function.  So are the answers of models, tools, operators and other writers.
    - Logging and metrics; they have no effect on the state.  Decimal printing of
      floating-point numbers ([format_piece] keeps the number) and the texts of derived [Debug].
    - The JSON text of a controller's last output, published for the agent; the conversion of
      messages other than those of the embodiment; cameras and WebRTC but for the bit rate; the
      command line and the terminal interface; the OpenAI-compatible provider; provisioning and
      configuration; the relay of sessions over NATS but for its checkpoints; skills' front
      matter; the sampling of random scenarios; suspension and replay in the workflow engine.
      They are transport, text or numerics around what is modelled.
    - Concurrency is modelled where state is shared, as sequences of the steps that hold a
      lock or run to the next suspension; the scheduler that interleaves them is arbitrary. *)

From stdpp Require Export base option list strings gmap pretty.
From Stdlib Require Export ZArith Lia.
#[global] Open Scope Z_scope.

(** ** Results and panics

    [result T E] is Rust's [Result]; [exec A] is the outcome of running code
    that may panic (a slice out of range, a failed [assert!], an overflow with
    overflow checks on): [Ret] carries the value, [Panic] is the unwinding. *)

Inductive result (T E : Type) : Type :=
| Ok (v : T)
| Err (e : E).
Arguments Ok {T E} _.
Arguments Err {T E} _.

Inductive exec (A : Type) : Type :=
| Ret (a : A)
| Panic.
Arguments Ret {A} _.
Arguments Panic {A}.

Definition exec_bind {A B : Type} (c : exec A) (k : A -> exec B) : exec B :=
  match c with Ret a => k a | Panic => Panic end.

(** [iter().enumerate().map(f).collect()] for a closure that may panic. *)
Fixpoint exec_mapi {A B : Type} (f : nat -> A -> exec B) (i : nat) (l : list A) : exec (list B) :=
  match l with
  | [] => Ret []
  | x :: l =>
      exec_bind (f i x) (fun y =>
      exec_bind (exec_mapi f (S i) l) (fun ys => Ret (y :: ys)))
  end.

Definition result_bind {T U E : Type} (c : result T E) (k : T -> result U E) : result U E :=
  match c with Ok v => k v | Err e => Err e end.

Definition map_err {T E F : Type} (f : E -> F) (c : result T E) : result T F :=
  match c with Ok v => Ok v | Err e => Err (f e) end.

Definition ok_or {T E : Type} (o : option T) (e : E) : result T E :=
  match o with Some v => Ok v | None => Err e end.

Definition is_ret {A : Type} (c : exec A) : bool :=
  match c with Ret _ => true | Panic => false end.

Definition is_ok {T E : Type} (c : result T E) : bool :=
  match c with Ok _ => true | Err _ => false end.

Declare Scope roz_scope.
Delimit Scope roz_scope with roz.
Notation "'let!' x ':=' c 'in' k" := (exec_bind c (fun x => k))
  (at level 10, x pattern, c at level 100, k at level 200) : roz_scope.
Notation "'let?' x ':=' c 'in' k" := (result_bind c (fun x => k))
  (at level 10, x pattern, c at level 100, k at level 200) : roz_scope.
#[global] Open Scope roz_scope.

(** ** Tactics of the development *)

(** Split every [match]/[if] of the goal or of a hypothesis, remembering the
    equation, and close the branches the constructors contradict. *)
Ltac split_match :=
  repeat (case_match; simplify_eq/=; try done).

(** Turn boolean connectives and comparisons of the context into propositions. *)
Ltac bool_prop :=
  repeat match goal with
  | H : (_ && _)%bool = true |- _ => apply andb_true_iff in H; destruct H
  | H : (_ && _)%bool = false |- _ => apply andb_false_iff in H
  | H : (_ || _)%bool = true |- _ => apply orb_true_iff in H
  | H : (_ || _)%bool = false |- _ => apply orb_false_iff in H; destruct H
  | H : negb _ = true |- _ => apply negb_true_iff in H
  | H : negb _ = false |- _ => apply negb_false_iff in H
  | H : bool_decide _ = true |- _ => apply bool_decide_eq_true in H
  | H : bool_decide _ = false |- _ => apply bool_decide_eq_false in H
  | H : (_ =? _)%Z = true |- _ => apply Z.eqb_eq in H
  | H : (_ =? _)%Z = false |- _ => apply Z.eqb_neq in H
  | H : (_ <? _)%Z = true |- _ => apply Z.ltb_lt in H
  | H : (_ <? _)%Z = false |- _ => apply Z.ltb_ge in H
  | H : (_ <=? _)%Z = true |- _ => apply Z.leb_le in H
  | H : (_ <=? _)%Z = false |- _ => apply Z.leb_gt in H
  end.

Create HintDb roz.

(** ** Sequencing lemmas *)

Lemma exec_bind_ret {A B} (c : exec A) (k : A -> exec B) b :
  exec_bind c k = Ret b <-> exists a, c = Ret a /\ k a = Ret b.
Proof. destruct c; naive_solver. Qed.

Lemma result_bind_ok {T U E} (c : result T E) (k : T -> result U E) u :
  result_bind c k = Ok u <-> exists v, c = Ok v /\ k v = Ok u.
Proof. destruct c; naive_solver. Qed.

Lemma ok_or_ok {T E} (o : option T) (e : E) v : ok_or o e = Ok v <-> o = Some v.
Proof. destruct o; naive_solver. Qed.

(** Open a chain of binds in the context. *)
Ltac unbind :=
  repeat match goal with
  | H : exec_bind _ _ = Ret _ |- _ => apply exec_bind_ret in H; destruct H as (? & ? & ?)
  | H : result_bind _ _ = Ok _ |- _ => apply result_bind_ok in H; destruct H as (? & ? & ?)
  | H : Ret _ = Ret _ |- _ => injection H; clear H; intros; subst
  | H : Ok _ = Ok _ |- _ => injection H; clear H; intros; subst
  | p : (_ * _)%type |- _ => destruct p
  end; simplify_eq/=.

(** ** Machine integers

    Integers keep their Rust width: a [u32] is a [Z] in [0 <= n <= u32_max].
    The arithmetic operators [+] panic on overflow (the profile with overflow
    checks); [saturating_sub] is the method. *)

Definition u32_max : Z := 2 ^ 32 - 1.
Definition u64_max : Z := 2 ^ 64 - 1.
Definition i64_max : Z := 2 ^ 63 - 1.

Definition is_u32 (n : Z) : Prop := 0 <= n <= u32_max.
Definition is_u64 (n : Z) : Prop := 0 <= n <= u64_max.

Definition u32_add (a b : Z) : exec Z :=
  if a + b <=? u32_max then Ret (a + b) else Panic.

Definition u64_add (a b : Z) : exec Z :=
  if a + b <=? u64_max then Ret (a + b) else Panic.

Definition saturating_sub (a b : Z) : Z := Z.max 0 (a - b).

Lemma u32_add_ret a b : a + b <= u32_max -> u32_add a b = Ret (a + b).
Proof. intros H. unfold u32_add. by rewrite (proj2 (Z.leb_le _ _) H). Qed.

Lemma u64_add_ret a b : a + b <= u64_max -> u64_add a b = Ret (a + b).
Proof. intros H. unfold u64_add. by rewrite (proj2 (Z.leb_le _ _) H). Qed.

(** ** Rendered text

    [format!] of strings and integers is a string; a floating-point argument is
    kept as the number it prints (with its precision, if one is given), because
    the decimal printer of the standard library is not part of the program. *)

Inductive format_piece (F : Type) : Type :=
| Str (s : string)
| Flt (prec : option Z) (x : F).
Arguments Str {F} _.
Arguments Flt {F} _ _.

(** A duration or an instant of the standard library is a count of nanoseconds. *)
Definition Duration := Z.
Definition Instant := Z.

(** The representation of a [DateTime<Utc>]: nanoseconds since the epoch. *)
Definition DateTime := Z.

Definition from_secs (s : Z) : Duration := s * 1000000000.
Definition from_millis (ms : Z) : Duration := ms * 1000000.

(** ** Lists *)

Lemma Forall_map_iff {A B} (P : B -> Prop) (f : A -> B) (l : list A) :
  Forall P (map f l) <-> Forall (fun x => P (f x)) l.
Proof. induction l; simpl; [by split; constructor|]. rewrite !Forall_cons. naive_solver. Qed.

Lemma last_app_singleton {A} (l : list A) (x : A) : last (l ++ [x]) = Some x.
Proof. apply last_snoc. Qed.

Lemma map_lookup {A B} (f : A -> B) (l : list A) i : map f l !! i = f <$> l !! i.
Proof. apply list_lookup_fmap. Qed.

(** [iter().find_map(f)]. *)
Fixpoint list_find_some {A B} (f : A -> option B) (l : list A) : option B :=
  match l with
  | [] => None
  | x :: l => match f x with Some y => Some y | None => list_find_some f l end
  end.

(** ** Mapping with panics *)

Section ExecMap.
Context {A B : Type} (f : nat -> A -> exec B).

Lemma exec_mapi_lookup (l : list A) : forall i ys,
  exec_mapi f i l = Ret ys ->
  length ys = length l /\
  forall j x y, l !! j = Some x -> ys !! j = Some y -> f (i + j)%nat x = Ret y.
Proof.
  induction l as [|x l IH]; intros i ys H; simpl in H; [by simplify_eq|].
  unbind. edestruct IH as [Hlen Hf]; [done|]. split; [simpl; lia|].
  intros [|j] x' y' Hx Hy; simplify_eq/=.
  - by replace (i + 0)%nat with i by lia.
  - replace (i + S j)%nat with (S i + j)%nat by lia. eauto.
Qed.

Lemma exec_mapi_total (l : list A) : forall i,
  (forall j x, l !! j = Some x -> exists y, f (i + j)%nat x = Ret y) ->
  exists ys, exec_mapi f i l = Ret ys.
Proof.
  induction l as [|x l IH]; intros i H; simpl; [eauto|].
  destruct (H 0%nat x eq_refl) as [y Hy]. rewrite Nat.add_0_r in Hy.
  destruct (IH (S i)) as [ys Hys].
  { intros j x' Hx. destruct (H (S j) x' Hx) as [y' Hy'].
    exists y'. by replace (S i + j)%nat with (i + S j)%nat by lia. }
  rewrite Hy. simpl. rewrite Hys. simpl. eauto.
Qed.
End ExecMap.
