(* ===== verification/Float64.v ===== *)
(** * [f64]: IEEE 754 binary64

    Rust's [f64] as the standard library's executable specification of binary64
    ([SpecFloat] at precision 53, maximal exponent 1024): zeros with their sign,
    infinities, NaN, finite numbers [(-1)^s * m * 2^e].  The operations are the
    correctly rounded ones; [clamp], [max], [min], [signum], [mul_add] are written
    after the standard library's documentation.

    The order lemmas go through three integers per number ([rank]) whose
    lexicographic order is the order of the numbers, so that the tactic
    [f64_order] reduces a goal about comparisons to linear arithmetic. *)

From Stdlib Require Export SpecFloat.
From S2P Require Import Prelude.

Definition f64 : Type := spec_float.

Definition f64_add : f64 -> f64 -> f64 := SFadd 53 1024.
Definition f64_sub : f64 -> f64 -> f64 := SFsub 53 1024.
Definition f64_mul : f64 -> f64 -> f64 := SFmul 53 1024.
Definition f64_div : f64 -> f64 -> f64 := SFdiv 53 1024.
Definition f64_sqrt : f64 -> f64 := SFsqrt 53 1024.
Definition f64_neg : f64 -> f64 := SFopp.
Definition f64_abs : f64 -> f64 := SFabs.
Definition f64_lt (a b : f64) : bool := SFltb a b.
Definition f64_le (a b : f64) : bool := SFleb a b.
Definition f64_eq (a b : f64) : bool := SFeqb a b.
Definition f64_gt (a b : f64) : bool := f64_lt b a.
Definition f64_ge (a b : f64) : bool := f64_le b a.

Definition is_nan (a : f64) : bool := match a with S754_nan => true | _ => false end.
Definition is_infinite (a : f64) : bool := match a with S754_infinity _ => true | _ => false end.
Definition is_finite (a : f64) : bool :=
  match a with S754_zero _ | S754_finite _ _ _ => true | _ => false end.
Definition is_sign_negative (a : f64) : bool :=
  match a with S754_zero s | S754_infinity s | S754_finite s _ _ => s | S754_nan => false end.

Definition zero : f64 := S754_zero false.

(** An integer converted with [f64::from] or [as f64]. *)
Definition f64_of_Z (z : Z) : f64 := binary_normalize 53 1024 z 0 false.

(** The decimal literal [m * 10^-k], correctly rounded. *)
Definition f64_dec (m : Z) (k : nat) : f64 :=
  let round s p :=
    let '(q, e, l) := SFdiv_core_binary 53 1024 (Zpos p) 0 (10 ^ Z.of_nat k) 0 in
    binary_round_aux 53 1024 s q e l in
  match m with Z0 => zero | Zpos p => round false p | Zneg p => round true p end.

Definition one : f64 := f64_of_Z 1.
Definition EPSILON : f64 := S754_finite false (2 ^ 52) (-104).
Definition PI : f64 := f64_dec 314159265358979323846264338327950288 35.

Definition signum (a : f64) : f64 :=
  if is_nan a then a else if is_sign_negative a then f64_neg one else one.

(** [f64::clamp]: panics when [min > max] or a bound is NaN. *)
Definition clamp (x lo hi : f64) : exec f64 :=
  if f64_le lo hi then
    let x := if f64_lt x lo then lo else x in
    let x := if f64_gt x hi then hi else x in
    Ret x
  else Panic.

Definition f64_max (a b : f64) : f64 :=
  if is_nan a then b else if is_nan b then a else if f64_lt a b then b else a.
Definition f64_min (a b : f64) : f64 :=
  if is_nan a then b else if is_nan b then a else if f64_lt b a then b else a.

(** [a.mul_add(b, c)]: [a * b + c] with one rounding. *)
Definition mul_add (a b c : f64) : f64 :=
  match a, b, c with
  | S754_finite sa ma ea, S754_finite sb mb eb, S754_finite sc mc ec =>
      let ep := ea + eb in
      let e := Z.min ep ec in
      let p := cond_Zopp (xorb sa sb) (Zpos (fst (shl_align (ma * mb) ep e))) in
      let q := cond_Zopp sc (Zpos (fst (shl_align mc ec e))) in
      binary_normalize 53 1024 (p + q) e false
  | S754_finite _ _ _, S754_finite _ _ _, S754_zero _ => f64_mul a b
  | S754_finite _ _ _, S754_finite _ _ _, _ => c
  | _, _, _ => f64_add (f64_mul a b) c
  end.

(** ** Order *)

Definition rank1 (a : f64) : Z :=
  match a with
  | S754_infinity s => if s then -2 else 2
  | S754_finite s _ _ => if s then -1 else 1
  | _ => 0
  end.
Definition rank2 (a : f64) : Z :=
  match a with S754_finite s _ e => if s then - e else e | _ => 0 end.
Definition rank3 (a : f64) : Z :=
  match a with S754_finite s m _ => if s then Zneg m else Zpos m | _ => 0 end.

Definition rank_lt (a b : f64) : Prop :=
  rank1 a < rank1 b \/
  rank1 a = rank1 b /\ (rank2 a < rank2 b \/ rank2 a = rank2 b /\ rank3 a < rank3 b).

Definition f64_eqdec : forall a b : f64, {a = b} + {a <> b}.
Proof. intros a b. decide equality; solve [apply bool_dec | apply Pos.eq_dec | apply Z.eq_dec]. Defined.
#[export] Instance f64_eq_dec : EqDecision f64 := f64_eqdec.

Lemma SFcompare_rank a b :
  is_nan a = false -> is_nan b = false ->
  (SFcompare a b = Some Lt <-> rank_lt a b) /\ (SFcompare a b = Some Gt <-> rank_lt b a)
  /\ SFcompare a b <> None.
Proof.
  unfold rank_lt.
  destruct a as [sa|sa| |sa ma ea], b as [sb|sb| |sb mb eb]; try discriminate; intros _ _;
    destruct sa, sb; simpl; try (split; [|split]; [split|split|]; (discriminate || congruence || lia)).
  all: try (split; [|split]; [split|split|]; try discriminate; intros; try reflexivity; lia).
  all: destruct (Z.compare_spec ea eb); simpl;
    try (split; [|split]; [split|split|]; try discriminate; intros; try reflexivity; lia).
  all: change (Pos.compare_cont Eq ma mb) with (Pos.compare ma mb).
  all: destruct (Pos.compare_spec ma mb); simpl;
    try (split; [|split]; [split|split|]; try discriminate; intros; try reflexivity; lia).
Qed.

Lemma f64_lt_spec a b :
  f64_lt a b = true <-> is_nan a = false /\ is_nan b = false /\ rank_lt a b.
Proof.
  unfold f64_lt, SFltb. destruct (is_nan a) eqn:Ha, (is_nan b) eqn:Hb.
  1-3: destruct a, b; naive_solver.
  destruct (SFcompare_rank a b Ha Hb) as (Hl & Hg & Hn).
  destruct (SFcompare a b) as [[]|]; naive_solver.
Qed.

Lemma f64_le_spec a b :
  f64_le a b = true <-> is_nan a = false /\ is_nan b = false /\ ~ rank_lt b a.
Proof.
  unfold f64_le, SFleb. destruct (is_nan a) eqn:Ha, (is_nan b) eqn:Hb.
  1-3: destruct a, b; naive_solver.
  destruct (SFcompare_rank a b Ha Hb) as (Hl & Hg & Hn).
  destruct (SFcompare a b) as [[]|]; naive_solver.
Qed.

Lemma f64_lt_false a b :
  f64_lt a b = false <-> is_nan a = true \/ is_nan b = true \/ ~ rank_lt a b.
Proof.
  rewrite <- not_true_iff_false, f64_lt_spec.
  destruct (is_nan a), (is_nan b); unfold rank_lt; intuition (try discriminate; lia).
Qed.

Lemma f64_le_false a b :
  f64_le a b = false <-> is_nan a = true \/ is_nan b = true \/ rank_lt b a.
Proof.
  rewrite <- not_true_iff_false, f64_le_spec.
  destruct (is_nan a), (is_nan b); unfold rank_lt; intuition (try discriminate; lia).
Qed.

Lemma rank1_neg a : rank1 (f64_neg a) = - rank1 a.
Proof. by destruct a as [[]|[]| |[]]. Qed.
Lemma rank2_neg a : rank2 (f64_neg a) = - rank2 a.
Proof. destruct a as [[]|[]| |[]]; simpl; lia. Qed.
Lemma rank3_neg a : rank3 (f64_neg a) = - rank3 a.
Proof. by destruct a as [[]|[]| |[]]. Qed.
Lemma is_nan_neg a : is_nan (f64_neg a) = is_nan a.
Proof. by destruct a. Qed.
Lemma is_nan_abs a : is_nan (f64_abs a) = is_nan a.
Proof. by destruct a. Qed.
Lemma is_finite_not_nan a : is_finite a = true -> is_nan a = false.
Proof. by destruct a. Qed.

(** Reduce the comparisons of the context and of the goal to linear arithmetic
    on ranks. *)
Ltac f64_order :=
  unfold f64_gt, f64_ge in *; split_and?;
  repeat match goal with
  | H : f64_lt _ _ = true |- _ => apply f64_lt_spec in H as (? & ? & ?)
  | H : f64_le _ _ = true |- _ => apply f64_le_spec in H as (? & ? & ?)
  | H : f64_lt _ _ = false |- _ => apply f64_lt_false in H
  | H : f64_le _ _ = false |- _ => apply f64_le_false in H
  | |- f64_lt _ _ = true => apply f64_lt_spec
  | |- f64_le _ _ = true => apply f64_le_spec
  | |- f64_lt _ _ = false => apply f64_lt_false
  | |- f64_le _ _ = false => apply f64_le_false
  end;
  unfold rank_lt in *;
  rewrite ?rank1_neg, ?rank2_neg, ?rank3_neg, ?is_nan_neg, ?is_nan_abs in *;
  intuition (first [congruence | lia]).

Lemma f64_le_trans a b c : f64_le a b = true -> f64_le b c = true -> f64_le a c = true.
Proof. intros. f64_order. Qed.
Lemma f64_lt_le a b : f64_lt a b = true -> f64_le a b = true.
Proof. intros. f64_order. Qed.
Lemma f64_lt_le_trans a b c : f64_lt a b = true -> f64_le b c = true -> f64_lt a c = true.
Proof. intros. f64_order. Qed.
Lemma f64_le_lt_trans a b c : f64_le a b = true -> f64_lt b c = true -> f64_lt a c = true.
Proof. intros. f64_order. Qed.
Lemma f64_le_refl a : is_nan a = false -> f64_le a a = true.
Proof. intros. f64_order. Qed.
Lemma f64_not_lt_le a b :
  is_nan a = false -> is_nan b = false -> f64_lt a b = false -> f64_le b a = true.
Proof. intros. f64_order. Qed.
Lemma f64_le_not_gt a b :
  is_nan a = false -> is_nan b = false -> f64_le a b = negb (f64_lt b a).
Proof.
  intros Ha Hb. destruct (f64_lt b a) eqn:E; simpl; [|by apply f64_not_lt_le].
  apply not_true_is_false. intros H. f64_order.
Qed.
Lemma f64_le_not_nan a b : f64_le a b = true -> is_nan a = false /\ is_nan b = false.
Proof. intros. f64_order. Qed.
Lemma f64_neg_le a b : f64_le a b = true -> f64_le (f64_neg b) (f64_neg a) = true.
Proof. intros. f64_order. Qed.

(** ** [clamp] *)

Lemma clamp_ret x lo hi r :
  clamp x lo hi = Ret r ->
  is_nan x = false -> f64_le lo r = true /\ f64_le r hi = true.
Proof.
  unfold clamp. destruct (f64_le lo hi) eqn:?; [|done]. intros [= <-] ?.
  destruct (f64_lt x lo) eqn:?.
  - destruct (f64_gt lo hi) eqn:?; f64_order.
  - destruct (f64_gt x hi) eqn:?; f64_order.
Qed.

(** A clamped number stays on the near side of any bound the input and one of
    the clamp's ends respect. *)
Lemma clamp_le_bound x lo hi r b :
  clamp x lo hi = Ret r -> f64_le x b = true -> f64_le lo b = true -> f64_le r b = true.
Proof.
  unfold clamp. destruct (f64_le lo hi) eqn:?; [|done]. intros [= <-] ??.
  destruct (f64_lt x lo) eqn:?.
  - destruct (f64_gt lo hi) eqn:?; [f64_order|done].
  - destruct (f64_gt x hi) eqn:?; [f64_order|done].
Qed.

Lemma clamp_ge_bound x lo hi r b :
  clamp x lo hi = Ret r -> f64_le b x = true -> f64_le b hi = true -> f64_le b r = true.
Proof.
  unfold clamp. destruct (f64_le lo hi) eqn:?; [|done]. intros [= <-] ??.
  destruct (f64_lt x lo) eqn:?.
  - destruct (f64_gt lo hi) eqn:?; f64_order.
  - destruct (f64_gt x hi) eqn:?; [f64_order|done].
Qed.

Lemma clamp_total x lo hi : f64_le lo hi = true -> exists r, clamp x lo hi = Ret r.
Proof. intros H. unfold clamp. rewrite H. eauto. Qed.

Lemma clamp_nan lo hi : f64_le lo hi = true -> clamp S754_nan lo hi = Ret S754_nan.
Proof. intros H. unfold clamp. rewrite H. destruct lo, hi; done. Qed.

(** A symmetric range around zero is non-empty. *)
Lemma symmetric_range m : f64_le zero m = true -> f64_le (f64_neg m) m = true.
Proof.
  destruct m as [[]|[]| |[] m e]; done.
Qed.
