(* ===== verification/Float64Round.v ===== *)
(** * Rounding of [f64] sums

    The rounding steps of the executable binary64 specification, related to exact
    integer arithmetic: the rounded value of a dyadic number never crosses a
    representable number.  The consequences used by the safety filter are at the
    end: subtracting a non-negative number never goes up, adding one never goes
    down, and the results are again binary64 numbers. *)

From S2P Require Import Prelude Float64.

(** A number in canonical form, as every value a Rust program handles is. *)
Definition valid (a : f64) : bool := valid_binary 53 1024 a.

Notation fexp64 := (fexp 53 1024).

(** ** Digits *)

Lemma digits2_pos_log2 p : Zpos (digits2_pos p) = Z.log2 (Zpos p) + 1.
Proof.
  induction p as [p IH|p IH|]; [| |done]; cbn [digits2_pos]; rewrite Pos2Z.inj_succ, IH.
  - rewrite Pos2Z.inj_xI, Z.log2_succ_double by lia. lia.
  - rewrite Pos2Z.inj_xO, Z.log2_double by lia. lia.
Qed.

Lemma fexp_mono a b : a <= b -> fexp64 a <= fexp64 b.
Proof. unfold fexp. lia. Qed.

(** The exponent at which a positive dyadic number [m * 2^e] is rounded. *)
Definition grid (m e : Z) : Z := fexp64 (Z.log2 m + 1 + e).

Lemma grid_mono m e m' e' :
  0 < m -> e' <= e -> m * 2 ^ (e - e') <= m' -> grid m e <= grid m' e'.
Proof.
  intros Hm He H. apply fexp_mono.
  assert (Z.log2 (m * 2 ^ (e - e')) <= Z.log2 m') as Hl by by apply Z.log2_le_mono.
  rewrite Z.log2_mul_pow2 in Hl by lia. lia.
Qed.

Lemma grid_mono' m e m' e' :
  0 < m -> e <= e' -> m <= m' * 2 ^ (e' - e) -> 0 < m' -> grid m e <= grid m' e'.
Proof.
  intros Hm He H Hm'. apply fexp_mono.
  assert (Z.log2 m <= Z.log2 (m' * 2 ^ (e' - e))) as Hl by by apply Z.log2_le_mono.
  rewrite Z.log2_mul_pow2 in Hl by lia. lia.
Qed.

Lemma canonical_grid m e : canonical_mantissa 53 1024 m e = true <-> grid (Zpos m) e = e.
Proof.
  unfold canonical_mantissa, grid. rewrite Z.eqb_eq, digits2_pos_log2. done.
Qed.

(** Canonical representations are ordered as their values are. *)
Lemma canonical_order m e m' e' k :
  grid m e = e -> grid m' e' = e' -> 0 < m -> 0 < m' -> k <= e -> k <= e' ->
  m * 2 ^ (e - k) <= m' * 2 ^ (e' - k) ->
  e < e' \/ e = e' /\ m <= m'.
Proof.
  intros G G' Hm Hm' Hk Hk' H.
  assert (e <= e') as Hle.
  { rewrite <- G, <- G'. apply fexp_mono.
    assert (Z.log2 (m * 2 ^ (e - k)) <= Z.log2 (m' * 2 ^ (e' - k))) as Hl
      by by apply Z.log2_le_mono.
    rewrite !Z.log2_mul_pow2 in Hl by lia. lia. }
  destruct (Z.eq_dec e e') as [->|]; [right|left; lia].
  split; [done|]. apply Z.mul_le_mono_pos_r in H; [done|]. by apply Z.pow_pos_nonneg; lia.
Qed.

(** ** Shifting right with round and sticky bits *)

Definition shr_rep (m0 k : Z) (r : shr_record) : Prop :=
  shr_m r = m0 / 2 ^ k /\ (shr_r r || shr_s r)%bool = negb (m0 mod 2 ^ k =? 0).

Lemma shr_1_rep m0 k r : 0 <= m0 -> 0 <= k -> shr_rep m0 k r -> shr_rep m0 (k + 1) (shr_1 r).
Proof.
  intros Hm Hk [Hq Hr]. unfold shr_rep.
  assert (Hp : 0 < 2 ^ k) by (apply Z.pow_pos_nonneg; lia).
  rewrite Z.pow_add_r, Z.pow_1_r, <- Z.div_div, Z.rem_mul_r by lia.
  rewrite <- Hq.
  assert (Hodd : shr_m r mod 2 = if Z.odd (shr_m r) then 1 else 0) by apply Zmod_odd.
  assert (H0 : 0 <= shr_m r) by (rewrite Hq; apply Z.div_pos; lia).
  assert (Hb : 0 <= m0 mod 2 ^ k < 2 ^ k) by (apply Z.mod_pos_bound; lia).
  rewrite Hodd.
  assert (Hz : forall b : bool, (m0 mod 2 ^ k + 2 ^ k * (if b then 1 else 0) =? 0)
    = negb b && (m0 mod 2 ^ k =? 0)).
  { intros []; simpl; [apply Z.eqb_neq; lia|by rewrite Z.mul_0_r, Z.add_0_r]. }
  rewrite Hz, negb_andb, negb_involutive, <- Hr.
  destruct r as [m r s]; simpl in *.
  destruct m as [|[p|p|]|p]; try lia; simpl; (split; [|by destruct r, s]).
  - done.
  - rewrite Pos2Z.inj_xI. rewrite Z.add_comm, Z.mul_comm, Z.div_add by lia. done.
  - rewrite Pos2Z.inj_xO, Z.mul_comm, Z.div_mul by lia. done.
  - done.
Qed.

Lemma shr_iter_rep m0 p : forall k r,
  0 <= m0 -> 0 <= k -> shr_rep m0 k r -> shr_rep m0 (k + Zpos p) (iter_pos shr_1 p r).
Proof.
  induction p as [p IH|p IH|]; intros k r Hm Hk H; cbn [iter_pos].
  - replace (k + Zpos p~1) with (k + 1 + Zpos p + Zpos p) by lia.
    apply IH; [lia..|]. apply IH; [lia..|]. by apply shr_1_rep.
  - replace (k + Zpos p~0) with (k + Zpos p + Zpos p) by lia.
    apply IH; [lia..|]. by apply IH.
  - by apply shr_1_rep.
Qed.

Lemma shr_fexp_exact m e :
  0 < m -> e <= grid m e ->
  let '(r, e') := shr_fexp 53 1024 m e loc_Exact in
  e' = grid m e /\ shr_rep m (e' - e) r.
Proof.
  intros Hm He. unfold shr_fexp, shr, shr_record_of_loc.
  assert (fexp64 (Zdigits2 m + e) = grid m e) as ->.
  { destruct m; try lia. unfold grid. cbn [Zdigits2]. by rewrite digits2_pos_log2. }
  destruct (grid m e - e) as [|p|p] eqn:Hd; [| |lia].
  - split; [lia|]. replace (e - e) with 0 by lia.
    split; simpl; [by rewrite Z.div_1_r|by rewrite Z.mod_1_r].
  - split; [lia|]. replace (e + Zpos p - e) with (0 + Zpos p) by lia.
    apply shr_iter_rep; [lia..|].
    split; simpl; [by rewrite Z.div_1_r|by rewrite Z.mod_1_r].
Qed.

(** Rounding to nearest picks the quotient, or its successor when the division is
    not exact. *)
Lemma round_choice m k r :
  shr_rep m k r ->
  let q := round_nearest_even (shr_m r) (loc_of_shr_record r) in
  q = m / 2 ^ k \/ q = m / 2 ^ k + 1 /\ m mod 2 ^ k <> 0.
Proof.
  intros [Hq Hr]. destruct r as [mr [] []]; simpl in *; subst;
    [right|destruct (Z.even _); [by left|right]|by left|by left]; (split; [done|]);
    intros H; rewrite H in Hr; done.
Qed.

(** ** The rounded number *)

(** What [binary_round_aux] makes of the exact dyadic [m * 2^e]: with [e1] the
    rounding exponent, the rounded multiple [q] of [2^e1], in canonical form, or
    infinity beyond the largest exponent. *)
Inductive rounded (s : bool) (m e : Z) : f64 -> Prop :=
| rounded_zero : m / 2 ^ (grid m e - e) = 0 -> rounded s m e (S754_zero s)
| rounded_finite (m' : positive) (e' : Z) (q : Z) :
    grid (Zpos m') e' = e' -> e' <= 971 -> grid m e <= e' ->
    Zpos m' * 2 ^ (e' - grid m e) = q ->
    q = m / 2 ^ (grid m e - e) \/ q = m / 2 ^ (grid m e - e) + 1 /\ m mod 2 ^ (grid m e - e) <> 0 ->
    rounded s m e (S754_finite s m' e')
| rounded_infinity (m' : positive) (e' : Z) (q : Z) :
    grid (Zpos m') e' = e' -> 971 < e' -> grid m e <= e' ->
    Zpos m' * 2 ^ (e' - grid m e) = q ->
    q = m / 2 ^ (grid m e - e) \/ q = m / 2 ^ (grid m e - e) + 1 /\ m mod 2 ^ (grid m e - e) <> 0 ->
    rounded s m e (S754_infinity s).

Lemma log2_div_pow2 m k : 0 <= k -> 0 < m / 2 ^ k -> Z.log2 (m / 2 ^ k) = Z.log2 m - k.
Proof.
  intros Hk Hq. rewrite <- Z.shiftr_div_pow2 by lia.
  assert (0 < 2 ^ k) by (apply Z.pow_pos_nonneg; lia).
  assert (0 < m).
  { destruct (Z.le_gt_cases m 0) as [Hm|]; [|lia].
    pose proof (Z.div_le_mono m 0 (2 ^ k) ltac:(lia) Hm). rewrite Z.div_0_l in *; lia. }
  rewrite Z.log2_shiftr by lia. apply Z.max_r.
  rewrite <- Z.shiftr_div_pow2 in Hq by lia.
  pose proof (Z.log2_nonneg (Z.shiftr m k)) as Hn.
  rewrite Z.log2_shiftr in Hn by lia.
  destruct (Z.le_gt_cases k (Z.log2 m)); [lia|].
  rewrite Z.shiftr_eq_0 in Hq by lia. lia.
Qed.

(** The candidate multiples sit on or above their own rounding grid, and moving
    them there loses nothing. *)
Lemma rounded_multiple m e q :
  0 < m -> e <= grid m e -> 0 < q ->
  q = m / 2 ^ (grid m e - e) \/ q = m / 2 ^ (grid m e - e) + 1 /\ m mod 2 ^ (grid m e - e) <> 0 ->
  grid m e <= grid q (grid m e) /\ q mod 2 ^ (grid q (grid m e) - grid m e) = 0.
Proof.
  intros Hm He Hq Hc. set (e1 := grid m e) in *. set (q0 := m / 2 ^ (e1 - e)) in *.
  assert (Hsame : 0 < q0 -> grid q0 e1 = e1).
  { intros Hq0. unfold grid, q0. rewrite log2_div_pow2 by lia.
    replace (Z.log2 m - (e1 - e) + 1 + e1) with (Z.log2 m + 1 + e) by lia. done. }
  destruct Hc as [->|[-> Hr]]; [rewrite (Hsame Hq), Z.sub_diag, Z.mod_1_r; split; [lia|done]|].
  assert (0 <= q0) by (apply Z.div_pos; [lia|apply Z.pow_pos_nonneg; lia]).
  destruct (Z.eq_dec q0 0) as [Hz|Hz].
  - assert (e1 = -1074) as Hmin.
    { apply Z.div_small_iff in Hz; [|apply Z.pow_nonzero; lia].
      destruct Hz as [[_ Hz]|]; [|lia]. apply Z.log2_lt_pow2 in Hz; [|lia].
      unfold e1, grid, fexp, emin in *. lia. }
    rewrite Hz. unfold grid, fexp, emin. simpl.
    replace (Z.max _ _) with e1 by lia. rewrite Z.sub_diag, Z.mod_1_r. split; [lia|done].
  - assert (0 < q0) as Hq0 by lia. specialize (Hsame Hq0).
    destruct (Z.log2_spec q0 Hq0) as [Hlo Hhi].
    destruct (Z.eq_dec (q0 + 1) (2 ^ Z.succ (Z.log2 q0))) as [Hp|Hp].
    + assert (0 <= Z.log2 q0) by apply Z.log2_nonneg.
      assert (Hl : Z.log2 (q0 + 1) = Z.log2 q0 + 1) by (rewrite Hp, Z.log2_pow2; lia).
      assert (Hg : grid (q0 + 1) e1 = e1 \/ grid (q0 + 1) e1 = e1 + 1).
      { rewrite <- Hsame at 2 4. unfold grid, fexp. rewrite Hl. lia. }
      destruct Hg as [-> | ->]; [rewrite Z.sub_diag, Z.mod_1_r; split; [lia|done]|].
      split; [lia|]. replace (e1 + 1 - e1) with 1 by lia.
      rewrite Hp, Z.pow_succ_r, Z.mul_comm by lia. apply Z.mod_mul. lia.
    + assert (Hl : Z.log2 (q0 + 1) = Z.log2 q0) by (apply Z.log2_unique; [apply Z.log2_nonneg|lia]).
      assert (grid (q0 + 1) e1 = e1) as ->.
      { rewrite <- Hsame at 2. unfold grid. by rewrite Hl. }
      rewrite Z.sub_diag, Z.mod_1_r. split; [lia|done].
Qed.

Lemma shr_fexp_zero e :
  -1074 <= e ->
  shr_fexp 53 1024 0 e loc_Exact = ({| shr_m := 0; shr_r := false; shr_s := false |}, e).
Proof.
  intros He. unfold shr_fexp, shr, fexp, emin. cbn [Zdigits2 shr_record_of_loc].
  by destruct (_ - _) eqn:Hd; try (exfalso; lia).
Qed.

Lemma binary_round_aux_rounded s m e :
  0 < m -> e <= grid m e -> rounded s m e (binary_round_aux 53 1024 s m e loc_Exact).
Proof.
  intros Hm He. unfold binary_round_aux.
  pose proof (shr_fexp_exact m e Hm He) as H1.
  destruct (shr_fexp 53 1024 m e loc_Exact) as [r e1]. destruct H1 as [-> Hr].
  pose proof (round_choice _ _ _ Hr) as Hc. cbv zeta in Hc.
  set (q := round_nearest_even _ _) in *.
  assert (0 <= m / 2 ^ (grid m e - e)) by (apply Z.div_pos; [lia|apply Z.pow_pos_nonneg; lia]).
  destruct (Z.eq_dec q 0) as [Hz|Hz].
  { rewrite Hz, shr_fexp_zero by (unfold grid, fexp, emin; lia). simpl. constructor. lia. }
  assert (0 < q) as Hq by lia.
  destruct (rounded_multiple m e q Hm He Hq Hc) as [Hg Hexact].
  pose proof (shr_fexp_exact q (grid m e) Hq Hg) as H2.
  destruct (shr_fexp 53 1024 q (grid m e) loc_Exact) as [r2 e2]. destruct H2 as [-> [Hr2 _]].
  set (e2 := grid q (grid m e)) in *.
  assert (Hdiv : shr_m r2 * 2 ^ (e2 - grid m e) = q).
  { rewrite Hr2, Z.mul_comm. symmetry. apply Z.div_exact; [|done].
    apply Z.pow_nonzero; lia. }
  assert (Hpos : 0 < shr_m r2).
  { assert (0 < 2 ^ (e2 - grid m e)) by (apply Z.pow_pos_nonneg; lia). nia. }
  assert (Hcan : grid (shr_m r2) e2 = e2).
  { unfold grid at 1. rewrite Hr2, log2_div_pow2 by (rewrite <- ?Hr2; lia).
    replace (Z.log2 q - (e2 - grid m e) + 1 + e2) with (Z.log2 q + 1 + grid m e) by lia. done. }
  destruct (shr_m r2) as [|p|p]; try lia.
  destruct (Z.leb_spec e2 (1024 - 53)); econstructor; eauto; lia.
Qed.

(** ** Comparing a rounded number with a representable one *)

Lemma rounded_valid s m e r : rounded s m e r -> valid r = true.
Proof.
  intros [|m' e' q Hg He _ _ _|]; try done.
  unfold valid, valid_binary, bounded. rewrite (proj2 (canonical_grid m' e') Hg).
  apply Z.leb_le. lia.
Qed.

Lemma rounded_sign s m e r : rounded s m e r -> r = (if s then f64_neg (f64_abs r) else f64_abs r).
Proof. by intros []; destruct s. Qed.

Lemma valid_grid s m e : valid (S754_finite s m e) = true -> grid (Zpos m) e = e /\ e <= 971.
Proof.
  unfold valid, valid_binary, bounded. intros H. bool_prop.
  rewrite canonical_grid in H. lia.
Qed.

Lemma finite_le m e m' e' :
  e < e' \/ e = e' /\ Zpos m <= Zpos m' ->
  f64_le (S754_finite false m e) (S754_finite false m' e') = true.
Proof. intros H. apply f64_le_spec. unfold rank_lt. simpl. split_and!; [done..|lia]. Qed.

Lemma pow2_split a b c : 0 <= a -> 0 <= b -> c = a + b -> 2 ^ c = 2 ^ a * 2 ^ b.
Proof. intros ?? ->. by apply Z.pow_add_r. Qed.

(** A rounded multiple is at most any multiple of the grid that bounds the exact
    number. *)
Lemma candidate_upper m k q b :
  0 <= k -> m <= b * 2 ^ k ->
  q = m / 2 ^ k \/ q = m / 2 ^ k + 1 /\ m mod 2 ^ k <> 0 -> q <= b.
Proof.
  intros Hk H Hq. assert (0 < 2 ^ k) by (apply Z.pow_pos_nonneg; lia).
  pose proof (Z.div_mod m (2 ^ k) ltac:(lia)). pose proof (Z.mod_pos_bound m (2 ^ k) ltac:(lia)).
  destruct Hq as [->|[-> ?]]; nia.
Qed.

Lemma candidate_lower m k q b :
  0 <= k -> b * 2 ^ k <= m ->
  q = m / 2 ^ k \/ q = m / 2 ^ k + 1 /\ m mod 2 ^ k <> 0 -> b <= q.
Proof.
  intros Hk H Hq. assert (0 < 2 ^ k) by (apply Z.pow_pos_nonneg; lia).
  assert (b <= m / 2 ^ k) by (apply Z.div_le_lower_bound; lia). lia.
Qed.

Section Magnitude.
Context (s : bool) (m e : Z) (r : f64) (mp : positive) (ep : Z).
Context (Hm : 0 < m) (He : e <= grid m e) (Hr : rounded s m e r).
Context (Hp : valid (S754_finite false mp ep) = true) (Hep : e <= ep).

Lemma rounded_upper :
  m <= Zpos mp * 2 ^ (ep - e) -> f64_le (f64_abs r) (S754_finite false mp ep) = true.
Proof using Hm He Hr Hp Hep.
  intros H. destruct (valid_grid _ _ _ Hp) as [Gp Bp].
  assert (grid m e <= ep) as Hle by (rewrite <- Gp; by apply grid_mono').
  assert (Hb : m <= Zpos mp * 2 ^ (ep - grid m e) * 2 ^ (grid m e - e)).
  { rewrite <- Z.mul_assoc, <- pow2_split with (c := ep - e); lia. }
  destruct Hr as [|m' e' q G B L Hq C|m' e' q G B L Hq C]; [done| |].
  - apply finite_le. apply (candidate_upper _ _ q) in Hb; [|lia|done].
    rewrite <- Hq in Hb. eapply canonical_order; eauto; lia.
  - exfalso. apply (candidate_upper _ _ q) in Hb; [|lia|done]. rewrite <- Hq in Hb.
    assert (e' < ep \/ e' = ep /\ Zpos m' <= Zpos mp); [|lia].
    eapply canonical_order; eauto; lia.
Qed.

Lemma rounded_lower :
  Zpos mp * 2 ^ (ep - e) <= m -> f64_le (S754_finite false mp ep) (f64_abs r) = true.
Proof using Hm He Hr Hp Hep.
  intros H. destruct (valid_grid _ _ _ Hp) as [Gp Bp].
  assert (ep <= grid m e) as Hle by (rewrite <- Gp at 1; apply grid_mono; lia).
  destruct Hr as [Hz|m' e' q G B L Hq C|m' e' q G B L Hq C]; [|apply finite_le|done].
  - exfalso. assert (H0 : 0 < 2 ^ (grid m e - e)) by (apply Z.pow_pos_nonneg; lia).
    apply Z.div_small_iff in Hz; [|lia]. destruct Hz as [[_ Hz]|]; [|lia].
    destruct (Z.eq_dec ep (grid m e)) as [Heq|]; [rewrite <- Heq in Hz; nia|].
    apply Z.log2_lt_pow2 in Hz; [|lia].
    unfold grid, fexp, emin in *. lia.
  - destruct (Z.eq_dec e' ep) as [->|]; [right|left; lia]. split; [done|].
    assert (grid m e = ep) as Hgm by lia. rewrite Hgm in *.
    rewrite Z.sub_diag, Z.mul_1_r in Hq. subst q.
    by eapply candidate_lower; [..|exact C]; [lia|].
Qed.
End Magnitude.

Lemma iter_xO_pow p d : Zpos (Pos.iter xO p d) = Zpos p * 2 ^ Zpos d.
Proof.
  induction d as [|d IH] using Pos.peano_ind; [by rewrite Z.pow_1_r, Z.mul_comm|].
  rewrite Pos.iter_succ, Pos2Z.inj_xO, IH, Pos2Z.inj_succ, Z.pow_succ_r by lia. lia.
Qed.

Lemma shl_align_fst m e e' :
  e' <= e -> Zpos (fst (shl_align m e e')) = Zpos m * 2 ^ (e - e').
Proof.
  intros H. unfold shl_align. destruct (e' - e) as [|p|p] eqn:Hd; simpl; [|lia|].
  - replace (e - e') with 0 by lia. lia.
  - rewrite iter_xO_pow. f_equal. f_equal. lia.
Qed.

(** [binary_round] moves the mantissa onto the grid, then rounds. *)
Lemma binary_round_rounded s mx ex :
  exists m e, 0 < m /\ e <= grid m e /\ e <= ex /\ m = Zpos mx * 2 ^ (ex - e)
    /\ rounded s m e (binary_round 53 1024 s mx ex).
Proof.
  unfold binary_round. rewrite digits2_pos_log2. fold (grid (Zpos mx) ex).
  unfold shl_align. destruct (grid (Zpos mx) ex - ex) as [|d|d] eqn:Hd.
  1-2: exists (Zpos mx), ex; split_and!; try lia; [by rewrite Z.sub_diag, Z.mul_1_r|];
    apply binary_round_aux_rounded; lia.
  assert (Hg : grid (Zpos (Pos.iter xO mx d)) (grid (Zpos mx) ex) = grid (Zpos mx) ex).
  { rewrite iter_xO_pow. unfold grid at 1. rewrite Z.log2_mul_pow2 by lia.
    replace (Zpos d) with (ex - grid (Zpos mx) ex) by lia.
    replace (_ + 1 + _) with (Z.log2 (Zpos mx) + 1 + ex) by lia. done. }
  exists (Zpos (Pos.iter xO mx d)), (grid (Zpos mx) ex). split_and!; try lia.
  - rewrite iter_xO_pow. f_equal. f_equal. lia.
  - apply binary_round_aux_rounded; lia.
Qed.

Lemma binary_normalize_valid m e sz : valid (binary_normalize 53 1024 m e sz) = true.
Proof.
  destruct m as [|p|p]; [done|..]; cbn.
  1: destruct (binary_round_rounded false p e) as (? & ? & ? & ? & ? & ? & H).
  2: destruct (binary_round_rounded true p e) as (? & ? & ? & ? & ? & ? & H).
  all: by eapply rounded_valid.
Qed.

Lemma binary_round_upper s mx ex mp ep :
  valid (S754_finite false mp ep) = true -> ex <= ep -> Zpos mx <= Zpos mp * 2 ^ (ep - ex) ->
  f64_le (f64_abs (binary_round 53 1024 s mx ex)) (S754_finite false mp ep) = true.
Proof.
  intros Hp He H. destruct (binary_round_rounded s mx ex) as (m & e & ? & ? & ? & -> & Hr).
  eapply rounded_upper; eauto; [lia|].
  rewrite (pow2_split (ep - ex) (ex - e) (ep - e)) by lia.
  assert (0 < 2 ^ (ex - e)) by (apply Z.pow_pos_nonneg; lia). nia.
Qed.

Lemma binary_round_lower s mx ex mp ep :
  valid (S754_finite false mp ep) = true -> ex <= ep -> Zpos mp * 2 ^ (ep - ex) <= Zpos mx ->
  f64_le (S754_finite false mp ep) (f64_abs (binary_round 53 1024 s mx ex)) = true.
Proof.
  intros Hp He H. destruct (binary_round_rounded s mx ex) as (m & e & ? & ? & ? & -> & Hr).
  eapply rounded_lower; eauto; [lia|].
  rewrite (pow2_split (ep - ex) (ex - e) (ep - e)) by lia.
  assert (0 < 2 ^ (ex - e)) by (apply Z.pow_pos_nonneg; lia). nia.
Qed.

Lemma binary_round_sign s mx ex :
  binary_round 53 1024 s mx ex =
  (if s then f64_neg (f64_abs (binary_round 53 1024 s mx ex))
   else f64_abs (binary_round 53 1024 s mx ex)).
Proof.
  destruct (binary_round_rounded s mx ex) as (? & ? & ? & ? & ? & ? & H).
  by eapply rounded_sign.
Qed.

(** The normalised exact sum [m * 2^e] does not cross a representable number whose
    exponent is at least [e]. *)
Lemma normalize_le m e s mp ep :
  valid (S754_finite s mp ep) = true -> e <= ep ->
  m <= cond_Zopp s (Zpos mp) * 2 ^ (ep - e) ->
  f64_le (binary_normalize 53 1024 m e false) (S754_finite s mp ep) = true.
Proof.
  intros Hp He H. assert (0 < 2 ^ (ep - e)) by (apply Z.pow_pos_nonneg; lia).
  destruct m as [|p|p], s; simpl in *; try lia; try done.
  - rewrite binary_round_sign. by apply binary_round_upper.
  - rewrite binary_round_sign.
    apply (f64_neg_le (S754_finite false mp ep)). apply binary_round_lower; [done..|lia].
  - destruct (binary_round_rounded true p e) as (? & ? & ? & ? & ? & ? & Hr).
    by destruct Hr.
Qed.

Lemma normalize_ge m e s mp ep :
  valid (S754_finite s mp ep) = true -> e <= ep ->
  cond_Zopp s (Zpos mp) * 2 ^ (ep - e) <= m ->
  f64_le (S754_finite s mp ep) (binary_normalize 53 1024 m e false) = true.
Proof.
  intros Hp He H. assert (0 < 2 ^ (ep - e)) by (apply Z.pow_pos_nonneg; lia).
  destruct m as [|p|p], s; simpl in *; try lia; try done.
  - destruct (binary_round_rounded false p e) as (? & ? & ? & ? & ? & ? & Hr).
    by destruct Hr.
  - rewrite binary_round_sign. by apply binary_round_lower.
  - rewrite binary_round_sign.
    apply (f64_neg_le _ (S754_finite false mp ep)). apply binary_round_upper; [done..|lia].
Qed.

(** ** Sums and products *)

Lemma f64_sub_valid a b : valid a = true -> valid b = true -> valid (f64_sub a b) = true.
Proof.
  intros Ha Hb. destruct a as [[]|[]| |sa ma ea], b as [[]|[]| |sb mb eb]; try done.
  apply binary_normalize_valid.
Qed.

Lemma f64_add_valid a b : valid a = true -> valid b = true -> valid (f64_add a b) = true.
Proof.
  intros Ha Hb. destruct a as [[]|[]| |sa ma ea], b as [[]|[]| |sb mb eb]; try done.
  apply binary_normalize_valid.
Qed.

Lemma mul_on_grid sa ma ea sb mb eb :
  valid (S754_finite sa ma ea) = true -> valid (S754_finite sb mb eb) = true ->
  ea + eb <= grid (Zpos (ma * mb)) (ea + eb).
Proof.
  intros [Ga Ba]%valid_grid [Gb Bb]%valid_grid.
  rewrite Pos2Z.inj_mul. unfold grid, fexp, emin in *.
  pose proof (Z.log2_mul_below (Zpos ma) (Zpos mb) ltac:(lia) ltac:(lia)).
  pose proof (Z.log2_nonneg (Zpos ma)). pose proof (Z.log2_nonneg (Zpos mb)). lia.
Qed.

Lemma f64_mul_valid a b : valid a = true -> valid b = true -> valid (f64_mul a b) = true.
Proof.
  intros Ha Hb. destruct a as [[]|[]| |sa ma ea], b as [[]|[]| |sb mb eb]; try done.
  eapply rounded_valid. apply binary_round_aux_rounded; [lia|].
  by apply mul_on_grid with sa sb.
Qed.

(** Subtracting a non-negative number never goes up. *)
Lemma f64_sub_le a d :
  valid a = true -> is_finite a = true -> f64_le zero d = true -> f64_le (f64_sub a d) a = true.
Proof.
  intros Ha Hf Hd. destruct a as [sa| | |sa ma ea]; try done; destruct d as [sd|[]| |[] md ed];
    try done; try (by destruct sa, sd); try (by destruct sa); try by apply f64_le_refl.
  unfold f64_sub, SFsub. apply normalize_le; [done|lia|].
  rewrite !shl_align_fst by lia.
  assert (0 < 2 ^ (ed - Z.min ea ed)) by (apply Z.pow_pos_nonneg; lia).
  destruct sa; simpl; nia.
Qed.

(** Adding a non-negative number never goes down. *)
Lemma f64_add_ge a d :
  valid a = true -> is_finite a = true -> f64_le zero d = true -> f64_le a (f64_add a d) = true.
Proof.
  intros Ha Hf Hd. destruct a as [sa| | |sa ma ea]; try done; destruct d as [sd|[]| |[] md ed];
    try done; try (by destruct sa, sd); try (by destruct sa); try by apply f64_le_refl.
  unfold f64_add, SFadd. apply normalize_ge; [done|lia|].
  rewrite !shl_align_fst by lia.
  assert (0 < 2 ^ (ed - Z.min ea ed)) by (apply Z.pow_pos_nonneg; lia).
  destruct sa; simpl; nia.
Qed.

(** The product of non-negative finite numbers is non-negative. *)
Lemma f64_mul_nonneg a b :
  valid a = true -> valid b = true -> is_finite a = true -> is_finite b = true ->
  f64_le zero a = true -> f64_le zero b = true -> f64_le zero (f64_mul a b) = true.
Proof.
  intros Va Vb Ha Hb Ha' Hb'. destruct a as [sa| | |[] ma ea], b as [sb| | |[] mb eb]; try done.
  assert (Hr : rounded false (Zpos (ma * mb)) (ea + eb)
    (f64_mul (S754_finite false ma ea) (S754_finite false mb eb))).
  { apply binary_round_aux_rounded; [lia|by apply mul_on_grid with false false]. }
  by destruct Hr.
Qed.

(** A unit times a number keeps within the number's magnitude. *)
Lemma f64_mul_unit (s : bool) (a : f64) :
  valid a = true -> is_finite a = true -> f64_le zero a = true ->
  let r := f64_mul (if s then f64_neg one else one) a in
  is_finite r = true /\ f64_le (f64_abs r) a = true.
Proof.
  intros Va Fa Ha. destruct a as [sa| | |[] m e]; try done; [by destruct s, sa|].
  change one with (S754_finite false (2 ^ 52) (-52)) in *.
  assert (Hr : rounded s (Zpos (2 ^ 52 * m)) (-52 + e)
    (f64_mul (if s then f64_neg (S754_finite false (2 ^ 52) (-52)) else S754_finite false (2 ^ 52) (-52))
       (S754_finite false m e))).
  { assert (Hg : -52 + e <= grid (Zpos (2 ^ 52 * m)) (-52 + e)) by by apply (mul_on_grid false _ _ false).
    pose proof (binary_round_aux_rounded s _ _ (Pos2Z.is_pos _) Hg). by destruct s. }
  cbv zeta. revert Hr. generalize (f64_mul
    (if s then f64_neg (S754_finite false (2 ^ 52) (-52)) else S754_finite false (2 ^ 52) (-52))
    (S754_finite false m e)). intros r Hr.
  assert (Hu : f64_le (f64_abs r) (S754_finite false m e) = true).
  { eapply rounded_upper; [..|exact Hr|exact Va| |]; [lia|by apply (mul_on_grid false _ _ false)|lia|].
    replace (e - (-52 + e)) with 52 by lia. lia. }
  split; [|done]. by destruct Hr.
Qed.

(** ** A difference is zero only between equal numbers *)

Lemma valid_exponent s m e : valid (S754_finite s m e) = true -> -1074 <= e.
Proof. intros [G _]%valid_grid. rewrite <- G. unfold grid, fexp, emin. lia. Qed.

Lemma rounded_nonzero s m e r :
  0 < m -> e <= grid m e -> -1074 <= Z.log2 m + e -> rounded s m e r -> r <> S754_zero s.
Proof.
  intros Hm He Hl Hr ->. inversion Hr as [Hz| |]. clear Hr.
  assert (0 < 2 ^ (grid m e - e)) as Hp by (apply Z.pow_pos_nonneg; lia).
  pose proof (Z.div_mod m _ (Z.neq_sym _ _ (Z.lt_neq _ _ Hp))) as Hd. rewrite Hz in Hd.
  pose proof (Z.mod_pos_bound m _ Hp). assert (m < 2 ^ (grid m e - e)) as Hlt by lia.
  apply Z.log2_lt_pow2 in Hlt; [|done]. unfold grid, fexp, emin in *. lia.
Qed.

Lemma binary_round_nonzero s p e s' :
  -1074 <= e -> binary_round 53 1024 s p e <> S754_zero s'.
Proof.
  intros He Hz. pose proof (binary_round_sign s p e) as Hs.
  destruct (binary_round_rounded s p e) as (m & e' & Hm & Hg & Hle & Heq & Hr).
  rewrite Hz in Hr, Hs. assert (s' = s) as -> by (destruct s, s'; done).
  eapply (rounded_nonzero s m e'); [done..| |exact Hr|done].
  rewrite Heq, Z.log2_mul_pow2 by lia. pose proof (Z.log2_nonneg (Zpos p)). lia.
Qed.

Lemma f64_sub_zero a b s :
  valid a = true -> valid b = true -> is_finite a = true -> is_finite b = true ->
  f64_sub a b = S754_zero s -> f64_lt a b = false /\ f64_lt b a = false.
Proof.
  intros Va Vb Fa Fb Hz.
  destruct a as [sa| | |sa ma ea], b as [sb| | |sb mb eb]; try done.
  destruct (valid_grid _ _ _ Va) as [Ga _], (valid_grid _ _ _ Vb) as [Gb _].
  apply valid_exponent in Va as La. apply valid_exponent in Vb as Lb.
  unfold f64_sub, SFsub in Hz. rewrite !shl_align_fst in Hz by lia.
  set (e := Z.min ea eb) in *.
  assert (cond_Zopp sa (Zpos ma * 2 ^ (ea - e)) = cond_Zopp sb (Zpos mb * 2 ^ (eb - e))) as He.
  { destruct (_ - _) as [|p|p] eqn:Hd in Hz; [lia|..]; cbn in Hz;
      by apply binary_round_nonzero in Hz; [|lia]. }
  assert (0 < 2 ^ (ea - e) /\ 0 < 2 ^ (eb - e)) by (split; apply Z.pow_pos_nonneg; lia).
  assert (sa = sb) as -> by (destruct sa, sb; simpl in He; nia).
  assert (Zpos ma * 2 ^ (ea - e) = Zpos mb * 2 ^ (eb - e)) as Hv by (destruct sb; simpl in He; lia).
  assert (ea = eb /\ ma = mb) as [-> ->].
  { destruct (canonical_order (Zpos ma) ea (Zpos mb) eb e), (canonical_order (Zpos mb) eb (Zpos ma) ea e);
      try done; lia. }
  split; f64_order.
Qed.


(** ** No NaN from finite numbers *)

Lemma rounded_not_nan s m e r : rounded s m e r -> is_nan r = false.
Proof. by intros []. Qed.

Lemma binary_normalize_not_nan m e sz : is_nan (binary_normalize 53 1024 m e sz) = false.
Proof.
  destruct m as [|p|p]; [done|..]; cbn.
  1: destruct (binary_round_rounded false p e) as (? & ? & ? & ? & ? & ? & H).
  2: destruct (binary_round_rounded true p e) as (? & ? & ? & ? & ? & ? & H).
  all: by apply rounded_not_nan in H.
Qed.

Lemma f64_sub_not_nan a b :
  is_finite a = true -> is_finite b = true -> is_nan (f64_sub a b) = false.
Proof.
  intros Ha Hb. destruct a as [[]|[]| |sa ma ea], b as [[]|[]| |sb mb eb]; try done.
  apply binary_normalize_not_nan.
Qed.

(** A difference of ordered numbers is not positive. *)
Lemma f64_sub_nonpos a b :
  valid a = true -> valid b = true -> is_finite a = true -> is_finite b = true ->
  f64_le a b = true -> f64_le (f64_sub a b) zero = true.
Proof.
  intros Va Vb Fa Fb Hle.
  destruct a as [sa| | |sa ma ea], b as [sb| | |sb mb eb]; try done; try (by destruct sa, sb);
    try (destruct sb; try done; cbn; f64_order); try (destruct sa; try done; cbn; f64_order).
  destruct (valid_grid _ _ _ Va) as [Ga _], (valid_grid _ _ _ Vb) as [Gb _].
  unfold f64_sub, SFsub. rewrite !shl_align_fst by lia. set (e := Z.min ea eb). assert (e <= ea /\ e <= eb) by (unfold e; lia).
  assert (0 < 2 ^ (ea - e) /\ 0 < 2 ^ (eb - e)) by (split; apply Z.pow_pos_nonneg; lia).
  assert (cond_Zopp sa (Zpos ma * 2 ^ (ea - e)) - cond_Zopp sb (Zpos mb * 2 ^ (eb - e)) <= 0) as Hd.
  { apply f64_le_spec in Hle as (_ & _ & Hle). unfold rank_lt in Hle. simpl in Hle.
    clearbody e. destruct sa, sb; simpl in *; try nia; apply Znot_gt_le; intros Hgt.
    - assert (ea < eb \/ ea = eb /\ Zpos ma <= Zpos mb) as [?|[-> ?]]; [|exfalso; lia|assert (ma = mb) as -> by lia; lia].
      apply (canonical_order _ _ _ _ e); first [done|lia].
    - assert (eb < ea \/ eb = ea /\ Zpos mb <= Zpos ma) as [?|[-> ?]]; [|exfalso; lia|assert (ma = mb) as -> by lia; lia].
      apply (canonical_order _ _ _ _ e); first [done|lia]. }
  destruct (cond_Zopp sa _ - cond_Zopp sb _) as [|p|p]; [done|lia|]. simpl. rewrite binary_round_sign.
  destruct (binary_round 53 1024 true p e) as [[]|[]| |[] ? ?] eqn:Hr; try done.
  pose proof (binary_normalize_not_nan (Zneg p) e false) as Hn. simpl in Hn. by rewrite Hr in Hn.
Qed.
