(* ===== verification/Float64Mono.v ===== *)
(** * Addition of [f64] is monotone

    Rounding to nearest, ties to even, keeps the order of exact dyadic numbers, so adding a
    non-negative number to two ordered non-negative numbers keeps their order.  The dynamic
    programs over floating-point costs ([SimDistance]) rest on this. *)

From S2P Require Import Prelude Float64 Float64Round.

(** The integer nearest to [m / 2^k], ties to even. *)
Definition nearest (m k : Z) : Z :=
  let q := m / 2 ^ k in
  let r := m mod 2 ^ k in
  if 2 * r <? 2 ^ k then q
  else if 2 * r =? 2 ^ k then (if Z.even q then q else q + 1)
  else q + 1.

Lemma nearest_choice m k : 0 <= k ->
  nearest m k = m / 2 ^ k \/ nearest m k = m / 2 ^ k + 1 /\ m mod 2 ^ k <> 0.
Proof.
  intros Hk. assert (0 < 2 ^ k) by (apply Z.pow_pos_nonneg; lia). unfold nearest.
  destruct (Z.ltb_spec (2 * (m mod 2 ^ k)) (2 ^ k)); [by left|].
  destruct (Z.eqb_spec (2 * (m mod 2 ^ k)) (2 ^ k)); [destruct (Z.even _); [by left|]|]; right; split; (done || lia).
Qed.

(** Scaling both sides by a power of two changes nothing. *)
Lemma nearest_scale m k d : 0 <= k -> 0 <= d -> nearest (m * 2 ^ d) (k + d) = nearest m k.
Proof.
  intros Hk Hd. assert (0 < 2 ^ k) by (apply Z.pow_pos_nonneg; lia). assert (0 < 2 ^ d) by (apply Z.pow_pos_nonneg; lia).
  unfold nearest. rewrite Z.pow_add_r, Z.div_mul_cancel_r, Zmult_mod_distr_r by lia.
  replace (2 * (m mod 2 ^ k * 2 ^ d) <? 2 ^ k * 2 ^ d) with (2 * (m mod 2 ^ k) <? 2 ^ k).
  2: { apply Bool.eq_iff_eq_true. rewrite !Z.ltb_lt. nia. }
  replace (2 * (m mod 2 ^ k * 2 ^ d) =? 2 ^ k * 2 ^ d) with (2 * (m mod 2 ^ k) =? 2 ^ k); [done|].
  apply Bool.eq_iff_eq_true. rewrite !Z.eqb_eq. nia.
Qed.

Lemma nearest_mono m m' k : 0 <= k -> m <= m' -> nearest m k <= nearest m' k.
Proof.
  intros Hk Hm. assert (0 < 2 ^ k) by (apply Z.pow_pos_nonneg; lia).
  pose proof (Z.div_mod m (2 ^ k) ltac:(lia)). pose proof (Z.div_mod m' (2 ^ k) ltac:(lia)).
  pose proof (Z.mod_pos_bound m (2 ^ k) ltac:(lia)). pose proof (Z.mod_pos_bound m' (2 ^ k) ltac:(lia)).
  assert (Hq : m / 2 ^ k <= m' / 2 ^ k) by (apply Z.div_le_mono; lia).
  destruct (Z.eq_dec (m / 2 ^ k) (m' / 2 ^ k)) as [E|Hne].
  - unfold nearest. rewrite <- E. assert (m mod 2 ^ k <= m' mod 2 ^ k) by (rewrite E in *; lia).
    destruct (Z.ltb_spec (2 * (m mod 2 ^ k)) (2 ^ k)), (Z.ltb_spec (2 * (m' mod 2 ^ k)) (2 ^ k)); repeat case_match; lia.
  - destruct (nearest_choice m k Hk) as [-> |[-> _]], (nearest_choice m' k Hk) as [-> |[-> _]]; lia.
Qed.

(** ** What the shifts record *)

(** The round bit says whether at least half is cut off, the sticky bit whether anything beyond
    that is. *)
Definition shr_exact (m0 k : Z) (r : shr_record) : Prop :=
  shr_m r = m0 / 2 ^ k /\ shr_r r = (2 ^ k <=? 2 * (m0 mod 2 ^ k)) /\
  shr_s r = negb ((if shr_r r then 2 * (m0 mod 2 ^ k) - 2 ^ k else m0 mod 2 ^ k) =? 0).

Lemma shr_1_exact m0 k r : 0 <= m0 -> 0 <= k -> shr_rep m0 k r -> shr_exact m0 (k + 1) (shr_1 r).
Proof.
  intros Hm Hk Hr. destruct (shr_1_rep m0 k r Hm Hk Hr) as [Hq _]. destruct Hr as [Hq0 Hs0].
  assert (0 < 2 ^ k) by (apply Z.pow_pos_nonneg; lia).
  assert (Hp : 2 ^ (k + 1) = 2 * 2 ^ k) by (rewrite Z.pow_add_r by lia; lia).
  pose proof (Z.div_mod m0 (2 ^ k) ltac:(lia)) as D. pose proof (Z.mod_pos_bound m0 (2 ^ k) ltac:(lia)).
  pose proof (Z.div_mod m0 (2 ^ (k + 1)) ltac:(lia)) as D'. pose proof (Z.mod_pos_bound m0 (2 ^ (k + 1)) ltac:(lia)).
  assert (Hodd : m0 / 2 ^ k = 2 * (m0 / 2 ^ (k + 1)) + (if Z.odd (m0 / 2 ^ k) then 1 else 0)).
  { replace (m0 / 2 ^ (k + 1)) with (m0 / 2 ^ k / 2) by (rewrite Z.div_div, Hp by lia; f_equal; lia).
    rewrite <- Zdiv2_div. apply Z.div2_odd. }
  split; [done|].
  assert (Hbits : shr_r (shr_1 r) = Z.odd (shr_m r) /\ shr_s (shr_1 r) = (shr_r r || shr_s r)%bool).
  { destruct r as [[|[p|p|]|[p|p|]] rr rs]; cbn in *; try done; exfalso; assert (0 <= m0 / 2 ^ k) by (apply Z.div_pos; lia); lia. }
  destruct Hbits as [-> ->]. rewrite Hq0, Hs0.
  destruct (Z.odd (m0 / 2 ^ k)).
  - assert (E : m0 mod 2 ^ (k + 1) = 2 ^ k + m0 mod 2 ^ k) by nia.
    rewrite E, Hp. split; [symmetry; apply Z.leb_le; lia|]. f_equal. apply Bool.eq_iff_eq_true. rewrite !Z.eqb_eq. lia.
  - assert (E : m0 mod 2 ^ (k + 1) = m0 mod 2 ^ k) by nia.
    rewrite E, Hp. split; [symmetry; apply Z.leb_gt; lia|]. done.
Qed.

Lemma shr_iter_exact m0 p : forall k r, 0 <= m0 -> 0 <= k -> shr_rep m0 k r -> shr_exact m0 (k + Zpos p) (iter_pos shr_1 p r).
Proof.
  induction p as [p IH|p IH|]; intros k r Hm Hk Hr; cbn [iter_pos].
  - replace (k + Zpos p~1) with (k + 1 + Zpos p + Zpos p) by lia. apply IH; [done|lia|]. apply shr_iter_rep; [done|lia|].
    by apply shr_1_rep.
  - replace (k + Zpos p~0) with (k + Zpos p + Zpos p) by lia. apply IH; [done|lia|]. by apply shr_iter_rep.
  - by apply shr_1_exact.
Qed.

Lemma shr_exact_nearest m k r : 0 <= k -> shr_exact m k r -> round_nearest_even (shr_m r) (loc_of_shr_record r) = nearest m k.
Proof.
  intros Hk (Hq & Hr & Hs). assert (0 < 2 ^ k) by (apply Z.pow_pos_nonneg; lia).
  pose proof (Z.mod_pos_bound m (2 ^ k) ltac:(lia)). destruct r as [q rr rs]. cbn [shr_m shr_r shr_s] in *. subst q.
  unfold nearest. set (rem := m mod 2 ^ k) in *.
  destruct (Z.leb_spec (2 ^ k) (2 * rem)), rr; try done; cbn in Hs.
  - destruct (Z.ltb_spec (2 * rem) (2 ^ k)); [lia|].
    destruct (Z.eqb_spec (2 * rem - 2 ^ k) 0), (Z.eqb_spec (2 * rem) (2 ^ k)); try lia; subst rs; cbn; [|done].
    by destruct (Z.even _).
  - destruct (Z.ltb_spec (2 * rem) (2 ^ k)); [|lia]. by destruct rs.
Qed.

Lemma shr_fexp_nearest m e : 0 < m -> e <= grid m e ->
  let '(r, e') := shr_fexp 53 1024 m e loc_Exact in
  round_nearest_even (shr_m r) (loc_of_shr_record r) = nearest m (grid m e - e).
Proof.
  intros Hm He. unfold shr_fexp, shr, shr_record_of_loc.
  assert (fexp64 (Zdigits2 m + e) = grid m e) as ->.
  { destruct m; try lia. unfold grid. cbn [Zdigits2]. by rewrite digits2_pos_log2. }
  destruct (grid m e - e) as [|p|p] eqn:Hd; [| |lia].
  - cbn. unfold nearest. rewrite Z.mod_1_r, Z.div_1_r. done.
  - replace (Zpos p) with (0 + Zpos p) by lia. apply shr_exact_nearest; [lia|].
    replace (0 + Zpos p) with (0 + Zpos p) by lia.
    apply (shr_iter_exact m p 0); [lia|lia|]. split; simpl; [by rewrite Z.div_1_r|by rewrite Z.mod_1_r].
Qed.

(** ** The rounded number *)

(** The float of the multiple [q] of [2^g]. *)
Inductive rounded_to (s : bool) (g q : Z) : f64 -> Prop :=
| to_zero : q = 0 -> rounded_to s g q (S754_zero s)
| to_finite (m' : positive) (e' : Z) :
    grid (Zpos m') e' = e' -> e' <= 971 -> g <= e' -> Zpos m' * 2 ^ (e' - g) = q -> rounded_to s g q (S754_finite s m' e')
| to_infinity (m' : positive) (e' : Z) :
    grid (Zpos m') e' = e' -> 971 < e' -> g <= e' -> Zpos m' * 2 ^ (e' - g) = q -> rounded_to s g q (S754_infinity s).

Lemma binary_round_aux_to s m e :
  0 < m -> e <= grid m e -> rounded_to s (grid m e) (nearest m (grid m e - e)) (binary_round_aux 53 1024 s m e loc_Exact).
Proof.
  intros Hm He. unfold binary_round_aux.
  pose proof (shr_fexp_exact m e Hm He) as H1. pose proof (shr_fexp_nearest m e Hm He) as Hn.
  destruct (shr_fexp 53 1024 m e loc_Exact) as [r e1]. destruct H1 as [-> _]. rewrite Hn. clear Hn r.
  pose proof (nearest_choice m (grid m e - e) ltac:(lia)) as Hc. set (q := nearest _ _) in *.
  assert (0 <= m / 2 ^ (grid m e - e)) by (apply Z.div_pos; [lia|apply Z.pow_pos_nonneg; lia]).
  destruct (Z.eq_dec q 0) as [Hz|Hz].
  { rewrite Hz, shr_fexp_zero by (unfold grid, fexp, emin; lia). simpl. by constructor. }
  assert (0 < q) as Hq by lia.
  destruct (rounded_multiple m e q Hm He Hq Hc) as [Hg Hexact].
  pose proof (shr_fexp_exact q (grid m e) Hq Hg) as H2.
  destruct (shr_fexp 53 1024 q (grid m e) loc_Exact) as [r2 e2]. destruct H2 as [-> [Hr2 _]].
  set (e2 := grid q (grid m e)) in *.
  assert (Hdiv : shr_m r2 * 2 ^ (e2 - grid m e) = q).
  { rewrite Hr2, Z.mul_comm. symmetry. apply Z.div_exact; [apply Z.pow_nonzero; lia|done]. }
  assert (Hpos : 0 < shr_m r2) by (assert (0 < 2 ^ (e2 - grid m e)) by (apply Z.pow_pos_nonneg; lia); nia).
  assert (Hcan : grid (shr_m r2) e2 = e2).
  { unfold grid at 1. rewrite Hr2, log2_div_pow2 by (rewrite <- ?Hr2; lia).
    replace (Z.log2 q - (e2 - grid m e) + 1 + e2) with (Z.log2 q + 1 + grid m e) by lia. done. }
  destruct (shr_m r2) as [|p|p]; try lia. destruct (Z.leb_spec e2 (1024 - 53)).
  - eapply to_finite; eauto; lia.
  - eapply to_infinity; eauto; lia.
Qed.

Lemma binary_round_to s mx ex :
  exists m e, 0 < m /\ e <= grid m e /\ e <= ex /\ m = Zpos mx * 2 ^ (ex - e)
    /\ rounded_to s (grid m e) (nearest m (grid m e - e)) (binary_round 53 1024 s mx ex).
Proof.
  unfold binary_round. rewrite digits2_pos_log2. fold (grid (Zpos mx) ex).
  unfold shl_align. destruct (grid (Zpos mx) ex - ex) as [|d|d] eqn:Hd.
  1-2: exists (Zpos mx), ex; split_and!; try lia; [by rewrite Z.sub_diag, Z.mul_1_r|]; apply binary_round_aux_to; lia.
  assert (Hg : grid (Zpos (Pos.iter xO mx d)) (grid (Zpos mx) ex) = grid (Zpos mx) ex).
  { rewrite iter_xO_pow. unfold grid at 1. rewrite Z.log2_mul_pow2 by lia.
    replace (Zpos d) with (ex - grid (Zpos mx) ex) by lia.
    replace (_ + 1 + _) with (Z.log2 (Zpos mx) + 1 + ex) by lia. done. }
  exists (Zpos (Pos.iter xO mx d)), (grid (Zpos mx) ex). split_and!; try lia.
  - rewrite iter_xO_pow. f_equal. f_equal. lia.
  - apply binary_round_aux_to; lia.
Qed.

Lemma rounded_to_le g1 q1 r1 g2 q2 r2 k :
  rounded_to false g1 q1 r1 -> rounded_to false g2 q2 r2 -> k <= g1 -> k <= g2 ->
  q1 * 2 ^ (g1 - k) <= q2 * 2 ^ (g2 - k) -> f64_le r1 r2 = true.
Proof.
  intros H1 H2 K1 K2 Hq. assert (0 < 2 ^ (g1 - k) /\ 0 < 2 ^ (g2 - k)) by (split; apply Z.pow_pos_nonneg; lia).
  assert (Hpos : forall m' e' g, g <= e' -> 0 < Zpos m' * 2 ^ (e' - g))
    by (intros; apply Z.mul_pos_pos; [lia|apply Z.pow_pos_nonneg; lia]).
  assert (Hval : forall m' e' g, k <= g -> g <= e' -> Zpos m' * 2 ^ (e' - g) * 2 ^ (g - k) = Zpos m' * 2 ^ (e' - k)).
  { intros m' e' g ? ?. rewrite <- Z.mul_assoc, <- pow2_split with (c := e' - k); lia. }
  destruct H1 as [Hz1|m1 e1 G1 B1 L1 Q1|m1 e1 G1 B1 L1 Q1]; [by destruct H2| |].
  - subst q1. rewrite Hval in Hq by lia. destruct H2 as [Hz2|m2 e2 G2 B2 L2 Q2|]; [|subst q2; rewrite Hval in Hq by lia|done].
    + pose proof (Hpos m1 e1 k ltac:(lia)). nia.
    + apply finite_le. apply (canonical_order _ _ _ _ k); first [done|lia].
  - subst q1. rewrite Hval in Hq by lia. destruct H2 as [Hz2|m2 e2 G2 B2 L2 Q2|]; [|subst q2; rewrite Hval in Hq by lia|done].
    + pose proof (Hpos m1 e1 k ltac:(lia)). nia.
    + exfalso. assert (e1 < e2 \/ e1 = e2 /\ Zpos m1 <= Zpos m2); [|lia]. apply (canonical_order _ _ _ _ k); first [done|lia].
Qed.

(** ** Monotonicity *)

(** The multiples two ordered dyadic numbers are rounded to are ordered. *)
Lemma nearest_order m1 e1 m2 e2 k :
  0 < m1 -> 0 < m2 -> e1 <= grid m1 e1 -> e2 <= grid m2 e2 -> k <= e1 -> k <= e2 ->
  m1 * 2 ^ (e1 - k) <= m2 * 2 ^ (e2 - k) ->
  nearest m1 (grid m1 e1 - e1) * 2 ^ (grid m1 e1 - k) <= nearest m2 (grid m2 e2 - e2) * 2 ^ (grid m2 e2 - k).
Proof.
  intros P1 P2 G1 G2 K1 K2 Hle.
  assert (Hs : forall m e, k <= e -> e <= grid m e -> nearest m (grid m e - e) = nearest (m * 2 ^ (e - k)) (grid m e - k)).
  { intros m e ? ?. rewrite <- (nearest_scale m (grid m e - e) (e - k)) by lia. f_equal. lia. }
  assert (Hlog : Z.log2 m1 + e1 <= Z.log2 m2 + e2).
  { apply Z.log2_le_mono in Hle. rewrite !Z.log2_mul_pow2 in Hle by lia. lia. }
  rewrite (Hs m1 e1), (Hs m2 e2) by lia.
  assert (Hg : grid m1 e1 <= grid m2 e2) by (unfold grid; apply fexp_mono; lia).
  destruct (Z.eq_dec (grid m1 e1) (grid m2 e2)) as [->|Hne].
  - apply Z.mul_le_mono_nonneg_r; [apply Z.pow_nonneg; lia|]. apply nearest_mono; lia.
  - set (L := Z.log2 m2 + e2). assert (HL : grid m2 e2 <= L /\ Z.max (Z.log2 m1 + e1 + 1) (grid m1 e1) <= L).
    { unfold L, grid, fexp, emin in *. pose proof (Z.log2_nonneg m1). lia. }
    transitivity (2 ^ (L - k)).
    + set (b := 2 ^ (Z.max (Z.log2 m1 + e1 + 1) (grid m1 e1) - grid m1 e1)).
      assert (Hb : nearest (m1 * 2 ^ (e1 - k)) (grid m1 e1 - k) <= b).
      { eapply (candidate_upper (m1 * 2 ^ (e1 - k)) (grid m1 e1 - k)); [lia| |apply nearest_choice; lia].
        unfold b. rewrite <- pow2_split with (c := Z.max (Z.log2 m1 + e1 + 1) (grid m1 e1) - k) by lia.
        transitivity (2 ^ (Z.succ (Z.log2 m1)) * 2 ^ (e1 - k)).
        - apply Z.mul_le_mono_nonneg_r; [apply Z.pow_nonneg; lia|]. destruct (Z.log2_spec m1 P1). lia.
        - pose proof (Z.log2_nonneg m1). rewrite <- pow2_split with (c := Z.succ (Z.log2 m1) + (e1 - k)) by lia. apply Z.pow_le_mono_r; lia. }
      transitivity (b * 2 ^ (grid m1 e1 - k)); [apply Z.mul_le_mono_nonneg_r; [apply Z.pow_nonneg; lia|done]|].
      unfold b. rewrite <- pow2_split with (c := Z.max (Z.log2 m1 + e1 + 1) (grid m1 e1) - k) by lia. apply Z.pow_le_mono_r; lia.
    + rewrite (pow2_split (L - grid m2 e2) (grid m2 e2 - k) (L - k)) by lia.
      apply Z.mul_le_mono_nonneg_r; [apply Z.pow_nonneg; lia|].
      eapply (candidate_lower (m2 * 2 ^ (e2 - k)) (grid m2 e2 - k)); [lia| |apply nearest_choice; lia].
      rewrite <- pow2_split with (c := L - k) by lia. pose proof (Z.log2_nonneg m2).
      unfold L. rewrite (pow2_split (Z.log2 m2) (e2 - k)) by lia.
      apply Z.mul_le_mono_nonneg_r; [apply Z.pow_nonneg; lia|]. destruct (Z.log2_spec m2 P2). lia.
Qed.

Lemma binary_round_mono m1 e1 m2 e2 k :
  k <= e1 -> k <= e2 -> Zpos m1 * 2 ^ (e1 - k) <= Zpos m2 * 2 ^ (e2 - k) ->
  f64_le (binary_round 53 1024 false m1 e1) (binary_round 53 1024 false m2 e2) = true.
Proof.
  intros K1 K2 Hle.
  destruct (binary_round_to false m1 e1) as (n1 & f1 & P1 & G1 & F1 & -> & R1).
  destruct (binary_round_to false m2 e2) as (n2 & f2 & P2 & G2 & F2 & -> & R2).
  set (j := Z.min k (Z.min f1 f2)).
  eapply (rounded_to_le _ _ _ _ _ _ j R1 R2); [lia|lia|].
  apply nearest_order; [done|done|done|done|lia|lia|].
  assert (E : forall m e f, j <= f -> f <= e -> k <= e -> Zpos m * 2 ^ (e - f) * 2 ^ (f - j) = Zpos m * 2 ^ (e - k) * 2 ^ (k - j)).
  { intros m e f ? ? ?. rewrite <- !Z.mul_assoc, <- !pow2_split with (c := e - j); lia. }
  rewrite (E m1 e1 f1), (E m2 e2 f2) by lia. apply Z.mul_le_mono_nonneg_r; [apply Z.pow_nonneg; lia|done].
Qed.

(** Adding to a non-negative number keeps the order of non-negative numbers. *)
Lemma f64_add_mono d a b :
  valid d = true -> valid a = true -> valid b = true ->
  f64_le zero d = true -> f64_le zero a = true -> f64_le a b = true ->
  f64_le (f64_add d a) (f64_add d b) = true.
Proof.
  intros Vd Va Vb Hd Ha Hab. pose proof (f64_le_trans _ _ _ Ha Hab) as Hb.
  destruct d as [sd|[]| |[] md ed]; try done.
  - destruct a as [[]|[]| |[] ma ea], b as [[]|[]| |[] mb eb]; try done; destruct sd; done.
  - destruct a as [[]|[]| |[] ma ea], b as [[]|[]| |[] mb eb]; try done.
  - destruct b as [sb|[]| |[] mb eb]; try done.
    + destruct a as [sa|[]| |[] ma ea]; try done. by apply f64_le_refl.
    + destruct a as [sa|[]| |[] ma ea]; try done. unfold f64_add, SFadd. cbn [cond_Zopp].
      match goal with |- f64_le ?x _ = _ => assert (Hn : is_nan x = false) by apply binary_normalize_not_nan; by destruct x as [|[]| |[]] end.
    + destruct a as [sa|[]| |[] ma ea]; try done.
      { change (f64_add (S754_finite false md ed) (S754_zero sa)) with (S754_finite false md ed). by apply f64_add_ge. }
      unfold f64_add, SFadd. cbn [cond_Zopp].
      set (k := Z.min (Z.min ed ea) (Z.min ed eb)).
      destruct (valid_grid _ _ _ Va) as [Ga _], (valid_grid _ _ _ Vb) as [Gb _].
      assert (Hval : Zpos ma * 2 ^ (ea - k) <= Zpos mb * 2 ^ (eb - k)).
      { apply Znot_gt_le. intros Hgt. apply f64_le_spec in Hab as (_ & _ & Hr). unfold rank_lt in Hr. simpl in Hr.
        assert (eb < ea \/ eb = ea /\ Zpos mb <= Zpos ma) as [?|[-> ?]]; [|exfalso; lia|assert (ma = mb) as -> by lia; lia].
        apply (canonical_order _ _ _ _ k); first [done|lia]. }
      assert (Hsum : forall m e, k <= Z.min ed e -> exists p,
        Zpos (fst (shl_align md ed (Z.min ed e))) + Zpos (fst (shl_align m e (Z.min ed e))) = Zpos p /\
        Zpos p * 2 ^ (Z.min ed e - k) = Zpos md * 2 ^ (ed - k) + Zpos m * 2 ^ (e - k)).
      { intros m e He. eexists. split; [symmetry; apply Pos2Z.inj_add|]. rewrite Pos2Z.inj_add, !shl_align_fst by lia.
        rewrite Z.mul_add_distr_r, <- !Z.mul_assoc, <- (pow2_split (ed - Z.min ed e) (Z.min ed e - k) (ed - k)),
          <- (pow2_split (e - Z.min ed e) (Z.min ed e - k) (e - k)) by lia. done. }
      destruct (Hsum ma ea) as (pa & Ea & Wa); [lia|]. destruct (Hsum mb eb) as (pb & Eb & Wb); [lia|].
      rewrite Ea, Eb. cbn [binary_normalize]. apply (binary_round_mono _ _ _ _ k); [apply Z.le_min_l|apply Z.le_min_r|rewrite Wa, Wb; by apply Z.add_le_mono_l].
Qed.
