(* ===== verification/Deployment.v ===== *)
(** * Controller artifacts, evidence and the deployment state machine

    [crates/roz-core/src/controller/]: [deployment.rs] (the promotion state
    machine), [verification.rs] (verifier outcomes), [artifact.rs] (the artifact
    and its verification key), [evidence.rs] (the evidence bundle of a run). *)

From S2P Require Import Prelude Float64.

(** ** deployment.rs *)

Inductive DeploymentState : Type :=
| VerifiedOnly | Shadow | Canary | Active | RolledBack | Rejected.

#[export] Instance DeploymentState_eq_dec : EqDecision DeploymentState.
Proof. solve_decision. Defined.

Definition debug_state (s : DeploymentState) : string :=
  match s with
  | VerifiedOnly => "VerifiedOnly" | Shadow => "Shadow" | Canary => "Canary"
  | Active => "Active" | RolledBack => "RolledBack" | Rejected => "Rejected"
  end.

Record TransitionError : Type := {
  te_from : DeploymentState;
  te_to : DeploymentState;
  te_reason : string;
}.

Definition can_transition_to (self to : DeploymentState) : bool :=
  match self, to with
  | VerifiedOnly, (Shadow | Canary | Rejected) => true
  | Shadow, (Canary | Rejected | Active) => true
  | Canary, (Active | RolledBack) => true
  | Active, RolledBack => true
  | _, _ => false
  end.

Definition transition (self to : DeploymentState) : result DeploymentState TransitionError :=
  if can_transition_to self to then Ok to
  else Err {| te_from := self; te_to := to;
              te_reason := debug_state self +:+ " cannot transition to " +:+ debug_state to |}.

Definition is_actuating (s : DeploymentState) : bool :=
  match s with Canary | Active => true | _ => false end.

Definition is_terminal (s : DeploymentState) : bool :=
  match s with RolledBack | Rejected => true | _ => false end.

(** ** verification.rs *)

Inductive VerifierStatus : Type :=
| Pending | Running | Complete | Failed | Unavailable.

#[export] Instance VerifierStatus_eq_dec : EqDecision VerifierStatus.
Proof. solve_decision. Defined.

Definition status_as_str (s : VerifierStatus) : string :=
  match s with
  | Pending => "pending" | Running => "running" | Complete => "pass"
  | Failed => "fail" | Unavailable => "unavailable"
  end.

Definition from_wire_label (label : string) : option VerifierStatus :=
  if String.eqb label "pending" then Some Pending
  else if String.eqb label "running" then Some Running
  else if String.eqb label "pass" then Some Complete
  else if String.eqb label "fail" then Some Failed
  else if String.eqb label "unavailable" then Some Unavailable
  else None.

(** [impl From<&str> for VerifierStatus]: an unknown label is [Unavailable]. *)
Definition status_from_str (value : string) : VerifierStatus :=
  default Unavailable (from_wire_label value).

Definition status_is_pass (s : VerifierStatus) : bool :=
  match s with Complete => true | _ => false end.

Inductive FailureSeverity : Type := CriticalFailure | WarningFailure.

#[export] Instance FailureSeverity_eq_dec : EqDecision FailureSeverity.
Proof. solve_decision. Defined.

Record VerifierFailure : Type := {
  check_name : string;
  failure_reason : string;
  severity : FailureSeverity;
}.

Inductive VerifierVerdict : Type :=
| VPass (evidence_summary : string)
| VFail (failures : list VerifierFailure)
| VPartial (passed pending : list string)
| VUnavailable (reason : string).

Definition allows_promotion (v : VerifierVerdict) : bool :=
  match v with
  | VPass _ => true
  | VFail failures => forallb (fun f => bool_decide (severity f = WarningFailure)) failures
  | VPartial _ _ | VUnavailable _ => false
  end.

Definition has_critical_failures (v : VerifierVerdict) : bool :=
  match v with
  | VFail failures => existsb (fun f => bool_decide (severity f = CriticalFailure)) failures
  | _ => false
  end.

(** ** artifact.rs *)

Inductive SourceKind : Type := LlmGenerated | HumanAuthored | Precompiled.

Inductive ControllerClass : Type :=
| ObservationOnly | Advisory | LowRiskCommandGenerator | HighRiskDirectController.

Inductive ExecutionMode : Type := Live | Replay | Verify | ShadowMode | CanaryMode.

#[export] Instance ExecutionMode_eq_dec : EqDecision ExecutionMode.
Proof. solve_decision. Defined.

Definition debug_mode (m : ExecutionMode) : string :=
  match m with
  | Live => "Live" | Replay => "Replay" | Verify => "Verify"
  | ShadowMode => "Shadow" | CanaryMode => "Canary"
  end.

Record VerificationKey : Type := {
  vk_controller_digest : string;
  vk_wit_world_version : string;
  vk_model_digest : string;
  vk_calibration_digest : string;
  vk_manifest_digest : string;
  vk_execution_mode : ExecutionMode;
  vk_compiler_version : string;
  vk_embodiment_family : option string;
}.

Definition matches_runtime (self : VerificationKey)
    (controller_digest wit_world_version model_digest calibration_digest manifest_digest : string)
    (execution_mode : ExecutionMode) (compiler_version : string) : bool :=
  String.eqb (vk_controller_digest self) controller_digest
  && String.eqb (vk_wit_world_version self) wit_world_version
  && String.eqb (vk_model_digest self) model_digest
  && String.eqb (vk_calibration_digest self) calibration_digest
  && String.eqb (vk_manifest_digest self) manifest_digest
  && bool_decide (vk_execution_mode self = execution_mode)
  && String.eqb (vk_compiler_version self) compiler_version.

Record ControllerArtifact : Type := {
  controller_id : string;
  sha256 : string;
  source_kind : SourceKind;
  controller_class : ControllerClass;
  generator_model : option string;
  generator_provider : option string;
  channel_manifest_version : Z;
  host_abi_version : Z;
  evidence_bundle_id : option string;
  created_at : DateTime;
  promoted_at : option DateTime;
  replaced_controller_id : option string;
  verification_key : VerificationKey;
  wit_world : string;
  verifier_result : option VerifierVerdict;
}.

(** ** evidence.rs *)

Record StabilitySummary : Type := {
  command_oscillation_detected : bool;
  idle_output_stable : bool;
  runtime_jitter_us : f64;
  missed_tick_count : Z;
  steady_state_reached : bool;
}.

Inductive FreshnessState : Type :=
| Fresh | Stale (since : DateTime) | UnknownFreshness.

Record ControllerEvidenceBundle : Type := {
  bundle_id : string;
  ev_controller_id : string;
  ticks_run : Z;
  rejection_count : Z;
  limit_clamp_count : Z;
  rate_clamp_count : Z;
  position_limit_stop_count : Z;
  epoch_interrupt_count : Z;
  trap_count : Z;
  watchdog_near_miss_count : Z;
  channels_touched : list string;
  channels_untouched : list string;
  unexpected_channels_touched : list string;
  config_reads : Z;
  tick_latency_p50 : Z;
  tick_latency_p95 : Z;
  tick_latency_p99 : Z;
  controller_stability_summary : StabilitySummary;
  verifier_status : VerifierStatus;
  verifier_reason : option string;
  ev_controller_digest : string;
  ev_model_digest : string;
  ev_calibration_digest : string;
  frame_snapshot_id : Z;
  ev_manifest_digest : string;
  ev_wit_world_version : string;
  ev_execution_mode : ExecutionMode;
  ev_compiler_version : string;
  ev_created_at : DateTime;
  state_freshness : FreshnessState;
}.

Definition verifier_status_typed (e : ControllerEvidenceBundle) : option VerifierStatus :=
  Some (verifier_status e).

Definition verifier_status_is_pass (e : ControllerEvidenceBundle) : bool :=
  status_is_pass (verifier_status e).

Definition has_safety_issues (e : ControllerEvidenceBundle) : bool :=
  (0 <? trap_count e)
  || (0 <? epoch_interrupt_count e)
  || command_oscillation_detected (controller_stability_summary e)
  || negb (bool_decide (unexpected_channels_touched e = [])).

Definition has_untouched_channels (e : ControllerEvidenceBundle) : bool :=
  negb (bool_decide (channels_untouched e = [])).
