(* ===== verification/Lifecycle.v ===== *)
(** * The controller lifecycle and the rollout policy

    [crates/roz-copper/src/controller_lifecycle.rs]: the load / submit / promote /
    retire / rollback manager and its promotion gates, and
    [crates/roz-copper/src/deployment_manager.rs]: the policy that chooses the next
    stage.  Each [&mut self] operation is a function from the state to its result
    and the new state. *)

From S2P Require Import Prelude Float64 Deployment.

(** ** Data *)

Record RuntimeDigests : Type := {
  rd_controller_digest : string;
  rd_wit_world_version : string;
  rd_model_digest : string;
  rd_calibration_digest : string;
  rd_manifest_digest : string;
  rd_execution_mode : ExecutionMode;
  rd_compiler_version : string;
  rd_embodiment_family : option string;
}.

(** [impl From<&VerificationKey> for RuntimeDigests]. *)
Definition digests_of_key (key : VerificationKey) : RuntimeDigests := {|
  rd_controller_digest := vk_controller_digest key;
  rd_wit_world_version := vk_wit_world_version key;
  rd_model_digest := vk_model_digest key;
  rd_calibration_digest := vk_calibration_digest key;
  rd_manifest_digest := vk_manifest_digest key;
  rd_execution_mode := vk_execution_mode key;
  rd_compiler_version := vk_compiler_version key;
  rd_embodiment_family := vk_embodiment_family key;
|}.

Record LifecycleTransition : Type := {
  lt_controller_id : string;
  from_state : DeploymentState;
  to_state : DeploymentState;
}.

Record LifecycleRetirement : Type := {
  lr_controller_id : string;
  terminal_state : DeploymentState;
  restored_controller_id : option string;
  restored_state : option DeploymentState;
}.

Inductive LifecycleError : Type :=
| NoArtifact
| NoEvidence
| InvalidTransition (e : TransitionError)
| DigestMismatch (field expected actual : string)
| SafetyIssues (msg : string)
| EvidenceVerifierStatus (status : VerifierStatus) (reason : option string)
| EvidenceExecutionModeMismatch (expected actual : ExecutionMode)
| EvidenceDigestMismatch (field expected actual : string)
| UntouchedChannels (channels : list string)
| NoLastKnownGood
| EvidenceMismatch (expected actual : string).

Record ControllerLifecycle : Type := {
  current_artifact : option ControllerArtifact;
  current_state : option DeploymentState;
  evidence : option ControllerEvidenceBundle;
  last_known_good : option ControllerArtifact;
}.

(** ** Rendering of the errors *)

Fixpoint join (sep : string) (l : list string) : string :=
  match l with
  | [] => ""
  | [x] => x
  | x :: rest => x +:+ sep +:+ join sep rest
  end.

Definition display_transition_error (e : TransitionError) : string :=
  "invalid transition from " +:+ debug_state (te_from e) +:+ " to "
  +:+ debug_state (te_to e) +:+ ": " +:+ te_reason e.

Definition display_lifecycle_error (e : LifecycleError) : string :=
  match e with
  | NoArtifact => "no artifact loaded"
  | NoEvidence => "no evidence submitted"
  | InvalidTransition e => "invalid transition: " +:+ display_transition_error e
  | DigestMismatch field expected actual =>
      "digest mismatch on " +:+ field +:+ ": expected=" +:+ expected +:+ " actual=" +:+ actual
  | SafetyIssues msg => "safety issues in evidence: " +:+ msg
  | EvidenceVerifierStatus status (Some reason) =>
      "evidence verifier status is " +:+ status_as_str status +:+ ": " +:+ reason
  | EvidenceVerifierStatus status None =>
      "evidence verifier status is " +:+ status_as_str status
  | EvidenceExecutionModeMismatch expected actual =>
      "evidence execution_mode mismatch: expected=" +:+ debug_mode expected
      +:+ " actual=" +:+ debug_mode actual
  | EvidenceDigestMismatch field expected actual =>
      "evidence mismatch on " +:+ field +:+ ": expected=" +:+ expected +:+ " actual=" +:+ actual
  | UntouchedChannels channels =>
      "evidence left channels untouched: " +:+ join ", " channels
  | NoLastKnownGood => "no last-known-good artifact available"
  | EvidenceMismatch expected actual =>
      "evidence controller_id mismatch: expected=" +:+ expected +:+ " actual=" +:+ actual
  end.

Definition display_bool (b : bool) : string := if b then "true" else "false".

(** ** Helpers *)

Definition next_promotion_state (current : DeploymentState) : DeploymentState :=
  match current with
  | VerifiedOnly => Shadow
  | Shadow => Canary
  | Canary | Active | RolledBack | Rejected => Active
  end.

Definition evidence_mode_for_state (current : DeploymentState) : ExecutionMode :=
  match current with
  | VerifiedOnly => Verify
  | Shadow => ShadowMode
  | Canary => CanaryMode
  | Active | RolledBack | Rejected => Live
  end.

Definition format_optional_field (value : option string) : string :=
  default "<none>" value.

Definition retirement_state_for (current : DeploymentState)
    : result DeploymentState TransitionError :=
  match current with
  | VerifiedOnly | Shadow => transition current Rejected
  | Canary | Active => transition current RolledBack
  | RolledBack | Rejected =>
      Err {| te_from := current; te_to := current;
             te_reason := debug_state current +:+ " is already terminal" |}
  end.

(** The loop over a digest table: the first differing row is the error. *)
Fixpoint check_digests (mk : string -> string -> string -> LifecycleError)
    (checks : list (string * string * string)) : result unit LifecycleError :=
  match checks with
  | [] => Ok tt
  | (field, expected, actual) :: rest =>
      if String.eqb expected actual then check_digests mk rest
      else Err (mk field expected actual)
  end.

Definition evidence_checks (vk : VerificationKey) (ev : ControllerEvidenceBundle)
    : list (string * string * string) :=
  [ ("controller_digest", vk_controller_digest vk, ev_controller_digest ev);
    ("wit_world_version", vk_wit_world_version vk, ev_wit_world_version ev);
    ("model_digest", vk_model_digest vk, ev_model_digest ev);
    ("calibration_digest", vk_calibration_digest vk, ev_calibration_digest ev);
    ("manifest_digest", vk_manifest_digest vk, ev_manifest_digest ev);
    ("compiler_version", vk_compiler_version vk, ev_compiler_version ev) ].

Definition runtime_checks (vk : VerificationKey) (rd : RuntimeDigests)
    : list (string * string * string) :=
  [ ("controller_digest", vk_controller_digest vk, rd_controller_digest rd);
    ("wit_world_version", vk_wit_world_version vk, rd_wit_world_version rd);
    ("model_digest", vk_model_digest vk, rd_model_digest rd);
    ("calibration_digest", vk_calibration_digest vk, rd_calibration_digest rd);
    ("manifest_digest", vk_manifest_digest vk, rd_manifest_digest rd);
    ("compiler_version", vk_compiler_version vk, rd_compiler_version rd) ].

Definition guard (ok : bool) (e : LifecycleError) : result unit LifecycleError :=
  if ok then Ok tt else Err e.

(** ** Operations *)

Definition new_lifecycle : ControllerLifecycle := {|
  current_artifact := None; current_state := None; evidence := None; last_known_good := None;
|}.

Definition load_artifact (artifact : ControllerArtifact) (self : ControllerLifecycle)
    : result unit LifecycleError * ControllerLifecycle :=
  let lkg :=
    if bool_decide (current_state self = Some Active) then current_artifact self
    else last_known_good self in
  (Ok tt,
   {| current_artifact := Some artifact;
      current_state := Some VerifiedOnly;
      evidence := None;
      last_known_good := lkg |}).

Definition submit_evidence (ev : ControllerEvidenceBundle) (self : ControllerLifecycle)
    : result unit LifecycleError * ControllerLifecycle :=
  match current_artifact self with
  | None => (Err NoArtifact, self)
  | Some artifact =>
      if String.eqb (ev_controller_id ev) (controller_id artifact) then
        (Ok tt,
         {| current_artifact := current_artifact self;
            current_state := current_state self;
            evidence := Some ev;
            last_known_good := last_known_good self |})
      else (Err (EvidenceMismatch (controller_id artifact) (ev_controller_id ev)), self)
  end.

Definition promote_to (rd : RuntimeDigests) (target : DeploymentState) (self : ControllerLifecycle)
    : result LifecycleTransition LifecycleError * ControllerLifecycle :=
  let current := default VerifiedOnly (current_state self) in
  let outcome :=
    (* Gates 1 and 2: an artifact and its evidence. *)
    let? artifact := ok_or (current_artifact self) NoArtifact in
    let? ev := ok_or (evidence self) NoEvidence in
    (* Gate 3: the verifier passed. *)
    let? _ := guard (verifier_status_is_pass ev)
      (EvidenceVerifierStatus (default Unavailable (verifier_status_typed ev))
         (verifier_reason ev)) in
    (* Gate 4: evidence of the current stage. *)
    let expected_mode := evidence_mode_for_state current in
    let? _ := guard (bool_decide (ev_execution_mode ev = expected_mode))
      (EvidenceExecutionModeMismatch expected_mode (ev_execution_mode ev)) in
    (* Gate 5: no safety issue, no untouched channel. *)
    let? _ := guard (negb (has_safety_issues ev))
      (SafetyIssues ("traps=" +:+ pretty (trap_count ev)
         +:+ " epoch_interrupts=" +:+ pretty (epoch_interrupt_count ev)
         +:+ " oscillation="
         +:+ display_bool (command_oscillation_detected (controller_stability_summary ev)))) in
    let? _ := guard (negb (has_untouched_channels ev))
      (UntouchedChannels (channels_untouched ev)) in
    (* Gate 6: the evidence is about this artifact's digests. *)
    let vk := verification_key artifact in
    let? _ := check_digests EvidenceDigestMismatch (evidence_checks vk ev) in
    (* Gate 7: the runtime is the one the artifact was verified for. *)
    let? _ := check_digests DigestMismatch (runtime_checks vk rd) in
    let? _ := guard (bool_decide (vk_execution_mode vk = rd_execution_mode rd))
      (DigestMismatch "execution_mode" (debug_mode (vk_execution_mode vk))
         (debug_mode (rd_execution_mode rd))) in
    let? _ := guard (bool_decide (vk_embodiment_family vk = rd_embodiment_family rd))
      (DigestMismatch "embodiment_family" (format_optional_field (vk_embodiment_family vk))
         (format_optional_field (rd_embodiment_family rd))) in
    (* Gate 8: the state machine allows it. *)
    let? new_state := map_err InvalidTransition (transition current target) in
    Ok (artifact, new_state) in
  match outcome with
  | Err e => (Err e, self)
  | Ok (artifact, new_state) =>
      (Ok {| lt_controller_id := controller_id artifact;
             from_state := current; to_state := new_state |},
       {| current_artifact := current_artifact self;
          current_state := Some new_state;
          evidence := None;
          last_known_good := last_known_good self |})
  end.

Definition promote (rd : RuntimeDigests) (self : ControllerLifecycle)
    : result LifecycleTransition LifecycleError * ControllerLifecycle :=
  let current := default VerifiedOnly (current_state self) in
  promote_to rd (next_promotion_state current) self.

Definition retire_current (self : ControllerLifecycle)
    : result LifecycleRetirement LifecycleError * ControllerLifecycle :=
  let current := default VerifiedOnly (current_state self) in
  let outcome :=
    let? artifact := ok_or (current_artifact self) NoArtifact in
    let? terminal := map_err InvalidTransition (retirement_state_for current) in
    Ok (artifact, terminal) in
  match outcome with
  | Err e => (Err e, self)
  | Ok (artifact, terminal) =>
      (Ok {| lr_controller_id := controller_id artifact; terminal_state := terminal;
             restored_controller_id := None; restored_state := None |},
       {| current_artifact := current_artifact self;
          current_state := Some terminal;
          evidence := None;
          last_known_good := last_known_good self |})
  end.

Definition rollback (self : ControllerLifecycle)
    : result LifecycleRetirement LifecycleError * ControllerLifecycle :=
  match last_known_good self with
  | None => (Err NoLastKnownGood, self)
  | Some lkg =>
      match retire_current self with
      | (Err e, self') => (Err e, self')
      | (Ok retirement, self') =>
          (Ok {| lr_controller_id := lr_controller_id retirement;
                 terminal_state := terminal_state retirement;
                 restored_controller_id := Some (controller_id lkg);
                 restored_state := Some VerifiedOnly |},
           {| current_artifact := Some lkg;
              current_state := Some VerifiedOnly;
              evidence := None;
              last_known_good := None |})
      end
  end.

Definition restore_last_known_good_active (self : ControllerLifecycle)
    : result LifecycleRetirement LifecycleError * ControllerLifecycle :=
  match last_known_good self with
  | None => (Err NoLastKnownGood, self)
  | Some lkg =>
      match retire_current self with
      | (Err e, self') => (Err e, self')
      | (Ok retirement, self') =>
          (Ok {| lr_controller_id := lr_controller_id retirement;
                 terminal_state := terminal_state retirement;
                 restored_controller_id := Some (controller_id lkg);
                 restored_state := Some Active |},
           {| current_artifact := Some lkg;
              current_state := Some Active;
              evidence := None;
              last_known_good := last_known_good self' |})
      end
  end.

(** ** Rollout policy: deployment_manager.rs *)

Inductive PolicySource : Type :=
| FromRuntimeBlueprint | ExplicitOverride | ExecutionOnly | CompatibilityFallback.

(** The [controller_promotion] section of a [RuntimeBlueprint]. *)
Record ControllerPromotionConfig : Type := {
  cp_require_shadow : bool;
  cp_require_canary : bool;
  cp_auto_rollback_on_watchdog : bool;
  cp_shadow_ticks_required : Z;
  cp_canary_ticks_required : Z;
  cp_max_stage_normalized_command_delta_bps : Z;
  cp_canary_max_command_delta_bps : Z;
  cp_max_bounded_canary_ticks : Z;
}.

Record DeploymentManager : Type := {
  policy_source : PolicySource;
  require_shadow : bool;
  require_canary : bool;
  auto_rollback_on_watchdog : bool;
  dm_shadow_ticks_required : Z;
  dm_canary_ticks_required : Z;
  max_stage_normalized_command_delta_bps : Z;
  canary_max_command_delta_bps : Z;
  dm_max_bounded_canary_ticks : Z;
}.

Definition DEFAULT_SHADOW_TICKS_REQUIRED : Z := 10.
Definition DEFAULT_CANARY_TICKS_REQUIRED : Z := 10.
Definition DEFAULT_MAX_STAGE_NORMALIZED_COMMAND_DELTA_BPS : Z := 2500.
Definition DEFAULT_CANARY_MAX_COMMAND_DELTA_BPS : Z := 2500.
Definition DEFAULT_MAX_BOUNDED_CANARY_TICKS : Z := u64_max.

Definition compatibility_default : DeploymentManager := {|
  policy_source := CompatibilityFallback;
  require_shadow := true;
  require_canary := true;
  auto_rollback_on_watchdog := true;
  dm_shadow_ticks_required := DEFAULT_SHADOW_TICKS_REQUIRED;
  dm_canary_ticks_required := DEFAULT_CANARY_TICKS_REQUIRED;
  max_stage_normalized_command_delta_bps := DEFAULT_MAX_STAGE_NORMALIZED_COMMAND_DELTA_BPS;
  canary_max_command_delta_bps := DEFAULT_CANARY_MAX_COMMAND_DELTA_BPS;
  dm_max_bounded_canary_ticks := DEFAULT_MAX_BOUNDED_CANARY_TICKS;
|}.

Definition execution_only : DeploymentManager := {|
  policy_source := ExecutionOnly;
  require_shadow := true;
  require_canary := true;
  auto_rollback_on_watchdog := true;
  dm_shadow_ticks_required := DEFAULT_SHADOW_TICKS_REQUIRED;
  dm_canary_ticks_required := DEFAULT_CANARY_TICKS_REQUIRED;
  max_stage_normalized_command_delta_bps := DEFAULT_MAX_STAGE_NORMALIZED_COMMAND_DELTA_BPS;
  canary_max_command_delta_bps := DEFAULT_CANARY_MAX_COMMAND_DELTA_BPS;
  dm_max_bounded_canary_ticks := DEFAULT_MAX_BOUNDED_CANARY_TICKS;
|}.

Definition with_rollout_policy (shadow canary auto_rollback : bool)
    (shadow_ticks canary_ticks max_stage_bps canary_bps max_bounded : Z) : DeploymentManager := {|
  policy_source := ExplicitOverride;
  require_shadow := shadow;
  require_canary := canary;
  auto_rollback_on_watchdog := auto_rollback;
  dm_shadow_ticks_required := shadow_ticks;
  dm_canary_ticks_required := canary_ticks;
  max_stage_normalized_command_delta_bps := max_stage_bps;
  canary_max_command_delta_bps := canary_bps;
  dm_max_bounded_canary_ticks := max_bounded;
|}.

Definition new_manager (shadow canary auto_rollback : bool) : DeploymentManager :=
  with_rollout_policy shadow canary auto_rollback
    DEFAULT_SHADOW_TICKS_REQUIRED DEFAULT_CANARY_TICKS_REQUIRED
    DEFAULT_MAX_STAGE_NORMALIZED_COMMAND_DELTA_BPS DEFAULT_CANARY_MAX_COMMAND_DELTA_BPS
    DEFAULT_MAX_BOUNDED_CANARY_TICKS.

Definition from_blueprint (bp : ControllerPromotionConfig) : DeploymentManager := {|
  policy_source := FromRuntimeBlueprint;
  require_shadow := cp_require_shadow bp;
  require_canary := cp_require_canary bp;
  auto_rollback_on_watchdog := cp_auto_rollback_on_watchdog bp;
  dm_shadow_ticks_required := cp_shadow_ticks_required bp;
  dm_canary_ticks_required := cp_canary_ticks_required bp;
  max_stage_normalized_command_delta_bps := cp_max_stage_normalized_command_delta_bps bp;
  canary_max_command_delta_bps := cp_canary_max_command_delta_bps bp;
  dm_max_bounded_canary_ticks := cp_max_bounded_canary_ticks bp;
|}.

Definition allows_rollout (m : DeploymentManager) : bool :=
  match policy_source m with
  | CompatibilityFallback | ExecutionOnly => false
  | _ => true
  end.

Definition next_target (m : DeploymentManager) (current : DeploymentState)
    : option DeploymentState :=
  if negb (allows_rollout m) then None
  else match current with
  | VerifiedOnly =>
      if require_shadow m then Some Shadow
      else if require_canary m then Some Canary
      else Some Canary
  | Shadow => if require_canary m then Some Canary else Some Active
  | Canary => Some Active
  | Active | RolledBack | Rejected => None
  end.

Definition shadow_ticks_required (m : DeploymentManager) : Z :=
  if dm_shadow_ticks_required m =? 0 then 1 else dm_shadow_ticks_required m.

Definition canary_ticks_required (m : DeploymentManager) : Z :=
  if dm_canary_ticks_required m =? 0 then 1 else dm_canary_ticks_required m.

Definition max_stage_normalized_command_delta (m : DeploymentManager) : f64 :=
  f64_div (f64_of_Z (max_stage_normalized_command_delta_bps m)) (f64_of_Z 10000).

Definition canary_max_command_delta (m : DeploymentManager) : f64 :=
  f64_div (f64_of_Z (canary_max_command_delta_bps m)) (f64_of_Z 10000).

(** ** Specification *)

(** What the promotion gates of stage [current] certify about an artifact, its
    evidence and the runtime. *)
Record gates_pass (current : DeploymentState) (a : ControllerArtifact)
    (ev : ControllerEvidenceBundle) (rd : RuntimeDigests) : Prop := {
  gp_verifier : verifier_status ev = Complete;
  gp_mode : ev_execution_mode ev = evidence_mode_for_state current;
  gp_traps : trap_count ev <= 0;
  gp_epochs : epoch_interrupt_count ev <= 0;
  gp_oscillation : command_oscillation_detected (controller_stability_summary ev) = false;
  gp_unexpected : unexpected_channels_touched ev = [];
  gp_untouched : channels_untouched ev = [];
  gp_ev_controller : ev_controller_digest ev = vk_controller_digest (verification_key a);
  gp_ev_wit : ev_wit_world_version ev = vk_wit_world_version (verification_key a);
  gp_ev_model : ev_model_digest ev = vk_model_digest (verification_key a);
  gp_ev_calibration : ev_calibration_digest ev = vk_calibration_digest (verification_key a);
  gp_ev_manifest : ev_manifest_digest ev = vk_manifest_digest (verification_key a);
  gp_ev_compiler : ev_compiler_version ev = vk_compiler_version (verification_key a);
  gp_runtime : rd = digests_of_key (verification_key a);
}.

(** One call on the lifecycle manager. *)
Inductive op : Type :=
| OpLoad (a : ControllerArtifact)
| OpSubmit (ev : ControllerEvidenceBundle)
| OpPromote (rd : RuntimeDigests)
| OpPromoteTo (rd : RuntimeDigests) (target : DeploymentState)
| OpRetire
| OpRollback
| OpRestoreActive.

Definition step (s : ControllerLifecycle) (o : op) : ControllerLifecycle :=
  match o with
  | OpLoad a => snd (load_artifact a s)
  | OpSubmit ev => snd (submit_evidence ev s)
  | OpPromote rd => snd (promote rd s)
  | OpPromoteTo rd target => snd (promote_to rd target s)
  | OpRetire => snd (retire_current s)
  | OpRollback => snd (rollback s)
  | OpRestoreActive => snd (restore_last_known_good_active s)
  end.

Definition run (ops : list op) : ControllerLifecycle := fold_left step ops new_lifecycle.

(** The promotion request an operation makes in state [s], if it is one. *)
Definition promotion_request (s : ControllerLifecycle) (o : op)
    : option (RuntimeDigests * DeploymentState) :=
  match o with
  | OpPromote rd => Some (rd, next_promotion_state (default VerifiedOnly (current_state s)))
  | OpPromoteTo rd target => Some (rd, target)
  | _ => None
  end.

(** In the history [ops], artifact [a] was promoted to stage [st] through the
    gates: some promotion request succeeded on it with evidence that passes. *)
Definition vetted (ops : list op) (st : DeploymentState) (a : ControllerArtifact) : Prop :=
  exists pre o post rd ev,
    ops = pre ++ o :: post /\
    promotion_request (run pre) o = Some (rd, st) /\
    current_artifact (run pre) = Some a /\
    evidence (run pre) = Some ev /\
    ev_controller_id ev = controller_id a /\
    gates_pass (default VerifiedOnly (current_state (run pre))) a ev rd /\
    can_transition_to (default VerifiedOnly (current_state (run pre))) st = true.

(** The well-formedness invariant of the manager's state. *)
Record lifecycle_wf (s : ControllerLifecycle) : Prop := {
  wf_artifact_state : current_artifact s = None <-> current_state s = None;
  wf_evidence : forall ev, evidence s = Some ev ->
    exists a, current_artifact s = Some a /\ ev_controller_id ev = controller_id a;
}.

(** The stages a policy walks through from [s], by repeated [next_target]. *)
Fixpoint policy_path (m : DeploymentManager) (fuel : nat) (s : DeploymentState)
    : list DeploymentState :=
  match fuel with
  | O => []
  | S fuel =>
      match next_target m s with
      | None => []
      | Some t => t :: policy_path m fuel t
      end
  end.

(** A chain of legal transitions of the deployment state machine. *)
Fixpoint legal_chain (s : DeploymentState) (l : list DeploymentState) : bool :=
  match l with
  | [] => true
  | t :: l => can_transition_to s t && legal_chain t l
  end.

(** The calls that drive an artifact through the stages [path]: evidence for the
    stage it is in, then the promotion request. *)
Fixpoint rollout_ops (rd : RuntimeDigests) (evs : DeploymentState -> ControllerEvidenceBundle)
    (s : DeploymentState) (path : list DeploymentState) : list op :=
  match path with
  | [] => []
  | t :: path => OpSubmit (evs s) :: OpPromoteTo rd t :: rollout_ops rd evs t path
  end.

(** ** The promotion gates *)

Lemma guard_ok b e : guard b e = Ok tt <-> b = true.
Proof. destruct b; naive_solver. Qed.

Lemma check_digests_ok mk l :
  check_digests mk l = Ok tt <-> Forall (fun '(_, expected, actual) => actual = expected) l.
Proof.
  induction l as [|[[f x] y] l IH]; simpl; [done|].
  rewrite Forall_cons, <- IH. destruct (String.eqb_spec x y); naive_solver.
Qed.

#[local] Arguments check_digests : simpl never.
#[local] Arguments evidence_checks : simpl never.
#[local] Arguments runtime_checks : simpl never.
#[local] Arguments guard : simpl never.

Lemma has_safety_issues_false ev :
  has_safety_issues ev = false <->
  trap_count ev <= 0 /\ epoch_interrupt_count ev <= 0
  /\ command_oscillation_detected (controller_stability_summary ev) = false
  /\ unexpected_channels_touched ev = [].
Proof.
  unfold has_safety_issues.
  rewrite !orb_false_iff, !Z.ltb_ge, negb_false_iff, bool_decide_eq_true. tauto.
Qed.

Lemma has_untouched_channels_false ev :
  has_untouched_channels ev = false <-> channels_untouched ev = [].
Proof. unfold has_untouched_channels. by rewrite negb_false_iff, bool_decide_eq_true. Qed.

Lemma transition_ok s t u :
  transition s t = Ok u <-> u = t /\ can_transition_to s t = true.
Proof. unfold transition. destruct (can_transition_to s t); naive_solver. Qed.

Lemma runtime_digests_eq vk rd :
  Forall (fun '(_, expected, actual) => actual = expected) (runtime_checks vk rd)
  -> vk_execution_mode vk = rd_execution_mode rd
  -> vk_embodiment_family vk = rd_embodiment_family rd
  -> rd = digests_of_key vk.
Proof.
  unfold runtime_checks, digests_of_key. rewrite !Forall_cons. destruct rd; simpl.
  intros. destruct_and!. by subst.
Qed.

#[export] Hint Resolve runtime_digests_eq : roz.

(** The gate chain of [promote_to] succeeds exactly when the gates pass. *)
Lemma promote_to_ok rd t s tr s' :
  promote_to rd t s = (Ok tr, s') <->
  exists a ev,
    current_artifact s = Some a /\ evidence s = Some ev /\
    gates_pass (default VerifiedOnly (current_state s)) a ev rd /\
    can_transition_to (default VerifiedOnly (current_state s)) t = true /\
    tr = {| lt_controller_id := controller_id a;
            from_state := default VerifiedOnly (current_state s); to_state := t |} /\
    s' = {| current_artifact := Some a; current_state := Some t; evidence := None;
            last_known_good := last_known_good s |}.
Proof.
  unfold promote_to. split.
  - intros H. case_match eqn:Ho; [|done]. unbind.
    repeat match goal with
    | H : ok_or _ _ = Ok _ |- _ => apply ok_or_ok in H
    | H : guard _ _ = Ok ?u |- _ => destruct u; apply guard_ok in H
    | H : check_digests _ _ = Ok ?u |- _ => destruct u; apply check_digests_ok in H
    | H : map_err _ _ = Ok _ |- _ => destruct (transition _ _) eqn:Ht; simplify_eq/=
    end.
    apply transition_ok in Ht as [-> Ht]. bool_prop.
    eexists _, _. split_and!; try done; [|by f_equal].
    match goal with H : has_safety_issues _ = false |- _ =>
      apply has_safety_issues_false in H as (? & ? & ? & ?) end.
    match goal with H : has_untouched_channels _ = false |- _ =>
      apply has_untouched_channels_false in H end.
    match goal with H : Forall _ (evidence_checks _ _) |- _ =>
      unfold evidence_checks in H; rewrite !Forall_cons in H end. destruct_and!.
    unfold verifier_status_is_pass, status_is_pass in *.
    constructor; eauto with roz. by destruct (verifier_status _).
  - intros (a & ev & Ha & He & G & Ht & -> & ->). rewrite Ha, He. simpl. destruct G; subst.
    unfold verifier_status_is_pass, status_is_pass.
    rewrite gp_verifier0, gp_mode0, bool_decide_true by done. unfold guard.
    rewrite (proj2 (has_safety_issues_false ev)) by done.
    rewrite (proj2 (has_untouched_channels_false ev)) by done. simpl.
    rewrite (proj2 (check_digests_ok _ (evidence_checks _ ev))) by (repeat constructor; done).
    rewrite (proj2 (check_digests_ok _ (runtime_checks _ _))) by (repeat constructor).
    simpl. rewrite !bool_decide_true by done. simpl.
    by rewrite (proj2 (transition_ok _ _ _) (conj eq_refl Ht)).
Qed.

Lemma promote_to_err rd t s e s' : promote_to rd t s = (Err e, s') -> s' = s.
Proof. unfold promote_to. intros H. case_match eqn:Ho; [case_match|]; by simplify_eq. Qed.

Lemma retire_ok s r s' :
  retire_current s = (Ok r, s') <->
  exists a st, current_artifact s = Some a
    /\ retirement_state_for (default VerifiedOnly (current_state s)) = Ok st
    /\ r = {| lr_controller_id := controller_id a; terminal_state := st;
             restored_controller_id := None; restored_state := None |}
    /\ s' = {| current_artifact := Some a; current_state := Some st; evidence := None;
              last_known_good := last_known_good s |}.
Proof.
  unfold retire_current. destruct (current_artifact s) as [a|]; simpl; [|naive_solver].
  destruct (retirement_state_for _); naive_solver.
Qed.

Lemma retire_err s e s' : retire_current s = (Err e, s') -> s' = s.
Proof. unfold retire_current. intros H. case_match eqn:Ho; [case_match|]; by simplify_eq. Qed.

Lemma retirement_terminal s st :
  retirement_state_for s = Ok st ->
  st = (if is_actuating s then RolledBack else Rejected) /\ is_terminal s = false.
Proof. destruct s; cbv; by intros [= <-]. Qed.

Lemma rollback_ok s r s' :
  rollback s = (Ok r, s') <->
  exists a lkg st, current_artifact s = Some a /\ last_known_good s = Some lkg
    /\ retirement_state_for (default VerifiedOnly (current_state s)) = Ok st
    /\ r = {| lr_controller_id := controller_id a; terminal_state := st;
             restored_controller_id := Some (controller_id lkg);
             restored_state := Some VerifiedOnly |}
    /\ s' = {| current_artifact := Some lkg; current_state := Some VerifiedOnly;
              evidence := None; last_known_good := None |}.
Proof.
  unfold rollback. destruct (last_known_good s) as [lkg|]; [|naive_solver].
  destruct (retire_current s) as [[r0|e] s0] eqn:Hr.
  - apply retire_ok in Hr as (a & st & -> & -> & -> & ->). naive_solver.
  - unfold retire_current in Hr. destruct (current_artifact s); simpl in Hr; [|naive_solver].
    destruct (retirement_state_for _); naive_solver.
Qed.

Lemma restore_active_ok s r s' :
  restore_last_known_good_active s = (Ok r, s') <->
  exists a lkg st, current_artifact s = Some a /\ last_known_good s = Some lkg
    /\ retirement_state_for (default VerifiedOnly (current_state s)) = Ok st
    /\ r = {| lr_controller_id := controller_id a; terminal_state := st;
             restored_controller_id := Some (controller_id lkg);
             restored_state := Some Active |}
    /\ s' = {| current_artifact := Some lkg; current_state := Some Active;
              evidence := None; last_known_good := Some lkg |}.
Proof.
  unfold restore_last_known_good_active. destruct (last_known_good s) as [lkg|] eqn:Hl; [|naive_solver].
  destruct (retire_current s) as [[r0|e] s0] eqn:Hr.
  - apply retire_ok in Hr as (a & st & -> & -> & -> & ->). rewrite Hl. naive_solver.
  - unfold retire_current in Hr. destruct (current_artifact s); simpl in Hr; [|naive_solver].
    destruct (retirement_state_for _); naive_solver.
Qed.

(** The rollback operations fail only where they, or the retirement, fail. *)
Lemma restore_err_unchanged s e s' :
  rollback s = (Err e, s') \/ restore_last_known_good_active s = (Err e, s') -> s' = s.
Proof.
  unfold rollback, restore_last_known_good_active.
  destruct (last_known_good s); [|naive_solver].
  destruct (retire_current s) as [[]] eqn:Hr; [naive_solver|].
  apply retire_err in Hr as ->. naive_solver.
Qed.

(** Every step is a load, an accepted submission, an accepted promotion, a
    retirement, one of the two restorations, or leaves the state alone. *)
Lemma step_cases s o :
  step s o = s
  \/ (exists a, step s o = snd (load_artifact a s))
  \/ (exists a ev, current_artifact s = Some a /\ ev_controller_id ev = controller_id a
       /\ step s o = {| current_artifact := Some a; current_state := current_state s;
                       evidence := Some ev; last_known_good := last_known_good s |})
  \/ (exists rd t a ev, promotion_request s o = Some (rd, t)
       /\ current_artifact s = Some a /\ evidence s = Some ev
       /\ gates_pass (default VerifiedOnly (current_state s)) a ev rd
       /\ can_transition_to (default VerifiedOnly (current_state s)) t = true
       /\ step s o = {| current_artifact := Some a; current_state := Some t;
                       evidence := None; last_known_good := last_known_good s |})
  \/ (exists a st, current_artifact s = Some a /\ is_actuating st = false
       /\ step s o = {| current_artifact := Some a; current_state := Some st;
                       evidence := None; last_known_good := last_known_good s |})
  \/ (exists lkg, last_known_good s = Some lkg
       /\ (step s o = {| current_artifact := Some lkg; current_state := Some VerifiedOnly;
                        evidence := None; last_known_good := None |}
           \/ step s o = {| current_artifact := Some lkg; current_state := Some Active;
                           evidence := None; last_known_good := Some lkg |})).
Proof.
  assert (Hp : forall rd t s', snd (promote_to rd t s) = s' -> s' = s \/
    exists a ev, current_artifact s = Some a /\ evidence s = Some ev
       /\ gates_pass (default VerifiedOnly (current_state s)) a ev rd
       /\ can_transition_to (default VerifiedOnly (current_state s)) t = true
       /\ s' = {| current_artifact := Some a; current_state := Some t;
                  evidence := None; last_known_good := last_known_good s |}).
  { intros rd t s' <-. destruct (promote_to rd t s) as [[tr|e] s'] eqn:H; simpl.
    - apply promote_to_ok in H. naive_solver.
    - left. by eapply promote_to_err. }
  destruct o as [a|ev|rd|rd t| | |]; simpl.
  - right; left. by exists a.
  - unfold submit_evidence. destruct (current_artifact s) as [a|] eqn:Ha; [|by left].
    destruct (String.eqb_spec (ev_controller_id ev) (controller_id a)); [|by left].
    right; right; left. by exists a, ev.
  - destruct (Hp _ _ _ eq_refl : snd (promote rd s) = s \/ _); naive_solver.
  - destruct (Hp rd t _ eq_refl); naive_solver.
  - destruct (retire_current s) as [[r|e] s'] eqn:H; simpl.
    + apply retire_ok in H as (a & st & Ha & Hst & -> & ->).
      apply retirement_terminal in Hst as [-> _].
      do 4 right; left. eexists a, _. split_and!; [done| |done]. by case_match.
    + left. by eapply retire_err.
  - destruct (rollback s) as [[r|e] s'] eqn:H; simpl.
    + apply rollback_ok in H. naive_solver.
    + left. eapply restore_err_unchanged; eauto.
  - destruct (restore_last_known_good_active s) as [[r|e] s'] eqn:H; simpl.
    + apply restore_active_ok in H. naive_solver.
    + left. eapply restore_err_unchanged; eauto.
Qed.

Lemma run_snoc ops o : run (ops ++ [o]) = step (run ops) o.
Proof. unfold run. by rewrite fold_left_app. Qed.

Lemma wf_step s o : lifecycle_wf s -> lifecycle_wf (step s o).
Proof.
  intros [Hs He].
  destruct (step_cases s o) as [->|[[a ->]|[(a & ev & Ha & Hi & ->)|[
    (rd & t & a & ev & _ & Ha & _ & _ & _ & ->)|[(a & st & Ha & _ & ->)|(lkg & Hl & [->| ->])]]]]];
    constructor; simpl; naive_solver.
Qed.

Lemma wf_run ops : lifecycle_wf (run ops).
Proof.
  induction ops as [|o ops IH] using rev_ind; [done|].
  rewrite run_snoc. by apply wf_step.
Qed.

Lemma vetted_snoc ops o st a : vetted ops st a -> vetted (ops ++ [o]) st a.
Proof.
  intros (pre & o' & post & rd & ev & -> & H).
  exists pre, o', (post ++ [o]), rd, ev. by rewrite <- app_assoc.
Qed.

#[export] Hint Resolve wf_run vetted_snoc : roz.

Lemma actuating_vetted ops :
  (forall st a, current_state (run ops) = Some st -> is_actuating st = true ->
    current_artifact (run ops) = Some a -> vetted ops st a) /\
  (forall a, last_known_good (run ops) = Some a -> vetted ops Active a).
Proof.
  induction ops as [|o ops [IHa IHl]] using rev_ind; [done|].
  rewrite run_snoc.
  destruct (step_cases (run ops) o) as [->|[[a ->]|[(a & ev & Ha & Hi & ->)|[
    (rd & t & a & ev & Hr & Ha & He & G & Ht & ->)|[(a & st & Ha & Hst & ->)|
    (lkg & Hl & [->| ->])]]]]]; simpl; (split; [intros st' a' ?? ?|intros a' Hl']); simplify_eq;
    eauto with roz.
  - case_bool_decide; eauto with roz.
  - exists ops, o, [], rd, ev. destruct (wf_run ops) as [_ Hev].
    destruct (Hev ev He) as (a'' & ? & ?). naive_solver.
  - congruence.
Qed.

Lemma policy_chain m :
  allows_rollout m = true ->
  legal_chain VerifiedOnly (policy_path m 3 VerifiedOnly) = true /\
  last (policy_path m 3 VerifiedOnly) = Some Active.
Proof.
  destruct m as [src sh ca ? ? ? ? ? ?]; simpl. intros Hr.
  by destruct src; try discriminate; destruct sh, ca.
Qed.

(** Driving a loaded artifact through a legal chain moves it to the chain's end. *)
Lemma rollout_run rd evs a
    (Hev : forall st, ev_controller_id (evs st) = controller_id a /\ gates_pass st a (evs st) rd) :
  forall path s st,
  current_artifact s = Some a -> current_state s = Some st -> legal_chain st path = true ->
  fold_left step (rollout_ops rd evs st path) s =
  match last path with
  | None => s
  | Some t => {| current_artifact := Some a; current_state := Some t; evidence := None;
                 last_known_good := last_known_good s |}
  end.
Proof.
  induction path as [|t path IH]; intros s st Ha Hs Hc; [done|].
  cbn [legal_chain] in Hc. bool_prop. destruct (Hev st) as [Hid G].
  cbn [rollout_ops fold_left].
  assert (step (step s (OpSubmit (evs st))) (OpPromoteTo rd t) =
    {| current_artifact := Some a; current_state := Some t; evidence := None;
       last_known_good := last_known_good s |}) as ->.
  { destruct s; simpl in *; subst. unfold submit_evidence; simpl.
    rewrite Hid, String.eqb_refl. simpl.
    erewrite (proj2 (promote_to_ok rd t _ _ _)); [done|].
    exists a, (evs st). by split_and!. }
  rewrite (IH _ t) by done. rewrite last_cons. by destruct (last path).
Qed.

(** How far along the promotion path a state is. *)
Definition stage_rank (s : DeploymentState) : nat :=
  match s with
  | VerifiedOnly => 0 | Shadow => 1 | Canary => 2 | Active => 3 | RolledBack | Rejected => 4
  end.

Lemma transition_rank s t : can_transition_to s t = true -> (stage_rank s < stage_rank t)%nat.
Proof. destruct s, t; simpl; (done || lia). Qed.

Lemma legal_chain_length l : forall s,
  legal_chain s l = true -> (length l + stage_rank s <= 4)%nat.
Proof.
  induction l as [|t l IH]; intros s H; [destruct s; simpl; lia|].
  cbn in H. bool_prop. apply transition_rank in H. specialize (IH t H0). simpl. lia.
Qed.

Lemma legal_chain_ranks l : forall s,
  legal_chain s l = true -> Forall (fun t => (stage_rank s < stage_rank t)%nat) l.
Proof.
  induction l as [|t l IH]; intros s H; [done|].
  cbn in H. bool_prop. apply transition_rank in H. constructor; [done|].
  eapply Forall_impl; [by apply IH|]. simpl. lia.
Qed.

Lemma legal_chain_nodup l : forall s, legal_chain s l = true -> NoDup (s :: l).
Proof.
  induction l as [|t l IH]; intros s H; [repeat constructor; set_solver|].
  pose proof (legal_chain_ranks _ _ H) as Hr. cbn in H. bool_prop.
  constructor; [|by apply IH].
  intros Hin. rewrite Forall_forall in Hr. specialize (Hr s Hin). lia.
Qed.

(** ** Theorems *)

(** C2: no ungated activation.  Whatever calls are made on the manager, in any
    order, a controller is in an actuating stage (canary or active) only if it was
    promoted to that very stage earlier by a request that passed every gate with
    evidence collected for it, and the same holds of the artifact kept for
    rollback. *)
Theorem activation_always_vetted (ops : list op) (st : DeploymentState) (a : ControllerArtifact) :
  is_actuating st = true ->
  (current_state (run ops) = Some st /\ current_artifact (run ops) = Some a)
    \/ (st = Active /\ last_known_good (run ops) = Some a) ->
  vetted ops st a.
Proof.
  intros Hact [[Hs Ha]|[-> Hl]].
  - by eapply actuating_vetted.
  - by eapply actuating_vetted.
Qed.

(** C5: the promotion request is exact.  [promote_to] succeeds precisely when an
    artifact with evidence is loaded, every gate passes and the stage transition is
    legal; it then consumes the evidence and moves only the stage; otherwise it
    reports an error and changes nothing. *)
Theorem promote_to_exact (rd : RuntimeDigests) (t : DeploymentState) (s : ControllerLifecycle) :
  let current := default VerifiedOnly (current_state s) in
  let allowed a ev :=
    current_artifact s = Some a /\ evidence s = Some ev
    /\ gates_pass current a ev rd /\ can_transition_to current t = true in
  match promote_to rd t s with
  | (Ok tr, s') =>
      exists a ev, allowed a ev
        /\ tr = {| lt_controller_id := controller_id a; from_state := current; to_state := t |}
        /\ s' = {| current_artifact := Some a; current_state := Some t; evidence := None;
                  last_known_good := last_known_good s |}
  | (Err e, s') => s' = s /\ ~ exists a ev, allowed a ev
  end.
Proof.
  simpl. destruct (promote_to rd t s) as [[tr|e] s'] eqn:H.
  - apply promote_to_ok in H. naive_solver.
  - split; [by eapply promote_to_err|].
    intros (a & ev & Ha & He & G & Ht).
    pose proof (proj2 (promote_to_ok rd t s _ _)
      (ex_intro _ a (ex_intro _ ev (conj Ha (conj He (conj G (conj Ht (conj eq_refl eq_refl)))))))).
    congruence.
Qed.

(** the manager's state stays well formed: an artifact is loaded exactly when a
    stage is recorded, and stored evidence always belongs to the loaded artifact. *)
Theorem lifecycle_always_wf (ops : list op) : lifecycle_wf (run ops).
Proof. auto with roz. Qed.

(** a failed call changes nothing, for every operation of the manager. *)
Theorem failed_call_changes_nothing (s s' : ControllerLifecycle) (e : LifecycleError)
    (ev : ControllerEvidenceBundle) (rd : RuntimeDigests) (t : DeploymentState) :
  submit_evidence ev s = (Err e, s') \/ promote rd s = (Err e, s')
    \/ promote_to rd t s = (Err e, s') \/ retire_current s = (Err e, s')
    \/ rollback s = (Err e, s') \/ restore_last_known_good_active s = (Err e, s') ->
  s' = s.
Proof.
  intros [H|[H|[H|[H|H]]]].
  - unfold submit_evidence in H. repeat case_match; by simplify_eq.
  - by eapply promote_to_err.
  - by eapply promote_to_err.
  - by eapply retire_err.
  - by eapply restore_err_unchanged.
Qed.

(** rollback.  A successful rollback retires the current controller ([rejected]
    when it never actuated, [rolled back] when it did), installs the last known good
    artifact in the verification stage with no evidence, and forgets it as last known
    good, so a second rollback is refused. *)
Theorem rollback_restores (s s' : ControllerLifecycle) (r : LifecycleRetirement) :
  rollback s = (Ok r, s') ->
  current_artifact s' = last_known_good s /\ current_state s' = Some VerifiedOnly
  /\ evidence s' = None
  /\ terminal_state r =
       (if is_actuating (default VerifiedOnly (current_state s)) then RolledBack else Rejected)
  /\ restored_controller_id r = controller_id <$> last_known_good s
  /\ fst (rollback s') = Err NoLastKnownGood.
Proof.
  intros H. apply rollback_ok in H as (a & lkg & st & Ha & -> & Hst & -> & ->).
  apply retirement_terminal in Hst as [-> _]. done.
Qed.

(** the rollout policy respects the state machine.  Under any policy that
    authorises rollout the stages form a legal chain from verification to active, of
    at most three steps, through shadow exactly when it is required, through canary
    whenever it is required, and never straight to active. *)
Theorem policy_path_staged (m : DeploymentManager) :
  allows_rollout m = true ->
  let path := policy_path m 3 VerifiedOnly in
  legal_chain VerifiedOnly path = true /\ last path = Some Active
  /\ (Shadow ∈ path <-> require_shadow m = true)
  /\ (require_canary m = true -> Canary ∈ path)
  /\ (Shadow ∈ path \/ Canary ∈ path)
  /\ (forall n, policy_path m (3 + n) VerifiedOnly = path).
Proof.
  destruct m as [src sh ca ? ? ? ? ? ?]; simpl. intros Hr.
  destruct src; try discriminate; destruct sh, ca; cbn; (split_and!; try done);
    solve [set_solver | by intros []].
Qed.

(** a clean rollout completes.  For any policy that authorises rollout, loading
    an artifact and, stage by stage, submitting evidence that passes the gates of
    the stage and requesting the policy's next target ends with that artifact
    active. *)
Theorem clean_rollout_reaches_active (m : DeploymentManager) (a : ControllerArtifact)
    (rd : RuntimeDigests) (evs : DeploymentState -> ControllerEvidenceBundle) (ops : list op) :
  allows_rollout m = true ->
  (forall st, ev_controller_id (evs st) = controller_id a /\ gates_pass st a (evs st) rd) ->
  let s := run (ops ++ OpLoad a :: rollout_ops rd evs VerifiedOnly (policy_path m 3 VerifiedOnly)) in
  current_state s = Some Active /\ current_artifact s = Some a.
Proof.
  intros Hr Hev. cbv zeta.
  destruct (policy_chain m Hr) as [Hc Hl].
  unfold run. rewrite fold_left_app. cbn [fold_left].
  rewrite (rollout_run rd evs a Hev _ _ VerifiedOnly); [|done..].
  by rewrite Hl.
Qed.

(** the deployment state machine is finite.  No chain of legal transitions has
    more than four steps, a controller never re-enters a state, and terminal states
    have no way out. *)
Theorem deployment_chains_finite (s : DeploymentState) (l : list DeploymentState) :
  legal_chain s l = true ->
  (length l <= 4)%nat /\ NoDup (s :: l) /\ (is_terminal s = true -> l = []).
Proof.
  intros H. pose proof (legal_chain_length l s H) as Hlen.
  split_and!.
  - destruct s; simpl in Hlen; lia.
  - by apply legal_chain_nodup.
  - intros Ht. destruct l as [|t l]; [done|]. cbn in H. by destruct s, t.
Qed.

(** ** Witnesses *)

Definition sample_key : VerificationKey := {|
  vk_controller_digest := "cd"; vk_wit_world_version := "w1"; vk_model_digest := "md";
  vk_calibration_digest := "cal"; vk_manifest_digest := "man"; vk_execution_mode := Verify;
  vk_compiler_version := "c1"; vk_embodiment_family := None;
|}.

Definition sample_artifact : ControllerArtifact := {|
  controller_id := "ctrl-1"; sha256 := "s"; source_kind := HumanAuthored;
  controller_class := Advisory; generator_model := None; generator_provider := None;
  channel_manifest_version := 1; host_abi_version := 1; evidence_bundle_id := None;
  created_at := 0; promoted_at := None; replaced_controller_id := None;
  verification_key := sample_key; wit_world := "w"; verifier_result := None;
|}.

Definition sample_evidence (st : DeploymentState) : ControllerEvidenceBundle := {|
  bundle_id := "b"; ev_controller_id := "ctrl-1"; ticks_run := 10; rejection_count := 0;
  limit_clamp_count := 0; rate_clamp_count := 0; position_limit_stop_count := 0;
  epoch_interrupt_count := 0; trap_count := 0; watchdog_near_miss_count := 0;
  channels_touched := ["j0"]; channels_untouched := []; unexpected_channels_touched := [];
  config_reads := 0; tick_latency_p50 := 1; tick_latency_p95 := 1; tick_latency_p99 := 1;
  controller_stability_summary := {| command_oscillation_detected := false;
    idle_output_stable := true; runtime_jitter_us := zero; missed_tick_count := 0;
    steady_state_reached := true |};
  verifier_status := Complete; verifier_reason := None;
  ev_controller_digest := "cd"; ev_model_digest := "md"; ev_calibration_digest := "cal";
  frame_snapshot_id := 0; ev_manifest_digest := "man"; ev_wit_world_version := "w1";
  ev_execution_mode := evidence_mode_for_state st; ev_compiler_version := "c1";
  ev_created_at := 0; state_freshness := Fresh;
|}.

Definition sample_ops : list op :=
  OpLoad sample_artifact
    :: rollout_ops (digests_of_key sample_key) sample_evidence VerifiedOnly
         (policy_path (new_manager true true true) 3 VerifiedOnly).

Lemma activation_always_vetted_witness : vetted sample_ops Active sample_artifact.
Proof. apply (activation_always_vetted sample_ops Active sample_artifact); [reflexivity|left; split; reflexivity]. Defined.

Lemma failed_call_changes_nothing_witness :
  snd (rollback (run sample_ops)) = run sample_ops.
Proof.
  apply (failed_call_changes_nothing _ _ NoLastKnownGood (sample_evidence Shadow)
    (digests_of_key sample_key) Active). right; right; right; right; left. reflexivity.
Defined.

Definition sample_rollback_state : ControllerLifecycle :=
  run (sample_ops ++ [OpLoad sample_artifact]).

Lemma rollback_restores_witness :
  exists r s', rollback sample_rollback_state = (Ok r, s')
    /\ current_artifact s' = Some sample_artifact.
Proof.
  eexists _, _. split; [vm_compute; reflexivity|].
  eapply (rollback_restores sample_rollback_state). vm_compute. reflexivity.
Defined.

Lemma policy_path_staged_witness :
  last (policy_path (new_manager true false true) 3 VerifiedOnly) = Some Active.
Proof. apply (policy_path_staged (new_manager true false true)). reflexivity. Defined.

Lemma clean_rollout_reaches_active_witness :
  current_state (run sample_ops) = Some Active.
Proof.
  apply (clean_rollout_reaches_active (new_manager true true true) sample_artifact
    (digests_of_key sample_key) sample_evidence []); [reflexivity|].
  intros st. split; [reflexivity|]. by constructor.
Defined.

Lemma deployment_chains_finite_witness :
  (length [Shadow; Canary; Active; RolledBack] <= 4)%nat.
Proof. apply (deployment_chains_finite VerifiedOnly). reflexivity. Defined.
