(* ===== verification/Command.v ===== *)
(** * Commands and the command state machine

    [crates/roz-core/src/command.rs] (motor commands, command frames, the command
    state machine) and the error type of [crates/roz-core/src/errors.rs]. *)

From S2P Require Import Prelude Float64.

(** The error kinds of [RozError]; the transparent [Other] wraps a foreign error and
    carries its text. *)
Inductive RozError : Type :=
| InvalidTransitionErr (from to : string)
| LeaseExpired (id : string)
| LeaseNotHeld (resource : string)
| InvalidFrame (msg : string)
| InvalidUnit (msg : string)
| Unauthorized (msg : string)
| NotFound (msg : string)
| Validation (msg : string)
| SkillParse (msg : string)
| SkillNotFound (msg : string)
| BehaviorTree (msg : string)
| ConditionViolated (msg : string)
| Recording (msg : string)
| TrustVerification (msg : string)
| ServiceUnavailable (msg : string)
| OtherErr (msg : string).

Inductive ControlMode : Type := VelocityControl | PositionControl.

Record MotorCommand : Type := {
  joint_velocities : list f64;
  joint_positions : option (list f64);
  control_mode : ControlMode;
}.

Definition motor_zero (num_joints : nat) : MotorCommand := {|
  joint_velocities := replicate num_joints zero;
  joint_positions := None;
  control_mode := VelocityControl;
|}.

Record CommandFrame : Type := { values : list f64 }.

Definition frame_zero (n : nat) : CommandFrame := {| values := replicate n zero |}.

(** ** The command state machine *)

Inductive CommandState : Type :=
| Accepted | Started | Progress | Completed | Failed | Aborted | TimedOut.

Inductive CommandEvent : Type :=
| Start | ReportProgress | Complete | Fail | Abort | Timeout.

#[export] Instance CommandState_eq_dec : EqDecision CommandState.
Proof. solve_decision. Defined.
#[export] Instance CommandEvent_eq_dec : EqDecision CommandEvent.
Proof. solve_decision. Defined.

Definition debug_command_state (s : CommandState) : string :=
  match s with
  | Accepted => "Accepted" | Started => "Started" | Progress => "Progress"
  | Completed => "Completed" | Failed => "Failed" | Aborted => "Aborted"
  | TimedOut => "TimedOut"
  end.

Definition debug_command_event (e : CommandEvent) : string :=
  match e with
  | Start => "Start" | ReportProgress => "ReportProgress" | Complete => "Complete"
  | Fail => "Fail" | Abort => "Abort" | Timeout => "Timeout"
  end.

Definition command_is_terminal (s : CommandState) : bool :=
  match s with Completed | Failed | Aborted | TimedOut => true | _ => false end.

Definition command_transition (self : CommandState) (event : CommandEvent)
    : result CommandState RozError :=
  match self, event with
  | Accepted, Start => Ok Started
  | Started, ReportProgress => Ok Progress
  | Started, Complete => Ok Completed
  | Started, Fail => Ok Failed
  | Started, Abort => Ok Aborted
  | Started, Timeout => Ok TimedOut
  | Progress, ReportProgress => Ok Progress
  | Progress, Complete => Ok Completed
  | Progress, Fail => Ok Failed
  | Progress, Abort => Ok Aborted
  | Progress, Timeout => Ok TimedOut
  | state, evt =>
      Err (InvalidTransitionErr (debug_command_state state) (debug_command_event evt))
  end.

(** A command's life: the state after applying a list of events, stopping at the
    first refused one. *)
Fixpoint command_run (s : CommandState) (evs : list CommandEvent)
    : result CommandState RozError :=
  match evs with
  | [] => Ok s
  | e :: evs => let? s' := command_transition s e in command_run s' evs
  end.

(** The language of complete command lives: one [Start], any number of progress
    reports, one closing event that determines the terminal state. *)
Definition closing (e : CommandEvent) : option CommandState :=
  match e with
  | Complete => Some Completed | Fail => Some Failed | Abort => Some Aborted
  | Timeout => Some TimedOut | _ => None
  end.

Lemma terminal_stuck s e : command_is_terminal s = true -> is_ok (command_transition s e) = false.
Proof. by destruct s, e. Qed.

Lemma run_terminal s evs t :
  command_is_terminal s = true -> command_run s evs = Ok t -> evs = [] /\ t = s.
Proof.
  intros Hs. destruct evs as [|e evs]; simpl; [naive_solver|].
  pose proof (terminal_stuck s e Hs). destruct (command_transition s e); done.
Qed.

Lemma run_active s evs t :
  (s = Started \/ s = Progress) -> command_is_terminal t = true ->
  command_run s evs = Ok t <->
  exists n e, evs = replicate n ReportProgress ++ [e] /\ closing e = Some t.
Proof.
  intros Hs Ht. split.
  - revert s Hs. induction evs as [|e evs IH]; intros s Hs H; simpl in H.
    { destruct Hs; by simplify_eq. }
    apply result_bind_ok in H as (v & Hv & H). destruct (decide (e = ReportProgress)) as [->|Hne].
    + assert (v = Progress) as -> by (destruct Hs as [-> | ->]; simpl in *; by simplify_eq).
      destruct (IH Progress (or_intror eq_refl) H) as (n & e & -> & ?).
      by exists (S n), e.
    + assert (closing e = Some v) by (destruct Hs as [-> | ->], e; simpl in *; by simplify_eq).
      apply run_terminal in H as [-> ->]; [|by destruct e; simplify_eq/=].
      by exists 0%nat, e.
  - intros (n & e & -> & He). revert s Hs.
    induction n as [|n IH]; intros s Hs; simpl.
    + destruct Hs as [-> | ->]; destruct e; by simplify_eq/=.
    + destruct Hs as [-> | ->]; simpl; apply IH; by right.
Qed.

(** the lives of a command.  A list of events takes an accepted command to a
    terminal state exactly when it is one start, any number of progress reports and
    one closing event, and the closing event decides the state; every other list is
    refused or leaves the command unfinished. *)
Theorem command_lives (evs : list CommandEvent) (t : CommandState) :
  command_run Accepted evs = Ok t /\ command_is_terminal t = true <->
  exists n e, evs = Start :: replicate n ReportProgress ++ [e] /\ closing e = Some t.
Proof.
  split.
  - intros [H Ht]. destruct evs as [|e evs]; simpl in H; [by simplify_eq|].
    destruct e; simpl in H; try done. apply run_active in H; [|by left|done]. naive_solver.
  - intros (n & e & -> & He).
    assert (command_is_terminal t = true) by (destruct e; by simplify_eq/=).
    split; [|done]. simpl. apply run_active; [by left|done|]. eauto.
Qed.
