(* ===== verification/Embodiment.v ===== *)
(** * Joint limits, control interface and workspace

    The data of [crates/roz-core/src/embodiment/]: [limits.rs], [binding.rs] (the
    control interface and the validation of its bindings), [workspace.rs], and the
    intervention record of [crates/roz-core/src/controller/intervention.rs]. *)

From S2P Require Import Prelude Float64.

(** ** limits.rs *)

Record JointSafetyLimits : Type := {
  joint_name : string;
  max_velocity : f64;
  max_acceleration : f64;
  max_jerk : f64;
  position_min : f64;
  position_max : f64;
  max_torque : option f64;
}.

Record ForceSafetyLimits : Type := {
  max_contact_force_n : f64;
  max_contact_torque_nm : f64;
  force_rate_limit : f64;
}.

Definition position_in_range (self : JointSafetyLimits) (position : f64) : bool :=
  f64_ge position (position_min self) && f64_le position (position_max self).

Definition clamp_velocity (self : JointSafetyLimits) (velocity : f64) : exec f64 :=
  clamp velocity (f64_neg (max_velocity self)) (max_velocity self).

Definition clamp_acceleration (self : JointSafetyLimits) (acceleration : f64) : exec f64 :=
  clamp acceleration (f64_neg (max_acceleration self)) (max_acceleration self).

(** ** intervention.rs *)

Inductive InterventionKind : Type :=
| VelocityClamp | AccelerationLimit | PositionLimit | UnconfiguredJoint | NanReject
| JerkLimit | ForceLimit | TorqueLimit | WorkspaceBoundary | TickOverrun
| ContactForceExceeded | SlipDetected | TactileOverload.

Record SafetyIntervention : Type := {
  channel : string;
  raw_value : f64;
  clamped_value : f64;
  kind : InterventionKind;
  reason : list (format_piece f64);
}.

(** ** binding.rs *)

Inductive BindingType : Type :=
| BJointPosition | BJointVelocity | BForceTorque | BCommand | BGripperPosition
| BGripperForce | BImuOrientation | BImuAngularVelocity | BImuLinearAcceleration.

Inductive CommandInterfaceType : Type :=
| JointVelocity | JointPosition | JointTorque | GripperPosition | GripperForce
| ForceTorqueSensor | ImuSensor.

Inductive SemanticRole : Type :=
| PrimaryManipulatorJoint (index : Z) | SecondaryManipulatorJoint (index : Z)
| PrimaryGripper | SecondaryGripper | BaseTranslation | BaseRotation | HeadPan | HeadTilt
| PrimaryCamera | WristCamera | RoleForceTorqueSensor | CustomRole (role : string).

Record ControlChannelDef : Type := {
  ch_name : string;
  interface_type : CommandInterfaceType;
  units : string;
  ch_frame_id : string;
}.

Record ChannelBinding : Type := {
  physical_name : string;
  channel_index : Z;
  binding_type : BindingType;
  b_frame_id : string;
  b_units : string;
  semantic_role : option SemanticRole;
}.

Record ControlInterfaceManifest : Type := {
  version : Z;
  manifest_digest : string;
  channels : list ControlChannelDef;
  bindings : list ChannelBinding;
}.

Record UnboundChannel : Type := {
  ub_physical_name : string;
  ub_binding_type : BindingType;
  ub_reason : string;
}.

Definition debug_binding_type (b : BindingType) : string :=
  match b with
  | BJointPosition => "JointPosition" | BJointVelocity => "JointVelocity"
  | BForceTorque => "ForceTorque" | BCommand => "Command"
  | BGripperPosition => "GripperPosition" | BGripperForce => "GripperForce"
  | BImuOrientation => "ImuOrientation" | BImuAngularVelocity => "ImuAngularVelocity"
  | BImuLinearAcceleration => "ImuLinearAcceleration"
  end.

(** [names.contains(&name)]. *)
Definition contains_name (names : list string) (name : string) : bool :=
  existsb (String.eqb name) names.

Definition binding_name_valid (joints sensors : list string) (b : ChannelBinding) : bool :=
  match binding_type b with
  | BJointPosition | BJointVelocity | BCommand => contains_name joints (physical_name b)
  | BForceTorque | BImuOrientation | BImuAngularVelocity | BImuLinearAcceleration =>
      contains_name sensors (physical_name b)
  | BGripperPosition | BGripperForce =>
      contains_name joints (physical_name b) || contains_name sensors (physical_name b)
  end.

Definition unbound (b : ChannelBinding) (r : string) : UnboundChannel := {|
  ub_physical_name := physical_name b; ub_binding_type := binding_type b; ub_reason := r |}.

(** One turn of the loop over the bindings: the updated per-channel counters and the
    errors it reports. *)
Definition validate_binding (joints sensors frames : list string) (channel_count : Z)
    (counts : list Z) (b : ChannelBinding) : list Z * list UnboundChannel :=
  let name_errors :=
    if binding_name_valid joints sensors b then []
    else [unbound b (physical_name b +:+ " not found in embodiment model for binding type "
                      +:+ debug_binding_type (binding_type b))] in
  let frame_errors :=
    if contains_name frames (b_frame_id b) then []
    else [unbound b ("frame '" +:+ b_frame_id b +:+ "' not found in frame tree")] in
  if channel_count <=? channel_index b then
    (counts,
     name_errors ++ frame_errors ++
     [unbound b ("channel_index " +:+ pretty (channel_index b) +:+ " out of range (max "
                  +:+ pretty (saturating_sub channel_count 1) +:+ ")")])
  else
    match counts !! Z.to_nat (channel_index b) with
    | None => (counts, name_errors ++ frame_errors)
    | Some count =>
        (<[Z.to_nat (channel_index b) := count + 1]> counts,
         name_errors ++ frame_errors ++
         (if 1 <? count + 1 then
            [unbound b ("channel_index " +:+ pretty (channel_index b) +:+ " is bound multiple times")]
          else []))
    end.

Fixpoint validate_loop (joints sensors frames : list string) (channel_count : Z)
    (counts : list Z) (bs : list ChannelBinding) : list Z * list UnboundChannel :=
  match bs with
  | [] => (counts, [])
  | b :: bs =>
      let '(counts', errs) := validate_binding joints sensors frames channel_count counts b in
      let '(counts'', errs') := validate_loop joints sensors frames channel_count counts' bs in
      (counts'', errs ++ errs')
  end.

(** The final pass: channels no binding counted. *)
Fixpoint unbound_channels (i : Z) (counts : list Z) : list UnboundChannel :=
  match counts with
  | [] => []
  | count :: counts =>
      (if count =? 0 then
         [{| ub_physical_name := "channel[" +:+ pretty i +:+ "]"; ub_binding_type := BCommand;
             ub_reason := "channel_index " +:+ pretty i +:+ " has no binding" |}]
       else [])
      ++ unbound_channels (i + 1) counts
  end.

Definition validate_bindings (bs : list ChannelBinding) (joints sensors frames : list string)
    (channel_count : Z) : list UnboundChannel :=
  let '(counts, errs) :=
    validate_loop joints sensors frames channel_count (replicate (Z.to_nat channel_count) 0) bs in
  errs ++ unbound_channels 0 counts.

(** ** workspace.rs *)

Record vec3 : Type := V3 { v0 : f64; v1 : f64; v2 : f64 }.

Inductive WorkspaceShape : Type :=
| WBox (half_extents : vec3)
| WSphere (radius : f64)
| WCylinder (radius half_height : f64).

Inductive ZoneType : Type := Allowed | Restricted | HumanPresence.

Record WorkspaceZone : Type := {
  zone_name : string;
  shape : WorkspaceShape;
  origin_frame : string;
  zone_type : ZoneType;
  margin_m : f64;
}.

Record WorkspaceEnvelope : Type := { zones : list WorkspaceZone }.

Definition contains_point (s : WorkspaceShape) (p : vec3) : bool :=
  match s with
  | WBox h =>
      f64_le (f64_abs (v0 p)) (v0 h) && f64_le (f64_abs (v1 p)) (v1 h)
      && f64_le (f64_abs (v2 p)) (v2 h)
  | WSphere radius =>
      let dist_sq :=
        mul_add (v2 p) (v2 p) (mul_add (v0 p) (v0 p) (f64_mul (v1 p) (v1 p))) in
      f64_le dist_sq (f64_mul radius radius)
  | WCylinder radius half_height =>
      let radial_sq := mul_add (v0 p) (v0 p) (f64_mul (v1 p) (v1 p)) in
      f64_le radial_sq (f64_mul radius radius) && f64_le (f64_abs (v2 p)) half_height
  end.

(** ** The meaning of an empty error list *)

(** How many bindings claim channel [i]. *)
Fixpoint claims (i : Z) (bs : list ChannelBinding) : Z :=
  match bs with
  | [] => 0
  | b :: bs => (if channel_index b =? i then 1 else 0) + claims i bs
  end.

Section Validation.
Context (joints sensors frames : list string) (n : Z).

Definition binding_ok (b : ChannelBinding) : Prop :=
  binding_name_valid joints sensors b = true /\ contains_name frames (b_frame_id b) = true /\
  channel_index b < n.

Lemma claims_nonneg i bs : 0 <= claims i bs.
Proof. induction bs; simpl; [lia|]. case_match; lia. Qed.

(** The loop reports nothing exactly when every binding is well formed and no
    channel's counter passes one; its counters then count the claims. *)
Lemma validate_loop_nil bs : forall counts,
  length counts = Z.to_nat n -> Forall (fun b => 0 <= channel_index b) bs ->
  Forall (fun c => 0 <= c) counts ->
  let r := validate_loop joints sensors frames n counts bs in
  (snd r = [] <->
     Forall binding_ok bs /\
     forall i c, counts !! i = Some c -> 0 < claims (Z.of_nat i) bs ->
       c + claims (Z.of_nat i) bs <= 1) /\
  (snd r = [] -> length (fst r) = length counts /\
     forall i c, counts !! i = Some c -> fst r !! i = Some (c + claims (Z.of_nat i) bs)).
Proof.
  induction bs as [|b bs IH]; intros counts Hlen Hidx Hpos; simpl.
  { split; [|intros _; split; [done|intros; rewrite Z.add_0_r; done]].
    split; [split; [constructor|intros; lia]|done]. }
  apply Forall_cons in Hidx as [Hb Hidx]. unfold validate_binding.
  destruct (binding_name_valid joints sensors b) eqn:Hname;
    destruct (contains_name frames (b_frame_id b)) eqn:Hframe;
    destruct (n <=? channel_index b) eqn:Hn; bool_prop;
    try (destruct (validate_loop _ _ _ _ counts bs); simpl;
         split; [split; [done|intros [[(? & ? & ?) ?]%Forall_cons _]; (congruence || lia)]|done]).
  all: destruct (lookup_lt_is_Some_2 counts (Z.to_nat (channel_index b))) as [c Hc]; [lia|];
    rewrite Hc.
  2-4: destruct (validate_loop _ _ _ _ _ bs); simpl;
       split; [split; [done|intros [[(? & ? & ?) ?]%Forall_cons _]; congruence]|done].
  set (counts' := <[_ := _]> counts).
  assert (length counts' = Z.to_nat n) as Hlen' by (unfold counts'; by rewrite length_insert).
  assert (0 <= c) as Hc0 by by eapply (Forall_lookup_1 _ _ _ _ Hpos).
  assert (Forall (fun c => 0 <= c) counts') as Hpos' by (apply Forall_insert; [done|lia]).
  specialize (IH counts' Hlen' Hidx Hpos'). simpl in IH.
  destruct (validate_loop joints sensors frames n counts' bs) as [cs es]. simpl in *.
  destruct IH as [IH1 IH2].
  assert (forall i k, counts !! i = Some k ->
            counts' !! i = Some (k + if channel_index b =? Z.of_nat i then 1 else 0)) as Hcs.
  { intros i k Hi. destruct (Z.eqb_spec (channel_index b) (Z.of_nat i)) as [He|He].
    - assert (Z.to_nat (channel_index b) = i) as Hz by lia.
      rewrite Hz in *. unfold counts'. rewrite Hz, list_lookup_insert_eq by (eapply lookup_lt_Some; done).
      congruence.
    - unfold counts'. rewrite list_lookup_insert_ne, Hi by lia. f_equal. lia. }
  assert (Z.of_nat (Z.to_nat (channel_index b)) = channel_index b) as Hid by lia.
  destruct (1 <? c + 1) eqn:Hdup; bool_prop; simpl.
  { split; [|done]. split; [done|]. intros [_ H]. specialize (H _ _ Hc).
    rewrite Hid, Z.eqb_refl in H. pose proof (claims_nonneg (channel_index b) bs). lia. }
  split.
  - rewrite IH1, Forall_cons. split.
    + intros [Hok H]. split; [done|]. intros i k Hi Hcl. specialize (Hcs i k Hi).
      pose proof (claims_nonneg (Z.of_nat i) bs).
      specialize (H i _ Hcs). destruct (Z.eqb_spec (channel_index b) (Z.of_nat i)) as [He|]; [|lia].
      assert (Z.to_nat (channel_index b) = i) as Hz by lia. rewrite Hz in Hc.
      assert (k = c) as -> by congruence. destruct (decide (0 < claims (Z.of_nat i) bs)); lia.
    + intros [[_ Hok] H]. split; [done|]. intros i k Hi Hcl.
      destruct (lookup_lt_is_Some_2 counts i) as [k0 Hk0].
      { apply lookup_lt_Some in Hi. unfold counts' in Hi. by rewrite length_insert in Hi. }
      specialize (H i k0 Hk0). specialize (Hcs i k0 Hk0). simplify_eq.
      case_match; lia.
  - intros Hnil. destruct (IH2 Hnil) as [Hl Hr]. split.
    { rewrite Hl. unfold counts'. by rewrite length_insert. }
    intros i k Hi. specialize (Hcs i k Hi). rewrite (Hr i _ Hcs). f_equal. case_match; lia.
Qed.

Lemma unbound_channels_nil counts : forall i,
  unbound_channels i counts = [] <-> Forall (fun c => c <> 0) counts.
Proof.
  induction counts as [|c counts IH]; intros i; simpl; [done|].
  rewrite Forall_cons, <- (IH (i + 1)). destruct (Z.eqb_spec c 0); naive_solver.
Qed.
End Validation.

(** ** Theorems *)

(** validation of the channel bindings is exact.  It reports nothing precisely when
    every binding names a known joint or sensor of the right kind, a known frame and a
    channel that exists, and every channel has exactly one binding. *)
Theorem validate_bindings_exact (bs : list ChannelBinding) (joints sensors frames : list string)
    (n : Z) (Hidx : Forall (fun b => 0 <= channel_index b) bs) :
  validate_bindings bs joints sensors frames n = [] <->
  Forall (binding_ok joints sensors frames n) bs /\ forall i, 0 <= i < n -> claims i bs = 1.
Proof.
  unfold validate_bindings.
  destruct (validate_loop_nil joints sensors frames n bs (replicate (Z.to_nat n) 0)) as [H1 H2];
    [by rewrite length_replicate|done|by apply Forall_replicate|].
  destruct (validate_loop _ _ _ _ _ bs) as [cs es]. simpl in *.
  assert (forall i, 0 <= i < n -> replicate (Z.to_nat n) 0 !! Z.to_nat i = Some 0) as Hrep
    by (intros i ?; apply lookup_replicate; split; [done|lia]).
  split.
  - intros [He Hu]%app_eq_nil. destruct (H2 He) as [_ Hcs]. apply H1 in He as [Hok Hle].
    apply unbound_channels_nil in Hu. split; [done|]. intros i Hi.
    specialize (Hcs _ _ (Hrep i Hi)). specialize (Hle _ _ (Hrep i Hi)).
    eapply Forall_lookup in Hu; [|exact Hcs]. rewrite Z2Nat.id in * by lia.
    pose proof (claims_nonneg i bs). lia.
  - intros [Hok Hone].
    assert (es = []) as ->.
    { apply H1. split; [done|]. intros i c Hi _. apply lookup_replicate in Hi as [-> Hi].
      rewrite (Hone (Z.of_nat i)); lia. }
    simpl. apply unbound_channels_nil, Forall_lookup. intros i c Hc.
    destruct (H2 eq_refl) as [Hl Hcs].
    apply lookup_lt_Some in Hc as Hlt. rewrite Hl, length_replicate in Hlt.
    specialize (Hcs i 0). rewrite lookup_replicate_2 in Hcs by done.
    specialize (Hcs eq_refl). rewrite Hone in Hcs by lia. simplify_eq. lia.
Qed.

Lemma validate_bindings_exact_witness :
  let b i f := {| physical_name := "j0"; channel_index := i; binding_type := BCommand;
                  b_frame_id := f; b_units := "rad/s"; semantic_role := None |} in
  validate_bindings [b 0 "base"; b 1 "base"] ["j0"] [] ["base"] 2 = [] /\
  validate_bindings [b 1 "base"; b 1 "tool"] ["j0"] [] ["base"] 2 <> [].
Proof.
  split.
  - apply validate_bindings_exact; [repeat constructor; simpl; lia|]. split.
    + repeat constructor.
    + intros i Hi. assert (i = 0 \/ i = 1) as [-> | ->] by lia; reflexivity.
  - intros H. apply validate_bindings_exact in H as [_ H]; [|repeat constructor; simpl; lia].
    specialize (H 0 ltac:(lia)). discriminate.
Defined.
