(* ===== verification/SafetyFilter.v ===== *)
(** * The safety filters of the control loop

    [crates/roz-copper/src/safety_filter.rs]: [SafetyFilterTask] (the clamp of coarse
    motor commands and of command frames against the control interface) and
    [HotPathSafetyFilter] (the filter of every tick's output, which records an
    intervention for every command it alters).

    Every [f64::clamp] of the code is the panicking [clamp] of [Float64], so that the
    absence of panics in the control loop is a theorem about the filters' limits. *)

From S2P Require Import Prelude Float64 Float64Round Command Embodiment.

Definition POSITION_LIMIT_MARGIN : f64 := f64_dec 5 2.

(** Error messages: strings with floating-point arguments. *)
Definition message : Type := list (format_piece f64).

(** ** SafetyFilterTask *)

Record SafetyFilterTask : Type := {
  sf_max_velocity : f64;
  sf_max_acceleration : f64;
  sf_tick_period : f64;
  sf_position_limits : option (list (f64 * f64));
  prev_velocities : list f64;
  current_positions : list f64;
}.

Inductive FrameInterfaceType : Type := FVelocity | FPosition | FEffort.

Record FrameCommandProfile : Type := {
  fp_default : f64;
  limits : f64 * f64;
  max_rate_of_change : option f64;
  position_state_index : option nat;
  max_delta_from : option (nat * f64);
  fp_interface_type : FrameInterfaceType;
}.

Definition frame_interface_type_from_control (t : CommandInterfaceType) : FrameInterfaceType :=
  match t with
  | JointVelocity => FVelocity
  | JointPosition | GripperPosition => FPosition
  | JointTorque | GripperForce | ForceTorqueSensor | ImuSensor => FEffort
  end.

Definition is_actuator_command_interface (t : CommandInterfaceType) : bool :=
  match t with
  | JointVelocity | JointPosition | JointTorque | GripperPosition | GripperForce => true
  | _ => false
  end.

Definition fallback_control_limits (t : CommandInterfaceType) : f64 * f64 :=
  match t with
  | JointPosition => (f64_neg PI, PI)
  | JointTorque => (f64_of_Z (-100), f64_of_Z 100)
  | GripperPosition => (f64_dec (-1) 1, f64_dec 1 1)
  | GripperForce => (f64_of_Z (-50), f64_of_Z 50)
  | JointVelocity | ForceTorqueSensor | ImuSensor => (f64_of_Z (-1), f64_of_Z 1)
  end.

(** The limits of one channel: the [match channel.interface_type] of the profile loop. *)
Definition channel_limits (t : CommandInterfaceType) (jl : option JointSafetyLimits) : f64 * f64 :=
  match t with
  | JointVelocity =>
      match jl with
      | None => fallback_control_limits t
      | Some l => (f64_neg (f64_abs (max_velocity l)), f64_abs (max_velocity l))
      end
  | JointPosition | GripperPosition =>
      match jl with
      | None => fallback_control_limits t
      | Some l => (position_min l, position_max l)
      end
  | JointTorque | GripperForce =>
      match jl ≫= (fun l => max_torque l) with
      | None => fallback_control_limits t
      | Some m => (f64_neg (f64_abs m), f64_abs m)
      end
  | ForceTorqueSensor | ImuSensor => fallback_control_limits t
  end.

(** The body of the profile loop for the actuator channel number [i]. *)
Definition profile_of_channel (joint_limits : list JointSafetyLimits) (i : nat)
    (ch : ControlChannelDef) : FrameCommandProfile := {|
  fp_default := zero;
  limits := channel_limits (interface_type ch) (joint_limits !! i);
  max_rate_of_change := None;
  position_state_index :=
    match interface_type ch with
    | JointVelocity | JointPosition | JointTorque | GripperPosition | GripperForce => Some i
    | _ => None
    end;
  max_delta_from := None;
  fp_interface_type := frame_interface_type_from_control (interface_type ch);
|}.

(** [channels.iter().filter(..)]. *)
Definition actuator_channels (cm : ControlInterfaceManifest) : list ControlChannelDef :=
  List.filter (fun ch => is_actuator_command_interface (interface_type ch)) (channels cm).

Definition frame_command_profiles_from_control_manifest (cm : ControlInterfaceManifest)
    (joint_limits : list JointSafetyLimits) : list FrameCommandProfile :=
  imap (profile_of_channel joint_limits) (actuator_channels cm).

Definition validate_tick_period (period_secs : f64) : result f64 message :=
  if is_finite period_secs && f64_gt period_secs zero then Ok period_secs
  else Err [Str "tick period must be positive and finite, got "; Flt None period_secs].

Definition new_filter (max_velocity max_acceleration : f64)
    (position_limits : option (list (f64 * f64))) : exec (result SafetyFilterTask message) :=
  if is_finite max_velocity && f64_gt max_velocity zero then
    if is_finite max_acceleration && f64_ge max_acceleration zero then
      Ret (Ok {|
        sf_max_velocity := max_velocity;
        sf_max_acceleration := max_acceleration;
        sf_tick_period := f64_dec 1 2;
        sf_position_limits := position_limits;
        prev_velocities := [];
        current_positions := [];
      |})
    else Panic
  else Panic.

Definition set_tick_period (self : SafetyFilterTask) (period_secs : f64)
    : result SafetyFilterTask message :=
  let? p := validate_tick_period period_secs in
  Ok {|
    sf_max_velocity := sf_max_velocity self;
    sf_max_acceleration := sf_max_acceleration self;
    sf_tick_period := p;
    sf_position_limits := sf_position_limits self;
    prev_velocities := prev_velocities self;
    current_positions := current_positions self;
  |}.

Definition update_positions (self : SafetyFilterTask) (positions : list f64) : SafetyFilterTask := {|
  sf_max_velocity := sf_max_velocity self;
  sf_max_acceleration := sf_max_acceleration self;
  sf_tick_period := sf_tick_period self;
  sf_position_limits := sf_position_limits self;
  prev_velocities := prev_velocities self;
  current_positions := positions;
|}.

Definition set_prev_velocities (self : SafetyFilterTask) (vs : list f64) : SafetyFilterTask := {|
  sf_max_velocity := sf_max_velocity self;
  sf_max_acceleration := sf_max_acceleration self;
  sf_tick_period := sf_tick_period self;
  sf_position_limits := sf_position_limits self;
  prev_velocities := vs;
  current_positions := current_positions self;
|}.

(** At or beyond a position bound (less the margin) and moving towards it. *)
Definition pushes_past (pos v lower upper : f64) : bool :=
  (f64_ge pos (f64_sub upper POSITION_LIMIT_MARGIN) && f64_gt v zero)
  || (f64_le pos (f64_add lower POSITION_LIMIT_MARGIN) && f64_lt v zero).

(** The closure of [clamp] on joint [i]. *)
Definition clamp_joint (self : SafetyFilterTask) (max_delta : f64) (i : nat) (v : f64) : exec f64 :=
  let v := if is_finite v then v else zero in
  let! v := clamp v (f64_neg (sf_max_velocity self)) (sf_max_velocity self) in
  let prev := default zero (prev_velocities self !! i) in
  let! v := (if f64_gt max_delta zero
             then clamp v (f64_sub prev max_delta) (f64_add prev max_delta)
             else Ret v) in
  match sf_position_limits self with
  | Some limits =>
      match limits !! i with
      | Some (lower, upper) =>
          let pos := default zero (current_positions self !! i) in
          if pushes_past pos v lower upper then Ret zero else Ret v
      | None => Ret v
      end
  | None => Ret v
  end.

Definition clamp_command (self : SafetyFilterTask) (cmd : MotorCommand)
    : exec (SafetyFilterTask * MotorCommand) :=
  let max_delta := f64_mul (sf_max_acceleration self) (sf_tick_period self) in
  let! velocities := exec_mapi (clamp_joint self max_delta) 0 (joint_velocities cmd) in
  Ret (set_prev_velocities self velocities,
       {| joint_velocities := velocities;
          joint_positions := joint_positions cmd;
          control_mode := control_mode cmd |}).

(** Step 4 of the frame clamp: position-limit enforcement. *)
Definition enforce_position (self : SafetyFilterTask) (state_limits : list (f64 * f64))
    (desc : FrameCommandProfile) (v : f64) : exec f64 :=
  match position_state_index desc with
  | Some pos_idx =>
      match current_positions self !! pos_idx with
      | Some pos =>
          match state_limits !! pos_idx with
          | Some (lower, upper) =>
              match fp_interface_type desc with
              | FVelocity | FEffort =>
                  if pushes_past pos v lower upper then Ret zero else Ret v
              | FPosition =>
                  if (f64_ge pos (f64_sub upper POSITION_LIMIT_MARGIN) && f64_gt v pos)
                     || (f64_le pos (f64_add lower POSITION_LIMIT_MARGIN) && f64_lt v pos)
                  then clamp v lower upper else Ret v
              end
          | None => Ret v
          end
      | None => Ret v
      end
  | None => Ret v
  end.

(** Step 5: the cross-channel delta constraint. *)
Definition limit_delta (frame clamped_so_far : list f64) (desc : FrameCommandProfile) (v : f64) : f64 :=
  match max_delta_from desc with
  | Some (other_idx, max_delta) =>
      let other_val :=
        match clamped_so_far !! other_idx with
        | Some x => x
        | None => default zero (frame !! other_idx)
        end in
      let delta := f64_sub v other_val in
      if f64_gt (f64_abs delta) max_delta then mul_add (signum delta) max_delta other_val else v
  | None => v
  end.

(** One turn of the frame loop, on channel [i] with command [raw_v]. *)
Definition clamp_channel (self : SafetyFilterTask) (frame : list f64)
    (state_limits : list (f64 * f64)) (clamped_so_far : list f64) (i : nat)
    (desc : FrameCommandProfile) (raw_v : f64) : exec f64 :=
  let v := if is_finite raw_v then raw_v else fp_default desc in
  let! v := clamp v (fst (limits desc)) (snd (limits desc)) in
  let prev := default (fp_default desc) (prev_velocities self !! i) in
  let! v := (match max_rate_of_change desc with
             | None => Ret v
             | Some max_rate => clamp v (f64_sub prev max_rate) (f64_add prev max_rate)
             end) in
  let! v := enforce_position self state_limits desc v in
  Ret (limit_delta frame clamped_so_far desc v).

(** The frame loop, from channel [length clamped_so_far] on. *)
Fixpoint clamp_channels (self : SafetyFilterTask) (frame : list f64)
    (profiles : list FrameCommandProfile) (state_limits : list (f64 * f64))
    (clamped_so_far : list f64) (rest : list f64) : exec (list f64) :=
  match rest with
  | [] => Ret clamped_so_far
  | raw_v :: rest =>
      let i := length clamped_so_far in
      let! v := (match profiles !! i with
                 | None => Ret zero
                 | Some desc => clamp_channel self frame state_limits clamped_so_far i desc raw_v
                 end) in
      clamp_channels self frame profiles state_limits (clamped_so_far ++ [v]) rest
  end.

Definition clamp_frame_with_profiles (self : SafetyFilterTask) (frame : CommandFrame)
    (profiles : list FrameCommandProfile) (state_limits : list (f64 * f64))
    : exec (SafetyFilterTask * CommandFrame) :=
  let! clamped := clamp_channels self (values frame) profiles state_limits [] (values frame) in
  Ret (set_prev_velocities self clamped, {| values := clamped |}).

Definition clamp_frame_with_control_manifest (self : SafetyFilterTask) (frame : CommandFrame)
    (cm : ControlInterfaceManifest) (joint_limits : list JointSafetyLimits)
    : exec (SafetyFilterTask * CommandFrame) :=
  clamp_frame_with_profiles self frame
    (frame_command_profiles_from_control_manifest cm joint_limits)
    (map (fun l => (position_min l, position_max l)) joint_limits).

(** ** HotPathSafetyFilter *)

Record FilterResult : Type := {
  commands : list f64;
  interventions : list SafetyIntervention;
  estop : bool;
}.

Record HotPathSafetyFilter : Type := {
  hp_joint_limits : list JointSafetyLimits;
  hp_force_limits : option ForceSafetyLimits;
  workspace_bounds : option WorkspaceEnvelope;
  previous_commands : list f64;
  tick_period_s : f64;
}.

Definition new_hot_path (joint_limits : list JointSafetyLimits)
    (force_limits : option ForceSafetyLimits) (tick_period_s : f64)
    : result HotPathSafetyFilter message :=
  let? p := validate_tick_period tick_period_s in
  Ok {|
    hp_joint_limits := joint_limits;
    hp_force_limits := force_limits;
    workspace_bounds := None;
    previous_commands := [];
    tick_period_s := p;
  |}.

Definition set_workspace_bounds (self : HotPathSafetyFilter) (bounds : WorkspaceEnvelope)
    : HotPathSafetyFilter := {|
  hp_joint_limits := hp_joint_limits self;
  hp_force_limits := hp_force_limits self;
  workspace_bounds := Some bounds;
  previous_commands := previous_commands self;
  tick_period_s := tick_period_s self;
|}.

Definition set_previous_commands (self : HotPathSafetyFilter) (cs : list f64)
    : HotPathSafetyFilter := {|
  hp_joint_limits := hp_joint_limits self;
  hp_force_limits := hp_force_limits self;
  workspace_bounds := workspace_bounds self;
  previous_commands := cs;
  tick_period_s := tick_period_s self;
|}.

Definition intervention (ch : string) (raw clamped : f64) (k : InterventionKind)
    (r : message) : SafetyIntervention := {|
  channel := ch; raw_value := raw; clamped_value := clamped; kind := k; reason := r |}.

(** Steps 2 to 4 of the loop; each takes the current entry of [result_commands] and
    gives the new entry and the interventions it pushes. *)
Definition velocity_step (l : JointSafetyLimits) (cmd : f64) : exec (f64 * list SafetyIntervention) :=
  let! clamped_vel := clamp_velocity l cmd in
  Ret (if f64_gt (f64_abs (f64_sub clamped_vel cmd)) EPSILON then
         (clamped_vel,
          [intervention (joint_name l) cmd clamped_vel VelocityClamp
             [Str "velocity "; Flt None cmd; Str " exceeds limit "; Flt None (max_velocity l)]])
       else (cmd, [])).

Definition acceleration_step (self : HotPathSafetyFilter) (l : JointSafetyLimits) (i : nat) (cur : f64)
    : exec (f64 * list SafetyIntervention) :=
  match previous_commands self !! i with
  | None => Ret (cur, [])
  | Some prev =>
      let accel := f64_div (f64_sub cur prev) (tick_period_s self) in
      let! clamped_accel := clamp_acceleration l accel in
      Ret (if f64_gt (f64_abs (f64_sub clamped_accel accel)) EPSILON then
             let new_cmd := mul_add clamped_accel (tick_period_s self) prev in
             (new_cmd,
              [intervention (joint_name l) cur new_cmd AccelerationLimit
                 [Str "acceleration "; Flt (Some 2) accel; Str " exceeds limit ";
                  Flt None (max_acceleration l)]])
           else (cur, []))
  end.

Definition position_step (l : JointSafetyLimits) (positions : option (list f64)) (i : nat) (cur : f64)
    : f64 * list SafetyIntervention :=
  match positions ≫= (fun ps => ps !! i) with
  | None => (cur, [])
  | Some pos =>
      if (f64_le pos (f64_add (position_min l) POSITION_LIMIT_MARGIN) && f64_lt cur zero)
         || (f64_ge pos (f64_sub (position_max l) POSITION_LIMIT_MARGIN) && f64_gt cur zero)
      then
        (zero,
         [intervention (joint_name l) cur zero PositionLimit
            [Str "position "; Flt None pos; Str " at limit ["; Flt None (position_min l);
             Str ", "; Flt None (position_max l); Str "]"]])
      else (cur, [])
  end.

(** One turn of the loop of [filter]: the final entry of [result_commands] and the
    interventions pushed for actuator [i]. *)
Definition filter_joint (self : HotPathSafetyFilter) (positions : option (list f64))
    (i : nat) (cmd : f64) : exec (f64 * list SafetyIntervention) :=
  match hp_joint_limits self !! i with
  | Some l =>
      if is_nan cmd || is_infinite cmd then
        Ret (zero, [intervention (joint_name l) (if is_nan cmd then zero else cmd) zero NanReject
                      [Str "NaN/Inf output replaced with zero"]])
      else
        let! (c1, i1) := velocity_step l cmd in
        let! (c2, i2) := acceleration_step self l i c1 in
        let '(c3, i3) := position_step l positions i c2 in
        Ret (c3, i1 ++ i2 ++ i3)
  | None =>
      Ret (zero, [intervention ("channel_" +:+ pretty (Z.of_nat i)) cmd zero UnconfiguredJoint
                    [Str ("no safety limits configured for actuator index "
                            +:+ pretty (Z.of_nat i))]])
  end.

Record wrench6 : Type := { fx : f64; fy : f64; fz : f64; tx : f64; ty : f64; tz : f64 }.

Definition magnitude (x y z : f64) : f64 := f64_sqrt (mul_add z z (mul_add x x (f64_mul y y))).

(** Step 5: the interventions of the force and torque check; any of them sets [estop]. *)
Definition force_check (force_limits : option ForceSafetyLimits) (wrench : option wrench6)
    : list SafetyIntervention :=
  match force_limits, wrench with
  | Some fl, Some w =>
      let force_mag := magnitude (fx w) (fy w) (fz w) in
      let torque_mag := magnitude (tx w) (ty w) (tz w) in
      (if f64_gt force_mag (max_contact_force_n fl) then
         [intervention "force_torque" force_mag zero ForceLimit
            [Str "contact force "; Flt (Some 1) force_mag; Str "N exceeds limit ";
             Flt None (max_contact_force_n fl); Str "N"]]
       else [])
      ++
      (if f64_gt torque_mag (max_contact_torque_nm fl) then
         [intervention "force_torque" torque_mag zero TorqueLimit
            [Str "contact torque "; Flt (Some 1) torque_mag; Str "Nm exceeds limit ";
             Flt None (max_contact_torque_nm fl); Str "Nm"]]
       else [])
  | _, _ => []
  end.

Definition filter (self : HotPathSafetyFilter) (cmds : list f64) (positions : option (list f64))
    (wrench : option wrench6) : exec (HotPathSafetyFilter * FilterResult) :=
  let! per_joint := exec_mapi (filter_joint self positions) 0 cmds in
  let forces := force_check (hp_force_limits self) wrench in
  let stop := negb (bool_decide (length forces = 0%nat)) in
  let result_commands :=
    if stop then replicate (length cmds) zero else map fst per_joint in
  Ret (set_previous_commands self result_commands,
       {| commands := result_commands;
          interventions := concat (map snd per_joint) ++ forces;
          estop := stop |}).

Definition reset_hot_path (self : HotPathSafetyFilter) : HotPathSafetyFilter :=
  set_previous_commands self [].

(** ** Runs of the task filter

    The public operations of [SafetyFilterTask] and a run of them; the outputs are the
    clamped commands and frames.  Both clamps read and write [prev_velocities]. *)
Inductive filter_op : Type :=
| SetTickPeriod (period_secs : f64)
| UpdatePositions (positions : list f64)
| ClampCommand (cmd : MotorCommand)
| ClampFrame (frame : CommandFrame) (cm : ControlInterfaceManifest)
    (joint_limits : list JointSafetyLimits).

Inductive filter_output : Type :=
| Commanded (out : MotorCommand)
| Framed (out : CommandFrame).

Definition output_values (o : filter_output) : list f64 :=
  match o with Commanded out => joint_velocities out | Framed out => values out end.

Definition run_op (self : SafetyFilterTask) (op : filter_op)
    : exec (SafetyFilterTask * list filter_output) :=
  match op with
  | SetTickPeriod p =>
      Ret (match set_tick_period self p with Ok s => s | Err _ => self end, [])
  | UpdatePositions ps => Ret (update_positions self ps, [])
  | ClampCommand cmd => let! (s, out) := clamp_command self cmd in Ret (s, [Commanded out])
  | ClampFrame frame cm jls =>
      let! (s, out) := clamp_frame_with_control_manifest self frame cm jls in Ret (s, [Framed out])
  end.

Fixpoint run_ops (self : SafetyFilterTask) (ops : list filter_op)
    : exec (SafetyFilterTask * list filter_output) :=
  match ops with
  | [] => Ret (self, [])
  | op :: ops =>
      let! (s, outs) := run_op self op in
      let! (s', outs') := run_ops s ops in
      Ret (s', outs ++ outs')
  end.

(** ** Invariants *)

(** A range of binary64 data that is not empty and inside [-m, m]. *)
Record range_within (m : f64) (r : f64 * f64) : Prop := {
  rw_valid : valid (fst r) = true /\ valid (snd r) = true;
  rw_lower : f64_le (f64_neg m) (fst r) = true;
  rw_order : f64_le (fst r) (snd r) = true;
  rw_upper : f64_le (snd r) m = true;
}.

(** Every float of the operation is a binary64 datum; the channels of a frame clamp have
    non-empty ranges within the maximum velocity [m]. *)
Definition valid_op (m : f64) (op : filter_op) : Prop :=
  match op with
  | SetTickPeriod p => valid p = true
  | UpdatePositions _ => True
  | ClampCommand cmd => Forall (fun v => valid v = true) (joint_velocities cmd)
  | ClampFrame frame cm jls =>
      Forall (fun v => valid v = true) (values frame) /\
      forall i ch, actuator_channels cm !! i = Some ch ->
        range_within m (channel_limits (interface_type ch) (jls !! i))
  end.

(** A finite number in [-m, m]. *)
Definition within (m v : f64) : Prop :=
  is_finite v = true /\ f64_le (f64_neg m) v = true /\ f64_le v m = true.

Record wf_task (self : SafetyFilterTask) : Prop := {
  wf_max_valid : valid (sf_max_velocity self) = true;
  wf_max_finite : is_finite (sf_max_velocity self) = true;
  wf_max_pos : f64_lt zero (sf_max_velocity self) = true;
  wf_acc_valid : valid (sf_max_acceleration self) = true;
  wf_tick_valid : valid (sf_tick_period self) = true;
  wf_prev : Forall (fun v => valid v = true /\ within (sf_max_velocity self) v)
                   (prev_velocities self);
}.

(** A position rule: the command does not push a joint past its bounds. *)
Definition respects_bounds (self : SafetyFilterTask) (i : nat) (v : f64) : Prop :=
  forall lims lower upper,
    sf_position_limits self = Some lims -> lims !! i = Some (lower, upper) ->
    pushes_past (default zero (current_positions self !! i)) v lower upper = false.

(** ** Lemmas on the clamp of one joint *)

Lemma clamp_cases x lo hi r : clamp x lo hi = Ret r -> r = x \/ r = lo \/ r = hi.
Proof. unfold clamp. intros. split_match; auto. Qed.

Lemma clamp_id x lo hi :
  f64_le lo x = true -> f64_le x hi = true -> clamp x lo hi = Ret x.
Proof.
  intros Hl Hh. unfold clamp. rewrite (f64_le_trans _ _ _ Hl Hh).
  assert (f64_lt x lo = false) as -> by f64_order.
  assert (f64_gt x hi = false) as -> by f64_order. done.
Qed.

Lemma finite_between lo hi x :
  is_finite lo = true -> is_finite hi = true ->
  f64_le lo x = true -> f64_le x hi = true -> is_finite x = true.
Proof. intros. destruct x as [|[]| |]; destruct lo as [|[]| |[]], hi as [|[]| |[]]; done. Qed.

Lemma is_finite_neg a : is_finite (f64_neg a) = is_finite a.
Proof. by destruct a. Qed.
Lemma valid_neg a : valid (f64_neg a) = valid a.
Proof. by destruct a. Qed.

Lemma pushes_past_zero pos lower upper : pushes_past pos zero lower upper = false.
Proof. unfold pushes_past. by rewrite !andb_false_r. Qed.

Lemma within_zero m : f64_lt zero m = true -> within m zero.
Proof. destruct m as [|[]| |[]]; try done. Qed.

Lemma within_range m v :
  is_finite m = true -> f64_le (f64_neg m) v = true -> f64_le v m = true -> within m v.
Proof.
  intros. split; [|done]. eapply finite_between; [..|done|done]; by rewrite ?is_finite_neg.
Qed.

Lemma prev_within self i :
  wf_task self ->
  let prev := default zero (prev_velocities self !! i) in
  valid prev = true /\ within (sf_max_velocity self) prev.
Proof.
  intros []; simpl. destruct (prev_velocities self !! i) as [p|] eqn:Hp; simpl.
  - by eapply Forall_lookup in wf_prev0.
  - split; [done|]. by apply within_zero.
Qed.

Lemma clamp_joint_safe self d i v :
  wf_task self -> valid d = true -> valid v = true ->
  exists r, clamp_joint self d i v = Ret r /\ valid r = true /\ within (sf_max_velocity self) r.
Proof.
  intros Hwf Hd Hv. destruct (prev_within self i Hwf) as (Hpv & Hpf & Hp1 & Hp2).
  pose proof (wf_max_pos _ Hwf) as Hpos. pose proof (wf_max_valid _ Hwf) as Hmv.
  pose proof (wf_max_finite _ Hwf) as Hmf. unfold clamp_joint.
  set (prev := default zero _) in *. set (x := if is_finite v then v else zero).
  assert (is_finite x = true /\ valid x = true) as [Hxf Hxv]
    by (unfold x; destruct (is_finite v) eqn:?; done).
  destruct (clamp_total x (f64_neg (sf_max_velocity self)) (sf_max_velocity self)) as [y Hy].
  { apply symmetric_range, f64_lt_le, Hpos. }
  pose proof (clamp_ret _ _ _ _ Hy (is_finite_not_nan _ Hxf)) as [Hy1 Hy2].
  assert (valid y = true) by (destruct (clamp_cases _ _ _ _ Hy) as [->|[->| ->]]; by rewrite ?valid_neg).
  rewrite Hy. simpl.
  assert (exists z, (if f64_gt d zero then clamp y (f64_sub prev d) (f64_add prev d) else Ret y)
             = Ret z /\ valid z = true /\ within (sf_max_velocity self) z) as (z & -> & Hzv & Hz).
  { destruct (f64_gt d zero) eqn:Hd0.
    2: { exists y. split_and!; [done..|]. by apply within_range. }
    apply f64_lt_le in Hd0. pose proof (f64_sub_le prev d Hpv Hpf Hd0) as Hlo.
    pose proof (f64_add_ge prev d Hpv Hpf Hd0) as Hhi.
    destruct (clamp_total y (f64_sub prev d) (f64_add prev d)) as [z Hz].
    { by apply (f64_le_trans _ prev). }
    exists z. split_and!; [done| |].
    - destruct (clamp_cases _ _ _ _ Hz) as [->|[->| ->]]; [done|by apply f64_sub_valid|by apply f64_add_valid].
    - apply within_range; [done| |].
      + eapply clamp_ge_bound; [done|done|]. by apply (f64_le_trans _ prev).
      + eapply clamp_le_bound; [done|done|]. by apply (f64_le_trans _ prev). }
  simpl. destruct (sf_position_limits self) as [lims|]; [|eauto].
  destruct (lims !! i) as [[lo hi]|]; [|eauto]. case_match; [|eauto].
  exists zero. split_and!; [done..|]. by apply within_zero.
Qed.

(** What a joint's output satisfies whatever the state: the acceleration bound, the
    position rule, and transparency. *)
Lemma clamp_joint_rules self d i v r :
  clamp_joint self d i v = Ret r ->
  let prev := default zero (prev_velocities self !! i) in
  (f64_gt d zero = true ->
     r = zero \/ f64_le (f64_sub prev d) r = true /\ f64_le r (f64_add prev d) = true) /\
  respects_bounds self i r /\
  (within (sf_max_velocity self) v ->
   (f64_gt d zero = true -> f64_le (f64_sub prev d) v = true /\ f64_le v (f64_add prev d) = true) ->
   respects_bounds self i v -> r = v).
Proof.
  unfold clamp_joint, respects_bounds. intros H. cbv zeta in *. unbind.
  set (prev := default zero _) in *. set (inp := if is_finite v then v else zero) in *.
  assert (is_nan inp = false) by (unfold inp; destruct (is_finite v) eqn:?; [by apply is_finite_not_nan|done]).
  match goal with H : clamp inp _ _ = Ret ?y |- _ => rename H into Hy; rename y into y0 end.
  match goal with H : (if f64_gt d zero then _ else _) = Ret ?z |- _ => rename H into Hz; rename z into z0 end.
  assert (is_nan y0 = false) by (destruct (clamp_ret _ _ _ _ Hy) as [[]%f64_le_not_nan ?]; done).
  assert (f64_gt d zero = true -> f64_le (f64_sub prev d) z0 = true /\ f64_le z0 (f64_add prev d) = true) as Hacc.
  { intros Hd. rewrite Hd in Hz. by apply (clamp_ret _ _ _ _ Hz). }
  assert (r = z0 /\ respects_bounds self i z0 \/
          r = zero /\ exists lims lo hi, sf_position_limits self = Some lims /\ lims !! i = Some (lo, hi)
             /\ pushes_past (default zero (current_positions self !! i)) z0 lo hi = true) as Hr.
  { unfold respects_bounds. destruct (sf_position_limits self) as [lims|] eqn:?; [|left; naive_solver].
    destruct (lims !! i) as [[lo hi]|] eqn:?; [|left; naive_solver].
    destruct (pushes_past _ z0 lo hi) eqn:?; simplify_eq; [right; naive_solver|left; naive_solver]. }
  split_and!.
  - intros Hd. destruct Hr as [[-> _]|[-> _]]; auto.
  - destruct Hr as [[-> Hb]|[-> _]]; [exact Hb|]. intros. apply pushes_past_zero.
  - intros (Hvf & Hv1 & Hv2) Ha Hb.
    assert (inp = v) as Hx by (unfold inp; by rewrite Hvf). rewrite Hx in *.
    rewrite clamp_id in Hy by done. simplify_eq.
    assert (z0 = y0) as -> by (destruct (f64_gt d zero) eqn:?;
      [destruct (Ha eq_refl); rewrite clamp_id in Hz by done|]; by simplify_eq).
    destruct Hr as [[-> _]|[-> (lims & lo & hi & Hl1 & Hl2 & Hl3)]]; [done|].
    specialize (Hb _ _ _ Hl1 Hl2). by rewrite Hb in Hl3.
Qed.

Lemma clamp_command_safe self cmd :
  wf_task self -> Forall (fun v => valid v = true) (joint_velocities cmd) ->
  exists self' out, clamp_command self cmd = Ret (self', out) /\ wf_task self' /\
    sf_max_velocity self' = sf_max_velocity self /\
    length (joint_velocities out) = length (joint_velocities cmd) /\
    Forall (within (sf_max_velocity self)) (joint_velocities out).
Proof.
  intros Hwf Hv. unfold clamp_command. cbv zeta. set (d := f64_mul _ _).
  assert (valid d = true) as Hd by (destruct Hwf; by apply f64_mul_valid).
  destruct (exec_mapi_total (clamp_joint self d) (joint_velocities cmd) 0) as [ys Hys].
  { intros j x Hx. eapply Forall_lookup in Hv; [|done].
    destruct (clamp_joint_safe self d (0 + j) x Hwf Hd Hv) as (r & ? & _). eauto. }
  destruct (exec_mapi_lookup _ _ _ _ Hys) as [Hlen Hf].
  assert (Forall (fun y => valid y = true /\ within (sf_max_velocity self) y) ys) as Hall.
  { apply Forall_lookup. intros j y Hy.
    destruct (lookup_lt_is_Some_2 (joint_velocities cmd) j) as [x Hx].
    { rewrite <- Hlen. by eapply lookup_lt_Some. }
    eapply Forall_lookup in Hv; [|done].
    destruct (clamp_joint_safe self d (0 + j) x Hwf Hd Hv) as (r & Hr & ?).
    specialize (Hf j x y Hx Hy). by assert (y = r) as -> by congruence. }
  rewrite Hys. simpl. eexists _, _. split_and!; [done| |done|done|].
  - destruct Hwf. by constructor.
  - eapply Forall_impl; [exact Hall|]. naive_solver.
Qed.

Lemma new_filter_wf mv ma lims self :
  valid mv = true -> valid ma = true ->
  new_filter mv ma lims = Ret (Ok self) -> wf_task self /\ sf_max_velocity self = mv.
Proof.
  unfold new_filter. intros ? ? H. destruct (is_finite mv && _) eqn:?; [|done].
  destruct (is_finite ma && _) eqn:?; [|done]. simplify_eq. bool_prop. by split.
Qed.

(** ** Lemmas on the frame clamp *)

Definition range_ok (r : f64 * f64) : bool := f64_le (fst r) (snd r).
Definition in_range (r : f64 * f64) (v : f64) : Prop :=
  f64_le (fst r) v = true /\ f64_le v (snd r) = true.

Definition moves (t : CommandInterfaceType) : bool :=
  match frame_interface_type_from_control t with FPosition => false | _ => true end.

Lemma f64_abs_nonneg m : is_nan m = false -> f64_le zero (f64_abs m) = true.
Proof. by destruct m as [|[]| |[]]. Qed.

(** The range of a velocity or effort channel is symmetric around zero. *)
Lemma channel_limits_zero t jl :
  moves t = true -> range_ok (channel_limits t jl) = true -> in_range (channel_limits t jl) zero.
Proof.
  assert (forall m, f64_le (f64_neg (f64_abs m)) (f64_abs m) = true ->
            in_range (f64_neg (f64_abs m), f64_abs m) zero) as Hsym
    by (intros m; destruct m as [|[]| |[]]; try done; intros Hm; split; try reflexivity; exact Hm).
  destruct t; try done; unfold channel_limits, range_ok, in_range; intros _;
    destruct jl as [l|]; simpl; try (intros; split; vm_compute; reflexivity).
  all: try (destruct (max_torque l) as [m|]; simpl; try (intros; split; vm_compute; reflexivity)).
  all: apply Hsym.
Qed.

Lemma in_range_not_nan r v : in_range r v -> is_nan v = false.
Proof. intros [H _]. by destruct (f64_le_not_nan _ _ H). Qed.

(** What the frame clamp promises of the output [v] of actuator channel [i]. *)
Definition channel_ok (self : SafetyFilterTask) (jls : list JointSafetyLimits) (i : nat)
    (ch : ControlChannelDef) (v : f64) : Prop :=
  in_range (channel_limits (interface_type ch) (jls !! i)) v /\
  (moves (interface_type ch) = true -> forall l pos,
     jls !! i = Some l -> current_positions self !! i = Some pos ->
     pushes_past pos v (position_min l) (position_max l) = false).

Notation state_limits jls := (map (fun l => (position_min l, position_max l)) jls).

Lemma enforce_position_ok self jls i ch v :
  is_actuator_command_interface (interface_type ch) = true ->
  range_ok (channel_limits (interface_type ch) (jls !! i)) = true ->
  in_range (channel_limits (interface_type ch) (jls !! i)) v ->
  exists r, enforce_position self (state_limits jls) (profile_of_channel jls i ch) v = Ret r /\
    channel_ok self jls i ch r /\ (r = zero \/ r = v).
Proof.
  intros Hact Hr Hv. unfold enforce_position, channel_ok, profile_of_channel; simpl.
  pose proof (in_range_not_nan _ _ Hv) as Hn.
  assert (match interface_type ch with
          | JointVelocity | JointPosition | JointTorque | GripperPosition | GripperForce => Some i
          | _ => None end = Some i) as -> by (destruct (interface_type ch); done).
  destruct (current_positions self !! i) as [pos|] eqn:Hpos; [|naive_solver].
  rewrite map_lookup. destruct (jls !! i) as [l|] eqn:Hl; [|naive_solver]. simpl.
  destruct (moves (interface_type ch)) eqn:Hm; unfold moves in Hm.
  - assert (exists r, (if pushes_past pos v (position_min l) (position_max l) then Ret zero else Ret v)
               = Ret r /\ (r = zero \/ r = v) /\
               pushes_past pos r (position_min l) (position_max l) = false) as (r & Heq & Hcase & Hp).
    { destruct (pushes_past pos v _ _) eqn:?; eexists; split_and!; eauto using pushes_past_zero. }
    exists r. split; [by destruct (frame_interface_type_from_control _)|].
    split; [|done]. split; [|naive_solver]. destruct Hcase as [-> | ->]; [|done].
    by apply channel_limits_zero.
  - destruct (frame_interface_type_from_control (interface_type ch)) eqn:Ht; try done.
    case_match; [|naive_solver].
    assert (channel_limits (interface_type ch) (Some l) = (position_min l, position_max l)) as Hc
      by (destruct (interface_type ch); done).
    rewrite Hc in *. exists v. split; [|naive_solver]. by apply clamp_id; destruct Hv.
Qed.

Lemma clamp_channel_ok self frame jls acc i ch raw :
  is_actuator_command_interface (interface_type ch) = true ->
  range_ok (channel_limits (interface_type ch) (jls !! i)) = true ->
  exists r, clamp_channel self frame (state_limits jls) acc i (profile_of_channel jls i ch) raw
              = Ret r /\ channel_ok self jls i ch r /\
    (valid raw = true -> valid (fst (channel_limits (interface_type ch) (jls !! i))) = true ->
     valid (snd (channel_limits (interface_type ch) (jls !! i))) = true -> valid r = true).
Proof.
  intros Hact Hr. unfold clamp_channel. simpl.
  set (x := if is_finite raw then raw else zero).
  assert (is_nan x = false) as Hx
    by (unfold x; destruct (is_finite raw) eqn:?; [by apply is_finite_not_nan|done]).
  destruct (clamp_total x _ _ Hr) as [y Hy].
  pose proof (clamp_ret _ _ _ _ Hy Hx) as Hin. rewrite Hy. simpl.
  destruct (enforce_position_ok self jls i ch y Hact Hr Hin) as (r & -> & Hok & Hcase).
  simpl. exists r. split_and!; [done|done|]. intros Hv Hlo Hhi.
  destruct Hcase as [->| ->]; [done|].
  destruct (clamp_cases _ _ _ _ Hy) as [->|[->| ->]]; [|done..].
  unfold x. by destruct (is_finite raw).
Qed.

Lemma clamp_channel_panics self frame jls acc i ch raw :
  range_ok (channel_limits (interface_type ch) (jls !! i)) = false ->
  clamp_channel self frame (state_limits jls) acc i (profile_of_channel jls i ch) raw = Panic.
Proof. intros Hr. unfold clamp_channel, clamp. simpl. unfold range_ok in Hr. by rewrite Hr. Qed.

(** What the frame clamp promises of entry [i] of its output. *)
Definition entry_ok (self : SafetyFilterTask) (cm : ControlInterfaceManifest)
    (jls : list JointSafetyLimits) (i : nat) (v : f64) : Prop :=
  match actuator_channels cm !! i with
  | None => v = zero
  | Some ch => channel_ok self jls i ch v
  end.

Lemma profile_lookup cm jls i :
  frame_command_profiles_from_control_manifest cm jls !! i
  = profile_of_channel jls i <$> actuator_channels cm !! i.
Proof. apply list_lookup_imap. Qed.

Lemma actuator_channels_actuate cm i ch :
  actuator_channels cm !! i = Some ch -> is_actuator_command_interface (interface_type ch) = true.
Proof.
  intros H. apply list_elem_of_lookup_2, list_elem_of_In in H.
  by apply filter_In in H as [_ H].
Qed.

Lemma clamp_channels_ok self cm jls frame rest : forall acc,
  (forall i ch, actuator_channels cm !! i = Some ch ->
     (length acc <= i < length acc + length rest)%nat ->
     range_ok (channel_limits (interface_type ch) (jls !! i)) = true) ->
  exists ys,
    clamp_channels self frame (frame_command_profiles_from_control_manifest cm jls)
      (state_limits jls) acc rest = Ret (acc ++ ys) /\
    length ys = length rest /\
    forall j y, ys !! j = Some y -> entry_ok self cm jls (length acc + j) y.
Proof.
  induction rest as [|raw rest IH]; intros acc H; simpl.
  { exists []. rewrite app_nil_r. split_and!; [done..|]. naive_solver. }
  rewrite profile_lookup.
  assert (exists v, match profile_of_channel jls (length acc) <$> actuator_channels cm !! length acc with
             | None => Ret zero
             | Some desc => clamp_channel self frame (state_limits jls) acc (length acc) desc raw
             end = Ret v /\ entry_ok self cm jls (length acc) v) as (v & -> & Hv).
  { unfold entry_ok. destruct (actuator_channels cm !! length acc) as [ch|] eqn:Hch; simpl; [|eauto].
    destruct (clamp_channel_ok self frame jls acc (length acc) ch raw) as (r & ? & ? & _); [| |eauto].
    - by eapply actuator_channels_actuate.
    - apply H; [done|]. simpl. lia. }
  simpl. destruct (IH (acc ++ [v])) as (ys & -> & Hlen & Hys).
  { intros i ch Hch Hi. apply H; [done|]. rewrite length_app in Hi. simpl in *. lia. }
  exists (v :: ys). rewrite <- app_assoc. split_and!; [done|by rewrite <- Hlen|].
  intros [|j] y Hy; simplify_eq/=; [by rewrite Nat.add_0_r|].
  specialize (Hys j y Hy). rewrite length_app in Hys. simpl in Hys.
  by replace (length acc + S j)%nat with (length acc + 1 + j)%nat by lia.
Qed.

Lemma clamp_channels_ranges self cm jls frame rest : forall acc out,
  clamp_channels self frame (frame_command_profiles_from_control_manifest cm jls)
    (state_limits jls) acc rest = Ret out ->
  forall i ch, actuator_channels cm !! i = Some ch ->
    (length acc <= i < length acc + length rest)%nat ->
    range_ok (channel_limits (interface_type ch) (jls !! i)) = true.
Proof.
  induction rest as [|raw rest IH]; intros acc out H i ch Hch Hi; simpl in *; [lia|].
  apply exec_bind_ret in H as (v & Hv & H).
  destruct (decide (i = length acc)) as [->|Hne].
  - rewrite profile_lookup, Hch in Hv. simpl in Hv.
    destruct (range_ok _) eqn:Hr; [done|]. by rewrite clamp_channel_panics in Hv.
  - eapply IH; [exact H|done|]. rewrite length_app. simpl. lia.
Qed.

(** ** Lemmas on the hot-path filter *)

(** The frame clamp on ranges within [m]. *)
Lemma clamp_channels_within self cm jls m frame rest : forall acc,
  f64_lt zero m = true -> is_finite m = true ->
  (forall i ch, actuator_channels cm !! i = Some ch ->
     range_within m (channel_limits (interface_type ch) (jls !! i))) ->
  Forall (fun v => valid v = true) rest ->
  Forall (fun v => valid v = true /\ within m v) acc ->
  exists ys, clamp_channels self frame (frame_command_profiles_from_control_manifest cm jls)
      (state_limits jls) acc rest = Ret ys /\
    Forall (fun v => valid v = true /\ within m v) ys.
Proof.
  induction rest as [|raw rest IH]; intros acc Hm Hf Hr Hv Hacc; simpl; [eauto|].
  apply Forall_cons in Hv as [Hraw Hv]. rewrite profile_lookup.
  assert (exists v, match profile_of_channel jls (length acc) <$> actuator_channels cm !! length acc with
             | None => Ret zero
             | Some desc => clamp_channel self frame (state_limits jls) acc (length acc) desc raw
             end = Ret v /\ valid v = true /\ within m v) as (v & -> & Hv').
  { destruct (actuator_channels cm !! length acc) as [ch|] eqn:Hch; simpl.
    2: { exists zero. split_and!; [done..|by apply within_zero]. }
    destruct (Hr _ _ Hch) as [[Hv1 Hv2] Hlo Hord Hhi].
    destruct (clamp_channel_ok self frame jls acc (length acc) ch raw) as (r & Hc & Hok & Hval);
      [by eapply actuator_channels_actuate|done|].
    exists r. split_and!; [done|by apply Hval|]. destruct Hok as [[? ?] _].
    apply within_range; [done|by eapply f64_le_trans|by eapply f64_le_trans]. }
  simpl. apply IH; [done..|]. apply Forall_app. split; [done|]. by apply Forall_singleton.
Qed.

Lemma run_op_safe self op :
  wf_task self -> valid_op (sf_max_velocity self) op ->
  exists self' outs, run_op self op = Ret (self', outs) /\ wf_task self' /\
    sf_max_velocity self' = sf_max_velocity self /\
    Forall (fun out => Forall (within (sf_max_velocity self)) (output_values out)) outs.
Proof.
  intros Hwf Hv. destruct op as [p|ps|cmd|frame cm jls]; simpl in *.
  - unfold set_tick_period, validate_tick_period.
    destruct (is_finite p && f64_gt p zero); simpl; eexists _, _; split_and!; try done.
    destruct Hwf. by constructor.
  - eexists _, _. split_and!; [done| |done|done]. destruct Hwf. by constructor.
  - destruct (clamp_command_safe self cmd Hwf Hv) as (s & out & -> & ? & ? & _ & ?).
    simpl. eexists _, _. split_and!; [done..|]. by repeat constructor.
  - destruct Hv as [Hv Hr]. destruct (clamp_channels_within self cm jls (sf_max_velocity self)
      (values frame) (values frame) []) as (ys & Hys & Hw); [apply Hwf|apply Hwf|done..|].
    unfold clamp_frame_with_control_manifest, clamp_frame_with_profiles.
    setoid_rewrite Hys. simpl. eexists _, _. split_and!; [done| |done|].
    + destruct Hwf. by constructor.
    + repeat constructor. simpl. eapply Forall_impl; [exact Hw|]. naive_solver.
Qed.

Lemma run_ops_safe ops : forall self,
  wf_task self -> Forall (valid_op (sf_max_velocity self)) ops ->
  exists self' outs, run_ops self ops = Ret (self', outs) /\ wf_task self' /\
    Forall (fun out => Forall (within (sf_max_velocity self)) (output_values out)) outs.
Proof.
  induction ops as [|op ops IH]; intros self Hwf Hv; simpl; [eauto|].
  apply Forall_cons in Hv as [Hop Hv].
  destruct (run_op_safe self op Hwf Hop) as (s & outs & -> & Hs & Hm & Ho). simpl.
  rewrite <- Hm in Hv. destruct (IH s Hs Hv) as (s' & outs' & -> & Hs' & Ho'). simpl.
  rewrite Hm in Ho'. eexists _, _. split_and!; [done..|]. by apply Forall_app.
Qed.

(** *** What the hot-path filter promises

    [out] is [keep] while [x] is in [-m, m]; beyond, it is [high] or [low], unless [x] is
    within [f64::EPSILON] of the bound. *)
Definition bounded (m x keep high low out : f64) : Prop :=
  (f64_gt x m = true ->
     out = if f64_gt (f64_abs (f64_sub m x)) EPSILON then high else keep) /\
  (f64_lt x (f64_neg m) = true ->
     out = if f64_gt (f64_abs (f64_sub (f64_neg m) x)) EPSILON then low else keep) /\
  (f64_gt x m = false -> f64_lt x (f64_neg m) = false -> out = keep).

(** The output [c] for the command [cmd] of actuator [i] at position [pos]: zero without
    limits or for a command that is not finite; else the command brought into the velocity
    limit, then into what the acceleration limit allows from the previous output in one
    tick period, then stopped when it moves on at a position limit (less the margin). *)
Definition joint_output (self : HotPathSafetyFilter) (pos : option f64) (i : nat) (cmd c : f64) : Prop :=
  match hp_joint_limits self !! i with
  | None => c = zero
  | Some l =>
      (is_finite cmd = false -> c = zero) /\
      (is_finite cmd = true -> exists v a,
         bounded (max_velocity l) cmd cmd (max_velocity l) (f64_neg (max_velocity l)) v /\
         match previous_commands self !! i with
         | None => a = v
         | Some prev =>
             bounded (max_acceleration l) (f64_div (f64_sub v prev) (tick_period_s self)) v
               (mul_add (max_acceleration l) (tick_period_s self) prev)
               (mul_add (f64_neg (max_acceleration l)) (tick_period_s self) prev) a
         end /\
         match pos with
         | None => c = a
         | Some p =>
             let at_upper := f64_ge p (f64_sub (position_max l) (f64_dec 5 2)) in
             let at_lower := f64_le p (f64_add (position_min l) (f64_dec 5 2)) in
             (at_upper = true -> f64_gt a zero = true -> c = zero) /\
             (at_lower = true -> f64_lt a zero = true -> c = zero) /\
             (at_upper && f64_gt a zero = false -> at_lower && f64_lt a zero = false -> c = a)
         end)
  end.

(** The contact force, or the contact torque, is over its limit. *)
Definition over_contact_limit (fl : option ForceSafetyLimits) (w : option wrench6) : Prop :=
  exists l r, fl = Some l /\ w = Some r /\
    (f64_gt (f64_sqrt (mul_add (fz r) (fz r) (mul_add (fx r) (fx r) (f64_mul (fy r) (fy r)))))
       (max_contact_force_n l) = true \/
     f64_gt (f64_sqrt (mul_add (tz r) (tz r) (mul_add (tx r) (tx r) (f64_mul (ty r) (ty r)))))
       (max_contact_torque_nm l) = true).

(** The limits of a joint the hot-path clamps accept. *)
Definition limits_ok (l : JointSafetyLimits) : Prop :=
  f64_le zero (max_velocity l) = true /\ f64_le zero (max_acceleration l) = true.

(** The interventions recorded for one actuator lead from its command to its output,
    each starting from the value the one before left. *)
Fixpoint trail (cur : f64) (ivs : list SafetyIntervention) (out : f64) : Prop :=
  match ivs with
  | [] => out = cur
  | iv :: ivs => raw_value iv = cur /\ trail (clamped_value iv) ivs out
  end.

Lemma trail_app a i1 b i2 c : trail a i1 b -> trail b i2 c -> trail a (i1 ++ i2) c.
Proof.
  revert a. induction i1 as [|iv i1 IH]; intros a; simpl; [by intros ->|]. naive_solver.
Qed.

Lemma sub_itself_zero x : f64_gt (f64_abs (f64_sub x x)) EPSILON = false.
Proof.
  destruct x as [[]|[]| |sx m e]; try done. unfold f64_sub, SFsub. cbv zeta.
  destruct (SpecFloat.shl_align _ _ _) as [m' e']. simpl. by rewrite Z.sub_diag.
Qed.

(** The clamp to a symmetric range with its test of an alteration. *)
Lemma clamp_bounded m x keep high low :
  f64_le zero m = true ->
  exists y, clamp x (f64_neg m) m = Ret y /\
    forall out, out = (if f64_gt (f64_abs (f64_sub y x)) EPSILON then (if f64_gt x m then high else low) else keep) ->
    bounded m x keep high low out.
Proof.
  intros Hm. pose proof (symmetric_range _ Hm) as Hs. unfold clamp. rewrite Hs.
  destruct (f64_lt x (f64_neg m)) eqn:Hlo.
  - assert (f64_gt (f64_neg m) m = false) as Hg by f64_order.
    assert (f64_gt x m = false) as Hx by f64_order. rewrite Hg. eexists. split; [reflexivity|].
    intros out ->. rewrite Hx. unfold bounded. rewrite Hx, Hlo. by split_and!.
  - destruct (f64_gt x m) eqn:Hhi; eexists; (split; [reflexivity|]); intros out ->;
      unfold bounded; rewrite Hhi, Hlo; [by split_and!|].
    rewrite sub_itself_zero. by split_and!.
Qed.

Lemma clamp_side m x y : 
  f64_le zero m = true -> clamp x (f64_neg m) m = Ret y ->
  f64_gt (f64_abs (f64_sub y x)) EPSILON = true -> y = (if f64_gt x m then m else f64_neg m).
Proof.
  intros Hm. pose proof (symmetric_range _ Hm) as Hs. unfold clamp. rewrite Hs.
  destruct (f64_lt x (f64_neg m)) eqn:Hlo.
  - assert (f64_gt (f64_neg m) m = false) as -> by f64_order. intros [= <-] _.
    by assert (f64_gt x m = false) as -> by f64_order.
  - destruct (f64_gt x m); intros [= <-]; [done|]. by rewrite sub_itself_zero.
Qed.

Lemma velocity_step_spec l cmd :
  f64_le zero (max_velocity l) = true ->
  exists c ivs, velocity_step l cmd = Ret (c, ivs) /\ trail cmd ivs c /\
    bounded (max_velocity l) cmd cmd (max_velocity l) (f64_neg (max_velocity l)) c.
Proof.
  intros Hm. unfold velocity_step, clamp_velocity.
  destruct (clamp_bounded _ cmd cmd (max_velocity l) (f64_neg (max_velocity l)) Hm) as (y & Hy & Hb).
  pose proof (clamp_side _ _ _ Hm Hy) as Hside. rewrite Hy. simpl.
  destruct (f64_gt (f64_abs _) _); eexists _, _; (split; [reflexivity|]); simpl; (split; [done|]);
    apply Hb; [by apply Hside|done].
Qed.

Lemma acceleration_step_spec self l i cur :
  f64_le zero (max_acceleration l) = true ->
  exists c ivs, acceleration_step self l i cur = Ret (c, ivs) /\ trail cur ivs c /\
    match previous_commands self !! i with
    | None => c = cur
    | Some prev =>
        bounded (max_acceleration l) (f64_div (f64_sub cur prev) (tick_period_s self)) cur
          (mul_add (max_acceleration l) (tick_period_s self) prev)
          (mul_add (f64_neg (max_acceleration l)) (tick_period_s self) prev) c
    end.
Proof.
  intros Hm. unfold acceleration_step.
  destruct (previous_commands self !! i) as [prev|]; [|by eexists _, _].
  unfold clamp_acceleration. cbv zeta. set (r := f64_div _ _).
  destruct (clamp_bounded _ r cur (mul_add (max_acceleration l) (tick_period_s self) prev)
    (mul_add (f64_neg (max_acceleration l)) (tick_period_s self) prev) Hm) as (y & Hy & Hb).
  pose proof (clamp_side _ _ _ Hm Hy) as Hside. rewrite Hy. simpl.
  destruct (f64_gt (f64_abs _) _); eexists _, _; (split; [reflexivity|]); simpl; (split; [done|]);
    apply Hb; [|done]. rewrite Hside by done. by destruct (f64_gt r _).
Qed.

Lemma position_step_spec l positions i cur :
  let r := position_step l positions i cur in
  trail cur (snd r) (fst r) /\
  match positions ≫= (fun ps => ps !! i) with
  | None => fst r = cur
  | Some p =>
      let at_upper := f64_ge p (f64_sub (position_max l) (f64_dec 5 2)) in
      let at_lower := f64_le p (f64_add (position_min l) (f64_dec 5 2)) in
      (at_upper = true -> f64_gt cur zero = true -> fst r = zero) /\
      (at_lower = true -> f64_lt cur zero = true -> fst r = zero) /\
      (at_upper && f64_gt cur zero = false -> at_lower && f64_lt cur zero = false -> fst r = cur)
  end /\
  (forall pos, positions ≫= (fun ps => ps !! i) = Some pos ->
     pushes_past pos (fst r) (position_min l) (position_max l) = false).
Proof.
  unfold position_step.
  destruct (positions ≫= (fun ps => ps !! i)) as [pos|]; [|naive_solver].
  change (f64_dec 5 2) with POSITION_LIMIT_MARGIN. cbv zeta.
  destruct (_ || _) eqn:Hp; simpl; split_and!; try naive_solver.
  - intros H1 H2. by rewrite H1, H2 in Hp.
  - intros ? [= <-]. apply pushes_past_zero.
  - intros H1 H2. rewrite H1, H2 in Hp. by rewrite orb_true_r in Hp.
  - intros H1 H2. by rewrite H1, H2 in Hp.
  - intros ? [= <-]. unfold pushes_past. by rewrite orb_comm.
Qed.

(** The whole turn for one actuator. *)
Lemma filter_joint_spec self positions i cmd :
  Forall limits_ok (hp_joint_limits self) ->
  exists c ivs, filter_joint self positions i cmd = Ret (c, ivs) /\
    trail (if is_nan cmd && bool_decide (is_Some (hp_joint_limits self !! i)) then zero else cmd) ivs c /\
    joint_output self (positions ≫= (fun ps => ps !! i)) i cmd c /\
    (forall l pos, hp_joint_limits self !! i = Some l -> positions ≫= (fun ps => ps !! i) = Some pos ->
       pushes_past pos c (position_min l) (position_max l) = false) /\
    (ivs = [] -> is_nan cmd = false).
Proof.
  intros Hl. unfold filter_joint, joint_output.
  destruct (hp_joint_limits self !! i) as [l|] eqn:Hi.
  2: { rewrite bool_decide_eq_false_2, andb_false_r by by intros [].
       eexists _, _. by split_and!. }
  eapply Forall_lookup in Hl as [Hv Ha]; [|done].
  rewrite bool_decide_eq_true_2, andb_true_r by eauto.
  destruct (is_nan cmd || is_infinite cmd) eqn:Hbad.
  - eexists _, _. split; [reflexivity|]. simpl. split_and!; [done|done|done|by destruct cmd| |done].
    intros ? pos [= <-] _. apply pushes_past_zero.
  - assert (is_nan cmd = false) as Hn by (by destruct cmd).
    destruct (velocity_step_spec l cmd Hv) as (c1 & i1 & -> & Ht1 & Hc1). simpl.
    destruct (acceleration_step_spec self l i c1 Ha) as (c2 & i2 & -> & Ht2 & Hc2). simpl.
    pose proof (position_step_spec l positions i c2) as (Ht3 & Hc3 & Hp).
    destruct (position_step l positions i c2) as [c3 i3]. simpl in *.
    eexists _, _. split; [reflexivity|]. rewrite Hn. split_and!; try done.
    + simpl. eauto using trail_app.
    + by destruct cmd.
    + intros _. by exists c1, c2.
    + intros ? pos [= <-]. apply Hp.
Qed.

Lemma force_check_spec fl w : force_check fl w <> [] <-> over_contact_limit fl w.
Proof.
  unfold force_check, over_contact_limit, magnitude.
  destruct fl as [l|], w as [r|]; [|naive_solver..]. cbv zeta.
  destruct (f64_gt _ (max_contact_force_n l)) eqn:Hf, (f64_gt _ (max_contact_torque_nm l)) eqn:Ht;
    simpl; split; try done; try (intros _; exists l, r; rewrite ?Hf, ?Ht; by auto).
  intros (? & ? & [= <-] & [= <-] & Hor). rewrite Hf, Ht in Hor. by destruct Hor.
Qed.

(** The filter on a whole tick. *)
Lemma filter_spec self cmds positions wrench :
  Forall limits_ok (hp_joint_limits self) ->
  exists self' res per_joint, filter self cmds positions wrench = Ret (self', res) /\
    exec_mapi (filter_joint self positions) 0 cmds = Ret per_joint /\
    length per_joint = length cmds /\
    (forall i cmd o, cmds !! i = Some cmd -> per_joint !! i = Some o ->
       filter_joint self positions i cmd = Ret o) /\
    previous_commands self' = commands res /\
    interventions res = concat (map snd per_joint) ++ force_check (hp_force_limits self) wrench /\
    (estop res = true <-> over_contact_limit (hp_force_limits self) wrench) /\
    commands res = (if estop res then replicate (length cmds) zero else map fst per_joint).
Proof.
  intros Hl. unfold filter.
  destruct (exec_mapi_total (filter_joint self positions) cmds 0) as [pj Hpj].
  { intros j x _. destruct (filter_joint_spec self positions (0 + j) x Hl) as (c & ivs & ? & _).
    eauto. }
  destruct (exec_mapi_lookup _ _ _ _ Hpj) as [Hlen Hf]. rewrite Hpj. simpl.
  eexists _, _, pj. split_and!; [done..| | |]; try done.
  simpl. rewrite negb_true_iff, bool_decide_eq_false, <- force_check_spec.
  destruct (force_check _ _); simpl; naive_solver lia.
Qed.

Lemma concat_nil_lookup {A} (ls : list (list A)) i l : concat ls = [] -> ls !! i = Some l -> l = [].
Proof.
  revert i. induction ls as [|x ls IH]; intros i H Hi; [done|].
  simpl in H. apply app_eq_nil in H as [-> H]. destruct i; simplify_eq/=; eauto.
Qed.

(** ** Theorems *)

(** C6: the task filter is safe over its whole life.  A filter made by [new], driven by
    any sequence of its public operations (tick-period changes, position updates, clamped
    motor commands and clamped frames, whatever they contain: NaN, infinities, any position
    limits), where every frame is clamped to non-empty channel ranges within the maximum
    velocity, never panics, and every value it lets through is a finite number of absolute
    value at most the maximum velocity. *)
Theorem task_filter_safe (mv ma : f64) (lims : option (list (f64 * f64)))
    (self : SafetyFilterTask) (ops : list filter_op)
    (Hmv : valid mv = true) (Hma : valid ma = true) (Hops : Forall (valid_op mv) ops)
    (Hnew : new_filter mv ma lims = Ret (Ok self)) :
  exists self' outs, run_ops self ops = Ret (self', outs) /\
    Forall (fun out => Forall (within mv) (output_values out)) outs.
Proof.
  destruct (new_filter_wf mv ma lims self Hmv Hma Hnew) as [Hwf <-].
  destruct (run_ops_safe ops self Hwf Hops) as (s & outs & ? & _ & ?). eauto.
Qed.

Definition velocity_manifest : ControlInterfaceManifest := {|
  version := 1; manifest_digest := "m";
  channels := [{| ch_name := "j0"; interface_type := JointVelocity; units := "rad/s";
                  ch_frame_id := "base" |}];
  bindings := [] |}.

Definition demo_ops : list filter_op :=
  [ UpdatePositions [f64_dec 149 2];
    ClampCommand {| joint_velocities := [f64_of_Z 5; S754_nan]; joint_positions := None;
                    control_mode := VelocityControl |};
    SetTickPeriod (f64_dec 2 2);
    ClampFrame {| values := [f64_of_Z 9; one] |} velocity_manifest [];
    ClampCommand {| joint_velocities := [f64_of_Z (-5); S754_infinity true]; joint_positions := None;
                    control_mode := VelocityControl |} ].

Lemma demo_ops_valid : Forall (valid_op (f64_dec 15 1)) demo_ops.
Proof.
  repeat (apply Forall_cons; split); try apply Forall_nil; try done; simpl.
  split; [repeat (apply Forall_cons; split); try apply Forall_nil; vm_compute; reflexivity|].
  intros [|i] ch H; [|done]. injection H as <-.
  constructor; [split|..]; vm_compute; reflexivity.
Defined.

Lemma task_filter_safe_witness :
  exists self self' outs,
    new_filter (f64_dec 15 1) (f64_of_Z 50) (Some [(f64_dec (-15) 1, f64_dec 15 1)]) = Ret (Ok self) /\
    run_ops self demo_ops = Ret (self', outs) /\
    Forall (fun out => Forall (within (f64_dec 15 1)) (output_values out)) outs.
Proof.
  eexists.
  destruct (task_filter_safe (f64_dec 15 1) (f64_of_Z 50) (Some [(f64_dec (-15) 1, f64_dec 15 1)])
    _ demo_ops eq_refl eq_refl demo_ops_valid eq_refl) as (s & outs & H1 & H2).
  exists s, outs. split; [reflexivity|]. split; [exact H1|exact H2].
Defined.

(** Without that condition the two clamps interfere: they share [prev_velocities], so the
    position of a clamped frame counts as the previous velocity of the next motor command,
    and the acceleration limit around it lifts a stop over the maximum velocity of 1. *)
Example position_taken_for_velocity :
  let cm := {| version := 1; manifest_digest := "m"; bindings := [];
    channels := [{| ch_name := "j0"; interface_type := JointPosition; units := "rad";
                    ch_frame_id := "base" |}] |} in
  match new_filter one one None with
  | Ret (Ok self) =>
      match run_ops self [ClampFrame {| values := [f64_of_Z 3] |} cm [];
                          ClampCommand {| joint_velocities := [zero]; joint_positions := None;
                                          control_mode := VelocityControl |}] with
      | Ret (_, [_; Commanded out]) => exists v, joint_velocities out = [v] /\ f64_gt v (f64_dec 29 1) = true
      | _ => False
      end
  | _ => False
  end.
Proof. vm_compute. eexists. split; reflexivity. Qed.

(** what one clamp does to each joint, in any state.  The output obeys the
    acceleration limit relative to the joint's previous command unless the position
    rule zeroed it; it never pushes a joint past a position bound; it is remembered
    as the joint's previous command; and a command within all three limits passes
    unchanged. *)
Theorem clamp_command_rules (self self' : SafetyFilterTask) (cmd out : MotorCommand)
    (i : nat) (v : f64)
    (H : clamp_command self cmd = Ret (self', out))
    (Hv : joint_velocities cmd !! i = Some v) :
  let d := f64_mul (sf_max_acceleration self) (sf_tick_period self) in
  let prev := default zero (prev_velocities self !! i) in
  exists r, joint_velocities out !! i = Some r /\ prev_velocities self' !! i = Some r /\
    (f64_gt d zero = true ->
       r = zero \/ f64_le (f64_sub prev d) r = true /\ f64_le r (f64_add prev d) = true) /\
    respects_bounds self i r /\
    (within (sf_max_velocity self) v ->
     (f64_gt d zero = true -> f64_le (f64_sub prev d) v = true /\ f64_le v (f64_add prev d) = true) ->
     respects_bounds self i v -> r = v).
Proof.
  unfold clamp_command in H. apply exec_bind_ret in H as (ys & Hys & [= <- <-]). simpl.
  destruct (exec_mapi_lookup _ _ _ _ Hys) as [Hlen Hf].
  destruct (lookup_lt_is_Some_2 ys i) as [r Hr]; [rewrite Hlen; by eapply lookup_lt_Some|].
  exists r. split_and!; [done..| | |]; apply (clamp_joint_rules _ _ _ _ _ (Hf i v r Hv Hr)).
Qed.

Definition demo_task : SafetyFilterTask := {|
  sf_max_velocity := f64_dec 15 1; sf_max_acceleration := f64_of_Z 50;
  sf_tick_period := f64_dec 1 2; sf_position_limits := Some [(f64_of_Z (-2), f64_of_Z 2)];
  prev_velocities := [one]; current_positions := [zero] |}.

Lemma clamp_command_rules_witness :
  exists r, f64_le r (f64_add one (f64_mul (f64_of_Z 50) (f64_dec 1 2))) = true /\ is_finite r = true.
Proof.
  destruct (clamp_command_rules demo_task _
    {| joint_velocities := [f64_of_Z 5]; joint_positions := None; control_mode := VelocityControl |}
    _ 0%nat (f64_of_Z 5) eq_refl eq_refl) as (r & H1 & _).
  exists r. injection H1 as <-. split; vm_compute; reflexivity.
Defined.

(** when the frame clamp returns.  It panics (a bound of [f64::clamp] above the
    other, or NaN) exactly when some commanded actuator channel has an empty range;
    nothing else in it can panic. *)
Theorem frame_clamp_returns_iff (self : SafetyFilterTask) (frame : CommandFrame)
    (cm : ControlInterfaceManifest) (jls : list JointSafetyLimits) :
  is_ret (clamp_frame_with_control_manifest self frame cm jls) = true <->
  forall i ch, (i < length (values frame))%nat -> actuator_channels cm !! i = Some ch ->
    range_ok (channel_limits (interface_type ch) (jls !! i)) = true.
Proof.
  unfold clamp_frame_with_control_manifest, clamp_frame_with_profiles. split.
  - destruct (clamp_channels _ _ _ _ _ _) as [out|] eqn:H; [|done]. intros _ i ch Hi Hch.
    eapply clamp_channels_ranges; [exact H|done|simpl; lia].
  - intros H. destruct (clamp_channels_ok self cm jls (values frame) (values frame) [])
      as (ys & -> & _); [|done]. intros i ch Hch Hi. apply H; [simpl in Hi; lia|done].
Qed.

(** the frame clamp keeps every channel within its limits.  With non-empty ranges
    it returns a frame of the same length, remembers it, sets every value that no
    actuator channel claims to zero, keeps every other value within its channel's
    limits (never NaN), and never drives a velocity or effort channel past the
    position bounds of its joint. *)
Theorem frame_clamp_within_limits (self : SafetyFilterTask) (frame : CommandFrame)
    (cm : ControlInterfaceManifest) (jls : list JointSafetyLimits)
    (Hr : forall i ch, actuator_channels cm !! i = Some ch ->
       range_ok (channel_limits (interface_type ch) (jls !! i)) = true) :
  exists self' out, clamp_frame_with_control_manifest self frame cm jls = Ret (self', out) /\
    length (values out) = length (values frame) /\ prev_velocities self' = values out /\
    forall i v, values out !! i = Some v -> entry_ok self cm jls i v.
Proof.
  unfold clamp_frame_with_control_manifest, clamp_frame_with_profiles.
  destruct (clamp_channels_ok self cm jls (values frame) (values frame) []) as (ys & -> & Hlen & Hys).
  { intros i ch Hch _. by apply Hr. }
  simpl. eexists _, _. split_and!; try done.
Qed.

Definition demo_limits : JointSafetyLimits := {|
  joint_name := "shoulder"; max_velocity := f64_of_Z 2; max_acceleration := f64_of_Z 10;
  max_jerk := f64_of_Z 100; position_min := f64_of_Z (-1); position_max := f64_of_Z 1;
  max_torque := Some (f64_of_Z 20) |}.

Definition demo_manifest : ControlInterfaceManifest := {|
  version := 1; manifest_digest := "";
  channels := [ {| ch_name := "imu"; interface_type := ImuSensor; units := ""; ch_frame_id := "base" |};
                {| ch_name := "j0"; interface_type := JointVelocity; units := ""; ch_frame_id := "l0" |} ];
  bindings := [] |}.

Lemma frame_clamp_within_limits_witness :
  exists out, clamp_frame_with_control_manifest demo_task
      {| values := [f64_of_Z 9; f64_of_Z 9] |} demo_manifest [demo_limits] = Ret out /\
    entry_ok demo_task demo_manifest [demo_limits] 0 (f64_of_Z 2) /\
    entry_ok demo_task demo_manifest [demo_limits] 1 zero.
Proof.
  destruct (frame_clamp_within_limits demo_task {| values := [f64_of_Z 9; f64_of_Z 9] |}
    demo_manifest [demo_limits]) as (s & out & H & _ & _ & Hall).
  { intros [|i] ch Hch; [|by destruct i]. injection Hch as <-. vm_compute. reflexivity. }
  exists (s, out). split; [exact H|].
  assert (values out = [f64_of_Z 2; zero]) as Hv by (vm_compute in H; injection H as <- <-; reflexivity).
  split; apply Hall; rewrite Hv; reflexivity.
Defined.

(** Joint limits are runtime data and no code checks that a joint's lower bound is below
    its upper one: with the bounds swapped the control loop panics. *)
Example inverted_limits_panic :
  clamp_frame_with_control_manifest demo_task {| values := [zero] |}
    {| version := 1; manifest_digest := ""; bindings := [];
       channels := [ {| ch_name := "j0"; interface_type := JointPosition; units := ""; ch_frame_id := "l0" |} ] |}
    [ {| joint_name := "j0"; max_velocity := one; max_acceleration := one; max_jerk := one;
         position_min := one; position_max := f64_of_Z (-1); max_torque := None |} ]
  = Panic.
Proof. vm_compute. reflexivity. Qed.

(** C7: the hot-path filter is safe on every tick.  With non-negative velocity and
    acceleration limits it never panics; it returns one command per input, and remembers
    exactly what it returned; it stops exactly when the contact force or the contact torque
    is over its limit, and then every command is zero.  Otherwise each command comes out
    zero for an actuator without limits or when it is not finite, else clamped to the
    velocity limit, then to the change the acceleration limit allows from the previous
    output, then zeroed where it would move a joint on at its position limit; within
    [f64::EPSILON] of a limit it passes.  No output pushes a joint past its position limits. *)
Theorem hot_path_filter_safe (self : HotPathSafetyFilter) (cmds : list f64)
    (positions : option (list f64)) (wrench : option wrench6)
    (Hl : Forall limits_ok (hp_joint_limits self)) :
  exists self' res, filter self cmds positions wrench = Ret (self', res) /\
    length (commands res) = length cmds /\ previous_commands self' = commands res /\
    (estop res = true <-> over_contact_limit (hp_force_limits self) wrench) /\
    (estop res = true -> commands res = replicate (length cmds) zero) /\
    forall i cmd c, cmds !! i = Some cmd -> commands res !! i = Some c ->
      (estop res = false -> joint_output self (positions ≫= (fun ps => ps !! i)) i cmd c) /\
      forall l pos, hp_joint_limits self !! i = Some l ->
        positions ≫= (fun ps => ps !! i) = Some pos ->
        pushes_past pos c (position_min l) (position_max l) = false.
Proof.
  destruct (filter_spec self cmds positions wrench Hl)
    as (self' & res & pj & Hf & _ & Hlen & Hpj & Hprev & _ & Hstop & Hcmds).
  exists self', res. split_and!; try done.
  - rewrite Hcmds. destruct (estop res); by rewrite ?length_replicate, ?length_map.
  - intros Hs. by rewrite Hs in Hcmds.
  - intros i cmd c Hi Hc. rewrite Hcmds in Hc.
    destruct (filter_joint_spec self positions i cmd Hl) as (c' & ivs & Hj & _ & Hspec & Hp & _).
    destruct (estop res).
    + apply lookup_replicate in Hc as [-> _]. split; [done|]. intros; apply pushes_past_zero.
    + rewrite map_lookup in Hc. destruct (pj !! i) as [o|] eqn:Ho; [|done].
      specialize (Hpj i cmd o Hi Ho). rewrite Hj in Hpj. injection Hpj as <-.
      injection Hc as <-. by split.
Qed.

Definition demo_hot_path : HotPathSafetyFilter := {|
  hp_joint_limits := [demo_limits];
  hp_force_limits := Some {| max_contact_force_n := f64_of_Z 10; max_contact_torque_nm := f64_of_Z 1;
                             force_rate_limit := f64_of_Z 5 |};
  workspace_bounds := None; previous_commands := [zero]; tick_period_s := f64_dec 1 2 |}.

Lemma demo_limits_ok : Forall limits_ok (hp_joint_limits demo_hot_path).
Proof. repeat constructor. Qed.

Lemma hot_path_filter_safe_witness :
  exists self' res, filter demo_hot_path [S754_nan; f64_of_Z 3] None
      (Some {| fx := f64_of_Z 9; fy := f64_of_Z 9; fz := zero; tx := zero; ty := zero; tz := zero |})
    = Ret (self', res) /\ estop res = true /\ commands res = [zero; zero].
Proof.
  destruct (hot_path_filter_safe demo_hot_path [S754_nan; f64_of_Z 3] None
    (Some {| fx := f64_of_Z 9; fy := f64_of_Z 9; fz := zero; tx := zero; ty := zero; tz := zero |})
    demo_limits_ok) as (s & res & H & _ & _ & Hs & Hz & _).
  exists s, res. split; [exact H|].
  assert (estop res = true) as He.
  { apply Hs. eexists _, _. split; [reflexivity|]. split; [reflexivity|]. left. vm_compute. reflexivity. }
  split; [exact He|]. exact (Hz He).
Defined.

(** no silent alteration.  The interventions of a tick are, per actuator, a trail
    that leads from the command the controller gave (zero for a NaN) to the command
    the filter computed, each intervention starting from the value the one before it
    left, followed by the force and torque interventions; when there is no
    intervention at all the commands are exactly those the controller gave. *)
Theorem hot_path_filter_audited (self : HotPathSafetyFilter) (cmds : list f64)
    (positions : option (list f64)) (wrench : option wrench6)
    (Hl : Forall limits_ok (hp_joint_limits self)) :
  exists self' res outs trails, filter self cmds positions wrench = Ret (self', res) /\
    interventions res = concat trails ++ force_check (hp_force_limits self) wrench /\
    length trails = length cmds /\ length outs = length cmds /\
    commands res = (if estop res then replicate (length cmds) zero else outs) /\
    (forall i cmd ivs c, cmds !! i = Some cmd -> trails !! i = Some ivs -> outs !! i = Some c ->
       trail (if is_nan cmd && bool_decide (is_Some (hp_joint_limits self !! i)) then zero else cmd)
         ivs c) /\
    (interventions res = [] -> commands res = cmds).
Proof.
  destruct (filter_spec self cmds positions wrench Hl)
    as (self' & res & pj & Hf & _ & Hlen & Hpj & _ & Hiv & Hstop & Hcmds).
  exists self', res, (map fst pj), (map snd pj).
  split_and!; try done; try (by rewrite length_map).
  - intros i cmd ivs c Hi Hivs Hc. rewrite map_lookup in Hivs; rewrite map_lookup in Hc.
    destruct (pj !! i) as [o|] eqn:Ho; [|done]. simplify_eq/=.
    specialize (Hpj i cmd o Hi Ho).
    destruct (filter_joint_spec self positions i cmd Hl) as (c' & ivs' & Hj & Ht & _).
    rewrite Hj in Hpj. by injection Hpj as <-.
  - intros Hnil. rewrite Hiv in Hnil. apply app_eq_nil in Hnil as [Hcat Hforce].
    destruct (estop res) eqn:He; [by destruct (proj2 (force_check_spec _ _) (proj1 Hstop eq_refl))|].
    rewrite Hcmds.
    apply list_eq_same_length with (length cmds); [done|by rewrite length_map|].
    intros i c cmd _ Hc Hi. rewrite map_lookup in Hc.
    destruct (pj !! i) as [o|] eqn:Ho; [|done]. simplify_eq/=.
    specialize (Hpj i cmd o Hi Ho).
    destruct (filter_joint_spec self positions i cmd Hl) as (c' & ivs' & Hj & Ht & _ & _ & Hn).
    rewrite Hj in Hpj. injection Hpj as <-. simpl in *.
    assert (ivs' = []) as ->.
    { eapply (concat_nil_lookup _ i); [exact Hcat|]. by rewrite map_lookup, Ho. }
    rewrite (Hn eq_refl) in Ht. exact Ht.
Qed.

Lemma hot_path_filter_audited_witness :
  exists res : FilterResult, length (interventions res) = 3%nat /\ length (commands res) = 2%nat.
Proof.
  destruct (hot_path_filter_audited demo_hot_path [f64_of_Z 3; one] None None demo_limits_ok)
    as (s & res & outs & trails & H & _).
  exists res. vm_compute in H. injection H as <- <-. split; reflexivity.
Defined.
