(* ===== verification/RustStr.v ===== *)
(** * Strings and number parsing of the Rust standard library

    A [str] is its UTF-8 bytes as a [string].  This file holds what the program uses of
    the standard library's string functions: [trim], [find], [starts_with], [ends_with],
    [split], range slicing (which panics out of range and inside a character) and the
    parsers of [usize] and [f64]. *)

From Stdlib Require Import Ascii.
From Stdlib Require String.
From S2P Require Import Prelude Float64.

#[local] Open Scope string_scope.

Definition bytes (l : list nat) : string := fold_right (fun n s => String (ascii_of_nat n) s) "" l.

(** ** Searching and slicing *)

Definition starts_with (p s : string) : bool := String.prefix p s.

Definition ends_with (p s : string) : bool :=
  (String.length p <=? String.length s)%nat
  && String.eqb (String.substring (String.length s - String.length p) (String.length p) s) p.

(** [s.find(p)]: the first position of [p]. *)
Definition find (p s : string) : option nat := String.index 0 p s.

Definition drop_front (n : nat) (s : string) : string := String.substring n (String.length s - n) s.
Definition take_front (n : nat) (s : string) : string := String.substring 0 n s.

(** [s.strip_prefix(p)]. *)
Definition strip_prefix (p s : string) : option string :=
  if starts_with p s then Some (drop_front (String.length p) s) else None.

Definition is_ascii (c : ascii) : bool := (nat_of_ascii c <? 128)%nat.
Definition is_continuation (c : ascii) : bool :=
  ((128 <=? nat_of_ascii c) && (nat_of_ascii c <? 192))%nat.

(** Position [n] of the UTF-8 text [s] is at its ends or between two characters: no
    continuation byte comes next.  (After an ASCII byte none can come.) *)
Definition char_boundary (s : string) (n : nat) : bool :=
  (n =? 0)%nat ||
  match String.get n s with Some c => negb (is_continuation c) | None => (n =? String.length s)%nat end ||
  match String.get (n - 1) s with Some c => is_ascii c | None => false end.

(** [&s[a..b]]. *)
Definition slice (s : string) (a b : nat) : exec string :=
  if ((a <=? b) && (b <=? String.length s))%nat && (char_boundary s a && char_boundary s b)
  then Ret (String.substring a (b - a) s) else Panic.

(** [s.split(c)]: never empty. *)
Fixpoint split_on (c : ascii) (s : string) : list string :=
  match s with
  | "" => [""]
  | String a s' =>
      if Ascii.eqb a c then "" :: split_on c s'
      else match split_on c s' with
           | [] => [String a ""]
           | w :: ws => String a w :: ws
           end
  end.

(** ** Trimming

    The characters with the Unicode property White_Space, in UTF-8. *)
Definition WHITE_SPACE : list string :=
  map bytes
    [ [9]; [10]; [11]; [12]; [13]; [32]; [194; 133]; [194; 160]; [225; 154; 128];
      [226; 128; 128]; [226; 128; 129]; [226; 128; 130]; [226; 128; 131]; [226; 128; 132];
      [226; 128; 133]; [226; 128; 134]; [226; 128; 135]; [226; 128; 136]; [226; 128; 137];
      [226; 128; 138]; [226; 128; 168]; [226; 128; 169]; [226; 128; 175]; [226; 129; 159];
      [227; 128; 128] ]%nat.

Definition leading_ws (s : string) : option string := List.find (fun w => starts_with w s) WHITE_SPACE.
Definition trailing_ws (s : string) : option string := List.find (fun w => ends_with w s) WHITE_SPACE.

Fixpoint trim_start_fuel (fuel : nat) (s : string) : string :=
  match fuel with
  | O => s
  | S fuel =>
      match leading_ws s with
      | Some w => trim_start_fuel fuel (drop_front (String.length w) s)
      | None => s
      end
  end.
Definition trim_start (s : string) : string := trim_start_fuel (String.length s) s.

Fixpoint trim_end_fuel (fuel : nat) (s : string) : string :=
  match fuel with
  | O => s
  | S fuel =>
      match trailing_ws s with
      | Some w => trim_end_fuel fuel (take_front (String.length s - String.length w) s)
      | None => s
      end
  end.
Definition trim_end (s : string) : string := trim_end_fuel (String.length s) s.

Definition trim (s : string) : string := trim_end (trim_start s).

(** ** Numbers *)

Definition digit (a : ascii) : option Z :=
  let n := Z.of_nat (nat_of_ascii a) in
  if ((48 <=? n) && (n <=? 57))%Z then Some (n - 48)%Z else None.

(** Read digits: the number read (continuing [acc]), how many, and the rest. *)
Fixpoint read_digits (acc : Z) (n : nat) (s : string) : Z * nat * string :=
  match s with
  | "" => (acc, n, "")
  | String a s' =>
      match digit a with
      | Some d => read_digits (acc * 10 + d) (S n) s'
      | None => (acc, n, s)
      end
  end.

(** [s.parse::<usize>()] on a 64-bit target. *)
Definition parse_usize (s : string) : option Z :=
  let s := match s with String "+" s' => s' | _ => s end in
  match read_digits 0 0 s with
  | (v, S _, "") => if (v <=? u64_max)%Z then Some v else None
  | _ => None
  end.

Definition lower (a : ascii) : ascii :=
  let n := nat_of_ascii a in
  if ((65 <=? n) && (n <=? 90))%nat then ascii_of_nat (n + 32) else a.
Fixpoint to_ascii_lowercase (s : string) : string :=
  match s with "" => "" | String a s => String (lower a) (to_ascii_lowercase s) end.

(** [(-1)^neg * mant * 10^e], correctly rounded. *)
Definition f64_of_decimal (neg : bool) (mant e : Z) : f64 :=
  match mant with
  | Zpos p =>
      if (0 <=? e)%Z then binary_round 53 1024 neg (p * Z.to_pos (10 ^ e)) 0
      else
        let '(q, e', l) := SFdiv_core_binary 53 1024 (Zpos p) 0 (10 ^ (- e)) 0 in
        binary_round_aux 53 1024 neg q e' l
  | _ => S754_zero neg
  end.

(** The exponent part: [e] or [E], an optional sign, digits. *)
Definition parse_exponent (s : string) : option Z :=
  match s with
  | "" => Some 0
  | String c s' =>
      if Ascii.eqb (lower c) "e" then
        let '(neg, s'') := match s' with
                           | String "-" r => (true, r)
                           | String "+" r => (false, r)
                           | _ => (false, s')
                           end in
        match read_digits 0 0 s'' with
        | (v, S _, "") => Some (if neg then - v else v)
        | _ => None
        end
      else None
  end.

(** [s.parse::<f64>()]. *)
Definition parse_f64 (s : string) : option f64 :=
  let '(neg, s) := match s with
                   | String "-" r => (true, r)
                   | String "+" r => (false, r)
                   | _ => (false, s)
                   end in
  let l := to_ascii_lowercase s in
  if String.eqb l "nan" then Some S754_nan
  else if String.eqb l "inf" || String.eqb l "infinity" then Some (S754_infinity neg)
  else
    let '(int, n1, rest) := read_digits 0 0 s in
    let '(mant, n2, rest) :=
      match rest with
      | String "." r => read_digits int 0 r
      | _ => (int, 0%nat, rest)
      end in
    if (n1 + n2 =? 0)%nat then None
    else match parse_exponent rest with
         | Some e => Some (f64_of_decimal neg mant (e - Z.of_nat n2))
         | None => None
         end.

Example parse_f64_examples :
  map parse_f64 ["1.5"; "-2"; ".5e1"; "1e-2"; "."; "1x"; "+inf"; ""]
  = [Some (f64_dec 15 1); Some (f64_of_Z (-2)); Some (f64_of_Z 5); Some (f64_dec 1 2);
     None; None; Some (S754_infinity false); None].
Proof. vm_compute. reflexivity. Qed.

(** ** Lemmas *)

#[local] Arguments String.append !_ _ / : simpl nomatch.

Lemma str_app_length a b : String.length (a +:+ b) = (String.length a + String.length b)%nat.
Proof. induction a; simpl; auto. Qed.

Lemma str_app_nil_r s : s +:+ "" = s.
Proof. induction s; simpl; congruence. Qed.

Lemma str_app_assoc a b c : (a +:+ b) +:+ c = a +:+ (b +:+ c).
Proof. induction a; simpl; congruence. Qed.

Lemma substring_all s : String.substring 0 (String.length s) s = s.
Proof. induction s; simpl; congruence. Qed.

Lemma substring_prefix a b : String.substring 0 (String.length a) (a +:+ b) = a.
Proof. induction a; simpl; [by destruct b|congruence]. Qed.

Lemma substring_suffix a b n : String.substring (String.length a) n (a +:+ b) = String.substring 0 n b.
Proof. induction a; simpl; auto. Qed.

Lemma take_front_app a b : take_front (String.length a) (a +:+ b) = a.
Proof. apply substring_prefix. Qed.

Lemma drop_front_app a b : drop_front (String.length a) (a +:+ b) = b.
Proof.
  unfold drop_front. rewrite substring_suffix, str_app_length.
  replace (String.length a + String.length b - String.length a)%nat with (String.length b) by lia.
  apply substring_all.
Qed.

Lemma get_after a c b : String.get (String.length a) (a +:+ String c b) = Some c.
Proof. induction a as [|x a IH]; [done|]. exact IH. Qed.

(** A cut before or after an ASCII byte is between two characters. *)
Lemma boundary_before a c b :
  is_ascii c = true -> char_boundary (a +:+ String c b) (String.length a) = true.
Proof.
  intros Hc. unfold char_boundary. rewrite get_after. unfold is_continuation, is_ascii in *.
  apply Nat.ltb_lt in Hc. rewrite (proj2 (Nat.leb_gt _ _)) by lia. simpl. by rewrite orb_true_r.
Qed.

Lemma boundary_after a c b :
  is_ascii c = true -> char_boundary (a +:+ String c b) (S (String.length a)) = true.
Proof.
  intros Hc. unfold char_boundary. replace (S (String.length a) - 1)%nat with (String.length a) by lia.
  rewrite get_after, Hc. by rewrite !orb_true_r.
Qed.

Lemma boundary_first c b : is_ascii c = true -> char_boundary (String c b) 1 = true.
Proof. apply (boundary_after ""). Qed.

Lemma boundary_end s : char_boundary s (String.length s) = true.
Proof.
  unfold char_boundary. assert (String.get (String.length s) s = None) as ->.
  { by induction s. }
  rewrite Nat.eqb_refl. by rewrite orb_true_r.
Qed.

Lemma boundary_last a c :
  is_ascii c = true -> char_boundary (a +:+ String c "") (String.length (a +:+ String c "") - 1) = true.
Proof.
  intros Hc. rewrite str_app_length. simpl. rewrite Nat.add_sub. by apply boundary_before.
Qed.

Lemma slice_ret s a b :
  (a <= b)%nat -> (b <= String.length s)%nat -> char_boundary s a = true -> char_boundary s b = true ->
  slice s a b = Ret (String.substring a (b - a) s).
Proof. intros. unfold slice. rewrite !(proj2 (Nat.leb_le _ _)) by lia. rewrite H1, H2. done. Qed.

Lemma slice_middle a c m d b :
  is_ascii c = true -> is_ascii d = true ->
  slice ((a +:+ String c "") +:+ m +:+ String d b) (String.length (a +:+ String c ""))
    (String.length (a +:+ String c "") + String.length m) = Ret m.
Proof.
  intros Hc Hd. rewrite slice_ret.
  - rewrite substring_suffix.
    replace (String.length (a +:+ String c "") + String.length m - String.length (a +:+ String c ""))%nat
      with (String.length m) by lia.
    by rewrite substring_prefix.
  - lia.
  - rewrite !str_app_length. lia.
  - rewrite str_app_assoc, str_app_length, Nat.add_comm. by apply boundary_after.
  - rewrite <- str_app_assoc, <- str_app_length. by apply boundary_before.
Qed.

Lemma starts_with_app p s : starts_with p (p +:+ s) = true.
Proof.
  unfold starts_with. induction p as [|a p IH]; simpl; [by destruct s|].
  destruct (ascii_dec a a); done.
Qed.

Lemma starts_with_spec p s : starts_with p s = true <-> exists r, s = p +:+ r.
Proof.
  split; [|intros [r ->]; apply starts_with_app].
  revert s. induction p as [|a p IH]; intros s H; [by exists s|].
  destruct s as [|b s]; simpl in H; [done|].
  destruct (ascii_dec a b) as [->|]; [|done]. destruct (IH s H) as [r ->]. by exists r.
Qed.

Lemma strip_prefix_app p s : strip_prefix p (p +:+ s) = Some s.
Proof. unfold strip_prefix. by rewrite starts_with_app, drop_front_app. Qed.

Lemma strip_prefix_some p s r : strip_prefix p s = Some r <-> s = p +:+ r.
Proof.
  split; [|intros ->; apply strip_prefix_app].
  unfold strip_prefix. destruct (starts_with p s) eqn:E; [|done].
  apply starts_with_spec in E as [t ->]. rewrite drop_front_app. by intros [= ->].
Qed.

Lemma ends_with_app p s : ends_with p (s +:+ p) = true.
Proof.
  unfold ends_with. rewrite str_app_length, (proj2 (Nat.leb_le _ _)) by lia.
  replace (String.length s + String.length p - String.length p)%nat with (String.length s) by lia.
  rewrite substring_suffix, substring_all. by rewrite String.eqb_refl.
Qed.

Lemma split_at_length s n : (n <= String.length s)%nat ->
  exists a b, s = a +:+ b /\ String.length a = n.
Proof.
  revert n. induction s as [|c s IH]; intros [|n] H; simpl in *; try lia.
  - by exists "", "".
  - by exists "", (String c s).
  - destruct (IH n) as (a & b & -> & <-); [lia|]. by exists (String c a), b.
Qed.

Lemma ends_with_spec p s : ends_with p s = true <-> exists r, s = r +:+ p.
Proof.
  split; [|intros [r ->]; apply ends_with_app].
  unfold ends_with. intros H. apply andb_true_iff in H as [H1%Nat.leb_le H2%String.eqb_eq].
  destruct (split_at_length s (String.length s - String.length p)) as (a & b & Hs & Hl); [lia|].
  exists a. rewrite <- Hl in H2. rewrite Hs in H2 at 1. rewrite substring_suffix in H2.
  assert (String.length p = String.length b) as Hb.
  { rewrite Hs, str_app_length in Hl, H1. lia. }
  rewrite Hb, substring_all in H2. by subst.
Qed.

(** ** Characters of a string *)

Fixpoint all_chars (p : ascii -> bool) (s : string) : bool :=
  match s with "" => true | String a s => p a && all_chars p s end.

Lemma all_chars_app p a b : all_chars p (a +:+ b) = all_chars p a && all_chars p b.
Proof. induction a as [|c a IH]; simpl; [done|]. by rewrite IH, andb_assoc. Qed.

Lemma all_chars_impl (p q : ascii -> bool) s :
  (forall a, p a = true -> q a = true) -> all_chars p s = true -> all_chars q s = true.
Proof. induction s; simpl; [done|]. intros ? ?. bool_prop. rewrite andb_true_iff. auto. Qed.

(** The printable ASCII characters other than the space. *)
Definition printable (a : ascii) : bool :=
  let n := nat_of_ascii a in ((33 <=? n) && (n <=? 126))%nat.

Lemma white_space_head w :
  In w WHITE_SPACE -> exists c w', w = String c w' /\ printable c = false.
Proof.
  intros H. unfold WHITE_SPACE in H. simpl in H.
  repeat (destruct H as [<-|H]; [eexists _, _; split; reflexivity|]). done.
Qed.

Lemma white_space_last w :
  In w WHITE_SPACE -> exists w' c, w = w' +:+ String c "" /\ printable c = false.
Proof.
  intros H. unfold WHITE_SPACE in H. simpl in H.
  repeat (destruct H as [<-|H];
    [first [ by eexists "", _ | by eexists (String _ ""), _ | by eexists (String _ (String _ "")), _ ]|]).
  done.
Qed.

Lemma string_last s : s <> "" -> exists t c, s = t +:+ String c "".
Proof.
  induction s as [|a s IH]; [done|]. intros _. destruct s as [|b s]; [by exists "", a|].
  destruct IH as (t & c & ->); [done|]. by exists (String a t), c.
Qed.

Lemma str_app_last a b c d : a +:+ String c "" = b +:+ String d "" -> a = b /\ c = d.
Proof.
  revert b. induction a as [|x a IH]; intros [|y b] H; simpl in H; injection H; clear H.
  - by intros ->.
  - intros H ->. by destruct b.
  - intros H ->. by destruct a.
  - intros H ->. apply IH in H as [-> ->]. done.
Qed.

Lemma leading_ws_printable a s : printable a = true -> leading_ws (String a s) = None.
Proof.
  intros Ha. destruct (leading_ws (String a s)) as [w|] eqn:Hw; [|done].
  apply find_some in Hw as [Hin Hst]. apply white_space_head in Hin as (c & w' & -> & Hc).
  apply starts_with_spec in Hst as [r Hr]. injection Hr as -> _. congruence.
Qed.

Lemma trailing_ws_printable s : all_chars printable s = true -> trailing_ws s = None.
Proof.
  intros Hs. destruct (trailing_ws s) as [w|] eqn:Hw; [|done].
  apply find_some in Hw as [Hin Hst]. apply white_space_head in Hin as (c & w' & -> & Hc).
  apply ends_with_spec in Hst as [r ->]. rewrite all_chars_app in Hs. simpl in Hs.
  rewrite Hc in Hs. by rewrite andb_false_r in Hs.
Qed.

Lemma trim_start_printable a s : printable a = true -> trim_start (String a s) = String a s.
Proof. intros Ha. unfold trim_start. simpl. by rewrite leading_ws_printable. Qed.

Lemma trim_end_printable s : all_chars printable s = true -> trim_end s = s.
Proof.
  intros Hs. unfold trim_end. destruct (String.length s) eqn:?; simpl; [done|].
  by rewrite trailing_ws_printable.
Qed.

Lemma trim_printable s : all_chars printable s = true -> trim s = s.
Proof.
  intros Hs. destruct s as [|a s]; [done|]. unfold trim. simpl in Hs. bool_prop.
  rewrite trim_start_printable by done. apply trim_end_printable. simpl. by rewrite andb_true_iff.
Qed.

Lemma trim_start_space s : trim_start (String " " s) = trim_start s.
Proof.
  unfold trim_start at 1. simpl.
  assert (leading_ws (String " " s) = Some " ") as -> by by destruct s.
  change (drop_front _ (String " " s)) with (drop_front (String.length " ") (" " +:+ s)).
  by rewrite drop_front_app.
Qed.

Lemma ends_with_char a b s : ends_with (String a "") (s +:+ String b "") = Ascii.eqb a b.
Proof.
  unfold ends_with. rewrite str_app_length, (proj2 (Nat.leb_le _ _)) by (simpl; lia).
  replace (String.length (s +:+ String b "") - String.length (String a ""))%nat
    with (String.length s) by (rewrite str_app_length; simpl; lia).
  replace (String.length s + String.length (String b "") - String.length (String a ""))%nat
    with (String.length s) by (simpl; lia).
  rewrite substring_suffix. simpl. by destruct (Ascii.eqb_spec b a), (Ascii.eqb_spec a b).
Qed.

Lemma trailing_ws_space s : trailing_ws (s +:+ " ") = Some " ".
Proof.
  unfold trailing_ws, WHITE_SPACE. simpl List.find. cbn [bytes fold_right map List.find].
  rewrite !ends_with_char. reflexivity.
Qed.

Lemma trim_end_space s : trim_end (s +:+ " ") = trim_end s.
Proof.
  unfold trim_end at 1. rewrite str_app_length, Nat.add_comm. simpl.
  rewrite trailing_ws_space. rewrite str_app_length. simpl.
  replace (String.length s + 1 - 1)%nat with (String.length s) by lia.
  by rewrite take_front_app.
Qed.

Lemma trim_space_after s : all_chars printable s = true -> trim (s +:+ " ") = s.
Proof.
  intros Hs. unfold trim. destruct s as [|a s]; [reflexivity|].
  pose proof Hs as Ha. simpl in Ha. bool_prop. simpl.
  rewrite trim_start_printable by done.
  change (String a (s +:+ " ")) with (String a s +:+ " ").
  rewrite trim_end_space. by apply trim_end_printable.
Qed.

Lemma trim_space_before s : all_chars printable s = true -> trim (String " " s) = s.
Proof.
  intros Hs. unfold trim. rewrite trim_start_space. by apply trim_printable.
Qed.

(** A string that ends in printable characters has nothing to trim at its end. *)
Lemma trim_end_id u s t :
  u = s +:+ t -> all_chars printable t = true -> t <> "" -> trim_end u = u.
Proof.
  intros -> Ht Hne. unfold trim_end. destruct (String.length (s +:+ t)); simpl; [done|].
  destruct (trailing_ws (s +:+ t)) as [w|] eqn:Hw; [|done].
  apply find_some in Hw as [Hin [r Hr]%ends_with_spec].
  exfalso. destruct (white_space_last w Hin) as (w' & c & -> & Hc).
  destruct (string_last t Hne) as (t' & d & ->).
  rewrite <- !str_app_assoc in Hr. apply str_app_last in Hr as [_ ->].
  rewrite all_chars_app in Ht. simpl in Ht. rewrite Hc, andb_false_r in Ht. done.
Qed.

(** ** Searching *)

Lemma find_cons p a s :
  find p (String a s) = if starts_with p (String a s) then Some 0%nat else S <$> find p s.
Proof.
  unfold find. destruct p as [|b p]; [done|]. unfold starts_with. cbn [String.index].
  destruct (String.prefix (String b p) (String a s)); [done|]. by destruct (String.index _ _ _).
Qed.

Lemma find_skip c p l s :
  all_chars (fun a => negb (Ascii.eqb a c)) l = true ->
  find (String c p) (l +:+ s) = Nat.add (String.length l) <$> find (String c p) s.
Proof.
  induction l as [|a l IH]; intros H; simpl.
  { by destruct (find _ s). }
  simpl in H. bool_prop. rewrite find_cons.
  assert (starts_with (String c p) (String a (l +:+ s)) = false) as ->.
  { unfold starts_with. simpl. destruct (ascii_dec c a) as [->|]; [|done].
    by rewrite Ascii.eqb_refl in *. }
  rewrite IH by done. by destruct (find _ s).
Qed.

Lemma find_none c p l :
  all_chars (fun a => negb (Ascii.eqb a c)) l = true -> find (String c p) l = None.
Proof. intros H. rewrite <- (str_app_nil_r l). by rewrite find_skip. Qed.

Lemma find_spec p s n :
  find p s = Some n -> exists a b, s = a +:+ p +:+ b /\ String.length a = n.
Proof.
  revert n. induction s as [|c s IH]; intros n H.
  - destruct p; [|done]. injection H as <-. by exists "", "".
  - rewrite find_cons in H. destruct (starts_with p (String c s)) eqn:Hs.
    + injection H as <-. apply starts_with_spec in Hs as [r ->]. by exists "", r.
    + destruct (find p s) as [m|] eqn:Hf; [|done]. injection H as <-.
      destruct (IH m eq_refl) as (a & b & -> & <-). by exists (String c a), b.
Qed.

Lemma find_in_middle p a b : is_Some (find p (a +:+ p +:+ b)).
Proof.
  induction a as [|c a IH].
  - change (is_Some (find p (p +:+ b))). pose proof (starts_with_app p b) as H. destruct p as [|x p].
    + by destruct b.
    + change (String x p +:+ b) with (String x (p +:+ b)) in *. rewrite find_cons, H. by eexists.
  - change (String c a +:+ p +:+ b) with (String c (a +:+ p +:+ b)). rewrite find_cons.
    destruct (starts_with _ _); [by eexists|]. by rewrite fmap_is_Some.
Qed.

Lemma find_is_Some p s : is_Some (find p s) <-> exists a b, s = a +:+ p +:+ b.
Proof.
  split; [intros [n (a & b & H & _)%find_spec]; by exists a, b|]. intros (a & b & ->). apply find_in_middle.
Qed.
