(* ===== verification/Json.v ===== *)
(** * JSON values

    The program handles JSON through [serde_json::Value], which is not part of it.  Its
    use is an interface: [JsonOps] has the constructors and accessors the program calls,
    [JsonLaws] the documented facts about them the proofs rely on.  [json] is a plain
    implementation of the interface, on which the examples are evaluated. *)

From S2P Require Import Prelude Float64.

Class JsonOps (V : Type) := {
  v_null : V;
  v_bool : bool -> V;
  v_string : string -> V;
  (** [Number::from_f64(x).map(Value::Number)] *)
  v_from_f64 : f64 -> option V;
  as_bool : V -> option bool;
  as_u64 : V -> option Z;
  as_f64 : V -> option f64;
  as_str : V -> option string;
  as_array : V -> option (list V);
  (** the members in key order *)
  as_object : V -> option (list (string * V));
}.

(** [map.get(name)] on the members of an object. *)
Fixpoint get_member {V} (name : string) (m : list (string * V)) : option V :=
  match m with
  | [] => None
  | (k, v) :: m => if String.eqb k name then Some v else get_member name m
  end.

Class JsonLaws (V : Type) `{JsonOps V} := {
  as_bool_bool b : as_bool (v_bool b) = Some b;
  as_f64_bool b : as_f64 (v_bool b) = None;
  as_str_string s : as_str (v_string s) = Some s;
  as_f64_string s : as_f64 (v_string s) = None;
  as_bool_string s : as_bool (v_string s) = None;
  from_f64_finite x : is_finite x = true -> exists v, v_from_f64 x = Some v /\ as_f64 v = Some x;
  from_f64_other x : is_finite x = false -> v_from_f64 x = None;
  as_f64_finite v x : as_f64 v = Some x -> is_finite x = true;
}.

(** Building and changing values: [Value::from(Vec)], [json!({})] and the assignment
    [value[name] = x], which panics when [value] is neither an object nor null. *)
Class JsonEdit (V : Type) `{JsonOps V} := {
  v_array : list V -> V;
  v_empty_object : V;
  set_index : V -> string -> V -> exec V;
}.

Class JsonEditLaws (V : Type) `{JsonEdit V} := {
  as_array_array l : as_array (v_array l) = Some l;
  as_f64_array l : as_f64 (v_array l) = None;
  as_f64_null : as_f64 v_null = None;
  set_index_object v m k x : as_object v = Some m ->
    exists v' m', set_index v k x = Ret v' /\ as_object v' = Some m' /\
      get_member k m' = Some x /\ forall k', k' <> k -> get_member k' m' = get_member k' m;
}.

(** [value.get(name)] for a string [name]. *)
Definition v_get {V} `{JsonOps V} (v : V) (name : string) : option V :=
  as_object v ≫= get_member name.

(** [Value::from(x)] for a number. *)
Definition v_number {V} `{JsonOps V} (x : f64) : V := default v_null (v_from_f64 x).

(** ** A plain implementation *)

Inductive json : Type :=
| Null
| JBool (b : bool)
| JUint (n : Z)
| JNegInt (n : Z)
| JFloat (x : f64) (finite : is_finite x = true)
| JString (s : string)
| JArray (l : list json)
| JObject (m : list (string * json)).

Definition json_from_f64 (x : f64) : option json :=
  match is_finite x as b return is_finite x = b -> option json with
  | true => fun H => Some (JFloat x H)
  | false => fun _ => None
  end eq_refl.

(** An integer that overflows binary64 does not occur: [JUint] holds a [u64]. *)
Definition f64_of_int (n : Z) : option f64 :=
  let x := f64_of_Z n in if is_finite x then Some x else None.

#[export] Instance json_ops : JsonOps json := {
  v_null := Null;
  v_bool := JBool;
  v_string := JString;
  v_from_f64 := json_from_f64;
  as_bool v := match v with JBool b => Some b | _ => None end;
  as_u64 v := match v with JUint n => Some n | _ => None end;
  as_f64 v := match v with
              | JUint n | JNegInt n => f64_of_int n
              | JFloat x _ => Some x
              | _ => None
              end;
  as_str v := match v with JString s => Some s | _ => None end;
  as_array v := match v with JArray l => Some l | _ => None end;
  as_object v := match v with JObject m => Some m | _ => None end;
}.

Lemma json_from_f64_cases x :
  match json_from_f64 x with
  | Some v => is_finite x = true /\ as_f64 v = Some x
  | None => is_finite x = false
  end.
Proof.
  unfold json_from_f64. generalize (eq_refl (is_finite x)).
  destruct (is_finite x) at 2 3; intros H; [split; [done|reflexivity]|done].
Qed.

#[export] Instance json_laws : JsonLaws json.
Proof.
  split; try done.
  - intros x Hx. pose proof (json_from_f64_cases x) as H. simpl.
    destruct (json_from_f64 x) as [v|]; [|congruence]. exists v. by destruct H.
  - intros x Hx. pose proof (json_from_f64_cases x) as H. simpl.
    destruct (json_from_f64 x); [|done]. destruct H. congruence.
  - intros v x. destruct v; simpl; unfold f64_of_int; try done.
    1-2: destruct (is_finite (f64_of_Z n)) eqn:?; naive_solver.
    naive_solver.
Qed.

Fixpoint set_member {V} (name : string) (x : V) (m : list (string * V)) : list (string * V) :=
  match m with
  | [] => [(name, x)]
  | (k, v) :: m => if String.eqb k name then (k, x) :: m else (k, v) :: set_member name x m
  end.

Lemma get_set_member {V} name (x : V) m k :
  get_member k (set_member name x m) = if String.eqb name k then Some x else get_member k m.
Proof.
  induction m as [|[k' v] m IH]; simpl; [done|].
  destruct (String.eqb_spec k' name) as [->|Hn]; simpl.
  - by destruct (String.eqb_spec name k).
  - rewrite IH. destruct (String.eqb_spec k' k), (String.eqb_spec name k); congruence.
Qed.

#[export] Instance json_edit : JsonEdit json := {
  v_array := JArray;
  v_empty_object := JObject [];
  set_index v name x :=
    match v with
    | JObject m => Ret (JObject (set_member name x m))
    | Null => Ret (JObject [(name, x)])
    | _ => Panic
    end;
}.

#[export] Instance json_edit_laws : JsonEditLaws json.
Proof.
  split; try done. intros v m k x Hv. destruct v; try done. simplify_eq/=.
  eexists _, _. split_and!; [done..| |]; intros; rewrite get_set_member.
  - by rewrite String.eqb_refl.
  - by destruct (String.eqb_spec k k').
Qed.
