(* ===== verification/Blackboard.v ===== *)
(** * The behaviour-tree blackboard

    [crates/roz-core/src/bt/blackboard.rs]: a scoped key-value store of JSON values with
    path references. *)

From Stdlib Require Import Ascii.
From S2P Require Import Prelude RustStr Json.

#[local] Open Scope string_scope.

Section Blackboard.
Context {V : Type} `{JsonOps V}.

Inductive Blackboard : Type :=
| BB (entries : gmap string V) (parent : option Blackboard).

Definition entries (self : Blackboard) : gmap string V := let 'BB e _ := self in e.
Definition parent (self : Blackboard) : option Blackboard := let 'BB _ p := self in p.

Definition new_blackboard : Blackboard := BB ∅ None.
Definition child (parent : Blackboard) : Blackboard := BB ∅ (Some parent).

Definition set (self : Blackboard) (key : string) (value : V) : Blackboard :=
  BB (<[key := value]> (entries self)) (parent self).

Fixpoint get (self : Blackboard) (key : string) : option V :=
  match self with
  | BB es p =>
      match es !! key with
      | Some v => Some v
      | None => match p with Some p => get p key | None => None end
      end
  end.

(** ** Paths *)

Inductive PathSegment : Type :=
| Field (name : string)
| Indexed (name : string) (index : Z).

Definition segment_name (s : PathSegment) : string :=
  match s with Field name | Indexed name _ => name end.

(** The body of the loop over the parts of a path. *)
Definition parse_segment (part : string) : exec (option PathSegment) :=
  match find "[" part with
  | Some bracket_pos =>
      let! name := slice part 0 bracket_pos in
      if negb (ends_with "]" part) then Ret None
      else
        let! index_str := slice part (bracket_pos + 1) (String.length part - 1) in
        match parse_usize index_str with
        | Some index => Ret (Some (Indexed name index))
        | None => Ret None
        end
  | None => Ret (Some (Field part))
  end.

Fixpoint parse_segments (parts : list string) : exec (option (list PathSegment)) :=
  match parts with
  | [] => Ret (Some [])
  | part :: parts =>
      let! seg := parse_segment part in
      match seg with
      | None => Ret None
      | Some seg =>
          let! segs := parse_segments parts in
          Ret (match segs with Some segs => Some (seg :: segs) | None => None end)
      end
  end.

Definition parse_path_segments (path : string) : exec (option (list PathSegment)) :=
  parse_segments (split_on "." path).

(** [value.as_array()?.get(index)]. *)
Definition get_index (index : Z) (value : V) : option V :=
  match as_array value with Some l => l !! Z.to_nat index | None => None end.

Definition navigate_segment (value : V) (segment : PathSegment) : option V :=
  match segment with
  | Field name =>
      match as_object value with Some m => get_member name m | None => None end
  | Indexed name index =>
      match as_object value with
      | Some m =>
          match get_member name m with
          | Some obj => get_index index obj
          | None => None
          end
      | None => None
      end
  end.

Fixpoint navigate (value : V) (segments : list PathSegment) : option V :=
  match segments with
  | [] => Some value
  | s :: segments =>
      match navigate_segment value s with
      | Some v => navigate v segments
      | None => None
      end
  end.

(** The part of [resolve_reference] after the path has been split. *)
Definition resolve_segments (self : Blackboard) (segments : list PathSegment) : option V :=
  match segments with
  | [] => None
  | s :: rest =>
      match get self (segment_name s) with
      | None => None
      | Some root_value =>
          match (match s with
                 | Field _ => Some root_value
                 | Indexed _ index => get_index index root_value
                 end) with
          | None => None
          | Some current => navigate current rest
          end
      end
  end.

Definition resolve_reference (self : Blackboard) (reference : string) : exec (option V) :=
  let trimmed := trim reference in
  if starts_with "{" trimmed && ends_with "}" trimmed then
    let! path := slice trimmed 1 (String.length trimmed - 1) in
    if String.eqb path "" then Ret None
    else
      let! segments := parse_path_segments path in
      match segments with
      | None => Ret None
      | Some segments => Ret (resolve_segments self segments)
      end
  else Ret None.

(** One turn of the remapping loop, and the loop over the mappings in the order the
    map iterates; the remapped pairs then overwrite the entries. *)
Definition remap_one (acc : gmap string V * gmap string V) (m : string * string)
    : gmap string V * gmap string V :=
  let '(es, remapped) := acc in
  let '(old_key, new_key) := m in
  match es !! old_key with
  | Some value => (delete old_key es, <[new_key := value]> remapped)
  | None => (es, remapped)
  end.

Definition remap_ports (self : Blackboard) (mappings : list (string * string)) : Blackboard :=
  let '(es, remapped) := fold_left remap_one mappings (entries self, ∅) in
  BB (remapped ∪ es) (parent self).

(** ** Lemmas *)

Lemma get_set self key value key' :
  get (set self key value) key' = if decide (key = key') then Some value else get self key'.
Proof.
  destruct self as [es p]; unfold set; simpl. destruct (decide (key = key')) as [->|Hne].
  - by rewrite lookup_insert_eq.
  - by rewrite lookup_insert_ne.
Qed.

Lemma get_child self key : get (child self) key = get self key.
Proof. reflexivity. Qed.
End Blackboard.

Arguments Blackboard V : clear implicits.
