(* ===== verification/BtEval.v ===== *)
(** * Condition expressions

    [crates/roz-core/src/bt/eval.rs] and [bt/conditions.rs] (evaluation of [lhs op rhs]
    against a blackboard) and [crates/roz-agent/src/bt/conditions.rs] (the checker of a
    skill's pre-, hold- and post-conditions).

    The theorems: when an evaluation panics, what the parser returns on an expression
    in the documented form, and the meaning of a numeric condition end to end. *)

From Stdlib Require Import Ascii.
From Stdlib Require String.
From S2P Require Import Prelude Float64 Float64Round RustStr Json Blackboard.

#[local] Open Scope string_scope.

Inductive ConditionPhase : Type := Pre | Hold | Post.

Record ConditionSpec : Type := { expression : string; phase : ConditionPhase }.

Inductive ConditionResult : Type :=
| Satisfied
| Violated (reason : string).

Definition OPERATORS : list string := ["<="; ">="; "!="; "=="; "<"; ">"].

(** The loop over the operators. *)
Fixpoint parse_with (ops : list string) (expr : string) : option (string * string * string) :=
  match ops with
  | [] => None
  | op :: ops =>
      match find op expr with
      | Some pos =>
          let lhs := trim (take_front pos expr) in
          let rhs := trim (drop_front (pos + String.length op) expr) in
          if negb (String.eqb lhs "") && negb (String.eqb rhs "")
          then Some (lhs, op, rhs)
          else parse_with ops expr
      | None => parse_with ops expr
      end
  end.

Definition parse_expression (expr : string) : option (string * string * string) :=
  parse_with OPERATORS expr.

Definition FLOAT_EQ_TOLERANCE : f64 := f64_dec 1 10.

Definition compare_f64 (lhs : f64) (op : string) (rhs : f64) : bool :=
  match op with
  | "==" => f64_lt (f64_abs (f64_sub lhs rhs)) FLOAT_EQ_TOLERANCE
  | "!=" => f64_ge (f64_abs (f64_sub lhs rhs)) FLOAT_EQ_TOLERANCE
  | "<" => f64_lt lhs rhs
  | ">" => f64_gt lhs rhs
  | "<=" => f64_le lhs rhs
  | ">=" => f64_ge lhs rhs
  | _ => false
  end.

Definition dquote : string := String (ascii_of_nat 34) "".
Definition squote : string := "'".

Section Eval.
Context {V : Type} `{JsonOps V}.

Definition resolve_operand (operand : string) (blackboard : Blackboard V) : exec (option V) :=
  let trimmed := trim operand in
  if starts_with "{" trimmed && ends_with "}" trimmed then
    resolve_reference blackboard trimmed
  else if (starts_with dquote trimmed && ends_with dquote trimmed)
          || (starts_with squote trimmed && ends_with squote trimmed) then
    let! inner := slice trimmed 1 (String.length trimmed - 1) in
    Ret (Some (v_string inner))
  else if String.eqb trimmed "true" then Ret (Some (v_bool true))
  else if String.eqb trimmed "false" then Ret (Some (v_bool false))
  else
    match parse_f64 trimmed with
    | Some n => Ret (Some (default v_null (v_from_f64 n)))
    | None => Ret None
    end.

Definition compare_values (lhs : V) (op : string) (rhs : V) : bool :=
  match as_f64 lhs, as_f64 rhs with
  | Some l, Some r => compare_f64 l op r
  | _, _ =>
      match as_bool lhs, as_bool rhs with
      | Some l, Some r =>
          match op with
          | "==" => Bool.eqb l r
          | "!=" => negb (Bool.eqb l r)
          | _ => false
          end
      | _, _ =>
          match as_str lhs, as_str rhs with
          | Some l, Some r =>
              match op with
              | "==" => String.eqb l r
              | "!=" => negb (String.eqb l r)
              | "<" => String.ltb l r
              | ">" => String.ltb r l
              | "<=" => String.leb l r
              | ">=" => String.leb r l
              | _ => false
              end
          | _, _ => false
          end
      end
  end.

Definition evaluate_condition (expr : string) (blackboard : Blackboard V) : exec ConditionResult :=
  let trimmed := trim expr in
  match parse_expression trimmed with
  | None => Ret (Violated ("invalid expression: " +:+ trimmed))
  | Some (lhs_str, op, rhs_str) =>
      let! lhs_val := resolve_operand lhs_str blackboard in
      match lhs_val with
      | None => Ret (Violated ("could not resolve lhs: " +:+ lhs_str))
      | Some lhs_val =>
          let! rhs_val := resolve_operand rhs_str blackboard in
          match rhs_val with
          | None => Ret (Violated ("could not resolve rhs: " +:+ rhs_str))
          | Some rhs_val =>
              if compare_values lhs_val op rhs_val then Ret Satisfied
              else Ret (Violated (lhs_str +:+ " " +:+ op +:+ " " +:+ rhs_str
                                    +:+ " evaluated to false"))
          end
      end
  end.

(** ** The condition checker *)

Record ConditionChecker : Type := {
  pre : list ConditionSpec;
  hold : list ConditionSpec;
  post : list ConditionSpec;
}.

Inductive CheckResult : Type :=
| AllSatisfied
| CheckViolated (condition reason : string).

Fixpoint check_conditions (conditions : list ConditionSpec) (bb : Blackboard V)
    : exec CheckResult :=
  match conditions with
  | [] => Ret AllSatisfied
  | cond :: conditions =>
      let! r := evaluate_condition (expression cond) bb in
      match r with
      | Violated reason => Ret (CheckViolated (expression cond) reason)
      | Satisfied => check_conditions conditions bb
      end
  end.

Definition check_pre (self : ConditionChecker) (bb : Blackboard V) : exec CheckResult :=
  check_conditions (pre self) bb.
Definition check_hold (self : ConditionChecker) (bb : Blackboard V) : exec CheckResult :=
  check_conditions (hold self) bb.
Definition check_post (self : ConditionChecker) (bb : Blackboard V) : exec CheckResult :=
  check_conditions (post self) bb.
End Eval.

(** ** Slices that cannot panic *)

Lemma slice_total s a b :
  (a <= b)%nat -> (b <= String.length s)%nat -> char_boundary s a = true -> char_boundary s b = true ->
  exists r, slice s a b = Ret r.
Proof. intros. eexists. by apply slice_ret. Qed.

Lemma find_boundary c s n : is_ascii c = true -> find (String c "") s = Some n ->
  char_boundary s n = true /\ char_boundary s (n + 1) = true.
Proof.
  intros Hc (a & b & -> & <-)%find_spec. rewrite Nat.add_1_r.
  by split; [apply boundary_before|apply boundary_after].
Qed.

Lemma ends_boundary c s : is_ascii c = true -> ends_with (String c "") s = true ->
  char_boundary s (String.length s - 1) = true.
Proof. intros Hc [r ->]%ends_with_spec. by apply boundary_last. Qed.

Lemma starts_boundary c s : is_ascii c = true -> starts_with (String c "") s = true ->
  char_boundary s 1 = true.
Proof. intros Hc [r ->]%starts_with_spec. by apply boundary_first. Qed.

Lemma find_length p s n : find p s = Some n -> (n + String.length p <= String.length s)%nat.
Proof. intros (a & b & -> & <-)%find_spec. rewrite !str_app_length. lia. Qed.

Section Totality.
Context {V : Type} `{JsonOps V}.

(** A segment [name[i]]: the bracket found comes before the closing one. *)
Lemma parse_segment_total part : exists r, parse_segment part = Ret r.
Proof.
  unfold parse_segment. destruct (find "[" part) as [n|] eqn:Hf; [|eauto].
  pose proof (find_length _ _ _ Hf) as Hn. simpl in Hn.
  destruct (find_boundary "["%char part n eq_refl Hf) as [Hb1 Hb2].
  destruct (slice_total part 0 n) as [name ->]; [lia|lia|done|done|]. simpl.
  destruct (ends_with "]" part) eqn:He; simpl; [|eauto].
  assert (n + 1 <= String.length part - 1)%nat as Hlt.
  { apply find_spec in Hf as (a & b & -> & <-).
    apply ends_with_spec in He as [r Hr].
    rewrite !str_app_length in *. simpl in *.
    destruct b as [|c b]; simpl; [|lia]. exfalso.
    assert (ends_with "]" (a +:+ "[") = true) as He.
    { apply ends_with_spec. exists r. rewrite <- Hr. reflexivity. }
    by rewrite ends_with_char in He. }
  destruct (slice_total part (n + 1) (String.length part - 1)) as [i ->];
    [lia|lia|done|by apply (ends_boundary "]")|]. simpl.
  destruct (parse_usize i); eauto.
Qed.

Lemma parse_segments_total parts : exists r, parse_segments parts = Ret r.
Proof.
  induction parts as [|p parts [r IH]]; simpl; [eauto|].
  destruct (parse_segment_total p) as [seg ->]. simpl.
  destruct seg; [|eauto]. rewrite IH. simpl. eauto.
Qed.

Lemma starts_ends_length a b s :
  a <> b -> starts_with (String a "") s = true -> ends_with (String b "") s = true ->
  (2 <= String.length s)%nat.
Proof.
  intros Hne [r ->]%starts_with_spec He. destruct r as [|c r]; [|rewrite str_app_length; simpl; lia].
  change (ends_with (String b "") ("" +:+ String a "") = true) in He.
  rewrite ends_with_char in He. by destruct (Ascii.eqb_spec b a).
Qed.

Lemma resolve_reference_total (bb : Blackboard V) r : exists v, resolve_reference bb r = Ret v.
Proof.
  unfold resolve_reference. destruct (starts_with "{" (trim r)) eqn:Hs; simpl; [|eauto].
  destruct (ends_with "}" (trim r)) eqn:He; [|eauto].
  assert (2 <= String.length (trim r))%nat by by apply (starts_ends_length "{"%char "}"%char).
  destruct (slice_total (trim r) 1 (String.length (trim r) - 1)) as [p ->];
    [lia|lia|by apply (starts_boundary "{")|by apply (ends_boundary "}")|]. simpl.
  destruct (String.eqb p ""); [eauto|]. unfold parse_path_segments.
  destruct (parse_segments_total (split_on "." p)) as [[segs|] ->]; simpl; eauto.
Qed.

(** An operand that is a single quotation mark. *)
Definition lone_quote (s : string) : bool :=
  String.eqb (trim s) dquote || String.eqb (trim s) squote.

Lemma quoted_slice c s :
  is_ascii c = true -> starts_with (String c "") s = true -> ends_with (String c "") s = true ->
  s <> String c "" -> exists r, slice s 1 (String.length s - 1) = Ret r.
Proof.
  intros Hc Hs He Hne. pose proof (starts_boundary c s Hc Hs). pose proof (ends_boundary c s Hc He).
  apply starts_with_spec in Hs as [r ->]. destruct r as [|a r]; [done|].
  apply slice_total; [..|done|done]; rewrite str_app_length; simpl; lia.
Qed.

Lemma resolve_operand_panics s (bb : Blackboard V) :
  resolve_operand s bb = Panic <-> lone_quote s = true.
Proof.
  unfold lone_quote. split.
  - intros Hp. destruct (String.eqb_spec (trim s) dquote) as [|Hd]; [done|].
    destruct (String.eqb_spec (trim s) squote) as [|Hq]; [done|]. exfalso. revert Hp.
    unfold resolve_operand. destruct (_ && _).
    { destruct (resolve_reference_total bb (trim s)) as [v ->]. done. }
    destruct (_ || _) eqn:Hb.
    2: { destruct (String.eqb _ _); [done|]. destruct (String.eqb _ _); [done|]. by destruct (parse_f64 _). }
    assert (exists r, slice (trim s) 1 (String.length (trim s) - 1) = Ret r) as [r ->]; [|done].
    apply orb_true_iff in Hb as [[H1 H2]%andb_true_iff|[H1 H2]%andb_true_iff].
    + by apply (quoted_slice (ascii_of_nat 34)).
    + by apply (quoted_slice "'"%char).
  - intros Hq. unfold resolve_operand.
    destruct (String.eqb_spec (trim s) dquote) as [->|_]; [done|].
    destruct (String.eqb_spec (trim s) squote) as [->|_]; [done|]. done.
Qed.
End Totality.

(** ** Parsing *)

(** The characters an operand may have so that no operator is found inside it. *)
Definition operand_char (a : ascii) : bool :=
  printable a && negb (Ascii.eqb a "<") && negb (Ascii.eqb a ">") && negb (Ascii.eqb a "=")
  && negb (Ascii.eqb a "!").

(** The characters of a key that is looked up as it stands. *)
Definition key_char (a : ascii) : bool :=
  operand_char a && negb (Ascii.eqb a ".") && negb (Ascii.eqb a "[").

Lemma operand_printable s : all_chars operand_char s = true -> all_chars printable s = true.
Proof. apply all_chars_impl. unfold operand_char. intros a ?. by bool_prop. Qed.

Lemma find_operand c p s t :
  In c ["<"; ">"; "="; "!"]%char -> all_chars operand_char s = true ->
  find (String c p) (s +:+ t) = Nat.add (String.length s) <$> find (String c p) t.
Proof.
  intros Hc Hs. apply find_skip. revert Hs. apply all_chars_impl.
  unfold operand_char. intros a ?. bool_prop.
  by repeat (destruct Hc as [<-|Hc]; [by rewrite negb_true_iff|]).
Qed.

Lemma find_operand_end c p s :
  In c ["<"; ">"; "="; "!"]%char -> all_chars operand_char s = true -> find (String c p) s = None.
Proof. intros Hc Hs. rewrite <- (str_app_nil_r s). by rewrite find_operand. Qed.

Lemma parse_parts l op r :
  l <> "" -> r <> "" -> all_chars operand_char l = true -> all_chars operand_char r = true ->
  let expr := l +:+ (" " +:+ (op +:+ (" " +:+ r))) in
  let pos := (String.length l + 1)%nat in
  trim (take_front pos expr) = l /\ trim (drop_front (pos + String.length op) expr) = r /\
  String.eqb l "" = false /\ String.eqb r "" = false.
Proof.
  intros Hl Hr Hlc%operand_printable Hrc%operand_printable. cbv zeta. split_and!.
  - rewrite <- str_app_assoc. replace (String.length l + 1)%nat with (String.length (l +:+ " "))
      by (rewrite str_app_length; done).
    rewrite take_front_app. by apply trim_space_after.
  - rewrite <- (str_app_assoc l), <- (str_app_assoc (l +:+ " ")).
    replace (String.length l + 1 + String.length op)%nat with (String.length ((l +:+ " ") +:+ op))
      by (rewrite !str_app_length; simpl; lia).
    rewrite drop_front_app. by apply trim_space_before.
  - by apply String.eqb_neq.
  - by apply String.eqb_neq.
Qed.

(** What follows the left operand holds the operators of [op] and no others. *)
Lemma find_tail p op r :
  In p OPERATORS -> In op OPERATORS -> all_chars operand_char r = true ->
  find p (" " +:+ (op +:+ (" " +:+ r))) = find p (" " +:+ (op +:+ " ")).
Proof.
  intros Hp Hop Hr.
  assert (forall c q, In c ["<"; ">"; "="; "!"]%char -> find (String c q) r = None) as Hnone
    by (intros; by apply find_operand_end).
  simpl in Hp, Hop.
  destruct Hp as [<-|[<-|[<-|[<-|[<-|[<-|[]]]]]]]; destruct Hop as [<-|[<-|[<-|[<-|[<-|[<-|[]]]]]]];
    cbv [String.append];
    repeat (rewrite !find_cons;
            repeat match goal with
            | |- context [starts_with ?p ?s] =>
                let b := eval cbv in (starts_with p s) in change (starts_with p s) with b
            end; cbv iota);
    rewrite ?Hnone by (simpl; tauto); reflexivity.
Qed.

Lemma parse_expression_spaced l op r :
  In op OPERATORS -> l <> "" -> r <> "" ->
  all_chars operand_char l = true -> all_chars operand_char r = true ->
  parse_expression (l +:+ (" " +:+ (op +:+ (" " +:+ r)))) = Some (l, op, r).
Proof.
  intros Hop Hl Hr Hlc Hrc. destruct (parse_parts l op r Hl Hr Hlc Hrc) as (E1 & E2 & E3 & E4).
  set (expr := l +:+ _) in *.
  assert (forall p, In p OPERATORS ->
            find p expr = Nat.add (String.length l) <$> find p (" " +:+ (op +:+ " "))) as Hf.
  { intros p Hp. rewrite <- (find_tail p op r) by done. unfold expr. simpl in Hp.
    destruct Hp as [<-|[<-|[<-|[<-|[<-|[<-|[]]]]]]]; apply find_operand; simpl; tauto. }
  unfold parse_expression, OPERATORS. cbn [parse_with].
  rewrite !Hf by (simpl; tauto). clearbody expr. clear Hf Hlc Hrc.
  simpl in Hop. destruct Hop as [<-|[<-|[<-|[<-|[<-|[<-|[]]]]]]];
    repeat match goal with
    | |- context [find ?p ?s] => let o := eval cbv in (find p s) in change (find p s) with o
    end; cbn [fmap option_fmap option_map];
    rewrite E1, E2, E3, E4; reflexivity.
Qed.

(** ** References to a plain key *)

Lemma split_on_plain c s :
  all_chars (fun a => negb (Ascii.eqb a c)) s = true -> split_on c s = [s].
Proof.
  induction s as [|a s IH]; simpl; [done|]. intros H. bool_prop.
  destruct (Ascii.eqb a c); [done|]. by rewrite IH.
Qed.

Section Meaning.
Context {V : Type} `{JL : JsonLaws V}.

Lemma resolve_plain_key (bb : Blackboard V) key :
  key <> "" -> all_chars key_char key = true ->
  resolve_operand ("{" +:+ (key +:+ "}")) bb = Ret (get bb key).
Proof.
  intros Hne Hk. unfold resolve_operand.
  assert (trim ("{" +:+ (key +:+ "}")) = "{" +:+ (key +:+ "}")) as Ht.
  { apply trim_printable. rewrite !all_chars_app. simpl. rewrite andb_true_r.
    revert Hk. apply all_chars_impl. unfold key_char, operand_char. intros a ?. by bool_prop. }
  rewrite Ht, starts_with_app. rewrite <- (str_app_assoc "{" key "}"), ends_with_app.
  cbn [andb]. unfold resolve_reference. rewrite str_app_assoc, Ht, starts_with_app.
  rewrite <- (str_app_assoc "{" key "}"), ends_with_app, str_app_assoc. cbn [andb].
  replace (String.length ("{" +:+ (key +:+ "}")) - 1)%nat
    with (1 + String.length key)%nat by (rewrite !str_app_length; simpl; lia).
  pose proof (slice_middle "" "{" key "}" "" eq_refl eq_refl) as Hs.
  change ("" +:+ "{") with "{" in Hs. change (String.length "{") with 1%nat in Hs.
  rewrite Hs. cbn [exec_bind].
  rewrite (proj2 (String.eqb_neq _ _) Hne). unfold parse_path_segments.
  rewrite split_on_plain.
  2: { revert Hk. apply all_chars_impl. unfold key_char. intros a ?. by bool_prop; rewrite negb_true_iff. }
  simpl. unfold parse_segment. rewrite (find_none "["%char "").
  2: { revert Hk. apply all_chars_impl. unfold key_char. intros a ?. by bool_prop; rewrite negb_true_iff. }
  simpl. by destruct (get bb key).
Qed.

Lemma resolve_number (bb : Blackboard V) lit y :
  all_chars printable lit = true -> parse_f64 lit = Some y -> is_finite y = true ->
  exists v, resolve_operand lit bb = Ret (Some v) /\ as_f64 v = Some y.
Proof.
  intros Hl Hp Hf. unfold resolve_operand. rewrite trim_printable by done.
  destruct (starts_with "{" lit) eqn:H1.
  { by apply starts_with_spec in H1 as [r ->]. }
  destruct (starts_with dquote lit) eqn:H2.
  { by apply starts_with_spec in H2 as [r ->]. }
  destruct (starts_with squote lit) eqn:H3.
  { by apply starts_with_spec in H3 as [r ->]. }
  simpl. destruct (String.eqb_spec lit "true") as [->|]; [done|].
  destruct (String.eqb_spec lit "false") as [->|]; [done|].
  rewrite Hp. destruct (from_f64_finite y Hf) as (v & -> & Hv). simpl. eauto.
Qed.
End Meaning.

Lemma tolerance_cases d : is_nan d = false ->
  f64_ge d FLOAT_EQ_TOLERANCE = negb (f64_lt d FLOAT_EQ_TOLERANCE).
Proof.
  intros Hd. assert (is_nan FLOAT_EQ_TOLERANCE = false) as Ht by reflexivity.
  destruct (f64_lt d FLOAT_EQ_TOLERANCE) eqn:H; simpl; f64_order.
Qed.

Lemma le_not_lt a b : is_finite a = true -> is_finite b = true -> f64_le a b = negb (f64_lt b a).
Proof.
  intros Ha%is_finite_not_nan Hb%is_finite_not_nan.
  destruct (f64_lt b a) eqn:H; simpl; f64_order.
Qed.

Lemma leb_not_ltb a b : String.leb a b = negb (String.ltb b a).
Proof.
  unfold String.leb, String.ltb. rewrite (String.compare_antisym b a).
  by destruct (String.compare a b).
Qed.

(** ** Theorems *)

(** evaluation of a condition panics exactly when an operand it reaches is a lone
    quotation mark; every other text and every blackboard is handled, whatever the
    references, indices and literals in it. *)
Theorem evaluate_condition_panics_iff {V} `{JsonOps V} (expr : string) (bb : Blackboard V) :
  evaluate_condition expr bb = Panic <->
  exists lhs op rhs, parse_expression (trim expr) = Some (lhs, op, rhs) /\
    (lone_quote lhs = true \/
     (exists v, resolve_operand lhs bb = Ret (Some v)) /\ lone_quote rhs = true).
Proof.
  unfold evaluate_condition. destruct (parse_expression (trim expr)) as [[[l op] r]|].
  2: { split; [done|]. by intros (? & ? & ? & ? & _). }
  split.
  - intros Hp. exists l, op, r. split; [done|].
    destruct (resolve_operand l bb) as [[v|]|] eqn:Hl; simpl in Hp; [|done|].
    + right. split; [eauto|]. apply (resolve_operand_panics r bb).
      destruct (resolve_operand r bb) as [[w|]|]; simpl in Hp; [|done|done].
      by destruct (compare_values v op w).
    + left. by apply (resolve_operand_panics l bb).
  - intros (l' & op' & r' & [= <- <- <-] & [Hl|[[v Hv] Hr]]).
    + apply (resolve_operand_panics l bb) in Hl. by rewrite Hl.
    + apply (resolve_operand_panics r bb) in Hr. by rewrite Hv, Hr.
Qed.

(** the parser reads back what the documented form writes.  For every operator and
    all operands made of printable characters other than the space and the operators'
    characters, [lhs op rhs] is parsed into exactly those three parts. *)
Theorem parse_expression_roundtrip (l op r : string)
    (Hop : In op OPERATORS) (Hl : l <> "") (Hr : r <> "")
    (Hlc : all_chars operand_char l = true) (Hrc : all_chars operand_char r = true) :
  parse_expression (l +:+ (" " +:+ (op +:+ (" " +:+ r)))) = Some (l, op, r).
Proof. by apply parse_expression_spaced. Qed.

Lemma parse_expression_roundtrip_witness :
  parse_expression "{arm.joints[2]} >= -1.5e3" = Some ("{arm.joints[2]}", ">=", "-1.5e3").
Proof.
  apply (parse_expression_roundtrip "{arm.joints[2]}" ">=" "-1.5e3");
    [simpl; tauto|discriminate|discriminate|reflexivity|reflexivity].
Defined.

(** the meaning of a numeric condition.  With a number [x] on the blackboard under a
    plain key, the condition [{key} op literal] is satisfied exactly when [x] compares
    so with the literal's value, and otherwise violated with the failed comparison as
    the reason. *)
Theorem numeric_condition_meaning {V} `{JsonLaws V} (bb : Blackboard V)
    (key op lit : string) (v : V) (x y : f64)
    (Hkey : key <> "") (Hkc : all_chars key_char key = true) (Hop : In op OPERATORS)
    (Hlit : all_chars operand_char lit = true)
    (Hget : get bb key = Some v) (Hx : as_f64 v = Some x)
    (Hy : parse_f64 lit = Some y) (Hfin : is_finite y = true) :
  let lhs := "{" +:+ (key +:+ "}") in
  evaluate_condition (lhs +:+ (" " +:+ (op +:+ (" " +:+ lit)))) bb =
  Ret (if compare_f64 x op y then Satisfied
       else Violated (lhs +:+ " " +:+ op +:+ " " +:+ lit +:+ " evaluated to false")).
Proof.
  cbv zeta. unfold evaluate_condition.
  assert (all_chars operand_char ("{" +:+ (key +:+ "}")) = true) as Hlc.
  { rewrite !all_chars_app. simpl. rewrite andb_true_r. revert Hkc. apply all_chars_impl.
    unfold key_char. intros a ?. by bool_prop. }
  assert (lit <> "") as Hne by (by intros ->).
  assert (trim (("{" +:+ (key +:+ "}")) +:+ (" " +:+ (op +:+ (" " +:+ lit))))
            = ("{" +:+ (key +:+ "}")) +:+ (" " +:+ (op +:+ (" " +:+ lit)))) as ->.
  { change (("{" +:+ (key +:+ "}")) +:+ (" " +:+ (op +:+ (" " +:+ lit))))
      with (String "{" ((key +:+ "}") +:+ (" " +:+ (op +:+ (" " +:+ lit))))).
    unfold trim. rewrite trim_start_printable by done.
    apply trim_end_id with (t := lit) (s := "{" +:+ ((key +:+ "}") +:+ (" " +:+ (op +:+ " ")))).
    - rewrite !str_app_assoc. done.
    - by apply operand_printable.
    - done. }
  rewrite parse_expression_spaced; [|done|by destruct key|done|done|done].
  rewrite resolve_plain_key by done. rewrite Hget. simpl.
  destruct (resolve_number bb lit y (operand_printable _ Hlit) Hy Hfin) as (w & -> & Hw). simpl.
  unfold compare_values. rewrite Hx, Hw. by destruct (compare_f64 x op y).
Qed.

Definition demo_bb : Blackboard json :=
  set (child (set new_blackboard "speed" (JUint 3))) "mode" (JString "auto").

Lemma numeric_condition_meaning_witness :
  evaluate_condition "{speed} <= 3.5" demo_bb = Ret Satisfied /\
  evaluate_condition "{speed} > 1e1" demo_bb = Ret (Violated "{speed} > 1e1 evaluated to false").
Proof.
  split.
  - rewrite (numeric_condition_meaning demo_bb "speed" "<=" "3.5" (JUint 3) (f64_of_Z 3) (f64_dec 35 1));
      [vm_compute; reflexivity|discriminate|reflexivity|simpl; tauto|reflexivity..].
  - rewrite (numeric_condition_meaning demo_bb "speed" ">" "1e1" (JUint 3) (f64_of_Z 3) (f64_of_Z 10));
      [vm_compute; reflexivity|discriminate|reflexivity|simpl; tauto|reflexivity..].
Defined.

(** The kinds of values the comparison relates: numbers and strings are ordered,
    booleans only compared for equality. *)
Inductive comparison_kind : Type := Ordered | EqualityOnly | Unrelated.

Definition kind_of {V} `{JsonOps V} (l r : V) : comparison_kind :=
  if bool_decide (is_Some (as_f64 l) /\ is_Some (as_f64 r)) then Ordered
  else if bool_decide (is_Some (as_bool l) /\ is_Some (as_bool r)) then EqualityOnly
  else if bool_decide (is_Some (as_str l) /\ is_Some (as_str r)) then Ordered
  else Unrelated.

(** the six operators are coherent.  On two related values [!=] is the negation of
    [==]; on two ordered ones [>=] is the negation of [<] and [<=] of [>]; on booleans
    the orderings are all false; on unrelated values every operator is false, [!=]
    included. *)
Theorem compare_values_coherent {V} `{JsonLaws V} (l r : V) :
  match kind_of l r with
  | Ordered =>
      compare_values l "!=" r = negb (compare_values l "==" r) /\
      compare_values l ">=" r = negb (compare_values l "<" r) /\
      compare_values l "<=" r = negb (compare_values l ">" r)
  | EqualityOnly =>
      compare_values l "!=" r = negb (compare_values l "==" r) /\
      forall op, In op ["<"; ">"; "<="; ">="] -> compare_values l op r = false
  | Unrelated => forall op, compare_values l op r = false
  end.
Proof.
  unfold kind_of, compare_values.
  destruct (as_f64 l) as [x|] eqn:Hx, (as_f64 r) as [y|] eqn:Hy;
    [rewrite bool_decide_eq_true_2 by eauto|rewrite bool_decide_eq_false_2 by naive_solver..].
  { apply as_f64_finite in Hx, Hy. cbn [compare_f64].
    split_and!; [apply tolerance_cases; rewrite is_nan_abs; by apply f64_sub_not_nan
                |by apply le_not_lt|by apply le_not_lt]. }
  all: destruct (as_bool l) as [b|], (as_bool r) as [c|];
    [rewrite bool_decide_eq_true_2 by eauto|rewrite bool_decide_eq_false_2 by naive_solver..].
  all: try (split; [done|]; intros op Hop; simpl in Hop;
            by repeat (destruct Hop as [<-|Hop]; [done|])).
  all: destruct (as_str l) as [s|], (as_str r) as [t|];
    [rewrite bool_decide_eq_true_2 by eauto|rewrite bool_decide_eq_false_2 by naive_solver..];
    try done; split_and!; try done; apply leb_not_ltb.
Qed.

Lemma compare_values_coherent_witness :
  compare_values (JUint 3) "!=" (JUint 4) = negb (compare_values (JUint 3) "==" (JUint 4)) /\
  compare_values (JString "a") ">=" (JString "b") = negb (compare_values (JString "a") "<" (JString "b")) /\
  compare_values (JBool true) "!=" (JUint 1) = false.
Proof.
  pose proof (compare_values_coherent (JUint 3) (JUint 4)) as Ha.
  pose proof (compare_values_coherent (JString "a") (JString "b")) as Hb.
  pose proof (compare_values_coherent (JBool true) (JUint 1)) as Hc.
  split; [apply Ha|]. split; [apply Hb|apply Hc].
Defined.

(** A quotation mark alone as an operand makes the tick panic. *)
Example lone_quote_panics : evaluate_condition "{mode} == '" demo_bb = Panic.
Proof. vm_compute. reflexivity. Qed.

(** An operator inside a quoted literal is taken for the comparison: the first operand
    of this condition is read up to the middle of the literal. *)
Example operator_in_literal :
  evaluate_condition ("{mode} == " +:+ dquote +:+ "x<=y" +:+ dquote)
    (set demo_bb "mode" (JString "x<=y"))
  = Ret (Violated ("could not resolve lhs: {mode} == " +:+ dquote +:+ "x")).
Proof. vm_compute. reflexivity. Qed.
