(* ===== verification/BtNodes.v ===== *)
(** * Behaviour-tree nodes

    [crates/roz-agent/src/bt/]: [node.rs] (the [BtNode] trait), [action.rs],
    [condition.rs], [sequence.rs], [fallback.rs], [parallel.rs], [decorator.rs],
    [subtree.rs].

    The trait is the class [BtNode]; each node struct is a record over the type of its
    children, with an instance for any children that are nodes.  A node's tick and halt
    are in [exec]: an action, an overflow or an index may panic.

    [BtLaws] is what the nodes promise to their parents and to the runner: from a
    well-formed state a tick and a halt return, and a calm node that completes or is
    halted is left idle, i.e. no action under it is still marked running.  Every node
    but [ParallelNode] keeps the second promise; see [parallel_leaves_running]. *)

From S2P Require Import Prelude Float64 RustStr Json Blackboard BtEval.


Inductive BtStatus : Type := Success | Failure | Running.

#[export] Instance BtStatus_eq_dec : EqDecision BtStatus.
Proof. solve_decision. Defined.

Section Interfaces.
Context {V : Type} `{JsonOps V}.

Class BtNode (A : Type) := {
  tick : A -> Blackboard V -> exec (A * Blackboard V * BtStatus);
  halt : A -> Blackboard V -> exec (A * Blackboard V);
  name : A -> string;
}.

Class ActionExecutor (E : Type) := {
  on_start : E -> Blackboard V -> exec (E * Blackboard V * BtStatus);
  on_running : E -> Blackboard V -> exec (E * Blackboard V * BtStatus);
  on_halted : E -> Blackboard V -> exec (E * Blackboard V);
  action_type : E -> string;
}.

(** An executor that does not panic. *)
Class ExecutorLaws (E : Type) `{ActionExecutor E} := {
  executor_wf : E -> Prop;
  on_start_ret e bb : executor_wf e ->
    exists e' bb' st, on_start e bb = Ret (e', bb', st) /\ executor_wf e';
  on_running_ret e bb : executor_wf e ->
    exists e' bb' st, on_running e bb = Ret (e', bb', st) /\ executor_wf e';
  on_halted_ret e bb : executor_wf e ->
    exists e' bb', on_halted e bb = Ret (e', bb') /\ executor_wf e';
}.

Class BtLaws (A : Type) `{BtNode A} := {
  wf : A -> Prop;
  calm : A -> Prop;
  idle : A -> Prop;
  tick_law a bb : wf a ->
    exists a' bb' st, tick a bb = Ret (a', bb', st) /\ wf a' /\
      (calm a -> calm a' /\ (st <> Running -> idle a'));
  halt_law a bb : wf a ->
    exists a' bb', halt a bb = Ret (a', bb') /\ wf a' /\ (calm a -> calm a' /\ idle a');
}.
End Interfaces.

(** ** The node structs *)

Record ActionNode (E : Type) : Type := {
  executor : E;
  is_running : bool;
  an_node_name : string;
}.
Record ConditionNode : Type := { cn_node_name : string; cn_expression : string }.
Record SequenceNode (C : Type) : Type := {
  seq_node_name : string;
  seq_children : list C;
  seq_running_index : option nat;
}.
Record FallbackNode (C : Type) : Type := {
  fb_node_name : string;
  fb_children : list C;
  fb_running_index : option nat;
}.
Record ParallelNode (C : Type) : Type := {
  par_node_name : string;
  par_children : list C;
  success_threshold : Z;
}.
Record RetryNode (C : Type) : Type := {
  retry_node_name : string;
  retry_child : C;
  max_attempts : Z;
  attempts : Z;
}.
Record TimeoutNode (C : Type) : Type := {
  to_node_name : string;
  to_child : C;
  max_ticks : Z;
  to_ticks : Z;
}.
Record InvertNode (C : Type) : Type := { inv_node_name : string; inv_child : C }.
Record RepeatNode (C : Type) : Type := {
  rep_node_name : string;
  rep_child : C;
  count : Z;
  current : Z;
}.
Record WhileNode (C : Type) : Type := {
  wh_node_name : string;
  wh_child : C;
  wh_max_iterations : Z;
}.
Record RepeatUntilFailureNode (C : Type) : Type := {
  ruf_node_name : string;
  ruf_child : C;
  ruf_max_iterations : Z;
}.
Record SubTreeNode (V C : Type) : Type := {
  sub_node_name : string;
  sub_child : C;
  input_mappings : list (string * string);
  output_mappings : list (string * string);
  child_bb : Blackboard V;
}.

Arguments executor {E} _.
Arguments is_running {E} _.
Arguments an_node_name {E} _.
Arguments seq_node_name {C} _.
Arguments seq_children {C} _.
Arguments seq_running_index {C} _.
Arguments fb_node_name {C} _.
Arguments fb_children {C} _.
Arguments fb_running_index {C} _.
Arguments par_node_name {C} _.
Arguments par_children {C} _.
Arguments success_threshold {C} _.
Arguments retry_node_name {C} _.
Arguments retry_child {C} _.
Arguments max_attempts {C} _.
Arguments attempts {C} _.
Arguments to_node_name {C} _.
Arguments to_child {C} _.
Arguments max_ticks {C} _.
Arguments to_ticks {C} _.
Arguments inv_node_name {C} _.
Arguments inv_child {C} _.
Arguments rep_node_name {C} _.
Arguments rep_child {C} _.
Arguments count {C} _.
Arguments current {C} _.
Arguments wh_node_name {C} _.
Arguments wh_child {C} _.
Arguments wh_max_iterations {C} _.
Arguments ruf_node_name {C} _.
Arguments ruf_child {C} _.
Arguments ruf_max_iterations {C} _.
Arguments sub_node_name {V C} _.
Arguments sub_child {V C} _.
Arguments input_mappings {V C} _.
Arguments output_mappings {V C} _.
Arguments child_bb {V C} _.

(** ** Constructors ([new] of each struct) *)

Definition new_action {E} (name : string) (executor : E) : ActionNode E :=
  {| executor := executor; is_running := false; an_node_name := name |}.
Definition new_condition (name expression : string) : ConditionNode :=
  {| cn_node_name := name; cn_expression := expression |}.
Definition new_sequence {C} (name : string) (children : list C) : SequenceNode C :=
  {| seq_node_name := name; seq_children := children; seq_running_index := None |}.
Definition new_fallback {C} (name : string) (children : list C) : FallbackNode C :=
  {| fb_node_name := name; fb_children := children; fb_running_index := None |}.
Definition new_parallel {C} (name : string) (children : list C) (threshold : Z) : ParallelNode C :=
  {| par_node_name := name; par_children := children; success_threshold := threshold |}.
Definition new_retry {C} (name : string) (child : C) (max_attempts : Z) : RetryNode C :=
  {| retry_node_name := name; retry_child := child; max_attempts := max_attempts; attempts := 0 |}.
Definition new_timeout {C} (name : string) (child : C) (max_ticks : Z) : TimeoutNode C :=
  {| to_node_name := name; to_child := child; max_ticks := max_ticks; to_ticks := 0 |}.
Definition new_invert {C} (name : string) (child : C) : InvertNode C :=
  {| inv_node_name := name; inv_child := child |}.
Definition new_repeat {C} (name : string) (child : C) (count : Z) : RepeatNode C :=
  {| rep_node_name := name; rep_child := child; count := count; current := 0 |}.
Definition new_while {C} (name : string) (child : C) : WhileNode C :=
  {| wh_node_name := name; wh_child := child; wh_max_iterations := 1000 |}.
Definition new_repeat_until_failure {C} (name : string) (child : C) : RepeatUntilFailureNode C :=
  {| ruf_node_name := name; ruf_child := child; ruf_max_iterations := 1000 |}.
Definition while_with_max_iterations {C} (self : WhileNode C) (max : Z) : WhileNode C :=
  {| wh_node_name := wh_node_name self; wh_child := wh_child self; wh_max_iterations := max |}.
Definition ruf_with_max_iterations {C} (self : RepeatUntilFailureNode C) (max : Z)
    : RepeatUntilFailureNode C :=
  {| ruf_node_name := ruf_node_name self; ruf_child := ruf_child self; ruf_max_iterations := max |}.

(** ** The nodes' [tick] and [halt] *)

Section Nodes.
Context {V : Type} `{JsonOps V}.

(** action.rs *)
#[export] Instance action_node {E} `{ActionExecutor V E} : BtNode (V := V) (ActionNode E) := {
  tick self bb :=
    let! (e, bb, status) := (if is_running self then on_running (executor self) bb
                             else on_start (executor self) bb) in
    Ret ({| executor := e; is_running := bool_decide (status = Running);
            an_node_name := an_node_name self |}, bb, status);
  halt self bb :=
    if is_running self then
      let! (e, bb) := on_halted (executor self) bb in
      Ret ({| executor := e; is_running := false; an_node_name := an_node_name self |}, bb)
    else Ret (self, bb);
  name := an_node_name;
}.

(** condition.rs *)
#[export] Instance condition_node : BtNode (V := V) ConditionNode := {
  tick self bb :=
    let! r := evaluate_condition (cn_expression self) bb in
    Ret (self, bb, match r with Satisfied => Success | Violated _ => Failure end);
  halt self bb := Ret (self, bb);
  name := cn_node_name;
}.

Context {C : Type} `{BtNode V C}.

(** The loop [for i in start..children.len()] of sequence.rs ([pass] is [Success]) and
    of fallback.rs ([pass] is [Failure]), on the children from index [i] on: the
    children after the loop, the new running index and the status. *)
Fixpoint children_loop (pass : BtStatus) (i : nat) (cs : list C) (bb : Blackboard V)
    : exec (list C * Blackboard V * option nat * BtStatus) :=
  match cs with
  | [] => Ret ([], bb, None, pass)
  | c :: cs =>
      let! (c', bb', status) := tick c bb in
      if decide (status = pass) then
        let! (cs', bb'', ri, st) := children_loop pass (S i) cs bb' in
        Ret (c' :: cs', bb'', ri, st)
      else if decide (status = Running) then Ret (c' :: cs, bb', Some i, Running)
      else Ret (c' :: cs, bb', None, status)
  end.

(** [if let Some(idx) = self.running_index { self.children[idx].halt(bb) }] *)
Definition halt_running (ri : option nat) (cs : list C) (bb : Blackboard V)
    : exec (list C * Blackboard V) :=
  match ri with
  | None => Ret (cs, bb)
  | Some idx =>
      match cs !! idx with
      | None => Panic
      | Some c => let! (c', bb') := halt c bb in Ret (<[idx := c']> cs, bb')
      end
  end.

(** sequence.rs *)
#[export] Instance sequence_node : BtNode (V := V) (SequenceNode C) := {
  tick self bb :=
    let start := default 0%nat (seq_running_index self) in
    let! (cs, bb', ri, st) := children_loop Success start (drop start (seq_children self)) bb in
    Ret ({| seq_node_name := seq_node_name self;
            seq_children := take start (seq_children self) ++ cs;
            seq_running_index := ri |}, bb', st);
  halt self bb :=
    let! (cs, bb') := halt_running (seq_running_index self) (seq_children self) bb in
    Ret ({| seq_node_name := seq_node_name self; seq_children := cs;
            seq_running_index := None |}, bb');
  name := seq_node_name;
}.

(** fallback.rs *)
#[export] Instance fallback_node : BtNode (V := V) (FallbackNode C) := {
  tick self bb :=
    let start := default 0%nat (fb_running_index self) in
    let! (cs, bb', ri, st) := children_loop Failure start (drop start (fb_children self)) bb in
    Ret ({| fb_node_name := fb_node_name self;
            fb_children := take start (fb_children self) ++ cs;
            fb_running_index := ri |}, bb', st);
  halt self bb :=
    let! (cs, bb') := halt_running (fb_running_index self) (fb_children self) bb in
    Ret ({| fb_node_name := fb_node_name self; fb_children := cs;
            fb_running_index := None |}, bb');
  name := fb_node_name;
}.

(** parallel.rs: the tick loop with its counters, and the halt loop. *)
Fixpoint parallel_loop (success_count failure_count : Z) (cs : list C) (bb : Blackboard V)
    : exec (list C * Blackboard V * Z * Z) :=
  match cs with
  | [] => Ret ([], bb, success_count, failure_count)
  | c :: cs =>
      let! (c', bb', status) := tick c bb in
      let! (s, f) := match status with
                     | Success => let! s := u32_add success_count 1 in Ret (s, failure_count)
                     | Failure => let! f := u32_add failure_count 1 in Ret (success_count, f)
                     | Running => Ret (success_count, failure_count)
                     end in
      let! (cs', bb'', s', f') := parallel_loop s f cs bb' in
      Ret (c' :: cs', bb'', s', f')
  end.

Fixpoint halt_all (cs : list C) (bb : Blackboard V) : exec (list C * Blackboard V) :=
  match cs with
  | [] => Ret ([], bb)
  | c :: cs =>
      let! (c', bb') := halt c bb in
      let! (cs', bb'') := halt_all cs bb' in
      Ret (c' :: cs', bb'')
  end.

Definition parallel_status (success_count failure_count total threshold : Z) : BtStatus :=
  if threshold <=? success_count then Success
  else if saturating_sub total failure_count <? threshold then Failure
  else Running.

#[export] Instance parallel_node : BtNode (V := V) (ParallelNode C) := {
  tick self bb :=
    let! (cs, bb', success_count, failure_count) := parallel_loop 0 0 (par_children self) bb in
    let total := Z.of_nat (length (par_children self)) mod 2 ^ 32 in
    Ret ({| par_node_name := par_node_name self; par_children := cs;
            success_threshold := success_threshold self |}, bb',
         parallel_status success_count failure_count total (success_threshold self));
  halt self bb :=
    let! (cs, bb') := halt_all (par_children self) bb in
    Ret ({| par_node_name := par_node_name self; par_children := cs;
            success_threshold := success_threshold self |}, bb');
  name := par_node_name;
}.
End Nodes.

(** decorator.rs and subtree.rs *)
Section Decorators.
Context {V : Type} `{JsonOps V} {C : Type} `{BtNode V C}.

Definition retry_with (self : RetryNode C) (c : C) (n : Z) : RetryNode C :=
  {| retry_node_name := retry_node_name self; retry_child := c;
     max_attempts := max_attempts self; attempts := n |}.

#[export] Instance retry_node : BtNode (V := V) (RetryNode C) := {
  tick self bb :=
    let! (c, bb, status) := tick (retry_child self) bb in
    match status with
    | Success => Ret (retry_with self c 0, bb, Success)
    | Running => Ret (retry_with self c (attempts self), bb, Running)
    | Failure =>
        let! n := u32_add (attempts self) 1 in
        if max_attempts self <=? n then Ret (retry_with self c 0, bb, Failure)
        else let! (c, bb) := halt c bb in Ret (retry_with self c n, bb, Running)
    end;
  halt self bb :=
    let! (c, bb) := halt (retry_child self) bb in Ret (retry_with self c 0, bb);
  name := retry_node_name;
}.

Definition timeout_with (self : TimeoutNode C) (c : C) (n : Z) : TimeoutNode C :=
  {| to_node_name := to_node_name self; to_child := c;
     max_ticks := max_ticks self; to_ticks := n |}.

#[export] Instance timeout_node : BtNode (V := V) (TimeoutNode C) := {
  tick self bb :=
    let! n := u32_add (to_ticks self) 1 in
    if max_ticks self <? n then
      let! (c, bb) := halt (to_child self) bb in Ret (timeout_with self c 0, bb, Failure)
    else
      let! (c, bb, status) := tick (to_child self) bb in
      Ret (timeout_with self c (if decide (status = Running) then n else 0), bb, status);
  halt self bb :=
    let! (c, bb) := halt (to_child self) bb in Ret (timeout_with self c 0, bb);
  name := to_node_name;
}.

#[export] Instance invert_node : BtNode (V := V) (InvertNode C) := {
  tick self bb :=
    let! (c, bb, status) := tick (inv_child self) bb in
    Ret ({| inv_node_name := inv_node_name self; inv_child := c |}, bb,
         match status with Success => Failure | Failure => Success | Running => Running end);
  halt self bb :=
    let! (c, bb) := halt (inv_child self) bb in
    Ret ({| inv_node_name := inv_node_name self; inv_child := c |}, bb);
  name := inv_node_name;
}.

Definition repeat_with (self : RepeatNode C) (c : C) (n : Z) : RepeatNode C :=
  {| rep_node_name := rep_node_name self; rep_child := c; count := count self; current := n |}.

(** The [loop] of the repeat node.  Every turn that does not return counts one
    success, so [count - current] turns and the last one are enough fuel
    ([repeat_loop_law]). *)
Fixpoint repeat_loop (fuel : nat) (self : RepeatNode C) (bb : Blackboard V)
    : exec (RepeatNode C * Blackboard V * BtStatus) :=
  match fuel with
  | O => Panic
  | S fuel =>
      if count self <=? current self then
        Ret (repeat_with self (rep_child self) 0, bb, Success)
      else
        let! (c, bb, status) := tick (rep_child self) bb in
        match status with
        | Success =>
            let! n := u32_add (current self) 1 in
            let! (c, bb) := halt c bb in
            repeat_loop fuel (repeat_with self c n) bb
        | Running => Ret (repeat_with self c (current self), bb, Running)
        | Failure => Ret (repeat_with self c 0, bb, Failure)
        end
  end.

#[export] Instance repeat_node : BtNode (V := V) (RepeatNode C) := {
  tick self bb := repeat_loop (S (Z.to_nat (count self - current self))) self bb;
  halt self bb :=
    let! (c, bb) := halt (rep_child self) bb in Ret (repeat_with self c 0, bb);
  name := rep_node_name;
}.

(** [for _ in 0..self.max_iterations] of the while node. *)
Fixpoint while_loop (n : nat) (c : C) (bb : Blackboard V) : exec (C * Blackboard V * BtStatus) :=
  match n with
  | O => Ret (c, bb, Running)
  | S n =>
      let! (c, bb, status) := tick c bb in
      match status with
      | Success => let! (c, bb) := halt c bb in while_loop n c bb
      | other => Ret (c, bb, other)
      end
  end.

#[export] Instance while_node : BtNode (V := V) (WhileNode C) := {
  tick self bb :=
    let! (c, bb, status) := while_loop (Z.to_nat (wh_max_iterations self)) (wh_child self) bb in
    Ret ({| wh_node_name := wh_node_name self; wh_child := c;
            wh_max_iterations := wh_max_iterations self |}, bb, status);
  halt self bb :=
    let! (c, bb) := halt (wh_child self) bb in
    Ret ({| wh_node_name := wh_node_name self; wh_child := c;
            wh_max_iterations := wh_max_iterations self |}, bb);
  name := wh_node_name;
}.

(** The loop of the repeat-until-failure node. *)
Fixpoint until_failure_loop (n : nat) (c : C) (bb : Blackboard V)
    : exec (C * Blackboard V * BtStatus) :=
  match n with
  | O => Ret (c, bb, Running)
  | S n =>
      let! (c, bb, status) := tick c bb in
      match status with
      | Success => let! (c, bb) := halt c bb in until_failure_loop n c bb
      | Failure => Ret (c, bb, Success)
      | Running => Ret (c, bb, Running)
      end
  end.

#[export] Instance repeat_until_failure_node : BtNode (V := V) (RepeatUntilFailureNode C) := {
  tick self bb :=
    let! (c, bb, status) :=
      until_failure_loop (Z.to_nat (ruf_max_iterations self)) (ruf_child self) bb in
    Ret ({| ruf_node_name := ruf_node_name self; ruf_child := c;
            ruf_max_iterations := ruf_max_iterations self |}, bb, status);
  halt self bb :=
    let! (c, bb) := halt (ruf_child self) bb in
    Ret ({| ruf_node_name := ruf_node_name self; ruf_child := c;
            ruf_max_iterations := ruf_max_iterations self |}, bb);
  name := ruf_node_name;
}.

(** The copy loops of the subtree node: for each mapping [from -> to] of the source
    blackboard that is present, set it on the target. *)
Definition copy_ports (mappings : list (string * string)) (source target : Blackboard V)
    : Blackboard V :=
  fold_left (fun target m =>
               match get source (fst m) with
               | Some val => set target (snd m) val
               | None => target
               end) mappings target.

Definition subtree_with (self : SubTreeNode V C) (c : C) (bb : Blackboard V) : SubTreeNode V C :=
  {| sub_node_name := sub_node_name self; sub_child := c;
     input_mappings := input_mappings self; output_mappings := output_mappings self;
     child_bb := bb |}.

#[export] Instance subtree_node : BtNode (V := V) (SubTreeNode V C) := {
  tick self bb :=
    let child_bb := copy_ports (input_mappings self) bb (child_bb self) in
    let! (c, child_bb, status) := tick (sub_child self) child_bb in
    Ret (subtree_with self c child_bb, copy_ports (output_mappings self) child_bb bb, status);
  halt self bb :=
    let! (c, child_bb) := halt (sub_child self) (child_bb self) in
    Ret (subtree_with self c child_bb, bb);
  name := sub_node_name;
}.
End Decorators.

Definition new_subtree {V C} (name : string) (child : C)
    (input_mappings output_mappings : list (string * string)) : SubTreeNode V C :=
  {| sub_node_name := name; sub_child := child; input_mappings := input_mappings;
     output_mappings := output_mappings; child_bb := new_blackboard |}.

(** ** The laws *)

(** A condition none of whose operands is a lone quotation mark. *)
Definition safe_expression (expr : string) : bool :=
  match parse_expression (trim expr) with
  | Some (l, _, r) => negb (lone_quote l) && negb (lone_quote r)
  | None => true
  end.

Lemma safe_expression_ret {V} `{JsonOps V} expr (bb : Blackboard V) :
  safe_expression expr = true -> exists r, evaluate_condition expr bb = Ret r.
Proof.
  unfold safe_expression, evaluate_condition.
  destruct (parse_expression (trim expr)) as [[[l op] r]|]; [|eauto]. intros Hs. bool_prop.
  assert (forall s, lone_quote s = false -> exists v, resolve_operand s bb = Ret v) as Hret.
  { intros s Hq. destruct (resolve_operand s bb) eqn:He; [eauto|].
    apply resolve_operand_panics in He. congruence. }
  destruct (Hret l) as [[v|] ->]; [done| |eauto]. simpl.
  destruct (Hret r) as [[w|] ->]; [done| |eauto]. simpl.
  destruct (compare_values v op w); eauto.
Qed.

(** Take the result of a child's tick or halt from its law. *)
Ltac step_tick a bb Hwf :=
  let c := fresh "c" in let b := fresh "bb" in let st := fresh "st" in
  let He := fresh "He" in let Hw := fresh "Hw" in let Hc := fresh "Hc" in
  destruct (tick_law a bb Hwf) as (c & b & st & He & Hw & Hc); rewrite He; clear He;
  cbn [exec_bind].
Ltac step_halt a bb Hwf :=
  let c := fresh "c" in let b := fresh "bb" in
  let He := fresh "He" in let Hw := fresh "Hw" in let Hc := fresh "Hc" in
  destruct (halt_law a bb Hwf) as (c & b & He & Hw & Hc); rewrite He; clear He;
  cbn [exec_bind].

Section Laws.
Context {V : Type} `{JsonOps V}.

#[export] Program Instance action_laws {E} `{ExecutorLaws V E} : BtLaws (V := V) (ActionNode E) := {
  wf n := executor_wf (executor n);
  calm _ := True;
  idle n := is_running n = false;
}.
Next Obligation.
  intros E ? ? n bb Hwf. simpl in *.
  assert (exists e' bb' st, (if is_running n then on_running (executor n) bb
            else on_start (executor n) bb) = Ret (e', bb', st) /\ executor_wf e')
    as (e & bb' & st & -> & He) by (destruct (is_running n);
      [by apply on_running_ret|by apply on_start_ret]).
  simpl. eexists _, _, _. split_and!; [done..|]. intros _. split; [done|].
  intros Hst. by apply bool_decide_eq_false.
Qed.
Next Obligation.
  intros E ? ? n bb Hwf. simpl in *. destruct (is_running n) eqn:Hr; [|by eexists _, _].
  destruct (on_halted_ret (executor n) bb Hwf) as (e & bb' & -> & He). simpl. by eexists _, _.
Qed.

#[export] Program Instance condition_laws : BtLaws (V := V) ConditionNode := {
  wf n := safe_expression (cn_expression n) = true;
  calm _ := True;
  idle _ := True;
}.
Next Obligation.
  intros n bb Hwf. simpl in *. destruct (safe_expression_ret _ bb Hwf) as [r ->]. simpl. eauto 10.
Qed.
Next Obligation. intros n bb Hwf. simpl. eauto 10. Qed.

Context {C : Type} `{BtLaws V C}.

(** Children of which only the one at the running index may not be idle. *)
Definition calm_children (ri : option nat) (cs : list C) : Prop :=
  Forall calm cs /\ forall i c, cs !! i = Some c -> ri <> Some i -> idle c.

Lemma children_loop_law pass cs : forall i bb,
  pass <> Running -> Forall wf cs ->
  exists cs' bb' ri st, children_loop pass i cs bb = Ret (cs', bb', ri, st) /\
    length cs' = length cs /\ Forall wf cs' /\
    (match ri with
     | Some k => st = Running /\ (i <= k < i + length cs)%nat
     | None => st <> Running
     end) /\
    (Forall calm cs -> (forall j c, cs !! S j = Some c -> idle c) ->
     Forall calm cs' /\ forall j c, cs' !! j = Some c -> ri <> Some (i + j)%nat -> idle c).
Proof.
  intros i bb Hpass. revert i bb. induction cs as [|c cs IH]; intros i bb Hwf; cbn [children_loop].
  { eexists _, _, _, _. split_and!; [reflexivity|done|done|done|]. intros. split; [done|]. naive_solver. }
  apply Forall_cons in Hwf as [Hc Hcs]. step_tick c bb Hc.
  destruct (decide (st = pass)) as [->|Hne].
  - destruct (IH (S i) bb0 Hcs) as (cs' & bb' & ri & st' & -> & Hlen & Hwf' & Hri & Hcalm).
    cbn [exec_bind]. eexists _, _, _, _. split_and!;
      [reflexivity|simpl; lia|by constructor| |].
    + destruct ri; [|done]. simpl. intuition lia.
    + intros [Hc1 Hc2]%Forall_cons Hidle.
      destruct Hcalm as [Hcalm Hid]; [done|intros j d Hd; by apply (Hidle (S j))|].
      destruct Hc0 as [? Hi0]; [done|].
      split; [by constructor|]. intros [|j] d Hd Hne; simplify_eq/=; [by apply Hi0|].
      apply (Hid j); [done|]. by replace (S (i + j)) with (i + S j)%nat by lia.
  - assert (Forall wf (c0 :: cs)) by by constructor.
    assert (Forall calm (c :: cs) -> (forall j d, cs !! j = Some d -> idle d) ->
      Forall calm (c0 :: cs) /\ (st <> Running -> idle c0)) as Hcc.
    { intros [? ?]%Forall_cons _. destruct Hc0; [done|]. split; [by constructor|done]. }
    destruct (decide (st = Running)) as [->|Hrun]; eexists _, _, _, _;
      (split_and!; [reflexivity|done|done| |]).
    + simpl. split; [done|lia].
    + intros Hca Hidle. destruct (Hcc Hca Hidle) as [? _]. split; [done|].
      intros [|j] d Hd Hri; simplify_eq/=; [|by eapply Hidle]. by destruct Hri; f_equal; lia.
    + done.
    + intros Hca Hidle. destruct (Hcc Hca Hidle) as [? ?]. split; [done|].
      intros [|j] d Hd _; simplify_eq/=; [auto|by eapply Hidle].
Qed.
Definition index_ok (ri : option nat) (cs : list C) : Prop :=
  match ri with Some k => (k < length cs)%nat | None => True end.

Definition all_idle (ri : option nat) (cs : list C) : Prop := ri = None /\ Forall idle cs.

Lemma calm_idle cs : calm_children None cs -> Forall idle cs.
Proof. intros [_ Hi]. apply Forall_lookup. intros i c Hc. by eapply Hi. Qed.

(** A tick of the children from the running index on. *)
Lemma children_tick_law pass ri cs bb :
  pass <> Running -> Forall wf cs -> index_ok ri cs ->
  let start := default 0%nat ri in
  exists rest bb' ri' st, children_loop pass start (drop start cs) bb = Ret (rest, bb', ri', st) /\
    Forall wf (take start cs ++ rest) /\ index_ok ri' (take start cs ++ rest) /\
    (calm_children ri cs ->
     calm_children ri' (take start cs ++ rest) /\
     (st <> Running -> all_idle ri' (take start cs ++ rest))).
Proof.
  intros Hpass Hwf Hok start.
  assert (start <= length cs)%nat as Hs by (unfold start; destruct ri; simpl in *; lia).
  rewrite <- (take_drop start cs) in Hwf. apply Forall_app in Hwf as [Hw1 Hw2].
  destruct (children_loop_law pass (drop start cs) start bb Hpass Hw2)
    as (rest & bb' & ri' & st & Heq & Hlen & Hw & Hri & Hcalm).
  assert (length (take start cs) = start) as Ht by (rewrite length_take; lia).
  rewrite length_drop in Hlen, Hri.
  exists rest, bb', ri', st. split_and!; [done|by apply Forall_app| |].
  { destruct ri'; simpl; [|done]. rewrite length_app, Ht. lia. }
  intros [Hc Hi]. rewrite <- (take_drop start cs), Forall_app in Hc. destruct Hc as [Hc1 Hc2].
  destruct Hcalm as [Hcr Hir]; [done| |].
  { intros j c Hj. rewrite lookup_drop in Hj. apply (Hi _ _ Hj).
    destruct ri as [k|]; [|done]. unfold start. simpl. injection 1. lia. }
  assert (calm_children ri' (take start cs ++ rest)) as Hcc.
  { split; [by apply Forall_app|]. intros j c Hj Hne.
    apply lookup_app_Some in Hj as [Hj|[Hge Hj]].
    - apply lookup_take_Some in Hj as [Hj Hlt]. apply (Hi _ _ Hj).
      destruct ri as [k|]; [|done]. unfold start in Hlt. simpl in Hlt. injection 1. lia.
    - rewrite Ht in *. apply (Hir _ _ Hj). by replace (start + (j - start))%nat with j by lia. }
  split; [done|]. intros Hst. destruct ri'; [naive_solver|].
  split; [done|by apply calm_idle].
Qed.

Lemma halt_running_law ri cs bb :
  Forall wf cs -> index_ok ri cs ->
  exists cs' bb', halt_running ri cs bb = Ret (cs', bb') /\ Forall wf cs' /\
    (calm_children ri cs -> calm_children None cs' /\ all_idle None cs').
Proof.
  intros Hwf Hok. destruct ri as [k|]; simpl in *.
  - destruct (lookup_lt_is_Some_2 cs k Hok) as [c Hc]. rewrite Hc.
    step_halt c bb (Forall_lookup_1 _ _ _ _ Hwf Hc).
    eexists _, _. split_and!; [done|by apply Forall_insert|]. intros [Hca Hi].
    destruct Hc0 as [Hc0 Hi0]; [by eapply Forall_lookup_1|].
    assert (calm_children None (<[k:=c0]> cs)) as Hcc.
    { split; [by apply Forall_insert|]. intros j d Hd _.
      destruct (decide (j = k)) as [->|Hne].
      - rewrite list_lookup_insert_eq in Hd by done. by simplify_eq.
      - rewrite list_lookup_insert_ne in Hd by done. apply (Hi _ _ Hd). congruence. }
    split; [done|]. split; [done|by apply calm_idle].
  - eexists _, _. split_and!; [done..|]. intros Hc. split; [done|].
    split; [done|by apply calm_idle].
Qed.

#[export] Program Instance sequence_laws : BtLaws (V := V) (SequenceNode C) := {
  wf n := Forall wf (seq_children n) /\ index_ok (seq_running_index n) (seq_children n);
  calm n := calm_children (seq_running_index n) (seq_children n);
  idle n := all_idle (seq_running_index n) (seq_children n);
}.
Next Obligation.
  intros n bb [Hw Hok]. cbn [tick sequence_node].
  destruct (children_tick_law Success _ _ bb ltac:(done) Hw Hok)
    as (rest & bb' & ri & st & -> & ? & ? & ?). cbn [exec_bind].
  eexists _, _, _. split_and!; done.
Qed.
Next Obligation.
  intros n bb [Hw Hok]. cbn [halt sequence_node].
  destruct (halt_running_law _ _ bb Hw Hok) as (cs & bb' & -> & ? & ?). cbn [exec_bind].
  eexists _, _. split_and!; done.
Qed.

#[export] Program Instance fallback_laws : BtLaws (V := V) (FallbackNode C) := {
  wf n := Forall wf (fb_children n) /\ index_ok (fb_running_index n) (fb_children n);
  calm n := calm_children (fb_running_index n) (fb_children n);
  idle n := all_idle (fb_running_index n) (fb_children n);
}.
Next Obligation.
  intros n bb [Hw Hok]. cbn [tick fallback_node].
  destruct (children_tick_law Failure _ _ bb ltac:(done) Hw Hok)
    as (rest & bb' & ri & st & -> & ? & ? & ?). cbn [exec_bind].
  eexists _, _, _. split_and!; done.
Qed.
Next Obligation.
  intros n bb [Hw Hok]. cbn [halt fallback_node].
  destruct (halt_running_law _ _ bb Hw Hok) as (cs & bb' & -> & ? & ?). cbn [exec_bind].
  eexists _, _. split_and!; done.
Qed.

(** The counters stay below the number of children. *)
Lemma parallel_loop_law cs : forall s f bb,
  Forall wf cs -> 0 <= s -> 0 <= f -> s + Z.of_nat (length cs) <= u32_max ->
  f + Z.of_nat (length cs) <= u32_max ->
  exists cs' bb' s' f', parallel_loop s f cs bb = Ret (cs', bb', s', f') /\
    length cs' = length cs /\ Forall wf cs'.
Proof.
  induction cs as [|c cs IH]; intros s f bb Hwf Hs Hf Hsl Hfl; cbn [parallel_loop].
  { by eexists _, _, _, _. }
  apply Forall_cons in Hwf as [Hc Hcs]. simpl length in Hsl, Hfl. step_tick c bb Hc.
  assert (exists s' f', match st with
            | Success => let! s := u32_add s 1 in Ret (s, f)
            | Failure => let! f := u32_add f 1 in Ret (s, f)
            | Running => Ret (s, f)
            end = Ret (s', f') /\ 0 <= s' <= s + 1 /\ 0 <= f' <= f + 1)
    as (s' & f' & -> & ? & ?).
  { destruct st; rewrite ?u32_add_ret by lia; simpl; (eexists _, _; split; [reflexivity|lia]). }
  cbn [exec_bind]. destruct (IH s' f' bb0) as (cs' & bb' & s'' & f'' & -> & Hl & Hw'); [done|lia..|].
  cbn [exec_bind]. eexists _, _, _, _. split_and!; [done|simpl; lia|by constructor].
Qed.

Lemma halt_all_law cs : forall bb, Forall wf cs ->
  exists cs' bb', halt_all cs bb = Ret (cs', bb') /\ length cs' = length cs /\ Forall wf cs'.
Proof.
  induction cs as [|c cs IH]; intros bb Hwf; cbn [halt_all]; [by eexists _, _|].
  apply Forall_cons in Hwf as [Hc Hcs]. step_halt c bb Hc.
  destruct (IH bb0 Hcs) as (cs' & bb' & -> & Hl & ?). cbn [exec_bind].
  eexists _, _. split_and!; [done|simpl; lia|by constructor].
Qed.

(** A parallel node never claims to be calm. *)
#[export] Program Instance parallel_laws : BtLaws (V := V) (ParallelNode C) := {
  wf n := Forall wf (par_children n) /\ Z.of_nat (length (par_children n)) <= u32_max;
  calm _ := False;
  idle _ := True;
}.
Next Obligation.
  intros n bb [Hw Hl]. cbn [tick parallel_node].
  destruct (parallel_loop_law (par_children n) 0 0 bb Hw) as (cs & bb' & s & f & -> & Hlen & Hw');
    [lia..|]. cbn [exec_bind].
  eexists _, _, _. split_and!; [done|done|simpl; congruence|done].
Qed.
Next Obligation.
  intros n bb [Hw Hl]. cbn [halt parallel_node].
  destruct (halt_all_law (par_children n) bb Hw) as (cs & bb' & -> & Hlen & Hw'). cbn [exec_bind].
  eexists _, _. split_and!; [done|done|simpl; congruence|done].
Qed.
End Laws.

Section DecoratorLaws.
Context {V : Type} `{JsonOps V} {C : Type} `{BtLaws V C}.

#[export] Program Instance retry_laws : BtLaws (V := V) (RetryNode C) := {
  wf n := wf (retry_child n) /\ 0 <= attempts n /\ max_attempts n <= u32_max /\
          (attempts n = 0 \/ attempts n < max_attempts n);
  calm n := calm (retry_child n);
  idle n := attempts n = 0 /\ idle (retry_child n);
}.
Next Obligation.
  intros n bb (Hw & Ha & Hm & Hlt). cbn [tick retry_node].
  step_tick (retry_child n) bb Hw. destruct st.
  - eexists _, _, _. split_and!; try done; try (by left). naive_solver.
  - rewrite u32_add_ret by (unfold u32_max in *; lia). cbn [exec_bind].
    destruct (Z.leb_spec (max_attempts n) (attempts n + 1)).
    + eexists _, _, _. split_and!; try done; try (by left). naive_solver.
    + step_halt c bb0 Hw0. eexists _, _, _. split_and!; try done; simpl; try lia. naive_solver.
  - eexists _, _, _. split_and!; try done. naive_solver.
Qed.
Next Obligation.
  intros n bb (Hw & Ha & Hm & Hlt). cbn [halt retry_node].
  step_halt (retry_child n) bb Hw. eexists _, _. split_and!; try done; try (by left). naive_solver.
Qed.

(** The tick counter of a timeout passes its bound before it is reset, so the bound
    itself must leave room for one more. *)
#[export] Program Instance timeout_laws : BtLaws (V := V) (TimeoutNode C) := {
  wf n := wf (to_child n) /\ 0 <= to_ticks n <= max_ticks n /\ max_ticks n < u32_max;
  calm n := calm (to_child n);
  idle n := to_ticks n = 0 /\ idle (to_child n);
}.
Next Obligation.
  intros n bb (Hw & Ht & Hm). cbn [tick timeout_node].
  rewrite u32_add_ret by lia. cbn [exec_bind].
  destruct (Z.ltb_spec (max_ticks n) (to_ticks n + 1)).
  - step_halt (to_child n) bb Hw. eexists _, _, _. split_and!; try done; simpl; try lia. naive_solver.
  - step_tick (to_child n) bb Hw. eexists _, _, _. split_and!; try done; simpl.
    1-2: case_decide; lia.
    intros Hca. destruct (Hc Hca) as [? Hid]. split; [done|]. intros Hne.
    rewrite decide_False by done. auto.
Qed.
Next Obligation.
  intros n bb (Hw & Ht & Hm). cbn [halt timeout_node].
  step_halt (to_child n) bb Hw. eexists _, _. split_and!; try done; simpl; try lia. naive_solver.
Qed.

#[export] Program Instance invert_laws : BtLaws (V := V) (InvertNode C) := {
  wf n := wf (inv_child n);
  calm n := calm (inv_child n);
  idle n := idle (inv_child n);
}.
Next Obligation.
  intros n bb Hw. cbn [tick invert_node]. step_tick (inv_child n) bb Hw.
  eexists _, _, _. split_and!; try done. intros Hca. destruct (Hc Hca) as [? Hi]. split; [done|]. destruct st; intros; by apply Hi.
Qed.
Next Obligation.
  intros n bb Hw. cbn [halt invert_node]. step_halt (inv_child n) bb Hw.
  eexists _, _. by split_and!.
Qed.

(** A repeat node whose count is used up has an idle child. *)
Definition repeat_calm (n : RepeatNode C) : Prop :=
  calm (rep_child n) /\ (count n <= current n -> idle (rep_child n)).

Definition repeat_wf (n : RepeatNode C) : Prop :=
  wf (rep_child n) /\ 0 <= current n /\ count n <= u32_max.

Lemma repeat_loop_law fuel : forall n bb,
  repeat_wf n -> (Z.to_nat (count n - current n) < fuel)%nat ->
  exists n' bb' st, repeat_loop fuel n bb = Ret (n', bb', st) /\ repeat_wf n' /\
    (repeat_calm n -> repeat_calm n' /\ (st <> Running -> current n' = 0 /\ idle (rep_child n'))).
Proof.
  induction fuel as [|fuel IH]; intros n bb (Hw & Hcur & Hmax) Hfuel; [lia|]. cbn [repeat_loop].
  destruct (Z.leb_spec (count n) (current n)) as [Hle|Hgt].
  { eexists _, _, _. split_and!; [done..| |]; [by split_and!|].
    intros [? Hid]. specialize (Hid Hle). split; [by split|done]. }
  step_tick (rep_child n) bb Hw. destruct st.
  - rewrite u32_add_ret by lia. cbn [exec_bind]. step_halt c bb0 Hw0.
    destruct (IH (repeat_with n c0 (current n + 1)) bb1) as (n' & bb' & st & -> & Hw' & Hcalm).
    { split_and!; simpl; [done|lia|done]. }
    { simpl. lia. }
    eexists _, _, _. split_and!; [done..|]. intros [Hca _].
    destruct (Hc Hca) as [Hca' _]. destruct (Hc0 Hca') as [? ?]. apply Hcalm. by split.
  - eexists _, _, _. split_and!; [done..| |]; [by split_and!|].
    intros [Hca _]. destruct (Hc Hca) as [? Hid]. split; [split; [done|]|]; intros; by (try split; try apply Hid).
  - eexists _, _, _. split_and!; [done..| |]; [by split_and!|].
    intros [Hca _]. destruct (Hc Hca) as [? _]. split; [split; [done|simpl; lia]|done].
Qed.

#[export] Program Instance repeat_laws : BtLaws (V := V) (RepeatNode C) := {
  wf := repeat_wf;
  calm := repeat_calm;
  idle n := current n = 0 /\ idle (rep_child n);
}.
Next Obligation.
  intros n bb Hw. cbn [tick repeat_node]. apply repeat_loop_law; [done|lia].
Qed.
Next Obligation.
  intros n bb (Hw & ? & ?). cbn [halt repeat_node]. step_halt (rep_child n) bb Hw.
  eexists _, _. split_and!; [done| |]; [by split_and!|].
  intros [Hca _]. destruct (Hc Hca). by split.
Qed.

Lemma while_loop_law n : forall c bb, wf c ->
  exists c' bb' st, while_loop n c bb = Ret (c', bb', st) /\ wf c' /\
    (calm c -> calm c' /\ (st <> Running -> idle c')).
Proof.
  induction n as [|n IH]; intros c bb Hw; cbn [while_loop]; [by eexists _, _, _|].
  step_tick c bb Hw. destruct st; [|by eexists _, _, _..].
  step_halt c0 bb0 Hw0. destruct (IH c1 bb1 Hw1) as (c' & bb' & st & -> & ? & ?).
  eexists _, _, _. split_and!; [done..|]. naive_solver.
Qed.

#[export] Program Instance while_laws : BtLaws (V := V) (WhileNode C) := {
  wf n := wf (wh_child n);
  calm n := calm (wh_child n);
  idle n := idle (wh_child n);
}.
Next Obligation.
  intros n bb Hw. cbn [tick while_node].
  destruct (while_loop_law (Z.to_nat (wh_max_iterations n)) (wh_child n) bb Hw)
    as (c & bb' & st & -> & ? & ?). cbn [exec_bind]. by eexists _, _, _.
Qed.
Next Obligation.
  intros n bb Hw. cbn [halt while_node]. step_halt (wh_child n) bb Hw.
  eexists _, _. by split_and!.
Qed.

Lemma until_failure_loop_law n : forall c bb, wf c ->
  exists c' bb' st, until_failure_loop n c bb = Ret (c', bb', st) /\ wf c' /\
    (calm c -> calm c' /\ (st <> Running -> idle c')).
Proof.
  induction n as [|n IH]; intros c bb Hw; cbn [until_failure_loop]; [by eexists _, _, _|].
  step_tick c bb Hw. destruct st.
  - step_halt c0 bb0 Hw0. destruct (IH c1 bb1 Hw1) as (c' & bb' & st & -> & ? & ?).
    eexists _, _, _. split_and!; [done..|]. naive_solver.
  - eexists _, _, _. split_and!; [done..|]. naive_solver.
  - by eexists _, _, _.
Qed.

#[export] Program Instance repeat_until_failure_laws : BtLaws (V := V) (RepeatUntilFailureNode C) := {
  wf n := wf (ruf_child n);
  calm n := calm (ruf_child n);
  idle n := idle (ruf_child n);
}.
Next Obligation.
  intros n bb Hw. cbn [tick repeat_until_failure_node].
  destruct (until_failure_loop_law (Z.to_nat (ruf_max_iterations n)) (ruf_child n) bb Hw)
    as (c & bb' & st & -> & ? & ?). cbn [exec_bind]. by eexists _, _, _.
Qed.
Next Obligation.
  intros n bb Hw. cbn [halt repeat_until_failure_node]. step_halt (ruf_child n) bb Hw.
  eexists _, _. by split_and!.
Qed.

#[export] Program Instance subtree_laws : BtLaws (V := V) (SubTreeNode V C) := {
  wf n := wf (sub_child n);
  calm n := calm (sub_child n);
  idle n := idle (sub_child n);
}.
Next Obligation.
  intros n bb Hw. cbn [tick subtree_node].
  step_tick (sub_child n) (copy_ports (input_mappings n) bb (child_bb n)) Hw.
  eexists _, _, _. by split_and!.
Qed.
Next Obligation.
  intros n bb Hw. cbn [halt subtree_node]. step_halt (sub_child n) (child_bb n) Hw.
  eexists _, _. by split_and!.
Qed.
End DecoratorLaws.
