(* ===== verification/BtTree.v ===== *)
(** * Behaviour trees: executors, registry, builder, runner

    [crates/roz-agent/src/bt/registry.rs] (the executor registry and the built-in
    executors), [builder.rs] (from the tree of [crates/roz-core/src/bt/tree.rs] to live
    nodes), [runner.rs] (the skill runner).

    [Node] closes the node structs of [BtNodes] under nesting (the code's [Box<dyn BtNode>]).
    Its operations dispatch to those of the struct, whose children are again nodes; the
    nesting is unfolded to a given depth, [node_ops n], and [build_sound] shows that any
    depth above that of the tree is enough: no tick or halt of the built tree runs out. *)

From S2P Require Import Prelude Float64 RustStr Json Blackboard BtEval BtNodes.

#[local] Open Scope string_scope.

(** ** registry.rs: the built-in executors *)

Inductive Executor (X : Type) : Type :=
| HumanCheckpointExecutor
| WaitExecutor (remaining : Z)
| CustomExecutor (x : X).
Arguments HumanCheckpointExecutor {X}.
Arguments WaitExecutor {X} _.
Arguments CustomExecutor {X} _.

Section Executors.
Context {V : Type} `{JsonOps V} {X : Type} `{ActionExecutor V X}.

(** [bb.get("wait_ticks").and_then(as_u64).unwrap_or(1) as u32] *)
Definition wait_ticks (bb : Blackboard V) : Z :=
  (default 1 (get bb "wait_ticks" ≫= as_u64)) mod 2 ^ 32.

Definition wait_start (remaining : Z) (bb : Blackboard V) : Z * BtStatus :=
  let ticks := wait_ticks bb in
  if (ticks =? 0)%Z then (remaining, Success)
  else (ticks - 1, if (ticks - 1 =? 0)%Z then Success else Running)%Z.

Definition wait_running (remaining : Z) : Z * BtStatus :=
  if (remaining =? 0)%Z then (remaining, Success)
  else (remaining - 1, if (remaining - 1 =? 0)%Z then Success else Running)%Z.

Definition human_running (bb : Blackboard V) : BtStatus :=
  if bool_decide ((get bb "human_approved" ≫= as_bool) = Some true) then Success else Running.

#[export] Instance executor_ops : ActionExecutor (V := V) (Executor X) := {
  on_start e bb :=
    match e with
    | HumanCheckpointExecutor => Ret (e, bb, Running)
    | WaitExecutor r => let '(r', st) := wait_start r bb in Ret (WaitExecutor r', bb, st)
    | CustomExecutor x => let! (x, bb, st) := on_start x bb in Ret (CustomExecutor x, bb, st)
    end;
  on_running e bb :=
    match e with
    | HumanCheckpointExecutor => Ret (e, bb, human_running bb)
    | WaitExecutor r => let '(r', st) := wait_running r in Ret (WaitExecutor r', bb, st)
    | CustomExecutor x => let! (x, bb, st) := on_running x bb in Ret (CustomExecutor x, bb, st)
    end;
  on_halted e bb :=
    match e with
    | HumanCheckpointExecutor => Ret (e, bb)
    | WaitExecutor _ => Ret (WaitExecutor 0, bb)
    | CustomExecutor x => let! (x, bb) := on_halted x bb in Ret (CustomExecutor x, bb)
    end;
  action_type e :=
    match e with
    | HumanCheckpointExecutor => "human_checkpoint"
    | WaitExecutor _ => "wait"
    | CustomExecutor x => action_type x
    end;
}.

Context `{!ExecutorLaws X}.

Definition any_executor_wf (e : Executor X) : Prop :=
  match e with CustomExecutor x => executor_wf x | _ => True end.

#[export] Program Instance executor_laws : ExecutorLaws (V := V) (Executor X) := {
  executor_wf := any_executor_wf;
}.
Next Obligation.
  intros e bb Hw. destruct e as [|r|x]; cbn; [eauto 10| |].
  - destruct (wait_start r bb). eauto 10.
  - destruct (on_start_ret x bb Hw) as (x' & bb' & st & -> & ?). cbn. eauto 10.
Qed.
Next Obligation.
  intros e bb Hw. destruct e as [|r|x]; cbn; [eauto 10| |].
  - destruct (wait_running r). eauto 10.
  - destruct (on_running_ret x bb Hw) as (x' & bb' & st & -> & ?). cbn. eauto 10.
Qed.
Next Obligation.
  intros e bb Hw. destruct e as [|r|x]; cbn; [eauto 10..|].
  destruct (on_halted_ret x bb Hw) as (x' & bb' & -> & ?). cbn. eauto 10.
Qed.
End Executors.

(** The registry: action types to factories.  A factory is a pure [Fn()]: it is the
    executor it makes. *)
Notation ExecutorRegistry X := (gmap string (Executor X)).

Section Registry.
Context {X : Type}.

Definition register (self : ExecutorRegistry X) (action_type : string) (factory : Executor X)
    : ExecutorRegistry X := <[action_type := factory]> self.

Definition create (self : ExecutorRegistry X) (action_type : string) : option (Executor X) :=
  self !! action_type.

Definition register_builtins (self : ExecutorRegistry X) : ExecutorRegistry X :=
  register (register self "human_checkpoint" HumanCheckpointExecutor) "wait" (WaitExecutor 0).

Definition new_registry : ExecutorRegistry X := register_builtins ∅.
End Registry.

(** ** Live nodes *)

Inductive Node (V X : Type) : Type :=
| NAction (n : ActionNode (Executor X))
| NCondition (n : ConditionNode)
| NSequence (n : SequenceNode (Node V X))
| NFallback (n : FallbackNode (Node V X))
| NParallel (n : ParallelNode (Node V X))
| NRetry (n : RetryNode (Node V X))
| NTimeout (n : TimeoutNode (Node V X))
| NInvert (n : InvertNode (Node V X))
| NRepeat (n : RepeatNode (Node V X))
| NWhile (n : WhileNode (Node V X))
| NRepeatUntilFailure (n : RepeatUntilFailureNode (Node V X))
| NSubTree (n : SubTreeNode V (Node V X)).
Arguments NAction {V X} _.
Arguments NCondition {V X} _.
Arguments NSequence {V X} _.
Arguments NFallback {V X} _.
Arguments NParallel {V X} _.
Arguments NRetry {V X} _.
Arguments NTimeout {V X} _.
Arguments NInvert {V X} _.
Arguments NRepeat {V X} _.
Arguments NWhile {V X} _.
Arguments NRepeatUntilFailure {V X} _.
Arguments NSubTree {V X} _.

Section Dispatch.
Context {V : Type} `{JsonOps V} {X : Type} `{ActionExecutor V X}.

Definition lift_tick {A} (k : A -> Node V X) (r : exec (A * Blackboard V * BtStatus))
    : exec (Node V X * Blackboard V * BtStatus) :=
  let! (a, bb, st) := r in Ret (k a, bb, st).
Definition lift_halt {A} (k : A -> Node V X) (r : exec (A * Blackboard V))
    : exec (Node V X * Blackboard V) :=
  let! (a, bb) := r in Ret (k a, bb).

(** One level of dynamic dispatch over the operations of the children. *)
Definition node_step (children : BtNode (V := V) (Node V X)) : BtNode (V := V) (Node V X) := {|
  tick x bb :=
    match x with
    | NAction n => lift_tick NAction (tick n bb)
    | NCondition n => lift_tick NCondition (tick n bb)
    | NSequence n => lift_tick NSequence (tick n bb)
    | NFallback n => lift_tick NFallback (tick n bb)
    | NParallel n => lift_tick NParallel (tick n bb)
    | NRetry n => lift_tick NRetry (tick n bb)
    | NTimeout n => lift_tick NTimeout (tick n bb)
    | NInvert n => lift_tick NInvert (tick n bb)
    | NRepeat n => lift_tick NRepeat (tick n bb)
    | NWhile n => lift_tick NWhile (tick n bb)
    | NRepeatUntilFailure n => lift_tick NRepeatUntilFailure (tick n bb)
    | NSubTree n => lift_tick NSubTree (tick n bb)
    end;
  halt x bb :=
    match x with
    | NAction n => lift_halt NAction (halt n bb)
    | NCondition n => lift_halt NCondition (halt n bb)
    | NSequence n => lift_halt NSequence (halt n bb)
    | NFallback n => lift_halt NFallback (halt n bb)
    | NParallel n => lift_halt NParallel (halt n bb)
    | NRetry n => lift_halt NRetry (halt n bb)
    | NTimeout n => lift_halt NTimeout (halt n bb)
    | NInvert n => lift_halt NInvert (halt n bb)
    | NRepeat n => lift_halt NRepeat (halt n bb)
    | NWhile n => lift_halt NWhile (halt n bb)
    | NRepeatUntilFailure n => lift_halt NRepeatUntilFailure (halt n bb)
    | NSubTree n => lift_halt NSubTree (halt n bb)
    end;
  name x :=
    match x with
    | NAction n => an_node_name n
    | NCondition n => cn_node_name n
    | NSequence n => seq_node_name n
    | NFallback n => fb_node_name n
    | NParallel n => par_node_name n
    | NRetry n => retry_node_name n
    | NTimeout n => to_node_name n
    | NInvert n => inv_node_name n
    | NRepeat n => rep_node_name n
    | NWhile n => wh_node_name n
    | NRepeatUntilFailure n => ruf_node_name n
    | NSubTree n => sub_node_name n
    end;
|}.

Fixpoint node_ops (depth : nat) : BtNode (V := V) (Node V X) :=
  match depth with
  | O => {| tick _ _ := Panic; halt _ _ := Panic; name _ := "" |}
  | S depth => node_step (node_ops depth)
  end.

Context `{!ExecutorLaws X}.

Definition node_pred (P : forall A (O : BtNode (V := V) A), BtLaws (V := V) A -> A -> Prop)
    (O : BtNode (V := V) (Node V X)) (L : BtLaws (V := V) (Node V X)) (x : Node V X) : Prop :=
  match x with
  | NAction n => P _ _ action_laws n
  | NCondition n => P _ _ condition_laws n
  | NSequence n => P _ _ sequence_laws n
  | NFallback n => P _ _ fallback_laws n
  | NParallel n => P _ _ parallel_laws n
  | NRetry n => P _ _ retry_laws n
  | NTimeout n => P _ _ timeout_laws n
  | NInvert n => P _ _ invert_laws n
  | NRepeat n => P _ _ repeat_laws n
  | NWhile n => P _ _ while_laws n
  | NRepeatUntilFailure n => P _ _ repeat_until_failure_laws n
  | NSubTree n => P _ _ subtree_laws n
  end.

Lemma lift_tick_law {A} `{BtLaws V A} (k : A -> Node V X) (n : A) bb
    (W K I : Node V X -> Prop) :
  wf n -> (forall a, W (k a) = wf a) -> (forall a, K (k a) = calm a) -> (forall a, I (k a) = idle a) ->
  exists x' bb' st, lift_tick k (tick n bb) = Ret (x', bb', st) /\ W x' /\
    (calm n -> K x' /\ (st <> Running -> I x')).
Proof.
  intros Hw HW HK HI. unfold lift_tick. step_tick n bb Hw.
  eexists _, _, _. rewrite HW, HK, HI. split_and!; done.
Qed.

Lemma lift_halt_law {A} `{BtLaws V A} (k : A -> Node V X) (n : A) bb
    (W K I : Node V X -> Prop) :
  wf n -> (forall a, W (k a) = wf a) -> (forall a, K (k a) = calm a) -> (forall a, I (k a) = idle a) ->
  exists x' bb', lift_halt k (halt n bb) = Ret (x', bb') /\ W x' /\
    (calm n -> K x' /\ I x').
Proof.
  intros Hw HW HK HI. unfold lift_halt. step_halt n bb Hw.
  eexists _, _. rewrite HW, HK, HI. split_and!; done.
Qed.

(** The laws of the children carry over one level. *)
Definition node_step_laws (O : BtNode (V := V) (Node V X)) (L : BtLaws (V := V) (Node V X))
    : @BtLaws V (Node V X) (node_step O).
Proof.
  refine {| wf := node_pred (fun A O L => @wf V A O L) O L;
            calm := node_pred (fun A O L => @calm V A O L) O L;
            idle := node_pred (fun A O L => @idle V A O L) O L |}.
  - intros x bb Hw. destruct x; cbn [node_pred tick node_step] in *;
      eapply (lift_tick_law _ _ bb (node_pred (fun A O L => @wf V A O L) O L)
                (node_pred (fun A O L => @calm V A O L) O L)
                (node_pred (fun A O L => @idle V A O L) O L) Hw); reflexivity.
  - intros x bb Hw. destruct x; cbn [node_pred halt node_step] in *;
      eapply (lift_halt_law _ _ bb (node_pred (fun A O L => @wf V A O L) O L)
                (node_pred (fun A O L => @calm V A O L) O L)
                (node_pred (fun A O L => @idle V A O L) O L) Hw); reflexivity.
Defined.

Definition node_laws_O : @BtLaws V (Node V X) (node_ops O).
Proof. by refine {| wf _ := False; calm _ := False; idle _ := False |}. Defined.

Fixpoint node_laws (depth : nat) : @BtLaws V (Node V X) (node_ops depth) :=
  match depth with
  | O => node_laws_O
  | S depth => node_step_laws (node_ops depth) (node_laws depth)
  end.
End Dispatch.

(** ** The tree of roz-core and the builder *)

Inductive DecoratorType : Type :=
| Retry (max_attempts : Z)
| Timeout (secs : Z)
| Invert
| Repeat (count : Z)
| While
| RepeatUntilFailure.

Inductive TreeNode (V : Type) : Type :=
| TAction (name action_type : string) (ports : list (string * V))
| TCondition (expression : string)
| TSequence (children : list (TreeNode V))
| TFallback (children : list (TreeNode V))
| TParallel (children : list (TreeNode V)) (success_threshold : Z)
| TDecorator (decorator_type : DecoratorType) (child : TreeNode V)
| TSubTree (skill_name : string) (port_mappings : list (string * string)).
Arguments TAction {V} _ _ _.
Arguments TCondition {V} _.
Arguments TSequence {V} _.
Arguments TFallback {V} _.
Arguments TParallel {V} _ _.
Arguments TDecorator {V} _ _.
Arguments TSubTree {V} _ _.

Inductive BuildError : Type :=
| UnknownActionType (action_type : string)
| SubTreeNotSupported.

Section Builder.
Context {V X : Type}.

(** The static [NODE_COUNTER]: [fetch_add] wraps at 32 bits. *)
Definition unique_name (prefix : string) (counter : Z) : Z * string :=
  ((counter + 1) mod 2 ^ 32, prefix +:+ "-" +:+ pretty counter)%Z.

Definition build_decorator (t : DecoratorType) (child : Node V X) : Node V X :=
  match t with
  | Retry max_attempts => NRetry (new_retry "retry" child max_attempts)
  | Timeout secs => NTimeout (new_timeout "timeout" child secs)
  | Invert => NInvert (new_invert "invert" child)
  | Repeat count => NRepeat (new_repeat "repeat" child count)
  | While => NWhile (new_while "while" child)
  | RepeatUntilFailure =>
      NRepeatUntilFailure (new_repeat_until_failure "repeat_until_failure" child)
  end.

(** A composite node once its children are built: the counter names it. *)
Definition finish (prefix : string) (mk : string -> list (Node V X) -> Node V X)
    (r : Z * result (list (Node V X)) BuildError) : Z * result (Node V X) BuildError :=
  match r with
  | (ctr, Ok built) => let '(ctr, n) := unique_name prefix ctr in (ctr, Ok (mk n built))
  | (ctr, Err e) => (ctr, Err e)
  end.

(** [children.iter().map(build).collect::<Result<_, _>>()]: stops at the first error. *)
Definition build_all (build : TreeNode V -> Z -> Z * result (Node V X) BuildError)
    : list (TreeNode V) -> Z -> Z * result (list (Node V X)) BuildError :=
  fix go cs ctr :=
    match cs with
    | [] => (ctr, Ok [])
    | c :: cs =>
        match build c ctr with
        | (ctr, Err e) => (ctr, Err e)
        | (ctr, Ok n) =>
            match go cs ctr with
            | (ctr, Err e) => (ctr, Err e)
            | (ctr, Ok ns) => (ctr, Ok (n :: ns))
            end
        end
    end.

Fixpoint build (registry : ExecutorRegistry X) (ast : TreeNode V) (ctr : Z)
    : Z * result (Node V X) BuildError :=
  match ast with
  | TAction name action_type _ =>
      match create registry action_type with
      | Some executor => (ctr, Ok (NAction (new_action name executor)))
      | None => (ctr, Err (UnknownActionType action_type))
      end
  | TCondition expression => (ctr, Ok (NCondition (new_condition expression expression)))
  | TSequence children =>
      finish "seq" (fun n cs => NSequence (new_sequence n cs)) (build_all (build registry) children ctr)
  | TFallback children =>
      finish "fallback" (fun n cs => NFallback (new_fallback n cs))
        (build_all (build registry) children ctr)
  | TParallel children threshold =>
      finish "parallel" (fun n cs => NParallel (new_parallel n cs threshold))
        (build_all (build registry) children ctr)
  | TDecorator decorator_type child =>
      match build registry child ctr with
      | (ctr, Ok built_child) => (ctr, Ok (build_decorator decorator_type built_child))
      | (ctr, Err e) => (ctr, Err e)
      end
  | TSubTree _ _ => (ctr, Err SubTreeNotSupported)
  end.
End Builder.

(** ** runner.rs *)

Inductive SkillTickResult : Type :=
| TickRunning
| Completed (success : bool)
| PreViolation (condition reason : string)
| HoldViolation (condition reason : string)
| PostViolation (condition reason : string).

Record SkillResult : Type := { success : bool; res_ticks : Z; message : option string }.

Record SkillRunner (V A : Type) : Type := {
  root : A;
  checker : ConditionChecker;
  blackboard : Blackboard V;
  started : bool;
  ticks : Z;
}.
Arguments root {V A} _.
Arguments checker {V A} _.
Arguments blackboard {V A} _.
Arguments started {V A} _.
Arguments ticks {V A} _.

Section Runner.
Context {V : Type} `{JsonOps V} {A : Type} `{BtNode V A}.

Definition new_runner (root : A) (checker : ConditionChecker) : SkillRunner V A := {|
  root := root; checker := checker; blackboard := new_blackboard; started := false; ticks := 0 |}.

(** Writing through [blackboard_mut]. *)
Definition with_blackboard (self : SkillRunner V A) (bb : Blackboard V) : SkillRunner V A := {|
  root := root self; checker := checker self; blackboard := bb; started := started self;
  ticks := ticks self |}.

Definition advance (self : SkillRunner V A) (root : A) (bb : Blackboard V) (n : Z)
    : SkillRunner V A := {|
  root := root; checker := checker self; blackboard := bb; started := true; ticks := n |}.

(** The part of [tick] after the pre-conditions. *)
Definition runner_step (self : SkillRunner V A) : exec (SkillRunner V A * SkillTickResult) :=
  let! n := u32_add (ticks self) 1 in
  let! (a, bb, status) := tick (root self) (blackboard self) in
  let self' := advance self a bb n in
  match status with
  | Running =>
      let! h := check_hold (checker self) bb in
      match h with
      | CheckViolated condition reason =>
          let! (a, bb) := halt a bb in
          Ret (advance self a bb n, HoldViolation condition reason)
      | AllSatisfied => Ret (self', TickRunning)
      end
  | Success =>
      let! p := check_post (checker self) bb in
      match p with
      | CheckViolated condition reason => Ret (self', PostViolation condition reason)
      | AllSatisfied => Ret (self', Completed true)
      end
  | Failure => Ret (self', Completed false)
  end.

Definition runner_tick (self : SkillRunner V A) : exec (SkillRunner V A * SkillTickResult) :=
  if started self then runner_step self
  else
    let! p := check_pre (checker self) (blackboard self) in
    match p with
    | CheckViolated condition reason => Ret (self, PreViolation condition reason)
    | AllSatisfied => runner_step self
    end.

(** The result [run_to_completion] returns for a tick that ends the run. *)
Definition skill_result (ticks : Z) (r : SkillTickResult) : option SkillResult :=
  match r with
  | TickRunning => None
  | Completed success => Some {| success := success; res_ticks := ticks; message := None |}
  | PreViolation condition reason =>
      Some {| success := false; res_ticks := ticks;
              message := Some ("Pre-condition violation: " +:+ condition +:+ " — " +:+ reason) |}
  | HoldViolation condition reason =>
      Some {| success := false; res_ticks := ticks;
              message := Some ("Hold violation: " +:+ condition +:+ " — " +:+ reason) |}
  | PostViolation condition reason =>
      Some {| success := false; res_ticks := ticks;
              message := Some ("Post-condition violation: " +:+ condition +:+ " — " +:+ reason) |}
  end.

(** [for _ in 0..max_ticks], with [n] turns left. *)
Fixpoint run_loop (max_ticks : Z) (n : nat) (self : SkillRunner V A)
    : exec (SkillRunner V A * SkillResult) :=
  match n with
  | O =>
      let! (a, bb) := halt (root self) (blackboard self) in
      Ret ({| root := a; checker := checker self; blackboard := bb; started := started self;
              ticks := ticks self |},
           {| success := false; res_ticks := ticks self;
              message := Some ("Max ticks (" +:+ pretty max_ticks +:+ ") exceeded") |})
  | S n =>
      let! (self, r) := runner_tick self in
      match skill_result (ticks self) r with
      | Some res => Ret (self, res)
      | None => run_loop max_ticks n self
      end
  end.

Definition run_to_completion (self : SkillRunner V A) (max_ticks : Z)
    : exec (SkillRunner V A * SkillResult) :=
  run_loop max_ticks (Z.to_nat max_ticks) self.
End Runner.

(** ** The runner against the interface of its tree *)

Definition safe_checker (c : ConditionChecker) : Prop :=
  Forall (fun s => safe_expression (expression s) = true) (pre c ++ hold c ++ post c).

Section RunnerLaws.
Context {V : Type} `{JsonOps V} {A : Type} `{BtLaws V A}.

Lemma check_conditions_ret conds (bb : Blackboard V) :
  Forall (fun s => safe_expression (expression s) = true) conds ->
  exists r, check_conditions conds bb = Ret r.
Proof.
  induction 1 as [|c conds Hc Hcs IH]; simpl; [eauto|].
  destruct (safe_expression_ret _ bb Hc) as [[|reason] ->]; simpl; eauto.
Qed.

Lemma safe_checker_ret c (bb : Blackboard V) :
  safe_checker c ->
  (exists r, check_pre c bb = Ret r) /\ (exists r, check_hold c bb = Ret r) /\
  (exists r, check_post c bb = Ret r).
Proof.
  unfold safe_checker. rewrite !Forall_app. intros (? & ? & ?).
  split_and!; by apply check_conditions_ret.
Qed.

Record runner_ok (r : SkillRunner V A) : Prop := {
  ok_wf : wf (root r);
  ok_checker : safe_checker (checker r);
  ok_ticks : 0 <= ticks r;
}.

(** What one runner tick guarantees; [quiet] is the calm of the tree. *)
Lemma runner_tick_law r :
  runner_ok r -> ticks r < u32_max ->
  exists r' res, runner_tick r = Ret (r', res) /\ runner_ok r' /\
    checker r' = checker r /\ ticks r <= ticks r' <= ticks r + 1 /\
    (calm (root r) -> (started r = false -> idle (root r)) ->
     calm (root r') /\ (started r' = false -> idle (root r')) /\
     (res <> TickRunning -> idle (root r'))) /\
    (res = Completed true -> check_post (checker r) (blackboard r') = Ret AllSatisfied) /\
    ((exists c m, res = PreViolation c m) \/
     (started r = false -> check_pre (checker r) (blackboard r) = Ret AllSatisfied)) /\
    (started r' = false -> exists c m, res = PreViolation c m).
Proof.
  intros [Hw Hc Ht] Hmax.
  assert (exists r' res, runner_step r = Ret (r', res) /\ runner_ok r' /\
    checker r' = checker r /\ ticks r <= ticks r' <= ticks r + 1 /\
    (calm (root r) -> calm (root r') /\ (res <> TickRunning -> idle (root r'))) /\
    (res = Completed true -> check_post (checker r) (blackboard r') = Ret AllSatisfied) /\
    started r' = true) as (r' & res & Hstep & Hok & Hch & Hticks & Hcalm & Hpost & Hst).
  { unfold runner_step. rewrite u32_add_ret by lia. cbn [exec_bind].
    step_tick (root r) (blackboard r) Hw.
    destruct (safe_checker_ret (checker r) bb Hc) as (_ & [h Hh] & [p Hp]). destruct st.
    - rewrite Hp. cbn [exec_bind]. destruct p; eexists _, _;
        (split_and!; [done|constructor; [done|done|simpl; lia]|done|simpl; lia|simpl; lia|..]); naive_solver.
    - eexists _, _; (split_and!; [done|constructor; [done|done|simpl; lia]|done|simpl; lia|simpl; lia|..]);
        naive_solver.
    - rewrite Hh. cbn [exec_bind]. destruct h.
      + eexists _, _; (split_and!; [done|constructor; [done|done|simpl; lia]|done|simpl; lia|simpl; lia|..]);
          naive_solver.
      + step_halt c bb Hw0.
        eexists _, _; (split_and!; [done|constructor; [done|done|simpl; lia]|done|simpl; lia|simpl; lia|..]);
          naive_solver. }
  unfold runner_tick. destruct (started r) eqn:Hs.
  - exists r', res. rewrite Hst. split_and!; try done; try lia; try by right.
    intros Hca _. by destruct (Hcalm Hca).
  - destruct (safe_checker_ret (checker r) (blackboard r) Hc) as ([p Hp] & _). rewrite Hp.
    cbn [exec_bind]. destruct p.
    + exists r', res. rewrite Hst. split_and!; try done; try lia; try by right.
      intros Hca _. by destruct (Hcalm Hca).
    + eexists r, _. split_and!; try done; try lia; [naive_solver|left; eauto|eauto].
Qed.

(** What a whole run guarantees. *)
Lemma run_loop_law max_ticks n : forall r,
  runner_ok r -> ticks r + Z.of_nat n <= u32_max ->
  exists r' res, run_loop max_ticks n r = Ret (r', res) /\
    res_ticks res <= ticks r + Z.of_nat n /\
    (calm (root r) -> (started r = false -> idle (root r)) ->
     calm (root r') /\ idle (root r')) /\
    (success res = true ->
     check_post (checker r) (blackboard r') = Ret AllSatisfied /\
     (started r = false -> check_pre (checker r) (blackboard r) = Ret AllSatisfied)).
Proof.
  induction n as [|n IH]; intros r Hok Hmax; cbn [run_loop].
  { destruct Hok as [Hw _ _]. step_halt (root r) (blackboard r) Hw.
    eexists _, _. split_and!; [done|simpl; lia|naive_solver|done]. }
  destruct (runner_tick_law r Hok) as (r1 & o & -> & Hok1 & Hch & Ht & Hcalm & Hpost & Hpre & Hst);
    [lia|]. cbn [exec_bind].
  destruct (skill_result (ticks r1) o) as [res|] eqn:Hres.
  - exists r1, res. split_and!; [done| | |].
    + destruct o; simplify_eq/=; lia.
    + intros Hca Hid. destruct (Hcalm Hca Hid) as (? & _ & Hi). split; [done|].
      apply Hi. by intros ->.
    + intros Hs. assert (o = Completed true) as -> by (destruct o; by simplify_eq/=).
      split; [by apply Hpost|]. by destruct Hpre as [(? & ? & ?)|].
  - assert (o = TickRunning) as -> by by destruct o.
    assert (started r1 = true) as Hst1.
    { destruct (started r1) eqn:?; [done|]. by destruct Hst as (? & ? & ?). }
    destruct (IH r1 Hok1) as (r' & res & -> & Hrt & Hc' & Hs'); [lia|].
    exists r', res. split_and!; [done|lia| |].
    + intros Hca Hid. destruct (Hcalm Hca Hid) as (? & ? & _). by apply Hc'.
    + intros Hs. destruct (Hs' Hs) as [Hpo _]. rewrite Hch in Hpo. split; [done|].
      by destruct Hpre as [(? & ? & ?)|].
Qed.
End RunnerLaws.

(** ** Built trees keep the laws *)

Fixpoint depth {V} (ast : TreeNode V) : nat :=
  match ast with
  | TAction _ _ _ | TCondition _ | TSubTree _ _ => 0
  | TSequence cs | TFallback cs | TParallel cs _ => S (fold_right Nat.max 0%nat (map depth cs))
  | TDecorator _ c => S (depth c)
  end.

(** The numbers of a decorator fit its [u32] counters. *)
Definition sound_decorator (t : DecoratorType) : bool :=
  match t with
  | Retry n | Repeat n => n <=? u32_max
  | Timeout n => (0 <=? n) && (n <? u32_max)
  | _ => true
  end%Z.

(** No condition of the tree can panic and every number fits. *)
Fixpoint sound_ast {V} (ast : TreeNode V) : bool :=
  match ast with
  | TAction _ _ _ | TSubTree _ _ => true
  | TCondition e => safe_expression e
  | TSequence cs | TFallback cs => forallb sound_ast cs
  | TParallel cs _ => (Z.of_nat (length cs) <=? u32_max)%Z && forallb sound_ast cs
  | TDecorator t c => sound_decorator t && sound_ast c
  end.

(** The tree has no parallel node. *)
Fixpoint quiet_ast {V} (ast : TreeNode V) : bool :=
  match ast with
  | TAction _ _ _ | TCondition _ | TSubTree _ _ => true
  | TSequence cs | TFallback cs => forallb quiet_ast cs
  | TParallel _ _ => false
  | TDecorator _ c => quiet_ast c
  end.

(** The actions of a live tree that are marked running. *)
Fixpoint running_actions {V X} (x : Node V X) : list string :=
  match x with
  | NAction n => if is_running n then [an_node_name n] else []
  | NCondition _ => []
  | NSequence n => concat (map running_actions (seq_children n))
  | NFallback n => concat (map running_actions (fb_children n))
  | NParallel n => concat (map running_actions (par_children n))
  | NRetry n => running_actions (retry_child n)
  | NTimeout n => running_actions (to_child n)
  | NInvert n => running_actions (inv_child n)
  | NRepeat n => running_actions (rep_child n)
  | NWhile n => running_actions (wh_child n)
  | NRepeatUntilFailure n => running_actions (ruf_child n)
  | NSubTree n => running_actions (sub_child n)
  end.

Lemma fold_max_le l n x : In x l -> (fold_right Nat.max 0 l < n)%nat -> (x < n)%nat.
Proof. induction l as [|y l IH]; simpl; [done|]. intros [->|Hx] H; [lia|]. apply IH; [done|lia]. Qed.

Lemma Forall_concat_nil {A B} (f : A -> list B) (l : list A) :
  Forall (fun x => f x = []) l -> concat (map f l) = [].
Proof. induction 1 as [|x l Hx _ IH]; simpl; [done|]. by rewrite Hx, IH. Qed.

Section Built.
Context {V : Type} `{JsonOps V} {X : Type} `{ExecutorLaws V X}.

Definition registry_ok (reg : ExecutorRegistry X) : Prop :=
  forall t e, reg !! t = Some e -> any_executor_wf e.

(** A built tree that is well formed and, if quiet, at rest. *)
Definition at_rest (n : nat) (quiet : bool) (x : Node V X) : Prop :=
  @wf V _ _ (node_laws n) x /\
  (quiet = true -> @calm V _ _ (node_laws n) x /\ @idle V _ _ (node_laws n) x).

Lemma build_all_forall (f : TreeNode V -> Z -> Z * result (Node V X) BuildError)
    (P : TreeNode V -> Node V X -> Prop) cs : forall ctr ctr' ns,
  (forall c ctr ctr' n, In c cs -> f c ctr = (ctr', Ok n) -> P c n) ->
  build_all f cs ctr = (ctr', Ok ns) -> Forall2 P cs ns.
Proof.
  induction cs as [|c cs IH]; intros ctr ctr' ns HP Hb; simpl in Hb; [by simplify_eq|].
  destruct (f c ctr) as [ctr1 [n|e]] eqn:Hc; [|done].
  destruct (build_all f cs ctr1) as [ctr2 [ns'|e]] eqn:Hcs; [|done]. simplify_eq.
  constructor; [by eapply HP; [left|]|]. eapply IH; [|done]. intros. eapply HP; [by right|done].
Qed.

Lemma finish_ok prefix (mk : string -> list (Node V X) -> Node V X) r ctr x :
  finish prefix mk r = (ctr, Ok x) ->
  exists ctr' name ns, r = (ctr', Ok ns) /\ x = mk name ns.
Proof. destruct r as [c [ns|e]]; simpl; [|done]. intros. simplify_eq. eauto 6. Qed.

Lemma rest_children n (cs : list (TreeNode V)) (ns : list (Node V X)) :
  Forall2 (fun c x => at_rest n (quiet_ast c) x) cs ns ->
  Forall (@wf V _ _ (node_laws n)) ns /\
  (forallb quiet_ast cs = true ->
   Forall (@calm V _ _ (node_laws n)) ns /\ Forall (@idle V _ _ (node_laws n)) ns).
Proof.
  induction 1 as [|c x cs ns [Hw Hq] _ [IHw IHq]]; [by repeat constructor|].
  split; [by constructor|]. simpl. intros Hall. apply andb_true_iff in Hall as [Hc Hcs].
  destruct (Hq Hc), (IHq Hcs). split; by constructor.
Qed.

Lemma calm_children_None n (ns : list (Node V X)) :
  Forall (@calm V _ _ (node_laws n)) ns -> Forall (@idle V _ _ (node_laws n)) ns ->
  @calm_children V (Node V X) _ (node_laws n) None ns.
Proof. intros Hc Hi. split; [done|]. intros i c Hl _. by eapply Forall_lookup_1. Qed.

Lemma build_sound (reg : ExecutorRegistry X) n : forall ast ctr ctr' x,
  registry_ok reg -> (depth ast < n)%nat -> sound_ast ast = true ->
  build reg ast ctr = (ctr', Ok x) -> at_rest n (quiet_ast ast) x.
Proof.
  induction n as [|n IH]; intros ast ctr ctr' x Hreg Hd Hs Hb; [lia|].
  assert (forall cs ctr ctr' ns, (fold_right Nat.max 0 (map depth cs) < n)%nat ->
    forallb sound_ast cs = true -> build_all (build reg) cs ctr = (ctr', Ok ns) ->
    Forall2 (fun c x => at_rest n (quiet_ast c) x) cs ns) as Hall.
  { intros cs c0 c1 ns Hdc Hsc. apply build_all_forall. intros c c2 c3 x' Hin Hbc.
    eapply IH; [done| |by eapply forallb_forall in Hsc|done].
    eapply fold_max_le; [by apply in_map|done]. }
  destruct ast as [nm at_ ps|e|cs|cs|cs th|t c|sn pm]; simpl in Hd, Hs, Hb.
  - unfold create in Hb. destruct (reg !! at_) as [ex|] eqn:Hl; simplify_eq.
    split; [by eapply Hreg|]. done.
  - simplify_eq. by split.
  - apply finish_ok in Hb as (c1 & nm & ns & Hb & ->).
    apply Hall, rest_children in Hb as [Hw Hq]; [|lia|done].
    split; [by split|]. intros Hqt. destruct (Hq Hqt).
    split; [by apply calm_children_None|by split].
  - apply finish_ok in Hb as (c1 & nm & ns & Hb & ->).
    apply Hall, rest_children in Hb as [Hw Hq]; [|lia|done].
    split; [by split|]. intros Hqt. destruct (Hq Hqt).
    split; [by apply calm_children_None|by split].
  - apply andb_true_iff in Hs as [Hlen Hs]. apply finish_ok in Hb as (c1 & nm & ns & Hb & ->).
    apply Hall in Hb; [|lia|done]. split; [|done]. split; [apply rest_children in Hb as [Hw _]; exact Hw|].
    cbn [par_children new_parallel]. apply Forall2_length in Hb. rewrite <- Hb. by apply Z.leb_le.
  - apply andb_true_iff in Hs as [Ht Hs].
    destruct (build reg c ctr) as [c1 [y|e]] eqn:Hy; [|done]. simplify_eq.
    destruct (IH c ctr ctr' y Hreg ltac:(lia) Hs Hy) as [Hw Hq].
    destruct t; simpl in Ht; bool_prop; (split;
      [simpl; unfold repeat_wf; simpl; split_and?; try done; try lia; by left
      |intros Hqt; destruct (Hq Hqt); simpl; unfold repeat_calm; simpl; by split_and?]).
  - done.
Qed.

Lemma idle_not_running n : forall x : Node V X,
  @calm V _ _ (node_laws n) x -> @idle V _ _ (node_laws n) x -> running_actions x = [].
Proof.
  induction n as [|n IH]; intros x Hc Hi; [done|].
  assert (forall ns, Forall (@calm V _ _ (node_laws n)) ns -> Forall (@idle V _ _ (node_laws n)) ns ->
            concat (map running_actions ns) = []) as Hl.
  { intros ns Hca Hid. apply Forall_concat_nil. apply Forall_lookup. intros i y Hy.
    eapply IH; by eapply Forall_lookup_1. }
  destruct x; simpl in *; try done.
  - by rewrite Hi.
  - destruct Hc, Hi. by apply Hl.
  - destruct Hc, Hi. by apply Hl.
  - destruct Hi. by apply IH.
  - destruct Hi. by apply IH.
  - by apply IH.
  - destruct Hc, Hi. by apply IH.
  - by apply IH.
  - by apply IH.
  - by apply IH.
Qed.
End Built.

(** ** Lemmas for the theorems *)

(** What is wrong with a tree, from left to right. *)
Fixpoint offences {V X} (reg : ExecutorRegistry X) (ast : TreeNode V) : list BuildError :=
  match ast with
  | TAction _ t _ => match reg !! t with Some _ => [] | None => [UnknownActionType t] end
  | TCondition _ => []
  | TSequence cs | TFallback cs | TParallel cs _ => concat (map (offences reg) cs)
  | TDecorator _ c => offences reg c
  | TSubTree _ _ => [SubTreeNotSupported]
  end.

Definition first_offence {V X} (reg : ExecutorRegistry X) (ast : TreeNode V)
    (r : result (Node V X) BuildError) : Prop :=
  match r with
  | Ok _ => offences reg ast = []
  | Err e => exists rest, offences reg ast = e :: rest
  end.

Lemma build_all_offence {V X} (reg : ExecutorRegistry X) (cs : list (TreeNode V)) : forall ctr,
  (forall c ctr, In c cs -> first_offence reg c (snd (build reg c ctr))) ->
  match snd (build_all (build reg) cs ctr) with
  | Ok _ => concat (map (offences reg) cs) = []
  | Err e => exists rest, concat (map (offences reg) cs) = e :: rest
  end.
Proof.
  induction cs as [|c cs IH]; intros ctr Hf; simpl; [done|].
  pose proof (Hf c ctr (or_introl eq_refl)) as Hc. unfold first_offence in Hc.
  destruct (build reg c ctr) as [ctr1 [n|e]]; simpl in *.
  - rewrite Hc. simpl. specialize (IH ctr1 (fun c ctr Hin => Hf c ctr (or_intror Hin))).
    by destruct (build_all (build reg) cs ctr1) as [ctr2 [ns|e]].
  - destruct Hc as [rest ->]. by eexists.
Qed.

Lemma build_offence {V X} (reg : ExecutorRegistry X) n : forall (ast : TreeNode V) ctr,
  (depth ast < n)%nat -> first_offence reg ast (snd (build reg ast ctr)).
Proof.
  induction n as [|n IH]; intros ast ctr Hd; [lia|].
  assert (forall cs ctr prefix mk, (fold_right Nat.max 0 (map depth cs) < n)%nat ->
    match snd (finish (V := V) prefix mk (build_all (build reg) cs ctr)) with
    | Ok _ => concat (map (offences reg) cs) = []
    | Err e => exists rest, concat (map (offences reg) cs) = e :: rest
    end) as Hall.
  { intros cs c0 prefix mk Hdc.
    pose proof (build_all_offence reg cs c0) as Hb.
    destruct (build_all (build reg) cs c0) as [c1 [ns|e]]; simpl in *; apply Hb; intros c c2 Hin;
      apply IH; (eapply fold_max_le; [by apply in_map|done]). }
  destruct ast as [nm t ps|e|cs|cs|cs th|t c|sn pm]; simpl in *.
  - unfold create. destruct (reg !! t) eqn:Ht; simpl; [by rewrite Ht|]. rewrite Ht. by eexists.
  - done.
  - apply Hall. lia.
  - apply Hall. lia.
  - apply Hall. lia.
  - specialize (IH c ctr ltac:(lia)). by destruct (build reg c ctr) as [c1 [x|e]].
  - by eexists.
Qed.

Section DeMorgan.
Context {V : Type} `{JsonOps V} {C : Type} `{BtNode V C}.

Definition inverted (c : C) : InvertNode C := new_invert "invert" c.

Definition flip (st : BtStatus) : BtStatus :=
  match st with Success => Failure | Failure => Success | Running => Running end.

Lemma children_loop_flip cs : forall i (bb : Blackboard V),
  children_loop Success i (map inverted cs) bb =
  let! (cs', bb', ri, st) := children_loop Failure i cs bb in
  Ret (map inverted cs', bb', ri, flip st).
Proof.
  induction cs as [|c cs IH]; intros i bb; [done|]. simpl.
  destruct (tick c bb) as [[[c' bb'] st]|]; [|done]. simpl.
  destruct st; simpl; [done| |done].
  rewrite IH. by destruct (children_loop Failure (S i) cs bb') as [[[[? ?] ?] ?]|].
Qed.

Lemma halt_running_flip ri cs (bb : Blackboard V) :
  halt_running ri (map inverted cs) bb =
  let! (cs', bb') := halt_running ri cs bb in Ret (map inverted cs', bb').
Proof.
  destruct ri as [k|]; [|done]. simpl. rewrite map_lookup.
  destruct (cs !! k) as [c|]; [|done]. simpl.
  destruct (halt c bb) as [[c' bb']|]; [|done]. simpl. f_equal. f_equal.
  symmetry. apply (list_fmap_insert inverted).
Qed.

(** The inverted sequence of the inverted children of a fallback node. *)
Definition dual (n : FallbackNode C) : InvertNode (SequenceNode (InvertNode C)) :=
  new_invert "invert" {|
    seq_node_name := fb_node_name n;
    seq_children := map inverted (fb_children n);
    seq_running_index := fb_running_index n;
  |}.
End DeMorgan.

(** Two blackboards that read the same at the given keys, and at all other keys. *)
Definition agree_on {V} (keys : list string) (bb1 bb2 : Blackboard V) : Prop :=
  forall k, In k keys -> get bb1 k = get bb2 k.
Definition changed_only {V} (keys : list string) (bb bb' : Blackboard V) : Prop :=
  forall k, ~ In k keys -> get bb' k = get bb k.

Lemma get_copy_ports {V} `{JsonOps V} mappings (source target : Blackboard V) k :
  ~ In k (map snd mappings) -> get (copy_ports mappings source target) k = get target k.
Proof.
  revert target. induction mappings as [|[a b] ms IH]; intros target Hk; simpl; [done|].
  simpl in Hk. rewrite IH by tauto. destruct (get source a); [|done].
  rewrite get_set, decide_False by tauto. done.
Qed.

Lemma copy_ports_agree {V} `{JsonOps V} mappings (s1 s2 : Blackboard V) :
  (forall k, In k (map fst mappings) -> get s1 k = get s2 k) ->
  forall target, copy_ports mappings s1 target = copy_ports mappings s2 target.
Proof.
  induction mappings as [|[a b] ms IH]; intros Hag target; [done|].
  unfold copy_ports. simpl. rewrite (Hag a) by (simpl; tauto).
  apply IH. intros k Hk. apply Hag. simpl. tauto.
Qed.

(** ** Theorems *)

(** C9: running a skill is safe.  Build a tree whose conditions cannot panic and whose
    numbers fit their counters, with executors that do not panic; then the run returns
    within the tick budget, for any such tree, any pre-, hold- and post-conditions that
    cannot panic and any initial blackboard.  When the tree has no parallel node, no
    action is left running, whichever way the run ends.  A run reported as a success
    satisfied the pre-conditions at its start and the post-conditions at its end. *)
Theorem skill_run_safe {V} `{JsonOps V} {X} `{ExecutorLaws V X}
    (reg : ExecutorRegistry X) (ast : TreeNode V) (ctr ctr' : Z) (x : Node V X)
    (chk : ConditionChecker) (bb : Blackboard V) (max_ticks : Z) (n : nat)
    (Hreg : registry_ok reg) (Hast : sound_ast ast = true) (Hchk : safe_checker chk)
    (Hb : build reg ast ctr = (ctr', Ok x)) (Hn : (depth ast < n)%nat)
    (Hmax : is_u32 max_ticks) :
  exists r' res,
    run_to_completion (H0 := node_ops n) (with_blackboard (new_runner x chk) bb) max_ticks
      = Ret (r', res) /\
    res_ticks res <= max_ticks /\
    (quiet_ast ast = true -> running_actions (root r') = []) /\
    (success res = true ->
     check_pre chk bb = Ret AllSatisfied /\ check_post chk (blackboard r') = Ret AllSatisfied).
Proof.
  destruct (build_sound reg n ast ctr ctr' x Hreg Hn Hast Hb) as [Hw Hq].
  destruct Hmax as [H0m Hm].
  destruct (@run_loop_law V _ _ _ (node_laws n) max_ticks (Z.to_nat max_ticks)
              (with_blackboard (new_runner x chk) bb)) as (r' & res & Hr & Ht & Hc & Hs).
  { by constructor. }
  { simpl. lia. }
  exists r', res. split_and!; [exact Hr|simpl in Ht; lia| |].
  - intros Hqt. destruct (Hq Hqt) as [Hca Hid].
    destruct (Hc Hca (fun _ => Hid)) as [? ?]. by apply (idle_not_running n).
  - intros Hsu. destruct (Hs Hsu) as [? Hpre]. split; [by apply Hpre|done].
Qed.

(** A custom executor for the examples: it writes a key and completes at once. *)
Record SetKey : Type := { sk_key : string; sk_value : json }.

#[export] Instance set_key_executor : ActionExecutor (V := json) SetKey := {
  on_start e bb := Ret (e, set bb (sk_key e) (sk_value e), Success);
  on_running e bb := Ret (e, bb, Success);
  on_halted e bb := Ret (e, bb);
  action_type _ := "set_key";
}.

#[export] Program Instance set_key_laws : ExecutorLaws (V := json) SetKey := {
  executor_wf _ := True;
}.
Next Obligation. intros e bb _. simpl. eauto 10. Qed.
Next Obligation. intros e bb _. simpl. eauto 10. Qed.
Next Obligation. intros e bb _. simpl. eauto 10. Qed.

Definition demo_registry : ExecutorRegistry SetKey :=
  register new_registry "arm" (CustomExecutor {| sk_key := "armed"; sk_value := JBool true |}).

Lemma demo_registry_ok : registry_ok (V := json) demo_registry.
Proof.
  intros t e Ht. unfold demo_registry, new_registry, register_builtins, register in Ht.
  repeat (apply lookup_insert_Some in Ht as [[_ <-]|[_ Ht]]; [done|]).
  by rewrite lookup_empty in Ht.
Qed.

Definition demo_tree : TreeNode json :=
  TDecorator (Timeout 5)
    (TSequence [ TAction "arm it" "arm" [];
                 TFallback [ TCondition "{armed} == false"; TAction "hold" "wait" [] ] ]).

Definition demo_checker : ConditionChecker := {|
  pre := [ {| expression := "{battery} > 20"; phase := Pre |} ];
  hold := [ {| expression := "{armed} == true"; phase := Hold |} ];
  post := [ {| expression := "{armed} == true"; phase := Post |} ] |}.

Definition demo_start : Blackboard json :=
  set (set new_blackboard "battery" (JUint 80)) "wait_ticks" (JUint 3).

Lemma skill_run_safe_witness :
  exists r' res,
    @run_to_completion json _ (Node json SetKey) (node_ops 4)
      (with_blackboard (new_runner (match snd (build demo_registry demo_tree 7) with
                                    | Ok x => x
                                    | Err _ => NCondition (new_condition "" "")
                                    end) demo_checker) demo_start) 10 = Ret (r', res) /\
    running_actions (root r') = [] /\ success res = true /\ res_ticks res = 3.
Proof.
  destruct (skill_run_safe demo_registry demo_tree 7 9
    (match snd (build demo_registry demo_tree 7) with Ok x => x | Err _ => NCondition (new_condition "" "") end)
    demo_checker demo_start 10 4) as (r' & res & Hr & _ & Hq & _).
  - exact demo_registry_ok.
  - vm_compute. reflexivity.
  - repeat constructor.
  - vm_compute. reflexivity.
  - simpl. lia.
  - vm_compute. split; discriminate.
  - exists r', res. split; [exact Hr|]. split; [apply Hq; reflexivity|].
    vm_compute in Hr. injection Hr as <- <-. split; reflexivity.
Defined.

(** The promise about running actions does not extend to parallel nodes: one that
    reaches its threshold reports success while another child is still running, and
    the halt of its parent no longer reaches that child. *)
Definition run_outcome (ast : TreeNode json) (max : Z) : option (SkillResult * list string) :=
  match snd (build demo_registry ast 0) with
  | Ok x =>
      match @run_to_completion json _ (Node json SetKey) (node_ops (S (depth ast)))
              (with_blackboard (new_runner x demo_checker) demo_start) max with
      | Ret (r', res) => Some (res, running_actions (root r'))
      | Panic => None
      end
  | Err _ => None
  end.

Example parallel_leaves_running :
  run_outcome (TSequence [ TParallel [ TAction "arm it" "arm" []; TAction "hold" "wait" [] ] 1;
                           TAction "ask" "human_checkpoint" [] ]) 2
  = Some ({| success := false; res_ticks := 2; message := Some "Max ticks (2) exceeded" |}, ["hold"]).
Proof. vm_compute. reflexivity. Qed.

(** what the builder accepts.  It succeeds exactly when every action type of the
    tree is registered and the tree has no subtree reference; otherwise it reports the
    leftmost offence, whatever the depth. *)
Theorem build_reports_first_offence {V X} (reg : ExecutorRegistry X) (ast : TreeNode V) (ctr : Z) :
  match snd (build reg ast ctr) with
  | Ok _ => offences reg ast = []
  | Err e => exists rest, offences reg ast = e :: rest
  end.
Proof. apply (build_offence reg (S (depth ast))). lia. Qed.

(** fallback and sequence are dual.  In any state, a fallback node behaves as the
    inverted sequence of its inverted children: same status, same blackboard, same
    children and running index afterwards, for ticks and for halts. *)
Theorem fallback_sequence_dual {V} `{JsonOps V} {C} `{BtNode V C} (n : FallbackNode C)
    (bb : Blackboard V) :
  tick (dual n) bb = (let! (n', bb', st) := tick n bb in Ret (dual n', bb', st)) /\
  halt (dual n) bb = (let! (n', bb') := halt n bb in Ret (dual n', bb')).
Proof.
  split.
  - unfold dual. simpl. rewrite <- (fmap_drop inverted), children_loop_flip.
    destruct (children_loop Failure _ _ bb) as [[[[cs bb'] ri] st]|]; [|done]. simpl.
    f_equal. f_equal; [|by destruct st]. f_equal. unfold new_invert. f_equal. f_equal.
    rewrite map_app. f_equal. symmetry. apply (fmap_take inverted).
  - unfold dual. simpl. rewrite halt_running_flip.
    by destruct (halt_running _ _ bb) as [[cs bb']|].
Qed.

(** a subtree is isolated.  Its tick changes no key of the parent's blackboard other
    than the targets of its output ports, and what it does depends on the parent's
    blackboard only through the sources of its input ports. *)
Theorem subtree_isolated {V} `{JsonOps V} {C} `{BtNode V C} (n n' : SubTreeNode V C)
    (bb bb' : Blackboard V) (st : BtStatus)
    (Ht : tick n bb = Ret (n', bb', st)) :
  changed_only (map snd (output_mappings n)) bb bb' /\
  (forall bb2, agree_on (map fst (input_mappings n)) bb2 bb ->
   exists bb2', tick n bb2 = Ret (n', bb2', st)).
Proof.
  simpl in Ht. apply exec_bind_ret in Ht as ([[c cb] s] & Hc & [= <- <- <-]). split.
  - intros k Hk. by apply get_copy_ports.
  - intros bb2 Hag. simpl. rewrite (copy_ports_agree _ bb2 bb Hag), Hc. simpl. eauto.
Qed.

Definition demo_subtree : SubTreeNode json (ActionNode SetKey) :=
  new_subtree "sub" (new_action "w" {| sk_key := "out"; sk_value := JBool true |})
    [("target", "goal")] [("out", "done")].

Lemma subtree_isolated_witness :
  exists n' bb' st, tick demo_subtree demo_start = Ret (n', bb', st) /\
    get bb' "battery" = Some (JUint 80) /\
    exists bb2', tick demo_subtree (set demo_start "battery" Null) = Ret (n', bb2', st).
Proof.
  destruct (tick demo_subtree demo_start) as [[[n bb'] st]|] eqn:Ht; [|vm_compute in Ht; discriminate].
  destruct (subtree_isolated demo_subtree n demo_start bb' st Ht) as [H1 H2].
  exists n, bb', st. split; [reflexivity|]. split.
  - rewrite H1; [vm_compute; reflexivity|]. simpl. intros [Hk|[]]; discriminate.
  - apply H2. intros k [<-|[]]. rewrite get_set. reflexivity.
Defined.
