(* ===== verification/Subjects.v ===== *)
(** * NATS subjects

    [crates/roz-nats/src/subjects.rs]: validation of the tokens of a subject and the
    builders of every subject.  [Request] names the builders, so that what holds of all
    of them is one theorem: a built subject splits back into its tokens, and subjects of
    different owners never coincide. *)

From Stdlib Require Import Ascii.
From S2P Require Import Prelude RustStr Command.

#[local] Open Scope string_scope.

Definition NATS_SPECIAL_CHARS : list ascii := ["."; "*"; ">"]%char.

(** [value.contains(ch)]. *)
Definition contains_char (ch : ascii) (value : string) : bool :=
  negb (all_chars (fun a => negb (Ascii.eqb a ch)) value).

(** The loop over the special characters. *)
Fixpoint check_chars (name value : string) (chars : list ascii) : result () RozError :=
  match chars with
  | [] => Ok ()
  | ch :: chars =>
      if contains_char ch value
      then Err (Validation (name +:+ " must not contain '" +:+ String ch "" +:+ "'"))
      else check_chars name value chars
  end.

Definition validate_token (name value : string) : result () RozError :=
  if String.eqb value "" then Err (Validation (name +:+ " must not be empty"))
  else check_chars name value NATS_SPECIAL_CHARS.

(** ** The builders *)

Definition telemetry (host_id sensor : string) : result string RozError :=
  let? _ := validate_token "host_id" host_id in
  let? _ := validate_token "sensor" sensor in
  Ok ("telemetry." +:+ host_id +:+ "." +:+ sensor).

Definition command (host_id command : string) : result string RozError :=
  let? _ := validate_token "host_id" host_id in
  let? _ := validate_token "command" command in
  Ok ("cmd." +:+ host_id +:+ "." +:+ command).

Definition event (host_id event : string) : result string RozError :=
  let? _ := validate_token "host_id" host_id in
  let? _ := validate_token "event" event in
  Ok ("events." +:+ host_id +:+ "." +:+ event).

Definition task (task_id action : string) : result string RozError :=
  let? _ := validate_token "task_id" task_id in
  let? _ := validate_token "action" action in
  Ok ("tasks." +:+ task_id +:+ "." +:+ action).

Definition telemetry_wildcard (host_id : string) : result string RozError :=
  let? _ := validate_token "host_id" host_id in
  Ok ("telemetry." +:+ host_id +:+ ".>").

Definition all_telemetry : string := "telemetry.>".

Definition invoke (worker_id task_id : string) : result string RozError :=
  let? _ := validate_token "worker_id" worker_id in
  let? _ := validate_token "task_id" task_id in
  Ok ("invoke." +:+ worker_id +:+ "." +:+ task_id).

Definition invoke_wildcard (worker_id : string) : result string RozError :=
  let? _ := validate_token "worker_id" worker_id in
  Ok ("invoke." +:+ worker_id +:+ ".>").

Definition telemetry_state (worker_id : string) : result string RozError :=
  let? _ := validate_token "worker_id" worker_id in
  Ok ("telemetry." +:+ worker_id +:+ ".state").

Definition telemetry_sensors (worker_id : string) : result string RozError :=
  let? _ := validate_token "worker_id" worker_id in
  Ok ("telemetry." +:+ worker_id +:+ ".sensors").

Definition capabilities (worker_id : string) : result string RozError :=
  let? _ := validate_token "worker_id" worker_id in
  Ok ("capabilities." +:+ worker_id).

Definition session_request (worker_id session_id : string) : result string RozError :=
  let? _ := validate_token "worker_id" worker_id in
  let? _ := validate_token "session_id" session_id in
  Ok ("session." +:+ worker_id +:+ "." +:+ session_id +:+ ".request").

Definition session_response (worker_id session_id : string) : result string RozError :=
  let? _ := validate_token "worker_id" worker_id in
  let? _ := validate_token "session_id" session_id in
  Ok ("session." +:+ worker_id +:+ "." +:+ session_id +:+ ".response").

Definition session_control (worker_id session_id : string) : result string RozError :=
  let? _ := validate_token "worker_id" worker_id in
  let? _ := validate_token "session_id" session_id in
  Ok ("session." +:+ worker_id +:+ "." +:+ session_id +:+ ".control").

Definition estop (worker_id : string) : result string RozError :=
  let? _ := validate_token "worker_id" worker_id in
  Ok ("safety.estop." +:+ worker_id).

Definition wasm_trust_failure (worker_id : string) : result string RozError :=
  let? _ := validate_token "worker_id" worker_id in
  Ok ("safety.trust_failure." +:+ worker_id).

Definition webrtc_offer (worker_id peer_id : string) : result string RozError :=
  let? _ := validate_token "worker_id" worker_id in
  let? _ := validate_token "peer_id" peer_id in
  Ok ("webrtc." +:+ worker_id +:+ "." +:+ peer_id +:+ ".offer").

Definition webrtc_answer (worker_id peer_id : string) : result string RozError :=
  let? _ := validate_token "worker_id" worker_id in
  let? _ := validate_token "peer_id" peer_id in
  Ok ("webrtc." +:+ worker_id +:+ "." +:+ peer_id +:+ ".answer").

Definition webrtc_ice_local (worker_id peer_id : string) : result string RozError :=
  let? _ := validate_token "worker_id" worker_id in
  let? _ := validate_token "peer_id" peer_id in
  Ok ("webrtc." +:+ worker_id +:+ "." +:+ peer_id +:+ ".ice.local").

Definition webrtc_ice_remote (worker_id peer_id : string) : result string RozError :=
  let? _ := validate_token "worker_id" worker_id in
  let? _ := validate_token "peer_id" peer_id in
  Ok ("webrtc." +:+ worker_id +:+ "." +:+ peer_id +:+ ".ice.remote").

Definition webrtc_wildcard (worker_id : string) : result string RozError :=
  let? _ := validate_token "worker_id" worker_id in
  Ok ("webrtc." +:+ worker_id +:+ ".>").

Definition camera_event (worker_id : string) : result string RozError :=
  let? _ := validate_token "worker_id" worker_id in
  Ok ("camera." +:+ worker_id +:+ ".event").

Definition camera_request (worker_id : string) : result string RozError :=
  let? _ := validate_token "worker_id" worker_id in
  Ok ("camera." +:+ worker_id +:+ ".request").

(** ** All builders as one function *)

Inductive Request : Type :=
| Telemetry (host sensor : string) | CommandTo (host cmd : string) | Event (host ev : string)
| Task (task action : string) | TelemetryWildcard (host : string)
| Invoke (worker task : string) | InvokeWildcard (worker : string)
| TelemetryState (worker : string) | TelemetrySensors (worker : string)
| Capabilities (worker : string)
| SessionRequest (worker session : string) | SessionResponse (worker session : string)
| SessionControl (worker session : string)
| Estop (worker : string) | WasmTrustFailure (worker : string)
| WebrtcOffer (worker peer : string) | WebrtcAnswer (worker peer : string)
| WebrtcIceLocal (worker peer : string) | WebrtcIceRemote (worker peer : string)
| WebrtcWildcard (worker : string)
| CameraEvent (worker : string) | CameraRequest (worker : string).

Definition subject (r : Request) : result string RozError :=
  match r with
  | Telemetry h s => telemetry h s | CommandTo h c => command h c | Event h e => event h e
  | Task t a => task t a | TelemetryWildcard h => telemetry_wildcard h
  | Invoke w t => invoke w t | InvokeWildcard w => invoke_wildcard w
  | TelemetryState w => telemetry_state w | TelemetrySensors w => telemetry_sensors w
  | Capabilities w => capabilities w
  | SessionRequest w s => session_request w s | SessionResponse w s => session_response w s
  | SessionControl w s => session_control w s
  | Estop w => estop w | WasmTrustFailure w => wasm_trust_failure w
  | WebrtcOffer w p => webrtc_offer w p | WebrtcAnswer w p => webrtc_answer w p
  | WebrtcIceLocal w p => webrtc_ice_local w p | WebrtcIceRemote w p => webrtc_ice_remote w p
  | WebrtcWildcard w => webrtc_wildcard w
  | CameraEvent w => camera_event w | CameraRequest w => camera_request w
  end.

(** The identifiers a request is made of, and the tokens of its subject in order. *)
Definition identifiers (r : Request) : list string :=
  match r with
  | Telemetry a b | CommandTo a b | Event a b | Task a b | Invoke a b | SessionRequest a b
  | SessionResponse a b | SessionControl a b | WebrtcOffer a b | WebrtcAnswer a b
  | WebrtcIceLocal a b | WebrtcIceRemote a b => [a; b]
  | TelemetryWildcard a | InvokeWildcard a | TelemetryState a | TelemetrySensors a
  | Capabilities a | Estop a | WasmTrustFailure a | WebrtcWildcard a | CameraEvent a
  | CameraRequest a => [a]
  end.

Definition tokens (r : Request) : list string :=
  match r with
  | Telemetry h s => ["telemetry"; h; s] | CommandTo h c => ["cmd"; h; c]
  | Event h e => ["events"; h; e] | Task t a => ["tasks"; t; a]
  | TelemetryWildcard h => ["telemetry"; h; ">"]
  | Invoke w t => ["invoke"; w; t] | InvokeWildcard w => ["invoke"; w; ">"]
  | TelemetryState w => ["telemetry"; w; "state"] | TelemetrySensors w => ["telemetry"; w; "sensors"]
  | Capabilities w => ["capabilities"; w]
  | SessionRequest w s => ["session"; w; s; "request"]
  | SessionResponse w s => ["session"; w; s; "response"]
  | SessionControl w s => ["session"; w; s; "control"]
  | Estop w => ["safety"; "estop"; w] | WasmTrustFailure w => ["safety"; "trust_failure"; w]
  | WebrtcOffer w p => ["webrtc"; w; p; "offer"] | WebrtcAnswer w p => ["webrtc"; w; p; "answer"]
  | WebrtcIceLocal w p => ["webrtc"; w; p; "ice"; "local"]
  | WebrtcIceRemote w p => ["webrtc"; w; p; "ice"; "remote"]
  | WebrtcWildcard w => ["webrtc"; w; ">"]
  | CameraEvent w => ["camera"; w; "event"] | CameraRequest w => ["camera"; w; "request"]
  end.

(** Whose subject it is. *)
Definition owner (r : Request) : string := hd "" (identifiers r).

(** A token NATS takes literally. *)
Definition plain_token (s : string) : bool :=
  negb (String.eqb s "")
  && all_chars (fun a => negb (Ascii.eqb a "." || Ascii.eqb a "*" || Ascii.eqb a ">")) s.

(** ** Lemmas *)

Lemma all_chars_and p q s :
  all_chars (fun a => p a && q a) s = all_chars p s && all_chars q s.
Proof.
  induction s as [|a s IH]; simpl; [done|]. rewrite IH.
  by destruct (p a), (q a), (all_chars p s), (all_chars q s).
Qed.

Lemma all_chars_ext p q s : (forall a, p a = q a) -> all_chars p s = all_chars q s.
Proof. intros H. induction s; simpl; [done|]. by rewrite H, IHs. Qed.

Lemma validate_token_spec name value :
  is_ok (validate_token name value) = plain_token value.
Proof.
  unfold validate_token, plain_token. destruct (String.eqb value ""); [done|]. cbn [negb andb].
  unfold NATS_SPECIAL_CHARS. cbn [check_chars]. unfold contains_char.
  rewrite (all_chars_ext (fun a => negb (Ascii.eqb a "." || Ascii.eqb a "*" || Ascii.eqb a ">"))
                         (fun a => negb (Ascii.eqb a ".") && (negb (Ascii.eqb a "*") && negb (Ascii.eqb a ">"))))
    by (intros a; by destruct (Ascii.eqb a "."), (Ascii.eqb a "*"), (Ascii.eqb a ">")).
  rewrite !all_chars_and.
  by repeat match goal with |- context [all_chars ?p value] => destruct (all_chars p value) end.
Qed.

Lemma plain_no_dot s : plain_token s = true -> all_chars (fun a => negb (Ascii.eqb a ".")) s = true.
Proof.
  unfold plain_token. intros H. apply andb_true_iff in H as [_ H]. revert H. apply all_chars_impl.
  intros a. by destruct (Ascii.eqb a ".").
Qed.

Lemma split_on_app c a b :
  all_chars (fun x => negb (Ascii.eqb x c)) a = true ->
  split_on c (a +:+ String c b) = a :: split_on c b.
Proof.
  induction a as [|x a IH]; intros H; simpl.
  - by rewrite Ascii.eqb_refl.
  - simpl in H. apply andb_true_iff in H as [Hx Ha]. apply negb_true_iff in Hx.
    rewrite Hx. by rewrite IH.
Qed.

Lemma split_on_end c a :
  all_chars (fun x => negb (Ascii.eqb x c)) a = true -> split_on c a = [a].
Proof.
  intros H. induction a as [|x a IH]; simpl; [done|].
  simpl in H. apply andb_true_iff in H as [Hx Ha]. apply negb_true_iff in Hx.
  rewrite Hx. by rewrite IH.
Qed.

(** [tokens.join(".")]. *)
Fixpoint join (ts : list string) : string :=
  match ts with
  | [] => ""
  | [t] => t
  | t :: ts => t +:+ String "." (join ts)
  end.

Lemma split_join ts :
  ts <> [] -> Forall (fun t => all_chars (fun x => negb (Ascii.eqb x ".")) t = true) ts ->
  split_on "." (join ts) = ts.
Proof.
  intros Hne H. induction H as [|t ts Ht Hts IH]; [done|].
  destruct ts as [|u ts]; [by apply split_on_end|].
  change (join (t :: u :: ts)) with (t +:+ String "." (join (u :: ts))).
  rewrite split_on_app by done. by rewrite IH.
Qed.

(** Every builder validates its identifiers in order and joins its tokens. *)
Lemma subject_spec r :
  match subject r with
  | Ok s => forallb plain_token (identifiers r) = true /\ s = join (tokens r)
  | Err _ => forallb plain_token (identifiers r) = false
  end.
Proof.
  assert (forall name v, match validate_token name v with
                         | Ok _ => plain_token v = true
                         | Err _ => plain_token v = false end) as Hv.
  { intros name v. pose proof (validate_token_spec name v) as H.
    by destruct (validate_token name v). }
  assert (forall n1 v1 n2 v2 s : string, match (let? _ := validate_token n1 v1 in
             let? _ := validate_token n2 v2 in Ok s) with
           | Ok s' => forallb plain_token [v1; v2] = true /\ s' = s
           | Err _ => forallb plain_token [v1; v2] = false end) as H2.
  { intros n1 v1 n2 v2 s. pose proof (Hv n1 v1). pose proof (Hv n2 v2).
    destruct (validate_token n1 v1); simpl; [|by destruct (plain_token v1)].
    destruct (validate_token n2 v2); simpl;
      by destruct (plain_token v1), (plain_token v2). }
  assert (forall (n v s : string), match (let? _ := validate_token n v in Ok s) with
           | Ok s' => forallb plain_token [v] = true /\ s' = s
           | Err _ => forallb plain_token [v] = false end) as H1.
  { intros n v s. pose proof (Hv n v).
    destruct (validate_token n v); simpl; by destruct (plain_token v). }
  destruct r; first [apply H2 | apply H1].
Qed.

(** ** Theorems *)

(** a subject carries its identifiers unambiguously.  A builder succeeds exactly when
    every identifier is a non-empty token without the characters NATS interprets, and
    the subject then splits at its dots into exactly the tokens the builder was given. *)
Theorem subject_roundtrip (r : Request) :
  match subject r with
  | Ok s => forallb plain_token (identifiers r) = true /\ split_on "." s = tokens r
  | Err _ => forallb plain_token (identifiers r) = false
  end.
Proof.
  pose proof (subject_spec r) as H. destruct (subject r) as [s|e]; [|done].
  destruct H as [Hp ->]. split; [done|]. apply split_join; [by destruct r|].
  destruct r; simpl in *; bool_prop; repeat constructor; by apply plain_no_dot.
Qed.

(** no crosstalk.  If two builders give the same subject, they were called for the
    same host, worker or task. *)
Theorem subject_owner_unique (r1 r2 : Request) (s : string)
    (H1 : subject r1 = Ok s) (H2 : subject r2 = Ok s) : owner r1 = owner r2.
Proof.
  pose proof (subject_spec r1) as S1. pose proof (subject_spec r2) as S2.
  rewrite H1 in S1. rewrite H2 in S2. destruct S1 as [P1 E1], S2 as [P2 E2].
  assert (tokens r1 = tokens r2) as Ht.
  { rewrite <- (split_join (tokens r1)), <- (split_join (tokens r2)); [congruence| | | |];
      try (by destruct r1); try (by destruct r2).
    - destruct r2; simpl in *; bool_prop; repeat constructor; by apply plain_no_dot.
    - destruct r1; simpl in *; bool_prop; repeat constructor; by apply plain_no_dot. }
  destruct r1, r2; simpl in Ht; injection Ht; intros; subst; try done; discriminate.
Qed.

Lemma subject_owner_unique_witness :
  exists s, subject (TelemetryState "arm-1") = Ok s /\ owner (Telemetry "arm-1" "state") = "arm-1".
Proof.
  exists "telemetry.arm-1.state". split; [reflexivity|].
  apply (subject_owner_unique (Telemetry "arm-1" "state") (TelemetryState "arm-1") "telemetry.arm-1.state");
    reflexivity.
Defined.
