(* ===== verification/SafetyDaemon.v ===== *)
(** * The safety daemon and the watchdogs

    [crates/roz-safety/src/]: [heartbeat.rs] (the tracker of worker heartbeats and the
    heartbeat file), [estop.rs] (the events), [watchdog.rs] (the timer) and the main
    loop of [main.rs]; on the worker, [crates/roz-worker/src/estop.rs] (the listener)
    and [command_watchdog.rs].

    The main loop is a [tokio::select!] over the heartbeat subscription, the channel of
    stale workers and the safety subscription.  [handle] is one turn of it on the event
    that fires; a run is the list of events.  Publishing, the wall clock and the JSON
    encoder are outside the program: whether a publication or an encoding succeeds and
    the time of every event come with the event.  The iteration order of the tracker's
    hash map is that of [map_to_list]; no theorem depends on it. *)

From Stdlib Require Import Ascii.
From Stdlib Require String.
From S2P Require Import Prelude RustStr Command Subjects.

#[local] Open Scope string_scope.
#[local] Open Scope list_scope.

(** ** estop.rs *)

Inductive EStopReason : Type :=
| HeartbeatTimeout
| SafetyViolation (guard details : string)
| ManualTrigger
| WatchdogTimeout.

Record EStopEvent : Type := { es_worker_id : string; reason : EStopReason; timestamp : DateTime }.

Definition heartbeat_timeout (worker_id : string) (now : DateTime) : EStopEvent :=
  {| es_worker_id := worker_id; reason := HeartbeatTimeout; timestamp := now |}.
Definition safety_violation (worker_id guard details : string) (now : DateTime) : EStopEvent :=
  {| es_worker_id := worker_id; reason := SafetyViolation guard details; timestamp := now |}.
Definition manual_trigger (worker_id : string) (now : DateTime) : EStopEvent :=
  {| es_worker_id := worker_id; reason := ManualTrigger; timestamp := now |}.

(** ** heartbeat.rs *)

(** [last.elapsed()] at time [now]: zero when [last] is later. *)
Definition elapsed (now last : Instant) : Duration := Z.max 0 (now - last).

(** The heartbeat file: [mtime] is what the file system answers, [None] when the
    metadata or the modification time cannot be read. *)
Record HeartbeatMonitor : Type := { path : string; hm_deadline : Duration }.

Definition monitor_is_alive (self : HeartbeatMonitor) (mtime : option Instant) (now : Instant) : bool :=
  match mtime with
  | None => false
  | Some modified => if now <? modified then true else now - modified <? hm_deadline self
  end%Z.

Record HeartbeatTracker : Type := {
  workers : gmap string Instant;
  stale_threshold : Duration;
}.

Definition new_tracker (stale_threshold : Duration) : HeartbeatTracker :=
  {| workers := ∅; stale_threshold := stale_threshold |}.

Definition record (self : HeartbeatTracker) (worker_id : string) (now : Instant) : HeartbeatTracker :=
  {| workers := <[worker_id := now]> (workers self); stale_threshold := stale_threshold self |}.

Definition is_stale (self : HeartbeatTracker) (now : Instant) (w : string * Instant) : bool :=
  (stale_threshold self <=? elapsed now (snd w))%Z.

Definition stale_workers (self : HeartbeatTracker) (now : Instant) : list string :=
  map fst (List.filter (is_stale self now) (map_to_list (workers self))).

Definition remove (self : HeartbeatTracker) (worker_id : string) : HeartbeatTracker :=
  {| workers := delete worker_id (workers self); stale_threshold := stale_threshold self |}.

Definition worker_count (self : HeartbeatTracker) : nat := size (workers self).

(** ** watchdog.rs *)

Record WatchdogTimer : Type := { wd_deadline : Duration; last_pet : Instant }.

Definition new_watchdog (deadline : Duration) (now : Instant) : WatchdogTimer :=
  {| wd_deadline := deadline; last_pet := now |}.
Definition pet (self : WatchdogTimer) (now : Instant) : WatchdogTimer :=
  {| wd_deadline := wd_deadline self; last_pet := now |}.
Definition is_expired (self : WatchdogTimer) (now : Instant) : bool :=
  (wd_deadline self <=? elapsed now (last_pet self))%Z.
Definition time_remaining (self : WatchdogTimer) (now : Instant) : Duration :=
  saturating_sub (wd_deadline self) (elapsed now (last_pet self)).

(** ** main.rs *)

(** The capacity of the channel of stale workers. *)
Definition CHANNEL_CAPACITY : nat := 16.

Record Daemon : Type := {
  tracker : HeartbeatTracker;
  stale_queue : list (list string);
  (** the [stale_tx] handles that exist: the one in [main] *)
  senders : nat;
  heartbeat_open : bool;
  safety_open : bool;
  exited : bool;
}.

Definition start : Daemon := {|
  tracker := new_tracker (from_secs 30);
  stale_queue := [];
  senders := 1;
  heartbeat_open := true;
  safety_open := true;
  exited := false;
|}.

Definition with_tracker (self : Daemon) (t : HeartbeatTracker) (q : list (list string)) : Daemon := {|
  tracker := t; stale_queue := q; senders := senders self;
  heartbeat_open := heartbeat_open self; safety_open := safety_open self; exited := exited self |}.

(** The worker named by a heartbeat subject: [parts[1]] when there is one. *)
Definition worker_of (subject : string) : option string := split_on "." subject !! 1%nat.

(** [stale_tx.try_send(ids)], its error ignored. *)
Definition try_send (q : list (list string)) (ids : list string) : list (list string) :=
  if (length q <? CHANNEL_CAPACITY)%nat then q ++ [ids] else q.

(** The heartbeat branch. *)
Definition on_heartbeat (self : Daemon) (subject : string) (now : Instant) : Daemon :=
  let t := match worker_of subject with
           | Some worker_id => record (tracker self) worker_id now
           | None => tracker self
           end in
  let stale := stale_workers t now in
  with_tracker self t
    (match stale with [] => stale_queue self | _ => try_send (stale_queue self) stale end).

(** What the environment decides for one e-stop: the time stamp, whether the event is
    encoded and whether it is published. *)
Record Delivery : Type := { at_time : DateTime; encoded : bool; published : bool }.

(** The body of the loop over the stale workers: the tracker afterwards and the e-stop
    published, if any. *)
Definition issue_estop (deliver : string -> Delivery) (t : HeartbeatTracker) (worker_id : string)
    : HeartbeatTracker * list (string * EStopEvent) :=
  let d := deliver worker_id in
  let event := heartbeat_timeout worker_id (at_time d) in
  match Subjects.estop worker_id with
  | Err _ => (t, [])
  | Ok subject =>
      (remove t worker_id,
       if encoded d && published d then [(subject, event)] else [])
  end.

Fixpoint issue_estops (deliver : string -> Delivery) (t : HeartbeatTracker) (ids : list string)
    : HeartbeatTracker * list (string * EStopEvent) :=
  match ids with
  | [] => (t, [])
  | w :: ids =>
      let '(t, out) := issue_estop deliver t w in
      let '(t, outs) := issue_estops deliver t ids in
      (t, out ++ outs)
  end.

Inductive event : Type :=
| Heartbeat (subject : string) (now : Instant)
| StaleBatch (deliver : string -> Delivery)
| SafetyMessage (subject : string)
| HeartbeatEnd
| SafetyEnd
| ElseBranch.

(** One turn of the loop: [None] when the branch cannot fire.  The [else] branch fires
    when every other one is disabled: both subscriptions ended, the channel empty and
    all its senders dropped. *)
Definition handle (self : Daemon) (ev : event) : option (Daemon * list (string * EStopEvent)) :=
  if exited self then None
  else
    match ev with
    | Heartbeat subject now =>
        if heartbeat_open self then Some (on_heartbeat self subject now, []) else None
    | StaleBatch deliver =>
        match stale_queue self with
        | [] => None
        | ids :: q =>
            let '(t, outs) := issue_estops deliver (tracker self) ids in
            Some (with_tracker self t q, outs)
        end
    | SafetyMessage _ => if safety_open self then Some (self, []) else None
    | HeartbeatEnd =>
        Some ({| tracker := tracker self; stale_queue := stale_queue self; senders := senders self;
                 heartbeat_open := false; safety_open := safety_open self; exited := false |}, [])
    | SafetyEnd =>
        Some ({| tracker := tracker self; stale_queue := stale_queue self; senders := senders self;
                 heartbeat_open := heartbeat_open self; safety_open := false; exited := false |}, [])
    | ElseBranch =>
        if negb (heartbeat_open self) && negb (safety_open self)
           && bool_decide (stale_queue self = []) && (senders self =? 0)%nat
        then Some ({| tracker := tracker self; stale_queue := stale_queue self;
                      senders := senders self; heartbeat_open := false; safety_open := false;
                      exited := true |}, [])
        else None
    end.

Fixpoint run (self : Daemon) (evs : list event) : option (Daemon * list (string * EStopEvent)) :=
  match evs with
  | [] => Some (self, [])
  | ev :: evs =>
      match handle self ev with
      | None => None
      | Some (self, out) =>
          match run self evs with
          | None => None
          | Some (self, outs) => Some (self, out ++ outs)
          end
      end
  end.

(** ** The worker: estop.rs and command_watchdog.rs *)

(** The listener task: a message or the end of the subscription signals a halt. *)
Inductive estop_event : Type := EstopMessage | SubscriptionEnded.

Definition listener_step (halt : bool) (ev : estop_event) : bool :=
  match ev with EstopMessage => true | SubscriptionEnded => true end.

Record CommandWatchdog : Type := { last_pet_ms : Z; cw_deadline : Duration }.

Definition command_pet (self : CommandWatchdog) (now_ms : Z) : CommandWatchdog :=
  {| last_pet_ms := now_ms; cw_deadline := cw_deadline self |}.

Definition command_is_expired (self : CommandWatchdog) (now_ms : Z) : bool :=
  (cw_deadline self <? from_millis (saturating_sub now_ms (last_pet_ms self)))%Z.

(** What the watchdog task sees: the ticks of its interval, pets by the command path in
    between, and an external cancellation. *)
Inductive wd_event : Type := WdTick (now_ms : Z) | WdPet (now_ms : Z) | WdCancelled.

(** [run]: whether it cancelled the token by the end of the events; it returns at the
    first expired tick and on cancellation. *)
Fixpoint watchdog_run (self : CommandWatchdog) (evs : list wd_event) : bool :=
  match evs with
  | [] => false
  | WdTick now :: evs => if command_is_expired self now then true else watchdog_run self evs
  | WdPet now :: evs => watchdog_run (command_pet self now) evs
  | WdCancelled :: _ => false
  end.

(** ** The events of a run *)

Definition heartbeat_of (w : string) (ev : event) : Prop :=
  match ev with Heartbeat s _ => worker_of s = Some w | _ => False end.

(** A worker that sent a heartbeat, was then silent for the threshold, and whose silence
    was noticed on the heartbeat of another worker. *)
Definition silent (evs : list event) (w : string) : Prop :=
  exists evs1 s0 t0 evs2 s t evs3,
    evs = evs1 ++ Heartbeat s0 t0 :: evs2 ++ Heartbeat s t :: evs3 /\
    worker_of s0 = Some w /\ worker_of s <> Some w /\
    Forall (fun ev => ~ heartbeat_of w ev) evs2 /\ from_secs 30 <= t - t0.

(** The last heartbeat of [w] in a run was at [t0]. *)
Definition last_heartbeat (evs : list event) (w : string) (t0 : Instant) : Prop :=
  exists evs1 s0 evs2, evs = evs1 ++ Heartbeat s0 t0 :: evs2 /\ worker_of s0 = Some w /\
    Forall (fun ev => ~ heartbeat_of w ev) evs2.

Lemma silent_snoc evs w ev : silent evs w -> silent (evs ++ [ev]) w.
Proof.
  intros (e1 & s0 & t0 & e2 & s & t & e3 & -> & ? & ? & ? & ?).
  exists e1, s0, t0, e2, s, t, (e3 ++ [ev]). split_and!; try done.
  by rewrite <- !app_assoc, <- !app_comm_cons, <- !app_assoc, <- !app_comm_cons.
Qed.

Lemma last_heartbeat_snoc evs w t0 ev :
  last_heartbeat evs w t0 -> ~ heartbeat_of w ev -> last_heartbeat (evs ++ [ev]) w t0.
Proof.
  intros (e1 & s0 & e2 & -> & ? & ?) Hev. exists e1, s0, (e2 ++ [ev]).
  split_and!; [by rewrite <- app_assoc, <- app_comm_cons|done|].
  apply Forall_app. by repeat constructor.
Qed.

Lemma daemon_run_snoc self evs ev :
  run self (evs ++ [ev]) =
  match run self evs with
  | None => None
  | Some (d, outs) =>
      match handle d ev with
      | None => None
      | Some (d', out) => Some (d', outs ++ out)
      end
  end.
Proof.
  revert self. induction evs as [|e evs IH]; intros self; simpl.
  - destruct (handle self ev) as [[d out]|]; [|done]. by rewrite app_nil_r.
  - destruct (handle self e) as [[d out]|]; [|done]. rewrite IH.
    destruct (run d evs) as [[d' outs]|]; [|done].
    destruct (handle d' ev) as [[d'' out']|]; [|done]. by rewrite app_assoc.
Qed.

(** ** The tracker *)

Lemma stale_workers_spec self now w :
  In w (stale_workers self now) <->
  exists t, workers self !! w = Some t /\ stale_threshold self <= elapsed now t.
Proof.
  unfold stale_workers. rewrite in_map_iff. split.
  - intros ([w' t] & <- & Hin). apply filter_In in Hin as [Hin Hs].
    apply list_elem_of_In, elem_of_map_to_list in Hin. exists t. split; [done|].
    unfold is_stale in Hs. by bool_prop.
  - intros (t & Hw & Hs). exists (w, t). split; [done|]. apply filter_In. split.
    + by apply list_elem_of_In, elem_of_map_to_list.
    + unfold is_stale. simpl. by apply Z.leb_le.
Qed.

Lemma issue_estops_spec deliver ids : forall t t' outs,
  issue_estops deliver t ids = (t', outs) ->
  stale_threshold t' = stale_threshold t /\
  (forall w x, workers t' !! w = Some x -> workers t !! w = Some x) /\
  (forall s e, In (s, e) outs ->
     In (es_worker_id e) ids /\ Subjects.estop (es_worker_id e) = Ok s /\
     reason e = HeartbeatTimeout) /\
  (forall w, In w ids -> plain_token w = true ->
     workers t' !! w = None /\
     (encoded (deliver w) = true -> published (deliver w) = true ->
      exists s e, In (s, e) outs /\ es_worker_id e = w)).
Proof.
  induction ids as [|v ids IH]; intros t t' outs H; simpl in H; [simplify_eq; split_and!; naive_solver|].
  unfold issue_estop in H. pose proof (subject_spec (Estop v)) as Hsub. simpl in Hsub.
  destruct (Subjects.estop v) as [s0|e0] eqn:Hv;
    (destruct (issue_estops deliver _ ids) as [t1 outs1] eqn:Hi; simplify_eq;
     destruct (IH _ _ _ Hi) as (Hth & Hsubm & Hout & Hdone)).
  - split_and!; [done| | |].
    + intros w x Hw. apply Hsubm in Hw. simpl in Hw. by apply lookup_delete_Some in Hw as [_ Hw].
    + intros s e [Hin|Hin]%in_app_or.
      * destruct (encoded (deliver v) && published (deliver v)); [|destruct Hin]. destruct Hin as [[= <- <-]|[]]. simpl. split_and!; [by left|done|done].
      * destruct (Hout s e Hin) as (? & ? & ?). split_and!; [by right|done|done].
    + intros w Hin Hp. destruct (in_dec String.string_dec w ids) as [Hi'|Hni].
      * destruct (Hdone w Hi' Hp) as [? Hd]. split; [done|]. intros He Hpb.
        destruct (Hd He Hpb) as (s & e & ? & ?). exists s, e. split; [apply in_or_app; by right|done].
      * destruct Hin as [->|]; [|done]. split.
        { destruct (workers t' !! w) as [x|] eqn:Hx; [|done].
          apply Hsubm in Hx. simpl in Hx. by rewrite lookup_delete_eq in Hx. }
        intros He Hpb. exists s0, (heartbeat_timeout w (at_time (deliver w))).
        rewrite He, Hpb. split; [by left|done].
  - split_and!; [done|done| |].
    + intros s e Hin. destruct (Hout s e Hin) as (? & ? & ?). split_and!; [by right|done|done].
    + intros w [->|Hin] Hp; [|by apply Hdone]. by rewrite Hp in Hsub.
Qed.

(** ** Invariants of the main loop *)

Record daemon_inv (evs : list event) (d : Daemon) : Prop := {
  inv_threshold : stale_threshold (tracker d) = from_secs 30;
  inv_tracker : forall w t, workers (tracker d) !! w = Some t -> last_heartbeat evs w t;
  inv_queue : forall ids w, In ids (stale_queue d) -> In w ids -> silent evs w;
  inv_senders : senders d = 1%nat;
  inv_running : exited d = false;
}.

Lemma start_inv : daemon_inv [] start.
Proof. by split. Qed.

Lemma in_try_send q ids x : In x (try_send q ids) -> In x q \/ x = ids.
Proof.
  unfold try_send. destruct (_ <? _)%nat; [|by left].
  intros [H|[H|[]]]%in_app_or; auto.
Qed.

Lemma heartbeat_inv evs d s now :
  daemon_inv evs d -> daemon_inv (evs ++ [Heartbeat s now]) (on_heartbeat d s now).
Proof.
  intros [Hth Htr Hq Hs Hr].
  set (t := match worker_of s with Some w => record (tracker d) w now | None => tracker d end).
  assert (stale_threshold t = from_secs 30) as Ht by (unfold t; by destruct (worker_of s)).
  assert (forall w x, workers t !! w = Some x ->
            (worker_of s = Some w /\ x = now) \/
            (worker_of s <> Some w /\ workers (tracker d) !! w = Some x)) as Hw.
  { intros w x Hx. unfold t in Hx. destruct (worker_of s) as [v|]; [|by right].
    unfold record in Hx; simpl in Hx.
    apply lookup_insert_Some in Hx as [[-> ->]|[Hne Hx]]; [by left|]. right. split; [congruence|done]. }
  split; try done.
  - intros w x Hx. destruct (Hw w x Hx) as [[Hs' ->]|[Hne Hx']].
    + exists evs, s, []. split_and!; [done|done|constructor].
    + apply last_heartbeat_snoc; [by apply Htr|done].
  - intros ids w Hids Hin.
    assert (In ids (stale_queue d) \/ ids = stale_workers t now) as [Hold| ->].
    { unfold on_heartbeat in Hids. fold t in Hids. simpl in Hids.
      destruct (stale_workers t now) eqn:He; [by left|]. by apply in_try_send in Hids. }
    { apply silent_snoc. by eapply Hq. }
    apply stale_workers_spec in Hin as (x & Hx & Hst). rewrite Ht in Hst.
    assert (from_secs 30 <= now - x) as Hge by (unfold elapsed, from_secs in *; lia).
    destruct (Hw w x Hx) as [[_ ->]|[Hne Hx']]; [unfold from_secs in Hge; lia|].
    destruct (Htr w x Hx') as (e1 & s0 & e2 & -> & ? & ?).
    exists e1, s0, x, e2, s, now, []. split_and!; try done.
    by rewrite <- app_assoc, <- app_comm_cons.
Qed.

Lemma handle_inv evs d ev d' out :
  daemon_inv evs d -> handle d ev = Some (d', out) -> daemon_inv (evs ++ [ev]) d'.
Proof.
  intros Hinv H. pose proof Hinv as [Hth Htr Hq Hs Hr]. unfold handle in H. rewrite Hr in H.
  assert (forall w x, workers (tracker d) !! w = Some x -> ~ heartbeat_of w ev ->
            last_heartbeat (evs ++ [ev]) w x) as Hkeep by (intros; apply last_heartbeat_snoc; auto).
  assert (forall ids w, In ids (stale_queue d) -> In w ids -> silent (evs ++ [ev]) w) as Hqk
    by (intros; eapply silent_snoc; eauto).
  destruct ev as [s now|deliver|s| | |].
  - destruct (heartbeat_open d); simplify_eq. by apply heartbeat_inv.
  - destruct (stale_queue d) as [|ids q] eqn:Hqd; [done|].
    destruct (issue_estops deliver (tracker d) ids) as [t outs] eqn:Hi. simplify_eq.
    destruct (issue_estops_spec _ _ _ _ _ Hi) as (Ht & Hsub & _ & _).
    split; simpl; try done; [by rewrite Ht| |].
    + intros w x Hx. apply Hkeep; [by apply Hsub|naive_solver].
    + intros ids' w Hin. apply Hqk. by right.
  - destruct (safety_open d); simplify_eq. by split; auto.
  - simplify_eq. by split; auto.
  - simplify_eq. by split; auto.
  - by rewrite Hs, andb_false_r in H.
Qed.

Lemma run_inv evs : forall d outs, run start evs = Some (d, outs) -> daemon_inv evs d.
Proof.
  induction evs as [|ev evs IH] using rev_ind; intros d outs H.
  - simpl in H. simplify_eq. apply start_inv.
  - rewrite daemon_run_snoc in H. destruct (run start evs) as [[d1 outs1]|]; [|done].
    destruct (handle d1 ev) as [[d2 out]|] eqn:Hh; [|done]. simplify_eq.
    eapply handle_inv; [|done]. by eapply IH.
Qed.

(** What a turn publishes comes from the batch it takes off the channel. *)
Lemma handle_outputs evs d ev d' out s e :
  daemon_inv evs d -> handle d ev = Some (d', out) -> In (s, e) out ->
  silent evs (es_worker_id e) /\ Subjects.estop (es_worker_id e) = Ok s /\
  reason e = HeartbeatTimeout.
Proof.
  intros Hinv H Hin. unfold handle in H. rewrite (inv_running _ _ Hinv) in H.
  destruct ev; [destruct (heartbeat_open d)| |destruct (safety_open d)| | |destruct (_ && _)%nat];
    try (simplify_eq; destruct Hin; fail).
  destruct (stale_queue d) as [|ids q] eqn:Hq; [done|].
  destruct (issue_estops deliver (tracker d) ids) as [t outs] eqn:Hi. simplify_eq.
  destruct (issue_estops_spec _ _ _ _ _ Hi) as (_ & _ & Hout & _).
  destruct (Hout s e Hin) as (Hids & ? & ?). split_and!; try done.
  eapply (inv_queue _ _ Hinv); [rewrite Hq; by left|done].
Qed.

(** ** Draining the channel *)

Lemma drain_removed dels : forall d w,
  exited d = false -> length (stale_queue d) = length dels ->
  plain_token w = true ->
  Forall (fun deliver => encoded (deliver w) = true /\ published (deliver w) = true) dels ->
  exists d' outs, run d (map StaleBatch dels) = Some (d', outs) /\
    (workers (tracker d) !! w = None -> workers (tracker d') !! w = None) /\
    ((exists ids, In ids (stale_queue d) /\ In w ids) ->
     workers (tracker d') !! w = None /\ exists s e, In (s, e) outs /\ es_worker_id e = w).
Proof.
  induction dels as [|deliver dels IH]; intros d w Hex Hlen Hp Hd; simpl in *.
  { apply nil_length_inv in Hlen. rewrite Hlen. eexists _, _. split_and!; [done|done|naive_solver]. }
  apply Forall_cons in Hd as [[He Hpb] Hd]. unfold handle. rewrite Hex.
  destruct (stale_queue d) as [|ids q] eqn:Hq; [done|]. simpl in Hlen.
  destruct (issue_estops deliver (tracker d) ids) as [t out] eqn:Hi.
  destruct (issue_estops_spec _ _ _ _ _ Hi) as (_ & Hsub & _ & Hdone).
  destruct (IH (with_tracker d t q) w) as (d' & outs & -> & Hkeep & Hrem); [done|simpl; lia|done|done|].
  simpl in *. eexists _, _. split_and!; [done| |].
  - intros Hn. apply Hkeep. destruct (workers t !! w) as [x|] eqn:Hx; [|done].
    apply Hsub in Hx. congruence.
  - intros (ids' & [<-|Hin] & Hw).
    + destruct (Hdone w Hw Hp) as [Hnone Hout]. split; [by apply Hkeep|].
      destruct (Hout He Hpb) as (s & e & ? & ?). exists s, e. split; [apply in_or_app; by left|done].
    + destruct (Hrem (ex_intro _ ids' (conj Hin Hw))) as [? (s & e & ? & ?)].
      split; [done|]. exists s, e. split; [apply in_or_app; by right|done].
Qed.

(** ** Lemmas on a fleet of one and on the watchdogs *)

Record lone (w : string) (d : Daemon) : Prop := {
  lone_threshold : stale_threshold (tracker d) = from_secs 30;
  lone_queue : stale_queue d = [];
  lone_tracked : forall v t, workers (tracker d) !! v = Some t -> v = w;
}.

Lemma stale_none t now :
  stale_threshold t = from_secs 30 ->
  (forall w x, workers t !! w = Some x -> x = now) -> stale_workers t now = [].
Proof.
  intros Ht Hall. destruct (stale_workers t now) as [|w l] eqn:He; [done|].
  assert (In w (stale_workers t now)) as Hin by (rewrite He; by left).
  apply stale_workers_spec in Hin as (x & Hx & Hs). rewrite (Hall w x Hx), Ht in Hs.
  unfold elapsed, from_secs in Hs. lia.
Qed.

Lemma lone_step w d ev d' out :
  lone w d -> handle d ev = Some (d', out) ->
  (forall s t, ev = Heartbeat s t -> worker_of s = Some w) -> lone w d' /\ out = [].
Proof.
  intros [Ht Hq Hw] H Hev. unfold handle in H. destruct (exited d); [done|].
  destruct ev as [s now|deliver|s| | |].
  - destruct (heartbeat_open d); [|done]. simplify_eq. unfold on_heartbeat.
    rewrite (Hev s now eq_refl). rewrite stale_none; [|done|].
    + split; [|done]. split; simpl; [done|done|]. intros v t Hv.
      apply lookup_insert_Some in Hv as [[-> _]|[_ Hv]]; [done|by eapply Hw].
    + intros v x Hv. simpl in Hv. apply lookup_insert_Some in Hv as [[_ ->]|[Hne Hv]]; [done|].
      by apply Hw in Hv.
  - by rewrite Hq in H.
  - destruct (safety_open d); simplify_eq. by split.
  - simplify_eq. by split.
  - simplify_eq. by split.
  - destruct (_ && _)%nat; simplify_eq. by split.
Qed.

(** The last time the watchdog was petted, after some events. *)
Fixpoint petted (initial : Z) (evs : list wd_event) : Z :=
  match evs with
  | [] => initial
  | WdPet now :: evs => petted now evs
  | _ :: evs => petted initial evs
  end.

(** ** Theorems *)

(** C36: e-stops are justified.  In every run of the daemon, an e-stop is published only
    for a worker that had sent a heartbeat and then, for at least thirty seconds, no
    other, when the heartbeat of another worker arrived; it goes to that worker's
    e-stop subject and its reason is the heartbeat timeout. *)
Theorem estops_are_justified (evs : list event) (d : Daemon) (outs : list (string * EStopEvent))
    (s : string) (e : EStopEvent)
    (Hrun : run start evs = Some (d, outs)) (Hin : In (s, e) outs) :
  silent evs (es_worker_id e) /\ Subjects.estop (es_worker_id e) = Ok s /\
  reason e = HeartbeatTimeout.
Proof.
  revert d outs Hrun Hin. induction evs as [|ev evs IH] using rev_ind; intros d outs Hrun Hin.
  { simpl in Hrun. by simplify_eq. }
  rewrite daemon_run_snoc in Hrun. destruct (run start evs) as [[d1 outs1]|] eqn:H1; [|done].
  destruct (handle d1 ev) as [[d2 out]|] eqn:Hh; [|done]. simplify_eq.
  assert (silent evs (es_worker_id e) /\ Subjects.estop (es_worker_id e) = Ok s /\
          reason e = HeartbeatTimeout) as (Hs & ? & ?).
  { apply in_app_or in Hin as [Hin|Hin]; [by eapply IH|].
    eapply handle_outputs; [by eapply run_inv|done|done]. }
  split_and!; [by apply silent_snoc|done|done].
Qed.

Definition all_ok (now : DateTime) (_ : string) : Delivery :=
  {| at_time := now; encoded := true; published := true |}.

Definition demo_events : list event :=
  [ Heartbeat "events.arm.heartbeat" (from_secs 5); Heartbeat "events.base.heartbeat" (from_secs 6);
    Heartbeat "events.base.heartbeat" (from_secs 36); StaleBatch (all_ok 99) ].

Lemma estops_are_justified_witness :
  exists d outs, run start demo_events = Some (d, outs) /\ silent demo_events "arm".
Proof.
  destruct (run start demo_events) as [[d outs]|] eqn:H; [|vm_compute in H; discriminate].
  exists d, outs. split; [reflexivity|].
  apply (estops_are_justified demo_events d outs "safety.estop.arm" (heartbeat_timeout "arm" 99) H).
  vm_compute in H. injection H as <- <-. left. reflexivity.
Defined.

(** C37: a silent worker is stopped once another worker speaks.  Suppose a heartbeat of
    another worker arrives at least the threshold after the last one of [w], whose name is a
    plain token, and the channel has room.  If nothing but the turns that empty the channel
    comes after it, and encoding and publishing work in them, then an e-stop for [w] has been
    published and [w] is no longer tracked. *)
Theorem silence_is_answered (d : Daemon) (s w : string) (t0 t : Instant)
    (dels : list (string -> Delivery))
    (Hrunning : exited d = false) (Hopen : heartbeat_open d = true)
    (Hw : workers (tracker d) !! w = Some t0) (Hs : worker_of s <> Some w)
    (Hlate : 0 < stale_threshold (tracker d) <= t - t0)
    (Hroom : (length (stale_queue d) < CHANNEL_CAPACITY)%nat)
    (Hplain : plain_token w = true)
    (Hlen : length dels = S (length (stale_queue d)))
    (Hdel : Forall (fun deliver => encoded (deliver w) = true /\ published (deliver w) = true) dels) :
  exists d' outs, run d (Heartbeat s t :: map StaleBatch dels) = Some (d', outs) /\
    workers (tracker d') !! w = None /\ exists subj e, In (subj, e) outs /\ es_worker_id e = w.
Proof.
  set (tr := match worker_of s with Some v => record (tracker d) v t | None => tracker d end).
  assert (In w (stale_workers tr t)) as Hstale.
  { apply stale_workers_spec. exists t0. unfold tr.
    destruct (worker_of s) as [v|]; simpl; [rewrite lookup_insert_ne by congruence|];
      (split; [done|unfold elapsed; lia]). }
  assert (stale_queue (on_heartbeat d s t) = stale_queue d ++ [stale_workers tr t]) as Hq.
  { unfold on_heartbeat. fold tr. simpl. destruct (stale_workers tr t) eqn:He; [by destruct Hstale|].
    unfold try_send. by rewrite (proj2 (Nat.ltb_lt _ _)). }
  destruct (drain_removed dels (on_heartbeat d s t) w) as (d' & outs & Hrun & _ & Hrem); try done.
  { rewrite Hq, length_app, Hlen. simpl. lia. }
  exists d', outs. cbn [run]. unfold handle. rewrite Hrunning, Hopen, Hrun. simpl. split; [done|].
  apply Hrem. exists (stale_workers tr t). split; [|done]. rewrite Hq. apply in_or_app. right. by left.
Qed.

Lemma silence_is_answered_witness :
  exists d' outs, run (on_heartbeat start "events.arm.heartbeat" (from_secs 5))
      [Heartbeat "events.base.heartbeat" (from_secs 40); StaleBatch (all_ok 7)] = Some (d', outs) /\
    workers (tracker d') !! "arm" = None /\
    exists subj e, In (subj, e) outs /\ es_worker_id e = "arm".
Proof.
  apply (silence_is_answered (on_heartbeat start "events.arm.heartbeat" (from_secs 5))
           "events.base.heartbeat" "arm" (from_secs 5) (from_secs 40) [all_ok 7]); try reflexivity.
  - discriminate.
  - vm_compute. split; [reflexivity|discriminate].
  - vm_compute. lia.
  - repeat constructor.
Defined.

(** a fleet of one is not watched.  If all heartbeats of a run come from one worker,
    the daemon never publishes an e-stop, however long that worker is silent: staleness
    is only looked at when a heartbeat arrives, and the worker's own heartbeat has just
    renewed it. *)
Theorem lone_worker_never_stopped (w : string) (evs : list event) (d : Daemon)
    (outs : list (string * EStopEvent))
    (Hlone : forall s t, In (Heartbeat s t) evs -> worker_of s = Some w)
    (Hrun : run start evs = Some (d, outs)) : outs = [].
Proof.
  assert (forall d0, lone w d0 -> run d0 evs = Some (d, outs) -> outs = []) as Hgen.
  { clear Hrun. revert outs. induction evs as [|ev evs IH]; intros outs d0 Hl Hrun; simpl in Hrun;
      [by simplify_eq|].
    destruct (handle d0 ev) as [[d1 out]|] eqn:Hh; [|done].
    destruct (run d1 evs) as [[d2 outs2]|] eqn:Hr; [|done]. simplify_eq.
    destruct (lone_step w d0 ev d1 out Hl Hh) as [Hl1 ->].
    { intros s t ->. apply (Hlone s t). by left. }
    simpl. eapply IH; [|exact Hl1|exact Hr]. intros s t Hin. apply (Hlone s t). by right. }
  apply (Hgen start); [|done]. split; [done|done|]. intros v t Hv. simpl in Hv.
  by apply lookup_empty_Some in Hv.
Qed.

Lemma lone_worker_never_stopped_witness :
  exists d outs, run start [Heartbeat "events.arm.heartbeat" 0;
      Heartbeat "events.arm.heartbeat" (from_secs 3600); SafetyMessage "safety.x"] = Some (d, outs) /\
    outs = [].
Proof.
  destruct (run start [Heartbeat "events.arm.heartbeat" 0;
      Heartbeat "events.arm.heartbeat" (from_secs 3600); SafetyMessage "safety.x"])
    as [[d outs]|] eqn:H; [|vm_compute in H; discriminate].
  exists d, outs. split; [reflexivity|].
  apply (lone_worker_never_stopped "arm" _ d outs) in H; [exact H|].
  intros s t [[= <- <-]|[[= <- <-]|[Hc|[]]]]; [reflexivity|reflexivity|discriminate].
Defined.

(** the daemon does not leave its loop.  The sender of the channel of stale workers
    lives in [main] itself, so the branch for the end of all subscriptions never fires:
    in every reachable state, also with both subscriptions ended, the loop waits. *)
Theorem daemon_never_exits (evs : list event) (d : Daemon) (outs : list (string * EStopEvent))
    (Hrun : run start evs = Some (d, outs)) :
  exited d = false /\ handle d ElseBranch = None.
Proof.
  destruct (run_inv evs d outs Hrun) as [_ _ _ Hs He]. split; [done|].
  unfold handle. rewrite He, Hs. by rewrite andb_false_r.
Qed.

Lemma daemon_never_exits_witness :
  exists d outs, run start [HeartbeatEnd; SafetyEnd] = Some (d, outs) /\ handle d ElseBranch = None.
Proof.
  destruct (run start [HeartbeatEnd; SafetyEnd]) as [[d outs]|] eqn:H; [|vm_compute in H; discriminate].
  exists d, outs. split; [reflexivity|]. apply (daemon_never_exits _ d outs H).
Defined.

(** A failed publication still removes the worker from the tracker, so the e-stop is not
    tried again: here the worker stays silent for an hour and is never stopped. *)
Example failed_publication_is_lost :
  match run start
          [ Heartbeat "events.arm.heartbeat" 0; Heartbeat "events.base.heartbeat" (from_secs 31);
            StaleBatch (fun _ => {| at_time := 0; encoded := true; published := false |});
            Heartbeat "events.base.heartbeat" (from_secs 3600) ] with
  | Some (d, outs) => outs = [] /\ stale_queue d = [] /\ worker_count (tracker d) = 1%nat
  | None => False
  end.
Proof. vm_compute. repeat split. Qed.

(** the watchdog timer.  It is expired exactly when no time remains; after a pet it
    is expired exactly from the deadline on; the remaining time and the elapsed time
    make up the deadline until then. *)
Theorem watchdog_timer_exact (self : WatchdogTimer) (t0 now : Instant)
    (Hd : 0 < wd_deadline self) (Hnow : t0 <= now) :
  let wd := pet self t0 in
  (is_expired wd now = true <-> time_remaining wd now = 0) /\
  (is_expired wd now = true <-> wd_deadline self <= now - t0) /\
  (is_expired wd now = false -> time_remaining wd now = wd_deadline self - (now - t0)).
Proof.
  unfold is_expired, time_remaining, saturating_sub, elapsed. simpl.
  destruct (Z.leb_spec (wd_deadline self) (Z.max 0 (now - t0))); split_and!; intuition lia.
Qed.

Lemma watchdog_timer_exact_witness :
  is_expired (pet (new_watchdog (from_secs 2) 0) 10) (10 + from_secs 2) = true /\
  is_expired (pet (new_watchdog (from_secs 2) 0) 10) (9 + from_secs 2) = false.
Proof.
  split.
  - apply (watchdog_timer_exact (new_watchdog (from_secs 2) 0) 10 (10 + from_secs 2));
      vm_compute; try reflexivity; discriminate.
  - destruct (watchdog_timer_exact (new_watchdog (from_secs 2) 0) 10 (9 + from_secs 2)) as (_ & H & _);
      [vm_compute; reflexivity|vm_compute; discriminate|].
    destruct (is_expired _ _); [|reflexivity]. destruct H as [H _]. specialize (H eq_refl).
    vm_compute in H. contradiction H. reflexivity.
Defined.

(** the command watchdog fires exactly on silence.  It cancels the task if and only
    if some tick of its interval, not preceded by a cancellation, comes more than the
    deadline after the last command before it. *)
Theorem command_watchdog_exact (self : CommandWatchdog) (evs : list wd_event) :
  watchdog_run self evs = true <->
  exists before now after, evs = before ++ WdTick now :: after /\ ~ In WdCancelled before /\
    cw_deadline self < from_millis (saturating_sub now (petted (last_pet_ms self) before)).
Proof.
  revert self. induction evs as [|ev evs IH]; intros self; simpl.
  { split; [done|]. by intros ([|] & ? & ? & ? & _). }
  split.
  - intros H. destruct ev as [now|now|]; [|apply IH in H|done].
    + destruct (command_is_expired self now) eqn:He.
      * exists [], now, evs. split_and!; [done|tauto|]. by apply Z.ltb_lt.
      * apply IH in H as (b & n & a & -> & Hc & Hd). exists (WdTick now :: b), n, a.
        split_and!; [done| |done]. intros [?|?]; [done|tauto].
    + destruct H as (b & n & a & -> & Hc & Hd). exists (WdPet now :: b), n, a.
      split_and!; [done| |done]. intros [?|?]; [done|tauto].
  - intros (b & n & a & Heq & Hc & Hd). destruct b as [|e b]; simplify_eq/=.
    + unfold command_is_expired. by rewrite (proj2 (Z.ltb_lt _ _) Hd).
    + destruct e as [m|m|].
      * destruct (command_is_expired self m); [done|]. apply IH. exists b, n, a. naive_solver.
      * apply IH. exists b, n, a. naive_solver.
      * tauto.
Qed.
