(* ===== verification/JsonRepair.v ===== *)
(** * Repair of nearly valid JSON

    [crates/roz-core/src/json_repair.rs]: the four passes over a document emitted by a
    language model, and the pipeline that stops at the first text [serde_json] accepts.
    The parser itself is the parameter [parses] (its error message, or [None]).

    The passes work on the bytes of a UTF-8 text; [utf8_valid] is the validity of the
    Unicode standard, needed for the fallback of the comma pass. *)

From Stdlib Require Import Ascii.
From Stdlib Require String.
From S2P Require Import Prelude RustStr.

#[local] Open Scope string_scope.
#[local] Open Scope list_scope.

(** [Unrepairable], with the message [format!] renders. *)
Inductive JsonRepairError : Type := Unrepairable (msg : string).

Definition quote : ascii := ascii_of_nat 34.
Definition backslash : ascii := ascii_of_nat 92.
Definition newline : string := String (ascii_of_nat 10) "".
Definition fence : string := "```".

(** [s.strip_suffix(p)], [s.split_once(c)]. *)
Definition strip_suffix (p s : string) : option string :=
  if ends_with p s then Some (take_front (String.length s - String.length p) s) else None.
Definition split_once (p s : string) : option (string * string) :=
  match find p s with
  | Some n => Some (take_front n s, drop_front (n + String.length p) s)
  | None => None
  end.

Definition strip_code_fence (input : string) : string :=
  match strip_prefix fence (trim input) with
  | None => input
  | Some after_open =>
      let body := match split_once newline after_open with
                  | Some (_, rest) => rest
                  | None => after_open
                  end in
      trim (match strip_suffix fence (trim_end body) with
            | Some inner => trim inner
            | None => body
            end)
  end.

(** [bytes.iter().rposition(|b| b == c)]. *)
Fixpoint rposition (c : ascii) (s : string) : option nat :=
  match s with
  | "" => None
  | String a s' =>
      match rposition c s' with
      | Some n => Some (S n)
      | None => if Ascii.eqb a c then Some 0%nat else None
      end
  end.

(** The earlier of the first [{] and the first [[]. *)
Definition prose_start (input : string) : option nat :=
  match find "{" input, find "[" input with
  | Some o, Some a => Some (Nat.min o a)
  | Some o, None => Some o
  | None, Some a => Some a
  | None, None => None
  end.

Definition trim_leading_trailing_prose (input : string) : exec string :=
  match prose_start input with
  | None => Ret input
  | Some start =>
      match String.get start input with
      | None => Panic
      | Some open =>
          let close := if Ascii.eqb open "{" then "}"%char else "]"%char in
          match rposition close input with
          | None => slice input start (String.length input)
          | Some e =>
              if (e <? start)%nat then slice input start (String.length input)
              else slice input start (S e)
          end
      end
  end.

(** [u8::is_ascii_whitespace]. *)
Definition is_ascii_whitespace (a : ascii) : bool :=
  match nat_of_ascii a with 9%nat | 10%nat | 12%nat | 13%nat | 32%nat => true | _ => false end.

Fixpoint skip_whitespace (s : string) : string :=
  match s with
  | "" => ""
  | String a s' => if is_ascii_whitespace a then skip_whitespace s' else s
  end.

(** A comma followed, after white space, by a closing bracket. *)
Definition closes_next (rest : string) : bool :=
  match skip_whitespace rest with
  | String a _ => Ascii.eqb a "}" || Ascii.eqb a "]"
  | "" => false
  end.

(** The scanner state inside a literal: after [c], are we still in the string, and is
    the next character escaped? *)
Definition string_step (escaped : bool) (c : ascii) : bool * bool :=
  if escaped then (true, false)
  else if Ascii.eqb c backslash then (true, true)
  else if Ascii.eqb c quote then (false, false)
  else (true, false).

(** The loop of [fix_trailing_commas]: what it writes for the bytes from [i] on. *)
Fixpoint fix_loop (in_string escaped : bool) (s : string) : string :=
  match s with
  | "" => ""
  | String c s' =>
      if in_string then
        let '(in_string, escaped) := string_step escaped c in
        String c (fix_loop in_string escaped s')
      else if Ascii.eqb c quote then String c (fix_loop true escaped s')
      else if Ascii.eqb c "," && closes_next s' then fix_loop false escaped s'
      else String c (fix_loop false escaped s')
  end.

(** ** UTF-8 validity *)

Inductive utf8_state : Type := U0 | U1 | U2 | U3 | UE0 | UED | UF0 | UF4.

Definition between (lo hi n : nat) : bool := ((lo <=? n) && (n <=? hi))%nat.

Definition utf8_step (st : utf8_state) (a : ascii) : option utf8_state :=
  let n := nat_of_ascii a in
  match st with
  | U0 =>
      if (n <=? 127)%nat then Some U0
      else if between 194 223 n then Some U1
      else if (n =? 224)%nat then Some UE0
      else if (n =? 237)%nat then Some UED
      else if between 225 239 n then Some U2
      else if (n =? 240)%nat then Some UF0
      else if between 241 243 n then Some U3
      else if (n =? 244)%nat then Some UF4
      else None
  | U1 => if between 128 191 n then Some U0 else None
  | U2 => if between 128 191 n then Some U1 else None
  | U3 => if between 128 191 n then Some U2 else None
  | UE0 => if between 160 191 n then Some U1 else None
  | UED => if between 128 159 n then Some U1 else None
  | UF0 => if between 144 191 n then Some U2 else None
  | UF4 => if between 128 143 n then Some U2 else None
  end.

Fixpoint utf8_from (st : utf8_state) (s : string) : bool :=
  match s with
  | "" => match st with U0 => true | _ => false end
  | String a s' => match utf8_step st a with Some st' => utf8_from st' s' | None => false end
  end.
Definition utf8_valid (s : string) : bool := utf8_from U0 s.

(** [String::from_utf8(out).unwrap_or_else(|_| input.to_string())]. *)
Definition fix_trailing_commas (input : string) : string :=
  let out := fix_loop false false input in
  if utf8_valid out then out else input.

(** ** close_dangling_braces *)

Definition closer_of (c : ascii) : option ascii :=
  if Ascii.eqb c "{" then Some "}"%char else if Ascii.eqb c "[" then Some "]"%char else None.

Definition is_closer (c : ascii) : bool := Ascii.eqb c "}" || Ascii.eqb c "]".

Record scan_state : Type := { stack : list ascii; in_string : bool; escaped : bool }.

Definition mismatch (c : ascii) (expected : option ascii) : JsonRepairError :=
  Unrepairable ("mismatched bracket: found " +:+ String c "" +:+ " with expected "
    +:+ match expected with
        | Some e => "Some(" +:+ pretty (Z.of_nat (nat_of_ascii e)) +:+ ")"
        | None => "None"
        end).

(** One turn of the loop over the bytes. *)
Definition scan_step (st : scan_state) (c : ascii) : result scan_state JsonRepairError :=
  if in_string st then
    let '(i, e) := string_step (escaped st) c in
    Ok {| stack := stack st; in_string := i; escaped := e |}
  else if Ascii.eqb c quote then
    Ok {| stack := stack st; in_string := true; escaped := escaped st |}
  else
    match closer_of c with
    | Some closer =>
        Ok {| stack := closer :: stack st; in_string := false; escaped := escaped st |}
    | None =>
        if is_closer c then
          match stack st with
          | e :: rest =>
              if Ascii.eqb e c then Ok {| stack := rest; in_string := false; escaped := escaped st |}
              else Err (mismatch c (Some e))
          | [] => Err (mismatch c None)
          end
        else Ok st
    end.

Fixpoint scan (st : scan_state) (s : string) : result scan_state JsonRepairError :=
  match s with
  | "" => Ok st
  | String c s' => let? st := scan_step st c in scan st s'
  end.

Definition scan_start : scan_state := {| stack := []; in_string := false; escaped := false |}.

Definition of_chars (l : list ascii) : string := fold_right String "" l.

(** What is appended: the quote of an open string, then the pending closers. *)
Definition closing (st : scan_state) : string :=
  (if in_string st then String quote "" else "") +:+ of_chars (stack st).

Definition close_dangling_braces (input : string) : result string JsonRepairError :=
  let? st := scan scan_start input in Ok (input +:+ closing st).

(** ** The pipeline *)

Section Repair.
(** The error of [serde_json::from_str] on a text, [None] when it parses. *)
Context (parses : string -> option string).

Definition accepted (s : string) : bool := match parses s with None => true | Some _ => false end.

Definition repair (input : string) : exec (result string JsonRepairError) :=
  if accepted input then Ret (Ok input)
  else
    let s1 := strip_code_fence input in
    if accepted s1 then Ret (Ok s1)
    else
      let! s2 := trim_leading_trailing_prose s1 in
      if accepted s2 then Ret (Ok s2)
      else
        let s3 := fix_trailing_commas s2 in
        if accepted s3 then Ret (Ok s3)
        else
          match close_dangling_braces s3 with
          | Err e => Ret (Err e)
          | Ok s4 =>
              match parses s4 with
              | None => Ret (Ok s4)
              | Some e => Ret (Err (Unrepairable e))
              end
          end.
End Repair.

Definition dq : string := String quote "".

Example strip_example :
  strip_code_fence (fence +:+ "json" +:+ newline +:+ "[1]" +:+ newline +:+ fence) = "[1]".
Proof. vm_compute. reflexivity. Qed.

Example fix_example :
  fix_trailing_commas ("{" +:+ dq +:+ "a" +:+ dq +:+ ":" +:+ dq +:+ "x,}" +:+ dq +:+ ", }")
  = "{" +:+ dq +:+ "a" +:+ dq +:+ ":" +:+ dq +:+ "x,}" +:+ dq +:+ " }".
Proof. vm_compute. reflexivity. Qed.

(** ** Lemmas on the passes *)

Lemma get_lt s n : (n < String.length s)%nat -> exists a, String.get n s = Some a.
Proof.
  revert n. induction s as [|c s IH]; intros n H; simpl in H; [lia|].
  destruct n; simpl; [eauto|]. apply IH. lia.
Qed.

Lemma rposition_lt c s n : rposition c s = Some n -> (n < String.length s)%nat.
Proof.
  revert n. induction s as [|a s IH]; intros n H; simpl in H; [done|].
  destruct (rposition c s) as [m|]; simplify_eq; simpl; [specialize (IH _ eq_refl); lia|].
  destruct (Ascii.eqb a c); simplify_eq. lia.
Qed.

Lemma find_lt c s n : find (String c "") s = Some n -> (n < String.length s)%nat.
Proof. intros (a & b & -> & <-)%find_spec. rewrite !str_app_length. simpl. lia. Qed.

Lemma prose_start_lt s n : prose_start s = Some n -> (n < String.length s)%nat /\ char_boundary s n = true.
Proof.
  assert (H : forall c n, is_ascii c = true -> find (String c "") s = Some n ->
    (n < String.length s)%nat /\ char_boundary s n = true).
  { intros c m Hc Hf. split; [by eapply find_lt|]. apply find_spec in Hf as (a & b & -> & <-).
    by apply boundary_before. }
  pose proof (H "{"%char) as Hob. pose proof (H "["%char) as Har. clear H.
  unfold prose_start. destruct (find "{" s) as [o|] eqn:Ho, (find "[" s) as [a|] eqn:Ha;
    intros Hn; simplify_eq; eauto.
  destruct (Nat.min_spec o a) as [[_ ->]|[_ ->]]; eauto.
Qed.

Lemma rposition_boundary c s n : is_ascii c = true -> rposition c s = Some n ->
  char_boundary s (S n) = true.
Proof.
  intros Hc Hr. assert (exists a b, s = a +:+ String c b /\ String.length a = n) as (a & b & -> & <-).
  { revert n Hr. induction s as [|x s IH]; intros n H; simpl in H; [done|].
    destruct (rposition c s) as [m|].
    - destruct (IH _ eq_refl) as (a & b & -> & Hl). injection H as <-.
      exists (String x a), b. simpl. by rewrite Hl.
    - destruct (Ascii.eqb_spec x c) as [->|]; [|done]. injection H as <-. by exists "", s. }
  by apply boundary_after.
Qed.

Lemma prose_total s : exists r, trim_leading_trailing_prose s = Ret r.
Proof.
  unfold trim_leading_trailing_prose. destruct (prose_start s) as [n|] eqn:Hn; [|eauto].
  apply prose_start_lt in Hn as [Hn Hb]. destruct (get_lt s n Hn) as [c ->].
  set (close := if Ascii.eqb c "{" then "}"%char else "]"%char).
  assert (is_ascii close = true) as Hc by (by unfold close; destruct (Ascii.eqb _ _)).
  destruct (rposition close s) as [e|] eqn:He; [|rewrite slice_ret by (done || lia || apply boundary_end); eauto].
  pose proof (rposition_boundary close s e Hc He). apply rposition_lt in He.
  destruct (Nat.ltb_spec e n); rewrite slice_ret by (done || lia || apply boundary_end); eauto.
Qed.

(** Dropping an ASCII byte keeps a text valid UTF-8. *)
Lemma utf8_comma st s : utf8_from st (String "," s) = true -> st = U0 /\ utf8_from U0 s = true.
Proof. by destruct st. Qed.

Lemma fix_loop_utf8 s : forall i e st, utf8_from st s = true -> utf8_from st (fix_loop i e s) = true.
Proof.
  induction s as [|c s IH]; intros i e st H; [done|]. simpl.
  assert (forall i' e', utf8_from st (String c (fix_loop i' e' s)) = true) as Hkeep.
  { intros i' e'. simpl in *. destruct (utf8_step st c); [auto|done]. }
  destruct i; [destruct (string_step e c); apply Hkeep|].
  destruct (Ascii.eqb c quote); [apply Hkeep|].
  destruct (Ascii.eqb_spec c ",") as [->|]; simpl; [|apply Hkeep].
  destruct (closes_next s); [|apply Hkeep].
  apply utf8_comma in H as [-> H]. by apply IH.
Qed.

(** The text without its commas outside string literals. *)
Fixpoint without_commas (in_str esc : bool) (s : string) : string :=
  match s with
  | "" => ""
  | String c s' =>
      if in_str then
        let '(i, e) := string_step esc c in String c (without_commas i e s')
      else if Ascii.eqb c quote then String c (without_commas true esc s')
      else if Ascii.eqb c "," then without_commas false esc s'
      else String c (without_commas false esc s')
  end.

Lemma fix_loop_without s : forall i e, without_commas i e (fix_loop i e s) = without_commas i e s.
Proof.
  induction s as [|c s IH]; intros i e; [done|]. simpl.
  destruct i.
  - destruct (string_step e c) as [i' e'] eqn:Hs. simpl. rewrite Hs. by rewrite IH.
  - destruct (Ascii.eqb c quote) eqn:Hq; simpl; rewrite ?Hq; [by rewrite IH|].
    destruct (Ascii.eqb c ",") eqn:Hc; simpl.
    + destruct (closes_next s); [by rewrite IH|]. simpl. rewrite Hq, Hc. by rewrite IH.
    + rewrite Hq, Hc. by rewrite IH.
Qed.

(** Some comma outside the literals of the text is a trailing one. *)
Fixpoint has_trailing_comma (in_str esc : bool) (s : string) : bool :=
  match s with
  | "" => false
  | String c s' =>
      if in_str then let '(i, e) := string_step esc c in has_trailing_comma i e s'
      else if Ascii.eqb c quote then has_trailing_comma true esc s'
      else (Ascii.eqb c "," && closes_next s') || has_trailing_comma false esc s'
  end.

Lemma fix_loop_id s : forall i e, has_trailing_comma i e s = false -> fix_loop i e s = s.
Proof.
  induction s as [|c s IH]; intros i e H; [done|]. simpl in *.
  destruct i; [destruct (string_step e c); by rewrite IH|].
  destruct (Ascii.eqb c quote); [by rewrite IH|].
  apply orb_false_iff in H as [H1 H2]. rewrite H1. by rewrite IH.
Qed.

(** *** The bracket scanner *)

Lemma scan_app st a b : scan st (a +:+ b) = (let? st' := scan st a in scan st' b).
Proof.
  revert st. induction a as [|c a IH]; intros st; [done|].
  change (String c a +:+ b) with (String c (a +:+ b)). simpl.
  destruct (scan_step st c); [|done]. simpl. apply IH.
Qed.

Definition closers_only (st : scan_state) : Prop := Forall (fun c => is_closer c = true) (stack st).

Lemma scan_step_closers st c st' :
  closers_only st -> scan_step st c = Ok st' -> closers_only st'.
Proof.
  unfold closers_only, scan_step. intros Hc H. destruct (in_string st).
  { destruct (string_step (escaped st) c). by simplify_eq. }
  destruct (Ascii.eqb c quote); [by simplify_eq|].
  destruct (closer_of c) as [d|] eqn:Hd.
  { simplify_eq. constructor; [|done]. unfold closer_of in Hd. by repeat (case_match; simplify_eq). }
  destruct (is_closer c); [|by simplify_eq]. destruct (stack st) as [|e rest]; [done|].
  destruct (Ascii.eqb e c); [|done]. simplify_eq. by apply Forall_cons in Hc as [_ Hc].
Qed.

Lemma scan_closers s : forall st st', closers_only st -> scan st s = Ok st' -> closers_only st'.
Proof.
  induction s as [|c s IH]; intros st st' Hc H; simpl in H; [by simplify_eq|].
  apply result_bind_ok in H as (st1 & H1 & H). eauto using scan_step_closers.
Qed.

(** Outside a string, an escape is never pending. *)
Lemma scan_step_escaped st c st' :
  (in_string st = false -> escaped st = false) -> scan_step st c = Ok st' ->
  in_string st' = false -> escaped st' = false.
Proof.
  intros Hi H Hf. unfold scan_step in H. destruct (in_string st) eqn:Hin.
  - unfold string_step in H. by repeat (case_match; simplify_eq/=).
  - specialize (Hi eq_refl). by repeat (case_match; simplify_eq/=).
Qed.

Lemma scan_escaped s : forall st st',
  (in_string st = false -> escaped st = false) -> scan st s = Ok st' ->
  in_string st' = false -> escaped st' = false.
Proof.
  induction s as [|c s IH]; intros st st' Hi H; simpl in H; [by simplify_eq|].
  apply result_bind_ok in H as (st1 & H1 & H). eauto using scan_step_escaped.
Qed.

Lemma scan_stack l e :
  Forall (fun c => is_closer c = true) l ->
  scan {| stack := l; in_string := false; escaped := e |} (of_chars l)
  = Ok {| stack := []; in_string := false; escaped := e |}.
Proof.
  induction 1 as [|c l Hc Hl IH]; [done|]. simpl. unfold scan_step. simpl.
  assert (c = "}"%char \/ c = "]"%char) as [-> | ->].
  { unfold is_closer in Hc. apply orb_true_iff in Hc as [Hc|Hc]; apply Ascii.eqb_eq in Hc; auto. }
  - exact IH.
  - exact IH.
Qed.

(** The text ends inside a string, right after a backslash. *)
Definition pending_escape (s : string) : bool :=
  match scan scan_start s with Ok st => in_string st && escaped st | Err _ => false end.

Lemma scan_closing s st :
  scan scan_start s = Ok st -> in_string st && escaped st = false ->
  exists e, scan scan_start (s +:+ closing st) = Ok {| stack := []; in_string := false; escaped := e |}.
Proof.
  intros H He. rewrite scan_app, H. simpl. unfold closing.
  assert (closers_only st) as Hc by (eapply scan_closers; [|exact H]; constructor).
  destruct st as [l i e]; simpl in *. destruct i; simpl in He; subst; simpl.
  - exists false. change (String quote "" +:+ of_chars l) with (String quote (of_chars l)).
    simpl. by apply scan_stack.
  - exists e. by apply scan_stack.
Qed.

(** ** Theorems *)

(** the comma pass only drops commas outside string literals.  On valid UTF-8 its
    output is valid UTF-8 (so the fallback to the input is never taken), equal to the
    input up to commas outside literals, and equal to the input when that has no
    trailing comma. *)
Theorem comma_pass_conservative (s : string) (Hs : utf8_valid s = true) :
  let out := fix_trailing_commas s in
  utf8_valid out = true /\ out = fix_loop false false s /\
  without_commas false false out = without_commas false false s /\
  (has_trailing_comma false false s = false -> out = s).
Proof.
  pose proof (fix_loop_utf8 s false false U0 Hs) as Hv. unfold fix_trailing_commas.
  fold (utf8_valid (fix_loop false false s)) in Hv. rewrite Hv.
  split_and!; [done|done|apply fix_loop_without|apply fix_loop_id].
Qed.

Lemma comma_pass_conservative_witness :
  fix_trailing_commas ("[" +:+ dq +:+ "é,]" +:+ dq +:+ " , ]")
    = fix_loop false false ("[" +:+ dq +:+ "é,]" +:+ dq +:+ " , ]") /\
  fix_trailing_commas "[1, 2]" = "[1, 2]".
Proof.
  split.
  - apply (comma_pass_conservative ("[" +:+ dq +:+ "é,]" +:+ dq +:+ " , ]")). vm_compute. reflexivity.
  - apply (comma_pass_conservative "[1, 2]"); vm_compute; reflexivity.
Defined.

(** the bracket pass balances the text.  When it succeeds, its output extends the
    input, and unless the input breaks off right after a backslash inside a string, the
    output is balanced: the pass has nothing to add to it and finds no mismatch. *)
Theorem bracket_pass_balances (s out : string) (H : close_dangling_braces s = Ok out) :
  (exists suffix, out = s +:+ suffix) /\
  (pending_escape s = false -> close_dangling_braces out = Ok out).
Proof.
  unfold close_dangling_braces in H. apply result_bind_ok in H as (st & Hst & [= <-]).
  split; [by eexists|]. intros Hp. unfold pending_escape in Hp. rewrite Hst in Hp.
  destruct (scan_closing s st Hst Hp) as [e He]. unfold close_dangling_braces. rewrite He. simpl.
  by rewrite str_app_nil_r.
Qed.

Lemma bracket_pass_balances_witness :
  close_dangling_braces ("[{" +:+ dq +:+ "a" +:+ dq +:+ ": [" +:+ dq +:+ "b]")
    = Ok ("[{" +:+ dq +:+ "a" +:+ dq +:+ ": [" +:+ dq +:+ "b]" +:+ dq +:+ "]}]") /\
  close_dangling_braces ("[{" +:+ dq +:+ "a" +:+ dq +:+ ": [" +:+ dq +:+ "b]" +:+ dq +:+ "]}]")
    = Ok ("[{" +:+ dq +:+ "a" +:+ dq +:+ ": [" +:+ dq +:+ "b]" +:+ dq +:+ "]}]").
Proof.
  split; [vm_compute; reflexivity|].
  apply (bracket_pass_balances ("[{" +:+ dq +:+ "a" +:+ dq +:+ ": [" +:+ dq +:+ "b]")); vm_compute; reflexivity.
Defined.

(** the repair pipeline.  It never panics; what it returns as repaired is accepted by
    the parser; a text the parser accepts is returned as it stands, so that repairing
    twice is repairing once; and it gives up only on a text that the parser rejects
    before and after the passes. *)
Theorem repair_sound (parses : string -> option string) (input : string) :
  exists r, repair parses input = Ret r /\
    (accepted parses input = true -> r = Ok input) /\
    match r with
    | Ok out => accepted parses out = true /\ repair parses out = Ret (Ok out)
    | Err _ =>
        accepted parses input = false /\ accepted parses (strip_code_fence input) = false /\
        exists s2, trim_leading_trailing_prose (strip_code_fence input) = Ret s2 /\
          accepted parses s2 = false /\ accepted parses (fix_trailing_commas s2) = false /\
          match close_dangling_braces (fix_trailing_commas s2) with
          | Ok s4 => accepted parses s4 = false
          | Err _ => True
          end
    end.
Proof.
  assert (forall s, accepted parses s = true -> repair parses s = Ret (Ok s)) as Hid
    by (intros s Hs; unfold repair; by rewrite Hs).
  unfold repair. destruct (accepted parses input) eqn:E0.
  { exists (Ok input). split; [done|]. split; [done|]. split; [done|by apply Hid]. }
  destruct (accepted parses (strip_code_fence input)) eqn:E1.
  { eexists. split; [done|]. split; [done|]. split; [done|by apply Hid]. }
  destruct (prose_total (strip_code_fence input)) as [s2 Hs2]. rewrite Hs2. simpl.
  destruct (accepted parses s2) eqn:E2.
  { eexists. split; [done|]. split; [done|]. split; [done|by apply Hid]. }
  destruct (accepted parses (fix_trailing_commas s2)) eqn:E3.
  { eexists. split; [done|]. split; [done|]. split; [done|by apply Hid]. }
  destruct (close_dangling_braces (fix_trailing_commas s2)) as [s4|e] eqn:E4.
  2: { eexists. split; [done|]. split; [done|]. split; [done|]. split; [done|]. exists s2. by rewrite E4. }
  destruct (parses s4) as [m|] eqn:E5.
  - eexists. split; [done|]. split; [done|]. split; [done|]. split; [done|].
    exists s2. rewrite E4. unfold accepted at 3. by rewrite E5.
  - eexists. split; [done|]. split; [done|].
    assert (accepted parses s4 = true) as Ha by (unfold accepted; by rewrite E5).
    split; [done|by apply Hid].
Qed.

(** A text that breaks off after a backslash is closed with an escaped quote: the string
    literal stays open. *)
Example dangling_escape_stays_open :
  let s := "{" +:+ dq +:+ "a" +:+ String backslash "" in
  close_dangling_braces s = Ok (s +:+ dq +:+ "}") /\
  match scan scan_start (s +:+ dq +:+ "}") with Ok st => in_string st = true | Err _ => False end.
Proof. vm_compute. by split. Qed.

(** Of several commas in a row only the last is dropped. *)
Example repeated_commas_remain : fix_trailing_commas "[1,,]" = "[1,]".
Proof. vm_compute. reflexivity. Qed.
