(* ===== verification/Guards.v ===== *)
(** * Guards of tool calls

    The interlocks between a language model's tool call and the robot
    (roz-agent/src/safety/): the stack of guards, and the guards for velocity, call
    rate, battery, geofence, sensor age, mode transition, schema and permission, with
    the stack a worker builds.  A guard is a member of [SafetyGuard]; a heterogeneous
    stack is a list of [BoxedGuard].  What a guard reads from the clocks is an argument. *)

From Stdlib Require Import Ascii Sorted.
From S2P Require Import Prelude Float64 Float64Round RustStr Json SafetyFilter.

(** ** roz-core: tool calls, verdicts, world state *)

Record ToolCall (V : Type) : Type := { tc_id : string; tool : string; params : V }.
Arguments tc_id {V} _.
Arguments tool {V} _.
Arguments params {V} _.

Inductive SafetyVerdict (V : Type) : Type :=
| Allow
| Modify (clamped : ToolCall V) (reason : message)
| Block (reason : message)
| RequireConfirmation (reason : message) (timeout_secs : Z).
Arguments Allow {V}.
Arguments Modify {V} _ _.
Arguments Block {V} _.
Arguments RequireConfirmation {V} _ _.

Inductive AlertSeverity : Type := Info | Warning | Critical | Emergency.

#[export] Instance AlertSeverity_eq_dec : EqDecision AlertSeverity.
Proof. solve_decision. Defined.

(** The derived [Ord]: the order of the constructors. *)
Definition severity_rank (s : AlertSeverity) : nat :=
  match s with Info => 0 | Warning => 1 | Critical => 2 | Emergency => 3 end.

Record Alert : Type := { severity : AlertSeverity; al_message : string; al_source : string }.

Record EntityState (V : Type) : Type := {
  e_id : string;
  e_kind : string;
  e_position : option (f64 * f64 * f64);
  e_orientation : option (f64 * f64 * f64 * f64);
  e_velocity : option (f64 * f64 * f64);
  properties : gmap string V;
  timestamp_ns : option Z;
  e_frame_id : string;
  last_observed_ns : option Z;
  observation_confidence : f64;
}.
Arguments properties {V} _.
Arguments timestamp_ns {V} _.

Record SimScreenshot : Type := {
  shot_name : string;
  media_type : string;
  shot_data : string;
  depth_data : option string;
}.
Record SpatialRelation : Type := {
  rel_subject : string;
  relation : string;
  rel_object : string;
  rel_value : option f64;
  rel_unit : option string;
}.
Record ActiveConstraint : Type := { ac_name : string; ac_description : string; ac_active : bool }.
Record CoverageRegion : Type := {
  cov_frame_id : string;
  radius : f64;
  confidence : f64;
  cov_last_observed_ns : Z;
}.
Record OccludedRegion : Type := { occ_frame_id : string; occ_reason : string; since_ns : Z }.

Record WorldState (V : Type) : Type := {
  entities : list (EntityState V);
  relations : list SpatialRelation;
  constraints : list ActiveConstraint;
  alerts : list Alert;
  screenshots : list SimScreenshot;
  observation_coverage : list CoverageRegion;
  occluded_regions : list OccludedRegion;
}.
Arguments entities {V} _.
Arguments alerts {V} _.
Arguments screenshots {V} _.

(** ** The guards

    [Readings] are the clocks when a guard runs: the monotonic clock, and the system
    clock as the [u64] of nanoseconds since the epoch the code computes from it. *)

Record Readings : Type := { monotonic : Instant; system_ns : Z }.

Class SafetyGuard (V G : Type) := {
  guard_name : G -> string;
  check : Readings -> G -> ToolCall V -> WorldState V -> exec (SafetyVerdict V * G);
}.

(** *** velocity.rs *)

Record VelocityLimiter : Type := { max_velocity_ms : f64 }.

(** [confidence.clamp(0.1, 1.0)] cannot panic: the bounds are constants. *)
Definition max_velocity_for_confidence (self : VelocityLimiter) (confidence : f64) : exec f64 :=
  let! c := clamp confidence (f64_dec 1 1) one in
  Ret (f64_mul (max_velocity_ms self) c).

Definition VELOCITY_PARAM_NAMES : list string := ["velocity_ms"; "vel"; "speed"; "velocity"].

(** *** rate.rs: the history is a [VecDeque], front first. *)

Record RateGuard : Type := { max_calls : Z; window : Duration; history : list Instant }.

Definition new_rate_guard (max_calls : Z) (window : Duration) : RateGuard :=
  {| max_calls := max_calls; window := window; history := [] |}.

(** The seconds of an instant are an [i64]: [checked_sub] fails below that. *)
Definition instant_min : Instant := - 2 ^ 63 * 1000000000.

Definition checked_sub (now : Instant) (d : Duration) : option Instant :=
  if instant_min <=? now - d then Some (now - d) else None.

Fixpoint pop_before (cutoff : Instant) (h : list Instant) : list Instant :=
  match h with
  | [] => []
  | t :: h' => if t <? cutoff then pop_before cutoff h' else h
  end.

(** *** battery.rs *)

Record BatteryGuard : Type := { warning_pct : f64; critical_pct : f64 }.

(** *** geofence.rs *)

Record GeofenceZone : Type := { zone_name : string; polygon : list (f64 * f64); buffer_m : f64 }.
Record WorkspaceBounds : Type := {
  x_min : f64; x_max : f64; y_min : f64; y_max : f64; z_min : f64; z_max : f64
}.
Record GeofenceGuard : Type := {
  inclusion : list GeofenceZone;
  exclusion : list GeofenceZone;
  boundary_buffer_m : f64;
  bounds : option WorkspaceBounds;
}.

Definition new_geofence (inclusion exclusion : list GeofenceZone) (boundary_buffer_m : f64)
    : GeofenceGuard :=
  {| inclusion := inclusion; exclusion := exclusion; boundary_buffer_m := boundary_buffer_m;
     bounds := None |}.
Definition with_bounds (inclusion exclusion : list GeofenceZone) (boundary_buffer_m : f64)
    (b : WorkspaceBounds) : GeofenceGuard :=
  {| inclusion := inclusion; exclusion := exclusion; boundary_buffer_m := boundary_buffer_m;
     bounds := Some b |}.

(** The ray to the right of the point crosses the edge from [pj] to [pi]. *)
Definition crosses (x y : f64) (pi pj : f64 * f64) : bool :=
  let '(xi, yi) := pi in
  let '(xj, yj) := pj in
  negb (Bool.eqb (f64_gt yi y) (f64_gt yj y))
  && f64_lt x (f64_add (f64_div (f64_mul (f64_sub xj xi) (f64_sub y yi)) (f64_sub yj yi)) xi).

(** The loop over the vertices from [rest] on, [pj] being vertex [j]. *)
Fixpoint ray_loop (x y : f64) (pj : f64 * f64) (rest : list (f64 * f64)) (inside : bool) : bool :=
  match rest with
  | [] => inside
  | pi :: rest => ray_loop x y pi rest (if crosses x y pi pj then negb inside else inside)
  end.

Definition point_in_polygon (x y : f64) (polygon : list (f64 * f64)) : bool :=
  if (length polygon <? 3)%nat then false
  else match last polygon with
       | Some pj => ray_loop x y pj polygon false
       | None => false
       end.

(** *** sensor_health.rs, schema_validator.rs, control_barrier.rs *)

Record SensorHealthGuard : Type := { max_age_ns : Z }.

Record SchemaValidator (V : Type) : Type := { schemas : gmap string V }.
Arguments schemas {V} _.

Definition new_schema_validator {V} : SchemaValidator V := {| schemas := ∅ |}.
Definition register_schema {V} (self : SchemaValidator V) (tool_name : string) (schema : V)
    : SchemaValidator V := {| schemas := <[tool_name := schema]> (schemas self) |}.

Record ControlBarrierGuard : Type := { cb_max_velocity : f64; tick_period : f64 }.

Definition new_control_barrier (max_velocity max_acceleration tick_period_s : f64)
    : exec ControlBarrierGuard :=
  if is_finite max_velocity && f64_gt max_velocity zero then
    if is_finite tick_period_s && f64_gt tick_period_s zero then
      Ret {| cb_max_velocity := max_velocity; tick_period := tick_period_s |}
    else Panic
  else Panic.

Definition is_feasible (self : ControlBarrierGuard) (current target : f64 * f64 * f64) : bool :=
  let '(cx, cy, cz) := current in
  let '(tx, ty, tz) := target in
  let dx := f64_sub tx cx in
  let dy := f64_sub ty cy in
  let dz := f64_sub tz cz in
  let distance := f64_sqrt (mul_add dz dz (mul_add dx dx (f64_mul dy dy))) in
  let required_velocity := f64_div distance (tick_period self) in
  f64_le required_velocity (cb_max_velocity self).

(** *** mode_transition.rs *)

Inductive AgentLoopMode : Type := React | OodaReAct.

#[export] Instance AgentLoopMode_eq_dec : EqDecision AgentLoopMode.
Proof. solve_decision. Defined.

Record ModeTransitionGuard : Type := { mode : AgentLoopMode }.

Definition is_ascii_alphanumeric (a : ascii) : bool :=
  let n := Z.of_nat (nat_of_ascii a) in
  ((48 <=? n) && (n <=? 57)) || ((65 <=? n) && (n <=? 90)) || ((97 <=? n) && (n <=? 122)).

(** [split(|c| !c.is_ascii_alphanumeric())]: every byte of a character outside ASCII is
    a separator too, and the pieces between its bytes are empty. *)
Fixpoint split_words (cur s : string) : list string :=
  match s with
  | EmptyString => [cur]
  | String a s =>
      if is_ascii_alphanumeric a then split_words (cur +:+ String a EmptyString) s
      else cur :: split_words "" s
  end.

Definition alert_tokens (a : Alert) : list string :=
  map to_ascii_lowercase
    (List.filter (fun t => negb (String.eqb t "")) (split_words "" (al_source a +:+ " " +:+ al_message a))).

(** [windows(2)] *)
Fixpoint windows2 {A} (l : list A) : list (A * A) :=
  match l with
  | a :: l' => match l' with b :: _ => (a, b) :: windows2 l' | [] => [] end
  | [] => []
  end.

Definition has_keyword (tokens : list string) (keyword : string) : bool :=
  if String.eqb keyword "estop" then
    existsb (String.eqb "estop") tokens
    || existsb (fun w => String.eqb (fst w) "e" && String.eqb (snd w) "stop") (windows2 tokens)
  else existsb (String.eqb keyword) tokens.

Definition has_any_keyword (tokens keywords : list string) : bool :=
  existsb (has_keyword tokens) keywords.

Definition is_blocking_heartbeat_alert (a : Alert) : bool :=
  if (severity_rank (severity a) <? severity_rank Warning)%nat then false
  else
    let tokens := alert_tokens a in
    if negb (has_keyword tokens "heartbeat") then false
    else
      let recovery_signal := has_any_keyword tokens
        ["restore"; "restored"; "restoring"; "recovered"; "recovery"; "healthy"; "resolved"; "ok"] in
      let degraded_signal := has_any_keyword tokens
        ["degraded"; "lost"; "timeout"; "timed"; "missing"; "stale"; "offline"; "failed"] in
      let blocking_context := has_any_keyword tokens
        ["not"; "still"; "pending"; "error"; "failed"] in
      degraded_signal && (negb recovery_signal || blocking_context).

Definition is_blocking_estop_alert (a : Alert) : bool :=
  if (severity_rank (severity a) <? severity_rank Warning)%nat then false
  else
    let tokens := alert_tokens a in
    if negb (has_keyword tokens "estop") then false
    else
      let clear_signal :=
        has_any_keyword tokens ["cleared"; "restored"; "inactive"; "released"; "resolved"]
        || (has_keyword tokens "reset"
            && has_any_keyword tokens
                 ["complete"; "completed"; "success"; "successful"; "succeeded"]) in
      let blocking_context := has_any_keyword tokens
        ["failed"; "failure"; "error"; "active"; "pending"; "request"; "requested"; "not"; "still"] in
      negb clear_signal || blocking_context.

(** *** roz-local/src/runtime.rs: the permission guard *)

Inductive PermissionMode : Type := Auto | Ask | Safe.

#[export] Instance PermissionMode_eq_dec : EqDecision PermissionMode.
Proof. solve_decision. Defined.

Record PermissionGuard : Type := { perm_mode : PermissionMode }.

(** ** What each guard checks *)

Section Checks.
Context {V : Type} `{JsonEdit V}.

(** velocity.rs *)

(** The first recognised name with a number. *)
Definition find_scalar_param (ps : V) : option (string * f64) :=
  list_find_some (fun name => pair name <$> (v_get ps name ≫= as_f64)) VELOCITY_PARAM_NAMES.

(** The closure of the joint array: the element put into the new array, and whether it
    was clamped. *)
Definition clamp_joint_velocity (max : f64) (v : V) : V * bool :=
  match as_f64 v with
  | Some vel => if f64_gt (f64_abs vel) max then (v_number (f64_mul (signum vel) max), true)
                else (v, false)
  | None => (v, false)
  end.

(** The scalar step on the parameters [ps], and the joint step that reads the original
    array from [ps] and writes into [clamped]: the new parameters and whether they changed. *)
Definition clamp_scalar (max : f64) (ps : V) : exec (V * bool) :=
  match find_scalar_param ps with
  | Some (param_name, velocity) =>
      if f64_gt velocity max then
        let! clamped := set_index ps param_name (v_number max) in Ret (clamped, true)
      else Ret (ps, false)
  | None => Ret (ps, false)
  end.

Definition clamp_joints (max : f64) (ps clamped : V) : exec (V * bool) :=
  match v_get ps "joint_velocities" ≫= as_array with
  | Some joints =>
      let clamped_joints := map (clamp_joint_velocity max) joints in
      if existsb snd clamped_joints then
        let! clamped := set_index clamped "joint_velocities" (v_array (map fst clamped_joints)) in
        Ret (clamped, true)
      else Ret (clamped, false)
  | None => Ret (clamped, false)
  end.

Definition velocity_check (self : VelocityLimiter) (action : ToolCall V) : exec (SafetyVerdict V) :=
  let max := max_velocity_ms self in
  let! (clamped, scalar_modified) := clamp_scalar max (params action) in
  let! (clamped, joints_modified) := clamp_joints max (params action) clamped in
  Ret (if scalar_modified || joints_modified
       then Modify {| tc_id := tc_id action; tool := tool action; params := clamped |}
              [Str "velocity exceeds limit of "; Flt (Some 1) max; Str " m/s, clamped"]
       else Allow).

#[export] Instance velocity_guard : SafetyGuard V VelocityLimiter := {
  guard_name _ := "velocity_limiter";
  check _ self action _ := let! v := velocity_check self action in Ret (v, self);
}.

(** rate.rs *)

Definition as_secs_f64 (d : Duration) : f64 :=
  f64_add (f64_of_Z (d / 1000000000)) (f64_div (f64_of_Z (d mod 1000000000)) (f64_of_Z 1000000000)).

Definition rate_check (self : RateGuard) (now : Instant) : SafetyVerdict V * RateGuard :=
  let h := match checked_sub now (window self) with
           | Some cutoff => pop_before cutoff (history self)
           | None => history self
           end in
  if max_calls self <=? Z.of_nat (length h) then
    (Block [Str ("rate limit exceeded: " +:+ pretty (Z.of_nat (length h)) +:+ " calls in ");
            Flt (Some 1) (as_secs_f64 (window self));
            Str ("s window (max " +:+ pretty (max_calls self) +:+ ")")],
     {| max_calls := max_calls self; window := window self; history := h |})
  else
    (Allow, {| max_calls := max_calls self; window := window self; history := h ++ [now] |}).

#[export] Instance rate_guard : SafetyGuard V RateGuard := {
  guard_name _ := "rate_limiter";
  check r self _ _ := Ret (rate_check self (monotonic r));
}.

(** battery.rs *)

Definition find_battery (es : list (EntityState V)) : option f64 :=
  list_find_some (fun e => properties e !! "battery_pct" ≫= as_f64) es.

Definition battery_check (self : BatteryGuard) (state : WorldState V) : SafetyVerdict V :=
  match find_battery (entities state) with
  | None => Allow
  | Some pct =>
      if f64_lt pct (critical_pct self) then
        Block [Str "battery critically low at "; Flt (Some 0) pct; Str "% (threshold: ";
               Flt (Some 0) (critical_pct self); Str "%)"]
      else if f64_lt pct (warning_pct self) then
        Modify {| tc_id := ""; tool := "return_to_launch"; params := v_empty_object |}
          [Str "battery low at "; Flt (Some 0) pct; Str "% (warning threshold: ";
           Flt (Some 0) (warning_pct self); Str "%), forcing return to launch"]
      else Allow
  end.

#[export] Instance battery_guard : SafetyGuard V BatteryGuard := {
  guard_name _ := "battery";
  check _ self _ state := Ret (battery_check self state, self);
}.

(** geofence.rs *)

Definition point (x y : f64) : message :=
  [Str "point ("; Flt (Some 1) x; Str ", "; Flt (Some 1) y; Str ")"].

(** The bounds test: the reason for the refusal, if any. *)
Definition bounds_offence (b : WorkspaceBounds) (buf x y : f64) (z : option f64) : option message :=
  let x_lo := f64_add (x_min b) buf in
  let x_hi := f64_sub (x_max b) buf in
  let y_lo := f64_add (y_min b) buf in
  let y_hi := f64_sub (y_max b) buf in
  let z_lo := f64_add (z_min b) buf in
  let z_hi := f64_sub (z_max b) buf in
  if f64_lt x x_lo || f64_gt x x_hi || f64_lt y y_lo || f64_gt y y_hi then
    Some (point x y ++
      [Str " is outside workspace bounds (effective x ["; Flt (Some 1) x_lo; Str ", ";
       Flt (Some 1) x_hi; Str "], y ["; Flt (Some 1) y_lo; Str ", "; Flt (Some 1) y_hi; Str "])"])
  else match z with
       | Some zv =>
           if f64_lt zv z_lo || f64_gt zv z_hi then
             Some [Str "z="; Flt (Some 1) zv; Str " is outside workspace z bounds (effective [";
                   Flt (Some 1) z_lo; Str ", "; Flt (Some 1) z_hi; Str "])"]
           else None
       | None => None
       end.

Definition in_zone (x y : f64) (z : GeofenceZone) : bool := point_in_polygon x y (polygon z).

Definition geofence_check (self : GeofenceGuard) (action : ToolCall V) : SafetyVerdict V :=
  match v_get (params action) "x" ≫= as_f64 with
  | None => Allow
  | Some x =>
      match v_get (params action) "y" ≫= as_f64 with
      | None => Allow
      | Some y =>
          let z := v_get (params action) "z" ≫= as_f64 in
          match bounds self ≫= (fun b => bounds_offence b (boundary_buffer_m self) x y z) with
          | Some reason => Block reason
          | None =>
              match List.find (in_zone x y) (exclusion self) with
              | Some zone =>
                  Block (point x y ++ [Str (" is inside exclusion zone '" +:+ zone_name zone +:+ "'")])
              | None =>
                  if negb ((length (inclusion self) =? 0)%nat || existsb (in_zone x y) (inclusion self))
                  then Block (point x y ++ [Str " is outside all inclusion zones"])
                  else Allow
              end
          end
      end
  end.

#[export] Instance geofence_guard : SafetyGuard V GeofenceGuard := {
  guard_name _ := "geofence";
  check _ self action _ := Ret (geofence_check self action, self);
}.

(** sensor_health.rs *)

Definition timestamps (es : list (EntityState V)) : list Z := omap timestamp_ns es.

Definition sensor_check (self : SensorHealthGuard) (now : Z) (state : WorldState V) : SafetyVerdict V :=
  match timestamps (entities state) with
  | [] => Allow
  | t :: ts =>
      let oldest := fold_left Z.min ts t in
      let age := saturating_sub now oldest in
      if age >? max_age_ns self then
        Block [Str ("stale sensor observation: oldest is " +:+ pretty age
                      +:+ "ns behind wall clock (limit: " +:+ pretty (max_age_ns self) +:+ "ns)")]
      else Allow
  end.

#[export] Instance sensor_guard : SafetyGuard V SensorHealthGuard := {
  guard_name _ := "sensor_health";
  check r self _ state := Ret (sensor_check self (system_ns r) state, self);
}.

(** schema_validator.rs *)

Definition validate (self : SchemaValidator V) (tool_name : string) (ps : V) : option string :=
  match schemas self !! tool_name with
  | None => None
  | Some schema =>
      match v_get schema "required" ≫= as_array with
      | None => None
      | Some required =>
          list_find_some (fun field =>
            match v_get ps field with
            | None => Some ("missing required field: " +:+ field)
            | Some _ => None
            end) (omap as_str required)
      end
  end.

#[export] Instance schema_guard : SafetyGuard V (SchemaValidator V) := {
  guard_name _ := "schema_validator";
  check _ self action _ :=
    Ret (match validate self (tool action) (params action) with
         | None => Allow
         | Some error => Block [Str error]
         end, self);
}.

(** mode_transition.rs *)

Definition estop_active (e : EntityState V) : bool :=
  default false (properties e !! "estop_active" ≫= as_bool).

Definition mode_check (self : ModeTransitionGuard) (state : WorldState V) : SafetyVerdict V :=
  if negb (bool_decide (mode self = OodaReAct)) then Allow
  else if (length (entities state) =? 0)%nat then
    Block [Str "OODA mode requires spatial context with at least one entity; no entities present — refusing tool call until spatial data arrives"]
  else if negb (existsb (fun e => bool_decide (is_Some (timestamp_ns e))) (entities state)) then
    Block [Str "OODA mode requires timestamped runtime world-state observations; refusing tool call until heartbeat-backed observations arrive"]
  else if existsb is_blocking_heartbeat_alert (alerts state) then
    Block [Str "OODA mode requires a healthy observation heartbeat; runtime alerts indicate heartbeat degradation"]
  else if existsb is_blocking_estop_alert (alerts state) || existsb estop_active (entities state) then
    Block [Str "OODA mode requires e-stop clear; runtime world-state indicates an active safety stop"]
  else Allow.

#[export] Instance mode_guard : SafetyGuard V ModeTransitionGuard := {
  guard_name _ := "mode_transition";
  check _ self _ state := Ret (mode_check self state, self);
}.

#[export] Instance permission_guard : SafetyGuard V PermissionGuard := {
  guard_name _ := "permission_guard";
  check _ self _ _ :=
    Ret (match perm_mode self with
         | Auto => Allow
         | Ask => RequireConfirmation [Str "Permission required for physical tool call"] 60
         | Safe => Block [Str "Physical tool calls are blocked in safe mode"]
         end, self);
}.
End Checks.

(** ** stack.rs *)

Section Stack.
Context {V : Type} `{JsonEdit V}.

(** [Box<dyn SafetyGuard>] *)
Inductive BoxedGuard : Type :=
| BVelocity (g : VelocityLimiter)
| BRate (g : RateGuard)
| BBattery (g : BatteryGuard)
| BGeofence (g : GeofenceGuard)
| BSensor (g : SensorHealthGuard)
| BSchema (g : SchemaValidator V)
| BMode (g : ModeTransitionGuard)
| BPermission (g : PermissionGuard).

Definition reboxed {G} (box : G -> BoxedGuard) (o : exec (SafetyVerdict V * G))
    : exec (SafetyVerdict V * BoxedGuard) :=
  let! (v, g) := o in Ret (v, box g).

#[export] Instance boxed_guard : SafetyGuard V BoxedGuard := {
  guard_name b :=
    match b with
    | BVelocity g => guard_name (V := V) g | BRate g => guard_name (V := V) g | BBattery g => guard_name (V := V) g
    | BGeofence g => guard_name (V := V) g | BSensor g => guard_name (V := V) g | BSchema g => guard_name (V := V) g
    | BMode g => guard_name (V := V) g | BPermission g => guard_name (V := V) g
    end;
  check r b a s :=
    match b with
    | BVelocity g => reboxed BVelocity (check r g a s)
    | BRate g => reboxed BRate (check r g a s)
    | BBattery g => reboxed BBattery (check r g a s)
    | BGeofence g => reboxed BGeofence (check r g a s)
    | BSensor g => reboxed BSensor (check r g a s)
    | BSchema g => reboxed BSchema (check r g a s)
    | BMode g => reboxed BMode (check r g a s)
    | BPermission g => reboxed BPermission (check r g a s)
    end;
}.

Inductive SafetyResult : Type :=
| Approved (call : ToolCall V)
| Blocked (guard : string) (reason : message)
| NeedsHuman (reason : message) (timeout_secs : Z).

(** [SafetyStack.evaluate] from guard [i] on; the second component is the guards
    afterwards, since a guard may keep state behind a lock. *)
Fixpoint evaluate {G} `{!SafetyGuard V G} (clock : nat -> Readings) (i : nat) (guards : list G)
    (current : ToolCall V) (state : WorldState V) : exec (SafetyResult * list G) :=
  match guards with
  | [] => Ret (Approved current, [])
  | g :: guards =>
      let! (verdict, g') := check (clock i) g current state in
      match verdict with
      | Allow => let! (r, gs) := evaluate clock (S i) guards current state in Ret (r, g' :: gs)
      | Modify clamped _ => let! (r, gs) := evaluate clock (S i) guards clamped state in Ret (r, g' :: gs)
      | Block reason => Ret (Blocked (guard_name (V := V) g) reason, g' :: guards)
      | RequireConfirmation reason timeout_secs => Ret (NeedsHuman reason timeout_secs, g' :: guards)
      end
  end.

(** roz-worker/src/main.rs and session_relay.rs: the stack of a task or session. *)
Definition worker_guards (max_velocity : option f64) : list BoxedGuard :=
  [BVelocity {| max_velocity_ms := default (f64_dec 15 1) max_velocity |}].

(** roz-local/src/runtime.rs *)
Definition build_safety_stack (permission_mode : PermissionMode) : list BoxedGuard :=
  if bool_decide (permission_mode = Auto) then [] else [BPermission {| perm_mode := permission_mode |}].
End Stack.
Arguments BoxedGuard : clear implicits.
Arguments SafetyResult : clear implicits.

(** ** The velocity limiter *)

(** The velocity parameters are within [max]: the recognised scalar, and every number
    of the joint array in magnitude. *)
Definition scalar_within {V} `{JsonOps V} (max : f64) (ps : V) : Prop :=
  forall name v, find_scalar_param ps = Some (name, v) -> f64_le v max = true.

Definition joints_within {V} `{JsonOps V} (max : f64) (ps : V) : Prop :=
  forall joints j v, v_get ps "joint_velocities" ≫= as_array = Some joints ->
    j ∈ joints -> as_f64 j = Some v -> f64_le (f64_abs v) max = true.

Definition velocities_within {V} `{JsonOps V} (max : f64) (ps : V) : Prop :=
  scalar_within max ps /\ joints_within max ps.

Lemma list_find_some_elem {A B} (f : A -> option B) l y :
  list_find_some f l = Some y -> exists x, x ∈ l /\ f x = Some y.
Proof.
  induction l as [|x l IH]; simpl; [done|]. destruct (f x) eqn:Hx.
  - intros. simplify_eq. exists x. split; [left|done].
  - intros (x' & ? & ?)%IH. exists x'. split; [by right|done].
Qed.

(** Changing the number of the found name changes what is found, and nothing else. *)
Lemma find_named_update {B} (f f' : string -> option B) l n v v' :
  (forall k, k <> n -> f' k = f k) -> f' n = Some v' ->
  list_find_some (fun k => pair k <$> f k) l = Some (n, v) ->
  list_find_some (fun k => pair k <$> f' k) l = Some (n, v').
Proof.
  intros Hk Hn H.
  assert (f n = Some v) as Hf.
  { apply list_find_some_elem in H as (x & _ & Hx). destruct (f x) eqn:?; naive_solver. }
  induction l as [|k l IH]; simpl in *; [done|].
  destruct (decide (k = n)) as [->|Hne]; [by rewrite Hn|].
  rewrite Hk by done. destruct (f k); simplify_eq/=. by apply IH.
Qed.

Lemma find_named_ext {B} (f f' : string -> option B) l :
  (forall k, k ∈ l -> f' k = f k) ->
  list_find_some (fun k => pair k <$> f' k) l = list_find_some (fun k => pair k <$> f k) l.
Proof.
  induction l as [|k l IH]; intros Hk; simpl; [done|]. rewrite Hk by left.
  rewrite IH; [done|]. intros. apply Hk. by right.
Qed.

Lemma find_scalar_get {V} `{JsonOps V} (ps : V) n v :
  find_scalar_param ps = Some (n, v) -> v_get ps n ≫= as_f64 = Some v.
Proof.
  intros (x & _ & Hx)%list_find_some_elem. destruct (v_get ps x ≫= as_f64) eqn:?; naive_solver.
Qed.

Lemma find_scalar_name {V} `{JsonOps V} (ps : V) n v :
  find_scalar_param ps = Some (n, v) -> n ∈ VELOCITY_PARAM_NAMES.
Proof.
  intros (x & ? & Hx)%list_find_some_elem. destruct (v_get ps x ≫= as_f64) eqn:?; naive_solver.
Qed.

Lemma no_joint_scalar : "joint_velocities" ∉ VELOCITY_PARAM_NAMES.
Proof. by apply (bool_decide_unpack _). Qed.

Lemma find_scalar_update {V} `{JsonOps V} (ps ps' : V) n v v' :
  find_scalar_param ps = Some (n, v) ->
  (forall k, k <> n -> v_get ps' k = v_get ps k) -> v_get ps' n ≫= as_f64 = Some v' ->
  find_scalar_param ps' = Some (n, v').
Proof.
  intros Hs Hk Hn. eapply (find_named_update (fun k => v_get ps k ≫= as_f64)); [|done|exact Hs].
  intros k Hne. by rewrite Hk.
Qed.

Lemma find_scalar_ext {V} `{JsonOps V} (ps ps' : V) :
  (forall k, k ∈ VELOCITY_PARAM_NAMES -> v_get ps' k = v_get ps k) ->
  find_scalar_param ps' = find_scalar_param ps.
Proof.
  intros Hk. apply (find_named_ext (fun k => v_get ps k ≫= as_f64)). intros k Hin. by rewrite Hk.
Qed.

Section Velocity.
Context {V : Type} `{JO : JsonOps V} `{JE : !JsonEdit V} `{JL : !JsonLaws V} `{JEL : !JsonEditLaws V}.

Lemma set_index_get (v : V) k k0 x :
  is_Some (v_get v k0) ->
  exists v', set_index v k x = Ret v' /\
    forall k', v_get v' k' = if decide (k' = k) then Some x else v_get v k'.
Proof.
  unfold v_get. intros [y Hy]. destruct (as_object v) as [m|] eqn:Hm; [|done].
  destruct (set_index_object v m k x Hm) as (v' & m' & Hs & Ho & Hg & Hn).
  exists v'. split; [done|]. intros k'. rewrite Ho. simpl. case_decide; subst; auto.
Qed.

Lemma number_finite (x : f64) : is_finite x = true -> as_f64 (v_number (V := V) x) = Some x.
Proof. intros H. unfold v_number. destruct (from_f64_finite x H) as (v & -> & ?). done. Qed.

Context (max : f64).
Context (Hv : valid max = true) (Hf : is_finite max = true) (Hz : f64_le zero max = true).

Lemma not_gt_le v : is_finite v = true -> f64_gt v max = false -> f64_le v max = true.
Proof using Hf.
  intros Fv H. apply f64_not_lt_le; [..|done]; by apply is_finite_not_nan.
Qed.

Lemma clamp_joint_velocity_ok (j : V) v :
  as_f64 (fst (clamp_joint_velocity max j)) = Some v -> f64_le (f64_abs v) max = true.
Proof using All.
  unfold clamp_joint_velocity. destruct (as_f64 j) as [u|] eqn:Hu; simpl; [|congruence].
  pose proof (as_f64_finite _ _ Hu) as Fu.
  destruct (f64_gt (f64_abs u) max) eqn:Hgt; simpl.
  - unfold signum. rewrite (is_finite_not_nan _ Fu).
    destruct (f64_mul_unit (is_sign_negative u) max Hv Hf Hz) as [Fr Hr].
    rewrite number_finite by done. intros. by simplify_eq.
  - rewrite Hu. intros. simplify_eq. apply not_gt_le; [|done]. by destruct v.
Qed.

Lemma clamp_joint_velocity_same (j : V) :
  snd (clamp_joint_velocity max j) = false -> fst (clamp_joint_velocity max j) = j.
Proof. unfold clamp_joint_velocity. by repeat case_match. Qed.

Lemma clamp_joint_velocity_flag (j : V) :
  snd (clamp_joint_velocity max j) = true ->
  exists v, as_f64 j = Some v /\ f64_le (f64_abs v) max = false.
Proof using Hf Hz.
  unfold clamp_joint_velocity. destruct (as_f64 j) as [u|] eqn:Hu; [|done].
  destruct (f64_gt (f64_abs u) max) eqn:Hgt; [|done]. intros _. exists u. split; [done|].
  f64_order.
Qed.

(** What the first step does to the parameters [ps], [b] telling whether it did. *)
Definition scalar_step_ok (ps ps' : V) (b : bool) : Prop :=
  scalar_within max ps' /\
  (if b then ~ scalar_within max ps else ps' = ps) /\
  (forall k, k ∉ VELOCITY_PARAM_NAMES -> v_get ps' k = v_get ps k).

Lemma scalar_step (ps : V) :
  exists ps' b, clamp_scalar max ps = Ret (ps', b) /\ scalar_step_ok ps ps' b.
Proof using All.
  unfold clamp_scalar, scalar_step_ok, scalar_within.
  destruct (find_scalar_param ps) as [[n u]|] eqn:Hs; [|eexists _, _; rewrite ?Hs; by split_and!].
  pose proof (find_scalar_get _ _ _ Hs) as Hu.
  assert (is_finite u = true) as Fu by (destruct (v_get ps n); [by eapply as_f64_finite|done]).
  destruct (f64_gt u max) eqn:Hgt.
  2: { eexists _, _. split_and!; [done| |done..]. intros n' v Hm. rewrite Hs in Hm. simplify_eq.
       by apply not_gt_le. }
  destruct (set_index_get ps n n (v_number max)) as (ps' & -> & Hget); [by destruct (v_get ps n)|].
  simpl. eexists _, _. split_and!; [done|..].
  - intros m v Hm. rewrite (find_scalar_update ps ps' n u max) in Hm; [|done|..].
    + simplify_eq. apply f64_le_refl. by apply is_finite_not_nan.
    + intros k Hk. by rewrite Hget, decide_False.
    + rewrite Hget, decide_True by done. by apply number_finite.
  - intros Hw. specialize (Hw n u eq_refl). f64_order.
  - intros k Hk. rewrite Hget, decide_False; [done|]. intros ->. apply Hk.
    by apply (find_scalar_name ps n u).
Qed.

Lemma joints_step (ps ps' : V) :
  (forall k, k ∉ VELOCITY_PARAM_NAMES -> v_get ps' k = v_get ps k) ->
  exists ps2 b, clamp_joints max ps ps' = Ret (ps2, b) /\
    joints_within max ps2 /\ (if b then ~ joints_within max ps else ps2 = ps') /\
    (forall k, k <> "joint_velocities" -> v_get ps2 k = v_get ps' k).
Proof using All.
  intros Hk.
  assert (v_get ps' "joint_velocities" = v_get ps "joint_velocities") as Hjv by exact (Hk _ no_joint_scalar).
  unfold clamp_joints, joints_within.
  destruct (v_get ps "joint_velocities") as [arr|] eqn:Harr; simpl.
  2: { eexists _, _. rewrite Hjv. by split_and!. }
  destruct (as_array arr) as [joints|] eqn:Hjs.
  2: { eexists _, _. rewrite Hjv. simpl. rewrite Hjs. by split_and!. }
  cbv zeta. destruct (existsb snd _) eqn:He.
  - destruct (set_index_get ps' "joint_velocities" "joint_velocities"
      (v_array (map fst (map (clamp_joint_velocity max) joints)))) as (p & -> & Hget).
    { by rewrite Hjv. }
    simpl. eexists _, _. split_and!; [done|..].
    + rewrite Hget, decide_True by done. simpl. rewrite as_array_array. intros js j v ? Hj Hu.
      simplify_eq. rewrite map_map in Hj. apply list_elem_of_In, in_map_iff in Hj as (j0 & <- & _).
      by eapply clamp_joint_velocity_ok.
    + intros Hw. apply existsb_exists in He as (? & Hin & Hflag).
      apply in_map_iff in Hin as (j & <- & Hj).
      destruct (clamp_joint_velocity_flag j Hflag) as (v & Hu & Hno).
      rewrite (Hw joints j v) in Hno; [done..|by apply list_elem_of_In|done].
    + intros k Hne. by rewrite Hget, decide_False.
  - eexists _, _. split_and!; [done| |done..]. rewrite Hjv. simpl. rewrite Hjs.
    intros js j v ? Hj Hu. simplify_eq. apply (clamp_joint_velocity_ok j).
    rewrite clamp_joint_velocity_same; [done|]. apply not_true_is_false. intros Hs.
    assert (existsb snd (map (clamp_joint_velocity max) js) = true); [|congruence].
    apply existsb_exists. eexists. split; [apply in_map; by apply list_elem_of_In|done].
Qed.

Lemma velocity_check_spec (self : VelocityLimiter) (a : ToolCall V) :
  max_velocity_ms self = max ->
  exists v, velocity_check self a = Ret v /\
    match v with
    | Allow => velocities_within max (params a)
    | Modify c _ =>
        tc_id c = tc_id a /\ tool c = tool a /\
        velocities_within max (params c) /\ ~ velocities_within max (params a) /\
        (forall k, k ∉ "joint_velocities" :: VELOCITY_PARAM_NAMES -> v_get (params c) k = v_get (params a) k)
    | _ => False
    end.
Proof using All.
  intros Hm. unfold velocity_check. rewrite Hm.
  destruct (scalar_step (params a)) as (ps & b & -> & Hs & Hb & Hk). simpl.
  destruct (joints_step (params a) ps Hk) as (ps2 & b2 & -> & Hj & Hb2 & Hk2). simpl.
  assert (scalar_within max ps2) as Hs2.
  { unfold scalar_within. rewrite (find_scalar_ext ps); [done|].
    intros k Hin. apply Hk2. intros ->. by apply no_joint_scalar. }
  eexists. split; [done|]. destruct (b || b2) eqn:E; simpl.
  - split_and!; [done..| |].
    + unfold velocities_within. bool_prop. destruct E; subst; tauto.
    + intros k. rewrite not_elem_of_cons. intros [? ?]. by rewrite Hk2, Hk.
  - bool_prop. subst. simpl in *. subst. by split.
Qed.
End Velocity.

(** ** Passing a stack *)

Section StackLemmas.
Context {V : Type} `{JO : JsonOps V} {G : Type} `{!SafetyGuard V G}.

(** The guards from [i] on let the call [a] through, as [a'], and become [gs']. *)
Inductive passes (clock : nat -> Readings) (state : WorldState V) :
  nat -> list G -> ToolCall V -> list G -> ToolCall V -> Prop :=
| pass_nil i a : passes clock state i [] a [] a
| pass_allow i g g' gs gs' a a' :
    check (clock i) g a state = Ret (Allow, g') ->
    passes clock state (S i) gs a gs' a' ->
    passes clock state i (g :: gs) a (g' :: gs') a'
| pass_modify i g g' gs gs' a a1 reason a' :
    check (clock i) g a state = Ret (Modify a1 reason, g') ->
    passes clock state (S i) gs a1 gs' a' ->
    passes clock state i (g :: gs) a (g' :: gs') a'.

(** The verdict of the first guard that objects. *)
Inductive objects (g : G) : SafetyVerdict V -> SafetyResult V -> Prop :=
| objects_block reason : objects g (Block reason) (Blocked (guard_name (V := V) g) reason)
| objects_ask reason t : objects g (RequireConfirmation reason t) (NeedsHuman reason t).

Definition decided (clock : nat -> Readings) (state : WorldState V) (i : nat) (gs : list G)
    (a : ToolCall V) (r : SafetyResult V) (gs' : list G) : Prop :=
  (exists a', r = Approved a' /\ passes clock state i gs a gs' a') \/
  (exists before g after before' g' a1 verdict,
     gs = before ++ g :: after /\ gs' = before' ++ g' :: after /\
     passes clock state i before a before' a1 /\
     check (clock (i + length before)%nat) g a1 state = Ret (verdict, g') /\ objects g verdict r).

Lemma evaluate_decided clock state gs : forall i a r gs',
  evaluate clock i gs a state = Ret (r, gs') -> decided clock state i gs a r gs'.
Proof.
  induction gs as [|g gs IH]; intros i a r gs' H; simpl in H.
  { simplify_eq. left. eexists. split; [done|constructor]. }
  destruct (check _ g a state) as [[v g']|] eqn:Hc; [|done]. simpl in H.
  assert (Hrec : forall a1, (v = Allow /\ a1 = a) \/ (exists reason, v = Modify a1 reason) ->
    forall r1 gs1, evaluate clock (S i) gs a1 state = Ret (r1, gs1) ->
    decided clock state i (g :: gs) a r1 (g' :: gs1)).
  { intros a1 Hv r1 gs1 He. destruct (IH _ _ _ _ He)
      as [(a' & -> & Hp)|(b & g2 & af & b' & g2' & a2 & v2 & -> & -> & Hp & Hc2 & Ho)].
    - left. eexists. split; [done|]. destruct Hv as [[-> ->]|[reason ->]]; by econstructor.
    - right. exists (g :: b), g2, af, (g' :: b'), g2', a2, v2. split_and!; [done..| | |done].
      + destruct Hv as [[-> ->]|[reason ->]]; by econstructor.
      + simpl. by rewrite Nat.add_succ_r. }
  destruct v as [|a1 reason|reason|reason t].
  - unbind. eapply Hrec; eauto.
  - unbind. eapply Hrec; eauto.
  - simplify_eq. right. exists [], g, gs, [], g', a, (Block reason).
    split_and!; [done..|constructor| |constructor]. by rewrite Nat.add_0_r.
  - simplify_eq. right. exists [], g, gs, [], g', a, (RequireConfirmation reason t).
    split_and!; [done..|constructor| |constructor]. by rewrite Nat.add_0_r.
Qed.

Lemma passes_evaluate clock state gs1 gs2 : forall i a gs1' a' r gs2',
  passes clock state i gs1 a gs1' a' ->
  evaluate clock (i + length gs1) gs2 a' state = Ret (r, gs2') ->
  evaluate clock i (gs1 ++ gs2) a state = Ret (r, gs1' ++ gs2').
Proof.
  induction gs1 as [|g gs IH]; intros i a gs1' a' r gs2' Hp He; simpl in *.
  { inversion Hp; subst. by rewrite Nat.add_0_r in He. }
  rewrite Nat.add_succ_r in He.
  inversion Hp as [|? ? ? ? ? ? ? Hc Hrest|? ? ? ? ? ? ? ? ? Hc Hrest]; subst;
    rewrite Hc; simpl; by erewrite IH by done.
Qed.
End StackLemmas.

(** ** The geofence's conditions *)

Lemma find_none_iff {A} (f : A -> bool) l :
  List.find f l = None <-> Forall (fun x => f x = false) l.
Proof.
  induction l as [|x l IH]; simpl; [by split|]. rewrite Forall_cons.
  destruct (f x); naive_solver.
Qed.

Lemma inclusion_iff x y zs :
  (length zs =? 0)%nat || existsb (in_zone x y) zs = true <->
  zs = [] \/ Exists (fun zone => point_in_polygon x y (polygon zone) = true) zs.
Proof.
  destruct zs as [|z zs]; [simpl; naive_solver|]. rewrite orb_true_iff, existsb_exists, Exists_exists.
  simpl. split.
  - intros [|(u & Hu & ?)]; [done|]. right. exists u. split; [by apply list_elem_of_In|done].
  - intros [|(u & Hu & ?)]; [done|]. right. exists u. split; [by apply list_elem_of_In in Hu|done].
Qed.

Lemma bounds_offence_none self x y z (buf := boundary_buffer_m self)
    (in_range := fun v lo hi => f64_lt v (f64_add lo buf) = false /\ f64_gt v (f64_sub hi buf) = false) :
  (bounds self ≫= fun b => bounds_offence b buf x y z) = None <->
  forall b, bounds self = Some b ->
    in_range x (x_min b) (x_max b) /\ in_range y (y_min b) (y_max b) /\
    forall v, z = Some v -> in_range v (z_min b) (z_max b).
Proof.
  destruct (bounds self) as [b|]; simpl; [|naive_solver]. unfold bounds_offence, in_range.
  split.
  - intros H b' ?. simplify_eq. split_match; bool_prop; naive_solver.
  - intros H. destruct (H b eq_refl) as ([-> ->] & [-> ->] & Hz). simpl.
    destruct z as [v|]; [|done]. by destruct (Hz v eq_refl) as [-> ->].
Qed.

(** ** Rectangles *)

Lemma sub_self_zero c : is_finite c = true -> exists s, f64_sub c c = S754_zero s.
Proof.
  intros Hc. destruct c as [[]| | |s m e]; try done; try by eexists.
  unfold f64_sub, SFsub. rewrite Z.sub_diag. by eexists.
Qed.

Lemma mul_zero_finite s a : is_finite a = true -> exists s', f64_mul (S754_zero s) a = S754_zero s'.
Proof. intros Ha. destruct a; try done; by eexists. Qed.

Lemma div_zero s a :
  is_nan a = false -> (forall s', a <> S754_zero s') -> exists s', f64_div (S754_zero s) a = S754_zero s'.
Proof. intros Ha Hz. destruct a as [sa| | |]; try done; [by destruct (Hz sa)|by eexists..]. Qed.

Lemma lt_add_zero x c s : is_finite c = true -> f64_lt x (f64_add (S754_zero s) c) = f64_lt x c.
Proof. intros Hc. destruct c as [[]| | |]; try done; destruct s, x as [[]|[]| |[]]; done. Qed.

(** A vertical edge at [c]. *)
Lemma crosses_vertical x y c ya yb :
  is_finite c = true -> valid ya = true -> valid yb = true -> is_finite ya = true ->
  is_finite yb = true -> is_finite (f64_sub y ya) = true ->
  crosses x y (c, ya) (c, yb) = negb (Bool.eqb (f64_gt ya y) (f64_gt yb y)) && f64_lt x c.
Proof.
  intros Hc Va Vb Fa Fb Hy. unfold crosses.
  destruct (Bool.eqb (f64_gt ya y) (f64_gt yb y)) eqn:He; simpl; [done|].
  destruct (sub_self_zero c Hc) as [s ->]. destruct (mul_zero_finite s _ Hy) as [s1 ->].
  destruct (div_zero s1 (f64_sub yb ya)) as [s2 ->].
  - by apply f64_sub_not_nan.
  - intros s' Hz. destruct (f64_sub_zero yb ya s') as [H1 H2]; [done..|].
    assert (f64_gt ya y = f64_gt yb y) as Heq; [|by rewrite Heq, eqb_reflx in He].
    apply is_finite_not_nan in Fa, Fb.
    destruct (f64_gt ya y) eqn:Ga, (f64_gt yb y) eqn:Gb; try done; exfalso; f64_order.
  - by apply lt_add_zero.
Qed.

(** A horizontal edge. *)
Lemma crosses_horizontal x y xa xb c : crosses x y (xa, c) (xb, c) = false.
Proof. unfold crosses. by rewrite eqb_reflx. Qed.

Definition rectangle (x0 y0 x1 y1 : f64) : list (f64 * f64) :=
  [(x0, y0); (x1, y0); (x1, y1); (x0, y1)].

(** ** The rate guard over a sequence of calls *)

(** The instants of the approved calls, oldest first, and the guard afterwards. *)
Definition rate_step (s : list Instant * RateGuard) (now : Instant) : list Instant * RateGuard :=
  let '(v, g) := rate_check (V := json) (snd s) now in
  (match v with Allow => fst s ++ [now] | _ => fst s end, g).

Definition rate_run (g : RateGuard) (nows : list Instant) : list Instant * RateGuard :=
  fold_left rate_step nows ([], g).

(** The approvals from [cutoff] on, and those between two instants. *)
Definition since (cutoff : Instant) (l : list Instant) : list Instant :=
  List.filter (fun t => cutoff <=? t) l.
Definition between (a b : Instant) (l : list Instant) : list Instant :=
  List.filter (fun t => (a <=? t) && (t <=? b)) l.

Definition ordered (l : list Instant) : Prop := StronglySorted Z.le l.

Record rate_inv (max w : Z) (now : Instant) (approved : list Instant) (g : RateGuard) : Prop := {
  inv_max : max_calls g = max;
  inv_window : window g = w;
  inv_ordered : ordered approved;
  inv_bounds : Forall (fun t => instant_min <= t <= now) approved;
  inv_history : exists dropped, approved = dropped ++ history g /\ Forall (fun t => t < now - w) dropped;
  inv_limit : forall a, Z.of_nat (length (between a (a + w) approved)) <= max;
}.

Lemma pop_before_since cutoff h : ordered h -> pop_before cutoff h = since cutoff h.
Proof.
  induction 1 as [|t h Hs IH Hall]; simpl; [done|].
  destruct (Z.leb_spec cutoff t).
  - rewrite (proj2 (Z.ltb_ge t cutoff)) by lia. f_equal.
    clear IH. induction Hall as [|t' h ?? IHh]; simpl; [done|].
    rewrite (proj2 (Z.leb_le cutoff t')) by lia. f_equal. apply IHh. by apply StronglySorted_inv in Hs as [? _].
  - by rewrite (proj2 (Z.ltb_lt t cutoff)) by lia.
Qed.

Lemma since_none cutoff l : Forall (fun t => t < cutoff) l -> since cutoff l = [].
Proof.
  induction 1; simpl; [done|]. by rewrite (proj2 (Z.leb_gt _ _)) by lia.
Qed.

Lemma since_all cutoff l : Forall (fun t => cutoff <= t) l -> since cutoff l = l.
Proof.
  induction 1; simpl; [done|]. rewrite (proj2 (Z.leb_le _ _)) by lia. by f_equal.
Qed.

Lemma since_app c l k : since c (l ++ k) = since c l ++ since c k.
Proof. apply List.filter_app. Qed.

Lemma ordered_app_r l k : ordered (l ++ k) -> ordered k.
Proof. induction l; simpl; [done|]. by intros [? _]%StronglySorted_inv; auto. Qed.

Lemma ordered_snoc l t : ordered l -> Forall (fun u => u <= t) l -> ordered (l ++ [t]).
Proof.
  intros Hs. induction Hs as [|u l Hs IH Hall]; intros Hl; simpl.
  { repeat constructor. }
  apply Forall_cons in Hl as [Hu Hl]. constructor; [by apply IH|].
  apply Forall_app. by repeat constructor.
Qed.

(** The history a call at [now] is judged by holds the approvals within the window. *)
Lemma rate_history max w last approved g now :
  rate_inv max w last approved g -> last <= now -> 0 <= w ->
  match checked_sub now (window g) with
  | Some cutoff => pop_before cutoff (history g)
  | None => history g
  end = since (now - w) approved.
Proof.
  intros [Hm Hw Ho Hb (d & -> & Hd) Hl] Hnow H0. rewrite Hw.
  rewrite since_app, since_none by (eapply Forall_impl; [exact Hd|simpl; intros; lia]). simpl.
  unfold checked_sub. destruct (Z.leb_spec instant_min (now - w)).
  - apply pop_before_since. by eapply ordered_app_r.
  - symmetry. apply since_all. apply Forall_app in Hb as [_ Hb].
    eapply Forall_impl; [exact Hb|]. simpl. intros; lia.
Qed.

Lemma between_app a b l k : between a b (l ++ k) = between a b l ++ between a b k.
Proof. apply List.filter_app. Qed.

Lemma between_since a b c l :
  c <= a -> (length (between a b l) <= length (since c l))%nat.
Proof.
  intros Hc. induction l as [|t l IH]; simpl; [lia|].
  destruct (Z.leb_spec a t); simpl.
  - rewrite (proj2 (Z.leb_le c t)) by lia. destruct (t <=? b); simpl; lia.
  - destruct (c <=? t); simpl; lia.
Qed.

Lemma split_since cutoff l :
  ordered l -> exists d, l = d ++ since cutoff l /\ Forall (fun t => t < cutoff) d.
Proof.
  intros Hs. induction Hs as [|t l Hs IH Hall]; simpl; [by exists []|].
  destruct (Z.leb_spec cutoff t).
  - exists []. simpl. split; [|done]. f_equal. symmetry. apply since_all.
    eapply Forall_impl; [exact Hall|]. simpl; intros; lia.
  - destruct IH as (d & Hd & Hf). exists (t :: d). simpl. split; [by f_equal|]. by constructor.
Qed.

Lemma rate_step_inv max w last approved g now :
  rate_inv max w last approved g -> last <= now -> instant_min <= now -> 0 <= w ->
  let s := rate_step (approved, g) now in
  rate_inv max w now (fst s) (snd s) /\
  fst s = (if Z.of_nat (length (since (now - w) approved)) <? max then approved ++ [now] else approved).
Proof.
  intros Hinv Hnow Hmin Hw0. pose proof (rate_history _ _ _ _ _ now Hinv Hnow Hw0) as Hh.
  destruct Hinv as [Hm Hw Ho Hb Hhist Hl].
  assert (Forall (fun t => instant_min <= t <= now) approved) as Hb'.
  { eapply Forall_impl; [exact Hb|]. simpl; lia. }
  destruct (split_since (now - w) approved Ho) as (d & Hd & Hdf).
  unfold rate_step, rate_check. simpl. rewrite Hh, Hm.
  destruct (Z.leb_spec max (Z.of_nat (length (since (now - w) approved)))) as [Hge|Hlt]; simpl.
  - rewrite (proj2 (Z.ltb_ge _ _)) by lia. split; [|done].
    split; simpl; [done..|by exists d|done].
  - rewrite (proj2 (Z.ltb_lt _ _)) by lia. split; [|done].
    split; simpl; [done|done|..].
    + apply ordered_snoc; [done|]. eapply Forall_impl; [exact Hb'|]. simpl; lia.
    + apply Forall_app. split; [done|]. repeat constructor; lia.
    + exists d. split; [|done]. rewrite app_assoc. by rewrite <- Hd.
    + intros a. rewrite between_app, length_app. specialize (Hl a). simpl.
      destruct ((a <=? now) && (now <=? a + w)) eqn:E; simpl; [|lia].
      bool_prop. pose proof (between_since a (a + w) (now - w) approved ltac:(lia)). lia.
Qed.

Lemma rate_run_snoc g nows now : rate_run g (nows ++ [now]) = rate_step (rate_run g nows) now.
Proof. unfold rate_run. by rewrite fold_left_app. Qed.

Lemma ordered_snoc_inv l t : ordered (l ++ [t]) -> ordered l /\ Forall (fun u => u <= t) l.
Proof.
  induction l as [|u l IH]; intros H; simpl in *; [by repeat constructor|].
  apply StronglySorted_inv in H as [H1 H2]. destruct (IH H1).
  apply Forall_app in H2 as [H2 H3]. apply Forall_cons in H3 as [H3 _].
  split; constructor; done.
Qed.

Lemma rate_run_inv max w nows : 0 <= w -> 0 <= max ->
  ordered nows -> Forall (fun t => instant_min <= t) nows ->
  forall last, Forall (fun t => t <= last) nows ->
  rate_inv max w last (fst (rate_run (new_rate_guard max w) nows))
    (snd (rate_run (new_rate_guard max w) nows)).
Proof.
  intros Hw Hmax. induction nows as [|now nows IH] using rev_ind; intros Ho Hmin last Hlast.
  { split; simpl; [done..|by exists []|done]. }
  apply ordered_snoc_inv in Ho as [Ho Hn]. apply Forall_app in Hmin as [Hm1 Hm2].
  apply Forall_app in Hlast as [_ Hl2]. apply Forall_cons in Hm2 as [Hm2 _].
  apply Forall_cons in Hl2 as [Hl2 _].
  specialize (IH Ho Hm1 now Hn). rewrite rate_run_snoc.
  destruct (rate_run (new_rate_guard max w) nows) as [ap g]. simpl in IH.
  destruct (rate_step_inv _ _ _ _ _ now IH ltac:(lia) ltac:(lia) Hw) as [[A1 A2 A3 A4 A5 A6] _].
  split; [done..| | |done].
  - eapply Forall_impl; [exact A4|]. simpl; lia.
  - destruct A5 as (d & ? & Hd). exists d. split; [done|]. eapply Forall_impl; [exact Hd|]. simpl; lia.
Qed.

(** ** Properties *)

(** Every tool call that a worker's safety stack hands on has its velocities within the
    configured maximum: the recognised scalar parameter and each number of
    [joint_velocities].  The stack never panics and never blocks; it keeps the call's id, tool
    and every other parameter, and a call that is already within the maximum unchanged. *)
Theorem worker_calls_bounded {V : Type} `{JO : JsonOps V} `{JE : !JsonEdit V} `{JL : !JsonLaws V}
    `{JEL : !JsonEditLaws V} (clock : nat -> Readings) (config : option f64)
    (call : ToolCall V) (state : WorldState V) (max := default (f64_dec 15 1) config)
    (Hv : valid max = true) (Hf : is_finite max = true) (Hz : f64_le zero max = true) :
  exists call',
    evaluate clock 0 (worker_guards config) call state = Ret (Approved call', worker_guards config) /\
    tc_id call' = tc_id call /\ tool call' = tool call /\
    velocities_within max (params call') /\
    (velocities_within max (params call) -> call' = call) /\
    (forall k, k ∉ "joint_velocities" :: VELOCITY_PARAM_NAMES ->
       v_get (params call') k = v_get (params call) k).
Proof.
  destruct (velocity_check_spec max Hv Hf Hz {| max_velocity_ms := max |} call eq_refl)
    as (v & Hc & Hspec).
  unfold worker_guards. fold max. clearbody max. simpl. rewrite Hc. simpl.
  destruct v as [|c reason|reason|reason t]; try done; simpl; eexists; (split; [done|]).
  - by split_and!.
  - destruct Hspec as (? & ? & ? & ? & ?). by split_and!.
Qed.

(** A stack's result is decided by the first guard that objects, on the call as the
    guards before it left it, and under that guard's name; without an objection the call that
    passed every guard is approved.  Guards after the decision are not consulted: whatever
    they keep, such as the calls counted by a rate limit, is untouched. *)
Theorem stack_verdict_exact {V : Type} `{JO : JsonOps V} {G : Type} `{HG : !SafetyGuard V G}
    (clock : nat -> Readings) (state : WorldState V) (guards guards' : list G)
    (call : ToolCall V) (r : SafetyResult V) :
  evaluate clock 0 guards call state = Ret (r, guards') <->
  decided clock state 0 guards call r guards'.
Proof.
  split; [apply evaluate_decided|].
  intros [(a' & -> & Hp)|(b & g & af & b' & g' & a1 & v & -> & -> & Hp & Hc & Ho)].
  - rewrite <- (app_nil_r guards), <- (app_nil_r guards'). by eapply passes_evaluate.
  - eapply passes_evaluate; [done|]. simpl in Hc |- *. rewrite Hc. destruct Ho; done.
Qed.

(** The geofence lets a call pass exactly when it names no planar point, or when the
    point is on no side beyond the workspace bounds shrunk by the buffer (the height
    included, when it is given), in no exclusion zone, and in some inclusion zone if there
    are any; otherwise it blocks the call, and it never changes one. *)
Theorem geofence_allows_exactly {V : Type} `{JO : JsonOps V} (self : GeofenceGuard) (call : ToolCall V)
    (coordinate := fun name => v_get (params call) name ≫= as_f64) (buf := boundary_buffer_m self) :
  let in_range v lo hi := f64_lt v (f64_add lo buf) = false /\ f64_gt v (f64_sub hi buf) = false in
  (geofence_check self call = Allow <->
   forall x y, coordinate "x" = Some x -> coordinate "y" = Some y ->
     (forall b, bounds self = Some b ->
        in_range x (x_min b) (x_max b) /\ in_range y (y_min b) (y_max b) /\
        forall z, coordinate "z" = Some z -> in_range z (z_min b) (z_max b)) /\
     Forall (fun zone => point_in_polygon x y (polygon zone) = false) (exclusion self) /\
     (inclusion self = [] \/ Exists (fun zone => point_in_polygon x y (polygon zone) = true) (inclusion self)))
  /\ (geofence_check self call = Allow \/ exists reason, geofence_check self call = Block reason).
Proof.
  cbv zeta. unfold geofence_check. fold (coordinate "x") (coordinate "y") (coordinate "z").
  destruct (coordinate "x") as [x|]; [|split; [|by left]; naive_solver].
  destruct (coordinate "y") as [y|]; [|split; [|by left]; naive_solver].
  pose proof (bounds_offence_none self x y (coordinate "z")) as Hb.
  cbv zeta in Hb. destruct (bounds self ≫= _) as [m|]; simpl.
  { split; [|by right; eexists]. split; [done|]. intros H. destruct (H x y eq_refl eq_refl) as [H1 _].
    discriminate (proj2 Hb H1). }
  pose proof (find_none_iff (in_zone x y) (exclusion self)) as He.
  destruct (List.find _ _) as [zone|]; simpl.
  { split; [|by right; eexists]. split; [done|]. intros H.
    destruct (H x y eq_refl eq_refl) as (_ & H2 & _). by apply He in H2. }
  pose proof (inclusion_iff x y (inclusion self)) as Hi.
  destruct ((length _ =? 0)%nat || _); simpl; (split; [|by (left + right; eexists)]).
  - split; [|done]. intros _ x' y' ? ?. simplify_eq. split_and!; [exact (proj1 Hb eq_refl)|by apply He|by apply Hi].
  - split; [done|]. intros H. destruct (H x y eq_refl eq_refl) as (_ & _ & H3). by apply Hi in H3.
Qed.

(** A rectangular zone contains the points between its sides, the lower and left ones
    included: the ray casting of the program is exact on it in floating point, as long as
    the differences of the point to the horizontal sides do not overflow. *)
Theorem rectangle_zone (x y x0 y0 x1 y1 : f64)
    (Hvalid : forallb valid [y0; y1] = true)
    (Hfinite : forallb is_finite [x; y; x0; y0; x1; y1; f64_sub y y0; f64_sub y y1] = true)
    (Hx : f64_le x0 x1 = true) (Hy : f64_le y0 y1 = true) :
  point_in_polygon x y (rectangle x0 y0 x1 y1) =
  f64_le x0 x && f64_lt x x1 && (f64_le y0 y && f64_lt y y1).
Proof.
  simpl in Hvalid, Hfinite. bool_prop. destruct_and?.
  unfold point_in_polygon, rectangle. cbn [length Nat.ltb Nat.leb last ray_loop].
  rewrite !crosses_horizontal, !crosses_vertical by done.
  apply is_finite_not_nan in H, H0, H1, H2, H3, H4.
  rewrite !f64_le_not_gt by done.
  destruct (f64_gt y0 y) eqn:E0, (f64_gt y1 y) eqn:E1, (f64_lt x x0) eqn:E2, (f64_lt x x1) eqn:E3;
    unfold f64_gt in *; rewrite ?E0, ?E1, ?E2, ?E3; try done; exfalso; f64_order.
Qed.

(** C40: The rate guard approves a call exactly when fewer than [max_calls] calls were approved
    within the window before it, so no window ever holds more than [max_calls] approved
    calls, over every sequence of calls in the order of the clock. *)
Theorem rate_limit_holds (max : Z) (w : Duration) (nows : list Instant) (now : Instant)
    (Hmax : 0 <= max) (Hw : 0 <= w) (Ho : ordered (nows ++ [now]))
    (Hmin : Forall (fun t => instant_min <= t) (nows ++ [now])) :
  let approved := fst (rate_run (new_rate_guard max w) nows) in
  fst (rate_run (new_rate_guard max w) (nows ++ [now]))
  = (if Z.of_nat (length (since (now - w) approved)) <? max then approved ++ [now] else approved) /\
  forall a, Z.of_nat (length (between a (a + w) (fst (rate_run (new_rate_guard max w) (nows ++ [now]))))) <= max.
Proof.
  pose proof (ordered_snoc_inv _ _ Ho) as [Ho' Hn].
  apply Forall_app in Hmin as [Hm1 Hm2]. apply Forall_cons in Hm2 as [Hm2 _].
  pose proof (rate_run_inv max w nows Hw Hmax Ho' Hm1 now Hn) as Hinv.
  rewrite rate_run_snoc. destruct (rate_run (new_rate_guard max w) nows) as [ap g]. simpl in *.
  destruct (rate_step_inv _ _ _ _ _ now Hinv ltac:(lia) Hm2 Hw) as [H1 H2].
  split; [exact H2|]. apply H1.
Qed.

(** ** Concrete runs *)

Definition move_params : json := JObject
  [("joint_velocities", JArray [JFloat (f64_of_Z 5) eq_refl; JFloat (f64_neg (f64_of_Z 3)) eq_refl]);
   ("speed", JUint 9); ("vel", JUint 4); ("frame", JString "base")].
Definition move_call : ToolCall json := {| tc_id := "call_1"; tool := "move_arm"; params := move_params |}.
Definition empty_world : WorldState json := {|
  entities := []; relations := []; constraints := []; alerts := []; screenshots := [];
  observation_coverage := []; occluded_regions := [] |}.
Definition demo_clock (i : nat) : Readings := {| monotonic := Z.of_nat i; system_ns := 0 |}.

Lemma worker_calls_bounded_witness :
  exists call', evaluate demo_clock 0 (worker_guards (Some (f64_of_Z 2))) move_call empty_world
                = Ret (Approved call', worker_guards (Some (f64_of_Z 2))) /\
    velocities_within (f64_of_Z 2) (params call') /\ tool call' = "move_arm".
Proof.
  destruct (worker_calls_bounded demo_clock (Some (f64_of_Z 2)) move_call empty_world)
    as (call' & He & _ & Ht & Hw & _); [reflexivity..|].
  exists call'. split; [exact He|]. split; [exact Hw|exact Ht].
Defined.

(** The limited call of that run: [vel] is recognised before [speed], which keeps its 9. *)
Example second_name_unlimited :
  evaluate demo_clock 0 (worker_guards (Some (f64_of_Z 2))) move_call empty_world =
  Ret (Approved {| tc_id := "call_1"; tool := "move_arm"; params := JObject
    [("joint_velocities", JArray [JFloat (f64_of_Z 2) eq_refl; JFloat (f64_neg (f64_of_Z 2)) eq_refl]);
     ("speed", JUint 9); ("vel", JFloat (f64_of_Z 2) eq_refl); ("frame", JString "base")] |},
    worker_guards (Some (f64_of_Z 2))).
Proof. vm_compute. reflexivity. Qed.

(** A negative scalar is never above the maximum: a fast reverse motion passes. *)
Example reverse_unlimited :
  velocity_check {| max_velocity_ms := f64_of_Z 2 |}
    {| tc_id := ""; tool := "drive"; params := JObject [("velocity_ms", JNegInt (-50))] |} = Ret Allow.
Proof. vm_compute. reflexivity. Qed.

(** The battery guard's substitute call does not carry the id of the call it replaces. *)
Example battery_drops_id :
  exists reason, battery_check {| warning_pct := f64_of_Z 30; critical_pct := f64_of_Z 10 |}
    {| entities := [{| e_id := "drone"; e_kind := ""; e_position := None; e_orientation := None;
         e_velocity := None; properties := {[ "battery_pct" := JUint 20 ]}; timestamp_ns := None;
         e_frame_id := "world"; last_observed_ns := None; observation_confidence := one |}];
       relations := []; constraints := []; alerts := []; screenshots := [];
       observation_coverage := []; occluded_regions := [] |}
  = Modify {| tc_id := ""; tool := "return_to_launch"; params := JObject [] |} reason.
Proof. eexists. vm_compute. reflexivity. Qed.

Lemma rectangle_zone_witness :
  point_in_polygon one one (rectangle zero zero (f64_of_Z 2) (f64_of_Z 2))
  = f64_le zero one && f64_lt one (f64_of_Z 2) && (f64_le zero one && f64_lt one (f64_of_Z 2)).
Proof. apply rectangle_zone; reflexivity. Defined.

Lemma rate_limit_holds_witness :
  fst (rate_run (new_rate_guard 2 (from_secs 1)) ([0; 5; 10] ++ [from_secs 1 + 3])) = [0; 5; from_secs 1 + 3].
Proof.
  destruct (rate_limit_holds 2 (from_secs 1) [0; 5; 10] (from_secs 1 + 3)) as [H _].
  - discriminate.
  - discriminate.
  - repeat constructor; discriminate.
  - repeat constructor; discriminate.
  - etransitivity; [exact H|]. vm_compute. reflexivity.
Defined.
