(* ===== verification/Evidence.v ===== *)
(** * Evidence of a controller run

    [crates/roz-copper/src/evidence_collector.rs]: what a controller did while it was
    verified, shadowed or on canary, counted tick by tick and finalised into the bundle
    the promotion gates of [Lifecycle] read; and the tick output of [tick_contract.rs].

    The counters are [u32] and the tick counters [u64]: an overflow panics, and the
    theorems say how many records are free of it. *)

From Stdlib Require Import Sorted.
From stdpp Require Import sorting.
From S2P Require Import Prelude Float64 Deployment Lifecycle Embodiment SafetyFilter.

(** ** tick_contract.rs *)

Record Metric : Type := { metric_name : string; metric_value : f64 }.

Record TickOutput : Type := {
  command_values : list f64;
  out_estop : bool;
  out_estop_reason : option string;
  metrics : list Metric;
}.

(** ** Latency statistics *)

Definition STEADY_STATE_THRESHOLD : Z := 50.
Definition STEADY_STATE_EPSILON : f64 := f64_dec 5 3.
Definition OSCILLATION_DELTA_THRESHOLD : f64 := f64_dec 5 2.
Definition MAX_TICK_LATENCY_SAMPLES : nat := 2048.

Record TickLatencyStats : Type := {
  recent_samples_us : list Z;
  sample_count : Z;
  mean_us : f64;
  m2_us : f64;
}.

Definition default_stats : TickLatencyStats :=
  {| recent_samples_us := []; sample_count := 0; mean_us := zero; m2_us := zero |}.

(** [u64::try_from(duration.as_micros()).unwrap_or(u64::MAX)] *)
Definition as_micros (d : Duration) : Z := Z.min (d / 1000) u64_max.

Definition record_latency (self : TickLatencyStats) (d : Duration) : exec TickLatencyStats :=
  let micros := as_micros d in
  let samples :=
    if (length (recent_samples_us self) =? MAX_TICK_LATENCY_SAMPLES)%nat
    then tail (recent_samples_us self) else recent_samples_us self in
  let! n := u64_add (sample_count self) 1 in
  let value := f64_of_Z micros in
  let delta := f64_sub value (mean_us self) in
  let mean := f64_add (mean_us self) (f64_div delta (f64_of_Z n)) in
  let delta2 := f64_sub value mean in
  Ret {| recent_samples_us := samples ++ [micros];
         sample_count := n;
         mean_us := mean;
         m2_us := f64_add (m2_us self) (f64_mul delta delta2) |}.

(** [xs[i]] *)
Definition index {A} (l : list A) (i : nat) : exec A :=
  match l !! i with Some x => Ret x | None => Panic end.

Definition compute_percentiles (latencies_us : list Z) : exec (Z * Z * Z) :=
  match latencies_us with
  | [] => Ret (0, 0, 0)
  | _ =>
      let sorted := merge_sort Z.le latencies_us in
      let len := length sorted in
      let! p50 := index sorted (len * 50 / 100)%nat in
      let! p95 := index sorted (Nat.min (len * 95 / 100) (len - 1))%nat in
      let! p99 := index sorted (Nat.min (len * 99 / 100) (len - 1))%nat in
      Ret (p50, p95, p99)
  end.

Definition percentiles (self : TickLatencyStats) : exec (Z * Z * Z) :=
  compute_percentiles (recent_samples_us self).

Definition jitter_us (self : TickLatencyStats) : f64 :=
  if sample_count self <? 2 then zero
  else f64_sqrt (f64_div (m2_us self) (f64_of_Z (sample_count self - 1))).

(** ** The collector *)

Record EvidenceCollector : Type := {
  ec_controller_id : string;
  tick_count : Z;
  ec_rejection : Z;
  ec_limit_clamp : Z;
  ec_rate_clamp : Z;
  ec_position_stop : Z;
  ec_epoch_interrupt : Z;
  ec_trap : Z;
  ec_near_miss : Z;
  ec_missed_tick : Z;
  touched : gset string;
  unexpected : list string;
  all_channels : list string;
  ec_config_reads : Z;
  stats : TickLatencyStats;
  oscillation : bool;
  previous : list f64;
  steady_state_ticks : Z;
}.

Definition new_collector (controller_id : string) (channel_names : list string) : EvidenceCollector := {|
  ec_controller_id := controller_id;
  tick_count := 0; ec_rejection := 0; ec_limit_clamp := 0; ec_rate_clamp := 0;
  ec_position_stop := 0; ec_epoch_interrupt := 0; ec_trap := 0; ec_near_miss := 0;
  ec_missed_tick := 0; touched := ∅; unexpected := []; all_channels := channel_names;
  ec_config_reads := 0; stats := default_stats; oscillation := false; previous := [];
  steady_state_ticks := 0;
|}.

(** The assignments of the methods below, grouped by what they change. *)
Definition with_counts (self : EvidenceCollector) (rejection limit rate position missed : Z)
    : EvidenceCollector := {|
  ec_controller_id := ec_controller_id self; tick_count := tick_count self;
  ec_rejection := rejection; ec_limit_clamp := limit; ec_rate_clamp := rate;
  ec_position_stop := position; ec_epoch_interrupt := ec_epoch_interrupt self;
  ec_trap := ec_trap self; ec_near_miss := ec_near_miss self; ec_missed_tick := missed;
  touched := touched self; unexpected := unexpected self; all_channels := all_channels self;
  ec_config_reads := ec_config_reads self; stats := stats self; oscillation := oscillation self;
  previous := previous self; steady_state_ticks := steady_state_ticks self |}.

Definition with_events (self : EvidenceCollector) (epoch trap near_miss config : Z)
    : EvidenceCollector := {|
  ec_controller_id := ec_controller_id self; tick_count := tick_count self;
  ec_rejection := ec_rejection self; ec_limit_clamp := ec_limit_clamp self;
  ec_rate_clamp := ec_rate_clamp self; ec_position_stop := ec_position_stop self;
  ec_epoch_interrupt := epoch; ec_trap := trap; ec_near_miss := near_miss;
  ec_missed_tick := ec_missed_tick self; touched := touched self; unexpected := unexpected self;
  all_channels := all_channels self; ec_config_reads := config; stats := stats self;
  oscillation := oscillation self; previous := previous self;
  steady_state_ticks := steady_state_ticks self |}.

Definition with_channels (self : EvidenceCollector) (t : gset string) (u : list string)
    : EvidenceCollector := {|
  ec_controller_id := ec_controller_id self; tick_count := tick_count self;
  ec_rejection := ec_rejection self; ec_limit_clamp := ec_limit_clamp self;
  ec_rate_clamp := ec_rate_clamp self; ec_position_stop := ec_position_stop self;
  ec_epoch_interrupt := ec_epoch_interrupt self; ec_trap := ec_trap self;
  ec_near_miss := ec_near_miss self; ec_missed_tick := ec_missed_tick self; touched := t;
  unexpected := u; all_channels := all_channels self; ec_config_reads := ec_config_reads self;
  stats := stats self; oscillation := oscillation self; previous := previous self;
  steady_state_ticks := steady_state_ticks self |}.

Definition with_tick (self : EvidenceCollector) (n : Z) (s : TickLatencyStats) : EvidenceCollector := {|
  ec_controller_id := ec_controller_id self; tick_count := n; ec_rejection := ec_rejection self;
  ec_limit_clamp := ec_limit_clamp self; ec_rate_clamp := ec_rate_clamp self;
  ec_position_stop := ec_position_stop self; ec_epoch_interrupt := ec_epoch_interrupt self;
  ec_trap := ec_trap self; ec_near_miss := ec_near_miss self; ec_missed_tick := ec_missed_tick self;
  touched := touched self; unexpected := unexpected self; all_channels := all_channels self;
  ec_config_reads := ec_config_reads self; stats := s; oscillation := oscillation self;
  previous := previous self; steady_state_ticks := steady_state_ticks self |}.

Definition with_motion (self : EvidenceCollector) (osc : bool) (steady : Z) (prev : list f64)
    : EvidenceCollector := {|
  ec_controller_id := ec_controller_id self; tick_count := tick_count self;
  ec_rejection := ec_rejection self; ec_limit_clamp := ec_limit_clamp self;
  ec_rate_clamp := ec_rate_clamp self; ec_position_stop := ec_position_stop self;
  ec_epoch_interrupt := ec_epoch_interrupt self; ec_trap := ec_trap self;
  ec_near_miss := ec_near_miss self; ec_missed_tick := ec_missed_tick self;
  touched := touched self; unexpected := unexpected self; all_channels := all_channels self;
  ec_config_reads := ec_config_reads self; stats := stats self; oscillation := osc;
  previous := prev; steady_state_ticks := steady |}.

(** *** Channels *)

Definition record_unexpected_channel (self : EvidenceCollector) (channel : string)
    : EvidenceCollector :=
  if bool_decide (channel ∈ unexpected self) then self
  else with_channels self (touched self) (unexpected self ++ [channel]).

Definition unexpected_output (i : nat) : string := "unexpected_output_" +:+ pretty (N.of_nat i).

(** The loop over the output values, from index [i] on. *)
Fixpoint touch_outputs (self : EvidenceCollector) (i : nat) (values : list f64) : EvidenceCollector :=
  match values with
  | [] => self
  | _ :: values =>
      touch_outputs
        (match all_channels self !! i with
         | Some channel_name => with_channels self ({[ channel_name ]} ∪ touched self) (unexpected self)
         | None => record_unexpected_channel self (unexpected_output i)
         end) (S i) values
  end.

Definition record_channel_touched (self : EvidenceCollector) (channel : string) : EvidenceCollector :=
  if bool_decide (channel ∈ all_channels self)
  then with_channels self ({[ channel ]} ∪ touched self) (unexpected self)
  else record_unexpected_channel self channel.

(** *** Interventions *)

Definition count_intervention (self : EvidenceCollector) (i : SafetyIntervention)
    : exec EvidenceCollector :=
  match kind i with
  | AccelerationLimit =>
      let! n := u32_add (ec_rate_clamp self) 1 in
      Ret (with_counts self (ec_rejection self) (ec_limit_clamp self) n (ec_position_stop self)
             (ec_missed_tick self))
  | PositionLimit =>
      let! n := u32_add (ec_position_stop self) 1 in
      Ret (with_counts self (ec_rejection self) (ec_limit_clamp self) (ec_rate_clamp self) n
             (ec_missed_tick self))
  | NanReject =>
      let! n := u32_add (ec_rejection self) 1 in
      Ret (with_counts self n (ec_limit_clamp self) (ec_rate_clamp self) (ec_position_stop self)
             (ec_missed_tick self))
  | TickOverrun =>
      let! n := u32_add (ec_missed_tick self) 1 in
      Ret (with_counts self (ec_rejection self) (ec_limit_clamp self) (ec_rate_clamp self)
             (ec_position_stop self) n)
  | UnconfiguredJoint | VelocityClamp | JerkLimit | ForceLimit | TorqueLimit | WorkspaceBoundary
  | ContactForceExceeded | SlipDetected | TactileOverload =>
      let! n := u32_add (ec_limit_clamp self) 1 in
      Ret (with_counts self (ec_rejection self) n (ec_rate_clamp self) (ec_position_stop self)
             (ec_missed_tick self))
  end.

Fixpoint count_interventions (self : EvidenceCollector) (l : list SafetyIntervention)
    : exec EvidenceCollector :=
  match l with
  | [] => Ret self
  | i :: l => let! self := count_intervention self i in count_interventions self l
  end.

(** *** Motion: oscillation and steady state *)

Definition sign_changed (prev curr : f64) : bool :=
  negb (f64_eq (signum prev) (signum curr)) && negb (f64_eq prev zero) && negb (f64_eq curr zero).

Definition jump (prev curr : f64) : f64 := f64_abs (f64_sub curr prev).

(** The loop over both vectors: sign changes, [all_within_idle_epsilon] and
    [exceeded_oscillation_threshold]. *)
Fixpoint compare_outputs (sign_changes : Z) (within exceeded : bool) (prevs currs : list f64)
    : exec (Z * bool * bool) :=
  match prevs, currs with
  | prev :: prevs, curr :: currs =>
      let! n := (if sign_changed prev curr then u32_add sign_changes 1 else Ret sign_changes) in
      let delta := jump prev curr in
      compare_outputs n
        (if f64_gt delta STEADY_STATE_EPSILON then false else within)
        (if f64_gt delta OSCILLATION_DELTA_THRESHOLD then true else exceeded) prevs currs
  | _, _ => Ret (sign_changes, within, exceeded)
  end.

Definition record_motion (self : EvidenceCollector) (values : list f64) : exec EvidenceCollector :=
  if (length (previous self) =? 0)%nat then Ret (with_motion self (oscillation self) 1 values)
  else if negb (length (previous self) =? length values)%nat then
    Ret (with_motion self (oscillation self) 0 values)
  else
    let! (sign_changes, within, exceeded) := compare_outputs 0 true false (previous self) values in
    let majority_threshold := (Nat.max (length values) 1 / 2)%nat in
    if (Z.of_nat majority_threshold <? sign_changes) || exceeded then
      Ret (with_motion self true 0 values)
    else if within then
      let! n := u32_add (steady_state_ticks self) 1 in
      Ret (with_motion self (oscillation self) n values)
    else Ret (with_motion self (oscillation self) 0 values).

Definition record_tick (self : EvidenceCollector) (d : Duration) (output : TickOutput)
    (interventions : list SafetyIntervention) : exec EvidenceCollector :=
  let! n := u64_add (tick_count self) 1 in
  let! s := record_latency (stats self) d in
  let self := touch_outputs (with_tick self n s) 0 (command_values output) in
  let! self := count_interventions self interventions in
  record_motion self (command_values output).

(** *** Events *)

Definition record_trap (self : EvidenceCollector) : exec EvidenceCollector :=
  let! n := u32_add (ec_trap self) 1 in
  Ret (with_events self (ec_epoch_interrupt self) n (ec_near_miss self) (ec_config_reads self)).
Definition record_epoch_interrupt (self : EvidenceCollector) : exec EvidenceCollector :=
  let! n := u32_add (ec_epoch_interrupt self) 1 in
  Ret (with_events self n (ec_trap self) (ec_near_miss self) (ec_config_reads self)).
Definition record_watchdog_near_miss (self : EvidenceCollector) : exec EvidenceCollector :=
  let! n := u32_add (ec_near_miss self) 1 in
  Ret (with_events self (ec_epoch_interrupt self) (ec_trap self) n (ec_config_reads self)).
Definition record_config_read (self : EvidenceCollector) : exec EvidenceCollector :=
  let! n := u32_add (ec_config_reads self) 1 in
  Ret (with_events self (ec_epoch_interrupt self) (ec_trap self) (ec_near_miss self) n).

(** ** Finalisation *)

Record EvidenceFinalizeContext : Type := {
  ctx_frame_snapshot_id : Z;
  ctx_state_freshness : FreshnessState;
}.

Definition default_context : EvidenceFinalizeContext :=
  {| ctx_frame_snapshot_id := 0; ctx_state_freshness := UnknownFreshness |}.

(** The digests and versions the caller passes, the fresh identifier of the bundle and the
    wall clock. *)
Record FinalizeArgs : Type := {
  fa_controller_digest : string;
  fa_model_digest : string;
  fa_calibration_digest : string;
  fa_manifest_digest : string;
  fa_wit_world_version : string;
  fa_execution_mode : ExecutionMode;
  fa_compiler_version : string;
  fa_uuid : string;
  fa_now : DateTime;
}.

Definition was_touched (self : EvidenceCollector) (channel : string) : bool :=
  bool_decide (channel ∈ touched self).

Definition steady_state_flag (self : EvidenceCollector) : bool :=
  STEADY_STATE_THRESHOLD <=? steady_state_ticks self.

Definition finalize_with_context (self : EvidenceCollector) (args : FinalizeArgs)
    (context : EvidenceFinalizeContext) : exec ControllerEvidenceBundle :=
  let! (p50, p95, p99) := percentiles (stats self) in
  Ret {|
    bundle_id := fa_uuid args;
    ev_controller_id := ec_controller_id self;
    ticks_run := tick_count self;
    rejection_count := ec_rejection self;
    limit_clamp_count := ec_limit_clamp self;
    rate_clamp_count := ec_rate_clamp self;
    position_limit_stop_count := ec_position_stop self;
    epoch_interrupt_count := ec_epoch_interrupt self;
    trap_count := ec_trap self;
    watchdog_near_miss_count := ec_near_miss self;
    channels_touched := List.filter (was_touched self) (all_channels self) ++ unexpected self;
    channels_untouched := List.filter (fun ch => negb (was_touched self ch)) (all_channels self);
    unexpected_channels_touched := unexpected self;
    config_reads := ec_config_reads self;
    tick_latency_p50 := p50;
    tick_latency_p95 := p95;
    tick_latency_p99 := p99;
    controller_stability_summary := {|
      command_oscillation_detected := oscillation self;
      idle_output_stable := negb (oscillation self) && steady_state_flag self;
      runtime_jitter_us := jitter_us (stats self);
      missed_tick_count := ec_missed_tick self;
      steady_state_reached := steady_state_flag self |};
    verifier_status := Pending;
    verifier_reason := None;
    ev_controller_digest := fa_controller_digest args;
    ev_model_digest := fa_model_digest args;
    ev_calibration_digest := fa_calibration_digest args;
    frame_snapshot_id := ctx_frame_snapshot_id context;
    ev_manifest_digest := fa_manifest_digest args;
    ev_wit_world_version := fa_wit_world_version args;
    ev_execution_mode := fa_execution_mode args;
    ev_compiler_version := fa_compiler_version args;
    ev_created_at := fa_now args;
    state_freshness := ctx_state_freshness context |}.

Definition finalize (self : EvidenceCollector) (args : FinalizeArgs) : exec ControllerEvidenceBundle :=
  finalize_with_context self args default_context.

(** ** Runs of the collector *)

Inductive observation : Type :=
| Tick (d : Duration) (output : TickOutput) (interventions : list SafetyIntervention)
| Trap
| EpochInterrupt
| NearMiss
| ConfigRead
| ChannelTouched (channel : string).

Definition observe (self : EvidenceCollector) (o : observation) : exec EvidenceCollector :=
  match o with
  | Tick d output interventions => record_tick self d output interventions
  | Trap => record_trap self
  | EpochInterrupt => record_epoch_interrupt self
  | NearMiss => record_watchdog_near_miss self
  | ConfigRead => record_config_read self
  | ChannelTouched channel => Ret (record_channel_touched self channel)
  end.

Fixpoint observe_all (self : EvidenceCollector) (os : list observation) : exec EvidenceCollector :=
  match os with
  | [] => Ret self
  | o :: os => let! self := observe self o in observe_all self os
  end.

(** ** What a run showed, read off the observations *)

Definition ticks (os : list observation) : list (list f64 * list SafetyIntervention) :=
  omap (fun o => match o with Tick _ out ints => Some (command_values out, ints) | _ => None end) os.

Definition outputs (os : list observation) : list (list f64) := map fst (ticks os).
Definition all_interventions (os : list observation) : list SafetyIntervention := concat (map snd (ticks os)).

(** How often an observation is of one kind, and an intervention of one kind. *)
Definition occurrences (f : observation -> bool) (os : list observation) : Z :=
  Z.of_nat (length (List.filter f os)).
Definition of_kind (f : InterventionKind -> bool) (l : list SafetyIntervention) : Z :=
  Z.of_nat (length (List.filter (fun i => f (kind i)) l)).

Definition is_trap (o : observation) : bool := match o with Trap => true | _ => false end.
Definition is_epoch (o : observation) : bool := match o with EpochInterrupt => true | _ => false end.
Definition is_tick (o : observation) : bool := match o with Tick _ _ _ => true | _ => false end.
Definition is_near_miss (o : observation) : bool := match o with NearMiss => true | _ => false end.
Definition is_config_read (o : observation) : bool := match o with ConfigRead => true | _ => false end.

Definition is_kind_rate (k : InterventionKind) : bool := match k with AccelerationLimit => true | _ => false end.
Definition is_kind_position (k : InterventionKind) : bool := match k with PositionLimit => true | _ => false end.
Definition is_kind_reject (k : InterventionKind) : bool := match k with NanReject => true | _ => false end.
Definition is_kind_overrun (k : InterventionKind) : bool := match k with TickOverrun => true | _ => false end.

(** Channel [ch] is written: by an output value at an index where it is declared, or by name. *)
Definition writes (channels : list string) (o : observation) (ch : string) : Prop :=
  match o with
  | Tick _ out _ => exists i, (i < length (command_values out))%nat /\ channels !! i = Some ch
  | ChannelTouched c => c = ch /\ ch ∈ channels
  | _ => False
  end.

(** The observation writes beyond the declared channels. *)
Definition strays (channels : list string) (o : observation) : Prop :=
  match o with
  | Tick _ out _ => (length channels < length (command_values out))%nat
  | ChannelTouched c => c ∉ channels
  | _ => False
  end.

(** Two successive outputs of one width oscillate: a value jumps by more than the
    threshold, or more than half of the values change their sign. *)
Definition oscillates (prev curr : list f64) : bool :=
  negb (length prev =? 0)%nat && (length prev =? length curr)%nat &&
  ((Nat.max (length curr) 1 / 2 <? length (List.filter (fun p => sign_changed (fst p) (snd p)) (zip prev curr)))%nat
   || existsb (fun p => f64_gt (jump (fst p) (snd p)) OSCILLATION_DELTA_THRESHOLD) (zip prev curr)).

Fixpoint oscillated (l : list (list f64)) : bool :=
  match l with
  | prev :: l' => match l' with curr :: _ => oscillates prev curr || oscillated l' | [] => false end
  | [] => false
  end.

(** The number of counter steps an observation may cost. *)
Definition weight (o : observation) : Z :=
  match o with
  | Tick _ out ints => 1 + Z.of_nat (length ints) + Z.of_nat (length (command_values out))
  | _ => 1
  end.
Definition total_weight (os : list observation) : Z := foldr (fun o n => weight o + n) 0 os.

(** ** Lemmas: one tick *)

Lemma with_channels_same self : with_channels self (touched self) (unexpected self) = self.
Proof. by destruct self. Qed.

Lemma with_counts_same self :
  with_counts self (ec_rejection self) (ec_limit_clamp self) (ec_rate_clamp self)
    (ec_position_stop self) (ec_missed_tick self) = self.
Proof. by destruct self. Qed.

Lemma record_unexpected_nonempty self ch :
  exists u, record_unexpected_channel self ch = with_channels self (touched self) u /\ u <> [].
Proof.
  unfold record_unexpected_channel. case_bool_decide as Hin.
  - exists (unexpected self). rewrite with_channels_same. split; [done|].
    intros Hu. rewrite Hu in Hin. by apply not_elem_of_nil in Hin.
  - eexists. split; [done|]. by destruct (unexpected self).
Qed.

Lemma touch_outputs_spec values : forall self i,
  exists t u, touch_outputs self i values = with_channels self t u /\
    (forall ch, ch ∈ t <-> ch ∈ touched self \/
       exists j, (i <= j < i + length values)%nat /\ all_channels self !! j = Some ch) /\
    (u = [] <-> unexpected self = [] /\ (values = [] \/ (i + length values <= length (all_channels self))%nat)).
Proof.
  induction values as [|v values IH]; intros self i; simpl.
  { exists (touched self), (unexpected self). rewrite with_channels_same. split_and!; [done| |naive_solver].
    intros ch. split; [by left|]. intros [|(j & ? & _)]; [done|lia]. }
  destruct (all_channels self !! i) as [c|] eqn:Hc.
  - destruct (IH (with_channels self ({[ c ]} ∪ touched self) (unexpected self)) (S i))
      as (t & u & -> & Ht & Hu).
    exists t, u. split_and!; [done|..]; simpl in *.
    + intros ch. rewrite Ht, elem_of_union, elem_of_singleton. split.
      * intros [[->|?]|(j & ? & ?)]; [right; exists i; split; [lia|done]|by left|].
        right. exists j. split; [lia|done].
      * intros [?|(j & ? & Hj)]; [by left; right|].
        destruct (decide (j = i)) as [->|]; [left; left; congruence|]. right. exists j. split; [lia|done].
    + apply lookup_lt_Some in Hc. rewrite Hu. split; intros [? H]; (split; [done|]).
      * right. destruct H as [->|]; simpl; lia.
      * right. destruct H as [|]; [done|lia].
  - destruct (record_unexpected_nonempty self (unexpected_output i)) as (u0 & -> & Hu0).
    destruct (IH (with_channels self (touched self) u0) (S i)) as (t & u & -> & Ht & Hu).
    exists t, u. split_and!; [done|..]; simpl in *.
    + intros ch. rewrite Ht. apply lookup_ge_None in Hc as Hge.
      split; (intros [?|(j & ? & Hj)]; [by left|]); apply lookup_lt_Some in Hj as ?; lia.
    + apply lookup_ge_None in Hc. rewrite Hu. split; intros [? [|]]; try done; lia.
Qed.

Lemma record_channel_touched_spec self ch :
  exists t u, record_channel_touched self ch = with_channels self t u /\
    (forall c, c ∈ t <-> c ∈ touched self \/ (ch = c /\ c ∈ all_channels self)) /\
    (u = [] <-> unexpected self = [] /\ ch ∈ all_channels self).
Proof.
  unfold record_channel_touched. case_bool_decide as Hin.
  - eexists _, _. split_and!; [done| |naive_solver].
    intros c. rewrite elem_of_union, elem_of_singleton. naive_solver.
  - destruct (record_unexpected_nonempty self ch) as (u & -> & Hu). eexists _, _.
    split_and!; [done| |naive_solver]. naive_solver.
Qed.

Lemma of_kind_cons f i l : of_kind f (i :: l) = (if f (kind i) then 1 else 0) + of_kind f l.
Proof. unfold of_kind. simpl. destruct (f (kind i)); simpl; lia. Qed.

Lemma of_kind_nonneg f l : 0 <= of_kind f l.
Proof. unfold of_kind. lia. Qed.

Definition is_kind_limit (k : InterventionKind) : bool :=
  negb (is_kind_rate k || is_kind_position k || is_kind_reject k || is_kind_overrun k).

Lemma count_interventions_spec l : forall self,
  ec_rejection self + Z.of_nat (length l) <= u32_max -> ec_limit_clamp self + Z.of_nat (length l) <= u32_max ->
  ec_rate_clamp self + Z.of_nat (length l) <= u32_max -> ec_position_stop self + Z.of_nat (length l) <= u32_max ->
  ec_missed_tick self + Z.of_nat (length l) <= u32_max ->
  count_interventions self l =
  Ret (with_counts self (ec_rejection self + of_kind is_kind_reject l)
         (ec_limit_clamp self + of_kind is_kind_limit l) (ec_rate_clamp self + of_kind is_kind_rate l)
         (ec_position_stop self + of_kind is_kind_position l) (ec_missed_tick self + of_kind is_kind_overrun l)).
Proof.
  induction l as [|i l IH]; intros self H1 H2 H3 H4 H5; simpl in *.
  { unfold of_kind. simpl. by rewrite !Z.add_0_r, with_counts_same. }
  rewrite !of_kind_cons. unfold count_intervention.
  destruct (kind i); simpl; rewrite u32_add_ret by lia; simpl; rewrite IH by (simpl; lia);
    unfold with_counts; simpl; f_equal; f_equal; lia.
Qed.

Definition jumps (p : f64 * f64) : bool := f64_gt (jump (fst p) (snd p)) OSCILLATION_DELTA_THRESHOLD.
Definition idles (p : f64 * f64) : bool := negb (f64_gt (jump (fst p) (snd p)) STEADY_STATE_EPSILON).
Definition sign_flips (l : list (f64 * f64)) : nat :=
  length (List.filter (fun p => sign_changed (fst p) (snd p)) l).

Lemma sign_flips_cons p l :
  sign_flips (p :: l) = ((if sign_changed (fst p) (snd p) then 1 else 0) + sign_flips l)%nat.
Proof. unfold sign_flips. simpl. by destruct (sign_changed _ _). Qed.

Lemma ret_triple (a a' : Z) (b b' c c' : bool) :
  a = a' -> b = b' -> c = c' -> Ret (a, b, c) = Ret (a', b', c').
Proof. congruence. Qed.

Lemma compare_outputs_spec prevs : forall currs n within exceeded,
  n + Z.of_nat (length prevs) <= u32_max ->
  compare_outputs n within exceeded prevs currs =
  Ret (n + Z.of_nat (sign_flips (zip prevs currs)), within && forallb idles (zip prevs currs),
       exceeded || existsb jumps (zip prevs currs)).
Proof.
  induction prevs as [|p prevs IH]; intros [|c currs] n within exceeded Hn; simpl in *;
    rewrite ?Z.add_0_r, ?andb_true_r, ?orb_false_r; try done.
  rewrite sign_flips_cons. unfold jumps at 1, idles at 1. simpl.
  destruct (sign_changed p c); simpl; rewrite ?u32_add_ret by lia; simpl; rewrite IH by lia;
    (apply ret_triple; [lia| |]); destruct (f64_gt (jump p c) _), within, exceeded; done.
Qed.

Lemma record_motion_spec self values :
  Z.of_nat (length (previous self)) <= u32_max -> 0 <= steady_state_ticks self -> steady_state_ticks self + 1 <= u32_max ->
  exists n, record_motion self values =
    Ret (with_motion self (oscillation self || oscillates (previous self) values) n values) /\
    0 <= n <= steady_state_ticks self + 1.
Proof.
  intros Hl H0 Hs. unfold record_motion, oscillates.
  destruct (length (previous self) =? 0)%nat; cbn [negb andb]; [rewrite orb_false_r; eexists; split; [done|lia]|].
  destruct (length (previous self) =? length values)%nat; cbn [negb andb];
    [|rewrite orb_false_r; eexists; split; [done|lia]].
  fold (sign_flips (zip (previous self) values)) jumps.
  rewrite compare_outputs_spec by lia. cbn [exec_bind orb andb]. rewrite Z.add_0_l.
  generalize (Nat.max (length values) 1 / 2)%nat. intros m.
  assert ((Z.of_nat m <? Z.of_nat (sign_flips (zip (previous self) values)))%Z
          = (m <? sign_flips (zip (previous self) values))%nat) as ->.
  { destruct (Nat.ltb_spec m (sign_flips (zip (previous self) values))); lia. }
  destruct (_ || existsb jumps _); simpl; rewrite ?orb_true_r, ?orb_false_r;
    [eexists; split; [done|lia]|].
  destruct (forallb idles _); [rewrite u32_add_ret by lia|]; eexists; (split; [done|lia]).
Qed.

(** ** The summary of a run *)

Lemma occurrences_snoc f os o : occurrences f (os ++ [o]) = occurrences f os + (if f o then 1 else 0).
Proof. unfold occurrences. rewrite List.filter_app, length_app. simpl. destruct (f o); simpl; lia. Qed.

Lemma of_kind_app f l k : of_kind f (l ++ k) = of_kind f l + of_kind f k.
Proof. unfold of_kind. rewrite List.filter_app, length_app. lia. Qed.

Lemma ticks_snoc os o :
  ticks (os ++ [o]) = ticks os ++ match o with Tick _ out ints => [(command_values out, ints)] | _ => [] end.
Proof. unfold ticks. rewrite omap_app. by destruct o. Qed.

Lemma outputs_snoc os o :
  outputs (os ++ [o]) = outputs os ++ match o with Tick _ out _ => [command_values out] | _ => [] end.
Proof. unfold outputs. rewrite ticks_snoc, map_app. by destruct o. Qed.

Lemma interventions_snoc os o :
  all_interventions (os ++ [o]) = all_interventions os ++ match o with Tick _ _ ints => ints | _ => [] end.
Proof.
  unfold all_interventions. rewrite ticks_snoc, map_app, concat_app. f_equal.
  destruct o; simpl; by rewrite ?app_nil_r.
Qed.

Lemma oscillated_snoc l x :
  oscillated (l ++ [x]) = oscillated l || match last l with Some p => oscillates p x | None => false end.
Proof.
  induction l as [|a l IH]; [done|]. destruct l as [|b l]; [simpl; by rewrite orb_false_r|].
  change (oscillates a b || oscillated ((b :: l) ++ [x])
    = (oscillates a b || oscillated (b :: l)) || match last (b :: l) with Some p => oscillates p x | None => false end).
  by rewrite IH, orb_assoc.
Qed.

Lemma total_weight_snoc os o : total_weight (os ++ [o]) = total_weight os + weight o.
Proof. unfold total_weight. induction os; simpl in *; lia. Qed.

Lemma weight_pos o : 1 <= weight o.
Proof. destruct o; simpl; lia. Qed.

Lemma of_kind_le f l : 0 <= of_kind f l <= Z.of_nat (length l).
Proof. unfold of_kind. pose proof (List.filter_length_le (fun i => f (kind i)) l). lia. Qed.

(** The collector [c] is what the observations [os] amount to. *)
Record summary (id : string) (channels : list string) (os : list observation)
    (c : EvidenceCollector) : Prop := {
  s_id : ec_controller_id c = id;
  s_channels : all_channels c = channels;
  s_ticks : tick_count c = occurrences is_tick os;
  s_samples : sample_count (stats c) = occurrences is_tick os;
  s_trap : ec_trap c = occurrences is_trap os;
  s_epoch : ec_epoch_interrupt c = occurrences is_epoch os;
  s_near_miss : ec_near_miss c = occurrences is_near_miss os;
  s_config : ec_config_reads c = occurrences is_config_read os;
  s_rejection : ec_rejection c = of_kind is_kind_reject (all_interventions os);
  s_rate : ec_rate_clamp c = of_kind is_kind_rate (all_interventions os);
  s_position : ec_position_stop c = of_kind is_kind_position (all_interventions os);
  s_missed : ec_missed_tick c = of_kind is_kind_overrun (all_interventions os);
  s_limit : ec_limit_clamp c = of_kind is_kind_limit (all_interventions os);
  s_touched : forall ch, ch ∈ touched c <-> Exists (fun o => writes channels o ch) os;
  s_unexpected : unexpected c = [] <-> Forall (fun o => ~ strays channels o) os;
  s_previous : previous c = default [] (last (outputs os));
  s_oscillation : oscillation c = oscillated (outputs os);
  s_steady : 0 <= steady_state_ticks c <= occurrences is_tick os;
}.

Lemma summary_new id channels : summary id channels [] (new_collector id channels).
Proof. split; try done. intros ch. simpl. rewrite Exists_nil. set_solver. Qed.

Lemma occurrences_le f os : 0 <= occurrences f os <= total_weight os.
Proof.
  induction os as [|o os IH] using rev_ind; [done|].
  rewrite occurrences_snoc, total_weight_snoc. pose proof (weight_pos o). destruct (f o); lia.
Qed.

Lemma interventions_weight os : Z.of_nat (length (all_interventions os)) <= total_weight os.
Proof.
  induction os as [|o os IH] using rev_ind; [done|].
  rewrite interventions_snoc, length_app, total_weight_snoc. destruct o; simpl in *; lia.
Qed.

Lemma previous_weight os : Z.of_nat (length (default [] (last (outputs os)))) <= total_weight os.
Proof.
  induction os as [|o os IH] using rev_ind; [done|].
  rewrite outputs_snoc, total_weight_snoc. pose proof (weight_pos o).
  pose proof (occurrences_le is_tick os).
  destruct o; rewrite ?app_nil_r, ?last_snoc; simpl in *; lia.
Qed.

Lemma record_latency_ret s d :
  sample_count s + 1 <= u64_max ->
  exists s', record_latency s d = Ret s' /\ sample_count s' = sample_count s + 1.
Proof. intros H. unfold record_latency. rewrite u64_add_ret by done. simpl. by eexists. Qed.

Lemma u32_le_u64 n : n <= u32_max -> n <= u64_max.
Proof. unfold u32_max, u64_max. lia. Qed.

Lemma Exists_snoc {A} (P : A -> Prop) l x : Exists P (l ++ [x]) <-> Exists P l \/ P x.
Proof. rewrite Exists_app, Exists_cons, Exists_nil. naive_solver. Qed.

Lemma Forall_snoc {A} (P : A -> Prop) l x : Forall P (l ++ [x]) <-> Forall P l /\ P x.
Proof. rewrite Forall_app, Forall_singleton. done. Qed.

Lemma tick_summary id channels os c d out ints :
  summary id channels os c -> total_weight (os ++ [Tick d out ints]) <= u32_max ->
  exists c', record_tick c d out ints = Ret c' /\ summary id channels (os ++ [Tick d out ints]) c'.
Proof.
  intros [] Hw. rewrite total_weight_snoc in Hw. simpl in Hw.
  pose proof (occurrences_le is_tick os). pose proof (interventions_weight os).
  pose proof (previous_weight os).
  assert (forall f, 0 <= of_kind f (all_interventions os) <= Z.of_nat (length (all_interventions os)))
    as Hk by (intros; apply of_kind_le).
  unfold record_tick. rewrite u64_add_ret by (apply u32_le_u64; lia). simpl.
  destruct (record_latency_ret (stats c) d) as (s' & -> & Hs'); [apply u32_le_u64; lia|]. simpl.
  destruct (touch_outputs_spec (command_values out) (with_tick c (tick_count c + 1) s') 0)
    as (t & u & -> & Ht & Hu). simpl in Ht, Hu.
  rewrite count_interventions_spec by (simpl; rewrite ?s_rejection0, ?s_limit0, ?s_rate0,
    ?s_position0, ?s_missed0; match goal with |- of_kind ?f _ + _ <= _ => specialize (Hk f) end; lia).
  simpl.
  match goal with |- context [record_motion ?x ?v] =>
    destruct (record_motion_spec x v) as (n & -> & Hn) end.
  1-3: simpl; rewrite ?s_previous0; lia.
  simpl in Hn. eexists. split; [done|].
  assert (occurrences is_tick (os ++ [Tick d out ints]) = occurrences is_tick os + 1) as Htick
    by by rewrite occurrences_snoc.
  split; simpl; rewrite ?interventions_snoc, ?of_kind_app, ?outputs_snoc, ?Htick,
    ?occurrences_snoc, ?Z.add_0_r; simpl; try congruence; try lia.
  - intros ch. rewrite Ht, Exists_snoc, s_touched0, s_channels0. simpl.
    apply or_iff_compat_l. split; intros (j & ? & ?); exists j; (split; [lia|done]).
  - rewrite Hu, Forall_snoc, s_unexpected0, s_channels0. simpl.
    apply and_iff_compat_l. split; [intros [->|]; simpl; lia|right; lia].
  - by rewrite last_snoc.
  - rewrite oscillated_snoc, s_oscillation0, s_previous0. by destruct (last (outputs os)).
Qed.

Lemma event_summary id channels os c o :
  is_tick o = false -> summary id channels os c -> total_weight (os ++ [o]) <= u32_max ->
  exists c', observe c o = Ret c' /\ summary id channels (os ++ [o]) c'.
Proof.
  intros Ho [] Hw. rewrite total_weight_snoc in Hw.
  pose proof (occurrences_le is_trap os). pose proof (occurrences_le is_epoch os).
  pose proof (occurrences_le is_near_miss os). pose proof (occurrences_le is_config_read os).
  assert (outputs (os ++ [o]) = outputs os) as Hout by (rewrite outputs_snoc; destruct o; simpl in *; rewrite ?app_nil_r; done).
  assert (all_interventions (os ++ [o]) = all_interventions os) as Hint
    by (rewrite interventions_snoc; destruct o; simpl in *; rewrite ?app_nil_r; done).
  destruct o; simpl in *; try done;
    unfold record_trap, record_epoch_interrupt, record_watchdog_near_miss, record_config_read;
    rewrite ?u32_add_ret by lia; simpl; [..|
      destruct (record_channel_touched_spec c channel) as (t & u & -> & Ht & Hu)];
    (eexists; split; [done|]);
    split; simpl; rewrite ?Hout, ?Hint, ?occurrences_snoc, ?Z.add_0_r; simpl; try congruence; try lia.
  all: match goal with
  | |- forall ch, _ => intros ch; rewrite ?Ht, Exists_snoc, ?s_touched0, ?s_channels0; simpl; tauto
  | |- _ => rewrite ?Hu, Forall_snoc, s_unexpected0, ?s_channels0; simpl; try tauto
  end.
  apply and_iff_compat_l. split; [tauto|]. by intros ?%dec_stable.
Qed.

Lemma observe_summary id channels os c o :
  summary id channels os c -> total_weight (os ++ [o]) <= u32_max ->
  exists c', observe c o = Ret c' /\ summary id channels (os ++ [o]) c'.
Proof. destruct o; [apply tick_summary|by apply event_summary..]. Qed.

Lemma observe_all_app os1 os2 : forall c,
  observe_all c (os1 ++ os2) = exec_bind (observe_all c os1) (fun c => observe_all c os2).
Proof. induction os1 as [|o os IH]; intros c; simpl; [done|]. destruct (observe c o); simpl; [apply IH|done]. Qed.

Lemma run_summary id channels os :
  total_weight os <= u32_max ->
  exists c, observe_all (new_collector id channels) os = Ret c /\ summary id channels os c.
Proof.
  induction os as [|o os IH] using rev_ind; intros Hw.
  { eexists. split; [done|apply summary_new]. }
  pose proof (weight_pos o). destruct IH as (c & Hc & Hs); [rewrite total_weight_snoc in Hw; lia|].
  destruct (observe_summary _ _ _ _ o Hs Hw) as (c' & Hc' & Hs').
  exists c'. split; [|done]. rewrite observe_all_app, Hc. simpl. by rewrite Hc'.
Qed.

(** ** Percentiles *)

Lemma index_ret {A} (l : list A) i : (i < length l)%nat -> exists x, index l i = Ret x /\ l !! i = Some x.
Proof. intros H. unfold index. destruct (lookup_lt_is_Some_2 l i H) as [x ->]. by eexists. Qed.

#[export] Instance Z_le_total : Total Z.le.
Proof. intros x y. lia. Qed.

Lemma sorted_lookup_le (l : list Z) i j x y :
  StronglySorted Z.le l -> l !! i = Some x -> l !! j = Some y -> (i <= j)%nat -> x <= y.
Proof.
  intros Hs. revert i j. induction Hs as [|a l Hs IH Hall]; intros [|i] [|j] Hx Hy Hij; simplify_eq/=; try lia.
  - rewrite Forall_lookup in Hall. by eapply Hall.
  - eapply IH; eauto. lia.
Qed.

Lemma sorted_count_le (l : list Z) i (x : Z) :
  StronglySorted Z.le l -> l !! i = Some x -> (i < length (List.filter (fun y => (y <=? x)%Z) l))%nat.
Proof.
  intros Hs Hx.
  assert (List.filter (fun y => (y <=? x)%Z) (take (S i) l) = take (S i) l) as Ht.
  { apply forallb_filter_id, forallb_forall. intros y Hy. apply list_elem_of_In in Hy.
    apply list_elem_of_lookup in Hy as [j Hj]. apply lookup_take_Some in Hj as [Hj ?].
    apply Z.leb_le. eapply (sorted_lookup_le l); eauto. lia. }
  rewrite <- (take_drop (S i) l) at 1. rewrite List.filter_app, length_app, Ht, length_take.
  apply lookup_lt_Some in Hx. lia.
Qed.

Lemma percent_lt n k : (0 < n)%nat -> (k < 100)%nat -> (n * k / 100 < n)%nat.
Proof. intros. apply Nat.Div0.div_lt_upper_bound. nia. Qed.

Lemma percent_le n j k : (j <= k)%nat -> (n * j / 100 <= n * k / 100)%nat.
Proof. intros. apply Nat.Div0.div_le_mono. nia. Qed.

Lemma percent_above n k : (n * k < 100 * (n * k / 100 + 1))%nat.
Proof. pose proof (Nat.div_mod (n * k) 100 ltac:(lia)). pose proof (Nat.mod_upper_bound (n * k) 100). lia. Qed.

Lemma permutation_count (f : Z -> bool) l k :
  l ≡ₚ k -> length (List.filter f l) = length (List.filter f k).
Proof.
  induction 1; simpl; try done; [by destruct (f x); simpl; congruence| |congruence].
  by destruct (f x), (f y).
Qed.

Lemma sorted_samples (samples : list Z) :
  StronglySorted Z.le (merge_sort Z.le samples) /\
  length (merge_sort Z.le samples) = length samples /\
  (forall x, x ∈ merge_sort Z.le samples -> x ∈ samples) /\
  forall i x, merge_sort Z.le samples !! i = Some x ->
    (i < length (List.filter (fun y => (y <=? x)%Z) samples))%nat.
Proof.
  pose proof (StronglySorted_merge_sort Z.le samples) as Hs.
  pose proof (merge_sort_Permutation Z.le samples) as Hp. split_and!; [done|by apply Permutation_length|..].
  - intros x. by rewrite Hp.
  - intros i x Hx. rewrite <- (permutation_count _ _ _ Hp). by apply sorted_count_le.
Qed.

(** The latency percentiles are samples, in order, and no index is out of range: at
    least half of the samples are at most the median, 95 in a hundred at most the
    second percentile and 99 in a hundred at most the third. *)
Theorem percentiles_sound (samples : list Z) :
  match samples with
  | [] => compute_percentiles samples = Ret (0, 0, 0)
  | _ => exists p50 p95 p99, compute_percentiles samples = Ret (p50, p95, p99) /\
      p50 ∈ samples /\ p95 ∈ samples /\ p99 ∈ samples /\ p50 <= p95 <= p99 /\
      let at_most p := length (List.filter (fun y => (y <=? p)%Z) samples) in
      let n := length samples in
      (n * 50 <= 100 * at_most p50)%nat /\ (n * 95 <= 100 * at_most p95)%nat /\
      (n * 99 <= 100 * at_most p99)%nat
  end.
Proof.
  destruct samples as [|z zs]; [done|]. set (samples := z :: zs).
  destruct (sorted_samples samples) as (Hs & Hlen & Hin & Hcount).
  assert (0 < length samples)%nat as Hn by (simpl; lia).
  unfold compute_percentiles. fold samples. cbv zeta. rewrite Hlen.
  set (i50 := (length samples * 50 / 100)%nat).
  set (i95 := Nat.min (length samples * 95 / 100) (length samples - 1)).
  set (i99 := Nat.min (length samples * 99 / 100) (length samples - 1)).
  pose proof (percent_le (length samples) 50 95 ltac:(lia)).
  pose proof (percent_le (length samples) 95 99 ltac:(lia)).
  pose proof (percent_lt (length samples) 50 Hn ltac:(lia)).
  pose proof (percent_lt (length samples) 95 Hn ltac:(lia)).
  pose proof (percent_lt (length samples) 99 Hn ltac:(lia)).
  destruct (index_ret (merge_sort Z.le samples) i50) as (p50 & -> & H50); [lia|].
  destruct (index_ret (merge_sort Z.le samples) i95) as (p95 & -> & H95); [lia|].
  destruct (index_ret (merge_sort Z.le samples) i99) as (p99 & -> & H99); [lia|].
  exists p50, p95, p99. split_and!; [done|eauto using list_elem_of_lookup_2..| | |].
  1: apply (sorted_lookup_le _ i50 i95 _ _ Hs H50 H95); unfold i50, i95; lia.
  1: apply (sorted_lookup_le _ i95 i99 _ _ Hs H95 H99); unfold i95, i99; lia.
  all: [> pose proof (Hcount _ _ H50) | pose proof (Hcount _ _ H95) | pose proof (Hcount _ _ H99)].
  all: pose proof (percent_above (length samples) 50); pose proof (percent_above (length samples) 95);
    pose proof (percent_above (length samples) 99); unfold i50, i95, i99 in *.
  all: clear Hs Hlen Hin Hcount H50 H95 H99; lia.
Qed.

(** ** What a bundle says of the run *)

Lemma percentiles_ret samples : exists r, compute_percentiles samples = Ret r.
Proof.
  destruct samples as [|z zs]; [by eexists|]. unfold compute_percentiles.
  pose proof (sorted_samples (z :: zs)) as (_ & Hlen & _ & _). cbv zeta. rewrite Hlen.
  assert (0 < length (z :: zs))%nat by (simpl; lia). set (n := length (z :: zs)) in *.
  pose proof (percent_lt n 50 ltac:(lia) ltac:(lia)).
  destruct (index_ret (merge_sort Z.le (z :: zs)) (n * 50 / 100)) as (? & -> & _); [lia|].
  destruct (index_ret (merge_sort Z.le (z :: zs)) (Nat.min (n * 95 / 100) (n - 1))) as (? & -> & _); [lia|].
  destruct (index_ret (merge_sort Z.le (z :: zs)) (Nat.min (n * 99 / 100) (n - 1))) as (? & -> & _); [lia|].
  by eexists.
Qed.

Lemma finalize_ret c args ctx :
  exists ev, finalize_with_context c args ctx = Ret ev /\
    ev_controller_id ev = ec_controller_id c /\ ticks_run ev = tick_count c /\
    rejection_count ev = ec_rejection c /\ limit_clamp_count ev = ec_limit_clamp c /\
    rate_clamp_count ev = ec_rate_clamp c /\ position_limit_stop_count ev = ec_position_stop c /\
    epoch_interrupt_count ev = ec_epoch_interrupt c /\ trap_count ev = ec_trap c /\
    watchdog_near_miss_count ev = ec_near_miss c /\ config_reads ev = ec_config_reads c /\
    unexpected_channels_touched ev = unexpected c /\
    channels_untouched ev = List.filter (fun ch => negb (was_touched c ch)) (all_channels c) /\
    command_oscillation_detected (controller_stability_summary ev) = oscillation c /\
    missed_tick_count (controller_stability_summary ev) = ec_missed_tick c.
Proof.
  destruct (percentiles_ret (recent_samples_us (stats c))) as ([[p50 p95] p99] & Hp).
  unfold finalize_with_context, percentiles. rewrite Hp. simpl. eexists. by split_and!.
Qed.

(** *** Oscillation, without the collector's own tests *)

(** A value moved by more than 0.05, up or down. *)
Definition leaps (p c : f64) : Prop :=
  f64_gt (f64_sub c p) (f64_dec 5 2) = true \/ f64_lt (f64_sub c p) (f64_neg (f64_dec 5 2)) = true.

(** A value went from one side of zero to the other; one that is no number is on neither side. *)
Definition reverses (p c : f64) : Prop :=
  (f64_lt p zero = true /\ f64_gt c zero = true) \/ (f64_gt p zero = true /\ f64_lt c zero = true) \/
  (is_nan p = true /\ f64_eq c zero = false) \/ (is_nan c = true /\ f64_eq p zero = false).

#[local] Instance reverses_dec p c : Decision (reverses p c).
Proof. unfold reverses. apply _. Defined.

(** Two successive outputs of one width swing: a value leaps, or more than half of them reverse. *)
Definition swing (prev curr : list f64) : Prop :=
  length prev = length curr /\
  ((exists i p c, prev !! i = Some p /\ curr !! i = Some c /\ leaps p c) \/
   (length curr < 2 * length (base.filter (fun x => reverses x.1 x.2) (zip prev curr)))%nat).

Lemma abs_exceeds m e d : f64_gt (f64_abs d) (S754_finite false m e) =
  f64_gt d (S754_finite false m e) || f64_lt d (S754_finite true m e).
Proof.
  destruct d as [s|[]| |[] m' e']; try done; unfold f64_gt, f64_lt, SFltb, f64_abs; cbn [SFabs].
  - unfold SFcompare. rewrite (Z.compare_antisym e e'), (Pos.compare_cont_antisym m' m).
    by destruct (e ?= e')%Z.
  - rewrite orb_false_r. done.
Qed.

Lemma jump_leaps p c : f64_gt (jump p c) OSCILLATION_DELTA_THRESHOLD = true <-> leaps p c.
Proof.
  unfold jump, leaps. change OSCILLATION_DELTA_THRESHOLD with (f64_dec 5 2).
  replace (f64_dec 5 2) with (S754_finite false 7205759403792794 (-57)) by (vm_compute; reflexivity).
  cbn [f64_neg SFopp negb]. by rewrite abs_exceeds, orb_true_iff.
Qed.

Lemma sign_changed_reverses p c : sign_changed p c = true <-> reverses p c.
Proof.
  unfold sign_changed, reverses. destruct p as [[]|[]| |[] m e], c as [[]|[]| |[] m' e']; vm_compute; intuition congruence.
Qed.

Lemma reversal_count l : length (base.filter (fun x : f64 * f64 => reverses x.1 x.2) l) =
  length (List.filter (fun x : f64 * f64 => sign_changed x.1 x.2) l).
Proof.
  induction l as [|[p c] l IH]; [done|]. rewrite filter_cons. cbn [List.filter fst snd].
  destruct (sign_changed p c) eqn:E, (decide (reverses p c)) as [H|H]; try done; cbn [length]; try congruence;
    apply sign_changed_reverses in E || apply sign_changed_reverses in H; congruence.
Qed.

Lemma oscillates_swing prev curr : oscillates prev curr = true <-> swing prev curr.
Proof.
  unfold oscillates, swing. rewrite !andb_true_iff, orb_true_iff, negb_true_iff, Nat.eqb_neq, Nat.eqb_eq, Nat.ltb_lt, existsb_exists, reversal_count.
  assert (Hhalf : forall n k, (n / 2 < k <-> n < 2 * k)%nat).
  { intros n k. split; intros H; [pose proof (Nat.div_mod n 2); pose proof (Nat.mod_upper_bound n 2); lia|apply Nat.Div0.div_lt_upper_bound; lia]. }
  rewrite Hhalf.
  assert (Hleap : (exists x, In x (zip prev curr) /\ f64_gt (jump x.1 x.2) OSCILLATION_DELTA_THRESHOLD = true) <->
    exists i p c, prev !! i = Some p /\ curr !! i = Some c /\ leaps p c).
  { setoid_rewrite <- list_elem_of_In. setoid_rewrite list_elem_of_lookup. setoid_rewrite jump_leaps. split.
    - intros ([p c] & [i Hi] & Hl). rewrite lookup_zip_with in Hi. exists i, p, c.
      destruct (prev !! i), (curr !! i); cbn in Hi; try done. by injection Hi as <- <-.
    - intros (i & p & c & Hp & Hc & Hl). exists (p, c). split; [|done]. exists i. rewrite lookup_zip_with, Hp. cbn. by rewrite Hc. }
  rewrite Hleap. destruct prev as [|p prev], curr as [|c curr]; cbn [length]; rewrite ?Nat.max_l by lia; cbn [zip List.filter length] in *.
  - split; [by intros [[? _] _]|]. intros [_ [(i & ? & ? & ? & _)|?]]; [done|lia].
  - naive_solver lia.
  - naive_solver lia.
  - naive_solver.
Qed.

Lemma oscillated_swing l : oscillated l = false <-> forall l1 prev curr l2, l = l1 ++ prev :: curr :: l2 -> ~ swing prev curr.
Proof.
  setoid_rewrite <- oscillates_swing. setoid_rewrite not_true_iff_false. induction l as [|prev [|curr l] IH].
  - split; [|done]. by intros _ [] ?.
  - split; [|done]. by intros _ [|? []] ?.
  - change (oscillated (prev :: curr :: l)) with (oscillates prev curr || oscillated (curr :: l)). rewrite orb_false_iff, IH. split.
    + intros [H1 H2] [|x l1] p c l2 E; [by injection E as <- <- _|]. injection E as _ E. by apply (H2 l1 p c l2).
    + intros H. split; [by apply (H [] prev curr l)|]. intros l1 p c l2 E. apply (H (prev :: l1) p c l2). by rewrite E.
Qed.

(** The run was clean: no trap, no interrupted epoch, no two successive outputs that swing,
    nothing written beyond the declared channels, and every declared channel written. *)
Definition clean_run (channels : list string) (os : list observation) : Prop :=
  Forall (fun o => is_trap o = false /\ is_epoch o = false /\ ~ strays channels o) os /\
  (forall l1 prev curr l2, outputs os = l1 ++ prev :: curr :: l2 -> ~ swing prev curr) /\
  Forall (fun ch => Exists (fun o => writes channels o ch) os) channels.

Lemma occurrences_none f os : occurrences f os <= 0 <-> Forall (fun o => f o = false) os.
Proof.
  induction os as [|o os IH]; [by split; [constructor|]|].
  rewrite Forall_cons, <- IH. unfold occurrences. simpl. destruct (f o); simpl; [|naive_solver].
  split; [lia|by intros []].
Qed.

Lemma filter_none {A} (f : A -> bool) l : List.filter f l = [] <-> Forall (fun x => f x = false) l.
Proof.
  induction l as [|x l IH]; simpl; [by split|]. rewrite Forall_cons.
  destruct (f x); naive_solver.
Qed.

Lemma untouched_none id channels os c :
  summary id channels os c ->
  List.filter (fun ch => negb (was_touched c ch)) (all_channels c) = [] <->
  Forall (fun ch => Exists (fun o => writes channels o ch) os) channels.
Proof.
  intros S. rewrite filter_none, (s_channels _ _ _ _ S). apply Forall_iff. intros ch.
  rewrite negb_false_iff. unfold was_touched. by rewrite bool_decide_eq_true, (s_touched _ _ _ _ S).
Qed.

(** A bundle with the same account of the run: what the verifier changes is its status. *)
Definition same_run (ev ev' : ControllerEvidenceBundle) : Prop :=
  trap_count ev' = trap_count ev /\ epoch_interrupt_count ev' = epoch_interrupt_count ev /\
  controller_stability_summary ev' = controller_stability_summary ev /\
  unexpected_channels_touched ev' = unexpected_channels_touched ev /\
  channels_untouched ev' = channels_untouched ev.

Lemma same_run_safety ev ev' : same_run ev ev' -> has_safety_issues ev' = has_safety_issues ev.
Proof. unfold has_safety_issues. by intros (-> & -> & -> & -> & _). Qed.

Lemma same_run_untouched ev ev' : same_run ev ev' -> has_untouched_channels ev' = has_untouched_channels ev.
Proof. unfold has_untouched_channels. by intros (_ & _ & _ & _ & ->). Qed.

Lemma gates_clean id channels os c ev args ctx :
  summary id channels os c -> finalize_with_context c args ctx = Ret ev ->
  has_safety_issues ev || has_untouched_channels ev = false <-> clean_run channels os.
Proof.
  intros S Hev. destruct (finalize_ret c args ctx) as (ev' & Hev' & H).
  rewrite Hev in Hev'. simplify_eq. destruct_and! H.
  unfold has_safety_issues, has_untouched_channels, clean_run.
  rewrite !orb_false_iff, !negb_false_iff, !bool_decide_eq_true, !Z.ltb_ge.
  repeat match goal with H : _ = _ c |- _ => rewrite H end.
  rewrite (s_trap _ _ _ _ S), (s_epoch _ _ _ _ S), (s_oscillation _ _ _ _ S), (s_unexpected _ _ _ _ S).
  match goal with H : channels_untouched ev' = _ |- _ => rewrite H end.
  rewrite (untouched_none _ _ _ _ S), !occurrences_none, !Forall_and, <- oscillated_swing. tauto.
Qed.

Lemma gates_pass_safety current a ev rd :
  gates_pass current a ev rd -> has_safety_issues ev || has_untouched_channels ev = false.
Proof.
  intros G. apply orb_false_iff. split.
  - apply has_safety_issues_false. by destruct G.
  - apply has_untouched_channels_false. by destruct G.
Qed.

Lemma kinds_partition l :
  of_kind is_kind_reject l + of_kind is_kind_limit l + of_kind is_kind_rate l
  + of_kind is_kind_position l + of_kind is_kind_overrun l = Z.of_nat (length l).
Proof.
  induction l as [|i l IH]; [done|]. rewrite !of_kind_cons.
  change (length (i :: l)) with (S (length l)). destruct (kind i); simpl; lia.
Qed.

(** ** Properties *)

(** C39: a bundle counts what happened: for every sequence of observations short enough for
    the counters, collecting and finalising return, and the bundle holds the number of
    ticks, traps, interrupted epochs, near misses and config reads, and each intervention
    exactly once under the counter of its kind. *)
Theorem collector_counts_exact (id : string) (channels : list string) (os : list observation)
    (args : FinalizeArgs) (ctx : EvidenceFinalizeContext) (Hw : total_weight os <= u32_max) :
  exists ev,
    exec_bind (observe_all (new_collector id channels) os) (fun c => finalize_with_context c args ctx) = Ret ev /\
    ev_controller_id ev = id /\ ticks_run ev = occurrences is_tick os /\
    trap_count ev = occurrences is_trap os /\ epoch_interrupt_count ev = occurrences is_epoch os /\
    watchdog_near_miss_count ev = occurrences is_near_miss os /\
    config_reads ev = occurrences is_config_read os /\
    rejection_count ev = of_kind is_kind_reject (all_interventions os) /\
    rate_clamp_count ev = of_kind is_kind_rate (all_interventions os) /\
    position_limit_stop_count ev = of_kind is_kind_position (all_interventions os) /\
    missed_tick_count (controller_stability_summary ev) = of_kind is_kind_overrun (all_interventions os) /\
    rejection_count ev + limit_clamp_count ev + rate_clamp_count ev + position_limit_stop_count ev
      + missed_tick_count (controller_stability_summary ev) = Z.of_nat (length (all_interventions os)).
Proof.
  destruct (run_summary id channels os Hw) as (c & -> & S).
  destruct (finalize_ret c args ctx) as (ev & Hev & H). exists ev. destruct S. destruct_and! H.
  simpl. split_and!; try congruence. rewrite <- (kinds_partition (all_interventions os)). lia.
Qed.

(** C38: evidence the collector gathered opens the safety gates exactly when the run was
    clean: no trap, no interrupted epoch, nothing written beyond the declared channels, every
    declared channel written, and no two successive outputs of one width between which a value
    moved by more than 0.05 or more than half of the values reversed.  So whenever a controller is
    promoted on such evidence, whatever status the verifier gave it, its run was clean. *)
Theorem promotion_needs_clean_run (id : string) (channels : list string) (os : list observation)
    (args : FinalizeArgs) (ctx : EvidenceFinalizeContext) (c : EvidenceCollector)
    (ev : ControllerEvidenceBundle)
    (Hw : total_weight os <= u32_max)
    (Hc : observe_all (new_collector id channels) os = Ret c)
    (Hev : finalize_with_context c args ctx = Ret ev) :
  (has_safety_issues ev || has_untouched_channels ev = false <-> clean_run channels os) /\
  forall rd target s tr s' ev', same_run ev ev' -> evidence s = Some ev' ->
    promote_to rd target s = (Ok tr, s') -> clean_run channels os.
Proof.
  destruct (run_summary id channels os Hw) as (c' & Hc' & S).
  rewrite Hc in Hc'. injection Hc' as <-.
  pose proof (gates_clean _ _ _ _ _ _ _ S Hev) as Hg. split; [done|].
  intros rd target s tr s' ev' Hsame He Hp. apply Hg.
  apply promote_to_ok in Hp as (a & ev1 & _ & He1 & G & _). rewrite He in He1. injection He1 as <-.
  rewrite <- (same_run_safety _ _ Hsame), <- (same_run_untouched _ _ Hsame).
  by rewrite (gates_pass_safety _ _ _ _ G).
Qed.

(** ** A concrete run *)

Definition demo_output (a b : f64) : TickOutput :=
  {| command_values := [a; b]; out_estop := false; out_estop_reason := None; metrics := [] |}.
Definition demo_run : list observation :=
  [Tick 1500000 (demo_output one zero) []; ConfigRead;
   Tick 2500000 (demo_output one zero)
     [intervention "j0" one one AccelerationLimit []; intervention "j1" one one TorqueLimit []]].
Definition demo_args : FinalizeArgs := {|
  fa_controller_digest := "c"; fa_model_digest := "m"; fa_calibration_digest := "k";
  fa_manifest_digest := "f"; fa_wit_world_version := "w"; fa_execution_mode := Verify;
  fa_compiler_version := "v"; fa_uuid := "b"; fa_now := 0 |}.

Lemma collector_counts_exact_witness :
  exists ev,
    exec_bind (observe_all (new_collector "ctrl" ["j0"; "j1"]) demo_run)
      (fun c => finalize_with_context c demo_args default_context) = Ret ev /\
    ticks_run ev = 2 /\ rate_clamp_count ev = 1.
Proof.
  destruct (collector_counts_exact "ctrl" ["j0"; "j1"] demo_run demo_args default_context)
    as (ev & He & _ & Ht & _ & _ & _ & _ & _ & Hr & _); [vm_compute; discriminate|].
  exists ev. split; [exact He|]. split; [exact Ht|exact Hr].
Defined.

Definition demo_collector : EvidenceCollector :=
  match observe_all (new_collector "ctrl" ["j0"; "j1"]) demo_run with
  | Ret c => c
  | Panic => new_collector "" []
  end.
Definition demo_bundle : ControllerEvidenceBundle :=
  match finalize_with_context demo_collector demo_args default_context with
  | Ret ev => ev
  | Panic => sample_evidence VerifiedOnly
  end.

Lemma promotion_needs_clean_run_witness : clean_run ["j0"; "j1"] demo_run.
Proof.
  destruct (promotion_needs_clean_run "ctrl" ["j0"; "j1"] demo_run demo_args default_context
    demo_collector demo_bundle) as [Hgate _];
    [vm_compute; discriminate|vm_compute; reflexivity|vm_compute; reflexivity|].
  apply Hgate. vm_compute. reflexivity.
Defined.

(** A robot that reverses one of its two joints by a hair is steady: half of the signs is
    not a majority, and the change is below both thresholds. *)
Example one_flip_of_two_is_steady :
  oscillates [f64_dec 1 3; one] [f64_neg (f64_dec 1 3); one] = false.
Proof. vm_compute. reflexivity. Qed.

(** The same flip on a single-joint robot counts as oscillation. *)
Example single_joint_flip_oscillates :
  oscillates [f64_dec 1 3] [f64_neg (f64_dec 1 3)] = true.
Proof. vm_compute. reflexivity. Qed.

(** A NaN output neither leaves the idle band nor exceeds the oscillation threshold, but a
    sign comparison with NaN always differs. *)
Example nan_output_flips : oscillates [S754_nan] [S754_nan] = true /\ idles (S754_nan, S754_nan) = true.
Proof. by vm_compute. Qed.
