(* ===== verification/TickController.v ===== *)
(** * One tick of one controller

    [crates/roz-copper/src/controller.rs]: a loaded controller, what one tick of it does
    ([tick_controller]: the guest, the hot-path filter, the evidence) and what a finished
    stretch of evidence becomes; the command slots of [wit_host.rs] and the component
    branch of [tick_with_contract] in [wasm.rs].

    The guest is WebAssembly run by a library: what one call of it does is the argument
    [guest_call].  The projection of the embodiment runtime reaches only the guest and the
    snapshot context of the evidence, which are arguments too.  The JSON text of the last
    output, published for the agent, is left out. *)

From S2P Require Import Prelude Float64 Deployment Lifecycle Command Embodiment SafetyFilter Evidence.

(** ** wit_host.rs: the command slots *)

(** Write [src] over the first slots of [dst]; what has no slot is dropped. *)
Fixpoint overwrite (src dst : list f64) : list f64 :=
  match src, dst with
  | v :: src, _ :: dst => v :: overwrite src dst
  | _, _ => dst
  end.

Record HostContext : Type := {
  host_defaults : list f64;
  host_command_values : list f64;
  estop_requested : bool;
}.

(** [HostContext::with_control_manifest] for [n] channels. *)
Definition host_context (n : nat) : HostContext :=
  {| host_defaults := replicate n zero; host_command_values := replicate n zero;
     estop_requested := false |}.

Definition reset_commands (h : HostContext) : HostContext :=
  {| host_defaults := host_defaults h;
     host_command_values := overwrite (host_defaults h) (host_command_values h);
     estop_requested := estop_requested h |}.

(** Once requested, an e-stop stays requested. *)
Definition record_tick_output (h : HostContext) (out : TickOutput) : HostContext :=
  {| host_defaults := host_defaults h;
     host_command_values := overwrite (command_values out) (host_command_values h);
     estop_requested := estop_requested h || out_estop out |}.

(** What one call of the guest's [process] does: an output, or a trap with its message. *)
Inductive guest_call : Type :=
| GuestOutput (out : TickOutput)
| GuestTrap (msg : string).

Definition tick_with_contract (h : HostContext) (g : guest_call)
    : result TickOutput string * HostContext :=
  let h := reset_commands h in
  match g with
  | GuestTrap msg => (Err msg, h)
  | GuestOutput out =>
      let h := record_tick_output h out in
      if estop_requested h then (Err "e-stop requested by WASM module", h) else (Ok out, h)
  end.

(** ** controller.rs: a loaded controller *)

Record LoadedController : Type := {
  host : HostContext;
  running : bool;
  period : Duration;
  artifact : ControllerArtifact;
  hot_path_filter : HotPathSafetyFilter;
  evidence_collector : EvidenceCollector;
  channel_names : list string;
  command_defaults : list f64;
  command_count : nat;
  command_limit_spans : list f64;
  last_evidence_context : EvidenceFinalizeContext;
  config_json : string;
}.

(** A [PreparedController] has the fields of the controller it becomes, but for [running]. *)
Definition set_running (r : bool) (c : LoadedController) : LoadedController := {|
  host := host c; running := r; period := period c; artifact := artifact c;
  hot_path_filter := hot_path_filter c; evidence_collector := evidence_collector c;
  channel_names := channel_names c; command_defaults := command_defaults c;
  command_count := command_count c; command_limit_spans := command_limit_spans c;
  last_evidence_context := last_evidence_context c; config_json := config_json c |}.

Definition from_prepared (load : LoadedController) : LoadedController := set_running true load.

(** The parameters as the JSON text both readers get. *)
Definition apply_params (params : string) (c : LoadedController) : LoadedController := {|
  host := host c; running := running c; period := period c; artifact := artifact c;
  hot_path_filter := hot_path_filter c; evidence_collector := evidence_collector c;
  channel_names := channel_names c; command_defaults := command_defaults c;
  command_count := command_count c; command_limit_spans := command_limit_spans c;
  last_evidence_context := last_evidence_context c; config_json := params |}.

Definition set_promoted_at (t : DateTime) (a : ControllerArtifact) : ControllerArtifact := {|
  controller_id := controller_id a; sha256 := sha256 a; source_kind := source_kind a;
  controller_class := controller_class a; generator_model := generator_model a;
  generator_provider := generator_provider a; channel_manifest_version := channel_manifest_version a;
  host_abi_version := host_abi_version a; evidence_bundle_id := evidence_bundle_id a;
  created_at := created_at a; promoted_at := Some t;
  replaced_controller_id := replaced_controller_id a; verification_key := verification_key a;
  wit_world := wit_world a; verifier_result := verifier_result a |}.

Definition set_artifact (a : ControllerArtifact) (c : LoadedController) : LoadedController := {|
  host := host c; running := running c; period := period c; artifact := a;
  hot_path_filter := hot_path_filter c; evidence_collector := evidence_collector c;
  channel_names := channel_names c; command_defaults := command_defaults c;
  command_count := command_count c; command_limit_spans := command_limit_spans c;
  last_evidence_context := last_evidence_context c; config_json := config_json c |}.

(** The state a tick leaves: host, filter, evidence and snapshot context. *)
Definition after_tick (h : HostContext) (f : HotPathSafetyFilter) (e : EvidenceCollector)
    (ctx : EvidenceFinalizeContext) (c : LoadedController) : LoadedController := {|
  host := h; running := running c; period := period c; artifact := artifact c;
  hot_path_filter := f; evidence_collector := e;
  channel_names := channel_names c; command_defaults := command_defaults c;
  command_count := command_count c; command_limit_spans := command_limit_spans c;
  last_evidence_context := ctx; config_json := config_json c |}.

Definition loaded_id (c : LoadedController) : string := controller_id (artifact c).

(** ** tick_controller *)

Record ControllerTickResult : Type := {
  command : option CommandFrame;
  result_estop_reason : option string;
  halted : bool;
}.

Definition no_result : ControllerTickResult :=
  {| command := None; result_estop_reason := None; halted := false |}.

(** What the environment gives one controller in one tick. *)
Record GuestTick : Type := {
  call : guest_call;
  snapshot_context : EvidenceFinalizeContext;
  took : Duration;
}.

(** [all_default]: every raw value is the default of its channel. *)
Definition is_default (defaults : list f64) (i : nat) (v : f64) : bool :=
  match defaults !! i with
  | Some d => f64_lt (f64_abs (f64_sub v d)) EPSILON
  | None => false
  end.
Definition all_default (defaults raw : list f64) : bool :=
  forallb id (imap (is_default defaults) raw).

Definition tick_controller (c : LoadedController) (positions velocities : list f64)
    (wrench : option wrench6) (g : GuestTick) : exec (LoadedController * ControllerTickResult) :=
  let ctx := snapshot_context g in
  match tick_with_contract (host c) (call g) with
  | (Ok output, h) =>
      let raw_values := host_command_values h in
      let state_values := positions ++ velocities in
      let! (f, filter_result) := filter (hot_path_filter c) raw_values
        (if (length state_values =? 0)%nat then None else Some state_values) wrench in
      let! e := record_tick (evidence_collector c) (took g) output (interventions filter_result) in
      let c := after_tick h f e ctx c in
      if (length raw_values =? 0)%nat then Ret (c, no_result)
      else if all_default (command_defaults c) raw_values then Ret (c, no_result)
      else if estop filter_result then
        Ret (c, {| command := None; result_estop_reason := Some "safety_filter_estop"; halted := true |})
      else
        Ret (c, {| command := Some {| values := commands filter_result |};
                   result_estop_reason := None; halted := false |})
  | (Err msg, h) =>
      let! e := record_trap (evidence_collector c) in
      Ret (after_tick h (hot_path_filter c) e ctx c,
           {| command := None; result_estop_reason := Some ("controller_error: " +:+ msg);
              halted := true |})
  end.

(** ** Evidence of a finished stretch *)

Definition finalize_args (a : ControllerArtifact) (mode : ExecutionMode) (uuid : string)
    (now : DateTime) : FinalizeArgs :=
  let vk := verification_key a in {|
  fa_controller_digest := vk_controller_digest vk; fa_model_digest := vk_model_digest vk;
  fa_calibration_digest := vk_calibration_digest vk; fa_manifest_digest := vk_manifest_digest vk;
  fa_wit_world_version := vk_wit_world_version vk; fa_execution_mode := mode;
  fa_compiler_version := vk_compiler_version vk; fa_uuid := uuid; fa_now := now |}.

Definition finalize_evidence_bundle (c : LoadedController) (mode : ExecutionMode) (uuid : string)
    (now : DateTime) : exec ControllerEvidenceBundle :=
  finalize_with_context (evidence_collector c) (finalize_args (artifact c) mode uuid now)
    (last_evidence_context c).

Definition fresh_collector (c : LoadedController) : LoadedController :=
  after_tick (host c) (hot_path_filter c) (new_collector (loaded_id c) (channel_names c))
    (last_evidence_context c) c.

(** The bundle of the stretch that ends here, and the controller with a new collector. *)
Definition rotate_evidence (c : LoadedController) (mode : ExecutionMode) (uuid : string)
    (now : DateTime) : exec (ControllerEvidenceBundle * LoadedController) :=
  let! ev := finalize_evidence_bundle c mode uuid now in
  Ret (ev, fresh_collector c).

(** The verdict of a stage on its own evidence. *)
Definition with_verdict (status : VerifierStatus) (reason : option string)
    (e : ControllerEvidenceBundle) : ControllerEvidenceBundle := {|
  bundle_id := bundle_id e; ev_controller_id := ev_controller_id e; ticks_run := ticks_run e;
  rejection_count := rejection_count e; limit_clamp_count := limit_clamp_count e;
  rate_clamp_count := rate_clamp_count e; position_limit_stop_count := position_limit_stop_count e;
  epoch_interrupt_count := epoch_interrupt_count e; trap_count := trap_count e;
  watchdog_near_miss_count := watchdog_near_miss_count e; channels_touched := channels_touched e;
  channels_untouched := channels_untouched e;
  unexpected_channels_touched := unexpected_channels_touched e; config_reads := config_reads e;
  tick_latency_p50 := tick_latency_p50 e; tick_latency_p95 := tick_latency_p95 e;
  tick_latency_p99 := tick_latency_p99 e;
  controller_stability_summary := controller_stability_summary e;
  verifier_status := status; verifier_reason := reason;
  ev_controller_digest := ev_controller_digest e; ev_model_digest := ev_model_digest e;
  ev_calibration_digest := ev_calibration_digest e; frame_snapshot_id := frame_snapshot_id e;
  ev_manifest_digest := ev_manifest_digest e; ev_wit_world_version := ev_wit_world_version e;
  ev_execution_mode := ev_execution_mode e; ev_compiler_version := ev_compiler_version e;
  ev_created_at := ev_created_at e; state_freshness := state_freshness e |}.

Definition judge_stage_evidence (e : ControllerEvidenceBundle) : ControllerEvidenceBundle :=
  if has_safety_issues e then
    with_verdict Deployment.Failed (Some "stage evidence contains safety issues") e
  else if has_untouched_channels e then
    with_verdict Deployment.Failed
      (Some ("stage evidence left channels untouched: " +:+ join ", " (channels_untouched e))) e
  else with_verdict Deployment.Complete None e.

Definition runtime_digests_for_artifact (a : ControllerArtifact) : RuntimeDigests :=
  digests_of_key (verification_key a).

(** ** Lemmas *)

Lemma overwrite_length src dst : length (overwrite src dst) = length dst.
Proof. revert dst. induction src as [|v src IH]; intros [|d dst]; simpl; [done..|]. by rewrite IH. Qed.

Lemma overwrite_lookup src dst i :
  overwrite src dst !! i =
  if decide (i < length dst)%nat then
    match src !! i with Some v => Some v | None => dst !! i end
  else None.
Proof.
  revert dst i. induction src as [|v src IH]; intros [|d dst] [|i]; simpl; try done.
  - case_decide; [done|]. apply lookup_ge_None_2. simpl. lia.
  - rewrite IH. do 2 case_decide; (done || lia).
Qed.

Lemma overwrite_all src dst : length src = length dst -> overwrite src dst = src.
Proof. revert dst. induction src as [|v src IH]; intros [|d dst] H; simplify_eq/=; [done|]. by rewrite IH. Qed.

(** The host of a loaded controller has one default per slot. *)
Definition host_wf (h : HostContext) : Prop := length (host_defaults h) = length (host_command_values h).

Lemma host_context_wf n : host_wf (host_context n).
Proof. done. Qed.

(** What the slots hold after a call: the guest's values over the defaults. *)
Lemma tick_with_contract_spec h g r h' :
  host_wf h -> tick_with_contract h g = (r, h') ->
  host_wf h' /\ host_defaults h' = host_defaults h /\
  host_command_values h' =
    match g with GuestOutput out => overwrite (command_values out) (host_defaults h) | GuestTrap _ => host_defaults h end /\
  (is_ok r = true <-> estop_requested h = false /\ exists out, g = GuestOutput out /\ out_estop out = false) /\
  (forall out, r = Ok out -> g = GuestOutput out).
Proof.
  unfold host_wf, tick_with_contract, record_tick_output, reset_commands. intros Hw.
  destruct g as [out|msg]; cbn.
  - rewrite (overwrite_all (host_defaults h)) by done.
    destruct (estop_requested h) eqn:He, (out_estop out) eqn:Ho; simpl; intros [= <- <-]; simpl;
      rewrite ?overwrite_length; split_and!; try done; naive_solver.
  - intros [= <- <-]. simpl. rewrite overwrite_all by done. split_and!; try done; naive_solver.
Qed.

(** The command a guest gave for slot [i]: its value, or the default where it gave none. *)
Definition raw_command (c : LoadedController) (out : TickOutput) (i : nat) : option f64 :=
  if decide (i < length (host_defaults (host c)))%nat then
    match command_values out !! i with
    | Some v => Some v
    | None => host_defaults (host c) !! i
    end
  else None.

Lemma raw_command_lookup c out i :
  overwrite (command_values out) (host_defaults (host c)) !! i = raw_command c out i.
Proof. apply overwrite_lookup. Qed.

Lemma all_default_lookup defaults raw i v :
  all_default defaults raw = true -> raw !! i = Some v ->
  exists d, defaults !! i = Some d /\ f64_lt (f64_abs (f64_sub v d)) EPSILON = true.
Proof.
  unfold all_default. intros H Hi.
  assert (is_default defaults i v = true) as Hd.
  { rewrite forallb_forall in H. apply (H _), list_elem_of_In, (list_elem_of_lookup_2 _ i).
    by rewrite list_lookup_imap, Hi. }
  unfold is_default in Hd. destruct (defaults !! i) as [d|]; [by exists d|done].
Qed.

Lemma filter_filtered f cmds st w f' r :
  Forall limits_ok (hp_joint_limits f) ->
  filter f cmds (if (length st =? 0)%nat then None else Some st) w = Ret (f', r) ->
  hp_joint_limits f' = hp_joint_limits f /\ length (commands r) = length cmds /\
  previous_commands f' = commands r /\
  (estop r = true <-> over_contact_limit (hp_force_limits f) w) /\
  (estop r = false -> forall i v, commands r !! i = Some v ->
     exists raw, cmds !! i = Some raw /\ joint_output f (st !! i) i raw v).
Proof.
  intros Hl H. set (ps := if (length st =? 0)%nat then None else Some st) in H. pose proof (filter_spec f cmds ps w Hl)
    as (f1 & r1 & pj & Hf & _ & Hlen & Hpj & Hprev & _ & Hstop & Hcmds).
  assert (hp_joint_limits f' = hp_joint_limits f) as Hlim.
  { clear -H. unfold filter in H. by apply exec_bind_ret in H as (x & _ & [= <- <-]). }
  rewrite H in Hf. injection Hf as <- <-. split_and!; [done| |done|done|].
  { rewrite Hcmds. destruct (estop r); by rewrite ?length_replicate, ?length_map. }
  intros Hs i v Hv. rewrite Hcmds, Hs in Hv.
  rewrite map_lookup in Hv. destruct (pj !! i) as [o|] eqn:Ho; [|done]. injection Hv as <-.
  destruct (lookup_lt_is_Some_2 cmds i) as [cmd Hi]; [rewrite <- Hlen; by eapply lookup_lt_Some|].
  specialize (Hpj i cmd o Hi Ho). exists cmd. split; [done|].
  destruct (filter_joint_spec f ps i cmd Hl) as (c & ivs & Hj & _ & Hspec & _).
  rewrite Hj in Hpj. injection Hpj as <-. simpl.
  subst ps. destruct st; exact Hspec.
Qed.

(** ** The contract of one tick *)

(** C3: whatever a guest does in a tick, what leaves the controller is the guest's output
    after the filter.  If a tick returns a command then the guest returned an output and
    asked for no e-stop, now or before, and neither contact limit is exceeded; the frame has
    one value per command slot, each the guest's value of that slot (its default where the
    guest gave none) clamped to the velocity limit, to the acceleration limit from the
    previous output and to the position limits of the sensed state (which the filter reads
    from positions followed by velocities), and the filter remembers the frame; a trap or
    an e-stop request halts the controller with a reason; a halted tick has no command, and
    a tick that neither halts nor commands is one whose slots all hold their defaults; the
    artifact, its limits and the width of the slots never change. *)
Theorem controller_tick_contained (c c' : LoadedController) (ps vs : list f64)
    (w : option wrench6) (g : GuestTick) (res : ControllerTickResult)
    (Hh : host_wf (host c)) (Hl : Forall limits_ok (hp_joint_limits (hot_path_filter c)))
    (H : tick_controller c ps vs w g = Ret (c', res)) :
  (forall f, command res = Some f -> exists out,
     call g = GuestOutput out /\ out_estop out = false /\ estop_requested (host c) = false /\
     ~ over_contact_limit (hp_force_limits (hot_path_filter c)) w /\
     length (values f) = length (host_command_values (host c)) /\
     (forall i v, values f !! i = Some v -> exists raw, raw_command c out i = Some raw /\
        joint_output (hot_path_filter c) ((ps ++ vs) !! i) i raw v) /\
     previous_commands (hot_path_filter c') = values f) /\
  (halted res = true <-> result_estop_reason res <> None) /\
  (halted res = true -> command res = None) /\
  ((forall out, call g = GuestOutput out -> out_estop out = true) -> halted res = true) /\
  (estop_requested (host c) = true -> halted res = true) /\
  (halted res = false -> command res = None -> exists out, call g = GuestOutput out /\
     forall i raw, raw_command c out i = Some raw -> exists d, command_defaults c !! i = Some d /\
       f64_lt (f64_abs (f64_sub raw d)) EPSILON = true) /\
  artifact c' = artifact c /\ running c' = running c /\ host_wf (host c') /\
  length (host_command_values (host c')) = length (host_command_values (host c)) /\
  hp_joint_limits (hot_path_filter c') = hp_joint_limits (hot_path_filter c).
Proof.
  unfold tick_controller in H. destruct (tick_with_contract (host c) (call g)) as [r h] eqn:Ht.
  destruct (tick_with_contract_spec _ _ _ _ Hh Ht) as (Hw & Hd & Hcv & Hok & Hout).
  assert (length (host_command_values h) = length (host_command_values (host c))) as Hlen.
  { unfold host_wf in *. congruence. }
  destruct r as [out|msg].
  - destruct (proj1 Hok eq_refl) as (He & out' & Hg & Ho). rewrite Hg in Hcv.
    apply exec_bind_ret in H as ([f fr] & Hf & H). apply exec_bind_ret in H as (e & _ & H).
    destruct (filter_filtered _ _ _ _ _ _ Hl Hf) as (Hlim & Hlen' & Hprev & Hstop & Hval).
    assert (~ forall o, call g = GuestOutput o -> out_estop o = true) as Hstopped.
    { intros Ha. specialize (Ha _ Hg). congruence. }
    assert (Hraw : forall i, host_command_values h !! i = raw_command c out' i).
    { intros i. by rewrite Hcv, raw_command_lookup. }
    clear Hf Hok.
    destruct (length (host_command_values h) =? 0)%nat eqn:Hz; [|destruct (all_default _ _) eqn:Hdef;
      [|destruct (estop fr) eqn:Hes]]; injection H as <- <-; simpl;
      (split_and!; [| |done|by intros|congruence| |done|done|done|congruence|done]); try done.
    + intros _ _. exists out'. split; [done|]. intros i raw Hi. rewrite <- Hraw in Hi.
      apply Nat.eqb_eq, nil_length_inv in Hz. by rewrite Hz, lookup_nil in Hi.
    + intros _ _. exists out'. split; [done|]. intros i raw Hi. rewrite <- Hraw in Hi.
      by eapply all_default_lookup.
    + intros fm [= <-]. simpl. exists out'. split_and!; try done; [|congruence|].
      * intros Hov. apply Hstop in Hov. done.
      * intros i v Hv. destruct (Hval eq_refl i v Hv) as (raw & Hr & Hj). exists raw. by rewrite <- Hraw.
  - apply exec_bind_ret in H as (e & _ & [= <- <-]). simpl. by split_and!.
Qed.

(** ** A concrete controller *)

Definition demo_loaded (id : string) : LoadedController := {|
  host := host_context 1; running := true; period := from_millis 10;
  artifact := {|
    controller_id := id; sha256 := "cd"; source_kind := LlmGenerated;
    controller_class := LowRiskCommandGenerator; generator_model := None;
    generator_provider := None; channel_manifest_version := 1; host_abi_version := 2;
    evidence_bundle_id := None; created_at := 0; promoted_at := None;
    replaced_controller_id := None; verification_key := sample_key;
    wit_world := "live-controller"; verifier_result := Some (VPass "ok") |};
  hot_path_filter := {|
    hp_joint_limits := [demo_limits];
    hp_force_limits := Some {| max_contact_force_n := f64_of_Z 10;
      max_contact_torque_nm := f64_of_Z 1; force_rate_limit := f64_of_Z 5 |};
    workspace_bounds := None; previous_commands := []; tick_period_s := f64_dec 1 2 |};
  evidence_collector := new_collector id ["j0"]; channel_names := ["j0"];
  command_defaults := [zero]; command_count := 1; command_limit_spans := [f64_of_Z 4];
  last_evidence_context := default_context; config_json := "" |}.

Definition demo_guest (vs : list f64) (stop : bool) : GuestTick := {|
  call := GuestOutput {| command_values := vs; out_estop := stop; out_estop_reason := None;
                         metrics := [] |};
  snapshot_context := default_context; took := 1000000 |}.
Definition demo_trap : GuestTick :=
  {| call := GuestTrap "unreachable"; snapshot_context := default_context; took := 1000000 |}.

Lemma controller_tick_contained_witness :
  exists c' f, tick_controller (demo_loaded "c") [zero] [zero] None (demo_guest [f64_of_Z 9] false)
      = Ret (c', {| command := Some f; result_estop_reason := None; halted := false |}) /\
    length (values f) = 1%nat.
Proof.
  destruct (tick_controller (demo_loaded "c") [zero] [zero] None (demo_guest [f64_of_Z 9] false))
    as [[c' res]|] eqn:H; [|vm_compute in H; discriminate].
  destruct (controller_tick_contained (demo_loaded "c") c' [zero] [zero] None
    (demo_guest [f64_of_Z 9] false) res eq_refl ltac:(repeat constructor) H) as [Hf _].
  vm_compute in H. injection H as <- <-. eexists _, _. split; [reflexivity|].
  destruct (Hf _ eq_refl) as (out & _ & _ & _ & _ & Hlen & _). exact Hlen.
Defined.

(** The force limit is not looked at when the raw commands are all zero: a controller that
    holds still while the contact force is over the limit is not stopped. *)
Example zero_command_hides_force_estop :
  exists c', tick_controller (demo_loaded "c") [zero] [zero]
      (Some {| fx := f64_of_Z 100; fy := zero; fz := zero; tx := zero; ty := zero; tz := zero |})
      (demo_guest [zero] false) = Ret (c', no_result) /\
    force_check (hp_force_limits (hot_path_filter (demo_loaded "c")))
      (Some {| fx := f64_of_Z 100; fy := zero; fz := zero; tx := zero; ty := zero; tz := zero |}) <> [].
Proof. eexists. split; [vm_compute; reflexivity|]. vm_compute. discriminate. Qed.

(** An e-stop request outlives the tick: the next tick fails although the guest asks for
    nothing. *)
Definition tick_twice (g1 g2 : GuestTick) : option (bool * bool) :=
  match tick_controller (demo_loaded "c") [] [] None g1 with
  | Ret (c1, r1) =>
      match tick_controller (set_running true c1) [] [] None g2 with
      | Ret (_, r2) => Some (halted r1, halted r2)
      | Panic => None
      end
  | Panic => None
  end.
Example estop_request_is_sticky :
  tick_twice (demo_guest [one] true) (demo_guest [one] false) = Some (true, true)
  /\ tick_twice (demo_guest [one] false) (demo_guest [one] false) = Some (false, false).
Proof. vm_compute. done. Qed.

(** The filter reads the velocities as positions of the channels beyond the reported
    positions: a second channel at velocity 5 is taken to be past its limit of 1. *)
Example velocities_read_as_positions :
  let f := {| hp_joint_limits := [demo_limits; demo_limits]; hp_force_limits := None;
              workspace_bounds := None; previous_commands := []; tick_period_s := f64_dec 1 2 |} in
  exists f' r, filter f [zero; one] (Some ([zero] ++ [f64_of_Z 5])) None = Ret (f', r) /\
    commands r = [zero; zero].
Proof. eexists _, _. split; vm_compute; reflexivity. Qed.
