(* ===== verification/LoopState.v ===== *)
(** * The state of the controller loop

    [crates/roz-copper/src/controller.rs]: the variables of
    [run_controller_loop_with_policy] as a record with one setter each, and the functions
    of the file that read or move a single part of them: the controller slots, the
    evidence records, the comparison and the bounding of candidate commands, the checks of
    a load request.

    [sent] and [notices] are the effects of the loop: the frames given to the actuator sink
    and the reasons offered to the e-stop channel, oldest first.  [stamps] counts the
    evidence bundles finalized, each of which takes a fresh identifier and the wall clock
    from the environment ([uuid_at], [utc_at]).  [journal] records the calls made to the
    lifecycle manager; the loop never reads it. *)

From S2P Require Import Prelude Float64 Deployment Lifecycle Command Embodiment SafetyFilter Evidence TickController.

(** What the loop remembers of the last sensor frame. *)
Record SensorReading : Type := {
  sensor_positions : list f64;
  sensor_velocities : list f64;
  sensor_wrench : option wrench6;
}.

(** The locals of the loop; a setter replaces one of them.  Three of them only record what
    the loop does to its surroundings and are never read: [sent] (frames given to the
    actuator), [notices] (reasons given to the agent) and [journal] (the calls made to the
    lifecycle manager, in order). *)
Record LoopState : Type := {
  active_slot : option LoadedController;
  candidate_slot : option LoadedController;
  rollback_slot : option LoadedController;
  manager : ControllerLifecycle;
  candidate_state : option DeploymentState;
  promotion_requested : bool;
  shadow_ticks : Z;
  canary_ticks : Z;
  bounded_canary_ticks : Z;
  last_known_good_controller_id : option string;
  candidate_last_rejection_reason : option message;
  last_live_evidence_bundle : option ControllerEvidenceBundle;
  last_candidate_evidence_bundle : option ControllerEvidenceBundle;
  tick_number : Z;
  last_agent_contact : Instant;
  last_velocity_count : nat;
  estop_reason : option message;
  sensed : SensorReading;
  stamps : nat;
  sent : list CommandFrame;
  notices : list message;
  journal : list op;
}.

Definition set_active_slot (v : option LoadedController) (s : LoopState) : LoopState := {|
  active_slot := v; candidate_slot := candidate_slot s; rollback_slot := rollback_slot s;
  manager := manager s; candidate_state := candidate_state s;
  promotion_requested := promotion_requested s; shadow_ticks := shadow_ticks s;
  canary_ticks := canary_ticks s; bounded_canary_ticks := bounded_canary_ticks s;
  last_known_good_controller_id := last_known_good_controller_id s;
  candidate_last_rejection_reason := candidate_last_rejection_reason s;
  last_live_evidence_bundle := last_live_evidence_bundle s;
  last_candidate_evidence_bundle := last_candidate_evidence_bundle s;
  tick_number := tick_number s; last_agent_contact := last_agent_contact s;
  last_velocity_count := last_velocity_count s; estop_reason := estop_reason s;
  sensed := sensed s; stamps := stamps s; sent := sent s; notices := notices s;
  journal := journal s |}.
Definition set_candidate_slot (v : option LoadedController) (s : LoopState) : LoopState := {|
  active_slot := active_slot s; candidate_slot := v; rollback_slot := rollback_slot s;
  manager := manager s; candidate_state := candidate_state s;
  promotion_requested := promotion_requested s; shadow_ticks := shadow_ticks s;
  canary_ticks := canary_ticks s; bounded_canary_ticks := bounded_canary_ticks s;
  last_known_good_controller_id := last_known_good_controller_id s;
  candidate_last_rejection_reason := candidate_last_rejection_reason s;
  last_live_evidence_bundle := last_live_evidence_bundle s;
  last_candidate_evidence_bundle := last_candidate_evidence_bundle s;
  tick_number := tick_number s; last_agent_contact := last_agent_contact s;
  last_velocity_count := last_velocity_count s; estop_reason := estop_reason s;
  sensed := sensed s; stamps := stamps s; sent := sent s; notices := notices s;
  journal := journal s |}.
Definition set_rollback_slot (v : option LoadedController) (s : LoopState) : LoopState := {|
  active_slot := active_slot s; candidate_slot := candidate_slot s; rollback_slot := v;
  manager := manager s; candidate_state := candidate_state s;
  promotion_requested := promotion_requested s; shadow_ticks := shadow_ticks s;
  canary_ticks := canary_ticks s; bounded_canary_ticks := bounded_canary_ticks s;
  last_known_good_controller_id := last_known_good_controller_id s;
  candidate_last_rejection_reason := candidate_last_rejection_reason s;
  last_live_evidence_bundle := last_live_evidence_bundle s;
  last_candidate_evidence_bundle := last_candidate_evidence_bundle s;
  tick_number := tick_number s; last_agent_contact := last_agent_contact s;
  last_velocity_count := last_velocity_count s; estop_reason := estop_reason s;
  sensed := sensed s; stamps := stamps s; sent := sent s; notices := notices s;
  journal := journal s |}.
Definition set_manager (v : ControllerLifecycle) (s : LoopState) : LoopState := {|
  active_slot := active_slot s; candidate_slot := candidate_slot s;
  rollback_slot := rollback_slot s; manager := v; candidate_state := candidate_state s;
  promotion_requested := promotion_requested s; shadow_ticks := shadow_ticks s;
  canary_ticks := canary_ticks s; bounded_canary_ticks := bounded_canary_ticks s;
  last_known_good_controller_id := last_known_good_controller_id s;
  candidate_last_rejection_reason := candidate_last_rejection_reason s;
  last_live_evidence_bundle := last_live_evidence_bundle s;
  last_candidate_evidence_bundle := last_candidate_evidence_bundle s;
  tick_number := tick_number s; last_agent_contact := last_agent_contact s;
  last_velocity_count := last_velocity_count s; estop_reason := estop_reason s;
  sensed := sensed s; stamps := stamps s; sent := sent s; notices := notices s;
  journal := journal s |}.
Definition set_candidate_state (v : option DeploymentState) (s : LoopState) : LoopState := {|
  active_slot := active_slot s; candidate_slot := candidate_slot s;
  rollback_slot := rollback_slot s; manager := manager s; candidate_state := v;
  promotion_requested := promotion_requested s; shadow_ticks := shadow_ticks s;
  canary_ticks := canary_ticks s; bounded_canary_ticks := bounded_canary_ticks s;
  last_known_good_controller_id := last_known_good_controller_id s;
  candidate_last_rejection_reason := candidate_last_rejection_reason s;
  last_live_evidence_bundle := last_live_evidence_bundle s;
  last_candidate_evidence_bundle := last_candidate_evidence_bundle s;
  tick_number := tick_number s; last_agent_contact := last_agent_contact s;
  last_velocity_count := last_velocity_count s; estop_reason := estop_reason s;
  sensed := sensed s; stamps := stamps s; sent := sent s; notices := notices s;
  journal := journal s |}.
Definition set_promotion_requested (v : bool) (s : LoopState) : LoopState := {|
  active_slot := active_slot s; candidate_slot := candidate_slot s;
  rollback_slot := rollback_slot s; manager := manager s; candidate_state := candidate_state s;
  promotion_requested := v; shadow_ticks := shadow_ticks s; canary_ticks := canary_ticks s;
  bounded_canary_ticks := bounded_canary_ticks s;
  last_known_good_controller_id := last_known_good_controller_id s;
  candidate_last_rejection_reason := candidate_last_rejection_reason s;
  last_live_evidence_bundle := last_live_evidence_bundle s;
  last_candidate_evidence_bundle := last_candidate_evidence_bundle s;
  tick_number := tick_number s; last_agent_contact := last_agent_contact s;
  last_velocity_count := last_velocity_count s; estop_reason := estop_reason s;
  sensed := sensed s; stamps := stamps s; sent := sent s; notices := notices s;
  journal := journal s |}.
Definition set_shadow_ticks (v : Z) (s : LoopState) : LoopState := {|
  active_slot := active_slot s; candidate_slot := candidate_slot s;
  rollback_slot := rollback_slot s; manager := manager s; candidate_state := candidate_state s;
  promotion_requested := promotion_requested s; shadow_ticks := v;
  canary_ticks := canary_ticks s; bounded_canary_ticks := bounded_canary_ticks s;
  last_known_good_controller_id := last_known_good_controller_id s;
  candidate_last_rejection_reason := candidate_last_rejection_reason s;
  last_live_evidence_bundle := last_live_evidence_bundle s;
  last_candidate_evidence_bundle := last_candidate_evidence_bundle s;
  tick_number := tick_number s; last_agent_contact := last_agent_contact s;
  last_velocity_count := last_velocity_count s; estop_reason := estop_reason s;
  sensed := sensed s; stamps := stamps s; sent := sent s; notices := notices s;
  journal := journal s |}.
Definition set_canary_ticks (v : Z) (s : LoopState) : LoopState := {|
  active_slot := active_slot s; candidate_slot := candidate_slot s;
  rollback_slot := rollback_slot s; manager := manager s; candidate_state := candidate_state s;
  promotion_requested := promotion_requested s; shadow_ticks := shadow_ticks s;
  canary_ticks := v; bounded_canary_ticks := bounded_canary_ticks s;
  last_known_good_controller_id := last_known_good_controller_id s;
  candidate_last_rejection_reason := candidate_last_rejection_reason s;
  last_live_evidence_bundle := last_live_evidence_bundle s;
  last_candidate_evidence_bundle := last_candidate_evidence_bundle s;
  tick_number := tick_number s; last_agent_contact := last_agent_contact s;
  last_velocity_count := last_velocity_count s; estop_reason := estop_reason s;
  sensed := sensed s; stamps := stamps s; sent := sent s; notices := notices s;
  journal := journal s |}.
Definition set_bounded_canary_ticks (v : Z) (s : LoopState) : LoopState := {|
  active_slot := active_slot s; candidate_slot := candidate_slot s;
  rollback_slot := rollback_slot s; manager := manager s; candidate_state := candidate_state s;
  promotion_requested := promotion_requested s; shadow_ticks := shadow_ticks s;
  canary_ticks := canary_ticks s; bounded_canary_ticks := v;
  last_known_good_controller_id := last_known_good_controller_id s;
  candidate_last_rejection_reason := candidate_last_rejection_reason s;
  last_live_evidence_bundle := last_live_evidence_bundle s;
  last_candidate_evidence_bundle := last_candidate_evidence_bundle s;
  tick_number := tick_number s; last_agent_contact := last_agent_contact s;
  last_velocity_count := last_velocity_count s; estop_reason := estop_reason s;
  sensed := sensed s; stamps := stamps s; sent := sent s; notices := notices s;
  journal := journal s |}.
Definition set_last_known_good_controller_id (v : option string) (s : LoopState) : LoopState := {|
  active_slot := active_slot s; candidate_slot := candidate_slot s;
  rollback_slot := rollback_slot s; manager := manager s; candidate_state := candidate_state s;
  promotion_requested := promotion_requested s; shadow_ticks := shadow_ticks s;
  canary_ticks := canary_ticks s; bounded_canary_ticks := bounded_canary_ticks s;
  last_known_good_controller_id := v;
  candidate_last_rejection_reason := candidate_last_rejection_reason s;
  last_live_evidence_bundle := last_live_evidence_bundle s;
  last_candidate_evidence_bundle := last_candidate_evidence_bundle s;
  tick_number := tick_number s; last_agent_contact := last_agent_contact s;
  last_velocity_count := last_velocity_count s; estop_reason := estop_reason s;
  sensed := sensed s; stamps := stamps s; sent := sent s; notices := notices s;
  journal := journal s |}.
Definition set_candidate_last_rejection_reason (v : option message) (s : LoopState) : LoopState := {|
  active_slot := active_slot s; candidate_slot := candidate_slot s;
  rollback_slot := rollback_slot s; manager := manager s; candidate_state := candidate_state s;
  promotion_requested := promotion_requested s; shadow_ticks := shadow_ticks s;
  canary_ticks := canary_ticks s; bounded_canary_ticks := bounded_canary_ticks s;
  last_known_good_controller_id := last_known_good_controller_id s;
  candidate_last_rejection_reason := v; last_live_evidence_bundle := last_live_evidence_bundle s;
  last_candidate_evidence_bundle := last_candidate_evidence_bundle s;
  tick_number := tick_number s; last_agent_contact := last_agent_contact s;
  last_velocity_count := last_velocity_count s; estop_reason := estop_reason s;
  sensed := sensed s; stamps := stamps s; sent := sent s; notices := notices s;
  journal := journal s |}.
Definition set_last_live_evidence_bundle (v : option ControllerEvidenceBundle) (s : LoopState) : LoopState := {|
  active_slot := active_slot s; candidate_slot := candidate_slot s;
  rollback_slot := rollback_slot s; manager := manager s; candidate_state := candidate_state s;
  promotion_requested := promotion_requested s; shadow_ticks := shadow_ticks s;
  canary_ticks := canary_ticks s; bounded_canary_ticks := bounded_canary_ticks s;
  last_known_good_controller_id := last_known_good_controller_id s;
  candidate_last_rejection_reason := candidate_last_rejection_reason s;
  last_live_evidence_bundle := v;
  last_candidate_evidence_bundle := last_candidate_evidence_bundle s;
  tick_number := tick_number s; last_agent_contact := last_agent_contact s;
  last_velocity_count := last_velocity_count s; estop_reason := estop_reason s;
  sensed := sensed s; stamps := stamps s; sent := sent s; notices := notices s;
  journal := journal s |}.
Definition set_last_candidate_evidence_bundle (v : option ControllerEvidenceBundle) (s : LoopState) : LoopState := {|
  active_slot := active_slot s; candidate_slot := candidate_slot s;
  rollback_slot := rollback_slot s; manager := manager s; candidate_state := candidate_state s;
  promotion_requested := promotion_requested s; shadow_ticks := shadow_ticks s;
  canary_ticks := canary_ticks s; bounded_canary_ticks := bounded_canary_ticks s;
  last_known_good_controller_id := last_known_good_controller_id s;
  candidate_last_rejection_reason := candidate_last_rejection_reason s;
  last_live_evidence_bundle := last_live_evidence_bundle s; last_candidate_evidence_bundle := v;
  tick_number := tick_number s; last_agent_contact := last_agent_contact s;
  last_velocity_count := last_velocity_count s; estop_reason := estop_reason s;
  sensed := sensed s; stamps := stamps s; sent := sent s; notices := notices s;
  journal := journal s |}.
Definition set_tick_number (v : Z) (s : LoopState) : LoopState := {|
  active_slot := active_slot s; candidate_slot := candidate_slot s;
  rollback_slot := rollback_slot s; manager := manager s; candidate_state := candidate_state s;
  promotion_requested := promotion_requested s; shadow_ticks := shadow_ticks s;
  canary_ticks := canary_ticks s; bounded_canary_ticks := bounded_canary_ticks s;
  last_known_good_controller_id := last_known_good_controller_id s;
  candidate_last_rejection_reason := candidate_last_rejection_reason s;
  last_live_evidence_bundle := last_live_evidence_bundle s;
  last_candidate_evidence_bundle := last_candidate_evidence_bundle s; tick_number := v;
  last_agent_contact := last_agent_contact s; last_velocity_count := last_velocity_count s;
  estop_reason := estop_reason s; sensed := sensed s; stamps := stamps s; sent := sent s;
  notices := notices s; journal := journal s |}.
Definition set_last_agent_contact (v : Instant) (s : LoopState) : LoopState := {|
  active_slot := active_slot s; candidate_slot := candidate_slot s;
  rollback_slot := rollback_slot s; manager := manager s; candidate_state := candidate_state s;
  promotion_requested := promotion_requested s; shadow_ticks := shadow_ticks s;
  canary_ticks := canary_ticks s; bounded_canary_ticks := bounded_canary_ticks s;
  last_known_good_controller_id := last_known_good_controller_id s;
  candidate_last_rejection_reason := candidate_last_rejection_reason s;
  last_live_evidence_bundle := last_live_evidence_bundle s;
  last_candidate_evidence_bundle := last_candidate_evidence_bundle s;
  tick_number := tick_number s; last_agent_contact := v;
  last_velocity_count := last_velocity_count s; estop_reason := estop_reason s;
  sensed := sensed s; stamps := stamps s; sent := sent s; notices := notices s;
  journal := journal s |}.
Definition set_last_velocity_count (v : nat) (s : LoopState) : LoopState := {|
  active_slot := active_slot s; candidate_slot := candidate_slot s;
  rollback_slot := rollback_slot s; manager := manager s; candidate_state := candidate_state s;
  promotion_requested := promotion_requested s; shadow_ticks := shadow_ticks s;
  canary_ticks := canary_ticks s; bounded_canary_ticks := bounded_canary_ticks s;
  last_known_good_controller_id := last_known_good_controller_id s;
  candidate_last_rejection_reason := candidate_last_rejection_reason s;
  last_live_evidence_bundle := last_live_evidence_bundle s;
  last_candidate_evidence_bundle := last_candidate_evidence_bundle s;
  tick_number := tick_number s; last_agent_contact := last_agent_contact s;
  last_velocity_count := v; estop_reason := estop_reason s; sensed := sensed s;
  stamps := stamps s; sent := sent s; notices := notices s; journal := journal s |}.
Definition set_estop_reason (v : option message) (s : LoopState) : LoopState := {|
  active_slot := active_slot s; candidate_slot := candidate_slot s;
  rollback_slot := rollback_slot s; manager := manager s; candidate_state := candidate_state s;
  promotion_requested := promotion_requested s; shadow_ticks := shadow_ticks s;
  canary_ticks := canary_ticks s; bounded_canary_ticks := bounded_canary_ticks s;
  last_known_good_controller_id := last_known_good_controller_id s;
  candidate_last_rejection_reason := candidate_last_rejection_reason s;
  last_live_evidence_bundle := last_live_evidence_bundle s;
  last_candidate_evidence_bundle := last_candidate_evidence_bundle s;
  tick_number := tick_number s; last_agent_contact := last_agent_contact s;
  last_velocity_count := last_velocity_count s; estop_reason := v; sensed := sensed s;
  stamps := stamps s; sent := sent s; notices := notices s; journal := journal s |}.
Definition set_sensed (v : SensorReading) (s : LoopState) : LoopState := {|
  active_slot := active_slot s; candidate_slot := candidate_slot s;
  rollback_slot := rollback_slot s; manager := manager s; candidate_state := candidate_state s;
  promotion_requested := promotion_requested s; shadow_ticks := shadow_ticks s;
  canary_ticks := canary_ticks s; bounded_canary_ticks := bounded_canary_ticks s;
  last_known_good_controller_id := last_known_good_controller_id s;
  candidate_last_rejection_reason := candidate_last_rejection_reason s;
  last_live_evidence_bundle := last_live_evidence_bundle s;
  last_candidate_evidence_bundle := last_candidate_evidence_bundle s;
  tick_number := tick_number s; last_agent_contact := last_agent_contact s;
  last_velocity_count := last_velocity_count s; estop_reason := estop_reason s; sensed := v;
  stamps := stamps s; sent := sent s; notices := notices s; journal := journal s |}.
Definition set_stamps (v : nat) (s : LoopState) : LoopState := {|
  active_slot := active_slot s; candidate_slot := candidate_slot s;
  rollback_slot := rollback_slot s; manager := manager s; candidate_state := candidate_state s;
  promotion_requested := promotion_requested s; shadow_ticks := shadow_ticks s;
  canary_ticks := canary_ticks s; bounded_canary_ticks := bounded_canary_ticks s;
  last_known_good_controller_id := last_known_good_controller_id s;
  candidate_last_rejection_reason := candidate_last_rejection_reason s;
  last_live_evidence_bundle := last_live_evidence_bundle s;
  last_candidate_evidence_bundle := last_candidate_evidence_bundle s;
  tick_number := tick_number s; last_agent_contact := last_agent_contact s;
  last_velocity_count := last_velocity_count s; estop_reason := estop_reason s;
  sensed := sensed s; stamps := v; sent := sent s; notices := notices s; journal := journal s |}.
Definition set_sent (v : list CommandFrame) (s : LoopState) : LoopState := {|
  active_slot := active_slot s; candidate_slot := candidate_slot s;
  rollback_slot := rollback_slot s; manager := manager s; candidate_state := candidate_state s;
  promotion_requested := promotion_requested s; shadow_ticks := shadow_ticks s;
  canary_ticks := canary_ticks s; bounded_canary_ticks := bounded_canary_ticks s;
  last_known_good_controller_id := last_known_good_controller_id s;
  candidate_last_rejection_reason := candidate_last_rejection_reason s;
  last_live_evidence_bundle := last_live_evidence_bundle s;
  last_candidate_evidence_bundle := last_candidate_evidence_bundle s;
  tick_number := tick_number s; last_agent_contact := last_agent_contact s;
  last_velocity_count := last_velocity_count s; estop_reason := estop_reason s;
  sensed := sensed s; stamps := stamps s; sent := v; notices := notices s; journal := journal s |}.
Definition set_notices (v : list message) (s : LoopState) : LoopState := {|
  active_slot := active_slot s; candidate_slot := candidate_slot s;
  rollback_slot := rollback_slot s; manager := manager s; candidate_state := candidate_state s;
  promotion_requested := promotion_requested s; shadow_ticks := shadow_ticks s;
  canary_ticks := canary_ticks s; bounded_canary_ticks := bounded_canary_ticks s;
  last_known_good_controller_id := last_known_good_controller_id s;
  candidate_last_rejection_reason := candidate_last_rejection_reason s;
  last_live_evidence_bundle := last_live_evidence_bundle s;
  last_candidate_evidence_bundle := last_candidate_evidence_bundle s;
  tick_number := tick_number s; last_agent_contact := last_agent_contact s;
  last_velocity_count := last_velocity_count s; estop_reason := estop_reason s;
  sensed := sensed s; stamps := stamps s; sent := sent s; notices := v; journal := journal s |}.
Definition set_journal (v : list op) (s : LoopState) : LoopState := {|
  active_slot := active_slot s; candidate_slot := candidate_slot s;
  rollback_slot := rollback_slot s; manager := manager s; candidate_state := candidate_state s;
  promotion_requested := promotion_requested s; shadow_ticks := shadow_ticks s;
  canary_ticks := canary_ticks s; bounded_canary_ticks := bounded_canary_ticks s;
  last_known_good_controller_id := last_known_good_controller_id s;
  candidate_last_rejection_reason := candidate_last_rejection_reason s;
  last_live_evidence_bundle := last_live_evidence_bundle s;
  last_candidate_evidence_bundle := last_candidate_evidence_bundle s;
  tick_number := tick_number s; last_agent_contact := last_agent_contact s;
  last_velocity_count := last_velocity_count s; estop_reason := estop_reason s;
  sensed := sensed s; stamps := stamps s; sent := sent s; notices := notices s; journal := v |}.

(** The locals of the loop before its first turn, at the clock reading [now]. *)
Definition initial_state (now : Instant) : LoopState := {|
  active_slot := None; candidate_slot := None; rollback_slot := None; manager := new_lifecycle;
  candidate_state := None; promotion_requested := false; shadow_ticks := 0; canary_ticks := 0;
  bounded_canary_ticks := 0; last_known_good_controller_id := None;
  candidate_last_rejection_reason := None; last_live_evidence_bundle := None;
  last_candidate_evidence_bundle := None; tick_number := 0; last_agent_contact := now;
  last_velocity_count := 0; estop_reason := None;
  sensed := {| sensor_positions := []; sensor_velocities := []; sensor_wrench := None |};
  stamps := 0; sent := []; notices := []; journal := [] |}.

(** The manager [m] that the call [o] left, with the call in the journal. *)
Definition called (o : op) (m : ControllerLifecycle) (s : LoopState) : LoopState :=
  set_journal (journal s ++ [o]) (set_manager m s).

(** ** The controller slots *)

Inductive Slot : Type := ActiveSlot | CandidateSlot | RollbackSlot.

Definition get_slot (k : Slot) (s : LoopState) : option LoadedController :=
  match k with
  | ActiveSlot => active_slot s | CandidateSlot => candidate_slot s | RollbackSlot => rollback_slot s
  end.

Definition put_slot (k : Slot) (v : option LoadedController) (s : LoopState) : LoopState :=
  match k with
  | ActiveSlot => set_active_slot v s
  | CandidateSlot => set_candidate_slot v s
  | RollbackSlot => set_rollback_slot v s
  end.

(** [if let Some(controller) = slot.as_mut() { .. }]. *)
Definition update_slot (k : Slot) (f : LoadedController -> LoadedController) (s : LoopState) : LoopState :=
  put_slot k (f <$> get_slot k s) s.

Definition slot_running (slot : option LoadedController) : bool :=
  match slot with Some c => running c | None => false end.

Definition any_controller_running (s : LoopState) : bool :=
  slot_running (active_slot s) || slot_running (candidate_slot s).

(** The effects. *)
Definition emit (frame : CommandFrame) (s : LoopState) : LoopState := set_sent (sent s ++ [frame]) s.
Definition notify (reason : message) (s : LoopState) : LoopState := set_notices (notices s ++ [reason]) s.

(** [sink.send(..)] when there is an actuator. *)
Definition actuate (actuator : bool) (frame : CommandFrame) (s : LoopState) : LoopState :=
  if actuator then emit frame s else s.

(** [CommandFrame::zero(last_velocity_count.max(6))]. *)
Definition stop_frame (s : LoopState) : CommandFrame := frame_zero (Nat.max (last_velocity_count s) 6).

(** ** Small functions of the candidate's stage *)

Definition candidate_stage_progress (state : option DeploymentState) (shadow canary : Z)
    (dm : DeploymentManager) : Z * Z :=
  match state with
  | Some Shadow => (shadow, shadow_ticks_required dm)
  | Some Canary => (canary, canary_ticks_required dm)
  | _ => (0, 0)
  end.

Definition execution_mode_for_candidate_state (state : option DeploymentState) : ExecutionMode :=
  match state with
  | Some Shadow => ShadowMode
  | Some Canary => CanaryMode
  | _ => Verify
  end.

Definition retirement_reason_label (state : DeploymentState) : string :=
  match state with
  | Rejected => "rejected"
  | RolledBack => "rolled_back"
  | VerifiedOnly | Shadow | Canary | Active => "retired"
  end.

Definition deployment_state_for_publish (s : LoopState) : option DeploymentState :=
  match candidate_state s with
  | Some st => Some st
  | None => match active_slot s with Some _ => Some Active | None => None end
  end.

Definition DEFAULT_TICK_PERIOD : Duration := from_millis 10.

(** [control_rate_hz] is a [u32]. *)
Definition tick_period_from_hz (control_rate_hz : Z) : Duration :=
  from_millis (1000 / Z.max control_rate_hz 1).

Definition current_tick_period (s : LoopState) : Duration :=
  match active_slot s with
  | Some c => period c
  | None => match candidate_slot s with Some c => period c | None => DEFAULT_TICK_PERIOD end
  end.

(** ** Comparing and bounding the candidate's command *)

Record StageCommandComparison : Type := {
  max_abs_delta : f64;
  max_normalized_delta : f64;
}.

Fixpoint compare_values (acc : StageCommandComparison) (active candidate spans : list f64)
    : StageCommandComparison :=
  match active, candidate, spans with
  | a :: active, c :: candidate, span :: spans =>
      let abs_delta := f64_abs (f64_sub a c) in
      compare_values
        {| max_abs_delta := f64_max (max_abs_delta acc) abs_delta;
           max_normalized_delta := f64_max (max_normalized_delta acc) (f64_div abs_delta span) |}
        active candidate spans
  | _, _, _ => acc
  end.

Definition width (n : nat) : string := pretty (N.of_nat n).

Definition compare_stage_commands (active candidate : option CommandFrame) (spans : list f64)
    : result (option StageCommandComparison) message :=
  match active, candidate with
  | None, None => Ok None
  | Some _, None => Err [Str "candidate produced no command while active controller produced output"]
  | None, Some _ => Err [Str "candidate produced command while active controller produced no output"]
  | Some a, Some c =>
      if negb (length (values a) =? length (values c))%nat then
        Err [Str ("candidate command width mismatch: active=" +:+ width (length (values a))
                  +:+ " candidate=" +:+ width (length (values c)))]
      else if (length spans <? length (values a))%nat then
        Err [Str ("candidate manifest width mismatch: compared=" +:+ width (length (values a))
                  +:+ " spans=" +:+ width (length spans))]
      else if (length (values a) =? 0)%nat then Ok None
      else Ok (Some (compare_values {| max_abs_delta := zero; max_normalized_delta := zero |}
                       (values a) (values c) spans))
  end.

(** One value of the bounded frame; [clamp] panics when the envelope is NaN. *)
Definition bound_value (max_delta active candidate span : f64) : exec f64 :=
  let allowed_delta := f64_abs (f64_mul span max_delta) in
  let! bounded_delta := clamp (f64_sub candidate active) (f64_neg allowed_delta) allowed_delta in
  Ret (f64_add active bounded_delta).

Fixpoint bound_values (max_delta : f64) (active candidate spans : list f64) : exec (list f64) :=
  match active, candidate, spans with
  | a :: active, c :: candidate, span :: spans =>
      let! v := bound_value max_delta a c span in
      let! vs := bound_values max_delta active candidate spans in
      Ret (v :: vs)
  | _, _, _ => Ret []
  end.

Definition bound_canary_command (active : option CommandFrame) (candidate : CommandFrame)
    (spans : list f64) (max_delta : f64) : exec (result CommandFrame string) :=
  match active with
  | None => Ret (Ok candidate)
  | Some a =>
      if negb (length (values a) =? length (values candidate))%nat then
        Ret (Err ("candidate command width mismatch during canary actuation: active="
                  +:+ width (length (values a)) +:+ " candidate=" +:+ width (length (values candidate))))
      else if (length spans <? length (values a))%nat then
        Ret (Err ("candidate manifest width mismatch during canary actuation: compared="
                  +:+ width (length (values a)) +:+ " spans=" +:+ width (length spans)))
      else
        let! vs := bound_values (f64_max max_delta zero) (values a) (values candidate) spans in
        Ret (Ok {| values := vs |})
  end.

(** [a == b] of frames: pointwise IEEE equality. *)
Fixpoint values_eq (a b : list f64) : bool :=
  match a, b with
  | [], [] => true
  | x :: a, y :: b => f64_eq x y && values_eq a b
  | _, _ => false
  end.

(** ** Evidence records *)

Section Records.
Context (uuid_at : nat -> string) (utc_at : nat -> DateTime).

Definition record_finalized_evidence (b : ControllerEvidenceBundle) (s : LoopState) : LoopState :=
  match ev_execution_mode b with
  | Live => set_last_live_evidence_bundle (Some b) s
  | Verify | ShadowMode | CanaryMode | Replay => set_last_candidate_evidence_bundle (Some b) s
  end.

(** [slot.take()], its evidence finalized and recorded. *)
Definition finalize_controller_slot (k : Slot) (mode : ExecutionMode) (s : LoopState) : exec LoopState :=
  match get_slot k s with
  | None => Ret s
  | Some c =>
      let! b := finalize_evidence_bundle c mode (uuid_at (stamps s)) (utc_at (stamps s)) in
      Ret (record_finalized_evidence b (set_stamps (S (stamps s)) (put_slot k None s)))
  end.

Definition stash_last_known_good_controller (c : LoadedController) (s : LoopState) : exec LoopState :=
  let s := set_last_known_good_controller_id (Some (loaded_id c)) s in
  let! s := finalize_controller_slot RollbackSlot Live s in
  Ret (set_rollback_slot (Some (set_running false c)) s).
End Records.

(** ** The checks of a load request *)

Definition LIVE_WIT_WORLD : string := "live-controller".
Definition LIVE_WIT_WORLD_VERSION : string := "bedrock:controller@1.0.0".
Definition LIVE_COMPILER_VERSION : string := "wasmtime".
Definition LIVE_HOST_ABI_VERSION : Z := 2.
Definition LIVE_CHANNEL_MANIFEST_VERSION : Z := 1.

Definition check (ok : bool) (e : string) : result unit string := if ok then Ok tt else Err e.

(** [code_sha256] is [hex::encode(Sha256::digest(bytes))], computed by libraries. *)
Definition validate_load_request (artifact : ControllerArtifact) (code_sha256 : string)
    (control_manifest : ControlInterfaceManifest) : result unit string :=
  let vk := verification_key artifact in
  let? _ := check (String.eqb (sha256 artifact) code_sha256)
    ("artifact sha mismatch: artifact=" +:+ sha256 artifact +:+ " computed=" +:+ code_sha256) in
  let? _ := check (String.eqb (vk_controller_digest vk) code_sha256)
    "verification key controller digest does not match artifact bytes" in
  let? _ := check (String.eqb (wit_world artifact) LIVE_WIT_WORLD)
    ("unsupported WIT world '" +:+ wit_world artifact +:+ "'") in
  let? _ := check (String.eqb (vk_wit_world_version vk) LIVE_WIT_WORLD_VERSION)
    ("unsupported WIT world version '" +:+ vk_wit_world_version vk +:+ "'") in
  let? _ := check (host_abi_version artifact =? LIVE_HOST_ABI_VERSION)
    ("host ABI version " +:+ pretty (host_abi_version artifact) +:+ " does not match runtime "
     +:+ pretty LIVE_HOST_ABI_VERSION) in
  let? _ := check (channel_manifest_version artifact =? LIVE_CHANNEL_MANIFEST_VERSION)
    ("manifest version " +:+ pretty (channel_manifest_version artifact)
     +:+ " does not match runtime " +:+ pretty LIVE_CHANNEL_MANIFEST_VERSION) in
  let? _ := check (String.eqb (vk_manifest_digest vk) (manifest_digest control_manifest))
    "verification key manifest digest does not match loaded manifest" in
  let? _ := check (bool_decide (vk_execution_mode vk = Verify))
    ("verification key execution mode " +:+ debug_mode (vk_execution_mode vk)
     +:+ " cannot be loaded; expected " +:+ debug_mode Verify) in
  check (String.eqb (vk_compiler_version vk) LIVE_COMPILER_VERSION)
    ("unsupported compiler version '" +:+ vk_compiler_version vk +:+ "'").

(** The parts of an [EmbodimentRuntime] a load reads. *)
Record RuntimeIdentity : Type := {
  rt_model_digest : string;
  rt_calibration_digest : string;
  legacy_watched_frame_inference : bool;
}.

Definition validate_embodiment_runtime (artifact : ControllerArtifact) (rt : RuntimeIdentity)
    : result unit string :=
  let vk := verification_key artifact in
  let? _ := check (String.eqb (rt_model_digest rt) (vk_model_digest vk))
    ("verification key model digest does not match loaded embodiment runtime: artifact="
     +:+ vk_model_digest vk +:+ " runtime=" +:+ rt_model_digest rt) in
  let? _ := check (String.eqb (rt_calibration_digest rt) (vk_calibration_digest vk))
    ("verification key calibration digest does not match loaded embodiment runtime: artifact="
     +:+ vk_calibration_digest vk +:+ " runtime=" +:+ rt_calibration_digest rt) in
  check (negb (legacy_watched_frame_inference rt))
    "live controller preparation requires explicit model.watched_frames; legacy watched-frame inference is not allowed".

(** ** The control profile *)

Definition TAU : f64 := f64_mul PI (f64_of_Z 2).

Definition fallback_limit_span (t : CommandInterfaceType) : f64 :=
  match t with
  | JointVelocity | JointPosition => TAU
  | JointTorque | GripperForce => f64_of_Z 100
  | GripperPosition => f64_dec 2 1
  | ForceTorqueSensor | ImuSensor => f64_of_Z 2
  end.

Definition is_effort (t : CommandInterfaceType) : bool :=
  match t with JointTorque | GripperForce => true | _ => false end.

Definition fallback_joint_limits (channel : ControlChannelDef) : JointSafetyLimits :=
  let half := f64_div (fallback_limit_span (interface_type channel)) (f64_of_Z 2) in {|
  joint_name := ch_name channel;
  max_velocity := half;
  max_acceleration := S754_infinity false;
  max_jerk := S754_infinity false;
  position_min := f64_neg half;
  position_max := half;
  max_torque := if is_effort (interface_type channel) then Some half else None |}.

Definition command_limit_span_from_joint_limits (channel : ControlChannelDef)
    (l : JointSafetyLimits) : f64 :=
  match interface_type channel with
  | JointVelocity => f64_max (f64_abs (f64_mul (max_velocity l) (f64_of_Z 2))) EPSILON
  | JointPosition | GripperPosition =>
      f64_max (f64_abs (f64_sub (position_max l) (position_min l))) EPSILON
  | JointTorque | GripperForce =>
      f64_mul (default (f64_div (fallback_limit_span (interface_type channel)) (f64_of_Z 2)) (max_torque l))
        (f64_of_Z 2)
  | ForceTorqueSensor | ImuSensor => f64_max (fallback_limit_span (interface_type channel)) EPSILON
  end.

(** [get_joint] looks a joint of the embodiment model up by name; its limits are taken
    under the channel's name. *)
Definition rename_limits (name : string) (l : JointSafetyLimits) : JointSafetyLimits := {|
  joint_name := name; max_velocity := max_velocity l; max_acceleration := max_acceleration l;
  max_jerk := max_jerk l; position_min := position_min l; position_max := position_max l;
  max_torque := max_torque l |}.

Definition runtime_joint_limits_for_channel (get_joint : string -> option JointSafetyLimits)
    (cm : ControlInterfaceManifest) (i : nat) (channel : ControlChannelDef) : JointSafetyLimits :=
  match List.find (fun b => channel_index b =? Z.of_nat i) (bindings cm)
        ≫= (fun b => get_joint (physical_name b)) with
  | Some l => rename_limits (ch_name channel) l
  | None => fallback_joint_limits channel
  end.

Definition joint_limits_from_runtime (get_joint : string -> option JointSafetyLimits)
    (cm : ControlInterfaceManifest) : list JointSafetyLimits :=
  imap (runtime_joint_limits_for_channel get_joint cm) (channels cm).

Definition joint_limits_from_control_manifest (cm : ControlInterfaceManifest) : list JointSafetyLimits :=
  map fallback_joint_limits (channels cm).

Record PreparedControlProfile : Type := {
  control_rate_hz : Z;
  profile_channel_names : list string;
  profile_command_defaults : list f64;
  profile_command_count : nat;
  profile_command_limit_spans : list f64;
  profile_joint_limits : list JointSafetyLimits;
  profile_force_limits : option ForceSafetyLimits;
}.

Definition DEFAULT_CONTROL_RATE_HZ : Z := 100.

(** [overlay_force_limits] are the force limits of the runtime's safety overlay. *)
Definition build_control_profile_from_runtime (get_joint : string -> option JointSafetyLimits)
    (overlay_force_limits : option ForceSafetyLimits) (cm : ControlInterfaceManifest)
    : PreparedControlProfile :=
  let limits := joint_limits_from_runtime get_joint cm in {|
  control_rate_hz := DEFAULT_CONTROL_RATE_HZ;
  profile_channel_names := map ch_name (channels cm);
  profile_command_defaults := replicate (length (channels cm)) zero;
  profile_command_count := length (channels cm);
  profile_command_limit_spans :=
    zip_with command_limit_span_from_joint_limits (channels cm) limits;
  profile_joint_limits := limits;
  profile_force_limits := overlay_force_limits |}.

(** The filter of [build_tick_infrastructure]; the [expect] panics on a refused period. *)
Definition build_hot_path_filter (p : PreparedControlProfile) : exec HotPathSafetyFilter :=
  match new_hot_path (profile_joint_limits p) (profile_force_limits p)
          (f64_div one (f64_of_Z (Z.max (control_rate_hz p) 1))) with
  | Ok f => Ret f
  | Err _ => Panic
  end.

(** What a load asks of the world: the digest of the bytes, the runtime and its joints,
    the result of instantiating the module ([Ok is_component]). *)
Record LoadEnvironment : Type := {
  code_digest : string;
  runtime : option RuntimeIdentity;
  joint_of : string -> option JointSafetyLimits;
  overlay_force_limits : option ForceSafetyLimits;
  instantiate : result bool string;
}.

Definition prepare_controller (artifact : ControllerArtifact) (env : LoadEnvironment)
    (cm : ControlInterfaceManifest) : exec (result LoadedController string) :=
  let checked :=
    let? rt := ok_or (runtime env)
      "live controller preparation requires a compiled EmbodimentRuntime; synthetic control-manifest runtimes are not permitted" in
    let? _ := validate_embodiment_runtime artifact rt in
    let? _ := validate_load_request artifact (code_digest env) cm in
    let? is_component := map_err (fun e => "failed to load controller artifact: " +:+ e)
      (instantiate env) in
    check is_component "live-controller artifacts must load as WebAssembly components" in
  match checked with
  | Err e => Ret (Err e)
  | Ok _ =>
      let p := build_control_profile_from_runtime (joint_of env) (overlay_force_limits env) cm in
      let! f := build_hot_path_filter p in
      Ret (Ok {|
        host := host_context (length (channels cm)); running := false;
        period := tick_period_from_hz (control_rate_hz p); artifact := artifact;
        hot_path_filter := f;
        evidence_collector := new_collector (controller_id artifact) (profile_channel_names p);
        channel_names := profile_channel_names p; command_defaults := profile_command_defaults p;
        command_count := profile_command_count p;
        command_limit_spans := profile_command_limit_spans p;
        last_evidence_context := default_context; config_json := "" |})
  end.

(** ** The envelope of the canary's command *)

(** The candidate's command [c] of one channel, bounded around the active one [a]: a step
    from [a] of at most [allowed], the whole step when it is that small. *)
Definition in_envelope (allowed a c v : f64) : Prop :=
  exists d, v = f64_add a d /\
    (is_nan (f64_sub c a) = false ->
       f64_le (f64_neg allowed) d = true /\ f64_le d allowed = true) /\
    (f64_le (f64_neg allowed) (f64_sub c a) = true -> f64_le (f64_sub c a) allowed = true ->
       d = f64_sub c a).

Definition allowed_step (max_delta span : f64) : f64 := f64_abs (f64_mul span max_delta).

Lemma abs_nonneg x : is_nan x = false -> f64_le zero (f64_abs x) = true.
Proof. by destruct x as [[]|[]| |[]]. Qed.

Lemma clamp_inside x lo hi : f64_le lo x = true -> f64_le x hi = true -> clamp x lo hi = Ret x.
Proof.
  intros H1 H2. unfold clamp. rewrite (f64_le_trans _ _ _ H1 H2).
  assert (f64_lt x lo = false) as -> by f64_order.
  by assert (f64_gt x hi = false) as -> by f64_order.
Qed.

Lemma bound_value_spec m a c span :
  match bound_value m a c span with
  | Ret v => is_nan (f64_mul span m) = false /\ in_envelope (allowed_step m span) a c v
  | Panic => is_nan (f64_mul span m) = true
  end.
Proof.
  unfold bound_value, in_envelope, allowed_step. cbv zeta. set (al := f64_abs (f64_mul span m)).
  destruct (is_nan (f64_mul span m)) eqn:Hn.
  - assert (al = S754_nan) as -> by (unfold al; by destruct (f64_mul span m)). done.
  - pose proof (abs_nonneg _ Hn) as H0. fold al in H0.
    destruct (clamp_total (f64_sub c a) _ _ (symmetric_range _ H0)) as [d Hd]. rewrite Hd. simpl.
    split; [done|]. exists d. split_and!; [done|by apply clamp_ret|].
    intros Hl Hu. rewrite clamp_inside in Hd by done. by injection Hd as <-.
Qed.

Lemma bound_values_spec m : forall a c spans,
  length a = length c -> (length a <= length spans)%nat ->
  match bound_values m a c spans with
  | Ret vs => length vs = length a /\
      forall i va vc sp v, a !! i = Some va -> c !! i = Some vc -> spans !! i = Some sp ->
        vs !! i = Some v -> is_nan (f64_mul sp m) = false /\ in_envelope (allowed_step m sp) va vc v
  | Panic => exists i sp, (i < length a)%nat /\ spans !! i = Some sp /\ is_nan (f64_mul sp m) = true
  end.
Proof.
  induction a as [|va a IH]; intros [|vc c] [|sp spans] Hl Hs; simpl in *; try lia; [done..|].
  pose proof (bound_value_spec m va vc sp) as Hv.
  destruct (bound_value m va vc sp) as [v|]; simpl; [|exists 0%nat, sp; split_and!; [lia|done|done]].
  specialize (IH c spans ltac:(lia) ltac:(lia)).
  destruct (bound_values m a c spans) as [vs|]; simpl.
  - destruct IH as [Hlen IH]. split; [simpl; lia|].
    intros [|i] ???? ????; simplify_eq/=; [done|]. by eapply IH.
  - destruct IH as (i & sp' & ? & ? & ?). exists (S i), sp'. split_and!; [lia|done|done].
Qed.

(** the canary's command stays near the active controller's.  For frames of one width
    with a span per channel, the bounded frame has the same width and on each channel steps
    from the active value towards the candidate's by at most the allowed fraction of the
    span, the whole way when that is within it; the only failure is an envelope that is not
    a number, which panics.  Frames of different widths are refused; without an active
    command the candidate's passes unchanged. *)
Theorem canary_envelope (active candidate : CommandFrame) (spans : list f64) (max_delta : f64) :
  let m := f64_max max_delta zero in
  bound_canary_command None candidate spans max_delta = Ret (Ok candidate) /\
  ((exists e, bound_canary_command (Some active) candidate spans max_delta = Ret (Err e)) <->
     length (values active) <> length (values candidate) \/ (length spans < length (values active))%nat) /\
  (bound_canary_command (Some active) candidate spans max_delta = Panic ->
     exists i sp, spans !! i = Some sp /\ is_nan (f64_mul sp m) = true) /\
  (forall f, bound_canary_command (Some active) candidate spans max_delta = Ret (Ok f) ->
     length (values f) = length (values active) /\
     forall i va vc sp v, values active !! i = Some va -> values candidate !! i = Some vc ->
       spans !! i = Some sp -> values f !! i = Some v -> in_envelope (allowed_step m sp) va vc v).
Proof.
  cbv zeta. split; [done|]. unfold bound_canary_command.
  destruct (Nat.eqb_spec (length (values active)) (length (values candidate))) as [Hl|Hl]; simpl.
  2: { split_and!; [|done|done]. split; [by left|by eexists]. }
  destruct (Nat.ltb_spec (length spans) (length (values active))) as [Hs|Hs].
  { split_and!; [|done|done]. split; [by right|by eexists]. }
  pose proof (bound_values_spec (f64_max max_delta zero) _ _ _ Hl Hs) as Hb.
  destruct (bound_values _ _ _ _) as [vs|]; simpl; split_and!.
  - split; [by intros [e ?]|]. intros [?|?]; [done|lia].
  - done.
  - intros f [= <-]. destruct Hb as [Hlen Hb]. split; [done|].
    intros i va vc sp v ????. by eapply Hb.
  - split; [by intros [e ?]|]. intros [?|?]; [done|lia].
  - destruct Hb as (i & sp & _ & ? & ?). by exists i, sp.
  - done.
Qed.

(** The bounding is not the identity on commands inside the envelope: [0.7 + (0.1 - 0.7)]
    is not [0.1], so the frame is taken as bounded although the step of 0.6 is well within
    the allowed one of 1.  Each such turn resets the canary window. *)
Example rounding_counts_as_bounded :
  let a := {| values := [f64_dec 7 1] |} in let c := {| values := [f64_dec 1 1] |} in
  match bound_canary_command (Some a) c [f64_of_Z 4] (f64_dec 25 2) with
  | Ret (Ok f) => values_eq (values f) (values c) = false
  | _ => False
  end.
Proof. vm_compute. reflexivity. Qed.

(** A joint whose velocity limit doubles to infinity has an infinite span; with a canary
    allowance of zero the envelope is not a number and the loop panics. *)
Example infinite_span_panics :
  let channel := {| ch_name := "j0"; interface_type := JointVelocity; units := ""; ch_frame_id := "b" |} in
  let l := {| joint_name := "j0"; max_velocity := f64_of_Z (10 ^ 308); max_acceleration := one;
              max_jerk := one; position_min := zero; position_max := one; max_torque := None |} in
  bound_canary_command (Some {| values := [one] |}) {| values := [one] |}
    [command_limit_span_from_joint_limits channel l] zero = Panic.
Proof. vm_compute. reflexivity. Qed.

(** ** The comparison of stage commands *)

Lemma f64_max_upper a b :
  is_nan a = false -> f64_le a (f64_max a b) = true /\ (is_nan b = false -> f64_le b (f64_max a b) = true) /\
  is_nan (f64_max a b) = false.
Proof.
  intros Ha. unfold f64_max. rewrite Ha. destruct (is_nan b) eqn:Hb; [split_and!; [by apply f64_le_refl|done|done]|].
  destruct (f64_lt a b) eqn:Hlt; split_and!; try done; try (by apply f64_le_refl); intros; f64_order.
Qed.

Lemma compare_values_upper : forall a c spans acc,
  is_nan (max_abs_delta acc) = false -> is_nan (max_normalized_delta acc) = false ->
  let r := compare_values acc a c spans in
  f64_le (max_abs_delta acc) (max_abs_delta r) = true /\
  f64_le (max_normalized_delta acc) (max_normalized_delta r) = true /\
  forall i va vc sp, a !! i = Some va -> c !! i = Some vc -> spans !! i = Some sp ->
    let d := f64_abs (f64_sub va vc) in
    (is_nan d = false -> f64_le d (max_abs_delta r) = true) /\
    (is_nan (f64_div d sp) = false -> f64_le (f64_div d sp) (max_normalized_delta r) = true).
Proof.
  induction a as [|va a IH]; intros c spans acc H1 H2; cbv zeta.
  { simpl. split_and!; [by apply f64_le_refl..|]. intros i ??? Hi. by rewrite lookup_nil in Hi. }
  destruct c as [|vc c].
  { simpl. split_and!; [by apply f64_le_refl..|]. intros i ??? _ Hi. by rewrite lookup_nil in Hi. }
  destruct spans as [|sp spans].
  { simpl. split_and!; [by apply f64_le_refl..|]. intros i ??? _ _ Hi. by rewrite lookup_nil in Hi. }
  cbn [compare_values].
  destruct (f64_max_upper (max_abs_delta acc) (f64_abs (f64_sub va vc)) H1) as (A1 & A2 & A3).
  destruct (f64_max_upper (max_normalized_delta acc) (f64_div (f64_abs (f64_sub va vc)) sp) H2)
    as (B1 & B2 & B3).
  match goal with |- context [compare_values ?acc' a c spans] =>
    destruct (IH c spans acc' A3 B3) as (C1 & C2 & C3) end. cbn in C1, C2.
  split_and!; [by eapply f64_le_trans|by eapply f64_le_trans|].
  intros [|i] va' vc' sp' Ha Hc Hsp; simplify_eq/=; [|exact (C3 i va' vc' sp' Ha Hc Hsp)].
  split; intros Hn; eapply f64_le_trans; eauto.
Qed.

(** the divergence of a staged candidate is not understated.  A comparison is reported
    exactly for two frames of one non-zero width with a span per channel; it is at least the
    difference, and the normalised difference, of every channel where these are numbers;
    one frame without the other, or unequal widths, is an error. *)
Theorem comparison_covers_channels (active candidate : option CommandFrame) (spans : list f64) :
  match compare_stage_commands active candidate spans with
  | Ok (Some cmp) => exists a c, active = Some a /\ candidate = Some c /\
      length (values a) = length (values c) /\ (0 < length (values a) <= length spans)%nat /\
      forall i va vc sp, values a !! i = Some va -> values c !! i = Some vc -> spans !! i = Some sp ->
        let d := f64_abs (f64_sub va vc) in
        (is_nan d = false -> f64_le d (max_abs_delta cmp) = true) /\
        (is_nan (f64_div d sp) = false -> f64_le (f64_div d sp) (max_normalized_delta cmp) = true)
  | Ok None => active = None /\ candidate = None \/
      (exists a c, active = Some a /\ candidate = Some c /\ values a = [] /\ values c = [])
  | Err _ => (active = None <-> candidate <> None) \/
      (exists a c, active = Some a /\ candidate = Some c /\
        (length (values a) <> length (values c) \/ (length spans < length (values a))%nat))
  end.
Proof.
  destruct active as [a|], candidate as [c|]; cbn [compare_stage_commands]; [|by left..].
  destruct (Nat.eqb_spec (length (values a)) (length (values c))) as [Hl|Hl]; simpl; [|by right; eauto 10].
  destruct (Nat.ltb_spec (length spans) (length (values a))) as [Hs|Hs]; [by right; eauto 10|].
  destruct (Nat.eqb_spec (length (values a)) 0) as [Hz|Hz].
  - right. exists a, c. split_and!; try done; apply nil_length_inv; congruence.
  - exists a, c. split_and!; try done; [lia|].
    apply (compare_values_upper (values a) (values c) spans
      {| max_abs_delta := zero; max_normalized_delta := zero |}); done.
Qed.
