(* ===== verification/ControllerLoop.v ===== *)
(** * The controller loop

    [crates/roz-copper/src/controller.rs]: the commands of the loop, the watchdog, the
    rejection and the staged promotion of a candidate, and the body of
    [run_controller_loop_with_policy] as one function per block, composed in [loop_tick].
    What the environment gives a turn of the loop (drained commands, sensor frame, clock
    readings, behaviour of the guests) is the record [TickEnv]; a turn that panics is
    [Panic].  The published snapshot is [publish_state]; the JSON text of the last output
    in it is left out. *)

From S2P Require Import Prelude Float64 Deployment Lifecycle Command Embodiment SafetyFilter Evidence.
From S2P Require Import TickController LoopState.

(** A command of the agent; a [PreparedController] is the controller it loads. *)
Inductive RuntimeCommand : Type :=
| PreparedArtifact (load : LoadedController)
| PromoteActive
| UpdateParams (params : string)
| Halt
| Resume.

(** What the environment gives one turn: the commands found on the two channels, the clock
    when the contact is noted, when the silence is measured and when it is reported, the
    sensor frame if there is one, and what the two guests do when they are called. *)
Record TickEnv : Type := {
  env_emergency : list RuntimeCommand;
  env_commands : list RuntimeCommand;
  env_contact_at : Instant;
  env_checked_at : Instant;
  env_reported_at : Instant;
  env_sensor : option SensorReading;
  env_active : GuestTick;
  env_candidate : GuestTick;
}.

(** The settings of a loop: is there an actuator, the watchdog timeout, the rollout policy. *)
Record LoopConfig : Type := {
  has_actuator : bool;
  watchdog_timeout : Duration;
  policy : DeploymentManager;
}.

(** The candidate's failure of a turn: the reason, and whether the active one carries on. *)
Record CandidateFailure : Type := {
  failure_cause : message;
  keeps_active : bool;
}.

Section Loop.
Context (uuid_at : nat -> string) (utc_at : nat -> DateTime) (cfg : LoopConfig).

(** ** Restoring and rejecting *)

Definition restore_last_known_good_controller (s : LoopState)
    : exec (result LifecycleRetirement string * LoopState) :=
  let! s := finalize_controller_slot uuid_at utc_at ActiveSlot Live s in
  match rollback_slot s with
  | None => Ret (Err "no last-known-good controller instance available", s)
  | Some c =>
      let s := set_rollback_slot None s in
      match restore_last_known_good_active (manager s) with
      | (Err e, m) => Ret (Err (display_lifecycle_error e), called OpRestoreActive m s)
      | (Ok outcome, m) =>
          let s := called OpRestoreActive m s in
          let s := set_last_known_good_controller_id (restored_controller_id outcome) s in
          Ret (Ok outcome, set_active_slot (Some (set_running true c)) s)
      end
  end.

(** The terminal state reported when the lifecycle refuses the retirement. *)
Definition fallback_terminal_state (prior : DeploymentState) : DeploymentState :=
  match prior with
  | Canary | Active => RolledBack
  | VerifiedOnly | Shadow | Rejected | RolledBack => Rejected
  end.

Definition reject_candidate (reason : message) (restore_active : bool) (s : LoopState) : exec LoopState :=
  let prior_state := default VerifiedOnly (candidate_state s) in
  let execution_mode := execution_mode_for_candidate_state (candidate_state s) in
  let! s := finalize_controller_slot uuid_at utc_at CandidateSlot execution_mode s in
  let s := set_promotion_requested false (set_candidate_state None s) in
  let '(retirement, m) :=
    if restore_active then restore_last_known_good_active (manager s) else retire_current (manager s) in
  let s := called (if restore_active then OpRestoreActive else OpRetire) m s in
  let terminal :=
    match retirement with
    | Ok outcome => terminal_state outcome
    | Err _ => fallback_terminal_state prior_state
    end in
  let s := set_candidate_last_rejection_reason
    (Some (Str (retirement_reason_label terminal +:+ ": ") :: reason)) s in
  Ret match retirement with
      | Ok outcome =>
          match restored_controller_id outcome with
          | Some id => set_last_known_good_controller_id (Some id) s
          | None => s
          end
      | Err _ => s
      end.

(** ** Staged promotion *)

(** The stretch of the candidate [c] of the slot ends; its evidence is judged, submitted
    and the promotion requested. *)
Definition submit_stage_evidence_and_promote (c : LoadedController) (stage_mode : ExecutionMode)
    (target : DeploymentState) (s : LoopState)
    : exec (result LifecycleTransition string * LoopState) :=
  let! (bundle, c) := rotate_evidence c stage_mode (uuid_at (stamps s)) (utc_at (stamps s)) in
  let s := set_candidate_slot (Some c) (set_stamps (S (stamps s)) s) in
  let ev := judge_stage_evidence bundle in
  let s := set_last_candidate_evidence_bundle (Some ev) s in
  match submit_evidence ev (manager s) with
  | (Err e, m) => Ret (Err (display_lifecycle_error e), called (OpSubmit ev) m s)
  | (Ok _, m) =>
      let s := called (OpSubmit ev) m s in
      let digests := runtime_digests_for_artifact (artifact c) in
      match promote_to digests target (manager s) with
      | (Err e, m) => Ret (Err (display_lifecycle_error e), called (OpPromoteTo digests target) m s)
      | (Ok tr, m) =>
          Ret (if bool_decide (to_state tr = target) then Ok tr
               else Err ("unexpected lifecycle state after promotion: expected " +:+ debug_state target
                         +:+ ", got " +:+ debug_state (to_state tr)),
               called (OpPromoteTo digests target) m s)
      end
  end.

Definition promote_candidate_to_active (s : LoopState) : exec LoopState :=
  match candidate_slot s with
  | None => Panic
  | Some c =>
      let promoted := set_artifact (set_promoted_at (utc_at (stamps s)) (artifact c)) c in
      let s := set_stamps (S (stamps s)) (set_candidate_slot None s) in
      let! s :=
        match active_slot s with
        | None => Ret s
        | Some a => stash_last_known_good_controller uuid_at utc_at a (set_active_slot None s)
        end in
      let s := set_active_slot (Some promoted) s in
      let s := set_promotion_requested false (set_candidate_state None s) in
      let s := set_bounded_canary_ticks 0 (set_canary_ticks 0 (set_shadow_ticks 0 s)) in
      let s := set_candidate_last_rejection_reason None s in
      Ret (set_last_known_good_controller_id (controller_id <$> last_known_good (manager s)) s)
  end.

(** A refused promotion: the candidate is rejected; an active controller is restored. *)
Definition reject_stage (stage error : string) (s : LoopState) : exec LoopState :=
  reject_candidate [Str (stage +:+ "-stage promotion rejected: " +:+ error)]
    (bool_decide (is_Some (active_slot s))) s.

Definition enter_canary (s : LoopState) : LoopState :=
  set_bounded_canary_ticks 0 (set_canary_ticks 0 s).

Definition advance_verified (c : LoadedController) (target : DeploymentState) (s : LoopState)
    : exec LoopState :=
  let! (r, s) := submit_stage_evidence_and_promote c Verify target s in
  match r with
  | Err error => reject_stage "verify" error s
  | Ok tr =>
      let s := set_candidate_state (Some (to_state tr)) s in
      match to_state tr with
      | Shadow => Ret (set_shadow_ticks 0 s)
      | Canary => Ret (enter_canary s)
      | Active => promote_candidate_to_active s
      | VerifiedOnly | RolledBack | Rejected => Ret s
      end
  end.

Definition advance_shadow (c : LoadedController) (target : DeploymentState) (s : LoopState)
    : exec LoopState :=
  let! n := u64_add (shadow_ticks s) 1 in
  let s := set_shadow_ticks n s in
  if n <? shadow_ticks_required (policy cfg) then Ret s
  else
    let! (r, s) := submit_stage_evidence_and_promote c ShadowMode target s in
    match r with
    | Err error => reject_stage "shadow" error s
    | Ok tr =>
        match to_state tr with
        | Canary => Ret (enter_canary (set_candidate_state (Some Canary) s))
        | Active => promote_candidate_to_active (set_candidate_state (Some Active) s)
        | VerifiedOnly | Shadow | RolledBack | Rejected => Ret s
        end
    end.

Definition advance_canary (c : LoadedController) (target : DeploymentState) (counts : bool)
    (s : LoopState) : exec LoopState :=
  if negb counts then Ret (set_canary_ticks 0 s)
  else
    let! n := u64_add (canary_ticks s) 1 in
    let s := set_canary_ticks n s in
    if n <? canary_ticks_required (policy cfg) then Ret s
    else
      let! (r, s) := submit_stage_evidence_and_promote c CanaryMode target s in
      match r with
      | Err error => reject_stage "canary" error s
      | Ok tr => promote_candidate_to_active (set_candidate_state (Some (to_state tr)) s)
      end.

Definition advance_candidate_stage (ticked counts : bool) (s : LoopState) : exec LoopState :=
  if negb (promotion_requested s) || negb ticked then Ret s
  else
    match candidate_state s with
    | None => Ret s
    | Some state =>
        match candidate_slot s with
        | None => Ret (set_promotion_requested false s)
        | Some c =>
            match next_target (policy cfg) state with
            | None => Ret (set_promotion_requested false s)
            | Some target =>
                match state with
                | VerifiedOnly => advance_verified c target s
                | Shadow => advance_shadow c target s
                | Canary => advance_canary c target counts s
                | Active | RolledBack | Rejected => Ret s
                end
            end
        end
    end.

(** ** Commands *)

Definition update_all (f : LoadedController -> LoadedController) (s : LoopState) : LoopState :=
  update_slot RollbackSlot f (update_slot CandidateSlot f (update_slot ActiveSlot f s)).

Definition load_candidate (load : LoadedController) (s : LoopState) : exec LoopState :=
  let! s := finalize_controller_slot uuid_at utc_at CandidateSlot
    (execution_mode_for_candidate_state (candidate_state s)) s in
  let m := snd (load_artifact (artifact load) (manager s)) in
  let s := set_candidate_slot (Some (from_prepared load)) (called (OpLoad (artifact load)) m s) in
  let s := set_candidate_state (Some (default VerifiedOnly (current_state m))) s in
  let s := set_last_known_good_controller_id (controller_id <$> last_known_good m) s in
  Ret (set_promotion_requested false (set_candidate_last_rejection_reason None s)).

(** Is a candidate loaded whose verdict allows promotion? *)
Definition promotion_eligible (s : LoopState) : bool :=
  match candidate_slot s ≫= (fun c => verifier_result (artifact c)) with
  | Some v => allows_promotion v
  | None => false
  end.

Definition process (cmd : RuntimeCommand) (s : LoopState) : exec LoopState :=
  match cmd with
  | PreparedArtifact load => load_candidate load s
  | PromoteActive =>
      Ret (if allows_rollout (policy cfg) && promotion_eligible s then
             set_candidate_state (Some VerifiedOnly) (set_promotion_requested true s)
           else s)
  | Halt => Ret (update_all (set_running false) s)
  | Resume => Ret (update_all (set_running true) s)
  | UpdateParams params => Ret (update_all (apply_params params) s)
  end.

Fixpoint process_all (cmds : list RuntimeCommand) (s : LoopState) : exec LoopState :=
  match cmds with
  | [] => Ret s
  | cmd :: cmds => let! s := process cmd s in process_all cmds s
  end.

(** The emergency channel first; was anything received on the other one? *)
Definition drain_commands (env : TickEnv) (s : LoopState) : exec (bool * LoopState) :=
  let! s := process_all (env_emergency env) s in
  let! s := process_all (env_commands env) s in
  Ret (negb (bool_decide (env_commands env = [])), s).

(** ** The watchdog *)

Definition check_watchdog (env : TickEnv) (s : LoopState) : bool * LoopState :=
  if env_checked_at env - last_agent_contact s <=? watchdog_timeout cfg then (false, s)
  else if negb (any_controller_running s) then (false, s)
  else
    let s := update_slot CandidateSlot (set_running false) (update_slot ActiveSlot (set_running false) s) in
    let s := actuate (has_actuator cfg) (stop_frame s) s in
    let reason := [Str ("controller_error: agent watchdog timeout ("
      +:+ pretty ((env_reported_at env - last_agent_contact s) / 1000000) +:+ "ms)")] in
    (true, set_estop_reason (Some reason) (notify reason s)).

(** ** The blocks of a turn *)

(** A controller of a slot is ticked on the last sensor reading, and stopped when it halts. *)
Definition tick_slot (c : LoadedController) (g : GuestTick) (s : LoopState)
    : exec (LoadedController * ControllerTickResult) :=
  let r := sensed s in
  let! (c, res) := tick_controller c (sensor_positions r) (sensor_velocities r) (sensor_wrench r) g in
  Ret (if halted res then set_running false c else c, res).

Definition tick_active (env : TickEnv) (s : LoopState) : exec (ControllerTickResult * LoopState) :=
  match active_slot s with
  | Some c =>
      if running c then
        let! (c, res) := tick_slot c (env_active env) s in
        Ret (res, set_active_slot (Some c) s)
      else Ret (no_result, s)
  | None => Ret (no_result, s)
  end.

(** After a hard failure of the active controller. *)
Definition recover_active (res : ControllerTickResult) (s : LoopState) : exec LoopState :=
  match halted res, result_estop_reason res with
  | true, Some reason =>
      let! (r, s) := restore_last_known_good_controller s in
      match r with
      | Ok _ =>
          let s := set_candidate_state None (set_promotion_requested false s) in
          let s := set_bounded_canary_ticks 0 (set_canary_ticks 0 (set_shadow_ticks 0 s)) in
          let s := set_estop_reason None s in
          Ret (actuate (has_actuator cfg) (stop_frame s) s)
      | Err _ =>
          let s := set_estop_reason (Some [Str reason]) (notify [Str reason] s) in
          let s := actuate (has_actuator cfg) (stop_frame s) s in
          Ret (update_slot CandidateSlot (set_running false) s)
      end
  | _, _ => Ret s
  end.

Definition in_stage (state : option DeploymentState) : bool :=
  match state with Some Shadow | Some Canary => true | _ => false end.

(** The candidate's failure in this turn, from its result, the active controller's command
    and the divergence limit. *)
Definition judge_candidate (state : option DeploymentState) (fallback : bool) (spans : list f64)
    (active_cmd : option CommandFrame) (res : ControllerTickResult) : option CandidateFailure :=
  let failed reason := Some {| failure_cause := reason; keeps_active := fallback |} in
  if halted res then failed [Str (default "candidate controller halted" (result_estop_reason res))]
  else if in_stage state && bool_decide (command res = None) then
    failed [Str ("candidate produced no command during "
                 +:+ debug_state (default VerifiedOnly state) +:+ " stage")]
  else if fallback && in_stage state then
    match compare_stage_commands active_cmd (command res) spans with
    | Ok (Some cmp) =>
        if f64_gt (max_normalized_delta cmp) (max_stage_normalized_command_delta (policy cfg)) then
          failed [Str "candidate divergence exceeded limit: normalized_delta=";
                  Flt (Some 3) (max_normalized_delta cmp); Str " max_abs_delta=";
                  Flt (Some 3) (max_abs_delta cmp)]
        else None
    | Ok None => None
    | Err reason => failed reason
    end
  else None.

(** What the candidate's block of a turn leaves to the ones after it. *)
Record CandidateTick : Type := {
  candidate_result : ControllerTickResult;
  ticked_successfully : bool;
  candidate_failure : option CandidateFailure;
}.

Definition no_candidate_tick : CandidateTick :=
  {| candidate_result := no_result; ticked_successfully := false; candidate_failure := None |}.

Definition tick_candidate (env : TickEnv) (active_cmd : option CommandFrame) (s : LoopState)
    : exec (CandidateTick * LoopState) :=
  match candidate_slot s with
  | Some c =>
      if running c then
        let! (c, res) := tick_slot c (env_candidate env) s in
        Ret ({| candidate_result := res; ticked_successfully := negb (halted res);
                candidate_failure :=
                  judge_candidate (candidate_state s) (slot_running (active_slot s))
                    (command_limit_spans c) active_cmd res |},
             set_candidate_slot (Some c) s)
      else Ret (no_candidate_tick, s)
  | None => Ret (no_candidate_tick, s)
  end.

(** Reject the candidate for a [reason]: the active controller carries on ([keep]), or the
    failure is an e-stop. *)
Definition fail_candidate (reason : message) (keep : bool) (s : LoopState) : exec LoopState :=
  if keep then reject_candidate reason true s
  else
    let s := set_estop_reason (Some reason) (notify reason s) in
    let! s := reject_candidate reason false s in
    Ret (actuate (has_actuator cfg) (stop_frame s) s).

Definition settle_candidate (f : option CandidateFailure) (s : LoopState) : exec LoopState :=
  match f with
  | Some f => fail_candidate (failure_cause f) (keeps_active f) s
  | None => Ret s
  end.

Definition candidate_is_canary (s : LoopState) : bool :=
  bool_decide (candidate_state s = Some Canary) && slot_running (candidate_slot s).

(** The canary's command inside the envelope, and whether that altered it. *)
Definition canary_command (active_cmd : option CommandFrame) (candidate_cmd : CommandFrame)
    (s : LoopState) : exec (bool * CommandFrame) :=
  let spans := match candidate_slot s with Some c => command_limit_spans c | None => [] end in
  let! r := bound_canary_command active_cmd candidate_cmd spans (canary_max_command_delta (policy cfg)) in
  Ret match r with
      | Ok bounded => (negb (values_eq (values bounded) (values candidate_cmd)), bounded)
      | Err _ => (true, default candidate_cmd active_cmd)
      end.

Definition bound_canary (active_cmd candidate_cmd : option CommandFrame) (s : LoopState)
    : exec (bool * option CommandFrame) :=
  match candidate_is_canary s, candidate_cmd with
  | true, Some cmd => let! (bounded, frame) := canary_command active_cmd cmd s in Ret (bounded, Some frame)
  | _, _ => Ret (false, None)
  end.

(** The budget of bounded ticks; [fallback] is whether the active one was running. *)
Definition charge_canary (fallback bounded : bool) (cmd : option CommandFrame) (s : LoopState)
    : exec (option CommandFrame * LoopState) :=
  if candidate_is_canary s && bounded then
    let! n := u64_add (bounded_canary_ticks s) 1 in
    let s := set_bounded_canary_ticks n s in
    if dm_max_bounded_canary_ticks (policy cfg) <? n then
      let reason := [Str ("candidate exceeded bounded canary tick budget: bounded_ticks=" +:+ pretty n
        +:+ " allowed=" +:+ pretty (dm_max_bounded_canary_ticks (policy cfg)))] in
      let! s := fail_candidate reason fallback s in
      Ret (None, s)
    else Ret (cmd, s)
  else Ret (cmd, s).

(** The frame the turn sends: the canary's if there is one, else the active controller's. *)
Definition actuated_command (active_cmd canary_cmd : option CommandFrame) (s : LoopState)
    : option CommandFrame :=
  if candidate_is_canary s then match canary_cmd with Some f => Some f | None => active_cmd end
  else active_cmd.

Definition send_command (frame : option CommandFrame) (s : LoopState) : LoopState :=
  match frame with
  | Some f => actuate (has_actuator cfg) f (set_last_velocity_count (length (values f)) s)
  | None => s
  end.

Definition next_tick (s : LoopState) : exec LoopState :=
  let! n := u64_add (tick_number s) 1 in Ret (set_tick_number n s).

Definition read_sensor (env : TickEnv) (s : LoopState) : LoopState :=
  match env_sensor env with Some r => set_sensed r s | None => s end.

(** The part of a turn after the watchdog let it pass. *)
Definition control_tick (env : TickEnv) (s : LoopState) : exec LoopState :=
  let! (active_res, s) := tick_active env s in
  let! s := recover_active active_res s in
  let fallback := slot_running (active_slot s) in
  let! (cand, s) := tick_candidate env (command active_res) s in
  let! s := settle_candidate (candidate_failure cand) s in
  let! (bounded, canary_cmd) := bound_canary (command active_res) (command (candidate_result cand)) s in
  let! (canary_cmd, s) := charge_canary fallback bounded canary_cmd s in
  let s := send_command (actuated_command (command active_res) canary_cmd s) s in
  let! s := advance_candidate_stage (ticked_successfully cand) (negb bounded) s in
  next_tick s.

(** The start of a turn: commands, agent contact, sensor data. *)
Definition begin_tick (env : TickEnv) (s : LoopState) : exec LoopState :=
  let! (received, s) := drain_commands env s in
  let s := if received then set_last_agent_contact (env_contact_at env) s else s in
  Ret (read_sensor env s).

(** One turn of the loop. *)
Definition loop_tick (env : TickEnv) (s : LoopState) : exec LoopState :=
  let! s := begin_tick env s in
  let '(fired, s) := check_watchdog env s in
  if fired then next_tick s else control_tick env s.

(** A run of the loop: [while !shutdown]. *)
Fixpoint loop_run (envs : list TickEnv) (s : LoopState) : exec LoopState :=
  match envs with
  | [] => Ret s
  | env :: envs => let! s := loop_tick env s in loop_run envs s
  end.

(** After the last turn: a final drain, and the evidence of every slot. *)
Definition loop_shutdown (env : TickEnv) (s : LoopState) : exec LoopState :=
  let! (_, s) := drain_commands env s in
  let! s := finalize_controller_slot uuid_at utc_at ActiveSlot Live s in
  let! s := finalize_controller_slot uuid_at utc_at CandidateSlot
    (execution_mode_for_candidate_state (candidate_state s)) s in
  finalize_controller_slot uuid_at utc_at RollbackSlot Live s.
End Loop.

(** ** The published snapshot *)

Record ControllerState : Type := {
  last_tick : Z;
  published_running : bool;
  published_estop_reason : option message;
  deployment_state : option DeploymentState;
  active_controller_id : option string;
  candidate_controller_id : option string;
  published_last_known_good : option string;
  published_promotion_requested : bool;
  candidate_stage_ticks_completed : Z;
  candidate_stage_ticks_required : Z;
  published_rejection_reason : option message;
  published_live_evidence : option ControllerEvidenceBundle;
  published_candidate_evidence : option ControllerEvidenceBundle;
}.

Definition publish_state (dm : DeploymentManager) (s : LoopState) : ControllerState :=
  let '(completed, required) :=
    candidate_stage_progress (candidate_state s) (shadow_ticks s) (canary_ticks s) dm in {|
  last_tick := tick_number s;
  published_running := any_controller_running s;
  published_estop_reason := estop_reason s;
  deployment_state := deployment_state_for_publish s;
  active_controller_id := loaded_id <$> active_slot s;
  candidate_controller_id := loaded_id <$> candidate_slot s;
  published_last_known_good := last_known_good_controller_id s;
  published_promotion_requested := promotion_requested s;
  candidate_stage_ticks_completed := completed;
  candidate_stage_ticks_required := required;
  published_rejection_reason := candidate_last_rejection_reason s;
  published_live_evidence := last_live_evidence_bundle s;
  published_candidate_evidence := last_candidate_evidence_bundle s |}.
