(* ===== verification/LoopInvariant.v ===== *)
(** * The invariant of the controller loop

    What the slots of the loop and its lifecycle manager know of each other, kept by every
    turn: the manager is always the result of its own operations, a staged candidate is the
    artifact the manager has under evidence, and what is active or kept for rollback went
    through the promotion gates.  The invariant looks only at the artifacts of the slots,
    the candidate's stage and the manager ([view]); each operation is a lemma on views. *)

From S2P Require Import Prelude Float64 Deployment Lifecycle Command Embodiment SafetyFilter Evidence.
From S2P Require Import TickController LoopState ControllerLoop.

Record View : Type := {
  v_active : option ControllerArtifact;
  v_candidate : option ControllerArtifact;
  v_rollback : option ControllerArtifact;
  v_stage : option DeploymentState;
  v_manager : ControllerLifecycle;
  v_journal : list op;
}.

Definition view (s : LoopState) : View := {|
  v_active := artifact <$> active_slot s; v_candidate := artifact <$> candidate_slot s;
  v_rollback := artifact <$> rollback_slot s; v_stage := candidate_state s; v_manager := manager s;
  v_journal := journal s |}.

(** The stages an artifact goes through before it is active. *)
Definition is_staging (st : DeploymentState) : bool :=
  match st with VerifiedOnly | Shadow | Canary => true | _ => false end.

(** [b] is an artifact vetted for stage [st], but for the time of its promotion. *)
Definition vetted_as (ops : list op) (st : DeploymentState) (b : ControllerArtifact) : Prop :=
  exists a, vetted ops st a /\ (b = a \/ exists t, b = set_promoted_at t a).

Record view_ok (ops : list op) (v : View) : Prop := {
  ok_journal : v_journal v = ops;
  ok_manager : v_manager v = run ops;
  (** While the manager stages an artifact, it is the candidate's. *)
  ok_staged : forall st, current_state (run ops) = Some st -> is_staging st = true ->
    exists a, v_candidate v = Some a /\ current_artifact (run ops) = Some a;
  (** The loop's stage is the manager's, but that a promotion request starts over. *)
  ok_stage : forall st, v_stage v = Some st ->
    st = VerifiedOnly \/ is_staging st = true /\ current_state (run ops) = Some st;
  ok_candidate : v_candidate v <> None -> exists st, current_state (run ops) = Some st /\
    is_terminal st = false /\ (st = Active -> last_known_good (run ops) <> None);
  ok_active : forall a, v_active v = Some a -> vetted_as ops Active a;
  ok_fallback : v_active v <> None -> last_known_good (run ops) = None ->
    current_state (run ops) = Some Active;
  ok_rollback : forall a, v_rollback v = Some a -> vetted_as ops Active a;
}.

Definition loop_inv (s : LoopState) : Prop := exists ops, view_ok ops (view s).

(** ** Lemmas on views *)

Lemma vetted_as_snoc ops o st b : vetted_as ops st b -> vetted_as (ops ++ [o]) st b.
Proof. intros (a & Hv & Hb). exists a. eauto with roz. Qed.

#[export] Hint Resolve vetted_as_snoc : roz.

Lemma initial_inv now : loop_inv (initial_state now).
Proof. exists []. by constructor. Qed.

(** Only the slots' artifacts matter: an equal view has the invariant. *)
Lemma inv_view s s' : view s' = view s -> loop_inv s -> loop_inv s'.
Proof. intros E [ops H]. exists ops. by rewrite E. Qed.

Lemma vetted_artifact ops st a :
  current_state (run ops) = Some st -> is_actuating st = true ->
  current_artifact (run ops) = Some a -> vetted_as ops st a.
Proof. intros. exists a. split; [|by left]. by apply (proj1 (actuating_vetted ops)). Qed.

(** A step of the manager that keeps its stage, its artifact and its fallback. *)
Lemma view_ok_quiet ops o v :
  view_ok ops v -> current_state (run (ops ++ [o])) = current_state (run ops) ->
  current_artifact (run (ops ++ [o])) = current_artifact (run ops) ->
  last_known_good (run (ops ++ [o])) = last_known_good (run ops) ->
  view_ok (ops ++ [o]) {| v_active := v_active v; v_candidate := v_candidate v;
    v_rollback := v_rollback v; v_stage := v_stage v; v_manager := run (ops ++ [o]);
    v_journal := ops ++ [o] |}.
Proof.
  intros [] Hs Ha Hl. constructor; cbn [v_manager v_active v_candidate v_rollback v_stage];
    rewrite ?Hs, ?Ha, ?Hl; eauto with roz.
Qed.

(** The manager gets a new artifact, the new candidate. *)
Lemma view_ok_load ops a v :
  view_ok ops v ->
  view_ok (ops ++ [OpLoad a]) {| v_active := v_active v; v_candidate := Some a;
    v_rollback := v_rollback v; v_stage := Some VerifiedOnly;
    v_manager := run (ops ++ [OpLoad a]);
    v_journal := ops ++ [OpLoad a] |}.
Proof.
  intros []. pose proof (wf_run ops) as [Hwf _].
  constructor; cbn [v_manager v_active v_candidate v_rollback v_stage];
    try (rewrite run_snoc; simpl); eauto with roz.
  - naive_solver.
  - intros Hact. case_bool_decide as Hs; [naive_solver|]. intros Hl. naive_solver.
Qed.

(** The candidate is gone and the manager left its stage. *)
Lemma view_ok_drop ops o v :
  view_ok ops v ->
  (forall st, current_state (run (ops ++ [o])) = Some st -> is_staging st = false) ->
  (v_active v <> None -> last_known_good (run (ops ++ [o])) = None ->
     current_state (run (ops ++ [o])) = Some Active) ->
  view_ok (ops ++ [o]) {| v_active := v_active v; v_candidate := None;
    v_rollback := v_rollback v; v_stage := None; v_manager := run (ops ++ [o]);
    v_journal := ops ++ [o] |}.
Proof.
  intros [] Hst Hf. constructor; cbn [v_manager v_active v_candidate v_rollback v_stage];
    eauto with roz; [|done..].
  intros st Hs Hstg. by rewrite (Hst st Hs) in Hstg.
Qed.

(** ** Operations that record evidence *)

(** The evidence records and the stamps, the part no decision reads. *)
Definition with_records (live cand : option ControllerEvidenceBundle) (n : nat) (s : LoopState) : LoopState :=
  set_last_live_evidence_bundle live (set_last_candidate_evidence_bundle cand (set_stamps n s)).

Lemma with_records_same s :
  with_records (last_live_evidence_bundle s) (last_candidate_evidence_bundle s) (stamps s) s = s.
Proof. by destruct s. Qed.

Lemma put_none_same k s : get_slot k s = None -> put_slot k None s = s.
Proof. destruct s, k; simpl; by intros ->. Qed.

Section Operations.
Context (uuid_at : nat -> string) (utc_at : nat -> DateTime) (cfg : LoopConfig).

Lemma finalize_slot_spec k mode s s' :
  finalize_controller_slot uuid_at utc_at k mode s = Ret s' ->
  exists live cand n, s' = with_records live cand n (put_slot k None s).
Proof.
  unfold finalize_controller_slot. destruct (get_slot k s) as [c|] eqn:Hk.
  - intros H. apply exec_bind_ret in H as (b & _ & [= <-]). unfold record_finalized_evidence.
    exists (last_live_evidence_bundle (record_finalized_evidence b s)),
      (last_candidate_evidence_bundle (record_finalized_evidence b s)), (S (stamps s)).
    unfold record_finalized_evidence. destruct s, k, (ev_execution_mode b); reflexivity.
  - intros [= <-]. rewrite put_none_same by done. eexists _, _, _. symmetry. apply with_records_same.
Qed.

Lemma retire_ok_snoc ops r m :
  retire_current (run ops) = (r, m) -> m = run (ops ++ [OpRetire]).
Proof. intros H. by rewrite run_snoc; simpl; rewrite H. Qed.

Lemma restore_ok_snoc ops r m :
  restore_last_known_good_active (run ops) = (r, m) -> m = run (ops ++ [OpRestoreActive]).
Proof. intros H. by rewrite run_snoc; simpl; rewrite H. Qed.

Lemma retirement_total st : is_terminal st = false -> exists t, retirement_state_for st = Ok t.
Proof. destruct st; try done; by eexists. Qed.

(** Retiring a candidate ends its stage. *)
Lemma retire_candidate_ok ops v :
  view_ok ops v -> v_candidate v <> None ->
  exists t, is_terminal t = true /\ current_state (run (ops ++ [OpRetire])) = Some t /\
    last_known_good (run (ops ++ [OpRetire])) = last_known_good (run ops).
Proof.
  intros [] Hc. destruct (ok_candidate0 Hc) as (st & Hst & Ht & _).
  pose proof (wf_run ops) as [Hwf _].
  destruct (current_artifact (run ops)) as [a|] eqn:Ha; [|naive_solver].
  destruct (retirement_total st Ht) as [t Hr].
  exists t. rewrite run_snoc. simpl. unfold retire_current. rewrite Ha, Hst. simpl. rewrite Hr. simpl.
  split_and!; try done. destruct st; try done; cbv in Hr; by injection Hr as <-.
Qed.

(** Restoring with a candidate or an active controller makes the fallback active. *)
Lemma restore_candidate_ok ops v :
  view_ok ops v -> v_candidate v <> None -> v_active v <> None ->
  current_state (run (ops ++ [OpRestoreActive])) = Some Active /\
  last_known_good (run (ops ++ [OpRestoreActive])) = last_known_good (run ops).
Proof.
  intros Hok Hc Ha. destruct (ok_candidate _ _ Hok Hc) as (st & Hst & Ht & Hl).
  destruct (last_known_good (run ops)) as [lkg|] eqn:Hlkg.
  2: { pose proof (ok_fallback _ _ Hok Ha Hlkg). simplify_eq. naive_solver. }
  destruct (retire_candidate_ok ops v Hok Hc) as (t & _ & Hs & Hk). rewrite run_snoc in *.
  simpl in *. unfold restore_last_known_good_active. rewrite Hlkg.
  destruct (retire_current (run ops)) as [[r|e] m] eqn:Hr; simpl in *; [by rewrite Hk, Hlkg|].
  unfold retire_current in Hr. rewrite Hst in Hr. simpl in Hr.
  pose proof (wf_run ops) as [Hwf _].
  destruct (current_artifact (run ops)) as [a|] eqn:Hart; [|naive_solver].
  destruct (retirement_total st Ht) as [t' Ht']. simpl in Hr. rewrite Ht' in Hr. done.
Qed.

Lemma reject_candidate_view reason (restore : bool) s s' :
  reject_candidate uuid_at utc_at reason restore s = Ret s' ->
  view s' = {| v_active := v_active (view s); v_candidate := None; v_rollback := v_rollback (view s);
    v_stage := None; v_manager := step (manager s) (if restore then OpRestoreActive else OpRetire);
    v_journal := journal s ++ [if restore then OpRestoreActive else OpRetire] |}.
Proof.
  unfold reject_candidate. intros H. apply exec_bind_ret in H as (s1 & Hf & H).
  apply finalize_slot_spec in Hf as (l & c & n & ->).
  destruct restore; simpl in H.
  1: destruct (restore_last_known_good_active (manager s)) as [r m] eqn:Hm.
  2: destruct (retire_current (manager s)) as [r m] eqn:Hm.
  all: injection H as <-; unfold view; simpl; rewrite Hm; simpl;
    destruct r as [o|e]; [destruct (restored_controller_id o)|]; reflexivity.
Qed.

Lemma reject_candidate_inv reason (restore : bool) s s' :
  loop_inv s -> candidate_slot s <> None -> (restore = true -> active_slot s <> None) ->
  reject_candidate uuid_at utc_at reason restore s = Ret s' -> loop_inv s'.
Proof.
  intros [ops Hok] Hc Ha H. apply reject_candidate_view in H.
  assert (v_candidate (view s) <> None) as Hvc by (simpl; by destruct (candidate_slot s)).
  rewrite (ok_manager _ _ Hok : manager s = _), (ok_journal _ _ Hok : journal s = _), <- run_snoc in H.
  eexists. rewrite H.
  apply view_ok_drop; [done|..].
  - intros st. destruct restore.
    + assert (v_active (view s) <> None) as Hva by (simpl; destruct (active_slot s); [done|naive_solver]).
      destruct (restore_candidate_ok _ _ Hok Hvc Hva) as [-> _]. by intros [= <-].
    + destruct (retire_candidate_ok _ _ Hok Hvc) as (t & Ht & -> & _).
      intros [= <-]. by destruct t.
  - destruct restore; intros Hva.
    + destruct (restore_candidate_ok _ _ Hok Hvc Hva) as [-> _]. done.
    + destruct (retire_candidate_ok _ _ Hok Hvc) as (t & Ht & _ & ->). intros Hl.
      pose proof (ok_fallback _ _ Hok Hva Hl) as Hact.
      destruct (ok_candidate _ _ Hok Hvc) as (st & Hst & _ & Hn). simplify_eq. naive_solver.
Qed.
End Operations.

(** ** Commands *)

Section Commands.
Context (uuid_at : nat -> string) (utc_at : nat -> DateTime) (cfg : LoopConfig).

Lemma load_candidate_view load s s' :
  load_candidate uuid_at utc_at load s = Ret s' ->
  view s' = {| v_active := v_active (view s); v_candidate := Some (artifact load);
    v_rollback := v_rollback (view s); v_stage := Some VerifiedOnly;
    v_manager := step (manager s) (OpLoad (artifact load));
    v_journal := journal s ++ [OpLoad (artifact load)] |} /\ sent s' = sent s.
Proof.
  unfold load_candidate. intros H. apply exec_bind_ret in H as (s1 & Hf & [= <-]).
  by apply finalize_slot_spec in Hf as (l & c & n & ->).
Qed.

(** A change of the controllers that keeps their artifacts. *)
Lemma update_all_view f s :
  (forall c, artifact (f c) = artifact c) -> view (update_all f s) = view s.
Proof.
  intros Hf. unfold view, update_all, update_slot. simpl. f_equal.
  - destruct (active_slot s); simpl; by rewrite ?Hf.
  - destruct (candidate_slot s); simpl; by rewrite ?Hf.
  - destruct (rollback_slot s); simpl; by rewrite ?Hf.
Qed.

Lemma process_inv cmd s s' :
  loop_inv s -> process uuid_at utc_at cfg cmd s = Ret s' -> loop_inv s' /\ sent s' = sent s.
Proof.
  intros Hi H. destruct cmd; simpl in H.
  - apply load_candidate_view in H as [Hv Hs]. split; [|done]. destruct Hi as [ops Hok].
    rewrite (ok_manager _ _ Hok : manager s = _), (ok_journal _ _ Hok : journal s = _), <- run_snoc in Hv.
    eexists. rewrite Hv. by apply view_ok_load.
  - injection H as <-. destruct (_ && _); [|done]. split; [|done].
    destruct Hi as [ops []]. exists ops. constructor; try done.
    simpl. intros st [= <-]. by left.
  - injection H as <-. split; [|done]. eapply inv_view; [|done]. by apply update_all_view.
  - injection H as <-. split; [|done]. eapply inv_view; [|done]. by apply update_all_view.
  - injection H as <-. split; [|done]. eapply inv_view; [|done]. by apply update_all_view.
Qed.

Lemma process_all_inv cmds : forall s s',
  loop_inv s -> process_all uuid_at utc_at cfg cmds s = Ret s' -> loop_inv s' /\ sent s' = sent s.
Proof.
  induction cmds as [|cmd cmds IH]; intros s s' Hi H; simpl in H; [by injection H as <-|].
  apply exec_bind_ret in H as (s1 & H1 & H2). apply process_inv in H1 as [Hi1 E1]; [|done].
  apply IH in H2 as [? E2]; [|done]. split; [done|congruence].
Qed.

Lemma begin_tick_inv env s s' :
  loop_inv s -> begin_tick uuid_at utc_at cfg env s = Ret s' -> loop_inv s' /\ sent s' = sent s.
Proof.
  unfold begin_tick, drain_commands. intros Hi H.
  apply exec_bind_ret in H as ([received s2] & H & [= <-]).
  apply exec_bind_ret in H as (s0 & H0 & H). apply exec_bind_ret in H as (s1 & H1 & H).
  injection H as <- <-.
  apply process_all_inv in H0 as [Hi0 E0]; [|done]. apply process_all_inv in H1 as [Hi1 E1]; [|done].
  rewrite <- E0, <- E1. unfold read_sensor. split.
  - eapply inv_view; [|exact Hi1]. by destruct (negb _), (env_sensor env).
  - by destruct (negb _), (env_sensor env).
Qed.
End Commands.

(** ** Staged promotion *)

(** The evidence a stage submits is of the stage's mode. *)
Lemma judged_mode c mode uuid now bundle c' :
  rotate_evidence c mode uuid now = Ret (bundle, c') ->
  ev_execution_mode (judge_stage_evidence bundle) = mode /\ artifact c' = artifact c.
Proof.
  unfold rotate_evidence, finalize_evidence_bundle, finalize_with_context. intros H.
  apply exec_bind_ret in H as (b & H & [= <- <-]).
  apply exec_bind_ret in H as ([[p50 p95] p99] & _ & [= <-]).
  unfold judge_stage_evidence. by repeat case_match.
Qed.

(** The lifecycle stage a mode of evidence promotes from. *)
Definition stage_of_mode (mode : ExecutionMode) : option DeploymentState :=
  match mode with
  | Verify => Some VerifiedOnly | ShadowMode => Some Shadow | CanaryMode => Some Canary
  | Live | Replay => None
  end.

Lemma stage_of_evidence_mode mode st0 st :
  stage_of_mode mode = Some st0 -> evidence_mode_for_state st = mode -> st = st0 /\ is_staging st0 = true.
Proof. destruct mode, st; naive_solver. Qed.

Section Promotion.
Context (uuid_at : nat -> string) (utc_at : nat -> DateTime) (cfg : LoopConfig).

Lemma submit_snoc ops ev r m : submit_evidence ev (run ops) = (r, m) -> m = run (ops ++ [OpSubmit ev]).
Proof. intros H. by rewrite run_snoc; simpl; rewrite H. Qed.

Lemma promote_to_snoc ops rd t r m :
  promote_to rd t (run ops) = (r, m) -> m = run (ops ++ [OpPromoteTo rd t]).
Proof. intros H. by rewrite run_snoc; simpl; rewrite H. Qed.

Lemma submit_stage_view c mode target s r s' :
  candidate_slot s = Some c ->
  submit_stage_evidence_and_promote uuid_at utc_at c mode target s = Ret (r, s') ->
  sent s' = sent s /\ shadow_ticks s' = shadow_ticks s /\ canary_ticks s' = canary_ticks s /\
  promotion_requested s' = promotion_requested s /\ active_slot s' = active_slot s /\
  (exists c', candidate_slot s' = Some c' /\ artifact c' = artifact c) /\
  exists ev, ev_execution_mode ev = mode /\
  view s' = {| v_active := v_active (view s); v_candidate := v_candidate (view s);
    v_rollback := v_rollback (view s); v_stage := v_stage (view s);
    v_manager := match submit_evidence ev (manager s) with
                 | (Err _, m) => m
                 | (Ok _, m) => snd (promote_to (runtime_digests_for_artifact (artifact c)) target m)
                 end;
    v_journal := journal s ++ OpSubmit ev ::
                 match submit_evidence ev (manager s) with
                 | (Err _, _) => []
                 | (Ok _, _) => [OpPromoteTo (runtime_digests_for_artifact (artifact c)) target]
                 end |} /\
  match r with
  | Ok tr => exists u m, submit_evidence ev (manager s) = (Ok u, m) /\
      promote_to (runtime_digests_for_artifact (artifact c)) target m = (Ok tr, manager s')
  | Err _ => manager s' = snd (submit_evidence ev (manager s))
  end.
Proof.
  intros Hc. unfold submit_stage_evidence_and_promote. intros H.
  apply exec_bind_ret in H as ([bundle c'] & Hr & H).
  destruct (judged_mode _ _ _ _ _ _ Hr) as [Hm Ha].
  set (ev := judge_stage_evidence bundle) in *. unfold view. rewrite Hc. simpl. simpl in H.
  assert (forall m tr m', promote_to (runtime_digests_for_artifact (artifact c)) target m = (Ok tr, m') ->
    to_state tr = target) as Ht.
  { intros m tr m' Hp. apply promote_to_ok in Hp as (? & ? & ? & ? & ? & ? & -> & _). done. }
  destruct (submit_evidence ev (manager s)) as [[u|e] m] eqn:Hs.
  1: destruct (promote_to _ target m) as [[tr|e] m'] eqn:Hp.
  all: injection H as <- <-; simpl; split_and!; try done; [by exists c'|];
    exists ev; rewrite Hs, ?Ha; try rewrite Ha in Hp; try rewrite Hp; split_and!; try done;
    try (by rewrite <- app_assoc).
  - rewrite bool_decide_true by eauto. by exists u, m.
  - by apply promote_to_err in Hp.
Qed.

Lemma submit_quiet ops ev :
  current_state (run (ops ++ [OpSubmit ev])) = current_state (run ops) /\
  current_artifact (run (ops ++ [OpSubmit ev])) = current_artifact (run ops) /\
  last_known_good (run (ops ++ [OpSubmit ev])) = last_known_good (run ops).
Proof.
  rewrite run_snoc. simpl. unfold submit_evidence.
  destruct (current_artifact (run ops)) eqn:Ha; [destruct (String.eqb _ _)|]; simpl; auto.
Qed.

Lemma submit_stage_refused c mode target s e s' :
  loop_inv s -> candidate_slot s = Some c ->
  submit_stage_evidence_and_promote uuid_at utc_at c mode target s = Ret (Err e, s') ->
  loop_inv s' /\ sent s' = sent s.
Proof.
  intros [ops Hok] Hc H. pose proof (ok_manager _ _ Hok : manager s = _) as Hm.
  pose proof (submit_stage_view _ _ _ _ _ _ Hc H) as (Hs & _ & _ & _ & _ & _ & ev & _ & Hv & Hr).
  split; [|done]. pose proof (f_equal v_manager Hv) as Hvm. cbn in Hvm, Hr.
  rewrite Hm in Hr, Hvm. rewrite (ok_journal _ _ Hok : journal s = _), Hm in Hv.
  pose proof (submit_quiet ops ev) as (? & ? & ?).
  destruct (submit_evidence ev (run ops)) as [[u|x] m] eqn:Hsub; cbn in Hr, Hvm;
    apply submit_snoc in Hsub as ->.
  - set (rd := runtime_digests_for_artifact _) in *.
    destruct (promote_to rd target (run (ops ++ [OpSubmit ev]))) as [y m'] eqn:Hp.
    apply promote_to_snoc in Hp as ->. cbn in Hv, Hvm. rewrite Hr in Hvm.
    exists ((ops ++ [OpSubmit ev]) ++ [OpPromoteTo rd target]).
    assert (view_ok (ops ++ [OpSubmit ev]) _) as Hq by (by apply view_ok_quiet; [exact Hok|..]).
    apply (view_ok_quiet _ (OpPromoteTo rd target)) in Hq; [|by rewrite <- Hvm..].
    rewrite Hv. rewrite <- app_assoc in Hq at 3. exact Hq.
  - exists (ops ++ [OpSubmit ev]). rewrite Hv. by apply view_ok_quiet.
Qed.

(** The promotion of the artifact [a] to [target], seen by the manager. *)
Record promotion (ops : list op) (from target : DeploymentState) (a : ControllerArtifact) (v : View)
    : Prop := {
  pr_journal : v_journal v = ops;
  pr_manager : v_manager v = run ops;
  pr_state : current_state (run ops) = Some target;
  pr_artifact : current_artifact (run ops) = Some a;
  pr_vetted : vetted ops target a;
  pr_edge : can_transition_to from target = true;
  pr_active : forall b, v_active v = Some b -> vetted_as ops Active b;
  pr_rollback : forall b, v_rollback v = Some b -> vetted_as ops Active b;
  pr_fallback : v_active v <> None -> last_known_good (run ops) <> None;
}.

Lemma submit_stage_accepted c mode from target s tr s' :
  loop_inv s -> candidate_slot s = Some c -> stage_of_mode mode = Some from ->
  submit_stage_evidence_and_promote uuid_at utc_at c mode target s = Ret (Ok tr, s') ->
  to_state tr = target /\ sent s' = sent s /\ active_slot s' = active_slot s /\
  (exists c', candidate_slot s' = Some c' /\ artifact c' = artifact c) /\
  exists ops, promotion ops from target (artifact c) (view s').
Proof.
  intros [ops Hok] Hc Hmode H. pose proof (ok_manager _ _ Hok : manager s = _) as Hm.
  pose proof (submit_stage_view _ _ _ _ _ _ Hc H) as (Hs & _ & _ & _ & Ha & Hc' & ev & Hev & Hv & u & m & Hsub & Hp).
  rewrite Hm in Hsub. pose proof (submit_snoc _ _ _ _ Hsub) as ->.
  assert (evidence (run (ops ++ [OpSubmit ev])) = Some ev) as Hevd.
  { rewrite run_snoc. simpl. rewrite Hsub. simpl. unfold submit_evidence in Hsub.
    destruct (current_artifact (run ops)); [|done]. destruct (String.eqb _ _); [|done].
    by injection Hsub as _ <-. }
  destruct (submit_quiet ops ev) as (Hq1 & Hq2 & Hq3).
  pose proof (promote_to_snoc _ _ _ _ _ Hp) as Hrun. set (rd := runtime_digests_for_artifact _) in *.
  apply promote_to_ok in Hp as (a & ev' & Hart & Hev' & G & Hedge & -> & Hms).
  rewrite Hevd in Hev'. injection Hev' as <-.
  pose proof (gp_mode _ _ _ _ G) as Hgm. rewrite Hev in Hgm. symmetry in Hgm.
  apply (stage_of_evidence_mode _ _ _ Hmode) in Hgm as [Hfrom Hstaging].
  assert (current_state (run ops) = Some from) as Hst.
  { rewrite Hq1 in Hfrom. destruct (current_state (run ops)) eqn:E; [simpl in Hfrom; congruence|].
    destruct (wf_run ops) as [Hwf _]. rewrite Hq2 in Hart. naive_solver. }
  destruct (ok_staged _ _ Hok _ Hst Hstaging) as (a' & Hca & Haa).
  rewrite Hq2 in Hart. simpl in Hca. rewrite Hc in Hca. simplify_eq/=.
  split_and!; try done.
  exists ((ops ++ [OpSubmit ev]) ++ [OpPromoteTo rd target]).
  change (manager s') with (v_manager (view s')) in Hrun.
  pose proof (f_equal v_active Hv) as Hva. pose proof (f_equal v_rollback Hv) as Hvr. cbn in Hva, Hvr.
  constructor; try done.
  - pose proof (f_equal v_journal Hv) as Hvj. cbn in Hvj. cbn. rewrite Hvj, Hm, Hsub.
    by rewrite (ok_journal _ _ Hok : journal s = _), <- app_assoc.
  - rewrite <- Hrun. simpl. by rewrite Hms.
  - rewrite <- Hrun. simpl. by rewrite Hms.
  - exists (ops ++ [OpSubmit ev]), (OpPromoteTo rd target), [], rd, ev.
    split_and!; try done. { rewrite Hq2. done. }
    destruct (wf_run (ops ++ [OpSubmit ev])) as [_ Hwe]. destruct (Hwe _ Hevd) as (a2 & Ha2 & ->).
    rewrite Hq2 in Ha2. congruence.
  - intros b Hb. do 2 apply vetted_as_snoc. apply (ok_active _ _ Hok). simpl in *. congruence.
  - intros b Hb. do 2 apply vetted_as_snoc. apply (ok_rollback _ _ Hok). simpl in *. congruence.
  - rewrite <- Hrun. simpl. rewrite Hms, Hq3. simpl. intros Hact Hnone.
    
    assert (v_active (view s) <> None) as Hact' by (simpl in *; congruence).
    pose proof (ok_fallback _ _ Hok Hact' Hnone) as Hl. rewrite Hst in Hl. injection Hl as Hl.
    by rewrite Hl in Hstaging.
Qed.
End Promotion.

(** ** Advancing the candidate *)

Section Advance.
Context (uuid_at : nat -> string) (utc_at : nat -> DateTime) (cfg : LoopConfig).

Lemma promote_active_view c s s' :
  candidate_slot s = Some c -> promote_candidate_to_active uuid_at utc_at s = Ret s' ->
  sent s' = sent s /\ v_manager (view s') = manager s /\
  v_journal (view s') = journal s /\ v_candidate (view s') = None /\
  v_stage (view s') = None /\
  (exists t, v_active (view s') = Some (set_promoted_at t (artifact c))) /\
  (v_rollback (view s') = v_active (view s) \/
   v_active (view s) = None /\ v_rollback (view s') = v_rollback (view s)) /\
  active_slot s' <> None /\ candidate_slot s' = None.
Proof.
  unfold promote_candidate_to_active. intros Hc. rewrite Hc. simpl. intros H.
  apply exec_bind_ret in H as (s1 & H1 & [= <-]).
  destruct (active_slot s) as [a|] eqn:Ha.
  - apply exec_bind_ret in H1 as (s2 & H2 & [= <-]).
    apply finalize_slot_spec in H2 as (l & cd & n & ->). simpl. rewrite ?Ha. simpl.
    split_and!; eauto.
  - injection H1 as <-. simpl. rewrite ?Ha. split_and!; eauto.
Qed.

Lemma promotion_active_inv ops from c s s' :
  promotion ops from Active (artifact c) (view s) -> candidate_slot s = Some c ->
  promote_candidate_to_active uuid_at utc_at s = Ret s' -> loop_inv s' /\ sent s' = sent s.
Proof.
  intros [] Hc H. apply promote_active_view with (c := c) in H
    as (Hs & Hm & Hj & Hvc & Hvs & (t & Hva) & Hvr & _); [|done].
  split; [|done]. exists ops. constructor; rewrite ?Hm, ?Hj, ?Hvc, ?Hvs; try done.
  - intros st Hst. rewrite pr_state0 in Hst. by injection Hst as <-.
  - rewrite Hva. intros b [= <-]. exists (artifact c). eauto.
  - intros b Hb. destruct Hvr as [Hvr|[_ Hvr]]; rewrite Hvr in Hb; eauto.
Qed.

(** A candidate that reached a stage short of active. *)
Lemma promotion_stage_inv ops from target c s :
  promotion ops from target (artifact c) (view s) -> candidate_slot s = Some c ->
  is_staging target = true -> candidate_state s = Some target -> loop_inv s.
Proof.
  intros [] Hc Hst Hcs. exists ops. constructor; try done.
  - intros st _ _. exists (artifact c). simpl. by rewrite Hc.
  - simpl. rewrite Hcs. intros st [= <-]. right. done.
  - intros _. exists target. split_and!; [done|by destruct target|by intros ->].
  - intros Ha Hl. by destruct (pr_fallback0 Ha).
Qed.

Lemma reject_sent reason restore s s' :
  reject_candidate uuid_at utc_at reason restore s = Ret s' ->
  sent s' = sent s /\ candidate_slot s' = None /\ candidate_state s' = None /\
  active_slot s' = active_slot s.
Proof.
  unfold reject_candidate. intros H. apply exec_bind_ret in H as (s1 & Hf & H).
  apply finalize_slot_spec in Hf as (l & c & n & ->).
  destruct (if restore then _ else _) as [r m]. injection H as <-.
  destruct r as [o|e]; [destruct (restored_controller_id o)|]; done.
Qed.

Lemma reject_stage_inv stage e s s' :
  loop_inv s -> candidate_slot s <> None -> reject_stage uuid_at utc_at stage e s = Ret s' ->
  loop_inv s' /\ sent s' = sent s.
Proof.
  unfold reject_stage. intros Hi Hc H. split; [|by eapply reject_sent].
  eapply reject_candidate_inv; [exact Hi|done| |exact H].
  rewrite bool_decide_eq_true. by intros [x ->].
Qed.

(** The refusal and the success of a stage's promotion, with what follows either. *)
Lemma advance_stage_inv c mode from target stage (k : LifecycleTransition -> LoopState -> exec LoopState) s s' :
  loop_inv s -> candidate_slot s = Some c -> stage_of_mode mode = Some from ->
  (forall tr s1 c1 ops, to_state tr = target -> candidate_slot s1 = Some c1 ->
     promotion ops from target (artifact c1) (view s1) -> k tr s1 = Ret s' ->
     loop_inv s' /\ sent s' = sent s1) ->
  (let! (r, s) := submit_stage_evidence_and_promote uuid_at utc_at c mode target s in
   match r with
   | Err error => reject_stage uuid_at utc_at stage error s
   | Ok tr => k tr s
   end) = Ret s' ->
  loop_inv s' /\ sent s' = sent s.
Proof.
  intros Hi Hc Hmode Hk H. apply exec_bind_ret in H as ([[tr|e] s1] & Hsub & H).
  - pose proof Hsub as Hsub'.
    apply submit_stage_accepted with (from := from) in Hsub as (Htr & Hs & _ & (c' & Hc' & Ha) & ops & Hp);
      [|done..].
    rewrite <- Ha in Hp. rewrite <- Hs. by eapply Hk.
  - pose proof (submit_stage_view _ _ _ _ _ _ _ _ Hc Hsub) as (_ & _ & _ & _ & _ & (c' & Hc' & _) & _).
    apply submit_stage_refused in Hsub as [Hi1 Hs]; [|done..]. rewrite <- Hs.
    eapply reject_stage_inv; [exact Hi1|by rewrite Hc'|exact H].
Qed.

Lemma promotion_view ops from target a v v' :
  promotion ops from target a v -> v_manager v' = v_manager v -> v_journal v' = v_journal v -> v_active v' = v_active v ->
  v_rollback v' = v_rollback v -> promotion ops from target a v'.
Proof. intros [] Hm Hj Ha Hr. constructor; rewrite ?Hm, ?Hj, ?Ha, ?Hr; done. Qed.

Lemma next_target_not_rejected st : next_target (policy cfg) st <> Some Rejected.
Proof. unfold next_target. destruct st; by repeat case_match. Qed.

Lemma advance_inv ticked counts s s' :
  loop_inv s -> advance_candidate_stage uuid_at utc_at cfg ticked counts s = Ret s' ->
  loop_inv s' /\ sent s' = sent s.
Proof.
  unfold advance_candidate_stage. intros Hi H.
  destruct (_ || _); [by injection H as <-|].
  destruct (candidate_state s) as [st|] eqn:Hst; [|by injection H as <-].
  assert (loop_inv (set_promotion_requested false s)) as Hq by (by apply (inv_view s)).
  destruct (candidate_slot s) as [c|] eqn:Hc; [|by injection H as <-].
  destruct (next_target _ _) as [target|] eqn:Ht; [|by injection H as <-].
  destruct st; try (by injection H as <-).
  - eapply (advance_stage_inv c Verify VerifiedOnly target); [done|done|done| |exact H]. simpl.
    intros tr s1 c1 ops -> Hc1 Hp Hk. pose proof (pr_edge _ _ _ _ _ Hp) as He.
    destruct target; try done; try (by destruct (next_target_not_rejected VerifiedOnly));
      injection Hk as <-; (split; [|done]);
      (eapply (promotion_stage_inv ops _ _ c1); [by eapply promotion_view|done..]).
  - unfold advance_shadow in H. apply exec_bind_ret in H as (n & _ & H).
    assert (loop_inv (set_shadow_ticks n s)) as Hi1 by (by apply (inv_view s)).
    destruct (n <? _); [by injection H as <-|].
    change (sent s) with (sent (set_shadow_ticks n s)).
    eapply (advance_stage_inv c ShadowMode Shadow target); [exact Hi1|done|done| |exact H]. simpl.
    intros tr s1 c1 ops -> Hc1 Hp Hk. pose proof (pr_edge _ _ _ _ _ Hp) as He.
    destruct target; try done.
    + injection Hk as <-. split; [|done]. 
      eapply (promotion_stage_inv ops _ _ c1); [by eapply promotion_view|done..].
    + eapply (promotion_active_inv _ _ c1) in Hk as [? ?]; [|by eapply promotion_view|done]. done.
    + by destruct (next_target_not_rejected Shadow).
  - unfold advance_canary in H. destruct (negb counts).
    { injection H as <-. split; [|done]. by apply (inv_view s). }
    apply exec_bind_ret in H as (n & _ & H).
    assert (loop_inv (set_canary_ticks n s)) as Hi1 by (by apply (inv_view s)).
    destruct (n <? _); [by injection H as <-|].
    assert (target = Active) as -> by (unfold next_target in Ht; destruct (negb _); congruence).
    change (sent s) with (sent (set_canary_ticks n s)).
    eapply (advance_stage_inv c CanaryMode Canary Active); [exact Hi1|done|done| |exact H]. simpl.
    intros tr s1 c1 ops Htr Hc1 Hp Hk.
    eapply (promotion_active_inv _ _ c1) in Hk as [? ?]; [|by eapply promotion_view|done]. done.
Qed.
End Advance.

(** ** The blocks of a turn *)

Lemma tick_controller_artifact c ps vs w g c' res :
  tick_controller c ps vs w g = Ret (c', res) ->
  artifact c' = artifact c /\ running c' = running c /\
  command_limit_spans c' = command_limit_spans c.
Proof.
  unfold tick_controller. destruct (tick_with_contract _ _) as [[out|msg] h]; intros H.
  - apply exec_bind_ret in H as ([f fr] & _ & H). apply exec_bind_ret in H as (e & _ & H).
    repeat case_match; by injection H as <- <-.
  - apply exec_bind_ret in H as (e & _ & [= <- <-]). done.
Qed.

Lemma tick_slot_artifact c g s c' res :
  tick_slot c g s = Ret (c', res) ->
  artifact c' = artifact c /\ running c' = running c && negb (halted res) /\
  command_limit_spans c' = command_limit_spans c.
Proof.
  unfold tick_slot. intros H. apply exec_bind_ret in H as ([c1 r] & H1 & [= <- <-]).
  apply tick_controller_artifact in H1 as (? & Hr & ?).
  destruct (halted r); simpl; rewrite ?andb_false_r, ?andb_true_r; done.
Qed.

(** A tick gives a command or halts, never both. *)
Lemma tick_slot_halted c g s c' res :
  tick_slot c g s = Ret (c', res) -> halted res = true ->
  command res = None /\ result_estop_reason res <> None.
Proof.
  unfold tick_slot, tick_controller. intros H.
  apply exec_bind_ret in H as ([c1 r] & H1 & [= <- <-]).
  destruct (tick_with_contract _ _) as [[out|msg] h].
  - apply exec_bind_ret in H1 as ([f fr] & _ & H1). apply exec_bind_ret in H1 as (e & _ & H1).
    repeat case_match; by injection H1 as <- <-.
  - by apply exec_bind_ret in H1 as (e & _ & [= <- <-]).
Qed.

Definition is_stop_frame (f : CommandFrame) : Prop := exists n, (6 <= n)%nat /\ f = frame_zero n.

Lemma stop_frame_is_stop s : is_stop_frame (stop_frame s).
Proof. eexists. split; [|done]. lia. Qed.

Section Turn.
Context (uuid_at : nat -> string) (utc_at : nat -> DateTime) (cfg : LoopConfig).

(** [s'] sends only stop frames more than [s]. *)
Definition only_stops (s s' : LoopState) : Prop :=
  exists fs, sent s' = sent s ++ fs /\ Forall is_stop_frame fs.

Lemma only_stops_refl s s' : sent s' = sent s -> only_stops s s'.
Proof. exists []. by rewrite app_nil_r. Qed.

Lemma only_stops_trans s1 s2 s3 : only_stops s1 s2 -> only_stops s2 s3 -> only_stops s1 s3.
Proof.
  intros (f1 & E1 & H1) (f2 & E2 & H2). exists (f1 ++ f2).
  rewrite E2, E1, app_assoc. by rewrite Forall_app.
Qed.

Lemma actuate_stop (b : bool) s s1 :
  sent s1 = sent s -> only_stops s (actuate b (stop_frame s1) s1).
Proof.
  intros E. destruct b; [|by apply only_stops_refl].
  exists [stop_frame s1]. simpl. rewrite E. split; [done|]. repeat constructor. apply stop_frame_is_stop.
Qed.

Lemma actuate_view (b : bool) f s : view (actuate b f s) = view s.
Proof. by destruct b. Qed.

Lemma update_candidate_view f s :
  (forall c, artifact (f c) = artifact c) -> view (set_candidate_slot (f <$> candidate_slot s) s) = view s.
Proof. intros Hf. unfold view. simpl. destruct (candidate_slot s); simpl; by rewrite ?Hf. Qed.

Lemma tick_active_spec env s res s' :
  tick_active env s = Ret (res, s') ->
  view s' = view s /\ sent s' = sent s /\ candidate_slot s' = candidate_slot s /\
  sensed s' = sensed s /\
  (res = no_result /\ slot_running (active_slot s) = false /\ s' = s \/
   exists c c', active_slot s = Some c /\ running c = true /\
     tick_slot c (env_active env) s = Ret (c', res) /\ active_slot s' = Some c').
Proof.
  unfold tick_active. destruct (active_slot s) as [c|] eqn:Ha.
  - destruct (running c) eqn:Hr.
    + intros H. apply exec_bind_ret in H as ([c' r] & Ht & [= <- <-]).
      unfold view. simpl. rewrite Ha. destruct (tick_slot_artifact _ _ _ _ _ Ht) as (E & _).
      simpl. rewrite E. split_and!; eauto 10.
    + intros [= <- <-]. rewrite Ha. simpl. split_and!; eauto.
  - intros [= <- <-]. rewrite Ha. split_and!; eauto.
Qed.

Lemma restore_controller_view s r s' :
  restore_last_known_good_controller uuid_at utc_at s = Ret (r, s') ->
  sent s' = sent s /\ candidate_slot s' = candidate_slot s /\ candidate_state s' = candidate_state s /\
  sensed s' = sensed s /\
  match r with
  | Err _ => v_active (view s') = None /\ manager s' = manager s /\
      (journal s' = journal s \/
       journal s' = journal s ++ [OpRestoreActive] /\ step (manager s) OpRestoreActive = manager s) /\
      (v_rollback (view s') = v_rollback (view s) \/ v_rollback (view s') = None)
  | Ok _ => v_active (view s') = v_rollback (view s) /\ v_active (view s') <> None /\
      v_rollback (view s') = None /\ slot_running (active_slot s') = true /\
      journal s' = journal s ++ [OpRestoreActive] /\
      exists o, restore_last_known_good_active (manager s) = (Ok o, manager s')
  end.
Proof.
  unfold restore_last_known_good_controller. intros H.
  apply exec_bind_ret in H as (s1 & Hf & H). apply finalize_slot_spec in Hf as (l & c & n & ->).
  simpl in H. destruct (rollback_slot s) as [rb|] eqn:Hrb.
  2: { injection H as <- <-. simpl. rewrite ?Hrb. split_and!; eauto. }
  destruct (restore_last_known_good_active (manager s)) as [[o|e] m] eqn:Hm; injection H as <- <-.
  - simpl. rewrite ?Hrb. split_and!; eauto.
  - assert (m = manager s) as -> by (eapply restore_err_unchanged; eauto).
    simpl. rewrite Hm. split_and!; eauto.
Qed.

Lemma restore_manager ops o m :
  restore_last_known_good_active (run ops) = (Ok o, m) ->
  m = run (ops ++ [OpRestoreActive]) /\ current_state m = Some Active /\
  last_known_good m = last_known_good (run ops) /\ last_known_good (run ops) <> None.
Proof.
  intros H. pose proof (restore_ok_snoc _ _ _ H) as Hm. split; [done|].
  apply restore_active_ok in H as (a & lkg & st & _ & Hl & _ & _ & E).
  rewrite E. simpl. rewrite Hl. split_and!; congruence.
Qed.

(** The active controller is gone and the manager refused to restore another. *)
Lemma restore_refused_inv s s' :
  loop_inv s -> v_active (view s') = None -> v_candidate (view s') = v_candidate (view s) ->
  v_stage (view s') = v_stage (view s) -> manager s' = manager s ->
  journal s' = journal s \/
    journal s' = journal s ++ [OpRestoreActive] /\ step (manager s) OpRestoreActive = manager s ->
  v_rollback (view s') = v_rollback (view s) \/ v_rollback (view s') = None ->
  loop_inv s'.
Proof.
  intros [ops Hok] Ha Hc Hs Hm Hj Hr.
  assert (exists ops', journal s' = ops' /\ manager s' = run ops' /\ run ops' = run ops /\
    forall st b, vetted_as ops st b -> vetted_as ops' st b) as (ops' & Hj' & Hm' & E & Hv).
  { pose proof (ok_manager _ _ Hok : manager s = _) as Hms.
    destruct Hj as [Hj|[Hj Hst]]; rewrite (ok_journal _ _ Hok : journal s = _) in Hj.
    - exists ops. by rewrite Hm.
    - exists (ops ++ [OpRestoreActive]). rewrite run_snoc, <- Hms, Hst. split_and!; eauto with roz. }
  exists ops'. destruct Hok. constructor; rewrite ?E; rewrite ?Hc, ?Hs; try done.
  - by rewrite <- E.
  - intros b Hb. by rewrite Ha in Hb.
  - intros b Hb. destruct Hr as [Hr|Hr]; rewrite Hr in Hb; [by apply Hv, ok_rollback0|done].
Qed.

Lemma recover_inv res s s' :
  loop_inv s -> recover_active uuid_at utc_at cfg res s = Ret s' ->
  loop_inv s' /\ only_stops s s' /\ sensed s' = sensed s /\
  (forall st, candidate_state s' = Some st -> candidate_state s = Some st /\
     (slot_running (candidate_slot s') = true -> candidate_slot s' = candidate_slot s)).
Proof.
  unfold recover_active. intros Hi H.
  assert (only_stops s s) as Hos by (by apply only_stops_refl).
  destruct (halted res); [|by injection H as <-].
  destruct (result_estop_reason res) as [reason|]; [|by injection H as <-].
  apply exec_bind_ret in H as ([[o|e] s1] & Hres & H); injection H as <-.
  - apply restore_controller_view in Hres as (Hs & Hc & Hcs & Hse & Ha & Hn & Hr & Hrun & Hj & (o' & Hm)).
    split_and!.
    + destruct Hi as [ops Hok]. rewrite (ok_manager _ _ Hok : manager s = _) in Hm.
      apply restore_manager in Hm as (Hm & Hst & Hl & Hl'). exists (ops ++ [OpRestoreActive]).
      rewrite actuate_view. rewrite Hm in Hst, Hl. simpl in Ha, Hn, Hr. constructor; simpl.
      * by rewrite Hj, (ok_journal _ _ Hok : journal s = _).
      * done.
      * intros st Hst'. rewrite Hst in Hst'. by injection Hst' as <-.
      * done.
      * intros _. exists Active. by rewrite Hl.
      * intros b Hb. apply vetted_as_snoc. apply (ok_rollback _ _ Hok). simpl. congruence.
      * done.
      * intros b Hb. by rewrite Hr in Hb.
    + eapply only_stops_trans; [apply only_stops_refl|by apply actuate_stop]. done.
    + by destruct (has_actuator cfg).
    + by destruct (has_actuator cfg).
  - apply restore_controller_view in Hres as (Hs & Hc & Hcs & Hse & Ha & Hm & Hj & Hr).
    split_and!.
    + apply (restore_refused_inv s s1) in Hi; [|first [done|by unfold view; simpl; rewrite ?Hc, ?Hcs]..].
      apply (inv_view s1); [by rewrite update_candidate_view, actuate_view by done|done].
    + eapply only_stops_trans; [|by apply only_stops_refl]. by apply actuate_stop.
    + by destruct (has_actuator cfg).
    + intros st. destruct (has_actuator cfg); simpl; rewrite Hcs, Hc; intros ->; (split; [done|]);
        destruct (candidate_slot s); done.
Qed.

Lemma tick_candidate_spec env acmd s ct s' :
  tick_candidate cfg env acmd s = Ret (ct, s') ->
  view s' = view s /\ sent s' = sent s /\ active_slot s' = active_slot s /\
  (candidate_failure ct = None /\ ct = no_candidate_tick /\ slot_running (candidate_slot s') = false \/
   exists c c', candidate_slot s = Some c /\ running c = true /\
     tick_slot c (env_candidate env) s = Ret (c', candidate_result ct) /\ candidate_slot s' = Some c' /\
     forall f, candidate_failure ct = Some f -> keeps_active f = slot_running (active_slot s)).
Proof.
  unfold tick_candidate. destruct (candidate_slot s) as [c|] eqn:Hc.
  - destruct (running c) eqn:Hr.
    + intros H. apply exec_bind_ret in H as ([c' r] & Ht & [= <- <-]).
      unfold view. simpl. rewrite ?Hc. destruct (tick_slot_artifact _ _ _ _ _ Ht) as (E & _).
      simpl. rewrite E. split_and!; try done. right. exists c, c'. split_and!; try done.
      intros f. unfold judge_candidate. intros Hf. repeat case_match; by simplify_eq/=.
    + intros [= <- <-]. rewrite ?Hc. simpl. split_and!; try done. left. by rewrite ?Hc.
  - intros [= <- <-]. rewrite ?Hc. split_and!; try done. left. by rewrite ?Hc.
Qed.

Lemma fail_candidate_inv reason (keep : bool) s s' :
  loop_inv s -> candidate_slot s <> None -> (keep = true -> active_slot s <> None) ->
  fail_candidate uuid_at utc_at cfg reason keep s = Ret s' ->
  loop_inv s' /\ only_stops s s' /\ candidate_slot s' = None /\ candidate_state s' = None /\
  active_slot s' = active_slot s.
Proof.
  unfold fail_candidate. intros Hi Hc Hk H. destruct keep.
  - destruct (reject_sent _ _ _ _ _ _ H) as (Hs & Hn & Hst & Ha).
    split_and!; [|by apply only_stops_refl|done..]. by eapply reject_candidate_inv.
  - apply exec_bind_ret in H as (s1 & H & [= <-]).
    destruct (reject_sent _ _ _ _ _ _ H) as (Hs & Hn & Hst & Ha).
    split_and!.
    + apply (inv_view s1); [apply actuate_view|].
      eapply (reject_candidate_inv _ _ _ _ (set_estop_reason (Some reason) (notify reason s)));
        [by apply (inv_view s)|exact Hc|done|exact H].
    + apply actuate_stop. by rewrite Hs.
    + by destruct (has_actuator cfg).
    + by destruct (has_actuator cfg).
    + by destruct (has_actuator cfg).
Qed.

(** After the failure of a candidate, if any: the candidate is as before, or gone. *)
Lemma settle_inv f s s' :
  loop_inv s -> (forall f', f = Some f' -> candidate_slot s <> None /\
     (keeps_active f' = true -> active_slot s <> None)) ->
  settle_candidate uuid_at utc_at cfg f s = Ret s' ->
  loop_inv s' /\ only_stops s s' /\ active_slot s' = active_slot s /\
  (s' = s \/ candidate_slot s' = None).
Proof.
  unfold settle_candidate. intros Hi Hf H. destruct f as [f|].
  - destruct (Hf f eq_refl) as [Hc Hk].
    apply fail_candidate_inv in H as (? & ? & ? & _ & ?); auto.
  - injection H as <-. split_and!; [done|by apply only_stops_refl|done|by left].
Qed.

Lemma candidate_is_canary_true s :
  candidate_is_canary s = true <->
  candidate_state s = Some Canary /\ exists c, candidate_slot s = Some c /\ running c = true.
Proof.
  unfold candidate_is_canary. rewrite andb_true_iff, bool_decide_eq_true.
  destruct (candidate_slot s); simpl; naive_solver.
Qed.

Lemma charge_inv (fallback bounded : bool) cmd s cmd' s' :
  loop_inv s -> (fallback = true -> active_slot s <> None) ->
  charge_canary uuid_at utc_at cfg fallback bounded cmd s = Ret (cmd', s') ->
  loop_inv s' /\ only_stops s s' /\
  (cmd' = cmd /\ candidate_is_canary s' = candidate_is_canary s \/
   cmd' = None /\ candidate_is_canary s' = false).
Proof.
  unfold charge_canary. intros Hi Hf H. destruct (candidate_is_canary s) eqn:Hcan; simpl in H.
  2: { injection H as <- <-. split_and!; [done|by apply only_stops_refl|by left]. }
  destruct bounded.
  2: { injection H as <- <-. split_and!; [done|by apply only_stops_refl|by left]. }
  apply exec_bind_ret in H as (n & _ & H).
  assert (loop_inv (set_bounded_canary_ticks n s)) as Hi' by (by apply (inv_view s)).
  destruct (_ <? n).
  - apply exec_bind_ret in H as (s1 & H & [= <- <-]).
    apply candidate_is_canary_true in Hcan as (Hst & c & Hc & Hr).
    apply fail_candidate_inv in H as (? & ? & Hn & Hst' & _); [|done|simpl; by rewrite Hc|done].
    split_and!; [done|done|right]. split; [done|]. unfold candidate_is_canary. by rewrite Hst'.
  - injection H as <- <-. split_and!; [done|by apply only_stops_refl|left; done].
Qed.

(** ** Where the frames of a turn come from *)

(** The frame the canary envelope makes of the candidate's command. *)
Definition canary_frame (active_cmd : option CommandFrame) (cmd : CommandFrame) (spans : list f64)
    (f : CommandFrame) : Prop :=
  exists r, bound_canary_command active_cmd cmd spans (canary_max_command_delta (policy cfg)) = Ret r /\
    f = match r with Ok b => b | Err _ => default cmd active_cmd end.

(** The possible origins of a frame sent in a turn that starts in [s] with the history [ops]
    of the manager: a stop frame; the command of the active controller, promoted through
    the gates; the command of a candidate promoted to the canary stage, in the envelope
    around what the active controller commands. *)
Inductive frame_origin (env : TickEnv) (ops : list op) (s : LoopState) (f : CommandFrame) : Prop :=
| StopOrigin : is_stop_frame f -> frame_origin env ops s f
| ActiveOrigin c c' res :
    active_slot s = Some c -> running c = true -> vetted_as ops Active (artifact c) ->
    tick_slot c (env_active env) s = Ret (c', res) -> command res = Some f ->
    frame_origin env ops s f
| CanaryOrigin c c' res ares s1 cmd :
    candidate_slot s = Some c -> running c = true -> candidate_state s = Some Canary ->
    vetted ops Canary (artifact c) ->
    tick_slot c (env_candidate env) s = Ret (c', res) -> command res = Some cmd ->
    tick_active env s = Ret (ares, s1) ->
    canary_frame (command ares) cmd (command_limit_spans c) f ->
    frame_origin env ops s f.

Lemma tick_slot_sensed c g s s' : sensed s' = sensed s -> tick_slot c g s' = tick_slot c g s.
Proof. unfold tick_slot. by intros ->. Qed.

Lemma canary_vetted ops s :
  view_ok ops (view s) -> candidate_state s = Some Canary ->
  exists c, candidate_slot s = Some c /\ vetted ops Canary (artifact c).
Proof.
  intros Hok Hst. destruct (ok_stage _ _ Hok Canary Hst) as [|[_ Hcur]]; [done|].
  destruct (ok_staged _ _ Hok Canary Hcur eq_refl) as (a & Ha & Hart). simpl in Ha.
  destruct (candidate_slot s) as [c|]; simplify_eq/=. exists c. split; [done|].
  by apply (proj1 (actuating_vetted ops)).
Qed.

Lemma bound_canary_frame acmd ccmd s b f :
  bound_canary cfg acmd ccmd s = Ret (b, Some f) ->
  candidate_is_canary s = true /\
  exists c cmd, candidate_slot s = Some c /\ ccmd = Some cmd /\
    canary_frame acmd cmd (command_limit_spans c) f.
Proof.
  unfold bound_canary. destruct (candidate_is_canary s) eqn:Hc; [|done].
  destruct ccmd as [cmd|]; [|done]. intros H. split; [done|].
  apply candidate_is_canary_true in Hc as (_ & c & Hc & _).
  apply exec_bind_ret in H as ([b1 f1] & H & [= <- <-]).
  unfold canary_command in H. rewrite Hc in H.
  apply exec_bind_ret in H as (r & Hr & H). exists c, cmd. split_and!; try done.
  exists r. split; [done|]. destruct r; by injection H as <- <-.
Qed.

(** The frame a turn sends after its blocks, if it sends one. *)
Lemma send_command_sent fr s s0 :
  only_stops s0 s ->
  exists fs, sent (send_command cfg fr s) = sent s0 ++ fs /\
    Forall (fun f => is_stop_frame f \/ fr = Some f) fs.
Proof.
  intros (fs & E & Hfs).
  assert (Forall (fun f => is_stop_frame f \/ fr = Some f) fs) as Hfs'.
  { eapply Forall_impl; [exact Hfs|]. naive_solver. }
  unfold send_command. destruct fr as [f|]; [|by exists fs].
  destruct (has_actuator cfg); simpl; [|by exists fs].
  exists (fs ++ [f]). rewrite E, app_assoc. split; [done|]. apply Forall_app. split; [done|].
  apply Forall_singleton. by right.
Qed.

Lemma next_tick_inv s s' : next_tick s = Ret s' -> view s' = view s /\ sent s' = sent s.
Proof. unfold next_tick. intros H. by apply exec_bind_ret in H as (n & _ & [= <-]). Qed.

Lemma active_origin env ops s s1 ares f :
  view_ok ops (view s) -> tick_active env s = Ret (ares, s1) -> command ares = Some f ->
  frame_origin env ops s f.
Proof.
  intros Hok H Hf. destruct (tick_active_spec _ _ _ _ H) as (_ & _ & _ & _ & [(-> & _)|(c & c' & Ha & Hr & Ht & _)]);
    [done|].
  eapply ActiveOrigin; eauto. apply (ok_active _ _ Hok). simpl. by rewrite Ha.
Qed.

(** From the blocks of a turn: the canary's frame is that of the candidate of its start. *)
Lemma canary_origin env ops s s1 s2 s3 ares ct bounded f :
  view_ok ops (view s) -> tick_active env s = Ret (ares, s1) ->
  recover_active uuid_at utc_at cfg ares s1 = Ret s2 ->
  tick_candidate cfg env (command ares) s2 = Ret (ct, s3) ->
  bound_canary cfg (command ares) (command (candidate_result ct)) s3 = Ret (bounded, Some f) ->
  frame_origin env ops s f.
Proof.
  intros Hok Hact Hrec Hcand Hb.
  destruct (tick_active_spec _ _ _ _ Hact) as (Hv1 & Hs1 & Hcs1 & Hse1 & _).
  assert (loop_inv s1) as Hi1 by (apply (inv_view s); [done|by exists ops]).
  destruct (recover_inv _ _ _ Hi1 Hrec) as (_ & _ & Hse2 & Hcan2).
  destruct (tick_candidate_spec _ _ _ _ _ Hcand) as (Hv3 & _ & _ & Hct).
  apply bound_canary_frame in Hb as (Hcan & c3 & cmd & Hc3 & Hcmd & Hfr).
  apply candidate_is_canary_true in Hcan as (Hst & c3' & Hc3' & Hr3).
  rewrite Hc3 in Hc3'. injection Hc3' as <-.
  destruct Hct as [(_ & _ & Hn)|(c & c' & Hc & Hr & Ht & Hc' & _)]; 
    [by rewrite Hc3 in Hn; simpl in Hn; rewrite Hr3 in Hn|].
  rewrite Hc' in Hc3. injection Hc3 as ->.
  pose proof (f_equal v_stage Hv3) as Hst2. simpl in Hst2. rewrite Hst in Hst2. symmetry in Hst2.
  destruct (Hcan2 _ Hst2) as [Hst1 Hsame].
  rewrite Hc in Hsame. simpl in Hsame. specialize (Hsame Hr). rewrite Hcs1 in Hsame. symmetry in Hsame.
  pose proof (f_equal v_stage Hv1) as Hst0. simpl in Hst0. rewrite Hst1 in Hst0. symmetry in Hst0.
  destruct (canary_vetted _ _ Hok Hst0) as (c0 & Hc0 & Hv). rewrite Hsame in Hc0. injection Hc0 as <-.
  rewrite (tick_slot_sensed _ _ s s2) in Ht by congruence.
  destruct (tick_slot_artifact _ _ _ _ _ Ht) as (_ & _ & Hsp). rewrite Hsp in Hfr.
  eapply CanaryOrigin; eauto.
Qed.

Lemma control_tick_inv env ops s s' :
  view_ok ops (view s) -> control_tick uuid_at utc_at cfg env s = Ret s' ->
  loop_inv s' /\ exists fs, sent s' = sent s ++ fs /\ Forall (frame_origin env ops s) fs.
Proof.
  unfold control_tick. intros Hok H.
  assert (loop_inv s) as Hi by (by exists ops).
  apply exec_bind_ret in H as ([ares s1] & Hact & H).
  apply exec_bind_ret in H as (s2 & Hrec & H).
  apply exec_bind_ret in H as ([ct s3] & Hcand & H).
  apply exec_bind_ret in H as (s4 & Hset & H).
  apply exec_bind_ret in H as ([bounded ccmd] & Hbound & H).
  apply exec_bind_ret in H as ([ccmd' s5] & Hchg & H).
  apply exec_bind_ret in H as (s6 & Hadv & H).
  destruct (tick_active_spec _ _ _ _ Hact) as (Hv1 & Hs1 & Hcs1 & Hse1 & Hact1).
  assert (loop_inv s1) as Hi1 by (by apply (inv_view s)).
  destruct (recover_inv _ _ _ Hi1 Hrec) as (Hi2 & Hos2 & Hse2 & Hcan2).
  destruct (tick_candidate_spec _ _ _ _ _ Hcand) as (Hv3 & Hs3 & Ha3 & Hct).
  assert (loop_inv s3) as Hi3 by (by apply (inv_view s2)).
  destruct (settle_inv (candidate_failure ct) s3 s4) as (Hi4 & Hos4 & Ha4 & Hs4); [done| |done|].
  { intros f Hf. destruct Hct as [(Hn & _)|(c & c' & _ & _ & _ & Hc' & Hk)]; [congruence|].
    rewrite Hc', (Hk f Hf), Ha3. split; [done|]. by destruct (active_slot s2). }
  destruct (charge_inv (slot_running (active_slot s2)) bounded ccmd s4 ccmd' s5) as (Hi5 & Hos5 & Hc5);
    [done| |done|].
  { rewrite Ha4, Ha3. by destruct (active_slot s2). }
  set (fr := actuated_command _ _ _) in *.
  assert (loop_inv (send_command cfg fr s5)) as Hi5'.
  { apply (inv_view s5); [|done]. unfold send_command. by destruct fr, (has_actuator cfg). }
  destruct (advance_inv _ _ _ _ _ _ _ Hi5' Hadv) as [Hi6 Hs6].
  apply next_tick_inv in H as [Hv7 Hs7]. split; [by apply (inv_view s6)|].
  assert (only_stops s s5) as Hos.
  { eapply only_stops_trans; [by apply only_stops_refl|].
    eapply only_stops_trans; [exact Hos2|].
    eapply only_stops_trans; [apply only_stops_refl; exact Hs3|].
    eapply only_stops_trans; [exact Hos4|exact Hos5]. }
  destruct (send_command_sent fr s5 s Hos) as (fs & E & Hfs).
  exists fs. split; [by rewrite Hs7, Hs6|]. eapply Forall_impl; [exact Hfs|].
  intros f [Hf|Hf]; [by apply StopOrigin|]. unfold fr, actuated_command in Hf.
  assert (Hcanary : ccmd = Some f -> candidate_is_canary s4 = true -> frame_origin env ops s f).
  { intros -> Hcan. destruct Hs4 as [->|Hn]; [by eapply canary_origin|].
    apply candidate_is_canary_true in Hcan as (_ & c & Hc & _). congruence. }
  destruct Hc5 as [[-> Hc5]|[-> Hc5]]; rewrite Hc5 in Hf; [|by eapply active_origin].
  destruct (candidate_is_canary s4) eqn:Hcan; [|by eapply active_origin].
  destruct ccmd as [f'|]; [injection Hf as ->; by apply Hcanary|by eapply active_origin].
Qed.

(** The watchdog fires on silence longer than the timeout while something runs; then
    nothing runs and one stop frame is sent. *)
Lemma check_watchdog_spec env s fired s' :
  check_watchdog cfg env s = (fired, s') ->
  fired = ((watchdog_timeout cfg <? env_checked_at env - last_agent_contact s)
           && any_controller_running s) /\
  if fired then
    view s' = view s /\ any_controller_running s' = false /\
    last_agent_contact s' = last_agent_contact s /\
    sent s' = sent s ++ (if has_actuator cfg then [stop_frame s] else []) /\
    tick_number s' = tick_number s /\
    exists reason, estop_reason s' = Some reason /\ notices s' = notices s ++ [reason]
  else s' = s.
Proof.
  unfold check_watchdog. rewrite Z.leb_antisym.
  destruct (_ <? _); simpl; [|by intros [= <- <-]].
  destruct (any_controller_running s) eqn:Hr; simpl; [|by intros [= <- <-]].
  intros [= <- <-]. split; [done|]. unfold view, any_controller_running.
  destruct (has_actuator cfg); simpl; rewrite ?app_nil_r;
    (split_and!; [by destruct (active_slot s), (candidate_slot s)..|done|done|done|by eexists]).
Qed.

(** The frames of a whole turn, and the invariant after it. *)
Lemma loop_tick_inv env s s' :
  loop_inv s -> loop_tick uuid_at utc_at cfg env s = Ret s' ->
  loop_inv s' /\ exists s0 ops fs, begin_tick uuid_at utc_at cfg env s = Ret s0 /\
    manager s0 = run ops /\ journal s0 = ops /\ sent s' = sent s ++ fs /\
    Forall (frame_origin env ops s0) fs.
Proof.
  unfold loop_tick. intros Hi H. apply exec_bind_ret in H as (s0 & Hb & H).
  destruct (begin_tick_inv _ _ _ _ _ _ Hi Hb) as [Hi0 Hs0]. pose proof Hi0 as [ops Hok].
  destruct (check_watchdog cfg env s0) as [fired s1] eqn:Hw.
  apply check_watchdog_spec in Hw as [_ Hw]. destruct fired.
  - destruct Hw as (Hv & _ & _ & E & _). apply next_tick_inv in H as [Hv' Hs'].
    split; [by apply (inv_view s0); [rewrite Hv'|]|].
    exists s0, ops, (if has_actuator cfg then [stop_frame s0] else []).
    rewrite Hs', E, Hs0. split_and!; [done|by apply ok_manager in Hok|by apply ok_journal in Hok|done|].
    destruct (has_actuator cfg); [|done]. apply Forall_singleton, StopOrigin, stop_frame_is_stop.
  - rewrite Hw in H. apply (control_tick_inv env ops) in H as (Hi' & fs & E & Hfs); [|done].
    split; [done|]. exists s0, ops, fs. rewrite <- Hs0.
    split_and!; [done|by apply ok_manager in Hok|by apply ok_journal in Hok|done|done].
Qed.

Lemma loop_run_inv envs : forall s s',
  loop_inv s -> loop_run uuid_at utc_at cfg envs s = Ret s' -> loop_inv s'.
Proof.
  induction envs as [|env envs IH]; intros s s' Hi H; simpl in H; [by injection H as <-|].
  apply exec_bind_ret in H as (s1 & H1 & H2). apply loop_tick_inv in H1 as [Hi1 _]; [|done]. eauto.
Qed.
End Turn.

(** ** The calls of a run

    The journal holds every call of the lifecycle manager.  A turn loads the artifacts it
    was commanded to load, in their order, and after that only submits evidence collected
    from a controller, requests promotions, retires and restores. *)

Inductive loop_call : op -> Prop :=
| SubmitsCollected c mode uuid now bundle c' :
    rotate_evidence c mode uuid now = Ret (bundle, c') ->
    loop_call (OpSubmit (judge_stage_evidence bundle))
| RequestsPromotion a target : loop_call (OpPromoteTo (runtime_digests_for_artifact a) target)
| Retires : loop_call OpRetire
| Restores : loop_call OpRestoreActive.

(** The artifacts of the commands of a turn. *)
Definition commanded_loads (cmds : list RuntimeCommand) : list ControllerArtifact :=
  omap (fun cmd => match cmd with PreparedArtifact load => Some (artifact load) | _ => None end) cmds.
Definition turn_loads (env : TickEnv) : list ControllerArtifact :=
  commanded_loads (env_emergency env ++ env_commands env).

(** [s'] has more calls than [s], none of them a load. *)
Definition calls_on (s s' : LoopState) : Prop :=
  exists js, journal s' = journal s ++ js /\ Forall loop_call js.

Lemma calls_same s s' : journal s' = journal s -> calls_on s s'.
Proof. intros E. exists []. by rewrite E, app_nil_r. Qed.

Lemma calls_one s s' o : journal s' = journal s ++ [o] -> loop_call o -> calls_on s s'.
Proof. intros E H. exists [o]. split; [done|]. by apply Forall_singleton. Qed.

Lemma calls_trans s1 s2 s3 : calls_on s1 s2 -> calls_on s2 s3 -> calls_on s1 s3.
Proof.
  intros (j1 & E1 & H1) (j2 & E2 & H2). exists (j1 ++ j2).
  rewrite E2, E1, app_assoc. by rewrite Forall_app.
Qed.

Lemma calls_view s s' : view s' = view s -> calls_on s s'.
Proof. intros H. apply calls_same. exact (f_equal v_journal H). Qed.

#[local] Hint Constructors loop_call : roz.
#[local] Hint Resolve calls_same calls_view : roz.

Section Calls.
Context (uuid_at : nat -> string) (utc_at : nat -> DateTime) (cfg : LoopConfig).

Lemma reject_calls reason (restore : bool) s s' :
  reject_candidate uuid_at utc_at reason restore s = Ret s' -> calls_on s s'.
Proof.
  intros H. apply reject_candidate_view in H. apply (f_equal v_journal) in H.
  eapply calls_one; [exact H|]. destruct restore; constructor.
Qed.

Lemma submit_calls c mode target s r s' :
  submit_stage_evidence_and_promote uuid_at utc_at c mode target s = Ret (r, s') -> calls_on s s'.
Proof.
  unfold submit_stage_evidence_and_promote. intros H.
  apply exec_bind_ret in H as ([bundle c'] & Hr & H). simpl in H.
  set (sub := OpSubmit _) in H. assert (loop_call sub) as Hs by (econstructor; exact Hr).
  destruct (submit_evidence _ _) as [[u|e] m]; [destruct (promote_to _ _ _) as [[t|e] m']|];
    injection H as <- <-; [| |by eapply calls_one].
  all: exists [sub; OpPromoteTo (runtime_digests_for_artifact (artifact c')) target];
    simpl; rewrite <- app_assoc; eauto with roz.
Qed.

Lemma promote_active_calls s s' :
  promote_candidate_to_active uuid_at utc_at s = Ret s' -> calls_on s s'.
Proof.
  destruct (candidate_slot s) as [c|] eqn:Hc; [|unfold promote_candidate_to_active; by rewrite Hc].
  intros H. apply (promote_active_view _ _ c) in H as (_ & _ & Hj & _); [|done]. by apply calls_same.
Qed.

Lemma advance_calls ticked counts s s' :
  advance_candidate_stage uuid_at utc_at cfg ticked counts s = Ret s' -> calls_on s s'.
Proof.
  unfold advance_candidate_stage, advance_verified, advance_shadow, advance_canary, reject_stage.
  assert (Hk : forall c mode target s0 k s1,
    (forall r s2 s3, k r s2 = Ret s3 -> calls_on s2 s3) ->
    (let! (r, s) := submit_stage_evidence_and_promote uuid_at utc_at c mode target s0 in k r s) = Ret s1 ->
    calls_on s0 s1).
  { intros c mode target s0 k s1 Hk H. apply exec_bind_ret in H as ([r s2] & Hs & H).
    eapply calls_trans; [by eapply submit_calls|by eapply Hk]. }
  assert (Hc : forall n s0 s1, calls_on (set_shadow_ticks n s0) s1 -> calls_on s0 s1).
  { intros n s0 s1. by apply calls_trans, calls_same. }
  assert (Hd : forall n s0 s1, calls_on (set_canary_ticks n s0) s1 -> calls_on s0 s1).
  { intros n s0 s1. by apply calls_trans, calls_same. }
  assert (Hp : forall st s0 s1, promote_candidate_to_active uuid_at utc_at (set_candidate_state st s0) = Ret s1 ->
    calls_on s0 s1).
  { intros st s0 s1 H. by apply promote_active_calls in H. }
  intros H. repeat case_match; try (injection H as <-; by apply calls_same).
  - eapply Hk in H; [exact H|]. simpl. intros [tr|e] s2 s3 Hr; [|by eapply reject_calls].
    destruct (to_state tr); try (injection Hr as <-; by apply calls_same). by eapply Hp.
  - apply exec_bind_ret in H as (n & _ & H). apply (Hc n).
    destruct (n <? _); [injection H as <-; by apply calls_same|].
    eapply Hk in H; [exact H|]. simpl. intros [tr|e] s2 s3 Hr; [|by eapply reject_calls].
    destruct (to_state tr); try (injection Hr as <-; by apply calls_same). by eapply Hp.
  - apply exec_bind_ret in H as (n & _ & H). apply (Hd n).
    destruct (n <? _); [injection H as <-; by apply calls_same|].
    eapply Hk in H; [exact H|]. simpl. intros [tr|e] s2 s3 Hr; [by eapply Hp|by eapply reject_calls].
Qed.

Lemma recover_calls res s s' : recover_active uuid_at utc_at cfg res s = Ret s' -> calls_on s s'.
Proof.
  unfold recover_active. intros H. destruct (halted res); [|injection H as <-; by apply calls_same].
  destruct (result_estop_reason res) as [reason|]; [|injection H as <-; by apply calls_same].
  apply exec_bind_ret in H as ([[o|e] s1] & Hres & H); injection H as <-;
    apply restore_controller_view in Hres.
  - destruct Hres as (_ & _ & _ & _ & _ & _ & _ & _ & Hj & _). 
    eapply calls_trans; [eapply calls_one; [exact Hj|constructor]|].
    apply calls_same. by destruct (has_actuator cfg).
  - destruct Hres as (_ & _ & _ & _ & _ & _ & Hj & _).
    eapply (calls_trans _ s1); [destruct Hj as [Hj|[Hj _]]; [by apply calls_same|]|].
    + eapply calls_one; [exact Hj|constructor].
    + apply calls_same. by destruct (has_actuator cfg).
Qed.

Lemma fail_calls reason (keep : bool) s s' :
  fail_candidate uuid_at utc_at cfg reason keep s = Ret s' -> calls_on s s'.
Proof.
  unfold fail_candidate. intros H. destruct keep; [by eapply reject_calls|].
  apply exec_bind_ret in H as (s1 & H & [= <-]). apply reject_calls in H.
  eapply calls_trans; [|apply (calls_same s1); by destruct (has_actuator cfg)]. exact H.
Qed.

Lemma charge_calls (fallback bounded : bool) cmd s cmd' s' :
  charge_canary uuid_at utc_at cfg fallback bounded cmd s = Ret (cmd', s') -> calls_on s s'.
Proof.
  unfold charge_canary. intros H. destruct (_ && _); [|injection H as <- <-; by apply calls_same].
  apply exec_bind_ret in H as (n & _ & H).
  destruct (_ <? n); [|injection H as <- <-; by apply calls_same].
  apply exec_bind_ret in H as (s1 & H & [= <- <-]). by apply fail_calls in H.
Qed.

Lemma control_calls env s s' : control_tick uuid_at utc_at cfg env s = Ret s' -> calls_on s s'.
Proof.
  unfold control_tick. intros H.
  apply exec_bind_ret in H as ([ares s1] & Hact & H). apply exec_bind_ret in H as (s2 & Hrec & H).
  apply exec_bind_ret in H as ([ct s3] & Hcand & H). apply exec_bind_ret in H as (s4 & Hset & H).
  apply exec_bind_ret in H as ([bounded ccmd] & _ & H).
  apply exec_bind_ret in H as ([ccmd' s5] & Hchg & H). apply exec_bind_ret in H as (s6 & Hadv & H).
  apply tick_active_spec in Hact as (Hact & _). apply tick_candidate_spec in Hcand as (Hcand & _).
  apply next_tick_inv in H as (H & _).
  apply (calls_trans _ s1); [by apply calls_view|].
  apply (calls_trans _ s2); [by eapply recover_calls|].
  apply (calls_trans _ s3); [by apply calls_view|].
  apply (calls_trans _ s4).
  { destruct (candidate_failure ct); [by eapply fail_calls|]. injection Hset as <-. by apply calls_same. }
  apply (calls_trans _ s5); [by eapply charge_calls|].
  eapply calls_trans; [|by apply (calls_view s6)]. apply advance_calls in Hadv.
  eapply calls_trans; [|exact Hadv]. apply calls_same. unfold send_command.
  by destruct (actuated_command _ _ _), (has_actuator cfg).
Qed.

Lemma process_all_loads cmds : forall s s',
  process_all uuid_at utc_at cfg cmds s = Ret s' ->
  journal s' = journal s ++ map OpLoad (commanded_loads cmds).
Proof.
  induction cmds as [|cmd cmds IH]; intros s s' H; simpl in H.
  { injection H as <-. by rewrite app_nil_r. }
  apply exec_bind_ret in H as (s1 & H1 & H2). apply IH in H2. rewrite H2.
  destruct cmd; simpl in H1.
  - apply load_candidate_view in H1 as [Hv _]. apply (f_equal v_journal) in Hv. simpl in Hv.
    by rewrite Hv, <- app_assoc.
  - injection H1 as <-. by destruct (_ && _).
  - by injection H1 as <-.
  - by injection H1 as <-.
  - by injection H1 as <-.
Qed.

Lemma begin_tick_loads env s s' :
  begin_tick uuid_at utc_at cfg env s = Ret s' -> journal s' = journal s ++ map OpLoad (turn_loads env).
Proof.
  unfold begin_tick, drain_commands. intros H.
  apply exec_bind_ret in H as ([received s2] & H & [= <-]).
  apply exec_bind_ret in H as (s0 & H0 & H). apply exec_bind_ret in H as (s1 & H1 & [= <- <-]).
  apply process_all_loads in H0, H1. rewrite H0, <- app_assoc, <- map_app in H1.
  unfold turn_loads. transitivity (journal s1).
  - unfold read_sensor. by destruct (negb _), (env_sensor env).
  - rewrite H1. unfold commanded_loads. by rewrite omap_app.
Qed.

(** The calls of one turn: its loads, then what the loop itself does. *)
Definition turn_calls (env : TickEnv) (js : list op) : Prop :=
  exists own, js = map OpLoad (turn_loads env) ++ own /\ Forall loop_call own.

Lemma loop_tick_calls env s s' :
  loop_tick uuid_at utc_at cfg env s = Ret s' ->
  exists js, journal s' = journal s ++ js /\ turn_calls env js.
Proof.
  unfold loop_tick. intros H. apply exec_bind_ret in H as (s0 & Hb & H).
  apply begin_tick_loads in Hb. destruct (check_watchdog cfg env s0) as [fired s1] eqn:Hw.
  apply check_watchdog_spec in Hw as [_ Hw].
  assert (calls_on s0 s') as (js & E & Hjs).
  { destruct fired.
    - destruct Hw as (Hv & _). apply next_tick_inv in H as (Hv' & _).
      apply calls_view. by rewrite Hv'.
    - subst s1. by eapply control_calls. }
  exists (map OpLoad (turn_loads env) ++ js). rewrite E, Hb, app_assoc. split; [done|]. by exists js.
Qed.

Lemma loop_run_calls envs : forall s s',
  loop_run uuid_at utc_at cfg envs s = Ret s' ->
  exists jss, journal s' = journal s ++ concat jss /\ Forall2 turn_calls envs jss.
Proof.
  induction envs as [|env envs IH]; intros s s' H; simpl in H.
  { injection H as <-. exists []. by rewrite app_nil_r. }
  apply exec_bind_ret in H as (s1 & H1 & H2). apply loop_tick_calls in H1 as (js & E & Hjs).
  apply IH in H2 as (jss & E' & Hjss). exists (js :: jss). simpl.
  rewrite E', E, app_assoc. split; [done|]. by constructor.
Qed.
End Calls.

(** ** What the robot is sent *)

(** C1: only vetted controllers move the robot.  In any run of the loop from its start,
    whatever the commands, the sensor data, the clock and the guests, every frame a turn
    sends is a stop frame, the filtered command of an active controller that the lifecycle
    promoted to active through its gates, or the enveloped command of a candidate that
    the lifecycle promoted to the canary stage through its gates.  The promotions are among
    the calls the run made to the lifecycle manager: the journal, of which the manager's
    state is the result.  A candidate that is only verified or shadowed sends nothing. *)
Theorem actuation_vetted (uuid_at : nat -> string) (utc_at : nat -> DateTime) (cfg : LoopConfig)
    (now : Instant) (envs : list TickEnv) (env : TickEnv) (s s' : LoopState)
    (Hrun : loop_run uuid_at utc_at cfg envs (initial_state now) = Ret s)
    (H : loop_tick uuid_at utc_at cfg env s = Ret s') :
  exists s0 fs, begin_tick uuid_at utc_at cfg env s = Ret s0 /\
    manager s0 = run (journal s0) /\ journal s0 = journal s ++ map OpLoad (turn_loads env) /\
    sent s' = sent s ++ fs /\ Forall (frame_origin cfg env (journal s0) s0) fs.
Proof.
  apply loop_run_inv in Hrun; [|apply initial_inv].
  apply loop_tick_inv in H as [_ (s0 & ops & fs & Hb & Hm & Hj & E & Hfs)]; [|done].
  exists s0, fs. rewrite Hj. split_and!; try done.
  rewrite <- Hj. by eapply begin_tick_loads.
Qed.

(** C4: the loop and its lifecycle manager never disagree on what is staged.  After any run
    the manager's state is the result of the calls the run made to it, and these are, turn
    by turn, the loads that were commanded in their order, then submissions of evidence a
    controller collected, promotion requests, retirements and restorations.  What is active,
    and what is kept for rollback, was promoted to active through the gates by one of these
    calls; a candidate in the shadow or canary stage is the artifact the manager has in that
    stage; whatever the manager stages is the loaded candidate. *)
Theorem loop_tracks_lifecycle (uuid_at : nat -> string) (utc_at : nat -> DateTime) (cfg : LoopConfig)
    (now : Instant) (envs : list TickEnv) (s : LoopState)
    (Hrun : loop_run uuid_at utc_at cfg envs (initial_state now) = Ret s) :
  view_ok (journal s) (view s) /\
  exists jss, journal s = concat jss /\ Forall2 turn_calls envs jss.
Proof.
  pose proof (loop_run_calls _ _ _ _ _ _ Hrun) as (jss & E & Hjss).
  apply loop_run_inv in Hrun as [ops Hok]; [|apply initial_inv].
  pose proof (ok_journal _ _ Hok : journal s = _) as Hj. rewrite Hj. split; [done|].
  exists jss. by rewrite <- Hj, E.
Qed.

(** ** Witnesses *)

(** The first turn of a loop that is told to load and promote a controller. *)
Definition load_turn : TickEnv := {|
  env_emergency := []; env_commands := [PreparedArtifact (demo_loaded "r"); PromoteActive];
  env_contact_at := 0; env_checked_at := 1000000; env_reported_at := 1000000; env_sensor := None;
  env_active := demo_guest [one] false; env_candidate := demo_guest [one] false |}.
Definition canary_turn : TickEnv := {|
  env_emergency := []; env_commands := []; env_contact_at := 0; env_checked_at := 1000000;
  env_reported_at := 1000000; env_sensor := None; env_active := demo_guest [one] false;
  env_candidate := demo_guest [one] false |}.

Definition one_canary_tick : LoopConfig := {|
  has_actuator := true; watchdog_timeout := from_secs 1;
  policy := with_rollout_policy false true true 1 1 2500 2500 u64_max |}.

Definition demo_uuid (n : nat) : string := "evidence-" +:+ pretty (N.of_nat n).
Definition demo_utc (n : nat) : DateTime := Z.of_nat n.

Definition state_after (cfg : LoopConfig) (envs : list TickEnv) : LoopState :=
  match loop_run demo_uuid demo_utc cfg envs (initial_state 0) with Ret s => s | Panic => initial_state 0 end.

Lemma actuation_vetted_witness :
  exists s0, begin_tick demo_uuid demo_utc one_canary_tick canary_turn
      (state_after one_canary_tick [load_turn]) = Ret s0 /\ manager s0 = run (journal s0) /\
    frame_origin one_canary_tick canary_turn (journal s0) s0 {| values := [one] |}.
Proof.
  destruct (actuation_vetted demo_uuid demo_utc one_canary_tick 0 [load_turn] canary_turn
    (state_after one_canary_tick [load_turn]) (state_after one_canary_tick [load_turn; canary_turn]))
    as (s0 & fs & Hb & Hm & _ & E & Hfs); [vm_compute; reflexivity..|].
  exists s0. split; [exact Hb|]. split; [exact Hm|].
  assert (fs = [ {| values := [one] |} ]) as ->.
  { apply (app_inv_head (sent (state_after one_canary_tick [load_turn]))). rewrite <- E.
    vm_compute. reflexivity. }
  exact (Forall_inv Hfs).
Defined.

Lemma loop_tracks_lifecycle_witness :
  let s := state_after one_canary_tick [load_turn; canary_turn] in
  view_ok (journal s) (view s) /\
  exists jss, journal s = concat jss /\ Forall2 turn_calls [load_turn; canary_turn] jss.
Proof.
  apply (loop_tracks_lifecycle demo_uuid demo_utc one_canary_tick 0 [load_turn; canary_turn]).
  vm_compute. reflexivity.
Defined.
