(* ===== verification/LoopSafety.v ===== *)
(** * What the controller loop guarantees

    The theorems on whole turns and runs of the loop: where the frames it sends come from,
    the watchdog, the exact length of the shadow and canary stages, the envelope of the
    canary's command; and concrete runs that show how the loop and its lifecycle manager
    can disagree. *)

From S2P Require Import Prelude Float64 Deployment Lifecycle Command Embodiment SafetyFilter Evidence.
From S2P Require Import TickController LoopState ControllerLoop LoopInvariant.

(** ** Nothing runs *)

Definition quiet (s : LoopState) : Prop := any_controller_running s = false.

(** A turn without commands, checked later than the timeout after the last contact. *)
Definition silent (cfg : LoopConfig) (s : LoopState) (env : TickEnv) : Prop :=
  env_emergency env = [] /\ env_commands env = [] /\
  watchdog_timeout cfg < env_checked_at env - last_agent_contact s.

(** The windows of a stage: the turns of a candidate, each with whether its candidate
    ticked and whether the turn counts for the canary window. *)
Definition streak_step (n : Z) (turn : bool * bool) : Z :=
  match turn with
  | (false, _) => n
  | (true, true) => n + 1
  | (true, false) => 0
  end.

(** How many of the first turns count. *)
Fixpoint streak (l : list bool) : nat :=
  match l with true :: l => S (streak l) | _ => 0 end.

(** The canary window after [turns]: how many of the last ticked ones counted in a row. *)
Definition canary_window (turns : list (bool * bool)) : Z :=
  Z.of_nat (streak (reverse (map snd (List.filter fst turns)))).

(** The shadow window: how many turns ticked. *)
Definition shadow_window (turns : list (bool * bool)) : Z :=
  Z.of_nat (length (List.filter fst turns)).

Section Guarantees.
Context (uuid_at : nat -> string) (utc_at : nat -> DateTime) (cfg : LoopConfig).

Fixpoint advance_all (turns : list (bool * bool)) (s : LoopState) : exec LoopState :=
  match turns with
  | [] => Ret s
  | (ticked, counts) :: turns =>
      let! s := advance_candidate_stage uuid_at utc_at cfg ticked counts s in advance_all turns s
  end.

(** ** Lemmas on quiet turns *)

Lemma quiet_slots s : quiet s -> slot_running (active_slot s) = false /\ slot_running (candidate_slot s) = false.
Proof. unfold quiet, any_controller_running. by rewrite orb_false_iff. Qed.

Lemma quiet_control_tick env s :
  quiet s -> control_tick uuid_at utc_at cfg env s = next_tick s.
Proof.
  intros Hq. apply quiet_slots in Hq as [Ha Hc].
  assert (tick_active env s = Ret (no_result, s)) as E1.
  { unfold tick_active. destruct (active_slot s) as [c|]; [|done]. simpl in Ha. by rewrite Ha. }
  assert (tick_candidate cfg env None s = Ret (no_candidate_tick, s)) as E2.
  { unfold tick_candidate. destruct (candidate_slot s) as [c|]; [|done]. simpl in Hc. by rewrite Hc. }
  assert (candidate_is_canary s = false) as E3 by (unfold candidate_is_canary; by rewrite Hc, andb_false_r).
  unfold control_tick. rewrite E1. simpl. rewrite E2. simpl.
  unfold bound_canary, charge_canary, actuated_command. rewrite E3. simpl. rewrite E3. simpl.
  unfold advance_candidate_stage. simpl. by rewrite orb_true_r.
Qed.

Lemma silent_begin env s :
  env_emergency env = [] -> env_commands env = [] ->
  begin_tick uuid_at utc_at cfg env s = Ret (read_sensor env s).
Proof. intros H1 H2. unfold begin_tick, drain_commands. by rewrite H1, H2. Qed.

Lemma read_sensor_same env s :
  active_slot (read_sensor env s) = active_slot s /\ candidate_slot (read_sensor env s) = candidate_slot s /\
  last_agent_contact (read_sensor env s) = last_agent_contact s /\ sent (read_sensor env s) = sent s /\
  stop_frame (read_sensor env s) = stop_frame s /\
  any_controller_running (read_sensor env s) = any_controller_running s /\
  tick_number (read_sensor env s) = tick_number s.
Proof. unfold read_sensor. by destruct (env_sensor env). Qed.

(** One silent turn: nothing runs after it, and it sends at most one stop frame. *)
Lemma silent_tick env s :
  silent cfg s env -> tick_number s + 1 <= u64_max ->
  exists s', loop_tick uuid_at utc_at cfg env s = Ret s' /\ quiet s' /\
    last_agent_contact s' = last_agent_contact s /\ tick_number s' = tick_number s + 1 /\
    sent s' = sent s ++ (if any_controller_running s && has_actuator cfg then [stop_frame s] else []).
Proof.
  intros (H1 & H2 & Ht) Hn. unfold loop_tick. rewrite silent_begin by done. simpl.
  destruct (read_sensor_same env s) as (_ & _ & El & Es & Ef & Er & En).
  destruct (check_watchdog cfg env (read_sensor env s)) as [fired s1] eqn:Hw.
  apply check_watchdog_spec in Hw as [Hf Hw].
  rewrite El, Er, (proj2 (Z.ltb_lt _ _) Ht) in Hf. simpl in Hf. unfold next_tick. destruct fired.
  - destruct Hw as (_ & Hq & Hl & Hs & Hn' & _). rewrite <- Hf, Hn', En, u64_add_ret by done. simpl.
    eexists. split; [done|]. simpl. by rewrite Hl, El, Hs, Es, Ef.
  - subst s1. rewrite quiet_control_tick by (unfold quiet; by rewrite Er, <- Hf).
    unfold next_tick. rewrite En, u64_add_ret by done. simpl. eexists. split; [done|].
    rewrite <- Hf. simpl. rewrite app_nil_r, El, Es. split_and!; [|done..].
    change (any_controller_running (read_sensor env s) = false). by rewrite Er, <- Hf.
Qed.

(** Once quiet, silent turns change nothing that moves. *)
Lemma silent_run envs : forall s,
  Forall (silent cfg s) envs -> tick_number s + Z.of_nat (length envs) <= u64_max -> quiet s ->
  exists s', loop_run uuid_at utc_at cfg envs s = Ret s' /\ quiet s' /\ sent s' = sent s.
Proof.
  induction envs as [|env envs IH]; intros s Hs Hn Hq; simpl in *; [by eexists|].
  apply Forall_cons in Hs as [He Hs].
  destruct (silent_tick _ _ He) as (s1 & -> & Hq1 & Hl & Hn1 & E); [lia|]. simpl.
  unfold quiet in Hq. rewrite Hq, app_nil_r in E. simpl in E. rewrite <- E.
  apply IH; [|lia|done]. eapply Forall_impl; [exact Hs|].
  intros x (? & ? & ?). unfold silent. by rewrite Hl.
Qed.

(** ** Nothing in the stages panics *)

Lemma finalize_evidence_returns c mode uuid now :
  exists b, finalize_evidence_bundle c mode uuid now = Ret b.
Proof.
  destruct (finalize_ret (evidence_collector c) (finalize_args (artifact c) mode uuid now)
    (last_evidence_context c)) as (ev & H & _). by exists ev.
Qed.

Lemma finalize_slot_returns k mode s :
  exists s', finalize_controller_slot uuid_at utc_at k mode s = Ret s'.
Proof.
  unfold finalize_controller_slot. destruct (get_slot k s) as [c|]; [|by eexists].
  destruct (finalize_evidence_returns c mode (uuid_at (stamps s)) (utc_at (stamps s))) as [b ->].
  by eexists.
Qed.

Lemma reject_returns reason restore s :
  exists s', reject_candidate uuid_at utc_at reason restore s = Ret s' /\
    candidate_slot s' = None /\ candidate_state s' = None /\ promotion_requested s' = false /\
    active_slot s' = active_slot s /\ candidate_last_rejection_reason s' <> None.
Proof.
  unfold reject_candidate.
  destruct (finalize_slot_returns CandidateSlot (execution_mode_for_candidate_state (candidate_state s)) s)
    as [s1 H]. rewrite H. simpl. apply finalize_slot_spec in H as (l & c & n & ->).
  destruct (if restore then _ else _) as [r m]. eexists. split; [done|].
  destruct r as [o|e]; [destruct (restored_controller_id o)|]; done.
Qed.

Lemma submit_stage_returns c mode target s :
  exists r s', submit_stage_evidence_and_promote uuid_at utc_at c mode target s = Ret (r, s').
Proof.
  unfold submit_stage_evidence_and_promote, rotate_evidence.
  destruct (finalize_evidence_returns c mode (uuid_at (stamps s)) (utc_at (stamps s))) as [b ->]. simpl.
  destruct (submit_evidence _ _) as [[u|e] m]; [|by eexists _, _].
  destruct (promote_to _ _ _) as [[tr|e] m']; by eexists _, _.
Qed.

Lemma promote_active_returns s c :
  candidate_slot s = Some c ->
  exists s', promote_candidate_to_active uuid_at utc_at s = Ret s'.
Proof.
  intros Hc. unfold promote_candidate_to_active. rewrite Hc. simpl.
  destruct (active_slot s) as [a|]; [|by eexists]. unfold stash_last_known_good_controller.
  match goal with |- context [finalize_controller_slot _ _ _ _ ?s] =>
    destruct (finalize_slot_returns RollbackSlot Live s) as [s1 ->] end.
  by eexists.
Qed.

(** The end of a stage for the candidate [c], from the state [s]. *)
Definition promoted_to_active (c : LoadedController) (s s' : LoopState) : Prop :=
  candidate_slot s' = None /\ candidate_state s' = None /\ promotion_requested s' = false /\
  (exists t, artifact <$> active_slot s' = Some (set_promoted_at t (artifact c))) /\
  (active_slot s <> None -> artifact <$> rollback_slot s' = artifact <$> active_slot s).

Definition candidate_rejected (s s' : LoopState) : Prop :=
  candidate_slot s' = None /\ candidate_state s' = None /\ promotion_requested s' = false /\
  active_slot s' = active_slot s /\ candidate_last_rejection_reason s' <> None.

Lemma promote_active_result c s0 s :
  candidate_slot s = Some c -> active_slot s = active_slot s0 ->
  exists s', promote_candidate_to_active uuid_at utc_at s = Ret s' /\ promoted_to_active c s0 s'.
Proof.
  intros Hc Ha. destruct (promote_active_returns s c Hc) as [s' H]. exists s'. split; [done|].
  pose proof H as Hp. apply promote_active_view with (c := c) in Hp
    as (_ & _ & _ & _ & Hvs & Ht & Hvr & _ & Hn); [|done].
  unfold promoted_to_active. split_and!; try done.
  - unfold promote_candidate_to_active in H. rewrite Hc in H.
    by apply exec_bind_ret in H as (s1 & _ & [= <-]).
  - rewrite <- Ha. intros Hact. destruct Hvr as [Hvr|[Hn' _]]; [exact Hvr|].
    simpl in Hn'. by destruct (active_slot s).
Qed.

Lemma promoted_same_artifact c c' s s' :
  artifact c' = artifact c -> promoted_to_active c' s s' -> promoted_to_active c s s'.
Proof. intros E. unfold promoted_to_active. by rewrite E. Qed.

(** ** Advancing one turn in a stage *)

(** A candidate [c] in stage [st] whose promotion is requested. *)
Record staged (c : LoadedController) (st : DeploymentState) (s : LoopState) : Prop := {
  st_slot : candidate_slot s = Some c;
  st_state : candidate_state s = Some st;
  st_requested : promotion_requested s = true;
}.

Lemma next_target_canary : allows_rollout (policy cfg) = true -> next_target (policy cfg) Canary = Some Active.
Proof. unfold next_target. by intros ->. Qed.

Lemma next_target_shadow :
  allows_rollout (policy cfg) = true ->
  next_target (policy cfg) Shadow = Some (if require_canary (policy cfg) then Canary else Active).
Proof. unfold next_target. intros ->. by destruct (require_canary _). Qed.

Lemma set_canary_same s n : canary_ticks s = n -> set_canary_ticks n s = s.
Proof. destruct s. simpl. by intros ->. Qed.
Lemma set_shadow_same s n : shadow_ticks s = n -> set_shadow_ticks n s = s.
Proof. destruct s. simpl. by intros ->. Qed.

Lemma advance_canary_waits c s ticked counts :
  staged c Canary s -> allows_rollout (policy cfg) = true ->
  0 <= canary_ticks s -> canary_ticks_required (policy cfg) <= u64_max ->
  streak_step (canary_ticks s) (ticked, counts) < canary_ticks_required (policy cfg) ->
  advance_candidate_stage uuid_at utc_at cfg ticked counts s =
    Ret (set_canary_ticks (streak_step (canary_ticks s) (ticked, counts)) s).
Proof.
  intros [Hc Hst Hp] Hr H0 Hreq Hlt. unfold advance_candidate_stage.
  rewrite Hp, Hst, Hc, next_target_canary by done.
  destruct ticked; simpl in *; [|by rewrite set_canary_same].
  unfold advance_canary. destruct counts; simpl; [|done].
  rewrite u64_add_ret by lia. simpl. by rewrite (proj2 (Z.ltb_lt _ _) Hlt).
Qed.

Lemma advance_canary_ends c s :
  staged c Canary s -> allows_rollout (policy cfg) = true ->
  canary_ticks s + 1 = canary_ticks_required (policy cfg) -> canary_ticks_required (policy cfg) <= u64_max ->
  exists s', advance_candidate_stage uuid_at utc_at cfg true true s = Ret s' /\
    (promoted_to_active c s s' \/ candidate_rejected s s').
Proof.
  intros [Hc Hst Hp] Hr Hn Hreq. unfold advance_candidate_stage.
  rewrite Hp, Hst, Hc, next_target_canary by done. unfold advance_canary. simpl.
  rewrite u64_add_ret by lia. simpl. rewrite (proj2 (Z.ltb_ge _ _)) by lia.
  destruct (submit_stage_returns c CanaryMode Active (set_canary_ticks (canary_ticks s + 1) s)) as (r & s1 & H).
  rewrite H. simpl.
  assert (candidate_slot (set_canary_ticks (canary_ticks s + 1) s) = Some c) as Hc1 by done.
  pose proof (submit_stage_view _ _ _ _ _ _ _ _ Hc1 H)
    as (_ & _ & _ & _ & Ha & (c' & Hc' & Hart) & _).
  destruct r as [tr|e].
  - destruct (promote_active_result c' s (set_candidate_state (Some (to_state tr)) s1)) as (s' & -> & Hok);
      [done..|]. exists s'. split; [done|left]. by eapply promoted_same_artifact.
  - unfold reject_stage. match goal with |- context [reject_candidate _ _ ?m ?b s1] =>
      destruct (reject_returns m b s1) as (s' & -> & ? & ? & ? & Ha' & ?) end.
    exists s'. split; [done|right]. split_and!; try done. by rewrite Ha', Ha.
Qed.

Lemma advance_shadow_waits c s (ticked counts : bool) :
  staged c Shadow s -> allows_rollout (policy cfg) = true ->
  0 <= shadow_ticks s -> shadow_ticks_required (policy cfg) <= u64_max ->
  (if ticked then shadow_ticks s + 1 else 0) < shadow_ticks_required (policy cfg) ->
  advance_candidate_stage uuid_at utc_at cfg ticked counts s =
    Ret (set_shadow_ticks (if ticked then shadow_ticks s + 1 else shadow_ticks s) s).
Proof.
  intros [Hc Hst Hp] Hr H0 Hreq Hlt. unfold advance_candidate_stage.
  rewrite Hp, Hst, Hc, next_target_shadow by done.
  destruct ticked; simpl in *; [|by rewrite set_shadow_same].
  unfold advance_shadow. rewrite u64_add_ret by lia. simpl. by rewrite (proj2 (Z.ltb_lt _ _) Hlt).
Qed.

(** The candidate [c] entered the canary stage with fresh counters. *)
Definition entered_canary (c : LoadedController) (s s' : LoopState) : Prop :=
  candidate_state s' = Some Canary /\ canary_ticks s' = 0 /\ bounded_canary_ticks s' = 0 /\
  active_slot s' = active_slot s /\ promotion_requested s' = true /\
  artifact <$> candidate_slot s' = Some (artifact c).

Lemma advance_shadow_ends c s counts :
  staged c Shadow s -> allows_rollout (policy cfg) = true ->
  shadow_ticks s + 1 = shadow_ticks_required (policy cfg) -> shadow_ticks_required (policy cfg) <= u64_max ->
  exists s', advance_candidate_stage uuid_at utc_at cfg true counts s = Ret s' /\
    ((if require_canary (policy cfg) then entered_canary c s s' else promoted_to_active c s s')
     \/ candidate_rejected s s').
Proof.
  intros [Hc Hst Hp] Hr Hn Hreq. unfold advance_candidate_stage.
  rewrite Hp, Hst, Hc, next_target_shadow by done. unfold advance_shadow. simpl.
  rewrite u64_add_ret by lia. simpl. rewrite (proj2 (Z.ltb_ge _ _)) by lia.
  set (target := if require_canary _ then _ else _).
  destruct (submit_stage_returns c ShadowMode target (set_shadow_ticks (shadow_ticks s + 1) s)) as (r & s1 & H).
  rewrite H. simpl.
  assert (candidate_slot (set_shadow_ticks (shadow_ticks s + 1) s) = Some c) as Hc1 by done.
  pose proof (submit_stage_view _ _ _ _ _ _ _ _ Hc1 H)
    as (_ & _ & _ & Hpr & Ha & (c' & Hc' & Hart) & ev & _ & _ & Htr).
  destruct r as [tr|e].
  - destruct Htr as (u & m & _ & Hpt). apply promote_to_ok in Hpt as (? & ? & _ & _ & _ & _ & -> & _).
    simpl. unfold target. destruct (require_canary (policy cfg)).
    + eexists. split; [done|left]. unfold entered_canary. simpl. rewrite Hc'. simpl. by rewrite Hart, Hpr.
    + destruct (promote_active_result c' s (set_candidate_state (Some Active) s1)) as (s' & -> & Hok);
        [done..|]. exists s'. split; [done|left]. by eapply promoted_same_artifact.
  - unfold reject_stage. match goal with |- context [reject_candidate _ _ ?m ?b s1] =>
      destruct (reject_returns m b s1) as (s' & -> & ? & ? & ? & Ha' & ?) end.
    exists s'. split; [done|right]. split_and!; try done. by rewrite Ha', Ha.
Qed.

(** ** Windows *)

Lemma canary_window_snoc turns t :
  canary_window (turns ++ [t]) = streak_step (canary_window turns) t.
Proof.
  unfold canary_window. rewrite List.filter_app, map_app, reverse_app.
  destruct t as [[] []]; simpl; lia.
Qed.

Lemma canary_window_nonneg turns : 0 <= canary_window turns.
Proof. unfold canary_window. lia. Qed.

Lemma shadow_window_snoc turns t :
  shadow_window (turns ++ [t]) = if fst t then shadow_window turns + 1 else shadow_window turns.
Proof.
  unfold shadow_window. rewrite List.filter_app, length_app. destruct t as [[] b]; simpl; lia.
Qed.

Lemma advance_all_snoc turns ticked counts s :
  advance_all (turns ++ [(ticked, counts)]) s =
  let! s := advance_all turns s in advance_candidate_stage uuid_at utc_at cfg ticked counts s.
Proof.
  revert s. induction turns as [|[t b] turns IH]; intros s; simpl.
  - by destruct (advance_candidate_stage _ _ _ _ _ _).
  - destruct (advance_candidate_stage _ _ _ t b s) as [s1|]; simpl; [apply IH|done].
Qed.

Lemma advance_all_canary c s turns :
  staged c Canary s -> allows_rollout (policy cfg) = true -> canary_ticks s = 0 ->
  canary_ticks_required (policy cfg) <= u64_max ->
  (forall k, (k <= length turns)%nat -> canary_window (take k turns) < canary_ticks_required (policy cfg)) ->
  advance_all turns s = Ret (set_canary_ticks (canary_window turns) s).
Proof.
  intros Hst Hr H0 Hreq. induction turns as [|[t b] turns IH] using rev_ind; intros Hopen.
  - simpl. by rewrite set_canary_same.
  - rewrite advance_all_snoc, IH; simpl.
    2: { intros k Hk. specialize (Hopen k). rewrite length_app, take_app_le in Hopen by done. apply Hopen. lia. }
    specialize (Hopen (length (turns ++ [(t, b)])) ltac:(lia)).
    rewrite firstn_all, canary_window_snoc in Hopen.
    rewrite canary_window_snoc. destruct Hst as [Hc Hs Hp].
    by rewrite (advance_canary_waits c) by (done || apply canary_window_nonneg).
Qed.

Lemma advance_all_shadow c s turns :
  staged c Shadow s -> allows_rollout (policy cfg) = true -> shadow_ticks s = 0 ->
  shadow_ticks_required (policy cfg) <= u64_max ->
  shadow_window turns < shadow_ticks_required (policy cfg) ->
  advance_all turns s = Ret (set_shadow_ticks (shadow_window turns) s).
Proof.
  intros Hst Hr H0 Hreq. induction turns as [|[t b] turns IH] using rev_ind; intros Hopen.
  - simpl. by rewrite set_shadow_same.
  - rewrite shadow_window_snoc in *. simpl in *. assert (0 <= shadow_window turns) by (unfold shadow_window; lia).
    rewrite advance_all_snoc, IH by (destruct t; lia). simpl.
    destruct Hst as [Hc Hs Hp].
    rewrite (advance_shadow_waits c) by (done || (simpl; destruct t; lia)). by destruct t.
Qed.
End Guarantees.

(** ** Theorems *)

(** C8: an agent that falls silent stops the robot.  From any state, at the first turn
    checked later than the timeout after the last contact, and in every silent turn after
    it, the loop does not panic, no controller runs at its end, and nothing is sent but one
    stop frame when something was running. *)
Theorem silent_agent_stops_robot (uuid_at : nat -> string) (utc_at : nat -> DateTime) (cfg : LoopConfig)
    (s : LoopState) (env : TickEnv) (envs : list TickEnv)
    (Hs : Forall (silent cfg s) (env :: envs))
    (Hn : tick_number s + Z.of_nat (length (env :: envs)) <= u64_max) :
  exists s', loop_run uuid_at utc_at cfg (env :: envs) s = Ret s' /\ quiet s' /\
    sent s' = sent s ++ (if any_controller_running s && has_actuator cfg then [stop_frame s] else []).
Proof.
  apply Forall_cons in Hs as [He Hs]. simpl in *.
  destruct (silent_tick uuid_at utc_at cfg env s He) as (s1 & -> & Hq & Hl & Hn1 & E); [lia|]. simpl.
  rewrite <- E. apply silent_run; [|lia|done]. eapply Forall_impl; [exact Hs|].
  intros x (? & ? & ?). unfold silent. by rewrite Hl.
Qed.

(** the canary stage is exactly as long as the policy says.  While no run of counted
    turns has reached the required length, advancing only keeps the count of the last ones
    that counted in a row (a bounded or missed command starts it over, a turn the candidate
    did not tick leaves it); the turn that completes the run ends the stage without a
    panic: the candidate becomes active and the controller it replaces is kept for
    rollback, or it is rejected with a reason and the active one stays. *)
Theorem canary_stage_exact (uuid_at : nat -> string) (utc_at : nat -> DateTime) (cfg : LoopConfig)
    (c : LoadedController) (s : LoopState) (turns : list (bool * bool))
    (Hst : staged c Canary s) (Hr : allows_rollout (policy cfg) = true) (H0 : canary_ticks s = 0)
    (Hreq : canary_ticks_required (policy cfg) <= u64_max)
    (Hopen : forall k, (k <= length turns)%nat ->
       canary_window (take k turns) < canary_ticks_required (policy cfg)) :
  advance_all uuid_at utc_at cfg turns s = Ret (set_canary_ticks (canary_window turns) s) /\
  (canary_window turns + 1 = canary_ticks_required (policy cfg) ->
   exists s', advance_all uuid_at utc_at cfg (turns ++ [(true, true)]) s = Ret s' /\
     (promoted_to_active c s s' \/ candidate_rejected s s')).
Proof.
  pose proof (advance_all_canary uuid_at utc_at cfg c s turns Hst Hr H0 Hreq Hopen) as E.
  split; [exact E|]. intros Hn. rewrite advance_all_snoc, E. simpl.
  destruct Hst as [Hc Hs Hp].
  destruct (advance_canary_ends uuid_at utc_at cfg c (set_canary_ticks (canary_window turns) s))
    as (s' & -> & Hend); [done..|]. exists s'. split; [done|].
  destruct Hend as [Hend|Hend]; [by left|by right].
Qed.

(** the shadow stage takes exactly the required number of turns in which the candidate
    ticked, in a row or not; the turn that completes them ends the stage without a panic:
    the candidate enters the canary stage with its counters reset, or becomes active where
    the policy has no canary stage, or is rejected and the active controller stays. *)
Theorem shadow_stage_exact (uuid_at : nat -> string) (utc_at : nat -> DateTime) (cfg : LoopConfig)
    (c : LoadedController) (s : LoopState) (turns : list (bool * bool)) (counts : bool)
    (Hst : staged c Shadow s) (Hr : allows_rollout (policy cfg) = true) (H0 : shadow_ticks s = 0)
    (Hreq : shadow_ticks_required (policy cfg) <= u64_max)
    (Hn : shadow_window turns + 1 = shadow_ticks_required (policy cfg)) :
  advance_all uuid_at utc_at cfg turns s = Ret (set_shadow_ticks (shadow_window turns) s) /\
  exists s', advance_all uuid_at utc_at cfg (turns ++ [(true, counts)]) s = Ret s' /\
    ((if require_canary (policy cfg) then entered_canary c s s' else promoted_to_active c s s')
     \/ candidate_rejected s s').
Proof.
  pose proof (advance_all_shadow uuid_at utc_at cfg c s turns Hst Hr H0 Hreq ltac:(lia)) as E.
  split; [exact E|]. rewrite advance_all_snoc, E. simpl.
  destruct Hst as [Hc Hs Hp].
  destruct (advance_shadow_ends uuid_at utc_at cfg c (set_shadow_ticks (shadow_window turns) s) counts)
    as (s' & -> & Hend); [done..|]. exists s'. split; [done|].
  destruct (require_canary (policy cfg)); (destruct Hend as [Hend|Hend]; [by left|by right]).
Qed.

(** ** Concrete runs *)

Definition demo_cfg (require_shadow : bool) : LoopConfig := {|
  has_actuator := true; watchdog_timeout := from_secs 1;
  policy := with_rollout_policy require_shadow true true 3 1 2500 2500 u64_max |}.

(** A turn with these commands and guests, one millisecond after the last contact. *)
Definition turn (cmds : list RuntimeCommand) (active candidate : GuestTick) : TickEnv := {|
  env_emergency := []; env_commands := cmds; env_contact_at := 0; env_checked_at := 1000000;
  env_reported_at := 1000000; env_sensor := None; env_active := active; env_candidate := candidate |}.

Definition moves_by (x : f64) : GuestTick := demo_guest [x] false.
Definition half : f64 := f64_dec 5 1.

Definition install (id : string) : list TickEnv :=
  [turn [PreparedArtifact (demo_loaded id); PromoteActive] (moves_by half) (moves_by half);
   turn [] (moves_by half) (moves_by half)].

Definition demo_run (cfg : LoopConfig) (envs : list TickEnv) : exec LoopState :=
  loop_run demo_uuid demo_utc cfg envs (initial_state 0).

(** What an observer sees: who is active, who is the candidate, its stage, who the manager
    takes for current and in which state. *)
Definition observed (r : exec LoopState)
    : option (option string * option string * option DeploymentState * option string * option DeploymentState) :=
  match r with
  | Ret s => Some (loaded_id <$> active_slot s, loaded_id <$> candidate_slot s, candidate_state s,
      controller_id <$> current_artifact (manager s), current_state (manager s))
  | Panic => None
  end.

(** From nothing: the first controller is verified, sent through one canary turn (whose
    command moves the robot) and active. *)
Example first_install :
  observed (demo_run (demo_cfg false) (install "r")) = Some (Some "r", None, None, Some "r", Some Active)
  /\ match demo_run (demo_cfg false) (install "r") with
     | Ret s => sent s = [ {| values := [half] |} ]
     | Panic => False
     end.
Proof. by vm_compute. Qed.

(** With "a" active, "r" kept for rollback and "b" loaded as a candidate, a trap of "a" makes
    the loop run "r" again, but the manager restores what was active when "b" was loaded:
    "a", the controller that just failed. *)
Example restored_controller_is_not_the_managers :
  observed (demo_run (demo_cfg false)
    (install "r" ++ install "a" ++ [turn [PreparedArtifact (demo_loaded "b")] (moves_by half) (moves_by half);
     turn [] demo_trap (moves_by half)]))
  = Some (Some "r", Some "b", None, Some "a", Some Active).
Proof. by vm_compute. Qed.

(** Asking again for the promotion of a candidate in the shadow stage starts its stage over
    in the loop but not in the manager: the evidence is of the wrong mode and the candidate
    is rejected. *)
Example second_request_rejects_candidate :
  let once := [turn [PreparedArtifact (demo_loaded "r"); PromoteActive] (moves_by half) (moves_by half)] in
  observed (demo_run (demo_cfg true) once) = Some (None, Some "r", Some Shadow, Some "r", Some Shadow)
  /\ observed (demo_run (demo_cfg true) (once ++ [turn [] (moves_by half) (moves_by half)]))
     = Some (None, Some "r", Some Shadow, Some "r", Some Shadow)
  /\ observed (demo_run (demo_cfg true) (once ++ [turn [PromoteActive] (moves_by half) (moves_by half)]))
     = Some (None, None, None, Some "r", Some Rejected).
Proof. by vm_compute. Qed.

(** A sole active controller that traps is gone from the loop but stays active in the
    manager, which then remembers it as the last known good one. *)
Definition last_good (r : exec LoopState) : option string :=
  match r with Ret s => controller_id <$> last_known_good (manager s) | Panic => None end.

Example failed_controller_is_last_known_good :
  let trapped := install "r" ++ [turn [] demo_trap (moves_by half)] in
  observed (demo_run (demo_cfg false) trapped) = Some (None, None, None, Some "r", Some Active)
  /\ last_good (demo_run (demo_cfg false)
       (trapped ++ [turn [PreparedArtifact (demo_loaded "b")] (moves_by half) (moves_by half)])) = Some "r".
Proof. by vm_compute. Qed.

(** The runtime digests of a promotion are read from the artifact's own key: the gate that
    compares the two always passes. *)
Example runtime_gate_compares_the_key_with_itself (a : ControllerArtifact) :
  runtime_digests_for_artifact a = digests_of_key (verification_key a).
Proof. reflexivity. Qed.

(** ** Witnesses *)

Lemma silent_agent_stops_robot_witness :
  let s := state_after (demo_cfg false) (install "r") in
  let env := {| env_emergency := []; env_commands := []; env_contact_at := 0;
    env_checked_at := from_secs 2; env_reported_at := from_secs 2; env_sensor := None;
    env_active := moves_by half; env_candidate := moves_by half |} in
  exists s', loop_run demo_uuid demo_utc (demo_cfg false) [env; env] s = Ret s' /\ quiet s' /\
    sent s' = sent s ++ [frame_zero 6].
Proof.
  intros s env.
  destruct (silent_agent_stops_robot demo_uuid demo_utc (demo_cfg false) s env [env])
    as (s' & H & Hq & E).
  { repeat constructor. }
  { vm_compute. discriminate. }
  exists s'. split; [exact H|]. split; [exact Hq|]. rewrite E. vm_compute. reflexivity.
Defined.

Definition staged_state (st : DeploymentState) : LoopState :=
  set_promotion_requested true (set_candidate_state (Some st)
    (set_candidate_slot (Some (demo_loaded "c")) (initial_state 0))).

Lemma canary_stage_exact_witness :
  exists s', advance_all demo_uuid demo_utc (demo_cfg false) [(true, false); (false, true); (true, true)]
      (staged_state Canary) = Ret s' /\ candidate_state s' = None.
Proof.
  destruct (canary_stage_exact demo_uuid demo_utc (demo_cfg false) (demo_loaded "c") (staged_state Canary)
    [(true, false); (false, true)]) as [_ H]; [by constructor|done|done|done| |].
  { intros [|[|[|k]]] Hk; vm_compute in Hk |- *; try reflexivity; lia. }
  destruct H as (s' & Hs & [Ha|Hb]); [reflexivity|exists s'; split; [exact Hs|apply Ha]|].
  exists s'. split; [exact Hs|apply Hb].
Defined.

Lemma shadow_stage_exact_witness :
  exists s', advance_all demo_uuid demo_utc (demo_cfg true)
      [(true, false); (false, true); (true, true); (true, true)] (staged_state Shadow) = Ret s' /\
    candidate_state s' <> Some Shadow.
Proof.
  destruct (shadow_stage_exact demo_uuid demo_utc (demo_cfg true) (demo_loaded "c") (staged_state Shadow)
    [(true, false); (false, true); (true, true)] true) as [_ (s' & Hs & H)];
    [by constructor|done|done|done|done|].
  exists s'. split; [exact Hs|]. destruct H as [H|H].
  - destruct H as [-> _]. discriminate.
  - destruct H as (_ & -> & _). discriminate.
Defined.
