(* ===== verification/FrameTree.v ===== *)
(** * Frame trees (roz-core/embodiment/frame_tree.rs)

    Rigid transforms, the tree of coordinate frames with its updates, and the lookup of the
    transform between two frames through their lowest common ancestor.

    A [BTreeMap] is a [gmap]; where the code iterates over one, in the order of the keys, the
    model goes through [sorted_keys].  The two loops of a lookup that climb the tree are
    bounded by the number of frames; [lookup_transform_total] shows that this is never reached. *)

From stdpp Require Import sorting.
From S2P Require Import Prelude.
From S2P Require Import Float64.
From S2P Require Import Embodiment.
#[local] Open Scope string_scope.

(** ** Ordered collections of strings *)

(** The order of Rust strings is that of their bytes. *)
Definition str_le (s t : string) : Prop := Is_true (String.leb s t).

#[export] Instance str_le_dec : RelDecision str_le.
Proof. intros s t. unfold str_le. apply _. Defined.

(** The keys of a [BTreeMap], as its iterators yield them. *)
Definition sorted_keys {A : Type} (m : gmap string A) : list string :=
  merge_sort str_le (map fst (map_to_list m)).

(** [BTreeSet<String>], collected. *)
Definition sorted_set (s : gset string) : list string := merge_sort str_le (elements s).

(** [Vec::dedup]. *)
Fixpoint dedup {A : Type} `{EqDecision A} (l : list A) : list A :=
  match l with
  | x :: (y :: _) as l' => if decide (x = y) then dedup l' else x :: dedup l'
  | _ => l
  end.

(** [v.sort(); v.dedup();] *)
Definition sort_dedup (l : list string) : list string := dedup (merge_sort str_le l).

Lemma elem_of_sorted_keys {A} (m : gmap string A) k : k ∈ sorted_keys m <-> is_Some (m !! k).
Proof.
  unfold sorted_keys. rewrite merge_sort_Permutation, list_elem_of_fmap. split.
  - intros ([k' v] & -> & H). apply elem_of_map_to_list in H. by exists v.
  - intros [v H]. exists (k, v). by rewrite elem_of_map_to_list.
Qed.

Lemma NoDup_sorted_keys {A} (m : gmap string A) : NoDup (sorted_keys m).
Proof. unfold sorted_keys. rewrite merge_sort_Permutation. apply NoDup_fst_map_to_list. Qed.

Lemma length_sorted_keys {A} (m : gmap string A) : length (sorted_keys m) = size m.
Proof. unfold sorted_keys. by rewrite merge_sort_Permutation, length_map, length_map_to_list. Qed.

Lemma elem_of_sorted_set s x : x ∈ sorted_set s <-> x ∈ s.
Proof. unfold sorted_set. by rewrite merge_sort_Permutation, elem_of_elements. Qed.

Lemma elem_of_dedup {A} `{EqDecision A} (l : list A) x : x ∈ dedup l <-> x ∈ l.
Proof.
  induction l as [|y [|z l] IH]; [done..|]. cbn [dedup] in *.
  case_decide as Hd; [subst|]; rewrite ?elem_of_cons, IH, ?elem_of_cons; tauto.
Qed.

Lemma elem_of_sort_dedup l x : x ∈ sort_dedup l <-> x ∈ l.
Proof. unfold sort_dedup. by rewrite elem_of_dedup, merge_sort_Permutation. Qed.

Lemma sort_dedup_nil l : sort_dedup l = [] <-> l = [].
Proof.
  split; [|by intros ->]. intros H. apply elem_of_nil_inv. intros x Hx.
  apply elem_of_sort_dedup in Hx. rewrite H in Hx. by apply not_elem_of_nil in Hx.
Qed.

(** ** Transforms *)

(** A quaternion, [[w, x, y, z]]. *)
Record quat : Type := Q4 { qw : f64; qx : f64; qy : f64; qz : f64 }.

Record Transform3D : Type := {
  translation : vec3;
  rotation : quat;
  timestamp_ns : Z;
}.

#[export] Instance vec3_eq_dec : EqDecision vec3.
Proof. solve_decision. Defined.
#[export] Instance quat_eq_dec : EqDecision quat.
Proof. solve_decision. Defined.
#[export] Instance Transform3D_eq_dec : EqDecision Transform3D.
Proof. solve_decision. Defined.

Declare Scope f64_scope.
Delimit Scope f64_scope with f64.
#[local] Infix "+" := f64_add : f64_scope.
#[local] Infix "-" := f64_sub : f64_scope.
#[local] Infix "*" := f64_mul : f64_scope.

Definition two : f64 := f64_of_Z 2.

Definition identity : Transform3D :=
  {| translation := V3 zero zero zero; rotation := Q4 one zero zero zero; timestamp_ns := 0 |}.

(** The rotation matrix of the quaternion, applied to the point. *)
Definition rotate_point (q : quat) (p : vec3) : vec3 :=
  let '(Q4 w x y z) := q in
  let '(V3 px py pz) := p in
  let xx := (x * x)%f64 in
  let yy := (y * y)%f64 in
  let zz := (z * z)%f64 in
  let xy := (x * y)%f64 in
  let xz := (x * z)%f64 in
  let yz := (y * z)%f64 in
  let wx := (w * x)%f64 in
  let wy := (w * y)%f64 in
  let wz := (w * z)%f64 in
  V3 ((one - two * (yy + zz)) * px + two * (xy - wz) * py + two * (xz + wy) * pz)%f64
     (two * (xy + wz) * px + (one - two * (xx + zz)) * py + two * (yz - wx) * pz)%f64
     (two * (xz - wy) * px + two * (yz + wx) * py + (one - two * (xx + yy)) * pz)%f64.

(** [self * other]: applies [other] first. *)
Definition compose (self other : Transform3D) : Transform3D :=
  let q1 := rotation self in
  let q2 := rotation other in
  let w := (qw q1 * qw q2 - qx q1 * qx q2 - qy q1 * qy q2 - qz q1 * qz q2)%f64 in
  let x := (qw q1 * qx q2 + qx q1 * qw q2 + qy q1 * qz q2 - qz q1 * qy q2)%f64 in
  let y := (qw q1 * qy q2 - qx q1 * qz q2 + qy q1 * qw q2 + qz q1 * qx q2)%f64 in
  let z := (qw q1 * qz q2 + qx q1 * qy q2 - qy q1 * qx q2 + qz q1 * qw q2)%f64 in
  let rotated := rotate_point q1 (translation other) in
  {| translation := V3 (v0 (translation self) + v0 rotated)%f64
                       (v1 (translation self) + v1 rotated)%f64
                       (v2 (translation self) + v2 rotated)%f64;
     rotation := Q4 w x y z;
     timestamp_ns := Z.max (timestamp_ns self) (timestamp_ns other) |}.

(** The inverse, for a unit quaternion. *)
Definition inverse (self : Transform3D) : Transform3D :=
  let q := rotation self in
  let inv_q := Q4 (qw q) (f64_neg (qx q)) (f64_neg (qy q)) (f64_neg (qz q)) in
  let inv_t := rotate_point inv_q (translation self) in
  {| translation := V3 (f64_neg (v0 inv_t)) (f64_neg (v1 inv_t)) (f64_neg (v2 inv_t));
     rotation := inv_q;
     timestamp_ns := timestamp_ns self |}.

(** ** The tree *)

Inductive FrameSource : Type := SrcStatic | SrcDynamic | SrcComputed.

#[export] Instance FrameSource_eq_dec : EqDecision FrameSource.
Proof. solve_decision. Defined.

Record FrameNode : Type := {
  frame_id : string;
  parent_id : option string;
  static_transform : Transform3D;
  source : FrameSource;
}.

Record FrameTree : Type := {
  frames : gmap string FrameNode;
  root : option string;
}.

Inductive FrameTreeError : Type :=
| FrameNotFound (id : string)
| ParentNotFound (id : string)
| NoCommonAncestor (from to : string)
| CycleDetected (id : string)
| StaticFrameMutation (id : string).

#[export] Instance FrameTreeError_eq_dec : EqDecision FrameTreeError.
Proof. solve_decision. Defined.

Definition new : FrameTree := {| frames := ∅; root := None |}.

Definition frame_exists (self : FrameTree) (id : string) : bool := bool_decide (is_Some (frames self !! id)).
Definition all_frame_ids (self : FrameTree) : list string := sorted_keys (frames self).
Definition get_frame (self : FrameTree) (id : string) : option FrameNode := frames self !! id.

Definition set_root (self : FrameTree) (id : string) (src : FrameSource) : FrameTree :=
  {| root := Some id;
     frames := <[id := {| frame_id := id; parent_id := None;
                          static_transform := identity; source := src |}]> (frames self) |}.

Definition add_frame (self : FrameTree) (id parent : string) (transform : Transform3D)
    (src : FrameSource) : result unit FrameTreeError * FrameTree :=
  if negb (frame_exists self parent) then (Err (ParentNotFound parent), self)
  else
    (Ok tt,
     {| root := root self;
        frames := <[id := {| frame_id := id; parent_id := Some parent;
                             static_transform := transform; source := src |}]> (frames self) |}).

Definition with_node (self : FrameTree) (id : string) (n : FrameNode) : FrameTree :=
  {| root := root self; frames := <[id := n]> (frames self) |}.

Definition with_transform (n : FrameNode) (t : Transform3D) (src : FrameSource) : FrameNode :=
  {| frame_id := frame_id n; parent_id := parent_id n; static_transform := t; source := src |}.

Definition update_transform (self : FrameTree) (id : string) (transform : Transform3D)
    : result unit FrameTreeError * FrameTree :=
  match frames self !! id with
  | None => (Err (FrameNotFound id), self)
  | Some node =>
      if decide (source node = SrcStatic) then (Err (StaticFrameMutation id), self)
      else (Ok tt, with_node self id (with_transform node transform (source node)))
  end.

Definition overlay_transform (self : FrameTree) (id : string) (transform : Transform3D)
    (src : option FrameSource) : result unit FrameTreeError * FrameTree :=
  match frames self !! id with
  | None => (Err (FrameNotFound id), self)
  | Some node => (Ok tt, with_node self id (with_transform node transform (default (source node) src)))
  end.

(** ** Lookup *)

(** The loop of [chain_to_root]; [None]: out of fuel. *)
Fixpoint chain_loop (fuel : nat) (fs : gmap string FrameNode) (id : string)
    (chain : list string) (visited : gset string) (current : string)
    : option (result (list string) FrameTreeError) :=
  match fuel with
  | O => None
  | S fuel =>
      if decide (current ∈ visited) then Some (Err (CycleDetected id))
      else
        match fs !! current with
        | None => Some (Err (FrameNotFound current))
        | Some node =>
            match parent_id node with
            | Some parent => chain_loop fuel fs id (chain ++ [current])%list ({[current]} ∪ visited) parent
            | None => Some (Ok (chain ++ [current])%list)
            end
        end
  end.

Definition chain_to_root (self : FrameTree) (id : string) : option (result (list string) FrameTreeError) :=
  chain_loop (S (size (frames self))) (frames self) id [] ∅ id.

Fixpoint compose_loop (fuel : nat) (fs : gmap string FrameNode) (start ancestor : string)
    (acc : Transform3D) (current : string) : option (result Transform3D FrameTreeError) :=
  if decide (current = ancestor) then Some (Ok acc)
  else
    match fuel with
    | O => None
    | S fuel =>
        match fs !! current with
        | None => Some (Err (FrameNotFound current))
        | Some node =>
            match parent_id node with
            | None => Some (Err (NoCommonAncestor start ancestor))
            | Some parent =>
                compose_loop fuel fs start ancestor (compose (static_transform node) acc) parent
            end
        end
    end.

Definition compose_chain_to (self : FrameTree) (start ancestor : string)
    : option (result Transform3D FrameTreeError) :=
  compose_loop (size (frames self)) (frames self) start ancestor identity start.

(** [?] under the fuel. *)
Definition fuel_bind {T U E} (c : option (result T E)) (k : T -> option (result U E)) : option (result U E) :=
  match c with
  | Some (Ok v) => k v
  | Some (Err e) => Some (Err e)
  | None => None
  end.

Definition lookup_transform (self : FrameTree) (from to : string)
    : option (result Transform3D FrameTreeError) :=
  if decide (from = to) then Some (Ok identity)
  else
    fuel_bind (chain_to_root self from) (fun from_chain =>
    fuel_bind (chain_to_root self to) (fun to_chain =>
    fuel_bind (Some (ok_or (List.find (fun f => bool_decide (f ∈ from_chain)) to_chain)
                           (NoCommonAncestor from to))) (fun common =>
    fuel_bind (compose_chain_to self from common) (fun t_common_from =>
    fuel_bind (compose_chain_to self to common) (fun t_common_to =>
    Some (Ok (compose (inverse t_common_from) t_common_to))))))).

(** ** Climbing to the root *)

(** [walk fs f l e]: climbing from [f] meets the frames [l] in order and ends, at a frame without
    a parent ([e] is [None]) or because the frame [x] is missing ([e] is [Some x]). *)
Inductive walk (fs : gmap string FrameNode) : string -> list string -> option string -> Prop :=
| walk_missing f : fs !! f = None -> walk fs f [] (Some f)
| walk_root f n : fs !! f = Some n -> parent_id n = None -> walk fs f [f] None
| walk_up f n p l e :
    fs !! f = Some n -> parent_id n = Some p -> walk fs p l e -> walk fs f (f :: l) e.

(** [steps fs f c g]: climbing from [f] passes through the frames [c] and then stands at [g]. *)
Inductive steps (fs : gmap string FrameNode) (f : string) : list string -> string -> Prop :=
| steps_nil : steps fs f [] f
| steps_snoc c g n p :
    steps fs f c g -> fs !! g = Some n -> parent_id n = Some p -> steps fs f (c ++ [g]) p.

(** The composition of the transforms on the way up. *)
Definition rise (fs : gmap string FrameNode) (p : list string) : Transform3D :=
  fold_left (fun acc f => match fs !! f with
                          | Some n => compose (static_transform n) acc
                          | None => acc
                          end) p identity.

Section Climbing.
Context (fs : gmap string FrameNode).

Lemma walk_det f l e l' e' : walk fs f l e -> walk fs f l' e' -> l = l' /\ e = e'.
Proof.
  intros H. revert l' e'. induction H as [f Hf|f n Hf Hp|f n p l e Hf Hp _ IH]; intros l' e' H';
    inversion H' as [g Hg|g m Hg Hq|g m q k e'' Hg Hq Hk]; simplify_eq; try done.
  by destruct (IH _ _ Hk) as [-> ->].
Qed.

Lemma steps_up f n p c g : fs !! f = Some n -> parent_id n = Some p -> steps fs p c g -> steps fs f (f :: c) g.
Proof.
  intros Hf Hp. induction 1 as [|c g m q _ IH Hg Hq].
  - apply (steps_snoc fs f [] f n p); [constructor|done..].
  - exact (steps_snoc fs f (f :: c) g m q IH Hg Hq).
Qed.

Lemma steps_walk f c g : steps fs f c g -> forall l e,
  walk fs f l e <-> exists l', l = (c ++ l')%list /\ walk fs g l' e.
Proof.
  induction 1 as [|c g n p _ IH Hg Hp]; intros l e; [by split; [eauto|intros (? & -> & ?)]|].
  rewrite IH. split.
  - intros (k & -> & Hk). inversion Hk as [x Hx|x m Hx Hq|x m q k' e' Hx Hq Hk']; simplify_eq.
    exists k'. by rewrite <- (assoc_L (++)).
  - intros (k & -> & Hk). exists (g :: k). rewrite <- (assoc_L (++)). split; [done|].
    by apply (walk_up fs g n p).
Qed.

Lemma steps_split f c g x : steps fs f c g -> x ∈ c ->
  exists c1 c2, c = (c1 ++ x :: c2)%list /\ steps fs x (x :: c2) g.
Proof.
  induction 1 as [|c g n p Hs IH Hg Hp]; intros Hx; [by apply not_elem_of_nil in Hx|].
  apply elem_of_app in Hx as [Hx|Hx%list_elem_of_singleton].
  - destruct (IH Hx) as (c1 & c2 & -> & Hs'). exists c1, (c2 ++ [g])%list.
    rewrite <- (assoc_L (++)). split; [done|]. exact (steps_snoc fs x _ _ _ _ Hs' Hg Hp).
  - subst x. exists c, []. split; [done|]. exact (steps_snoc fs g [] g n p (steps_nil fs g) Hg Hp).
Qed.

Lemma steps_present f c g : steps fs f c g -> forall x, x ∈ c -> is_Some (fs !! x).
Proof.
  induction 1 as [|c g n p _ IH Hg Hp]; intros x Hx; [by apply not_elem_of_nil in Hx|].
  apply elem_of_app in Hx as [Hx|Hx%list_elem_of_singleton]; [by apply IH|subst; eauto].
Qed.

(** A frame met twice is never left: the climb does not end. *)
Lemma steps_cycle f c : steps fs f c f -> c <> [] -> forall l e, ~ walk fs f l e.
Proof.
  intros Hs Hc l e Hw. destruct (proj1 (steps_walk _ _ _ Hs l e) Hw) as (l' & -> & Hw').
  destruct (walk_det _ _ _ _ _ Hw Hw') as [Hl _]. apply (f_equal length) in Hl.
  rewrite length_app in Hl. destruct c; [done|simpl in Hl; lia].
Qed.

Lemma walk_suffix f p c s e : walk fs f (p ++ c :: s) e -> walk fs c (c :: s) e.
Proof.
  revert f. induction p as [|x p IH]; intros f H.
  - simpl in H. assert (f = c) as ->; [by inversion H|]. done.
  - inversion H as [y Hy|y m Hy Hq|y m q k e' Hy Hq Hk]; simplify_eq; [by destruct p|by apply (IH q)].
Qed.

Lemma walk_steps f p c s e : walk fs f (p ++ c :: s) e -> steps fs f p c.
Proof.
  revert f. induction p as [|x p IH]; intros f H.
  - simpl in H. assert (f = c) as ->; [by inversion H|]. constructor.
  - inversion H as [y Hy|y m Hy Hq|y m q k e' Hy Hq Hk]; simplify_eq; [by destruct p|].
    apply (steps_up _ m q); [done..|]. by apply IH.
Qed.

Lemma walk_fresh f p c s e : walk fs f (p ++ c :: s) e -> c ∉ p.
Proof.
  intros H Hc. destruct (steps_split _ _ _ _ (walk_steps _ _ _ _ _ H) Hc) as (p1 & p2 & -> & Hs).
  by apply (steps_cycle _ _ Hs ltac:(done) (c :: s) e), (walk_suffix f (p1 ++ c :: p2)).
Qed.

Lemma walk_nodup f l e : walk fs f l e -> NoDup l.
Proof.
  intros H. apply NoDup_alt. intros i j x Hi Hj.
  assert (forall i j, (i < j)%nat -> l !! i = Some x -> l !! j = Some x -> False) as Hlt.
  { intros i' j' Hij Hi' Hj'. pose proof (take_drop_middle l j' x Hj') as Hl.
    rewrite <- Hl in H. apply (walk_fresh _ _ _ _ _ H).
    apply (list_elem_of_lookup_2 _ i'). by rewrite lookup_take_lt. }
  destruct (lt_eq_lt_dec i j) as [[Hij|Hij]|Hij]; [|done|]; exfalso; eauto.
Qed.

Lemma steps_length f c g : steps fs f c g -> NoDup c -> (length c <= size fs)%nat.
Proof.
  intros Hs Hd. rewrite <- (size_dom (D := gset string)), <- (size_list_to_set (C := gset string)) by done.
  apply subseteq_size. intros x Hx%elem_of_list_to_set. apply elem_of_dom. by eapply steps_present.
Qed.

Lemma walk_length f l : walk fs f l None -> (length l <= size fs)%nat.
Proof.
  intros H. pose proof (walk_nodup _ _ _ H) as Hd.
  rewrite <- (size_dom (D := gset string)), <- (size_list_to_set (C := gset string)) by done.
  apply subseteq_size. intros x Hx%elem_of_list_to_set. apply elem_of_dom.
  apply list_elem_of_split in Hx as (p & s & ->). apply walk_suffix in H.
  inversion H; simplify_eq; eauto.
Qed.

(** The three ends of the loop. *)
Definition chain_outcome (id : string) (r : result (list string) FrameTreeError) : Prop :=
  match r with
  | Ok l => walk fs id l None
  | Err (FrameNotFound x) => exists l, walk fs id l (Some x)
  | Err (CycleDetected i) => i = id /\ forall l e, ~ walk fs id l e
  | Err _ => False
  end.

Lemma chain_loop_spec id : forall fuel chain visited current,
  steps fs id chain current -> NoDup chain -> visited = list_to_set chain ->
  (size fs < fuel + length chain)%nat ->
  exists r, chain_loop fuel fs id chain visited current = Some r /\ chain_outcome id r.
Proof.
  induction fuel as [|fuel IH]; intros chain visited current Hs Hd -> Hf.
  { pose proof (steps_length _ _ _ Hs Hd). simpl in Hf. lia. }
  simpl. case_decide as Hv; [|destruct (fs !! current) as [n|] eqn:Hn].
  - eexists. split; [done|]. split; [done|]. intros l e Hw.
    apply elem_of_list_to_set in Hv.
    destruct (steps_split _ _ _ _ Hs Hv) as (c1 & c2 & _ & Hc).
    destruct (proj1 (steps_walk _ _ _ Hs l e) Hw) as (l' & _ & Hw').
    by apply (steps_cycle _ _ Hc ltac:(done) l' e).
  - destruct (parent_id n) as [p|] eqn:Hp.
    + apply IH; [by apply (steps_snoc _ _ _ _ n)| |set_solver|rewrite length_app; simpl; lia].
      apply NoDup_app. split; [done|]. split; [|by apply NoDup_singleton].
      intros x Hx ->%list_elem_of_singleton. by apply Hv, elem_of_list_to_set.
    + eexists. split; [done|]. apply (steps_walk _ _ _ Hs). exists [current].
      split; [done|]. by apply (walk_root _ _ n).
  - eexists. split; [done|]. exists chain. apply (steps_walk _ _ _ Hs). exists [].
    rewrite (right_id_L [] (++)). split; [done|]. by constructor.
Qed.

Lemma compose_loop_steps start ancestor : forall p fuel acc f,
  steps fs f p ancestor -> ancestor ∉ p -> (length p <= fuel)%nat ->
  compose_loop fuel fs start ancestor acc f
  = Some (Ok (fold_left (fun acc f => match fs !! f with
                                      | Some n => compose (static_transform n) acc
                                      | None => acc
                                      end) p acc)).
Proof.
  induction p as [|x p IH]; intros fuel acc f Hs Hn Hf.
  - inversion Hs as [|c ? ? ? ? ? ? Hc]; [|by destruct c]. destruct fuel; simpl; by rewrite decide_True.
  - assert (exists n q, x = f /\ fs !! f = Some n /\ parent_id n = Some q /\ steps fs q p ancestor)
      as (n & q & -> & Hx & Hp & Hq).
    { clear IH Hn Hf. remember (x :: p) as c eqn:Hc. revert x p Hc.
      induction Hs as [|c g n q Hs IH Hg Hp]; intros x p Hc; [done|].
      destruct c as [|y c]; simpl in Hc; injection Hc as -> <-.
      - inversion Hs as [|k ? ? ? ? ? ? Hk]; [|by destruct k]. subst.
        exists n, q. repeat split; [done..|constructor].
      - destruct (IH x c eq_refl) as (m & r & -> & Hx & Hr & Hs').
        exists m, r. repeat split; [done..|]. by apply (steps_snoc _ _ _ _ n). }
    apply not_elem_of_cons in Hn as [Hne Hn]. destruct fuel as [|fuel]; simpl in Hf; [lia|].
    simpl. rewrite decide_False by done. rewrite Hx, Hp. apply IH; [done..|lia].
Qed.

End Climbing.

(** [chain_to_root] always returns, with the frames up to the root, the first missing frame,
    or the news of a cycle, whichever the climb from [f] does. *)
Lemma chain_to_root_outcome t f :
  exists r, chain_to_root t f = Some r /\ chain_outcome (frames t) f r.
Proof.
  apply chain_loop_spec; [constructor|by apply NoDup_nil_2|done|simpl; lia].
Qed.

Lemma chain_to_root_walk t f l : walk (frames t) f l None -> chain_to_root t f = Some (Ok l).
Proof.
  intros H. destruct (chain_to_root_outcome t f) as (r & -> & Hr). do 2 f_equal.
  destruct r as [l'|[x| |a b|x|x]]; simpl in Hr; try done.
  - by destruct (walk_det _ _ _ _ _ _ H Hr) as [-> _].
  - destruct Hr as [k Hk]. by destruct (walk_det _ _ _ _ _ _ H Hk).
  - by destruct Hr as [_ Hr]; destruct (Hr _ _ H).
Qed.

Lemma compose_chain_walk t f p c s e :
  walk (frames t) f (p ++ c :: s) e -> (length p <= size (frames t))%nat ->
  compose_chain_to t f c = Some (Ok (rise (frames t) p)).
Proof.
  intros H Hl. unfold compose_chain_to.
  by rewrite (compose_loop_steps _ f c p) by eauto using walk_steps, walk_fresh.
Qed.

(** ** The lookup *)

Lemma find_first (l1 l2 : list string) :
  (List.find (fun f => bool_decide (f ∈ l1)) l2 = None /\ l1 ## l2) \/
  (exists p c s, l2 = (p ++ c :: s)%list /\ c ∈ l1 /\ l1 ## p /\
     List.find (fun f => bool_decide (f ∈ l1)) l2 = Some c).
Proof.
  induction l2 as [|y l2 IH]; simpl; [left; split; [done|]; intros x _; by apply not_elem_of_nil|].
  case_bool_decide as Hy.
  - right. exists [], y, l2. repeat split; [done|]. intros x _. by apply not_elem_of_nil.
  - destruct IH as [[-> Hd]|(p & c & s & -> & Hc & Hd & ->)].
    + left. split; [done|]. intros x Hx [->|H]%elem_of_cons; [done|by apply (Hd x)].
    + right. exists (y :: p), c, s. repeat split; [done|].
      intros x Hx [->|H]%elem_of_cons; [done|by apply (Hd x)].
Qed.

Lemma walks_meet fs f g l1 l2 :
  walk fs f l1 None -> walk fs g l2 None ->
  (List.find (fun f => bool_decide (f ∈ l1)) l2 = None /\ l1 ## l2) \/
  (exists p1 p2 c s, l1 = (p1 ++ c :: s)%list /\ l2 = (p2 ++ c :: s)%list /\ p1 ## p2 /\
     List.find (fun f => bool_decide (f ∈ l1)) l2 = Some c).
Proof.
  intros H1 H2. destruct (find_first l1 l2) as [[Hf Hd]|(p2 & c & s & -> & Hc & Hd & Hf)]; [by left|right].
  apply list_elem_of_split in Hc as (p1 & s1 & ->). exists p1, p2, c, s.
  destruct (walk_det _ _ _ _ _ _ (walk_suffix _ _ _ _ _ _ H1) (walk_suffix _ _ _ _ _ _ H2)) as [[= ->] _].
  repeat split; [|done]. intros x Hx Hx2. apply (Hd x); [apply elem_of_app; by left|done].
Qed.

(** What [lookup_transform] answers: the first frame of either chain that cannot be climbed to a
    root is reported; frames under different roots have no common ancestor; else the two
    ascents are composed at the lowest common ancestor. *)
Definition lookup_outcome (t : FrameTree) (from to : string) (r : result Transform3D FrameTreeError) : Prop :=
  match r with
  | Ok T =>
      exists p1 p2 c s,
        walk (frames t) from (p1 ++ c :: s) None /\ walk (frames t) to (p2 ++ c :: s) None /\ p1 ## p2 /\
        T = compose (inverse (rise (frames t) p1)) (rise (frames t) p2)
  | Err (NoCommonAncestor f g) =>
      f = from /\ g = to /\
      exists l1 l2, walk (frames t) from l1 None /\ walk (frames t) to l2 None /\ l1 ## l2
  | Err e =>
      chain_outcome (frames t) from (Err e) \/
      ((exists l, walk (frames t) from l None) /\ chain_outcome (frames t) to (Err e))
  end.

Lemma lookup_walks t from to l1 l2 :
  from <> to -> walk (frames t) from l1 None -> walk (frames t) to l2 None ->
  exists r, lookup_transform t from to = Some r /\ lookup_outcome t from to r.
Proof.
  intros Hne H1 H2. unfold lookup_transform.
  rewrite decide_False, (chain_to_root_walk _ _ _ H1) by done. simpl.
  rewrite (chain_to_root_walk _ _ _ H2). simpl.
  destruct (walks_meet _ _ _ _ _ H1 H2) as [[Hf Hd]|(p1 & p2 & c & s & -> & -> & Hd & Hf)].
  { rewrite Hf. simpl. eexists. split; [done|]. by repeat split; exists l1, l2. }
  rewrite Hf. simpl.
  pose proof (walk_length _ _ _ H1) as L1. pose proof (walk_length _ _ _ H2) as L2.
  rewrite length_app in L1, L2. simpl in L1, L2.
  rewrite (compose_chain_walk _ _ _ _ _ _ H1) by lia. simpl.
  rewrite (compose_chain_walk _ _ _ _ _ _ H2) by lia. simpl.
  eexists. split; [done|]. by exists p1, p2, c, s.
Qed.

Lemma lookup_transform_outcome t from to :
  from <> to -> exists r, lookup_transform t from to = Some r /\ lookup_outcome t from to r.
Proof.
  intros Hne. destruct (chain_to_root_outcome t from) as ([l1|e1] & E1 & H1).
  - destruct (chain_to_root_outcome t to) as ([l2|e2] & E2 & H2); [by eapply lookup_walks|].
    exists (Err e2). unfold lookup_transform. rewrite decide_False, E1 by done. simpl. rewrite E2.
    split; [done|]. simpl in H1. destruct e2; simpl in *; eauto; by destruct H2.
  - exists (Err e1). unfold lookup_transform. rewrite decide_False, E1 by done.
    split; [done|]. destruct e1; simpl in *; eauto; by destruct H1.
Qed.

(** C10: the lookup of the transform between two different frames returns on every tree, cycles
    and dangling parents included.  It succeeds exactly when both frames climb to the same root;
    it finds no common ancestor exactly when they climb to different roots; else it reports the
    missing frame the climb of the first frame that has no root ends at, or that its climb never
    ends. *)
Theorem lookup_failure_exact t from to :
  from <> to ->
  exists r, lookup_transform t from to = Some r /\
  let climbs_to f root := exists l, walk (frames t) f (l ++ [root]) None in
  let has_root f := exists root, climbs_to f root in
  match r with
  | Ok _ => exists root, climbs_to from root /\ climbs_to to root
  | Err (NoCommonAncestor f g) =>
      f = from /\ g = to /\ exists r1 r2, climbs_to from r1 /\ climbs_to to r2 /\ r1 <> r2
  | Err (FrameNotFound x) =>
      (exists l, walk (frames t) from l (Some x)) \/ (has_root from /\ exists l, walk (frames t) to l (Some x))
  | Err (CycleDetected f) =>
      (f = from \/ f = to /\ has_root from) /\ forall l e, ~ walk (frames t) f l e
  | Err _ => False
  end.
Proof.
  intros Hne. destruct (lookup_transform_outcome t from to Hne) as (r & E & H). exists r. split; [done|].
  assert (Hroot : forall f l, walk (frames t) f l None -> exists root k, l = (k ++ [root])%list).
  { intros f l Hw. remember None as e eqn:He. induction Hw as [| |f n p l e Hf Hp Hw IH]; [done|by exists f, []|].
    destruct (IH He) as (root & k & ->). by exists root, (f :: k). }
  destruct r as [T|[x| |f g|f|]]; cbn in *.
  - destruct H as (p1 & p2 & c & s & H1 & H2 & _). destruct (Hroot _ _ (walk_suffix _ _ _ _ _ _ H1)) as (root & k & Ek).
    rewrite Ek, !app_assoc in *. by exists root; split; eexists.
  - destruct H as [H|[[l Hl] H]]; [by left|]. right. split; [|done]. destruct (Hroot _ _ Hl) as (root & k & ->). by exists root, k.
  - by destruct H as [|[_ ?]].
  - destruct H as (-> & -> & l1 & l2 & H1 & H2 & Hd). split; [done|]. split; [done|].
    destruct (Hroot _ _ H1) as (r1 & k1 & ->), (Hroot _ _ H2) as (r2 & k2 & ->). exists r1, r2.
    split; [by eexists|]. split; [by eexists|]. intros ->. apply (Hd r2); apply elem_of_app; right; by left.
  - destruct H as [[-> H]|[[l Hl] [-> H]]]; (split; [|done]); [by left|right]. split; [done|].
    destruct (Hroot _ _ Hl) as (root & k & ->). by exists root, k.
  - by destruct H as [|[_ ?]].
Qed.

Lemma lookup_transform_total t from to : exists r, lookup_transform t from to = Some r.
Proof.
  destruct (decide (from = to)) as [->|Hne].
  - exists (Ok identity). unfold lookup_transform. by rewrite decide_True.
  - destruct (lookup_transform_outcome t from to Hne) as (r & -> & _). by exists r.
Qed.

(** ** Building trees *)

(** What the owner of a tree may do: add a frame under a new name, update, overlay.  An
    operation that fails leaves the tree as it was. *)
Inductive TreeOp : Type :=
| OpAdd (id parent : string) (t : Transform3D) (src : FrameSource)
| OpUpdate (id : string) (t : Transform3D)
| OpOverlay (id : string) (t : Transform3D) (src : option FrameSource).

Definition tree_op (self : FrameTree) (o : TreeOp) : FrameTree :=
  match o with
  | OpAdd id parent t src => snd (add_frame self id parent t src)
  | OpUpdate id t => snd (update_transform self id t)
  | OpOverlay id t src => snd (overlay_transform self id t src)
  end.

(** The names of added frames are new. *)
Fixpoint fresh_ops (self : FrameTree) (ops : list TreeOp) : bool :=
  match ops with
  | [] => true
  | o :: ops =>
      match o with OpAdd id _ _ _ => negb (frame_exists self id) | _ => true end
      && fresh_ops (tree_op self o) ops
  end.

(** A tree under one root. *)
Definition rooted (t : FrameTree) : Prop :=
  exists r, root t = Some r /\
    forall f, is_Some (frames t !! f) -> exists l, walk (frames t) f (l ++ [r]) None.

Lemma walk_parents fs fs' f l :
  (forall g, is_Some (fs !! g) -> parent_id <$> fs' !! g = parent_id <$> fs !! g) ->
  walk fs f l None -> walk fs' f l None.
Proof.
  intros He Hw. remember None as e eqn:Hnone. induction Hw as [f Hf|f n Hf Hp|f n p l e Hf Hp _ IH]; [done|..].
  - specialize (He f ltac:(eauto)). rewrite Hf in He.
    destruct (fs' !! f) as [m|] eqn:Hm; [|done]. simpl in He. injection He as He.
    apply (walk_root _ _ m); [done|by rewrite He].
  - specialize (He f ltac:(eauto)). rewrite Hf in He.
    destruct (fs' !! f) as [m|] eqn:Hm; [|done]. simpl in He. injection He as He.
    apply (walk_up _ _ m p); [done|by rewrite He|auto].
Qed.

(** An operation that keeps the frames and their parents. *)
Lemma rooted_same_parents t t' :
  root t' = root t -> (forall g, parent_id <$> frames t' !! g = parent_id <$> frames t !! g) ->
  rooted t -> rooted t'.
Proof.
  intros Hr Hp (r & Hroot & Hw). exists r. rewrite Hr. split; [done|].
  intros f [n Hf]. specialize (Hp f) as Hpf. rewrite Hf in Hpf.
  destruct (frames t !! f) as [m|] eqn:Hm; [|done]. destruct (Hw f ltac:(eauto)) as [l Hl].
  exists l. eapply walk_parents; [|exact Hl]. intros g _. apply Hp.
Qed.

Lemma with_transform_parents t f n T src g :
  frames t !! f = Some n ->
  parent_id <$> frames (with_node t f (with_transform n T src)) !! g = parent_id <$> frames t !! g.
Proof.
  intros Hf. simpl. destruct (decide (f = g)) as [->|Hne].
  - by rewrite lookup_insert_eq, Hf.
  - by rewrite lookup_insert_ne.
Qed.

Lemma rooted_op t o : fresh_ops t [o] = true -> rooted t -> rooted (tree_op t o).
Proof.
  intros Hfr Hrt. destruct o as [id p T src|id T|id T src]; simpl in *.
  - rewrite andb_true_r in Hfr. apply negb_true_iff, bool_decide_eq_false in Hfr as Hid.
    unfold add_frame, frame_exists. destruct (bool_decide_reflect (is_Some (frames t !! p))) as [Hp|]; [|done].
    destruct Hrt as (r & Hr & Hw). exists r. split; [done|]. simpl.
    assert (forall g l, walk (frames t) g l None ->
      walk (<[id := {| frame_id := id; parent_id := Some p; static_transform := T; source := src |}]>
        (frames t)) g l None) as Hmono.
    { intros g l. apply walk_parents. intros h Hh. rewrite lookup_insert_ne; [done|]. by intros ->. }
    intros f Hf. destruct (decide (f = id)) as [->|Hne].
    + destruct (Hw p Hp) as [l Hl]. exists (id :: l).
      eapply (walk_up _ _ _ p); [apply lookup_insert_eq|done|by apply Hmono].
    + rewrite lookup_insert_ne in Hf by done. destruct (Hw f Hf) as [l Hl]. exists l. by apply Hmono.
  - unfold update_transform. destruct (frames t !! id) as [n|] eqn:Hn; [|done].
    case_decide; [done|]. apply (rooted_same_parents t); [done| |done].
    intros g. by apply with_transform_parents.
  - unfold overlay_transform. destruct (frames t !! id) as [n|] eqn:Hn; [|done].
    apply (rooted_same_parents t); [done| |done]. intros g. by apply with_transform_parents.
Qed.

Lemma rooted_ops ops : forall t, fresh_ops t ops = true -> rooted t -> rooted (fold_left tree_op ops t).
Proof.
  induction ops as [|o ops IH]; intros t Hf Ht; [done|]. simpl in Hf. apply andb_true_iff in Hf as [H1 H2].
  apply IH; [done|]. apply rooted_op; [|done]. simpl. by rewrite H1.
Qed.

Lemma rooted_set_root r src : rooted (set_root new r src).
Proof.
  exists r. split; [done|]. simpl. intros f [n Hf].
  destruct (decide (f = r)) as [->|Hne].
  - exists []. simpl. by eapply walk_root; [apply lookup_insert_eq|].
  - by rewrite lookup_insert_ne, lookup_empty in Hf.
Qed.

(** In a tree under one root every two frames have a transform. *)
Lemma rooted_lookup t from to :
  rooted t -> frame_exists t from = true -> frame_exists t to = true ->
  exists T, lookup_transform t from to = Some (Ok T).
Proof.
  intros (r & _ & Hw) Hf%bool_decide_eq_true Ht%bool_decide_eq_true.
  destruct (decide (from = to)) as [->|Hne].
  { exists identity. unfold lookup_transform. by rewrite decide_True. }
  destruct (Hw _ Hf) as [l1 H1]. destruct (Hw _ Ht) as [l2 H2].
  destruct (lookup_walks t from to _ _ Hne H1 H2) as ([T|e] & -> & Hr); [by exists T|].
  destruct e as [x|x|f g|x|x]; simpl in Hr.
  - destruct Hr as [[k Hk]|[_ [k Hk]]]; [by destruct (walk_det _ _ _ _ _ _ H1 Hk)|by destruct (walk_det _ _ _ _ _ _ H2 Hk)].
  - by destruct Hr as [|[]].
  - destruct Hr as (-> & -> & k1 & k2 & Hk1 & Hk2 & Hd).
    destruct (walk_det _ _ _ _ _ _ H1 Hk1) as [<- _]. destruct (walk_det _ _ _ _ _ _ H2 Hk2) as [<- _].
    destruct (Hd r); apply elem_of_app; right; by apply list_elem_of_singleton.
  - destruct Hr as [[_ Hr]|[_ [_ Hr]]]; [by destruct (Hr _ _ H1)|by destruct (Hr _ _ H2)].
  - by destruct Hr as [|[]].
Qed.

(** in a tree built from its root by any sequence of additions under new names, updates and
    overlays, failed ones included, the transform between any two frames is found. *)
Theorem built_tree_lookups r src ops from to :
  let t := fold_left tree_op ops (set_root new r src) in
  fresh_ops (set_root new r src) ops = true ->
  frame_exists t from = true -> frame_exists t to = true ->
  exists T, lookup_transform t from to = Some (Ok T).
Proof.
  intros t Hf Hfrom Hto. apply rooted_lookup; [|done..]. apply rooted_ops; [done|]. apply rooted_set_root.
Qed.

(** ** Examples *)

Definition along_x (x : Z) : Transform3D :=
  {| translation := V3 (f64_of_Z x) zero zero; rotation := Q4 one zero zero zero; timestamp_ns := 0 |}.

(** world -> base -> tool, and world -> camera. *)
Definition arm_ops : list TreeOp :=
  [OpAdd "base" "world" (along_x 1) SrcStatic; OpAdd "tool" "base" (along_x 2) SrcComputed;
   OpAdd "camera" "world" (along_x 10) SrcStatic; OpUpdate "tool" (along_x 3); OpUpdate "base" (along_x 5)].

Definition arm : FrameTree := fold_left tree_op arm_ops (set_root new "world" SrcStatic).

Lemma built_tree_lookups_witness :
  let t := fold_left tree_op arm_ops (set_root new "world" SrcStatic) in
  exists T, lookup_transform t "tool" "camera" = Some (Ok T).
Proof. apply (built_tree_lookups "world" SrcStatic arm_ops); vm_compute; reflexivity. Defined.

Lemma lookup_failure_exact_witness : exists l root, walk (frames arm) "tool" (l ++ [root]) None /\ exists l', walk (frames arm) "camera" (l' ++ [root]) None.
Proof.
  destruct (lookup_failure_exact arm "tool" "camera") as (r & E & H); [intros H; discriminate H|].
  assert (Hok : match lookup_transform arm "tool" "camera" with Some (Ok _) => True | _ => False end) by (vm_compute; exact I).
  rewrite E in Hok. destruct r as [T|e]; [|destruct Hok]. destruct H as (root & [l H1] & [l' H2]). exists l, root. split; [exact H1|]. exists l'. exact H2.
Defined.

(** The x coordinate of the answer. *)
Definition lookup_x (t : FrameTree) (from to : string) : option f64 :=
  match lookup_transform t from to with Some (Ok T) => Some (v0 (translation T)) | _ => None end.

Definition is_x (o : option f64) (x : Z) : bool :=
  match o with Some y => f64_eq y (f64_of_Z x) | None => false end.

(** The camera is six units beyond the tool; the static base refused its update. *)
Example lookup_through_the_root : is_x (lookup_x arm "tool" "camera") 6 = true.
Proof. vm_compute. reflexivity. Qed.

(** [p_to = T * p_from] does not hold: the answer is the pose of [to] in [from], the point
    that is 3 in the frame of the tool is 7 in the world, and the lookup from tool to world
    moves it to -1. *)
Example lookup_is_the_pose_of_to_in_from :
  match lookup_transform arm "tool" "world" with
  | Some (Ok T) => f64_eq (v0 (translation (compose T (along_x 3)))) (f64_of_Z (-1))
  | _ => false
  end = true.
Proof. vm_compute. reflexivity. Qed.

(** A frame that does not exist has the identity to itself. *)
Example lookup_of_a_missing_frame : lookup_transform new "nowhere" "nowhere" = Some (Ok identity).
Proof. vm_compute. reflexivity. Qed.

(** Adding a frame that exists moves it: the root itself can be put under its child, after which
    no two frames of the arm can be related. *)
Example re_parented_root_is_a_cycle :
  let (r, t) := add_frame arm "world" "tool" identity SrcStatic in
  (r, lookup_transform t "tool" "camera") = (Ok tt, Some (Err (CycleDetected "tool"))).
Proof. vm_compute. reflexivity. Qed.

(** [set_root] on a tree that has a root leaves two. *)
Example two_roots_have_no_common_ancestor :
  lookup_transform (set_root arm "map" SrcStatic) "tool" "map" = Some (Err (NoCommonAncestor "tool" "map")).
Proof. vm_compute. reflexivity. Qed.
