(* ===== verification/FrameGraph.v ===== *)
(** * The embodiment runtime: its compiled frame graph and its snapshots

    The model, calibration and safety layers (roz-core/embodiment/model.rs, calibration.rs,
    safety_overlay.rs, frame_snapshot.rs) and the part of embodiment_runtime.rs that compiles
    them into a runtime, captures snapshots of its frame graph and resolves poses and joint
    chains in them.

    The digests (SHA-256 of a serialised record) and the sine and cosine are arguments. *)

From stdpp Require Import sorting.
From S2P Require Import Prelude.
From S2P Require Import Float64.
From S2P Require Import Deployment.
From S2P Require Import Embodiment.
From S2P Require Import FrameTree.
#[local] Open Scope string_scope.

(** ** model.rs *)

Inductive JointType : Type := Revolute | Prismatic | Fixed | Continuous.

Record Inertial : Type := { mass : f64; center_of_mass : vec3 }.

Inductive Geometry : Type :=
| GBox (half_extents : vec3)
| GSphere (radius : f64)
| GCylinder (radius length : f64)
| GMesh (path : string) (scale : option vec3).

Record CollisionBody : Type := {
  cb_link_name : string;
  geometry : Geometry;
  cb_origin : Transform3D;
}.

Record Link : Type := {
  link_name : string;
  parent_joint : option string;
  inertial : option Inertial;
  visual_geometry : option Geometry;
  collision_geometry : option Geometry;
}.

Record Joint : Type := {
  j_name : string;
  joint_type : JointType;
  parent_link : string;
  child_link : string;
  axis : vec3;
  origin : Transform3D;
  j_limits : JointSafetyLimits;
}.

Inductive TcpType : Type := TcpGripper | TcpTool | TcpSensor | TcpCustom.

Record ToolCenterPoint : Type := {
  tcp_name : string;
  tcp_parent_link : string;
  tcp_offset : Transform3D;
  tcp_type : TcpType;
}.

Inductive SensorType : Type :=
| SensorJointState | SensorForceTorque | SensorImu | SensorCamera | SensorPointCloud | SensorOther.

Record CameraFrustum : Type := {
  fov_horizontal_deg : f64;
  fov_vertical_deg : f64;
  near_clip_m : f64;
  far_clip_m : f64;
  resolution : option (Z * Z);
}.

Record SensorMount : Type := {
  sensor_id : string;
  sensor_parent_link : string;
  sensor_offset : Transform3D;
  sensor_type : SensorType;
  is_actuated : bool;
  actuation_joint : option string;
  frustum : option CameraFrustum;
}.

Record EmbodimentFamily : Type := { family_id : string; family_description : string }.

Record EmbodimentModel : Type := {
  model_id : string;
  model_digest : string;
  embodiment_family : option EmbodimentFamily;
  links : list Link;
  joints : list Joint;
  frame_tree : FrameTree;
  collision_bodies : list CollisionBody;
  allowed_collision_pairs : list (string * string);
  tcps : list ToolCenterPoint;
  sensor_mounts : list SensorMount;
  workspace_zones : list WorkspaceZone;
  watched_frames : list string;
  channel_bindings : list ChannelBinding;
}.

Definition with_model_digest (m : EmbodimentModel) (d : string) : EmbodimentModel := {|
  model_id := model_id m; model_digest := d; embodiment_family := embodiment_family m;
  links := links m; joints := joints m; frame_tree := frame_tree m;
  collision_bodies := collision_bodies m; allowed_collision_pairs := allowed_collision_pairs m;
  tcps := tcps m; sensor_mounts := sensor_mounts m; workspace_zones := workspace_zones m;
  watched_frames := watched_frames m; channel_bindings := channel_bindings m |}.

Definition get_joint (m : EmbodimentModel) (name : string) : option Joint :=
  List.find (fun j => String.eqb (j_name j) name) (joints m).
Definition get_link (m : EmbodimentModel) (name : string) : option Link :=
  List.find (fun l => String.eqb (link_name l) name) (links m).
Definition get_tcp (m : EmbodimentModel) (name : string) : option ToolCenterPoint :=
  List.find (fun t => String.eqb (tcp_name t) name) (tcps m).
Definition has_declared_watched_frames (m : EmbodimentModel) : bool :=
  match watched_frames m with [] => false | _ => true end.
Definition is_allowed_collision_pair (m : EmbodimentModel) (left right : string) : bool :=
  existsb (fun p => (String.eqb (fst p) left && String.eqb (snd p) right)
                    || (String.eqb (fst p) right && String.eqb (snd p) left))
          (allowed_collision_pairs m).

(** ** calibration.rs *)

Record SensorCalibration : Type := {
  sc_sensor_id : string;
  sc_offset : list f64;
  sc_scale : option (list f64);
  sc_calibrated_at : DateTime;
}.

Record CalibrationOverlay : Type := {
  calibration_id : string;
  calibration_digest : string;
  calibrated_at : DateTime;
  stale_after : option DateTime;
  joint_offsets : gmap string f64;
  frame_corrections : gmap string Transform3D;
  sensor_calibrations : gmap string SensorCalibration;
  temperature_range : option (f64 * f64);
  valid_for_model_digest : string;
}.

Definition with_calibration_digest (c : CalibrationOverlay) (d : string) : CalibrationOverlay := {|
  calibration_id := calibration_id c; calibration_digest := d; calibrated_at := calibrated_at c;
  stale_after := stale_after c; joint_offsets := joint_offsets c;
  frame_corrections := frame_corrections c; sensor_calibrations := sensor_calibrations c;
  temperature_range := temperature_range c; valid_for_model_digest := valid_for_model_digest c |}.

Definition calibration_is_stale (c : CalibrationOverlay) (now : DateTime) : bool :=
  match stale_after c with Some stale => (stale <=? now)%Z | None => false end.

(** ** safety_overlay.rs *)

Record ContactForceEnvelope : Type := {
  cfe_link_name : string;
  max_normal_force_n : f64;
  max_shear_force_n : f64;
  max_force_rate_n_per_s : f64;
}.

Record SafetyOverlay : Type := {
  overlay_digest : string;
  workspace_restrictions : list WorkspaceZone;
  joint_limit_overrides : gmap string JointSafetyLimits;
  max_payload_kg : option f64;
  human_presence_zones : list WorkspaceZone;
  force_limits : option ForceSafetyLimits;
  contact_force_envelopes : list ContactForceEnvelope;
  contact_allowed_zones : list WorkspaceZone;
  force_rate_limits : gmap string f64;
}.

(** ** frame_snapshot.rs *)

Inductive ClockDomain : Type := Monotonic | WallClock | SensorClock.

Record TimestampedTransform : Type := {
  tt_frame_id : string;
  tt_parent_id : option string;
  tt_transform : Transform3D;
  tt_freshness : FreshnessState;
  tt_source : FrameSource;
}.

Record WorldAnchor : Type := {
  anchor_id : string;
  wa_frame_id : string;
  wa_transform : Transform3D;
  wa_source : string;
  wa_confidence : f64;
}.

Record FrameSnapshotInput : Type := {
  in_clock_domain : ClockDomain;
  in_joint_positions : gmap string f64;
  in_dynamic_transforms : list TimestampedTransform;
  in_world_anchors : list WorldAnchor;
  in_validation_issues : list string;
}.

(** [FrameSnapshotInput::default()], with the joint positions of a caller. *)
Definition snapshot_input (positions : gmap string f64) : FrameSnapshotInput := {|
  in_clock_domain := Monotonic; in_joint_positions := positions; in_dynamic_transforms := [];
  in_world_anchors := []; in_validation_issues := [] |}.

Record FrameGraphSnapshot : Type := {
  snapshot_id : Z;
  snap_timestamp_ns : Z;
  snap_clock_domain : ClockDomain;
  snap_frame_tree : FrameTree;
  freshness : FreshnessState;
  snap_model_digest : string;
  snap_calibration_digest : string;
  snap_active_calibration_id : option string;
  dynamic_transforms : list TimestampedTransform;
  snap_watched_frames : list string;
  frame_freshness : gmap string FreshnessState;
  sources : list FrameSource;
  world_anchors : list WorldAnchor;
  snap_validation_issues : list string;
}.

(** ** The runtime *)

Record EmbodimentRuntime : Type := {
  model : EmbodimentModel;
  calibration : option CalibrationOverlay;
  safety_overlay : option SafetyOverlay;
  rt_model_digest : string;
  rt_calibration_digest : string;
  safety_digest : string;
  combined_digest : string;
  frame_graph : FrameTree;
  active_calibration_id : option string;
  joint_count : Z;
  tcp_count : Z;
  rt_watched_frames : list string;
  validation_issues : list string;
}.

(** [opt.into_iter().collect::<Vec<_>>().join(", ")]. *)
Fixpoint join_comma (l : list string) : string :=
  match l with
  | [] => ""
  | [s] => s
  | s :: l => s +:+ ", " +:+ join_comma l
  end.

(** *** Compilation of the frame graph *)

(** One turn of the inner loop, for the frame [f] of the copy of [pending]. *)
Definition place (src : FrameTree) (corrections : gmap string Transform3D)
    (st : FrameTree * list string * bool) (f : string) : FrameTree * list string * bool :=
  let '(compiled, pending, progressed) := st in
  match get_frame src f with
  | None => st
  | Some node =>
      match parent_id node with
      | None => st
      | Some parent =>
          if negb (frame_exists compiled parent) then st
          else
            let transform := default (static_transform node) (corrections !! f) in
            match add_frame compiled f parent transform (source node) with
            | (Ok _, compiled') =>
                (compiled', List.filter (fun g => negb (String.eqb f g)) pending, true)
            | (Err _, compiled') => (compiled', pending, progressed)
            end
      end
  end.

(** The outer loop; [None]: out of fuel, [inr]: a pass without progress. *)
Fixpoint compile_loop (fuel : nat) (src : FrameTree) (corrections : gmap string Transform3D)
    (compiled : FrameTree) (pending : list string) : option (FrameTree + list string) :=
  match pending with
  | [] => Some (inl compiled)
  | _ =>
      match fuel with
      | O => None
      | S fuel =>
          let '(compiled', pending', progressed) :=
            fold_left (place src corrections) pending (compiled, pending, false) in
          if progressed then compile_loop fuel src corrections compiled' pending'
          else Some (inr pending')
      end
  end.

(** [calibration.and_then(|overlay| overlay.frame_corrections.get(..))]. *)
Definition corrections_of (c : option CalibrationOverlay) : gmap string Transform3D :=
  match c with Some c => frame_corrections c | None => ∅ end.

Definition fallback_issue (pending : list string) : string :=
  "frame graph compilation fell back to source tree for unresolved frames: " +:+ join_comma pending.

Definition compiled_frame_graph (m : EmbodimentModel) (c : option CalibrationOverlay)
    : FrameTree * list string :=
  let src := frame_tree m in
  match root src with
  | None => (new, ["frame tree missing root frame"])
  | Some root_id =>
      match get_frame src root_id with
      | None => (new, ["frame tree root `" +:+ root_id +:+ "` missing node definition"])
      | Some root_node =>
          let compiled := set_root new root_id (source root_node) in
          let pending := List.filter (fun f => negb (String.eqb f root_id)) (all_frame_ids src) in
          match compile_loop (length pending) src (corrections_of c) compiled pending with
          | Some (inl compiled) => (compiled, [])
          | Some (inr unresolved) => (src, [fallback_issue unresolved])
          | None => (src, [])
          end
      end
  end.

(** ** What compilation yields *)

Section Compile.
Context (src : FrameTree) (corrections : gmap string Transform3D) (r : string) (root_node : FrameNode).
Hypothesis Hroot_node : frames src !! r = Some root_node.

(** The frames that climb to [r], whatever the node of [r] itself says. *)
Inductive reaches : string -> Prop :=
| reaches_root : reaches r
| reaches_up f n p : frames src !! f = Some n -> parent_id n = Some p -> reaches p -> reaches f.

Definition corrected_node (f : string) (n : FrameNode) : FrameNode :=
  if decide (f = r)
  then {| frame_id := r; parent_id := None; static_transform := identity; source := source root_node |}
  else {| frame_id := f; parent_id := parent_id n;
          static_transform := default (static_transform n) (corrections !! f); source := source n |}.

(** The whole tree under its root, with the corrections. *)
Definition corrected : gmap string FrameNode := map_imap (fun f n => Some (corrected_node f n)) (frames src).

Lemma lookup_corrected f : corrected !! f = corrected_node f <$> frames src !! f.
Proof. unfold corrected. rewrite map_lookup_imap. by destruct (frames src !! f). Qed.

(** The frames placed so far are those that are not pending, and they climb to the root. *)
Record compiling (compiled : FrameTree) (pending : list string) : Prop := {
  cp_root : root compiled = Some r;
  cp_frames : forall f, frames compiled !! f = if decide (f ∈ pending) then None else corrected !! f;
  cp_reaches : forall f, is_Some (frames compiled !! f) -> reaches f;
  cp_pending : forall f, f ∈ pending -> f <> r /\ is_Some (frames src !! f);
}.

Lemma elem_of_remove f g (l : list string) :
  g ∈ List.filter (fun h => negb (String.eqb f h)) l <-> g ∈ l /\ f <> g.
Proof.
  rewrite !list_elem_of_In, filter_In, negb_true_iff, String.eqb_neq. tauto.
Qed.

Definition placeable (compiled : FrameTree) (f : string) : option (FrameNode * string) :=
  match frames src !! f with
  | Some n => match parent_id n with
              | Some p => if frame_exists compiled p then Some (n, p) else None
              | None => None
              end
  | None => None
  end.

Lemma place_eq compiled pending progressed f :
  place src corrections (compiled, pending, progressed) f
  = match placeable compiled f with
    | None => (compiled, pending, progressed)
    | Some (n, p) =>
        ({| root := root compiled;
            frames := <[f := {| frame_id := f; parent_id := Some p;
                                static_transform := default (static_transform n) (corrections !! f);
                                source := source n |}]> (frames compiled) |},
         List.filter (fun g => negb (String.eqb f g)) pending, true)
    end.
Proof.
  unfold place, placeable, get_frame. destruct (frames src !! f) as [n|]; [|done].
  destruct (parent_id n) as [p|]; [|done]. unfold add_frame.
  by destruct (frame_exists compiled p).
Qed.

Lemma place_compiling compiled pending f n p :
  compiling compiled pending -> f ∈ pending -> placeable compiled f = Some (n, p) ->
  compiling {| root := root compiled;
               frames := <[f := {| frame_id := f; parent_id := Some p;
                                   static_transform := default (static_transform n) (corrections !! f);
                                   source := source n |}]> (frames compiled) |}
            (List.filter (fun g => negb (String.eqb f g)) pending).
Proof.
  intros [Hr Hf Hre Hp] Hin Hpl. unfold placeable in Hpl.
  destruct (frames src !! f) as [m|] eqn:Hm; [|done]. destruct (parent_id m) as [q|] eqn:Hq; [|done].
  unfold frame_exists in Hpl. case_bool_decide as Hex; [|done]. injection Hpl as -> ->.
  destruct (Hp _ Hin) as [Hne _]. split; simpl; [done|..].
  - intros g. destruct (decide (g = f)) as [->|Hg].
    + rewrite lookup_insert_eq, decide_False by (rewrite elem_of_remove; naive_solver).
      rewrite lookup_corrected, Hm. simpl. unfold corrected_node. by rewrite decide_False, Hq.
    + rewrite lookup_insert_ne, Hf by done.
      apply decide_ext. rewrite elem_of_remove. 
      split; [intros H; split; [done|by intros ->]|by intros [? _]].
  - intros g [x Hx]. destruct (decide (g = f)) as [->|Hg].
    + apply (reaches_up f n p); [done..|]. by apply Hre.
    + rewrite lookup_insert_ne in Hx by done. apply Hre. by exists x.
  - intros g. rewrite elem_of_remove. naive_solver.
Qed.

Lemma filter_shorter f (l : list string) :
  f ∈ l -> (length (List.filter (fun g => negb (String.eqb f g)) l) < length l)%nat.
Proof.
  induction l as [|x l IH]; intros H; [by apply not_elem_of_nil in H|]. simpl.
  pose proof (List.filter_length_le (fun g => negb (String.eqb f g)) l).
  destruct (String.eqb_spec f x) as [->|Hne]; simpl; [lia|].
  apply elem_of_cons in H as [->|H]; [done|]. specialize (IH H). lia.
Qed.

(** One pass over [l]: progress shortens [pending]; without progress nothing changed and no
    frame of [l] could be placed. *)
Lemma pass_spec l : forall compiled pending progressed,
  compiling compiled pending -> NoDup l -> (forall f, f ∈ l -> f ∈ pending) ->
  let '(compiled', pending', progressed') :=
    fold_left (place src corrections) l (compiled, pending, progressed) in
  compiling compiled' pending' /\
  (if progressed' then progressed = true \/ (length pending' < length pending)%nat
   else compiled' = compiled /\ pending' = pending /\ forall f, f ∈ l -> placeable compiled f = None) /\
  (length pending' <= length pending)%nat /\ (progressed = true -> progressed' = true).
Proof.
  induction l as [|f l IH]; intros compiled pending progressed Hc Hd Hl; cbn [fold_left].
  { split; [done|]. destruct progressed; [by auto|]. split; [|done].
    repeat split; [done..|]. intros f Hf. by apply not_elem_of_nil in Hf. }
  apply NoDup_cons in Hd as [Hfl Hd]. rewrite place_eq.
  assert (f ∈ pending) as Hfp by (apply Hl; left).
  destruct (placeable compiled f) as [[n p]|] eqn:Hpl.
  - pose proof (place_compiling _ _ _ _ _ Hc Hfp Hpl) as Hc'. specialize (IH _ _ true Hc' Hd).
    assert (forall g, g ∈ l -> g ∈ List.filter (fun h => negb (String.eqb f h)) pending) as Hl'.
    { intros g Hg. rewrite elem_of_remove. split; [apply Hl; by right|]. by intros ->. }
    specialize (IH Hl'). pose proof (filter_shorter f pending Hfp) as Hlt.
    destruct (fold_left _ _ _) as [[compiled' pending'] progressed'].
    destruct IH as (H1 & H2 & H3 & H4). split; [done|]. rewrite H4 by done.
    split; [right; lia|]. split; [lia|done].
  - assert (forall g, g ∈ l -> g ∈ pending) as Hl' by (intros g Hg; apply Hl; by right).
    specialize (IH _ _ progressed Hc Hd Hl').
    destruct (fold_left _ _ _) as [[compiled' pending'] progressed'].
    destruct IH as (H1 & H2 & H3 & H4). split; [done|]. split; [|done].
    destruct progressed'; [done|]. destruct H2 as (-> & -> & H2). repeat split; [done..|].
    intros g [->|Hg]%elem_of_cons; auto.
Qed.

(** The frames a pass without progress leaves are those that do not climb to the root. *)
Lemma stuck_unreachable compiled pending :
  compiling compiled pending -> (forall f, f ∈ pending -> placeable compiled f = None) ->
  forall f, f ∈ pending <-> is_Some (frames src !! f) /\ ~ reaches f.
Proof.
  intros [Hr Hf Hre Hp] Hst.
  assert (forall f, reaches f -> f ∉ pending) as Hno.
  { induction 1 as [|f n p Hn Hpa Hp' IH]; intros Hin; [by destruct (Hp _ Hin)|].
    specialize (Hst _ Hin). unfold placeable, frame_exists in Hst. rewrite Hn, Hpa in Hst.
    case_bool_decide as Hex; [done|]. apply Hex. rewrite Hf, decide_False, lookup_corrected by done.
    inversion Hp' as [|g m q Hm]; subst; [rewrite Hroot_node|rewrite Hm]; eauto. }
  intros f. split; [intros Hin; split; [by apply Hp|by intros H; apply (Hno f)]|].
  intros [[n Hn] Hun]. destruct (decide (f ∈ pending)) as [|Hin]; [done|]. exfalso.
  apply Hun, Hre. rewrite Hf, decide_False, lookup_corrected, Hn by done. eauto.
Qed.

Lemma compile_loop_step fuel compiled pending :
  pending <> [] ->
  compile_loop (S fuel) src corrections compiled pending
  = let '(compiled', pending', progressed) :=
      fold_left (place src corrections) pending (compiled, pending, false) in
    if progressed then compile_loop fuel src corrections compiled' pending' else Some (inr pending').
Proof. by destruct pending. Qed.

Lemma compile_loop_done fuel compiled (P : Prop) :
  compiling compiled [] ->
  (exists t, compile_loop fuel src corrections compiled [] = Some (inl t) /\
     t = {| root := Some r; frames := corrected |} /\ forall f, is_Some (frames src !! f) -> reaches f) \/ P.
Proof.
  intros [Hr Hf Hre _]. left. exists compiled. split; [by destruct fuel|].
  assert (frames compiled = corrected) as Hfe.
  { apply map_eq. intros f. rewrite Hf. apply decide_False, not_elem_of_nil. }
  split; [destruct compiled; simpl in *; by subst|].
  intros f [n Hn]. apply Hre. rewrite Hfe, lookup_corrected, Hn. eauto.
Qed.

Lemma pass_nodup l : forall compiled pending progressed,
  NoDup pending -> NoDup (snd (fst (fold_left (place src corrections) l (compiled, pending, progressed)))).
Proof.
  induction l as [|f l IH]; intros compiled pending progressed Hd; [done|]. cbn [fold_left].
  rewrite place_eq. destruct (placeable compiled f) as [[n p]|]; apply IH; [|done].
  apply NoDup_ListNoDup, List.NoDup_filter. by apply NoDup_ListNoDup.
Qed.

Lemma compile_loop_spec fuel : forall compiled pending,
  compiling compiled pending -> NoDup pending -> (length pending <= fuel)%nat ->
  (exists t, compile_loop fuel src corrections compiled pending = Some (inl t) /\
     t = {| root := Some r; frames := corrected |} /\ forall f, is_Some (frames src !! f) -> reaches f) \/
  (exists us, compile_loop fuel src corrections compiled pending = Some (inr us) /\ us <> [] /\
     forall f, f ∈ us <-> is_Some (frames src !! f) /\ ~ reaches f).
Proof.
  induction fuel as [|fuel IH]; intros compiled pending Hc Hd Hlen;
    destruct (decide (pending = [])) as [->|Hne]; [by apply compile_loop_done| |by apply compile_loop_done|].
  { destruct pending; [done|simpl in Hlen; lia]. }
  rewrite compile_loop_step by done.
  pose proof (pass_spec pending compiled pending false Hc Hd (fun f H => H)) as Hpass.
  pose proof (pass_nodup pending compiled pending false Hd) as Hnd.
  destruct (fold_left _ _ _) as [[compiled' p'] [|]]; simpl in Hnd;
    destruct Hpass as (H1 & H2 & H3 & _).
  - apply IH; [done|done|]. destruct H2 as [H2|H2]; [done|lia].
  - right. exists p'. split; [done|]. destruct H2 as (-> & -> & H2). split; [done|].
    by apply (stuck_unreachable compiled).
Qed.

End Compile.

(** The corrected tree is one tree: whatever the source made of its root, every frame climbs to it. *)
Lemma corrected_rooted src corrections r n :
  frames src !! r = Some n -> (forall f, is_Some (frames src !! f) -> reaches src r f) ->
  rooted {| root := Some r; frames := corrected src corrections r n |}.
Proof.
  intros Hn Hall. exists r. split; [done|]. simpl. intros f [x Hx].
  rewrite lookup_corrected in Hx. destruct (frames src !! f) as [m|] eqn:Hm; [|done].
  pose proof (Hall f ltac:(eauto)) as Hf. clear x m Hm Hx.
  assert (walk (corrected src corrections r n) r [r] None) as Hroot.
  { eapply walk_root; [by rewrite lookup_corrected, Hn|]. unfold corrected_node. by rewrite decide_True. }
  induction Hf as [|f k p Hk Hp Hf [l IH]]; [by exists []|].
  destruct (decide (f = r)) as [->|Hne]; [by exists []|].
  exists (f :: l). eapply (walk_up _ _ _ p); [rewrite lookup_corrected, Hk; done| |done].
  unfold corrected_node. by rewrite decide_False.
Qed.

Lemma compiled_frame_graph_cases m c r n :
  root (frame_tree m) = Some r -> frames (frame_tree m) !! r = Some n ->
  ((forall f, is_Some (frames (frame_tree m) !! f) -> reaches (frame_tree m) r f) /\
   compiled_frame_graph m c
   = ({| root := Some r; frames := corrected (frame_tree m) (corrections_of c) r n |}, [])) \/
  (exists us, us <> [] /\
     (forall f, f ∈ us <-> is_Some (frames (frame_tree m) !! f) /\ ~ reaches (frame_tree m) r f) /\
     compiled_frame_graph m c = (frame_tree m, [fallback_issue us])).
Proof.
  intros Hr Hn. unfold compiled_frame_graph, get_frame. rewrite Hr, Hn.
  set (pending := List.filter _ _).
  assert (forall f, f ∈ pending <-> is_Some (frames (frame_tree m) !! f) /\ f <> r) as Hin.
  { intros f. unfold pending. rewrite list_elem_of_In, filter_In, <- list_elem_of_In.
    unfold all_frame_ids. by rewrite elem_of_sorted_keys, negb_true_iff, String.eqb_neq. }
  destruct (compile_loop_spec (frame_tree m) (corrections_of c) r n Hn (length pending)
    (set_root new r (source n)) pending) as [(t & -> & -> & Hall)|(us & -> & Hne & Hus)];
    [|..|by left|right; by exists us].
  3: done.
  - split; [done|..].
    + intros f. simpl. rewrite lookup_corrected. case_decide as Hd.
      * apply Hin in Hd as [_ Hd]. by rewrite lookup_insert_ne.
      * destruct (decide (f = r)) as [->|Hfr].
        { rewrite lookup_insert_eq, Hn. simpl. unfold corrected_node. by rewrite decide_True. }
        rewrite lookup_insert_ne, lookup_empty by done.
        destruct (frames (frame_tree m) !! f) as [k|] eqn:Hk; [|done].
        destruct Hd. apply Hin. rewrite Hk. eauto.
    + intros f [x Hx]. simpl in Hx. destruct (decide (f = r)) as [->|Hfr]; [constructor|].
      by rewrite lookup_insert_ne, lookup_empty in Hx.
    + intros f Hf. apply Hin in Hf as [? ?]. done.
  - unfold pending. apply NoDup_ListNoDup, List.NoDup_filter, NoDup_ListNoDup, NoDup_sorted_keys.
Qed.

Lemma walk_reaches src r f l : walk (frames src) f (l ++ [r]) None -> reaches src r f.
Proof.
  revert f. induction l as [|x l IH]; intros f H; inversion H as [|g n Hg Hp|g n p k e Hg Hp Hk]; simplify_eq.
  - constructor.
  - by inversion Hk.
  - by destruct l.
  - apply (reaches_up _ _ _ n p); auto.
Qed.

(** A tree that was built under one root compiles without fallback. *)
Lemma rooted_reaches src r :
  rooted src -> root src = Some r -> forall f, is_Some (frames src !! f) -> reaches src r f.
Proof.
  intros (r' & Hr & Hw) Hr' f Hf. rewrite Hr in Hr'. injection Hr' as ->.
  destruct (Hw f Hf) as [l Hl]. by eapply walk_reaches.
Qed.

(** compilation yields the source tree under its root with the calibration's corrections, if
    every frame climbs to the root; otherwise the source tree as it was, with no correction at
    all, and one issue that names exactly the frames that do not climb to the root. *)
Theorem compiled_frame_graph_exact m c r n :
  root (frame_tree m) = Some r -> frames (frame_tree m) !! r = Some n ->
  ((forall f, is_Some (frames (frame_tree m) !! f) -> reaches (frame_tree m) r f) /\
   compiled_frame_graph m c
   = ({| root := Some r; frames := corrected (frame_tree m) (corrections_of c) r n |}, [])) \/
  (exists us, us <> [] /\
     (forall f, f ∈ us <-> is_Some (frames (frame_tree m) !! f) /\ ~ reaches (frame_tree m) r f) /\
     compiled_frame_graph m c = (frame_tree m, [fallback_issue us])).
Proof. apply compiled_frame_graph_cases. Qed.

(** ** Examples *)

(** A model that is only its frame tree, and a calibration of the tool of [arm]. *)
Definition bare_model (t : FrameTree) : EmbodimentModel := {|
  model_id := "demo"; model_digest := ""; embodiment_family := None; links := []; joints := [];
  frame_tree := t; collision_bodies := []; allowed_collision_pairs := []; tcps := [];
  sensor_mounts := []; workspace_zones := []; watched_frames := []; channel_bindings := [] |}.

Definition tool_calibration : CalibrationOverlay := {|
  calibration_id := "cal"; calibration_digest := "d"; calibrated_at := 0%Z; stale_after := Some 10%Z;
  joint_offsets := ∅; frame_corrections := {[ "tool" := along_x 4 ]}; sensor_calibrations := ∅;
  temperature_range := None; valid_for_model_digest := "m" |}.

Lemma compiled_frame_graph_exact_witness :
  exists n, frames arm !! "world" = Some n /\
  (((forall f, is_Some (frames arm !! f) -> reaches arm "world" f) /\
   compiled_frame_graph (bare_model arm) (Some tool_calibration)
   = ({| root := Some "world"; frames := corrected arm {[ "tool" := along_x 4 ]} "world" n |}, [])) \/
  (exists us, us <> [] /\
     (forall f, f ∈ us <-> is_Some (frames arm !! f) /\ ~ reaches arm "world" f) /\
     compiled_frame_graph (bare_model arm) (Some tool_calibration) = (arm, [fallback_issue us]))).
Proof.
  eexists. split; [vm_compute; reflexivity|].
  apply (compiled_frame_graph_exact (bare_model arm) (Some tool_calibration) "world"); vm_compute; reflexivity.
Defined.

(** The correction of the tool moves it from 3 to 4 beyond the base, so the camera is nearer. *)
Example correction_is_applied :
  is_x (lookup_x (fst (compiled_frame_graph (bare_model arm) (Some tool_calibration))) "tool" "camera") 5 = true.
Proof. vm_compute. reflexivity. Qed.

(** One frame that hangs on a missing parent (as a deserialised tree may have) costs every
    correction, also of the frames that are connected. *)
Example one_detached_frame_drops_the_calibration :
  let broken := with_node arm "antenna" {| frame_id := "antenna"; parent_id := Some "mast";
                                           static_transform := identity; source := SrcStatic |} in
  let (t, issues) := compiled_frame_graph (bare_model broken) (Some tool_calibration) in
  is_x (lookup_x t "tool" "camera") 6 = true /\ issues = [fallback_issue ["antenna"]].
Proof. vm_compute. split; reflexivity. Qed.
