(* ===== verification/Snapshot.v ===== *)
(** * Snapshots of the frame graph (roz-core/embodiment/embodiment_runtime.rs)

    How a runtime is compiled from its layers, how a snapshot of its frames is built from joint
    positions and caller-supplied transforms, and how poses and joint chains are resolved.

    [sin], [cos] and the digests are arguments; the loops that follow links and frames carry the
    set of names they have seen, and their fuel is the number of names plus one
    ([link_frame_loop_total], [joint_chain_loop_total]). *)

From stdpp Require Import sorting.
From S2P Require Import Prelude.
From S2P Require Import Float64.
From S2P Require Import Deployment.
From S2P Require Import Embodiment.
From S2P Require Import FrameTree.
From S2P Require Import FrameGraph.
#[local] Open Scope string_scope.

(** [FrameTreeError]'s [Display]. *)
Definition display_error (e : FrameTreeError) : string :=
  match e with
  | FrameNotFound x => "frame not found: " +:+ x
  | ParentNotFound x => "parent frame not found: " +:+ x
  | NoCommonAncestor f g => "no common ancestor between " +:+ f +:+ " and " +:+ g
  | CycleDetected x => "cycle detected at frame: " +:+ x
  | StaticFrameMutation x =>
      "cannot mutate static frame: " +:+ x
      +:+ " — use CalibrationOverlay for static geometry corrections"
  end.

Definition is_fresh (s : FreshnessState) : bool := match s with Fresh => true | _ => false end.

(** ** Watched frames *)

(** [watched.insert] of a frame the tree has. *)
Definition watch (t : FrameTree) (s : gset string) (f : string) : gset string :=
  if frame_exists t f then {[f]} ∪ s else s.

Definition overlay_zones (o : SafetyOverlay) : list WorkspaceZone :=
  workspace_restrictions o ++ human_presence_zones o ++ contact_allowed_zones o.

Definition infer_watched_frames (m : EmbodimentModel) (c : option CalibrationOverlay)
    (o : option SafetyOverlay) : list string :=
  let t := frame_tree m in
  let w := match root t with Some r => {[r]} | None => ∅ end in
  let w := fold_left (watch t) (map tcp_parent_link (tcps m)) w in
  let w := fold_left (watch t) (map sensor_parent_link (sensor_mounts m)) w in
  let w := fold_left (watch t) (map origin_frame (workspace_zones m)) w in
  let w := fold_left (watch t) (map b_frame_id (channel_bindings m)) w in
  let w := match c with
           | Some c => fold_left (watch t) (sorted_keys (frame_corrections c)) w
           | None => w
           end in
  let w := match o with
           | Some o => fold_left (watch t) (map origin_frame (overlay_zones o)) w
           | None => w
           end in
  sorted_set w.

Definition resolve_watched_frames (m : EmbodimentModel) (c : option CalibrationOverlay)
    (o : option SafetyOverlay) (graph : FrameTree) : list string * list string :=
  if has_declared_watched_frames m then
    let issues :=
      map (fun f => "watched frame `" +:+ f +:+ "` missing from compiled frame graph")
          (List.filter (fun f => negb (frame_exists graph f)) (watched_frames m)) in
    (sort_dedup (List.filter (frame_exists graph) (watched_frames m)), issues)
  else
    let watched := infer_watched_frames m c o in
    (watched, match watched with
              | [] => []
              | _ => ["watched frames inferred from legacy model fields"]
              end).

(** ** Validation *)

Definition missing_frame_issue (graph : FrameTree) (sf : string * string) : list string :=
  let (subject, f) := sf in
  if frame_exists graph f then [] else [subject +:+ " references missing frame `" +:+ f +:+ "`"].

Definition collect_validation_issues (m : EmbodimentModel) (c : option CalibrationOverlay)
    (calibration_applied : bool) (o : option SafetyOverlay) (graph : FrameTree) : list string :=
  let frame_issues := flat_map (missing_frame_issue graph) in
  let zone_subject kind z := (kind +:+ " `" +:+ zone_name z +:+ "`", origin_frame z) in
  sort_dedup
    ((match root (frame_tree m) with None => ["model frame tree has no root"] | Some _ => [] end)
     ++ frame_issues (map (fun t => ("tcp `" +:+ tcp_name t +:+ "` parent link", tcp_parent_link t)) (tcps m))
     ++ frame_issues (map (fun s => ("sensor `" +:+ sensor_id s +:+ "` parent link", sensor_parent_link s))
                          (sensor_mounts m))
     ++ frame_issues (map (zone_subject "workspace zone") (workspace_zones m))
     ++ frame_issues (map (fun b => ("channel binding `" +:+ physical_name b +:+ "`", b_frame_id b))
                          (channel_bindings m))
     ++ (match c with
         | None => []
         | Some c =>
             (if calibration_applied then []
              else ["calibration `" +:+ calibration_id c
                    +:+ "` was not applied because it is not valid for model digest `"
                    +:+ model_digest m +:+ "`"])
             ++ frame_issues (map (fun f => ("calibration `" +:+ calibration_id c +:+ "` correction", f))
                                  (sorted_keys (frame_corrections c)))
         end)
     ++ (match o with
         | None => []
         | Some o =>
             flat_map (fun j => match get_joint m j with
                                | Some _ => []
                                | None => ["safety overlay joint override references missing joint `" +:+ j +:+ "`"]
                                end) (sorted_keys (joint_limit_overrides o))
             ++ flat_map (fun e => match get_link m (cfe_link_name e) with
                                   | Some _ => []
                                   | None => ["safety overlay contact envelope references missing link `"
                                              +:+ cfe_link_name e +:+ "`"]
                                   end) (contact_force_envelopes o)
             ++ flat_map (fun s => if existsb (fun x => String.eqb (sensor_id x) s) (sensor_mounts m) then []
                                   else ["safety overlay force-rate limit references missing sensor `"
                                         +:+ s +:+ "`"]) (sorted_keys (force_rate_limits o))
             ++ frame_issues (map (zone_subject "safety zone") (overlay_zones o))
         end))%list.

(** ** Compilation of the layers *)

Section Digests.
(** SHA-256 in hexadecimal of a string, of a serialised model, of a serialised calibration. *)
Context (sha256_hex : string -> string) (hash_model : EmbodimentModel -> string)
        (hash_calibration : CalibrationOverlay -> string).

Definition compute_digest (m : EmbodimentModel) : string := hash_model (with_model_digest m "").

Definition calibration_compute_digest (c : CalibrationOverlay) : string :=
  hash_calibration (with_calibration_digest c "").

Definition is_valid_for_model (c : CalibrationOverlay) (digest : string) : bool :=
  negb (String.eqb (calibration_digest c) "")
  && String.eqb (calibration_digest c) (calibration_compute_digest c)
  && String.eqb (valid_for_model_digest c) digest.

Definition compile (model_in : EmbodimentModel) (c : option CalibrationOverlay)
    (o : option SafetyOverlay) : EmbodimentRuntime :=
  let digest := compute_digest model_in in
  let normalized :=
    if String.eqb (model_digest model_in) digest then []
    else ["model digest was normalized at runtime: provided=" +:+ model_digest model_in
          +:+ " computed=" +:+ digest] in
  let m := with_model_digest model_in digest in
  let valid := match c with
               | Some cal => if is_valid_for_model cal digest then Some cal else None
               | None => None
               end in
  let cal_digest := match valid with Some cal => calibration_digest cal | None => "none" end in
  let saf_digest := match o with Some o => overlay_digest o | None => "none" end in
  let (graph, graph_issues) := compiled_frame_graph m valid in
  let (watched, watched_issues) := resolve_watched_frames m valid o graph in
  let applied := match valid with Some _ => true | None => false end in
  {| model := m; calibration := c; safety_overlay := o;
     rt_model_digest := digest; rt_calibration_digest := cal_digest; safety_digest := saf_digest;
     combined_digest := sha256_hex (digest +:+ ":" +:+ cal_digest +:+ ":" +:+ saf_digest);
     frame_graph := graph;
     active_calibration_id := calibration_id <$> valid;
     joint_count := Z.of_nat (length (joints m));
     tcp_count := Z.of_nat (length (tcps m));
     rt_watched_frames := watched;
     validation_issues :=
       sort_dedup (normalized ++ graph_issues ++ watched_issues
                   ++ collect_validation_issues m c applied o graph)%list |}.

End Digests.

Definition calibration_valid (self : EmbodimentRuntime) : bool :=
  match calibration self with
  | None => true
  | Some _ => match active_calibration_id self with Some _ => true | None => false end
  end.

Definition active_perception_available (self : EmbodimentRuntime) : bool :=
  existsb (fun s => is_actuated s && match frustum s with Some _ => true | None => false end)
          (sensor_mounts (model self)).

Definition uses_legacy_watched_frame_inference (self : EmbodimentRuntime) : bool :=
  negb (has_declared_watched_frames (model self))
  && match rt_watched_frames self with [] => false | _ => true end.

(** ** Joint state *)

Section Kinematics.
Context (sin cos : f64 -> f64).

Definition half : f64 := f64_dec 5 1.

Definition normalized_axis (a : vec3) : option vec3 :=
  let norm_sq := mul_add (v0 a) (v0 a) (mul_add (v1 a) (v1 a) (f64_mul (v2 a) (v2 a))) in
  if f64_le norm_sq EPSILON then None
  else
    let norm := f64_sqrt norm_sq in
    Some (V3 (f64_div (v0 a) norm) (f64_div (v1 a) norm) (f64_div (v2 a) norm)).

Definition rotation_from_axis_angle (a : vec3) (angle_rad : f64) : quat :=
  let half_angle := f64_mul angle_rad half in
  let sin_half := sin half_angle in
  Q4 (cos half_angle) (f64_mul (v0 a) sin_half) (f64_mul (v1 a) sin_half) (f64_mul (v2 a) sin_half).

Definition zero_axis_error (j : Joint) : string := "joint `" +:+ j_name j +:+ "` has invalid zero-length axis".

Definition joint_position_transform (j : Joint) (position : f64) (ts : Z) : result Transform3D string :=
  let? variable :=
    match joint_type j with
    | Revolute | Continuous =>
        match normalized_axis (axis j) with
        | None => Err (zero_axis_error j)
        | Some a => Ok {| translation := V3 zero zero zero;
                          rotation := rotation_from_axis_angle a position; timestamp_ns := ts |}
        end
    | Prismatic =>
        match normalized_axis (axis j) with
        | None => Err (zero_axis_error j)
        | Some a => Ok {| translation := V3 (f64_mul (v0 a) position) (f64_mul (v1 a) position)
                                            (f64_mul (v2 a) position);
                          rotation := Q4 one zero zero zero; timestamp_ns := ts |}
        end
    | Fixed => Ok identity
    end in
  Ok (compose (origin j) variable).

(** One turn of the loop over the joint positions. *)
Definition joint_state_transform (self : EmbodimentRuntime) (ts : Z) (jp : string * f64)
    : result TimestampedTransform string :=
  match get_joint (model self) (fst jp) with
  | None => Err ("joint position input references missing joint `" +:+ fst jp +:+ "`")
  | Some j =>
      if negb (frame_exists (frame_graph self) (parent_link j)) then
        Err ("joint `" +:+ j_name j +:+ "` references missing parent link frame `" +:+ parent_link j +:+ "`")
      else if negb (frame_exists (frame_graph self) (child_link j)) then
        Err ("joint `" +:+ j_name j +:+ "` references missing child link frame `" +:+ child_link j +:+ "`")
      else
        let? t := joint_position_transform j (snd jp) ts in
        Ok {| tt_frame_id := child_link j; tt_parent_id := Some (parent_link j); tt_transform := t;
              tt_freshness := if (ts =? 0)%Z then UnknownFreshness else Fresh;
              tt_source := SrcComputed |}
  end.

Definition sorted_entries {A} (m : gmap string A) : list (string * A) :=
  omap (fun k => pair k <$> m !! k) (sorted_keys m).

Definition oks {T E} (l : list (result T E)) : list T :=
  omap (fun r => match r with Ok v => Some v | Err _ => None end) l.
Definition errs {T E} (l : list (result T E)) : list E :=
  omap (fun r => match r with Ok _ => None | Err e => Some e end) l.

Definition joint_state_transforms (self : EmbodimentRuntime) (positions : gmap string f64) (ts : Z)
    : list TimestampedTransform * list string :=
  let rs := map (joint_state_transform self ts) (sorted_entries positions) in
  (oks rs, sort_dedup (errs rs)).

(** ** The snapshot *)

(** What the closure over the dynamic transforms collects: the transforms kept, the freshness of
    their frames and the issues. *)
Definition take_transform (self : EmbodimentRuntime) (ts : Z)
    (st : list TimestampedTransform * gmap string FreshnessState * list string)
    (t : TimestampedTransform)
    : list TimestampedTransform * gmap string FreshnessState * list string :=
  let '(kept, fresh, issues) := st in
  match get_frame (frame_graph self) (tt_frame_id t) with
  | None => (kept, fresh,
             (issues ++ ["dynamic transform references missing frame `" +:+ tt_frame_id t +:+ "`"])%list)
  | Some node =>
      let parent_issue :=
        match tt_parent_id t with
        | Some p =>
            if decide (parent_id node = Some p) then []
            else ["dynamic transform for `" +:+ tt_frame_id t +:+ "` declared parent `" +:+ p
                  +:+ "` but compiled graph uses `" +:+ default "<root>" (parent_id node) +:+ "`"]
        | None => []
        end in
      let newer_issue :=
        if negb (ts =? 0)%Z && (ts <? timestamp_ns (tt_transform t))%Z then
          ["dynamic transform for `" +:+ tt_frame_id t +:+ "` has timestamp "
           +:+ pretty (timestamp_ns (tt_transform t)) +:+ " newer than snapshot " +:+ pretty ts]
        else [] in
      ((kept ++ [t])%list, <[tt_frame_id t := tt_freshness t]> fresh,
       (issues ++ parent_issue ++ newer_issue)%list)
  end.

Definition add_source (l : list FrameSource) (s : FrameSource) : list FrameSource :=
  if bool_decide (s ∈ l) then l else (l ++ [s])%list.

Definition static_freshness (n : FrameNode) : FreshnessState :=
  match source n with SrcStatic => Fresh | SrcDynamic | SrcComputed => UnknownFreshness end.

Definition overall_freshness (inputs : list FreshnessState) : FreshnessState :=
  match inputs with
  | [] => UnknownFreshness
  | _ => if forallb is_fresh inputs then Fresh else UnknownFreshness
  end.

Definition build_frame_snapshot_with_input (self : EmbodimentRuntime) (id ts : Z)
    (input : FrameSnapshotInput) : FrameGraphSnapshot :=
  let (joint_transforms, joint_issues) := joint_state_transforms self (in_joint_positions input) ts in
  let graph := frame_graph self in
  let fresh0 := static_freshness <$> frames graph in
  let sources0 := fold_left add_source (omap (fun f => source <$> get_frame graph f) (all_frame_ids graph)) [] in
  let issues0 := (validation_issues self ++ joint_issues ++ in_validation_issues input)%list in
  let '(kept, fresh, issues1) :=
    fold_left (take_transform self ts) (joint_transforms ++ in_dynamic_transforms input) ([], fresh0, issues0) in
  let anchors := List.filter (fun a => frame_exists graph (wa_frame_id a)) (in_world_anchors input) in
  let anchor_issues :=
    map (fun a => "world anchor `" +:+ anchor_id a +:+ "` references missing frame `" +:+ wa_frame_id a +:+ "`")
        (List.filter (fun a => negb (frame_exists graph (wa_frame_id a))) (in_world_anchors input)) in
  let freshness_inputs :=
    match rt_watched_frames self with
    | [] => map snd (sorted_entries fresh)
    | watched => omap (fun f => fresh !! f) watched
    end in
  {| snapshot_id := id; snap_timestamp_ns := ts; snap_clock_domain := in_clock_domain input;
     snap_frame_tree := graph; freshness := overall_freshness freshness_inputs;
     snap_model_digest := rt_model_digest self; snap_calibration_digest := rt_calibration_digest self;
     snap_active_calibration_id := active_calibration_id self;
     dynamic_transforms := kept; snap_watched_frames := rt_watched_frames self;
     frame_freshness := fresh; sources := fold_left add_source (map tt_source kept) sources0;
     world_anchors := anchors; snap_validation_issues := sort_dedup (issues1 ++ anchor_issues) |}.

Definition build_frame_snapshot (self : EmbodimentRuntime) : FrameGraphSnapshot :=
  build_frame_snapshot_with_input self 0 0 (snapshot_input ∅).

(** The typing of raw transforms. *)
Definition typed_transform (self : EmbodimentRuntime) (ts : Z) (ft : string * Transform3D)
    : TimestampedTransform :=
  let node := get_frame (frame_graph self) (fst ft) in
  {| tt_frame_id := fst ft; tt_parent_id := node ≫= parent_id; tt_transform := snd ft;
     tt_freshness :=
       if (timestamp_ns (snd ft) =? 0)%Z || (negb (ts =? 0)%Z && (ts <? timestamp_ns (snd ft))%Z)
       then UnknownFreshness else Fresh;
     tt_source := from_option source SrcDynamic node |}.

Definition build_frame_snapshot_with_dynamic_transforms (self : EmbodimentRuntime) (id ts : Z)
    (transforms : list (string * Transform3D)) : FrameGraphSnapshot :=
  build_frame_snapshot_with_input self id ts
    {| in_clock_domain := Monotonic; in_joint_positions := ∅;
       in_dynamic_transforms := map (typed_transform self ts) transforms;
       in_world_anchors := []; in_validation_issues := [] |}.

(** The positions in the order of the model's joints. *)
Definition joint_position_inputs (self : EmbodimentRuntime) (positions : list f64) : gmap string f64 :=
  fold_left (fun m jp => <[j_name (fst jp) := snd jp]> m) (combine (joints (model self)) positions) ∅.

Definition joint_snapshot (self : EmbodimentRuntime) (positions : list f64) : FrameGraphSnapshot :=
  build_frame_snapshot_with_input self 0 0 (snapshot_input (joint_position_inputs self positions)).

End Kinematics.

(** ** Poses *)

Definition overlay_step (st : FrameTree * list string) (t : TimestampedTransform) : FrameTree * list string :=
  let '(tree, issues) := st in
  match overlay_transform tree (tt_frame_id t) (tt_transform t) (Some (tt_source t)) with
  | (Ok _, tree) => (tree, issues)
  | (Err e, tree) =>
      (tree, (issues ++ ["failed to overlay dynamic transform for `" +:+ tt_frame_id t
                         +:+ "` during snapshot projection: " +:+ display_error e])%list)
  end.

Definition overlay_snapshot_tree (s : FrameGraphSnapshot) : FrameTree * list string :=
  let (t, issues) := fold_left overlay_step (dynamic_transforms s) (snap_frame_tree s, []) in
  (t, sort_dedup issues).

Record ResolvedFramePose : Type := {
  rp_frame_id : string;
  relative_to : string;
  rp_transform : Transform3D;
  rp_freshness : FreshnessState;
}.

(** [opt.or_else(f)]. *)
Definition or_else {A} (a b : option A) : option A := match a with Some _ => a | None => b end.

Definition resolve_frame_pose (self : EmbodimentRuntime) (s : FrameGraphSnapshot) (f : string)
    (rel : option string) : option (result ResolvedFramePose string) :=
  match or_else (or_else rel (root (snap_frame_tree s))) (root (frame_graph self)) with
  | None => Some (Err "frame snapshot missing root frame")
  | Some reference =>
      let fresh := default UnknownFreshness (frame_freshness s !! f) in
      let (tree, _) := overlay_snapshot_tree s in
      if negb (frame_exists tree f) then
        Some (Err ("frame `" +:+ f +:+ "` missing from snapshot frame tree"))
      else if negb (frame_exists tree reference) then
        Some (Err ("reference frame `" +:+ reference +:+ "` missing from snapshot frame tree"))
      else
        match lookup_transform tree reference f with
        | None => None
        | Some (Err e) =>
            Some (Err ("failed to resolve frame `" +:+ f +:+ "` from `" +:+ reference +:+ "`: "
                       +:+ display_error e))
        | Some (Ok t) =>
            Some (Ok {| rp_frame_id := f; relative_to := reference; rp_transform := t; rp_freshness := fresh |})
        end
  end.

(** The pose of something mounted on a link, with the freshness reduced to fresh or unknown. *)
Definition mounted_pose (self : EmbodimentRuntime) (s : FrameGraphSnapshot) (name parent : string)
    (offset : Transform3D) (rel : option string) : option (result ResolvedFramePose string) :=
  fuel_bind (resolve_frame_pose self s parent rel) (fun p =>
  Some (Ok {| rp_frame_id := name; relative_to := relative_to p;
              rp_transform := compose (rp_transform p) offset;
              rp_freshness := if is_fresh (rp_freshness p) then Fresh else UnknownFreshness |})).

Definition tcp_pose_in_snapshot (self : EmbodimentRuntime) (s : FrameGraphSnapshot) (t : ToolCenterPoint)
    (rel : option string) : option (result ResolvedFramePose string) :=
  mounted_pose self s (tcp_name t) (tcp_parent_link t) (tcp_offset t) rel.

Definition sensor_pose_in_snapshot (self : EmbodimentRuntime) (s : FrameGraphSnapshot) (m : SensorMount)
    (rel : option string) : option (result ResolvedFramePose string) :=
  mounted_pose self s (sensor_id m) (sensor_parent_link m) (sensor_offset m) rel.

(** ** Watched poses *)

Record WatchedPoseProjection : Type := {
  wp_frame_id : string;
  wp_relative_to : string;
  wp_transform : Transform3D;
  wp_freshness : FreshnessState;
}.

Definition snapshot_watched (self : EmbodimentRuntime) (s : FrameGraphSnapshot) : list string :=
  match snap_watched_frames s with [] => rt_watched_frames self | w => w end.

Definition project_watched (s : FrameGraphSnapshot) (tree : FrameTree) (reference f : string)
    : option (result WatchedPoseProjection string) :=
  if negb (frame_exists tree f) then
    Some (Err ("watched frame `" +:+ f +:+ "` missing from snapshot frame tree"))
  else
    match lookup_transform tree reference f with
    | None => None
    | Some (Ok t) =>
        Some (Ok {| wp_frame_id := f; wp_relative_to := reference; wp_transform := t;
                    wp_freshness := default UnknownFreshness (frame_freshness s !! f) |})
    | Some (Err e) =>
        Some (Err ("failed to project watched frame `" +:+ f +:+ "` from `" +:+ reference +:+ "`: "
                   +:+ display_error e))
    end.

(** [None] only when a lookup is out of fuel. *)
Definition project_watched_poses (self : EmbodimentRuntime) (s : FrameGraphSnapshot)
    : option (list WatchedPoseProjection * list string) :=
  match or_else (root (snap_frame_tree s)) (root (frame_graph self)) with
  | None => Some ([], ["frame snapshot missing root frame for watched-pose projection"])
  | Some reference =>
      let (tree, issues) := overlay_snapshot_tree s in
      match mapM (project_watched s tree reference) (snapshot_watched self s) with
      | None => None
      | Some rs => Some (oks rs, sort_dedup (issues ++ errs rs))
      end
  end.

Definition joint_positions_from_channel_values (self : EmbodimentRuntime) (values : list f64)
    : gmap string f64 :=
  fold_left (fun m b =>
    match values !! Z.to_nat (channel_index b) with
    | None => m
    | Some v => match get_joint (model self) (physical_name b) with
                | Some _ => <[physical_name b := v]> m
                | None => m
                end
    end) (channel_bindings (model self)) ∅.

(** ** Links and joints of a frame *)

Fixpoint link_frame_loop (fuel : nat) (self : EmbodimentRuntime) (visited : gset string)
    (current : option string) : option (option string) :=
  match current with
  | None => Some None
  | Some f =>
      match fuel with
      | O => None
      | S fuel =>
          if decide (f ∈ visited) then Some None
          else if get_link (model self) f then Some (Some f)
          else link_frame_loop fuel self ({[f]} ∪ visited) (get_frame (frame_graph self) f ≫= parent_id)
      end
  end.

Definition link_frame_for_frame (self : EmbodimentRuntime) (f : string) : option (option string) :=
  link_frame_loop (S (S (size (frames (frame_graph self))))) self ∅ (Some f).

Fixpoint joint_chain_loop (fuel : nat) (m : EmbodimentModel) (f : string) (chain : list string)
    (visited : gset string) (link : string) : option (result (list string) string) :=
  match fuel with
  | O => None
  | S fuel =>
      if decide (link ∈ visited) then
        Some (Err ("cycle detected while resolving joint chain for frame `" +:+ f +:+ "`"))
      else
        match get_link m link with
        | None => Some (Err ("link `" +:+ link +:+ "` missing from embodiment model"))
        | Some l =>
            match parent_joint l with
            | None => Some (Ok chain)
            | Some pj =>
                match get_joint m pj with
                | None =>
                    Some (Err ("link `" +:+ link_name l +:+ "` references missing parent joint `" +:+ pj +:+ "`"))
                | Some j => joint_chain_loop fuel m f (chain ++ [j_name j])%list ({[link]} ∪ visited) (parent_link j)
                end
            end
        end
  end.

Definition joint_chain_for_frame (self : EmbodimentRuntime) (f : string) : option (result (list string) string) :=
  match link_frame_for_frame self f with
  | None => None
  | Some None => Some (Err ("frame `" +:+ f +:+ "` does not map to a known link frame"))
  | Some (Some link) =>
      fuel_bind (joint_chain_loop (S (S (length (links (model self))))) (model self) f [] ∅ link)
                (fun chain => Some (Ok (rev chain)))
  end.

Definition sensor_joint_chain (self : EmbodimentRuntime) (id : string) : option (result (list string) string) :=
  match List.find (fun s => String.eqb (sensor_id s) id) (sensor_mounts (model self)) with
  | None => Some (Err ("sensor `" +:+ id +:+ "` not found in embodiment model"))
  | Some s =>
      if negb (is_actuated s) then Some (Ok [])
      else
        fuel_bind (joint_chain_for_frame self (sensor_parent_link s)) (fun full_chain =>
        match actuation_joint s with
        | None => Some (Err ("actuated sensor `" +:+ id +:+ "` is missing `actuation_joint`"))
        | Some a =>
            match list_find (fun j => j = a) full_chain with
            | None => Some (Err ("sensor `" +:+ id +:+ "` actuation joint `" +:+ a
                                 +:+ "` is not in the parent-link chain"))
            | Some (index, _) => Some (Ok (drop index full_chain))
            end
        end)
  end.

(** ** The last sample of a frame decides *)

Definition of_frame (f : string) (t : TimestampedTransform) : bool := String.eqb (tt_frame_id t) f.

Definition latest (f : string) (ts : list TimestampedTransform) : option TimestampedTransform :=
  last (List.filter (of_frame f) ts).

Lemma latest_snoc f ts t : latest f (ts ++ [t]) = if of_frame f t then Some t else latest f ts.
Proof.
  unfold latest. rewrite List.filter_app. simpl. destruct (of_frame f t).
  - apply last_app_singleton.
  - by rewrite (right_id_L [] (++)).
Qed.

Definition sampled_node (ts : list TimestampedTransform) (f : string) (n : FrameNode) : FrameNode :=
  match latest f ts with
  | Some t => with_transform n (tt_transform t) (tt_source t)
  | None => n
  end.

Lemma overlay_snapshot_tree_eq s :
  fst (overlay_snapshot_tree s) = fst (fold_left overlay_step (dynamic_transforms s) (snap_frame_tree s, [])).
Proof. unfold overlay_snapshot_tree. by destruct (fold_left _ _ _) as [t i]. Qed.

Lemma overlay_fold ts : forall tree issues,
  let tree' := fst (fold_left overlay_step ts (tree, issues)) in
  root tree' = root tree /\ forall f, frames tree' !! f = sampled_node ts f <$> frames tree !! f.
Proof.
  induction ts as [|t ts IH] using rev_ind; intros tree issues; simpl.
  { split; [done|]. intros f. by destruct (frames tree !! f). }
  rewrite fold_left_app. cbn [fold_left]. specialize (IH tree issues).
  destruct (fold_left overlay_step ts (tree, issues)) as [tree' issues']. simpl in IH. destruct IH as [Hr Hf].
  assert (forall f, of_frame f t = false -> frames tree' !! f = sampled_node (ts ++ [t]) f <$> frames tree !! f) as Hother.
  { intros f Ho. rewrite Hf. unfold sampled_node. by rewrite latest_snoc, Ho. }
  simpl. unfold overlay_transform. destruct (frames tree' !! tt_frame_id t) as [n|] eqn:Hn; simpl;
    (split; [done|]); intros f; destruct (of_frame f t) eqn:Ho; auto.
  - unfold of_frame in Ho. apply String.eqb_eq in Ho as Hid. rewrite Hid, lookup_insert_eq.
    rewrite Hid, Hf in Hn. destruct (frames tree !! f) as [m|]; [|done]. simpl in *.
    injection Hn as <-. f_equal. unfold sampled_node. rewrite latest_snoc.
    unfold of_frame. rewrite Ho. by destruct (latest f ts).
  - unfold of_frame in Ho. apply String.eqb_neq in Ho. rewrite lookup_insert_ne by done. apply Hother.
    by apply String.eqb_neq.
  - unfold of_frame in Ho. apply String.eqb_eq in Ho. rewrite <- Ho, Hn.
    rewrite Hf in Hn. by destruct (frames tree !! tt_frame_id t).
Qed.

Lemma take_fold self ts l : forall kept fresh issues,
  let '(kept', fresh', _) := fold_left (take_transform self ts) l (kept, fresh, issues) in
  kept' = (kept ++ List.filter (fun t => frame_exists (frame_graph self) (tt_frame_id t)) l)%list /\
  forall f, is_Some (frames (frame_graph self) !! f) ->
    fresh' !! f = match latest f l with Some t => Some (tt_freshness t) | None => fresh !! f end.
Proof.
  induction l as [|t l IH] using rev_ind; intros kept fresh issues; simpl.
  { by rewrite (right_id_L [] (++)). }
  rewrite fold_left_app. specialize (IH kept fresh issues).
  destruct (fold_left (take_transform self ts) l (kept, fresh, issues)) as [[k fr] iss].
  destruct IH as [-> Hf]. cbn [fold_left]. unfold take_transform, get_frame.
  rewrite List.filter_app. simpl. unfold frame_exists.
  destruct (frames (frame_graph self) !! tt_frame_id t) as [n|] eqn:Hn; simpl.
  - split; [by rewrite <- (assoc_L (++))|]. intros f Hex. rewrite latest_snoc. unfold of_frame.
    destruct (String.eqb_spec (tt_frame_id t) f) as [->|Hne]; [by rewrite lookup_insert_eq|].
    rewrite lookup_insert_ne by done. by apply Hf.
  - split; [by rewrite (right_id_L [] (++))|]. intros f Hex. rewrite latest_snoc. unfold of_frame.
    destruct (String.eqb_spec (tt_frame_id t) f) as [Heq|Hne]; [|by apply Hf].
    rewrite Heq in Hn. rewrite Hn in Hex. by destruct Hex.
Qed.

Lemma latest_filter f p l :
  (forall t, of_frame f t = true -> p t = true) -> latest f (List.filter p l) = latest f l.
Proof.
  intros Hp. unfold latest. f_equal. induction l as [|t l IH]; [done|]. simpl.
  destruct (p t) eqn:Hpt; simpl; rewrite IH; [done|].
  destruct (of_frame f t) eqn:Ho; [|done]. by rewrite Hp in Hpt.
Qed.

Section Built.
Context (sin cos : f64 -> f64) (self : EmbodimentRuntime) (id ts : Z) (input : FrameSnapshotInput).

#[local] Notation s := (build_frame_snapshot_with_input sin cos self id ts input).

(** Joint states first, then the caller's transforms. *)
Definition samples : list TimestampedTransform :=
  (fst (joint_state_transforms sin cos self (in_joint_positions input) ts) ++ in_dynamic_transforms input)%list.

Definition sampled_freshness (f : string) (n : FrameNode) : FreshnessState :=
  match latest f samples with Some t => tt_freshness t | None => static_freshness n end.

Lemma built_snapshot :
  snap_frame_tree s = frame_graph self /\ snap_watched_frames s = rt_watched_frames self /\
  dynamic_transforms s
  = List.filter (fun t => frame_exists (frame_graph self) (tt_frame_id t)) samples /\
  (forall f n, frames (frame_graph self) !! f = Some n ->
     frame_freshness s !! f = Some (sampled_freshness f n)) /\
  freshness s = overall_freshness
    (match rt_watched_frames self with
     | [] => map snd (sorted_entries (frame_freshness s))
     | watched => omap (fun f => frame_freshness s !! f) watched
     end).
Proof.
  unfold build_frame_snapshot_with_input, sampled_freshness, samples.
  destruct (joint_state_transforms sin cos self (in_joint_positions input) ts) as [jt ji]. simpl.
  pose proof (take_fold self ts (jt ++ in_dynamic_transforms input) []
    (static_freshness <$> frames (frame_graph self))
    (validation_issues self ++ ji ++ in_validation_issues input)%list) as H.
  destruct (fold_left (take_transform self ts) _ _) as [[kept fresh] issues]. destruct H as [-> Hf].
  repeat split. intros f n Hn. cbn [frame_freshness]. rewrite Hf by eauto. rewrite lookup_fmap, Hn. simpl.
  by destruct (latest f _).
Qed.

(** in the tree that poses are resolved in, every frame of the runtime carries its last sample
    (a caller's transform over the joint state, a later one over an earlier) or, without one, its
    compiled transform; its freshness is that of the same sample; nothing else is in the tree. *)
Theorem snapshot_last_sample_wins f :
  frames (fst (overlay_snapshot_tree s)) !! f = sampled_node samples f <$> frames (frame_graph self) !! f /\
  (forall n, frames (frame_graph self) !! f = Some n -> frame_freshness s !! f = Some (sampled_freshness f n)).
Proof.
  destruct built_snapshot as (Ht & _ & Hd & Hfr & _). split; [|by apply Hfr].
  rewrite overlay_snapshot_tree_eq, Ht, Hd.
  rewrite (proj2 (overlay_fold _ _ _)). destruct (frames (frame_graph self) !! f) as [n|] eqn:Hn; [|done].
  simpl. f_equal. unfold sampled_node. rewrite latest_filter; [done|].
  intros t Ho. apply String.eqb_eq in Ho. rewrite Ho. apply bool_decide_eq_true. eauto.
Qed.

Lemma snapshot_tree_rooted : rooted (frame_graph self) -> rooted (fst (overlay_snapshot_tree s)).
Proof.
  intros Hr. destruct built_snapshot as (Ht & _). apply (rooted_same_parents (frame_graph self)); [| |done].
  - rewrite overlay_snapshot_tree_eq, Ht. by rewrite (proj1 (overlay_fold _ _ _)).
  - intros g. rewrite (proj1 (snapshot_last_sample_wins g)).
    destruct (frames (frame_graph self) !! g) as [n|]; [|done]. simpl. unfold sampled_node.
    by destruct (latest g samples).
Qed.

Lemma snapshot_frame_exists f :
  frame_exists (fst (overlay_snapshot_tree s)) f = frame_exists (frame_graph self) f.
Proof.
  unfold frame_exists. apply bool_decide_ext. rewrite (proj1 (snapshot_last_sample_wins f)).
  apply fmap_is_Some.
Qed.

(** over a runtime whose frame graph is one tree, every snapshot answers every pose: of any frame,
    relative to any frame or to the root, whatever transforms and joint positions it was built from. *)
Theorem snapshot_poses_resolve f rel :
  rooted (frame_graph self) -> frame_exists (frame_graph self) f = true ->
  (forall g, rel = Some g -> frame_exists (frame_graph self) g = true) ->
  exists p, resolve_frame_pose self s f rel = Some (Ok p) /\ rp_frame_id p = f /\
    Some (relative_to p) = or_else rel (root (frame_graph self)).
Proof.
  intros Hr Hf Hg. destruct built_snapshot as (Ht & _). unfold resolve_frame_pose. rewrite Ht.
  pose proof Hr as (r & Hroot & Hw).
  assert (exists g, or_else (or_else rel (root (frame_graph self))) (root (frame_graph self)) = Some g /\
            Some g = or_else rel (root (frame_graph self)) /\ frame_exists (frame_graph self) g = true)
    as (g & -> & Hrel & Hgx).
  { destruct rel as [g|]; simpl; [exists g; auto|]. rewrite Hroot. simpl. exists r. repeat split.
    apply bool_decide_eq_true in Hf. destruct (Hw _ Hf) as [l Hl]. apply walk_suffix in Hl.
    apply bool_decide_eq_true. inversion Hl; eauto. }
  destruct (overlay_snapshot_tree s) as [tree issues] eqn:Ho.
  assert (tree = fst (overlay_snapshot_tree s)) as -> by (by rewrite Ho).
  rewrite !snapshot_frame_exists, Hf, Hgx. simpl.
  destruct (rooted_lookup _ g f (snapshot_tree_rooted Hr)) as [T ->];
    [by rewrite snapshot_frame_exists..|].
  eexists. split; [done|]. by split.
Qed.

(** a snapshot of watched frames is fresh exactly when the last sample of each is fresh, a
    watched frame without a sample being fresh only if it is static. *)
Theorem snapshot_fresh_exact :
  rt_watched_frames self <> [] ->
  (forall f, f ∈ rt_watched_frames self -> frame_exists (frame_graph self) f = true) ->
  freshness s = Fresh <->
  forall f n, f ∈ rt_watched_frames self -> frames (frame_graph self) !! f = Some n ->
    sampled_freshness f n = Fresh.
Proof.
  intros Hne Hex. destruct built_snapshot as (_ & _ & _ & Hfr & ->).
  destruct (rt_watched_frames self) as [|f0 w] eqn:Hw; [done|]. rewrite <- Hw in *. clear Hne.
  assert (Forall (fun f => exists n, frames (frame_graph self) !! f = Some n /\
            frame_freshness s !! f = Some (sampled_freshness f n)) (rt_watched_frames self)) as Hall.
  { apply Forall_forall. intros f Hf. apply Hex, bool_decide_eq_true in Hf as [n Hn]. eauto. }
  assert (omap (fun f => frame_freshness s !! f) (rt_watched_frames self) <> []) as Hnn.
  { rewrite Hw in *. apply Forall_cons in Hall as [(n & _ & Hn) _]. simpl. by rewrite Hn. }
  assert (overall_freshness (omap (fun f => frame_freshness s !! f) (rt_watched_frames self)) = Fresh <->
          forallb is_fresh (omap (fun f => frame_freshness s !! f) (rt_watched_frames self)) = true) as ->.
  { destruct (omap _ _) as [|x l]; [done|]. unfold overall_freshness. by destruct (forallb _ _). }
  rewrite forallb_forall. split.
  - intros H f n Hf Hn. specialize (H (sampled_freshness f n)).
    assert (is_fresh (sampled_freshness f n) = true) as Hfresh; [apply H|by destruct (sampled_freshness f n)].
    apply list_elem_of_In, list_elem_of_omap. exists f. split; [done|]. by apply Hfr.
  - intros H x Hx. apply list_elem_of_In, list_elem_of_omap in Hx as (f & Hf & Hx).
    rewrite Forall_forall in Hall. destruct (Hall f Hf) as (n & Hn & Hs). rewrite Hs in Hx.
    injection Hx as <-. by rewrite (H f n Hf Hn).
Qed.

End Built.

(** ** The loops over links *)

Section Chains.
Context (self : EmbodimentRuntime).
#[local] Notation m := (model self).

Lemma visited_bound (visited universe : gset string) x :
  visited ⊆ universe -> x ∈ universe -> x ∉ visited -> (size visited < size universe)%nat.
Proof.
  intros Hs Hx Hn. apply subset_size. split; [done|]. intros H. by apply Hn, H.
Qed.

Lemma link_frame_loop_total fuel : forall visited current,
  visited ⊆ dom (frames (frame_graph self)) -> (size (dom (frames (frame_graph self))) + 1 < fuel + size visited)%nat ->
  exists r, link_frame_loop fuel self visited current = Some r.
Proof.
  induction fuel as [|fuel IH]; intros visited [f|] Hv Hf; [|by eexists| |by eexists].
  { pose proof (subseteq_size _ _ Hv). simpl in Hf. lia. }
  simpl. case_decide as Hin; [by eexists|]. destruct (get_link (model self) f); [by eexists|].
  unfold get_frame. destruct (frames (frame_graph self) !! f) as [n|] eqn:Hn; simpl.
  - apply IH; [apply elem_of_dom_2 in Hn; set_solver|].
    rewrite size_union by set_solver. rewrite size_singleton. lia.
  - destruct fuel; simpl; by eexists.
Qed.

Lemma link_frame_total f : exists r, link_frame_for_frame self f = Some r.
Proof.
  unfold link_frame_for_frame. apply link_frame_loop_total; [set_solver|].
  rewrite size_empty, size_dom. lia.
Qed.

(** [joint_path link ls js]: from [link], over the links [ls], the joints [js] lead to a link
    without a parent joint. *)
Inductive joint_path : string -> list string -> list string -> Prop :=
| joint_path_base link l : get_link m link = Some l -> parent_joint l = None -> joint_path link [link] []
| joint_path_joint link l pj j ls js :
    get_link m link = Some l -> parent_joint l = Some pj -> get_joint m pj = Some j ->
    joint_path (parent_link j) ls js -> joint_path link (link :: ls) (j_name j :: js).

Lemma joint_path_det link ls js ls' js' :
  joint_path link ls js -> joint_path link ls' js' -> ls = ls' /\ js = js'.
Proof.
  intros H. revert ls' js'.
  induction H as [link l Hl Hp|link l pj j ls js Hl Hp Hj _ IH]; intros ls' js' H';
    inversion H' as [? l2 Hl2 Hp2|? l2 pj2 j2 ls2 js2 Hl2 Hp2 Hj2 Hq]; simplify_eq; [done|].
  by destruct (IH _ _ Hq) as [-> ->].
Qed.

Lemma joint_path_suffix link ls js x :
  joint_path link ls js -> x ∈ ls -> exists ls' js', joint_path x ls' js' /\ (length ls' <= length ls)%nat.
Proof.
  induction 1 as [link l Hl Hp|link l pj j ls js Hl Hp Hj Hq IH]; intros Hx.
  - apply list_elem_of_singleton in Hx as ->. exists [link], []. split; [by econstructor|done].
  - apply elem_of_cons in Hx as [->|Hx].
    + eexists _, _. split; [by eapply joint_path_joint|done].
    + destruct (IH Hx) as (ls' & js' & H & Hlen). exists ls', js'. split; [done|]. simpl. lia.
Qed.

Lemma joint_path_nodup link ls js : joint_path link ls js -> NoDup ls.
Proof.
  induction 1 as [link l Hl Hp|link l pj j ls js Hl Hp Hj Hq IH]; [by apply NoDup_singleton|].
  apply NoDup_cons. split; [|done]. intros Hin.
  destruct (joint_path_suffix _ _ _ _ Hq Hin) as (ls' & js' & H & Hlen).
  assert (joint_path link (link :: ls) (j_name j :: js)) as H' by (by eapply joint_path_joint).
  destruct (joint_path_det _ _ _ _ _ H H') as [-> _]. simpl in Hlen. lia.
Qed.

Definition link_names : gset string := list_to_set (map link_name (links m)).

Lemma get_link_name x l : get_link m x = Some l -> x ∈ link_names /\ link_name l = x.
Proof.
  intros H. unfold get_link in H. apply List.find_some in H as [Hin Heq%String.eqb_eq]. split; [|done].
  apply elem_of_list_to_set, list_elem_of_fmap. exists l. by rewrite list_elem_of_In.
Qed.

Lemma size_link_names : (size link_names <= length (links m))%nat.
Proof.
  unfold link_names. rewrite <- (length_map link_name). generalize (map link_name (links m)). intros l.
  induction l as [|x l IH]; [done|]. rewrite list_to_set_cons, length_cons.
  rewrite size_union_alt, size_singleton.
  assert (size (list_to_set l ∖ {[x]} : gset string) <= size (list_to_set l : gset string))%nat by
    (apply subseteq_size; set_solver).
  lia.
Qed.

(** Every outcome of the loop: the joints of the path, or an error when there is no path. *)
Lemma joint_chain_loop_total f fuel : forall chain visited link,
  visited ⊆ link_names -> (size link_names < fuel + size visited)%nat ->
  exists r, joint_chain_loop fuel m f chain visited link = Some r /\
    forall chain', r = Ok chain' -> exists ls js, joint_path link ls js /\ chain' = (chain ++ js)%list.
Proof.
  induction fuel as [|fuel IH]; intros chain visited link Hv Hf.
  { pose proof (subseteq_size _ _ Hv). simpl in Hf. lia. }
  simpl. case_decide as Hin; [by eexists|]. destruct (get_link m link) as [l|] eqn:Hl; [|by eexists].
  destruct (parent_joint l) as [pj|] eqn:Hp.
  - destruct (get_joint m pj) as [j|] eqn:Hj; [|by eexists]. apply get_link_name in Hl as Hn.
    destruct (IH (chain ++ [j_name j])%list ({[link]} ∪ visited) (parent_link j)) as (r & -> & Hr).
    + set_solver.
    + rewrite size_union by set_solver. rewrite size_singleton. lia.
    + exists r. split; [done|]. intros chain' H'. destruct (Hr _ H') as (ls & js & Hq & ->).
      exists (link :: ls), (j_name j :: js). split; [by eapply joint_path_joint|]. by rewrite <- (assoc_L (++)).
  - eexists. split; [done|]. intros chain' [= <-]. exists [link], []. split; [by econstructor|].
    by rewrite (right_id_L [] (++)).
Qed.

Lemma joint_chain_loop_path f link ls js : joint_path link ls js -> forall fuel chain visited,
  (length ls <= fuel)%nat -> (forall x, x ∈ ls -> x ∉ visited) ->
  joint_chain_loop fuel m f chain visited link = Some (Ok (chain ++ js)%list).
Proof.
  intros H. pose proof (joint_path_nodup _ _ _ H) as Hd. revert Hd.
  induction H as [link l Hl Hp|link l pj j ls js Hl Hp Hj Hq IH]; intros Hd fuel chain visited Hf Hv;
    (destruct fuel as [|fuel]; [simpl in Hf; lia|]); simpl;
    rewrite decide_False by (apply Hv; left); rewrite Hl, Hp.
  - by rewrite (right_id_L [] (++)).
  - rewrite Hj. apply NoDup_cons in Hd as [Hn Hd]. rewrite IH; [by rewrite <- (assoc_L (++))|done| |].
    + simpl in Hf. lia.
    + intros x Hx. specialize (Hv x ltac:(by right)). set_solver.
Qed.

(** the joint chain of a frame is computed on every model, cyclic ones included, and is exactly
    the joints from the root down to the link that carries the frame; otherwise an error. *)
Theorem joint_chain_exact f :
  exists r, joint_chain_for_frame self f = Some r /\
    forall chain, r = Ok chain <->
      exists link ls, link_frame_for_frame self f = Some (Some link) /\ joint_path link ls (rev chain).
Proof.
  unfold joint_chain_for_frame. destruct (link_frame_total f) as [[link|] ->]; cycle 1.
  { eexists. split; [done|]. intros chain. split; [done|]. by intros (? & ? & ? & _). }
  pose proof size_link_names as Hsz.
  destruct (joint_chain_loop_total f (S (S (length (links (model self))))) [] ∅ link) as (r & Hr & Hsound);
    [set_solver|rewrite size_empty; lia|].
  rewrite Hr. destruct r as [chain0|e]; simpl.
  - eexists. split; [done|]. destruct (Hsound _ eq_refl) as (ls & js & Hq & ->). simpl.
    intros chain. split.
    + intros [= <-]. exists link, ls. by rewrite rev_involutive.
    + intros (link' & ls' & [= <-] & Hq'). destruct (joint_path_det _ _ _ _ _ Hq Hq') as [_ ->].
      by rewrite rev_involutive.
  - eexists. split; [done|]. intros chain. split; [done|]. intros (link' & ls' & [= <-] & Hq').
    assert (length ls' <= S (S (length (links m))))%nat as Hlen.
    { transitivity (size link_names); [|lia].
      rewrite <- (size_list_to_set (C := gset string)) by (by eapply joint_path_nodup).
      apply subseteq_size. intros x Hx%elem_of_list_to_set.
      destruct (joint_path_suffix _ _ _ _ Hq' Hx) as (l2 & j2 & Hx' & _).
      inversion Hx'; by eapply get_link_name. }
    rewrite (joint_chain_loop_path f _ _ _ Hq') in Hr; [done|done|set_solver].
Qed.

End Chains.

(** ** The compiled runtime *)

Section Compiled.
Context (sha256_hex : string -> string) (hash_model : EmbodimentModel -> string)
        (hash_calibration : CalibrationOverlay -> string).

(** The correction that applies to a frame: none, unless the calibration is stamped with its own
    digest and made for this model. *)
Definition correction (m : EmbodimentModel) (c : option CalibrationOverlay) (f : string) : option Transform3D :=
  match c with
  | Some cal =>
      if is_valid_for_model hash_calibration cal (compute_digest hash_model m) then frame_corrections cal !! f
      else None
  | None => None
  end.

Lemma watch_exists t l : forall w f, f ∈ fold_left (watch t) l w -> f ∈ w \/ frame_exists t f = true.
Proof.
  induction l as [|x l IH]; intros w f; simpl; [by left|]. intros [H|H]%IH; [|by right].
  unfold watch in H. destruct (frame_exists t x) eqn:Hx; [|by left].
  apply elem_of_union in H as [->%elem_of_singleton|H]; auto.
Qed.

Lemma watched_exist m c o graph f :
  (forall g, frame_exists (frame_tree m) g = true -> frame_exists graph g = true) ->
  (forall r, root (frame_tree m) = Some r -> frame_exists graph r = true) ->
  f ∈ fst (resolve_watched_frames m c o graph) -> frame_exists graph f = true.
Proof.
  intros Hall Hr. unfold resolve_watched_frames.
  destruct (has_declared_watched_frames m); simpl.
  - rewrite elem_of_sort_dedup, list_elem_of_In, filter_In. by intros [_ H].
  - unfold infer_watched_frames. rewrite elem_of_sorted_set. intros H.
    destruct o as [o|]; [apply watch_exists in H as [H|H]; [|by apply Hall]|];
    (destruct c as [cal|]; [apply watch_exists in H as [H|H]; [|by apply Hall]|]);
    (do 4 (apply watch_exists in H as [H|H]; [|by apply Hall]));
    (destruct (root (frame_tree m)) as [r|] eqn:Hroot; [|set_solver]);
    apply elem_of_singleton in H as ->; by apply Hr.
Qed.

(** C11: a model whose frames form one tree compiles to a runtime whose frame graph is one tree, in
    which every frame but the root has its calibrated transform exactly when the calibration is
    valid for the model, which the runtime reports, and whose watched frames all exist. *)
Theorem compile_applies_valid_calibration m c o r :
  root (frame_tree m) = Some r -> is_Some (frames (frame_tree m) !! r) ->
  (forall f, is_Some (frames (frame_tree m) !! f) -> reaches (frame_tree m) r f) ->
  let rt := compile sha256_hex hash_model hash_calibration m c o in
  rooted (frame_graph rt) /\
  (forall f n, f <> r -> frames (frame_tree m) !! f = Some n ->
     frames (frame_graph rt) !! f
     = Some {| frame_id := f; parent_id := parent_id n;
               static_transform := default (static_transform n) (correction m c f); source := source n |}) /\
  (calibration_valid rt = true <->
   forall cal, c = Some cal -> is_valid_for_model hash_calibration cal (compute_digest hash_model m) = true) /\
  (forall f, f ∈ rt_watched_frames rt -> frame_exists (frame_graph rt) f = true).
Proof.
  intros Hr [n Hn] Hall rt. unfold rt, compile, correction, calibration_valid.
  set (valid := match c with Some cal => _ | None => _ end).
  set (m' := with_model_digest m (compute_digest hash_model m)).
  destruct (compiled_frame_graph_cases m' valid r n Hr Hn) as [[_ ->]|(us & Hne & Hus & _)]; cycle 1.
  { destruct us as [|f us]; [done|]. destruct (proj1 (Hus f)) as [Hex Hun]; [left|].
    by destruct Hun; apply Hall. }
  destruct (resolve_watched_frames m' valid o _) as [watched issues] eqn:Hw. simpl.
  split; [by apply corrected_rooted|]. split; [|split].
  - intros f k Hf Hk. rewrite lookup_corrected. simpl. rewrite Hk. simpl. unfold corrected_node.
    rewrite decide_False by done. unfold valid. destruct c as [cal|]; [|done].
    by destruct (is_valid_for_model _ _ _).
  - unfold valid. destruct c as [cal|]; [|by split].
    destruct (is_valid_for_model _ cal _) eqn:Hv; simpl; split; try done; intros H.
    + by intros ? [= <-].
    + by rewrite (H cal) in Hv.
  - intros f Hf. assert (watched = fst (resolve_watched_frames m' valid o
      {| root := Some r; frames := corrected (frame_tree m') (corrections_of valid) r n |})) as Hwe by (by rewrite Hw).
    rewrite Hwe in Hf. apply (watched_exist m' valid o); [..|done].
    + intros g Hg%bool_decide_eq_true. apply bool_decide_eq_true. simpl. rewrite lookup_corrected.
      by apply fmap_is_Some.
    + intros r' Hr'. simpl in Hr'. rewrite Hr in Hr'. injection Hr' as <-.
      apply bool_decide_eq_true. simpl. rewrite lookup_corrected, Hn. eauto.
Qed.

End Compiled.

(** ** Examples *)

Definition slide_limits : JointSafetyLimits := {|
  joint_name := "slide"; max_velocity := one; max_acceleration := one; max_jerk := one;
  position_min := zero; position_max := f64_of_Z 5; max_torque := Some (f64_of_Z 10) |}.

Definition slide : Joint := {|
  j_name := "slide"; joint_type := Prismatic; parent_link := "base"; child_link := "arm";
  axis := V3 (f64_of_Z 1) zero zero; origin := along_x 1; j_limits := slide_limits |}.

Definition plain_link (name : string) (pj : option string) : Link := {|
  link_name := name; parent_joint := pj; inertial := None; visual_geometry := None;
  collision_geometry := None |}.

(** world -> base -> arm -> hand: the arm slides along x on its base. *)
Definition slider_ops : list TreeOp :=
  [OpAdd "base" "world" (along_x 1) SrcStatic; OpAdd "arm" "base" (along_x 2) SrcComputed;
   OpAdd "hand" "arm" (along_x 1) SrcStatic].

Definition slider_tree : FrameTree := fold_left tree_op slider_ops (set_root new "world" SrcStatic).

Definition slider_model : EmbodimentModel := {|
  model_id := "slider"; model_digest := "m"; embodiment_family := None;
  links := [plain_link "base" None; plain_link "arm" (Some "slide")]; joints := [slide];
  frame_tree := slider_tree; collision_bodies := []; allowed_collision_pairs := [];
  tcps := [{| tcp_name := "grip"; tcp_parent_link := "hand"; tcp_offset := along_x 1; tcp_type := TcpGripper |}];
  sensor_mounts := []; workspace_zones := []; watched_frames := ["hand"; "arm"];
  channel_bindings := [] |}.

Definition slider : EmbodimentRuntime :=
  compile (fun s => s) (fun _ => "m") (fun _ => "d") slider_model (Some tool_calibration) None.

(** A caller's transform for the arm and one for a frame the runtime does not have. *)
Definition arm_sample (x ts : Z) : TimestampedTransform := {|
  tt_frame_id := "arm"; tt_parent_id := Some "base"; tt_transform := along_x x;
  tt_freshness := Fresh; tt_source := SrcDynamic |}.

Definition slider_input : FrameSnapshotInput := {|
  in_clock_domain := Monotonic; in_joint_positions := {[ "slide" := f64_of_Z 2 ]};
  in_dynamic_transforms := [arm_sample 7 0]; in_world_anchors := []; in_validation_issues := [] |}.

Lemma slider_rooted : rooted slider_tree.
Proof. apply rooted_ops; [vm_compute; reflexivity|apply rooted_set_root]. Qed.

Lemma compile_applies_valid_calibration_witness :
  let rt := slider in
  rooted (frame_graph rt) /\
  (forall f n, f <> "world" -> frames slider_tree !! f = Some n ->
     frames (frame_graph rt) !! f
     = Some {| frame_id := f; parent_id := parent_id n;
               static_transform :=
                 default (static_transform n)
                   (correction (fun _ => "m") (fun _ => "d") slider_model (Some tool_calibration) f);
               source := source n |}) /\
  (calibration_valid rt = true <->
   forall cal, Some tool_calibration = Some cal ->
     is_valid_for_model (fun _ => "d") cal (compute_digest (fun _ => "m") slider_model) = true) /\
  (forall f, f ∈ rt_watched_frames rt -> frame_exists (frame_graph rt) f = true).
Proof.
  apply (compile_applies_valid_calibration (fun s => s) (fun _ => "m") (fun _ => "d") slider_model
    (Some tool_calibration) None "world").
  - vm_compute. reflexivity.
  - exists {| frame_id := "world"; parent_id := None; static_transform := identity; source := SrcStatic |}.
    vm_compute. reflexivity.
  - apply rooted_reaches; [apply slider_rooted|vm_compute; reflexivity].
Defined.

Lemma slider_runtime_rooted : rooted (frame_graph slider).
Proof.
  assert (frame_graph slider
          = {| root := Some "world"; frames := frames (frame_graph slider) |}) as Hr by (vm_compute; reflexivity).
  destruct (compiled_frame_graph_cases (bare_model slider_tree) (Some tool_calibration) "world"
    {| frame_id := "world"; parent_id := None; static_transform := identity; source := SrcStatic |})
    as [[Hall Hc]|(us & Hne & _ & Hc)]; [vm_compute; reflexivity|vm_compute; reflexivity| |].
  - assert (frame_graph slider = fst (compiled_frame_graph (bare_model slider_tree) (Some tool_calibration)))
      as -> by (vm_compute; reflexivity).
    rewrite Hc. apply corrected_rooted; [vm_compute; reflexivity|done].
  - exfalso. assert (snd (compiled_frame_graph (bare_model slider_tree) (Some tool_calibration)) = []) as Hi by
      (vm_compute; reflexivity).
    by rewrite Hc in Hi.
Qed.

Lemma snapshot_poses_resolve_witness :
  exists p, resolve_frame_pose slider
      (build_frame_snapshot_with_input (fun x => x) (fun x => x) slider 1 5 slider_input) "hand" None = Some (Ok p)
    /\ rp_frame_id p = "hand" /\ Some (relative_to p) = or_else None (root (frame_graph slider)).
Proof.
  apply snapshot_poses_resolve; [apply slider_runtime_rooted|vm_compute; reflexivity|].
  intros g H. discriminate H.
Defined.

Lemma snapshot_fresh_exact_witness :
  freshness (build_frame_snapshot_with_input (fun x => x) (fun x => x) slider 1 5 slider_input) = Fresh <->
  forall f n, f ∈ rt_watched_frames slider -> frames (frame_graph slider) !! f = Some n ->
    sampled_freshness (fun x => x) (fun x => x) slider 5 slider_input f n = Fresh.
Proof.
  apply snapshot_fresh_exact; [vm_compute; discriminate|].
  assert (rt_watched_frames slider = ["arm"; "hand"]) as -> by (vm_compute; reflexivity).
  intros f Hf. apply list_elem_of_In in Hf. destruct Hf as [<-|[<-|[]]]; vm_compute; reflexivity.
Defined.

Definition pose_x (o : option (result ResolvedFramePose string)) : option f64 :=
  match o with Some (Ok p) => Some (v0 (translation (rp_transform p))) | _ => None end.

(** The slide at 2 puts the hand at 1 + (1 + 2) + 1; the caller's transform of the arm wins over
    the joint state and puts it at 1 + 7 + 1. *)
Example joint_state_moves_the_hand :
  is_x (pose_x (resolve_frame_pose slider
    (build_frame_snapshot_with_input (fun x => x) (fun x => x) slider 1 5
       (snapshot_input {[ "slide" := f64_of_Z 2 ]})) "hand" None)) 5 = true.
Proof. vm_compute. reflexivity. Qed.

Example callers_transform_wins :
  is_x (pose_x (resolve_frame_pose slider
    (build_frame_snapshot_with_input (fun x => x) (fun x => x) slider 1 5 slider_input) "hand" None)) 9 = true.
Proof. vm_compute. reflexivity. Qed.

(** At time zero a computed joint state is of unknown freshness, and so is the snapshot. *)
Example snapshot_at_zero_is_not_fresh :
  freshness (joint_snapshot (fun x => x) (fun x => x) slider [f64_of_Z 2]) = UnknownFreshness.
Proof. vm_compute. reflexivity. Qed.

(** A transform newer than the snapshot is reported and used all the same. *)
Example future_transform_is_used :
  let future := {| in_clock_domain := Monotonic; in_joint_positions := ∅;
                   in_dynamic_transforms :=
                     [{| tt_frame_id := "arm"; tt_parent_id := None;
                         tt_transform := {| translation := V3 (f64_of_Z 7) zero zero;
                                            rotation := Q4 one zero zero zero; timestamp_ns := 9 |};
                         tt_freshness := Fresh; tt_source := SrcDynamic |}];
                   in_world_anchors := []; in_validation_issues := [] |} in
  let s := build_frame_snapshot_with_input (fun x => x) (fun x => x) slider 1 5 future in
  is_x (pose_x (resolve_frame_pose slider s "hand" None)) 9 = true /\ freshness s = Fresh /\
  snap_validation_issues s
  = ["calibration `cal` correction references missing frame `tool`";
     "dynamic transform for `arm` has timestamp 9 newer than snapshot 5"].
Proof. vm_compute. repeat split; reflexivity. Qed.

(** The chain of the hand, which is no link, is that of the arm it hangs on. *)
Example chain_of_the_hand : joint_chain_for_frame slider "hand" = Some (Ok ["slide"]).
Proof. vm_compute. reflexivity. Qed.
