(* ===== verification/Workspace.v ===== *)
(** * Workspace evaluation (roz-core/embodiment/embodiment_runtime.rs, workspace.rs)

    Signed margins of workspace shapes, the evaluation of poses, tools and sensors against the
    zones of a runtime, the execution assessment of a plan, and the features a runtime projects
    into a tick.

    [hypot], [sin] and [cos] are arguments.  A [None] result is a lookup out of fuel, which
    [lookup_transform_total] excludes ([pose_workspace_total], [check_workspace_total]). *)

From stdpp Require Import sorting.
From S2P Require Import Prelude.
From S2P Require Import Float64.
From S2P Require Import Float64Round.
From S2P Require Import Deployment.
From S2P Require Import Embodiment.
From S2P Require Import FrameTree.
From S2P Require Import FrameGraph.
From S2P Require Import Snapshot.
#[local] Open Scope string_scope.

(** ** Zones *)

Definition workspace_envelope (self : EmbodimentRuntime) : WorkspaceEnvelope :=
  {| zones := workspace_zones (model self)
              ++ match safety_overlay self with Some o => overlay_zones o | None => [] end |}.

Record WorkspaceZoneCheck : Type := {
  zc_zone_name : string;
  zc_zone_type : ZoneType;
  signed_margin_m : f64;
  contains_origin : bool;
}.

Record WorkspacePoseEvaluation : Type := {
  pe_relative_to : string;
  pe_pose : Transform3D;
  pe_safe : bool;
  pe_min_margin_m : option f64;
  pe_in_human_presence : bool;
  pe_zone_checks : list WorkspaceZoneCheck;
  pe_alerts : list string;
}.

Record WorkspaceCheckFrameResult : Type := {
  cf_frame_id : string;
  cf_margin_m : option f64;
  cf_safe : bool;
  cf_in_human_presence : bool;
  cf_zone_checks : list WorkspaceZoneCheck;
}.

Record WorkspaceCheckResult : Type := {
  cr_safe : bool;
  cr_min_margin_m : option f64;
  cr_frames : list WorkspaceCheckFrameResult;
  cr_alerts : list string;
}.

#[export] Instance ZoneType_eq_dec : EqDecision ZoneType.
Proof. solve_decision. Defined.

(** [opt.map_or(m, |current| f(current, m))], wrapped in [Some]. *)
Definition fold_margin (f : f64 -> f64 -> f64) (o : option f64) (m : f64) : option f64 :=
  Some match o with Some current => f current m | None => m end.

Definition has_zone_type (t : ZoneType) (zs : list WorkspaceZone) : bool :=
  existsb (fun z => bool_decide (zone_type z = t)) zs.

(** The accumulators of the loops over zones. *)
Record ZoneAcc : Type := {
  allowed_margin : option f64;
  restricted_clearance : option f64;
  in_human_presence : bool;
  zone_checks : list WorkspaceZoneCheck;
}.

Definition no_zones : ZoneAcc :=
  {| allowed_margin := None; restricted_clearance := None; in_human_presence := false; zone_checks := [] |}.

Definition zone_check (z : WorkspaceZone) (m : f64) : WorkspaceZoneCheck :=
  {| zc_zone_name := zone_name z; zc_zone_type := zone_type z; signed_margin_m := m;
     contains_origin := f64_ge m zero |}.

Definition account (acc : ZoneAcc) (z : WorkspaceZone) (m : f64) : ZoneAcc :=
  {| allowed_margin := match zone_type z with
                       | Allowed => fold_margin f64_max (allowed_margin acc) m
                       | _ => allowed_margin acc
                       end;
     restricted_clearance := match zone_type z with
                             | Restricted => fold_margin f64_min (restricted_clearance acc) (f64_neg m)
                             | _ => restricted_clearance acc
                             end;
     in_human_presence := in_human_presence acc
                          || match zone_type z with HumanPresence => f64_ge m zero | _ => false end;
     zone_checks := zone_checks acc ++ [zone_check z m] |}.

(** [allowed_margin.is_some_and(|margin| margin >= 0.0)] and its restricted counterpart. *)
Definition inside_allowed (acc : ZoneAcc) : bool :=
  match allowed_margin acc with Some m => f64_ge m zero | None => false end.
Definition inside_restricted (acc : ZoneAcc) : bool :=
  match restricted_clearance acc with Some m => f64_lt m zero | None => false end.

Definition min_margin (has_allowed_zone : bool) (acc : ZoneAcc) : option f64 :=
  match has_allowed_zone, allowed_margin acc, restricted_clearance acc with
  | true, Some a, Some r => Some (f64_min a r)
  | true, Some a, None => Some a
  | true, None, Some r | false, _, Some r => Some r
  | _, _, _ => None
  end.

Section Margins.
Context (hypot : f64 -> f64 -> f64).

Definition signed_margin (s : WorkspaceShape) (p : vec3) : f64 :=
  match s with
  | WBox h =>
      let q0 := f64_sub (f64_abs (v0 p)) (v0 h) in
      let q1 := f64_sub (f64_abs (v1 p)) (v1 h) in
      let q2 := f64_sub (f64_abs (v2 p)) (v2 h) in
      let o0 := f64_max q0 zero in
      let o1 := f64_max q1 zero in
      let o2 := f64_max q2 zero in
      let outside_dist := f64_sqrt (mul_add o0 o0 (mul_add o1 o1 (f64_mul o2 o2))) in
      let inside_dist := f64_min (f64_max q0 (f64_max q1 q2)) zero in
      f64_neg (f64_add outside_dist inside_dist)
  | WSphere radius =>
      let distance := f64_sqrt (mul_add (v0 p) (v0 p) (mul_add (v1 p) (v1 p) (f64_mul (v2 p) (v2 p)))) in
      f64_sub radius distance
  | WCylinder radius half_height =>
      let radial := f64_sqrt (mul_add (v0 p) (v0 p) (f64_mul (v1 p) (v1 p))) in
      let d0 := f64_sub radial radius in
      let d1 := f64_sub (f64_abs (v2 p)) half_height in
      let outside_dist := hypot (f64_max d0 zero) (f64_max d1 zero) in
      let inside_dist := f64_min (f64_max d0 d1) zero in
      f64_neg (f64_add outside_dist inside_dist)
  end.

(** [zone.shape.signed_margin(point) - zone.margin_m]. *)
Definition zone_margin (z : WorkspaceZone) (p : vec3) : f64 :=
  f64_sub (signed_margin (shape z) p) (margin_m z).

(** *** A planned pose *)

Fixpoint pose_zones (graph : FrameTree) (pose : Transform3D) (rel : string) (zs : list WorkspaceZone)
    (acc : ZoneAcc) : option (result ZoneAcc string) :=
  match zs with
  | [] => Some (Ok acc)
  | z :: zs =>
      if negb (frame_exists graph (origin_frame z)) then pose_zones graph pose rel zs acc
      else
        match lookup_transform graph (origin_frame z) rel with
        | None => None
        | Some (Err e) =>
            Some (Err ("failed to evaluate pose relative to workspace zone `" +:+ zone_name z +:+ "`: "
                       +:+ display_error e))
        | Some (Ok zone_to_relative) =>
            pose_zones graph pose rel zs
              (account acc z (zone_margin z (translation (compose zone_to_relative pose))))
        end
  end.

Definition evaluate_pose_workspace (self : EmbodimentRuntime) (pose : Transform3D) (rel : string)
    : option (result WorkspacePoseEvaluation string) :=
  let zs := zones (workspace_envelope self) in
  match zs with
  | [] => Some (Ok {| pe_relative_to := rel; pe_pose := pose; pe_safe := true; pe_min_margin_m := None;
                      pe_in_human_presence := false; pe_zone_checks := []; pe_alerts := [] |})
  | _ =>
      if negb (frame_exists (frame_graph self) rel) then
        Some (Err ("pose reference frame `" +:+ rel +:+ "` missing from embodiment runtime"))
      else
        let has_allowed_zone := has_zone_type Allowed zs in
        fuel_bind (pose_zones (frame_graph self) pose rel zs no_zones) (fun acc =>
        let outside := has_allowed_zone && negb (inside_allowed acc) in
        let entered := inside_restricted acc in
        Some (Ok {|
          pe_relative_to := rel; pe_pose := pose;
          pe_safe := negb outside && negb entered;
          pe_min_margin_m := min_margin has_allowed_zone acc;
          pe_in_human_presence := in_human_presence acc;
          pe_zone_checks := zone_checks acc;
          pe_alerts :=
            (if outside then ["planned pose lies outside every allowed workspace zone"] else [])
            ++ (if entered then ["planned pose entered a restricted workspace zone"] else [])
            ++ (if in_human_presence acc
                then ["planned pose is inside a human-presence workspace zone"] else []) |}))
  end.

(** *** The tools in a snapshot *)

(** The loop over the zones for one tool; the alerts and [frame_safe] beside the accumulators. *)
Fixpoint tcp_zones (self : EmbodimentRuntime) (s : FrameGraphSnapshot) (t : ToolCenterPoint)
    (zs : list WorkspaceZone) (acc : ZoneAcc) (alerts : list string) (frame_safe : bool)
    : option (ZoneAcc * list string * bool) :=
  match zs with
  | [] => Some (acc, alerts, frame_safe)
  | z :: zs =>
      match tcp_pose_in_snapshot self s t (Some (origin_frame z)) with
      | None => None
      | Some (Err e) =>
          tcp_zones self s t zs acc
            (alerts ++ ["failed to evaluate tcp `" +:+ tcp_name t +:+ "` relative to workspace zone `"
                        +:+ zone_name z +:+ "`: " +:+ e])%list false
      | Some (Ok pose) =>
          tcp_zones self s t zs (account acc z (zone_margin z (translation (rp_transform pose)))) alerts frame_safe
      end
  end.

Definition check_tcp (self : EmbodimentRuntime) (s : FrameGraphSnapshot) (zs : list WorkspaceZone)
    (t : ToolCenterPoint) : option (WorkspaceCheckFrameResult * list string) :=
  let has_allowed_zone := has_zone_type Allowed zs in
  match tcp_zones self s t zs no_zones [] true with
  | None => None
  | Some (acc, alerts, frame_safe) =>
      let outside := has_allowed_zone && negb (inside_allowed acc) in
      let entered := inside_restricted acc in
      Some
        ({| cf_frame_id := tcp_name t; cf_margin_m := min_margin has_allowed_zone acc;
            cf_safe := frame_safe && negb outside && negb entered;
            cf_in_human_presence := in_human_presence acc; cf_zone_checks := zone_checks acc |},
         (alerts
          ++ (if outside then ["tcp `" +:+ tcp_name t +:+ "` lies outside every allowed workspace zone"] else [])
          ++ (if entered then ["tcp `" +:+ tcp_name t +:+ "` entered a restricted workspace zone"] else [])
          ++ (if in_human_presence acc
              then ["tcp `" +:+ tcp_name t +:+ "` is inside a human-presence workspace zone"] else []))%list)
  end.

Definition check_workspace_snapshot (self : EmbodimentRuntime) (s : FrameGraphSnapshot)
    : option WorkspaceCheckResult :=
  let zs := zones (workspace_envelope self) in
  match tcps (model self), zs with
  | [], _ | _, [] =>
      Some {| cr_safe := true; cr_min_margin_m := None; cr_frames := []; cr_alerts := [] |}
  | ts, _ =>
      rs ← mapM (check_tcp self s zs) ts;
      let frames := map fst rs in
      Some {| cr_safe := forallb cf_safe frames;
              cr_min_margin_m := fold_left (fold_margin f64_min) (omap cf_margin_m frames) None;
              cr_frames := frames;
              cr_alerts := sort_dedup (concat (map snd rs)) |}
  end.

(** *** A frame *)

Record WorkspaceFrameMatch : Type := {
  fm_zone_name : string;
  fm_zone_type : ZoneType;
  fm_contains_origin : bool;
  point_in_zone : vec3;
}.

Fixpoint frame_matches (tree : FrameTree) (f : string) (zs : list WorkspaceZone)
    : option (result (list WorkspaceFrameMatch) string) :=
  match zs with
  | [] => Some (Ok [])
  | z :: zs =>
      if negb (frame_exists tree (origin_frame z)) then frame_matches tree f zs
      else
        match lookup_transform tree (origin_frame z) f with
        | None => None
        | Some (Err e) =>
            Some (Err ("failed to evaluate frame `" +:+ f +:+ "` in workspace zone `" +:+ zone_name z +:+ "`: "
                       +:+ display_error e))
        | Some (Ok t) =>
            fuel_bind (frame_matches tree f zs) (fun rest =>
            Some (Ok ({| fm_zone_name := zone_name z; fm_zone_type := zone_type z;
                         fm_contains_origin := contains_point (shape z) (translation t);
                         point_in_zone := translation t |} :: rest)))
        end
  end.

Definition evaluate_workspace_frame (self : EmbodimentRuntime) (s : FrameGraphSnapshot) (f : string)
    (rel : option string) : option (result (ResolvedFramePose * list WorkspaceFrameMatch) string) :=
  fuel_bind (resolve_frame_pose self s f rel) (fun pose =>
  fuel_bind (frame_matches (fst (overlay_snapshot_tree s)) f (zones (workspace_envelope self))) (fun ms =>
  Some (Ok (pose, ms)))).

(** ** Execution assessment *)

Inductive JacobianConditioning : Type := Singular | IllConditioned | Marginal | WellConditioned.

Inductive PlanDegradationReason : Type :=
| OutsideAllowedWorkspace | RestrictedWorkspace | HumanPresenceZone
| SingularJacobian | IllConditionedJacobian | NonConverged.

#[export] Instance PlanDegradationReason_eq_dec : EqDecision PlanDegradationReason.
Proof. solve_decision. Defined.

Record PlanExecutionAssessment : Type := {
  executable : bool;
  ea_safe : bool;
  conditioning : JacobianConditioning;
  min_workspace_margin_m : option f64;
  degradation_reasons : list PlanDegradationReason;
  ea_alerts : list string;
}.

(** [alert.contains(pattern)]. *)
Definition mentions (pattern : string) (alerts : list string) : bool :=
  existsb (fun a => match String.index 0 pattern a with Some _ => true | None => false end) alerts.

Definition combine_workspace_margins (ws : list WorkspacePoseEvaluation) : option f64 :=
  fold_left (fold_margin f64_min) (omap pe_min_margin_m ws) None.

Definition workspace_reasons (w : WorkspacePoseEvaluation) : list PlanDegradationReason :=
  ((if mentions "outside every allowed workspace zone" (pe_alerts w) then [OutsideAllowedWorkspace] else [])
   ++ (if mentions "restricted workspace zone" (pe_alerts w) then [RestrictedWorkspace] else [])
   ++ (if pe_in_human_presence w then [HumanPresenceZone] else []))%list.

(** The derived order of the reasons. *)
Definition reason_rank (r : PlanDegradationReason) : nat :=
  match r with
  | OutsideAllowedWorkspace => 0 | RestrictedWorkspace => 1 | HumanPresenceZone => 2
  | SingularJacobian => 3 | IllConditionedJacobian => 4 | NonConverged => 5
  end.

Definition reason_le (a b : PlanDegradationReason) : Prop := (reason_rank a <= reason_rank b)%nat.
#[export] Instance reason_le_dec : RelDecision reason_le.
Proof. intros a b. unfold reason_le. apply _. Defined.

Definition build_execution_assessment (ws : list WorkspacePoseEvaluation) (cond : JacobianConditioning)
    (converged : option bool) (extra_alerts : list string) : PlanExecutionAssessment :=
  let reasons :=
    (concat (map workspace_reasons ws)
     ++ (match cond with
         | Singular => [SingularJacobian]
         | IllConditioned => [IllConditionedJacobian]
         | Marginal | WellConditioned => []
         end)
     ++ (match converged with Some false => [NonConverged] | _ => [] end))%list in
  let safe := forallb pe_safe ws && negb (existsb pe_in_human_presence ws) in
  {| executable := safe && default true converged
                   && match cond with Singular | IllConditioned => false | _ => true end;
     ea_safe := safe; conditioning := cond;
     min_workspace_margin_m := combine_workspace_margins ws;
     degradation_reasons := dedup (merge_sort reason_le reasons);
     ea_alerts := sort_dedup (concat (map pe_alerts ws) ++ extra_alerts) |}.

(** ** Sensors *)

Record SensorReachability : Type := {
  sr_sensor_id : string;
  actuated : bool;
  has_frustum : bool;
  joint_chain : list string;
  sr_pose : ResolvedFramePose;
  workspace_safe : bool;
  sr_min_margin_m : option f64;
  sr_in_human_presence : bool;
  sr_alerts : list string;
}.

Fixpoint sensor_zones (self : EmbodimentRuntime) (s : FrameGraphSnapshot) (m : SensorMount)
    (zs : list WorkspaceZone) (acc : ZoneAcc) (alerts : list string)
    : option (result (ZoneAcc * list string) string) :=
  match zs with
  | [] => Some (Ok (acc, alerts))
  | z :: zs =>
      fuel_bind (sensor_pose_in_snapshot self s m (Some (origin_frame z))) (fun pose =>
      let margin := zone_margin z (translation (rp_transform pose)) in
      let alert :=
        if f64_ge margin zero then
          match zone_type z with
          | Allowed => []
          | Restricted => ["sensor `" +:+ sensor_id m +:+ "` entered restricted zone `" +:+ zone_name z +:+ "`"]
          | HumanPresence =>
              ["sensor `" +:+ sensor_id m +:+ "` is inside human-presence zone `" +:+ zone_name z +:+ "`"]
          end
        else [] in
      sensor_zones self s m zs (account acc z margin) (alerts ++ alert)%list)
  end.

Definition find_sensor (self : EmbodimentRuntime) (id : string) : result SensorMount string :=
  ok_or (List.find (fun s => String.eqb (sensor_id s) id) (sensor_mounts (model self)))
        ("sensor `" +:+ id +:+ "` not found in embodiment model").

Section Trigonometry.
Context (sin cos : f64 -> f64).

Definition evaluate_sensor_reachability (self : EmbodimentRuntime) (id : string) (positions : list f64)
    : option (result SensorReachability string) :=
  let snapshot := joint_snapshot sin cos self positions in
  fuel_bind (Some (find_sensor self id)) (fun sensor =>
  fuel_bind (sensor_pose_in_snapshot self snapshot sensor None) (fun pose =>
  fuel_bind (sensor_joint_chain self id) (fun chain =>
  let zs := zones (workspace_envelope self) in
  fuel_bind (sensor_zones self snapshot sensor zs no_zones []) (fun '(acc, alerts) =>
  let has_allowed_zone := has_zone_type Allowed zs in
  let outside := has_allowed_zone && negb (inside_allowed acc) in
  Some (Ok {|
    sr_sensor_id := sensor_id sensor; actuated := is_actuated sensor;
    has_frustum := match frustum sensor with Some _ => true | None => false end;
    joint_chain := chain; sr_pose := pose;
    workspace_safe := (negb has_allowed_zone || inside_allowed acc) && negb (inside_restricted acc);
    sr_min_margin_m := min_margin has_allowed_zone acc;
    sr_in_human_presence := in_human_presence acc;
    sr_alerts :=
      sort_dedup (alerts ++ if outside
                            then ["sensor `" +:+ id +:+ "` lies outside every allowed workspace zone"]
                            else []) |}))))).

Inductive ViewpointTarget : Type :=
| LookAt (frame_id : string)
| MoveTo (pose : Transform3D)
| Adjust (delta : Transform3D).

Inductive ObservationGoal : Type :=
| CoverRegion (frame_id : string) (radius : f64)
| ReduceUncertainty (entity_id : string)
| VerifyCondition (description : string).

Record ActivePerceptionCommand : Type := {
  apc_sensor_id : string;
  target : ViewpointTarget;
  observation_goal : ObservationGoal;
}.

Record ActivePerceptionCommandCheck : Type := {
  ac_sensor : SensorReachability;
  target_valid : bool;
  planned_pose : option WorkspacePoseEvaluation;
  ac_execution : PlanExecutionAssessment;
  ac_safe : bool;
  ac_alerts : list string;
}.

Definition is_none {A} (o : option A) : bool := match o with None => true | Some _ => false end.

(** The planned pose of a command, with the alert of a missing target frame. *)
Definition plan_target (self : EmbodimentRuntime) (sensor : SensorReachability) (t : ViewpointTarget)
    : option (result (option WorkspacePoseEvaluation * list string) string) :=
  match t with
  | LookAt f =>
      Some (Ok (None, if frame_exists (frame_graph self) f then []
                      else ["active perception target frame `" +:+ f +:+ "` does not exist"]))
  | MoveTo pose =>
      fuel_bind (evaluate_pose_workspace self pose (relative_to (sr_pose sensor))) (fun e =>
      Some (Ok (Some e, [])))
  | Adjust delta =>
      fuel_bind (evaluate_pose_workspace self (compose (rp_transform (sr_pose sensor)) delta)
                                         (relative_to (sr_pose sensor))) (fun e =>
      Some (Ok (Some e, [])))
  end.

Definition goal_alerts (self : EmbodimentRuntime) (g : ObservationGoal) : list string :=
  match g with
  | CoverRegion f _ =>
      if frame_exists (frame_graph self) f then []
      else ["observation goal frame `" +:+ f +:+ "` does not exist"]
  | _ => []
  end.

Definition evaluate_active_perception_command (self : EmbodimentRuntime) (command : ActivePerceptionCommand)
    (positions : list f64) : option (result ActivePerceptionCommandCheck string) :=
  fuel_bind (evaluate_sensor_reachability self (apc_sensor_id command) positions) (fun sensor =>
  fuel_bind (plan_target self sensor (target command)) (fun '(planned, target_alerts) =>
  let goal := goal_alerts self (observation_goal command) in
  let target_valid := bool_decide (target_alerts = []) && bool_decide (goal = []) in
  let alerts :=
    sort_dedup
      (sr_alerts sensor ++ target_alerts
       ++ (if actuated sensor then []
           else ["sensor `" +:+ apc_sensor_id command +:+ "` is not actuated and cannot be repositioned"])
       ++ (if has_frustum sensor then []
           else ["sensor `" +:+ apc_sensor_id command
                 +:+ "` has no camera frustum for active perception planning"])
       ++ goal ++ match planned with Some p => pe_alerts p | None => [] end)%list in
  let execution :=
    build_execution_assessment (match planned with Some p => [p] | None => [] end)
      (if actuated sensor then WellConditioned else Marginal)
      (Some (target_valid && workspace_safe sensor && actuated sensor && has_frustum sensor)) alerts in
  Some (Ok {| ac_sensor := sensor; target_valid := target_valid; planned_pose := planned;
              ac_execution := execution;
              ac_safe := executable execution
                         && match planned with Some p => pe_safe p | None => true end;
              ac_alerts := alerts |}))).

Definition check_workspace (self : EmbodimentRuntime) (positions : list f64) : option WorkspaceCheckResult :=
  check_workspace_snapshot self (joint_snapshot sin cos self positions).

(** ** The projection of a tick *)

Definition geometry_bounding_radius (g : Geometry) : option f64 :=
  match g with
  | GBox h =>
      Some (f64_sqrt (mul_add (v0 h) (v0 h) (mul_add (v1 h) (v1 h) (f64_mul (v2 h) (v2 h)))))
  | GSphere r => Some r
  | GCylinder r l => Some (hypot r (f64_mul l half))
  | GMesh _ _ => None
  end.

Definition collision_body_pose (self : EmbodimentRuntime) (s : FrameGraphSnapshot) (b : CollisionBody)
    : option (result Transform3D string) :=
  fuel_bind (resolve_frame_pose self s (cb_link_name b) None) (fun p =>
  Some (Ok (compose (rp_transform p) (cb_origin b)))).

(** One body: its link, centre and radius, or the issue. *)
Definition collision_body (self : EmbodimentRuntime) (s : FrameGraphSnapshot) (b : CollisionBody)
    : option (result (string * vec3 * f64) string) :=
  match geometry_bounding_radius (geometry b) with
  | None => Some (Err ("collision body `" +:+ cb_link_name b
                       +:+ "` uses unsupported geometry for collision-margin projection"))
  | Some radius =>
      match collision_body_pose self s b with
      | None => None
      | Some (Ok pose) => Some (Ok (cb_link_name b, translation pose, radius))
      | Some (Err e) =>
          Some (Err ("failed to resolve collision body `" +:+ cb_link_name b
                     +:+ "` for collision-margin projection: " +:+ e))
      end
  end.

Definition pair_margin (self : EmbodimentRuntime) (a b : string * vec3 * f64) : option f64 :=
  let '(left_link, left_center, left_radius) := a in
  let '(right_link, right_center, right_radius) := b in
  if String.eqb left_link right_link || is_allowed_collision_pair (model self) left_link right_link then None
  else
    let dx := f64_sub (v0 left_center) (v0 right_center) in
    let dy := f64_sub (v1 left_center) (v1 right_center) in
    let dz := f64_sub (v2 left_center) (v2 right_center) in
    let center_distance := f64_sqrt (mul_add dx dx (mul_add dy dy (f64_mul dz dz))) in
    Some (f64_sub center_distance (f64_add left_radius right_radius)).

(** The pairs in the order of the two loops. *)
Fixpoint pair_margins (self : EmbodimentRuntime) (bs : list (string * vec3 * f64)) : list f64 :=
  match bs with
  | [] => []
  | b :: bs => omap (pair_margin self b) bs ++ pair_margins self bs
  end.

Definition collision_margin_for_snapshot (self : EmbodimentRuntime) (s : FrameGraphSnapshot)
    : option (option f64 * list string) :=
  if (length (collision_bodies (model self)) <? 2)%nat then Some (None, [])
  else
    rs ← mapM (collision_body self s) (collision_bodies (model self));
    Some (fold_left (fold_margin f64_min) (pair_margins self (oks rs)) None, sort_dedup (errs rs)).

Definition joint_effort_limit (self : EmbodimentRuntime) (joint : string) : option f64 :=
  match (o ← safety_overlay self; l ← joint_limit_overrides o !! joint; max_torque l) with
  | Some t => Some t
  | None => j ← get_joint (model self) joint; max_torque (j_limits j)
  end.

Definition force_margin_from_efforts (self : EmbodimentRuntime) (efforts : option (list f64)) : option f64 :=
  efforts ← efforts;
  fold_left (fold_margin f64_min)
    (omap (fun b =>
       effort ← efforts !! Z.to_nat (channel_index b);
       limit ← joint_effort_limit self (physical_name b);
       Some (f64_sub limit (f64_abs effort))) (channel_bindings (model self))) None.

Definition freshness_score (f : FreshnessState) : f64 :=
  match f with Fresh => one | Stale _ => half | UnknownFreshness => zero end.

(** [None] inside: no sample; [Panic] never, as the range of the clamp is not empty. *)
Definition observation_confidence_for_snapshot (self : EmbodimentRuntime) (s : FrameGraphSnapshot)
    : exec (option f64) :=
  let! anchors := exec_mapi (fun _ a => clamp (wa_confidence a) zero one) 0 (world_anchors s) in
  let samples :=
    (map (fun f => freshness_score (default UnknownFreshness (frame_freshness s !! f))) (snapshot_watched self s)
     ++ anchors)%list in
  match samples with
  | [] => Ret None
  | _ =>
      if (Z.of_nat (length samples) <=? u32_max)%Z then
        Ret (Some (f64_div (fold_left f64_add samples (f64_neg zero)) (f64_of_Z (Z.of_nat (length samples)))))
      else Ret None
  end.

Record TickDerivedFeaturesProjection : Type := {
  tf_calibration_valid : bool;
  workspace_margin : option f64;
  collision_margin : option f64;
  force_margin : option f64;
  observation_confidence : option f64;
  tf_active_perception_available : bool;
  tf_alerts : list string;
}.

Record TickProjection : Type := {
  watched_poses : list WatchedPoseProjection;
  features : TickDerivedFeaturesProjection;
  tp_validation_issues : list string;
}.

Definition build_tick_projection_with_efforts (self : EmbodimentRuntime) (s : FrameGraphSnapshot)
    (efforts : option (list f64)) : exec (option TickProjection) :=
  let! confidence := observation_confidence_for_snapshot self s in
  Ret (
    workspace_check ← check_workspace_snapshot self s;
    poses ← project_watched_poses self s;
    collision ← collision_margin_for_snapshot self s;
    Some {| watched_poses := fst poses;
            features := {|
              tf_calibration_valid := calibration_valid self;
              workspace_margin := cr_min_margin_m workspace_check;
              collision_margin := fst collision;
              force_margin := force_margin_from_efforts self efforts;
              observation_confidence := confidence;
              tf_active_perception_available := active_perception_available self;
              tf_alerts := cr_alerts workspace_check |};
            tp_validation_issues := sort_dedup (snd poses ++ snd collision) |}).

Definition build_tick_projection (self : EmbodimentRuntime) (s : FrameGraphSnapshot)
    : exec (option TickProjection) := build_tick_projection_with_efforts self s None.

Record TickJointStateProjection : Type := {
  tj_name : string;
  tj_position : f64;
  tj_velocity : f64;
  tj_effort : option f64;
}.

Definition tick_joints (names : list string) (positions velocities : list f64) (efforts : option (list f64))
    : list TickJointStateProjection :=
  imap (fun i name => {| tj_name := name; tj_position := default zero (positions !! i);
                         tj_velocity := default zero (velocities !! i);
                         tj_effort := efforts ≫= (fun l => l !! i) |}) names.

(** The snapshot, the joints and the projection of a tick. *)
Definition build_tick_input_projection (self : EmbodimentRuntime) (tick snapshot_ts : Z)
    (names : list string) (positions velocities : list f64) (efforts : option (list f64))
    (input : FrameSnapshotInput)
    : exec (option (FrameGraphSnapshot * list TickJointStateProjection * TickProjection)) :=
  let input :=
    if bool_decide (in_joint_positions input = ∅) && negb (bool_decide (positions = [])) then
      {| in_clock_domain := in_clock_domain input;
         in_joint_positions := joint_positions_from_channel_values self positions;
         in_dynamic_transforms := in_dynamic_transforms input;
         in_world_anchors := in_world_anchors input;
         in_validation_issues := in_validation_issues input |}
    else input in
  let snapshot := build_frame_snapshot_with_input sin cos self tick snapshot_ts input in
  let! p := build_tick_projection_with_efforts self snapshot efforts in
  Ret (p ← p; Some (snapshot, tick_joints names positions velocities efforts, p)).

End Trigonometry.
End Margins.

(** ** Margins and zones *)

Lemma max_nonneg a b : f64_ge (f64_max a b) zero = f64_ge a zero || f64_ge b zero.
Proof.
  unfold f64_max. destruct (is_nan a) eqn:Ha; [by destruct a|].
  destruct (is_nan b) eqn:Hb; [destruct b; try done; by rewrite orb_false_r|].
  destruct (f64_lt a b) eqn:Hlt; [destruct (f64_ge a zero) eqn:Hz|destruct (f64_ge b zero) eqn:Hz];
    rewrite ?orb_true_r, ?orb_false_r; simpl; try done; f64_order.
Qed.

Lemma min_negative a b : f64_lt (f64_min a b) zero = f64_lt a zero || f64_lt b zero.
Proof.
  unfold f64_min. destruct (is_nan a) eqn:Ha; [by destruct a|].
  destruct (is_nan b) eqn:Hb; [destruct b; try done; by rewrite orb_false_r|].
  destruct (f64_lt b a) eqn:Hlt; [destruct (f64_lt a zero) eqn:Hz|destruct (f64_lt b zero) eqn:Hz];
    rewrite ?orb_true_r, ?orb_false_r; simpl; try done; f64_order.
Qed.

Lemma neg_negative a : f64_lt (f64_neg a) zero = f64_lt zero a.
Proof.
  by destruct a as [[]|[]| |[] m e].
Qed.

(** What one check says about its zone. *)
Definition in_allowed (c : WorkspaceZoneCheck) : bool :=
  match zc_zone_type c with Allowed => f64_ge (signed_margin_m c) zero | _ => false end.
Definition in_restricted (c : WorkspaceZoneCheck) : bool :=
  match zc_zone_type c with Restricted => f64_lt zero (signed_margin_m c) | _ => false end.
Definition in_human (c : WorkspaceZoneCheck) : bool :=
  match zc_zone_type c with HumanPresence => f64_ge (signed_margin_m c) zero | _ => false end.

Definition account_all (acc : ZoneAcc) (l : list (WorkspaceZone * f64)) : ZoneAcc :=
  fold_left (fun acc zm => account acc (fst zm) (snd zm)) l acc.

Definition checks (l : list (WorkspaceZone * f64)) : list WorkspaceZoneCheck :=
  map (fun zm => zone_check (fst zm) (snd zm)) l.

Lemma account_all_spec l : forall acc,
  inside_allowed (account_all acc l) = inside_allowed acc || existsb in_allowed (checks l) /\
  inside_restricted (account_all acc l) = inside_restricted acc || existsb in_restricted (checks l) /\
  in_human_presence (account_all acc l) = in_human_presence acc || existsb in_human (checks l) /\
  zone_checks (account_all acc l) = (zone_checks acc ++ checks l)%list.
Proof.
  induction l as [|[z m] l IH]; intros acc; simpl.
  { by rewrite !orb_false_r, (right_id_L [] (++)). }
  destruct (IH (account acc z m)) as (-> & -> & -> & ->). simpl.
  rewrite <- (assoc_L (++)), !orb_assoc. split; [|split; [|split; [|done]]]; f_equal.
  - unfold inside_allowed, in_allowed. simpl. destruct (zone_type z); simpl; rewrite ?orb_false_r; try done.
    destruct (allowed_margin acc); simpl; [apply max_nonneg|done].
  - unfold inside_restricted, in_restricted. simpl. destruct (zone_type z); simpl; rewrite ?orb_false_r; try done.
    destruct (restricted_clearance acc); simpl; rewrite ?min_negative, neg_negative; done.
Qed.

(** The verdict over the checks of all zones. *)
Definition zones_safe (zs : list WorkspaceZone) (cs : list WorkspaceZoneCheck) : bool :=
  (negb (has_zone_type Allowed zs) || existsb in_allowed cs) && negb (existsb in_restricted cs).

Section Verdicts.
Context (hypot : f64 -> f64 -> f64).

(** The margin of [pose], given in the frame [rel], in the zone [z]. *)
Definition pose_margin (graph : FrameTree) (pose : Transform3D) (rel : string) (z : WorkspaceZone) (m : f64)
    : Prop :=
  exists T, lookup_transform graph (origin_frame z) rel = Some (Ok T) /\
    m = zone_margin hypot z (translation (compose T pose)).

Definition located (graph : FrameTree) (zs : list WorkspaceZone) : list WorkspaceZone :=
  List.filter (fun z => frame_exists graph (origin_frame z)) zs.

Lemma pose_zones_spec graph pose rel zs : forall acc acc',
  pose_zones hypot graph pose rel zs acc = Some (Ok acc') ->
  exists l, map fst l = located graph zs /\ Forall (fun zm => pose_margin graph pose rel (fst zm) (snd zm)) l /\
    acc' = account_all acc l.
Proof.
  induction zs as [|z zs IH]; intros acc acc' H; simpl in H.
  { injection H as <-. by exists []. }
  unfold located. simpl. destruct (frame_exists graph (origin_frame z)); simpl in H; [|by apply IH].
  destruct (lookup_transform graph (origin_frame z) rel) as [[T|e]|] eqn:Hl; [|done..].
  destruct (IH _ _ H) as (l & Hz & Hm & ->).
  exists ((z, zone_margin hypot z (translation (compose T pose))) :: l). simpl. unfold located in Hz.
  split; [by rewrite Hz|]. split; [|done]. constructor; [by exists T|done].
Qed.

Lemma pose_zones_total graph pose rel zs : forall acc,
  exists r, pose_zones hypot graph pose rel zs acc = Some r /\
    (rooted graph -> frame_exists graph rel = true -> is_ok r = true).
Proof.
  induction zs as [|z zs IH]; intros acc; simpl; [by eexists|].
  destruct (frame_exists graph (origin_frame z)) eqn:Hz; simpl; [|apply IH].
  destruct (lookup_transform_total graph (origin_frame z) rel) as [[T|e] Hl]; rewrite Hl; [apply IH|].
  eexists. split; [done|]. intros Hr Hrel. destruct (rooted_lookup graph _ _ Hr Hz Hrel) as [T HT].
  by rewrite HT in Hl.
Qed.

Lemma pose_workspace_total self pose rel : exists r, evaluate_pose_workspace hypot self pose rel = Some r.
Proof.
  unfold evaluate_pose_workspace. destruct (zones (workspace_envelope self)) as [|z zs]; [by eexists|].
  destruct (negb _); [by eexists|]. destruct (pose_zones_total (frame_graph self) pose rel (z :: zs) no_zones)
    as ([acc|e] & -> & _); by eexists.
Qed.

Lemma pose_workspace_cases self pose rel e :
  evaluate_pose_workspace hypot self pose rel = Some (Ok e) ->
  exists l, map fst l = located (frame_graph self) (zones (workspace_envelope self)) /\
    Forall (fun zm => pose_margin (frame_graph self) pose rel (fst zm) (snd zm)) l /\
    pe_zone_checks e = checks l /\
    pe_safe e = zones_safe (zones (workspace_envelope self)) (checks l) /\
    pe_in_human_presence e = existsb in_human (checks l) /\
    pe_alerts e =
      ((if has_zone_type Allowed (zones (workspace_envelope self)) && negb (existsb in_allowed (checks l))
        then ["planned pose lies outside every allowed workspace zone"] else [])
       ++ (if existsb in_restricted (checks l)
           then ["planned pose entered a restricted workspace zone"] else [])
       ++ (if existsb in_human (checks l)
           then ["planned pose is inside a human-presence workspace zone"] else []))%list.
Proof.
  unfold evaluate_pose_workspace. destruct (zones (workspace_envelope self)) as [|z zs] eqn:Hzs.
  { intros [= <-]. by exists []. }
  rewrite <- Hzs. destruct (negb _); [done|].
  destruct (pose_zones _ _ _ _ _ _) as [[acc|x]|] eqn:Hp; [|done..]. simpl. intros [= <-].
  destruct (pose_zones_spec _ _ _ _ _ _ Hp) as (l & Hl & Hm & ->). exists l.
  destruct (account_all_spec l no_zones) as (-> & -> & -> & ->). simpl.
  repeat split; [done..|]. unfold zones_safe. by rewrite negb_andb, negb_involutive.
Qed.

(** a planned pose is judged safe exactly when, over the zones whose frame the runtime has, it
    lies within the margin of some allowed zone (if the envelope declares any) and beyond the
    margin of no restricted one; it is in human presence exactly when within the margin of such a
    zone.  Every one of those zones is checked, with the margin of the pose in its frame. *)
Theorem pose_workspace_verdict self pose rel e :
  evaluate_pose_workspace hypot self pose rel = Some (Ok e) ->
  exists l, map fst l = located (frame_graph self) (zones (workspace_envelope self)) /\
    Forall (fun zm => pose_margin (frame_graph self) pose rel (fst zm) (snd zm)) l /\
    pe_zone_checks e = checks l /\
    pe_safe e = zones_safe (zones (workspace_envelope self)) (checks l) /\
    pe_in_human_presence e = existsb in_human (checks l).
Proof.
  intros H. destruct (pose_workspace_cases _ _ _ _ H) as (l & H1 & H2 & H3 & H4 & H5 & _). eauto 10.
Qed.

(** *** The tools of a snapshot *)

Definition tcp_margin (self : EmbodimentRuntime) (s : FrameGraphSnapshot) (t : ToolCenterPoint)
    (z : WorkspaceZone) (m : f64) : Prop :=
  exists pose, tcp_pose_in_snapshot self s t (Some (origin_frame z)) = Some (Ok pose) /\
    m = zone_margin hypot z (translation (rp_transform pose)).

Lemma resolve_total self s f rel : exists r, resolve_frame_pose self s f rel = Some r.
Proof.
  unfold resolve_frame_pose. destruct (or_else _ _) as [g|]; [|by eexists].
  destruct (overlay_snapshot_tree s) as [tree i]. destruct (negb _); [by eexists|].
  destruct (negb _); [by eexists|]. destruct (lookup_transform_total tree g f) as [[T|e] ->]; by eexists.
Qed.

Lemma mounted_pose_total self s n p o rel : exists r, mounted_pose self s n p o rel = Some r.
Proof.
  unfold mounted_pose. destruct (resolve_total self s p rel) as [[x|e] ->]; by eexists.
Qed.

Lemma tcp_zones_spec self s t zs : forall acc alerts fs acc' alerts' fs',
  tcp_zones hypot self s t zs acc alerts fs = Some (acc', alerts', fs') ->
  exists l, acc' = account_all acc l /\
    Forall (fun zm => tcp_margin self s t (fst zm) (snd zm)) l /\
    (fs' = true <-> fs = true /\ map fst l = zs).
Proof.
  induction zs as [|z zs IH]; intros acc alerts fs acc' alerts' fs' H; simpl in H.
  { injection H as <- <- <-. exists []. split; [done|]. split; [done|]. naive_solver. }
  destruct (tcp_pose_in_snapshot self s t (Some (origin_frame z))) as [[pose|e]|] eqn:Hp; [| |done].
  - destruct (IH _ _ _ _ _ _ H) as (l & -> & Hm & Hfs).
    exists ((z, zone_margin hypot z (translation (rp_transform pose))) :: l). simpl.
    split; [done|]. split; [constructor; [by exists pose|done]|]. rewrite Hfs.
    split; intros [-> Hl]; split; try done; [by rewrite Hl|by injection Hl].
  - destruct (IH _ _ _ _ _ _ H) as (l & -> & Hm & Hfs). exists l. split; [done|]. split; [done|].
    split; [intros Hf; apply Hfs in Hf as [? _]; done|]. intros [_ Hl]. exfalso.
    destruct l as [|[z' m] l]; [done|]. simpl in Hl. injection Hl as -> _.
    apply Forall_cons in Hm as [(pose & Hpose & _) _]. simpl in Hpose. by rewrite Hp in Hpose.
Qed.

Lemma tcp_zones_resolved self s t l :
  Forall (fun zm => tcp_margin self s t (fst zm) (snd zm)) l -> forall acc alerts fs acc' alerts' fs',
  tcp_zones hypot self s t (map fst l) acc alerts fs = Some (acc', alerts', fs') -> fs' = fs.
Proof.
  induction 1 as [|[z m] l (p & Hp & _) _ IH]; intros acc alerts fs acc' alerts' fs' H; simpl in H.
  - by injection H.
  - simpl in Hp. rewrite Hp in H. by apply IH in H.
Qed.

Lemma tcp_zones_total self s t zs : forall acc alerts fs,
  exists r, tcp_zones hypot self s t zs acc alerts fs = Some r.
Proof.
  induction zs as [|z zs IH]; intros acc alerts fs; simpl; [by eexists|].
  destruct (mounted_pose_total self s (tcp_name t) (tcp_parent_link t) (tcp_offset t) (Some (origin_frame z)))
    as [[p|e] H]; unfold tcp_pose_in_snapshot; rewrite H; apply IH.
Qed.

Lemma check_tcp_total self s zs t : exists r, check_tcp hypot self s zs t = Some r.
Proof.
  unfold check_tcp. destruct (tcp_zones_total self s t zs no_zones [] true) as [[[acc al] fs] ->]. by eexists.
Qed.

Lemma mapM_total {A B} (f : A -> option B) l : (forall x, exists y, f x = Some y) -> exists ys, mapM f l = Some ys.
Proof.
  intros Hf. induction l as [|x l [ys IH]]; simpl; [by eexists|].
  destruct (Hf x) as [y ->]. simpl. rewrite IH. by eexists.
Qed.

Lemma check_workspace_total self s : exists r, check_workspace_snapshot hypot self s = Some r.
Proof.
  unfold check_workspace_snapshot. destruct (tcps (model self)) as [|t ts]; [by eexists|].
  destruct (zones (workspace_envelope self)) as [|z zs]; [by eexists|].
  destruct (mapM_total (check_tcp hypot self s (z :: zs)) (t :: ts)) as [ys ->]; [apply check_tcp_total|by eexists].
Qed.

(** What makes one tool safe: it can be located in every zone, and the zones agree. *)
Definition tcp_safe (self : EmbodimentRuntime) (s : FrameGraphSnapshot) (t : ToolCenterPoint) : Prop :=
  let zs := zones (workspace_envelope self) in
  exists l, map fst l = zs /\ Forall (fun zm => tcp_margin self s t (fst zm) (snd zm)) l /\
    zones_safe zs (checks l) = true.

Lemma tcp_margin_det self s t z m m' : tcp_margin self s t z m -> tcp_margin self s t z m' -> m = m'.
Proof. intros (p & Hp & ->) (p' & Hp' & ->). rewrite Hp in Hp'. by injection Hp' as <-. Qed.

Lemma located_det self s t (l l' : list (WorkspaceZone * f64)) :
  map fst l = map fst l' ->
  Forall (fun zm => tcp_margin self s t (fst zm) (snd zm)) l ->
  Forall (fun zm => tcp_margin self s t (fst zm) (snd zm)) l' -> l = l'.
Proof.
  revert l'. induction l as [|[z m] l IH]; intros [|[z' m'] l'] Hm H H'; try done.
  simpl in Hm. injection Hm as -> Hm. apply Forall_cons in H as [H1 H2], H' as [H1' H2'].
  simpl in *. by rewrite (tcp_margin_det _ _ _ _ _ _ H1 H1'), (IH _ Hm H2 H2').
Qed.

Lemma check_tcp_safe self s t r alerts :
  check_tcp hypot self s (zones (workspace_envelope self)) t = Some (r, alerts) ->
  cf_safe r = true <-> tcp_safe self s t.
Proof.
  unfold check_tcp, tcp_safe. set (zs := zones (workspace_envelope self)).
  destruct (tcp_zones _ _ _ _ _ _ _ _) as [[[acc al] fs]|] eqn:Ht; [|done]. intros [= <- _]. simpl.
  destruct (tcp_zones_spec _ _ _ _ _ _ _ _ _ _ Ht) as (l & -> & Hm & Hfs).
  destruct (account_all_spec l no_zones) as (-> & -> & _). simpl. unfold zones_safe.
  rewrite !andb_true_iff, Hfs, negb_andb, negb_involutive. split.
  - intros [[[_ Hl] Ha] Hr]. exists l. by rewrite Ha, Hr.
  - intros (l' & Hl' & Hm' & Hs). apply andb_true_iff in Hs as [Ha Hr].
    assert (l = l') as ->; [|by rewrite Ha, Hr].
    assert (fs = true) as Hf; [|apply Hfs in Hf as [_ Hl]; apply (located_det self s t); [congruence|done..]].
    rewrite <- Hl' in Ht. by apply (tcp_zones_resolved _ _ _ _ Hm' _ _ _ _ _ _ Ht).
Qed.

(** the check of a snapshot returns on every runtime, and finds it safe exactly when every tool
    can be located in the frame of every zone of the envelope, lies within the margin of some
    allowed zone if one is declared, and beyond the margin of no restricted zone. *)
Theorem check_workspace_verdict self s :
  exists r, check_workspace_snapshot hypot self s = Some r /\
    (cr_safe r = true <->
     zones (workspace_envelope self) = [] \/ forall t, t ∈ tcps (model self) -> tcp_safe self s t).
Proof.
  destruct (check_workspace_total self s) as [r Hr]. exists r. split; [done|].
  unfold check_workspace_snapshot in Hr. pose proof (check_tcp_safe self s) as Hone.
  destruct (tcps (model self)) as [|t ts].
  { injection Hr as <-. simpl. split; [|done]. intros _. right. intros t Ht. by apply not_elem_of_nil in Ht. }
  destruct (zones (workspace_envelope self)) as [|z zs] eqn:Hz.
  { injection Hr as <-. simpl. split; [|done]. by left. }
  destruct (mapM _ _) as [ys|] eqn:Hm; [|done]. simpl in Hr. injection Hr as <-. simpl.
  rewrite forallb_forall. apply mapM_Some in Hm. split.
  - intros H. right. intros t' Ht'. apply list_elem_of_lookup in Ht' as [i Hi].
    destruct (Forall2_lookup_l _ _ _ _ _ Hm Hi) as ([x al] & Hx & Hc). rewrite <- Hz in *.
    apply (Hone _ _ _ Hc), H, in_map_iff. exists (x, al). split; [done|].
    apply list_elem_of_In. by apply list_elem_of_lookup_2 in Hx.
  - intros [|H] x Hx; [done|]. apply in_map_iff in Hx as ([x' al] & <- & Hx).
    apply list_elem_of_In, list_elem_of_lookup in Hx as [i Hi].
    destruct (Forall2_lookup_r _ _ _ _ _ Hm Hi) as (t' & Ht' & Hc). rewrite <- Hz in *.
    apply (Hone _ _ _ Hc), H. by apply list_elem_of_lookup_2 in Ht'.
Qed.

End Verdicts.

(** ** What an assessment means *)

Section Assessment.
Context (hypot : f64 -> f64 -> f64).

(** An evaluation that the runtime has made. *)
Definition evaluated (self : EmbodimentRuntime) (w : WorkspacePoseEvaluation) : Prop :=
  exists pose rel, evaluate_pose_workspace hypot self pose rel = Some (Ok w).

(** The reasons are read back from the texts of the alerts; they are the verdict. *)
Lemma evaluated_reasons self w :
  evaluated self w -> workspace_reasons w = [] <-> pe_safe w = true /\ pe_in_human_presence w = false.
Proof.
  intros (pose & rel & H). destruct (pose_workspace_cases _ _ _ _ _ H) as (l & _ & _ & _ & -> & Hh & Ha).
  unfold workspace_reasons. rewrite Ha, Hh. unfold zones_safe.
  destruct (has_zone_type Allowed _), (existsb in_allowed _), (existsb in_restricted _), (existsb in_human _);
    vm_compute; naive_solver.
Qed.

Lemma concat_nil {A} (l : list (list A)) : concat l = [] <-> Forall (fun x => x = []) l.
Proof.
  induction l as [|x l IH]; simpl; [by split|]. rewrite Forall_cons, <- IH. split.
  - by intros [-> ->]%app_eq_nil.
  - by intros [-> ->].
Qed.

Lemma dedup_nil {A} `{EqDecision A} (l : list A) : dedup l = [] <-> l = [].
Proof.
  split; [|by intros ->]. intros H. apply elem_of_nil_inv. intros x Hx.
  apply elem_of_dedup in Hx. rewrite H in Hx. by apply not_elem_of_nil in Hx.
Qed.

Lemma reasons_nil (l : list PlanDegradationReason) : dedup (merge_sort reason_le l) = [] <-> l = [].
Proof.
  rewrite dedup_nil. split; [|by intros ->]. intros H. apply Permutation_nil_r.
  by rewrite <- (merge_sort_Permutation reason_le l), H.
Qed.

(** a plan is executable exactly when no degradation reason is recorded: the reasons, which are
    recovered from the texts of the alerts, and the flags never contradict each other. *)
Theorem assessment_reasons_complete self ws cond converged extra :
  Forall (evaluated self) ws ->
  executable (build_execution_assessment ws cond converged extra) = true <->
  degradation_reasons (build_execution_assessment ws cond converged extra) = [].
Proof.
  intros Hws. simpl. rewrite reasons_nil, !andb_true_iff, negb_true_iff.
  assert (concat (map workspace_reasons ws) = [] <->
          forallb pe_safe ws = true /\ existsb pe_in_human_presence ws = false) as Hc.
  { rewrite concat_nil. induction Hws as [|w ws Hw _ IH]; simpl; [done|].
    rewrite Forall_cons, (evaluated_reasons _ _ Hw), IH, andb_true_iff, orb_false_iff. tauto. }
  rewrite <- Hc. split.
  - intros [[-> Hv] Hk]. by destruct cond, converged as [[]|].
  - intros [-> [Hk Hv]%app_eq_nil]%app_eq_nil. by destruct cond, converged as [[]|].
Qed.

Lemma executable_safe ws cond converged extra :
  executable (build_execution_assessment ws cond converged extra) = true <->
  Forall (fun w => pe_safe w = true /\ pe_in_human_presence w = false) ws /\
  default true converged = true /\ cond <> Singular /\ cond <> IllConditioned.
Proof.
  simpl. rewrite !andb_true_iff, negb_true_iff, forallb_forall, <- not_true_iff_false, existsb_exists,
    Forall_forall.
  assert ((match cond with Singular | IllConditioned => false | _ => true end) = true <->
          cond <> Singular /\ cond <> IllConditioned) as -> by (destruct cond; naive_solver).
  split.
  - intros [[[Hs Hh] ->] ?]. split; [|done]. intros w Hw. split; [apply Hs; by apply list_elem_of_In|].
    destruct (pe_in_human_presence w) eqn:E; [|done]. destruct Hh. exists w. by rewrite <- list_elem_of_In.
  - intros (H & -> & ?). split; [split; [split|done]|done].
    + intros w Hw. by apply H, list_elem_of_In.
    + intros (w & Hw & Ht). apply list_elem_of_In in Hw. destruct (H w Hw) as [_ Hf]. congruence.
Qed.

Lemma some_ok_inj {T E} (a b : T) : @Some (result T E) (Ok a) = Some (Ok b) -> a = b.
Proof. by intros [= ->]. Qed.

(** a command to reposition a sensor is judged safe exactly when the sensor is actuated, has a
    camera, is within the workspace where it is, its target and goal name existing frames, and the
    planned pose, if the target is one, is safe and not among humans. *)
Theorem active_perception_verdict sin cos self command positions r :
  evaluate_active_perception_command hypot sin cos self command positions = Some (Ok r) ->
  ac_safe r = true <->
  actuated (ac_sensor r) = true /\ has_frustum (ac_sensor r) = true /\
  workspace_safe (ac_sensor r) = true /\
  (forall f, target command = LookAt f -> frame_exists (frame_graph self) f = true) /\
  (forall f d, observation_goal command = CoverRegion f d -> frame_exists (frame_graph self) f = true) /\
  (forall p, planned_pose r = Some p -> pe_safe p = true /\ pe_in_human_presence p = false).
Proof.
  unfold evaluate_active_perception_command. intros H.
  destruct (evaluate_sensor_reachability _ _ _ _ _ _) as [[sensor|e]|]; [|done..]. cbn [fuel_bind] in H.
  destruct (plan_target _ _ _ _) as [[[planned al]|e]|] eqn:Hp; [|done..]. cbn [fuel_bind] in H.
  apply some_ok_inj in H. subst r.
  cbn [ac_safe ac_sensor planned_pose]. rewrite andb_true_iff, executable_safe. cbn [default from_option id].
  rewrite !andb_true_iff, !bool_decide_eq_true.
  assert (goal_alerts self (observation_goal command) = [] <->
    forall f d, observation_goal command = CoverRegion f d -> frame_exists (frame_graph self) f = true) as ->.
  { unfold goal_alerts. destruct (observation_goal command) as [f d|?|?]; [|naive_solver..].
    destruct (frame_exists _ f) eqn:Hf; split; try done; [naive_solver|].
    intros H. by rewrite (H f d eq_refl) in Hf. }
  assert (al = [] <-> forall f, target command = LookAt f -> frame_exists (frame_graph self) f = true) as ->.
  { unfold plan_target in Hp. destruct (target command) as [f|pose|delta].
    - injection Hp as _ <-. destruct (frame_exists _ f) eqn:Hf; split; try done; [naive_solver|].
      intros H. by rewrite (H f eq_refl) in Hf.
    - destruct (evaluate_pose_workspace _ _ _ _) as [[w|e]|]; [|done..]. simpl in Hp. by injection Hp as _ <-.
    - destruct (evaluate_pose_workspace _ _ _ _) as [[w|e]|]; [|done..]. simpl in Hp. by injection Hp as _ <-. }
  destruct planned as [p|]; rewrite ?Forall_singleton, ?Forall_nil.
  - assert ((forall q, Some p = Some q -> pe_safe q = true /\ pe_in_human_presence q = false) <->
            pe_safe p = true /\ pe_in_human_presence p = false) as -> by naive_solver.
    destruct (actuated sensor); naive_solver.
  - assert ((forall q, @None WorkspacePoseEvaluation = Some q -> pe_safe q = true /\ pe_in_human_presence q = false)
            <-> True) as -> by naive_solver.
    destruct (actuated sensor); naive_solver.
Qed.

End Assessment.

(** ** The margin of a box *)

Lemma max_zero_nonpos q : f64_le q zero = true -> exists s, f64_max q zero = S754_zero s.
Proof.
  intros H. unfold f64_max. destruct (is_nan q) eqn:Hq; [by destruct q|]. simpl.
  destruct (f64_lt q zero) eqn:Hlt; [by exists false|].
  destruct q as [s|[]| |[] m e]; try done. by exists s.
Qed.

Lemma max_nonpos a b : f64_le a zero = true -> f64_le b zero = true -> f64_le (f64_max a b) zero = true.
Proof. intros Ha Hb. unfold f64_max. by destruct (is_nan a), (is_nan b), (f64_lt a b). Qed.

Lemma box_outside s0 s1 s2 :
  exists s, f64_sqrt (mul_add (S754_zero s0) (S754_zero s0)
    (mul_add (S754_zero s1) (S754_zero s1) (f64_mul (S754_zero s2) (S754_zero s2)))) = S754_zero s.
Proof. destruct s0, s1, s2; first [exists false; reflexivity | exists true; reflexivity]. Qed.

(** a finite point of a box has a non-negative signed margin; rounding never puts a point that
    the containment test accepts outside. *)
Theorem box_margin_sound hypot h p :
  (forall x, x ∈ [v0 p; v1 p; v2 p; v0 h; v1 h; v2 h] -> valid x = true /\ is_finite x = true) ->
  Embodiment.contains_point (WBox h) p = true -> f64_ge (signed_margin hypot (WBox h) p) zero = true.
Proof.
  intros Hf Hc. unfold Embodiment.contains_point in Hc. bool_prop.
  assert (forall x y, x ∈ [v0 p; v1 p; v2 p; v0 h; v1 h; v2 h] -> y ∈ [v0 p; v1 p; v2 p; v0 h; v1 h; v2 h] ->
    f64_le (f64_abs x) y = true -> f64_le (f64_sub (f64_abs x) y) zero = true) as Hq.
  { intros x y Hx Hy. destruct (Hf x Hx) as [Vx Fx], (Hf y Hy) as [Vy Fy].
    apply f64_sub_nonpos; [by destruct x|done|by destruct x|done]. }
  unfold signed_margin.
  assert (f64_le (f64_sub (f64_abs (v0 p)) (v0 h)) zero = true) as K0 by (apply Hq; [set_solver..|tauto]).
  assert (f64_le (f64_sub (f64_abs (v1 p)) (v1 h)) zero = true) as K1 by (apply Hq; [set_solver..|tauto]).
  assert (f64_le (f64_sub (f64_abs (v2 p)) (v2 h)) zero = true) as K2 by (apply Hq; [set_solver..|tauto]).
  revert K0. generalize (f64_sub (f64_abs (v0 p)) (v0 h)). intros q0 K0.
  revert K1. generalize (f64_sub (f64_abs (v1 p)) (v1 h)). intros q1 K1.
  revert K2. generalize (f64_sub (f64_abs (v2 p)) (v2 h)). intros q2 K2.
  destruct (max_zero_nonpos q0 K0) as [s0 ->], (max_zero_nonpos q1 K1) as [s1 ->], (max_zero_nonpos q2 K2) as [s2 ->].
  destruct (box_outside s0 s1 s2) as [s ->].
  pose proof (max_nonpos _ _ K0 (max_nonpos _ _ K1 K2)) as Hm.
  destruct (f64_max q0 (f64_max q1 q2)) as [t|[]| |[] m e]; try done; destruct s; try destruct t; done.
Qed.

(** ** Examples *)

Definition zone (name : string) (t : ZoneType) (s : WorkspaceShape) (frame : string) (margin : f64)
    : WorkspaceZone :=
  {| zone_name := name; shape := s; origin_frame := frame; zone_type := t; margin_m := margin |}.

Definition cam_frustum : CameraFrustum := {|
  fov_horizontal_deg := f64_of_Z 60; fov_vertical_deg := f64_of_Z 40; near_clip_m := zero;
  far_clip_m := f64_of_Z 10; resolution := None |}.

Definition arm_camera : SensorMount := {|
  sensor_id := "cam"; sensor_parent_link := "arm"; sensor_offset := along_x 1; sensor_type := SensorCamera;
  is_actuated := true; actuation_joint := Some "slide"; frustum := Some cam_frustum |}.

(** The slider with a camera on its arm and the given zones. *)
Definition zoned (zs : list WorkspaceZone) : EmbodimentRuntime :=
  compile (fun s => s) (fun _ => "m") (fun _ => "d") {|
    model_id := "zoned"; model_digest := "m"; embodiment_family := None;
    links := links slider_model; joints := joints slider_model; frame_tree := slider_tree;
    collision_bodies := []; allowed_collision_pairs := []; tcps := tcps slider_model;
    sensor_mounts := [arm_camera]; workspace_zones := zs; watched_frames := ["hand"];
    channel_bindings := [] |} None None.

Definition cell : WorkspaceZone := zone "cell" Allowed (WBox (V3 (f64_of_Z 8) one one)) "world" zero.
Definition person : WorkspaceZone := zone "person" HumanPresence (WSphere one) "world" zero.
Definition keep_out (margin : f64) : WorkspaceZone :=
  zone "keep_out" Restricted (WSphere (f64_of_Z 2)) "world" margin.

Definition no_hypot (a b : f64) : f64 := f64_add a b.

Definition workcell : EmbodimentRuntime := zoned [cell; person].

Lemma pose_workspace_verdict_witness :
  exists e, evaluate_pose_workspace no_hypot workcell (along_x 3) "world" = Some (Ok e) /\
  exists l, map fst l = located (frame_graph workcell) (zones (workspace_envelope workcell)) /\
    Forall (fun zm => pose_margin no_hypot (frame_graph workcell) (along_x 3) "world" (fst zm) (snd zm)) l /\
    pe_zone_checks e = checks l /\
    pe_safe e = zones_safe (zones (workspace_envelope workcell)) (checks l) /\
    pe_in_human_presence e = existsb in_human (checks l).
Proof.
  destruct (evaluate_pose_workspace no_hypot workcell (along_x 3) "world") as [[e|x]|] eqn:He;
    [|exfalso; vm_compute in He; discriminate..].
  exists e. split; [reflexivity|]. apply (pose_workspace_verdict no_hypot workcell (along_x 3) "world" e He).
Defined.

Lemma assessment_reasons_complete_witness :
  exists w, evaluated no_hypot workcell w /\
  (executable (build_execution_assessment [w] WellConditioned None []) = true <->
   degradation_reasons (build_execution_assessment [w] WellConditioned None []) = []).
Proof.
  destruct (evaluate_pose_workspace no_hypot workcell (along_x 3) "world") as [[e|x]|] eqn:He;
    [|exfalso; vm_compute in He; discriminate..].
  exists e. split; [by exists (along_x 3), "world"|].
  apply (assessment_reasons_complete no_hypot workcell [e]). constructor; [by exists (along_x 3), "world"|constructor].
Defined.

Definition look_at_hand : ActivePerceptionCommand := {|
  apc_sensor_id := "cam"; target := LookAt "hand"; observation_goal := VerifyCondition "grasp" |}.

Lemma active_perception_verdict_witness :
  exists r, evaluate_active_perception_command no_hypot (fun x => x) (fun x => x) workcell look_at_hand
              [f64_of_Z 2] = Some (Ok r) /\
  (ac_safe r = true <->
   actuated (ac_sensor r) = true /\ has_frustum (ac_sensor r) = true /\
   workspace_safe (ac_sensor r) = true /\
   (forall f, target look_at_hand = LookAt f -> frame_exists (frame_graph workcell) f = true) /\
   (forall f d, observation_goal look_at_hand = CoverRegion f d -> frame_exists (frame_graph workcell) f = true) /\
   (forall p, planned_pose r = Some p -> pe_safe p = true /\ pe_in_human_presence p = false)).
Proof.
  destruct (evaluate_active_perception_command no_hypot (fun x => x) (fun x => x) workcell look_at_hand
              [f64_of_Z 2]) as [[r|x]|] eqn:Hr; [|exfalso; vm_compute in Hr; discriminate..].
  exists r. split; [reflexivity|]. by apply (active_perception_verdict no_hypot (fun x => x) (fun x => x)
    workcell look_at_hand [f64_of_Z 2]).
Defined.

Lemma box_margin_sound_witness :
  f64_ge (signed_margin no_hypot (WBox (V3 (f64_of_Z 8) one one)) (V3 (f64_of_Z 3) one zero)) zero = true.
Proof.
  apply box_margin_sound; [|vm_compute; reflexivity]. intros x Hx.
  apply list_elem_of_In in Hx. destruct Hx as [<-|[<-|[<-|[<-|[<-|[<-|[]]]]]]]; vm_compute; split; reflexivity.
Defined.

(** The verdict on a pose and whether people are about. *)
Definition pose_flags (o : option (result WorkspacePoseEvaluation string)) : option (bool * bool) :=
  match o with Some (Ok e) => Some (pe_safe e, pe_in_human_presence e) | _ => None end.

Example pose_in_the_cell :
  pose_flags (evaluate_pose_workspace no_hypot workcell (along_x 3) "world") = Some (true, false).
Proof. vm_compute. reflexivity. Qed.

Example pose_outside_the_cell :
  pose_flags (evaluate_pose_workspace no_hypot workcell (along_x 9) "world") = Some (false, false).
Proof. vm_compute. reflexivity. Qed.

(** The margin of a restricted zone makes it smaller: one unit from the centre of a sphere of
    radius two is inside it, and safe once the zone asks for a margin of one and a half. *)
Example restricted_margin_shrinks_the_zone :
  (pose_flags (evaluate_pose_workspace no_hypot (zoned [keep_out zero]) (along_x 1) "world"),
   pose_flags (evaluate_pose_workspace no_hypot (zoned [keep_out (f64_dec 15 1)]) (along_x 1) "world"))
  = (Some (false, false), Some (true, false)).
Proof. vm_compute. reflexivity. Qed.

(** A restricted zone in a frame the runtime does not have is not enforced on a planned pose, while
    the check of a snapshot is unsafe because of it. *)
Example missing_zone_frame_is_skipped :
  let rt := zoned [zone "ghost" Restricted (WSphere (f64_of_Z 9)) "nowhere" zero] in
  (pose_flags (evaluate_pose_workspace no_hypot rt (along_x 1) "world"),
   cr_safe <$> check_workspace no_hypot (fun x => x) (fun x => x) rt [f64_of_Z 2])
  = (Some (true, false), Some false).
Proof. vm_compute. reflexivity. Qed.

(** A pose that is not a number is inside every allowed box without a margin ([f64::max] and
    [f64::min] drop it) and inside no restricted sphere. *)
Example nan_pose_is_safe :
  let nan := {| translation := V3 S754_nan zero zero; rotation := Q4 one zero zero zero; timestamp_ns := 0%Z |} in
  (pose_flags (evaluate_pose_workspace no_hypot (zoned [keep_out zero]) nan "world"),
   pose_flags (evaluate_pose_workspace no_hypot workcell nan "world"))
  = (Some (true, false), Some (true, false)).
Proof. vm_compute. reflexivity. Qed.

(** A camera among people may still be told to look elsewhere. *)
Example sensor_among_people_is_safe :
  let rt := zoned [cell; zone "crowd" HumanPresence (WSphere (f64_of_Z 9)) "world" zero] in
  match evaluate_active_perception_command no_hypot (fun x => x) (fun x => x) rt look_at_hand [f64_of_Z 2] with
  | Some (Ok r) => (ac_safe r, sr_in_human_presence (ac_sensor r)) = (true, true)
  | _ => False
  end.
Proof. vm_compute. reflexivity. Qed.

(** The other direction of the box's margin fails on distances whose square underflows. *)
Example tiny_distance_is_inside :
  let p := V3 (S754_finite false 1 (-1074)) zero zero in
  (Embodiment.contains_point (WBox (V3 zero zero zero)) p,
   f64_ge (signed_margin no_hypot (WBox (V3 zero zero zero)) p) zero) = (false, true).
Proof. vm_compute. reflexivity. Qed.
