(* ===== verification/TcpPlanning.v ===== *)
(** * Planning tool motions (roz-core/embodiment/embodiment_runtime.rs)

    The reachability of a tool pose, one damped-least-squares step, the iteration of steps towards
    a target, and trajectories over interpolated waypoints.

    The linear algebra is nalgebra's: rotations and their logarithm, norms, the singular values and
    the damped solution of a Jacobian, and the interpolation of rotations (which panics on opposite
    ones) are arguments.  Everything around it, the guards, limits, loops and verdicts, is the code's. *)

From stdpp Require Import sorting.
From S2P Require Import Prelude.
From S2P Require Import Float64.
From S2P Require Import Deployment.
From S2P Require Import Embodiment.
From S2P Require Import FrameTree.
From S2P Require Import FrameGraph.
From S2P Require Import Snapshot.
From S2P Require Import Workspace.
#[local] Open Scope string_scope.

(** ** Outcomes *)

(** A computation that may panic, may (in the model) run out of fuel, and may fail with a message. *)
Definition planned (A : Type) : Type := exec (option (result A string)).

Definition plan_ret {A} (a : A) : planned A := Ret (Some (Ok a)).
Definition plan_err {A} (e : string) : planned A := Ret (Some (Err e)).
Definition plan_lift {A} (c : option (result A string)) : planned A := Ret c.
Definition plan_bind {A B} (c : planned A) (k : A -> planned B) : planned B :=
  let! o := c in
  match o with
  | Some (Ok a) => k a
  | Some (Err e) => plan_err e
  | None => Ret None
  end.

Declare Scope plan_scope.
Delimit Scope plan_scope with plan.
Notation "'let*' x ':=' c 'in' k" := (plan_bind c (fun x => k))
  (at level 200, x name, c at level 100, k at level 200) : plan_scope.
#[local] Open Scope plan_scope.

Lemma plan_bind_ok {A B} (c : planned A) (k : A -> planned B) b :
  plan_bind c k = Ret (Some (Ok b)) <-> exists a, c = Ret (Some (Ok a)) /\ k a = Ret (Some (Ok b)).
Proof.
  unfold plan_bind, plan_err. split.
  - destruct c as [[[a|e]|]|]; simpl; try done. intros H. by exists a.
  - by intros (a & -> & H).
Qed.

(** ** Jacobians *)

(** The columns: linear and angular velocity of the tool per joint. *)
Definition jacobian : Type := list (vec3 * vec3).

Definition zeros : vec3 := V3 zero zero zero.

Definition classify_conditioning (min_singular_value : option f64) : JacobianConditioning :=
  match min_singular_value with
  | None => Singular
  | Some v =>
      if f64_lt v (f64_dec 1 6) then Singular
      else if f64_lt v (f64_dec 1 4) then IllConditioned
      else if f64_lt v (f64_dec 1 3) then Marginal
      else WellConditioned
  end.

Definition well_conditioned (c : JacobianConditioning) : bool :=
  match c with Marginal | WellConditioned => true | _ => false end.

(** [reduce(f64::min)]. *)
Definition reduce_min (l : list f64) : option f64 := fold_left (fold_margin f64_min) l None.

Record TcpReachabilityEvaluation : Type := {
  re_tcp_name : string;
  re_current_pose : ResolvedFramePose;
  re_target_pose : ResolvedFramePose;
  re_workspace : WorkspacePoseEvaluation;
  translation_error_m : f64;
  orientation_error_rad : f64;
  re_jacobian_rank : nat;
  re_min_singular_value : option f64;
  re_manipulability : option f64;
  re_conditioning : JacobianConditioning;
  re_execution : PlanExecutionAssessment;
  re_well_conditioned : bool;
  re_safe : bool;
  re_alerts : list string;
}.

Record TcpMotionPlan : Type := {
  mp_tcp_name : string;
  mp_current_pose : ResolvedFramePose;
  mp_target_pose : ResolvedFramePose;
  projected_pose : ResolvedFramePose;
  proposed_joint_positions : list f64;
  target_workspace : WorkspacePoseEvaluation;
  projected_workspace : WorkspacePoseEvaluation;
  remaining_translation_error_m : f64;
  remaining_orientation_error_rad : f64;
  mp_jacobian_rank : nat;
  mp_min_singular_value : option f64;
  mp_manipulability : option f64;
  mp_conditioning : JacobianConditioning;
  mp_execution : PlanExecutionAssessment;
  mp_safe : bool;
  mp_alerts : list string;
}.

Record TcpIkSolution : Type := {
  ik_tcp_name : string;
  ik_converged : bool;
  iterations : nat;
  final_joint_positions : list f64;
  ik_final_pose : ResolvedFramePose;
  ik_final_workspace : WorkspacePoseEvaluation;
  ik_translation_error_m : f64;
  ik_orientation_error_rad : f64;
  ik_conditioning : JacobianConditioning;
  ik_execution : PlanExecutionAssessment;
  ik_safe : bool;
  ik_alerts : list string;
  ik_steps : list TcpMotionPlan;
}.

Record TrajectoryWaypointSummary : Type := {
  waypoint_index : Z;
  ws_converged : bool;
  ws_safe : bool;
  ws_execution : PlanExecutionAssessment;
  ws_translation_error_m : f64;
  ws_orientation_error_rad : f64;
}.

Record TrajectoryQualitySummary : Type := {
  total_waypoints : Z;
  converged_waypoints : nat;
  tq_min_workspace_margin_m : option f64;
  worst_conditioning : JacobianConditioning;
  max_remaining_translation_error_m : f64;
  max_remaining_orientation_error_rad : f64;
}.

Record TcpTrajectoryPlan : Type := {
  tr_tcp_name : string;
  tr_relative_to : string;
  tr_converged : bool;
  tr_safe : bool;
  tr_execution : PlanExecutionAssessment;
  quality : TrajectoryQualitySummary;
  waypoint_summaries : list TrajectoryWaypointSummary;
  joint_trajectory : list (Z * list f64);
  waypoint_solutions : list TcpIkSolution;
  tr_final_joint_positions : list f64;
  tr_final_pose : ResolvedFramePose;
  tr_final_workspace : WorkspacePoseEvaluation;
  tr_alerts : list string;
}.

Section Planning.
Context (sin cos : f64 -> f64) (hypot : f64 -> f64 -> f64).
(** [unit_quaternion(q) * v], the cross product, [norm], the angle and the scaled axis of a rotation. *)
Context (rotate : quat -> vec3 -> vec3) (cross : vec3 -> vec3 -> vec3) (norm : vec3 -> f64)
        (angle : quat -> f64) (scaled_axis : quat -> vec3).
(** The singular values; [J^T (J J^T + damping^2 I)^-1 error], if the system has an inverse. *)
Context (singular_values : jacobian -> list f64)
        (damped_step : jacobian -> vec3 -> vec3 -> option (list f64)).
(** [start.slerp(&end, alpha)], as an array. *)
Context (slerp : quat -> quat -> f64 -> exec quat).
Context (self : EmbodimentRuntime).

Definition sub3 (a b : vec3) : vec3 := V3 (f64_sub (v0 a) (v0 b)) (f64_sub (v1 a) (v1 b)) (f64_sub (v2 a) (v2 b)).

Definition find_tcp (name : string) : planned ToolCenterPoint :=
  plan_lift (Some (ok_or (get_tcp (model self) name) ("tcp `" +:+ name +:+ "` not found in embodiment model"))).

Definition compute_tcp_pose (name : string) (positions : list f64) : planned Transform3D :=
  let snapshot := joint_snapshot sin cos self positions in
  let* tcp := find_tcp name in
  let* pose := plan_lift (tcp_pose_in_snapshot self snapshot tcp None) in
  plan_ret (rp_transform pose).

Definition compute_sensor_pose (id : string) (positions : list f64) : planned Transform3D :=
  let snapshot := joint_snapshot sin cos self positions in
  let* sensor := plan_lift (Some (find_sensor self id)) in
  let* pose := plan_lift (sensor_pose_in_snapshot self snapshot sensor None) in
  plan_ret (rp_transform pose).

(** The column of one joint of the chain. *)
Definition jacobian_column (snapshot : FrameGraphSnapshot) (tcp_position : vec3) (name : string)
    : planned (vec3 * vec3) :=
  let* joint := plan_lift (Some (ok_or (get_joint (model self) name)
                                      ("joint `" +:+ name +:+ "` missing from embodiment model"))) in
  let* parent_pose := plan_lift (resolve_frame_pose self snapshot (parent_link joint) None) in
  let joint_origin_transform := compose (rp_transform parent_pose) (origin joint) in
  let joint_origin := translation joint_origin_transform in
  let* a := plan_lift (Some (ok_or (normalized_axis (axis joint)) (
              "joint `" +:+ name +:+ "` has invalid zero-length axis"))) in
  let axis_world := rotate (rotation joint_origin_transform) a in
  plan_ret
    match joint_type joint with
    | Revolute | Continuous => (cross axis_world (sub3 tcp_position joint_origin), axis_world)
    | Prismatic => (axis_world, zeros)
    | Fixed => (zeros, zeros)
    end.

Fixpoint jacobian_columns (snapshot : FrameGraphSnapshot) (tcp_position : vec3) (chain : list string)
    : planned jacobian :=
  match chain with
  | [] => plan_ret []
  | name :: chain =>
      let* column := jacobian_column snapshot tcp_position name in
      let* columns := jacobian_columns snapshot tcp_position chain in
      plan_ret (column :: columns)
  end.

Definition compute_tcp_jacobian (name : string) (positions : list f64) : planned jacobian :=
  let snapshot := joint_snapshot sin cos self positions in
  let* tcp := find_tcp name in
  let* tcp_pose := plan_lift (tcp_pose_in_snapshot self snapshot tcp None) in
  let* chain := plan_lift (joint_chain_for_frame self (tcp_parent_link tcp)) in
  jacobian_columns snapshot (translation (rp_transform tcp_pose)) chain.

Definition compute_jacobian (positions : list f64) : planned jacobian :=
  match tcps (model self) with
  | [] => plan_err "embodiment model does not declare any TCPs"
  | tcp :: _ => compute_tcp_jacobian (tcp_name tcp) positions
  end.

Definition jacobian_metrics (j : jacobian) : nat * option f64 * option f64 * JacobianConditioning :=
  let values := singular_values j in
  let min_singular_value := reduce_min values in
  (length (List.filter (fun v => f64_lt (f64_dec 1 6) v) values), min_singular_value,
   (match values with [] => None | _ => Some (fold_left f64_mul values one) end),
   classify_conditioning min_singular_value).

Definition resolved (name rel : string) (t : Transform3D) : ResolvedFramePose :=
  {| rp_frame_id := name; relative_to := rel; rp_transform := t; rp_freshness := UnknownFreshness |}.

Definition ill_conditioned_alert (name : string) (c : JacobianConditioning) : list string :=
  if well_conditioned c then []
  else ["tcp `" +:+ name +:+ "` jacobian is ill-conditioned near the current state"].

Definition evaluate_tcp_reachability (name : string) (positions : list f64) (target_pose : Transform3D)
    (rel : string) : planned TcpReachabilityEvaluation :=
  let snapshot := joint_snapshot sin cos self positions in
  let* tcp := find_tcp name in
  let* current_pose := plan_lift (tcp_pose_in_snapshot self snapshot tcp None) in
  let* workspace := plan_lift (evaluate_pose_workspace hypot self target_pose rel) in
  let* reference_pose := plan_lift (resolve_frame_pose self snapshot rel None) in
  let target := resolved (tcp_name tcp) (relative_to current_pose)
                         (compose (rp_transform reference_pose) target_pose) in
  let delta := compose (inverse (rp_transform current_pose)) (rp_transform target) in
  let* j := compute_tcp_jacobian name positions in
  let '(rank, min_value, manip, cond) := jacobian_metrics j in
  let alerts := sort_dedup (pe_alerts workspace ++ ill_conditioned_alert name cond) in
  let execution := build_execution_assessment [workspace] cond None alerts in
  plan_ret {|
    re_tcp_name := tcp_name tcp; re_current_pose := current_pose; re_target_pose := target;
    re_workspace := workspace; translation_error_m := norm (translation delta);
    orientation_error_rad := angle (rotation delta); re_jacobian_rank := rank;
    re_min_singular_value := min_value; re_manipulability := manip; re_conditioning := cond;
    re_execution := execution; re_well_conditioned := well_conditioned cond;
    re_safe := executable execution; re_alerts := alerts |}.

(** ** One step *)

(** The positions of all joints, zero where the caller gives none. *)
Definition working_positions (positions : list f64) : list f64 :=
  imap (fun i _ => default zero (positions !! i)) (joints (model self)).

Definition joint_index (name : string) : option nat :=
  fst <$> list_find (fun j => j_name j = name) (joints (model self)).

Fixpoint chain_indices (chain : list string) : result (list nat) string :=
  match chain with
  | [] => Ok []
  | name :: chain =>
      let? i := ok_or (joint_index name) ("joint `" +:+ name +:+ "` missing from embodiment model") in
      let? rest := chain_indices chain in
      Ok (i :: rest)
  end.

Definition step_scale (max_joint_step max_delta : f64) : f64 :=
  if f64_gt max_joint_step zero && f64_gt max_delta max_joint_step then f64_div max_joint_step max_delta
  else if f64_eq max_joint_step zero then zero
  else one.

(** The loop over the zipped deltas and joints; indexing and the clamp may panic. *)
Fixpoint apply_deltas (scale : f64) (l : list (f64 * nat)) (proposed : list f64) : exec (list f64) :=
  match l with
  | [] => Ret proposed
  | (delta, i) :: l =>
      match joints (model self) !! i, proposed !! i with
      | Some j, Some current =>
          let! v := clamp (mul_add delta scale current) (position_min (j_limits j)) (position_max (j_limits j)) in
          apply_deltas scale l (<[i := v]> proposed)
      | _, _ => Panic
      end
  end.

Definition plan_tcp_step (name : string) (positions : list f64) (target_pose : Transform3D) (rel : string)
    (max_joint_step : f64) : planned TcpMotionPlan :=
  if negb (is_finite max_joint_step) || f64_lt max_joint_step zero then
    plan_err "max_joint_step must be finite and non-negative"
  else
    let snapshot := joint_snapshot sin cos self positions in
    let* tcp := find_tcp name in
    let* current_pose := plan_lift (tcp_pose_in_snapshot self snapshot tcp (Some rel)) in
    let* target_ws := plan_lift (evaluate_pose_workspace hypot self target_pose rel) in
    let current := working_positions positions in
    let* chain := plan_lift (joint_chain_for_frame self (tcp_parent_link tcp)) in
    if bool_decide (chain = []) then plan_err ("tcp `" +:+ name +:+ "` has no controllable joint chain")
    else
      let* indices := plan_lift (Some (chain_indices chain)) in
      let* j := compute_tcp_jacobian name current in
      let '(rank, min_value, manip, cond) := jacobian_metrics j in
      let* current_root := plan_lift (tcp_pose_in_snapshot self snapshot tcp None) in
      let* reference_root := plan_lift (resolve_frame_pose self snapshot rel None) in
      let target_root := compose (rp_transform reference_root) target_pose in
      let delta_root := compose (inverse (rp_transform current_root)) target_root in
      let* delta_q := plan_lift (Some (ok_or (damped_step j (translation delta_root) (scaled_axis (rotation delta_root)))
            ("failed to invert damped Jacobian system for tcp `" +:+ name +:+ "` planning"))) in
      let max_delta := fold_left (fun acc v => f64_max acc (f64_abs v)) delta_q zero in
      let! proposed := apply_deltas (step_scale max_joint_step max_delta) (combine delta_q indices) current in
      let* projected_root := compute_tcp_pose name proposed in
      let projected := resolved (tcp_name tcp) rel
            (compose (inverse (rp_transform reference_root)) projected_root) in
      let* projected_ws := plan_lift (evaluate_pose_workspace hypot self (rp_transform projected) rel) in
      let remaining := compose (inverse (rp_transform projected)) target_pose in
      let alerts := sort_dedup (pe_alerts target_ws ++ pe_alerts projected_ws ++ ill_conditioned_alert name cond) in
      let execution := build_execution_assessment [target_ws; projected_ws] cond None alerts in
      plan_ret {|
        mp_tcp_name := tcp_name tcp; mp_current_pose := current_pose;
        mp_target_pose := resolved (tcp_name tcp) rel target_pose; projected_pose := projected;
        proposed_joint_positions := proposed; target_workspace := target_ws;
        projected_workspace := projected_ws;
        remaining_translation_error_m := norm (translation remaining);
        remaining_orientation_error_rad := norm (scaled_axis (rotation remaining));
        mp_jacobian_rank := rank; mp_min_singular_value := min_value; mp_manipulability := manip;
        mp_conditioning := cond; mp_execution := execution; mp_safe := executable execution;
        mp_alerts := alerts |}.

(** ** Iteration *)

Definition within_tolerance (t_tol o_tol : f64) (p : TcpMotionPlan) : bool :=
  f64_le (remaining_translation_error_m p) t_tol && f64_le (remaining_orientation_error_rad p) o_tol.

(** [for _ in 0..max_iterations]: the joints reached and the steps. *)
Fixpoint ik_loop (fuel : nat) (name : string) (target_pose : Transform3D) (rel : string)
    (max_joint_step t_tol o_tol : f64) (working : list f64) : planned (list f64 * list TcpMotionPlan) :=
  match fuel with
  | O => plan_ret (working, [])
  | S fuel =>
      let* plan := plan_tcp_step name working target_pose rel max_joint_step in
      let working := proposed_joint_positions plan in
      if within_tolerance t_tol o_tol plan || negb (mp_safe plan) then plan_ret (working, [plan])
      else
        let* rest := ik_loop fuel name target_pose rel max_joint_step t_tol o_tol working in
        plan_ret (fst rest, plan :: snd rest)
  end.

Definition bad_tolerance (t : f64) : bool := negb (is_finite t) || f64_lt t zero.

Definition solve_tcp_ik (name : string) (positions : list f64) (target_pose : Transform3D) (rel : string)
    (max_joint_step : f64) (max_iterations : nat) (t_tol o_tol : f64) : planned TcpIkSolution :=
  if bad_tolerance t_tol then plan_err "translation_tolerance_m must be finite and non-negative"
  else if bad_tolerance o_tol then plan_err "orientation_tolerance_rad must be finite and non-negative"
  else
    let* loop := ik_loop max_iterations name target_pose rel max_joint_step t_tol o_tol (working_positions positions) in
    let (working, steps) := loop in
    let alerts := sort_dedup (concat (map mp_alerts steps)) in
    match last steps with
    | Some last_step =>
        let converged := within_tolerance t_tol o_tol last_step && mp_safe last_step in
        let execution :=
          build_execution_assessment [projected_workspace last_step] (mp_conditioning last_step)
            (Some converged) alerts in
        plan_ret {|
          ik_tcp_name := mp_tcp_name last_step; ik_converged := converged; iterations := length steps;
          final_joint_positions := working; ik_final_pose := projected_pose last_step;
          ik_final_workspace := projected_workspace last_step;
          ik_translation_error_m := remaining_translation_error_m last_step;
          ik_orientation_error_rad := remaining_orientation_error_rad last_step;
          ik_conditioning := mp_conditioning last_step; ik_execution := execution;
          ik_safe := executable execution; ik_alerts := alerts; ik_steps := steps |}
    | None =>
        let snapshot := joint_snapshot sin cos self working in
        let* tcp := find_tcp name in
        let* final_pose := plan_lift (tcp_pose_in_snapshot self snapshot tcp (Some rel)) in
        let* final_ws := plan_lift (evaluate_pose_workspace hypot self (rp_transform final_pose) rel) in
        let remaining := compose (inverse (rp_transform final_pose)) target_pose in
        let* j := compute_tcp_jacobian name working in
        let '(_, min_value, _, cond) := jacobian_metrics j in
        let execution := build_execution_assessment [final_ws] cond (Some false) alerts in
        plan_ret {|
          ik_tcp_name := tcp_name tcp; ik_converged := false; iterations := 0;
          final_joint_positions := working; ik_final_pose := final_pose; ik_final_workspace := final_ws;
          ik_translation_error_m := norm (translation remaining);
          ik_orientation_error_rad := norm (scaled_axis (rotation remaining));
          ik_conditioning := classify_conditioning min_value; ik_execution := execution;
          ik_safe := executable execution; ik_alerts := alerts; ik_steps := steps |}
    end.

(** ** Trajectories *)

Definition interpolate_transform (start finish : Transform3D) (alpha : f64) : exec Transform3D :=
  let! alpha := clamp alpha zero one in
  let! blended := slerp (rotation start) (rotation finish) alpha in
  let lerp a b := mul_add (f64_sub b a) alpha a in
  Ret {| translation := V3 (lerp (v0 (translation start)) (v0 (translation finish)))
                           (lerp (v1 (translation start)) (v1 (translation finish)))
                           (lerp (v2 (translation start)) (v2 (translation finish)));
         rotation := blended; timestamp_ns := timestamp_ns finish |}.

(** [for index in 1..=waypoint_count] with [k] turns left; the joints reached and the solutions. *)
Fixpoint waypoint_loop (k : nat) (index count : Z) (name : string) (start target_pose : Transform3D)
    (rel : string) (max_joint_step : f64) (max_iterations : nat) (t_tol o_tol : f64) (working : list f64)
    : planned (list f64 * list (Z * TcpIkSolution)) :=
  match k with
  | O => plan_ret (working, [])
  | S k =>
      let! waypoint := interpolate_transform start target_pose (f64_div (f64_of_Z index) (f64_of_Z count)) in
      let* solution := solve_tcp_ik name working waypoint rel max_joint_step max_iterations t_tol o_tol in
      let working := final_joint_positions solution in
      if negb (ik_converged solution) || negb (ik_safe solution) then plan_ret (working, [(index, solution)])
      else
        let* rest := waypoint_loop k (index + 1) count name start target_pose rel max_joint_step
                       max_iterations t_tol o_tol working in
        plan_ret (fst rest, (index, solution) :: snd rest)
  end.

Definition conditioning_rank (c : JacobianConditioning) : nat :=
  match c with Singular => 0 | IllConditioned => 1 | Marginal => 2 | WellConditioned => 3 end.

Definition worse (a b : JacobianConditioning) : JacobianConditioning :=
  if (conditioning_rank b <? conditioning_rank a)%nat then b else a.

(** [iter().min().unwrap_or(WellConditioned)]. *)
Definition worst (l : list JacobianConditioning) : JacobianConditioning := fold_left worse l WellConditioned.

Definition waypoint_summary (wp : Z * TcpIkSolution) : TrajectoryWaypointSummary := {|
  waypoint_index := fst wp; ws_converged := ik_converged (snd wp); ws_safe := ik_safe (snd wp);
  ws_execution := ik_execution (snd wp);
  ws_translation_error_m := ik_translation_error_m (snd wp);
  ws_orientation_error_rad := ik_orientation_error_rad (snd wp) |}.

Definition with_margin (a : PlanExecutionAssessment) (m : option f64) : PlanExecutionAssessment := {|
  executable := executable a; ea_safe := ea_safe a; conditioning := conditioning a;
  min_workspace_margin_m := m; degradation_reasons := degradation_reasons a; ea_alerts := ea_alerts a |}.

Definition plan_tcp_trajectory (name : string) (positions : list f64) (target_pose : Transform3D)
    (rel : string) (waypoint_count : Z) (max_joint_step : f64) (max_iterations : nat) (t_tol o_tol : f64)
    : planned TcpTrajectoryPlan :=
  if (waypoint_count =? 0)%Z then plan_err "waypoint_count must be at least 1"
  else if (u32_max <? waypoint_count)%Z then plan_err "waypoint_count exceeds u32::MAX"
  else
    let snapshot := joint_snapshot sin cos self positions in
    let* tcp := find_tcp name in
    let* start_pose := plan_lift (tcp_pose_in_snapshot self snapshot tcp (Some rel)) in
    let* loop := waypoint_loop (Z.to_nat waypoint_count) 1 waypoint_count name (rp_transform start_pose)
                   target_pose rel max_joint_step max_iterations t_tol o_tol (working_positions positions) in
    let (working, waypoints) := loop in
    let solutions := map snd waypoints in
    let alerts := sort_dedup (concat (map ik_alerts solutions)) in
    match last solutions with
    | None => plan_err "trajectory planning produced no waypoint solutions"
    | Some last_solution =>
        let cond := worst (map ik_conditioning solutions) in
        let all_converged :=
          (Z.of_nat (length solutions) =? waypoint_count)%Z && forallb ik_converged solutions in
        let q := {|
          total_waypoints := waypoint_count;
          converged_waypoints := length (List.filter ik_converged solutions);
          tq_min_workspace_margin_m :=
            reduce_min (omap (fun s => min_workspace_margin_m (ik_execution s)) solutions);
          worst_conditioning := cond;
          max_remaining_translation_error_m := fold_left f64_max (map ik_translation_error_m solutions) zero;
          max_remaining_orientation_error_rad := fold_left f64_max (map ik_orientation_error_rad solutions) zero |} in
        let execution :=
          with_margin (build_execution_assessment [ik_final_workspace last_solution] cond (Some all_converged) alerts)
                      (tq_min_workspace_margin_m q) in
        plan_ret {|
          tr_tcp_name := tcp_name tcp; tr_relative_to := rel; tr_converged := all_converged;
          tr_safe := executable execution; tr_execution := execution; quality := q;
          waypoint_summaries := map waypoint_summary waypoints;
          joint_trajectory := map (fun wp => (fst wp, final_joint_positions (snd wp))) waypoints;
          waypoint_solutions := solutions; tr_final_joint_positions := working;
          tr_final_pose := ik_final_pose last_solution; tr_final_workspace := ik_final_workspace last_solution;
          tr_alerts := alerts |}
    end.

End Planning.

(** ** What a plan guarantees *)

(** Take a successful computation apart. *)
Ltac plan_inv H :=
  let x := fresh "x" in let Hx := fresh "Hx" in
  apply plan_bind_ok in H as (x & Hx & H).

Lemma plan_lift_ok {A} (c : option (result A string)) a : plan_lift c = Ret (Some (Ok a)) <-> c = Some (Ok a).
Proof. unfold plan_lift. split; [by intros [= ->]|by intros ->]. Qed.

Lemma plan_ret_ok {A} (a b : A) : plan_ret a = Ret (Some (Ok b)) <-> a = b.
Proof. unfold plan_ret. split; [by intros [= ->]|by intros ->]. Qed.

Lemma map_snd_combine {A B} (l : list A) (k : list B) :
  (length k <= length l)%nat -> map snd (combine l k) = k.
Proof.
  revert k. induction l as [|x l IH]; intros [|y k] H; simpl in *; [done|lia|done|].
  by rewrite IH by lia.
Qed.

(** A position is within the limits of a joint, or is not a number. *)
Definition limited (j : Joint) (x : f64) : Prop :=
  is_nan x = true \/ position_in_range (j_limits j) x = true.

Lemma clamp_limited j x r :
  clamp x (position_min (j_limits j)) (position_max (j_limits j)) = Ret r -> limited j r.
Proof.
  intros H. unfold limited, position_in_range, f64_ge. destruct (is_nan x) eqn:Hx.
  - left. destruct x; try done. unfold clamp in H. destruct (f64_le _ _); [|done].
    assert (forall y, f64_gt S754_nan y = false) as Hg by (by intros []). simpl in H. rewrite Hg in H. by injection H as <-.
  - right. apply andb_true_iff. by apply (clamp_ret x).
Qed.

#[export] Instance JacobianConditioning_eq_dec : EqDecision JacobianConditioning.
Proof. solve_decision. Defined.

Section Guarantees.
Context (sin cos : f64 -> f64) (hypot : f64 -> f64 -> f64)
        (rotate : quat -> vec3 -> vec3) (cross : vec3 -> vec3 -> vec3) (norm : vec3 -> f64)
        (angle : quat -> f64) (scaled_axis : quat -> vec3)
        (singular_values : jacobian -> list f64)
        (damped_step : jacobian -> vec3 -> vec3 -> option (list f64))
        (slerp : quat -> quat -> f64 -> exec quat) (self : EmbodimentRuntime).

#[local] Notation step := (plan_tcp_step sin cos hypot rotate cross norm scaled_axis singular_values damped_step self).
#[local] Notation ik := (solve_tcp_ik sin cos hypot rotate cross norm scaled_axis singular_values damped_step self).
#[local] Notation loop := (ik_loop sin cos hypot rotate cross norm scaled_axis singular_values damped_step self).

Lemma length_working positions : length (working_positions self positions) = length (joints (model self)).
Proof. apply length_imap. Qed.

Lemma apply_deltas_spec scale l : forall proposed r,
  apply_deltas self scale l proposed = Ret r ->
  length r = length proposed /\
  (forall i, i ∉ map snd l -> r !! i = proposed !! i) /\
  (forall i j x, i ∈ map snd l -> joints (model self) !! i = Some j -> r !! i = Some x -> limited j x).
Proof.
  induction l as [|[d i] l IH]; intros proposed r H; simpl in H.
  { injection H as <-. split; [done|]. split; [done|]. intros i j x Hi. by apply not_elem_of_nil in Hi. }
  destruct (joints (model self) !! i) as [j|] eqn:Hj; [|done].
  destruct (proposed !! i) as [current|] eqn:Hc; [|done].
  apply exec_bind_ret in H as (v & Hv & H). destruct (IH _ _ H) as (Hlen & Hout & Hin).
  rewrite length_insert in Hlen. split; [done|]. split.
  - intros k Hk. simpl in Hk. apply not_elem_of_cons in Hk as [Hki Hk].
    rewrite Hout by done. by apply list_lookup_insert_ne.
  - intros k jk x Hk Hjk Hx. simpl in Hk. destruct (decide (k ∈ map snd l)) as [Hkl|Hkl]; [by eapply Hin|].
    apply elem_of_cons in Hk as [->|?]; [|done]. rewrite Hout in Hx by done.
    rewrite list_lookup_insert_eq in Hx by (by eapply lookup_lt_Some). simplify_eq. by eapply clamp_limited.
Qed.

Lemma jacobian_columns_length s p chain : forall j,
  jacobian_columns rotate cross self s p chain = Ret (Some (Ok j)) -> length j = length chain.
Proof.
  induction chain as [|name chain IH]; intros j H; simpl in H; [by apply plan_ret_ok in H as <-|].
  plan_inv H. plan_inv H. apply plan_ret_ok in H as <-. simpl. f_equal. by apply IH.
Qed.

Lemma chain_indices_length chain : forall l, chain_indices self chain = Ok l -> length l = length chain.
Proof.
  induction chain as [|name chain IH]; intros l H; simpl in H; [by injection H as <-|].
  apply result_bind_ok in H as (i & _ & H). apply result_bind_ok in H as (r & Hr & H).
  injection H as <-. simpl. f_equal. by apply IH.
Qed.

(** a planned step answers a position for every joint, moves only joints of the tool's chain, and
    leaves each of them within its position limits (or not a number, if the solver's answer is none). *)
Theorem step_within_limits name positions target rel max_step plan tcp chain idx :
  (forall j lin ang d, damped_step j lin ang = Some d -> length d = length j) ->
  step name positions target rel max_step = Ret (Some (Ok plan)) ->
  get_tcp (model self) name = Some tcp ->
  joint_chain_for_frame self (tcp_parent_link tcp) = Some (Ok chain) -> chain_indices self chain = Ok idx ->
  length (proposed_joint_positions plan) = length (joints (model self)) /\
  (forall i, i ∉ idx -> proposed_joint_positions plan !! i = working_positions self positions !! i) /\
  (forall i j x, i ∈ idx -> joints (model self) !! i = Some j ->
     proposed_joint_positions plan !! i = Some x -> limited j x).
Proof.
  intros Hd H Htcp Hchain His. unfold plan_tcp_step in H. destruct (_ || _); [done|].
  apply plan_bind_ok in H as (t & Ht & H). unfold find_tcp in Ht. rewrite Htcp in Ht.
  apply plan_lift_ok in Ht. injection Ht as <-. plan_inv H. plan_inv H.
  rewrite Hchain in H. apply plan_bind_ok in H as (c & Hc & H). apply plan_lift_ok in Hc. injection Hc as <-.
  case_bool_decide; [done|]. rewrite His in H.
  apply plan_bind_ok in H as (l & Hl & H). apply plan_lift_ok in Hl. injection Hl as <-.
  apply plan_bind_ok in H as (j & Hj & H). destruct (jacobian_metrics _ _) as [[[rank mv] manip] cond].
  plan_inv H. plan_inv H. apply plan_bind_ok in H as (dq & Hdq & H). apply plan_lift_ok in Hdq.
  apply (inj Some), ok_or_ok in Hdq. apply exec_bind_ret in H as (proposed & Hp & H).
  plan_inv H. plan_inv H. apply plan_ret_ok in H as <-. cbn [proposed_joint_positions].
  destruct (apply_deltas_spec _ _ _ _ Hp) as (Hlen & Hout & Hin).
  assert (map snd (combine dq idx) = idx) as Hsnd.
  { apply (chain_indices_length chain) in His as Hli. apply Hd in Hdq as Hld.
    unfold compute_tcp_jacobian in Hj. apply plan_bind_ok in Hj as (t & Ht & Hj).
    unfold find_tcp in Ht. rewrite Htcp in Ht. apply plan_lift_ok in Ht. injection Ht as <-.
    plan_inv Hj. rewrite Hchain in Hj. apply plan_bind_ok in Hj as (c & Hc & Hj).
    apply plan_lift_ok in Hc. injection Hc as <-. apply jacobian_columns_length in Hj.
    apply map_snd_combine. lia. }
  rewrite Hsnd in *. split; [|by split]. by rewrite Hlen, length_working.
Qed.

Lemma last_Some_elem_of {A} (l : list A) x : last l = Some x -> x ∈ l.
Proof. rewrite last_lookup. apply list_elem_of_lookup_2. Qed.

Lemma last_cons_app {A} (x : A) l : last (x :: l) = Some (default x (last l)).
Proof. induction l as [|y l IH] using rev_ind; [done|]. by rewrite app_comm_cons, !last_snoc. Qed.

(** The steps of the loop: all but the last are safe and short of the target. *)
Lemma ik_loop_spec fuel name target rel max_step t_tol o_tol : forall working r,
  loop fuel name target rel max_step t_tol o_tol working = Ret (Some (Ok r)) ->
  (length (snd r) <= fuel)%nat /\
  fst r = from_option proposed_joint_positions working (last (snd r)) /\
  forall i p, snd r !! i = Some p -> (S i < length (snd r))%nat -> mp_safe p = true /\ within_tolerance t_tol o_tol p = false.
Proof.
  induction fuel as [|fuel IH]; intros working r H; simpl in H.
  { apply plan_ret_ok in H as <-. simpl. split; [done|]. split; [done|]. lia. }
  apply plan_bind_ok in H as (plan & Hplan & H).
  destruct (within_tolerance t_tol o_tol plan || negb (mp_safe plan)) eqn:Hstop.
  - apply plan_ret_ok in H as <-. simpl. split; [lia|]. split; [done|]. lia.
  - apply plan_bind_ok in H as (rest & Hrest & H). apply plan_ret_ok in H as <-. simpl.
    destruct (IH _ _ Hrest) as (Hlen & Hlast & Hall). split; [lia|]. split.
    + rewrite Hlast. destruct (snd rest) as [|p l]; [done|]. change (last (plan :: p :: l)) with (last (p :: l)).
      by rewrite last_cons_app.
    + apply orb_false_iff in Hstop as [Hw Hs]. apply negb_false_iff in Hs.
      intros [|i] p Hp Hi; simpl in Hp; [by injection Hp as <-|]. apply (Hall i); [done|lia].
Qed.

Lemma ik_solution_cases name positions target rel max_step max_iterations t_tol o_tol s :
  ik name positions target rel max_step max_iterations t_tol o_tol = Ret (Some (Ok s)) ->
  (iterations s <= max_iterations)%nat /\ length (ik_steps s) = iterations s /\
  final_joint_positions s
    = from_option proposed_joint_positions (working_positions self positions) (last (ik_steps s)) /\
  (forall i p, ik_steps s !! i = Some p -> (S i < length (ik_steps s))%nat ->
     mp_safe p = true /\ within_tolerance t_tol o_tol p = false) /\
  (ik_converged s = true <->
     exists p, last (ik_steps s) = Some p /\ within_tolerance t_tol o_tol p = true /\ mp_safe p = true) /\
  (ik_safe s = true <->
     (pe_safe (ik_final_workspace s) = true /\ pe_in_human_presence (ik_final_workspace s) = false) /\
     ik_converged s = true /\ ik_conditioning s <> Singular /\ ik_conditioning s <> IllConditioned).
Proof.
  unfold solve_tcp_ik. destruct (bad_tolerance t_tol); [done|]. destruct (bad_tolerance o_tol); [done|].
  intros H. apply plan_bind_ok in H as ([working steps] & Hloop & H).
  destruct (ik_loop_spec _ _ _ _ _ _ _ _ _ Hloop) as (Hlen & Hlast & Hall). cbn [fst snd] in *.
  destruct (last steps) as [p|] eqn:Hl.
  - apply plan_ret_ok in H as <-.
    cbn [iterations ik_steps final_joint_positions ik_converged ik_safe]. rewrite Hl.
    split; [done|]. split; [done|]. split; [done|]. split; [done|]. split.
    + rewrite andb_true_iff. split; [intros [? ?]; by exists p|]. by intros (? & [= <-] & ?).
    + cbn [ik_final_workspace ik_conditioning]. by rewrite executable_safe, Forall_singleton.
  - do 4 (apply plan_bind_ok in H as (? & _ & H)). destruct (jacobian_metrics _ _) as [[[? ?] ?] cond].
    apply plan_ret_ok in H as <-. cbn [iterations ik_steps final_joint_positions ik_converged ik_safe].
    rewrite Hl. apply last_None in Hl as ->. split; [lia|]. split; [done|]. split; [done|]. split; [done|].
    split; [split; [done|by intros (? & ? & _)]|].
    rewrite executable_safe. cbn [ik_converged default from_option id]. split; [by intros (_ & ? & _)|by intros (_ & ? & _)].
Qed.

(** the solver makes at most the steps it is allowed, goes on only from safe steps that have not
    reached the target, reports the joints of the last one, and converges exactly if that one is
    safe and within the tolerances; it is never safe without having converged. *)
Theorem ik_solution_sound name positions target rel max_step max_iterations t_tol o_tol s :
  ik name positions target rel max_step max_iterations t_tol o_tol = Ret (Some (Ok s)) ->
  (iterations s <= max_iterations)%nat /\ length (ik_steps s) = iterations s /\
  final_joint_positions s
    = from_option proposed_joint_positions (working_positions self positions) (last (ik_steps s)) /\
  (forall i p, ik_steps s !! i = Some p -> (S i < length (ik_steps s))%nat ->
     mp_safe p = true /\ within_tolerance t_tol o_tol p = false) /\
  (ik_converged s = true <->
     exists p, last (ik_steps s) = Some p /\ within_tolerance t_tol o_tol p = true /\ mp_safe p = true) /\
  (ik_safe s = true -> ik_converged s = true).
Proof.
  intros H. destruct (ik_solution_cases _ _ _ _ _ _ _ _ _ H) as (H1 & H2 & H3 & H4 & H5 & H6).
  split; [done|]. split; [done|]. split; [done|]. split; [done|]. split; [done|].
  intros Hs. by apply H6 in Hs as (_ & ? & _).
Qed.

(** Every step of a converged solution is safe. *)
Lemma ik_converged_steps name positions target rel max_step n t_tol o_tol s :
  ik name positions target rel max_step n t_tol o_tol = Ret (Some (Ok s)) ->
  ik_converged s = true -> Forall (fun p => mp_safe p = true) (ik_steps s).
Proof.
  intros H Hc. destruct (ik_solution_cases _ _ _ _ _ _ _ _ _ H) as (_ & _ & _ & Hall & Hconv & _).
  apply Hconv in Hc as (q & Hq & _ & Hs). apply Forall_lookup. intros i p Hp.
  destruct (decide (S i < length (ik_steps s))%nat) as [Hi|Hi]; [by apply (Hall i p Hp)|].
  apply lookup_lt_Some in Hp as Hlt. assert (i = pred (length (ik_steps s))) as -> by lia.
  rewrite <- last_lookup, Hq in Hp. by injection Hp as <-.
Qed.

#[local] Notation waypoints :=
  (waypoint_loop sin cos hypot rotate cross norm scaled_axis singular_values damped_step slerp self).

Lemma waypoint_loop_spec k name start target rel max_step n t_tol o_tol count : forall index working r,
  waypoints k index count name start target rel max_step n t_tol o_tol working = Ret (Some (Ok r)) ->
  let sols := map snd (snd r) in
  (length sols <= k)%nat /\
  Forall (fun s => exists pos tgt, ik name pos tgt rel max_step n t_tol o_tol = Ret (Some (Ok s))) sols /\
  (forall i s, sols !! i = Some s -> (S i < length sols)%nat -> ik_converged s = true /\ ik_safe s = true).
Proof.
  induction k as [|k IH]; intros index working r H; simpl in H.
  { apply plan_ret_ok in H as <-. simpl. split; [done|]. split; [done|]. intros i s Hs. lia. }
  apply exec_bind_ret in H as (wp & _ & H). apply plan_bind_ok in H as (s & Hs & H).
  destruct (negb (ik_converged s) || negb (ik_safe s)) eqn:Hstop.
  - apply plan_ret_ok in H as <-. simpl. split; [lia|]. split; [|intros; lia].
    apply Forall_singleton. by eexists _, _.
  - apply plan_bind_ok in H as (rest & Hrest & H). apply plan_ret_ok in H as <-. simpl.
    destruct (IH _ _ _ Hrest) as (Hlen & Hf & Hall). split; [lia|]. split.
    + constructor; [by eexists _, _|done].
    + apply orb_false_iff in Hstop as [Hc Hsf]. rewrite negb_false_iff in Hc, Hsf.
      intros [|i] s' Hs' Hi; simpl in Hs'; [by injection Hs' as <-|]. apply (Hall i); [done|lia].
Qed.

Lemma worst_ok l :
  (worst l <> Singular /\ worst l <> IllConditioned) <->
  Forall (fun c => c <> Singular /\ c <> IllConditioned) l.
Proof.
  unfold worst. assert (WellConditioned <> Singular /\ WellConditioned <> IllConditioned) as H0 by done.
  revert H0. generalize WellConditioned. induction l as [|c l IH]; intros a Ha; simpl.
  { split; [by constructor|done]. }
  rewrite Forall_cons. destruct (decide (c = Singular \/ c = IllConditioned)) as [Hc|Hc].
  - split; [|intros [? _]; naive_solver]. intros H. exfalso.
    assert (forall b, (b = Singular \/ b = IllConditioned) ->
      fold_left worse l b = Singular \/ fold_left worse l b = IllConditioned) as Hbad.
    { clear. induction l as [|d l IH]; intros b Hb; simpl; [done|]. apply IH. destruct Hb as [-> | ->], d; auto. }
    destruct (Hbad (worse a c)); [destruct Hc as [-> | ->], a; naive_solver|naive_solver..].
  - rewrite IH; [split; [intros; split; [naive_solver|done]|by intros [_ ?]]|].
    unfold worse. destruct (_ <? _)%nat; naive_solver.
Qed.

(** a trajectory is judged safe exactly when every waypoint was reached and every solution on the
    way converged safely; then every single step of every solution is safe. *)
Theorem trajectory_verdict name positions target rel count max_step n t_tol o_tol t :
  plan_tcp_trajectory sin cos hypot rotate cross norm scaled_axis singular_values damped_step slerp self
    name positions target rel count max_step n t_tol o_tol = Ret (Some (Ok t)) ->
  (tr_safe t = true <->
   Z.of_nat (length (waypoint_solutions t)) = count /\
  Forall (fun s => ik_converged s = true /\ ik_safe s = true) (waypoint_solutions t)) /\
  (tr_safe t = true ->
   Forall (fun s => Forall (fun p => mp_safe p = true) (ik_steps s)) (waypoint_solutions t)).
Proof.
  unfold plan_tcp_trajectory. destruct (_ =? _)%Z; [done|]. destruct (_ <? _)%Z; [done|].
  intros H. plan_inv H. plan_inv H. apply plan_bind_ok in H as ([working wps] & Hloop & H).
  destruct (waypoint_loop_spec _ _ _ _ _ _ _ _ _ _ _ _ _ Hloop) as (_ & Hf & Hall). cbn [snd] in *.
  destruct (last (map snd wps)) as [ls|] eqn:Hlast; [|done]. apply plan_ret_ok in H as <-.
  cbn [tr_safe waypoint_solutions with_margin executable]. set (sols := map snd wps) in *.
  assert (ls ∈ sols) as Hin by (by apply last_Some_elem_of).
  match goal with |- (?a = true <-> ?P) /\ _ => assert (a = true <-> P) as Hiff end.
  - fold (executable (build_execution_assessment [ik_final_workspace ls] (worst (map ik_conditioning sols))
      (Some ((Z.of_nat (length sols) =? count)%Z && forallb ik_converged sols))
      (sort_dedup (concat (map ik_alerts sols))))).
    rewrite executable_safe, Forall_singleton, worst_ok, Forall_map. cbn [default from_option id].
    rewrite andb_true_iff, Z.eqb_eq, forallb_forall. rewrite Forall_forall in Hf. split.
    + intros (Hws & [Hn Hc] & Hcond). split; [done|]. apply Forall_forall. intros s Hs.
      assert (ik_converged s = true) as Hcs by (by apply Hc, list_elem_of_In). split; [done|].
      apply list_elem_of_lookup in Hs as Hs'. destruct Hs' as [i Hi].
      destruct (decide (S i < length sols)%nat) as [Hlt|Hge]; [by apply (Hall i)|].
      apply lookup_lt_Some in Hi as Hli. assert (i = pred (length sols)) as -> by lia.
      rewrite <- last_lookup, Hlast in Hi. injection Hi as <-.
      destruct (Hf ls Hin) as (pos & tgt & Hik). rewrite Forall_forall in Hcond.
      destruct (ik_solution_cases _ _ _ _ _ _ _ _ _ Hik) as (_ & _ & _ & _ & _ & ->). split; [done|].
      split; [done|]. by apply Hcond.
    + intros [Hn Hs]. rewrite Forall_forall in Hs.
      assert (forall s, s ∈ sols -> (pe_safe (ik_final_workspace s) = true /\
        pe_in_human_presence (ik_final_workspace s) = false) /\ ik_converged s = true /\
        ik_conditioning s <> Singular /\ ik_conditioning s <> IllConditioned) as Hfacts.
      { intros s Hsin. destruct (Hf s Hsin) as (pos & tgt & Hik).
        destruct (ik_solution_cases _ _ _ _ _ _ _ _ _ Hik) as (_ & _ & _ & _ & _ & Hiff).
        by apply Hiff, Hs. }
      split; [by apply Hfacts|]. split; [split; [done|]|].
      * intros s Hsin. apply Hfacts. by apply list_elem_of_In.
      * apply Forall_forall. intros s Hsin. by apply Hfacts.
  - split; [done|]. intros Hsafe. apply Hiff in Hsafe as [_ Hs]. rewrite Forall_forall in Hs, Hf.
    apply Forall_forall. intros s Hsin. destruct (Hf s Hsin) as (pos & tgt & Hik).
    eapply ik_converged_steps; [done|]. by apply Hs.
Qed.

End Guarantees.

(** ** Examples *)

(** A linear algebra that is right for one prismatic joint along x. *)
Definition keep_axis (q : quat) (v : vec3) : vec3 := v.
Definition no_cross (a b : vec3) : vec3 := zeros.
Definition norm_x (v : vec3) : f64 := f64_abs (v0 v).
Definition no_angle (q : quat) : f64 := zero.
Definition no_axis (q : quat) : vec3 := zeros.
Definition unit_values (j : jacobian) : list f64 := map (fun _ => one) j.
Definition along_step (j : jacobian) (lin ang : vec3) : option (list f64) :=
  Some (map (fun c => f64_mul (v0 (fst c)) (v0 lin)) j).
Definition no_slerp (a b : quat) (alpha : f64) : exec quat := Ret a.
Definition same (x : f64) : f64 := x.

(** The gripper of the workcell, from 4 to [x] along the world's axis. *)
Definition slide_step (x max_step : Z) : planned TcpMotionPlan :=
  plan_tcp_step same same no_hypot keep_axis no_cross norm_x no_axis unit_values along_step workcell
    "grip" [zero] (along_x x) "world" (f64_of_Z max_step).

Definition slide_ik (x : Z) (n : nat) : planned TcpIkSolution :=
  solve_tcp_ik same same no_hypot keep_axis no_cross norm_x no_axis unit_values along_step workcell
    "grip" [zero] (along_x x) "world" one n (f64_dec 1 3) (f64_dec 1 3).

Definition slide_trajectory (x count : Z) : planned TcpTrajectoryPlan :=
  plan_tcp_trajectory same same no_hypot keep_axis no_cross norm_x no_axis unit_values along_step no_slerp workcell
    "grip" [zero] (along_x x) "world" count one 3 (f64_dec 1 3) (f64_dec 1 3).

Lemma step_within_limits_witness :
  exists plan, slide_step 6 1 = Ret (Some (Ok plan)) /\
  length (proposed_joint_positions plan) = length (joints (model workcell)) /\
  (forall i, i ∉ [0%nat] -> proposed_joint_positions plan !! i = working_positions workcell [zero] !! i) /\
  (forall i j x, i ∈ [0%nat] -> joints (model workcell) !! i = Some j ->
     proposed_joint_positions plan !! i = Some x -> limited j x).
Proof.
  destruct (slide_step 6 1) as [[[plan|e]|]|] eqn:H; [|exfalso; vm_compute in H; discriminate..].
  exists plan. split; [reflexivity|].
  apply (step_within_limits same same no_hypot keep_axis no_cross norm_x no_axis unit_values along_step workcell
    "grip" [zero] (along_x 6) "world" one plan
    {| tcp_name := "grip"; tcp_parent_link := "hand"; tcp_offset := along_x 1; tcp_type := TcpGripper |} ["slide"]).
  - intros j lin ang d [= <-]. apply length_map.
  - exact H.
  - vm_compute. reflexivity.
  - vm_compute. reflexivity.
  - vm_compute. reflexivity.
Defined.

Lemma ik_solution_sound_witness :
  exists s, slide_ik 6 3 = Ret (Some (Ok s)) /\
  (iterations s <= 3)%nat /\ length (ik_steps s) = iterations s /\
  final_joint_positions s
    = from_option proposed_joint_positions (working_positions workcell [zero]) (last (ik_steps s)) /\
  (forall i p, ik_steps s !! i = Some p -> (S i < length (ik_steps s))%nat ->
     mp_safe p = true /\ within_tolerance (f64_dec 1 3) (f64_dec 1 3) p = false) /\
  (ik_converged s = true <->
     exists p, last (ik_steps s) = Some p /\ within_tolerance (f64_dec 1 3) (f64_dec 1 3) p = true /\ mp_safe p = true) /\
  (ik_safe s = true -> ik_converged s = true).
Proof.
  destruct (slide_ik 6 3) as [[[s|e]|]|] eqn:H; [|exfalso; vm_compute in H; discriminate..].
  exists s. split; [reflexivity|].
  apply (ik_solution_sound same same no_hypot keep_axis no_cross norm_x no_axis unit_values along_step workcell
    "grip" [zero] (along_x 6) "world" one 3 (f64_dec 1 3) (f64_dec 1 3) s H).
Defined.

Lemma trajectory_verdict_witness :
  exists t, slide_trajectory 6 2 = Ret (Some (Ok t)) /\
  (tr_safe t = true <->
   Z.of_nat (length (waypoint_solutions t)) = 2%Z /\
   Forall (fun s => ik_converged s = true /\ ik_safe s = true) (waypoint_solutions t)) /\
  (tr_safe t = true ->
   Forall (fun s => Forall (fun p => mp_safe p = true) (ik_steps s)) (waypoint_solutions t)).
Proof.
  destruct (slide_trajectory 6 2) as [[[t|e]|]|] eqn:H; [|exfalso; vm_compute in H; discriminate..].
  exists t. split; [reflexivity|].
  apply (trajectory_verdict same same no_hypot keep_axis no_cross norm_x no_axis unit_values along_step no_slerp
    workcell "grip" [zero] (along_x 6) "world" 2 one 3 (f64_dec 1 3) (f64_dec 1 3) t H).
Defined.

(** Two units away with a step of one: the first step stops at one. *)
Example step_is_scaled :
  match slide_step 6 1 with
  | Ret (Some (Ok p)) => map (fun x => f64_eq x one) (proposed_joint_positions p) = [true] /\ mp_safe p = true
  | _ => False
  end.
Proof. vm_compute. split; reflexivity. Qed.

(** Two steps reach the target; one is not enough. *)
Example two_steps_converge :
  (match slide_ik 6 3 with Ret (Some (Ok s)) => (ik_converged s, ik_safe s, iterations s) | _ => (false, false, 9%nat) end,
   match slide_ik 6 1 with Ret (Some (Ok s)) => (ik_converged s, ik_safe s, iterations s) | _ => (true, true, 9%nat) end)
  = ((true, true, 2%nat), (false, false, 1%nat)).
Proof. vm_compute. reflexivity. Qed.

(** The trajectory to 6 is safe; the one to 12 leaves the cell and stops at its third waypoint. *)
Example trajectories :
  (match slide_trajectory 6 2 with Ret (Some (Ok t)) => (tr_safe t, length (waypoint_solutions t)) | _ => (false, 9%nat) end,
   match slide_trajectory 12 4 with Ret (Some (Ok t)) => (tr_safe t, length (waypoint_solutions t)) | _ => (true, 9%nat) end)
  = ((true, 2%nat), (false, 3%nat)).
Proof. vm_compute. reflexivity. Qed.

(** The same arm with a gripper that is mounted turned by half a turn about z. *)
Definition turned_offset : Transform3D :=
  {| translation := V3 one zero zero; rotation := Q4 zero zero zero one; timestamp_ns := 0%Z |}.

Definition turned : EmbodimentRuntime :=
  compile (fun s => s) (fun _ => "m") (fun _ => "d") {|
    model_id := "turned"; model_digest := "m"; embodiment_family := None;
    links := links slider_model; joints := joints slider_model; frame_tree := slider_tree;
    collision_bodies := []; allowed_collision_pairs := [];
    tcps := [{| tcp_name := "grip"; tcp_parent_link := "hand"; tcp_offset := turned_offset; tcp_type := TcpGripper |}];
    sensor_mounts := []; workspace_zones := []; watched_frames := []; channel_bindings := [] |} None None.

(** The error is expressed in the frame of the tool, the Jacobian in that of the root: asked to
    advance the turned gripper by one unit, from slide position 2, the step goes back to 1. *)
Example turned_tool_moves_away :
  match plan_tcp_step same same no_hypot keep_axis no_cross norm_x no_axis unit_values along_step turned
          "grip" [f64_of_Z 2]
          {| translation := V3 (f64_of_Z 7) zero zero; rotation := Q4 zero zero zero one; timestamp_ns := 0%Z |}
          "world" one with
  | Ret (Some (Ok p)) =>
      (map (fun x => f64_eq x one) (proposed_joint_positions p),
       f64_eq (v0 (translation (rp_transform (mp_current_pose p)))) (f64_of_Z 6),
       f64_eq (remaining_translation_error_m p) two)
      = ([true], true, true)
  | _ => False
  end.
Proof. vm_compute. reflexivity. Qed.
