(* ===== verification/Policy.v ===== *)
(** * Operational policy: trust, device trust, degradation, leases, power, crash recovery

    The decision functions of roz-core/trust.rs, safety.rs, degradation.rs, lease.rs,
    edge/power.rs and device_trust/, with the code that applies them: the trust evaluator of
    roz-agent, the attestation, the degradation levels and the crash recovery of roz-worker
    and the host gate of roz-server.  Each file of the source is a Module. *)

From Stdlib Require Import Ascii.
From Stdlib Require String.
From S2P Require Import Prelude Float64 RustStr.

(** ** roz-core/trust.rs and roz-agent/trust_evaluator.rs *)

Module Trust.

Inductive TrustLevel : Type := Untrusted | Low | Medium | High | Verified.

#[export] Instance TrustLevel_eq_dec : EqDecision TrustLevel.
Proof. solve_decision. Defined.

(** The derived [Ord]: the order of the discriminants. *)
Definition rank (l : TrustLevel) : Z :=
  match l with Untrusted => 0 | Low => 1 | Medium => 2 | High => 3 | Verified => 4 end.

Definition leb (a b : TrustLevel) : bool := rank a <=? rank b.

Record TrustPosture : Type := {
  workspace_trust : TrustLevel;
  host_trust : TrustLevel;
  environment_trust : TrustLevel;
  tool_trust : TrustLevel;
  physical_execution_trust : TrustLevel;
  controller_artifact_trust : TrustLevel;
  edge_transport_trust : TrustLevel;
}.

#[export] Instance TrustPosture_eq_dec : EqDecision TrustPosture.
Proof. solve_decision. Defined.

Definition default_posture : TrustPosture := {|
  workspace_trust := Medium;
  host_trust := Medium;
  environment_trust := Medium;
  tool_trust := Medium;
  physical_execution_trust := Untrusted;
  controller_artifact_trust := Untrusted;
  edge_transport_trust := Medium;
|}.

(** [iter().min()]: of equal elements the first, none of an empty slice. *)
Definition level_min (l : list TrustLevel) : option TrustLevel :=
  match l with
  | [] => None
  | x :: l => Some (fold_left (fun m y => if rank y <? rank m then y else m) l x)
  end.

Definition posture_levels (p : TrustPosture) : list TrustLevel :=
  [workspace_trust p; host_trust p; environment_trust p; tool_trust p;
   physical_execution_trust p; controller_artifact_trust p; edge_transport_trust p].

Definition minimum_trust (self : TrustPosture) : exec TrustLevel :=
  match level_min (posture_levels self) with Some l => Ret l | None => Panic end.

Definition can_execute_physical (self : TrustPosture) : bool :=
  leb Medium (physical_execution_trust self) &&
  leb Medium (host_trust self) &&
  leb Medium (environment_trust self).

Inductive ExecutionCapabilityClass : Type :=
| ReadOnly | SandboxedMutation | Networked | PrivilegedNetworked
| PhysicalLowRisk | PhysicalHighRisk | Administrative | ControllerManagement.

#[export] Instance ExecutionCapabilityClass_eq_dec : EqDecision ExecutionCapabilityClass.
Proof. solve_decision. Defined.

Definition minimum_trust_required (self : ExecutionCapabilityClass) : TrustLevel :=
  match self with
  | ReadOnly => Low
  | SandboxedMutation | Networked | PhysicalLowRisk => Medium
  | PrivilegedNetworked | PhysicalHighRisk | Administrative => High
  | ControllerManagement => Verified
  end.

Inductive UnavailableReason : Type :=
| InsufficientTrust (required actual : TrustLevel)
| BlueprintDenied
| PhaseRestricted
| NotRegistered
| DependencyUnavailable (dependency : string).

Record TrustEvaluator : Type := { posture : TrustPosture }.

Definition new_evaluator (p : TrustPosture) : TrustEvaluator := {| posture := p |}.

Definition relevant_trust_level (self : TrustEvaluator) (class : ExecutionCapabilityClass) : TrustLevel :=
  match class with
  | ReadOnly | SandboxedMutation | Networked | PrivilegedNetworked | Administrative =>
      tool_trust (posture self)
  | PhysicalLowRisk | PhysicalHighRisk => physical_execution_trust (posture self)
  | ControllerManagement => controller_artifact_trust (posture self)
  end.

Definition check_tool_availability (self : TrustEvaluator) (capability_class : ExecutionCapabilityClass)
    : result unit UnavailableReason :=
  let required := minimum_trust_required capability_class in
  let actual := relevant_trust_level self capability_class in
  if leb required actual then Ok tt else Err (InsufficientTrust required actual).

Definition update_posture (self : TrustEvaluator) (p : TrustPosture) : TrustEvaluator := {| posture := p |}.

End Trust.

(** ** roz-core/safety.rs *)

Module Safety.

Inductive SafetyLevel : Type := Normal | Warning | ReducedMode | ProtectiveStop | EmergencyStop.

Definition rank (l : SafetyLevel) : Z :=
  match l with Normal => 0 | Warning => 1 | ReducedMode => 2 | ProtectiveStop => 3 | EmergencyStop => 4 end.

(** [std::cmp::max(self, other)]: the second argument when they are equal. *)
Definition escalate (self other : SafetyLevel) : SafetyLevel :=
  if rank other <? rank self then self else other.

Inductive OddConstraint : Type :=
| Range (min max : f64)
| Threshold (max : f64)
| Boolean (required : bool).

Definition odd_check (self : OddConstraint) (value : f64) : bool :=
  match self with
  | Range min max => f64_ge value min && f64_le value max
  | Threshold max => f64_le value max
  | Boolean _ => true
  end.

Definition check_bool (self : OddConstraint) (value : bool) : bool :=
  match self with Boolean required => Bool.eqb value required | _ => true end.

Record OperationalDesignDomain : Type := {
  wind_speed_max_ms : option f64;
  temperature_range_c : option (f64 * f64);
  visibility_min_m : option f64;
  gps_hdop_max : option f64;
  battery_min_pct : option f64;
  comms_latency_max_ms : option Z;
  custom : gmap string OddConstraint;
}.

Inductive ControlMode : Type := Autonomous | Supervised | Collaborative | Manual.

Definition default_control_mode : ControlMode := Autonomous.
Definition for_remote : ControlMode := Supervised.

End Safety.

(** ** roz-core/degradation.rs and roz-worker/degradation.rs *)

Module Degradation.

Record TransitionRule : Type := {
  condition : string;
  target_mode : string;
  cooldown_secs : option Z;
}.

Record DegradationMode : Type := {
  dm_id : string;
  dm_tenant_id : string;
  environment_id : string;
  mode_name : string;
  blocked_capabilities : list string;
  active_capabilities : list string;
  alert_channels : list string;
  auto_transition_rules : list TransitionRule;
  dm_created_at : DateTime;
  dm_updated_at : DateTime;
}.

Record DegradedState : Type := {
  current_mode : string;
  entered_at : DateTime;
  ds_reason : string;
}.

(** [num_seconds] of a difference: whole seconds, rounded towards zero. *)
Definition num_seconds (d : Z) : Z := Z.quot d 1000000000.

Definition rule_fires (self : DegradedState) (condition_met : string) (now : DateTime) (rule : TransitionRule)
    : bool :=
  if negb (String.eqb (condition rule) condition_met) then false
  else match cooldown_secs rule with
       | Some cooldown => negb (num_seconds (now - entered_at self) <? cooldown)
       | None => true
       end.

Definition should_transition (self : DegradedState) (rules : list TransitionRule) (condition_met : string)
    (now : DateTime) : option TransitionRule :=
  List.find (rule_fires self condition_met now) rules.

Inductive DegradationLevel : Type := Normal | LocalOnly | ControllerOnly | SafeStop | EmergencyStop.

Definition controller_active (self : DegradationLevel) : bool :=
  match self with Normal | LocalOnly | ControllerOnly => true | _ => false end.

Definition agent_active (self : DegradationLevel) : bool :=
  match self with Normal | LocalOnly => true | _ => false end.

End Degradation.

(** ** roz-core/lease.rs *)

Module Lease.

Inductive LeaseState : Type := Active | Expired | Released.

#[export] Instance LeaseState_eq_dec : EqDecision LeaseState.
Proof. solve_decision. Defined.

Record CapabilityLease : Type := {
  lease_id : string;
  lease_tenant_id : string;
  lease_host_id : string;
  resource : string;
  holder_id : string;
  acquired_at : DateTime;
  expires_at : DateTime;
  released_at : option DateTime;
}.

Definition state (self : CapabilityLease) (now : DateTime) : LeaseState :=
  if bool_decide (is_Some (released_at self)) then Released
  else if expires_at self <=? now then Expired
  else Active.

Definition is_valid (self : CapabilityLease) (now : DateTime) : bool :=
  bool_decide (state self now = Active).

End Lease.

(** ** roz-core/edge/power.rs *)

Module Power.

Record BatteryState : Type := {
  soc : f64;
  voltage : f64;
  current : f64;
  minutes_remaining : option f64;
}.

Record PowerConfig : Type := { warning_soc : f64; failsafe_soc : f64; emergency_soc : f64 }.

Definition default_config : PowerConfig := {|
  warning_soc := f64_dec 3 1;
  failsafe_soc := f64_dec 2 1;
  emergency_soc := f64_dec 1 1;
|}.

Inductive PowerAction : Type := Normal | Warning | ReturnToBase | EmergencyStop.

Definition evaluate (self : PowerConfig) (battery : BatteryState) : PowerAction :=
  if f64_le (soc battery) (emergency_soc self) then EmergencyStop
  else if f64_le (soc battery) (failsafe_soc self) then ReturnToBase
  else if f64_le (soc battery) (warning_soc self) then Warning
  else Normal.

(** The severity of an action, for the statements. *)
Definition severity (a : PowerAction) : Z :=
  match a with Normal => 0 | Warning => 1 | ReturnToBase => 2 | EmergencyStop => 3 end.

Definition check_battery (config : PowerConfig) (battery : BatteryState) : PowerAction :=
  evaluate config battery.

End Power.

(** ** roz-core/edge/recovery.rs and roz-worker/recovery.rs *)

Module CrashRecovery.

Inductive RecoveryStrategy : Type := ResumeFromCheckpoint | RetryFromStart | Abort_ | SafeStateWait.
Inductive DecisionSource : Type := Robot | Cloud | Operator.

Record CrashState : Type := {
  joint_positions : option (list f64);
  brakes_engaged : bool;
  mid_action : bool;
  cs_task_id : option string;
  last_wal_seq : option Z;
}.

Record RecoveryDecision : Type := {
  decided_by : DecisionSource;
  strategy : RecoveryStrategy;
  rd_reason : string;
}.

Definition decide_recovery (state : CrashState) : RecoveryDecision :=
  if negb (mid_action state) || bool_decide (cs_task_id state = None) then
    {| decided_by := Robot; strategy := Abort_; rd_reason := "No task was in progress at crash time" |}
  else if brakes_engaged state && bool_decide (is_Some (joint_positions state)) then
    {| decided_by := Robot; strategy := ResumeFromCheckpoint;
       rd_reason := "Brakes engaged, joint positions known — safe to resume" |}
  else
    {| decided_by := Robot; strategy := SafeStateWait;
       rd_reason := "Physical state ambiguous — waiting for operator" |}.

End CrashRecovery.

(** ** roz-core/device_trust, roz-worker/trust.rs and roz-server/trust.rs

    A [Uuid] is its canonical text.  Digests, checksums and signatures come from
    cryptographic libraries: they are arguments. *)

Module DeviceTrust.

Inductive DeviceTrustPosture : Type := Trusted | Provisional | Untrusted.

#[export] Instance DeviceTrustPosture_eq_dec : EqDecision DeviceTrustPosture.
Proof. solve_decision. Defined.

Definition debug_posture (p : DeviceTrustPosture) : string :=
  match p with Trusted => "Trusted" | Provisional => "Provisional" | Untrusted => "Untrusted" end.

Inductive FlashPartition : Type := PartitionA | PartitionB.

Record FirmwareManifest : Type := {
  version : string;
  fm_sha256 : string;
  fm_crc32 : Z;
  ed25519_signature : option string;
  partition : FlashPartition;
}.

Record DeviceTrust : Type := {
  host_id : string;
  tenant_id : string;
  posture : DeviceTrustPosture;
  firmware : option FirmwareManifest;
  sbom_hash : option string;
  last_attestation : option DateTime;
  created_at : DateTime;
  updated_at : DateTime;
}.

Record FlashRequest : Type := {
  fr_host_id : string;
  firmware_url : string;
  fr_partition : FlashPartition;
  requires_human_approval : bool;
}.

Definition new_flash_request (host_id firmware_url : string) (partition : FlashPartition) : FlashRequest := {|
  fr_host_id := host_id;
  firmware_url := firmware_url;
  fr_partition := partition;
  requires_human_approval := true;
|}.

Record TrustPolicy : Type := {
  max_attestation_age_secs : Z;
  require_firmware_signature : bool;
  allowed_firmware_versions : list string;
}.

(** *** evaluator.rs.  [TimeDelta::seconds] is chrono's: an argument. *)

Definition max_secs (policy : TrustPolicy) : Z :=
  if max_attestation_age_secs policy <=? i64_max then max_attestation_age_secs policy else i64_max.

Definition evaluate_trust (time_delta_seconds : Z -> exec Duration) (device : DeviceTrust)
    (policy : TrustPolicy) (now : DateTime) : exec DeviceTrustPosture :=
  match firmware device with
  | None => Ret Untrusted
  | Some fw =>
      match last_attestation device with
      | None => Ret Untrusted
      | Some last =>
          let age := now - last in
          let! max_age := time_delta_seconds (max_secs policy) in
          if max_age <? age then Ret Provisional
          else if require_firmware_signature policy && bool_decide (ed25519_signature fw = None)
          then Ret Provisional
          else if negb (bool_decide (allowed_firmware_versions policy = [])) &&
                  negb (bool_decide (version fw ∈ allowed_firmware_versions policy))
          then Ret Untrusted
          else Ret Trusted
      end
  end.

(** *** verify.rs: a byte is a [Byte.byte], the accumulator a [u8]. *)

Fixpoint diff_bytes (diff : N) (a b : list Byte.byte) : N :=
  match a, b with
  | x :: a, y :: b => diff_bytes (N.lor diff (N.lxor (Byte.to_N x) (Byte.to_N y))) a b
  | _, _ => diff
  end.

Definition constant_time_eq (a b : list Byte.byte) : bool :=
  if negb (length a =? length b)%nat then false
  else (diff_bytes 0 a b =? 0)%N.

Section Crypto.
Context {Key Sig : Type}.
Context (sha256_hex : list Byte.byte -> string) (crc32_hash : list Byte.byte -> Z)
  (verify : Key -> list Byte.byte -> Sig -> bool) (sig_hex : Sig -> string)
  (key_from_bytes : list Byte.byte -> option Key) (sig_from_bytes : list Byte.byte -> Sig).

Definition verify_firmware_crc32 (data : list Byte.byte) (expected : Z) : bool :=
  crc32_hash data =? expected.

Definition verify_firmware_sha256 (data : list Byte.byte) (expected_hex : string) : bool :=
  constant_time_eq (String.list_byte_of_string (sha256_hex data)) (String.list_byte_of_string expected_hex).

Definition verify_firmware_signature (data public_key_bytes signature_bytes : list Byte.byte) : bool :=
  match key_from_bytes public_key_bytes with
  | None => false
  | Some public_key => verify public_key data (sig_from_bytes signature_bytes)
  end.

(** *** roz-worker/trust.rs *)

Record TrustReporter : Type := { tr_host_id : string; tr_tenant_id : string; is_sim : bool }.

Definition attest_with_verification (self : TrustReporter) (now : DateTime)
    (firmware_data sbom_data : option (list Byte.byte)) (verifying_key : option Key) (signature : option Sig)
    : DeviceTrust :=
  let sig_result :=
    match firmware_data, verifying_key, signature with
    | Some data, Some key, Some sig => Some (verify key data sig)
    | _, _, _ => None
    end in
  let firmware :=
    (fun data => {|
       version := "unknown";
       fm_sha256 := sha256_hex data;
       fm_crc32 := crc32_hash data;
       ed25519_signature := sig_hex <$> signature;
       partition := PartitionA;
     |}) <$> firmware_data in
  let posture :=
    if is_sim self then Provisional
    else match bool_decide (is_Some firmware), sig_result with
         | true, Some true => Trusted
         | true, None => Provisional
         | true, Some false | false, _ => Untrusted
         end in
  {| host_id := tr_host_id self;
     tenant_id := tr_tenant_id self;
     posture := posture;
     firmware := firmware;
     sbom_hash := sha256_hex <$> sbom_data;
     last_attestation := Some now;
     created_at := now;
     updated_at := now |}.

Definition attest (self : TrustReporter) (now : DateTime) (firmware_data sbom_data : option (list Byte.byte))
    : DeviceTrust :=
  attest_with_verification self now firmware_data sbom_data None None.

End Crypto.

(** *** roz-server/trust.rs.  The answer of the database is an argument: the error's text,
    no row, or the row. *)

Record TrustRejection : Type := { tj_reason : string }.

Definition check_host_trust (time_delta_seconds : Z -> exec Duration)
    (row : result (option DeviceTrust) string) (tenant_id_ : string) (policy : TrustPolicy) (now : DateTime)
    : exec (result unit TrustRejection) :=
  match row with
  | Err e => Ret (Err {| tj_reason := "device_trust load failed: " ++ e |})
  | Ok None => Ret (Err {| tj_reason := "no device_trust row for host" |})
  | Ok (Some device) =>
      if negb (String.eqb (tenant_id device) tenant_id_) then
        Ret (Err {| tj_reason := "tenant mismatch (row tenant=" ++ tenant_id device ++ ", caller=" ++
                                 tenant_id_ ++ ")" |})
      else
        let! p := evaluate_trust time_delta_seconds device policy now in
        match p with
        | Trusted => Ret (Ok tt)
        | _ => Ret (Err {| tj_reason := "posture = " ++ debug_posture p |})
        end
  end.

(** [std::env::var]: the value of a variable that is set (and Unicode). *)
Definition load_trust_policy_from_env (env : string -> option string) : TrustPolicy := {|
  max_attestation_age_secs :=
    default 3600 (env "ROZ_TRUST_MAX_ATTESTATION_AGE_SECS" ≫= parse_usize);
  require_firmware_signature :=
    match env "ROZ_TRUST_REQUIRE_FW_SIG" with
    | None => true
    | Some v => negb (String.eqb v "false" || String.eqb v "0")
    end;
  allowed_firmware_versions :=
    match env "ROZ_TRUST_ALLOWED_FW_VERSIONS" with
    | None => []
    | Some s => List.filter (fun s => negb (String.eqb s "")) (map trim (split_on "," s))
    end;
|}.

(** *** roz-db/device_trust.rs: the row as the database has it.  Decoding the [firmware]
    column is serde's: an argument. *)

Definition posture_of_column (posture : string) : DeviceTrustPosture :=
  if String.eqb posture "trusted" then Trusted
  else if String.eqb posture "provisional" then Provisional
  else Untrusted.

Definition row_to_device {V : Type} (decode : V -> result FirmwareManifest string)
    (tenant_id host_id posture : string) (firmware : option V) (sbom_hash : option string)
    (last_attestation : option DateTime) (created_at updated_at : DateTime)
    : result (option DeviceTrust) string :=
  let? firmware :=
    match firmware with
    | None => Ok None
    | Some v => result_bind (decode v) (fun fw => Ok (Some fw))
    end in
  Ok (Some {|
    host_id := host_id;
    tenant_id := tenant_id;
    posture := posture_of_column posture;
    firmware := firmware;
    sbom_hash := sbom_hash;
    last_attestation := last_attestation;
    created_at := created_at;
    updated_at := updated_at;
  |}).

End DeviceTrust.

(** ** Lemmas and properties *)

Import Trust.

Lemma leb_spec (a b : TrustLevel) : Trust.leb a b = true <-> Trust.rank a <= Trust.rank b.
Proof. apply Z.leb_le. Qed.

Lemma rank_inj (a b : TrustLevel) : Trust.rank a = Trust.rank b -> a = b.
Proof. by destruct a, b. Qed.

Lemma level_min_fold (l : list TrustLevel) : forall x,
  let m := fold_left (fun m y => if Trust.rank y <? Trust.rank m then y else m) l x in
  m ∈ x :: l /\ Forall (fun y => Trust.rank m <= Trust.rank y) (x :: l).
Proof.
  induction l as [|y l IH]; intros x; simpl.
  { split; [by left|]. constructor; [done|constructor]. }
  destruct (Z.ltb_spec (Trust.rank y) (Trust.rank x)) as [Hlt|Hge].
  - destruct (IH y) as [Hin Hall]. split; [by right|].
    inversion Hall as [|? ? Hy Hl]; subst. constructor; [lia|]. by constructor.
  - destruct (IH x) as [Hin Hall]. inversion Hall as [|? ? Hx Hl]; subst. split.
    + apply elem_of_cons in Hin as [->|Hin]; [by left|]. by do 2 right.
    + constructor; [done|]. constructor; [lia|done].
Qed.

Lemma minimum_trust_floor (p : TrustPosture) :
  exists l, minimum_trust p = Ret l /\ l ∈ posture_levels p /\
    Forall (fun y => Trust.rank l <= Trust.rank y) (posture_levels p).
Proof.
  unfold minimum_trust, level_min. unfold posture_levels at 1.
  eexists; split; [reflexivity|]. apply level_min_fold.
Qed.

(** The order of postures: every layer is trusted at least as much. *)
Definition posture_le (p q : TrustPosture) : Prop :=
  Forall2 (fun a b => Trust.rank a <= Trust.rank b) (posture_levels p) (posture_levels q).

Lemma relevant_level_in (p : TrustPosture) c :
  relevant_trust_level (new_evaluator p) c ∈ posture_levels p.
Proof. unfold posture_levels. destruct c; simpl; set_solver. Qed.

Lemma posture_le_relevant (p q : TrustPosture) c :
  posture_le p q ->
  Trust.rank (relevant_trust_level (new_evaluator p) c) <=
  Trust.rank (relevant_trust_level (new_evaluator q) c).
Proof.
  unfold posture_le, posture_levels. intros H.
  repeat match goal with H : Forall2 _ (_ :: _) _ |- _ => inversion H; clear H; subst end.
  by destruct c.
Qed.

(** the trust evaluator is sound and monotone.  The minimum over the layers always
    exists and is one of the layers' levels; a posture whose minimum reaches what a class
    of capability requires makes the tools of that class available; a posture that trusts
    every layer at least as much makes at least the same tools available, and allows
    physical execution whenever the smaller one does. *)
Theorem availability_monotone (p q : TrustPosture) (c : ExecutionCapabilityClass) :
  (exists l, minimum_trust p = Ret l /\ l ∈ posture_levels p /\
     (Trust.leb (minimum_trust_required c) l = true ->
      check_tool_availability (new_evaluator p) c = Ok tt) /\
     (Trust.leb Medium l = true -> can_execute_physical p = true)) /\
  (posture_le p q ->
     (check_tool_availability (new_evaluator p) c = Ok tt ->
      check_tool_availability (new_evaluator q) c = Ok tt) /\
     (can_execute_physical p = true -> can_execute_physical q = true)).
Proof.
  split.
  - destruct (minimum_trust_floor p) as (l & Hl & Hin & Hall). exists l. split_and!; [done..| |].
    + rewrite leb_spec. intros Hreq. unfold check_tool_availability.
      rewrite Forall_forall in Hall. specialize (Hall _ (relevant_level_in p c)).
      by rewrite (proj2 (leb_spec _ _)) by lia.
    + rewrite leb_spec. intros Hmed. unfold can_execute_physical.
      rewrite Forall_forall in Hall. rewrite !andb_true_iff, !leb_spec.
      repeat split; (etrans; [exact Hmed|]); apply Hall; unfold posture_levels; set_solver.
  - intros Hle. pose proof (posture_le_relevant p q c Hle) as Hrel. split.
    + unfold check_tool_availability. case_match eqn:Hp; [|done]. intros _.
      apply leb_spec in Hp. by rewrite (proj2 (leb_spec _ _)) by lia.
    + unfold posture_le, posture_levels in Hle.
      repeat match goal with H : Forall2 _ (_ :: _) _ |- _ => inversion H; clear H; subst end.
      unfold can_execute_physical. rewrite !andb_true_iff, !leb_spec. lia.
Qed.

Lemma availability_monotone_witness :
  let q := {| workspace_trust := Medium; host_trust := High; environment_trust := Medium;
              tool_trust := High; physical_execution_trust := Medium;
              controller_artifact_trust := Untrusted; edge_transport_trust := Medium |} in
  check_tool_availability (new_evaluator q) Networked = Ok tt.
Proof.
  simpl. eapply (availability_monotone default_posture _ Networked); [|reflexivity].
  repeat constructor; simpl; lia.
Defined.

(** The tool check of a physical capability looks at one layer only: it allows a tool of
    a posture that may not execute physically, because its host is untrusted. *)
Example physical_tool_on_untrusted_host :
  let p := {| workspace_trust := Medium; host_trust := Untrusted; environment_trust := Medium;
              tool_trust := Medium; physical_execution_trust := Medium;
              controller_artifact_trust := Untrusted; edge_transport_trust := Medium |} in
  can_execute_physical p = false /\
  check_tool_availability (new_evaluator p) PhysicalLowRisk = Ok tt.
Proof. by split. Qed.

(** [escalate] is the join of the severity order: associative, commutative,
    idempotent, and never less severe than either level. *)
Theorem escalate_is_join (a b c : Safety.SafetyLevel) :
  Safety.escalate a b = Safety.escalate b a /\
  Safety.escalate a (Safety.escalate b c) = Safety.escalate (Safety.escalate a b) c /\
  Safety.escalate a a = a /\
  Safety.rank (Safety.escalate a b) = Z.max (Safety.rank a) (Safety.rank b).
Proof. by destruct a, b, c. Qed.

(** A NaN measurement is outside every numeric constraint. *)
Lemma nan_outside_odd (c : Safety.OddConstraint) (x : f64) :
  is_nan x = true -> Safety.odd_check c x = match c with Safety.Boolean _ => true | _ => false end.
Proof. destruct x; try done. by intros _; destruct c as [[] []|[]|]. Qed.

(** a transition is taken exactly when some rule matches the condition and its
    cooldown has passed in whole seconds; it is the first such rule. *)
Theorem transition_is_first_ready (st : Degradation.DegradedState) (rules : list Degradation.TransitionRule)
    (cond : string) (now : DateTime) (r : Degradation.TransitionRule) :
  Degradation.should_transition st rules cond now = Some r <->
  exists before after, rules = before ++ r :: after /\
    Forall (fun r' => Degradation.rule_fires st cond now r' = false) before /\
    Degradation.condition r = cond /\
    (forall cd, Degradation.cooldown_secs r = Some cd ->
       cd <= Z.quot (now - Degradation.entered_at st) 1000000000).
Proof.
  assert (Hfire : Degradation.rule_fires st cond now r = true <->
    Degradation.condition r = cond /\
    (forall cd, Degradation.cooldown_secs r = Some cd ->
       cd <= Z.quot (now - Degradation.entered_at st) 1000000000)).
  { unfold Degradation.rule_fires, Degradation.num_seconds.
    destruct (String.eqb_spec (Degradation.condition r) cond); simpl; [|naive_solver].
    destruct (Degradation.cooldown_secs r) as [cd|]; [|naive_solver].
    rewrite negb_true_iff, Z.ltb_ge. naive_solver. }
  unfold Degradation.should_transition. induction rules as [|r' rules IH]; simpl.
  { split; [done|]. intros (before & after & H & _). by destruct before. }
  destruct (Degradation.rule_fires st cond now r') eqn:Hr'.
  - split.
    + intros [= ->]. exists [], rules. naive_solver.
    + intros (before & after & H & Hbefore & _). destruct before; simplify_eq/=; [done|].
      inversion Hbefore; congruence.
  - rewrite IH. split.
    + intros (before & after & -> & Hbefore & H). exists (r' :: before), after. naive_solver.
    + intros (before & after & H & Hbefore & Hr). destruct before as [|x before]; simplify_eq/=.
      * apply Hfire in Hr. congruence.
      * inversion Hbefore; subst. naive_solver.
Qed.

(** A state entered in the future of [now] blocks every rule with a cooldown, and none without. *)
Example future_state_blocks_cooldowns :
  let st := {| Degradation.current_mode := "low-power"; Degradation.entered_at := from_secs 100;
               Degradation.ds_reason := "" |} in
  let rule cd := {| Degradation.condition := "c"; Degradation.target_mode := "normal";
                    Degradation.cooldown_secs := cd |} in
  Degradation.should_transition st [rule (Some 0); rule None] "c" (from_secs 99) = Some (rule None).
Proof. reflexivity. Qed.

(** a lease is valid exactly while it is not released and has not expired; once it
    is not valid, it is not valid at any later time. *)
Theorem lease_never_revives (l : Lease.CapabilityLease) (now later : DateTime) :
  (Lease.is_valid l now = true <-> Lease.released_at l = None /\ now < Lease.expires_at l) /\
  (now <= later -> Lease.is_valid l now = false -> Lease.is_valid l later = false).
Proof.
  assert (H : forall t, Lease.is_valid l t = true <->
    Lease.released_at l = None /\ t < Lease.expires_at l).
  { intros t. unfold Lease.is_valid, Lease.state. rewrite bool_decide_eq_true.
    destruct (Lease.released_at l); simpl.
    - naive_solver.
    - destruct (Z.leb_spec (Lease.expires_at l) t); naive_solver lia. }
  split; [apply H|]. intros Hle Hnow. apply not_true_iff_false in Hnow.
  apply not_true_iff_false. rewrite H in *. naive_solver lia.
Qed.

(** a lower state of charge never leads to a milder action, whatever the
    thresholds (also misordered ones, or thresholds that are not numbers). *)
Theorem power_antitone (cfg : Power.PowerConfig) (a b : Power.BatteryState) :
  f64_le (Power.soc a) (Power.soc b) = true ->
  Power.severity (Power.check_battery cfg b) <= Power.severity (Power.check_battery cfg a).
Proof.
  intros Hab. unfold Power.check_battery, Power.evaluate.
  destruct (f64_le (Power.soc b) (Power.emergency_soc cfg)) eqn:He.
  { assert (f64_le (Power.soc a) (Power.emergency_soc cfg) = true) as -> by f64_order. done. }
  destruct (f64_le (Power.soc b) (Power.failsafe_soc cfg)) eqn:Hf.
  { assert (f64_le (Power.soc a) (Power.failsafe_soc cfg) = true) as -> by f64_order.
    by case_match. }
  destruct (f64_le (Power.soc b) (Power.warning_soc cfg)) eqn:Hw.
  { assert (f64_le (Power.soc a) (Power.warning_soc cfg) = true) as -> by f64_order.
    by repeat case_match. }
  by repeat case_match.
Qed.

Lemma power_antitone_witness :
  Power.severity (Power.check_battery Power.default_config
    {| Power.soc := f64_dec 5 1; Power.voltage := zero; Power.current := zero; Power.minutes_remaining := None |}) <=
  Power.severity (Power.check_battery Power.default_config
    {| Power.soc := f64_dec 15 2; Power.voltage := zero; Power.current := zero; Power.minutes_remaining := None |}).
Proof. apply (power_antitone Power.default_config). vm_compute. reflexivity. Defined.

(** A battery monitor that reports NaN leaves the robot in normal operation. *)
Example nan_charge_is_normal :
  Power.check_battery Power.default_config
    {| Power.soc := S754_nan; Power.voltage := zero; Power.current := zero; Power.minutes_remaining := None |}
  = Power.Normal.
Proof. reflexivity. Qed.

(** a crashed robot resumes only a task it was executing, with its brakes engaged and
    its joint positions known; in the middle of an action with anything else unknown it waits
    for an operator, and it never restarts an action from its beginning. *)
Theorem resume_only_when_known (s : CrashRecovery.CrashState) :
  let strategy := CrashRecovery.strategy (CrashRecovery.decide_recovery s) in
  let busy := CrashRecovery.mid_action s = true /\ is_Some (CrashRecovery.cs_task_id s) in
  let known := CrashRecovery.brakes_engaged s = true /\ is_Some (CrashRecovery.joint_positions s) in
  (strategy = CrashRecovery.ResumeFromCheckpoint <-> busy /\ known) /\
  (strategy = CrashRecovery.SafeStateWait <-> busy /\ ~ known) /\
  (strategy = CrashRecovery.Abort_ <-> ~ busy).
Proof.
  destruct s as [jp [] [] [t|] w]; destruct jp; unfold CrashRecovery.decide_recovery; simpl;
    naive_solver.
Qed.

(** *** Device trust *)

Import DeviceTrust.

Lemma byte_lxor_eq (x y : Byte.byte) : N.lxor (Byte.to_N x) (Byte.to_N y) = 0%N <-> x = y.
Proof.
  rewrite N.lxor_eq_0_iff. split; [|by intros ->]. intros H.
  apply (f_equal Byte.of_N) in H. rewrite !Byte.of_to_N in H. by injection H.
Qed.

Lemma diff_bytes_zero (a : list Byte.byte) : forall b d,
  length a = length b -> diff_bytes d a b = 0%N <-> d = 0%N /\ a = b.
Proof.
  induction a as [|x a IH]; intros [|y b] d Hlen; simplify_eq/=; [naive_solver|].
  rewrite IH by done. rewrite N.lor_eq_0_iff, byte_lxor_eq. naive_solver.
Qed.

(** the comparison that hides its timing decides equality: the accumulated
    differences are zero exactly when the two byte strings are the same. *)
Theorem constant_time_eq_is_equality (a b : list Byte.byte) :
  constant_time_eq a b = true <-> a = b.
Proof.
  unfold constant_time_eq. destruct (Nat.eqb_spec (length a) (length b)) as [Hlen|Hlen]; simpl.
  - rewrite N.eqb_eq, diff_bytes_zero by done. naive_solver.
  - split; [done|]. by intros ->.
Qed.

(** What the code relies on of [chrono::TimeDelta::seconds]: a whole number of seconds up to
    [i64::MAX] milliseconds, a panic beyond. *)
Record seconds_law (time_delta_seconds : Z -> exec Duration) : Prop := {
  seconds_in_range : forall s, 0 <= s <= i64_max / 1000 -> time_delta_seconds s = Ret (from_secs s);
  seconds_out_of_range : forall s, i64_max / 1000 < s -> time_delta_seconds s = Panic;
}.

Definition chrono_seconds (s : Z) : exec Duration :=
  if Z.abs s <=? i64_max / 1000 then Ret (from_secs s) else Panic.

Lemma chrono_seconds_law : seconds_law chrono_seconds.
Proof.
  assert (0 < i64_max / 1000) by done.
  split; intros s Hs; unfold chrono_seconds; destruct (Z.leb_spec (Z.abs s) (i64_max / 1000)); try done; lia.
Qed.

(** What the gate asks of a host. *)
Record host_trusted (policy : TrustPolicy) (tenant : string) (now : DateTime) (device : DeviceTrust) : Prop := {
  ht_tenant : tenant_id device = tenant;
  ht_attested : exists last, last_attestation device = Some last /\
    now - last <= from_secs (max_attestation_age_secs policy);
  ht_firmware : exists fw, firmware device = Some fw /\
    (require_firmware_signature policy = true -> is_Some (ed25519_signature fw)) /\
    (allowed_firmware_versions policy = [] \/ version fw ∈ allowed_firmware_versions policy);
}.

Section Gate.
Context (tds : Z -> exec Duration) (Htds : seconds_law tds).

Lemma max_secs_in_range (policy : TrustPolicy) :
  0 <= max_attestation_age_secs policy <= i64_max / 1000 ->
  tds (max_secs policy) = Ret (from_secs (max_attestation_age_secs policy)).
Proof.
  intros H. assert (i64_max / 1000 <= i64_max) by done. unfold max_secs.
  rewrite (proj2 (Z.leb_le _ _)) by lia. by apply Htds.
Qed.

Lemma evaluate_trusted_iff (device : DeviceTrust) (policy : TrustPolicy) (now : DateTime) :
  0 <= max_attestation_age_secs policy <= i64_max / 1000 ->
  is_ret (evaluate_trust tds device policy now) = true /\
  (evaluate_trust tds device policy now = Ret Trusted <->
   host_trusted policy (tenant_id device) now device).
Proof.
  intros Hage. unfold evaluate_trust. rewrite (max_secs_in_range _ Hage).
  destruct (firmware device) as [fw|] eqn:Hfw.
  2:{ split; [done|]. split; [done|]. intros [_ _ (fw & ? & _)]. congruence. }
  destruct (last_attestation device) as [last|] eqn:Hlast.
  2:{ split; [done|]. split; [done|]. intros [_ (last & ? & _) _]. congruence. }
  simpl. set (av := allowed_firmware_versions policy).
  destruct (Z.ltb_spec (from_secs (max_attestation_age_secs policy)) (now - last)) as [Hold|Hold].
  { split; [done|]. split; [done|]. intros [_ (last' & ? & ?) _]. simplify_eq. lia. }
  destruct (require_firmware_signature policy && bool_decide (ed25519_signature fw = None)) eqn:Hsig.
  { split; [done|]. split; [done|]. intros [_ _ (fw' & ? & Hs & _)]. simplify_eq. bool_prop.
    destruct Hs as [? Hs]; [done|]. congruence. }
  destruct (negb (bool_decide (av = [])) && negb (bool_decide (version fw ∈ av))) eqn:Hver.
  { split; [done|]. split; [done|]. intros [_ _ (fw' & ? & _ & Hv)]. simplify_eq. bool_prop.
    naive_solver. }
  split; [done|]. split; [intros _|done]. split; [done|eauto|].
  exists fw. split; [done|]. split.
  - intros Hreq. rewrite Hreq in Hsig. simpl in Hsig. bool_prop.
    destruct (ed25519_signature fw); [eauto|done].
  - apply andb_false_iff in Hver as [Hv|Hv]; bool_prop; eauto.
Qed.
End Gate.

Lemma host_gate_cases (tds : Z -> exec Duration) (row : result (option DeviceTrust) string)
    (tenant : string) (policy : TrustPolicy) (now : DateTime) :
  seconds_law tds ->
  0 <= max_attestation_age_secs policy <= i64_max / 1000 ->
  is_ret (check_host_trust tds row tenant policy now) = true /\
  (check_host_trust tds row tenant policy now = Ret (Ok tt) <->
   exists device, row = Ok (Some device) /\ host_trusted policy tenant now device).
Proof.
  intros Htds Hage. unfold check_host_trust. destruct row as [[device|]|e].
  2-3: split; [done|]; naive_solver.
  destruct (String.eqb_spec (tenant_id device) tenant) as [<-|Hne]; simpl.
  2:{ split; [done|]. split; [done|]. intros (d & [= <-] & [Ht _ _]). congruence. }
  destruct (evaluate_trusted_iff tds Htds device policy now Hage) as [Hret Hiff].
  destruct (evaluate_trust tds device policy now) as [p|]; [|done]. simpl.
  split; [by destruct p|]. destruct p; naive_solver.
Qed.

(** C12: the host gate is fail-closed and exact.  With an attestation age that chrono
    can represent, the gate never panics, and it lets a task through exactly when the
    database has a row for the host, of the caller's tenant, attested within the allowed
    age, with firmware that is signed when the policy requires it and of an allowed version. *)
Theorem host_gate_exact (tds : Z -> exec Duration) (row : result (option DeviceTrust) string)
    (tenant : string) (policy : TrustPolicy) (now : DateTime) :
  seconds_law tds ->
  0 <= max_attestation_age_secs policy <= i64_max / 1000 ->
  is_ret (check_host_trust tds row tenant policy now) = true /\
  (check_host_trust tds row tenant policy now = Ret (Ok tt) <->
   exists device, row = Ok (Some device) /\ host_trusted policy tenant now device).
Proof. apply host_gate_cases. Qed.

Definition demo_reporter : TrustReporter := {| tr_host_id := "h"; tr_tenant_id := "t"; is_sim := false |}.
Definition signed_device : DeviceTrust := {|
  host_id := "h"; tenant_id := "t"; posture := Untrusted;
  firmware := Some {| version := "1.0.0"; fm_sha256 := "abc"; fm_crc32 := 42;
                      ed25519_signature := Some "sig"; partition := PartitionA |};
  sbom_hash := None; last_attestation := Some 0; created_at := 0; updated_at := 0;
|}.
Definition strict_policy : TrustPolicy := load_trust_policy_from_env (fun _ => None).

Lemma host_gate_exact_witness :
  check_host_trust chrono_seconds (Ok (Some signed_device)) "t" strict_policy (from_secs 10) = Ret (Ok tt).
Proof.
  apply (host_gate_exact chrono_seconds (Ok (Some signed_device)) "t" strict_policy (from_secs 10)).
  - apply chrono_seconds_law.
  - by split.
  - exists signed_device. split; [done|]. split; simpl; [done| |].
    + exists 0. by split.
    + eexists. split; [reflexivity|]. simpl. split; [eauto|by left].
Defined.

(** The environment can name an age that [TimeDelta::seconds] does not accept: every
    request for an attested host of the tenant then panics. *)
Lemma huge_age_panics (tds : Z -> exec Duration) (device : DeviceTrust) (policy : TrustPolicy) (now : DateTime) :
  seconds_law tds -> i64_max / 1000 < max_attestation_age_secs policy ->
  is_Some (firmware device) -> is_Some (last_attestation device) ->
  check_host_trust tds (Ok (Some device)) (tenant_id device) policy now = Panic.
Proof.
  intros Htds Hage [fw Hfw] [last Hlast]. unfold check_host_trust, evaluate_trust.
  rewrite String.eqb_refl, Hfw, Hlast. simpl.
  assert (i64_max / 1000 < max_secs policy) as Hmax.
  { unfold max_secs. assert (i64_max / 1000 < i64_max) by done. case_match; lia. }
  by rewrite (seconds_out_of_range _ Htds _ Hmax).
Qed.

(** The evaluation looks at the presence of a signature, not at the posture the worker
    attested: firmware whose signature the worker found to be false is [Untrusted] in its
    attestation and passes the gate of the strict policy. *)
Example failed_signature_is_trusted :
  let d := attest_with_verification (fun _ => "abc") (fun _ => 42) (fun _ _ _ => false) (fun s : string => s)
             demo_reporter 0 (Some []) None (Some tt) (Some "forged") in
  posture d = Untrusted /\
  check_host_trust chrono_seconds (Ok (Some d)) "t" strict_policy (from_secs 10) = Ret (Ok tt).
Proof. split; reflexivity. Qed.

(** A worker attests the version ["unknown"]: a policy that lists versions without that
    one rejects every device a worker attests, whatever its firmware and signature. *)
Lemma attested_version_unknown {Key Sig} (sha : list Byte.byte -> string) crc
    (verify : Key -> list Byte.byte -> Sig -> bool) hex r at_ fw sbom key sig tds policy tenant now :
  seconds_law tds -> 0 <= max_attestation_age_secs policy <= i64_max / 1000 ->
  allowed_firmware_versions policy <> [] -> "unknown" ∉ allowed_firmware_versions policy ->
  check_host_trust tds (Ok (Some (attest_with_verification sha crc verify hex r at_ fw sbom key sig)))
    tenant policy now <> Ret (Ok tt).
Proof.
  intros Htds Hage Hne Hnot Hok. apply (host_gate_cases tds) in Hok as (d & [= <-] & [_ _ (f & Hf & _ & Hv)]);
    [|done..].
  destruct fw; simplify_eq/=. by destruct Hv.
Qed.

(** the policy read from the environment fails closed: whatever the variables hold,
    a signature is required unless it is switched off by exactly ["false"] or ["0"], an age that
    does not parse is an hour, and an unset list of versions allows every version. *)
Theorem env_policy_fails_closed (env : string -> option string) :
  let p := load_trust_policy_from_env env in
  (require_firmware_signature p = false <->
     env "ROZ_TRUST_REQUIRE_FW_SIG" = Some "false" \/ env "ROZ_TRUST_REQUIRE_FW_SIG" = Some "0") /\
  ((env "ROZ_TRUST_MAX_ATTESTATION_AGE_SECS" ≫= parse_usize) = None -> max_attestation_age_secs p = 3600) /\
  (env "ROZ_TRUST_ALLOWED_FW_VERSIONS" = None -> allowed_firmware_versions p = []) /\
  "" ∉ allowed_firmware_versions p.
Proof.
  simpl. split_and!.
  - destruct (env _) as [v|]; [|naive_solver]. rewrite negb_false_iff, orb_true_iff, !String.eqb_eq.
    naive_solver.
  - by intros ->.
  - by intros ->.
  - destruct (env "ROZ_TRUST_ALLOWED_FW_VERSIONS") as [s|]; [|by apply not_elem_of_nil].
    rewrite list_elem_of_In, filter_In. by intros [_ H].
Qed.
