(* ===== verification/Approvals.v ===== *)
(** * Human approval of tool calls

    roz-agent/agent_loop/approvals.rs, the approval and result maps of dispatch/remote.rs and
    the [ApprovalRuntimeHandle] of session_runtime/mod.rs: the merge of an operator's
    modifier into the parameters of a call, the registry of pending approvals that the
    clones of a handle share, and the gate a call waits at. *)

From Stdlib Require Import Ascii.
From S2P Require Import Prelude Float64 Json SafetyFilter Guards.

(** ** feedback.rs *)

Inductive DenialCategory : Type := SafetyConcern | IncorrectPlan | WrongTarget | NotNow | NeedsMoreInfo | Other.

Record Modification : Type := {
  field : string;
  old_value : string;
  new_value : string;
  mod_reason : option string;
}.

Inductive ApprovalOutcome : Type :=
| OutApproved
| OutDenied (reason : option string) (category : option DenialCategory)
| OutModified (modifications : list Modification)
| OutPartialApproval (approved_steps denied_steps : list Z).

(** ** Merging a modifier

    The code matches on the constructors of [serde_json::Value]; a number is any of the
    three representations of [json]. *)

Definition json_value_kind (value : json) : string :=
  match value with
  | Null => "null"
  | JBool _ => "bool"
  | JUint _ | JNegInt _ | JFloat _ _ => "number"
  | JString _ => "string"
  | JArray _ => "array"
  | JObject _ => "object"
  end.

(** [value == value] on values that are not both arrays or both objects; a float equals a
    float as [f64]s do. *)
Definition scalar_eqb (a b : json) : bool :=
  match a, b with
  | Null, Null => true
  | JBool x, JBool y => Bool.eqb x y
  | JUint x, JUint y | JNegInt x, JNegInt y => x =? y
  | JFloat x _, JFloat y _ => f64_eq x y
  | JString x, JString y => String.eqb x y
  | _, _ => false
  end.

Definition merge_scalars (base modifier : json) : result json string :=
  match base, modifier with
  | JObject _, _ => Err "modifier cannot replace an object input with a non-object value"
  | _, JObject _ => Err "modifier cannot introduce a new object where the original input was not an object"
  | JArray _, _ => Err "modifier cannot replace an array input with a non-array value"
  | _, JArray _ => Err "modifier cannot introduce a new array where the original input was not an array"
  | _, _ =>
      if String.eqb (json_value_kind base) (json_value_kind modifier) then Ok modifier
      else Err ("modifier cannot change value type from '" +:+ json_value_kind base +:+ "' to '" +:+
                json_value_kind modifier +:+ "'")
  end.

Section MergeLoops.
Context (merge : json -> json -> result json string).

(** The loop over the modifier's members: [remove] followed by [insert] of the same key
    leaves a key-ordered map with the value replaced. *)
Fixpoint merge_members (base_map modifier_map : list (string * json)) : result (list (string * json)) string :=
  match modifier_map with
  | [] => Ok base_map
  | (key, value) :: modifier_map =>
      match get_member key base_map with
      | None => Err ("modifier attempted to add unknown field '" +:+ key +:+ "'")
      | Some existing =>
          let? merged := merge existing value in
          merge_members (set_member key merged base_map) modifier_map
      end
  end.

Fixpoint merge_items (base_items modifier_items : list json) {struct modifier_items} : result (list json) string :=
  match base_items, modifier_items with
  | existing :: base_items, value :: modifier_items =>
      let? x := merge existing value in
      let? xs := merge_items base_items modifier_items in
      Ok (x :: xs)
  | _, _ => Ok []
  end.
End MergeLoops.

Fixpoint merge_approval_modifier_into_value (base modifier : json) {struct modifier} : result json string :=
  match base, modifier with
  | JObject base_map, JObject modifier_map =>
      let? m :=
        (fix go base_map modifier_map {struct modifier_map} :=
           match modifier_map with
           | [] => Ok base_map
           | (key, value) :: modifier_map =>
               match get_member key base_map with
               | None => Err ("modifier attempted to add unknown field '" +:+ key +:+ "'")
               | Some existing =>
                   let? merged := merge_approval_modifier_into_value existing value in
                   go (set_member key merged base_map) modifier_map
               end
           end) base_map modifier_map in
      Ok (JObject m)
  | JArray base_items, JArray modifier_items =>
      if negb (length base_items =? length modifier_items)%nat then
        Err ("modifier cannot change array length from " +:+ pretty (length base_items) +:+ " to " +:+
             pretty (length modifier_items))
      else
        let? l :=
          (fix go base_items modifier_items {struct modifier_items} :=
             match base_items, modifier_items with
             | existing :: base_items, value :: modifier_items =>
                 let? x := merge_approval_modifier_into_value existing value in
                 let? xs := go base_items modifier_items in
                 Ok (x :: xs)
             | _, _ => Ok []
             end) base_items modifier_items in
        Ok (JArray l)
  | _, _ => merge_scalars base modifier
  end.

Notation merge := merge_approval_modifier_into_value.

Lemma merge_object b m : merge (JObject b) (JObject m) =
  let? r := merge_members merge b m in Ok (JObject r).
Proof. reflexivity. Qed.

Lemma merge_array b m : merge (JArray b) (JArray m) =
  if negb (length b =? length m)%nat then
    Err ("modifier cannot change array length from " +:+ pretty (length b) +:+ " to " +:+ pretty (length m))
  else let? r := merge_items merge b m in Ok (JArray r).
Proof. reflexivity. Qed.

(** [base.to_string()] is serde_json's: an argument. *)
Section Changes.
Context (to_string : json -> string).

Definition leaf_change (path : string) (base modifier : json) : list Modification :=
  if scalar_eqb base modifier then []
  else [{| field := if String.eqb path "" then "$" else path;
           old_value := to_string base; new_value := to_string modifier; mod_reason := None |}].

(** The list holds what the call appends to [modifications]. *)
Fixpoint collect_modifier_changes (base modifier : json) (path : string) {struct modifier} : list Modification :=
  match base, modifier with
  | JObject base_map, JObject modifier_map =>
      (fix go modifier_map :=
         match modifier_map with
         | [] => []
         | (key, value) :: modifier_map =>
             (match get_member key base_map with
              | Some existing =>
                  let next_path := if String.eqb path "" then key else path +:+ "." +:+ key in
                  collect_modifier_changes existing value next_path
              | None => []
              end ++ go modifier_map)%list
         end) modifier_map
  | JArray base_items, JArray modifier_items =>
      (fix go (index : nat) base_items modifier_items {struct modifier_items} :=
         match base_items, modifier_items with
         | existing :: base_items, value :: modifier_items =>
             let next_path :=
               if String.eqb path "" then "[" +:+ pretty index +:+ "]"
               else path +:+ "[" +:+ pretty index +:+ "]" in
             (collect_modifier_changes existing value next_path ++ go (S index) base_items modifier_items)%list
         | _, _ => []
         end) 0%nat base_items modifier_items
  | _, _ => leaf_change path base modifier
  end.

(** ** dispatch/remote.rs: the decision *)

Record ApprovalDecision : Type := { approved : bool; modifier : option json }.

Definition approval_outcome_for_decision (base : json) (decision : ApprovalDecision)
    (denial_reason : option string) : ApprovalOutcome :=
  if negb (approved decision) then OutDenied denial_reason None
  else match modifier decision with
       | None => OutApproved
       | Some m =>
           match collect_modifier_changes base m "" with
           | [] => OutApproved
           | modifications => OutModified modifications
           end
       end.
End Changes.

(** ** The registry of pending approvals

    [PendingApprovals] is a map behind a mutex that every clone of the handle shares: the
    state has one map.  A sender is the number of its oneshot channel; [chan] says what the
    receiver of a channel finds. *)

Inductive channel : Type :=
| Waiting
| Sent (d : ApprovalDecision)
| SenderDropped.

Record Registry : Type := {
  pending : gmap string nat;
  chan : nat -> channel;
  receiver_alive : nat -> bool;
  next_channel : nat;
}.

Definition new_registry : Registry := {|
  pending := ∅;
  chan := fun _ => SenderDropped;
  receiver_alive := fun _ => false;
  next_channel := 0;
|}.

Definition upd {A} (f : nat -> A) (n : nat) (x : A) : nat -> A := fun m => if (m =? n)%nat then x else f m.

(** Dropping a sender that has not sent closes its channel. *)
Definition drop_sender (c : channel) : channel :=
  match c with Waiting => SenderDropped | c => c end.

Definition drop_senders (ns : list nat) (f : nat -> channel) : nat -> channel :=
  fun m => if bool_decide (m ∈ ns) then drop_sender (f m) else f m.

(** [oneshot::channel()] followed by [register_pending_approval]: the replaced sender of the
    same identifier is dropped. *)
Definition register_pending_approval (r : Registry) (approval_id : string) : nat * Registry :=
  let n := next_channel r in
  let old := match pending r !! approval_id with Some o => [o] | None => [] end in
  (n, {| pending := <[approval_id := n]> (pending r);
         chan := upd (drop_senders old (chan r)) n Waiting;
         receiver_alive := upd (receiver_alive r) n true;
         next_channel := S n |}).

(** [tx.send(..).is_ok()]: the value arrives when the receiver is alive. *)
Definition resolve_approval (r : Registry) (approval_id : string) (approved_ : bool) (modifier_ : option json)
    : bool * Registry :=
  match pending r !! approval_id with
  | None => (false, r)
  | Some n =>
      let d := {| approved := approved_; modifier := modifier_ |} in
      let ok := receiver_alive r n in
      (ok, {| pending := delete approval_id (pending r);
              chan := upd (chan r) n (if ok then Sent d else SenderDropped);
              receiver_alive := receiver_alive r;
              next_channel := next_channel r |})
  end.

Definition remove_pending_approval (r : Registry) (approval_id : string) : bool * Registry :=
  match pending r !! approval_id with
  | None => (false, r)
  | Some n =>
      (true, {| pending := delete approval_id (pending r);
                chan := drop_senders [n] (chan r);
                receiver_alive := receiver_alive r;
                next_channel := next_channel r |})
  end.

Definition clear_pending_approvals (r : Registry) : Registry := {|
  pending := ∅;
  chan := drop_senders (map snd (map_to_list (pending r))) (chan r);
  receiver_alive := receiver_alive r;
  next_channel := next_channel r;
|}.

(** The incoming map holds the senders of channels that were made elsewhere: each is a
    channel this registry has not seen. *)
Definition replace_pending_approvals (r : Registry) (ids : list string) : Registry :=
  fold_left (fun r id => (register_pending_approval r id).2) ids (clear_pending_approvals r).

(** The waiter gives up: its receiver is dropped. *)
Definition drop_receiver (r : Registry) (n : nat) : Registry := {|
  pending := pending r;
  chan := chan r;
  receiver_alive := upd (receiver_alive r) n false;
  next_channel := next_channel r;
|}.

(** ** The gate *)

Record PendingApprovalRequest : Type := {
  pr_task_id : string;
  pr_tool_call_id : string;
  pr_tool_name : string;
  pr_tool_input : json;
  pr_reason : message;
  pr_timeout_secs : Z;
}.

Inductive ActivityState : Type := Thinking | CallingTool | Idle | WaitingApproval.

Inductive PresenceLevel : Type := Full | Mini | Hidden.

Definition presence_level_as_str (l : PresenceLevel) : string :=
  match l with Full => "full" | Mini => "mini" | Hidden => "hidden" end.

Inductive PresenceSignal : Type :=
| PresenceHint (level : PresenceLevel) (reason : string)
| ActivityUpdate (state : ActivityState) (detail : string) (progress : option f64)
| ApprovalRequested (approval_id action : string) (reason : message) (timeout_secs : Z)
| ApprovalResolved (approval_id : string) (outcome : ApprovalOutcome).

(** How the wait for the receiver ended. *)
Inductive wait_end : Type :=
| WaitAnswered (d : ApprovalDecision)
| WaitClosed
| WaitTimedOut
| WaitCancelled.

(** Which ends are possible when the channel of the waiter holds [c]: the timeout polls
    the receiver first, and cancellation needs a token. *)
Definition wait_possible (has_token : bool) (c : channel) (e : wait_end) : Prop :=
  match e with
  | WaitAnswered d => c = Sent d
  | WaitClosed => c = SenderDropped
  | WaitTimedOut => c = Waiting
  | WaitCancelled => has_token = true
  end.

Definition decision_of (e : wait_end) : ApprovalDecision * option string :=
  let denied := {| approved := false; modifier := None |} in
  match e with
  | WaitAnswered v => (v, if approved v then None else Some "denied by user")
  | WaitClosed => (denied, Some "approval channel closed")
  | WaitTimedOut => (denied, Some "approval timed out")
  | WaitCancelled => (denied, Some "approval wait cancelled")
  end.

(** What the gate does to the registry when the wait ends on channel [n]. *)
Definition after_wait (r : Registry) (approval_id : string) (n : nat) (e : wait_end) : Registry :=
  let r := drop_receiver r n in
  match e with
  | WaitTimedOut | WaitCancelled => (remove_pending_approval r approval_id).2
  | _ => r
  end.

Record ToolResult : Type := {
  tr_output : json;
  tr_error : option string;
  exit_code : option Z;
  truncated : bool;
  duration_ms : option Z;
}.

Definition tool_success (output : json) : ToolResult :=
  {| tr_output := output; tr_error := None; exit_code := None; truncated := false; duration_ms := None |}.

Definition tool_error (message : string) : ToolResult :=
  {| tr_output := Null; tr_error := Some message; exit_code := None; truncated := false; duration_ms := None |}.

Inductive ApprovalGateResult : Type :=
| GateApproved (call : ToolCall json)
| GateRejected (r : ToolResult).

Definition with_params (call : ToolCall json) (ps : json) : ToolCall json :=
  {| tc_id := tc_id call; tool := tool call; params := ps |}.

Section Gate.
Context (to_string : json -> string).

(** Before the wait: the signals sent, the request of the notification, the channel. *)
Definition gate_opening (call : ToolCall json) (reason : message) (timeout_secs : Z) (task_id : string)
    (r : Registry) : list PresenceSignal * PendingApprovalRequest * nat * Registry :=
  let '(n, r) := register_pending_approval r (tc_id call) in
  ([ActivityUpdate WaitingApproval (tc_id call) None;
    ApprovalRequested (tc_id call) (tool call) reason timeout_secs],
   {| pr_task_id := task_id; pr_tool_call_id := tc_id call; pr_tool_name := tool call;
      pr_tool_input := params call; pr_reason := reason; pr_timeout_secs := timeout_secs |},
   n, r).

(** After it: the resolution that is signalled, and the result. *)
Definition gate_closing (call : ToolCall json) (e : wait_end) : PresenceSignal * ApprovalGateResult :=
  let '(decision, denial_reason) := decision_of e in
  if approved decision then
    match modifier decision with
    | Some m =>
        match merge (params call) m with
        | Err error =>
            (ApprovalResolved (tc_id call)
               (OutDenied (Some ("invalid approval modifier: " +:+ error)) None),
             GateRejected (tool_error ("Invalid approval modifier for " +:+ tool call +:+ ": " +:+ error)))
        | Ok merged =>
            (ApprovalResolved (tc_id call)
               (approval_outcome_for_decision to_string (params call)
                  {| approved := true; modifier := Some m |} None),
             GateApproved (with_params call merged))
        end
    | None => (ApprovalResolved (tc_id call) OutApproved, GateApproved call)
    end
  else
    (ApprovalResolved (tc_id call) (approval_outcome_for_decision to_string (params call) decision denial_reason),
     GateRejected (tool_error ("Permission denied by user for: " +:+ tool call))).

(** What the holders of the other clones do while the call waits. *)
Inductive registry_op : Type :=
| OpResolve (approval_id : string) (approved_ : bool) (modifier_ : option json)
| OpRegister (approval_id : string)
| OpRemove (approval_id : string)
| OpClear
| OpReplace (ids : list string).

Definition apply_op (r : Registry) (o : registry_op) : Registry :=
  match o with
  | OpResolve id a m => (resolve_approval r id a m).2
  | OpRegister id => (register_pending_approval r id).2
  | OpRemove id => (remove_pending_approval r id).2
  | OpClear => clear_pending_approvals r
  | OpReplace ids => replace_pending_approvals r ids
  end.

(** The whole gate: the call registers, others act, the wait ends as [e]. *)
Definition gate_tool_call_for_human_approval (call : ToolCall json) (reason : message) (timeout_secs : Z)
    (task_id : string) (others : list registry_op) (e : wait_end) (r : Registry)
    : list PresenceSignal * PendingApprovalRequest * ApprovalGateResult * Registry :=
  let '(opening, request, n, r) := gate_opening call reason timeout_secs task_id r in
  let r := fold_left apply_op others r in
  let r := after_wait r (tc_id call) n e in
  let '(closing, result) := gate_closing call e in
  ((opening ++ [closing])%list, request, result, r).

Definition gate_channel (call : ToolCall json) (others : list registry_op) (r : Registry) : channel :=
  let '(n, r) := register_pending_approval r (tc_id call) in
  chan (fold_left apply_op others r) n.
End Gate.

(** ** Paths into a value

    A path names a position: a member of an object or an item of an array at each step. *)

Definition is_scalar (v : json) : bool := match v with JArray _ | JObject _ => false | _ => true end.

Definition step : Type := (string + nat)%type.

Fixpoint at_path (v : json) (p : list step) : option json :=
  match p with
  | [] => Some v
  | inl k :: p => match v with JObject m => get_member k m ≫= fun x => at_path x p | _ => None end
  | inr i :: p => match v with JArray l => l !! i ≫= fun x => at_path x p | _ => None end
  end.

(** A map has each key once: documented of [serde_json::Map]. *)
Fixpoint unique_keys (v : json) : Prop :=
  match v with
  | JArray l => (fix go l := match l with [] => True | x :: l => unique_keys x /\ go l end) l
  | JObject m =>
      NoDup (map fst m) /\
      (fix go (m : list (string * json)) := match m with [] => True | (_, x) :: m => unique_keys x /\ go m end) m
  | _ => True
  end.

(** A modifier that may be merged: it names members and items the base has, and its leaves
    have the kind of the base's. *)
Fixpoint fits (base modifier : json) {struct modifier} : bool :=
  match base, modifier with
  | JObject b, JObject m =>
      (fix go (m : list (string * json)) :=
         match m with
         | [] => true
         | (k, x) :: m => match get_member k b with Some y => fits y x | None => false end && go m
         end) m
  | JArray b, JArray m =>
      (length b =? length m)%nat &&
      (fix go b m {struct m} := match b, m with y :: b, x :: m => fits y x && go b m | _, _ => true end) b m
  | _, _ => is_scalar base && is_scalar modifier && String.eqb (json_value_kind base) (json_value_kind modifier)
  end.

Section JsonInd.
Context (P : json -> Prop).
Context (Hscalar : forall v, is_scalar v = true -> P v).
Context (Harray : forall l, Forall P l -> P (JArray l)).
Context (Hobject : forall m, Forall (fun kv : string * json => P kv.2) m -> P (JObject m)).

Fixpoint json_nested_ind (v : json) : P v :=
  match v with
  | JArray l => Harray l ((fix go l : Forall P l :=
      match l with [] => Forall_nil_2 _ | x :: l => Forall_cons_2 _ _ _ (json_nested_ind x) (go l) end) l)
  | JObject m => Hobject m ((fix go m : Forall (fun kv : string * json => P kv.2) m :=
      match m with [] => Forall_nil_2 _ | (k, x) :: m => Forall_cons_2 _ (k, x) _ (json_nested_ind x) (go m) end) m)
  | v => Hscalar v eq_refl
  end.
End JsonInd.

Lemma unique_keys_object m :
  unique_keys (JObject m) <-> NoDup (map fst m) /\ Forall (fun kv => unique_keys kv.2) m.
Proof.
  simpl. apply and_iff_compat_l. induction m as [|[k x] m IH]; [by split; constructor|].
  rewrite Forall_cons, IH. done.
Qed.

Lemma unique_keys_array l : unique_keys (JArray l) <-> Forall unique_keys l.
Proof. simpl. induction l as [|x l IH]; [by split; constructor|]. by rewrite Forall_cons, IH. Qed.

Lemma fits_object b m : fits (JObject b) (JObject m) = true <->
  Forall (fun kv => exists y, get_member kv.1 b = Some y /\ fits y kv.2 = true) m.
Proof.
  simpl. induction m as [|[k x] m IH]; [by split; [constructor|]|].
  rewrite Forall_cons, andb_true_iff, IH. simpl. destruct (get_member k b); naive_solver.
Qed.

Lemma fits_array b m : fits (JArray b) (JArray m) = true <-> Forall2 (fun y x => fits y x = true) b m.
Proof.
  simpl. rewrite andb_true_iff, Nat.eqb_eq. revert b.
  induction m as [|x m IH]; intros [|y b]; simpl.
  1-3: split; [intros [H _]; try done|intros H; inversion H]; done || constructor.
  rewrite andb_true_iff, Forall2_cons, <- IH. naive_solver.
Qed.

Lemma get_member_None {A} k (m : list (string * A)) : get_member k m = None <-> k ∉ map fst m.
Proof.
  induction m as [|[k' v] m IH]; simpl; [split; [by intros _ ?%not_elem_of_nil|done]|].
  rewrite not_elem_of_cons, <- IH. destruct (String.eqb_spec k' k); naive_solver.
Qed.

(** ** What a merge does *)

Lemma merge_members_spec (f : json -> json -> result json string) m : forall b,
  NoDup (map fst m) ->
  match merge_members f b m with
  | Ok r => forall k,
      match get_member k m with
      | None => get_member k r = get_member k b
      | Some v => exists x y, get_member k b = Some x /\ f x v = Ok y /\ get_member k r = Some y
      end
  | Err _ => exists k v, (k, v) ∈ m /\
      (get_member k b = None \/ exists x, get_member k b = Some x /\ is_ok (f x v) = false)
  end.
Proof.
  induction m as [|[k v] m IH]; intros b Hnd; simpl; [done|].
  inversion Hnd as [|? ? Hk Hnd']; subst.
  destruct (get_member k b) as [x|] eqn:Hb.
  2:{ exists k, v. split; [by left|by left]. }
  destruct (f x v) as [y|e] eqn:Hf; simpl.
  2:{ exists k, v. split; [by left|]. right. exists x. by rewrite Hf. }
  specialize (IH (set_member k y b) Hnd').
  destruct (merge_members f (set_member k y b) m) as [r|e].
  - intros k'. specialize (IH k'). destruct (String.eqb_spec k k') as [<-|Hne].
    + rewrite (proj2 (get_member_None k m)) in IH by done.
      rewrite IH, get_set_member, String.eqb_refl. eauto.
    + destruct (get_member k' m); rewrite get_set_member, (proj2 (String.eqb_neq _ _) Hne) in IH; done.
  - destruct IH as (k' & v' & Hin & Hor). exists k', v'. split; [by right|].
    rewrite get_set_member in Hor. destruct (String.eqb_spec k k') as [<-|Hne]; [|done].
    destruct Hk. apply list_elem_of_fmap. by exists (k, v').
Qed.

Lemma merge_items_spec (f : json -> json -> result json string) m : forall b,
  length b = length m ->
  match merge_items f b m with
  | Ok r => length r = length b /\
      forall i x v, b !! i = Some x -> m !! i = Some v -> exists y, f x v = Ok y /\ r !! i = Some y
  | Err _ => exists i x v, b !! i = Some x /\ m !! i = Some v /\ is_ok (f x v) = false
  end.
Proof.
  induction m as [|v m IH]; intros [|x b] Hlen; simplify_eq/=; [by split|].
  destruct (f x v) as [y|e] eqn:Hf; simpl.
  2:{ exists 0%nat, x, v. by rewrite Hf. }
  specialize (IH b Hlen). destruct (merge_items f b m) as [r|e]; simpl.
  - destruct IH as [Hl IH]. split; [by f_equal/=|]. intros [|i] x' v' Hx Hv; simplify_eq/=; eauto.
  - destruct IH as (i & x' & v' & H). exists (S i), x', v'. done.
Qed.

Lemma scalar_pair_merge base m : is_scalar base && is_scalar m = true ->
  merge base m = merge_scalars base m.
Proof. by destruct base, m. Qed.

Lemma get_member_elem {A} k (m : list (string * A)) v : get_member k m = Some v -> (k, v) ∈ m.
Proof.
  induction m as [|[k' v'] m IH]; simpl; [done|].
  destruct (String.eqb_spec k' k) as [->|]; [intros [= ->]; by left|]. intros. right. by apply IH.
Qed.

Lemma elem_get_member {A} k (m : list (string * A)) v :
  NoDup (map fst m) -> (k, v) ∈ m -> get_member k m = Some v.
Proof.
  induction m as [|[k' v'] m IH]; intros Hnd Hin; [by apply elem_of_nil in Hin|].
  simpl in *. inversion Hnd as [|? ? Hk Hnd']; subst. apply elem_of_cons in Hin as [[= -> ->]|Hin].
  - by rewrite String.eqb_refl.
  - destruct (String.eqb_spec k' k) as [->|]; [|by apply IH].
    destruct Hk. apply list_elem_of_fmap. by exists (k, v).
Qed.

Lemma merge_fits m : forall base, unique_keys m -> is_ok (merge base m) = fits base m.
Proof.
  induction m as [m Hm|m IH|m IH] using json_nested_ind; intros base Hu.
  - destruct m; try done; destruct base; try done; simpl; by case_match.
  - destruct base as [| | | | | |b|b]; try done. apply unique_keys_array in Hu.
    rewrite merge_array. apply eq_iff_eq_true. rewrite fits_array.
    destruct (Nat.eqb_spec (length b) (length m)) as [Hlen|Hlen]; simpl.
    2:{ split; [done|]. by intros H%Forall2_length. }
    pose proof (merge_items_spec merge m b Hlen) as Hspec.
    destruct (merge_items merge b m) as [r|e]; simpl.
    + split; [intros _|done]. destruct Hspec as [_ Hspec]. apply Forall2_same_length_lookup.
      split; [done|]. intros i x v Hx Hv. destruct (Hspec i x v Hx Hv) as (y & Hy & _).
      rewrite Forall_lookup in IH, Hu. rewrite <- (IH i v Hv) by eauto. by rewrite Hy.
    + split; [done|]. intros Hf. destruct Hspec as (i & x & v & Hx & Hv & Hno).
      rewrite Forall_lookup in IH, Hu. rewrite (IH i v Hv) in Hno by eauto.
      rewrite (Forall2_lookup_lr _ _ _ _ _ _ Hf Hx Hv) in Hno. done.
  - destruct base as [| | | | | |b|b]; try done. apply unique_keys_object in Hu as [Hnd Hu].
    rewrite merge_object. apply eq_iff_eq_true. rewrite fits_object.
    rewrite Forall_forall in IH, Hu |- *. pose proof (merge_members_spec merge m b Hnd) as Hspec.
    destruct (merge_members merge b m) as [r|e]; simpl.
    + split; [intros _|done]. intros [k v] Hin. specialize (Hspec k).
      rewrite (elem_get_member k m v Hnd Hin) in Hspec. destruct Hspec as (x & y & Hx & Hy & _).
      exists x. split; [done|]. rewrite <- (IH _ Hin) by (apply (Hu _ Hin)). simpl. by rewrite Hy.
    + split; [done|]. intros Hf. destruct Hspec as (k & v & Hin & Hno).
      destruct (Hf _ Hin) as (y & Hy & Hfy). simpl in *. destruct Hno as [|(x & Hx & Hno)]; simplify_eq.
      rewrite (IH _ Hin) in Hno by (apply (Hu _ Hin)). simpl in *. congruence.
Qed.

(** A merge changes what the modifier names, and nothing else: a scalar of the result is
    the modifier's where the modifier reaches, and the base's elsewhere. *)
Lemma merge_reads m : forall base r, unique_keys m -> merge base m = Ok r ->
  forall p x, is_scalar x = true ->
  at_path r p = Some x <-> at_path m p = Some x \/ (at_path m p = None /\ at_path base p = Some x).
Proof.
  induction m as [m Hm|m IH|m IH] using json_nested_ind; intros base r Hu Hr p x Hx.
  - assert (r = m /\ is_scalar base = true) as [-> Hb].
    { destruct m; try done; destruct base; try done; vm_compute in Hr; by simplify_eq. }
    destruct p as [|[k|i] p]; simpl; [naive_solver| |]; destruct m, base; naive_solver.
  - destruct base as [| | | | | |b|b]; try done. apply unique_keys_array in Hu.
    rewrite merge_array in Hr. destruct (Nat.eqb_spec (length b) (length m)) as [Hlen|]; [|done].
    simpl in Hr. pose proof (merge_items_spec merge m b Hlen) as Hspec.
    destruct (merge_items merge b m) as [r'|]; simplify_eq/=. destruct Hspec as [Hlr Hspec].
    rewrite Forall_lookup in IH, Hu.
    destruct p as [|[k|i] p]; simpl; [by split; [intros [= <-]|intros [[= <-]|[? ?]]]|naive_solver|].
    destruct (b !! i) as [y|] eqn:Hb.
    + destruct (lookup_lt_is_Some_2 m i) as [v Hv]; [apply lookup_lt_Some in Hb; lia|].
      destruct (Hspec i y v Hb Hv) as (z & Hz & ->). rewrite Hv. simpl.
      by apply (IH i v Hv y z (Hu i v Hv) Hz).
    + apply lookup_ge_None in Hb.
      rewrite (lookup_ge_None_2 r' i), (lookup_ge_None_2 m i) by lia. simpl. naive_solver.
  - destruct base as [| | | | | |b|b]; try done. apply unique_keys_object in Hu as [Hnd Hu].
    rewrite merge_object in Hr. pose proof (merge_members_spec merge m b Hnd) as Hspec.
    destruct (merge_members merge b m) as [r'|]; simplify_eq/=. rewrite Forall_forall in IH, Hu.
    destruct p as [|[k|i] p]; simpl; [by split; [intros [= <-]|intros [[= <-]|[? ?]]]| |naive_solver].
    specialize (Hspec k). destruct (get_member k m) as [v|] eqn:Hv; simpl.
    + destruct Hspec as (y & z & Hy & Hz & ->). rewrite Hy. simpl.
      apply get_member_elem in Hv. by apply (IH _ Hv y z (Hu _ Hv) Hz).
    + rewrite Hspec. naive_solver.
Qed.

(** ** What is reported of a merge *)

Lemma collect_nil (to_string : json -> string) m : forall base path,
  unique_keys m -> fits base m = true ->
  collect_modifier_changes to_string base m path = [] <->
  forall p x y, is_scalar y = true -> at_path base p = Some x -> at_path m p = Some y -> scalar_eqb x y = true.
Proof.
  induction m as [m Hm|m IH|m IH] using json_nested_ind; intros base path Hu Hf.
  - assert (collect_modifier_changes to_string base m path = leaf_change to_string path base m) as ->.
    { by destruct m, base. }
    unfold leaf_change. split.
    + intros Hc p x y Hy Hx Hp. destruct (scalar_eqb base m) eqn:He; [|done].
      destruct p as [|[k|i] p]; simplify_eq/=; [done| |]; by destruct m.
    + intros H. by rewrite (H [] base m).
  - destruct base as [| | | | | |b|b]; try done. apply unique_keys_array in Hu.
    apply fits_array in Hf. simpl. generalize 0%nat. rewrite Forall_lookup in IH, Hu.
    assert (Hgo : forall j,
      (fix go (index : nat) (base_items modifier_items : list json) {struct modifier_items} : list Modification :=
         match base_items, modifier_items with
         | existing :: base_items0, value :: modifier_items0 =>
             (collect_modifier_changes to_string existing value
               (if String.eqb path "" then "[" +:+ pretty index +:+ "]" else path +:+ "[" +:+ pretty index +:+ "]")
              ++ go (S index) base_items0 modifier_items0)%list
         | _, _ => []
         end) j b m = [] <->
      (forall i x v, b !! i = Some x -> m !! i = Some v ->
         forall p y z, is_scalar z = true -> at_path x p = Some y -> at_path v p = Some z -> scalar_eqb y z = true)).
    { induction Hf as [|x v b m Hxv Hbm IHf]; intros j; [split; [by intros _ []|done]|].
      rewrite app_nil, IHf, (IH 0%nat v eq_refl x _ (Hu 0%nat v eq_refl) Hxv).
      2:{ intros i w Hw. apply (IH (S i) w Hw). }
      2:{ intros i w Hw. apply (Hu (S i) w Hw). }
      split.
      - intros [H0 Hs] [|i] x' v' Hx' Hv'; simplify_eq/=; [exact H0|eauto].
      - intros H. split; [by apply (H 0%nat)|]. intros i x' v' Hx' Hv'. by apply (H (S i)). }
    intros j. rewrite Hgo. split.
    + intros H p x y Hy Hx Hp. destruct p as [|[k|i] p]; simplify_eq/=; try done.
      destruct (b !! i) eqn:Hbi, (m !! i) eqn:Hmi; simplify_eq/=. eauto.
    + intros H i x v Hx Hv p y z Hz Hy Hvz. apply (H (inr i :: p)); simpl; rewrite ?Hx, ?Hv; done.
  - destruct base as [| | | | | |b|b]; try done. apply unique_keys_object in Hu as [Hnd Hu].
    apply fits_object in Hf. simpl. rewrite Forall_forall in IH, Hu, Hf.
    assert (Hgo : forall l, (forall kv, kv ∈ l -> kv ∈ m) ->
      (fix go (modifier_map : list (string * json)) : list Modification :=
         match modifier_map with
         | [] => []
         | (key, value) :: modifier_map0 =>
             (match get_member key b with
              | Some existing => collect_modifier_changes to_string existing value
                  (if String.eqb path "" then key else path +:+ "." +:+ key)
              | None => []
              end ++ go modifier_map0)%list
         end) l = [] <->
      (forall k v, (k, v) ∈ l -> forall x, get_member k b = Some x ->
         forall p y z, is_scalar z = true -> at_path x p = Some y -> at_path v p = Some z -> scalar_eqb y z = true)).
    { induction l as [|[k v] l IHl]; intros Hl; [split; [by intros _ k v ?%not_elem_of_nil|done]|].
      rewrite app_nil, IHl by (intros; apply Hl; by right).
      assert ((k, v) ∈ m) as Hin by (apply Hl; left).
      destruct (Hf _ Hin) as (x & Hx & Hfx). simpl in Hx, Hfx. rewrite Hx.
      rewrite (IH _ Hin x _ (Hu _ Hin) Hfx). simpl. split.
      - intros [H0 Hs] k' v' [[= -> ->]|?]%elem_of_cons x' Hx'; simplify_eq; eauto.
      - intros H. split; [by apply (H k v); [left|]|]. intros k' v' ? . apply H. by right. }
    rewrite Hgo by done. split.
    + intros H p x y Hy Hx Hp. destruct p as [|[k|i] p]; simplify_eq/=; try done.
      destruct (get_member k b) eqn:Hbk, (get_member k m) eqn:Hmk; simplify_eq/=.
      apply get_member_elem in Hmk. eauto.
    + intros H k v Hin x Hx p y z Hz Hy Hv. apply (H (inl k :: p)); simpl; [done|by rewrite Hx|].
      by rewrite (elem_get_member k m v Hnd Hin).
Qed.

(** merging an operator's modifier.  The merge succeeds exactly when the modifier
    names existing members and items and keeps the kind of every leaf; the result then has
    the modifier's leaves where the modifier reaches and the call's own everywhere else; and
    the outcome reported is a plain approval exactly when no leaf changes. *)
Theorem modifier_merge_exact (to_string : json -> string) (base m : json) :
  unique_keys m ->
  is_ok (merge_approval_modifier_into_value base m) = fits base m /\
  forall r, merge_approval_modifier_into_value base m = Ok r ->
    (forall p x, is_scalar x = true ->
       at_path r p = Some x <-> at_path m p = Some x \/ (at_path m p = None /\ at_path base p = Some x)) /\
    (approval_outcome_for_decision to_string base {| approved := true; modifier := Some m |} None = OutApproved <->
       forall p x y, is_scalar y = true -> at_path base p = Some x -> at_path m p = Some y -> scalar_eqb x y = true).
Proof.
  intros Hu. split; [by apply merge_fits|]. intros r Hr.
  assert (fits base m = true) as Hf by (by rewrite <- merge_fits, Hr).
  split; [by apply merge_reads|]. unfold approval_outcome_for_decision. simpl.
  rewrite <- (collect_nil to_string m base "") by done.
  by destruct (collect_modifier_changes _ _ _ _).
Qed.

Lemma modifier_merge_exact_witness :
  merge (JObject [("speed", JUint 3); ("target", JObject [("x", JUint 1); ("y", JUint 2)])])
    (JObject [("target", JObject [("y", JUint 5)])])
  = Ok (JObject [("speed", JUint 3); ("target", JObject [("x", JUint 1); ("y", JUint 5)])]) /\
  is_ok (merge (JObject [("speed", JUint 3)]) (JObject [("force", JUint 5)])) = false.
Proof.
  split; [reflexivity|].
  rewrite (proj1 (modifier_merge_exact (fun _ => "") (JObject [("speed", JUint 3)]) (JObject [("force", JUint 5)])
    ltac:(split; [by repeat constructor; apply not_elem_of_nil|done]))). reflexivity.
Defined.

(** ** The registry *)

(** A pending sender waits on its own channel; numbers are never reused. *)
Record registry_inv (r : Registry) : Prop := {
  ri_fresh : forall id n, pending r !! id = Some n -> (n < next_channel r)%nat;
  ri_waiting : forall id n, pending r !! id = Some n -> chan r n = Waiting;
  ri_distinct : forall id id' n, pending r !! id = Some n -> pending r !! id' = Some n -> id = id';
}.

Lemma new_registry_inv : registry_inv new_registry.
Proof. split; intros *; simpl; by rewrite lookup_empty. Qed.

(** The channel of a waiter: it is waiting and its sender is in the map under its
    identifier, or no sender of the map is its own. *)
Definition waits (r : Registry) (id : string) (n : nat) : Prop :=
  chan r n = Waiting /\ pending r !! id = Some n /\ receiver_alive r n = true.

Definition settled (r : Registry) (n : nat) (c : channel) : Prop :=
  chan r n = c /\ c <> Waiting /\ (n < next_channel r)%nat /\ forall id, pending r !! id <> Some n.

Lemma upd_same {A} (f : nat -> A) n x : upd f n x n = x.
Proof. unfold upd. by rewrite Nat.eqb_refl. Qed.

Lemma upd_other {A} (f : nat -> A) n m x : m <> n -> upd f n x m = f m.
Proof. intros H. unfold upd. by rewrite (proj2 (Nat.eqb_neq _ _) H). Qed.

Lemma drop_senders_other ns f n : n ∉ ns -> drop_senders ns f n = f n.
Proof. intros H. unfold drop_senders. by rewrite bool_decide_false. Qed.

Lemma drop_senders_in ns f n : n ∈ ns -> drop_senders ns f n = drop_sender (f n).
Proof. intros H. unfold drop_senders. by rewrite bool_decide_true. Qed.

Lemma drop_senders_settled ns f n : f n <> Waiting -> drop_senders ns f n = f n.
Proof. intros H. unfold drop_senders. case_bool_decide; [|done]. by destruct (f n). Qed.

Lemma elem_of_senders (m : gmap string nat) n :
  n ∈ map snd (map_to_list m) <-> exists id, m !! id = Some n.
Proof.
  rewrite list_elem_of_fmap. split.
  - intros ([id n'] & -> & H%elem_of_map_to_list). eauto.
  - intros [id H]. exists (id, n). split; [done|]. by apply elem_of_map_to_list.
Qed.

Lemma register_inv r id : registry_inv r -> registry_inv (register_pending_approval r id).2.
Proof.
  intros [Hf Hw Hd]. split; simpl.
  - intros id' n. rewrite lookup_insert_Some. intros [[_ <-]|[_ H%Hf]]; lia.
  - intros id' n. rewrite lookup_insert_Some. intros [[_ <-]|[Hne H]]; [by rewrite upd_same|].
    assert (n <> next_channel r) by (apply Hf in H; lia). rewrite upd_other by done.
    rewrite drop_senders_other; [by eapply Hw|]. destruct (pending r !! id) as [o|] eqn:Ho; [|set_solver].
    intros ->%list_elem_of_singleton. by apply Hne, (Hd _ _ _ Ho H).
  - intros id1 id2 n. rewrite !lookup_insert_Some.
    intros [[-> H1]|[? H1]] [[-> H2]|[? H2]]; [done|apply Hf in H2; lia|apply Hf in H1; lia|by eapply Hd].
Qed.

Lemma delete_inv r id n f :
  registry_inv r -> pending r !! id = Some n -> (forall m, m <> n -> f m = chan r m) ->
  registry_inv {| pending := delete id (pending r); chan := f;
                  receiver_alive := receiver_alive r; next_channel := next_channel r |}.
Proof.
  intros [Hf Hw Hd] Hn Hc. split; simpl; intros id'.
  - intros m [_ H]%lookup_delete_Some. eauto.
  - intros m [Hne H]%lookup_delete_Some. rewrite Hc; [eauto|]. intros ->. by apply Hne, (Hd _ _ _ Hn H).
  - intros id2 m [_ H1]%lookup_delete_Some [_ H2]%lookup_delete_Some. eauto.
Qed.

Lemma clear_inv r : registry_inv (clear_pending_approvals r).
Proof. split; intros *; simpl; by rewrite lookup_empty. Qed.

Lemma fold_register_inv ids : forall r, registry_inv r ->
  registry_inv (fold_left (fun r id => (register_pending_approval r id).2) ids r).
Proof. induction ids as [|id ids IH]; intros r Hr; simpl; [done|]. by apply IH, register_inv. Qed.

Lemma apply_op_inv r o : registry_inv r -> registry_inv (apply_op r o).
Proof.
  intros Hr. destruct o as [id a m|id|id| |ids]; simpl.
  - unfold resolve_approval. destruct (pending r !! id) as [n|] eqn:Hn; [|done]. simpl.
    apply (delete_inv r id n); [done..|]. intros. by apply upd_other.
  - by apply register_inv.
  - unfold remove_pending_approval. destruct (pending r !! id) as [n|] eqn:Hn; [|done]. simpl.
    apply (delete_inv r id n); [done..|]. intros. apply drop_senders_other. set_solver.
  - apply clear_inv.
  - by apply fold_register_inv, clear_inv.
Qed.

Lemma register_settled r id n c :
  registry_inv r -> settled r n c -> settled (register_pending_approval r id).2 n c.
Proof.
  intros [Hf Hw Hd] (Hc & Hne & Hlt & Hp). split_and!; simpl.
  - rewrite upd_other by lia. by rewrite drop_senders_settled by congruence.
  - done.
  - lia.
  - intros id'. rewrite lookup_insert_Some. intros [[_ ?]|[_ ?]]; [lia|]. by eapply Hp.
Qed.

Lemma fold_register_settled ids n c : forall r, registry_inv r -> settled r n c ->
  settled (fold_left (fun r id => (register_pending_approval r id).2) ids r) n c.
Proof.
  induction ids as [|id ids IH]; intros r Hr Hs; simpl; [done|].
  apply IH; [by apply register_inv|by apply register_settled].
Qed.

Lemma apply_op_settled r o n c : registry_inv r -> settled r n c -> settled (apply_op r o) n c.
Proof.
  intros Hr Hs. pose proof Hs as (Hc & Hne & Hlt & Hp). destruct o as [id a m|id|id| |ids]; simpl.
  - unfold resolve_approval. destruct (pending r !! id) as [k|] eqn:Hk; [|done]. simpl.
    assert (n <> k) by (intros ->; by eapply Hp). split_and!; simpl; [by rewrite upd_other|done..|].
    intros id' [_ H']%lookup_delete_Some. by eapply Hp.
  - by apply register_settled.
  - unfold remove_pending_approval. destruct (pending r !! id) as [k|] eqn:Hk; [|done]. simpl.
    split_and!; simpl; [by rewrite drop_senders_settled by congruence|done..|].
    intros id' [_ H']%lookup_delete_Some. by eapply Hp.
  - split_and!; simpl; [by rewrite drop_senders_settled by congruence|done..|].
    intros id'. by rewrite lookup_empty.
  - apply fold_register_settled; [apply clear_inv|].
    split_and!; simpl; [by rewrite drop_senders_settled by congruence|done..|].
    intros id'. by rewrite lookup_empty.
Qed.

Lemma fold_ops_settled ops n c : forall r, registry_inv r -> settled r n c ->
  settled (fold_left apply_op ops r) n c.
Proof.
  induction ops as [|o ops IH]; intros r Hr Hs; simpl; [done|].
  apply IH; [by apply apply_op_inv|by apply apply_op_settled].
Qed.

(** What an operation does to the channel of the call [id] that waits: nothing, or the
    state the waiter finds. *)
Definition op_effect (id : string) (o : registry_op) : option channel :=
  match o with
  | OpResolve id' a m => if String.eqb id' id then Some (Sent {| approved := a; modifier := m |}) else None
  | OpRegister id' | OpRemove id' => if String.eqb id' id then Some SenderDropped else None
  | OpClear | OpReplace _ => Some SenderDropped
  end.

(** The first operation that concerns the call decides. *)
Definition first_effect (id : string) (ops : list registry_op) : channel :=
  default Waiting (list_find_some (op_effect id) ops).

Lemma clear_settles r id n : registry_inv r -> waits r id n -> settled (clear_pending_approvals r) n SenderDropped.
Proof.
  intros [Hf Hw Hd] (Hc & Hp & Ha). split_and!; simpl; [|done|eauto|].
  - rewrite drop_senders_in by (apply elem_of_senders; eauto). by rewrite Hc.
  - intros id'. by rewrite lookup_empty.
Qed.

Lemma apply_op_waits r o id n : registry_inv r -> waits r id n ->
  match op_effect id o with
  | None => waits (apply_op r o) id n
  | Some c => settled (apply_op r o) n c
  end.
Proof.
  intros Hr Hwt. pose proof Hr as [Hf Hw Hd]. pose proof Hwt as (Hc & Hp & Ha).
  destruct o as [id' a m|id'|id'| |ids]; simpl.
  - unfold resolve_approval. destruct (String.eqb_spec id' id) as [->|Hne].
    + rewrite Hp. simpl. rewrite Ha. split_and!; simpl; [by rewrite upd_same|done|eauto|].
      intros i [Hi H]%lookup_delete_Some. by apply Hi, (Hd _ _ _ Hp H).
    + destruct (pending r !! id') as [k|] eqn:Hk; [|done].
      assert (n <> k) by (intros ->; by apply Hne, (Hd _ _ _ Hk Hp)).
      split_and!; simpl; [by rewrite upd_other|by rewrite lookup_delete_ne|done].
  - destruct (String.eqb_spec id' id) as [->|Hne].
    + assert (n < next_channel r)%nat by eauto. split_and!; simpl; [|done|lia|].
      * rewrite upd_other by lia. rewrite Hp, drop_senders_in by set_solver. by rewrite Hc.
      * intros i. rewrite lookup_insert_Some. intros [[_ ?]|[Hi H']]; [lia|].
        by apply Hi, (Hd _ _ _ Hp H').
    + assert (n < next_channel r)%nat by eauto. split_and!; simpl.
      * rewrite upd_other by lia. rewrite drop_senders_other; [done|].
        destruct (pending r !! id') as [k|] eqn:Hk; [|set_solver].
        intros ->%list_elem_of_singleton. by apply Hne, (Hd _ _ _ Hk Hp).
      * by rewrite lookup_insert_ne.
      * by rewrite upd_other by lia.
  - unfold remove_pending_approval. destruct (String.eqb_spec id' id) as [->|Hne].
    + rewrite Hp. split_and!; simpl; [|done|eauto|].
      * rewrite drop_senders_in by set_solver. by rewrite Hc.
      * intros i [Hi H]%lookup_delete_Some. by apply Hi, (Hd _ _ _ Hp H).
    + destruct (pending r !! id') as [k|] eqn:Hk; [|done].
      assert (n <> k) by (intros ->; by apply Hne, (Hd _ _ _ Hk Hp)).
      split_and!; simpl; [rewrite drop_senders_other; [done|set_solver]|by rewrite lookup_delete_ne|done].
  - by eapply clear_settles.
  - apply fold_register_settled; [apply clear_inv|]. by eapply clear_settles.
Qed.

Lemma fold_ops_waits ops id n : forall r, registry_inv r -> waits r id n ->
  chan (fold_left apply_op ops r) n = first_effect id ops.
Proof.
  unfold first_effect. induction ops as [|o ops IH]; intros r Hr Hw; simpl; [by destruct Hw|].
  pose proof (apply_op_waits r o id n Hr Hw) as Ho. destruct (op_effect id o) as [c|]; simpl.
  - by apply (fold_ops_settled ops n c _ (apply_op_inv r o Hr) Ho).
  - by apply IH; [apply apply_op_inv|].
Qed.

Lemma register_waits r id : registry_inv r ->
  waits (register_pending_approval r id).2 id (register_pending_approval r id).1.
Proof. intros Hr. split_and!; simpl; [by rewrite upd_same|by rewrite lookup_insert_eq|by rewrite upd_same]. Qed.

Lemma gate_channel_first (call : ToolCall json) others r : registry_inv r ->
  gate_channel call others r = first_effect (tc_id call) others.
Proof.
  intros Hr. unfold gate_channel.
  pose proof (register_waits r (tc_id call) Hr) as Hw.
  pose proof (register_inv r (tc_id call) Hr) as Hi.
  destruct (register_pending_approval r (tc_id call)) as [n r']. by apply fold_ops_waits.
Qed.

(** The call a decision lets through. *)
Definition approved_call (call : ToolCall json) (m : option json) (c : ToolCall json) : Prop :=
  match m with
  | None => c = call
  | Some m => exists ps, merge (params call) m = Ok ps /\ c = with_params call ps
  end.

Lemma gate_closing_approved to_string call e sig c :
  gate_closing to_string call e = (sig, GateApproved c) <->
  exists m, e = WaitAnswered {| approved := true; modifier := m |} /\ approved_call call m c /\
    sig = ApprovalResolved (tc_id call)
            (approval_outcome_for_decision to_string (params call) {| approved := true; modifier := m |} None).
Proof.
  unfold gate_closing. split.
  - destruct e as [[[] m]| | |]; simpl; try done. intros H. exists m. split; [done|].
    destruct m as [m|]; simpl in *; [|naive_solver].
    destruct (merge (params call) m) eqn:Hm; naive_solver.
  - intros (m & -> & Ha & ->). simpl. destruct m as [m|]; simpl in *; [|naive_solver].
    destruct Ha as (ps & -> & ->). done.
Qed.

Lemma gate_approves (to_string : json -> string) (call : ToolCall json) (reason : message)
    (timeout_secs : Z) (task_id : string) (others : list registry_op) (has_token : bool) (e : wait_end)
    (r : Registry) (c : ToolCall json) :
  registry_inv r -> wait_possible has_token (gate_channel call others r) e ->
  (exists signals request r',
     gate_tool_call_for_human_approval to_string call reason timeout_secs task_id others e r
     = (signals, request, GateApproved c, r')) <->
  e <> WaitCancelled /\ exists m, approved_call call m c /\
    list_find_some (op_effect (tc_id call)) others = Some (Sent {| approved := true; modifier := m |}).
Proof.
  intros Hr Hp. rewrite gate_channel_first in Hp by done. unfold first_effect in Hp.
  unfold gate_tool_call_for_human_approval, gate_opening.
  destruct (register_pending_approval r (tc_id call)) as [n r0].
  destruct (gate_closing to_string call e) as [sig result] eqn:Hg. split.
  - intros (signals & request & r' & H). simplify_eq. apply gate_closing_approved in Hg as (m & -> & Ha & _).
    split; [done|]. exists m. split; [done|]. simpl in Hp. by destruct (list_find_some _ _); simplify_eq/=.
  - intros (He & m & Ha & Hf). rewrite Hf in Hp. simpl in Hp.
    assert (e = WaitAnswered {| approved := true; modifier := m |}) as ->.
    { destruct e; simplify_eq/=. done. }
    assert (result = GateApproved c) as ->.
    { edestruct (gate_closing_approved to_string call) as [_ H].
      rewrite (H (ex_intro _ m (conj eq_refl (conj Ha eq_refl)))) in Hg. by simplify_eq. }
    eauto.
Qed.

(** What goes on of the parameters [base]: themselves, or, with a modifier, its scalars where
    it reaches and the base's own everywhere else. *)
Definition merged_params (base : json) (m : option json) (ps : json) : Prop :=
  match m with
  | None => ps = base
  | Some m => forall p x, is_scalar x = true ->
      at_path ps p = Some x <-> at_path m p = Some x \/ (at_path m p = None /\ at_path base p = Some x)
  end.

(** The modifier has no key twice (a JSON map). *)
Definition modifier_keys (m : option json) : Prop :=
  match m with None => True | Some m => unique_keys m end.

(** The modifier names only members and items the parameters have, and changes no kind. *)
Definition modifier_fits (base : json) (m : option json) : Prop :=
  match m with None => True | Some m => fits base m = true end.

Lemma approved_call_exact call m : modifier_keys m ->
  ((exists c, approved_call call m c) <-> modifier_fits (params call) m) /\
  forall c, approved_call call m c ->
    tc_id c = tc_id call /\ tool c = tool call /\ merged_params (params call) m (params c).
Proof.
  destruct m as [m|]; simpl; intros Hu; [|split; [split; eauto|by intros c ->]]. split.
  - rewrite <- merge_fits by done. destruct (merge (params call) m) as [ps|e]; simpl; split; try done.
    + intros _. by exists (with_params call ps), ps.
    + by intros (c & ps & ? & _).
  - intros c (ps & Hm & ->). split_and!; try done. intros p x. simpl. by apply merge_reads.
Qed.

(** C13: a call that waits for a human goes on only when a human approved it.  Whatever
    the holders of the other handles do meanwhile, the gate approves exactly when the first
    operation that concerns the call's identifier is a resolution that approves, its modifier,
    if it has one, names only members and items of the call's parameters without changing the
    kind of a value, and the session was not cancelled first; what goes on has the call's
    identifier and tool, and its parameters are the call's own, but for the scalars the modifier
    gives.  A registration of the same identifier, a removal, a clear or a replacement of the
    map before that rejects the call, as do a denial, the timeout and the cancellation. *)
Theorem gate_needs_approval (to_string : json -> string) (call : ToolCall json) (reason : message)
    (timeout_secs : Z) (task_id : string) (others : list registry_op) (has_token : bool) (e : wait_end)
    (r : Registry) :
  registry_inv r -> wait_possible has_token (gate_channel call others r) e ->
  let approves c := exists signals request r',
     gate_tool_call_for_human_approval to_string call reason timeout_secs task_id others e r
     = (signals, request, GateApproved c, r') in
  let resolution m := list_find_some (op_effect (tc_id call)) others
     = Some (Sent {| approved := true; modifier := m |}) in
  (forall m, resolution m -> modifier_keys m) ->
  ((exists c, approves c) <->
     e <> WaitCancelled /\ exists m, resolution m /\ modifier_fits (params call) m) /\
  (forall c, approves c -> exists m, resolution m /\
     tc_id c = tc_id call /\ tool c = tool call /\ merged_params (params call) m (params c)).
Proof.
  cbv zeta. intros Hr Hp Hu.
  assert (forall c, (exists signals request r',
     gate_tool_call_for_human_approval to_string call reason timeout_secs task_id others e r
     = (signals, request, GateApproved c, r')) <->
    e <> WaitCancelled /\ exists m, approved_call call m c /\
    list_find_some (op_effect (tc_id call)) others = Some (Sent {| approved := true; modifier := m |})) as H
    by (intros c; by eapply gate_approves).
  split.
  - split.
    + intros [c Hc]. apply H in Hc as (He & m & Ha & Hf). split; [done|]. exists m. split; [done|].
      apply (approved_call_exact call m); [by apply Hu|by exists c].
    + intros (He & m & Hf & Hm). apply (approved_call_exact call m) in Hm as [c Hc]; [|by apply Hu].
      exists c. apply H. eauto.
  - intros c Hc. apply H in Hc as (He & m & Ha & Hf). exists m. split; [done|].
    apply (approved_call_exact call m); [by apply Hu|done].
Qed.

Definition move : ToolCall json :=
  {| tc_id := "c1"; tool := "move_arm"; params := JObject [("speed", JUint 3)] |}.

Lemma gate_needs_approval_witness :
  let slow := JObject [("speed", JUint 1)] in
  exists c signals request r',
    gate_tool_call_for_human_approval (fun _ => "") move [] 30 "task"
      [OpResolve "other" true None; OpResolve "c1" true (Some slow); OpClear]
      (WaitAnswered {| approved := true; modifier := Some slow |}) new_registry
    = (signals, request, GateApproved c, r').
Proof.
  apply (gate_needs_approval (fun _ => "") move [] 30 "task" _ false); [apply new_registry_inv|reflexivity| |].
  - intros m H. injection H as <-. split; [by repeat constructor; apply not_elem_of_nil|done].
  - split; [done|]. exists (Some (JObject [("speed", JUint 1)])). by split.
Defined.

(** Two calls with the same identifier: the second registration drops the sender of the
    first, which is rejected although the operator approves. *)
Example same_identifier_rejects_first :
  gate_channel move [OpRegister "c1"; OpResolve "c1" true None] new_registry = SenderDropped.
Proof. reflexivity. Qed.

Lemma removed_gone r id a m : (resolve_approval (remove_pending_approval r id).2 id a m).1 = false.
Proof.
  unfold remove_pending_approval. destruct (pending r !! id) as [k|] eqn:Hk; unfold resolve_approval; simpl.
  - by rewrite lookup_delete_eq.
  - by rewrite Hk.
Qed.

(** After a timeout or a cancellation the approval is gone: a late resolution finds nothing. *)
Lemma late_resolution to_string call reason t task others e r signals request result r' a m :
  registry_inv r -> e = WaitTimedOut \/ e = WaitCancelled ->
  gate_tool_call_for_human_approval to_string call reason t task others e r = (signals, request, result, r') ->
  (resolve_approval r' (tc_id call) a m).1 = false.
Proof.
  intros Hr He. unfold gate_tool_call_for_human_approval, gate_opening.
  destruct (register_pending_approval r (tc_id call)) as [n r0].
  destruct (gate_closing to_string call e) as [sig res]. intros H. simplify_eq.
  set (r1 := drop_receiver (fold_left apply_op others r0) n).
  assert (after_wait (fold_left apply_op others r0) (tc_id call) n e
          = (remove_pending_approval r1 (tc_id call)).2) as ->.
  { by destruct He; subst. }
  apply removed_gone.
Qed.
