(* ===== verification/Context.v ===== *)
(** * Messages and the context window

    roz-agent/model/types.rs (content parts, messages, requests and responses) and
    context.rs (the token estimate and the escalating compaction of a transcript).  The
    text serde_json prints for a value is an argument; so is the answer of a model. *)

From Stdlib Require Import Ascii.
From S2P Require Import Prelude Float64 Json Guards.

(** ** model/types.rs *)

Inductive ContentPart : Type :=
| Text (text : string)
| ToolUse (id name : string) (input : json)
| ToolResultPart (tool_use_id name content : string) (is_error : bool)
| ThinkingPart (thinking signature : string)
| Image (media_type data : string).

Inductive MessageRole : Type := System | User | Assistant.

#[export] Instance MessageRole_eq_dec : EqDecision MessageRole.
Proof. solve_decision. Defined.

Record Message : Type := { role : MessageRole; parts : list ContentPart }.

Definition system (text : string) : Message := {| role := System; parts := [Text text] |}.
Definition user (text : string) : Message := {| role := User; parts := [Text text] |}.
Definition user_with_images (text : string) (images : list (string * string)) : Message :=
  {| role := User; parts := Text text :: map (fun '(media_type, data) => Image media_type data) images |}.
Definition assistant_text (text : string) : Message := {| role := Assistant; parts := [Text text] |}.
Definition assistant_parts (ps : list ContentPart) : Message := {| role := Assistant; parts := ps |}.

Definition tool_results (results : list (string * string * string * bool)) : Message :=
  {| role := User;
     parts := map (fun '(tool_use_id, name, content, is_error) =>
                     ToolResultPart tool_use_id name content is_error) results |}.

Definition text_part (p : ContentPart) : option string :=
  match p with Text t => Some t | _ => None end.

(** [texts.join("")], none when there is no text part. *)
Definition parts_text (ps : list ContentPart) : option string :=
  match omap text_part ps with
  | [] => None
  | texts => Some (fold_right String.append "" texts)
  end.

Definition message_text (m : Message) : option string := parts_text (parts m).

Inductive StopReason : Type := EndTurn | StopToolUse | MaxTokens.

#[export] Instance StopReason_eq_dec : EqDecision StopReason.
Proof. solve_decision. Defined.

Record TokenUsage : Type := {
  input_tokens : Z;
  output_tokens : Z;
  cache_read_tokens : Z;
  cache_creation_tokens : Z;
}.

Definition no_usage : TokenUsage :=
  {| input_tokens := 0; output_tokens := 0; cache_read_tokens := 0; cache_creation_tokens := 0 |}.

Record CompletionResponse : Type := {
  resp_parts : list ContentPart;
  stop_reason : StopReason;
  usage : TokenUsage;
}.

Definition response_text (r : CompletionResponse) : option string := parts_text (resp_parts r).

Definition tool_use_call (p : ContentPart) : option (ToolCall json) :=
  match p with
  | ToolUse id name input => Some {| tc_id := id; tool := name; params := input |}
  | _ => None
  end.

Definition tool_calls (r : CompletionResponse) : list (ToolCall json) := omap tool_use_call (resp_parts r).

Definition is_tool_use (p : ContentPart) : bool := match p with ToolUse _ _ _ => true | _ => false end.
Definition is_tool_result (p : ContentPart) : bool :=
  match p with ToolResultPart _ _ _ _ => true | _ => false end.
Definition is_thinking (p : ContentPart) : bool := match p with ThinkingPart _ _ => true | _ => false end.

Definition has_tool_calls (r : CompletionResponse) : bool := existsb is_tool_use (resp_parts r).

Inductive ToolChoiceStrategy : Type :=
| ChoiceAuto | ChoiceAny | ChoiceRequired (name : string) | ChoiceNone.

Record ToolSchema : Type := { ts_name : string; ts_description : string; ts_parameters : json }.

Record CompletionRequest : Type := {
  req_messages : list Message;
  req_tools : list ToolSchema;
  req_max_tokens : Z;
  tool_choice : option ToolChoiceStrategy;
  response_schema : option json;
}.

(** ** context.rs *)

Inductive CompactionLevel : Type := LToolResults | LThinking | LSummary.

Record CompactionEvent : Type := {
  level : CompactionLevel;
  messages_before : nat;
  messages_after : nat;
  tokens_before : Z;
  tokens_after : Z;
  summary : option string;
}.

Record ContextManager : Type := {
  max_tokens : Z;
  tool_clear_threshold : f64;
  thinking_clear_threshold : f64;
  summary_threshold : f64;
  keep_tool_results : nat;
  keep_thinking_turns : nat;
}.

Definition new_context (max_tokens : Z) : ContextManager := {|
  max_tokens := max_tokens;
  tool_clear_threshold := f64_dec 50 2;
  thinking_clear_threshold := f64_dec 65 2;
  summary_threshold := f64_dec 85 2;
  keep_tool_results := 5;
  keep_thinking_turns := 2;
|}.

(** [as u32] keeps the low 32 bits. *)
Definition as_u32 (n : nat) : Z := Z.of_nat n mod 2 ^ 32.

Definition estimate_tokens (text : string) : Z := as_u32 (String.length text) / 4.

Section Tokens.
Context (to_string : json -> string).

Definition part_chars (p : ContentPart) : nat :=
  match p with
  | Text t => String.length t
  | ToolUse id name input => String.length id + String.length name + String.length (to_string input)
  | ToolResultPart tool_use_id _ content _ => String.length tool_use_id + String.length content
  | ThinkingPart thinking _ => String.length thinking
  | Image _ _ => 256
  end.

Definition estimated_tokens (m : Message) : Z :=
  Z.max (as_u32 (list_sum (map part_chars (parts m)) / 4)) 1.

(** [iter().map(..).sum()] of [u32]s. *)
Definition message_tokens (messages : list Message) : exec Z :=
  fold_left (fun acc m => let! a := acc in u32_add a (estimated_tokens m)) messages (Ret 0).

Definition fraction_used (self : ContextManager) (messages : list Message) : exec f64 :=
  let! t := message_tokens messages in
  Ret (f64_div (f64_of_Z t) (f64_of_Z (max_tokens self))).

(** *** Level 1 *)

Definition result_positions (messages : list Message) : list (nat * nat) :=
  concat (imap (fun mi m =>
    omap (fun '(pi, p) => if is_tool_result p then Some (mi, pi) else None) (imap pair (parts m))) messages).

Definition placeholder (content : string) : string :=
  "[cleared: ~" +:+ pretty (estimate_tokens content) +:+ " tokens]".

Definition clear_part (p : ContentPart) : ContentPart :=
  match p with
  | ToolResultPart tool_use_id name content is_error =>
      ToolResultPart tool_use_id name (placeholder content) is_error
  | p => p
  end.

Definition alter_part (f : ContentPart -> ContentPart) (messages : list Message) (at_ : nat * nat) : list Message :=
  alter (fun m => {| role := role m; parts := alter f at_.2 (parts m) |}) at_.1 messages.

Definition clear_tool_results (self : ContextManager) (messages : list Message) : list Message :=
  let positions := result_positions messages in
  let total := length positions in
  if (total <=? keep_tool_results self)%nat then messages
  else fold_left (alter_part clear_part) (take (total - keep_tool_results self) positions) messages.

(** *** Level 2 *)

Definition has_thinking (m : Message) : bool :=
  bool_decide (role m = Assistant) && existsb is_thinking (parts m).

Definition thinking_indices (messages : list Message) : list nat :=
  omap (fun '(i, m) => if has_thinking m then Some i else None) (imap pair messages).

Definition strip_thinking (m : Message) : Message :=
  {| role := role m; parts := List.filter (fun p => negb (is_thinking p)) (parts m) |}.

Definition clear_thinking (self : ContextManager) (messages : list Message) : list Message :=
  let indices := thinking_indices messages in
  let total := length indices in
  if (total <=? keep_thinking_turns self)%nat then messages
  else fold_left (fun ms i => alter strip_thinking i ms) (take (total - keep_thinking_turns self) indices) messages.

(** *** Level 3 *)

(** [messages[i]] *)
Definition index {A} (l : list A) (i : nat) : exec A :=
  match l !! i with Some x => Ret x | None => Panic end.

Definition uses_tool (m : Message) : bool :=
  bool_decide (role m = Assistant) && existsb is_tool_use (parts m).

(** The loop of [split_preserving_pairs]; [recent] is kept reversed, as the vector is.
    [fuel] bounds the turns: each that goes on decreases [i]. *)
Fixpoint split_loop (fuel : nat) (messages : list Message) (recent_budget : Z)
    (i : nat) (recent : list Message) (tokens : Z) : exec (nat * list Message) :=
  match fuel with
  | O => Ret (i, recent)
  | S fuel =>
      if (i =? 0)%nat then Ret (i, recent)
      else
        let! msg := index messages (i - 1) in
        let msg_tokens := estimated_tokens msg in
        let single :=
          let! t := u32_add tokens msg_tokens in
          if recent_budget <? t then Ret (i, recent)
          else split_loop fuel messages recent_budget (i - 1) (recent ++ [msg]) t in
        if existsb is_tool_result (parts msg) && (2 <=? i)%nat then
          let! prev := index messages (i - 2) in
          if uses_tool prev then
            let! pair_tokens := u32_add msg_tokens (estimated_tokens prev) in
            let! t := u32_add tokens pair_tokens in
            if recent_budget <? t then Ret (i, recent)
            else split_loop fuel messages recent_budget (i - 2) (recent ++ [msg; prev]) t
          else single
        else single
  end.

Definition split_preserving_pairs (messages : list Message) (recent_budget : Z)
    : exec (list Message * list Message) :=
  let! (i, recent) := split_loop (length messages) messages recent_budget (length messages) [] 0 in
  Ret (take i messages, rev recent).

Definition role_name (r : MessageRole) : string :=
  match r with System => "system" | User => "user" | Assistant => "assistant" end.

(** [join("\n")] *)
Fixpoint join_lines (l : list string) : string :=
  match l with
  | [] => ""
  | [x] => x
  | x :: l => x +:+ String (ascii_of_nat 10) (join_lines l)
  end.

Definition format_messages_for_summary (messages : list Message) : string :=
  join_lines (map (fun m => role_name (role m) +:+ ": " +:+ default "" (message_text m)) messages).

(** What a model answers: a response, or the text of an error. *)
Definition Model : Type := CompletionRequest -> result CompletionResponse string.

Inductive SummaryError : Type :=
| NotSystemFirst (message : string)
| ModelFailed (error : string).

Definition SUMMARIZER_PROMPT : string :=
  "You are a conversation summarizer. Summarize the following conversation " +:+
  "into a concise paragraph that captures all important context, decisions, " +:+
  "and outcomes. Preserve tool names, parameter values, and error messages.".

Definition summary_request (prompt : string) : CompletionRequest := {|
  req_messages := [system SUMMARIZER_PROMPT; user prompt];
  req_tools := [];
  req_max_tokens := 1024;
  tool_choice := None;
  response_schema := None;
|}.

Definition summarize (self : ContextManager) (messages : list Message) (model : Model)
    : exec (result (list Message * string) SummaryError) :=
  match messages with
  | sys :: rest =>
      if negb (bool_decide (role sys = System)) then
        Ret (Err (NotSystemFirst
          "summarize requires a non-empty message list starting with a system message"))
      else
        let! (old, recent) := split_preserving_pairs rest (max_tokens self / 4) in
        match model (summary_request (format_messages_for_summary old)) with
        | Err e => Ret (Err (ModelFailed e))
        | Ok response =>
            let summary_text := default "Summary unavailable." (response_text response) in
            Ret (Ok (sys :: user ("[Summary of earlier conversation]" +:+
                                  String (ascii_of_nat 10) summary_text) :: recent, summary_text))
        end
  | [] => Ret (Err (NotSystemFirst
      "summarize requires a non-empty message list starting with a system message"))
  end.

(** *** Escalation *)

Definition event (l : CompactionLevel) (before after : list Message) (tb ta : Z) (s : option string)
    : CompactionEvent :=
  {| level := l; messages_before := length before; messages_after := length after;
     tokens_before := tb; tokens_after := ta; summary := s |}.

(** One of the two structural levels: what it does above its threshold. *)
Definition structural_level (self : ContextManager) (l : CompactionLevel) (threshold : f64)
    (f : list Message -> list Message) (messages : list Message) : exec (list Message * list CompactionEvent) :=
  let! u := fraction_used self messages in
  if f64_gt u threshold then
    let! tb := message_tokens messages in
    let after := f messages in
    let! ta := message_tokens after in
    Ret (after, [event l messages after tb ta None])
  else Ret (messages, []).

Definition compact_escalating (self : ContextManager) (messages : list Message) (model : option Model)
    : exec (list Message * list CompactionEvent) :=
  let! (m1, e1) := structural_level self LToolResults (tool_clear_threshold self) (clear_tool_results self) messages in
  let! (m2, e2) := structural_level self LThinking (thinking_clear_threshold self) (clear_thinking self) m1 in
  let! u := fraction_used self m2 in
  match f64_gt u (summary_threshold self), model with
  | true, Some model =>
      let! tb := message_tokens m2 in
      let! r := summarize self m2 model in
      match r with
      | Ok (m3, summary_text) =>
          let! ta := message_tokens m3 in
          Ret (m3, (e1 ++ e2 ++ [event LSummary m2 m3 tb ta (Some summary_text)])%list)
      | Err _ => Ret (m2, (e1 ++ e2)%list)
      end
  | _, _ => Ret (m2, (e1 ++ e2)%list)
  end.

Definition needs_compaction (self : ContextManager) (messages : list Message) : exec bool :=
  let! u := fraction_used self messages in Ret (f64_gt u (tool_clear_threshold self)).

(** The legacy [compact]: the loop over the messages from the last. *)
Fixpoint take_recent (rev_messages : list Message) (budget recent_tokens : Z) (recent : list Message)
    : exec (list Message) :=
  match rev_messages with
  | [] => Ret recent
  | m :: rest =>
      let! t := u32_add recent_tokens (estimated_tokens m) in
      if budget <? t then Ret recent else take_recent rest budget t (recent ++ [m])
  end.

Definition compact (self : ContextManager) (messages : list Message) : exec (list Message * option string) :=
  let! needed := needs_compaction self messages in
  if negb needed then Ret (messages, None)
  else
    let! recent := take_recent (rev messages) (max_tokens self / 4) 0 [] in
    let recent := rev recent in
    let old_count := (length messages - length recent)%nat in
    Ret (recent, if (0 <? old_count)%nat
                 then Some ("[Compacted " +:+ pretty old_count +:+ " earlier messages]") else None).
End Tokens.

(** ** Positions

    The loops that update by position, as functions of the parts. *)

Lemma fold_alter_S {A} (f : A -> A) (is_ : list nat) : forall x l,
  fold_left (fun l i => alter f i l) (map S is_) (x :: l) =
  x :: fold_left (fun l i => alter f i l) is_ l.
Proof. induction is_ as [|i is_ IH]; intros x l; simpl; [done|]. by rewrite <- IH. Qed.

(** Clear the first [k] tool results of a list of parts. *)
Fixpoint clear_first (k : nat) (ps : list ContentPart) : list ContentPart :=
  match ps with
  | [] => []
  | p :: ps =>
      if is_tool_result p then
        match k with O => p :: ps | S k => clear_part p :: clear_first k ps end
      else p :: clear_first k ps
  end.

Definition count_results (ps : list ContentPart) : nat := length (List.filter is_tool_result ps).

(** The same over messages. *)
Fixpoint clear_messages (k : nat) (ms : list Message) : list Message :=
  match ms with
  | [] => []
  | m :: ms =>
      {| role := role m; parts := clear_first k (parts m) |} :: clear_messages (k - count_results (parts m)) ms
  end.

Definition part_positions (j : nat) (ps : list ContentPart) : list nat :=
  omap (fun '(pi, p) => if is_tool_result p then Some pi else None)
    (imap (fun i p => ((j + i)%nat, p)) ps).

Lemma part_positions_cons j p ps :
  part_positions j (p :: ps) =
  (if is_tool_result p then [j] else []) ++ part_positions (S j) ps.
Proof.
  unfold part_positions. simpl. rewrite Nat.add_0_r.
  replace (imap ((fun i p0 => ((j + i)%nat, p0)) ∘ S) ps) with (imap (fun i p0 => ((S j + i)%nat, p0)) ps).
  2:{ apply imap_ext. intros i x _. simpl. by rewrite Nat.add_succ_r. }
  by destruct (is_tool_result p).
Qed.

Lemma part_positions_S ps : forall j, part_positions (S j) ps = map S (part_positions j ps).
Proof.
  induction ps as [|p ps IH]; intros j; [done|]. rewrite !part_positions_cons, map_app, <- IH.
  by destruct (is_tool_result p).
Qed.

Lemma length_part_positions ps : forall j, length (part_positions j ps) = count_results ps.
Proof.
  unfold count_results. induction ps as [|p ps IH]; intros j; [done|]. rewrite part_positions_cons, length_app, IH.
  simpl. by destruct (is_tool_result p).
Qed.

Lemma fold_clear_parts ps : forall k,
  fold_left (fun l i => alter clear_part i l) (take k (part_positions 0 ps)) ps = clear_first k ps.
Proof.
  induction ps as [|p ps IH]; intros k; [by destruct k|]. rewrite part_positions_cons, part_positions_S.
  simpl clear_first. destruct (is_tool_result p); simpl.
  - destruct k as [|k]; [done|]. simpl. by rewrite firstn_map, fold_alter_S, IH.
  - by rewrite firstn_map, fold_alter_S, IH.
Qed.

Lemma result_positions_cons m ms :
  result_positions (m :: ms) =
  map (pair 0%nat) (part_positions 0 (parts m)) ++ map (fun at_ => (S at_.1, at_.2)) (result_positions ms).
Proof.
  unfold result_positions. simpl. f_equal.
  - unfold part_positions. generalize (parts m). intros ps.
    change (imap (fun i p => ((0 + i)%nat, p)) ps) with (imap pair ps).
    induction (imap pair ps) as [|[pi p] l IH]; simpl; [done|].
    destruct (is_tool_result p); simpl; [f_equal|]; apply IH.
  - rewrite concat_map. f_equal. etrans; [|symmetry; apply fmap_imap]. apply imap_ext. intros mi m' _. simpl.
    induction (imap pair (parts m')) as [|[pi p] l IH]; simpl; [done|].
    destruct (is_tool_result p); simpl; [f_equal|]; apply IH.
Qed.

Lemma fold_alter_head f ps : forall m ms,
  fold_left (alter_part f) (map (pair 0%nat) ps) (m :: ms) =
  {| role := role m; parts := fold_left (fun l i => alter f i l) ps (parts m) |} :: ms.
Proof. induction ps as [|p ps IH]; intros m ms; simpl; [by destruct m|]. unfold alter_part at 2. simpl. by rewrite IH. Qed.

Lemma fold_alter_tail f ats : forall m ms,
  fold_left (alter_part f) (map (fun at_ => (S at_.1, at_.2)) ats) (m :: ms) =
  m :: fold_left (alter_part f) ats ms.
Proof. induction ats as [|a ats IH]; intros m ms; simpl; [done|]. by rewrite <- IH. Qed.

Lemma fold_clear_messages ms : forall k,
  fold_left (alter_part clear_part) (take k (result_positions ms)) ms = clear_messages k ms.
Proof.
  induction ms as [|m ms IH]; intros k; [by destruct k|].
  rewrite result_positions_cons, take_app, fold_left_app, length_map, length_part_positions.
  rewrite !firstn_map, fold_alter_head, fold_alter_tail, fold_clear_parts, IH. done.
Qed.

Lemma clear_first_0 ps : clear_first 0 ps = ps.
Proof. induction ps as [|p ps IH]; simpl; [done|]. rewrite IH. by destruct (is_tool_result p). Qed.

Lemma clear_messages_0 ms : clear_messages 0 ms = ms.
Proof.
  induction ms as [|[] ms IH]; simpl; [done|]. rewrite clear_first_0, Nat.sub_0_l. by rewrite IH.
Qed.

(** Level 1 clears all but the last [keep_tool_results] results, in the order of the transcript. *)
Lemma clear_tool_results_spec self ms :
  clear_tool_results self ms =
  clear_messages (length (result_positions ms) - keep_tool_results self) ms.
Proof.
  unfold clear_tool_results. destruct (Nat.leb_spec (length (result_positions ms)) (keep_tool_results self)).
  - rewrite (proj2 (Nat.sub_0_le _ _)) by done. by rewrite clear_messages_0.
  - apply fold_clear_messages.
Qed.

(** ** Which messages a level changes *)

(** [m'] is [m] up to contents and thinking: same role, same tool uses, same results by
    identifier, in the same order. *)
Definition use_id (p : ContentPart) : option string := match p with ToolUse id _ _ => Some id | _ => None end.
Definition result_id (p : ContentPart) : option string :=
  match p with ToolResultPart id _ _ _ => Some id | _ => None end.

Definition same_tools (m m' : Message) : Prop :=
  role m' = role m /\ omap use_id (parts m') = omap use_id (parts m) /\
  omap result_id (parts m') = omap result_id (parts m).

Lemma same_tools_refl m : same_tools m m.
Proof. done. Qed.

Lemma clear_first_ids k ps :
  omap use_id (clear_first k ps) = omap use_id ps /\ omap result_id (clear_first k ps) = omap result_id ps.
Proof.
  revert k. induction ps as [|p ps IH]; intros k; [done|].
  destruct p; csimpl; try (destruct (IH k) as [-> ->]; done).
  destruct k as [|k]; csimpl; [done|]. by destruct (IH k) as [-> ->].
Qed.

Lemma clear_messages_same k ms : Forall2 same_tools ms (clear_messages k ms).
Proof.
  revert k. induction ms as [|m ms IH]; intros k; simpl; constructor; [|apply IH].
  split; [done|]. apply clear_first_ids.
Qed.

Lemma filter_ids ps :
  omap use_id (List.filter (fun p => negb (is_thinking p)) ps) = omap use_id ps /\
  omap result_id (List.filter (fun p => negb (is_thinking p)) ps) = omap result_id ps.
Proof. induction ps as [|p ps [IH1 IH2]]; [done|]. destruct p; csimpl; by rewrite ?IH1, ?IH2. Qed.

Lemma alter_same (f : Message -> Message) (i : nat) (ms ms' : list Message) :
  (forall m, same_tools m (f m)) -> Forall2 same_tools ms ms' -> Forall2 same_tools ms (alter f i ms').
Proof.
  intros Hf H. revert i. induction H as [|m m' ms ms' Hm Hms IH]; intros i; [constructor|].
  destruct i as [|i]; simpl; constructor; try done; [|apply IH].
  destruct Hm as (? & ? & ?), (Hf m') as (? & ? & ?). split_and!; congruence.
Qed.

Lemma clear_thinking_same self ms : Forall2 same_tools ms (clear_thinking self ms).
Proof.
  unfold clear_thinking. assert (Forall2 same_tools ms ms) as Hrefl.
  { induction ms; constructor; done. }
  case_match; [done|]. generalize (take (length (thinking_indices ms) - keep_thinking_turns self) (thinking_indices ms)).
  intros is_. cut (forall ms', Forall2 same_tools ms ms' ->
    Forall2 same_tools ms (fold_left (fun ms i => alter strip_thinking i ms) is_ ms')); [auto|].
  induction is_ as [|i is_ IH]; intros ms' H'; simpl; [done|]. apply IH, alter_same; [|done].
  intros m. split; [done|]. apply filter_ids.
Qed.

(** ** Transcripts that a provider accepts

    A message with tool results is a user message, directly after an assistant message that
    used the tools it answers. *)

Definition answers (prev m : Message) : Prop :=
  role prev = Assistant /\ role m = User /\ omap result_id (parts m) ⊆ omap use_id (parts prev).

Definition has_results (m : Message) : Prop := omap result_id (parts m) <> [].

Definition well_paired (ms : list Message) : Prop :=
  forall i m, ms !! i = Some m -> has_results m ->
  exists prev, (0 < i)%nat /\ ms !! (i - 1)%nat = Some prev /\ answers prev m.

Lemma has_results_spec m : has_results m <-> existsb is_tool_result (parts m) = true.
Proof.
  unfold has_results. induction (parts m) as [|p ps IH]; simpl; [naive_solver|].
  destruct p; simpl; naive_solver.
Qed.

Lemma answers_uses prev m : has_results m -> answers prev m -> uses_tool prev = true.
Proof.
  intros Hm (Hr & _ & Hsub). unfold uses_tool. rewrite (bool_decide_true _ Hr). simpl.
  unfold has_results in Hm. destruct (omap result_id (parts m)) as [|id ids]; [done|].
  assert (id ∈ omap use_id (parts prev)) as Hin by (apply Hsub; left).
  apply list_elem_of_omap in Hin as (p & Hp & Hid). apply existsb_exists.
  exists p. split; [by apply list_elem_of_In|]. by destruct p.
Qed.

Lemma well_paired_same ms ms' : Forall2 same_tools ms ms' -> well_paired ms -> well_paired ms'.
Proof.
  intros H Hw i m' Hm' Hres. destruct (Forall2_lookup_r _ _ _ _ _ H Hm') as (m & Hm & Hs & Hu & Hr).
  assert (has_results m) as Hres' by (unfold has_results in *; congruence).
  destruct (Hw i m Hm Hres') as (prev & Hi & Hprev & Ha1 & Ha2 & Ha3).
  destruct (Forall2_lookup_l _ _ _ _ _ H Hprev) as (prev' & Hprev' & Hs' & Hu' & Hr').
  exists prev'. split_and!; [done..|]. split_and!; [congruence..|]. by rewrite Hr, Hu'.
Qed.

(** ** Splitting a transcript *)

Definition total_tokens (to_string : json -> string) (ms : list Message) : Z :=
  fold_right Z.add 0 (map (estimated_tokens to_string) ms).

Lemma estimated_pos ts m : 1 <= estimated_tokens ts m.
Proof. unfold estimated_tokens. lia. Qed.

Lemma total_nonneg ts ms : 0 <= total_tokens ts ms.
Proof. unfold total_tokens. induction ms as [|m ms IH]; simpl; [lia|]. pose proof (estimated_pos ts m). lia. Qed.

Lemma total_app ts a b : total_tokens ts (a ++ b) = total_tokens ts a + total_tokens ts b.
Proof. unfold total_tokens. induction a as [|m a IH]; simpl; [lia|]. unfold total_tokens in *. lia. Qed.

Lemma total_rev ts a : total_tokens ts (rev a) = total_tokens ts a.
Proof.
  induction a as [|m a IH]; [done|]. simpl. rewrite total_app, IH. unfold total_tokens. simpl. lia.
Qed.

Lemma message_tokens_total ts ms :
  total_tokens ts ms <= u32_max -> message_tokens ts ms = Ret (total_tokens ts ms).
Proof.
  unfold message_tokens. intros Hle.
  cut (forall a, a + total_tokens ts ms <= u32_max ->
    fold_left (fun acc m => let! a := acc in u32_add a (estimated_tokens ts m)) ms (Ret a)
    = Ret (a + total_tokens ts ms)).
  { intros H. by rewrite H. }
  clear Hle. induction ms as [|m ms IH]; intros a Ha; simpl.
  - unfold total_tokens. simpl. by rewrite Z.add_0_r.
  - change (total_tokens ts (m :: ms)) with (estimated_tokens ts m + total_tokens ts ms) in *.
    pose proof (total_nonneg ts ms). rewrite u32_add_ret by lia. rewrite IH by lia. f_equal. lia.
Qed.

(** What the loop of the split keeps: what is left and what is taken are the transcript,
    the taken part fits the budget, and it does not begin in the middle of a pair. *)
Record split_state (ts : json -> string) (ms : list Message) (budget : Z) (i : nat) (recent : list Message)
    (tokens : Z) : Prop := {
  sp_whole : take i ms ++ rev recent = ms;
  sp_bound : (i <= length ms)%nat;
  sp_tokens : tokens = total_tokens ts recent;
  sp_budget : 0 <= budget -> tokens <= budget;
  sp_pairs : well_paired ms -> forall m, ms !! i = Some m -> ~ has_results m;
}.

Lemma take_last_rev {A} (l : list A) i x r :
  l !! i = Some x -> take (S i) l ++ rev r = l -> take i l ++ rev (r ++ [x]) = l.
Proof.
  intros Hx Hl. rewrite rev_app_distr. simpl. rewrite cons_middle, app_assoc.
  by rewrite <- (take_S_r _ _ _ Hx).
Qed.

Lemma split_loop_spec ts ms budget fuel : forall i recent tokens,
  (i <= fuel)%nat -> total_tokens ts ms <= u32_max -> split_state ts ms budget i recent tokens ->
  exists i' recent' tokens', split_loop ts fuel ms budget i recent tokens = Ret (i', recent') /\
    split_state ts ms budget i' recent' tokens'.
Proof.
  induction fuel as [|fuel IH]; intros i recent tokens Hi Hmax Hst; simpl.
  { exists i, recent, tokens. done. }
  destruct (Nat.eqb_spec i 0) as [->|Hne]; [by exists 0%nat, recent, tokens|].
  destruct Hst as [Hw Hb Ht Hbud Hp].
  destruct (lookup_lt_is_Some_2 ms (i - 1)) as [msg Hmsg]; [lia|].
  unfold index at 1. rewrite Hmsg. simpl.
  assert (Hrest : total_tokens ts ms = total_tokens ts (take i ms) + tokens).
  { rewrite <- Hw at 1. rewrite total_app, total_rev. lia. }
  assert (Hlast : take i ms = take (i - 1) ms ++ [msg]).
  { replace i with (S (i - 1)) at 1 by lia. by apply take_S_r. }
  assert (Hone : total_tokens ts [msg] = estimated_tokens ts msg) by (unfold total_tokens; simpl; lia).
  pose proof (estimated_pos ts msg). pose proof (total_nonneg ts (take (i - 1) ms)).
  rewrite Hlast, total_app, Hone in Hrest.
  assert (Hstay : exists i' recent' tokens', Ret (i, recent) = Ret (i', recent') /\
    split_state ts ms budget i' recent' tokens') by (exists i, recent, tokens; by split).
  assert (Hsingle : (well_paired ms -> ~ has_results msg) ->
    exists i' recent' tokens',
      (let! t := u32_add tokens (estimated_tokens ts msg) in
       if budget <? t then Ret (i, recent)
       else split_loop ts fuel ms budget (i - 1) (recent ++ [msg]) t) = Ret (i', recent') /\
      split_state ts ms budget i' recent' tokens').
  { intros Hno. rewrite u32_add_ret by lia. simpl. destruct (Z.ltb_spec budget (tokens + estimated_tokens ts msg)); [done|].
    apply IH; [lia|done|]. split; [|lia| |lia|].
    - apply take_last_rev; [done|]. by replace (S (i - 1)) with i by lia.
    - rewrite total_app, Hone. lia.
    - intros Hwp m Hm. simplify_eq. auto. }
  destruct (existsb is_tool_result (parts msg)) eqn:Hres; cbn [andb].
  2:{ apply Hsingle. intros _ H'. apply has_results_spec in H'. congruence. }
  apply has_results_spec in Hres.
  assert (Hprev : well_paired ms -> exists prev, (0 < i - 1)%nat /\ ms !! (i - 2)%nat = Some prev /\ answers prev msg).
  { intros Hwp. destruct (Hwp _ _ Hmsg Hres) as (prev & Hlt & Hpr & Ha). exists prev.
    replace (i - 2)%nat with (i - 1 - 1)%nat by lia. done. }
  change (match i with S (S _) => true | _ => false end) with (2 <=? i)%nat.
  destruct (Nat.leb_spec 2 i) as [H2|H2].
  2:{ apply Hsingle. intros Hwp. destruct (Hprev Hwp) as (? & ? & _). lia. }
  destruct (lookup_lt_is_Some_2 ms (i - 2)) as [prev Hpv]; [lia|].
  unfold index. rewrite Hpv. simpl. destruct (uses_tool prev) eqn:Hu.
  2:{ apply Hsingle. intros Hwp. destruct (Hprev Hwp) as (prev' & _ & ? & Ha). simplify_eq.
      rewrite (answers_uses _ _ Hres Ha) in Hu. done. }
  assert (Hlast2 : take (i - 1) ms = take (i - 2) ms ++ [prev]).
  { replace (i - 1)%nat with (S (i - 2)) by lia. by apply take_S_r. }
  assert (Hone2 : total_tokens ts [prev] = estimated_tokens ts prev) by (unfold total_tokens; simpl; lia).
  pose proof (estimated_pos ts prev). pose proof (total_nonneg ts (take (i - 2) ms)).
  assert (0 <= tokens) by (rewrite Ht; apply total_nonneg).
  rewrite Hlast2, total_app, Hone2 in Hrest.
  rewrite u32_add_ret by lia. simpl. rewrite u32_add_ret by lia. simpl.
  case_match; bool_prop; [done|]. apply IH; [lia|done|]. split; [|lia| |lia|].
  - change ([msg; prev]) with ([msg] ++ [prev]). rewrite (app_assoc recent). apply take_last_rev; [done|].
    replace (S (i - 2)) with (i - 1)%nat by lia. apply take_last_rev; [done|].
    by replace (S (i - 1)) with i by lia.
  - rewrite total_app. change ([msg; prev]) with ([msg] ++ [prev]). rewrite total_app, Hone, Hone2. lia.
  - intros Hwp m Hm Hr. simplify_eq. unfold uses_tool in Hu. bool_prop.
    destruct (Hwp _ _ Hpv Hr) as (? & _ & _ & _ & Huser & _). congruence.
Qed.

Lemma split_spec ts messages budget :
  total_tokens ts messages <= u32_max ->
  exists i recent, split_preserving_pairs ts messages budget = Ret (take i messages, rev recent) /\
    split_state ts messages budget i recent (total_tokens ts recent).
Proof.
  intros Hmax. unfold split_preserving_pairs.
  destruct (split_loop_spec ts messages budget (length messages) (length messages) [] 0)
    as (i & recent & tokens & -> & Hst); [done..| |].
  - split; [by rewrite firstn_all, app_nil_r|done|done|done|].
    intros _ m Hm. by rewrite lookup_ge_None_2 in Hm.
  - exists i, recent. split; [done|]. by rewrite <- (sp_tokens _ _ _ _ _ _ Hst).
Qed.

Lemma split_state_head ts messages budget i recent tokens :
  split_state ts messages budget i recent tokens -> head (rev recent) = messages !! i.
Proof.
  intros [Hw Hb _ _ _]. rewrite <- Hw at 1. rewrite lookup_app_r by (rewrite length_take; lia).
  rewrite length_take, (Nat.min_l i) by done. rewrite Nat.sub_diag. by rewrite head_lookup.
Qed.

(** splitting a transcript for the summary.  When its tokens fit a [u32], the split does
    not panic and its loop ends; the two parts are the transcript; the recent part fits the
    budget; and in a transcript a provider accepts, the recent part begins with no tool
    result whose call would be summarised away. *)
Theorem split_keeps_pairs (to_string : json -> string) (messages : list Message) (recent_budget : Z) :
  total_tokens to_string messages <= u32_max -> 0 <= recent_budget ->
  exists old recent, split_preserving_pairs to_string messages recent_budget = Ret (old, recent) /\
    old ++ recent = messages /\ total_tokens to_string recent <= recent_budget /\
    (well_paired messages -> forall m, head recent = Some m -> ~ has_results m).
Proof.
  intros Hmax Hbudget. destruct (split_spec to_string messages recent_budget Hmax) as (i & recent & Heq & Hst).
  exists (take i messages), (rev recent). split; [done|]. rewrite total_rev.
  pose proof (split_state_head _ _ _ _ _ _ Hst) as Hhd. destruct Hst as [Hw _ _ Hb Hp].
  split_and!; [done|auto|]. intros Hwp m Hm. rewrite Hhd in Hm. by apply Hp.
Qed.

Definition exchange : list Message :=
  [user "stop"; assistant_parts [ToolUse "t1" "read" Null]; tool_results [("t1", "read", "ok", false)]].

Lemma split_keeps_pairs_witness :
  exists old recent, split_preserving_pairs (fun _ => "null") exchange 2 = Ret (old, recent) /\
    old ++ recent = exchange /\ total_tokens (fun _ => "null") recent <= 2.
Proof.
  destruct (split_keeps_pairs (fun _ => "null") exchange 2) as (old & recent & H & Ho & Ht & _);
    [vm_compute; congruence|lia|]. exists old, recent. done.
Defined.

(** ** Compaction *)

Lemma message_tokens_ret ts ms t : message_tokens ts ms = Ret t -> t = total_tokens ts ms /\ total_tokens ts ms <= u32_max.
Proof.
  unfold message_tokens. cut (forall a, a <= u32_max ->
    fold_left (fun acc m => let! a := acc in u32_add a (estimated_tokens ts m)) ms (Ret a) = Ret t ->
    t = a + total_tokens ts ms /\ a + total_tokens ts ms <= u32_max).
  { intros H Ht. destruct (H 0) as [-> Hle]; [done..|]. lia. }
  induction ms as [|m ms IH]; intros a Ha Ht; simpl in Ht.
  - simplify_eq. unfold total_tokens. simpl. lia.
  - unfold u32_add in Ht. change (total_tokens ts (m :: ms)) with (estimated_tokens ts m + total_tokens ts ms).
    case_match; bool_prop.
    + apply IH in Ht; [|done]. lia.
    + exfalso. clear -Ht. by induction ms as [|m' ms IH].
Qed.

Lemma structural_level_cases ts self l threshold f ms ms' ev :
  structural_level ts self l threshold f ms = Ret (ms', ev) ->
  (ms' = ms /\ ev = []) \/ (ms' = f ms /\ exists e, ev = [e] /\ level e = l).
Proof.
  unfold structural_level. intros H. unbind. case_match; unbind; [right|by left]. split; [done|]. by eexists.
Qed.

Lemma user_no_results t : ~ has_results (user t).
Proof. by intros H. Qed.

Lemma well_paired_tail sys rest : role sys = System -> well_paired (sys :: rest) -> well_paired rest.
Proof.
  intros Hs Hw i m Hm Hres. destruct (Hw (S i) m Hm Hres) as (prev & _ & Hp & Ha).
  destruct i as [|i]; simpl in Hp.
  - simplify_eq. destruct Ha. congruence.
  - exists prev. split_and!; [lia|by simpl; rewrite Nat.sub_0_r|done].
Qed.

Lemma well_paired_summary sys rest old recent t :
  role sys = System -> well_paired (sys :: rest) -> old ++ recent = rest ->
  (forall m, head recent = Some m -> ~ has_results m) ->
  well_paired (sys :: user t :: recent).
Proof.
  intros Hs Hw Hsplit Hhead i m Hm Hres.
  destruct i as [|[|[|j]]]; simpl in Hm.
  - simplify_eq. destruct (Hw 0%nat _ eq_refl Hres) as (? & ? & _). lia.
  - simplify_eq. by apply user_no_results in Hres.
  - destruct (Hhead m); [|done]. by rewrite head_lookup.
  - assert (rest !! (length old + S j)%nat = Some m) as Hr.
    { rewrite <- Hsplit, lookup_app_r by lia. by replace (length old + S j - length old)%nat with (S j) by lia. }
    destruct (well_paired_tail _ _ Hs Hw _ _ Hr Hres) as (prev & _ & Hp & Ha).
    exists prev. split_and!; [lia| |done]. simpl. rewrite <- Hsplit, lookup_app_r in Hp by lia.
    by replace (length old + S j - 1 - length old)%nat with j in Hp by lia.
Qed.

Lemma summarize_pairs ts self ms model ms' t :
  total_tokens ts ms <= u32_max -> well_paired ms ->
  summarize ts self ms model = Ret (Ok (ms', t)) -> well_paired ms' /\ head ms' = head ms.
Proof.
  intros Hmax Hw. unfold summarize. destruct ms as [|sys rest]; [done|].
  case_bool_decide as Hs; simpl; [|done].
  destruct (split_spec ts rest (max_tokens self / 4)) as (i & recent & -> & Hst).
  { change (total_tokens ts (sys :: rest)) with (estimated_tokens ts sys + total_tokens ts rest) in Hmax.
    pose proof (estimated_pos ts sys). lia. }
  simpl. destruct (model _) as [r|e]; [|done]. intros H. simplify_eq. split; [|done].
  pose proof (split_state_head _ _ _ _ _ _ Hst) as Hhd. destruct Hst as [Hwh _ _ _ Hp].
  eapply well_paired_summary; [done..|]. intros m Hm. rewrite Hhd in Hm.
  apply (Hp (well_paired_tail _ _ Hs Hw)). done.
Qed.

Lemma same_tools_head ms ms' : Forall2 same_tools ms ms' -> role <$> head ms' = role <$> head ms.
Proof. intros [|m m' ? ? (Hr & _)]; simpl; [done|]. by rewrite Hr. Qed.

Lemma clear_tool_results_same self ms : Forall2 same_tools ms (clear_tool_results self ms).
Proof. rewrite clear_tool_results_spec. apply clear_messages_same. Qed.

Definition keeps (ms ms' : list Message) : Prop :=
  (well_paired ms -> well_paired ms') /\ role <$> head ms' = role <$> head ms.

Lemma keeps_same ms ms' : Forall2 same_tools ms ms' -> keeps ms ms'.
Proof. intros H. split; [by apply well_paired_same|by apply same_tools_head]. Qed.

Lemma structural_keeps ts self l threshold f ms ms' ev :
  (forall ms, Forall2 same_tools ms (f ms)) ->
  structural_level ts self l threshold f ms = Ret (ms', ev) -> keeps ms ms'.
Proof.
  intros Hf [[-> _]|[-> _]]%structural_level_cases; [done|]. by apply keeps_same.
Qed.

Lemma compact_escalating_keeps ts self ms model ms' ev :
  compact_escalating ts self ms model = Ret (ms', ev) -> keeps ms ms'.
Proof.
  unfold compact_escalating. intros H.
  apply exec_bind_ret in H as ([m1 e1] & Hl1 & H). apply exec_bind_ret in H as ([m2 e2] & Hl2 & H).
  pose proof (structural_keeps _ _ _ _ _ _ _ _ (clear_tool_results_same self) Hl1) as [K1 R1].
  pose proof (structural_keeps _ _ _ _ _ _ _ _ (clear_thinking_same self) Hl2) as [K2 R2].
  assert (keeps ms m2) as H12 by (split; [auto|congruence]).
  apply exec_bind_ret in H as (u & _ & H).
  destruct (f64_gt u (summary_threshold self)); [|by simplify_eq].
  destruct model as [model|]; [|by simplify_eq].
  apply exec_bind_ret in H as (tb & Htb & H). apply exec_bind_ret in H as ([[m3 s]|e] & Hs & H); [|by simplify_eq].
  apply exec_bind_ret in H as (ta & _ & H). simplify_eq. apply message_tokens_ret in Htb as [_ Hmax].
  destruct H12 as [K R]. split.
  - intros Hw. by destruct (summarize_pairs _ _ _ _ _ _ Hmax (K Hw) Hs).
  - rewrite <- R. unfold summarize in Hs. destruct m2 as [|sys rest]; [done|].
    destruct (negb _); [done|]. apply exec_bind_ret in Hs as ([old recent] & _ & Hs).
    destruct (model _); by simplify_eq.
Qed.

Lemma above_half (u t : f64) : f64_lt (f64_dec 50 2) t = true -> f64_gt u (f64_dec 50 2) = false -> f64_gt u t = false.
Proof. intros Ht Hu. unfold f64_gt in *. f64_order. Qed.

Lemma compact_below ts self ms model u ms' ev :
  compact_escalating ts self ms model = Ret (ms', ev) -> fraction_used ts self ms = Ret u ->
  f64_gt u (tool_clear_threshold self) = false -> f64_gt u (thinking_clear_threshold self) = false ->
  f64_gt u (summary_threshold self) = false -> ms' = ms /\ ev = [].
Proof.
  unfold compact_escalating, structural_level. intros H Hu H1 H2 H3.
  do 3 (rewrite Hu in H; cbn [exec_bind] in H; first [rewrite H1 in H|rewrite H2 in H|rewrite H3 in H];
    cbn [exec_bind] in H).
  by simplify_eq.
Qed.

Lemma compact_below_half ts max ms model u ms' ev :
  compact_escalating ts (new_context max) ms model = Ret (ms', ev) ->
  fraction_used ts (new_context max) ms = Ret u -> f64_gt u (f64_dec 50 2) = false -> ms' = ms /\ ev = [].
Proof.
  intros H Hu H50. eapply compact_below; [done..| |]; by apply above_half.
Qed.

(** compaction keeps a transcript acceptable.  Whatever levels run and whatever the
    summarising model answers, in the new transcript every tool result still directly
    follows the assistant message that made the call, with the same identifiers, and the
    first message keeps its role (a system prompt stays first); a transcript whose share
    of the window is not above half is not touched, and no event is reported. *)
Theorem compaction_keeps_pairs (to_string : json -> string) (self : ContextManager) (ms ms' : list Message)
    (model : option Model) (ev : list CompactionEvent) :
  compact_escalating to_string self ms model = Ret (ms', ev) ->
  (well_paired ms -> well_paired ms') /\ role <$> head ms' = role <$> head ms /\
  (forall max u, self = new_context max -> fraction_used to_string self ms = Ret u ->
     f64_gt u (f64_dec 50 2) = false ->
     ms' = ms /\ ev = []).
Proof.
  intros H. pose proof (compact_escalating_keeps _ _ _ _ _ _ H) as [Hk Hr]. split_and!; [done..|].
  intros max u -> Hu H50. by apply (compact_below_half to_string max ms model u ms' ev).
Qed.

Lemma compaction_keeps_pairs_witness :
  let sys := system "rules" in
  well_paired (sys :: exchange) /\
  exists ms' ev, compact_escalating (fun _ => "null") (new_context 4) (sys :: exchange)
    (Some (fun _ => Ok {| resp_parts := [Text "done"]; stop_reason := EndTurn; usage := no_usage |}))
    = Ret (ms', ev) /\ well_paired ms' /\ length ev = 3%nat.
Proof.
  simpl. assert (well_paired (system "rules" :: exchange)) as Hw.
  { intros [|[|[|[|i]]]] m Hm Hres; simplify_eq/=; try done. eexists.
    split_and!; [lia|reflexivity|]. split_and!; [reflexivity..|]. simpl. intros x Hx. exact Hx. }
  split; [exact Hw|].
  destruct (compact_escalating (fun _ => "null") (new_context 4) (system "rules" :: exchange)
    (Some (fun _ => Ok {| resp_parts := [Text "done"]; stop_reason := EndTurn; usage := no_usage |})))
    as [[ms' ev]|] eqn:H; [|vm_compute in H; discriminate H].
  exists ms', ev. split; [reflexivity|]. split.
  - exact (proj1 (compaction_keeps_pairs _ _ _ _ _ _ H) Hw).
  - vm_compute in H. injection H as _ <-. reflexivity.
Defined.

(** A short result grows when it is cleared: level 1 can increase the estimate it means to
    lower. *)
Example clearing_can_grow :
  let r := ToolResultPart "t" "read" "ok" false in
  part_chars (fun _ => "") r = 3%nat /\ part_chars (fun _ => "") (clear_part r) = 21%nat.
Proof. split; reflexivity. Qed.
