(* ===== verification/Dispatch.v ===== *)
(** * The dispatch of tool calls

    roz-agent/dispatch/mod.rs (the dispatcher's table of tools, the truncation of large
    outputs), agent_loop/dispatch.rs (the calls of one model turn: contiguous pure calls run
    together, every other call alone through the safety stack and, when it asks, a human) and
    the part of roz-worker/dispatch.rs and main.rs that narrows the table to a delegation
    scope.  What a tool answers, the clock readings of the guards and what operators do while
    a call waits are arguments. *)

From Stdlib Require Import Ascii.
From stdpp Require Import sorting.
From S2P Require Import Prelude Float64 Float64Round RustStr Json SafetyFilter Guards Approvals Context Policy.

(** ** Truncation of large outputs

    A [str] is its UTF-8 bytes; a character starts at each byte that is not a continuation
    byte. *)

Definition MAX_TOOL_OUTPUT_CHARS : Z := 20000.
Definition HEAD_CHARS : Z := 8000.
Definition TAIL_CHARS : Z := 8000.

Definition starts_char (a : ascii) : bool :=
  let n := nat_of_ascii a in negb ((128 <=? n)%nat && (n <? 192)%nat).

Fixpoint chars_count (s : string) : Z :=
  match s with
  | "" => 0
  | String a s => (if starts_char a then 1 else 0) + chars_count s
  end.

(** [char_indices().nth(n)]: the byte at which the [n]-th character starts. *)
Fixpoint char_index (n : Z) (s : string) {struct s} : option nat :=
  match s with
  | "" => None
  | String a s =>
      if starts_char a then if n =? 0 then Some 0%nat else S <$> char_index (n - 1) s
      else S <$> char_index n s
  end.

Definition truncate_tool_output (content : string) : string :=
  if chars_count content <=? MAX_TOOL_OUTPUT_CHARS then content
  else
    let head_end := default (String.length content) (char_index HEAD_CHARS content) in
    let char_count := chars_count content in
    let tail_char_start := saturating_sub char_count TAIL_CHARS in
    let tail_start := default (String.length content) (char_index tail_char_start content) in
    let omitted_chars := char_count - HEAD_CHARS - TAIL_CHARS in
    let nl := String (ascii_of_nat 10) "" in
    take_front head_end content +:+ nl +:+ nl +:+ "[... ~" +:+ pretty omitted_chars +:+
    " chars omitted ...]" +:+ nl +:+ nl +:+ drop_front tail_start content.

(** ** The dispatcher *)

Inductive ToolCategory : Type := Physical | Pure | CodeSandbox.

#[export] Instance ToolCategory_eq_dec : EqDecision ToolCategory.
Proof. solve_decision. Defined.

(** [trait ToolExecutor]: an executor is known by its schema; what an execution answers is an
    argument of the dispatch. *)
Class ToolExecutor (X : Type) := schema : X -> ToolSchema.

Record ToolContext (E : Type) : Type := {
  task_id : string;
  tenant_id : string;
  call_id : string;
  extensions : E;
}.
Arguments task_id {E} _.
Arguments tenant_id {E} _.
Arguments call_id {E} _.
Arguments extensions {E} _.

Record ToolEntry (X : Type) : Type := { executor : X; enabled : bool; entry_category : ToolCategory }.
Arguments executor {X} _.
Arguments enabled {X} _.
Arguments entry_category {X} _.

Record ToolDispatcher (X : Type) : Type := { tools : gmap string (ToolEntry X); timeout : Duration }.
Arguments tools {X} _.
Arguments timeout {X} _.

(** One call of [execute]: the executor, the parameters and the context it is given. *)
Record Invocation (X E : Type) : Type := { inv_executor : X; inv_params : json; inv_ctx : ToolContext E }.
Arguments inv_executor {X E} _.
Arguments inv_params {X E} _.
Arguments inv_ctx {X E} _.

(** How it ends: an answer, an error, or the dispatcher's timeout. *)
Inductive Answer : Type :=
| Answered (r : result ToolResult string)
| AnswerTimeout.

Definition ADVANCE_PHASE_TOOL_NAME : string := "advance_phase".

Section Dispatcher.
Context {X E : Type} `{!ToolExecutor X} (debug_duration : Duration -> string).

Definition new_dispatcher (timeout : Duration) : ToolDispatcher X := {| tools := ∅; timeout := timeout |}.

Definition register_with_category (self : ToolDispatcher X) (x : X) (c : ToolCategory) : ToolDispatcher X :=
  {| tools := <[ts_name (schema x) := {| executor := x; enabled := true; entry_category := c |}]> (tools self);
     timeout := timeout self |}.

Definition register (self : ToolDispatcher X) (x : X) : ToolDispatcher X := register_with_category self x Physical.

Definition category (self : ToolDispatcher X) (name : string) : ToolCategory :=
  from_option entry_category Physical (tools self !! name).

Definition with_enabled (b : bool) (e : ToolEntry X) : ToolEntry X :=
  {| executor := executor e; enabled := b; entry_category := entry_category e |}.

Definition set_enabled (self : ToolDispatcher X) (name : string) (b : bool) : bool * ToolDispatcher X :=
  match tools self !! name with
  | Some entry => (true, {| tools := <[name := with_enabled b entry]> (tools self); timeout := timeout self |})
  | None => (false, self)
  end.

Definition register_advance_phase (self : ToolDispatcher X) (advance_phase_tool : X) : ToolDispatcher X :=
  (set_enabled (register_with_category self advance_phase_tool Pure) ADVANCE_PHASE_TOOL_NAME false).2.
Definition enable_advance_phase (self : ToolDispatcher X) : ToolDispatcher X :=
  (set_enabled self ADVANCE_PHASE_TOOL_NAME true).2.
Definition disable_advance_phase (self : ToolDispatcher X) : ToolDispatcher X :=
  (set_enabled self ADVANCE_PHASE_TOOL_NAME false).2.

(** The order of a [HashMap] is unspecified; [map_to_list] is one such order. *)
Definition enabled_entries (self : ToolDispatcher X) : list (string * ToolEntry X) :=
  base.filter (fun kv => enabled kv.2 = true) (map_to_list (tools self)).

Definition tool_names (self : ToolDispatcher X) : list string := (enabled_entries self).*1.
Definition schemas (self : ToolDispatcher X) : list ToolSchema :=
  map (fun kv => schema (executor kv.2)) (enabled_entries self).
Definition schemas_with_categories (self : ToolDispatcher X) : list (ToolSchema * ToolCategory) :=
  map (fun kv => (schema (executor kv.2), entry_category kv.2)) (enabled_entries self).
Definition schemas_filtered (self : ToolDispatcher X) (names : list string) : list ToolSchema :=
  map (fun kv => schema (executor kv.2))
    (base.filter (fun kv => enabled kv.2 = true /\ kv.1 ∈ names) (map_to_list (tools self))).

(** [fresh] is the UUID of a call without an identifier.  The first component is the
    execution the call leads to, if any. *)
Definition dispatch (self : ToolDispatcher X) (fresh : string) (answer : Invocation X E -> Answer)
    (call : ToolCall json) (ctx : ToolContext E) : option (Invocation X E) * ToolResult :=
  match tools self !! tool call with
  | None => (None, tool_error ("unknown tool: " +:+ tool call))
  | Some entry =>
      if negb (enabled entry) then
        (None, tool_error ("tool is disabled and not available: " +:+ tool call))
      else
        let call_id := if String.eqb (tc_id call) "" then fresh else tc_id call in
        let call_ctx := {| task_id := task_id ctx; tenant_id := tenant_id ctx; call_id := call_id;
                           extensions := extensions ctx |} in
        let inv := {| inv_executor := executor entry; inv_params := params call; inv_ctx := call_ctx |} in
        (Some inv,
         match answer inv with
         | Answered (Ok result) => result
         | Answered (Err e) => tool_error ("tool error: " +:+ e)
         | AnswerTimeout => tool_error ("tool timed out after " +:+ debug_duration (timeout self))
         end)
  end.

(** ** The calls of one turn *)

(** A step of the loop: a contiguous segment of pure calls, or one other call. *)
Inductive Step : Type :=
| Concurrent (calls : list (nat * option (Invocation X E)))
| Alone (i : nat) (inv : option (Invocation X E)).

Context {G : Type} `{!SafetyGuard json G}.

Record TurnEnv : Type := {
  clock : nat -> nat -> Readings;
  fresh : nat -> string;
  answer : nat -> Invocation X E -> Answer;
  others : nat -> list registry_op;
  wait_ends : nat -> wait_end;
}.

Record LoopState : Type := {
  guards : list G;
  registry : option Registry;
  signals : list PresenceSignal;
  requests : list PendingApprovalRequest;
  indexed_results : list (option ToolResult);
  steps : list Step;
}.

Definition put_result (i : nat) (r : ToolResult) (st : LoopState) : LoopState := {|
  guards := guards st; registry := registry st; signals := signals st; requests := requests st;
  indexed_results := <[i := Some r]> (indexed_results st); steps := steps st |}.

Definition put_step (s : Step) (st : LoopState) : LoopState := {|
  guards := guards st; registry := registry st; signals := signals st; requests := requests st;
  indexed_results := indexed_results st; steps := (steps st ++ [s])%list |}.

Definition put_guards (gs : list G) (st : LoopState) : LoopState := {|
  guards := gs; registry := registry st; signals := signals st; requests := requests st;
  indexed_results := indexed_results st; steps := steps st |}.

Definition put_gate (r : Registry) (sigs : list PresenceSignal) (req : PendingApprovalRequest)
    (st : LoopState) : LoopState := {|
  guards := guards st; registry := Some r; signals := (signals st ++ sigs)%list;
  requests := (requests st ++ [req])%list;
  indexed_results := indexed_results st; steps := steps st |}.

Section Turn.
Context (to_string : json -> string) (render : message -> string) (self : ToolDispatcher X) (env : TurnEnv)
  (tool_calls : list (ToolCall json)) (spatial_ctx : WorldState json) (tool_ctx : ToolContext E).

(** The inner loop: the end of the pure segment that contains [j - 1]. *)
Fixpoint grow (fuel j : nat) : nat :=
  match fuel with
  | O => j
  | S fuel =>
      match tool_calls !! j with
      | Some c => if decide (category self (tool c) = Pure) then grow fuel (S j) else j
      | None => j
      end
  end.

(** [wait_for_human_approval] *)
Definition wait_for_human_approval (i : nat) (call : ToolCall json) (reason : message) (timeout_secs : Z)
    (r : Registry) (st : LoopState) : option (Invocation X E) * ToolResult * LoopState :=
  let '(sigs, req, result, r) :=
    gate_tool_call_for_human_approval to_string call reason timeout_secs (task_id tool_ctx)
      (others env i) (wait_ends env i) r in
  let st := put_gate r sigs req st in
  match result with
  | GateApproved effective_call =>
      let '(inv, res) := dispatch self (fresh env i) (answer env i) effective_call tool_ctx in
      (inv, res, st)
  | GateRejected res => (None, res, st)
  end.

Definition physical_call (i : nat) (call : ToolCall json) (st : LoopState)
    : exec (option (Invocation X E) * ToolResult * LoopState) :=
  let! (safety_result, gs) := evaluate (clock env i) 0 (guards st) call spatial_ctx in
  let st := put_guards gs st in
  match safety_result with
  | Approved approved_call =>
      let '(inv, res) := dispatch self (fresh env i) (answer env i) approved_call tool_ctx in
      Ret (inv, res, st)
  | Blocked guard reason =>
      Ret (None, tool_error ("Blocked by " +:+ guard +:+ ": " +:+ render reason), st)
  | NeedsHuman reason timeout_secs =>
      match registry st with
      | Some approval_runtime => Ret (wait_for_human_approval i call reason timeout_secs approval_runtime st)
      | None =>
          Ret (None,
               tool_error ("Human approval required but no approval runtime is configured: " +:+ render reason), st)
      end
  end.

Definition pure_call (idx : nat) : option (nat * option (Invocation X E) * ToolResult) :=
  c ← tool_calls !! idx;
  Some (let '(inv, res) := dispatch self (fresh env idx) (answer env idx) c tool_ctx in (idx, inv, res)).

Fixpoint dispatch_loop (fuel i : nat) (st : LoopState) : exec LoopState :=
  match fuel with
  | O => Ret st
  | S fuel =>
      match tool_calls !! i with
      | None => Ret st
      | Some call =>
          if decide (category self (tool call) = Pure) then
            let j := grow (length tool_calls) (S i) in
            let results := omap pure_call (seq i (j - i)) in
            let st := fold_left (fun st '(idx, _, res) => put_result idx res st) results st in
            dispatch_loop fuel j (put_step (Concurrent (map fst results)) st)
          else
            let! (inv, res, st) := physical_call i call st in
            dispatch_loop fuel (S i) (put_step (Alone i inv) (put_result i res st))
      end
  end.

End Turn.

(** The results as the model will read them. *)
Definition result_line (to_json : ToolResult -> option string) (call : ToolCall json) (r : ToolResult)
    : string * string * string * bool :=
  let result_json := default "" (to_json r) in
  let result_json :=
    if MAX_TOOL_OUTPUT_CHARS <? chars_count result_json then truncate_tool_output result_json else result_json in
  (tc_id call, tool call, result_json, bool_decide (is_Some (tr_error r))).

Definition all_results (to_json : ToolResult -> option string) (tool_calls : list (ToolCall json))
    (results : list (option ToolResult)) : list (string * string * string * bool) :=
  omap (fun '(idx, maybe_result) =>
          r ← maybe_result; call ← tool_calls !! idx; Some (result_line to_json call r))
    (imap pair results).

Definition dispatch_tool_calls (to_string : json -> string) (render : message -> string)
    (to_json : ToolResult -> option string) (self : ToolDispatcher X) (env : TurnEnv)
    (guards : list G) (registry : option Registry)
    (tool_calls : list (ToolCall json)) (spatial_ctx : WorldState json) (tool_ctx : ToolContext E)
    (messages : list Message) : exec (list Message * LoopState) :=
  let! st := dispatch_loop to_string render self env tool_calls spatial_ctx tool_ctx (length tool_calls) 0
    {| guards := guards; registry := registry; signals := []; requests := [];
       indexed_results := map (fun _ => None) tool_calls; steps := [] |} in
  let all_results := all_results to_json tool_calls (indexed_results st) in
  Ret (match all_results with
       | [] => messages
       | _ => (messages ++ [tool_results all_results])%list
       end, st).

End Dispatcher.

Arguments Concurrent {X E} _.
Arguments Alone {X E} _ _.

(** ** The catalog of tools *)

Section Catalog.
Context {X : Type} `{!ToolExecutor X}.

Definition as_str (v : json) : option string := match v with JString s => Some s | _ => None end.
Definition as_object (v : json) : option (list (string * json)) := match v with JObject m => Some m | _ => None end.
Definition as_array (v : json) : option (list json) := match v with JArray l => Some l | _ => None end.

Definition by_name {A} (a b : string * A) : Prop := String.leb a.1 b.1 = true.

#[export] Instance by_name_dec {A} : forall a b : string * A, Decision (by_name a b).
Proof. intros a b. unfold by_name. apply _. Defined.

Definition nl : string := String (ascii_of_nat 10) "".

Definition property_line (required_arr : list string) (p : string * json) : string :=
  let '(prop_name, prop_schema) := p in
  let prop_type := default "any" (v_get prop_schema "type" ≫= as_str) in
  let req_label := if bool_decide (prop_name ∈ required_arr) then "required" else "optional" in
  let description := default "" (v_get prop_schema "description" ≫= as_str) in
  "- " +:+ prop_name +:+ " (" +:+ prop_type +:+ ", " +:+ req_label +:+ ")" +:+
  (if String.eqb description "" then "" else ": " +:+ description) +:+ nl.

Definition catalog_entry (s : ToolSchema) : string :=
  let properties := v_get (ts_parameters s) "properties" ≫= as_object in
  let required_arr := from_option (omap as_str) [] (v_get (ts_parameters s) "required" ≫= as_array) in
  nl +:+ "### " +:+ ts_name s +:+ nl +:+ ts_description s +:+ nl +:+
  match properties with
  | Some ((_ :: _) as props) =>
      nl +:+ "Parameters:" +:+ nl +:+
      String.concat "" (map (property_line required_arr) (merge_sort by_name props))
  | _ => ""
  end.

Definition tool_catalog (self : ToolDispatcher X) : string :=
  match enabled_entries self with
  | [] => ""
  | entries =>
      "## Available Tools" +:+ nl +:+
      String.concat "" (map (fun kv => catalog_entry (schema (executor kv.2))) (merge_sort by_name entries))
  end.

End Catalog.

(** ** Delegation (roz-worker/dispatch.rs, main.rs) *)

(** roz-core/tasks.rs *)
Record DelegationScope : Type := { allowed_tools : list string; trust_posture : Trust.TrustPosture }.

Section Delegation.
Context {X : Type} `{!ToolExecutor X}.

Definition apply_allowed_tools (dispatcher : ToolDispatcher X) (allowed : list string) : ToolDispatcher X :=
  fold_left (fun d tool_name => (set_enabled d tool_name (bool_decide (tool_name ∈ allowed))).2)
    (tool_names dispatcher) dispatcher.

Definition required_class (dispatcher : ToolDispatcher X) (tool_name : string) : Trust.ExecutionCapabilityClass :=
  if String.eqb tool_name "promote_controller" then Trust.ControllerManagement
  else match category dispatcher tool_name with
       | Physical => Trust.PhysicalLowRisk
       | Pure => Trust.ReadOnly
       | CodeSandbox => Trust.SandboxedMutation
       end.

Definition apply_trust_posture (dispatcher : ToolDispatcher X) (posture : Trust.TrustPosture) : ToolDispatcher X :=
  let evaluator := Trust.new_evaluator posture in
  fold_left (fun d tool_name =>
      if is_ok (Trust.check_tool_availability evaluator (required_class d tool_name)) then d
      else (set_enabled d tool_name false).2)
    (tool_names dispatcher) dispatcher.

(** The executors of the memory and skill tools, in the order of their registration. *)
Record LateTools : Type := {
  session_search : X; memory_read : X; memory_write : X; user_model_query : X;
  skills_list : X; skill_view : X; skill_read_file : X; skill_manage : X;
}.

Definition register_all (c : ToolCategory) (d : ToolDispatcher X) (xs : list X) : ToolDispatcher X :=
  fold_left (fun d x => register_with_category d x c) xs d.

Definition register_phase17_memory_tools (t : LateTools) (d : ToolDispatcher X) : ToolDispatcher X :=
  register_all Pure d [session_search t; memory_read t; memory_write t; user_model_query t].
Definition register_phase18_skill_tools (t : LateTools) (d : ToolDispatcher X) : ToolDispatcher X :=
  register_all Pure d [skills_list t; skill_view t; skill_read_file t; skill_manage t].

(** main.rs narrows the dispatcher when the invocation carries a scope, and registers the
    memory and skill tools afterwards. *)
Definition apply_scope (scope : option DelegationScope) (d : ToolDispatcher X) : ToolDispatcher X :=
  match scope with
  | Some s => apply_trust_posture (apply_allowed_tools d (allowed_tools s)) (trust_posture s)
  | None => d
  end.

Definition effective_delegation_scope (scope : option DelegationScope) (d : ToolDispatcher X) : DelegationScope :=
  default {| allowed_tools := tool_names d; trust_posture := Trust.default_posture |} scope.

Definition worker_dispatcher (scope : option DelegationScope) (late : LateTools) (d : ToolDispatcher X)
    : ToolDispatcher X :=
  register_phase18_skill_tools late (register_phase17_memory_tools late (apply_scope scope d)).

(** roz-core/session/event.rs *)
Record SessionPermissionRule : Type := {
  tool_pattern : string;
  policy : string;
  rule_category : option string;
  rule_reason : option string;
}.

Definition tool_category_policy_name (c : ToolCategory) : string :=
  match c with Pure => "pure" | CodeSandbox => "code_sandbox" | Physical => "physical" end.

Definition derive_session_permissions (dispatcher : ToolDispatcher X) : list SessionPermissionRule :=
  match tool_names dispatcher with
  | [] =>
      [{| tool_pattern := "*"; policy := "require_confirmation"; rule_category := Some "physical";
          rule_reason := Some "default: physical tools require confirmation" |};
       {| tool_pattern := "*"; policy := "allow"; rule_category := Some "pure";
          rule_reason := Some "default: pure tools auto-allowed" |}]
  | names =>
      map (fun tool_name =>
             let c := category dispatcher tool_name in
             {| tool_pattern := tool_name;
                policy := if decide (c = Pure) then "allow" else "require_confirmation";
                rule_category := Some (tool_category_policy_name c);
                rule_reason := None |}) names
  end.

End Delegation.
Arguments LateTools : clear implicits.

(** ** Characters *)

Lemma chars_count_app a b : chars_count (a +:+ b) = chars_count a + chars_count b.
Proof. induction a as [|x a IH]; simpl; [done|]. rewrite IH. lia. Qed.

Lemma chars_count_nonneg s : 0 <= chars_count s.
Proof. induction s as [|a s IH]; simpl; [done|]. case_match; lia. Qed.

(** [char_index n s] splits [s] before its [n]-th character. *)
Lemma char_index_spec s : forall n, 0 <= n < chars_count s ->
  exists k, char_index n s = Some k /\ (k <= String.length s)%nat /\
    chars_count (take_front k s) = n /\ chars_count (drop_front k s) = chars_count s - n.
Proof.
  induction s as [|a s IH]; intros n Hn; simpl in *; [lia|].
  assert (forall m, 0 <= m < chars_count s -> exists k, S <$> char_index m s = Some (S k) /\
    (S k <= S (String.length s))%nat /\
    chars_count (take_front (S k) (String a s)) = (if starts_char a then 1 else 0) + m /\
    chars_count (drop_front (S k) (String a s)) = chars_count s - m) as Hrec.
  { intros m Hm. destruct (IH m Hm) as (k & -> & Hk & Ht & Hd). exists k.
    split; [done|]. split; [lia|]. split; [|exact Hd].
    unfold take_front in *. simpl. by rewrite Ht. }
  destruct (starts_char a) eqn:Ha.
  - destruct (Z.eqb_spec n 0) as [->|Hne].
    + exists 0%nat. split_and!; [done|lia|by destruct s|]. unfold drop_front.
      rewrite Nat.sub_0_r, substring_all. simpl. rewrite Ha. lia.
    + destruct (Hrec (n - 1)) as (k & -> & Hk & Ht & Hd); [lia|]. exists (S k).
      split_and!; [done|lia|lia|lia].
  - destruct (Hrec n) as (k & -> & Hk & Ht & Hd); [lia|]. exists (S k). split_and!; [done|lia|lia|lia].
Qed.

(** A number below [10 ^ k] has at most [k] digits. *)
Lemma pretty_go_length k : forall (x : N) s, (x < 10 ^ N.of_nat k)%N ->
  chars_count (pretty_N_go x s) <= Z.of_nat k + chars_count s.
Proof.
  induction k as [|k IH]; intros x s Hx.
  - assert (x = 0%N) as -> by lia. rewrite pretty_N_go_0. lia.
  - destruct (N.eq_dec x 0) as [->|Hne]; [rewrite pretty_N_go_0; lia|].
    rewrite pretty_N_go_step by lia.
    assert (x `div` 10 < 10 ^ N.of_nat k)%N as Hq.
    { apply N.Div0.div_lt_upper_bound. by rewrite <- N.pow_succ_r', <- Nat2N.inj_succ. }
    specialize (IH _ (String (pretty_N_char (x `mod` 10)) s) Hq). simpl in IH.
    revert IH. case_match; lia.
Qed.

Lemma pretty_length (z : Z) : 0 <= z < 10 ^ 20 -> chars_count (pretty z) <= 20.
Proof.
  intros Hz. destruct z as [|p|p]; [vm_compute; discriminate| |lia].
  change (pretty (Z.pos p)) with (pretty_N_go (N.pos p) "").
  etrans; [apply (pretty_go_length 20); change (10 ^ N.of_nat 20)%N with (Z.to_N (10 ^ 20)); lia|]. simpl. lia.
Qed.

Definition notice (n : Z) : string :=
  nl +:+ nl +:+ "[... ~" +:+ pretty n +:+ " chars omitted ...]" +:+ nl +:+ nl.

Lemma notice_length n : 0 <= n < 10 ^ 20 -> chars_count (notice n) <= 100.
Proof.
  intros Hn. unfold notice. rewrite !chars_count_app. pose proof (pretty_length n Hn).
  change (chars_count nl) with 1. change (chars_count "[... ~") with 6.
  change (chars_count " chars omitted ...]") with 19. lia.
Qed.

(** What the truncation of a text with too many characters is. *)
Lemma truncate_long content : MAX_TOOL_OUTPUT_CHARS < chars_count content ->
  exists head tail, truncate_tool_output content =
      head +:+ notice (chars_count content - HEAD_CHARS - TAIL_CHARS) +:+ tail /\
    starts_with head content = true /\ ends_with tail content = true /\
    chars_count head = HEAD_CHARS /\ chars_count tail = TAIL_CHARS.
Proof.
  unfold MAX_TOOL_OUTPUT_CHARS. intros Hc. unfold truncate_tool_output, MAX_TOOL_OUTPUT_CHARS.
  rewrite (proj2 (Z.leb_gt _ _)) by done. unfold saturating_sub, HEAD_CHARS, TAIL_CHARS.
  rewrite Z.max_r by lia.
  destruct (char_index_spec content 8000) as (k & -> & Hk & Ht & _); [lia|].
  destruct (char_index_spec content (chars_count content - 8000)) as (j & -> & Hj & _ & Hd); [lia|].
  exists (take_front k content), (drop_front j content).
  split; [unfold notice; by rewrite !str_app_assoc|].
  destruct (split_at_length content k Hk) as (a & b & -> & Ha).
  split_and!; [| |done|lia].
  - rewrite <- Ha, take_front_app. apply starts_with_app.
  - destruct (split_at_length (a +:+ b) j Hj) as (c & d & Hcd & Hl). rewrite Hcd, <- Hl, drop_front_app.
    apply ends_with_app.
Qed.

Lemma truncate_short c : chars_count c <= MAX_TOOL_OUTPUT_CHARS -> truncate_tool_output c = c.
Proof. intros Hc. unfold truncate_tool_output. by rewrite (proj2 (Z.leb_le _ _)). Qed.

Lemma truncate_within content : chars_count content <= u64_max ->
  chars_count (truncate_tool_output content) <= MAX_TOOL_OUTPUT_CHARS.
Proof.
  intros Hmax. destruct (Z.le_gt_cases (chars_count content) MAX_TOOL_OUTPUT_CHARS) as [Hle|Hgt].
  { by rewrite truncate_short. }
  destruct (truncate_long content Hgt) as (h & t & -> & _ & _ & Hh & Ht).
  pose proof (notice_length (chars_count content - HEAD_CHARS - TAIL_CHARS)) as Hp.
  rewrite !chars_count_app, Hh, Ht.
  unfold MAX_TOOL_OUTPUT_CHARS, HEAD_CHARS, TAIL_CHARS, u64_max in *. lia.
Qed.

(** the truncation of tool outputs.  A text of at most 20000 characters is kept; a
    longer one becomes its first 8000 and its last 8000 characters around the notice, and
    the result is again within the limit, so that truncating twice changes nothing more. *)
Theorem truncation_bounded (content : string) :
  chars_count content <= u64_max ->
  chars_count (truncate_tool_output content) <= MAX_TOOL_OUTPUT_CHARS /\
  truncate_tool_output (truncate_tool_output content) = truncate_tool_output content /\
  (chars_count content <= MAX_TOOL_OUTPUT_CHARS -> truncate_tool_output content = content) /\
  (MAX_TOOL_OUTPUT_CHARS < chars_count content ->
   exists head tail omitted, truncate_tool_output content = head +:+ omitted +:+ tail /\
     starts_with head content = true /\ ends_with tail content = true /\
     chars_count head = HEAD_CHARS /\ chars_count tail = TAIL_CHARS).
Proof.
  intros Hmax. pose proof (truncate_within content Hmax) as Hb.
  split_and!; [done|by apply truncate_short|by apply truncate_short|].
  intros Hgt. destruct (truncate_long content Hgt) as (h & t & -> & Hh & Ht & Ch & Ct).
  eexists h, t, _. split; [reflexivity|done].
Qed.

Definition long_output : string := Pos.iter (String "a") "" 20001%positive.

Lemma truncation_bounded_witness :
  chars_count long_output <= u64_max /\
  chars_count (truncate_tool_output long_output) <= MAX_TOOL_OUTPUT_CHARS.
Proof.
  assert (chars_count long_output <= u64_max) as H by (vm_compute; discriminate).
  split; [exact H|]. exact (proj1 (truncation_bounded long_output H)).
Defined.

(** ** The table of tools *)

Section Table.
Context {X E : Type} `{!ToolExecutor X}.
Implicit Types d : ToolDispatcher X.

Definition is_enabled d (name : string) : Prop := exists e, tools d !! name = Some e /\ enabled e = true.

Lemma elem_of_tool_names d name : name ∈ tool_names d <-> is_enabled d name.
Proof.
  unfold tool_names, enabled_entries, is_enabled. rewrite list_elem_of_fmap. split.
  - intros ([k e] & -> & H). apply list_elem_of_filter in H as [He Hm]. apply elem_of_map_to_list in Hm. by exists e.
  - intros (e & Hk & He). exists (name, e). split; [done|]. apply list_elem_of_filter. split; [done|].
    by apply elem_of_map_to_list.
Qed.

Lemma set_enabled_lookup d name b k :
  tools (set_enabled d name b).2 !! k =
  if decide (k = name) then with_enabled b <$> tools d !! k else tools d !! k.
Proof.
  unfold set_enabled. destruct (tools d !! name) as [e|] eqn:He; simpl; case_decide as Hk; subst.
  - by rewrite lookup_insert_eq, He.
  - by rewrite lookup_insert_ne.
  - by rewrite He.
  - done.
Qed.

Lemma category_set_enabled d name b k : category (set_enabled d name b).2 k = category d k.
Proof.
  unfold category. rewrite set_enabled_lookup. case_decide; subst; [|done]. by destruct (tools d !! name).
Qed.

(** A pass over names that switches tools off or leaves them keeps the categories, and
    leaves on exactly the tools it does not switch off. *)
Lemma switch_pass (keep : ToolDispatcher X -> string -> bool) (names : list string) : forall d,
  (forall d' k, (forall j, category d' j = category d j) -> keep d' k = keep d k) ->
  let d' := fold_left (fun d k => if keep d k then d else (set_enabled d k false).2) names d in
  (forall k, category d' k = category d k) /\
  (forall k, is_enabled d' k <-> is_enabled d k /\ (k ∈ names -> keep d k = true)).
Proof.
  induction names as [|n names IH]; intros d Hkeep; simpl.
  { split; [done|]. intros k. split; [|naive_solver]. intros H. split; [done|]. by intros ?%not_elem_of_nil. }
  set (d1 := if keep d n then d else (set_enabled d n false).2).
  assert (forall k, category d1 k = category d k) as Hc1.
  { intros k. subst d1. destruct (keep d n); [done|]. apply category_set_enabled. }
  assert (forall k, is_enabled d1 k <-> is_enabled d k /\ (k = n -> keep d n = true)) as He1.
  { intros k. subst d1. destruct (keep d n); [naive_solver|]. unfold is_enabled. rewrite set_enabled_lookup.
    case_decide as Hk; [|naive_solver]. split; [|naive_solver].
    intros (e & He & Hb). destruct (tools d !! k); simplify_eq/=. }
  destruct (IH d1) as [Hc He].
  { intros d' k Hd'. rewrite (Hkeep d1 k Hc1). apply Hkeep. intros j. by rewrite Hd'. }
  split; [intros k; by rewrite Hc|]. intros k. rewrite He, He1.
  rewrite elem_of_cons. rewrite (Hkeep d1 k Hc1). naive_solver.
Qed.

Lemma apply_trust_spec d posture :
  (forall k, category (apply_trust_posture d posture) k = category d k) /\
  (forall k, is_enabled (apply_trust_posture d posture) k <->
     is_enabled d k /\ is_ok (Trust.check_tool_availability (Trust.new_evaluator posture) (required_class d k)) = true).
Proof.
  destruct (switch_pass (fun d k => is_ok (Trust.check_tool_availability (Trust.new_evaluator posture) (required_class d k)))
    (tool_names d) d) as [Hc He].
  { intros d' k H. unfold required_class. by rewrite H. }
  split; [exact Hc|]. intros k. unfold apply_trust_posture. rewrite He, elem_of_tool_names. naive_solver.
Qed.

Lemma set_enabled_same d k : is_enabled d k -> (set_enabled d k true).2 = d.
Proof.
  intros (e & He & Hb). unfold set_enabled. rewrite He. simpl. destruct d as [t to]. simpl in *. f_equal.
  apply insert_id. rewrite He. f_equal. destruct e. simpl in *. by subst.
Qed.

Lemma apply_allowed_fold (allowed names : list string) : forall d,
  NoDup names -> Forall (is_enabled d) names ->
  fold_left (fun d k => (set_enabled d k (bool_decide (k ∈ allowed))).2) names d =
  fold_left (fun d k => if bool_decide (k ∈ allowed) then d else (set_enabled d k false).2) names d.
Proof.
  induction names as [|n names IH]; intros d Hnd He; simpl; [done|].
  apply NoDup_cons in Hnd as [Hn Hnd]. apply Forall_cons in He as [Hen He].
  case_bool_decide as Ha.
  - rewrite set_enabled_same by done. by apply IH.
  - apply IH; [done|]. apply Forall_forall. intros k Hk. rewrite Forall_forall in He.
    destruct (He k Hk) as (e & Hke & Hb). exists e. rewrite set_enabled_lookup.
    case_decide; subst; [done|]. done.
Qed.

Lemma tool_names_nodup d : NoDup (tool_names d).
Proof.
  unfold tool_names, enabled_entries. eapply sublist_NoDup; [apply (NoDup_fst_map_to_list (tools d))|].
  apply fmap_sublist, sublist_filter.
Qed.

Lemma apply_allowed_spec d allowed :
  (forall k, category (apply_allowed_tools d allowed) k = category d k) /\
  (forall k, is_enabled (apply_allowed_tools d allowed) k <-> is_enabled d k /\ k ∈ allowed).
Proof.
  unfold apply_allowed_tools. rewrite apply_allowed_fold; [|apply tool_names_nodup|].
  2:{ apply Forall_forall. intros k. by rewrite elem_of_tool_names. }
  destruct (switch_pass (fun _ k => bool_decide (k ∈ allowed)) (tool_names d) d) as [Hc He]; [done|].
  split; [exact Hc|]. intros k. rewrite He, elem_of_tool_names, bool_decide_eq_true. naive_solver.
Qed.

Lemma register_lookup d x c k :
  tools (register_with_category d x c) !! k =
  if decide (k = ts_name (schema x)) then Some {| executor := x; enabled := true; entry_category := c |}
  else tools d !! k.
Proof. simpl. case_decide; subst; [by rewrite lookup_insert_eq|by rewrite lookup_insert_ne]. Qed.

Lemma register_all_enabled c xs : forall d k,
  is_enabled (register_all c d xs) k <-> is_enabled d k \/ k ∈ map (fun x => ts_name (schema x)) xs.
Proof.
  unfold register_all. induction xs as [|x xs IH]; intros d k; simpl.
  { split; [by left|by intros [?|?%not_elem_of_nil]]. }
  rewrite IH, elem_of_cons. unfold is_enabled at 1. rewrite register_lookup.
  case_decide.
  - split; [intros _; by right; left|]. intros _. left. by eexists.
  - fold (is_enabled d k). tauto.
Qed.

End Table.

(** ** The calls of one turn *)

Definition step_calls {X E} (s : Step (X := X) (E := E)) : list (nat * option (Invocation X E)) :=
  match s with Concurrent l => l | Alone i inv => [(i, inv)] end.

Definition trace_calls {X E} (ss : list (Step (X := X) (E := E))) : list (nat * option (Invocation X E)) :=
  concat (map step_calls ss).

Section Turn.
Context {X E : Type} `{!ToolExecutor X} {G : Type} `{!SafetyGuard json G}.
Context (debug_duration : Duration -> string) (to_string : json -> string) (render : message -> string)
  (self : ToolDispatcher X) (env : TurnEnv (X := X) (E := E)) (tool_calls : list (ToolCall json))
  (spatial_ctx : WorldState json) (tool_ctx : ToolContext E).
#[local] Notation dispatched k c := (dispatch debug_duration self (fresh env k) (answer env k) c tool_ctx).
#[local] Notation is_pure c := (category self (tool c) = Pure).
(** What is known of the stack before call number [i]: pure calls do not ask it, and what is
    known is kept by evaluations. *)
Context (Inv : nat -> list G -> Prop).
Hypothesis inv_pure : forall i gs c, tool_calls !! i = Some c -> is_pure c -> Inv i gs -> Inv (S i) gs.
Hypothesis inv_kept : forall i gs c r gs', tool_calls !! i = Some c -> ~ is_pure c -> Inv i gs ->
  evaluate (clock env i) 0 gs c spatial_ctx = Ret (r, gs') -> Inv (S i) gs'.

#[local] Notation loop := (dispatch_loop debug_duration to_string render self env tool_calls spatial_ctx tool_ctx).

(** What call number [k] may lead to: the execution, if any, and the result. *)
Inductive outcome (k : nat) (c : ToolCall json) : option (Invocation X E) -> ToolResult -> Prop :=
| out_pure : is_pure c -> outcome k c (dispatched k c).1 (dispatched k c).2
| out_approved gs gs' c' : ~ is_pure c -> Inv k gs ->
    evaluate (clock env k) 0 gs c spatial_ctx = Ret (Approved c', gs') ->
    outcome k c (dispatched k c').1 (dispatched k c').2
| out_blocked gs gs' g m : ~ is_pure c -> Inv k gs ->
    evaluate (clock env k) 0 gs c spatial_ctx = Ret (Blocked g m, gs') ->
    outcome k c None (tool_error ("Blocked by " +:+ g +:+ ": " +:+ render m))
| out_human gs gs' m t reg sigs req reg' c' : ~ is_pure c -> Inv k gs ->
    evaluate (clock env k) 0 gs c spatial_ctx = Ret (NeedsHuman m t, gs') ->
    gate_tool_call_for_human_approval to_string c m t (task_id tool_ctx) (others env k) (wait_ends env k) reg
      = (sigs, req, GateApproved c', reg') ->
    outcome k c (dispatched k c').1 (dispatched k c').2
| out_rejected gs gs' m t reg sigs req reg' res : ~ is_pure c -> Inv k gs ->
    evaluate (clock env k) 0 gs c spatial_ctx = Ret (NeedsHuman m t, gs') ->
    gate_tool_call_for_human_approval to_string c m t (task_id tool_ctx) (others env k) (wait_ends env k) reg
      = (sigs, req, GateRejected res, reg') ->
    outcome k c None res
| out_no_authority gs gs' m t : ~ is_pure c -> Inv k gs ->
    evaluate (clock env k) 0 gs c spatial_ctx = Ret (NeedsHuman m t, gs') ->
    outcome k c None
      (tool_error ("Human approval required but no approval runtime is configured: " +:+ render m)).

(** Segments hold pure calls only, and every other call is alone. *)
Inductive step_ok : Step (X := X) (E := E) -> Prop :=
| ok_concurrent l : Forall (fun x => exists c, tool_calls !! x.1 = Some c /\ is_pure c) l -> step_ok (Concurrent l)
| ok_alone i inv c : tool_calls !! i = Some c -> ~ is_pure c -> step_ok (Alone i inv).

Lemma grow_spec fuel : forall j, (j <= length tool_calls)%nat ->
  (j <= grow self tool_calls fuel j <= length tool_calls)%nat /\
  forall k, (j <= k < grow self tool_calls fuel j)%nat -> exists c, tool_calls !! k = Some c /\ is_pure c.
Proof.
  induction fuel as [|fuel IH]; intros j Hj; simpl; [split; [lia|intros; lia]|].
  destruct (tool_calls !! j) as [c|] eqn:Hc; [|split; [lia|intros; lia]].
  case_decide as Hp; [|split; [lia|intros; lia]].
  apply lookup_lt_Some in Hc as Hlt. destruct (IH (S j)) as [Hb Ha]; [lia|]. split; [lia|].
  intros k Hk. destruct (decide (k = j)) as [->|]; [by exists c|]. apply Ha. lia.
Qed.

(** The loop's effect from [i] on. *)
Record loop_done (i : nat) (st st' : LoopState (X := X) (E := E) (G := G)) (new : list (Step (X := X) (E := E))) : Prop := {
  ld_steps : steps st' = (steps st ++ new)%list;
  ld_ok : Forall step_ok new;
  ld_indices : (trace_calls new).*1 = seq i (length tool_calls - i);
  ld_length : length (indexed_results st') = length (indexed_results st);
  ld_before : forall k, (k < i)%nat -> indexed_results st' !! k = indexed_results st !! k;
  ld_after : forall k c, (i <= k)%nat -> tool_calls !! k = Some c ->
    exists inv r, indexed_results st' !! k = Some (Some r) /\ outcome k c inv r /\ (k, inv) ∈ trace_calls new;
  ld_inv : Inv (length tool_calls) (guards st');
}.

Lemma physical_spec i c st inv res st1 :
  tool_calls !! i = Some c -> ~ is_pure c -> Inv i (guards st) ->
  physical_call debug_duration to_string render self env spatial_ctx tool_ctx i c st = Ret (inv, res, st1) ->
  outcome i c inv res /\ Inv (S i) (guards st1) /\ steps st1 = steps st /\ indexed_results st1 = indexed_results st.
Proof.
  intros Hci Hp Hi. unfold physical_call. intros H. apply exec_bind_ret in H as ([r gs'] & He & H).
  pose proof (inv_kept _ _ _ _ _ Hci Hp Hi He) as Hi'.
  destruct r as [c'|g m|m t].
  - destruct (dispatched i c') as [inv' res'] eqn:Hd. simplify_eq. split; [|done].
    pose proof (out_approved i c _ _ _ Hp Hi He) as Ho. by rewrite Hd in Ho.
  - simplify_eq. split; [|done]. eapply out_blocked; [done|exact Hi|exact He].
  - simpl in H. destruct (registry st) as [reg|]; simplify_eq; [|split; [eapply out_no_authority; [done|exact Hi|exact He]|done]].
    unfold wait_for_human_approval in *.
    destruct (gate_tool_call_for_human_approval _ _ _ _ _ _ _ _) as [[[sigs req] result] reg'] eqn:Hg.
    destruct result as [c'|res'].
    + destruct (dispatched i c') as [inv' res'] eqn:Hd. simplify_eq. split; [|done].
      pose proof (out_human i c _ _ _ _ _ _ _ _ _ Hp Hi He Hg) as Ho. by rewrite Hd in Ho.
    + simplify_eq. split; [|done]. eapply out_rejected; [done|exact Hi|exact He|exact Hg].
Qed.

(** The results of a pure segment are stored at their own indices. *)
Lemma put_results_spec (rs : list (nat * option (Invocation X E) * ToolResult)) :
  forall st : LoopState (X := X) (E := E) (G := G),
  NoDup rs.*1.*1 ->
  let st' := fold_left (fun st '(idx, _, res) => put_result idx res st) rs st in
  steps st' = steps st /\ guards st' = guards st /\
  length (indexed_results st') = length (indexed_results st) /\
  (forall k, k ∉ rs.*1.*1 -> indexed_results st' !! k = indexed_results st !! k) /\
  (forall k inv r, (k, inv, r) ∈ rs -> (k < length (indexed_results st))%nat ->
     indexed_results st' !! k = Some (Some r)).
Proof.
  induction rs as [|[[k0 inv0] r0] rs IH]; intros st Hnd; simpl.
  { split_and!; [done..|]. by intros ? ? ? ?%not_elem_of_nil. }
  apply NoDup_cons in Hnd as [Hn Hnd]. destruct (IH (put_result k0 r0 st) Hnd) as (Hs & Hg & Hl & Hb & Ha).
  simpl in *. rewrite length_insert in Hl. split_and!; [done..| |].
  - intros k Hk. apply not_elem_of_cons in Hk as [Hk Hk']. rewrite Hb by done. by apply list_lookup_insert_ne.
  - intros k inv r Hin Hlt. apply elem_of_cons in Hin as [Heq|Hin].
    + simplify_eq. rewrite Hb by done. by apply list_lookup_insert_eq.
    + apply (Ha _ inv); [done|]. by rewrite length_insert.
Qed.

Lemma pure_results_spec i n : (forall k, (i <= k < i + n)%nat -> exists c, tool_calls !! k = Some c /\ is_pure c) ->
  let rs := omap (pure_call debug_duration self env tool_calls tool_ctx) (seq i n) in
  rs.*1.*1 = seq i n /\
  forall k c, (i <= k < i + n)%nat -> tool_calls !! k = Some c ->
    (k, (dispatched k c).1, (dispatched k c).2) ∈ rs.
Proof.
  revert i. induction n as [|n IH]; intros i Hp; [split; [done|intros; lia]|].
  destruct (IH (S i)) as [Hm Ha]; [intros k Hk; apply Hp; lia|].
  destruct (Hp i) as (c & Hc & _); [lia|]. cbn [seq omap list_omap].
  destruct (dispatched i c) as [inv res] eqn:Hd.
  assert (pure_call debug_duration self env tool_calls tool_ctx i = Some (i, inv, res)) as ->.
  { unfold pure_call. rewrite Hc. simpl. by rewrite Hd. }
  split.
  - exact (f_equal (cons i) Hm).
  - intros k c' Hk Hc'. destruct (decide (k = i)) as [->|Hne].
    + simplify_eq. rewrite Hd. left.
    + right. apply Ha; [lia|done].
Qed.

Lemma trace_calls_cons s (ss : list (Step (X := X) (E := E))) : trace_calls (s :: ss) = (step_calls s ++ trace_calls ss)%list.
Proof. done. Qed.

Lemma inv_segment i j gs : (i <= j)%nat ->
  (forall k, (i <= k < j)%nat -> exists c, tool_calls !! k = Some c /\ is_pure c) -> Inv i gs -> Inv j gs.
Proof.
  intros Hij. induction Hij as [|j Hij IH]; intros Hall Hi; [done|].
  destruct (Hall j) as (c & Hc & Hp); [lia|]. apply (inv_pure j gs c Hc Hp), IH; [|done].
  intros k Hk. apply Hall. lia.
Qed.

Lemma loop_spec fuel : forall i st st', (length tool_calls - i <= fuel)%nat -> (i <= length tool_calls)%nat ->
  length (indexed_results st) = length tool_calls -> Inv i (guards st) ->
  loop fuel i st = Ret st' -> exists new, loop_done i st st' new.
Proof.
  induction fuel as [|fuel IH]; intros i st st' Hf Hi Hlen Hinv H; simpl in H.
  { assert (i = length tool_calls) as -> by lia. simplify_eq. exists []. split; try done.
    - by rewrite app_nil_r.
    - by rewrite Nat.sub_diag.
    - intros k c Hk Hc. apply lookup_lt_Some in Hc. lia. }
  destruct (tool_calls !! i) as [c|] eqn:Hc.
  2:{ apply lookup_ge_None in Hc. simplify_eq. assert (i = length tool_calls) as Hil by lia.
      exists []. split; try done; [..|by rewrite <- Hil].
      - by rewrite app_nil_r.
      - by rewrite (proj2 (Nat.sub_0_le _ _)).
      - intros k c Hk Hc'. apply lookup_lt_Some in Hc'. lia. }
  apply lookup_lt_Some in Hc as Hlt. case_decide as Hp.
  - set (j := grow self tool_calls (length tool_calls) (S i)) in *.
    destruct (grow_spec (length tool_calls) (S i) Hlt) as [Hj Hall]. fold j in Hj, Hall.
    assert (forall k, (i <= k < i + (j - i))%nat -> exists c, tool_calls !! k = Some c /\ is_pure c) as Hseg.
    { intros k Hk. destruct (decide (k = i)) as [->|]; [by exists c|]. apply Hall. lia. }
    destruct (pure_results_spec i (j - i) Hseg) as [Hm Hin].
    set (rs := omap _ _) in *.
    destruct (put_results_spec rs st) as (Hs & Hg & Hl & Hb & Ha); [rewrite Hm; apply NoDup_seq|].
    set (st1 := fold_left _ rs st) in *.
    destruct (IH j (put_step (Concurrent (map fst rs)) st1) st') as (new & Hd);
      [lia|lia|simpl; lia|simpl; rewrite Hg; apply (inv_segment i); [lia| |done]; intros k Hk; apply Hseg; lia|done|].
    destruct Hd as [Ds Do Di Dl Db Da Dinv]. exists (Concurrent (map fst rs) :: new). split.
    + rewrite Ds. simpl. rewrite Hs. by rewrite <- app_assoc.
    + constructor; [|done]. constructor. apply Forall_forall. intros x Hx.
      assert (x.1 ∈ seq i (j - i)) as Hx'. { rewrite <- Hm. apply list_elem_of_fmap. by exists x. }
      apply elem_of_seq in Hx'. apply Hseg. lia.
    + rewrite trace_calls_cons, fmap_app, Di. simpl. change (map fst rs) with (rs.*1). rewrite Hm.
      replace (length tool_calls - i)%nat with ((j - i) + (length tool_calls - j))%nat by lia.
      rewrite seq_app. by replace (i + (j - i))%nat with j by lia.
    + simpl in Dl. lia.
    + intros k Hk. rewrite Db by lia. simpl. apply Hb. rewrite Hm. rewrite elem_of_seq. lia.
    + intros k c' Hk Hc'. destruct (decide (k < j)%nat) as [Hkj|Hkj].
      * specialize (Hin k c' ltac:(lia) Hc'). eexists _, _. split_and!.
        -- rewrite Db by lia. simpl. apply (Ha k (dispatched k c').1); [done|]. rewrite Hlen. by eapply lookup_lt_Some.
        -- constructor. destruct (Hseg k) as (c2 & Hc2 & ?); [lia|]. by simplify_eq.
        -- rewrite trace_calls_cons, elem_of_app. left. simpl. apply list_elem_of_fmap. eexists. split; [|exact Hin]. done.
      * destruct (Da k c') as (inv & r & ? & ? & ?); [lia|done|]. exists inv, r. split_and!; [done..|].
        rewrite trace_calls_cons, elem_of_app. by right.
    + done.
  - apply exec_bind_ret in H as ([[inv res] st1] & Hph & H).
    destruct (physical_spec _ _ _ _ _ _ Hc Hp Hinv Hph) as (Ho & Hi1 & Hs & Hr).
    destruct (IH (S i) (put_step (Alone i inv) (put_result i res st1)) st') as (new & Hd);
      [lia|lia|simpl; rewrite length_insert, Hr; done|done|done|].
    destruct Hd as [Ds Do Di Dl Db Da Dinv]. simpl in *. rewrite length_insert, Hr in Dl. rewrite Hs in Ds.
    exists (Alone i inv :: new). split.
    + rewrite Ds. by rewrite <- app_assoc.
    + constructor; [|done]. by apply (ok_alone i inv c).
    + rewrite trace_calls_cons, fmap_app, Di. simpl.
      replace (length tool_calls - i)%nat with (S (length tool_calls - S i)) by lia. done.
    + done.
    + intros k Hk. rewrite Db by lia. rewrite Hr. apply list_lookup_insert_ne. lia.
    + intros k c' Hk Hc'. destruct (decide (k = i)) as [->|Hne].
      * simplify_eq. exists inv, res. split_and!; [|done|rewrite trace_calls_cons; by left].
        rewrite Db by lia. apply list_lookup_insert_eq. rewrite Hr, Hlen. done.
      * destruct (Da k c') as (inv' & r & ? & ? & ?); [lia|done|]. exists inv', r. split_and!; [done..|].
        rewrite trace_calls_cons, elem_of_app. by right.
    + done.
Qed.

End Turn.

(** ** The results as a message *)

Lemma all_results_some (to_json : ToolResult -> option string) (calls : list (ToolCall json)) (rs : list ToolResult) :
  length rs = length calls ->
  all_results to_json calls (map Some rs) = zip_with (result_line to_json) calls rs.
Proof.
  unfold all_results. intros Hl.
  cut (forall pre, omap (fun '(idx, maybe_result) =>
            r ← maybe_result; call ← (pre ++ calls)%list !! idx; Some (result_line to_json call r))
          (imap (fun i => pair (length pre + i)%nat) (map Some rs)) = zip_with (result_line to_json) calls rs).
  { intros H. exact (H []). }
  revert rs Hl. induction calls as [|c calls IH]; intros [|r rs] Hl pre; try done.
  cbn [map imap omap list_omap zip_with]. simpl in Hl. rewrite Nat.add_0_r. simpl.
  rewrite list_lookup_middle by done. simpl. f_equal.
  rewrite <- (IH rs ltac:(lia) (pre ++ [c])%list). rewrite <- app_assoc. simpl.
  f_equal. unfold compose. apply imap_ext. intros i x _. rewrite length_app. simpl. f_equal. lia.
Qed.

Lemma results_all_some {A} (n : nat) : forall (os : list (option A)), length os = n ->
  (forall k, (k < n)%nat -> exists r, os !! k = Some (Some r)) -> exists rs, os = map Some rs /\ length rs = n.
Proof.
  induction n as [|n IH]; intros [|o os] Hl H; try done; [by exists []|].
  destruct (H 0%nat) as [r Hr]; [lia|]. simpl in Hr. simplify_eq.
  destruct (IH os) as (rs & -> & Hrs); [by simpl in Hl; lia| |].
  - intros k Hk. apply (H (S k)). lia.
  - exists (r :: rs). split; [done|]. simpl. lia.
Qed.

(** ** Transcripts *)

(** The message that answers the calls of the last one. *)
Lemma well_paired_answer messages m rs :
  well_paired messages -> last messages = Some m -> role m = Assistant ->
  omap result_id (parts (tool_results rs)) ⊆ omap use_id (parts m) ->
  well_paired (messages ++ [tool_results rs]).
Proof.
  intros Hw Hl Hr Hs i x Hx Hres. apply lookup_app_Some in Hx as [Hx|[Hge Hx]].
  - destruct (Hw i x Hx Hres) as (prev & ? & Hp & ?). exists prev. split_and!; [done| |done].
    by apply lookup_app_l_Some.
  - apply list_lookup_singleton_Some in Hx as [Hi <-]. exists m.
    rewrite last_lookup in Hl. apply lookup_lt_Some in Hl as Hlt.
    split_and!; [lia| |by split_and!]. apply lookup_app_l_Some. by replace (i - 1)%nat with (pred (length messages)) by lia.
Qed.

Lemma result_ids (rs : list (string * string * string * bool)) :
  omap result_id (parts (tool_results rs)) = map (fun r => r.1.1.1) rs.
Proof. induction rs as [|[[[id n] c] e] rs IH]; csimpl; [done|]. by rewrite <- IH. Qed.

Lemma result_line_ids to_json calls rs : length rs = length calls ->
  map (fun r => r.1.1.1) (zip_with (result_line to_json) calls rs) = map tc_id calls.
Proof. revert rs. induction calls as [|c calls IH]; intros [|r rs] H; simplify_eq/=; [done|]. by rewrite IH. Qed.

Lemma tool_calls_ids resp : map tc_id (Context.tool_calls resp) = omap use_id (resp_parts resp).
Proof.
  unfold Context.tool_calls. induction (resp_parts resp) as [|p ps IH]; csimpl; [done|].
  destruct p; simpl; by rewrite ?IH.
Qed.

(** ** Properties of a turn *)

Section TurnProperties.
Context {X E : Type} `{!ToolExecutor X} {G : Type} `{!SafetyGuard json G}.
Context (debug_duration : Duration -> string) (to_string : json -> string) (render : message -> string)
  (to_json : ToolResult -> option string)
  (self : ToolDispatcher X) (env : TurnEnv (X := X) (E := E)) (gs : list G) (reg : option Registry)
  (calls : list (ToolCall json)) (spatial_ctx : WorldState json) (tool_ctx : ToolContext E).

#[local] Notation dispatched k c := (dispatch debug_duration self (fresh env k) (answer env k) c tool_ctx).
#[local] Notation turn := (dispatch_tool_calls debug_duration to_string render to_json self env gs reg calls spatial_ctx tool_ctx).
#[local] Notation outcome_of Inv := (outcome debug_duration to_string render self env spatial_ctx tool_ctx Inv).

Lemma turn_done (Inv : nat -> list G -> Prop) messages messages' st :
  (forall i gs c, calls !! i = Some c -> category self (tool c) = Pure -> Inv i gs -> Inv (S i) gs) ->
  (forall i gs c r gs', calls !! i = Some c -> category self (tool c) <> Pure -> Inv i gs ->
     evaluate (clock env i) 0 gs c spatial_ctx = Ret (r, gs') -> Inv (S i) gs') -> Inv 0%nat gs ->
  turn messages = Ret (messages', st) ->
  exists rs, indexed_results st = map Some rs /\ length rs = length calls /\
    messages' = match calls with [] => messages
                | _ => (messages ++ [tool_results (zip_with (result_line to_json) calls rs)])%list end /\
    Forall (step_ok self calls) (steps st) /\
    (trace_calls (steps st)).*1 = seq 0 (length calls) /\
    (forall k c r, calls !! k = Some c -> rs !! k = Some r ->
       exists inv, (k, inv) ∈ trace_calls (steps st) /\ outcome_of Inv k c inv r).
Proof.
  intros Hpure Hkept Hinv H. unfold dispatch_tool_calls in H. apply exec_bind_ret in H as (st0 & Hloop & H).
  injection H as Hm Hst. subst st0.
  eapply (loop_spec _ _ _ _ _ _ _ _ Inv Hpure Hkept) in Hloop as (new & [Ds Do Di Dl _ Da _]);
    [|lia|lia|by simpl; rewrite length_map|exact Hinv].
  simpl in *. rewrite length_map in Dl. rewrite Nat.sub_0_r in Di. subst new.
  destruct (results_all_some (length calls) (indexed_results st) Dl) as (rs & Hrs & Hlen).
  { intros k Hk. destruct (lookup_lt_is_Some_2 calls k Hk) as [c Hc].
    destruct (Da k c ltac:(lia) Hc) as (inv & r & ? & _). by exists r. }
  exists rs. split_and!; [done|done| |done|done|].
  - rewrite <- Hm, Hrs, all_results_some by done. destruct calls, rs; simpl in *; simplify_eq; done.
  - intros k c r Hc Hr. destruct (Da k c ltac:(lia) Hc) as (inv & r' & Hr' & Ho & Hin).
    rewrite Hrs, map_lookup, Hr in Hr'. simpl in Hr'. simplify_eq. by exists inv.
Qed.

(** The stack keeps its property over a turn. *)
Lemma turn_inv (Inv : nat -> list G -> Prop) messages messages' st :
  (forall i gs c, calls !! i = Some c -> category self (tool c) = Pure -> Inv i gs -> Inv (S i) gs) ->
  (forall i gs c r gs', calls !! i = Some c -> category self (tool c) <> Pure -> Inv i gs ->
     evaluate (clock env i) 0 gs c spatial_ctx = Ret (r, gs') -> Inv (S i) gs') -> Inv 0%nat gs ->
  turn messages = Ret (messages', st) -> Inv (length calls) (guards st).
Proof.
  intros Hpure Hkept Hinv H. unfold dispatch_tool_calls in H. apply exec_bind_ret in H as (st0 & Hloop & H).
  injection H as _ Hst. subst st0.
  eapply (loop_spec _ _ _ _ _ _ _ _ Inv Hpure Hkept) in Hloop as (new & [_ _ _ _ _ _ Di]);
    [done|lia|lia|by simpl; rewrite length_map|exact Hinv].
Qed.

(** Every call of a trace has an outcome. *)
Lemma trace_call_outcome (Inv : nat -> list G -> Prop) messages messages' st k inv :
  (forall i gs c, calls !! i = Some c -> category self (tool c) = Pure -> Inv i gs -> Inv (S i) gs) ->
  (forall i gs c r gs', calls !! i = Some c -> category self (tool c) <> Pure -> Inv i gs ->
     evaluate (clock env i) 0 gs c spatial_ctx = Ret (r, gs') -> Inv (S i) gs') -> Inv 0%nat gs ->
  turn messages = Ret (messages', st) -> (k, inv) ∈ trace_calls (steps st) ->
  exists c r, calls !! k = Some c /\ outcome_of Inv k c inv r.
Proof.
  intros Hpure Hkept Hinv H Hin. destruct (turn_done Inv _ _ _ Hpure Hkept Hinv H) as (rs & _ & Hl & _ & _ & Hseq & Ho).
  assert (k ∈ seq 0 (length calls)) as Hk. { rewrite <- Hseq. apply list_elem_of_fmap. by exists (k, inv). }
  apply elem_of_seq in Hk. destruct (lookup_lt_is_Some_2 calls k) as [c Hc]; [lia|].
  destruct (lookup_lt_is_Some_2 rs k) as [r Hr]; [lia|].
  destruct (Ho k c r Hc Hr) as (inv' & Hin' & Hout). exists c, r. split; [done|].
  assert (inv' = inv) as ->; [|done].
  apply list_elem_of_lookup in Hin as [i Hi]. apply list_elem_of_lookup in Hin' as [j Hj].
  assert (i = j) as ->; [|by simplify_eq].
  eapply (NoDup_lookup (trace_calls (steps st)).*1 i j k); [by rewrite Hseq; apply NoDup_seq|..];
    rewrite list_lookup_fmap; [by rewrite Hi|by rewrite Hj].
Qed.

Lemma dispatch_executes k c inv :
  (dispatched k c).1 = Some inv ->
  exists entry, tools self !! tool c = Some entry /\ enabled entry = true /\
    inv_executor inv = executor entry /\ inv_params inv = params c.
Proof.
  unfold dispatch. destruct (tools self !! tool c) as [entry|]; [|done].
  destruct (enabled entry) eqn:He; simpl; [|done]. intros H. simplify_eq. by exists entry.
Qed.

End TurnProperties.

(** The message of a turn's results keeps the transcript acceptable. *)
Lemma turn_keeps_paired {X E : Type} `{!ToolExecutor X} {G : Type} `{!SafetyGuard json G}
    (debug_duration : Duration -> string) (to_string : json -> string) (render : message -> string)
    (to_json : ToolResult -> option string) (self : ToolDispatcher X) (env : TurnEnv (X := X) (E := E))
    (gs : list G) (reg : option Registry) (resp : CompletionResponse) (spatial_ctx : WorldState json)
    (tool_ctx : ToolContext E) (messages messages' : list Message) (st : LoopState) :
  let before := (messages ++ [assistant_parts (resp_parts resp)])%list in
  let calls := Context.tool_calls resp in
  well_paired messages -> calls <> [] -> omap result_id (resp_parts resp) = [] ->
  dispatch_tool_calls debug_duration to_string render to_json self env gs reg calls spatial_ctx tool_ctx before
    = Ret (messages', st) -> well_paired messages'.
Proof.
  intros before calls Hw Hne Hnores H.
  destruct (turn_done _ _ _ _ _ _ _ _ _ _ _ (fun _ _ => True) _ _ _ ltac:(done) ltac:(done) I H) as (rs & _ & Hl & Hm & _).
  assert (messages' = (before ++ [tool_results (zip_with (result_line to_json) calls rs)])%list) as ->.
  { rewrite Hm. by destruct calls. }
  apply (well_paired_answer _ (assistant_parts (resp_parts resp))); [|by apply last_app_singleton|done|].
  - intros i x Hx Hres. unfold before in *. apply lookup_app_Some in Hx as [Hx|[_ Hx]].
    + destruct (Hw i x Hx Hres) as (prev & ? & ? & ?). exists prev. split_and!; [done| |done]. by apply lookup_app_l_Some.
    + apply list_lookup_singleton_Some in Hx as [_ <-]. done.
  - rewrite result_ids, result_line_ids by done. unfold calls. by rewrite tool_calls_ids.
Qed.

(** C16: the calls of a turn are all answered.  Whatever the stack decides, the tools answer
    and the operators do, when no guard panics the turn adds one message, with one
    result for each call, in the order of the calls and under their identifiers and names; no
    result exceeds the limit on characters; and appended after the response that made the
    calls, it leaves a transcript in which every result follows its call. *)
Theorem turn_answers_every_call {X E : Type} `{!ToolExecutor X} {G : Type} `{!SafetyGuard json G}
    (debug_duration : Duration -> string) (to_string : json -> string) (render : message -> string)
    (to_json : ToolResult -> option string) (self : ToolDispatcher X) (env : TurnEnv (X := X) (E := E))
    (gs : list G) (reg : option Registry) (resp : CompletionResponse) (spatial_ctx : WorldState json)
    (tool_ctx : ToolContext E) (messages messages' : list Message) (st : LoopState) :
  let before := (messages ++ [assistant_parts (resp_parts resp)])%list in
  let calls := Context.tool_calls resp in
  well_paired messages -> calls <> [] ->
  (forall r json, to_json r = Some json -> chars_count json <= u64_max) ->
  omap result_id (resp_parts resp) = [] ->
  dispatch_tool_calls debug_duration to_string render to_json self env gs reg calls spatial_ctx tool_ctx before
    = Ret (messages', st) ->
  exists lines, messages' = (before ++ [tool_results lines])%list /\ well_paired messages' /\
    Forall2 (fun c l => l.1.1.1 = tc_id c /\ l.1.1.2 = tool c /\ chars_count l.1.2 <= MAX_TOOL_OUTPUT_CHARS) calls lines.
Proof.
  intros before calls Hw Hne Hsize Hnores H.
  pose proof (turn_keeps_paired _ _ _ _ _ _ _ _ _ _ _ _ _ _ Hw Hne Hnores H) as Hpaired.
  destruct (turn_done _ _ _ _ _ _ _ _ _ _ _ (fun _ _ => True) _ _ _ ltac:(done) ltac:(done) I H) as (rs & _ & Hl & Hm & _).
  exists (zip_with (result_line to_json) calls rs). split; [by rewrite Hm; destruct calls|]. split; [exact Hpaired|].
  clear -Hl Hsize. clearbody calls. revert rs Hl.
  induction calls as [|c calls IH]; intros [|r rs] Hl; simplify_eq/=; constructor; [|by apply IH].
  split_and!; [done|done|]. unfold result_line. simpl.
  destruct (Z.ltb_spec MAX_TOOL_OUTPUT_CHARS (chars_count (default "" (to_json r)))) as [Hlt|Hge]; [|lia].
  apply truncate_within. destruct (to_json r) as [j|] eqn:Hj; simpl; [by apply (Hsize r)|vm_compute; discriminate].
Qed.

(** A turn of a stack that never panics returns. *)
Lemma loop_returns {X E : Type} `{!ToolExecutor X} {G : Type} `{!SafetyGuard json G}
    (debug_duration : Duration -> string) (to_string : json -> string) (render : message -> string)
    (self : ToolDispatcher X) (env : TurnEnv (X := X) (E := E)) (calls : list (ToolCall json))
    (spatial_ctx : WorldState json) (tool_ctx : ToolContext E) (Inv : list G -> Prop) fuel :
  (forall i gs c, Inv gs -> exists r gs', evaluate (clock env i) 0 gs c spatial_ctx = Ret (r, gs') /\ Inv gs') ->
  forall i st, Inv (guards st) ->
  is_ret (dispatch_loop debug_duration to_string render self env calls spatial_ctx tool_ctx fuel i st) = true.
Proof.
  intros Htotal. induction fuel as [|fuel IH]; intros i st Hst; simpl; [done|].
  destruct (calls !! i) as [c|]; [|done]. case_decide.
  - apply IH. simpl. set (rs := omap _ _). clearbody rs. revert st Hst.
    induction rs as [|[[k inv] r] rs IHr]; intros st Hst; simpl; [done|]. by apply IHr.
  - destruct (Htotal i (guards st) c Hst) as (r & gs' & He & Hgs).
    unfold physical_call at 1. rewrite He. cbn [exec_bind]. destruct r as [c'|g m|m t].
    + destruct (dispatch _ _ _ _ _ _). by apply IH.
    + by apply IH.
    + simpl. destruct (registry st) as [reg|]; [|by apply IH]. unfold wait_for_human_approval.
      destruct (gate_tool_call_for_human_approval _ _ _ _ _ _ _ _) as [[[? ?] []] ?]; [|by apply IH].
      destruct (dispatch _ _ _ _ _ _). by apply IH.
Qed.

Lemma turn_returns {X E : Type} `{!ToolExecutor X} {G : Type} `{!SafetyGuard json G}
    (debug_duration : Duration -> string) (to_string : json -> string) (render : message -> string)
    (to_json : ToolResult -> option string) (self : ToolDispatcher X) (env : TurnEnv (X := X) (E := E))
    (calls : list (ToolCall json)) (spatial_ctx : WorldState json) (tool_ctx : ToolContext E)
    (Inv : list G -> Prop) gs reg messages :
  (forall i gs c, Inv gs -> exists r gs', evaluate (clock env i) 0 gs c spatial_ctx = Ret (r, gs') /\ Inv gs') ->
  Inv gs ->
  is_ret (dispatch_tool_calls debug_duration to_string render to_json self env gs reg calls spatial_ctx tool_ctx messages) = true.
Proof.
  intros Ht Hgs. unfold dispatch_tool_calls. match goal with |- context [dispatch_loop _ _ _ _ _ _ _ _ ?n ?i ?st] =>
    pose proof (loop_returns debug_duration to_string render self env calls spatial_ctx tool_ctx Inv n Ht i st Hgs) as Hl end.
  destruct (dispatch_loop _ _ _ _ _ _ _ _ _ _ _); done.
Qed.

(** The tool only observes: it was registered as pure.  A tool that is not registered acts. *)
Definition observing {X : Type} (self : ToolDispatcher X) (name : string) : Prop :=
  exists e, tools self !! name = Some e /\ entry_category e = Pure.

Lemma category_pure {X : Type} (self : ToolDispatcher X) name : category self name = Pure <-> observing self name.
Proof.
  unfold category, observing. destruct (tools self !! name) as [e|]; cbn; [|by split; [|intros (? & ? & _)]].
  split; [by exists e|by intros (e' & [= <-] & ?)].
Qed.

(** The stack [gs] as call number [k] of a turn meets it: the calls before it that are not
    pure were decided one after the other, each on the stack the one before left. *)
Inductive stack_at {X E : Type} `{!ToolExecutor X} {G : Type} `{!SafetyGuard json G} (self : ToolDispatcher X)
    (env : TurnEnv (X := X) (E := E)) (calls : list (ToolCall json)) (spatial_ctx : WorldState json) (gs : list G)
    : nat -> list G -> Prop :=
| stack_start : stack_at self env calls spatial_ctx gs 0 gs
| stack_pure k gs0 c :
    stack_at self env calls spatial_ctx gs k gs0 -> calls !! k = Some c -> observing self (tool c) ->
    stack_at self env calls spatial_ctx gs (S k) gs0
| stack_acting k gs0 c r gs1 :
    stack_at self env calls spatial_ctx gs k gs0 -> calls !! k = Some c -> ~ observing self (tool c) ->
    decided (clock env k) spatial_ctx 0 gs0 c r gs1 ->
    stack_at self env calls spatial_ctx gs (S k) gs1.

(** C14: no call acts without permission.  Whatever the stack of guards, every execution a
    turn leads to is of an enabled tool; a call of a tool registered as pure is executed as the model
    made it;
    any other call was put to the turn's stack of guards, as the acting calls before it left
    it, and is executed exactly as the call that passed every guard in turn, or, when a guard
    asked for a human, after an operator approved it, as the model made it but for the values
    of the operator's modifier (whose keys are distinct). *)
Theorem executed_calls_authorised {X E : Type} `{!ToolExecutor X} {G : Type} `{!SafetyGuard json G}
    (debug_duration : Duration -> string) (to_string : json -> string) (render : message -> string)
    (to_json : ToolResult -> option string) (self : ToolDispatcher X) (env : TurnEnv (X := X) (E := E))
    (gs : list G) (reg : option Registry) (calls : list (ToolCall json)) (spatial_ctx : WorldState json)
    (tool_ctx : ToolContext E) (messages messages' : list Message) (st : LoopState) (k : nat) (inv : Invocation X E) :
  dispatch_tool_calls debug_duration to_string render to_json self env gs reg calls spatial_ctx tool_ctx messages
    = Ret (messages', st) ->
  (k, Some inv) ∈ trace_calls (steps st) ->
  exists c c' entry, calls !! k = Some c /\ tools self !! tool c' = Some entry /\ enabled entry = true /\
    inv_executor inv = executor entry /\ inv_params inv = params c' /\
    (observing self (tool c) /\ c' = c \/
     ~ observing self (tool c) /\ exists gs0 r gs1, stack_at self env calls spatial_ctx gs k gs0 /\
       decided (clock env k) spatial_ctx 0 gs0 c r gs1 /\
       (r = Approved c' \/
        exists reason t m, r = NeedsHuman reason t /\
          wait_ends env k = WaitAnswered {| approved := true; modifier := m |} /\
          (modifier_keys m -> tool c' = tool c /\ merged_params (params c) m (params c')))).
Proof.
  intros H Hin. destruct (trace_call_outcome _ _ _ _ _ _ _ _ _ _ _ (stack_at self env calls spatial_ctx gs) _ _ _ _ _
    ltac:(intros; eapply stack_pure; [done..|by apply category_pure])
    ltac:(intros; eapply stack_acting; [done..|by rewrite <- category_pure|by apply evaluate_decided]) ltac:(constructor) H Hin)
    as (c & r & Hc & Ho).
  inversion Ho as [Hp Hi|gs0 gs1 c' Hp Hg0 He Hi|?|gs0 gs1 m t rg sigs req rg' c' Hp Hg0 He Hg Hi|?|?]; subst; clear Ho.
  - apply dispatch_executes in Hi as (e & ? & ? & ? & ?). exists c, c, e. rewrite <- category_pure. by auto 10.
  - apply dispatch_executes in Hi as (e & ? & ? & ? & ?). apply evaluate_decided in He. exists c, c', e. rewrite <- category_pure. eauto 15.
  - apply dispatch_executes in Hi as (e & ? & ? & ? & ?). exists c, c', e. rewrite <- category_pure.
    split_and!; [done..|]. right. split; [done|]. exists gs0, (NeedsHuman m t), gs1.
    split; [exact Hg0|]. split; [by apply evaluate_decided|]. right.
    unfold gate_tool_call_for_human_approval in Hg.
    destruct (gate_opening _ _ _ _ _) as [[[opening request] n] r0].
    destruct (gate_closing to_string c (wait_ends env k)) as [sig res] eqn:Hcl. simplify_eq.
    apply gate_closing_approved in Hcl as (m' & Hw & Ha & _). exists m, t, m'. split_and!; [done..|].
    intros Hk. by destruct (proj2 (approved_call_exact c m' Hk) _ Ha) as (_ & ? & ?).
Qed.

Lemma worker_stack_total (config : option f64) (max := default (f64_dec 15 1) config) :
  valid max = true -> is_finite max = true -> f64_le zero max = true ->
  forall clock (c : ToolCall json) (w : WorldState json), exists c',
    evaluate clock 0 (worker_guards config) c w = Ret (Approved c', worker_guards config) /\
    velocities_within max (params c') /\ tool c' = tool c /\
    (forall k, k ∉ "joint_velocities" :: VELOCITY_PARAM_NAMES -> v_get (params c') k = v_get (params c) k).
Proof.
  intros Hv Hf Hz clock c w.
  destruct (velocity_check_spec max Hv Hf Hz {| max_velocity_ms := max |} c eq_refl) as (v & Hc & Hspec).
  unfold worker_guards. fold max. clearbody max. simpl. rewrite Hc. simpl.
  destruct v as [|c' reason|reason|reason t]; try done; simpl; eexists; (split; [done|]).
  - by split_and!.
  - destruct Hspec as (? & ? & ? & ? & ?). by split_and!.
Qed.

Lemma worker_turn_cases {X E : Type} `{!ToolExecutor X}
    (debug_duration : Duration -> string) (to_string : json -> string) (render : message -> string)
    (to_json : ToolResult -> option string) (self : ToolDispatcher X) (env : TurnEnv (X := X) (E := E))
    (config : option f64) (reg : option Registry) (calls : list (ToolCall json)) (spatial_ctx : WorldState json)
    (tool_ctx : ToolContext E) (messages : list Message) (max := default (f64_dec 15 1) config) :
  valid max = true -> is_finite max = true -> f64_le zero max = true ->
  exists messages' st,
    dispatch_tool_calls debug_duration to_string render to_json self env (worker_guards config) reg calls spatial_ctx
      tool_ctx messages = Ret (messages', st) /\
    forall k inv, (k, Some inv) ∈ trace_calls (steps st) ->
    exists c entry, calls !! k = Some c /\ tools self !! tool c = Some entry /\ enabled entry = true /\
      inv_executor inv = executor entry /\
      (entry_category entry <> Pure -> velocities_within max (inv_params inv)) /\
      (forall j, j ∉ "joint_velocities" :: VELOCITY_PARAM_NAMES -> v_get (inv_params inv) j = v_get (params c) j).
Proof.
  intros Hv Hf Hz. pose proof (worker_stack_total config Hv Hf Hz) as Hstack. fold max in Hstack.
  set (Inv := fun gs => gs = worker_guards (V := json) config).
  assert (forall i gs c r gs', Inv gs -> evaluate (clock env i) 0 gs c spatial_ctx = Ret (r, gs') -> Inv gs') as Hkept.
  { intros i gs c r gs' -> He. destruct (Hstack (clock env i) c spatial_ctx) as (c' & Hc & _). congruence. }
  destruct (dispatch_tool_calls debug_duration to_string render to_json self env (worker_guards config) reg calls
    spatial_ctx tool_ctx messages) as [[messages' st]|] eqn:H.
  2:{ assert (forall i gs c, Inv gs -> exists r gs', evaluate (clock env i) 0 gs c spatial_ctx = Ret (r, gs') /\ Inv gs') as Ht.
      { intros i gs c ->. destruct (Hstack (clock env i) c spatial_ctx) as (c' & Hc & _).
        exists (Approved c'), (worker_guards config). split; [exact Hc|reflexivity]. }
      pose proof (turn_returns debug_duration to_string render to_json self env calls spatial_ctx tool_ctx Inv _ reg messages Ht eq_refl) as Hr.
      rewrite H in Hr. done. }
  exists messages', st. split; [done|]. intros k inv Hin.
  destruct (trace_call_outcome _ _ _ _ _ _ _ _ _ _ _ (fun _ => Inv) _ _ _ _ _
    ltac:(done) (fun i gs c r gs' _ _ => Hkept i gs c r gs') eq_refl H Hin) as (c & r & Hc & Ho).
  inversion Ho as [Hp Hi|gs0 gs1 c' Hp Hg He Hi|?|gs0 gs1 m t rg sigs req rg' c' Hp Hg He ? Hi|?|?]; subst; clear Ho.
  - apply dispatch_executes in Hi as (e & He & ? & ? & Hps). exists c, e. split_and!; [done..| |].
    + intros Hn. unfold category in Hp. rewrite He in Hp. done.
    + intros j _. by rewrite Hps.
  - apply dispatch_executes in Hi as (e & ? & ? & ? & Hps). exists c, e.
    destruct (Hstack (clock env k) c spatial_ctx) as (c2 & Hc2 & Hvel & Ht & Hk).
    hnf in Hg. subst gs0. rewrite Hc2 in He. simplify_eq. rewrite Hps, <- Ht. by split_and!.
  - destruct (Hstack (clock env k) c spatial_ctx) as (c2 & Hc2 & _).
    hnf in Hg. subst gs0. rewrite Hc2 in He. done.
Qed.

(** a worker's turn is safe.  For a finite, non-negative maximum, a turn under
    the stack a worker builds returns, whatever the model calls; every execution it leads to
    is of an enabled tool, and a tool that is not pure is executed with every velocity
    parameter within the maximum and every other parameter as the model gave it. *)
Theorem worker_turn_safe {X E : Type} `{!ToolExecutor X}
    (debug_duration : Duration -> string) (to_string : json -> string) (render : message -> string)
    (to_json : ToolResult -> option string) (self : ToolDispatcher X) (env : TurnEnv (X := X) (E := E))
    (config : option f64) (reg : option Registry) (calls : list (ToolCall json)) (spatial_ctx : WorldState json)
    (tool_ctx : ToolContext E) (messages : list Message) (max := default (f64_dec 15 1) config) :
  valid max = true -> is_finite max = true -> f64_le zero max = true ->
  exists messages' st,
    dispatch_tool_calls debug_duration to_string render to_json self env (worker_guards config) reg calls spatial_ctx
      tool_ctx messages = Ret (messages', st) /\
    forall k inv, (k, Some inv) ∈ trace_calls (steps st) ->
    exists c entry, calls !! k = Some c /\ tools self !! tool c = Some entry /\ enabled entry = true /\
      inv_executor inv = executor entry /\
      (entry_category entry <> Pure -> velocities_within max (inv_params inv)) /\
      (forall j, j ∉ "joint_velocities" :: VELOCITY_PARAM_NAMES -> v_get (inv_params inv) j = v_get (params c) j).
Proof. exact (worker_turn_cases debug_duration to_string render to_json self env config reg calls spatial_ctx tool_ctx messages). Qed.

(** ** What runs at the same time

    An execution starts and ends; those of a segment interleave in any way, and a step is over
    before the next one begins. *)

Inductive Event : Type := EvStart (k : nat) | EvEnd (k : nat).

Definition event_call (e : Event) : nat := match e with EvStart k | EvEnd k => k end.

Definition call_events {X E} (x : nat * option (Invocation X E)) : list Event :=
  match x.2 with Some _ => [EvStart x.1; EvEnd x.1] | None => [] end.

Definition step_run {X E} (s : Step (X := X) (E := E)) (tr : list Event) : Prop :=
  Permutation tr (concat (map call_events (step_calls s))) /\
  forall x, x ∈ step_calls s -> base.filter (fun e => event_call e = x.1) tr = call_events x.

Inductive runs {X E} : list (Step (X := X) (E := E)) -> list Event -> Prop :=
| runs_nil : runs [] []
| runs_cons s ss tr tr' : step_run s tr -> runs ss tr' -> runs (s :: ss) (tr ++ tr').

Section Overlap.
Context {X E : Type}.
Implicit Types (s : Step (X := X) (E := E)) (ss : list (Step (X := X) (E := E))).

Lemma step_events s tr e : step_run s tr -> e ∈ tr -> event_call e ∈ (step_calls s).*1.
Proof.
  intros [Hp _] He. rewrite Hp in He. apply list_elem_of_In, in_concat in He as (l & Hl & He).
  apply in_map_iff in Hl as (x & <- & Hx). apply list_elem_of_fmap. exists x.
  split; [|by apply list_elem_of_In]. unfold call_events in He.
  destruct x.2; simpl in He; naive_solver.
Qed.

Lemma runs_events ss tr e : runs ss tr -> e ∈ tr -> event_call e ∈ (trace_calls ss).*1.
Proof.
  induction 1 as [|s ss t t' Hs Hr IH]; [by intros ?%not_elem_of_nil|].
  rewrite elem_of_app. unfold trace_calls. simpl. rewrite fmap_app, elem_of_app.
  intros [He|He]; [left; by eapply step_events|right; by apply IH].
Qed.

Lemma seq_sorted n : forall i, StronglySorted lt (seq i n).
Proof.
  induction n as [|n IH]; intros i; simpl; constructor; [done|].
  apply Forall_forall. intros k Hk%elem_of_seq. lia.
Qed.

(** Two calls of different steps: the later one starts after the earlier one ended. *)
Lemma runs_ordered ss tr a b :
  runs ss tr -> StronglySorted lt (trace_calls ss).*1 -> (a < b)%nat ->
  a ∈ (trace_calls ss).*1 -> b ∈ (trace_calls ss).*1 ->
  (forall s, s ∈ ss -> ~ (a ∈ (step_calls s).*1 /\ b ∈ (step_calls s).*1)) ->
  exists t1 t2, tr = (t1 ++ t2)%list /\ EvStart b ∉ t1 /\ EvEnd a ∉ t2.
Proof.
  intros Hr. induction Hr as [|s ss t t' Hs Hr IH]; intros Hso Hab Ha Hb Hsep; [by apply not_elem_of_nil in Ha|].
  unfold trace_calls in *. simpl in *. rewrite fmap_app in *.
  apply elem_of_app in Ha as [Ha|Ha]; apply elem_of_app in Hb as [Hb|Hb].
  - destruct (Hsep s); [left|done].
  - exists t, t'. split; [done|]. split.
    + intros He%(step_events s); [|done]. simpl in He. by apply (Hsep s); [left|].
    + intros He%(runs_events ss); [|done]. simpl in He.
      pose proof (StronglySorted_app_1_elem_of _ _ _ a a Hso Ha He). lia.
  - pose proof (StronglySorted_app_1_elem_of _ _ _ b a Hso Hb Ha). lia.
  - destruct IH as (t1 & t2 & -> & H1 & H2); [|done|done|done| |].
    + by eapply StronglySorted_app_1_r.
    + intros s' Hs'. apply Hsep. by right.
    + exists (t ++ t1)%list, t2. rewrite app_assoc. split_and!; [done| |done].
      rewrite not_elem_of_app. split; [|done]. intros He%(step_events s); [|done]. simpl in He.
      pose proof (StronglySorted_app_1_elem_of _ _ _ b b Hso He Hb). lia.
Qed.

End Overlap.

(** C15: nothing overlaps a call that acts.  However the executions of a turn interleave, of
    two calls of which one is of a tool not registered as pure the later one starts only when the earlier one has ended:
    an observation before a motion sees the state before it, an observation after it the
    state after it, and no two motions run together. *)
Theorem acting_calls_do_not_overlap {X E : Type} `{!ToolExecutor X} {G : Type} `{!SafetyGuard json G}
    (debug_duration : Duration -> string) (to_string : json -> string) (render : message -> string)
    (to_json : ToolResult -> option string) (self : ToolDispatcher X) (env : TurnEnv (X := X) (E := E))
    (gs : list G) (reg : option Registry) (calls : list (ToolCall json)) (spatial_ctx : WorldState json)
    (tool_ctx : ToolContext E) (messages messages' : list Message) (st : LoopState) (tr : list Event)
    (a b : nat) (ca cb : ToolCall json) :
  dispatch_tool_calls debug_duration to_string render to_json self env gs reg calls spatial_ctx tool_ctx messages
    = Ret (messages', st) ->
  runs (steps st) tr -> (a < b)%nat -> calls !! a = Some ca -> calls !! b = Some cb ->
  ~ observing self (tool ca) \/ ~ observing self (tool cb) ->
  exists before after, tr = (before ++ after)%list /\ EvStart b ∉ before /\ EvEnd a ∉ after.
Proof.
  rewrite <- !category_pure. intros H Hr Hab Ha Hb Hnp.
  destruct (turn_done _ _ _ _ _ _ _ _ _ _ _ (fun _ _ => True) _ _ _ ltac:(done) ltac:(done) I H) as (rs & _ & _ & _ & Hok & Hseq & _).
  apply lookup_lt_Some in Ha as Hla. apply lookup_lt_Some in Hb as Hlb.
  apply (runs_ordered (steps st)); [done|rewrite Hseq; apply seq_sorted|done|rewrite Hseq; apply elem_of_seq; lia..|].
  intros s Hs [Hsa Hsb]. rewrite Forall_forall in Hok. destruct (Hok s Hs) as [l Hl|i inv c Hc Hp].
  - simpl in *. rewrite Forall_forall in Hl.
    apply list_elem_of_fmap in Hsa as (xa & -> & Hxa). apply list_elem_of_fmap in Hsb as (xb & -> & Hxb).
    destruct (Hl xa Hxa) as (? & ? & ?), (Hl xb Hxb) as (? & ? & ?). destruct Hnp; simplify_eq.
  - simpl in *. rewrite list_elem_of_singleton in Hsa, Hsb. lia.
Qed.

(** ** Delegation *)

Definition late_names {X} `{!ToolExecutor X} (t : LateTools X) : list string :=
  map (fun x => ts_name (schema x))
    [session_search t; memory_read t; memory_write t; user_model_query t;
     skills_list t; skill_view t; skill_read_file t; skill_manage t].

(** what a delegated worker may call.  Narrowing to the scope leaves callable exactly
    the tools that were callable, are on the parent's list and whose capability class the
    parent's trust admits; the worker's dispatcher has those and, whatever the scope says, the
    eight memory and skill tools registered afterwards. *)
Theorem delegation_scope_exact {X : Type} `{!ToolExecutor X} (d : ToolDispatcher X) (s : DelegationScope)
    (late : LateTools X) (name : string) :
  (is_enabled (apply_scope (Some s) d) name <->
     is_enabled d name /\ name ∈ allowed_tools s /\
     is_ok (Trust.check_tool_availability (Trust.new_evaluator (trust_posture s)) (required_class d name)) = true) /\
  (is_enabled (worker_dispatcher (Some s) late d) name <->
     is_enabled (apply_scope (Some s) d) name \/ name ∈ late_names late).
Proof.
  split.
  - simpl. destruct (apply_trust_spec (apply_allowed_tools d (allowed_tools s)) (trust_posture s)) as [_ Ht].
    destruct (apply_allowed_spec d (allowed_tools s)) as [Hc Ha]. rewrite Ht, Ha.
    unfold required_class. rewrite Hc. tauto.
  - unfold worker_dispatcher, register_phase18_skill_tools, register_phase17_memory_tools.
    rewrite !register_all_enabled. unfold late_names.
    rewrite (map_app _ [session_search late; memory_read late; memory_write late; user_model_query late]
      [skills_list late; skill_view late; skill_read_file late; skill_manage late]), elem_of_app. tauto.
Qed.

(** ** Concrete runs *)

Module Demo.
#[global] Instance named_tool : ToolExecutor string :=
  fun n => {| ts_name := n; ts_description := ""; ts_parameters := Null |}.

Definition d : ToolDispatcher string :=
  register (register_with_category (new_dispatcher (from_secs 30)) "look" Pure) "move_arm".

Definition call (id name : string) : ToolCall json :=
  {| tc_id := id; tool := name; params := JObject [("velocity", JUint 3)] |}.

Definition calls : list (ToolCall json) := [call "a" "look"; call "b" "move_arm"; call "c" "look"; call "d" "look"].

Definition ctx : ToolContext unit := {| task_id := "t"; tenant_id := "u"; call_id := ""; extensions := tt |}.

Definition env : TurnEnv (X := string) (E := unit) := {|
  clock := fun _ => demo_clock;
  fresh := fun _ => "fresh";
  answer := fun _ _ => Answered (Ok (tool_success Null));
  others := fun _ => [];
  wait_ends := fun _ => WaitTimedOut;
|}.

Definition response : CompletionResponse := {|
  resp_parts := [ToolUse "a" "look" Null; ToolUse "b" "move_arm" Null; ToolUse "c" "look" Null];
  stop_reason := StopToolUse; usage := no_usage |}.

Definition turn (calls : list (ToolCall json)) (messages : list Message) :=
  dispatch_tool_calls (fun _ => "30s") (fun _ => "") (fun _ => "") (fun _ => Some "{}") d env
    (worker_guards (Some (f64_of_Z 2))) None calls empty_world ctx messages.

Lemma runs_and_acts : exists messages' st inv, turn calls [] = Ret (messages', st) /\
  map (fun s => length (step_calls s)) (steps st) = [1; 1; 2]%nat /\ (1%nat, Some inv) ∈ trace_calls (steps st).
Proof.
  destruct (turn calls []) as [[messages' st]|] eqn:H; [|vm_compute in H; discriminate H].
  vm_compute in H. injection H as <- <-. do 3 eexists. split; [reflexivity|]. split; [reflexivity|].
  do 1 right. left.
Qed.
End Demo.

Lemma worker_turn_safe_witness :
  exists messages' st inv, Demo.turn Demo.calls [] = Ret (messages', st) /\
    (1%nat, Some inv) ∈ trace_calls (steps st) /\ velocities_within (f64_of_Z 2) (inv_params inv).
Proof.
  destruct Demo.runs_and_acts as (m & st & inv & H & _ & Hin). exists m, st, inv. split; [exact H|]. split; [exact Hin|].
  destruct (worker_turn_safe (fun _ => "30s") (fun _ => "") (fun _ => "") (fun _ => Some "{}") Demo.d Demo.env
    (Some (f64_of_Z 2)) None Demo.calls empty_world Demo.ctx []) as (m' & st' & H' & Hall);
    [vm_compute; reflexivity..|].
  unfold Demo.turn in H. rewrite H in H'. injection H' as <- <-.
  destruct (Hall 1%nat inv Hin) as (c & entry & Hc & He & _ & _ & Hv & _). apply Hv.
  vm_compute in Hc. injection Hc as <-. vm_compute in He. injection He as <-. discriminate.
Defined.

Lemma executed_calls_authorised_witness :
  exists messages' st inv c, Demo.turn Demo.calls [] = Ret (messages', st) /\
    (1%nat, Some inv) ∈ trace_calls (steps st) /\ Demo.calls !! 1%nat = Some c /\ tool c = "move_arm".
Proof.
  destruct Demo.runs_and_acts as (m & st & inv & H & _ & Hin). exists m, st, inv.
  destruct (executed_calls_authorised _ _ _ _ _ _ _ _ _ _ _ _ _ _ _ _ H Hin) as (c & c' & e & Hc & _).
  exists c. split; [exact H|]. split; [exact Hin|]. split; [exact Hc|]. vm_compute in Hc. injection Hc as <-. reflexivity.
Defined.

Lemma acting_calls_do_not_overlap_witness :
  exists messages' st, Demo.turn Demo.calls [] = Ret (messages', st) /\
    forall tr, runs (steps st) tr ->
    exists before after, tr = (before ++ after)%list /\ EvStart 1 ∉ before /\ EvEnd 0 ∉ after.
Proof.
  destruct Demo.runs_and_acts as (m & st & inv & H & _ & Hin). exists m, st. split; [exact H|]. intros tr Hr.
  apply (acting_calls_do_not_overlap _ _ _ _ _ _ _ _ _ _ _ _ _ _ tr 0 1 (Demo.call "a" "look")
    (Demo.call "b" "move_arm") H Hr); [lia|reflexivity|reflexivity|]. right. intros (e & He & Hp). vm_compute in He. injection He as <-. discriminate Hp.
Defined.

Lemma turn_answers_every_call_witness :
  exists messages' st lines,
    Demo.turn (Context.tool_calls Demo.response) [user "go"; assistant_parts (resp_parts Demo.response)] = Ret (messages', st) /\
    messages' = [user "go"; assistant_parts (resp_parts Demo.response); tool_results lines] /\ length lines = 3%nat /\
    well_paired messages'.
Proof.
  destruct (Demo.turn (Context.tool_calls Demo.response) [user "go"; assistant_parts (resp_parts Demo.response)])
    as [[messages' st]|] eqn:H; [|vm_compute in H; discriminate H].
  unfold Demo.turn in H.
  destruct (turn_answers_every_call (fun _ => "30s") (fun _ => "") (fun _ => "") (fun _ => Some "{}") Demo.d Demo.env
    (worker_guards (Some (f64_of_Z 2))) None Demo.response empty_world Demo.ctx [user "go"] messages' st) as (l & Hm & Hw & Hl).
  - intros [|[|i]] m Hm Hres; simplify_eq/=. by apply user_no_results in Hres.
  - discriminate.
  - intros r json Hj. injection Hj as <-. vm_compute. discriminate.
  - reflexivity.
  - exact H.
  - exists messages', st, l. split; [reflexivity|]. split; [exact Hm|]. split; [|exact Hw].
    apply Forall2_length in Hl. exact (eq_sym Hl).
Defined.

(** An empty list of allowed tools leaves the eight memory and skill tools callable. *)
Example memory_tools_escape_scope :
  let late := {| session_search := "session_search"; memory_read := "memory_read"; memory_write := "memory_write";
                 user_model_query := "user_model_query"; skills_list := "skills_list"; skill_view := "skill_view";
                 skill_read_file := "skill_read_file"; skill_manage := "skill_manage" |} in
  let d := worker_dispatcher (Some {| allowed_tools := []; trust_posture := Trust.default_posture |}) late Demo.d in
  length (tool_names d) = 8%nat /\ "move_arm" ∉ tool_names d /\ "memory_write" ∈ tool_names d.
Proof. vm_compute. split_and!; [done|set_solver|set_solver]. Qed.

(** The operator's change to a call that asked for approval is not seen by the guards again:
    the velocity an operator sets is executed as it is. *)
Example approved_change_not_rechecked :
  let ask : list (BoxedGuard json) := [BPermission {| perm_mode := Ask |}] in
  let env := {| clock := fun _ => demo_clock; fresh := fun _ => ""; answer := fun _ _ => AnswerTimeout;
                others := fun _ => []; wait_ends := fun _ =>
                  WaitAnswered {| approved := true; modifier := Some (JObject [("velocity", JUint 99)]) |} |} in
  match dispatch_tool_calls (fun _ => "30s") (fun _ => "") (fun _ => "") (fun _ => Some "{}") Demo.d env ask
          (Some new_registry) [Demo.call "b" "move_arm"] empty_world Demo.ctx [] with
  | Ret (_, st) => match trace_calls (steps st) with
                   | [(_, Some inv)] => inv_params inv = JObject [("velocity", JUint 99)]
                   | _ => False
                   end
  | Panic => False
  end.
Proof. vm_compute. reflexivity. Qed.

(** A clamp is forgotten when a later guard asks: after a velocity guard with maximum 2 and
    a guard that asks, the call approved by the operator is the model's, with velocity 3. *)
Example approval_forgets_clamp :
  let stack : list (BoxedGuard json) :=
    [BVelocity {| max_velocity_ms := f64_of_Z 2 |}; BPermission {| perm_mode := Ask |}] in
  let env := {| clock := fun _ => demo_clock; fresh := fun _ => ""; answer := fun _ _ => AnswerTimeout;
                others := fun _ => []; wait_ends := fun _ => WaitAnswered {| approved := true; modifier := None |} |} in
  match dispatch_tool_calls (fun _ => "30s") (fun _ => "") (fun _ => "") (fun _ => Some "{}") Demo.d env stack
          (Some new_registry) [Demo.call "b" "move_arm"] empty_world Demo.ctx [] with
  | Ret (_, st) => match trace_calls (steps st) with
                   | [(_, Some inv)] => inv_params inv = JObject [("velocity", JUint 3)]
                   | _ => False
                   end
  | Panic => False
  end.
Proof. vm_compute. reflexivity. Qed.
