(* ===== verification/StructuredOutput.v ===== *)
(** * Structured output: parse, repair, ask once more

    roz-agent/model/structured_output.rs, the loop the three providers share, with the cap
    on the raw text an error keeps.  The parser and printer of JSON and the repeated request
    are arguments; the repair is that of [JsonRepair]. *)

From Stdlib Require Import Ascii.
From S2P Require Import Prelude RustStr Json JsonRepair Guards Context ModelCalls.

#[local] Open Scope string_scope.

Definition RAW_CAP : nat := 2 * 1024.

(** [while boundary > 0 && !s.is_char_boundary(boundary) { boundary -= 1; }] *)
Fixpoint char_boundary_before (s : string) (boundary : nat) : nat :=
  match boundary with
  | O => O
  | S b => if is_char_boundary s boundary then boundary else char_boundary_before s b
  end.

(** [&s[..n]], which panics beyond the end and inside a character. *)
Definition slice_to (s : string) (n : nat) : exec string :=
  if (n <=? String.length s)%nat && is_char_boundary s n then Ret (take_front n s) else Panic.

Definition truncate_at_char_boundary (s : string) (cap : nat) : exec string :=
  if (String.length s <=? cap)%nat then Ret s
  else
    let boundary := char_boundary_before s cap in
    let dropped := (String.length s - boundary)%nat in
    let! kept := slice_to s boundary in
    Ret (kept +:+ "…[truncated " +:+ pretty dropped +:+ " bytes]").

(** [to_string] is [Display] of a value. *)
Definition repair_instruction (to_string : json -> string) (schema : json) : string :=
  "The previous response was not valid JSON. Return ONLY JSON matching the provided schema. " +:+
  "Do not include markdown fences or commentary. Schema: " +:+ to_string schema.

Section RepairLoop.
(** [serde_json::from_str::<Value>] with the text of its error. *)
Context (from_str : string -> result json string).

Definition parse_error (s : string) : option string :=
  match from_str s with Ok _ => None | Err e => Some e end.

(** Parse, then parse the local repair. *)
Definition parse_or_repair (s : string) : exec (option json) :=
  match from_str s with
  | Ok v => Ret (Some v)
  | Err _ =>
      let! r := repair parse_error s in
      Ret (match r with
           | Ok repaired => match from_str repaired with Ok v => Some v | Err _ => None end
           | Err _ => None
           end)
  end.

(** The closure [retry] may write the cell that holds its response: the first component. *)
Definition apply_repair_loop {R} (to_string : json -> string) (raw : string) (schema : json)
    (retry : string -> string -> option R * result string AgentError)
    : exec (option R * result json AgentError) :=
  let! first := parse_or_repair raw in
  match first with
  | Some v => Ret (None, Ok v)
  | None =>
      let '(cell, answer) := retry raw (repair_instruction to_string schema) in
      match answer with
      | Err e => Ret (cell, Err e)
      | Ok second =>
          let! again := parse_or_repair second in
          match again with
          | Some v => Ret (cell, Ok v)
          | None =>
              let parse_err := default "malformed after 1 repair retry" (parse_error second) in
              let! kept := truncate_at_char_boundary second RAW_CAP in
              Ret (cell, Err (StructuredOutputParse kept parse_err))
          end
      end
  end.

(** ** Lemmas *)

Lemma char_boundary_before_spec s n :
  (char_boundary_before s n <= n)%nat /\ is_char_boundary s (char_boundary_before s n) = true.
Proof.
  induction n as [|n [IHle IHb]]; [done|]. cbn [char_boundary_before].
  destruct (is_char_boundary s (S n)) eqn:E; split; [lia|done|lia|done].
Qed.

(** The cut keeps the longest prefix of whole characters within the cap, and never panics. *)
Lemma truncate_exact s cap :
  (String.length s <= cap)%nat /\ truncate_at_char_boundary s cap = Ret s \/
  (cap < String.length s)%nat /\
  exists k, (k <= cap)%nat /\ is_char_boundary s k = true /\
    (forall j, (k < j <= cap)%nat -> is_char_boundary s j = false) /\
    truncate_at_char_boundary s cap =
      Ret (take_front k s +:+ "…[truncated " +:+ pretty (String.length s - k)%nat +:+ " bytes]").
Proof.
  unfold truncate_at_char_boundary. destruct (Nat.leb_spec (String.length s) cap) as [Hl|Hl]; [by left|].
  right. split; [done|]. exists (char_boundary_before s cap).
  destruct (char_boundary_before_spec s cap) as [Hle Hb]. split_and!; [done|done| |].
  - clear Hl Hle Hb. induction cap as [|n IH]; [lia|]. cbn [char_boundary_before]. intros j Hj.
    destruct (is_char_boundary s (S n)) eqn:E; [lia|].
    destruct (decide (j = S n)) as [->|]; [done|]. apply IH. lia.
  - cbv zeta. unfold slice_to. by rewrite (proj2 (Nat.leb_le _ _)), Hb by lia.
Qed.

Lemma truncate_total s cap : exists t, truncate_at_char_boundary s cap = Ret t.
Proof. destruct (truncate_exact s cap) as [[_ ->]|(_ & k & _ & _ & _ & ->)]; eauto. Qed.

Lemma repair_returns s : exists r, repair parse_error s = Ret r /\
  forall out, r = Ok out -> exists v, from_str out = Ok v.
Proof.
  assert (forall t, accepted parse_error t = true -> exists v, from_str t = Ok v) as Ha.
  { intros t. unfold accepted, parse_error. destruct (from_str t); [by eauto|done]. }
  unfold repair. destruct (accepted parse_error s) eqn:E0; [naive_solver|].
  destruct (accepted parse_error (strip_code_fence s)) eqn:E1; [naive_solver|].
  destruct (prose_total (strip_code_fence s)) as [s2 ->]. simpl.
  destruct (accepted parse_error s2) eqn:E2; [naive_solver|].
  destruct (accepted parse_error (fix_trailing_commas s2)) eqn:E3; [naive_solver|].
  destruct (close_dangling_braces _) as [s4|e]; [|naive_solver].
  destruct (parse_error s4) eqn:E4; [naive_solver|]. eexists. split; [done|]. intros ? [= <-].
  apply Ha. unfold accepted. by rewrite E4.
Qed.

(** A text counts when it or its local repair parses. *)
Lemma parse_or_repair_spec s : exists o, parse_or_repair s = Ret o /\
  (forall v, from_str s = Ok v -> o = Some v) /\
  (o = None <-> (exists e, from_str s = Err e) /\ exists e, repair parse_error s = Ret (Err e)).
Proof.
  unfold parse_or_repair. destruct (from_str s) as [v|e] eqn:E.
  { exists (Some v). split; [done|]. split; [naive_solver|]. split; [done|]. intros [[? [=]] _]. }
  destruct (repair_returns s) as ([out|e'] & -> & Hr); simpl.
  - destruct (Hr out eq_refl) as [v Hv]. rewrite Hv. exists (Some v). split; [done|]. split; [done|].
    split; [done|]. intros [_ [? [=]]].
  - exists None. split; [done|]. split; [done|]. split; [|done]. intros _. split; eauto.
Qed.
End RepairLoop.

(** structured output.  The loop returns, asking the model again exactly when neither the
    first text nor its repair parses, once at most and with the first text; its value is what
    the first text, else the second gives, a failed request is handed on, and otherwise the
    error holds the second text, cut to the cap at a character. *)
Theorem repair_loop_exact {R} (from_str : string -> result json string) (to_string : json -> string)
    (raw : string) (schema : json) (retry : string -> string -> option R * result string AgentError) :
  exists first, parse_or_repair from_str raw = Ret first /\
  let '(cell, answer) := retry raw (repair_instruction to_string schema) in
  match first, answer with
  | Some v, _ => apply_repair_loop from_str to_string raw schema retry = Ret (None, Ok v)
  | None, Err e => apply_repair_loop from_str to_string raw schema retry = Ret (cell, Err e)
  | None, Ok second =>
      exists again, parse_or_repair from_str second = Ret again /\
      match again with
      | Some v => apply_repair_loop from_str to_string raw schema retry = Ret (cell, Ok v)
      | None => exists kept e, from_str second = Err e /\ truncate_at_char_boundary second RAW_CAP = Ret kept /\
          apply_repair_loop from_str to_string raw schema retry = Ret (cell, Err (StructuredOutputParse kept e))
      end
  end.
Proof.
  destruct (parse_or_repair_spec from_str raw) as (o & Ho & _ & _). exists o. split; [done|].
  unfold apply_repair_loop. rewrite Ho. simpl.
  destruct (retry raw _) as [cell answer]. destruct o as [v|]; [done|].
  destruct answer as [second|e]; [|done].
  destruct (parse_or_repair_spec from_str second) as (a & Ha & _ & Hn). exists a. split; [done|].
  rewrite Ha. simpl. destruct a as [v|]; [done|].
  destruct (proj1 Hn eq_refl) as [[e He] _]. destruct (truncate_total second RAW_CAP) as [kept Hk].
  exists kept, e. split_and!; [done|done|]. unfold parse_error. by rewrite He, Hk.
Qed.

(** A parser for the examples: it knows three texts. *)
Definition toy_from_str (s : string) : result json string :=
  if String.eqb s "{}" then Ok (JObject []) else if String.eqb s "[1]" then Ok (JArray [JUint 1]) else Err "expected value".

Example second_text_counts :
  apply_repair_loop toy_from_str (fun _ => "{}") "no" Null (fun _ _ => (Some 1, Ok "[1")) =
    Ret (Some 1, Ok (JArray [JUint 1])).
Proof. vm_compute. reflexivity. Qed.

Example cut_within_a_character : truncate_at_char_boundary "aé" 2 = Ret "a…[truncated 2 bytes]".
Proof. vm_compute. reflexivity. Qed.
