(* ===== verification/Anthropic.v ===== *)
(** * The Anthropic provider

    roz-agent/model/anthropic.rs: the request built from a transcript, the response read
    back whole ([complete], with the forced tool of structured output) or from a stream of
    server-sent events, assembled by a state machine.  Sending a request, parsing an event
    and printing a value are arguments. *)

From Stdlib Require Import Ascii.
From S2P Require Import Prelude RustStr Json JsonRepair Guards Context ModelCalls StructuredOutput.

#[local] Open Scope string_scope.
#[local] Open Scope list_scope.

Definition RESPOND_TOOL_NAME : string := "respond".
Definition MAX_CACHED_SYSTEM_BLOCKS : nat := 4.

(** ** The messages of the API *)

Record ImageSource : Type := { source_type : string; image_media_type : string; image_data : string }.

Inductive ContentBlock : Type :=
| BText (text : string)
| BThinking (thinking signature : string)
| BRedactedThinking (data : string)
| BToolUse (id name : string) (input : json)
| BToolResult (tool_use_id content : string) (is_error : bool)
| BImage (source : ImageSource).

Inductive AnthropicRole : Type := RoleUser | RoleAssistant.

Inductive AnthropicContent : Type :=
| ContentText (t : string)
| ContentBlocks (bs : list ContentBlock).

Record AnthropicMessage : Type := { am_role : AnthropicRole; am_content : AnthropicContent }.

Record CacheControl : Type := { control_type : string }.
Record SystemBlock : Type := { block_type : string; sb_text : string; cache_control : option CacheControl }.

Record ToolDefinition : Type := { td_name : string; td_description : string; input_schema : json }.

Inductive ToolChoice : Type := TcAuto | TcAny | TcTool (name : string).

Inductive AnthropicThinkingConfig : Type := Adaptive.

Record AnthropicRequest : Type := {
  ar_model : string;
  ar_max_tokens : Z;
  ar_system : option (list SystemBlock);
  ar_messages : list AnthropicMessage;
  ar_tools : option (list ToolDefinition);
  ar_tool_choice : option ToolChoice;
  ar_thinking : option AnthropicThinkingConfig;
  ar_stream : bool;
  ar_metadata : option json;
}.

Record AnthropicUsage : Type := {
  au_input_tokens : Z;
  au_output_tokens : Z;
  cache_creation_input_tokens : Z;
  cache_read_input_tokens : Z;
}.

Record AnthropicResponse : Type := {
  ares_id : string;
  msg_type : string;
  ares_role : AnthropicRole;
  ares_content : list ContentBlock;
  ares_model : string;
  ares_stop_reason : option string;
  ares_usage : AnthropicUsage;
}.

Inductive Delta : Type :=
| DText (text : string)
| DThinking (thinking : string)
| DSignature (signature : string)
| DInputJson (partial_json : string).

Inductive StreamEvent : Type :=
| MessageStart (message : AnthropicResponse)
| ContentBlockStart (index : Z) (content_block : ContentBlock)
| ContentBlockDelta (index : Z) (delta : Delta)
| ContentBlockStop (index : Z)
| MessageDelta (delta_stop_reason : option string) (delta_output_tokens : Z)
| MessageStop
| Ping
| ErrorEvent (error_type message : string).

Record AnthropicConfig : Type := {
  gateway_url : string;
  api_key : string;
  ac_model : string;
  thinking_config : option AnthropicThinkingConfig;
  proxy_provider : string;
  direct_api_key : option string;
}.

(** ** Requests *)

Definition part_to_content_block (p : ContentPart) : ContentBlock :=
  match p with
  | Text text => BText text
  | ToolUse id name input => BToolUse id name input
  | ToolResultPart tool_use_id _ content is_error => BToolResult tool_use_id content is_error
  | ThinkingPart thinking signature => BThinking thinking signature
  | Image media_type data =>
      BImage {| source_type := "base64"; image_media_type := media_type; image_data := data |}
  end.

Definition parts_to_content_blocks (ps : list ContentPart) : list ContentBlock := map part_to_content_block ps.

Definition convert_message (m : Message) : list string * list AnthropicMessage :=
  match role m with
  | System => (omap text_part (parts m), [])
  | User => ([], [{| am_role := RoleUser; am_content := ContentBlocks (parts_to_content_blocks (parts m)) |}])
  | Assistant => ([], [{| am_role := RoleAssistant; am_content := ContentBlocks (parts_to_content_blocks (parts m)) |}])
  end.

Definition ephemeral : CacheControl := {| control_type := "ephemeral" |}.

Definition cached_prefix_len (len : nat) : nat :=
  if (len =? 1)%nat then 1%nat else Nat.min (len - 1) MAX_CACHED_SYSTEM_BLOCKS.

Definition system_blocks (system_texts : list string) : list SystemBlock :=
  imap (fun i text =>
          {| block_type := "text"; sb_text := text;
             cache_control := if (i <? cached_prefix_len (length system_texts))%nat then Some ephemeral else None |})
       system_texts.

Definition convert_messages (messages : list Message) : option (list SystemBlock) * list AnthropicMessage :=
  let system_texts := messages ≫= (fun m => fst (convert_message m)) in
  let api_messages := messages ≫= (fun m => snd (convert_message m)) in
  (match system_texts with [] => None | _ => Some (system_blocks system_texts) end, api_messages).

(** [map.entry("type").or_insert_with(..)] on an object; other values stay. *)
Definition object_typed (schema : json) : json :=
  match schema with
  | JObject m => JObject (if get_member "type" m then m else set_member "type" (JString "object") m)
  | v => v
  end.

Definition convert_tool (s : ToolSchema) : ToolDefinition :=
  {| td_name := ts_name s; td_description := ts_description s; input_schema := object_typed (ts_parameters s) |}.

Definition convert_tools (schemas : list ToolSchema) : list ToolDefinition := map convert_tool schemas.

Definition map_tool_choice (strategy : option ToolChoiceStrategy) : ToolChoice :=
  match strategy with
  | Some ChoiceAny => TcAny
  | Some (ChoiceRequired name) => TcTool name
  | Some (ChoiceAuto | ChoiceNone) | None => TcAuto
  end.

Definition respond_tool (schema : json) : ToolDefinition :=
  {| td_name := RESPOND_TOOL_NAME;
     td_description := "Return structured output matching the requested schema.";
     input_schema := object_typed schema |}.

Definition some_unless_empty {A} (l : list A) : option (list A) := match l with [] => None | _ => Some l end.

Definition build_api_request (config : AnthropicConfig) (req : CompletionRequest) (stream : bool) : AnthropicRequest :=
  let '(system, messages) := convert_messages (req_messages req) in
  let tools_vec := convert_tools (req_tools req) in
  let '(tools_vec, tool_choice) :=
    match response_schema req with
    | Some schema => (tools_vec ++ [respond_tool schema], Some (TcTool RESPOND_TOOL_NAME))
    | None => (tools_vec, match req_tools req with [] => None | _ => Some (map_tool_choice (tool_choice req)) end)
    end in
  {| ar_model := ac_model config; ar_max_tokens := req_max_tokens req; ar_system := system;
     ar_messages := messages; ar_tools := some_unless_empty tools_vec; ar_tool_choice := tool_choice;
     ar_thinking := thinking_config config; ar_stream := stream; ar_metadata := None |}.

(** The request [stream] builds for itself. *)
Definition stream_request (config : AnthropicConfig) (req : CompletionRequest) : AnthropicRequest :=
  let '(system, messages) := convert_messages (req_messages req) in
  {| ar_model := ac_model config; ar_max_tokens := req_max_tokens req; ar_system := system;
     ar_messages := messages; ar_tools := some_unless_empty (convert_tools (req_tools req));
     ar_tool_choice := match req_tools req with [] => None | _ => Some (map_tool_choice (tool_choice req)) end;
     ar_thinking := thinking_config config; ar_stream := true; ar_metadata := None |}.

(** [base_request]: the address and the header that authenticates. *)
Definition base_request (config : AnthropicConfig) : string * (string * string) :=
  match direct_api_key config with
  | Some k => ("https://api.anthropic.com/v1/messages", ("x-api-key", k))
  | None => (gateway_url config +:+ "/proxy/" +:+ proxy_provider config +:+ "/v1/messages",
             ("authorization", "Bearer " +:+ api_key config))
  end.

(** ** Whole responses *)

Definition block_to_part (b : ContentBlock) : option ContentPart :=
  match b with
  | BText text => Some (Text text)
  | BToolUse id name input => Some (ToolUse id name input)
  | BThinking thinking signature => Some (ThinkingPart thinking signature)
  | _ => None
  end.

Definition stop_reason_of (s : option string) : StopReason :=
  match s with
  | Some "tool_use" => StopToolUse
  | Some "max_tokens" => MaxTokens
  | _ => EndTurn
  end.

Definition convert_response (resp : AnthropicResponse) : CompletionResponse := {|
  resp_parts := omap block_to_part (ares_content resp);
  stop_reason := stop_reason_of (ares_stop_reason resp);
  usage := {| input_tokens := au_input_tokens (ares_usage resp);
              output_tokens := au_output_tokens (ares_usage resp);
              cache_read_tokens := cache_read_input_tokens (ares_usage resp);
              cache_creation_tokens := cache_creation_input_tokens (ares_usage resp) |};
|}.

Fixpoint replace_first_text (ps : list ContentPart) (text : string) : option (list ContentPart) :=
  match ps with
  | [] => None
  | Text _ :: ps => Some (Text text :: ps)
  | p :: ps => cons p <$> replace_first_text ps text
  end.

Definition replace_or_set_text (resp : CompletionResponse) (text : string) : CompletionResponse := {|
  resp_parts := default (resp_parts resp ++ [Text text]) (replace_first_text (resp_parts resp) text);
  stop_reason := stop_reason resp;
  usage := usage resp;
|}.

Definition u32_saturating_add (a b : Z) : Z := Z.min u32_max (a + b).

Definition add_usage (u v : TokenUsage) : TokenUsage := {|
  input_tokens := u32_saturating_add (input_tokens u) (input_tokens v);
  output_tokens := u32_saturating_add (output_tokens u) (output_tokens v);
  cache_read_tokens := u32_saturating_add (cache_read_tokens u) (cache_read_tokens v);
  cache_creation_tokens := u32_saturating_add (cache_creation_tokens u) (cache_creation_tokens v);
|}.

Definition with_usage (r : CompletionResponse) (u : TokenUsage) : CompletionResponse :=
  {| resp_parts := resp_parts r; stop_reason := stop_reason r; usage := u |}.

(** An error out of a provider: of the transport, or an [AgentError] in a box. *)
Inductive ProviderError : Type :=
| Transport (e : BoxedError)
| Agent (e : AgentError).

Definition with_messages (req : CompletionRequest) (ms : list Message) : CompletionRequest := {|
  req_messages := ms; req_tools := req_tools req; req_max_tokens := req_max_tokens req;
  tool_choice := tool_choice req; response_schema := response_schema req |}.

(** The repeated request: the malformed answer and the instruction join the transcript. *)
Definition retry_request (req : CompletionRequest) (raw instruction : string) : CompletionRequest :=
  with_messages req (req_messages req ++ [assistant_text raw; user instruction]).

Section Complete.
(** Parsing and printing of JSON; [send] is [send_messages_request]. *)
Context (from_str : string -> result json string) (to_string : json -> string).
Context (send : AnthropicRequest -> result AnthropicResponse BoxedError).

Definition respond_input (b : ContentBlock) : option string :=
  match b with
  | BToolUse _ name input => if String.eqb name RESPOND_TOOL_NAME then Some (to_string input) else None
  | _ => None
  end.

Definition extract_respond_tool_input (resp : AnthropicResponse) : option string :=
  list_find_some respond_input (ares_content resp).

Definition complete_retry (config : AnthropicConfig) (req : CompletionRequest) (raw instruction : string)
    : option AnthropicResponse * result string AgentError :=
  match send (build_api_request config (retry_request req raw instruction) false) with
  | Ok resp2 => (Some resp2, Ok (default "" (extract_respond_tool_input resp2)))
  | Err e => (None, Err (ModelErr (OtherError (error_text e))))
  end.

Definition no_forced_tool : AgentError :=
  StructuredOutputParse "<no forced tool_use found>" "anthropic: forced respond tool absent from response".

Definition complete (config : AnthropicConfig) (req : CompletionRequest)
    : exec (result CompletionResponse ProviderError) :=
  match send (build_api_request config req false) with
  | Err e => Ret (Err (Transport e))
  | Ok resp =>
      let converted := convert_response resp in
      match response_schema req with
      | None => Ret (Ok converted)
      | Some schema =>
          match extract_respond_tool_input resp with
          | None => Ret (Err (Agent no_forced_tool))
          | Some raw1 =>
              let! loop := apply_repair_loop from_str to_string raw1 schema (complete_retry config req) in
              let '(response2, parsed) := loop in
              match parsed with
              | Err e => Ret (Err (Agent e))
              | Ok parsed =>
                  let converted :=
                    match response2 with
                    | Some resp2 =>
                        let converted2 := convert_response resp2 in
                        with_usage converted2 (add_usage (usage converted) (usage converted2))
                    | None => converted
                    end in
                  Ret (Ok (replace_or_set_text converted (to_string parsed)))
              end
          end
      end
  end.
End Complete.

(** ** Streamed responses *)

Inductive StreamBlockKind : Type := KText | KThinking | KToolUse | KNone.

Record StreamAssembler : Type := {
  sa_parts : list ContentPart;
  current_text : string;
  current_thinking : string;
  current_tool_json : string;
  current_tool_name : string;
  current_tool_id : string;
  block_kind : StreamBlockKind;
  sa_input_tokens : Z;
  sa_output_tokens : Z;
  sa_cache_read_tokens : Z;
  sa_cache_creation_tokens : Z;
  sa_stop_reason : StopReason;
}.

Definition new_assembler : StreamAssembler := {|
  sa_parts := []; current_text := ""; current_thinking := ""; current_tool_json := "";
  current_tool_name := ""; current_tool_id := ""; block_kind := KNone; sa_input_tokens := 0;
  sa_output_tokens := 0; sa_cache_read_tokens := 0; sa_cache_creation_tokens := 0; sa_stop_reason := EndTurn |}.

(** The assembler with other blocks under way: text, thinking, tool (arguments, name, identifier), kind. *)
Definition with_blocks (a : StreamAssembler) (ps : list ContentPart) (text thinking tool_json tool_name tool_id : string)
    (kind : StreamBlockKind) : StreamAssembler := {|
  sa_parts := ps; current_text := text; current_thinking := thinking; current_tool_json := tool_json;
  current_tool_name := tool_name; current_tool_id := tool_id; block_kind := kind;
  sa_input_tokens := sa_input_tokens a; sa_output_tokens := sa_output_tokens a;
  sa_cache_read_tokens := sa_cache_read_tokens a; sa_cache_creation_tokens := sa_cache_creation_tokens a;
  sa_stop_reason := sa_stop_reason a |}.

Definition begin_block (a : StreamAssembler) (b : ContentBlock) : list StreamChunk * StreamAssembler :=
  match b with
  | BToolUse id name _ =>
      ([ToolUseStart id name],
       with_blocks a (sa_parts a) (current_text a) (current_thinking a) "" name id KToolUse)
  | BText _ =>
      ([], with_blocks a (sa_parts a) "" (current_thinking a) (current_tool_json a) (current_tool_name a)
             (current_tool_id a) KText)
  | BThinking _ _ =>
      ([], with_blocks a (sa_parts a) (current_text a) "" (current_tool_json a) (current_tool_name a)
             (current_tool_id a) KThinking)
  | _ =>
      ([], with_blocks a (sa_parts a) (current_text a) (current_thinking a) (current_tool_json a)
             (current_tool_name a) (current_tool_id a) KNone)
  end.

Definition extend_block (a : StreamAssembler) (d : Delta) : list StreamChunk * StreamAssembler :=
  let step text thinking json :=
    with_blocks a (sa_parts a) text thinking json (current_tool_name a) (current_tool_id a) (block_kind a) in
  match d with
  | DText text =>
      ([TextDelta text], step (current_text a +:+ text)%string (current_thinking a) (current_tool_json a))
  | DThinking thinking =>
      ([ThinkingDelta thinking], step (current_text a) (current_thinking a +:+ thinking)%string (current_tool_json a))
  | DInputJson partial_json =>
      ([ToolUseInputDelta partial_json],
       step (current_text a) (current_thinking a) (current_tool_json a +:+ partial_json)%string)
  | DSignature _ => ([], a)
  end.

Section Stream.
(** [serde_json::from_str]: of a value, and of the data of an event. *)
Context (from_str : string -> result json string) (event_of : string -> result StreamEvent BoxedError).

Definition tool_params (tool_json : string) : json :=
  if String.eqb tool_json "" then JObject []
  else match from_str tool_json with Ok v => v | Err _ => JObject [] end.

Definition end_block (a : StreamAssembler) : StreamAssembler :=
  match block_kind a with
  | KText =>
      let pushed := if String.eqb (current_text a) "" then [] else [Text (current_text a)] in
      with_blocks a (sa_parts a ++ pushed) "" (current_thinking a) (current_tool_json a) (current_tool_name a)
        (current_tool_id a) KNone
  | KThinking =>
      let pushed := if String.eqb (current_thinking a) "" then [] else [ThinkingPart (current_thinking a) ""] in
      with_blocks a (sa_parts a ++ pushed) (current_text a) "" (current_tool_json a) (current_tool_name a)
        (current_tool_id a) KNone
  | KToolUse =>
      with_blocks a
        (sa_parts a ++ [ToolUse (current_tool_id a) (current_tool_name a) (tool_params (current_tool_json a))])
        (current_text a) (current_thinking a) "" "" "" KNone
  | KNone =>
      with_blocks a (sa_parts a) (current_text a) (current_thinking a) (current_tool_json a) (current_tool_name a)
        (current_tool_id a) KNone
  end.

Definition assembled (a : StreamAssembler) : CompletionResponse := {|
  resp_parts := sa_parts a;
  stop_reason := sa_stop_reason a;
  usage := {| input_tokens := sa_input_tokens a; output_tokens := sa_output_tokens a;
              cache_read_tokens := sa_cache_read_tokens a; cache_creation_tokens := sa_cache_creation_tokens a |};
|}.

Definition begin_message (a : StreamAssembler) (u : AnthropicUsage) : StreamAssembler := {|
  sa_parts := sa_parts a; current_text := current_text a; current_thinking := current_thinking a;
  current_tool_json := current_tool_json a; current_tool_name := current_tool_name a;
  current_tool_id := current_tool_id a; block_kind := block_kind a;
  sa_input_tokens := au_input_tokens u; sa_output_tokens := sa_output_tokens a;
  sa_cache_read_tokens := cache_read_input_tokens u; sa_cache_creation_tokens := cache_creation_input_tokens u;
  sa_stop_reason := sa_stop_reason a |}.

Definition update_message (a : StreamAssembler) (stop : option string) (tokens : Z) : StreamAssembler := {|
  sa_parts := sa_parts a; current_text := current_text a; current_thinking := current_thinking a;
  current_tool_json := current_tool_json a; current_tool_name := current_tool_name a;
  current_tool_id := current_tool_id a; block_kind := block_kind a;
  sa_input_tokens := sa_input_tokens a; sa_output_tokens := tokens;
  sa_cache_read_tokens := sa_cache_read_tokens a; sa_cache_creation_tokens := sa_cache_creation_tokens a;
  sa_stop_reason := stop_reason_of stop |}.

Definition handle_event (a : StreamAssembler) (event : StreamEvent)
    : result (list StreamChunk) string * StreamAssembler :=
  match event with
  | MessageStart message => (Ok [], begin_message a (ares_usage message))
  | ContentBlockStart _ b => let '(chunks, a) := begin_block a b in (Ok chunks, a)
  | ContentBlockDelta _ d => let '(chunks, a) := extend_block a d in (Ok chunks, a)
  | ContentBlockStop _ => (Ok [], end_block a)
  | MessageDelta stop tokens => (Ok [], update_message a stop tokens)
  | MessageStop => (Ok [Done (assembled a)], a)
  | Ping => (Ok [], a)
  | ErrorEvent error_type message =>
      (Err ("Stream error [" +:+ error_type +:+ "]: " +:+ message)%string, a)
  end.

Fixpoint process_events (a : StreamAssembler) (events : list StreamEvent) : result (list StreamChunk) string :=
  match events with
  | [] => Ok []
  | e :: events =>
      let '(r, a) := handle_event a e in
      let? chunks := r in let? rest := process_events a events in Ok (chunks ++ rest)
  end.

Definition process_stream_events (events : list StreamEvent) : result (list StreamChunk) string :=
  process_events new_assembler events.

(** The loop of [stream] over the items of the event stream: the data of an event, or an
    error of the transport.  The first error ends it. *)
Fixpoint stream_loop (a : StreamAssembler) (items : list (result string BoxedError))
    : list (result StreamChunk BoxedError) :=
  match items with
  | [] => []
  | Err e :: _ => [Err e]
  | Ok data :: items =>
      match event_of data with
      | Err e => [Err e]
      | Ok event =>
          let '(r, a) := handle_event a event in
          match r with
          | Ok chunks => map Ok chunks ++ stream_loop a items
          | Err msg => [Err (OtherError msg)]
          end
      end
  end.

Definition stream (send : AnthropicRequest -> result (list (result string BoxedError)) BoxedError)
    (config : AnthropicConfig) (req : CompletionRequest) : result (list (result StreamChunk BoxedError)) BoxedError :=
  let? items := send (stream_request config req) in Ok (stream_loop new_assembler items).

(** ** Streams that carry a response *)

(** Fragments of one kind. *)
Definition texts_of (mk : string -> Delta) (i : Z) (ds : list string) : list StreamEvent :=
  map (fun d => ContentBlockDelta i (mk d)) ds.

(** How the API streams a content block: empty at first, then in fragments. *)
Inductive block_stream (i : Z) : ContentBlock -> list StreamEvent -> Prop :=
| stream_text ds :
    block_stream i (BText (String.concat "" ds))
      (ContentBlockStart i (BText "") :: texts_of DText i ds ++ [ContentBlockStop i])
| stream_thinking ds ss :
    block_stream i (BThinking (String.concat "" ds) (String.concat "" ss))
      (ContentBlockStart i (BThinking "" "") :: texts_of DThinking i ds ++ texts_of DSignature i ss ++ [ContentBlockStop i])
| stream_tool id name input ds :
    (if String.eqb (String.concat "" ds) "" then input = JObject [] else from_str (String.concat "" ds) = Ok input) ->
    block_stream i (BToolUse id name input)
      (ContentBlockStart i (BToolUse id name (JObject [])) :: texts_of DInputJson i ds ++ [ContentBlockStop i])
| stream_redacted data :
    block_stream i (BRedactedThinking data) [ContentBlockStart i (BRedactedThinking data); ContentBlockStop i].

Inductive blocks_stream : Z -> list ContentBlock -> list StreamEvent -> Prop :=
| blocks_none i : blocks_stream i [] []
| blocks_more i b bs es es' :
    block_stream i b es -> blocks_stream (i + 1) bs es' -> blocks_stream i (b :: bs) (es ++ es').

Definition not_ping (e : StreamEvent) : bool := match e with Ping => false | _ => true end.

(** A stream of [resp]; pings may stand anywhere. *)
Definition carries (resp : AnthropicResponse) (events : list StreamEvent) : Prop :=
  exists start es,
    List.filter not_ping events =
      MessageStart start :: es ++ [MessageDelta (ares_stop_reason resp) (au_output_tokens (ares_usage resp)); MessageStop] /\
    blocks_stream 0 (ares_content resp) es /\
    au_input_tokens (ares_usage start) = au_input_tokens (ares_usage resp) /\
    cache_read_input_tokens (ares_usage start) = cache_read_input_tokens (ares_usage resp) /\
    cache_creation_input_tokens (ares_usage start) = cache_creation_input_tokens (ares_usage resp).

(** What a stream keeps of a part: no signature, and no empty text. *)
Definition streamed_part (p : ContentPart) : option ContentPart :=
  match p with
  | Text t => if String.eqb t "" then None else Some p
  | ThinkingPart t _ => if String.eqb t "" then None else Some (ThinkingPart t "")
  | _ => Some p
  end.

Definition as_streamed (r : CompletionResponse) : CompletionResponse :=
  {| resp_parts := omap streamed_part (resp_parts r); stop_reason := stop_reason r; usage := usage r |}.

(** ** Lemmas on the assembler *)

Definition after (a : StreamAssembler) (events : list StreamEvent) : StreamAssembler :=
  fold_left (fun a e => snd (handle_event a e)) events a.

Lemma process_app es : forall a es',
  process_events a (es ++ es') =
  (let? c := process_events a es in let? c' := process_events (after a es) es' in Ok (c ++ c')).
Proof.
  induction es as [|e es IH]; intros a es'; [simpl; by destruct (process_events a es')|].
  change (after a (e :: es)) with (after (snd (handle_event a e)) es). cbn [app process_events].
  destruct (handle_event a e) as [[c|m] a']; simpl; [|done].
  rewrite IH. destruct (process_events a' es); simpl; [|done].
  destruct (process_events (after a' es) es'); simpl; [|done]. by rewrite app_assoc.
Qed.

Lemma after_app a es es' : after a (es ++ es') = after (after a es) es'.
Proof. apply fold_left_app. Qed.

(** Pings leave no trace. *)
Lemma process_without_pings es : forall a, process_events a es = process_events a (List.filter not_ping es).
Proof.
  induction es as [|e es IH]; intros a; [done|].
  destruct (not_ping e) eqn:Hp; [|by destruct e; try done; cbn; rewrite IH; destruct (process_events _ _)].
  cbn [List.filter]. rewrite Hp. cbn [process_events]. destruct (handle_event a e) as [[c|m] a'']; simpl; [|done].
  by rewrite IH.
Qed.

Lemma concat_cons d ds : String.concat "" (d :: ds) = (d +:+ String.concat "" ds)%string.
Proof. destruct ds; [by rewrite str_app_nil_r|done]. Qed.

Definition chunk_texts (cs : list StreamChunk) : string :=
  fold_right String.append "" (omap (fun c => match c with TextDelta t => Some t | _ => None end) cs).

Lemma chunk_texts_app cs cs' : chunk_texts (cs ++ cs') = (chunk_texts cs +:+ chunk_texts cs')%string.
Proof.
  unfold chunk_texts. rewrite omap_app, fold_right_app.
  induction (omap _ cs) as [|t l IH]; simpl; [done|]. by rewrite IH, str_app_assoc.
Qed.

Definition not_done (c : StreamChunk) : bool := match c with Done _ => false | _ => true end.

(** A fragment without content. *)
Definition quiet (c : StreamChunk) : bool :=
  match c with TextDelta "" | ThinkingDelta "" => true | _ => false end.

(** Running events from [a] sends [cs] and ends in [a']. *)
Definition runs (a : StreamAssembler) (es : list StreamEvent) (cs : list StreamChunk) (a' : StreamAssembler) : Prop :=
  process_events a es = Ok cs /\ after a es = a'.

Lemma runs_nil a : runs a [] [] a.
Proof. done. Qed.

Lemma runs_app a es cs a' es' cs' a'' :
  runs a es cs a' -> runs a' es' cs' a'' -> runs a (es ++ es') (cs ++ cs') a''.
Proof.
  intros [Hp Ha] [Hp' Ha']. split; [|by rewrite after_app, Ha]. by rewrite process_app, Hp, Ha; simpl; rewrite Hp'.
Qed.

Lemma runs_cons a e es c a' cs a'' :
  handle_event a e = (Ok c, a') -> runs a' es cs a'' -> runs a (e :: es) (c ++ cs) a''.
Proof.
  intros He Hr. apply (runs_app _ [e] c a'); [|done]. split; [|by unfold after; simpl; rewrite He].
  simpl. rewrite He. simpl. by rewrite app_nil_r.
Qed.

Lemma runs_texts a i ds : forall ps t th j n id k,
  runs (with_blocks a ps t th j n id k) (texts_of DText i ds) (map TextDelta ds)
       (with_blocks a ps (t +:+ String.concat "" ds) th j n id k).
Proof.
  induction ds as [|d ds IH]; intros; [simpl; rewrite str_app_nil_r; apply runs_nil|].
  rewrite concat_cons, <- str_app_assoc. eapply (runs_cons _ _ _ [_]); [done|]. apply IH.
Qed.

Lemma runs_thoughts a i ds : forall ps t th j n id k,
  runs (with_blocks a ps t th j n id k) (texts_of DThinking i ds) (map ThinkingDelta ds)
       (with_blocks a ps t (th +:+ String.concat "" ds) j n id k).
Proof.
  induction ds as [|d ds IH]; intros; [simpl; rewrite str_app_nil_r; apply runs_nil|].
  rewrite concat_cons, <- str_app_assoc. eapply (runs_cons _ _ _ [_]); [done|]. apply IH.
Qed.

Lemma runs_json a i ds : forall ps t th j n id k,
  runs (with_blocks a ps t th j n id k) (texts_of DInputJson i ds) (map ToolUseInputDelta ds)
       (with_blocks a ps t th (j +:+ String.concat "" ds) n id k).
Proof.
  induction ds as [|d ds IH]; intros; [simpl; rewrite str_app_nil_r; apply runs_nil|].
  rewrite concat_cons, <- str_app_assoc. eapply (runs_cons _ _ _ [_]); [done|]. apply IH.
Qed.

Lemma runs_signatures a i ss : runs a (texts_of DSignature i ss) [] a.
Proof. induction ss as [|s ss IH]; [apply runs_nil|]. by eapply (runs_cons _ _ _ []). Qed.

(** A block: its start, its fragments, its stop. *)
Lemma runs_bracket a e es i c cs a' a'' :
  handle_event a e = (Ok c, a') -> runs a' es cs a'' ->
  runs a (e :: es ++ [ContentBlockStop i]) (c ++ cs) (end_block a'').
Proof.
  intros He Hr. eapply runs_cons; [done|]. rewrite <- (app_nil_r cs). eapply runs_app; [done|].
  by eapply (runs_cons _ _ _ [] _ []).
Qed.

Definition kept (b : ContentBlock) : list ContentPart := option_list (block_to_part b ≫= streamed_part).

Lemma quiet_fragments mk ds : (forall t, quiet (mk t) = String.eqb t "") ->
  String.concat "" ds = "" -> forallb quiet (map mk ds) = true.
Proof.
  intros Hm. induction ds as [|d ds IH]; [done|]. rewrite concat_cons. destruct d; [|done].
  intros He. simpl. rewrite Hm. by apply IH.
Qed.

(** A block adds its part to the assembler, and sends its text in fragments. *)
Lemma runs_block a i b es : block_stream i b es ->
  exists cs t th j n id,
    runs a es cs (with_blocks a (sa_parts a ++ kept b) t th j n id KNone) /\
    forallb not_done cs = true /\
    chunk_texts cs = default "" (block_to_part b ≫= text_part) /\
    (kept b = [] -> forallb quiet cs = true).
Proof.
  intros [ds|ds ss|id name input ds Hin|data].
  - exists (map TextDelta ds). eexists _, _, _, _, _. split; [|split_and!].
    + pose proof (runs_bracket a (ContentBlockStart i (BText "")) _ i [] _ _ _ eq_refl (runs_texts a i ds (sa_parts a) "" (current_thinking a)
        (current_tool_json a) (current_tool_name a) (current_tool_id a) KText)) as H.
      unfold end_block in H; simpl in H. unfold kept; simpl. destruct (String.eqb _ ""); exact H.
    + by induction ds.
    + simpl. induction ds as [|d ds IH]; [done|]. rewrite concat_cons, <- IH. done.
    + unfold kept; simpl. destruct (String.eqb_spec (String.concat "" ds) "") as [He|]; [intros _|done].
      apply quiet_fragments; [by intros []|done].
  - exists (map ThinkingDelta ds). eexists _, _, _, _, _. split; [|split_and!].
    + pose proof (runs_app _ _ _ _ _ _ _ (runs_thoughts a i ds (sa_parts a) (current_text a) "" (current_tool_json a)
        (current_tool_name a) (current_tool_id a) KThinking) (runs_signatures _ i ss)) as H.
      rewrite app_nil_r in H. apply (runs_bracket a (ContentBlockStart i (BThinking "" "")) _ i [] _ _ _ eq_refl) in H.
      rewrite <- app_assoc in H. unfold end_block in H; simpl in H. unfold kept; simpl.
      destruct (String.eqb _ ""); exact H.
    + by induction ds.
    + by induction ds.
    + unfold kept; simpl. destruct (String.eqb_spec (String.concat "" ds) "") as [He|]; [intros _|done].
      apply quiet_fragments; [by intros []|done].
  - exists (ToolUseStart id name :: map ToolUseInputDelta ds). eexists _, _, _, _, _. split; [|split_and!].
    + pose proof (runs_bracket a (ContentBlockStart i (BToolUse id name (JObject []))) _ i [ToolUseStart id name] _ _ _
        eq_refl (runs_json a i ds (sa_parts a) (current_text a) (current_thinking a) "" name id KToolUse)) as H.
      change ("" +:+ String.concat "" ds)%string with (String.concat "" ds) in H.
      unfold end_block, tool_params in H; simpl in H. unfold kept; simpl.
      destruct (String.eqb (String.concat "" ds) ""); [rewrite Hin|rewrite Hin in H]; exact H.
    + clear Hin. simpl. by induction ds.
    + clear Hin. simpl. by induction ds.
    + done.
  - exists []. eexists _, _, _, _, _. split; [|done].
    pose proof (runs_bracket a (ContentBlockStart i (BRedactedThinking data)) [] i [] [] _ _ eq_refl (runs_nil _)) as H.
    unfold kept. simpl in H |- *. rewrite app_nil_r. exact H.
Qed.

Lemma runs_blocks i bs es : blocks_stream i bs es -> forall a, exists cs t th j n id k,
  runs a es cs (with_blocks a (sa_parts a ++ (bs ≫= kept)) t th j n id k) /\
  forallb not_done cs = true /\
  chunk_texts cs = fold_right String.append "" (omap text_part (omap block_to_part bs)) /\
  (bs ≫= kept = [] -> forallb quiet cs = true).
Proof.
  induction 1 as [i|i b bs es es' Hb Hbs IH]; intros a.
  { exists [], (current_text a), (current_thinking a), (current_tool_json a), (current_tool_name a),
      (current_tool_id a), (block_kind a). split; [|done]. simpl. rewrite app_nil_r. split; [done|by destruct a]. }
  destruct (runs_block a i b es Hb) as (cs & t & th & j & n & id & Hr & Hd & Ht & Hq).
  edestruct IH as (cs' & t' & th' & j' & n' & id' & k' & Hr' & Hd' & Ht' & Hq').
  exists (cs ++ cs'), t', th', j', n', id', k'. split; [|split_and!].
  - pose proof (runs_app _ _ _ _ _ _ _ Hr Hr') as Hall. simpl in Hall |- *. by rewrite app_assoc.
  - rewrite forallb_app. by rewrite Hd, Hd'.
  - rewrite chunk_texts_app, Ht, Ht'. simpl.
    destruct (block_to_part b) as [p|]; simpl; [|done]. by destruct (text_part p).
  - simpl. intros [H H']%app_eq_nil. rewrite forallb_app, Hq, Hq'; done.
Qed.

Lemma kept_streamed bs : bs ≫= kept = omap streamed_part (omap block_to_part bs).
Proof.
  induction bs as [|b bs IH]; [done|]. rewrite bind_cons, IH. unfold kept. simpl.
  destruct (block_to_part b) as [p|]; simpl; [|done]. by destruct (streamed_part p).
Qed.

(** A stream of [resp] sends fragments with its text, and at last the response as streamed. *)
Lemma carried_chunks resp events : carries resp events ->
  exists cs, process_events new_assembler events = Ok (cs ++ [Done (as_streamed (convert_response resp))]) /\
    forallb not_done cs = true /\
    chunk_texts cs = default "" (response_text (convert_response resp)) /\
    (resp_parts (as_streamed (convert_response resp)) = [] -> forallb quiet cs = true).
Proof.
  intros (start & es & Hf & Hb & Hi & Hr & Hc). rewrite process_without_pings, Hf.
  destruct (runs_blocks 0 _ es Hb (begin_message new_assembler (ares_usage start)))
    as (cs & t & th & j & n & id & k & [Hp Ha] & Hd & Ht & Hq).
  exists cs. split; [|split_and!].
  - cbn [process_events handle_event]. simpl. rewrite process_app, Hp, Ha. simpl.
    unfold as_streamed, convert_response, assembled; simpl. by rewrite kept_streamed, Hi, Hr, Hc.
  - done.
  - rewrite Ht. unfold response_text, parts_text. simpl. by destruct (omap text_part _).
  - simpl. rewrite <- kept_streamed. exact Hq.
Qed.

(** The loop of [stream] over events that parse and process. *)
Lemma stream_loop_events events : forall datas a cs,
  Forall2 (fun d e => event_of d = Ok e) datas events -> process_events a events = Ok cs ->
  stream_loop a (map Ok datas) = map Ok cs.
Proof.
  induction events as [|e events IH]; intros datas a cs Hds Hp; inversion Hds as [|d ? ds ? He Hds']; subst.
  { by injection Hp as <-. }
  cbn [process_events] in Hp. simpl. rewrite He. destruct (handle_event a e) as [[c|m] a']; simpl in Hp; [|done].
  destruct (process_events a' events) as [rest|] eqn:E; simpl in Hp; [|done]. injection Hp as <-.
  by rewrite (IH ds a' rest), map_app.
Qed.
End Stream.

(** ** Lemmas on the loop that forwards *)

Section Forward.
Context (fs : string -> option json).

Definition fed (a : Assembly) (cs : list StreamChunk) : Assembly :=
  fold_left (fun a c => snd (assemble_chunk fs a c)) cs a.

Lemma forward_not_done cs : forall a c, forallb not_done cs = true -> not_done c = false ->
  forward_loop fs (map Ok cs ++ [Ok c]) a = (cs ++ [c], Ok (snd (assemble_chunk fs (fed a cs) c))).
Proof.
  induction cs as [|x cs IH]; intros a c Hcs Hc.
  { by destruct c. }
  simpl in Hcs. bool_prop. cbn [map app forward_loop]. destruct (assemble_chunk fs a x) as [stop a'] eqn:E.
  assert (stop = false) as -> by (destruct x; simpl in E; by simplify_eq).
  rewrite IH by done. unfold fed. cbn [fold_left]. by rewrite E.
Qed.

Lemma fed_quiet cs : forallb quiet cs = true -> fed start_assembly cs = start_assembly.
Proof.
  induction cs as [|c cs IH]; [done|]. simpl. intros H. bool_prop.
  destruct c as [[]|[]| | | |]; try done; by apply IH.
Qed.

(** The agent's assembly of a complete stream is the response its last chunk holds. *)
Lemma forwarded_response cs resp :
  forallb not_done cs = true -> (resp_parts resp = [] -> forallb quiet cs = true) ->
  forward_established_stream fs (map Ok cs ++ [Ok (Done resp)]) = (cs ++ [Done resp], Ok resp).
Proof.
  intros Hcs Hq. unfold forward_established_stream. rewrite forward_not_done by done. f_equal. f_equal.
  destruct resp as [[|p ps] sr u]; simpl.
  - rewrite fed_quiet by by apply Hq. done.
  - unfold finish_assembly. simpl. by rewrite app_nil_r.
Qed.
End Forward.

(** C35: a stream gives what the whole response gives.  From any stream that carries a
    response, in whatever fragments and with pings anywhere, the agent loop assembles exactly
    what [convert_response] makes of it, but for empty texts and the signatures of thinking,
    and the text it has forwarded is the text of the response. *)
Theorem streamed_as_whole (from_str : string -> result json string)
    (event_of : string -> result StreamEvent BoxedError) (fs : string -> option json)
    (resp : AnthropicResponse) (events : list StreamEvent) (datas : list string)
    (Hresp : carries from_str resp events) (Hdatas : Forall2 (fun d e => event_of d = Ok e) datas events) :
  exists sent,
    forward_established_stream fs (stream_loop from_str event_of new_assembler (map Ok datas)) =
      (sent, Ok (as_streamed (convert_response resp))) /\
    chunk_texts sent = default "" (response_text (convert_response resp)).
Proof.
  destruct (carried_chunks from_str resp events Hresp) as (cs & Hp & Hd & Ht & Hq).
  rewrite (stream_loop_events from_str event_of _ _ _ _ Hdatas Hp), map_app. eexists.
  split; [by apply forwarded_response|]. rewrite chunk_texts_app, Ht. apply str_app_nil_r.
Qed.

(** *** A stream for the witnesses *)

Definition demo_usage (i o : Z) : AnthropicUsage :=
  {| au_input_tokens := i; au_output_tokens := o; cache_creation_input_tokens := 0; cache_read_input_tokens := 2 |}.

Definition demo_response : AnthropicResponse := {|
  ares_id := "msg_1"; msg_type := "message"; ares_role := RoleAssistant;
  ares_content := [BThinking "The arm is free." "sig=="; BText "Moving."; BToolUse "t1" "move" (JArray [JUint 1])];
  ares_model := "claude"; ares_stop_reason := Some "tool_use"; ares_usage := demo_usage 10 25 |}.

Definition demo_start : AnthropicResponse := {|
  ares_id := "msg_1"; msg_type := "message"; ares_role := RoleAssistant; ares_content := [];
  ares_model := "claude"; ares_stop_reason := None; ares_usage := demo_usage 10 1 |}.

Definition demo_events : list StreamEvent :=
  [MessageStart demo_start; Ping;
   ContentBlockStart 0 (BThinking "" ""); ContentBlockDelta 0 (DThinking "The arm "); Ping;
   ContentBlockDelta 0 (DThinking "is free."); ContentBlockDelta 0 (DSignature "sig=="); ContentBlockStop 0;
   ContentBlockStart 1 (BText ""); ContentBlockDelta 1 (DText "Mov"); ContentBlockDelta 1 (DText "ing."); ContentBlockStop 1;
   ContentBlockStart 2 (BToolUse "t1" "move" (JObject [])); ContentBlockDelta 2 (DInputJson "[");
   ContentBlockDelta 2 (DInputJson "1]"); ContentBlockStop 2;
   MessageDelta (Some "tool_use") 25; MessageStop].

Lemma demo_carries : carries toy_from_str demo_response demo_events.
Proof.
  exists demo_start. eexists. split; [|split; [|done]].
  2:{ eapply (blocks_more _ _ _ _ _ _ (stream_thinking _ 0 ["The arm "; "is free."] ["sig=="])).
      eapply (blocks_more _ _ _ _ _ _ (stream_text _ 1 ["Mov"; "ing."])).
      eapply (blocks_more _ _ _ _ _ _ (stream_tool _ 2 "t1" "move" (JArray [JUint 1]) ["["; "1]"] eq_refl)).
      apply blocks_none. }
  reflexivity.
Qed.

(** Events as texts, by their position. *)
Definition demo_event_of (data : string) : result StreamEvent BoxedError :=
  match demo_events !! (String.length data) with Some e => Ok e | None => Err (OtherError "no event") end.

Definition demo_datas : list string :=
  map (fun n => String.concat "" (repeat "e" n)) (seq 0 (length demo_events)).

Lemma streamed_as_whole_witness :
  carries toy_from_str demo_response demo_events /\
  exists sent,
    forward_established_stream (fun _ => None) (stream_loop toy_from_str demo_event_of new_assembler (map Ok demo_datas)) =
      (sent, Ok (as_streamed (convert_response demo_response))) /\
    chunk_texts sent = "Moving.".
Proof.
  split; [apply demo_carries|].
  apply (streamed_as_whole toy_from_str demo_event_of (fun _ => None) demo_response demo_events demo_datas).
  - apply demo_carries.
  - repeat constructor.
Defined.

(** ** Consequences and other theorems *)

(** A signed thought loses its signature when it is streamed, and goes back to the API
    without one; read whole it keeps it. *)
Lemma signature_lost (thinking signature : string) (Ht : thinking <> "") :
  option_map part_to_content_block (streamed_part (ThinkingPart thinking signature)) = Some (BThinking thinking "") /\
  option_map part_to_content_block (block_to_part (BThinking thinking signature)) = Some (BThinking thinking signature).
Proof. simpl. by rewrite (proj2 (String.eqb_neq _ _) Ht). Qed.

Lemma signature_lost_witness :
  ("plan" <> "") /\ option_map part_to_content_block (streamed_part (ThinkingPart "plan" "sig")) = Some (BThinking "plan" "").
Proof. split; [done|]. apply (signature_lost "plan" "sig"). done. Defined.

(** [ChoiceNone] is to prevent the use of tools; the request offers them all the same. *)
Lemma none_choice_still_offers_tools config req stream :
  tool_choice req = Some ChoiceNone -> response_schema req = None -> req_tools req <> [] ->
  ar_tools (build_api_request config req stream) = Some (convert_tools (req_tools req)) /\
  ar_tool_choice (build_api_request config req stream) = Some TcAuto.
Proof.
  intros Hc Hs Ht. unfold build_api_request. destruct (convert_messages (req_messages req)). rewrite Hs, Hc.
  by destruct (req_tools req).
Qed.

(** Nothing follows an error of a stream. *)
Lemma stream_errors_last from_str event_of items : forall a,
  exists cs, stream_loop from_str event_of a items = map Ok cs \/
    exists e, stream_loop from_str event_of a items = map Ok cs ++ [Err e].
Proof.
  induction items as [|[data|e] items IH]; intros a; simpl; [by exists []; left| |exists []; eauto].
  destruct (event_of data) as [event|e]; [|exists []; eauto].
  destruct (handle_event from_str a event) as [[c|m] a']; [|exists []; eauto].
  destruct (IH a') as [cs [->|[e ->]]]; exists (c ++ cs); rewrite map_app; [by left|right].
  exists e. by rewrite app_assoc.
Qed.

Definition is_system (m : Message) : bool := match role m with System => true | _ => false end.

Definition cached (b : SystemBlock) : bool := match cache_control b with Some _ => true | None => false end.

(** A request holds the whole transcript: the system texts in order, of which a prefix of at
    most four is cached, never the last of several; every other message with its role, each
    part as its block. *)
Theorem request_holds_transcript (messages : list Message) :
  let '(sys, api) := convert_messages messages in
  let texts := List.filter is_system messages ≫= (fun m => omap text_part (parts m)) in
  from_option (map sb_text) [] sys = texts /\
  from_option (map cached) [] sys =
    imap (fun i _ => (i <? cached_prefix_len (length texts))%nat) texts /\
  (cached_prefix_len (length texts) <= 4)%nat /\
  ((2 <= length texts)%nat -> (cached_prefix_len (length texts) < length texts)%nat) /\
  api = map (fun m => {| am_role := match role m with Assistant => RoleAssistant | _ => RoleUser end;
                         am_content := ContentBlocks (map part_to_content_block (parts m)) |})
            (List.filter (fun m => negb (is_system m)) messages).
Proof.
  unfold convert_messages.
  assert (messages ≫= (fun m => fst (convert_message m)) =
          List.filter is_system messages ≫= (fun m => omap text_part (parts m))) as ->.
  { induction messages as [|m ms IH]; [done|]. rewrite bind_cons, IH. unfold convert_message.
    cbn [List.filter]. unfold is_system at 2. by destruct (role m). }
  set (texts := _ ≫= _). split_and!.
  - destruct texts as [|t ts] eqn:E; [done|]. rewrite <- E. clear E. simpl. unfold system_blocks.
    generalize (cached_prefix_len (length texts)). intros n.
    assert (forall k l, map sb_text (imap (fun i text => {| block_type := "text"; sb_text := text;
      cache_control := if (k + i <? n)%nat then Some ephemeral else None |}) l) = l) as H.
    { intros k l. revert k. induction l as [|x l IHl]; intros k; simpl; [done|]. f_equal.
      rewrite <- (IHl (S k)) at 2. f_equal. apply imap_ext. intros i y _. simpl. by rewrite Nat.add_succ_r. }
    exact (H 0%nat texts).
  - destruct texts as [|t ts] eqn:E; [done|]. rewrite <- E. clear E. simpl. unfold system_blocks.
    change (map cached) with (fmap (M := list) cached). rewrite fmap_imap. apply imap_ext. intros i y _. simpl. unfold cached.
    by destruct (_ <? _)%nat.
  - unfold cached_prefix_len, MAX_CACHED_SYSTEM_BLOCKS. destruct (_ =? 1)%nat; lia.
  - unfold cached_prefix_len, MAX_CACHED_SYSTEM_BLOCKS. destruct (Nat.eqb_spec (length texts) 1); lia.
  - clear texts. induction messages as [|m ms IH]; [done|]. rewrite bind_cons, IH. unfold convert_message.
    cbn [List.filter]. unfold is_system at 2. by destruct (role m) eqn:E; simpl; rewrite ?E.
Qed.

(** ** Structured output *)

Definition first_text (ps : list ContentPart) : option string := list_find_some text_part ps.

Lemma replace_first_text_spec ps text :
  match replace_first_text ps text with
  | Some ps' => first_text ps' = Some text /\ length ps' = length ps /\
                List.filter is_tool_use ps' = List.filter is_tool_use ps
  | None => first_text ps = None
  end.
Proof.
  unfold first_text. induction ps as [|p ps IH]; [done|]. destruct p; simpl; try done.
  all: destruct (replace_first_text ps text); simpl; naive_solver congruence.
Qed.

Lemma replace_or_set_text_spec r text :
  first_text (resp_parts (replace_or_set_text r text)) = Some text /\
  has_tool_calls (replace_or_set_text r text) = has_tool_calls r.
Proof.
  unfold replace_or_set_text, has_tool_calls. simpl. pose proof (replace_first_text_spec (resp_parts r) text) as H.
  assert (forall ps : list ContentPart, existsb is_tool_use ps = negb (length (List.filter is_tool_use ps) =? 0)%nat) as He.
  { induction ps as [|p ps IH]; [done|]. simpl. rewrite IH. by destruct (is_tool_use p). }
  destruct (replace_first_text (resp_parts r) text) as [ps'|]; simpl.
  - destruct H as (-> & _ & Hf). by rewrite !He, Hf.
  - rewrite existsb_app. simpl. rewrite orb_false_r. split; [|done]. unfold first_text in *.
    clear He. induction (resp_parts r) as [|p ps IH]; [done|]. simpl in *. by destruct (text_part p); [|apply IH].
Qed.

Definition is_respond (b : ContentBlock) : option json :=
  match b with BToolUse _ name input => if String.eqb name RESPOND_TOOL_NAME then Some input else None | _ => None end.

Lemma extract_respond_input to_string resp :
  extract_respond_tool_input to_string resp = to_string <$> list_find_some is_respond (ares_content resp).
Proof.
  unfold extract_respond_tool_input. induction (ares_content resp) as [|b bs IH]; [done|]. simpl. rewrite IH.
  destruct b; simpl; try done. by destruct (String.eqb _ _).
Qed.

(** Printed, parsed and printed again, as the answer is. *)
Definition reprinted (from_str : string -> result json string) (to_string : json -> string) (v : json) : string :=
  match from_str (to_string v) with Ok w => to_string w | Err _ => "" end.

(** structured output.  As printed values parse, a request with a schema is sent once:
    its answer is the response whose first text is the input of the forced tool, an error
    when the tool is absent, and the error of the transport otherwise.  The repeated request
    is never made. *)
Theorem forced_tool_decides (from_str : string -> result json string) (to_string : json -> string)
    (send : AnthropicRequest -> result AnthropicResponse BoxedError) (config : AnthropicConfig)
    (req : CompletionRequest) (schema : json)
    (Hprint : forall v, is_ok (from_str (to_string v)) = true) (Hschema : response_schema req = Some schema) :
  complete from_str to_string send config req =
    Ret (match send (build_api_request config req false) with
         | Err e => Err (Transport e)
         | Ok resp =>
             match list_find_some is_respond (ares_content resp) with
             | None => Err (Agent no_forced_tool)
             | Some input => Ok (replace_or_set_text (convert_response resp) (reprinted from_str to_string input))
             end
         end).
Proof.
  unfold complete. destruct (send _) as [resp|e]; [|done]. rewrite Hschema, extract_respond_input.
  destruct (list_find_some is_respond (ares_content resp)) as [input|]; [|done]. simpl.
  unfold apply_repair_loop, parse_or_repair, reprinted. specialize (Hprint input).
  by destruct (from_str (to_string input)).
Qed.

(** The forced call stays among the calls of the response. *)
Lemma forced_tool_remains resp input text :
  list_find_some is_respond (ares_content resp) = Some input ->
  has_tool_calls (replace_or_set_text (convert_response resp) text) = true.
Proof.
  intros H. rewrite (proj2 (replace_or_set_text_spec _ _)). unfold has_tool_calls, convert_response. simpl.
  induction (ares_content resp) as [|b bs IH]; [done|]. simpl in H.
  destruct b; simpl in *; try (by apply IH); done.
Qed.

(** A printer for three values, and its parser. *)
Definition plain_to_string (v : json) : string :=
  match v with JBool b => if b then "true" else "false" | _ => "null" end.

Definition plain_from_str (s : string) : result json string :=
  if String.eqb s "true" then Ok (JBool true) else if String.eqb s "false" then Ok (JBool false)
  else if String.eqb s "null" then Ok Null else Err "expected value".

Definition demo_request : CompletionRequest := {|
  req_messages := [system "You drive a robot."; user "Is it free?"]; req_tools := []; req_max_tokens := 100;
  tool_choice := None; response_schema := Some (JObject []) |}.

Definition demo_config : AnthropicConfig := {|
  gateway_url := "https://gateway"; api_key := "k"; ac_model := "claude"; thinking_config := None;
  proxy_provider := "anthropic"; direct_api_key := None |}.

Definition respond_once (r : AnthropicRequest) : result AnthropicResponse BoxedError :=
  match ar_tool_choice r with
  | Some (TcTool "respond") =>
      Ok {| ares_id := "msg_2"; msg_type := "message"; ares_role := RoleAssistant;
            ares_content := [BToolUse "t9" "respond" (JBool true)];
            ares_model := "claude"; ares_stop_reason := Some "tool_use"; ares_usage := demo_usage 3 4 |}
  | _ => Err (OtherError "no schema")
  end.

Lemma forced_tool_decides_witness :
  (forall v, is_ok (plain_from_str (plain_to_string v)) = true) /\
  exists r, complete plain_from_str plain_to_string respond_once demo_config demo_request = Ret (Ok r) /\
    first_text (resp_parts r) = Some "true" /\ has_tool_calls r = true.
Proof.
  assert (forall v, is_ok (plain_from_str (plain_to_string v)) = true) as Hp by (intros v; by destruct v as [|[]| | | | | |]).
  split; [exact Hp|]. rewrite (forced_tool_decides _ _ respond_once demo_config demo_request (JObject []) Hp eq_refl).
  eexists. split; [reflexivity|]. split; reflexivity.
Defined.
