(* ===== verification/Gemini.v ===== *)
(** * The Gemini provider

    roz-agent/model/gemini.rs: the request built from a transcript, the response read back,
    and [complete] with its structured output.  It has no stream of its own: [default_stream]
    of [ModelCalls] wraps [complete]. *)

From Stdlib Require Import Ascii.
From S2P Require Import Prelude RustStr Json JsonRepair Guards Context ModelCalls StructuredOutput Anthropic.

#[local] Open Scope string_scope.
#[local] Open Scope list_scope.

(** ** The messages of the API *)

Inductive GeminiPart : Type :=
| GText (text : string)
| GFunctionCall (name : string) (args : json)
| GFunctionResponse (name : string) (response : json)
| GInlineData (mime_type data : string).

Record GeminiContent : Type := { gc_role : string; gc_parts : list GeminiPart }.

Record FunctionDeclaration : Type := { fd_name : string; fd_description : string; fd_parameters : json }.
Record GeminiTool : Type := { function_declarations : list FunctionDeclaration }.

Record GenerationConfig : Type := {
  max_output_tokens : option Z;
  gen_response_schema : option json;
  response_mime_type : option string;
}.

(** [ToolConfig] holds the mode only. *)
Record ToolConfig : Type := { mode : string }.

Record GeminiRequest : Type := {
  contents : list GeminiContent;
  g_tools : option (list GeminiTool);
  tool_config : option ToolConfig;
  generation_config : option GenerationConfig;
}.

Record UsageMetadata : Type := {
  prompt_token_count : Z;
  candidates_token_count : Z;
  total_token_count : Z;
}.

Definition no_usage_metadata : UsageMetadata :=
  {| prompt_token_count := 0; candidates_token_count := 0; total_token_count := 0 |}.

Record Candidate : Type := { content : GeminiContent; finish_reason : option string }.

Record GeminiResponse : Type := { candidates : list Candidate; usage_metadata : option UsageMetadata }.

(** ** Requests *)

Definition part_to_gemini (p : ContentPart) : option GeminiPart :=
  match p with
  | Text text => Some (GText text)
  | ToolUse _ name input => Some (GFunctionCall name input)
  | ToolResultPart _ name content _ => Some (GFunctionResponse name (JObject [("result", JString content)]))
  | Image media_type data => Some (GInlineData media_type data)
  | ThinkingPart _ _ => None
  end.

Definition parts_to_gemini_parts (ps : list ContentPart) : list GeminiPart := omap part_to_gemini ps.

Definition gemini_message (m : Message) : list string * list GeminiContent :=
  match role m with
  | System => (omap text_part (parts m), [])
  | User => ([], [{| gc_role := "user"; gc_parts := parts_to_gemini_parts (parts m) |}])
  | Assistant => ([], [{| gc_role := "model"; gc_parts := parts_to_gemini_parts (parts m) |}])
  end.

Definition gemini_messages (messages : list Message) : option string * list GeminiContent :=
  let system_texts := messages ≫= (fun m => fst (gemini_message m)) in
  (match system_texts with [] => None | _ => Some (join_with newline system_texts) end,
   messages ≫= (fun m => snd (gemini_message m))).

Definition gemini_tools (schemas : list ToolSchema) : list GeminiTool :=
  match schemas with
  | [] => []
  | _ => [{| function_declarations :=
               map (fun s => {| fd_name := ts_name s; fd_description := ts_description s; fd_parameters := ts_parameters s |})
                   schemas |}]
  end.

Definition gemini_tool_choice (strategy : option ToolChoiceStrategy) : option ToolConfig :=
  match strategy with
  | None | Some ChoiceAuto => None
  | Some (ChoiceAny | ChoiceRequired _) => Some {| mode := "ANY" |}
  | Some ChoiceNone => Some {| mode := "NONE" |}
  end.

Definition system_part (sys : string) : GeminiPart := GText ("[System] " +:+ sys +:+ newline +:+ newline).

(** The system text joins the first content, if the user speaks first. *)
Definition prepend_system (system : option string) (cs : list GeminiContent) : list GeminiContent :=
  match system, cs with
  | Some sys, first :: rest =>
      if String.eqb (gc_role first) "user"
      then {| gc_role := gc_role first; gc_parts := system_part sys :: gc_parts first |} :: rest
      else cs
  | _, _ => cs
  end.

Definition build_request (req : CompletionRequest) : GeminiRequest :=
  let '(system, contents) := gemini_messages (req_messages req) in
  let tools := gemini_tools (req_tools req) in
  {| contents := prepend_system system contents;
     g_tools := some_unless_empty tools;
     tool_config := match tools with [] => None | _ => gemini_tool_choice (tool_choice req) end;
     generation_config := Some {|
       max_output_tokens := Some (req_max_tokens req);
       gen_response_schema := response_schema req;
       response_mime_type := (fun _ => "application/json") <$> response_schema req |} |}.

(** ** Responses *)

Definition gemini_call_id (call_index : nat) : string := "gemini_call_" +:+ pretty call_index.

(** The parts of the candidate, calls numbered from [call_index]. *)
Fixpoint read_parts (call_index : nat) (ps : list GeminiPart) : list ContentPart :=
  match ps with
  | [] => []
  | GText text :: ps => Text text :: read_parts call_index ps
  | GFunctionCall name args :: ps => ToolUse (gemini_call_id call_index) name args :: read_parts (S call_index) ps
  | _ :: ps => read_parts call_index ps
  end.

Definition is_function_call (p : GeminiPart) : bool := match p with GFunctionCall _ _ => true | _ => false end.

Definition gemini_convert_response (resp : GeminiResponse) : CompletionResponse :=
  let u := default no_usage_metadata (usage_metadata resp) in
  let usage := {| input_tokens := prompt_token_count u; output_tokens := candidates_token_count u;
                  cache_read_tokens := 0; cache_creation_tokens := 0 |} in
  match head (candidates resp) with
  | Some c =>
      {| resp_parts := read_parts 0 (gc_parts (content c));
         stop_reason :=
           if existsb is_function_call (gc_parts (content c)) then StopToolUse
           else match finish_reason c with Some "MAX_TOKENS" => MaxTokens | _ => EndTurn end;
         usage := usage |}
  | None => {| resp_parts := []; stop_reason := EndTurn; usage := usage |}
  end.

Section Complete.
(** Parsing and printing of JSON; [send] is [send_request]. *)
Context (from_str : string -> result json string) (to_string : json -> string).
Context (send : GeminiRequest -> result GeminiResponse BoxedError).

Definition gemini_retry (req : CompletionRequest) (raw instruction : string)
    : option CompletionResponse * result string AgentError :=
  match send (build_request (retry_request req raw instruction)) with
  | Ok resp2 =>
      let converted2 := gemini_convert_response resp2 in
      (Some converted2, Ok (default "" (response_text converted2)))
  | Err e => (None, Err (ModelErr (OtherError (error_text e))))
  end.

Definition gemini_complete (req : CompletionRequest) : exec (result CompletionResponse ProviderError) :=
  match send (build_request req) with
  | Err e => Ret (Err (Transport e))
  | Ok resp =>
      let converted := gemini_convert_response resp in
      match response_schema req with
      | None => Ret (Ok converted)
      | Some schema =>
          let raw1 := default "" (response_text converted) in
          let! loop := apply_repair_loop from_str to_string raw1 schema (gemini_retry req) in
          let '(response2, parsed) := loop in
          match parsed with
          | Err e => Ret (Err (Agent e))
          | Ok parsed =>
              let converted :=
                match response2 with
                | Some converted2 => with_usage converted2 (add_usage (usage converted) (usage converted2))
                | None => converted
                end in
              Ret (Ok (replace_or_set_text converted (to_string parsed)))
          end
      end
  end.
End Complete.

(** ** Theorems *)

(** The calls of a response have different identifiers, in the order of their numbers. *)
Lemma read_parts_ids ps : forall k,
  omap use_id (read_parts k ps) = map gemini_call_id (seq k (length (List.filter is_function_call ps))).
Proof. induction ps as [|[] ps IH]; intros k; simpl; try rewrite IH; done. Qed.

Lemma call_ids_distinct resp : NoDup (omap use_id (resp_parts (gemini_convert_response resp))).
Proof.
  unfold gemini_convert_response. destruct (head (candidates resp)) as [c|]; simpl; [|constructor].
  rewrite read_parts_ids. apply NoDup_fmap_2; [|apply NoDup_seq].
  intros i j H. unfold gemini_call_id in H. apply (inj (String.append "gemini_call_")) in H. by apply (inj pretty) in H.
Qed.

(** The response stops for tools exactly when it has calls. *)
Lemma stops_for_tools resp :
  stop_reason (gemini_convert_response resp) = StopToolUse <-> has_tool_calls (gemini_convert_response resp) = true.
Proof.
  unfold gemini_convert_response, has_tool_calls. destruct (head (candidates resp)) as [c|]; simpl; [|done].
  assert (forall ps k, existsb is_tool_use (read_parts k ps) = existsb is_function_call ps) as ->.
  { induction ps as [|[] ps IH]; intros k; simpl; try apply IH; done. }
  destruct (existsb _ _); [done|]. split; [|done].
  destruct (finish_reason c) as [s|]; [|done]. by repeat case_match.
Qed.

(** The system text is in the request exactly when the first other message is the user's. *)
Lemma system_lost_iff (messages : list Message) (sys : string) :
  (prepend_system (Some sys) (snd (gemini_messages messages)) = snd (gemini_messages messages) <->
   match List.filter (fun m => negb (is_system m)) messages with m :: _ => role m = Assistant | [] => True end).
Proof.
  unfold gemini_messages. simpl.
  assert (messages ≫= (fun m => snd (gemini_message m)) =
    map (fun m => {| gc_role := match role m with Assistant => "model" | _ => "user" end; gc_parts := parts_to_gemini_parts (parts m) |})
        (List.filter (fun m => negb (is_system m)) messages)) as ->.
  { induction messages as [|m ms IH]; [done|]. rewrite bind_cons, IH. unfold gemini_message.
    cbn [List.filter]. unfold is_system at 2. by destruct (role m) eqn:E; simpl; rewrite ?E. }
  destruct (List.filter _ messages) as [|m ms] eqn:Hf; simpl; [done|].
  assert (In m (List.filter (fun m => negb (is_system m)) messages)) as Hin by (rewrite Hf; by left).
  apply filter_In in Hin as [_ Hs]. unfold is_system in Hs. destruct (role m); simpl; try done.
  split; [|done]. intros H. injection H as H. exfalso. apply (f_equal length) in H. simpl in H. lia.
Qed.

(** structured output.  [complete] returns; an answer for a schema starts its text with
    the print of a value that the text of the first response gives, by itself or repaired, or
    else that of the second. *)
Theorem gemini_structured_text (from_str : string -> result json string) (to_string : json -> string)
    (send : GeminiRequest -> result GeminiResponse BoxedError) (req : CompletionRequest) (schema : json)
    (Hschema : response_schema req = Some schema) :
  exists r, gemini_complete from_str to_string send req = Ret r /\
  forall answer, r = Ok answer ->
    exists first raw v, send (build_request req) = Ok first /\
      first_text (resp_parts answer) = Some (to_string v) /\
      parse_or_repair from_str raw = Ret (Some v) /\
      let text1 := default "" (response_text (gemini_convert_response first)) in
      (raw = text1 \/
       parse_or_repair from_str text1 = Ret None /\
       exists second, send (build_request (retry_request req text1 (repair_instruction to_string schema))) = Ok second /\
         raw = default "" (response_text (gemini_convert_response second))).
Proof.
  unfold gemini_complete. destruct (send (build_request req)) as [resp|e] eqn:Hs; [|eexists; split; [done|naive_solver]].
  rewrite Hschema. set (text1 := default "" _). unfold apply_repair_loop.
  destruct (parse_or_repair_spec from_str text1) as (o & Ho & _ & _). rewrite Ho. simpl.
  destruct o as [v|]; simpl.
  { eexists. split; [done|]. intros ? [= <-]. exists resp, text1, v. rewrite (proj1 (replace_or_set_text_spec _ _)). naive_solver. }
  unfold gemini_retry. destruct (send (build_request (retry_request _ _ _))) as [second|e] eqn:Hs2; simpl;
    [|eexists; split; [done|naive_solver]].
  set (text2 := default "" (response_text (gemini_convert_response second))).
  destruct (parse_or_repair_spec from_str text2) as (o2 & Ho2 & _ & _). rewrite Ho2. simpl. destruct o2 as [v|]; simpl.
  - eexists. split; [done|]. intros ? [= <-]. exists resp, text2, v. rewrite (proj1 (replace_or_set_text_spec _ _)). naive_solver.
  - destruct (truncate_total text2 RAW_CAP) as [t ->]. eexists. split; [done|naive_solver].
Qed.

Definition gemini_says (text : string) : GeminiResponse := {|
  candidates := [{| content := {| gc_role := "model"; gc_parts := [GText text] |}; finish_reason := Some "STOP" |}];
  usage_metadata := Some {| prompt_token_count := 5; candidates_token_count := 2; total_token_count := 7 |} |}.

(** Prose first; the instruction makes the second answer a value. *)
Definition gemini_twice (r : GeminiRequest) : result GeminiResponse BoxedError :=
  Ok (gemini_says (if (length (contents r) =? 1)%nat then "yes" else "true")).

Lemma gemini_structured_text_witness :
  response_schema demo_request = Some (JObject []) /\
  exists answer, gemini_complete plain_from_str plain_to_string gemini_twice demo_request = Ret (Ok answer) /\
    first_text (resp_parts answer) = Some "true" /\ input_tokens (usage answer) = 10.
Proof.
  split; [reflexivity|].
  destruct (gemini_structured_text plain_from_str plain_to_string gemini_twice demo_request (JObject []) eq_refl)
    as (r & Hr & Ha).
  eexists. split; [vm_compute; reflexivity|]. split; vm_compute; reflexivity.
Defined.
