(* ===== verification/AgentLoop.v ===== *)
(** * The agent loop

    roz-agent/agent_loop: mod.rs (the loop's parts and first messages), input.rs, core.rs
    (the cycle of compaction, budget, phases, observation, model call, dispatch and circuit
    breaker) with roz-core/phases.rs and meter.rs.  The model, the auxiliary model, the meter's
    answers, the world's snapshots, the cancellation token and what tools and operators answer
    are given per cycle; the fuel counts cycles. *)

From S2P Require Import Prelude Float64 Float64Round RustStr Json SafetyFilter Guards Approvals Context Policy Dispatch ModelCalls.

(** ** phases.rs *)

Inductive PhaseMode : Type := PhaseReact | PhaseOodaReAct.

Inductive ToolSetFilter : Type := FilterAll | FilterNamed (names : list string) | FilterNone.

Inductive PhaseTrigger : Type := Immediate | AfterCycles (n : Z) | OnToolSignal.

#[export] Instance PhaseTrigger_eq_dec : EqDecision PhaseTrigger.
Proof. solve_decision. Defined.

Record PhaseSpec : Type := { ph_mode : PhaseMode; ph_tools : ToolSetFilter; ph_trigger : PhaseTrigger }.

Definition phase_mode_of (m : AgentLoopMode) : PhaseMode :=
  match m with React => PhaseReact | OodaReAct => PhaseOodaReAct end.
Definition cognition_mode_of (m : PhaseMode) : AgentLoopMode :=
  match m with PhaseReact => React | PhaseOodaReAct => OodaReAct end.

(** ** meter.rs *)

Inductive BudgetStatus : Type :=
| WithinBudget
| InOverage (plan : string)
| HardLimited (plan period_end : string).

Record UsageRecord : Type := {
  ur_tenant_id : string;
  ur_session_id : string;
  ur_resource_type : string;
  ur_model : option string;
  ur_quantity : Z;
  ur_input_tokens : option Z;
  ur_output_tokens : option Z;
  ur_cache_read_tokens : option Z;
  ur_cache_creation_tokens : option Z;
  idempotency_key : string;
}.

(** ** turn_emitter.rs *)

Record TurnEnvelope : Type := {
  te_session_id : string;
  te_tenant_id : string;
  te_turn_index : Z;
  te_role : string;
  te_content : json;
  te_token_usage : option json;
  te_kind : string;
}.

Definition KIND_TURN : string := "turn".
Definition KIND_COMPACTION : string := "compaction".

Definition i32_max : Z := 2 ^ 31 - 1.
Definition i32_saturating_add (a b : Z) : Z := Z.max (- 2 ^ 31) (Z.min i32_max (a + b)).

(** ** input.rs *)

Definition RESPOND_TOOL_NAME : string := "__respond".

Record AgentInputSeed : Type := { system_prompt : list string; history : list Message; user_message : string }.

Definition default_seed : AgentInputSeed := {| system_prompt := []; history := []; user_message := "" |}.

Record AgentInput : Type := {
  in_task_id : string;
  in_tenant_id : string;
  model_name : string;
  seed : AgentInputSeed;
  max_cycles : Z;
  in_max_tokens : Z;
  max_context_tokens : Z;
  mode : AgentLoopMode;
  phases : list PhaseSpec;
  in_tool_choice : option ToolChoiceStrategy;
  in_response_schema : option json;
  streaming : bool;
  has_cancellation_token : bool;
  control_mode : Safety.ControlMode;
}.

Definition runtime_shell (task_id tenant_id model_name : string) (mode : AgentLoopMode)
    (max_cycles max_tokens max_context_tokens : Z) (streaming has_token : bool) (control_mode : Safety.ControlMode)
    : AgentInput := {|
  in_task_id := task_id; in_tenant_id := tenant_id; model_name := model_name; seed := default_seed;
  max_cycles := max_cycles; in_max_tokens := max_tokens; max_context_tokens := max_context_tokens; mode := mode;
  phases := []; in_tool_choice := None; in_response_schema := None; streaming := streaming;
  has_cancellation_token := has_token; control_mode := control_mode |}.

Record AgentOutput : Type := {
  out_cycles : Z;
  out_final_response : option string;
  out_total_usage : TokenUsage;
  out_messages : list Message;
}.

(** ** The state of a run *)

Record Convo : Type := { messages : list Message; turn_index : Z; emitted : list TurnEnvelope }.

Record PhaseState : Type := { phase_index : nat; phase_cycle_count : Z; phase_signalled : bool }.

Record Progress : Type := {
  cycles : Z;
  total_usage : TokenUsage;
  final_response : option string;
  consecutive_error_turns : Z;
}.

Record Logs (X E : Type) : Type := {
  requests_sent : list CompletionRequest;
  chunks_sent : list StreamChunk;
  presence : list PresenceSignal;
  usage_records : list UsageRecord;
  executed : list (list (Step (X := X) (E := E)));
}.
Arguments requests_sent {X E} _.
Arguments chunks_sent {X E} _.
Arguments presence {X E} _.
Arguments usage_records {X E} _.
Arguments executed {X E} _.

Record RunState (X E G : Type) : Type := {
  rs_dispatcher : ToolDispatcher X;
  rs_guards : list G;
  rs_registry : option Registry;
  convo : Convo;
  phase : PhaseState;
  progress : Progress;
  logs : Logs X E;
}.
Arguments rs_dispatcher {X E G} _.
Arguments rs_guards {X E G} _.
Arguments rs_registry {X E G} _.
Arguments convo {X E G} _.
Arguments phase {X E G} _.
Arguments progress {X E G} _.
Arguments logs {X E G} _.

(** What the outside answers in the [n]-th pass of the loop. *)
Record World (X E : Type) : Type := {
  w_cancelled : nat -> bool;
  w_budget : nat -> BudgetStatus;
  w_snapshot : nat -> WorldState json;
  w_complete : nat -> CompletionRequest -> nat -> result CompletionResponse BoxedError;
  w_stream : nat -> CompletionRequest -> nat -> result (list (result StreamChunk BoxedError)) BoxedError;
  w_rolling_model : nat -> Model;
  w_cycle_model : nat -> Model;
  w_aux : nat -> option AuxLlm;
  w_turn : nat -> TurnEnv (X := X) (E := E);
}.
Arguments w_cancelled {X E} _.
Arguments w_budget {X E} _.
Arguments w_snapshot {X E} _.
Arguments w_complete {X E} _.
Arguments w_stream {X E} _.
Arguments w_rolling_model {X E} _.
Arguments w_cycle_model {X E} _.
Arguments w_aux {X E} _.
Arguments w_turn {X E} _.

(** How a pass of the loop ends: [continue], [break] or an early return. *)
Inductive Next (S : Type) : Type := Continue (s : S) | Break (s : S) | Return (e : AgentError) (s : S).
Arguments Continue {S} _.
Arguments Break {S} _.
Arguments Return {S} _ _.

Section AgentLoop.
Context {X E G : Type} `{!ToolExecutor X} `{!SafetyGuard json G}.
(** Texts other code makes, and the parts of the loop that stay fixed in a run. *)
Context (debug_duration : Duration -> string) (to_string : json -> string) (render : SafetyFilter.message -> string)
  (to_json : ToolResult -> option string) (from_str : string -> option json) (debug_message : Message -> string)
  (message_value : Message -> json) (parse_uuid : string -> option string) (nil_uuid : string)
  (format_spatial_context : WorldState json -> string).
Context (retry_config : RetryConfig) (has_emitter : bool) (system_prompt_seed : list string)
  (history_seed : list Message) (user_message_seed : option string) (extensions : E).
Context (world : World X E) (input : AgentInput).

#[local] Notation St := (RunState X E G).

Definition set_convo (c : Convo) (s : St) : St :=
  {| rs_dispatcher := rs_dispatcher s; rs_guards := rs_guards s; rs_registry := rs_registry s; convo := c;
     phase := phase s; progress := progress s; logs := logs s |}.
Definition set_phase (p : PhaseState) (s : St) : St :=
  {| rs_dispatcher := rs_dispatcher s; rs_guards := rs_guards s; rs_registry := rs_registry s; convo := convo s;
     phase := p; progress := progress s; logs := logs s |}.
Definition set_progress (p : Progress) (s : St) : St :=
  {| rs_dispatcher := rs_dispatcher s; rs_guards := rs_guards s; rs_registry := rs_registry s; convo := convo s;
     phase := phase s; progress := p; logs := logs s |}.
Definition set_logs (l : Logs X E) (s : St) : St :=
  {| rs_dispatcher := rs_dispatcher s; rs_guards := rs_guards s; rs_registry := rs_registry s; convo := convo s;
     phase := phase s; progress := progress s; logs := l |}.
Definition set_dispatcher (d : ToolDispatcher X) (s : St) : St :=
  {| rs_dispatcher := d; rs_guards := rs_guards s; rs_registry := rs_registry s; convo := convo s;
     phase := phase s; progress := progress s; logs := logs s |}.
Definition set_safety (gs : list G) (r : option Registry) (s : St) : St :=
  {| rs_dispatcher := rs_dispatcher s; rs_guards := gs; rs_registry := r; convo := convo s;
     phase := phase s; progress := progress s; logs := logs s |}.

Definition msgs (s : St) : list Message := messages (convo s).
Definition set_messages (ms : list Message) (s : St) : St :=
  set_convo {| messages := ms; turn_index := turn_index (convo s); emitted := emitted (convo s) |} s.
Definition push (m : Message) (s : St) : St := set_messages (msgs s ++ [m]) s.

Definition signal (p : PresenceSignal) (s : St) : St :=
  set_logs {| requests_sent := requests_sent (logs s); chunks_sent := chunks_sent (logs s);
              presence := (presence (logs s) ++ [p])%list; usage_records := usage_records (logs s);
              executed := executed (logs s) |} s.

(** *** Emission of turns *)

Definition usage_json (u : TokenUsage) : json :=
  JObject [("input_tokens", JUint (input_tokens u)); ("output_tokens", JUint (output_tokens u));
           ("cache_read_tokens", JUint (cache_read_tokens u)); ("cache_creation_tokens", JUint (cache_creation_tokens u))].

Definition emit (role : string) (content : json) (u : option json) (kind : string) (s : St) : St :=
  match has_emitter, parse_uuid (in_task_id input), parse_uuid (in_tenant_id input) with
  | true, Some sid, Some tid =>
      set_convo {| messages := msgs s;
                   turn_index := i32_saturating_add (turn_index (convo s)) 1;
                   emitted := (emitted (convo s) ++
                     [{| te_session_id := sid; te_tenant_id := tid; te_turn_index := turn_index (convo s);
                         te_role := role; te_content := content; te_token_usage := u; te_kind := kind |}])%list |} s
  | _, _, _ => s
  end.

Definition emit_turn_if_enabled (role : string) (m : Message) (u : option TokenUsage) (s : St) : St :=
  emit role (message_value m) (usage_json <$> u) KIND_TURN s.

(** *** The first messages *)

Definition build_messages (d : ToolDispatcher X) : list Message * bool :=
  let catalog := tool_catalog d in
  let blocks := match system_prompt_seed with [] => system_prompt (seed input) | l => l end in
  let text i block :=
    if (i =? 0)%nat && negb (String.eqb catalog "") then block +:+ newline +:+ newline +:+ catalog else block in
  let system_parts := map Text (List.filter (fun t => negb (String.eqb t "")) (imap text blocks)) in
  let has_system := match system_parts with [] => false | _ => true end in
  let hist := match history_seed with [] => history (seed input) | l => l end in
  ((if has_system then [{| role := System; parts := system_parts |}] else []) ++ hist ++
   [user (default (user_message (seed input)) user_message_seed)], has_system)%list.

Definition effective_phases : list PhaseSpec :=
  match phases input with
  | [] => [{| ph_mode := phase_mode_of (mode input); ph_tools := FilterAll; ph_trigger := Immediate |}]
  | l => l
  end.

(** *** Rolling compaction *)

Definition maybe_run_compaction (n : nat) (s : St) : exec St :=
  let ctx_mgr := new_context (max_context_tokens input) in
  let! fraction := fraction_used to_string ctx_mgr (msgs s) in
  if f64_lt fraction (f64_dec 80 2) then Ret s
  else
    let! (ms, _) := compact_escalating to_string ctx_mgr (msgs s) (Some (w_rolling_model world n)) in
    let s := set_messages ms s in
    match w_aux world n with
    | None => Ret s
    | Some aux =>
        let! outcome := compressor_compact debug_message (msgs s) (Some aux) in
        match outcome with
        | Summarized summary_text removed_count =>
            let! ms := splice_one (msgs s) HEAD_PROTECTED_COUNT (HEAD_PROTECTED_COUNT + removed_count) (system summary_text) in
            Ret (emit "system" (JObject [("role", JString "system"); ("compaction", JBool true); ("summary", JString summary_text)])
                   None KIND_COMPACTION (set_messages ms s))
        | _ => Ret s
        end
    end.

(** *** Phases *)

Definition should_advance (p : PhaseSpec) (ps : PhaseState) : bool :=
  match ph_trigger p with
  | Immediate => (0 <? phase_index ps)%nat && (phase_cycle_count ps =? 0)
  | AfterCycles n => n <=? phase_cycle_count ps
  | OnToolSignal => phase_signalled ps
  end.

Definition mode_text (m : PhaseMode) : string := match m with PhaseReact => "React" | PhaseOodaReAct => "OodaReAct" end.

Definition phase_notice (i : nat) (p : PhaseSpec) : Message :=
  system ("[Phase " +:+ pretty (i + 1)%nat +:+ " of " +:+ pretty (length effective_phases) +:+ ": " +:+
          mode_text (ph_mode p) +:+ " mode]").

Definition advance_phases (s : St) : St :=
  let ps := phase s in
  if from_option (fun p => should_advance p ps) false (effective_phases !! phase_index ps) &&
     (phase_index ps + 1 <? length effective_phases)%nat then
    let i := (phase_index ps + 1)%nat in
    let s := set_phase {| phase_index := i; phase_cycle_count := 0; phase_signalled := false |} s in
    match effective_phases !! i with Some p => push (phase_notice i p) s | None => s end
  else s.

Definition current_phase (s : St) : option PhaseSpec := effective_phases !! phase_index (phase s).

Definition sync_advance_phase (s : St) : St :=
  if from_option (fun p => bool_decide (ph_trigger p = OnToolSignal)) false (current_phase s)
  then set_dispatcher (enable_advance_phase (rs_dispatcher s)) s
  else set_dispatcher (disable_advance_phase (rs_dispatcher s)) s.

Definition current_mode (s : St) : AgentLoopMode :=
  from_option (fun p => cognition_mode_of (ph_mode p)) (mode input) (current_phase s).

(** *** Observation *)

Definition default_world : WorldState json := empty_world.

Definition build_spatial_observation (ctx : WorldState json) : Message :=
  let text := "[Spatial Observation]" +:+ newline +:+ format_spatial_context ctx in
  match screenshots ctx with
  | [] => user text
  | shots => user_with_images text (map (fun s => (media_type s, shot_data s)) shots)
  end.

Definition observe (n : nat) (s : St) : WorldState json * St :=
  match current_mode s with
  | React => (default_world, s)
  | OodaReAct => (w_snapshot world n, push (build_spatial_observation (w_snapshot world n)) s)
  end.

(** *** The request *)

Definition phase_tools (s : St) : list ToolSchema :=
  match ph_tools <$> current_phase s with
  | None | Some FilterAll => schemas (rs_dispatcher s)
  | Some FilterNone => []
  | Some (FilterNamed names) => schemas_filtered (rs_dispatcher s) names
  end.

Definition build_request (s : St) : CompletionRequest :=
  match in_response_schema input with
  | Some schema => {|
      req_messages := msgs s;
      req_tools := (phase_tools s ++
        [{| ts_name := RESPOND_TOOL_NAME;
            ts_description := "Return your final structured response using this tool.";
            ts_parameters := schema |}])%list;
      req_max_tokens := in_max_tokens input;
      tool_choice := Some (ChoiceRequired RESPOND_TOOL_NAME);
      response_schema := None |}
  | None => {| req_messages := msgs s; req_tools := phase_tools s; req_max_tokens := in_max_tokens input;
               tool_choice := in_tool_choice input; response_schema := None |}
  end.

Definition call_model (n : nat) (req : CompletionRequest) : list StreamChunk * result CompletionResponse AgentError :=
  if streaming input then
    let '(_, sent, r) := stream_and_forward_with_retry from_str retry_config (w_stream world n req) in (sent, r)
  else ([], answer_of_last (complete_with_retry retry_config (w_complete world n req))).

Definition log_call (req : CompletionRequest) (sent : list StreamChunk) (s : St) : St :=
  set_logs {| requests_sent := (requests_sent (logs s) ++ [req])%list; chunks_sent := (chunks_sent (logs s) ++ sent)%list;
              presence := presence (logs s); usage_records := usage_records (logs s); executed := executed (logs s) |} s.

Definition add_usage (a b : TokenUsage) : exec TokenUsage :=
  let! i := u32_add (input_tokens a) (input_tokens b) in
  let! o := u32_add (output_tokens a) (output_tokens b) in
  let! r := u32_add (cache_read_tokens a) (cache_read_tokens b) in
  let! c := u32_add (cache_creation_tokens a) (cache_creation_tokens b) in
  Ret {| input_tokens := i; output_tokens := o; cache_read_tokens := r; cache_creation_tokens := c |}.

(** *** The summary turn when the cycles are used up *)

Definition BUDGET_NOTICE : string :=
  "SYSTEM: Tool-use budget exhausted. Summarize what you accomplished and what tasks remain. Do NOT call more tools.".

Definition answer_text (resp : CompletionResponse) (old : option string) : option string :=
  match response_text resp with Some t => Some t | None => old end.

Definition summary_turn (n : nat) (s : St) : exec St :=
  let s := push (system BUDGET_NOTICE) s in
  let req := {| req_messages := msgs s; req_tools := []; req_max_tokens := in_max_tokens input;
                tool_choice := None; response_schema := None |} in
  let '(sent, r) := call_model n req in
  let s := log_call req sent s in
  match r with
  | Err _ => Ret s
  | Ok resp =>
      let m := assistant_parts (resp_parts resp) in
      let s := emit_turn_if_enabled "assistant" m (Some (usage resp)) (push m s) in
      let! u := add_usage (total_usage (progress s)) (usage resp) in
      Ret (set_progress {| cycles := cycles (progress s); total_usage := u;
                           final_response := answer_text resp (final_response (progress s));
                           consecutive_error_turns := consecutive_error_turns (progress s) |} s)
  end.

(** *** One pass of the loop *)

Definition usage_record (resp : CompletionResponse) (cycles : Z) : UsageRecord := {|
  ur_tenant_id := in_tenant_id input;
  ur_session_id := default nil_uuid (parse_uuid (in_task_id input));
  ur_resource_type := "ai_tokens";
  ur_model := Some (model_name input);
  ur_quantity := input_tokens (usage resp) + output_tokens (usage resp);
  ur_input_tokens := Some (input_tokens (usage resp));
  ur_output_tokens := Some (output_tokens (usage resp));
  ur_cache_read_tokens := Some (cache_read_tokens (usage resp));
  ur_cache_creation_tokens := Some (cache_creation_tokens (usage resp));
  idempotency_key := in_task_id input +:+ ":" +:+ pretty cycles;
|}.

(** After a successful call: counters, usage, the assistant's message. *)
Definition record_response (resp : CompletionResponse) (s : St) : exec St :=
  let! c := u32_add (cycles (progress s)) 1 in
  let! u := add_usage (total_usage (progress s)) (usage resp) in
  let l := logs s in
  let s := set_logs {| requests_sent := requests_sent l; chunks_sent := chunks_sent l; presence := presence l;
                       usage_records := (usage_records l ++ [usage_record resp c])%list; executed := executed l |} s in
  let m := assistant_parts (resp_parts resp) in
  let s := emit_turn_if_enabled "assistant" m (Some (usage resp)) (push m s) in
  let s := set_progress {| cycles := c; total_usage := u;
                           final_response := answer_text resp (final_response (progress s));
                           consecutive_error_turns := consecutive_error_turns (progress s) |} s in
  let! k := u32_add (phase_cycle_count (phase s)) 1 in
  Ret (set_phase {| phase_index := phase_index (phase s); phase_cycle_count := k;
                    phase_signalled := phase_signalled (phase s) |} s).

Definition tool_context : ToolContext E :=
  {| task_id := in_task_id input; tenant_id := in_tenant_id input; call_id := ""; Dispatch.extensions := extensions |}.

Definition set_final (t : string) (s : St) : St :=
  set_progress {| cycles := cycles (progress s); total_usage := total_usage (progress s); final_response := Some t;
                  consecutive_error_turns := consecutive_error_turns (progress s) |} s.
Definition set_errors (e : Z) (s : St) : St :=
  set_progress {| cycles := cycles (progress s); total_usage := total_usage (progress s);
                  final_response := final_response (progress s); consecutive_error_turns := e |} s.

Definition note_signal (calls : list (ToolCall json)) (s : St) : St :=
  if existsb (fun c => String.eqb (tool c) ADVANCE_PHASE_TOOL_NAME) calls then
    set_phase {| phase_index := phase_index (phase s); phase_cycle_count := phase_cycle_count (phase s);
                 phase_signalled := true |} s
  else s.

(** The dispatch of a response's calls, and the circuit breaker. *)
Definition act (n : nat) (calls : list (ToolCall json)) (spatial_ctx : WorldState json) (s : St) : exec (Next St) :=
  let s := note_signal calls s in
  let first_tool := from_option tool "" (head calls) in
  let s := signal (PresenceHint Mini "Running tool") (signal (ActivityUpdate CallingTool first_tool None) s) in
  let pre_dispatch_len := length (msgs s) in
  let! (ms, st) :=
    dispatch_tool_calls debug_duration to_string render to_json (rs_dispatcher s) (w_turn world n)
      (rs_guards s) (rs_registry s) calls spatial_ctx tool_context (msgs s) in
  let s := set_safety (guards st) (registry st) (set_messages ms s) in
  let s := set_logs {| requests_sent := requests_sent (logs s); chunks_sent := chunks_sent (logs s);
                       presence := (presence (logs s) ++ signals st)%list; usage_records := usage_records (logs s);
                       executed := (executed (logs s) ++ [steps st])%list |} s in
  let s := fold_left (fun s m => emit_turn_if_enabled "tool" m None s) (drop pre_dispatch_len (msgs s)) s in
  let! breaker := check_circuit_breaker (msgs s) (consecutive_error_turns (progress s)) in
  match breaker with
  | Err e => Ret (Return e s)
  | Ok k => Ret (Continue (signal (ActivityUpdate Thinking "Analyzing results..." None) (set_errors k s)))
  end.

Definition respond_call (calls : list (ToolCall json)) : option (ToolCall json) :=
  match in_response_schema input with
  | Some _ => List.find (fun c => String.eqb (tool c) RESPOND_TOOL_NAME) calls
  | None => None
  end.

(** Phase, observation and compaction, before the request is built. *)
Definition prepare (n : nat) (s : St) : exec (WorldState json * St) :=
  let s := sync_advance_phase (advance_phases s) in
  let s := signal (ActivityUpdate Thinking "Processing..." None) s in
  let '(spatial_ctx, s) := observe n s in
  let! (ms, _) := compact_escalating to_string (new_context (max_context_tokens input)) (msgs s)
                    (Some (w_cycle_model world n)) in
  Ret (spatial_ctx, set_messages ms s).

Definition model_turn (n : nat) (s : St) : exec (Next St) :=
  let! (spatial_ctx, s) := prepare n s in
  let req := build_request s in
  let '(sent, r) := call_model n req in
  let s := log_call req sent s in
  match r with
  | Err e => Ret (Return e s)
  | Ok resp =>
      let! s := record_response resp s in
      let calls := Context.tool_calls resp in
      if bool_decide (stop_reason resp = EndTurn) || match calls with [] => true | _ => false end then Ret (Break s)
      else
        match respond_call calls with
        | Some c => Ret (Break (set_final (to_string (params c)) s))
        | None => act n calls spatial_ctx s
        end
  end.

Definition cycle (n : nat) (s : St) : exec (Next St) :=
  if has_cancellation_token input && w_cancelled world n then
    Ret (Return (Cancelled (input_tokens (total_usage (progress s))) (output_tokens (total_usage (progress s)))) s)
  else
    let! s := maybe_run_compaction n s in
    match w_budget world n with
    | HardLimited plan period_end =>
        if cycles (progress s) =? 0 then Ret (Return (BudgetExceeded plan period_end) s) else Ret (Break s)
    | _ =>
        if max_cycles input <=? cycles (progress s) then let! s := summary_turn n s in Ret (Break s)
        else model_turn n s
    end.

(** [None] when the fuel ran out. *)
Fixpoint run_cycles (fuel n : nat) (s : St) : option (exec (result St (AgentError * St))) :=
  match fuel with
  | O => None
  | S fuel =>
      match cycle n s with
      | Panic => Some Panic
      | Ret (Break s) => Some (Ret (Ok s))
      | Ret (Return e s) => Some (Ret (Err (e, s)))
      | Ret (Continue s) => run_cycles fuel (S n) s
      end
  end.

Definition no_progress : Progress :=
  {| cycles := 0; total_usage := no_usage; final_response := None; consecutive_error_turns := 0 |}.
Definition no_logs : Logs X E :=
  {| requests_sent := []; chunks_sent := []; presence := []; usage_records := []; executed := [] |}.

Definition start_run (d : ToolDispatcher X) (gs : list G) (reg : option Registry) : St :=
  let ms := (build_messages d).1 in
  let s := {| rs_dispatcher := d; rs_guards := gs; rs_registry := reg;
              convo := {| messages := ms; turn_index := 0; emitted := [] |};
              phase := {| phase_index := 0; phase_cycle_count := 0; phase_signalled := false |};
              progress := no_progress; logs := no_logs |} in
  let s := from_option (fun m => emit_turn_if_enabled "user" m None s) s (last ms) in
  signal (PresenceHint Full "Agent responding") s.

Definition finish_run (has_system : bool) (s : St) : exec AgentOutput :=
  let skip := if has_system then 1%nat else 0%nat in
  if (length (msgs s) <? skip)%nat then Panic
  else Ret {| out_cycles := cycles (progress s); out_final_response := final_response (progress s);
              out_total_usage := total_usage (progress s); out_messages := drop skip (msgs s) |}.

(** [run_streaming_core] with enough fuel: at most [max_cycles] calls and the last pass. *)
Definition run_streaming_core (d : ToolDispatcher X) (gs : list G) (reg : option Registry)
    : option (exec (result (AgentOutput * St) (AgentError * St))) :=
  match run_cycles (S (Z.to_nat (max_cycles input))) 0 (start_run d gs reg) with
  | None => None
  | Some Panic => Some Panic
  | Some (Ret (Err e)) => Some (Ret (Err e))
  | Some (Ret (Ok s)) =>
      Some (let s := signal (ActivityUpdate Idle "" None) s in
            let! out := finish_run (build_messages d).2 s in Ret (Ok (out, s)))
  end.

(** [AgentLoop::run] keeps the receivers of its channels and never reads them: with more sends
    than the channels hold one waits for ever.  [Some (Ret None)] is that; a run that panics
    may wait for ever before. *)
Definition RUN_CHANNEL_CAPACITY : nat := 64.

Definition sends_fit (s : St) : bool :=
  (length (presence (logs s)) <=? RUN_CHANNEL_CAPACITY)%nat && (length (chunks_sent (logs s)) <=? RUN_CHANNEL_CAPACITY)%nat.

Definition end_state (r : result (AgentOutput * St) (AgentError * St)) : St :=
  match r with Ok (_, s) | Err (_, s) => s end.

Definition run (d : ToolDispatcher X) (gs : list G) (reg : option Registry)
    : option (exec (option (result AgentOutput AgentError))) :=
  match run_streaming_core d gs reg with
  | None => None
  | Some Panic => Some Panic
  | Some (Ret r) =>
      Some (Ret (if sends_fit (end_state r)
                 then Some (match r with Ok (out, _) => Ok out | Err (e, _) => Err e end)
                 else None))
  end.

End AgentLoop.

(** ** Which parts of the state a step changes *)

Section Facts.
Context {X E G : Type} `{!ToolExecutor X} `{!SafetyGuard json G}.
Context (debug_duration : Duration -> string) (to_string : json -> string) (render : SafetyFilter.message -> string)
  (to_json : ToolResult -> option string) (from_str : string -> option json) (debug_message : Message -> string)
  (message_value : Message -> json) (parse_uuid : string -> option string) (nil_uuid : string)
  (format_spatial_context : WorldState json -> string).
Context (retry_config : RetryConfig) (has_emitter : bool) (system_prompt_seed : list string)
  (history_seed : list Message) (user_message_seed : option string) (extensions : E).
Context (world : World X E) (input : AgentInput).

#[local] Notation St := (RunState X E G).
#[local] Notation emission := (emit parse_uuid has_emitter input).
#[local] Notation emission_turn := (emit_turn_if_enabled message_value parse_uuid has_emitter input).
#[local] Notation rolling := (maybe_run_compaction to_string debug_message parse_uuid has_emitter world input).
#[local] Notation summary := (summary_turn from_str message_value parse_uuid retry_config has_emitter world input).
#[local] Notation recorded := (record_response message_value parse_uuid nil_uuid has_emitter input).
#[local] Notation acting := (act debug_duration to_string render to_json message_value parse_uuid has_emitter extensions world input).
#[local] Notation modelling := (model_turn debug_duration to_string render to_json from_str message_value parse_uuid nil_uuid
  format_spatial_context retry_config has_emitter extensions world input).
#[local] Notation pass := (cycle debug_duration to_string render to_json from_str debug_message message_value parse_uuid nil_uuid
  format_spatial_context retry_config has_emitter extensions world input).
#[local] Notation looping := (run_cycles debug_duration to_string render to_json from_str debug_message message_value parse_uuid
  nil_uuid format_spatial_context retry_config has_emitter extensions world input).

(** Everything but the conversation. *)
Definition same_but_convo (s s' : St) : Prop :=
  rs_dispatcher s' = rs_dispatcher s /\ rs_guards s' = rs_guards s /\ rs_registry s' = rs_registry s /\
  phase s' = phase s /\ progress s' = progress s /\ logs s' = logs s.

Lemma emission_same role v u kind s : same_but_convo s (emission role v u kind s) /\ msgs (emission role v u kind s) = msgs s.
Proof. unfold emit. by destruct has_emitter, (parse_uuid (in_task_id input)), (parse_uuid (in_tenant_id input)). Qed.

Lemma rolling_same n (s s' : St) : rolling n s = Ret s' -> same_but_convo s s'.
Proof.
  unfold maybe_run_compaction. intros H. apply exec_bind_ret in H as (f & _ & H).
  destruct (f64_lt _ _); [by simplify_eq|].
  apply exec_bind_ret in H as ([ms ev] & _ & H). destruct (w_aux world n) as [aux|]; [|by simplify_eq].
  apply exec_bind_ret in H as ([t k| |] & _ & H); [|by simplify_eq..].
  apply exec_bind_ret in H as (ms' & _ & H). simplify_eq.
  by destruct (emission_same "system" (JObject [("role", JString "system"); ("compaction", JBool true); ("summary", JString t)])
    None KIND_COMPACTION (set_messages ms' (set_messages ms s))) as [H _].
Qed.

(** What the conversation and the phases do not touch. *)
Definition same_work (s s' : St) : Prop :=
  rs_guards s' = rs_guards s /\ rs_registry s' = rs_registry s /\ progress s' = progress s /\
  requests_sent (logs s') = requests_sent (logs s) /\ executed (logs s') = executed (logs s).

Lemma same_but_convo_work (s s' : St) : same_but_convo s s' -> same_work s s'.
Proof. intros (? & ? & ? & ? & ? & Hl). unfold same_work. rewrite Hl. by split_and!. Qed.

Lemma advance_spec (s : St) :
  same_work s (advance_phases input s) /\ rs_dispatcher (advance_phases input s) = rs_dispatcher s /\
  exists notices, msgs (advance_phases input s) = (msgs s ++ notices)%list /\ Forall (fun m => ~ has_results m) notices.
Proof.
  unfold advance_phases. destruct (_ && _); [|split; [done|]; split; [done|]; exists []; by rewrite app_nil_r].
  destruct (effective_phases input !! _) as [p|].
  - split; [done|]. split; [done|]. exists [phase_notice input (phase_index (phase s) + 1) p]. split; [done|].
    constructor; [|done]. by intros H.
  - split; [done|]. split; [done|]. exists []. by rewrite app_nil_r.
Qed.

Definition synced (s : St) : ToolDispatcher X :=
  if from_option (fun p => bool_decide (ph_trigger p = OnToolSignal)) false (current_phase input (advance_phases input s))
  then enable_advance_phase (rs_dispatcher s) else disable_advance_phase (rs_dispatcher s).

Lemma prepare_spec n (s : St) w s' :
  prepare to_string format_spatial_context world input n s = Ret (w, s') ->
  same_work s s' /\ rs_dispatcher s' = synced s /\ phase s' = phase (advance_phases input s) /\
  exists ms ev extra, compact_escalating to_string (new_context (max_context_tokens input)) (msgs s ++ extra)
                     (Some (w_cycle_model world n)) = Ret (ms, ev) /\
    msgs s' = ms /\ Forall (fun m => ~ has_results m) extra.
Proof.
  unfold prepare. set (s1 := sync_advance_phase input (advance_phases input s)).
  destruct (advance_spec s) as (Hw & Hd & notices & Hm & Hn).
  assert (same_work s s1 /\ rs_dispatcher s1 = synced s /\ phase s1 = phase (advance_phases input s) /\
          msgs s1 = msgs (advance_phases input s)) as (Hw1 & Hd1 & Hp1 & Hm1).
  { subst s1. unfold sync_advance_phase, synced. rewrite Hd. by destruct (from_option _ _ _). }
  clearbody s1. set (s2 := signal _ s1).
  assert (same_work s s2 /\ rs_dispatcher s2 = synced s /\ phase s2 = phase (advance_phases input s) /\
          msgs s2 = msgs (advance_phases input s)) as (Hw2 & Hd2 & Hp2 & Hm2) by done.
  clearbody s2. unfold observe. rewrite Hm in Hm2. clear Hw1 Hd1 Hp1 Hm1.
  destruct (current_mode input s2); intros H; apply exec_bind_ret in H as ([ms ev] & Hc & H); simplify_eq.
  - split; [exact Hw2|]. split; [exact Hd2|]. split; [exact Hp2|]. exists ms, ev, notices. by rewrite <- Hm2.
  - split; [exact Hw2|]. split; [exact Hd2|]. split; [exact Hp2|].
    exists ms, ev, (notices ++ [build_spatial_observation format_spatial_context (w_snapshot world n)])%list.
    rewrite app_assoc, <- Hm2. split_and!; [exact Hc|done|]. apply Forall_app. split; [done|]. constructor; [|done].
    unfold build_spatial_observation. destruct (screenshots _); [by intros Hr|]. intros Hr. apply Hr. simpl.
    clear. by induction l as [|x l IH].
Qed.

Lemma recorded_spec resp (s s' : St) : recorded resp s = Ret s' ->
  rs_dispatcher s' = rs_dispatcher s /\ rs_guards s' = rs_guards s /\ rs_registry s' = rs_registry s /\
  cycles (progress s') = cycles (progress s) + 1 /\
  consecutive_error_turns (progress s') = consecutive_error_turns (progress s) /\
  phase_index (phase s') = phase_index (phase s) /\ phase_signalled (phase s') = phase_signalled (phase s) /\
  phase_cycle_count (phase s') = phase_cycle_count (phase s) + 1 /\
  msgs s' = (msgs s ++ [assistant_parts (resp_parts resp)])%list /\
  requests_sent (logs s') = requests_sent (logs s) /\ executed (logs s') = executed (logs s).
Proof.
  unfold record_response. intros H. apply exec_bind_ret in H as (c & Hc & H). apply exec_bind_ret in H as (u & _ & H).
  apply exec_bind_ret in H as (k & Hk & H).
  assert (c = cycles (progress s) + 1) as -> by (unfold u32_add in Hc; case_match; by simplify_eq).
  match type of Hk with u32_add (phase_cycle_count (phase (set_progress _ ?x))) _ = _ => set (s1 := x) in * end.
  destruct (emission_same "assistant" (message_value (assistant_parts (resp_parts resp))) (usage_json <$> Some (usage resp))
    KIND_TURN (push (assistant_parts (resp_parts resp))
      (set_logs {| requests_sent := requests_sent (logs s); chunks_sent := chunks_sent (logs s); presence := presence (logs s);
        usage_records := (usage_records (logs s) ++ [usage_record parse_uuid nil_uuid input resp (cycles (progress s) + 1)])%list;
        executed := executed (logs s) |} s))) as [(Hd & Hg & Hr & Hp & Hpr & Hl) Hm].
  change (emission _ _ _ _ _) with s1 in Hd, Hg, Hr, Hp, Hpr, Hl, Hm.
  assert (k = phase_cycle_count (phase s) + 1) as ->.
  { unfold u32_add in Hk. simpl in Hk. rewrite Hp in Hk. simpl in Hk. case_match; by simplify_eq. }
  simplify_eq. simpl. rewrite Hd, Hg, Hr, Hp, Hpr, Hl. by split_and!.
Qed.

Lemma emissions_same ms : forall s : St,
  let s' := fold_left (fun s m => emission_turn "tool" m None s) ms s in
  same_but_convo s s' /\ msgs s' = msgs s.
Proof.
  induction ms as [|m ms IH]; intros s; simpl; [done|].
  destruct (emission_same "tool" (message_value m) None KIND_TURN s) as [(? & ? & ? & ? & ? & ?) Hm].
  destruct (IH (emission_turn "tool" m None s)) as [(? & ? & ? & ? & ? & ?) Hm']. split; [|by rewrite Hm'].
  unfold emit_turn_if_enabled in *. simpl in *. unfold same_but_convo. split_and!; congruence.
Qed.

(** The state after the dispatch of a response's calls, on either way out. *)
Record acted (calls : list (ToolCall json)) (n : nat) (w : WorldState json) (s s' : St) : Prop := {
  ac_dispatcher : rs_dispatcher s' = rs_dispatcher s;
  ac_cycles : cycles (progress s') = cycles (progress s);
  ac_phase : phase_index (phase s') = phase_index (phase s);
  ac_count : phase_cycle_count (phase s') = phase_cycle_count (phase s);
  ac_requests : requests_sent (logs s') = requests_sent (logs s);
  ac_dispatch : exists st,
    dispatch_tool_calls debug_duration to_string render to_json (rs_dispatcher s) (w_turn world n)
      (rs_guards s) (rs_registry s) calls w (tool_context extensions input) (msgs s) = Ret (msgs s', st) /\
    rs_guards s' = guards st /\ rs_registry s' = registry st /\
    executed (logs s') = (executed (logs s) ++ [steps st])%list;
}.

Lemma note_signal_same calls (s : St) :
  rs_dispatcher (note_signal calls s) = rs_dispatcher s /\ rs_guards (note_signal calls s) = rs_guards s /\
  rs_registry (note_signal calls s) = rs_registry s /\ convo (note_signal calls s) = convo s /\
  progress (note_signal calls s) = progress s /\ logs (note_signal calls s) = logs s /\
  phase_index (phase (note_signal calls s)) = phase_index (phase s) /\
  phase_cycle_count (phase (note_signal calls s)) = phase_cycle_count (phase s).
Proof. unfold note_signal. by destruct (existsb _ calls). Qed.

Definition next_state (x : Next St) : St := match x with Continue s | Break s | Return _ s => s end.

Lemma act_spec n calls w (s : St) x : acting n calls w s = Ret x ->
  acted calls n w s (next_state x) /\ (forall s', x <> Break s').
Proof.
  unfold act. destruct (note_signal_same calls s) as (Hd & Hg & Hr & Hc & Hp & Hl & Hi & Hk).
  set (s0 := note_signal calls s) in *. clearbody s0. intros H.
  apply exec_bind_ret in H as ([ms st] & Hdisp & H).
  apply exec_bind_ret in H as (b & _ & H).
  match type of H with context [fold_left ?f ?l ?x] =>
    assert (same_but_convo x (fold_left f l x) /\ msgs (fold_left f l x) = msgs x) as Hs2 by exact (emissions_same l x);
    set (s2 := fold_left f l x) in *; clearbody s2; destruct Hs2 as [(Ed & Eg & Er & Ep & Epr & El) Em]; set (s1 := x) in * end.
  assert (acted calls n w s s2) as Ha.
  { split.
    - rewrite Ed. simpl. done.
    - rewrite Epr. simpl. by rewrite Hp.
    - by rewrite Ep.
    - by rewrite Ep.
    - rewrite El. simpl. by rewrite Hl.
    - exists st. rewrite Em, Eg, Er, El. unfold s1. simpl. rewrite Hl.
      split_and!; [|done..]. simpl in Hdisp. unfold msgs in *. simpl in *. rewrite Hd, Hg, Hr, Hc in Hdisp. exact Hdisp. }
  destruct b as [k|e]; simplify_eq; (split; [|done]); simpl; [|exact Ha].
  destruct Ha as [? ? ? ? ? ?]. by split.
Qed.

#[local] Notation calling := (call_model from_str retry_config world input).

Lemma model_cases n (s : St) x : modelling n s = Ret x ->
  exists w s1 sent, prepare to_string format_spatial_context world input n s = Ret (w, s1) /\
    sent = (calling n (build_request input s1)).1 /\
    let req := build_request input s1 in
    ((exists e, x = Return e (log_call req sent s1)) \/
     exists resp s3, (calling n req).2 = Ok resp /\ recorded resp (log_call req sent s1) = Ret s3 /\
       ((exists s4, x = Break s4 /\ (s4 = s3 \/ exists t, s4 = set_final t s3)) \/
        (Context.tool_calls resp <> [] /\ acting n (Context.tool_calls resp) w s3 = Ret x))).
Proof.
  unfold model_turn. intros H. apply exec_bind_ret in H as ([w s1] & Hp & H).
  destruct (calling n (build_request input s1)) as [sent r] eqn:Hc. exists w, s1, sent. split; [exact Hp|].
  split; [by rewrite Hc|]. cbv zeta. rewrite Hc. destruct r as [resp|e]; [right|left; exists e; by simplify_eq].
  apply exec_bind_ret in H as (s3 & Hr & H). exists resp, s3. split; [done|]. split; [exact Hr|].
  destruct (bool_decide (stop_reason resp = EndTurn)); simpl in H.
  { left. exists s3. split; [by simplify_eq|by left]. }
  destruct (Context.tool_calls resp) as [|c0 cs] eqn:Hcs; simpl in H.
  { left. exists s3. split; [by simplify_eq|by left]. }
  destruct (respond_call input (c0 :: cs)) as [c|].
  - left. eexists. split; [by simplify_eq|]. right. by eexists.
  - by right.
Qed.

Lemma pass_cases n (s : St) x : pass n s = Ret x ->
  (exists e, x = Return e s) \/
  exists s0, rolling n s = Ret s0 /\
    ((exists e, x = Return e s0) \/ x = Break s0 \/
     (exists s1, summary n s0 = Ret s1 /\ x = Break s1 /\ max_cycles input <= cycles (progress s0)) \/
     (modelling n s0 = Ret x /\ cycles (progress s0) < max_cycles input)).
Proof.
  unfold cycle. destruct (_ && _); [intros H; simplify_eq; left; by eexists|].
  intros H. right. apply exec_bind_ret in H as (s0 & Hr & H). exists s0. split; [exact Hr|].
  assert ((if max_cycles input <=? cycles (progress s0)
           then let! s := summary n s0 in Ret (Break s) else modelling n s0) = Ret x ->
    (exists s1, summary n s0 = Ret s1 /\ x = Break s1 /\ max_cycles input <= cycles (progress s0)) \/
    (modelling n s0 = Ret x /\ cycles (progress s0) < max_cycles input)) as Hrest.
  { destruct (Z.leb_spec (max_cycles input) (cycles (progress s0))); intros Hx; [left|by right].
    apply exec_bind_ret in Hx as (s1 & Hs & Hx). exists s1. by simplify_eq. }
  destruct (w_budget world n) as [|plan|plan period].
  - right. right. by apply Hrest.
  - right. right. by apply Hrest.
  - destruct (cycles (progress s0) =? 0); simplify_eq; [left; by eexists|right; by left].
Qed.

(** The summary turn asks once more, and adds to the conversation only. *)
Lemma summary_spec n (s s' : St) : summary n s = Ret s' ->
  cycles (progress s') = cycles (progress s) /\ executed (logs s') = executed (logs s) /\
  rs_dispatcher s' = rs_dispatcher s /\ rs_guards s' = rs_guards s /\
  exists req, requests_sent (logs s') = (requests_sent (logs s) ++ [req])%list /\
    req_messages req = (msgs s ++ [system BUDGET_NOTICE])%list.
Proof.
  unfold summary_turn. set (req := {| req_messages := _ |}). destruct (calling n req) as [sent [resp|e]]; intros H.
  2:{ simplify_eq. split_and!; [done..|]. by exists req. }
  apply exec_bind_ret in H as (u & _ & H). revert H.
  set (s1 := push _ (log_call _ _ _)).
  destruct (emission_same "assistant" (message_value (assistant_parts (resp_parts resp))) (usage_json <$> Some (usage resp))
    KIND_TURN s1) as [(Hd & Hg & _ & _ & Hp & Hl) Hm].
  intros H. simplify_eq. simpl. unfold emit_turn_if_enabled. rewrite Hd, Hg, Hp, Hl. subst s1. simpl.
  split_and!; [done..|]. by exists req.
Qed.

(** What a pass does to the counters and the log of requests. *)
Lemma pass_counts n (s : St) x : pass n s = Ret x ->
  match x with
  | Continue s' => cycles (progress s') = cycles (progress s) + 1 /\ cycles (progress s) < max_cycles input /\
                   length (requests_sent (logs s')) = S (length (requests_sent (logs s)))
  | Break s' | Return _ s' => cycles (progress s') <= Z.max (cycles (progress s)) (max_cycles input) /\
                   (length (requests_sent (logs s')) <= S (length (requests_sent (logs s))))%nat
  end.
Proof.
  intros H. apply pass_cases in H as [[e ->]|(s0 & Hr & H)]; [lia|].
  apply rolling_same, same_but_convo_work in Hr as (_ & _ & Hp & Hq & _).
  destruct H as [[e ->]|[->|[(s1 & Hs & -> & _)|[Hm Hlt]]]]; [rewrite Hp, Hq; lia|rewrite Hp, Hq; lia| |].
  - apply summary_spec in Hs as (Hc & _ & _ & _ & req & Hreq & _). rewrite Hc, Hreq, length_app, Hp, Hq. simpl. lia.
  - rewrite Hp in Hlt.
    apply model_cases in Hm as (w & s1 & sent & Hprep & _ & [[e ->]|(resp & s3 & _ & Hrec & Hx)]);
      apply prepare_spec in Hprep as ((_ & _ & Hp1 & Hq1 & _) & _).
    + simpl. rewrite length_app, Hp1, Hq1, Hp, Hq. simpl. lia.
    + apply recorded_spec in Hrec as (_ & _ & _ & Hc & _ & _ & _ & _ & _ & Hq3 & _).
      simpl in Hc, Hq3. rewrite Hp1, Hp in Hc. rewrite Hq1, Hq in Hq3.
      destruct Hx as [(s4 & -> & [->|[t ->]])|[_ Ha]].
      * rewrite Hc, Hq3, length_app. simpl. lia.
      * simpl. rewrite Hc, Hq3, length_app. simpl. lia.
      * apply act_spec in Ha as [[_ Hca _ _ Hra _] Hnb].
        destruct x as [s'|s'|e s']; [|by destruct (Hnb s')|]; simpl in *; rewrite Hca, Hra, Hc, Hq3, length_app; simpl; lia.
Qed.

(** A property of the state at the loop's head, kept by passes, and what it gives at the end. *)
Lemma looping_inv (P : nat -> St -> Prop) (Q : nat -> St -> Prop) fuel : forall n s,
  (forall n s x, P n s -> pass n s = Ret x ->
     match x with Continue s' => P (S n) s' | Break s' | Return _ s' => Q n s' end) ->
  P n s -> forall r, looping fuel n s = Some (Ret r) ->
  exists n', match r with Ok s' | Err (_, s') => Q n' s' end.
Proof.
  induction fuel as [|fuel IH]; intros n s Hstep HP r H; simpl in H; [done|].
  destruct (pass n s) as [x|] eqn:Hx; [|done]. pose proof (Hstep n s x HP Hx) as Hn.
  destruct x as [s'|s'|e s']; simplify_eq; [by apply (IH (S n) s')|by exists n..].
Qed.

Lemma looping_ends fuel : forall n s, (max_cycles input - cycles (progress s) < Z.of_nat fuel) -> (0 < fuel)%nat ->
  looping fuel n s <> None.
Proof.
  induction fuel as [|fuel IH]; intros n s Hf Hpos; [lia|]. simpl.
  destruct (pass n s) as [x|] eqn:Hx; [|done]. apply pass_counts in Hx.
  destruct x as [s'|s'|e s']; [|done..]. destruct Hx as (Hc & Hlt & _). apply IH; lia.
Qed.

(** *** The transcript *)

(** What the loop relies on: the model's responses carry no tool results, and no auxiliary
    model rewrites the transcript. *)
Hypothesis responses_clean : forall n req resp, (calling n req).2 = Ok resp -> omap result_id (resp_parts resp) = [].
Hypothesis no_aux : forall n, w_aux world n = None.

Lemma well_paired_app ms extra : well_paired ms -> Forall (fun m => ~ has_results m) extra -> well_paired (ms ++ extra).
Proof.
  intros Hw Hx i m Hm Hr. apply lookup_app_Some in Hm as [Hm|[_ Hm]].
  - destruct (Hw i m Hm Hr) as (prev & ? & ? & ?). exists prev. split_and!; [done| |done]. by apply lookup_app_l_Some.
  - rewrite Forall_forall in Hx. by destruct (Hx m (list_elem_of_lookup_2 _ _ _ Hm)).
Qed.

Lemma rolling_paired n (s s' : St) : rolling n s = Ret s' -> well_paired (msgs s) -> well_paired (msgs s').
Proof.
  unfold maybe_run_compaction. intros H Hw. apply exec_bind_ret in H as (f & _ & H).
  destruct (f64_lt _ _); [by simplify_eq|]. apply exec_bind_ret in H as ([ms ev] & Hc & H).
  rewrite no_aux in H. simplify_eq. simpl. apply compact_escalating_keeps in Hc as [Hk _]. by apply Hk.
Qed.

Definition paired_so_far (s : St) : Prop :=
  well_paired (msgs s) /\ Forall (fun r => well_paired (req_messages r)) (requests_sent (logs s)).

Lemma prepare_paired n (s : St) w s' :
  prepare to_string format_spatial_context world input n s = Ret (w, s') -> paired_so_far s -> paired_so_far s'.
Proof.
  intros H [Hw Hq]. apply prepare_spec in H as ((_ & _ & _ & Hreq & _) & _ & _ & ms & ev & extra & Hc & Hm & Hx).
  split; [|by rewrite Hreq]. rewrite Hm. apply compact_escalating_keeps in Hc as [Hk _].
  by apply Hk, well_paired_app.
Qed.

Lemma log_call_paired sent (s : St) : paired_so_far s -> paired_so_far (log_call (build_request input s) sent s).
Proof.
  intros [Hw Hq]. split; [done|]. simpl. apply Forall_app. split; [done|]. constructor; [|done].
  unfold build_request. by destruct (in_response_schema input).
Qed.

Lemma assistant_no_results ps : omap result_id ps = [] -> ~ has_results (assistant_parts ps).
Proof. unfold has_results. simpl. congruence. Qed.

Lemma acted_paired calls n w (s s' : St) resp : acted calls n w s s' ->
  calls = Context.tool_calls resp -> calls <> [] -> omap result_id (resp_parts resp) = [] ->
  paired_so_far s -> (exists before, msgs s = (before ++ [assistant_parts (resp_parts resp)])%list) ->
  paired_so_far s'.
Proof.
  intros [_ _ _ _ Hq (st & Hd & _)] -> Hne Hres [Hw Hreqs] (before & Hb). split; [|by rewrite Hq].
  rewrite Hb in Hd, Hw.
  apply (turn_keeps_paired debug_duration to_string render to_json (rs_dispatcher s) (w_turn world n) (rs_guards s)
    (rs_registry s) resp w (tool_context extensions input) before _ st); [|done|done|exact Hd].
  intros i m Hm Hr. apply lookup_lt_Some in Hm as Hlt.
  destruct (Hw i m) as (prev & ? & Hp & ?); [by apply lookup_app_l_Some|done|]. exists prev. split_and!; [done| |done].
  rewrite lookup_app_l in Hp by lia. done.
Qed.

Definition requests_paired (s : St) : Prop :=
  Forall (fun r => well_paired (req_messages r)) (requests_sent (logs s)).

Lemma pass_paired n (s : St) x : paired_so_far s -> pass n s = Ret x ->
  match x with Continue s' => paired_so_far s' | Break s' | Return _ s' => requests_paired s' end.
Proof.
  intros Hp H. apply pass_cases in H as [[e ->]|(s0 & Hr & H)]; [apply Hp|].
  pose proof (rolling_paired _ _ _ Hr (proj1 Hp)) as Hw0.
  apply rolling_same, same_but_convo_work in Hr as (_ & _ & _ & Hq0 & _).
  assert (paired_so_far s0) as Hp0 by (split; [done|]; rewrite Hq0; apply Hp). clear Hw0 Hq0 Hp s.
  destruct H as [[e ->]|[->|[(s1 & Hs & -> & _)|[Hm _]]]]; [apply Hp0|apply Hp0| |].
  - apply summary_spec in Hs as (_ & _ & _ & _ & req & Hreq & Hms). unfold requests_paired.
    rewrite Hreq. apply Forall_app. split; [apply Hp0|]. constructor; [|done]. rewrite Hms.
    apply well_paired_app; [apply Hp0|]. constructor; [|done]. by intros Hx.
  - apply model_cases in Hm as (w & s1 & sent & Hprep & _ & Hx). pose proof (prepare_paired _ _ _ _ Hprep Hp0) as Hp1.
    pose proof (log_call_paired sent s1 Hp1) as Hp2.
    destruct Hx as [[e ->]|(resp & s3 & Hcall & Hrec & Hx)]; [apply Hp2|].
    pose proof (responses_clean _ _ _ Hcall) as Hclean.
    apply recorded_spec in Hrec as (_ & _ & _ & _ & _ & _ & _ & _ & Hms & Hq3 & _).
    assert (paired_so_far s3) as Hp3.
    { split; [|by rewrite Hq3; apply Hp2]. rewrite Hms. apply well_paired_app; [apply Hp2|].
      constructor; [|done]. by apply assistant_no_results. }
    destruct Hx as [(s4 & -> & [->|[t ->]])|[Hne Ha]]; [apply Hp3|apply Hp3|].
    apply act_spec in Ha as [Ha Hnb].
    assert (paired_so_far (next_state x)) as Hp4 by (eapply acted_paired; [exact Ha|done|done|done|exact Hp3|by eexists]).
    destruct x as [s'|s'|e s']; [exact Hp4|apply Hp4|apply Hp4].
Qed.

(** *** Phases *)

Definition advances (ps : PhaseState) : bool :=
  from_option (fun p => should_advance p ps) false (effective_phases input !! phase_index ps) &&
  (phase_index ps + 1 <? length (effective_phases input))%nat.

Lemma advance_phase_state (s : St) :
  phase (advance_phases input s) =
  if advances (phase s) then {| phase_index := phase_index (phase s) + 1; phase_cycle_count := 0; phase_signalled := false |}
  else phase s.
Proof.
  unfold advance_phases, advances. destruct (_ && _); [|done]. by destruct (effective_phases input !! _).
Qed.

Lemma pass_phase n (s s' : St) : pass n s = Ret (Continue s') ->
  phase_index (phase s') = (if advances (phase s) then phase_index (phase s) + 1 else phase_index (phase s))%nat /\
  phase_cycle_count (phase s') = (if advances (phase s) then 0 else phase_cycle_count (phase s)) + 1.
Proof.
  intros H. apply pass_cases in H as [[e ?]|(s0 & Hr & H)]; [done|].
  apply rolling_same in Hr as (_ & _ & _ & Hp0 & _).
  destruct H as [[e ?]|[?|[(s1 & _ & ? & _)|[Hm _]]]]; [done..|].
  apply model_cases in Hm as (w & s1 & sent & Hprep & _ & [[e ?]|(resp & s3 & _ & Hrec & [(s4 & ? & _)|[_ Ha]])]); [done..|].
  apply prepare_spec in Hprep as (_ & _ & Hp1 & _). rewrite advance_phase_state, Hp0 in Hp1.
  apply recorded_spec in Hrec as (_ & _ & _ & _ & _ & Hi & _ & Hc & _). simpl in Hi, Hc.
  apply act_spec in Ha as [[_ _ Hia Hca _ _] _]. simpl in Hia, Hca. rewrite Hia, Hca, Hi, Hc, Hp1.
  by destruct (advances (phase s)).
Qed.

(** The states at the head of the loop. *)
Inductive reaches : nat -> St -> nat -> St -> Prop :=
| reach_here n s : reaches n s n s
| reach_next n s s' m s'' : reaches n s m s' -> pass m s' = Ret (Continue s'') -> reaches n s (S m) s''.

Lemma reaches_phase n (s : St) m s' : reaches n s m s' ->
  phase s = {| phase_index := 0; phase_cycle_count := 0; phase_signalled := false |} ->
  (phase_index (phase s') < length (effective_phases input))%nat /\ 0 <= phase_cycle_count (phase s') /\
  (phase_index (phase s') = 0%nat \/ 0 < phase_cycle_count (phase s')).
Proof.
  induction 1 as [n s|n s s1 m s2 Hr IH Hp]; intros Hs.
  - rewrite Hs. simpl. split_and!; [|lia|by left]. unfold effective_phases. destruct (phases input); simpl; lia.
  - destruct (IH Hs) as (Hlt & Hc & Hor). apply pass_phase in Hp as [Hi Hk]. rewrite Hi, Hk.
    destruct (advances (phase s1)) eqn:Ha; [|split_and!; [done|lia|right; lia]].
    unfold advances in Ha. apply andb_prop in Ha as [_ Ha]. apply Nat.ltb_lt in Ha. split_and!; [done|lia|right; lia].
Qed.


(** *** What a whole run keeps *)

#[local] Notation starting d gs reg := (start_run message_value parse_uuid has_emitter system_prompt_seed history_seed
  user_message_seed input d gs reg : St).

Lemma start_state (d : ToolDispatcher X) (gs : list G) reg :
  let s := starting d gs reg in
  rs_dispatcher s = d /\ rs_guards s = gs /\ rs_registry s = reg /\
  phase s = {| phase_index := 0; phase_cycle_count := 0; phase_signalled := false |} /\ progress s = no_progress /\
  msgs s = (build_messages system_prompt_seed history_seed user_message_seed input d).1 /\
  requests_sent (logs s) = [] /\ executed (logs s) = [].
Proof.
  unfold start_run. destruct (last _) as [m|]; [|done]. simpl. set (s0 := {| rs_dispatcher := d |}).
  destruct (emission_same "user" (message_value m) (usage_json <$> None) KIND_TURN s0) as [(Hd & Hg & Hr & Hp & Hpr & Hl) Hm].
  unfold emit_turn_if_enabled. rewrite Hd, Hg, Hr, Hp, Hpr, Hl. by split_and!.
Qed.

#[local] Notation running := (run_streaming_core debug_duration to_string render to_json from_str debug_message message_value
  parse_uuid nil_uuid format_spatial_context retry_config has_emitter system_prompt_seed history_seed user_message_seed
  extensions world input).

Lemma running_ends (d : ToolDispatcher X) (gs : list G) reg : running d gs reg <> None.
Proof.
  unfold run_streaming_core. destruct (start_state d gs reg) as (_ & _ & _ & _ & Hp & _).
  pose proof (looping_ends (S (Z.to_nat (max_cycles input))) 0
    (starting d gs reg)) as He.
  rewrite Hp in He. destruct (looping _ _ _) as [[[s|e]|]|]; try done. exfalso. apply He; [simpl; lia|lia|done].
Qed.

Lemma running_inv (P Q : nat -> St -> Prop) (d : ToolDispatcher X) (gs : list G) reg r :
  (forall n s x, P n s -> pass n s = Ret x ->
     match x with Continue s' => P (S n) s' | Break s' | Return _ s' => Q n s' end) ->
  P 0%nat (starting d gs reg) ->
  running d gs reg = Some (Ret r) ->
  exists n s, Q n s /\ (end_state r = s \/ exists p, end_state r = signal p s).
Proof.
  intros Hstep H0 H. unfold run_streaming_core in H.
  destruct (looping _ _ _) as [[[s|[e s]]|]|] eqn:Hl; simplify_eq;
    destruct (looping_inv P Q _ _ _ Hstep H0 _ Hl) as [n Hn]; exists n; eexists; (split; [exact Hn|]); [|by left].
  apply exec_bind_ret in H as (out & _ & H). simplify_eq. right. by eexists.
Qed.


(** The first messages are paired when the history is. *)
Definition initial_history : list Message := match history_seed with [] => history (seed input) | l => l end.

Lemma build_messages_paired (d : ToolDispatcher X) : well_paired initial_history ->
  well_paired (build_messages system_prompt_seed history_seed user_message_seed input d).1.
Proof.
  intros Hh. unfold build_messages. set (parts := map Text _). simpl. fold initial_history.
  assert (well_paired (initial_history ++ [user (default (user_message (seed input)) user_message_seed)])) as Hw.
  { apply well_paired_app; [done|]. constructor; [|done]. by intros Hx. }
  assert (~ has_results {| role := System; parts := parts |}) as Hs.
  { intros Hx. apply Hx. subst parts. simpl. clear. generalize (List.filter (fun t => negb (String.eqb t ""))).
    intros g. by induction (g _) as [|t ts IH]. }
  destruct parts as [|p ps]; simpl; [done|]. intros [|i] m Hm Hr; simpl in Hm.
  - by simplify_eq.
  - destruct (Hw i m Hm Hr) as (prev & Hi & Hp & Ha). exists prev. split_and!; [lia| |done].
    destruct i as [|i]; [lia|]. simpl in *. by rewrite Nat.sub_0_r in Hp.
Qed.

(** *** What the dispatcher becomes *)

(** The same tools, of which only [advance_phase] may be switched. *)
Definition like (d d' : ToolDispatcher X) : Prop :=
  forall k e', tools d' !! k = Some e' -> exists e, tools d !! k = Some e /\ executor e' = executor e /\
    entry_category e' = entry_category e /\ (k <> ADVANCE_PHASE_TOOL_NAME -> enabled e' = enabled e).

Lemma like_set d d' b : like d d' -> like d (set_enabled d' ADVANCE_PHASE_TOOL_NAME b).2.
Proof.
  intros H k e'. rewrite set_enabled_lookup. case_decide as Hk; [|apply H].
  destruct (tools d' !! k) as [e|] eqn:He; simpl; intros Hx; simplify_eq.
  destruct (H _ _ He) as (e0 & ? & ? & ? & ?). exists e0. by split_and!.
Qed.

Lemma like_synced d (s : St) : like d (rs_dispatcher s) -> like d (synced s).
Proof. intros H. unfold synced. destruct (from_option _ _ _); by apply like_set. Qed.


(** *** What a run sends *)

#[local] Notation TurnState := (Dispatch.LoopState (X := X) (E := E) (G := G)).

Lemma put_results_quiet (rs : list (nat * option (Invocation X E) * ToolResult)) : forall st : TurnState,
  let st' := fold_left (fun st '(idx, _, res) => put_result idx res st) rs st in
  registry st' = registry st /\ signals st' = signals st.
Proof. induction rs as [|[[k inv] r] rs IH]; intros st; simpl; [done|]. by destruct (IH (put_result k r st)) as [-> ->]. Qed.

(** Without an operator's authority a turn sends nothing of its own. *)
Lemma quiet_loop self env (calls : list (ToolCall json)) w ctx fuel : forall i (st st' : TurnState),
  dispatch_loop debug_duration to_string render self env calls w ctx fuel i st = Ret st' ->
  registry st = None -> registry st' = None /\ signals st' = signals st.
Proof.
  induction fuel as [|fuel IH]; intros i st st' H Hr; simpl in H; [by simplify_eq|].
  destruct (calls !! i) as [c|]; [|by simplify_eq]. case_decide.
  - destruct (put_results_quiet (omap (pure_call debug_duration self env calls ctx)
      (seq i (grow self calls (length calls) (S i) - i))) st) as [Hr1 Hs1].
    apply IH in H as [? ?]; simpl in *; [split; congruence|congruence].
  - apply exec_bind_ret in H as ([[inv res] st1] & Hp & H). apply exec_bind_ret in Hp as ([r gs] & _ & Hp).
    assert (registry st1 = None /\ signals st1 = signals st) as [Hr1 Hs1].
    { destruct r; simpl in Hp; rewrite ?Hr in Hp; [destruct (dispatch _ _ _ _ _ _)|..]; by simplify_eq. }
    apply IH in H as [? ?]; [|done]. simpl in *. split; congruence.
Qed.

(** How much the loop has sent. *)
Definition sent_so_far (s : St) (n m : nat) : Prop :=
  rs_registry s = None /\ length (presence (logs s)) = n /\ length (chunks_sent (logs s)) = m.

Lemma sent_same (s s' : St) n m : same_but_convo s s' -> sent_so_far s n m -> sent_so_far s' n m.
Proof. unfold sent_so_far. intros (_ & _ & -> & _ & _ & ->). done. Qed.

Lemma prepare_sends n (s : St) w s' k m :
  prepare to_string format_spatial_context world input n s = Ret (w, s') -> sent_so_far s k m -> sent_so_far s' (S k) m.
Proof.
  unfold prepare, sent_so_far. intros H (Hr & Hp & Hc).
  assert (rs_registry (sync_advance_phase input (advance_phases input s)) = rs_registry s /\
    logs (sync_advance_phase input (advance_phases input s)) = logs s) as [Er El].
  { unfold sync_advance_phase, advance_phases. destruct (_ && _); [destruct (effective_phases input !! _)|];
      by destruct (from_option _ _ _). }
  set (s1 := sync_advance_phase _ _) in *. clearbody s1. unfold observe in H.
  destruct (current_mode _ _); apply exec_bind_ret in H as ([ms ev] & _ & H); simplify_eq; simpl; rewrite Er, El, length_app; simpl;
    split_and!; [done|lia|done|done|lia|done].
Qed.

Lemma recorded_sends resp (s s' : St) k m : recorded resp s = Ret s' -> sent_so_far s k m -> sent_so_far s' k m.
Proof.
  unfold record_response. intros H Hs. apply exec_bind_ret in H as (c & _ & H). apply exec_bind_ret in H as (u & _ & H).
  apply exec_bind_ret in H as (q & _ & H).
  match type of H with context [emission_turn "assistant" ?a ?b ?x] =>
    destruct (emission_same "assistant" (message_value a) (usage_json <$> b) KIND_TURN x) as [Hsame _]; set (s1 := x) in * end.
  apply (sent_same s1 _ k m) in Hsame; [|exact Hs]. unfold emit_turn_if_enabled in H.
  set (s2 := emission _ _ _ _ _) in *. clearbody s2. by simplify_eq.
Qed.

Lemma acting_sends n calls w (s : St) x k m : acting n calls w s = Ret x -> sent_so_far s k m ->
  match x with Continue s' => sent_so_far s' (3 + k) m | Break s' | Return _ s' => sent_so_far s' (2 + k) m end.
Proof.
  unfold act. destruct (note_signal_same calls s) as (Hd & Hg & Hr & Hc & Hp & Hl & _).
  set (s0 := note_signal calls s) in *. clearbody s0. intros H Hs.
  apply exec_bind_ret in H as ([ms st] & Hdisp & H). apply exec_bind_ret in H as (b & _ & H).
  unfold dispatch_tool_calls in Hdisp. apply exec_bind_ret in Hdisp as (st0 & Hloop & Hdisp). simplify_eq.
  apply quiet_loop in Hloop as [Hreg Hsig]; [|simpl; rewrite Hr; apply Hs]. simpl in Hsig.
  match type of H with context [fold_left ?f ?l ?x] =>
    assert (same_but_convo x (fold_left f l x)) as Hs2 by (exact (proj1 (emissions_same l x)));
    set (s2 := fold_left f l x) in *; clearbody s2; set (s1 := x) in * end.
  apply (sent_same s1 s2 (2 + k) m) in Hs2.
  2:{ destruct Hs as (Hn & Hk & Hm). unfold sent_so_far, s1. simpl. rewrite Hsig, Hl, !length_app. simpl. split_and!; [exact Hreg|lia|done]. }
  destruct Hs2 as (? & ? & ?). destruct b; simplify_eq; unfold sent_so_far; simpl; rewrite ?length_app; simpl; split_and!; done || lia.
Qed.

Lemma unstreamed n req : streaming input = false -> (calling n req).1 = [].
Proof. unfold call_model. by intros ->. Qed.

Lemma logged_sends req sent (s : St) k m :
  sent = [] -> sent_so_far s k m -> sent_so_far (log_call req sent s) k m.
Proof. intros ->. unfold sent_so_far. simpl. by rewrite app_nil_r. Qed.

Lemma summary_sends n (s s' : St) k m :
  streaming input = false -> summary n s = Ret s' -> sent_so_far s k m -> sent_so_far s' k m.
Proof.
  intros Hst H Hs. unfold summary_turn in H. set (req := {| req_messages := _ |}) in *.
  pose proof (unstreamed n req Hst) as Hsent. destruct (calling n req) as [sent [resp|e]]; simpl in Hsent;
    apply (logged_sends req _ (push (system BUDGET_NOTICE) s) _ _ Hsent) in Hs; [|by simplify_eq].
  apply exec_bind_ret in H as (u & _ & H). simplify_eq.
  match goal with |- sent_so_far (set_progress _ ?y) _ _ => change (sent_so_far y k m) end.
  unfold emit_turn_if_enabled. eapply sent_same; [apply emission_same|exact Hs].
Qed.

Lemma pass_sends n (s : St) x k : streaming input = false -> pass n s = Ret x -> sent_so_far s k 0 ->
  match x with
  | Continue s' => sent_so_far s' (4 + k) 0
  | Break s' | Return _ s' =>
      exists k', sent_so_far s' k' 0 /\ (k' <= (if (cycles (progress s) <? max_cycles input)%Z then 3 + k else k))%nat
  end.
Proof.
  intros Hst H Hs. apply pass_cases in H as [[e ->]|(s0 & Hr & H)]; [exists k; split; [done|case_match; lia]|].
  apply rolling_same in Hr as Hsame. apply same_but_convo_work in Hsame as (_ & _ & Hp & _).
  apply rolling_same in Hr. apply (sent_same _ _ _ _ Hr) in Hs. rewrite <- Hp. clear Hr Hp s.
  destruct H as [[e ->]|[->|[(s1 & Hs1 & -> & _)|[Hm Hlt]]]]; [exists k; split; [done|case_match; lia]..| |].
  - exists k. split; [by eapply summary_sends|case_match; lia].
  - rewrite (proj2 (Z.ltb_lt _ _) Hlt).
    apply model_cases in Hm as (w & s1 & sent & Hprep & Hsent & Hx). rewrite unstreamed in Hsent by done.
    apply (prepare_sends _ _ _ _ _ _ Hprep) in Hs. apply (logged_sends (build_request input s1) _ _ _ _ Hsent) in Hs.
    destruct Hx as [[e ->]|(resp & s3 & _ & Hrec & Hx)]; [exists (S k); split; [exact Hs|lia]|].
    apply (recorded_sends _ _ _ _ _ Hrec) in Hs.
    destruct Hx as [(s4 & -> & [->|[t ->]])|[_ Ha]]; [exists (S k); split; [exact Hs|lia]..|].
    apply (acting_sends _ _ _ _ _ _ _ Ha) in Hs. destruct x as [s'|s'|e s']; [exact Hs|eexists; split; [exact Hs|lia]..].
Qed.

(** the loop ends.  Whatever the model, the tools, the operator and the meter answer, a run
    of the loop comes to an end, has counted at most [max_cycles] cycles, and has asked the
    model at most once more than that: each counted cycle once, and the summary or the call
    that failed. *)
Theorem run_terminates (d : ToolDispatcher X) (gs : list G) (reg : option Registry) :
  exists r, running d gs reg = Some r /\
  forall o, r = Ret o ->
    cycles (progress (end_state o)) <= Z.max 0 (max_cycles input) /\
    (length (requests_sent (logs (end_state o))) <= S (Z.to_nat (max_cycles input)))%nat.
Proof.
  destruct (running d gs reg) as [r|] eqn:H; [|by apply running_ends in H]. exists r. split; [done|]. intros o ->.
  set (counted := fun n (s : St) => cycles (progress s) = Z.of_nat n /\ length (requests_sent (logs s)) = n /\
    Z.of_nat n <= Z.max 0 (max_cycles input)).
  set (bounded := fun (_ : nat) (s : St) => cycles (progress s) <= Z.max 0 (max_cycles input) /\
    (length (requests_sent (logs s)) <= S (Z.to_nat (max_cycles input)))%nat).
  destruct (running_inv counted bounded d gs reg o) as (n & s & Hn & [->|[p ->]]); [| |done|done|done].
  - intros n s x (Hc & Hl & Hle) Hx%pass_counts. destruct x as [s'|s'|e s']; unfold counted, bounded; lia.
  - destruct (start_state d gs reg) as (_ & _ & _ & _ & Hp & _ & Hq & _). unfold counted. rewrite Hp, Hq. simpl. lia.
Qed.

#[local] Notation run_plain := (run debug_duration to_string render to_json from_str debug_message message_value
  parse_uuid nil_uuid format_spatial_context retry_config has_emitter system_prompt_seed history_seed user_message_seed
  extensions world input).

(** a plain run returns.  [run] gives the loop channels that nobody reads; without
    streaming, without an operator's authority and with at most fifteen cycles the loop never
    sends more than they hold, whatever is answered, so it never waits for ever. *)
Theorem run_returns (d : ToolDispatcher X) (gs : list G) :
  streaming input = false -> max_cycles input <= 15 ->
  exists r, run_plain d gs None = Some r /\ r <> Ret None.
Proof.
  intros Hst Hmax. unfold run. pose proof (running_ends d gs None) as Hends.
  destruct (running d gs None) as [[o|]|] eqn:H; [|by exists Panic|done]. eexists. split; [done|].
  set (P := fun n (s : St) => cycles (progress s) = Z.of_nat n /\ Z.of_nat n <= Z.max 0 (max_cycles input) /\
    sent_so_far s (1 + 4 * n) 0).
  set (Q := fun (_ : nat) (s : St) => exists k, sent_so_far s k 0 /\ (k <= 63)%nat).
  destruct (running_inv P Q d gs None o) as (n & s & (k & (_ & Hk & Hm) & Hle) & Hend); [| |done|].
  - intros n s x (Hc & Hle & Hs) Hx. apply pass_counts in Hx as Hcount. apply (pass_sends _ _ _ _ Hst Hx) in Hs.
    destruct x as [s'|s'|e s']; unfold P, Q; [split; [lia|split; [lia|]]; by replace (1 + 4 * S n)%nat with (4 + (1 + 4 * n))%nat by lia|..];
      destruct Hs as (k & Hs & Hk); exists k; (split; [done|]); case_match; lia.
  - destruct (start_state d gs None) as (_ & _ & Hr & _ & Hp & _). split; [by rewrite Hp|]. split; [lia|]. split; [exact Hr|].
    unfold start_run. destruct (last _) as [m|]; [|done]. simpl. rewrite length_app.
    match goal with |- context [emission_turn "user" m None ?x] =>
      destruct (emission_same "user" (message_value m) (usage_json <$> None) KIND_TURN x) as [(_ & _ & _ & _ & _ & Hl) _] end.
    unfold emit_turn_if_enabled. by rewrite Hl.
  - unfold sends_fit. destruct Hend as [->|[p ->]]; simpl; rewrite ?length_app, Hm, Hk; simpl;
      destruct (Nat.leb_spec0 k RUN_CHANNEL_CAPACITY), (Nat.leb_spec0 (k + 1) RUN_CHANNEL_CAPACITY);
      unfold RUN_CHANNEL_CAPACITY in *; done || lia.
Qed.

(** every request the loop sends is well formed for the providers: each message with tool
    results directly follows the assistant's message whose calls it answers, through
    compaction, phase notices, observations and dispatched turns, provided the given history
    is, the model's answers carry no results of their own and no auxiliary model rewrites the
    transcript. *)
Theorem requests_stay_paired (d : ToolDispatcher X) (gs : list G) (reg : option Registry)
    (o : result (AgentOutput * St) (AgentError * St)) :
  well_paired initial_history -> running d gs reg = Some (Ret o) ->
  Forall (fun r => well_paired (req_messages r)) (requests_sent (logs (end_state o))).
Proof.
  intros Hh H. destruct (running_inv (fun _ => paired_so_far) (fun _ => requests_paired) d gs reg o) as (n & s & Hn & [->|[p ->]]);
    [| |done|done|done].
  - intros n s x. apply pass_paired.
  - destruct (start_state d gs reg) as (_ & _ & _ & _ & _ & Hm & Hq & _). split; [|by rewrite Hq].
    rewrite Hm. by apply build_messages_paired.
Qed.

(** phases follow their triggers.  At the head of every pass the phase is one of the run's;
    a pass that goes on moves to the next phase exactly when there is one and the current
    phase's trigger has fired: its number of cycles is used up, or the model has called
    [advance_phase] in it.  A phase never advances by the trigger [Immediate]. *)
Theorem phases_follow_triggers (d : ToolDispatcher X) (gs : list G) (reg : option Registry) (n : nat) (s : St) :
  reaches 0 (starting d gs reg) n s ->
  exists p, current_phase input s = Some p /\
  forall s', pass n s = Ret (Continue s') ->
    (phase_index (phase s') = phase_index (phase s) \/ phase_index (phase s') = S (phase_index (phase s))) /\
    (phase_index (phase s') <> phase_index (phase s) <->
       (S (phase_index (phase s)) < length (effective_phases input))%nat /\
       match ph_trigger p with
       | Immediate => False
       | AfterCycles k => k <= phase_cycle_count (phase s)
       | OnToolSignal => phase_signalled (phase s) = true
       end).
Proof.
  intros Hr. destruct (start_state d gs reg) as (_ & _ & _ & Hp & _).
  destruct (reaches_phase _ _ _ _ Hr Hp) as (Hlt & Hc & Hor).
  destruct (effective_phases input !! phase_index (phase s)) as [p|] eqn:He; [|by apply lookup_ge_None in He; lia].
  exists p. split; [exact He|]. intros s' Hpass. apply pass_phase in Hpass as [Hi _].
  assert (advances (phase s) = true <->
    (S (phase_index (phase s)) < length (effective_phases input))%nat /\
    match ph_trigger p with
    | Immediate => False | AfterCycles k => k <= phase_cycle_count (phase s) | OnToolSignal => phase_signalled (phase s) = true
    end) as Hadv.
  { unfold advances. rewrite He. simpl. rewrite andb_true_iff, Nat.ltb_lt. unfold should_advance.
    destruct (ph_trigger p); rewrite ?andb_true_iff, ?Nat.ltb_lt, ?Z.leb_le, ?Z.eqb_eq; lia || (split; intros [? ?]; split; done || lia). }
  rewrite <- Hadv, Hi. destruct (advances (phase s)); split; try lia; split; done || lia.
Qed.

(** *** The emitted turns *)

(** A run's turns: of the parsed session and tenant, of a kind the table admits, and numbered
    from 0 as long as the index does not saturate. *)
Definition numbered (c : Convo) : Prop :=
  (forall i e, emitted c !! i = Some e ->
     te_turn_index e = Z.min (Z.of_nat i) i32_max /\ parse_uuid (in_task_id input) = Some (te_session_id e) /\
     parse_uuid (in_tenant_id input) = Some (te_tenant_id e) /\
     (te_kind e = KIND_TURN \/ te_kind e = KIND_COMPACTION)) /\
  turn_index c = Z.min (Z.of_nat (length (emitted c))) i32_max.

Lemma emission_numbered role v u kind (s : St) : kind = KIND_TURN \/ kind = KIND_COMPACTION ->
  numbered (convo s) -> numbered (convo (emission role v u kind s)).
Proof.
  intros Hk Hn. pose proof Hn as [He Ht]. unfold emit. destruct has_emitter; [|done].
  destruct (parse_uuid (in_task_id input)) as [sid|] eqn:Es; [|done].
  destruct (parse_uuid (in_tenant_id input)) as [tid|] eqn:Ed; [|done]. unfold numbered. rewrite Es, Ed. simpl. split.
  - intros i e [Hi|[Hi Hx]]%lookup_app_Some; [by apply He|].
    apply list_lookup_singleton_Some in Hx as [Hz <-]. simpl. rewrite Ht. split_and!; [|done..]. f_equal. lia.
  - rewrite Ht, length_app. unfold i32_saturating_add. simpl. assert (i32_max = 2 ^ 31 - 1) by done. lia.
Qed.

Lemma emissions_numbered ms : forall s : St, numbered (convo s) ->
  numbered (convo (fold_left (fun s m => emission_turn "tool" m None s) ms s)).
Proof. induction ms as [|m ms IH]; intros s H; simpl; [done|]. apply IH, emission_numbered; [by left|done]. Qed.

Lemma rolling_numbered n (s s' : St) : rolling n s = Ret s' -> numbered (convo s) -> numbered (convo s').
Proof.
  unfold maybe_run_compaction. intros H Hn. apply exec_bind_ret in H as (f & _ & H).
  destruct (f64_lt _ _); [by simplify_eq|].
  apply exec_bind_ret in H as ([ms ev] & _ & H). destruct (w_aux world n) as [aux|]; [|by simplify_eq].
  apply exec_bind_ret in H as ([t k| |] & _ & H); [|by simplify_eq..].
  apply exec_bind_ret in H as (ms' & _ & H). simplify_eq. apply emission_numbered; [by right|done].
Qed.

Lemma prepare_numbered n (s : St) w s' :
  prepare to_string format_spatial_context world input n s = Ret (w, s') -> numbered (convo s) -> numbered (convo s').
Proof.
  unfold prepare. intros H Hn.
  assert (numbered (convo (sync_advance_phase input (advance_phases input s)))) as Hn1.
  { unfold sync_advance_phase, advance_phases. destruct (_ && _); [destruct (effective_phases input !! _)|];
      by destruct (from_option _ _ _). }
  set (s1 := sync_advance_phase _ _) in *. clearbody s1. unfold observe in H.
  destruct (current_mode _ _); apply exec_bind_ret in H as ([ms ev] & _ & H); by simplify_eq.
Qed.

Lemma recorded_numbered resp (s s' : St) : recorded resp s = Ret s' -> numbered (convo s) -> numbered (convo s').
Proof.
  unfold record_response. intros H Hn. apply exec_bind_ret in H as (c & _ & H). apply exec_bind_ret in H as (u & _ & H).
  apply exec_bind_ret in H as (q & _ & H).
  match type of H with context [emission_turn "assistant" ?a ?b ?x] =>
    pose proof (emission_numbered "assistant" (message_value a) (usage_json <$> b) KIND_TURN x (or_introl eq_refl) Hn) as Hn1 end.
  unfold emit_turn_if_enabled in H. set (s2 := emission _ _ _ _ _) in *. clearbody s2. by simplify_eq.
Qed.

Lemma acting_numbered n calls w (s : St) x : acting n calls w s = Ret x -> numbered (convo s) ->
  numbered (convo (next_state x)).
Proof.
  unfold act. destruct (note_signal_same calls s) as (_ & _ & _ & Hc & _). set (s0 := note_signal calls s) in *. clearbody s0.
  intros H Hn. apply exec_bind_ret in H as ([ms st] & _ & H). apply exec_bind_ret in H as (b & _ & H).
  match type of H with context [fold_left ?f ?l ?x] =>
    pose proof (emissions_numbered l x) as Hn1; set (s2 := fold_left f l x) in *; clearbody s2 end.
  simpl in Hn1. unfold numbered in Hn1 at 1. simpl in Hn1. rewrite Hc in Hn1. specialize (Hn1 Hn). by destruct b; simplify_eq.
Qed.

Lemma summary_numbered n (s s' : St) : summary n s = Ret s' -> numbered (convo s) -> numbered (convo s').
Proof.
  unfold summary_turn. intros H Hn. destruct (calling n _) as [sent [resp|e]]; [|by simplify_eq].
  apply exec_bind_ret in H as (u & _ & H). simplify_eq. unfold set_progress. simpl.
  apply emission_numbered; [by left|done].
Qed.

Lemma pass_numbered n (s : St) x : pass n s = Ret x -> numbered (convo s) -> numbered (convo (next_state x)).
Proof.
  intros H Hn. apply pass_cases in H as [[e ->]|(s0 & Hr & H)]; [done|]. apply (rolling_numbered _ _ _ Hr) in Hn.
  destruct H as [[e ->]|[->|[(s1 & Hs & -> & _)|[Hm _]]]]; [done|done|by eapply summary_numbered|].
  apply model_cases in Hm as (w & s1 & sent & Hprep & _ & Hx). apply (prepare_numbered _ _ _ _ Hprep) in Hn.
  destruct Hx as [[e ->]|(resp & s3 & _ & Hrec & Hx)]; [done|]. apply (recorded_numbered resp) in Hrec; [|done].
  destruct Hx as [(s4 & -> & [->|[t ->]])|[_ Ha]]; [done|done|by eapply acting_numbered].
Qed.

(** the turns a run emits for persistence are all of its session and tenant, of kinds the
    table admits, and numbered 0, 1, 2, ... in the order of emission (the last value repeats when
    the counter saturates), whatever the model, the tools and the operator do. *)
Theorem run_numbers_its_turns (d : ToolDispatcher X) (gs : list G) (reg : option Registry) r :
  running d gs reg = Some (Ret r) -> numbered (convo (end_state r)).
Proof.
  intros H. destruct (running_inv (fun _ s => numbered (convo s)) (fun _ s => numbered (convo s)) d gs reg r)
    as (n & s & Hn & [->|[p ->]]); [| |done|done|done].
  - intros n s x Hn Hx%pass_numbered; [|done]. by destruct x.
  - unfold start_run. destruct (last _) as [m|]; simpl; [|by split].
    apply emission_numbered; [by left|]. by split.
Qed.

End Facts.

(** ** A worker's run under its velocity limit *)

Section WorkerRun.
Context {X E : Type} `{!ToolExecutor X}.
Context (debug_duration : Duration -> string) (to_string : json -> string) (render : SafetyFilter.message -> string)
  (to_json : ToolResult -> option string) (from_str : string -> option json) (debug_message : Message -> string)
  (message_value : Message -> json) (parse_uuid : string -> option string) (nil_uuid : string)
  (format_spatial_context : WorldState json -> string).
Context (retry_config : RetryConfig) (has_emitter : bool) (system_prompt_seed : list string)
  (history_seed : list Message) (user_message_seed : option string) (extensions : E).
Context (world : World X E) (input : AgentInput) (config : option f64) (d : ToolDispatcher X).
Let max := default (f64_dec 15 1) config.
Hypothesis max_valid : valid max = true.
Hypothesis max_finite : is_finite max = true.
Hypothesis max_nonneg : f64_le zero max = true.

#[local] Notation Guard := (BoxedGuard json).
#[local] Notation St := (RunState X E Guard).
#[local] Notation pass := (cycle (G := Guard) debug_duration to_string render to_json from_str debug_message message_value
  parse_uuid nil_uuid format_spatial_context retry_config has_emitter extensions world input).

(** An execution of a tool of the worker, within the limit unless the tool is pure. *)
Definition within_limit (inv : Invocation X E) : Prop :=
  exists name entry, tools d !! name = Some entry /\ inv_executor inv = executor entry /\
    (enabled entry = true \/ name = ADVANCE_PHASE_TOOL_NAME) /\
    (entry_category entry <> Pure -> velocities_within max (inv_params inv)).

Definition all_within_limit (s : St) : Prop :=
  forall ss k inv, ss ∈ executed (logs s) -> (k, Some inv) ∈ trace_calls ss -> within_limit inv.

Record worker_state (s : St) : Prop := {
  wk_guards : rs_guards s = worker_guards config;
  wk_tools : like d (rs_dispatcher s);
  wk_runs : all_within_limit s;
}.

Lemma worker_turn env reg self calls w ctx messages messages' (st : Dispatch.LoopState (X := X) (E := E)) :
  dispatch_tool_calls debug_duration to_string render to_json self env (worker_guards config) reg calls w ctx messages
    = Ret (messages', st) -> like d self ->
  guards st = worker_guards config /\ forall k inv, (k, Some inv) ∈ trace_calls (steps st) -> within_limit inv.
Proof.
  intros H Hlike. pose proof (worker_stack_total config max_valid max_finite max_nonneg) as Hstack. split.
  - eapply (turn_inv _ _ _ _ _ _ _ _ _ _ _ (fun _ gs => gs = worker_guards config)); [done| |done|exact H].
    intros i gs c r gs' _ _ -> He. destruct (Hstack (clock env i) c w) as (c' & Hc & _). congruence.
  - intros k inv Hin. destruct (worker_turn_cases debug_duration to_string render to_json self env config reg calls w ctx
      messages max_valid max_finite max_nonneg) as (m & st' & H' & Hall).
    rewrite H in H'. simplify_eq. destruct (Hall k inv Hin) as (c & e & _ & He & Hen & Hx & Hv & _).
    destruct (Hlike _ _ He) as (e0 & He0 & Hex & Hcat & Hsame). exists (tool c), e0. split_and!; [done|congruence| |].
    + destruct (decide (tool c = ADVANCE_PHASE_TOOL_NAME)); [by right|left]. rewrite <- Hsame; done.
    + by rewrite <- Hcat.
Qed.

Lemma all_within_same (s s' : St) : executed (logs s') = executed (logs s) -> all_within_limit s -> all_within_limit s'.
Proof. unfold all_within_limit. intros ->. done. Qed.

Lemma worker_pass n (s : St) x : worker_state s -> pass n s = Ret x ->
  match x with Continue s' => worker_state s' | Break s' | Return _ s' => all_within_limit s' end.
Proof.
  intros Hs H. apply pass_cases in H as [[e ->]|(s0 & Hr & H)]; [apply Hs|].
  apply rolling_same in Hr as (Hd0 & Hg0 & Hr0 & _ & _ & Hl0).
  assert (worker_state s0) as Hs0.
  { destruct Hs as [Hg Ht Hx]. split; [congruence|by rewrite Hd0|]. eapply all_within_same; [|exact Hx]. by rewrite Hl0. }
  clear Hd0 Hg0 Hr0 Hl0 Hs s.
  destruct H as [[e ->]|[->|[(s1 & Hs1 & -> & _)|[Hm _]]]]; [apply Hs0|apply Hs0| |].
  - apply summary_spec in Hs1 as (_ & Hx & _). eapply all_within_same; [exact Hx|apply Hs0].
  - apply model_cases in Hm as (w & s1 & sent & Hprep & _ & Hx).
    apply prepare_spec in Hprep as ((Hg1 & _ & _ & _ & Hx1) & Hd1 & _).
    assert (worker_state s1) as Hs1.
    { destruct Hs0 as [Hg Ht Hx0]. split; [congruence|rewrite Hd1; by apply like_synced|by eapply all_within_same]. }
    destruct Hx as [[e ->]|(resp & s3 & _ & Hrec & Hx)]; [apply Hs1|].
    apply recorded_spec in Hrec as (Hd3 & Hg3 & _ & _ & _ & _ & _ & _ & _ & _ & Hx3). simpl in Hd3, Hg3, Hx3.
    assert (worker_state s3) as Hs3.
    { destruct Hs1 as [Hg Ht Hx0]. split; [congruence|by rewrite Hd3|by eapply all_within_same]. }
    destruct Hx as [(s4 & -> & [->|[t ->]])|[_ Ha]]; [apply Hs3|apply Hs3|].
    apply act_spec in Ha as [[Hda _ _ _ _ (st & Hdisp & Hga & _ & Hxa)] Hnb]. destruct Hs3 as [Hg Ht Hx0].
    rewrite Hg in Hdisp. apply worker_turn in Hdisp as [Hgs Hall]; [|done].
    assert (worker_state (next_state x)) as Hn.
    { split; [congruence|by rewrite Hda|]. intros ss k inv. rewrite Hxa, elem_of_app, list_elem_of_singleton.
      intros [Hin| ->] Hk; [by eapply Hx0|by eapply Hall]. }
    destruct x as [s'|s'|e s']; [exact Hn|apply Hn|apply Hn].
Qed.

(** a worker's whole run stays within its velocity limit.  Through every cycle, phase
    change and compaction, whatever the model asks for, each execution the run logs is of a
    tool the worker was given enabled (or [advance_phase], which a phase may switch on), and
    unless that tool is pure every velocity it is given is within the limit. *)
Theorem run_velocities_bounded (reg : option Registry) (o : result (AgentOutput * St) (AgentError * St)) :
  run_streaming_core debug_duration to_string render to_json from_str debug_message message_value parse_uuid nil_uuid
    format_spatial_context retry_config has_emitter system_prompt_seed history_seed user_message_seed extensions world input
    d (worker_guards config) reg = Some (Ret o) ->
  forall ss k inv, ss ∈ executed (logs (end_state o)) -> (k, Some inv) ∈ trace_calls ss -> within_limit inv.
Proof.
  intros H. destruct (running_inv debug_duration to_string render to_json from_str debug_message message_value parse_uuid nil_uuid
    format_spatial_context retry_config has_emitter system_prompt_seed history_seed user_message_seed extensions world input
    (fun _ => worker_state) (fun _ => all_within_limit) d (worker_guards config) reg o) as (n & s & Hn & [->|[p ->]]); [| |exact H|exact Hn|exact Hn].
  - intros n s x. apply worker_pass.
  - destruct (start_state (E := E) message_value parse_uuid has_emitter system_prompt_seed history_seed user_message_seed input d
      (worker_guards config : list Guard) reg) as (Hd & Hg & _ & _ & _ & _ & _ & Hx).
    split; [exact Hg| |].
    + rewrite Hd. intros k e He. by exists e.
    + intros ss k inv. rewrite Hx. by intros ?%not_elem_of_nil.
Qed.

End WorkerRun.

(** ** Concrete runs *)

Module RunDemo.
Export Dispatch.Demo.

Definition says (ps : list ContentPart) (r : StopReason) : CompletionResponse :=
  {| resp_parts := ps; stop_reason := r;
     usage := {| input_tokens := 7; output_tokens := 2; cache_read_tokens := 0; cache_creation_tokens := 0 |} |}.

(** The model calls tools in the first two passes, [advance_phase] among them, then answers. *)
Definition answers_to (n : nat) : CompletionResponse :=
  match n with
  | 0%nat => says [ToolUse "a" "look" Null; ToolUse "b" "move_arm" (JObject [("velocity", JUint 3)])] StopToolUse
  | 1%nat => says [ToolUse "c" "advance_phase" Null] StopToolUse
  | _ => says [Text "done"] EndTurn
  end.

Definition world : World string unit := {|
  w_cancelled := fun _ => false;
  w_budget := fun _ => WithinBudget;
  w_snapshot := fun _ => empty_world;
  w_complete := fun n _ _ => Ok (answers_to n);
  w_stream := fun _ _ _ => Ok [];
  w_rolling_model := fun _ _ => Err "unused";
  w_cycle_model := fun _ _ => Err "unused";
  w_aux := fun _ => None;
  w_turn := fun _ => env;
|}.

Definition phased (p q : PhaseTrigger) : list PhaseSpec :=
  [{| ph_mode := PhaseReact; ph_tools := FilterAll; ph_trigger := p |};
   {| ph_mode := PhaseReact; ph_tools := FilterAll; ph_trigger := q |};
   {| ph_mode := PhaseReact; ph_tools := FilterAll; ph_trigger := Immediate |}].

Definition input (cycles : Z) (ps : list PhaseSpec) : AgentInput := {|
  in_task_id := "session"; in_tenant_id := "tenant"; model_name := "m";
  seed := {| system_prompt := ["be safe"]; history := []; user_message := "go" |};
  max_cycles := cycles; in_max_tokens := 100; max_context_tokens := 100000; mode := React; phases := ps;
  in_tool_choice := None; in_response_schema := None; streaming := false; has_cancellation_token := false;
  control_mode := Safety.Autonomous |}.

Definition tools : ToolDispatcher string := register_advance_phase d ADVANCE_PHASE_TOOL_NAME.

#[local] Notation with_parts f := (f (fun _ : Duration => "30s") (fun _ : json => "") (fun _ : SafetyFilter.message => "")
  (fun _ : ToolResult => Some "{}") (fun _ : string => None) (fun _ : Message => "") (fun _ : Message => Null)
  (fun s : string => Some s) "nil" (fun _ : WorldState json => "") default_retry_config true) (only parsing).

Definition run (i : AgentInput) : option (exec (result (AgentOutput * RunState string unit (BoxedGuard json)) _)) :=
  with_parts run_streaming_core [] [] None tt world i tools (worker_guards (Some (f64_of_Z 2))) None.

Definition pass (i : AgentInput) (n : nat) : RunState string unit (BoxedGuard json) -> exec (Next _) :=
  with_parts cycle tt world i n.

Definition start (i : AgentInput) : RunState string unit (BoxedGuard json) :=
  start_run (fun _ => Null) (fun s => Some s) true [] [] None i tools (worker_guards (Some (f64_of_Z 2))) None.
End RunDemo.

(** The keys under which usage is recorded start again with every run, and a session runs the
    loop once per turn under one task id: recorded at most once per key, the usage of its later
    turns is lost.  The summary's usage has no record at all. *)
Example usage_keys_repeat : exists out s,
  RunDemo.run (RunDemo.input 2 []) = Some (Ret (Ok (out, s))) /\
  map idempotency_key (usage_records (logs s)) = ["session:1"; "session:2"] /\
  length (requests_sent (logs s)) = 3%nat /\ total_usage (progress s) <> no_usage /\
  input_tokens (total_usage (progress s)) = 21 /\ length (usage_records (logs s)) = 2%nat.
Proof.
  destruct (RunDemo.run (RunDemo.input 2 [])) as [[[[out s]|e]|]|] eqn:H; vm_compute in H; try discriminate H.
  injection H as <- <-. do 2 eexists. split; [reflexivity|]. vm_compute. by split_and!.
Qed.

#[local] Notation at_demo f := (f (fun _ : Duration => "30s") (fun _ : json => "") (fun _ : SafetyFilter.message => "")
  (fun _ : ToolResult => Some "{}") (fun _ : string => None) (fun _ : Message => "") (fun _ : Message => Null)
  (fun s : string => Some s) "nil" (fun _ : WorldState json => "") default_retry_config true) (only parsing).

Lemma run_terminates_witness : exists out s,
  RunDemo.run (RunDemo.input 2 []) = Some (Ret (Ok (out, s))) /\ cycles (progress s) <= 2 /\
  (length (requests_sent (logs s)) <= 3)%nat.
Proof.
  destruct (at_demo run_terminates [] [] None tt RunDemo.world (RunDemo.input 2 []) RunDemo.tools
    (worker_guards (Some (f64_of_Z 2))) None) as (r & Hr & Hb).
  change (at_demo run_streaming_core [] [] None tt RunDemo.world (RunDemo.input 2 []) RunDemo.tools
    (worker_guards (Some (f64_of_Z 2))) None) with (RunDemo.run (RunDemo.input 2 [])) in Hr.
  destruct r as [[[out s]|e]|].
  - exists out, s. split; [exact Hr|]. destruct (Hb _ eq_refl) as [H1 H2]. split; [exact H1|exact H2].
  - vm_compute in Hr. discriminate Hr.
  - vm_compute in Hr. discriminate Hr.
Defined.

Lemma requests_stay_paired_witness : exists out s,
  RunDemo.run (RunDemo.input 2 []) = Some (Ret (Ok (out, s))) /\ length (requests_sent (logs s)) = 3%nat /\
  Forall (fun r => well_paired (req_messages r)) (requests_sent (logs s)).
Proof.
  destruct (RunDemo.run (RunDemo.input 2 [])) as [[[[out s]|e]|]|] eqn:H;
    [|vm_compute in H; discriminate H..].
  exists out, s. split; [reflexivity|]. split.
  { vm_compute in H. injection H as <- <-. reflexivity. }
  apply (at_demo requests_stay_paired [] [] None tt RunDemo.world (RunDemo.input 2 [])) with
    (d := RunDemo.tools) (gs := worker_guards (Some (f64_of_Z 2))) (reg := None) (o := Ok (out, s)).
  - intros n req resp Hr. vm_compute in Hr. injection Hr as <-. destruct n as [|[|n]]; reflexivity.
  - reflexivity.
  - intros i m Hm. vm_compute in Hm. discriminate Hm.
  - exact H.
Defined.

Lemma phases_follow_triggers_witness : exists s1 s2,
  let i := RunDemo.input 5 (RunDemo.phased (AfterCycles 1) OnToolSignal) in
  RunDemo.pass i 0 (RunDemo.start i) = Ret (Continue s1) /\ RunDemo.pass i 1 s1 = Ret (Continue s2) /\
  phase_index (phase s1) = 0%nat /\ phase_index (phase s2) = 1%nat /\
  (phase_index (phase s2) <> phase_index (phase s1) <-> (1 < 3)%nat /\ 1 <= phase_cycle_count (phase s1)).
Proof.
  set (i := RunDemo.input 5 (RunDemo.phased (AfterCycles 1) OnToolSignal)).
  destruct (RunDemo.pass i 0 (RunDemo.start i)) as [[s1|s1|e s1]|] eqn:H1; try (vm_compute in H1; discriminate H1).
  destruct (RunDemo.pass i 1 s1) as [[s2|s2|e s2]|] eqn:H2;
    try (vm_compute in H1; injection H1 as <-; vm_compute in H2; discriminate H2).
  exists s1, s2. split; [exact H1|]. split; [exact H2|].
  destruct (at_demo phases_follow_triggers [] [] None tt RunDemo.world i RunDemo.tools (worker_guards (Some (f64_of_Z 2))) None
    1%nat s1) as (p & Hp & Hall).
  { eapply reach_next; [apply reach_here|exact H1]. }
  destruct (Hall s2 H2) as [_ Hex].
  assert (phase_index (phase s1) = 0%nat) as E1 by (vm_compute in H1; injection H1 as <-; reflexivity).
  assert (phase_index (phase s2) = 1%nat) as E2
    by (vm_compute in H1; injection H1 as <-; vm_compute in H2; injection H2 as <-; reflexivity).
  split; [exact E1|]. split; [exact E2|]. unfold current_phase in Hp. rewrite E1 in Hp. vm_compute in Hp. injection Hp as <-.
  simpl in Hex. rewrite E1 in Hex |- *. exact Hex.
Defined.

Lemma run_velocities_bounded_witness : exists out s ss k inv,
  RunDemo.run (RunDemo.input 2 []) = Some (Ret (Ok (out, s))) /\ ss ∈ executed (logs s) /\
  (k, Some inv) ∈ trace_calls ss /\ v_get (inv_params inv) "velocity" <> None /\
  within_limit (Some (f64_of_Z 2)) RunDemo.tools inv.
Proof.
  destruct (RunDemo.run (RunDemo.input 2 [])) as [[[[out s]|e]|]|] eqn:H;
    [|vm_compute in H; discriminate H..].
  assert (exists ss k inv, ss ∈ executed (logs s) /\ (k, Some inv) ∈ trace_calls ss /\
    v_get (inv_params inv) "velocity" <> None) as (ss & k & inv & Hs & Hk & Hv).
  { vm_compute in H. injection H as _ <-. do 3 eexists. split; [left|]. split; [right; left|]. vm_compute. discriminate. }
  exists out, s, ss, k, inv. split; [reflexivity|]. split; [exact Hs|]. split; [exact Hk|]. split; [exact Hv|].
  refine (at_demo run_velocities_bounded [] [] None tt RunDemo.world (RunDemo.input 2 []) (Some (f64_of_Z 2)) RunDemo.tools
    _ _ _ None (Ok (out, s)) H ss k inv Hs Hk); vm_compute; reflexivity.
Defined.

Lemma run_returns_witness : exists out,
  at_demo run [] [] None tt RunDemo.world (RunDemo.input 2 []) RunDemo.tools (worker_guards (Some (f64_of_Z 2))) None
    = Some (Ret (Some (Ok out))) /\ out_cycles out = 2.
Proof.
  destruct (at_demo run_returns [] [] None tt RunDemo.world (RunDemo.input 2 []) RunDemo.tools
    (worker_guards (Some (f64_of_Z 2)))) as (r & Hr & Hne); [reflexivity|vm_compute; discriminate|].
  destruct r as [[[out|e]|]|]; [exists out|vm_compute in Hr; discriminate Hr|by destruct Hne|vm_compute in Hr; discriminate Hr].
  split; [exact Hr|]. vm_compute in Hr. injection Hr as <-. reflexivity.
Defined.

(** The module's comment calls the receivers of [run] dropped.  They live as long as the run: a
    model that keeps calling tools is never answered after its sixteenth call. *)
Definition busy_world : World string unit := {|
  w_cancelled := fun _ => false; w_budget := fun _ => WithinBudget; w_snapshot := fun _ => empty_world;
  w_complete := fun _ _ _ => Ok (RunDemo.says [ToolUse "a" "look" Null] StopToolUse);
  w_stream := fun _ _ _ => Ok []; w_rolling_model := fun _ _ => Err "unused"; w_cycle_model := fun _ _ => Err "unused";
  w_aux := fun _ => None; w_turn := fun _ => Demo.env |}.

Example long_run_waits_forever :
  at_demo run [] [] None tt busy_world (RunDemo.input 16 []) RunDemo.tools [BPermission {| perm_mode := Auto |}] None
    = Some (Ret None).
Proof. vm_compute. reflexivity. Qed.
