(* ===== verification/SessionData.v ===== *)
(** * Session data and the system prompt

    roz-core: session/activity.rs, session/control.rs, session/snapshot.rs, recovery.rs (the
    recovery matrix), edge_health.rs (the health value) and memory.rs (entries);
    roz-agent/prompt_assembler.rs: the blocks of the system prompt. *)

From Stdlib Require Import Ascii.
From S2P Require Import Prelude Float64 RustStr Json Deployment SafetyFilter Guards Approvals Context Policy Dispatch ModelCalls.

(** ** activity.rs *)

Inductive RuntimeActivity : Type :=
| Observing | Planning | ActCallingTool | AwaitingApproval | ExecutingPhysical | Verifying | PausedSafe | ActDegraded | ActIdle.

#[export] Instance RuntimeActivity_eq_dec : EqDecision RuntimeActivity.
Proof. solve_decision. Defined.

Definition robot_should_be_safe (self : RuntimeActivity) : bool :=
  match self with PausedSafe | ActDegraded | AwaitingApproval => true | _ => false end.

Inductive RuntimeFailureKind : Type :=
| ModelError | ToolError | SafetyBlocked | VerificationFailed | FailCircuitBreakerTripped | ApprovalTimeout | TrustViolation
| ControllerTrap | ControllerWatchdog | EdgeTransportLost | SessionTimeout | OperatorAbort.

#[export] Instance RuntimeFailureKind_eq_dec : EqDecision RuntimeFailureKind.
Proof. solve_decision. Defined.

(** The serialised (snake case) name. *)
Definition failure_name (f : RuntimeFailureKind) : string :=
  match f with
  | ModelError => "model_error" | ToolError => "tool_error" | SafetyBlocked => "safety_blocked"
  | VerificationFailed => "verification_failed" | FailCircuitBreakerTripped => "circuit_breaker_tripped"
  | ApprovalTimeout => "approval_timeout" | TrustViolation => "trust_violation" | ControllerTrap => "controller_trap"
  | ControllerWatchdog => "controller_watchdog" | EdgeTransportLost => "edge_transport_lost"
  | SessionTimeout => "session_timeout" | OperatorAbort => "operator_abort"
  end.

Record ResumeRequirements : Type := {
  rr_requires_reobserve : bool;
  rr_requires_reapproval : bool;
  rr_requires_reverification : bool;
  rr_summary : string;
}.

Inductive SafePauseState : Type :=
| Running
| Entering (reason : string) (triggered_by : RuntimeFailureKind)
| Paused (reason : string) (triggered_by : RuntimeFailureKind) (resume_requirements : ResumeRequirements).

Definition is_paused (self : SafePauseState) : bool :=
  match self with Paused _ _ _ | Entering _ _ => true | Running => false end.

(** ** control.rs *)

Module Session.
Inductive ControlMode : Type := Autonomous | Teleop | SharedAutonomy | Supervised | Paused.

Definition debug_control_mode (m : ControlMode) : string :=
  match m with
  | Autonomous => "Autonomous" | Teleop => "Teleop" | SharedAutonomy => "SharedAutonomy"
  | Supervised => "Supervised" | Paused => "Paused"
  end.
End Session.

Inductive SessionMode : Type := Local | Server | Edge.

(** ** edge_health.rs *)

Inductive EdgeTransportHealth : Type := Healthy | EdgeDegraded (affected : list string) | Disconnected.

Definition is_healthy (self : EdgeTransportHealth) : bool := match self with Healthy => true | _ => false end.

(** ** recovery.rs *)

Record RecoveryAction : Type := {
  retry : bool;
  ra_max_retries : Z;
  escalate : bool;
  safe_pause : bool;
  terminal : bool;
  requires_reobserve : bool;
  requires_reapproval : bool;
  notes : string;
}.

Record RecoveryConfig : Type := {
  model_retry_count : Z;
  model_retry_backoff_ms : list Z;
  model_fallback_enabled : bool;
  circuit_breaker_threshold : Z;
  approval_timeout_secs : Z;
  escalation_enabled : bool;
}.

Definition default_recovery_config : RecoveryConfig := {|
  model_retry_count := 3; model_retry_backoff_ms := [1000; 2000; 4000]; model_fallback_enabled := true;
  circuit_breaker_threshold := 3; approval_timeout_secs := 300; escalation_enabled := false |}.

Definition recovery_action_for (failure : RuntimeFailureKind) (config : RecoveryConfig) : RecoveryAction :=
  match failure with
  | ModelError => {|
      retry := true; ra_max_retries := model_retry_count config; escalate := true; safe_pause := false; terminal := false;
      requires_reobserve := false; requires_reapproval := false;
      notes := "Fallback to alternative model if blueprint allows" |}
  | ToolError => {|
      retry := true; ra_max_retries := 1; escalate := false; safe_pause := false; terminal := false;
      requires_reobserve := false; requires_reapproval := false; notes := "Circuit breaker resets on any success" |}
  | SafetyBlocked => {|
      retry := false; ra_max_retries := 0; escalate := true; safe_pause := true; terminal := false;
      requires_reobserve := true; requires_reapproval := true; notes := "Report guard and reason to operator" |}
  | VerificationFailed => {|
      retry := false; ra_max_retries := 0; escalate := true; safe_pause := true; terminal := false;
      requires_reobserve := false; requires_reapproval := false;
      notes := "Report failing evidence, operator override possible" |}
  | FailCircuitBreakerTripped => {|
      retry := false; ra_max_retries := 0; escalate := true; safe_pause := true; terminal := false;
      requires_reobserve := false; requires_reapproval := true; notes := "Requires operator intervention to reset" |}
  | ApprovalTimeout => {|
      retry := false; ra_max_retries := 0; escalate := true; safe_pause := true; terminal := false;
      requires_reobserve := false; requires_reapproval := true; notes := "Notify operator, do not replay action" |}
  | TrustViolation => {|
      retry := false; ra_max_retries := 0; escalate := false; safe_pause := true; terminal := true;
      requires_reobserve := true; requires_reapproval := true; notes := "Non-recoverable within session" |}
  | ControllerTrap => {|
      retry := false; ra_max_retries := 0; escalate := false; safe_pause := true; terminal := false;
      requires_reobserve := true; requires_reapproval := false; notes := "Rollback to last-known-good, emit evidence" |}
  | ControllerWatchdog => {|
      retry := false; ra_max_retries := 0; escalate := false; safe_pause := true; terminal := false;
      requires_reobserve := true; requires_reapproval := false;
      notes := "Rollback, emit evidence, mark controller rejected" |}
  | EdgeTransportLost => {|
      retry := true; ra_max_retries := 0; escalate := true; safe_pause := true; terminal := false;
      requires_reobserve := true; requires_reapproval := false; notes := "Continue local-safe if policy allows" |}
  | SessionTimeout => {|
      retry := false; ra_max_retries := 0; escalate := false; safe_pause := true; terminal := true;
      requires_reobserve := false; requires_reapproval := false; notes := "Clean shutdown" |}
  | OperatorAbort => {|
      retry := false; ra_max_retries := 0; escalate := false; safe_pause := true; terminal := true;
      requires_reobserve := false; requires_reapproval := false; notes := "Operator's word is final" |}
  end.

(** ** snapshot.rs *)

Definition is_fresh (self : FreshnessState) : bool := match self with Fresh => true | _ => false end.

Record SessionSnapshot : Type := {
  snap_session_id : string;
  snap_turn_index : Z;
  current_goal : option string;
  snap_current_phase : option string;
  next_expected_step : option string;
  last_approved_physical_action : option string;
  last_verifier_result : option VerifierVerdict;
  telemetry_freshness : FreshnessState;
  spatial_freshness : FreshnessState;
  pending_blocker : option string;
  open_risks : list string;
  snap_control_mode : Session.ControlMode;
  safe_pause_state : SafePauseState;
  host_trust_posture : Trust.TrustPosture;
  environment_trust_posture : Trust.TrustPosture;
  edge_transport_state : EdgeTransportHealth;
  active_controller_id : option string;
  last_controller_verdict : option VerifierVerdict;
  last_failure : option RuntimeFailureKind;
  updated_at : DateTime;
}.

Definition snapshot_can_execute_physical (self : SessionSnapshot) : bool :=
  is_fresh (telemetry_freshness self) && is_fresh (spatial_freshness self) && negb (is_paused (safe_pause_state self)) &&
  bool_decide (pending_blocker self = None).

(** ** memory.rs and roz-db/skills.rs *)

Inductive MemoryClass : Type := MemSession | MemTask | MemProcedure | MemEnvironment | MemOperator | MemSafety.
Inductive MemorySourceKind : Type := SrcObservation | OperatorStated | VerifierConfirmed.
Inductive Confidence : Type := ConfLow | ConfMedium | ConfHigh.

Record MemoryEntry : Type := {
  memory_id : string;
  mem_class : MemoryClass;
  scope_key : string;
  fact : string;
  source_kind : MemorySourceKind;
  source_ref : option string;
  confidence : Confidence;
  mem_verified : bool;
  stale_after : option DateTime;
  mem_created_at : DateTime;
  mem_updated_at : DateTime;
}.

Definition debug_confidence (c : Confidence) : string :=
  match c with ConfLow => "Low" | ConfMedium => "Medium" | ConfHigh => "High" end.

Record SkillSummary : Type := {
  sk_name : string;
  sk_version : string;
  sk_description : string;
  sk_created_at : DateTime;
  sk_created_by : string;
}.

(** ** prompt_assembler.rs *)

Module Prompt.

Record SystemBlock : Type := { label : string; content : string }.

Record ToolSchema : Type := { name : string; description : string; parameters_json : string }.

Record AssemblyContext : Type := {
  mode : AgentLoopMode;
  snapshot : option SessionSnapshot;
  spatial_context : option (WorldState json);
  tool_schemas : list ToolSchema;
  trust_posture : Trust.TrustPosture;
  edge_state : EdgeTransportHealth;
  memory_entries : list MemoryEntry;
  skill_entries : list SkillSummary;
  custom_blocks : list string;
  volatile_blocks : list string;
}.

Definition lines (l : list string) : string := join_with newline l.

Definition block_constitution (constitution_text : string) : SystemBlock :=
  {| label := "constitution"; content := constitution_text |}.

Definition mode_label (m : AgentLoopMode) : string :=
  match m with
  | React => "React (pure reasoning + tools, no spatial observation)"
  | OodaReAct => "OodaReAct (spatial observation injected each cycle, safety stack active)"
  end.

Definition block_tool_catalog (ctx : AssemblyContext) : SystemBlock := {|
  label := "tool_catalog";
  content := lines
    (["## Tool Catalog"; "Mode: " +:+ mode_label (mode ctx); ""] ++
     match tool_schemas ctx with
     | [] => ["(no tools registered for this turn)"]
     | l => map (fun s => "- **" +:+ name s +:+ "**: " +:+ description s) l
     end)%list |}.

Definition block_custom_context (ctx : AssemblyContext) : SystemBlock :=
  {| label := "blueprint_context"; content := join_with (newline +:+ newline) (custom_blocks ctx) |}.

Definition debug_bool (b : bool) : string := if b then "true" else "false".

Definition memory_line (e : MemoryEntry) : string :=
  "- [" +:+ memory_id e +:+ " | verified=" +:+ debug_bool (mem_verified e) +:+ " | confidence=" +:+
  debug_confidence (confidence e) +:+ "] " +:+ fact e.

Definition block_memory_context (ctx : AssemblyContext) : SystemBlock := {|
  label := "memory_context";
  content := match memory_entries ctx with [] => "" | l => lines ("## Memory Context" :: map memory_line l) end |}.

Definition MAX_BLOCK_BYTES : Z := 3072.
Definition MAX_SKILLS : nat := 20.
Definition MAX_DESC_CHARS : Z := 140.

Definition SKILLS_HEADER : string :=
  "## Skills (tier-0 listing — call `skill_view` to load body)" +:+ newline +:+ newline.

(** [chars().take(n)] *)
Definition take_chars (n : Z) (s : string) : string :=
  match char_index n s with Some i => take_front i s | None => s end.

Definition skill_desc (d : string) : string :=
  if MAX_DESC_CHARS <? chars_count d then take_chars MAX_DESC_CHARS d +:+ "..." else d.

Definition skill_line (s : SkillSummary) : string :=
  "- " +:+ sk_name s +:+ " v" +:+ sk_version s +:+ ": " +:+ skill_desc (sk_description s) +:+ newline.

(** The loop: the first line that does not fit ends the list. *)
Fixpoint skill_lines (skills : list SkillSummary) (content : string) : string :=
  match skills with
  | [] => content
  | s :: skills =>
      if MAX_BLOCK_BYTES <? str_len content + str_len (skill_line s) then content
      else skill_lines skills (content +:+ skill_line s)
  end.

Definition block_skills_context (ctx : AssemblyContext) : SystemBlock := {|
  label := "skills_context";
  content :=
    match skill_entries ctx with
    | [] => SKILLS_HEADER +:+ "(no skills installed for this tenant)" +:+ newline
    | l => skill_lines (take MAX_SKILLS l) SKILLS_HEADER
    end |}.

Section Volatile.
(** [Debug] texts derived for values with times and payloads. *)
Context (debug_verdict : VerifierVerdict -> string) (debug_freshness : FreshnessState -> string) (debug_alert : Alert -> string).

Definition opt_line (prefix : string) (o : option string) : list string :=
  match o with Some t => [prefix +:+ t] | None => [] end.

Definition snapshot_lines (snap : SessionSnapshot) : list string :=
  (["## Session State"; "Turn: " +:+ pretty (snap_turn_index snap);
    "Can execute physical: " +:+ debug_bool (snapshot_can_execute_physical snap);
    "Control mode: " +:+ Session.debug_control_mode (snap_control_mode snap)] ++
   opt_line "Current goal: " (current_goal snap) ++
   opt_line "Current phase: " (snap_current_phase snap) ++
   opt_line "Next expected step: " (next_expected_step snap) ++
   opt_line "Last approved physical action: " (last_approved_physical_action snap) ++
   opt_line "Active controller: " (active_controller_id snap) ++
   opt_line "Last controller verdict: " (debug_verdict <$> last_controller_verdict snap) ++
   opt_line "Last verifier result: " (debug_verdict <$> last_verifier_result snap) ++
   opt_line "BLOCKER: " (pending_blocker snap) ++
   match open_risks snap with [] => [] | l => ["Open risks: " +:+ join_with "; " l] end ++
   opt_line "Last failure: " (failure_name <$> last_failure snap) ++
   ["Freshness: telemetry=" +:+ debug_freshness (telemetry_freshness snap) +:+
    ", spatial=" +:+ debug_freshness (spatial_freshness snap)])%list.

Definition debug_level (l : Trust.TrustLevel) : string :=
  match l with Trust.Untrusted => "Untrusted" | Trust.Low => "Low" | Trust.Medium => "Medium" | Trust.High => "High" | Trust.Verified => "Verified" end.

Definition trust_lines (p : Trust.TrustPosture) : list string :=
  (["" ; "## Trust Posture";
    "Physical execution: " +:+ debug_level (Trust.physical_execution_trust p) +:+
    " | Host: " +:+ debug_level (Trust.host_trust p) +:+
    " | Environment: " +:+ debug_level (Trust.environment_trust p) +:+
    " | Tool: " +:+ debug_level (Trust.tool_trust p);
    "Controller artifact: " +:+ debug_level (Trust.controller_artifact_trust p) +:+
    " | Edge transport: " +:+ debug_level (Trust.edge_transport_trust p)] ++
   (if negb (Trust.can_execute_physical p) then ["WARNING: Physical execution trust is below threshold."] else []))%list.

Definition edge_lines (e : EdgeTransportHealth) : list string :=
  [""; "## Edge Transport";
   match e with
   | Healthy => "Status: Healthy"
   | EdgeDegraded affected => "Status: Degraded (affected: " +:+ join_with ", " affected +:+ ")"
   | Disconnected => "Status: DISCONNECTED — physical actions will be blocked."
   end].

Definition spatial_lines (w : WorldState json) : list string :=
  ([""; "## Spatial Context"; "Entities observed: " +:+ pretty (length (entities w))] ++
   match alerts w with
   | [] => []
   | l => ("Active alerts: " +:+ pretty (length l)) :: map (fun a => "  - " +:+ debug_alert a) l
   end ++
   match occluded_regions _ w with [] => [] | l => ["Occluded regions: " +:+ pretty (length l)] end)%list.

Definition block_volatile_context (ctx : AssemblyContext) : SystemBlock := {|
  label := "volatile_context";
  content := lines
    (from_option snapshot_lines [] (snapshot ctx) ++ trust_lines (trust_posture ctx) ++ edge_lines (edge_state ctx) ++
     from_option spatial_lines [] (spatial_context ctx) ++
     match volatile_blocks ctx with [] => [] | l => "" :: "## Turn Context" :: l end)%list |}.

Definition assemble (constitution_text : string) (ctx : AssemblyContext) : list SystemBlock :=
  [block_constitution constitution_text; block_memory_context ctx; block_skills_context ctx;
   block_tool_catalog ctx; block_custom_context ctx; block_volatile_context ctx].

End Volatile.

(** The listing of skills stays within its budget. *)
Lemma str_len_app a b : str_len (a +:+ b) = str_len a + str_len b.
Proof. unfold str_len. rewrite str_app_length. lia. Qed.

Lemma skill_lines_bounded skills : forall content, str_len content <= MAX_BLOCK_BYTES ->
  str_len (skill_lines skills content) <= MAX_BLOCK_BYTES.
Proof.
  induction skills as [|s skills IH]; intros content Hc; simpl; [done|].
  destruct (Z.ltb_spec MAX_BLOCK_BYTES (str_len content + str_len (skill_line s))); [done|].
  apply IH. rewrite str_len_app. lia.
Qed.

End Prompt.
