(* ===== verification/SessionRuntime.v ===== *)
(** * The session runtime

    roz-agent/session_runtime: state.rs (the state, its portable bootstrap, the staging of
    prompt context), events.rs (the event stream) and mod.rs (the operations surfaces call:
    starting, turns plain and streamed, failures and safe pause, completion, the
    synchronisation of stable state), with the checkpoint functions of
    roz-worker/session_relay.rs.  What an executor returns and sends, the clock and the texts
    of other formats are arguments. *)

From S2P Require Import Prelude Float64 RustStr Json Deployment SafetyFilter Guards Approvals Context Policy Dispatch ModelCalls SessionData.

#[export] Instance SessionPermissionRule_eq_dec : EqDecision SessionPermissionRule.
Proof. solve_decision. Defined.

#[export] Existing Instance Trust.TrustPosture_eq_dec.

#[export] Instance FreshnessState_eq_dec : EqDecision FreshnessState.
Proof. solve_decision. Defined.

(** ** state.rs *)

Record SessionConfig : Type := {
  cfg_session_id : string;
  cfg_tenant_id : string;
  cfg_mode : SessionMode;
  cfg_cognition_mode : AgentLoopMode;
  cfg_constitution_text : string;
  blueprint_toml : string;
  cfg_model_name : option string;
  cfg_permissions : list SessionPermissionRule;
  cfg_tool_schemas : list Prompt.ToolSchema;
  cfg_project_context : list string;
  initial_history : list Message;
}.

Record TurnPromptStaging : Type := { pending_system_context : option string }.

Definition no_staging : TurnPromptStaging := {| pending_system_context := None |}.

Definition stage_system_context (system_context : option string) (self : TurnPromptStaging) : TurnPromptStaging :=
  match system_context with Some t => {| pending_system_context := Some t |} | None => self end.

Definition non_blank (t : string) : list string := let t := trim t in if String.eqb t "" then [] else [t].

Definition take_turn_custom_context (inline_system_context : option string) (self : TurnPromptStaging)
    : list string * TurnPromptStaging :=
  match inline_system_context with
  | Some t => (non_blank t, self)
  | None => (from_option non_blank [] (pending_system_context self), no_staging)
  end.

Definition consume_for_forwarded_turn (inline_system_context : option string) (self : TurnPromptStaging) : TurnPromptStaging :=
  (take_turn_custom_context inline_system_context self).2.

Record PendingApprovalState : Type := {
  approval_id : string;
  action : string;
  pa_reason : message;
  timeout_secs : Z;
}.

Record ActiveControllerState : Type := {
  ac_controller_id : string;
  ac_deployment_state : DeploymentState;
  ac_promoted_at : option DateTime;
}.

(** The fields of the state, by what they are about. *)
Record Identity : Type := {
  session_id : string;
  session_tenant : string;
  session_mode : SessionMode;
  blueprint_version : string;
  session_model : option string;
  started_at : DateTime;
}.

Record Surface : Type := {
  cognition_mode : AgentLoopMode;
  constitution_text : string;
  tool_schemas : list Prompt.ToolSchema;
  project_context : list string;
  permissions : list SessionPermissionRule;
}.

Record Status : Type := {
  activity : RuntimeActivity;
  safe_pause_of : SafePauseState;
  failure : option RuntimeFailureKind;
  turn_index : Z;
  started : bool;
  completed : bool;
}.

Record Surroundings : Type := {
  control_mode : Session.ControlMode;
  trust : Trust.TrustPosture;
  edge_state : EdgeTransportHealth;
  world_state : option (WorldState json);
  world_state_note : option string;
  active_controller : option ActiveControllerState;
}.

Record FrozenMemory : Type := {
  memory_scope_key : string;
  memory_subject_id : option string;
  memory_snapshot : list MemoryEntry;
  skill_snapshot : list SkillSummary;
}.

Record SessionState : Type := {
  identity : Identity;
  surface : Surface;
  status : Status;
  surroundings : Surroundings;
  memory : FrozenMemory;
  pending_approvals : list PendingApprovalState;
  snapshot : SessionSnapshot;
  messages : list Message;
}.

Record SessionRuntimeBootstrap : Type := {
  b_identity : Identity;
  b_surface : Surface;
  b_status : Status;
  b_surroundings : Surroundings;
  b_pending_approvals : list PendingApprovalState;
  b_snapshot : SessionSnapshot;
  b_history : list Message;
  b_turn_prompt_staging : TurnPromptStaging;
}.

Definition no_memory : FrozenMemory :=
  {| memory_scope_key := "agent"; memory_subject_id := None; memory_snapshot := []; skill_snapshot := [] |}.

(** [SessionState::new]: [parse_blueprint] reads the schema version of a blueprint. *)
Definition new_snapshot (session_id : string) (now : DateTime) : SessionSnapshot := {|
  snap_session_id := session_id; snap_turn_index := 0; current_goal := None; snap_current_phase := None;
  next_expected_step := None; last_approved_physical_action := None; last_verifier_result := None;
  telemetry_freshness := UnknownFreshness; spatial_freshness := UnknownFreshness; pending_blocker := None; open_risks := [];
  snap_control_mode := Session.Autonomous; safe_pause_state := Running;
  host_trust_posture := Trust.default_posture; environment_trust_posture := Trust.default_posture;
  edge_transport_state := Healthy; active_controller_id := None; last_controller_verdict := None; last_failure := None;
  updated_at := now |}.

Definition new_state (parse_blueprint : string -> option string) (now : DateTime) (config : SessionConfig) : SessionState := {|
  identity := {| session_id := cfg_session_id config; session_tenant := cfg_tenant_id config; session_mode := cfg_mode config;
                 blueprint_version := default "unknown" (parse_blueprint (blueprint_toml config));
                 session_model := cfg_model_name config; started_at := now |};
  surface := {| cognition_mode := cfg_cognition_mode config; constitution_text := cfg_constitution_text config;
                tool_schemas := cfg_tool_schemas config; project_context := cfg_project_context config;
                permissions := cfg_permissions config |};
  status := {| activity := ActIdle; safe_pause_of := Running; failure := None; turn_index := 0; started := false;
               completed := false |};
  surroundings := {| control_mode := Session.Autonomous; trust := Trust.default_posture; edge_state := Healthy;
                     world_state := None; world_state_note := None; active_controller := None |};
  memory := no_memory;
  pending_approvals := [];
  snapshot := new_snapshot (cfg_session_id config) now;
  messages := initial_history config |}.

(** *** Updates of the state *)

Definition set_surface (x : Surface) (s : SessionState) : SessionState :=
  {| identity := identity s; surface := x; status := status s; surroundings := surroundings s; memory := memory s;
     pending_approvals := pending_approvals s; snapshot := snapshot s; messages := messages s |}.
Definition set_status (x : Status) (s : SessionState) : SessionState :=
  {| identity := identity s; surface := surface s; status := x; surroundings := surroundings s; memory := memory s;
     pending_approvals := pending_approvals s; snapshot := snapshot s; messages := messages s |}.
Definition set_surroundings (x : Surroundings) (s : SessionState) : SessionState :=
  {| identity := identity s; surface := surface s; status := status s; surroundings := x; memory := memory s;
     pending_approvals := pending_approvals s; snapshot := snapshot s; messages := messages s |}.
Definition set_memory (x : FrozenMemory) (s : SessionState) : SessionState :=
  {| identity := identity s; surface := surface s; status := status s; surroundings := surroundings s; memory := x;
     pending_approvals := pending_approvals s; snapshot := snapshot s; messages := messages s |}.
Definition set_pending (x : list PendingApprovalState) (s : SessionState) : SessionState :=
  {| identity := identity s; surface := surface s; status := status s; surroundings := surroundings s; memory := memory s;
     pending_approvals := x; snapshot := snapshot s; messages := messages s |}.
Definition set_snapshot (x : SessionSnapshot) (s : SessionState) : SessionState :=
  {| identity := identity s; surface := surface s; status := status s; surroundings := surroundings s; memory := memory s;
     pending_approvals := pending_approvals s; snapshot := x; messages := messages s |}.
Definition set_messages (x : list Message) (s : SessionState) : SessionState :=
  {| identity := identity s; surface := surface s; status := status s; surroundings := surroundings s; memory := memory s;
     pending_approvals := pending_approvals s; snapshot := snapshot s; messages := x |}.

Definition set_activity (a : RuntimeActivity) (s : SessionState) : SessionState :=
  let x := status s in
  set_status {| activity := a; safe_pause_of := safe_pause_of x; failure := failure x; turn_index := turn_index x;
                started := started x; completed := completed x |} s.
Definition set_pause (p : SafePauseState) (s : SessionState) : SessionState :=
  let x := status s in
  set_status {| activity := activity x; safe_pause_of := p; failure := failure x; turn_index := turn_index x;
                started := started x; completed := completed x |} s.
Definition set_failure (f : option RuntimeFailureKind) (s : SessionState) : SessionState :=
  let x := status s in
  set_status {| activity := activity x; safe_pause_of := safe_pause_of x; failure := f; turn_index := turn_index x;
                started := started x; completed := completed x |} s.
Definition set_turn_index (i : Z) (s : SessionState) : SessionState :=
  let x := status s in
  set_status {| activity := activity x; safe_pause_of := safe_pause_of x; failure := failure x; turn_index := i;
                started := started x; completed := completed x |} s.
Definition set_started (s : SessionState) : SessionState :=
  let x := status s in
  set_status {| activity := activity x; safe_pause_of := safe_pause_of x; failure := failure x; turn_index := turn_index x;
                started := true; completed := completed x |} s.
Definition set_completed (s : SessionState) : SessionState :=
  let x := status s in
  set_status {| activity := activity x; safe_pause_of := safe_pause_of x; failure := failure x; turn_index := turn_index x;
                started := started x; completed := true |} s.

(** The fields of the snapshot that change; the others keep their first values for ever. *)
Definition put_snapshot (turn : Z) (telemetry spatial : FreshnessState) (host environment : Trust.TrustPosture)
    (edge : EdgeTransportHealth) (last : option RuntimeFailureKind) (now : DateTime) (x : SessionSnapshot) : SessionSnapshot := {|
  snap_session_id := snap_session_id x; snap_turn_index := turn; current_goal := current_goal x;
  snap_current_phase := snap_current_phase x; next_expected_step := next_expected_step x;
  last_approved_physical_action := last_approved_physical_action x; last_verifier_result := last_verifier_result x;
  telemetry_freshness := telemetry; spatial_freshness := spatial; pending_blocker := pending_blocker x; open_risks := open_risks x;
  snap_control_mode := snap_control_mode x; safe_pause_state := safe_pause_state x;
  host_trust_posture := host; environment_trust_posture := environment; edge_transport_state := edge;
  active_controller_id := active_controller_id x; last_controller_verdict := last_controller_verdict x;
  last_failure := last; updated_at := now |}.

Definition snap_touch (now : DateTime) (x : SessionSnapshot) : SessionSnapshot :=
  put_snapshot (snap_turn_index x) (telemetry_freshness x) (spatial_freshness x) (host_trust_posture x)
    (environment_trust_posture x) (edge_transport_state x) (last_failure x) now x.
Definition snap_turn (turn : Z) (x : SessionSnapshot) : SessionSnapshot :=
  put_snapshot turn (telemetry_freshness x) (spatial_freshness x) (host_trust_posture x)
    (environment_trust_posture x) (edge_transport_state x) (last_failure x) (updated_at x) x.
Definition snap_failure (f : RuntimeFailureKind) (x : SessionSnapshot) : SessionSnapshot :=
  put_snapshot (snap_turn_index x) (telemetry_freshness x) (spatial_freshness x) (host_trust_posture x)
    (environment_trust_posture x) (edge_transport_state x) (Some f) (updated_at x) x.
Definition snap_telemetry (t : FreshnessState) (x : SessionSnapshot) : SessionSnapshot :=
  put_snapshot (snap_turn_index x) t (spatial_freshness x) (host_trust_posture x)
    (environment_trust_posture x) (edge_transport_state x) (last_failure x) (updated_at x) x.
Definition snap_spatial (t : FreshnessState) (x : SessionSnapshot) : SessionSnapshot :=
  put_snapshot (snap_turn_index x) (telemetry_freshness x) t (host_trust_posture x)
    (environment_trust_posture x) (edge_transport_state x) (last_failure x) (updated_at x) x.
Definition snap_trust (t : Trust.TrustPosture) (x : SessionSnapshot) : SessionSnapshot :=
  put_snapshot (snap_turn_index x) (telemetry_freshness x) (spatial_freshness x) t t
    (edge_transport_state x) (last_failure x) (updated_at x) x.
Definition snap_edge (e : EdgeTransportHealth) (x : SessionSnapshot) : SessionSnapshot :=
  put_snapshot (snap_turn_index x) (telemetry_freshness x) (spatial_freshness x) (host_trust_posture x)
    (environment_trust_posture x) e (last_failure x) (updated_at x) x.

Definition touch (now : DateTime) (s : SessionState) : SessionState := set_snapshot (snap_touch now (snapshot s)) s.

Definition without_approval (id : string) (l : list PendingApprovalState) : list PendingApprovalState :=
  List.filter (fun p => negb (String.eqb (approval_id p) id)) l.

Definition record_pending_approval (now : DateTime) (p : PendingApprovalState) (s : SessionState) : SessionState :=
  touch now (set_pending (without_approval (approval_id p) (pending_approvals s) ++ [p])%list s).

Definition clear_pending_approval (now : DateTime) (id : string) (s : SessionState) : SessionState :=
  touch now (set_pending (without_approval id (pending_approvals s)) s).

Definition set_edge_state (e : EdgeTransportHealth) (s : SessionState) : SessionState :=
  let x := surroundings s in
  set_snapshot (snap_edge e (snapshot s))
    (set_surroundings {| control_mode := control_mode x; trust := trust x; edge_state := e; world_state := world_state x;
                         world_state_note := world_state_note x; active_controller := active_controller x |} s).

(** ** events.rs *)

Inductive EventCompactionLevel : Type := ToolClear | ThinkingStrip | LlmSummary.

(** The events this component emits. *)
Inductive SessionEvent : Type :=
| SessionStarted (session_id : string) (mode : SessionMode) (blueprint_version : string) (model_name : option string)
    (permissions : list SessionPermissionRule)
| SessionRejected (code message : string) (retryable : bool)
| TurnStarted (turn_index : Z)
| SessionCompleted (summary : string) (input_tokens output_tokens : Z)
| SessionFailed (failure : RuntimeFailureKind)
| ActivityChanged (state : RuntimeActivity) (reason : string) (robot_safe : bool) (unblock_event : option string)
| PresenceHinted (level reason : string)
| ToolCallRequested (call_id tool_name : string) (parameters : json) (timeout_ms : Z)
| EvApprovalRequested (approval_id action : string) (reason : message) (timeout_secs : Z)
| EvApprovalResolved (approval_id : string) (outcome : ApprovalOutcome)
| SafePauseEntered (reason : string) (robot_state : SafePauseState)
| ContextCompacted (level : EventCompactionLevel) (messages_affected tokens_before tokens_after : Z)
| EvTextDelta (message_id content : string)
| EvThinkingDelta (message_id content : string)
| TurnFinished (message_id : string) (input_tokens output_tokens cache_read_tokens cache_creation_tokens : Z)
    (stop_reason : string).

(** What was broadcast, each event with its correlation group: groups are numbered, for
    [CorrelationId::new()] makes a fresh one. *)
Record EventEmitter : Type := { correlation : nat; stream : list (nat * SessionEvent) }.

Definition new_emitter : EventEmitter := {| correlation := 0; stream := [] |}.
Definition emitter_emit (e : SessionEvent) (self : EventEmitter) : EventEmitter :=
  {| correlation := correlation self; stream := (stream self ++ [(correlation self, e)])%list |}.
Definition new_correlation (self : EventEmitter) : EventEmitter :=
  {| correlation := S (correlation self); stream := stream self |}.

(** ** mod.rs *)

Record TurnInput : Type := {
  user_message : string;
  turn_cognition_mode : AgentLoopMode;
  custom_context : list string;
  volatile_blocks : list string;
}.

Record TurnOutput : Type := {
  assistant_message : string;
  tool_calls_made : Z;
  to_input_tokens : Z;
  to_output_tokens : Z;
  to_cache_read_tokens : Z;
  to_cache_creation_tokens : Z;
  to_messages : list Message;
}.

Record PreparedTurn : Type := {
  pt_turn_index : Z;
  pt_cognition_mode : AgentLoopMode;
  pt_user_message : string;
  system_blocks : list Prompt.SystemBlock;
  pt_history : list Message;
}.

(** A boxed error of an executor: a [TurnExecutionFailure], or another. *)
Inductive ExecutorError : Type :=
| TurnExecutionFailure (kind : RuntimeFailureKind) (message : string) (client_code : option string) (retryable : bool)
| OtherExecutorError (text : string).

Definition error_kind (e : ExecutorError) : RuntimeFailureKind :=
  match e with TurnExecutionFailure k _ _ _ => k | OtherExecutorError _ => ModelError end.

Inductive StreamingTurnResult : Type := TurnCompleted (output : TurnOutput) | TurnCancelled.

Inductive ActiveTurnOutcome : Type :=
| Completed (messages : list Message) (reason : string)
| CancelledOutcome (reason : string)
| Failed (failure : RuntimeFailureKind).

Inductive SessionRuntimeError : Type :=
| ErrSessionPaused
| ErrSessionCompleted
| ErrSessionFailed (failure : RuntimeFailureKind)
| ErrTurnFailed (failure : RuntimeFailureKind).

Record RemoteToolCall : Type := { rtc_id : string; rtc_name : string; rtc_parameters : json; rtc_timeout_ms : Z }.

(** What a streamed turn receives from its executor before the turn is over, in the order the
    select loop and the drain after it take them from the three channels. *)
Inductive StreamItem : Type :=
| ItemChunk (c : StreamChunk)
| ItemPresence (p : PresenceSignal)
| ItemToolCall (c : RemoteToolCall).

Record SessionRuntime : Type := {
  state : SessionState;
  turn_prompt_staging : TurnPromptStaging;
  emitter : EventEmitter;
  approval_runtime : Registry;
  recovery_config : RecoveryConfig;
}.

Definition set_state (x : SessionState) (r : SessionRuntime) : SessionRuntime :=
  {| state := x; turn_prompt_staging := turn_prompt_staging r; emitter := emitter r; approval_runtime := approval_runtime r;
     recovery_config := recovery_config r |}.
Definition set_staging (x : TurnPromptStaging) (r : SessionRuntime) : SessionRuntime :=
  {| state := state r; turn_prompt_staging := x; emitter := emitter r; approval_runtime := approval_runtime r;
     recovery_config := recovery_config r |}.
Definition set_emitter (x : EventEmitter) (r : SessionRuntime) : SessionRuntime :=
  {| state := state r; turn_prompt_staging := turn_prompt_staging r; emitter := x; approval_runtime := approval_runtime r;
     recovery_config := recovery_config r |}.
Definition set_approvals (x : Registry) (r : SessionRuntime) : SessionRuntime :=
  {| state := state r; turn_prompt_staging := turn_prompt_staging r; emitter := emitter r; approval_runtime := x;
     recovery_config := recovery_config r |}.

Definition on_state (f : SessionState -> SessionState) (r : SessionRuntime) : SessionRuntime := set_state (f (state r)) r.
Definition emit (e : SessionEvent) (r : SessionRuntime) : SessionRuntime := set_emitter (emitter_emit e (emitter r)) r.
Definition emit_activity_changed (a : RuntimeActivity) (reason : string) (r : SessionRuntime) : SessionRuntime :=
  emit (ActivityChanged a reason (robot_should_be_safe a) None) r.

Section Runtime.
Context (parse_blueprint : string -> option string).
Context (debug_verdict : VerifierVerdict -> string) (debug_freshness : FreshnessState -> string) (debug_alert : Alert -> string).

Definition new_runtime (now : DateTime) (config : SessionConfig) : SessionRuntime :=
  {| state := new_state parse_blueprint now config; turn_prompt_staging := no_staging; emitter := new_emitter;
     approval_runtime := new_registry; recovery_config := default_recovery_config |}.

Definition set_skill_snapshot (skills : list SkillSummary) (r : SessionRuntime) : SessionRuntime :=
  on_state (fun s => let m := memory s in
    set_memory {| memory_scope_key := memory_scope_key m; memory_subject_id := memory_subject_id m;
                  memory_snapshot := memory_snapshot m; skill_snapshot := skills |} s) r.

(** [read] is the one read of the memory store, by the tenant's uuid: [None] for a tenant that
    is not one. *)
Definition new_with_memory_store (now : DateTime) (config : SessionConfig)
    (read : option (result (list MemoryEntry) string)) : SessionRuntime :=
  on_state (fun s => let m := memory s in
    set_memory {| memory_scope_key := memory_scope_key m; memory_subject_id := memory_subject_id m;
                  memory_snapshot := match read with Some (Ok entries) => entries | _ => [] end;
                  skill_snapshot := skill_snapshot m |} s) (new_runtime now config).

(** *** Bootstraps *)

Record SessionRuntimeBootstrapImport : Type := {
  cognition_mode_override : option AgentLoopMode;
  constitution_text_override : option string;
  blueprint_version_override : option string;
  tool_schemas_override : option (list Prompt.ToolSchema);
}.

Definition no_override : SessionRuntimeBootstrapImport :=
  {| cognition_mode_override := None; constitution_text_override := None; blueprint_version_override := None;
     tool_schemas_override := None |}.

Definition from_state_and_prompt_staging (s : SessionState) (staging : TurnPromptStaging) : SessionRuntimeBootstrap := {|
  b_identity := identity s; b_surface := surface s; b_status := status s; b_surroundings := surroundings s;
  b_pending_approvals := pending_approvals s; b_snapshot := snapshot s; b_history := messages s;
  b_turn_prompt_staging := staging |}.

Definition export_bootstrap (r : SessionRuntime) : SessionRuntimeBootstrap :=
  from_state_and_prompt_staging (state r) (turn_prompt_staging r).

Definition from_config (now : DateTime) (config : SessionConfig) : SessionRuntimeBootstrap :=
  from_state_and_prompt_staging (new_state parse_blueprint now config) no_staging.

Definition imported_config (b : SessionRuntimeBootstrap) (import : SessionRuntimeBootstrapImport) : SessionConfig := {|
  cfg_session_id := session_id (b_identity b);
  cfg_tenant_id := session_tenant (b_identity b);
  cfg_mode := session_mode (b_identity b);
  cfg_cognition_mode := default (cognition_mode (b_surface b)) (cognition_mode_override import);
  cfg_constitution_text := default (constitution_text (b_surface b)) (constitution_text_override import);
  blueprint_toml := "";
  cfg_model_name := session_model (b_identity b);
  cfg_permissions := permissions (b_surface b);
  cfg_tool_schemas := default (tool_schemas (b_surface b)) (tool_schemas_override import);
  cfg_project_context := project_context (b_surface b);
  initial_history := b_history b |}.

Definition from_bootstrap (now : DateTime) (b : SessionRuntimeBootstrap) (import : SessionRuntimeBootstrapImport)
    : SessionRuntime :=
  let r := set_staging (b_turn_prompt_staging b) (new_runtime now (imported_config b import)) in
  on_state (fun s =>
    let i := identity s in
    let s := {|
      identity := {| session_id := session_id i; session_tenant := session_tenant i; session_mode := session_mode i;
                     blueprint_version := default (blueprint_version (b_identity b)) (blueprint_version_override import);
                     session_model := session_model i; started_at := started_at (b_identity b) |};
      surface := surface s;
      status := b_status b;
      surroundings := {| control_mode := control_mode (b_surroundings b); trust := trust (b_surroundings b);
                         edge_state := edge_state (surroundings s); world_state := world_state (b_surroundings b);
                         world_state_note := world_state_note (b_surroundings b);
                         active_controller := active_controller (b_surroundings b) |};
      memory := memory s;
      pending_approvals := b_pending_approvals b;
      snapshot := b_snapshot b;
      messages := b_history b |} in
    set_edge_state (edge_state (b_surroundings b)) s) r.

(** *** Starting *)

Definition ensure_started (r : SessionRuntime) : SessionRuntime :=
  let s := state r in
  if started (status s) then r
  else
    let i := identity s in
    on_state (fun s => set_activity ActIdle (set_started s))
      (emit (SessionStarted (session_id i) (session_mode i) (blueprint_version i) (session_model i)
               (permissions (surface s))) r).

Definition ended (r : SessionRuntime) : option SessionRuntimeError :=
  let x := status (state r) in
  if completed x then Some ErrSessionCompleted else ErrSessionFailed <$> failure x.

Definition ensure_turn_can_start (r : SessionRuntime) : option SessionRuntimeError :=
  match ended r with
  | Some e => Some e
  | None => if is_paused (safe_pause_of (status (state r))) then Some ErrSessionPaused else None
  end.

Definition start_session (r : SessionRuntime) : result unit SessionRuntimeError * SessionRuntime :=
  match ended r with Some e => (Err e, r) | None => (Ok tt, ensure_started r) end.

(** *** Stable state *)

Definition sync_cognition_mode (now : DateTime) (m : AgentLoopMode) (r : SessionRuntime) : bool * SessionRuntime :=
  let x := surface (state r) in
  if decide (cognition_mode x = m) then (false, r)
  else
    (true, on_state (fun s => touch now (set_surface {| cognition_mode := m; constitution_text := constitution_text x;
       tool_schemas := tool_schemas x; project_context := project_context x; permissions := permissions x |} s)) r).

Fixpoint schemas_unchanged (l l' : list Prompt.ToolSchema) : bool :=
  match l, l' with
  | [], [] => true
  | a :: l, b :: l' =>
      String.eqb (Prompt.name a) (Prompt.name b) && String.eqb (Prompt.description a) (Prompt.description b) &&
      String.eqb (Prompt.parameters_json a) (Prompt.parameters_json b) && schemas_unchanged l l'
  | _, _ => false
  end.

Definition sync_prompt_surface (now : DateTime) (text : string) (schemas : list Prompt.ToolSchema) (ctx : list string)
    (r : SessionRuntime) : bool * SessionRuntime :=
  let x := surface (state r) in
  if String.eqb (constitution_text x) text && schemas_unchanged (tool_schemas x) schemas &&
     bool_decide (project_context x = ctx) then (false, r)
  else
    (true, on_state (fun s => touch now (set_surface {| cognition_mode := cognition_mode x; constitution_text := text;
       tool_schemas := schemas; project_context := ctx; permissions := permissions x |} s)) r).

Definition sync_prompt_state (now : DateTime) (m : AgentLoopMode) (text : string) (schemas : list Prompt.ToolSchema)
    (ctx : list string) (r : SessionRuntime) : bool * SessionRuntime :=
  let '(mode_changed, r) := sync_cognition_mode now m r in
  let '(prompt_changed, r) := sync_prompt_surface now text schemas ctx r in
  (mode_changed || prompt_changed, r).

Definition sync_permissions (now : DateTime) (l : list SessionPermissionRule) (r : SessionRuntime) : bool * SessionRuntime :=
  let x := surface (state r) in
  if decide (permissions x = l) then (false, r)
  else
    (true, on_state (fun s => touch now (set_surface {| cognition_mode := cognition_mode x;
       constitution_text := constitution_text x; tool_schemas := tool_schemas x; project_context := project_context x;
       permissions := l |} s)) r).

Definition sync_trust_posture (now : DateTime) (t : Trust.TrustPosture) (r : SessionRuntime) : bool * SessionRuntime :=
  let x := surroundings (state r) in
  if decide (trust x = t) then (false, r)
  else
    (true, on_state (fun s => touch now (set_snapshot (snap_trust t (snapshot s))
       (set_surroundings {| control_mode := control_mode x; trust := t; edge_state := edge_state x;
          world_state := world_state x; world_state_note := world_state_note x;
          active_controller := active_controller x |} s))) r).

Definition sync_telemetry_freshness (now : DateTime) (t : FreshnessState) (r : SessionRuntime) : bool * SessionRuntime :=
  if decide (telemetry_freshness (snapshot (state r)) = t) then (false, r)
  else (true, on_state (fun s => touch now (set_snapshot (snap_telemetry t (snapshot s)) s)) r).

Definition sync_world_state_with_note (now : DateTime) (w : option (WorldState json)) (note : option string)
    (r : SessionRuntime) : SessionRuntime :=
  on_state (fun s =>
    let x := surroundings s in
    let note := n ← note; head (non_blank n) in
    touch now (set_snapshot (snap_spatial (match w with Some _ => Fresh | None => UnknownFreshness end) (snapshot s))
      (set_surroundings {| control_mode := control_mode x; trust := trust x; edge_state := edge_state x; world_state := w;
         world_state_note := note; active_controller := active_controller x |} s))) r.

Definition sync_world_state (now : DateTime) (w : option (WorldState json)) (r : SessionRuntime) : SessionRuntime :=
  sync_world_state_with_note now w None r.

Definition on_staging (f : TurnPromptStaging -> TurnPromptStaging) (r : SessionRuntime) : SessionRuntime :=
  set_staging (f (turn_prompt_staging r)) r.

(** *** Compaction *)

Definition compaction_level (l : CompactionLevel) : EventCompactionLevel :=
  match l with LToolResults => ToolClear | LThinking => ThinkingStrip | LSummary => LlmSummary end.

Definition as_u32 (n : Z) : Z := if n <=? u32_max then n else u32_max.

Definition record_context_compaction (level : EventCompactionLevel) (affected before after : Z) (r : SessionRuntime) : SessionRuntime :=
  emit (ContextCompacted level affected before after) r.

Definition compact_context (to_string : json -> string) (now : DateTime) (max_context_tokens : Z) (r : SessionRuntime)
    : exec SessionRuntime :=
  let! (ms, events) := compact_escalating to_string (new_context max_context_tokens) (messages (state r)) None in
  let r := on_state (fun s => touch now (set_messages ms s)) r in
  Ret (fold_left (fun r e =>
         record_context_compaction (compaction_level (level e))
           (as_u32 (Z.of_nat (messages_before e - messages_after e))) (tokens_before e) (tokens_after e) r) events r).

(** *** Turns *)

Definition assemble_system_blocks (input : TurnInput) (r : SessionRuntime) : list Prompt.SystemBlock :=
  let s := state r in
  let note := n ← world_state_note (surroundings s); head (non_blank n) in
  Prompt.assemble debug_verdict debug_freshness debug_alert (constitution_text (surface s)) {|
    Prompt.mode := cognition_mode (surface s);
    Prompt.snapshot := Some (snapshot s);
    Prompt.spatial_context := world_state (surroundings s);
    Prompt.tool_schemas := tool_schemas (surface s);
    Prompt.trust_posture := trust (surroundings s);
    Prompt.edge_state := edge_state (surroundings s);
    Prompt.memory_entries := memory_snapshot (memory s);
    Prompt.skill_entries := skill_snapshot (memory s);
    Prompt.custom_blocks := (project_context (surface s) ++ custom_context input)%list;
    Prompt.volatile_blocks := (option_list note ++ volatile_blocks input)%list |}.

Definition turn_reason (i : Z) (what : string) : string := "turn " +:+ pretty i +:+ " " +:+ what.

Definition begin_turn (now : DateTime) (input : TurnInput) (r : SessionRuntime)
    : exec (result PreparedTurn SessionRuntimeError * SessionRuntime) :=
  match ensure_turn_can_start r with
  | Some e => Ret (Err e, r)
  | None =>
      let r := ensure_started r in
      let r := (sync_cognition_mode now (turn_cognition_mode input) r).2 in
      let! i := u32_add (turn_index (status (state r))) 1 in
      let r := on_state (fun s => set_activity Planning (set_turn_index i s)) r in
      let r := set_emitter (new_correlation (emitter r)) r in
      let r := emit (TurnStarted i) r in
      let r := emit_activity_changed Planning (turn_reason i "started") r in
      Ret (Ok {| pt_turn_index := i; pt_cognition_mode := cognition_mode (surface (state r));
                 pt_user_message := user_message input; system_blocks := assemble_system_blocks input r;
                 pt_history := messages (state r) |}, r)
  end.

Definition clear_turn_approvals (now : DateTime) (r : SessionRuntime) : SessionRuntime :=
  let r := on_state (set_pending []) r in
  on_state (touch now) (set_approvals (clear_pending_approvals (approval_runtime r)) r).

Definition rest_after_turn (now : DateTime) (reason : string) (r : SessionRuntime) : SessionRuntime :=
  let r := clear_turn_approvals now r in
  let r := on_state (fun s => set_activity ActIdle
             (touch now (set_snapshot (snap_turn (turn_index (status s)) (snapshot s)) s))) r in
  emit_activity_changed ActIdle reason r.

Definition complete_active_turn (now : DateTime) (reason : string) (r : SessionRuntime) : SessionRuntime :=
  rest_after_turn now reason r.
Definition complete_active_turn_with_history (now : DateTime) (ms : list Message) (reason : string) (r : SessionRuntime)
    : SessionRuntime := complete_active_turn now reason (on_state (set_messages ms) r).
Definition cancel_active_turn (now : DateTime) (reason : string) (r : SessionRuntime) : SessionRuntime :=
  rest_after_turn now reason r.
Definition fail_active_turn (now : DateTime) (f : RuntimeFailureKind) (r : SessionRuntime) : SessionRuntime :=
  let r := clear_turn_approvals now r in
  let r := on_state (fun s => touch now (set_snapshot (snap_failure f (snapshot s))
             (set_activity ActDegraded (set_failure (Some f) s)))) r in
  emit (SessionFailed f) r.

Definition finish_active_turn (now : DateTime) (o : ActiveTurnOutcome) (r : SessionRuntime) : SessionRuntime :=
  match o with
  | Completed ms reason => complete_active_turn_with_history now ms reason r
  | CancelledOutcome reason => cancel_active_turn now reason r
  | Failed f => fail_active_turn now f r
  end.

Definition handle_failure (f : RuntimeFailureKind) (r : SessionRuntime) : RecoveryAction * SessionRuntime :=
  let action := recovery_action_for f (recovery_config r) in
  let r :=
    if safe_pause action then
      let pause := Paused (failure_name f) f
        {| rr_requires_reobserve := requires_reobserve action; rr_requires_reapproval := requires_reapproval action;
           rr_requires_reverification := false; rr_summary := notes action |} in
      emit (SafePauseEntered (failure_name f) pause)
        (on_state (fun s => set_pause pause (set_activity PausedSafe s)) r)
    else r in
  let r := if terminal action then emit (SessionFailed f) (on_state (set_failure (Some f)) r) else r in
  (action, r).

Definition handle_turn_failure (now : DateTime) (f : RuntimeFailureKind) (r : SessionRuntime)
    : SessionRuntimeError * SessionRuntime :=
  let '(action, r) := handle_failure f r in
  let r := clear_turn_approvals now r in
  let r := on_state (fun s => set_snapshot (snap_turn (turn_index (status s)) (snapshot s)) s) r in
  if terminal action then
    let r := on_state (fun s => touch now (set_snapshot (snap_failure f (snapshot s)) s)) r in
    (ErrSessionFailed f, if negb (safe_pause action) then on_state (set_activity ActDegraded) r else r)
  else if negb (safe_pause action) then
    let r := on_state (set_activity ActIdle) r in
    (ErrTurnFailed f, emit_activity_changed ActIdle (turn_reason (turn_index (status (state r))) "failed") r)
  else (ErrTurnFailed f, r).

Definition finished_event (message_id : string) (o : TurnOutput) : SessionEvent :=
  TurnFinished message_id (as_u32 (to_input_tokens o)) (as_u32 (to_output_tokens o)) (as_u32 (to_cache_read_tokens o))
    (as_u32 (to_cache_creation_tokens o)) "end_turn".

(** A plain turn; [ops] is what the executor and the operators do to the approvals meanwhile. *)
Definition run_turn (now : DateTime) (fresh_id : string) (input : TurnInput) (ops : list registry_op)
    (execute : PreparedTurn -> result TurnOutput ExecutorError) (r : SessionRuntime)
    : exec (result TurnOutput SessionRuntimeError * SessionRuntime) :=
  let! (prepared, r) := begin_turn now input r in
  match prepared with
  | Err e => Ret (Err e, r)
  | Ok prepared =>
      let r := set_approvals (fold_left apply_op ops (approval_runtime r)) r in
      match execute prepared with
      | Err e => let '(err, r) := handle_turn_failure now (error_kind e) r in Ret (Err err, r)
      | Ok output =>
          let r := if String.eqb (assistant_message output) "" then r else emit (EvTextDelta fresh_id (assistant_message output)) r in
          let r := emit (finished_event fresh_id output) r in
          Ret (Ok output, finish_active_turn now
            (Completed (to_messages output) (turn_reason (pt_turn_index prepared) "completed")) r)
      end
  end.

Definition activity_state_from_signal (a : ActivityState) : RuntimeActivity :=
  match a with
  | Thinking => Planning | CallingTool => ActCallingTool | Idle => ActIdle | WaitingApproval => AwaitingApproval
  end.

Definition emit_stream_chunk (message_id : string) (c : StreamChunk) (r : SessionRuntime) : SessionRuntime :=
  match c with
  | TextDelta t => emit (EvTextDelta message_id t) r
  | ThinkingDelta t => emit (EvThinkingDelta message_id t) r
  | _ => r
  end.

Definition emit_presence_signal (now : DateTime) (p : PresenceSignal) (r : SessionRuntime) : SessionRuntime :=
  match p with
  | PresenceHint level reason => emit (PresenceHinted (presence_level_as_str level) reason) r
  | ActivityUpdate a detail _ =>
      let a := activity_state_from_signal a in
      emit_activity_changed a detail (on_state (set_activity a) r)
  | ApprovalRequested id act reason t =>
      emit (EvApprovalRequested id act reason t)
        (on_state (record_pending_approval now {| approval_id := id; action := act; pa_reason := reason; timeout_secs := t |}) r)
  | ApprovalResolved id outcome => emit (EvApprovalResolved id outcome) (on_state (clear_pending_approval now id) r)
  end.

Definition emit_item (now : DateTime) (message_id : string) (r : SessionRuntime) (i : StreamItem) : SessionRuntime :=
  match i with
  | ItemChunk c => emit_stream_chunk message_id c r
  | ItemPresence p => emit_presence_signal now p r
  | ItemToolCall c => emit (ToolCallRequested (rtc_id c) (rtc_name c) (rtc_parameters c) (rtc_timeout_ms c)) r
  end.

Definition run_turn_streaming (now : DateTime) (fresh_id : string) (input : TurnInput) (message_id : option string)
    (ops : list registry_op) (execute : PreparedTurn -> list StreamItem * result TurnOutput ExecutorError) (r : SessionRuntime)
    : exec (result StreamingTurnResult SessionRuntimeError * SessionRuntime) :=
  let! (prepared, r) := begin_turn now input r in
  match prepared with
  | Err e => Ret (Err e, r)
  | Ok prepared =>
      let message_id := default fresh_id message_id in
      let '(items, res) := execute prepared in
      let r := set_approvals (fold_left apply_op ops (approval_runtime r)) r in
      let r := fold_left (emit_item now message_id) items r in
      match res with
      | Ok output =>
          let r := emit (finished_event message_id output) r in
          Ret (Ok (TurnCompleted output), finish_active_turn now
            (Completed (to_messages output) (turn_reason (pt_turn_index prepared) "completed")) r)
      | Err e =>
          if decide (error_kind e = OperatorAbort) then
            let r := emit (TurnFinished message_id 0 0 0 0 "cancelled") r in
            Ret (Ok TurnCancelled,
                 finish_active_turn now (CancelledOutcome (turn_reason (pt_turn_index prepared) "cancelled")) r)
          else
            let r := match e with
                     | TurnExecutionFailure _ text (Some code) retryable => emit (SessionRejected code text retryable) r
                     | _ => r
                     end in
            let '(err, r) := handle_turn_failure now (error_kind e) r in Ret (Err err, r)
      end
  end.

(** *** The end of a session *)

Definition complete_session (now : DateTime) (summary : string) (r : SessionRuntime)
    : result unit SessionRuntimeError * SessionRuntime :=
  match ended r with
  | Some e => (Err e, r)
  | None =>
      (Ok tt, emit (SessionCompleted summary 0 0)
         (on_state (fun s => touch now (set_snapshot (snap_turn (turn_index (status s)) (snapshot s))
            (set_activity ActIdle (set_completed s)))) r))
  end.

Definition fail_session (now : DateTime) (f : RuntimeFailureKind) (r : SessionRuntime)
    : result unit SessionRuntimeError * SessionRuntime :=
  match ended r with Some e => (Err e, r) | None => (Ok tt, fail_active_turn now f r) end.

(** *** roz-worker/session_relay.rs: the checkpoint kept beside a running turn *)

Definition apply_runtime_event_to_checkpoint (b : SessionRuntimeBootstrap) (e : SessionEvent) : SessionRuntimeBootstrap :=
  let with_pending l := {| b_identity := b_identity b; b_surface := b_surface b; b_status := b_status b;
    b_surroundings := b_surroundings b; b_pending_approvals := l; b_snapshot := b_snapshot b; b_history := b_history b;
    b_turn_prompt_staging := b_turn_prompt_staging b |} in
  match e with
  | ActivityChanged a _ _ _ =>
      let x := b_status b in
      {| b_identity := b_identity b; b_surface := b_surface b;
         b_status := {| activity := a; safe_pause_of := safe_pause_of x; failure := failure x; turn_index := turn_index x;
                        started := started x; completed := completed x |};
         b_surroundings := b_surroundings b; b_pending_approvals := b_pending_approvals b; b_snapshot := b_snapshot b;
         b_history := b_history b; b_turn_prompt_staging := b_turn_prompt_staging b |}
  | EvApprovalRequested id act reason t =>
      with_pending (without_approval id (b_pending_approvals b) ++
        [{| approval_id := id; action := act; pa_reason := reason; timeout_secs := t |}])%list
  | EvApprovalResolved id _ => with_pending (without_approval id (b_pending_approvals b))
  | _ => b
  end.

Definition runtime_error_event (debug_failure : RuntimeFailureKind -> string) (e : SessionRuntimeError) : option SessionEvent :=
  match e with
  | ErrSessionPaused => Some (SessionRejected "session_paused" "session is paused" false)
  | ErrSessionCompleted => Some (SessionRejected "session_completed" "session already completed" false)
  | ErrTurnFailed f =>
      Some (SessionRejected "turn_failed" ("turn failed: " +:+ debug_failure f)
              (retry (recovery_action_for f default_recovery_config)))
  | ErrSessionFailed _ => None
  end.

End Runtime.

(** ** The session as a sequence of operations *)

Section Sessions.
Context (debug_verdict : VerifierVerdict -> string) (debug_freshness : FreshnessState -> string) (debug_alert : Alert -> string).
Context (to_string : json -> string).

(** What the surfaces call. *)
Inductive op : Type :=
| OpStart
| OpTurn (now : DateTime) (fresh_id : string) (input : TurnInput) (ops : list registry_op)
    (execute : PreparedTurn -> result TurnOutput ExecutorError)
| OpStreamTurn (now : DateTime) (fresh_id : string) (input : TurnInput) (message_id : option string) (ops : list registry_op)
    (execute : PreparedTurn -> list StreamItem * result TurnOutput ExecutorError)
| OpComplete (now : DateTime) (summary : string)
| OpFail (now : DateTime) (f : RuntimeFailureKind)
| OpFailure (f : RuntimeFailureKind)
| OpCognition (now : DateTime) (m : AgentLoopMode)
| OpSurface (now : DateTime) (text : string) (schemas : list Prompt.ToolSchema) (ctx : list string)
| OpPermissions (now : DateTime) (l : list SessionPermissionRule)
| OpTrust (now : DateTime) (t : Trust.TrustPosture)
| OpTelemetry (now : DateTime) (t : FreshnessState)
| OpWorld (now : DateTime) (w : option (WorldState json)) (note : option string)
| OpStage (system_context : option string)
| OpTake (inline_system_context : option string)
| OpSkills (skills : list SkillSummary)
| OpCompact (now : DateTime) (max_context_tokens : Z)
| OpApproval (o : registry_op).

#[local] Notation turn := (run_turn debug_verdict debug_freshness debug_alert).
#[local] Notation streamed := (run_turn_streaming debug_verdict debug_freshness debug_alert).

Definition apply (o : op) (r : SessionRuntime) : exec SessionRuntime :=
  match o with
  | OpStart => Ret (start_session r).2
  | OpTurn now id input ops execute => let! x := turn now id input ops execute r in Ret x.2
  | OpStreamTurn now id input mid ops execute => let! x := streamed now id input mid ops execute r in Ret x.2
  | OpComplete now summary => Ret (complete_session now summary r).2
  | OpFail now f => Ret (fail_session now f r).2
  | OpFailure f => Ret (handle_failure f r).2
  | OpCognition now m => Ret (sync_cognition_mode now m r).2
  | OpSurface now text schemas ctx => Ret (sync_prompt_surface now text schemas ctx r).2
  | OpPermissions now l => Ret (sync_permissions now l r).2
  | OpTrust now t => Ret (sync_trust_posture now t r).2
  | OpTelemetry now t => Ret (sync_telemetry_freshness now t r).2
  | OpWorld now w note => Ret (sync_world_state_with_note now w note r)
  | OpStage c => Ret (on_staging (stage_system_context c) r)
  | OpTake c => Ret (on_staging (fun s => (take_turn_custom_context c s).2) r)
  | OpSkills skills => Ret (set_skill_snapshot skills r)
  | OpCompact now n => compact_context to_string now n r
  | OpApproval o => Ret (set_approvals (apply_op (approval_runtime r) o) r)
  end.

Fixpoint run_ops (os : list op) (r : SessionRuntime) : exec SessionRuntime :=
  match os with [] => Ret r | o :: os => let! r := apply o r in run_ops os r end.

Definition events (r : SessionRuntime) : list SessionEvent := map snd (stream (emitter r)).

(** After these no turn starts. *)
Definition ends_turns (e : SessionEvent) : bool :=
  match e with SessionCompleted _ _ _ | SessionFailed _ | SafePauseEntered _ _ => true | _ => false end.

Definition started_turn (e : SessionEvent) : option Z := match e with TurnStarted i => Some i | _ => None end.
Definition is_session_start (e : SessionEvent) : bool := match e with SessionStarted _ _ _ _ _ => true | _ => false end.

(** An event that is none of those. *)
Definition plain (e : SessionEvent) : Prop :=
  ends_turns e = false /\ started_turn e = None /\ is_session_start e = false.

(** *** Steps that only emit plain events *)

Definition same_flags (x y : Status) : Prop :=
  safe_pause_of y = safe_pause_of x /\ failure y = failure x /\ turn_index y = turn_index x /\ started y = started x /\
  completed y = completed x.

Definition edge_synced (r : SessionRuntime) : Prop :=
  edge_transport_state (snapshot (state r)) = edge_state (surroundings (state r)).

Record quiet (r r' : SessionRuntime) : Prop := {
  q_events : exists es, events r' = (events r ++ es)%list /\ Forall plain es;
  q_flags : same_flags (status (state r)) (status (state r'));
  q_edge : edge_synced r -> edge_synced r';
}.

Lemma quiet_refl r : quiet r r.
Proof. split; [exists []; by rewrite app_nil_r|by split_and!|done]. Qed.

Lemma quiet_trans r1 r2 r3 : quiet r1 r2 -> quiet r2 r3 -> quiet r1 r3.
Proof.
  intros [(e1 & E1 & P1) (? & ? & ? & ? & ?) S1] [(e2 & E2 & P2) (? & ? & ? & ? & ?) S2]. split.
  - exists (e1 ++ e2)%list. rewrite E2, E1, app_assoc. split; [done|]. by apply Forall_app.
  - split_and!; congruence.
  - auto.
Qed.

Lemma quiet_state f r : same_flags (status (state r)) (status (f (state r))) ->
  (edge_synced r -> edge_synced (on_state f r)) -> quiet r (on_state f r).
Proof. intros Hf He. split; [exists []; by rewrite app_nil_r|exact Hf|exact He]. Qed.

Lemma quiet_emit e r : plain e -> quiet r (emit e r).
Proof.
  intros He. split; [|by split_and!|done]. exists [e]. split; [|by constructor].
  unfold events, emit. simpl. by rewrite map_app.
Qed.

Ltac quiet_on_state := apply quiet_state; [by split_and!|by intros ?].

Lemma quiet_activity a reason r : quiet r (emit_activity_changed a reason (on_state (set_activity a) r)).
Proof. eapply quiet_trans; [|apply quiet_emit; by split_and!]. quiet_on_state. Qed.

Lemma quiet_emit_activity a reason r : quiet r (emit_activity_changed a reason r).
Proof. apply quiet_emit. by split_and!. Qed.

Lemma quiet_item now id r i : quiet r (emit_item now id r i).
Proof.
  destruct i as [[]|[]|]; simpl; try apply quiet_refl; try (by apply quiet_emit; split_and!).
  - apply quiet_activity.
  - eapply quiet_trans; [|apply quiet_emit; by split_and!]. quiet_on_state.
  - eapply quiet_trans; [|apply quiet_emit; by split_and!]. quiet_on_state.
Qed.

Lemma quiet_items now id items : forall r, quiet r (fold_left (emit_item now id) items r).
Proof.
  induction items as [|i items IH]; intros r; simpl; [apply quiet_refl|].
  eapply quiet_trans; [apply quiet_item|apply IH].
Qed.

Lemma quiet_set_approvals x r : quiet r (set_approvals x r).
Proof. split; [exists []; by rewrite app_nil_r|by split_and!|done]. Qed.

Lemma quiet_set_staging x r : quiet r (set_staging x r).
Proof. split; [exists []; by rewrite app_nil_r|by split_and!|done]. Qed.

Lemma quiet_clear now r : quiet r (clear_turn_approvals now r).
Proof.
  unfold clear_turn_approvals. eapply quiet_trans; [|quiet_on_state].
  eapply quiet_trans; [|apply quiet_set_approvals]. quiet_on_state.
Qed.

Lemma quiet_rest now reason r : quiet r (rest_after_turn now reason r).
Proof.
  unfold rest_after_turn. eapply quiet_trans; [apply quiet_clear|].
  eapply quiet_trans; [|apply quiet_emit_activity]. quiet_on_state.
Qed.

Lemma quiet_sync_cognition now m r : quiet r (sync_cognition_mode now m r).2.
Proof. unfold sync_cognition_mode. case_decide; [apply quiet_refl|]. quiet_on_state. Qed.

(** The operations that neither start nor end anything. *)
Definition silent_op (o : op) : bool :=
  match o with
  | OpStart | OpTurn _ _ _ _ _ | OpStreamTurn _ _ _ _ _ _ | OpComplete _ _ | OpFail _ _ | OpFailure _ => false
  | _ => true
  end.

Lemma quiet_compactions l : forall r, quiet r (fold_left (fun r e =>
   record_context_compaction (compaction_level (level e)) (as_u32 (Z.of_nat (messages_before e - messages_after e)))
     (tokens_before e) (tokens_after e) r) l r).
Proof.
  induction l as [|e l IH]; intros r; simpl; [apply quiet_refl|].
  eapply quiet_trans; [|apply IH]. apply quiet_emit. by split_and!.
Qed.

Lemma silent_quiet o r r' : silent_op o = true -> apply o r = Ret r' -> quiet r r'.
Proof.
  destruct o; simpl; intros Ho H; try discriminate Ho; try (injection H as <-).
  - apply quiet_sync_cognition.
  - unfold sync_prompt_surface. destruct (_ && _); [apply quiet_refl|]. quiet_on_state.
  - unfold sync_permissions. case_decide; [apply quiet_refl|]. quiet_on_state.
  - unfold sync_trust_posture. case_decide; [apply quiet_refl|]. quiet_on_state.
  - unfold sync_telemetry_freshness. case_decide; [apply quiet_refl|]. quiet_on_state.
  - quiet_on_state.
  - apply quiet_set_staging.
  - apply quiet_set_staging.
  - quiet_on_state.
  - apply exec_bind_ret in H as ([ms es] & _ & H). injection H as <-.
    eapply quiet_trans; [|apply quiet_compactions]. quiet_on_state.
  - apply quiet_set_approvals.
Qed.

(** *** The invariant of the event stream *)

Definition turn_numbers (es : list SessionEvent) : list Z := omap started_turn es.

Definition may_start (x : Status) : bool :=
  negb (completed x) && bool_decide (failure x = None) && negb (is_paused (safe_pause_of x)).

Lemma may_start_spec r : may_start (status (state r)) = true <-> ensure_turn_can_start r = None.
Proof.
  unfold may_start, ensure_turn_can_start, ended. destruct (completed _); [done|].
  destruct (failure _) as [f|]; simpl; [done|].
  destruct (is_paused _); simpl; naive_solver.
Qed.

(** The events of a session: those of the runtimes it was handed over from, then those of
    the runtime it is in. *)
Section Stream.
Context (past : list SessionEvent).

Record stream_ok (r : SessionRuntime) : Prop := {
  so_numbers : turn_numbers (past ++ events r) = map Z.of_nat (seq 1 (Z.to_nat (turn_index (status (state r)))));
  so_nonneg : 0 <= turn_index (status (state r));
  so_open : may_start (status (state r)) = negb (existsb ends_turns (past ++ events r));
  so_starts : length (List.filter is_session_start (past ++ events r)) = if started (status (state r)) then 1%nat else 0%nat;
  so_turns : forall before i after, (past ++ events r)%list = (before ++ TurnStarted i :: after)%list ->
    existsb ends_turns before = false /\ existsb is_session_start before = true;
  so_edge : edge_synced r;
}.

Lemma app_split {A} (l1 l2 before after : list A) x : (l1 ++ l2)%list = (before ++ x :: after)%list ->
  (exists l, l1 = (before ++ x :: l)%list) \/ (exists l, before = (l1 ++ l)%list /\ l2 = (l ++ x :: after)%list).
Proof.
  revert before. induction l1 as [|a l1 IH]; intros before H; simpl in *; [right; by exists before|].
  destruct before as [|b before]; simpl in H; injection H as -> H; [left; by exists l1|].
  destruct (IH before H) as [(l & ->)|(l & -> & ->)]; [left; by exists l|right; by exists l].
Qed.

(** Appending events of which none starts a turn. *)
Lemma append_ok r r' es : stream_ok r -> events r' = (events r ++ es)%list -> turn_numbers es = [] ->
  turn_index (status (state r')) = turn_index (status (state r)) ->
  may_start (status (state r')) = may_start (status (state r)) && negb (existsb ends_turns es) ->
  (length (List.filter is_session_start es) + (if started (status (state r)) then 1 else 0))%nat =
    (if started (status (state r')) then 1 else 0)%nat ->
  (edge_synced r -> edge_synced r') -> stream_ok r'.
Proof.
  intros [Hn H0 Ho Hs Ht Hed] Ee P1 Ft Fm Fs He. split.
  - rewrite Ee, app_assoc, Ft. unfold turn_numbers in *. by rewrite omap_app, P1, app_nil_r.
  - by rewrite Ft.
  - by rewrite Fm, Ho, Ee, app_assoc, (existsb_app _ (past ++ _)), negb_orb.
  - rewrite Ee, app_assoc, (List.filter_app _ (past ++ _)), length_app, <- Fs, Hs. lia.
  - intros before i after H. rewrite Ee, app_assoc in H. apply app_split in H as [(l & El)|(l & -> & El)]; [by eapply Ht|].
    assert (i ∈ turn_numbers es) as Hi.
    { apply list_elem_of_omap. exists (TurnStarted i). split; [|done]. rewrite El. apply elem_of_app. right. left. }
    rewrite P1 in Hi. by apply not_elem_of_nil in Hi.
  - auto.
Qed.

Lemma plain_list es : Forall plain es ->
  turn_numbers es = [] /\ existsb ends_turns es = false /\ List.filter is_session_start es = [].
Proof.
  induction 1 as [|e es (H1 & H2 & H3) _ (I1 & I2 & I3)]; simpl; [done|].
  unfold turn_numbers in *. simpl. by rewrite H1, H2, H3.
Qed.

Lemma quiet_ok r r' : quiet r r' -> stream_ok r -> stream_ok r'.
Proof.
  intros [(es & Ee & Hp) (Fp & Ff & Ft & Fs & Fc) He] Hok. destruct (plain_list es Hp) as (P1 & P2 & P3).
  apply (append_ok r r' es); try done.
  - unfold may_start. rewrite Fp, Ff, Fc, P2. by rewrite andb_true_r.
  - by rewrite P3, Fs.
Qed.

Lemma events_emit e r : events (emit e r) = (events r ++ [e])%list.
Proof. unfold events, emit. simpl. by rewrite map_app. Qed.

Lemma start_ok r : stream_ok r -> stream_ok (ensure_started r) /\ started (status (state (ensure_started r))) = true /\
  may_start (status (state (ensure_started r))) = may_start (status (state r)).
Proof.
  intros Hok. unfold ensure_started. destruct (started (status (state r))) eqn:Hs; [done|]. split; [|done].
  eapply append_ok; [exact Hok|exact (events_emit _ _)|done|done| |by rewrite Hs|done]. simpl. by rewrite andb_true_r.
Qed.

(** A turn that begins. *)
Lemma begin_cases now input r x r' :
  begin_turn debug_verdict debug_freshness debug_alert now input r = Ret (x, r') ->
  (exists e, x = Err e /\ ensure_turn_can_start r = Some e /\ r' = r) \/
  (ensure_turn_can_start r = None /\ exists p r1, x = Ok p /\ quiet (ensure_started r) r1 /\
     pt_turn_index p = turn_index (status (state r)) + 1 /\ pt_turn_index p <= u32_max /\
     messages (state r') = messages (state r) /\ approval_runtime r' = approval_runtime r /\
     pending_approvals (state r') = pending_approvals (state r) /\ recovery_config r' = recovery_config r /\
     quiet (set_emitter (emitter_emit (TurnStarted (pt_turn_index p)) (new_correlation (emitter r1)))
              (on_state (set_turn_index (pt_turn_index p)) r1)) r').
Proof.
  unfold begin_turn. destruct (ensure_turn_can_start r) as [e|]; [intros H; injection H as <- <-; left; by exists e|].
  intros H. right. split; [done|]. apply exec_bind_ret in H as (i & Hi & H).
  set (r1 := (sync_cognition_mode now (turn_cognition_mode input) (ensure_started r)).2) in *.
  assert (turn_index (status (state r1)) = turn_index (status (state r)) /\ messages (state r1) = messages (state r) /\
    approval_runtime r1 = approval_runtime r /\ pending_approvals (state r1) = pending_approvals (state r) /\
    recovery_config r1 = recovery_config r) as (Ht & Hm & Ha & Hp & Hc).
  { unfold r1, sync_cognition_mode, ensure_started. destruct (started _); by case_decide. }
  assert (i = turn_index (status (state r)) + 1 /\ i <= u32_max) as [-> Hle].
  { rewrite Ht in Hi. unfold u32_add in Hi. destruct (Z.leb_spec (turn_index (status (state r)) + 1) u32_max); [|done]. by injection Hi as <-. }
  injection H as <- <-. eexists _, r1. split; [reflexivity|]. cbn [pt_turn_index].
  split; [apply quiet_sync_cognition|]. split_and!; [done|done|exact Hm|exact Ha|exact Hp|exact Hc|].
  eapply quiet_trans; [|apply quiet_emit_activity]. split; [exists []; by rewrite app_nil_r|by split_and!|by intros ?].
Qed.

Lemma numbered_ok r i : stream_ok r -> may_start (status (state r)) = true -> started (status (state r)) = true ->
  i = turn_index (status (state r)) + 1 ->
  stream_ok (set_emitter (emitter_emit (TurnStarted i) (new_correlation (emitter r))) (on_state (set_turn_index i) r)).
Proof.
  intros [Hn H0 Ho Hs Ht Hed] Hm Hst ->. set (i := turn_index (status (state r))) in *.
  assert (events (set_emitter (emitter_emit (TurnStarted (i + 1)) (new_correlation (emitter r))) (on_state (set_turn_index (i + 1)) r)) =
    (events r ++ [TurnStarted (i + 1)])%list) as He by (unfold events; simpl; by rewrite map_app).
  split; rewrite ?He, ?app_assoc; simpl.
  - unfold turn_numbers in *. rewrite (omap_app _ (past ++ _)), Hn. simpl. replace (Z.to_nat (i + 1)) with (Z.to_nat i + 1)%nat by lia.
    rewrite seq_app, map_app. simpl. do 2 f_equal. lia.
  - lia.
  - rewrite (existsb_app _ (past ++ _)). simpl. rewrite orb_false_r. exact Ho.
  - rewrite (List.filter_app _ (past ++ _)), app_nil_r. exact Hs.
  - intros before k after H. apply app_split in H as [(l & El)|(l & -> & El)]; [by eapply Ht|].
    destruct l as [|e l]; [|by destruct l]. rewrite app_nil_r. rewrite Hm in Ho. split.
    + by destruct (existsb ends_turns (past ++ events r)).
    + rewrite Hst in Hs. apply existsb_exists. destruct (List.filter _ (past ++ events r)) as [|e es] eqn:Hf; [done|].
      exists e. apply filter_In. rewrite Hf. by left.
  - exact Hed.
Qed.

Lemma begin_ok now input r x r' :
  begin_turn debug_verdict debug_freshness debug_alert now input r = Ret (x, r') -> stream_ok r ->
  stream_ok r' /\ ((exists e, x = Err e /\ ensure_turn_can_start r = Some e /\ r' = r) \/
    (exists p, x = Ok p /\ ensure_turn_can_start r = None /\ may_start (status (state r')) = true)).
Proof.
  intros H Hok. apply begin_cases in H as [(e & -> & He & ->)|(Hc & p & r1 & -> & Hq & Hi & _ & _ & _ & _ & _ & Hq')].
  - split; [done|]. left. by exists e.
  - destruct (start_ok r Hok) as (Hok1 & Hs1 & Hm1). apply may_start_spec in Hc as Hm.
    pose proof (quiet_ok _ _ Hq Hok1) as Hok2. destruct Hq as [_ (Fp & Ff & Ft & Fs & Fc) _].
    assert (may_start (status (state r1)) = true) as Hm2 by (unfold may_start in *; by rewrite Fp, Ff, Fc, Hm1).
    assert (turn_index (status (state (ensure_started r))) = turn_index (status (state r))) as Hti
      by (unfold ensure_started; destruct (started (status (state r))); reflexivity).
    assert (stream_ok (set_emitter (emitter_emit (TurnStarted (pt_turn_index p)) (new_correlation (emitter r1)))
              (on_state (set_turn_index (pt_turn_index p)) r1))) as Hok3.
    { apply numbered_ok; [done|done|congruence|]. rewrite Ft, Hti. exact Hi. }
    split; [by eapply quiet_ok|]. right. exists p. split_and!; [done|done|].
    destruct Hq' as [_ (Gp & Gf & _ & _ & Gc) _]. unfold may_start in *. by rewrite Gp, Gf, Gc.
Qed.

(** A failure appends at most a pause and the session's failure. *)
Lemma failure_ok f r : stream_ok r -> stream_ok (handle_failure f r).2.
Proof.
  intros Hok. unfold handle_failure. set (a := recovery_action_for f (recovery_config r)). cbv zeta.
  destruct (safe_pause a), (terminal a); cbn [snd]; [| | |done].
  - eapply (append_ok r _ [SafePauseEntered _ _; SessionFailed f]); [done| |done|done| |done|done].
    + rewrite events_emit. unfold events, emit. simpl. rewrite map_app, <- app_assoc. done.
    + unfold may_start. simpl. by rewrite !andb_false_r.
  - eapply (append_ok r _ [SafePauseEntered _ _]); [done|exact (events_emit _ _)|done|done| |done|done].
    unfold may_start. simpl. by rewrite !andb_false_r.
  - eapply (append_ok r _ [SessionFailed f]); [done|exact (events_emit _ _)|done|done| |done|done].
    unfold may_start. simpl. by rewrite !andb_false_r.
Qed.

Lemma turn_failure_quiet now f r : quiet (handle_failure f r).2 (handle_turn_failure now f r).2.
Proof.
  unfold handle_turn_failure. destruct (handle_failure f r) as [a r1]. cbn [snd].
  assert (quiet r1 (on_state (fun s => set_snapshot (snap_turn (turn_index (status s)) (snapshot s)) s) (clear_turn_approvals now r1))) as Hq.
  { eapply quiet_trans; [apply quiet_clear|]. quiet_on_state. }
  set (r2 := on_state _ (clear_turn_approvals now r1)) in *. clearbody r2. cbv zeta.
  destruct (terminal a); cbn [snd].
  - assert (quiet r1 (on_state (fun s => touch now (set_snapshot (snap_failure f (snapshot s)) s)) r2)) as Hq2
      by (eapply quiet_trans; [exact Hq|quiet_on_state]).
    destruct (safe_pause a); simpl; [exact Hq2|]. eapply quiet_trans; [exact Hq2|quiet_on_state].
  - destruct (safe_pause a); simpl; [exact Hq|]. eapply quiet_trans; [exact Hq|apply quiet_activity].
Qed.

Lemma turn_failure_ok now f r : stream_ok r -> stream_ok (handle_turn_failure now f r).2.
Proof. intros Hok. eapply quiet_ok; [apply turn_failure_quiet|by apply failure_ok]. Qed.

Lemma quiet_completed now ms reason r : quiet r (finish_active_turn now (Completed ms reason) r).
Proof. eapply quiet_trans; [|apply quiet_rest]. quiet_on_state. Qed.

(** What a plain turn does after it began. *)
Lemma run_turn_cases now id input ops execute r x r' :
  turn now id input ops execute r = Ret (x, r') ->
  (exists e, x = Err e /\ ensure_turn_can_start r = Some e /\ r' = r) \/
  exists p r1 r2, begin_turn debug_verdict debug_freshness debug_alert now input r = Ret (Ok p, r1) /\
    quiet r1 r2 /\ (quiet r2 r' \/ exists f, r' = (handle_turn_failure now f r2).2).
Proof.
  unfold run_turn. intros H. apply exec_bind_ret in H as ([[p|e] r1] & Hb & H).
  2:{ left. injection H as <- <-. apply begin_cases in Hb as [(e' & He & Hc & ->)|(_ & p & ? & He & _)]; [|done].
      injection He as <-. by exists e. }
  right. set (r2 := set_approvals _ r1) in *. assert (quiet r1 r2) as Hq by apply quiet_set_approvals.
  exists p, r1, r2. split; [done|]. split; [exact Hq|]. destruct (execute p) as [o|e].
  - left. injection H as <- <-. eapply quiet_trans; [|apply quiet_completed].
    eapply quiet_trans; [|apply quiet_emit; by split_and!].
    destruct (String.eqb _ _); [apply quiet_refl|]. apply quiet_emit. by split_and!.
  - right. exists (error_kind e). destruct (handle_turn_failure now (error_kind e) r2) as [err r3]. injection H as <- <-. done.
Qed.

Lemma run_streaming_cases now id input mid ops execute r x r' :
  streamed now id input mid ops execute r = Ret (x, r') ->
  (exists e, x = Err e /\ ensure_turn_can_start r = Some e /\ r' = r) \/
  exists p r1 r2, begin_turn debug_verdict debug_freshness debug_alert now input r = Ret (Ok p, r1) /\
    quiet r1 r2 /\ (quiet r2 r' \/ exists f, r' = (handle_turn_failure now f r2).2).
Proof.
  unfold run_turn_streaming. intros H. apply exec_bind_ret in H as ([[p|e] r1] & Hb & H).
  2:{ left. injection H as <- <-. apply begin_cases in Hb as [(e' & He & Hc & ->)|(_ & p & ? & He & _)]; [|done].
      injection He as <-. by exists e. }
  right. exists p, r1. destruct (execute p) as [items res].
  match type of H with context [fold_left ?g items ?y] => assert (quiet r1 (fold_left g items y)) as Hq
    by (eapply quiet_trans; [apply quiet_set_approvals|apply quiet_items]); set (r2 := fold_left g items y) in * end.
  clearbody r2. destruct res as [o|e].
  - exists r2. split; [done|]. split; [exact Hq|]. left. injection H as <- <-.
    eapply quiet_trans; [|apply quiet_completed]. apply quiet_emit. by split_and!.
  - case_decide.
    + exists r2. split; [done|]. split; [exact Hq|]. left. injection H as <- <-.
      eapply quiet_trans; [|apply quiet_rest]. apply quiet_emit. by split_and!.
    + match type of H with context [handle_turn_failure now _ ?y] => exists y; assert (quiet r2 y) as Hq3 end.
      { destruct e as [k t [c|] b|t]; [apply quiet_emit; by split_and!|apply quiet_refl..]. }
      split; [done|]. split; [by eapply quiet_trans|]. right. exists (error_kind e).
      destruct (handle_turn_failure now (error_kind e) _) as [err r3]. injection H as <- <-. done.
Qed.

Lemma turn_end_ok now input r p r1 r2 r' : stream_ok r ->
  begin_turn debug_verdict debug_freshness debug_alert now input r = Ret (Ok p, r1) -> quiet r1 r2 ->
  (quiet r2 r' \/ exists f, r' = (handle_turn_failure now f r2).2) -> stream_ok r'.
Proof.
  intros Hok Hb Hq Hr. apply begin_ok in Hb as [Hok1 _]; [|done]. pose proof (quiet_ok _ _ Hq Hok1) as Hok2.
  destruct Hr as [Hr|[f ->]]; [by eapply quiet_ok|by apply turn_failure_ok].
Qed.

Lemma apply_ok o r r' : apply o r = Ret r' -> stream_ok r -> stream_ok r'.
Proof.
  intros H Hok. destruct (silent_op o) eqn:Ho; [eapply quiet_ok; [by eapply silent_quiet|done]|].
  destruct o; try discriminate Ho; simpl in H.
  - unfold start_session in H. destruct (ended r); injection H as <-; [done|]. by apply start_ok.
  - apply exec_bind_ret in H as ([x r1] & Ht & H). injection H as <-.
    apply run_turn_cases in Ht as [(e & _ & _ & ->)|(p & r2 & r3 & Hb & Hq & Hr)]; [done|by eapply turn_end_ok].
  - apply exec_bind_ret in H as ([x r1] & Ht & H). injection H as <-.
    apply run_streaming_cases in Ht as [(e & _ & _ & ->)|(p & r2 & r3 & Hb & Hq & Hr)]; [done|by eapply turn_end_ok].
  - unfold complete_session in H. destruct (ended r); injection H as <-; [done|].
    eapply append_ok; [exact Hok|exact (events_emit _ _)|done|done| |done|done]. by rewrite !andb_false_r.
  - unfold fail_session in H. destruct (ended r); injection H as <-; [done|]. unfold fail_active_turn. cbn [snd].
    pose proof (quiet_ok _ _ (quiet_clear now r) Hok) as Hok1. set (r1 := clear_turn_approvals now r) in *.
    eapply append_ok; [exact Hok1|exact (events_emit _ _)|done|done| |done|by intros ?].
    unfold may_start. simpl. by rewrite !andb_false_r.
  - injection H as <-. by apply failure_ok.
Qed.

Lemma run_ops_ok os : forall r r', run_ops os r = Ret r' -> stream_ok r -> stream_ok r'.
Proof.
  induction os as [|o os IH]; intros r r' H Hok; simpl in H; [by injection H as <-|].
  apply exec_bind_ret in H as (r1 & Ho & H). eapply IH; [exact H|by eapply apply_ok].
Qed.
End Stream.

Lemma new_ok parse_blueprint now config read : stream_ok [] (new_with_memory_store parse_blueprint now config read).
Proof. split; try done. intros [|? ?] i after H; discriminate H. Qed.





(** *** How a turn ends *)

Lemma items_kept now id items : forall r,
  messages (state (fold_left (emit_item now id) items r)) = messages (state r).
Proof.
  induction items as [|i items IH]; intros r; simpl; [done|]. rewrite IH. by destruct i as [[]|[]|].
Qed.

Definition recovers (k : RuntimeFailureKind) : bool := match k with ModelError | ToolError => true | _ => false end.
Definition is_terminal (k : RuntimeFailureKind) : bool :=
  match k with TrustViolation | SessionTimeout | OperatorAbort => true | _ => false end.

Definition settled (r : SessionRuntime) : Prop :=
  pending_approvals (state r) = [] /\ pending (approval_runtime r) = ∅.

Lemma failed_turn now k r : may_start (status (state r)) = true ->
  let '(e, r') := handle_turn_failure now k r in
  e = (if is_terminal k then ErrSessionFailed k else ErrTurnFailed k) /\
  settled r' /\ messages (state r') = messages (state r) /\
  may_start (status (state r')) = recovers k /\
  activity (status (state r')) = (if recovers k then ActIdle else PausedSafe) /\
  is_paused (safe_pause_of (status (state r'))) = negb (recovers k) /\
  failure (status (state r')) = (if is_terminal k then Some k else None).
Proof.
  unfold may_start. intros Hm. apply andb_prop in Hm as [Hm Hp]. apply andb_prop in Hm as [Hc Hf].
  apply bool_decide_eq_true in Hf. apply negb_true_iff in Hc, Hp.
  destruct k; unfold handle_turn_failure, handle_failure, settled; simpl; rewrite ?Hc, ?Hf, ?Hp; by split_and!.
Qed.

Lemma streamed_turn_cases (now : DateTime) (id : string) (input : TurnInput) (mid : option string)
    (ops : list registry_op) (execute : PreparedTurn -> list StreamItem * result TurnOutput ExecutorError)
    (r r' : SessionRuntime) (x : result StreamingTurnResult SessionRuntimeError) :
  streamed now id input mid ops execute r = Ret (x, r') -> ensure_turn_can_start r = None ->
  exists p, pt_turn_index p = turn_index (status (state r)) + 1 /\ settled r' /\
  match (execute p).2 with
  | Ok out =>
      x = Ok (TurnCompleted out) /\ messages (state r') = to_messages out /\
      ensure_turn_can_start r' = None /\ activity (status (state r')) = ActIdle
  | Err e =>
      let k := error_kind e in
      messages (state r') = messages (state r) /\
      x = (if decide (k = OperatorAbort) then Ok TurnCancelled
           else Err (if is_terminal k then ErrSessionFailed k else ErrTurnFailed k)) /\
      (ensure_turn_can_start r' = None <-> k = OperatorAbort \/ recovers k = true) /\
      activity (status (state r')) = (if decide (k = OperatorAbort) then ActIdle else if recovers k then ActIdle else PausedSafe) /\
      failure (status (state r')) = (if decide (k = OperatorAbort) then None else if is_terminal k then Some k else None)
  end.
Proof.
  intros H Hc. unfold run_turn_streaming in H. apply exec_bind_ret in H as ([[p|e] r1] & Hb & H).
  2:{ apply begin_cases in Hb as [(e' & _ & Hc' & _)|(_ & p & ? & He & _)]; [congruence|done]. }
  apply begin_cases in Hb as [(e' & ? & _)|(_ & p' & r0 & Hp & Hq0 & Hi & _ & Hms & _ & _ & _ & Hq1)]; [done|].
  injection Hp as <-. exists p. split; [exact Hi|].
  assert (may_start (status (state r1)) = true) as Hm1.
  { apply may_start_spec in Hc. destruct Hq0 as [_ (Ap & Af & _ & _ & Ac) _]. destruct Hq1 as [_ (Bp & Bf & _ & _ & Bc) _].
    unfold may_start in *. rewrite Bp, Bf, Bc. simpl. rewrite Ap, Af, Ac. unfold ensure_started. by destruct (started _). }
  destruct (execute p) as [items res]. cbn [snd].
  match type of H with context [fold_left ?g items ?y] =>
    assert (quiet r1 (fold_left g items y)) as Hq2 by (eapply quiet_trans; [apply quiet_set_approvals|apply quiet_items]);
    assert (messages (state (fold_left g items y)) = messages (state r)) as Hm2 by (rewrite items_kept; exact Hms);
    set (r2 := fold_left g items y) in * end. clearbody r2.
  assert (may_start (status (state r2)) = true) as Hm3.
  { destruct Hq2 as [_ (Ap & Af & _ & _ & Ac) _]. unfold may_start in *. by rewrite Ap, Af, Ac. }
  destruct res as [o|e].
  - injection H as <- <-. split; [by split|]. split_and!; [done|done| |done]. by apply may_start_spec.
  - case_decide as Hk.
    + injection H as <- <-. split; [by split|]. split_and!; [exact Hm2|done| |done|].
      * split; [by left|]. intros _. by apply may_start_spec.
      * simpl. unfold may_start in Hm3. apply andb_prop in Hm3 as [Hm3 _]. apply andb_prop in Hm3 as [_ Hm3].
        by apply bool_decide_eq_true in Hm3.
    + match type of H with context [handle_turn_failure now ?k ?y] =>
        assert (may_start (status (state y)) = true /\ messages (state y) = messages (state r)) as [Hm4 Hm5]
          by (destruct e as [? ? [?|] ?|?]; done);
        pose proof (failed_turn now k y Hm4) as Hf; destruct (handle_turn_failure now k y) as [err r3] end.
      injection H as <- <-. destruct Hf as (-> & Hs & Hm6 & Hm7 & Ha & _ & Hfl).
      split; [done|]. split_and!; [congruence|done| |done|done].
      rewrite <- may_start_spec, Hm7. naive_solver.
Qed.

(** C19: how a streamed turn ends.  A turn that may start runs under the next number, and
    whatever its executor streams and returns, afterwards no approval is pending: a completed
    turn replaces the transcript, any other keeps it; a completed or cancelled turn and one
    that failed for the model or a tool leave the session ready for the next; every other
    failure pauses it safely, and a violation of trust or a timeout ends it. *)
Theorem streamed_turn_outcome (now : DateTime) (id : string) (input : TurnInput) (mid : option string)
    (ops : list registry_op) (execute : PreparedTurn -> list StreamItem * result TurnOutput ExecutorError)
    (r r' : SessionRuntime) (x : result StreamingTurnResult SessionRuntimeError) :
  streamed now id input mid ops execute r = Ret (x, r') -> ensure_turn_can_start r = None ->
  exists p, pt_turn_index p = turn_index (status (state r)) + 1 /\ settled r' /\
  match (execute p).2 with
  | Ok out =>
      x = Ok (TurnCompleted out) /\ messages (state r') = to_messages out /\
      ensure_turn_can_start r' = None /\ activity (status (state r')) = ActIdle
  | Err e =>
      let k := error_kind e in
      messages (state r') = messages (state r) /\
      x = (if decide (k = OperatorAbort) then Ok TurnCancelled
           else Err (if is_terminal k then ErrSessionFailed k else ErrTurnFailed k)) /\
      (ensure_turn_can_start r' = None <-> k = OperatorAbort \/ recovers k = true) /\
      activity (status (state r')) = (if decide (k = OperatorAbort) then ActIdle else if recovers k then ActIdle else PausedSafe) /\
      failure (status (state r')) = (if decide (k = OperatorAbort) then None else if is_terminal k then Some k else None)
  end.
Proof. apply streamed_turn_cases. Qed.

(** *** Handing a session over *)

Lemma snap_edge_same s : snap_edge (edge_transport_state s) s = s.
Proof. by destruct s. Qed.

Lemma import_export parse_blueprint now b :
  edge_transport_state (b_snapshot b) = edge_state (b_surroundings b) ->
  export_bootstrap (from_bootstrap parse_blueprint now b no_override) = b.
Proof.
  intros He. destruct b as [[] [] [] [] pend snap hist st]. simpl in He. unfold export_bootstrap, from_bootstrap, from_state_and_prompt_staging.
  simpl. rewrite <- He, snap_edge_same. done.
Qed.

(** a session survives being handed over.  Exported and imported elsewhere without
    overrides, a session is what it was in everything the bootstrap carries, and admits its
    next turn exactly as before; what is not carried starts afresh: the event stream, the
    frozen memory and skills, and the approvals, so that none of the pending approvals the
    bootstrap lists can be resolved any more. *)
Theorem handover_keeps_session (parse_blueprint : string -> option string) (now now' : DateTime) (config : SessionConfig)
    (read : option (result (list MemoryEntry) string)) (os : list op) (r : SessionRuntime) :
  run_ops os (new_with_memory_store parse_blueprint now config read) = Ret r ->
  let r' := from_bootstrap parse_blueprint now' (export_bootstrap r) no_override in
  export_bootstrap r' = export_bootstrap r /\
  ensure_turn_can_start r' = ensure_turn_can_start r /\
  events r' = [] /\ memory (state r') = no_memory /\
  forall id a m, (resolve_approval (approval_runtime r') id a m).1 = false.
Proof.
  intros H. apply (run_ops_ok []) in H as [_ _ _ _ _ Hedge]; [|apply new_ok]. cbv zeta. split_and!; [|done..].
  apply import_export. exact Hedge.
Qed.

(** *** The stable part of the prompt *)

Definition prefix_of (r : SessionRuntime) : string * list Prompt.ToolSchema * list string * FrozenMemory :=
  (constitution_text (surface (state r)), tool_schemas (surface (state r)), project_context (surface (state r)), memory (state r)).

Definition keeps_prompt (o : op) : bool := match o with OpSurface _ _ _ _ | OpSkills _ => false | _ => true end.

Lemma prefix_items now id items : forall r, prefix_of (fold_left (emit_item now id) items r) = prefix_of r.
Proof.
  induction items as [|i items IH]; intros r; simpl; [done|]. rewrite IH. by destruct i as [[]|[]|].
Qed.

Lemma prefix_start r : prefix_of (ensure_started r) = prefix_of r.
Proof. unfold ensure_started. by destruct (started _). Qed.

Lemma prefix_cognition now m r : prefix_of (sync_cognition_mode now m r).2 = prefix_of r.
Proof. unfold sync_cognition_mode. by case_decide. Qed.

Lemma prefix_begin now input r x r' :
  begin_turn debug_verdict debug_freshness debug_alert now input r = Ret (x, r') -> prefix_of r' = prefix_of r.
Proof.
  unfold begin_turn. destruct (ensure_turn_can_start r); [by intros [= <- <-]|]. intros H.
  apply exec_bind_ret in H as (i & _ & H). injection H as _ <-.
  by rewrite <- (prefix_start r), <- (prefix_cognition now (turn_cognition_mode input) (ensure_started r)).
Qed.

Lemma prefix_failure f r : prefix_of (handle_failure f r).2 = prefix_of r.
Proof. unfold handle_failure. by destruct (safe_pause _), (terminal _). Qed.

Lemma prefix_turn_failure now f r : prefix_of (handle_turn_failure now f r).2 = prefix_of r.
Proof.
  unfold handle_turn_failure. rewrite <- (prefix_failure f r). destruct (handle_failure f r) as [a r1]. cbv zeta.
  by destruct (terminal a), (safe_pause a).
Qed.

Lemma prefix_apply o r r' : keeps_prompt o = true -> apply o r = Ret r' -> prefix_of r' = prefix_of r.
Proof.
  destruct o; simpl; intros Ho H; try discriminate Ho; try (injection H as <-).
  - unfold start_session. destruct (ended r); [done|]. apply prefix_start.
  - apply exec_bind_ret in H as ([x r1] & H & Hr). injection Hr as <-. unfold run_turn in H.
    apply exec_bind_ret in H as ([[p|e] r1'] & Hb & H); apply prefix_begin in Hb; [|by injection H as _ <-].
    destruct (execute p) as [o|e]; [by destruct (String.eqb _ _); injection H as _ <-|].
    match type of H with context [handle_turn_failure now ?k ?y] => pose proof (prefix_turn_failure now k y) as Hf;
      destruct (handle_turn_failure now k y) end. cbn [snd] in Hf. injection H as _ <-. by rewrite Hf.
  - apply exec_bind_ret in H as ([x r1] & H & Hr). injection Hr as <-. unfold run_turn_streaming in H.
    apply exec_bind_ret in H as ([[p|e] r1'] & Hb & H); apply prefix_begin in Hb; [|by injection H as _ <-].
    destruct (execute p) as [items res].
    match type of H with context [fold_left ?g items ?y] => pose proof (prefix_items now (default fresh_id message_id) items y) as Hi;
      set (r2 := fold_left g items y) in * end. clearbody r2.
    assert (prefix_of r2 = prefix_of r) as Hr2 by (rewrite Hi; exact Hb). rewrite <- Hr2.
    destruct res as [o|e]; [by injection H as _ <-|]. case_decide; [by injection H as _ <-|].
    match type of H with context [handle_turn_failure now ?k ?y] => pose proof (prefix_turn_failure now k y) as Hf;
      destruct (handle_turn_failure now k y) end. cbn [snd] in Hf. injection H as _ <-. rewrite Hf. by destruct e as [? ? [?|] ?|?].
  - unfold complete_session. by destruct (ended r).
  - unfold fail_session. by destruct (ended r).
  - apply prefix_failure.
  - apply prefix_cognition.
  - unfold sync_permissions. by case_decide.
  - unfold sync_trust_posture. by case_decide.
  - unfold sync_telemetry_freshness. by case_decide.
  - done.
  - done.
  - done.
  - apply exec_bind_ret in H as ([ms es] & _ & H). injection H as <-.
    match goal with |- prefix_of (fold_left ?g es ?y) = _ => change (prefix_of r) with (prefix_of y); generalize y end.
    induction es as [|e es IH]; intros y; simpl; [done|]. by rewrite IH.
  - done.
Qed.

Lemma prefix_ops os : forall r r', forallb keeps_prompt os = true -> run_ops os r = Ret r' -> prefix_of r' = prefix_of r.
Proof.
  induction os as [|o os IH]; intros r r' Hk H; simpl in *; [by injection H as <-|].
  apply andb_prop in Hk as [Ho Hk]. apply exec_bind_ret in H as (r1 & Hr1 & H).
  rewrite (IH _ _ Hk H). by eapply prefix_apply.
Qed.

(** the prompt's stable prefix.  Unless the constitution, the tools, the project context
    or the skills are replaced, nothing that happens in a session changes the first three
    blocks of its prompts (constitution, memory and skills), whatever is written to memory
    meanwhile, nor the fourth (the tools) while the mode is the same; and the listing of
    skills stays within its budget. *)
Theorem prompt_prefix_stable (os : list op) (r r' : SessionRuntime) (input input' : TurnInput) :
  forallb keeps_prompt os = true -> run_ops os r = Ret r' ->
  let blocks := assemble_system_blocks debug_verdict debug_freshness debug_alert in
  take 3 (blocks input' r') = take 3 (blocks input r) /\
  (cognition_mode (surface (state r')) = cognition_mode (surface (state r)) -> take 4 (blocks input' r') = take 4 (blocks input r)) /\
  length (blocks input r) = 6%nat /\
  forall b, blocks input r !! 2%nat = Some b -> str_len (Prompt.content b) <= Prompt.MAX_BLOCK_BYTES.
Proof.
  intros Hk H. apply (prefix_ops _ _ _ Hk) in H. unfold prefix_of in H. injection H as H1 H2 H3 H4.
  cbv zeta. unfold assemble_system_blocks, Prompt.assemble. rewrite H1, H2, H4. split; [done|]. split.
  { intros ->. done. }
  split; [done|]. intros b [= <-]. unfold Prompt.block_skills_context. simpl.
  destruct (skill_snapshot (memory (state r))) as [|s l]; [by vm_compute|].
  apply (Prompt.skill_lines_bounded (take Prompt.MAX_SKILLS (s :: l))). by vm_compute.
Qed.

End Sessions.

(** ** A session *)

Module SessionDemo.
Definition config : SessionConfig := {|
  cfg_session_id := "sess"; cfg_tenant_id := "tenant"; cfg_mode := Edge; cfg_cognition_mode := OodaReAct;
  cfg_constitution_text := "do no harm"; blueprint_toml := ""; cfg_model_name := None; cfg_permissions := [];
  cfg_tool_schemas := []; cfg_project_context := []; initial_history := [] |}.

Definition input : TurnInput :=
  {| user_message := "go"; turn_cognition_mode := OodaReAct; custom_context := []; volatile_blocks := [] |}.

Definition output : TurnOutput := {|
  assistant_message := "done"; tool_calls_made := 1; to_input_tokens := 7; to_output_tokens := 2; to_cache_read_tokens := 0;
  to_cache_creation_tokens := 0; to_messages := [user "go"; assistant_parts [Text "done"]] |}.

(** A turn that asks for an approval and completes, and one that a guard blocks. *)
Definition completes (p : PreparedTurn) : list StreamItem * result TurnOutput ExecutorError :=
  ([ItemPresence (ApprovalRequested "call" "move" [] 30); ItemChunk (TextDelta "done")], Ok output).
Definition blocked (p : PreparedTurn) : list StreamItem * result TurnOutput ExecutorError :=
  ([], Err (TurnExecutionFailure SafetyBlocked "blocked" None false)).

Definition ops : list op := [
  OpStart; OpTelemetry 1 Fresh; OpWorld 1 (Some empty_world) None;
  OpStreamTurn 2 "m1" input None [] completes; OpStreamTurn 3 "m2" input None [OpRegister "call"] blocked;
  OpStreamTurn 4 "m3" input None [] completes].

#[local] Notation new := (new_with_memory_store (fun _ => None) 0 config None).
#[local] Notation run_demo l := (run_ops (fun _ => "") (fun _ => "") (fun _ => "") (fun _ => "") l new).

Definition final : SessionRuntime := match run_demo ops with Ret r => r | Panic => new end.

Lemma runs : run_demo ops = Ret final.
Proof. vm_compute. reflexivity. Qed.
End SessionDemo.

(** The pause is not written into the snapshot: the prompt and every checkpoint go on saying
    that physical action is possible. *)
Example snapshot_forgets_pause :
  is_paused (safe_pause_of (status (state SessionDemo.final))) = true /\
  snapshot_can_execute_physical (snapshot (state SessionDemo.final)) = true /\
  safe_pause_state (snapshot (state SessionDemo.final)) = Running.
Proof. vm_compute. by split_and!. Qed.


Lemma streamed_turn_outcome_witness : exists x r',
  run_turn_streaming (fun _ => "") (fun _ => "") (fun _ => "") 3 "m" SessionDemo.input None [OpRegister "call"]
    SessionDemo.blocked (new_with_memory_store (fun _ => None) 0 SessionDemo.config None) = Ret (x, r') /\
  x = Err (ErrTurnFailed SafetyBlocked) /\ activity (status (state r')) = PausedSafe.
Proof.
  destruct (run_turn_streaming (fun _ => "") (fun _ => "") (fun _ => "") 3 "m" SessionDemo.input None [OpRegister "call"]
    SessionDemo.blocked (new_with_memory_store (fun _ => None) 0 SessionDemo.config None)) as [[x r']|] eqn:H;
    [|vm_compute in H; discriminate H].
  exists x, r'. split; [reflexivity|].
  destruct (streamed_turn_outcome (fun _ => "") (fun _ => "") (fun _ => "") 3 "m" SessionDemo.input None [OpRegister "call"]
    SessionDemo.blocked _ r' x H) as (p & _ & _ & Hm); [vm_compute; reflexivity|].
  destruct Hm as (_ & Hx & _ & Ha & _). split; [exact Hx|exact Ha].
Defined.

Lemma handover_keeps_session_witness :
  export_bootstrap (from_bootstrap (fun _ => None) 9 (export_bootstrap SessionDemo.final) no_override) =
    export_bootstrap SessionDemo.final /\ length (messages (state SessionDemo.final)) = 2%nat.
Proof.
  destruct (handover_keeps_session (fun _ => "") (fun _ => "") (fun _ => "") (fun _ => "") (fun _ => None) 0 9
    SessionDemo.config None SessionDemo.ops SessionDemo.final SessionDemo.runs) as [He _].
  split; [exact He|vm_compute; reflexivity].
Defined.

Lemma prompt_prefix_stable_witness :
  forallb keeps_prompt SessionDemo.ops = true /\
  take 3 (assemble_system_blocks (fun _ => "") (fun _ => "") (fun _ => "") SessionDemo.input SessionDemo.final) =
  take 3 (assemble_system_blocks (fun _ => "") (fun _ => "") (fun _ => "") SessionDemo.input
    (new_with_memory_store (fun _ => None) 0 SessionDemo.config None)).
Proof.
  assert (forallb keeps_prompt SessionDemo.ops = true) as Hk by reflexivity. split; [exact Hk|].
  destruct (prompt_prefix_stable (fun _ => "") (fun _ => "") (fun _ => "") (fun _ => "") SessionDemo.ops _ SessionDemo.final
    SessionDemo.input SessionDemo.input Hk SessionDemo.runs) as (H3 & _). exact H3.
Defined.
