(* ===== verification/TurnFlush.v ===== *)
(** * Turn persistence

    roz-agent/agent_loop/turn_emitter.rs (the bounded, drop-newest emitter and the flush task
    that stores turns under per-session base offsets), fact_extractor.rs (the batched consumer
    of the second channel), roz-db/session_turns.rs and user_model_facts.rs.  A table is the
    list of its rows in the order of their commits; the constraints come from
    migrations/020_session_turns.sql and 20260414029_session_turns_fts.sql.  What the database
    answers, and what other writers commit meanwhile, is given per attempt. *)

From Stdlib Require Import Ascii.
From S2P Require Import Prelude Float64 RustStr Json SafetyFilter Guards Approvals Context Policy Dispatch ModelCalls AgentLoop.

(** ** session_turns.rs *)

Abbreviation Offsets := (gmap (string * string) Z).

Record Row : Type := {
  row_session : string;
  row_index : Z;
  row_role : string;
  row_content : json;
  row_usage : option json;
  row_kind : string;
}.

(** The variants of [sqlx::Error] the code tells apart: those with an SQLSTATE and the others. *)
Inductive DbError : Type := Database (code : string) | OtherError (text : string).

Definition UNIQUE_VIOLATION : string := "23505".

Definition is_unique_violation (e : DbError) : bool :=
  match e with Database c => String.eqb c UNIQUE_VIOLATION | OtherError _ => false end.

(** UNIQUE(session_id, turn_index). *)
Definition clashes (r : Row) (x : Row) : bool :=
  String.eqb (row_session x) (row_session r) && (row_index x =? row_index r).
Definition taken (r : Row) (rows : list Row) : bool := existsb (clashes r) rows.

Definition valid_kind (k : string) : bool := String.eqb k KIND_TURN || String.eqb k KIND_COMPACTION.

(** MAX(turn_index) over the rows [p] admits. *)
Fixpoint max_index (p : Row -> bool) (rows : list Row) : option Z :=
  match rows with
  | [] => None
  | r :: rows =>
      let m := max_index p rows in
      if p r then Some (match m with Some v => Z.max (row_index r) v | None => row_index r end) else m
  end.

Section Turns.

(** [owner] is the tenant of the parent row in [roz_agent_sessions]; [rls] says whether the
    connection's role is subject to the table's row-level policy. *)
Context (owner : string -> option string) (rls : bool).

Definition sees (tenant session : string) : bool :=
  negb rls || bool_decide (owner session = Some tenant).

Definition max_turn_index (tenant session : string) (rows : list Row) : option Z :=
  max_index (fun r => String.eqb (row_session r) session && sees tenant (row_session r)) rows.

(** The insert: the policy, the CHECK on [kind], UNIQUE and the reference to the session. *)
Definition insert_turn_with_kind (tenant : string) (r : Row) (rows : list Row) : result (list Row) DbError :=
  if negb (sees tenant (row_session r)) then Err (Database "42501")
  else if negb (valid_kind (row_kind r)) then Err (Database "23514")
  else if taken r rows then Err (Database UNIQUE_VIOLATION)
  else if bool_decide (owner (row_session r) = None) then Err (Database "23503")
  else Ok (rows ++ [r])%list.

(** Rows that other writers commit; the constraint holds for them too. *)
Definition others_commit (new : list Row) (rows : list Row) : list Row :=
  fold_left (fun rows r => if taken r rows then rows else (rows ++ [r])%list) new rows.

(** ** flush_one *)

(** One attempt at a transaction, as the database and the other writers decide it:
    [commit_fails] carries whether the server had committed when the error was reported. *)
Record Attempt : Type := {
  begin_fails : option DbError;
  context_fails : option DbError;
  before_seed : list Row;
  seed_fails : bool;
  before_insert : list Row;
  insert_fails : option DbError;
  commit_fails : option (DbError * bool);
}.

Definition quiet : Attempt :=
  {| begin_fails := None; context_fails := None; before_seed := []; seed_fails := false;
     before_insert := []; insert_fails := None; commit_fails := None |}.

(** [m + 1] on an [i32]. *)
Definition i32_succ (m : Z) : exec Z := if m + 1 <=? i32_max then Ret (m + 1) else Panic.

Definition row_of (env : TurnEnvelope) (i : Z) : Row := {|
  row_session := te_session_id env; row_index := i; row_role := te_role env;
  row_content := te_content env; row_usage := te_token_usage env; row_kind := te_kind env |}.

Definition seed_offset (a : Attempt) (tenant session : string) (rows : list Row) : exec Z :=
  if seed_fails a then Ret 0
  else match max_turn_index tenant session rows with None => Ret 0 | Some m => i32_succ m end.

Definition offset_key (env : TurnEnvelope) : string * string := (te_tenant_id env, te_session_id env).

(** The transaction once the base offset is known. *)
Definition write_turn (a : Attempt) (env : TurnEnvelope) (base : Z) (offsets : Offsets) (rows : list Row)
    : Offsets * list Row * result () DbError :=
  let rows := others_commit (before_insert a) rows in
  let r := row_of env (i32_saturating_add (te_turn_index env) base) in
  let answer :=
    match insert_fails a with
    | Some e => Err e
    | None => insert_turn_with_kind (te_tenant_id env) r rows
    end in
  match answer with
  | Err e => (if is_unique_violation e then delete (offset_key env) offsets else offsets, rows, Err e)
  | Ok rows' =>
      match commit_fails a with
      | None => (offsets, rows', Ok tt)
      | Some (e, committed) => (offsets, if committed then rows' else rows, Err e)
      end
  end.

Definition flush_one (a : Attempt) (env : TurnEnvelope) (offsets : Offsets) (rows : list Row)
    : exec (Offsets * list Row * result () DbError) :=
  match begin_fails a, context_fails a with
  | Some e, _ | None, Some e => Ret (offsets, rows, Err e)
  | None, None =>
      let rows := others_commit (before_seed a) rows in
      match offsets !! offset_key env with
      | Some base => Ret (write_turn a env base offsets rows)
      | None =>
          let! base := seed_offset a (te_tenant_id env) (te_session_id env) rows in
          Ret (write_turn a env base (<[offset_key env := base]> offsets) rows)
      end
  end%roz.

(** ** run_flush_task: what becomes of one envelope *)

Inductive Outcome : Type :=
| Flushed
| FlushedAfterReseed
| Failed (e : DbError)
| FailedAfterReseed (e : DbError).

Definition persist (a1 a2 : Attempt) (env : TurnEnvelope) (offsets : Offsets) (rows : list Row)
    : exec (Offsets * list Row * Outcome) :=
  let! (offsets, rows, r) := flush_one a1 env offsets rows in
  match r with
  | Ok _ => Ret (offsets, rows, Flushed)
  | Err e =>
      if is_unique_violation e then
        let! (offsets, rows, r2) := flush_one a2 env offsets rows in
        Ret (offsets, rows, match r2 with Ok _ => FlushedAfterReseed | Err e2 => FailedAfterReseed e2 end)
      else Ret (offsets, rows, Failed e)
  end%roz.

(** ** The channels *)

Definition TURN_BUFFER_CAPACITY : nat := 1024.

Record Channel : Type := { capacity : nat; queue : list TurnEnvelope; closed : bool }.

(** [mpsc::channel] panics on a capacity of zero. *)
Definition channel (cap : nat) : exec Channel :=
  if (cap =? 0)%nat then Panic else Ret {| capacity := cap; queue := []; closed := false |}.

Definition set_queue (q : list TurnEnvelope) (c : Channel) : Channel :=
  {| capacity := capacity c; queue := q; closed := closed c |}.
Definition close (c : Channel) : Channel := {| capacity := capacity c; queue := queue c; closed := true |}.

Inductive TrySend : Type := Sent | Full | Closed.

Definition try_send (env : TurnEnvelope) (c : Channel) : Channel * TrySend :=
  if closed c then (c, Closed)
  else if (capacity c <=? length (queue c))%nat then (c, Full)
  else (set_queue (queue c ++ [env])%list c, Sent).

Record TurnEmitter : Type := { tx : Channel; fact_tx : option Channel }.

Definition with_capacity (cap : nat) : exec TurnEmitter :=
  let! tx := channel cap in Ret {| tx := tx; fact_tx := None |}%roz.
Definition new_emitter : exec TurnEmitter := with_capacity TURN_BUFFER_CAPACITY.
Definition with_fact_extractor (cap : nat) : exec TurnEmitter :=
  (let! tx := channel cap in let! fx := channel cap in Ret {| tx := tx; fact_tx := Some fx |})%roz.

Definition emit_turn (env : TurnEnvelope) (self : TurnEmitter) : TurnEmitter :=
  let eligible := String.eqb (te_kind env) KIND_TURN in
  {| tx := (try_send env (tx self)).1;
     fact_tx := match fact_tx self with
                | Some fx => if eligible then Some (try_send env fx).1 else Some fx
                | None => None
                end |}.

Definition emit_with_kind (env : TurnEnvelope) (kind : string) (self : TurnEmitter) : TurnEmitter :=
  emit_turn {| te_session_id := te_session_id env; te_tenant_id := te_tenant_id env;
               te_turn_index := te_turn_index env; te_role := te_role env; te_content := te_content env;
               te_token_usage := te_token_usage env; te_kind := kind |} self.

(** ** roz-worker/turn_flush.rs: with a database and an open pool, an emitter with both channels *)

Definition build_turn_flush {P : Type} (database_url : option string) (create_pool : string -> result P DbError)
    : exec (option (TurnEmitter * P)) :=
  match database_url with
  | None => Ret None
  | Some url =>
      match create_pool url with
      | Err _ => Ret None
      | Ok pool => let! em := with_fact_extractor TURN_BUFFER_CAPACITY in Ret (Some (em, pool))
      end
  end%roz.

(** ** run_flush_task as steps interleaved with its producers *)

Record FlushTask : Type := {
  emitter : TurnEmitter;
  cancelled : bool;
  senders_dropped : bool;
  finished : bool;
  base_offsets : Offsets;
  table : list Row;
  outcomes : list (TurnEnvelope * Outcome);
}.

Definition start_flush (em : TurnEmitter) (rows : list Row) : FlushTask :=
  {| emitter := em; cancelled := false; senders_dropped := false; finished := false;
     base_offsets := ∅; table := rows; outcomes := [] |}.

Inductive Event : Type :=
| EmitTurn (env : TurnEnvelope)
| CancelTask
| DropSenders
| TaskStep (a1 a2 : Attempt).

Definition set_emitter (em : TurnEmitter) (s : FlushTask) : FlushTask :=
  {| emitter := em; cancelled := cancelled s; senders_dropped := senders_dropped s; finished := finished s;
     base_offsets := base_offsets s; table := table s; outcomes := outcomes s |}.

(** One turn of the task's [select!]: the next queued envelope, the exit once the channel is
    drained after a cancellation or after the last sender is gone, or waiting. *)
Definition task_step (a1 a2 : Attempt) (s : FlushTask) : exec FlushTask :=
  if finished s then Ret s
  else
    match queue (tx (emitter s)) with
    | env :: rest =>
        let! (offsets, rows, o) := persist a1 a2 env (base_offsets s) (table s) in
        Ret {| emitter := {| tx := set_queue rest (tx (emitter s)); fact_tx := fact_tx (emitter s) |};
               cancelled := cancelled s; senders_dropped := senders_dropped s; finished := false;
               base_offsets := offsets; table := rows; outcomes := (outcomes s ++ [(env, o)])%list |}
    | [] =>
        if cancelled s || senders_dropped s then
          Ret {| emitter := {| tx := close (tx (emitter s)); fact_tx := fact_tx (emitter s) |};
                 cancelled := cancelled s; senders_dropped := senders_dropped s; finished := true;
                 base_offsets := base_offsets s; table := table s; outcomes := outcomes s |}
        else Ret s
    end%roz.

Definition step (ev : Event) (s : FlushTask) : exec FlushTask :=
  match ev with
  | EmitTurn env => Ret (if senders_dropped s then s else set_emitter (emit_turn env (emitter s)) s)
  | CancelTask =>
      Ret {| emitter := emitter s; cancelled := true; senders_dropped := senders_dropped s; finished := finished s;
             base_offsets := base_offsets s; table := table s; outcomes := outcomes s |}
  | DropSenders =>
      Ret {| emitter := emitter s; cancelled := cancelled s; senders_dropped := true; finished := finished s;
             base_offsets := base_offsets s; table := table s; outcomes := outcomes s |}
  | TaskStep a1 a2 => task_step a1 a2 s
  end.

Fixpoint run_task (evs : list Event) (s : FlushTask) : exec FlushTask :=
  match evs with
  | [] => Ret s
  | ev :: evs => let! s := step ev s in run_task evs s
  end%roz.

End Turns.

(** ** Facts: the table *)

Section TableFacts.
Context (owner : string -> option string) (rls : bool).

Abbreviation seen := (sees owner rls).
Abbreviation max_turn := (max_turn_index owner rls).
Abbreviation inserting := (insert_turn_with_kind owner rls).
Abbreviation flushing := (flush_one owner rls).
Abbreviation persisting := (persist owner rls).
Abbreviation stepping := (step owner rls).
Abbreviation running_task := (run_task owner rls).

Definition row_key (r : Row) : string * Z := (row_session r, row_index r).
Definition unique_rows (rows : list Row) : Prop := NoDup (map row_key rows).

(** The index after the last one of the session. *)
Definition next_index (tenant session : string) (rows : list Row) : Z :=
  match max_turn tenant session rows with None => 0 | Some m => m + 1 end.

Lemma taken_spec r rows : taken r rows = true <-> row_key r ∈ map row_key rows.
Proof.
  unfold taken. rewrite existsb_exists, list_elem_of_fmap. unfold clashes, row_key.
  split; intros (x & H1 & H2); exists x.
  - apply andb_true_iff in H2 as [?%String.eqb_eq ?%Z.eqb_eq]. split; [congruence|by apply list_elem_of_In].
  - inversion H1; subst. rewrite String.eqb_refl, Z.eqb_refl. split; [by apply list_elem_of_In|done].
Qed.

Lemma not_taken r rows : taken r rows = false <-> row_key r ∉ map row_key rows.
Proof. rewrite <- taken_spec. destruct (taken r rows); split; naive_solver. Qed.

Lemma unique_snoc r rows : unique_rows rows -> taken r rows = false -> unique_rows (rows ++ [r]).
Proof.
  unfold unique_rows. intros Hu Hr%not_taken. rewrite map_app. simpl. apply NoDup_app.
  split_and!; [done| |apply NoDup_singleton]. intros x Hx ->%list_elem_of_singleton. done.
Qed.

(** What every write does: rows are only added, and UNIQUE holds on. *)
Definition grows (rows rows' : list Row) : Prop :=
  rows `prefix_of` rows' /\ (unique_rows rows -> unique_rows rows').

#[local] Instance grows_preorder : PreOrder grows.
Proof.
  split.
  - intros rows. split; [reflexivity|done].
  - intros a b c [H1 H2] [H3 H4]. split; [by etrans|eauto].
Qed.

Lemma grows_snoc r rows : taken r rows = false -> grows rows (rows ++ [r]).
Proof. intros H. split; [by eexists|]. intros Hu. by apply unique_snoc. Qed.

Lemma others_grow new : forall rows, grows rows (others_commit new rows).
Proof.
  induction new as [|r new IH]; intros rows; simpl; [reflexivity|].
  destruct (taken r rows) eqn:E; [done|]. etrans; [by apply grows_snoc|done].
Qed.

Lemma inserted tenant r rows rows' : inserting tenant r rows = Ok rows' ->
  rows' = (rows ++ [r])%list /\ taken r rows = false.
Proof. unfold insert_turn_with_kind. intros H. repeat case_match; by simplify_eq. Qed.

Lemma sees_owner tenant session : owner session = Some tenant -> seen tenant session = true.
Proof. intros H. unfold sees. rewrite H, bool_decide_true by done. apply orb_true_r. Qed.

Lemma insert_ok tenant r rows : owner (row_session r) = Some tenant -> valid_kind (row_kind r) = true ->
  inserting tenant r rows = if taken r rows then Err (Database UNIQUE_VIOLATION) else Ok (rows ++ [r])%list.
Proof.
  intros Ho Hk. unfold insert_turn_with_kind. rewrite sees_owner, Hk by done. simpl.
  destruct (taken r rows); [done|]. rewrite bool_decide_false; [done|]. by rewrite Ho.
Qed.

Lemma write_grows a env base offsets rows offsets' rows' r :
  write_turn owner rls a env base offsets rows = (offsets', rows', r) -> grows rows rows'.
Proof.
  unfold write_turn. intros H. etrans; [apply (others_grow (before_insert a))|].
  destruct (insert_fails a) as [e|]; [simplify_eq; by destruct (is_unique_violation e)|].
  destruct (inserting _ _ _) as [rows1|e] eqn:E; [|by simplify_eq].
  apply inserted in E as [-> Hn%grows_snoc].
  destruct (commit_fails a) as [[e []]|]; simplify_eq; done.
Qed.

Lemma flush_grows a env offsets rows offsets' rows' r :
  flushing a env offsets rows = Ret (offsets', rows', r) -> grows rows rows'.
Proof.
  unfold flush_one. intros H.
  destruct (begin_fails a), (context_fails a); simplify_eq; try reflexivity.
  etrans; [apply (others_grow (before_seed a))|].
  destruct (offsets !! offset_key env) as [base|]; [|destruct (seed_offset _ _ _ _ _ _) as [base|]; [|done]];
    simplify_eq/=; match goal with H : write_turn _ _ _ _ _ _ _ = _ |- _ => by apply write_grows in H end.
Qed.

Lemma persist_grows a1 a2 env offsets rows offsets' rows' o :
  persisting a1 a2 env offsets rows = Ret (offsets', rows', o) -> grows rows rows'.
Proof.
  unfold persist. intros H. apply exec_bind_ret in H as ([[offsets1 rows1] r1] & H1%flush_grows & H).
  destruct r1 as [?|e]; [by simplify_eq|]. destruct (is_unique_violation e); [|by simplify_eq].
  apply exec_bind_ret in H as ([[offsets2 rows2] r2] & H2%flush_grows & H). simplify_eq. by etrans.
Qed.

Lemma step_grows ev s s' : stepping ev s = Ret s' -> grows (table s) (table s').
Proof.
  destruct ev as [env| | |a1 a2]; simpl; intros H; try by simplify_eq.
  - simplify_eq. by destruct (senders_dropped s).
  - unfold task_step in H. destruct (finished s); [by simplify_eq|].
    destruct (queue (tx (emitter s))) as [|env rest]; [by destruct (_ || _); simplify_eq|].
    apply exec_bind_ret in H as ([[offsets1 rows1] r1] & H1%persist_grows & H). by simplify_eq.
Qed.

Lemma task_grows evs : forall s s', running_task evs s = Ret s' -> grows (table s) (table s').
Proof.
  induction evs as [|ev evs IH]; simpl; intros s s' H; [by simplify_eq|].
  apply exec_bind_ret in H as (s1 & H1%step_grows & H). etrans; eauto.
Qed.

(** *** The seed *)

Lemma max_index_none p rows : max_index p rows = None <-> forall r, r ∈ rows -> p r = false.
Proof.
  induction rows as [|r rows IH]; simpl; [split; [by intros _ r ?%elem_of_nil|done]|].
  destruct (p r) eqn:E.
  - split; [done|]. intros H. rewrite H in E by left. done.
  - rewrite IH. split; intros H x; [intros [->|]%elem_of_cons; auto|]. intros Hx. apply H. by right.
Qed.

Lemma max_index_some p rows m : max_index p rows = Some m ->
  (forall r, r ∈ rows -> p r = true -> row_index r <= m) /\ exists r, r ∈ rows /\ p r = true /\ row_index r = m.
Proof.
  revert m; induction rows as [|r rows IH]; simpl; intros m H; [done|].
  destruct (p r) eqn:E; [|destruct (IH _ H) as [H1 (x & ? & ?)]; split].
  - simplify_eq. destruct (max_index p rows) as [v|] eqn:Ev.
    + destruct (IH _ eq_refl) as [H1 (x & ? & ? & Hx)]. split.
      * intros y [->|Hy]%elem_of_cons Hp; [lia|]. specialize (H1 _ Hy Hp). lia.
      * destruct (Z.max_spec (row_index r) v) as [[_ ->]|[_ ->]]; [exists x|exists r]; split_and!; try done; by constructor.
    + pose proof (proj1 (max_index_none _ _) Ev) as H1. split.
      * intros y [->|Hy]%elem_of_cons Hp; [lia|]. rewrite H1 in Hp; done.
      * exists r. split_and!; try done. by constructor.
  - intros y [->|Hy]%elem_of_cons Hp; [congruence|eauto].
  - exists x. split; [by right|done].
Qed.

Lemma next_bounds tenant session rows r : owner session = Some tenant -> r ∈ rows -> row_session r = session ->
  row_index r < next_index tenant session rows.
Proof.
  intros Ho Hr Hs. unfold next_index, max_turn_index.
  assert (Hp : (String.eqb (row_session r) session && seen tenant (row_session r))%bool = true)
    by (by rewrite Hs, String.eqb_refl, sees_owner).
  destruct (max_index _ rows) as [m|] eqn:E.
  - apply max_index_some in E as [H _]. specialize (H _ Hr Hp). lia.
  - by rewrite (proj1 (max_index_none _ _) E _ Hr) in Hp.
Qed.

Lemma next_free tenant env rows i : owner (te_session_id env) = Some tenant ->
  next_index tenant (te_session_id env) rows <= i -> taken (row_of env i) rows = false.
Proof.
  intros Ho Hi. apply not_taken. intros (r & Hk & Hr)%list_elem_of_fmap. inversion Hk.
  pose proof (next_bounds tenant (te_session_id env) rows r Ho Hr (eq_sym H0)). simpl in *. lia.
Qed.

Lemma next_reached tenant session rows : owner session = Some tenant ->
  (next_index tenant session rows = 0 /\ forall r, r ∈ rows -> row_session r <> session) \/
  exists r, r ∈ rows /\ row_session r = session /\ next_index tenant session rows = row_index r + 1.
Proof.
  intros Ho. unfold next_index, max_turn_index. destruct (max_index _ rows) as [m|] eqn:E; [right|left].
  - apply max_index_some in E as [_ (r & Hr & [Hs%String.eqb_eq _]%andb_true_iff & <-)]; eauto.
  - split; [done|]. intros r Hr Hs. pose proof (proj1 (max_index_none _ _) E _ Hr) as H.
    simpl in H. rewrite Hs, String.eqb_refl, sees_owner in H by done. done.
Qed.

Lemma next_snoc tenant env rows : owner (te_session_id env) = Some tenant ->
  let n := next_index tenant (te_session_id env) rows in
  next_index tenant (te_session_id env) (rows ++ [row_of env n]) = n + 1.
Proof.
  intros Ho n. set (rows' := (rows ++ [row_of env n])%list).
  assert (Hin : row_of env n ∈ rows') by (apply elem_of_app; right; by constructor).
  pose proof (next_bounds tenant (te_session_id env) rows' _ Ho Hin eq_refl) as H1. simpl in H1.
  destruct (next_reached tenant (te_session_id env) rows' Ho) as [[_ H2]|(r & Hr & Hs & H2)]; [by destruct (H2 _ Hin)|].
  apply elem_of_app in Hr as [Hr| ->%list_elem_of_singleton]; [|done].
  pose proof (next_bounds tenant (te_session_id env) rows r Ho Hr Hs). fold n in H. lia.
Qed.

(** *** One envelope *)

Definition storable (env : TurnEnvelope) : Prop :=
  owner (te_session_id env) = Some (te_tenant_id env) /\ valid_kind (te_kind env) = true /\
  0 <= te_turn_index env <= i32_max.

(** The indices of [rows] are [i32] values, none too large for [env] to be stored after it. *)
Definition fits (env : TurnEnvelope) (rows : list Row) : Prop :=
  forall r, r ∈ rows -> - 2 ^ 31 <= row_index r /\ row_index r + 1 + te_turn_index env <= i32_max.

Definition healthy (a : Attempt) : Prop :=
  begin_fails a = None /\ context_fails a = None /\ insert_fails a = None /\ commit_fails a = None.

Lemma others_elem new : forall rows r, r ∈ others_commit new rows -> r ∈ (rows ++ new)%list.
Proof.
  induction new as [|x new IH]; simpl; intros rows r H; [by rewrite app_nil_r|].
  apply IH in H. destruct (taken x rows); rewrite !elem_of_app in *; rewrite ?elem_of_cons, ?elem_of_nil in *; naive_solver.
Qed.

Lemma fits_others env new rows : fits env (rows ++ new) -> fits env (others_commit new rows).
Proof. intros H r Hr%others_elem. by apply H. Qed.

Lemma next_fits env rows : storable env -> fits env rows ->
  - 2 ^ 31 <= te_turn_index env + next_index (te_tenant_id env) (te_session_id env) rows <= i32_max.
Proof.
  intros (Ho & _ & H) Hf. assert (0 < 2 ^ 31) by done. destruct (next_reached (te_tenant_id env) (te_session_id env) rows Ho)
    as [[-> _]|(r & Hr & _ & ->)]; [lia|]. specialize (Hf _ Hr). lia.
Qed.

Lemma seeded a env rows : storable env -> fits env rows -> seed_fails a = false ->
  seed_offset owner rls a (te_tenant_id env) (te_session_id env) rows =
  Ret (next_index (te_tenant_id env) (te_session_id env) rows).
Proof.
  intros Hs Hf Ha. pose proof (next_fits env rows Hs Hf) as Hn. destruct Hs as (_ & _ & ?).
  unfold seed_offset, next_index in *. rewrite Ha. destruct (max_turn_index _ _ _ _ _) as [m|]; [|done].
  unfold i32_succ. by rewrite (proj2 (Z.leb_le _ _)) by lia.
Qed.

Lemma seed_runs a env rows : storable env -> fits env rows ->
  exists b, seed_offset owner rls a (te_tenant_id env) (te_session_id env) rows = Ret b.
Proof.
  intros Hs Hf. destruct (seed_fails a) eqn:E; [|eexists; by apply seeded]. exists 0. unfold seed_offset. by rewrite E.
Qed.

(** A transaction no fault touches either stores the turn or meets its index taken. *)
Lemma write_healthy a env base offsets rows : storable env -> healthy a ->
  let rows1 := others_commit (before_insert a) rows in
  let r := row_of env (i32_saturating_add (te_turn_index env) base) in
  write_turn owner rls a env base offsets rows =
  if taken r rows1 then (delete (offset_key env) offsets, rows1, Err (Database UNIQUE_VIOLATION))
  else (offsets, (rows1 ++ [r])%list, Ok tt).
Proof.
  intros (Ho & Hk & _) (_ & _ & Hi & Hc) rows1 r. unfold write_turn. rewrite Hi, Hc. fold rows1 r.
  rewrite insert_ok by done. by destruct (taken r rows1).
Qed.

Lemma flush_cached a env base offsets rows : storable env -> healthy a -> offsets !! offset_key env = Some base ->
  let rows1 := others_commit (before_insert a) (others_commit (before_seed a) rows) in
  let r := row_of env (i32_saturating_add (te_turn_index env) base) in
  flushing a env offsets rows =
  Ret (if taken r rows1 then (delete (offset_key env) offsets, rows1, Err (Database UNIQUE_VIOLATION))
       else (offsets, (rows1 ++ [r])%list, Ok tt)).
Proof.
  intros Hs Ha Hb rows1 r. pose proof Ha as (Hbg & Hcx & _). unfold flush_one. rewrite Hbg, Hcx, Hb.
  by rewrite write_healthy.
Qed.

(** An attempt that seeds, and no writer comes between its seed and its insert. *)
Lemma flush_seeded a env offsets rows : storable env -> healthy a -> offsets !! offset_key env = None ->
  let rows1 := others_commit (before_seed a) rows in
  let n := next_index (te_tenant_id env) (te_session_id env) rows1 in
  fits env rows1 -> seed_fails a = false -> before_insert a = [] ->
  flushing a env offsets rows =
  Ret (<[offset_key env := n]> offsets, (rows1 ++ [row_of env (te_turn_index env + n)])%list, Ok tt).
Proof.
  intros Hs Ha Hb rows1 n Hf Hsd Hbi. pose proof Ha as (Hbg & Hcx & _). unfold flush_one. rewrite Hbg, Hcx, Hb.
  fold rows1. rewrite seeded by done. simpl. fold n. rewrite write_healthy by done. rewrite Hbi. simpl.
  pose proof (next_fits env rows1 Hs Hf) as Hn. fold n in Hn. pose proof Hs as (Ho & _ & Hi).
  unfold i32_saturating_add. rewrite Z.min_r, Z.max_r by lia.
  rewrite (next_free (te_tenant_id env)) by (done || (fold n; lia)). done.
Qed.

(** Whatever other writers did meanwhile: stored, or the stale offset forgotten. *)
Definition settled (a : Attempt) (env : TurnEnvelope) (rows : list Row)
    (x : Offsets * list Row * result () DbError) : Prop :=
  let '(offsets', rows', r) := x in
  (r = Ok tt /\ exists i, row_of env i ∈ rows') \/
  (r = Err (Database UNIQUE_VIOLATION) /\ offsets' !! offset_key env = None /\
   forall x, x ∈ rows' -> x ∈ (rows ++ before_seed a ++ before_insert a)%list).

Lemma write_settles a env base offsets rows : storable env -> healthy a ->
  settled a env rows (write_turn owner rls a env base offsets (others_commit (before_seed a) rows)).
Proof.
  intros Hs Ha. rewrite write_healthy by done. destruct (taken _ _) eqn:E.
  - right. split_and!; [done|by rewrite lookup_delete_eq|].
    intros x [Hx%others_elem|Hx]%others_elem%elem_of_app; rewrite !elem_of_app in *; naive_solver.
  - left. split; [done|]. eexists. apply elem_of_app. right. by constructor.
Qed.

Lemma flush_healthy a env offsets rows : storable env -> healthy a ->
  fits env (others_commit (before_seed a) rows) ->
  exists x, flushing a env offsets rows = Ret x /\ settled a env rows x.
Proof.
  intros Hs Ha Hf. pose proof Ha as (Hbg & Hcx & _). unfold flush_one. rewrite Hbg, Hcx.
  destruct (offsets !! offset_key env) as [base|].
  - eexists. split; [done|]. by apply write_settles.
  - destruct (seed_runs a env (others_commit (before_seed a) rows) Hs Hf) as (b & ->). simpl.
    eexists. split; [done|]. by apply write_settles.
Qed.

Lemma grows_elem rows rows' r : grows rows rows' -> r ∈ rows -> r ∈ rows'.
Proof. intros [[new ->] _] H. apply elem_of_app. by left. Qed.

(** *** Quiet attempts *)

Lemma quiet_healthy : healthy quiet.
Proof. done. Qed.

Lemma persist_first env offsets rows : storable env -> fits env rows -> offsets !! offset_key env = None ->
  let n := next_index (te_tenant_id env) (te_session_id env) rows in
  persisting quiet quiet env offsets rows =
  Ret (<[offset_key env := n]> offsets, (rows ++ [row_of env (te_turn_index env + n)])%list, Flushed).
Proof.
  intros Hs Hf Hn n. unfold persist. by rewrite (flush_seeded quiet) by done.
Qed.

Lemma persist_free env base offsets rows : storable env -> offsets !! offset_key env = Some base ->
  let r := row_of env (i32_saturating_add (te_turn_index env) base) in
  taken r rows = false ->
  persisting quiet quiet env offsets rows = Ret (offsets, (rows ++ [r])%list, Flushed).
Proof.
  intros Hs Hb r Hr. unfold persist. rewrite (flush_cached quiet env base) by done. simpl.
  fold r. by rewrite Hr.
Qed.

Lemma persist_taken env base offsets rows : storable env -> fits env rows -> offsets !! offset_key env = Some base ->
  taken (row_of env (i32_saturating_add (te_turn_index env) base)) rows = true ->
  let n := next_index (te_tenant_id env) (te_session_id env) rows in
  persisting quiet quiet env offsets rows =
  Ret (<[offset_key env := n]> offsets, (rows ++ [row_of env (te_turn_index env + n)])%list, FlushedAfterReseed).
Proof.
  intros Hs Hf Hb Ht n. unfold persist. rewrite (flush_cached quiet env base) by done. simpl. rewrite Ht. simpl.
  rewrite (flush_seeded quiet) by (done || apply lookup_delete_eq). simpl. by rewrite insert_delete_eq.
Qed.

(** *** Consecutive runs *)

(** Local indices that restart at 0 with each run and count up within it; [k] is the next
    index of the run in progress. *)
Fixpoint in_runs (k : Z) (l : list TurnEnvelope) : Prop :=
  match l with
  | [] => True
  | e :: l => (te_turn_index e = 0 \/ te_turn_index e = k) /\ in_runs (te_turn_index e + 1) l
  end.

Definition of_session (tenant session : string) (l : list TurnEnvelope) : Prop :=
  Forall (fun e => te_tenant_id e = tenant /\ te_session_id e = session /\ valid_kind (te_kind e) = true) l.

(** The rows of envelopes stored one after the other from index [n] on. *)
Definition rows_from (n : Z) (l : list TurnEnvelope) : list Row :=
  imap (fun i e => row_of e (n + Z.of_nat i)) l.

(** The cached offset continues the run in progress exactly after the last row. *)
Definition in_step (tenant session : string) (k : Z) (offsets : Offsets) (rows : list Row) : Prop :=
  let n := next_index tenant session rows in
  match offsets !! (tenant, session) with
  | None => k = 0
  | Some b => b + k = n /\ exists r, r ∈ rows /\ row_key r = (session, b)
  end.

(** One envelope of consecutive runs goes right behind the last row. *)
Lemma persist_in_step tenant session k env offsets rows :
  owner session = Some tenant -> storable env -> offset_key env = (tenant, session) ->
  (forall r, r ∈ rows -> - 2 ^ 31 <= row_index r <= i32_max) ->
  let n := next_index tenant session rows in
  (te_turn_index env = 0 \/ te_turn_index env = k) -> n <= i32_max ->
  (forall r, r ∈ rows -> row_index r < i32_max) ->
  in_step tenant session k offsets rows ->
  exists offsets' o,
    persisting quiet quiet env offsets rows = Ret (offsets', (rows ++ [row_of env n])%list, o) /\
    (o = Flushed \/ o = FlushedAfterReseed) /\
    in_step tenant session (te_turn_index env + 1) offsets' (rows ++ [row_of env n])%list.
Proof.
  intros Ho Hs Hkey Hr n Hte Hn Hlt Hst. unfold offset_key in Hkey.
  assert (Htenant : te_tenant_id env = tenant) by congruence. assert (Hsession : te_session_id env = session) by congruence.
  assert (Hf : te_turn_index env = 0 -> fits env rows).
  { intros H0 r Hin. specialize (Hr _ Hin). specialize (Hlt _ Hin). lia. }
  assert (Hnext : next_index tenant session (rows ++ [row_of env n]) = n + 1).
  { pose proof (next_snoc tenant env rows) as H. rewrite Hsession in H. by apply H. }
  assert (Hfresh : in_step tenant session (0 + 1) (<[(tenant, session) := n]> offsets) (rows ++ [row_of env n])%list).
  { unfold in_step. rewrite lookup_insert_eq, Hnext. split; [lia|].
    exists (row_of env n). split; [apply elem_of_app; right; by constructor|]. unfold row_key. simpl. by rewrite Hsession. }
  unfold in_step in Hst. fold n in Hst.
  destruct (offsets !! (tenant, session)) as [b|] eqn:Hb.
  - destruct Hst as (Hbk & r & Hin & Hkeyr).
    assert (Hri : row_session r = session /\ row_index r = b) by (by inversion Hkeyr).
    destruct Hri as [Hrs Hri]. pose proof (Hr _ Hin) as Hrb. rewrite Hri in Hrb.
    pose proof (next_bounds tenant session rows r Ho Hin Hrs) as Hrn. fold n in Hrn. rewrite Hri in Hrn.
    destruct (decide (te_turn_index env = 0)) as [H0|H0].
    + exists (<[(tenant, session) := n]> offsets), FlushedAfterReseed.
      rewrite (persist_taken env b); [|auto|auto|by rewrite <- Hb; f_equal|].
      * rewrite Htenant, Hsession, H0. unfold offset_key. rewrite Htenant, Hsession. split_and!; auto.
      * apply taken_spec, list_elem_of_fmap. exists r. split; [|done]. rewrite Hkeyr. unfold row_key. simpl.
        rewrite Hsession. f_equal. unfold i32_saturating_add. lia.
    + destruct Hte as [?|Hte]; [done|]. exists offsets, Flushed.
      assert (Hsat : i32_saturating_add (te_turn_index env) b = n) by (unfold i32_saturating_add; lia).
      rewrite (persist_free env b); rewrite ?Hsat; [|auto|by rewrite <- Hb; f_equal|].
      * split_and!; [auto|auto|].
        unfold in_step. rewrite Hb, Hnext. split; [lia|]. exists r. split; [|done]. apply elem_of_app. by left.
      * apply next_free with tenant; rewrite Hsession; [done|]. by fold n.
  - assert (H0 : te_turn_index env = 0) by lia. exists (<[(tenant, session) := n]> offsets), Flushed.
    rewrite (persist_first env); [|auto|auto|by rewrite <- Hb; f_equal].
    rewrite Htenant, Hsession, H0. unfold offset_key. rewrite Htenant, Hsession. split_and!; auto.
Qed.

(** *** The task under quiet attempts *)

Definition quiet_event (ev : Event) : Prop :=
  match ev with TaskStep a1 a2 => a1 = quiet /\ a2 = quiet | _ => True end.

Fixpoint emitted_by (evs : list Event) : list TurnEnvelope :=
  match evs with
  | [] => []
  | EmitTurn e :: evs => e :: emitted_by evs
  | _ :: evs => emitted_by evs
  end.

(** The table has room for [len] more turns of a session. *)
Definition room (len : nat) (rows : list Row) : Prop :=
  Z.of_nat len <= i32_max /\ forall r, r ∈ rows -> - 2 ^ 31 <= row_index r /\ row_index r + Z.of_nat len <= i32_max.

Definition live (s : FlushTask) : bool := negb (finished s) && negb (senders_dropped s).

Definition went_well (p : TurnEnvelope * Outcome) : Prop := p.2 = Flushed \/ p.2 = FlushedAfterReseed.

Lemma in_runs_app l1 l2 : forall k, in_runs k (l1 ++ l2) -> in_runs k l1.
Proof. induction l1 as [|e l1 IH]; simpl; intros k; [done|]. intros [? ?]. eauto. Qed.

Lemma room_less len len' rows : (len' <= len)%nat -> room len rows -> room len' rows.
Proof. intros Hl [H1 H2]. split; [lia|]. intros r Hr. specialize (H2 _ Hr). lia. Qed.

Lemma room_snoc tenant env rows len : owner (te_session_id env) = Some tenant ->
  room (S len) rows -> room len (rows ++ [row_of env (next_index tenant (te_session_id env) rows)]).
Proof.
  intros Ho [H1 H2]. split; [lia|]. intros r [Hr| ->%list_elem_of_singleton]%elem_of_app.
  - specialize (H2 _ Hr). lia.
  - simpl. assert (0 < 2 ^ 31) by done.
    destruct (next_reached tenant (te_session_id env) rows Ho) as [[-> _]|(r & Hr & _ & ->)]; [lia|].
    specialize (H2 _ Hr). lia.
Qed.

Definition session_turns (tenant session : string) (l : list TurnEnvelope) : Prop :=
  Forall (fun e => storable e /\ offset_key e = (tenant, session)) l.

(** What holds of a state with the turns [todo] still to be stored, the next of them at [k]. *)
Record on_course (tenant session : string) (k : Z) (s : FlushTask) (todo : list TurnEnvelope) : Prop := {
  oc_runs : in_runs k todo;
  oc_turns : session_turns tenant session todo;
  oc_room : room (length todo) (table s);
  oc_step : in_step tenant session k (base_offsets s) (table s);
  oc_capacity : (length todo <= capacity (tx (emitter s)))%nat;
  oc_closed : closed (tx (emitter s)) = finished s;
}.

Lemma on_course_prefix tenant session k s l1 l2 : on_course tenant session k s (l1 ++ l2) -> on_course tenant session k s l1.
Proof.
  intros []. split; try done.
  - by eapply in_runs_app.
  - by apply Forall_app in oc_turns0 as [? _].
  - eapply room_less; [|done]. rewrite length_app. lia.
  - rewrite length_app in oc_capacity0. lia.
Qed.

(** One turn of the task stores the head of its queue right behind the last row. *)
Lemma task_step_stores tenant session k s env rest more : owner session = Some tenant ->
  finished s = false -> queue (tx (emitter s)) = env :: rest -> on_course tenant session k s (env :: rest ++ more) ->
  let n := next_index tenant session (table s) in
  exists s1 o, task_step owner rls quiet quiet s = Ret s1 /\ went_well (env, o) /\
    queue (tx (emitter s1)) = rest /\ table s1 = (table s ++ [row_of env n])%list /\
    outcomes s1 = (outcomes s ++ [(env, o)])%list /\ finished s1 = false /\ senders_dropped s1 = senders_dropped s /\
    next_index tenant session (table s1) = n + 1 /\
    on_course tenant session (te_turn_index env + 1) s1 (rest ++ more).
Proof.
  intros Ho Hf Hq [[Hte Hruns] Hturns Hroom Hst Hcap Hcl] n.
  apply Forall_cons in Hturns as [[Hs Hkey] Hturns]. assert (Hses : te_session_id env = session) by (by inversion Hkey).
  pose proof Hroom as [_ Hrows]. simpl in Hrows.
  assert (Hroom' : room (length (rest ++ more)) (table s ++ [row_of env n])).
  { pose proof (room_snoc tenant env (table s) _ ltac:(by rewrite Hses) Hroom) as H. by rewrite Hses in H. }
  assert (Hn : n <= i32_max).
  { destruct Hroom' as [_ H]. specialize (H (row_of env n)). simpl in H.
    assert (row_of env n ∈ (table s ++ [row_of env n])%list) by (apply elem_of_app; right; by constructor). intuition lia. }
  destruct (persist_in_step tenant session k env (base_offsets s) (table s)) as (off & o & Hp & Ho' & Hst'); auto.
  { intros r Hr. specialize (Hrows _ Hr). lia. }
  { intros r Hr. specialize (Hrows _ Hr). lia. }
  unfold task_step. rewrite Hf, Hq, Hp. simpl. eexists _, o. split_and!; try done.
  { simpl. pose proof (next_snoc tenant env (table s)) as H. rewrite Hses in H. by apply H. }
  simpl in Hcap. split; simpl; try done; [lia|congruence].
Qed.

Lemma emit_enqueues env s : closed (tx (emitter s)) = false ->
  (length (queue (tx (emitter s))) < capacity (tx (emitter s)))%nat ->
  (try_send env (tx (emitter s))).1 = set_queue (queue (tx (emitter s)) ++ [env])%list (tx (emitter s)).
Proof.
  intros Hc Hl. unfold try_send. rewrite Hc. by rewrite (proj2 (Nat.leb_gt _ _)).
Qed.

Lemma rows_from_cons n e l : rows_from n (e :: l) = row_of e n :: rows_from (n + 1) l.
Proof.
  unfold rows_from. simpl. f_equal; [f_equal; lia|]. apply imap_ext. intros i x _. simpl. f_equal. lia.
Qed.

Lemma on_course_same tenant session k s s1 todo :
  table s1 = table s -> base_offsets s1 = base_offsets s ->
  capacity (tx (emitter s1)) = capacity (tx (emitter s)) -> closed (tx (emitter s1)) = finished s1 ->
  on_course tenant session k s todo -> on_course tenant session k s1 todo.
Proof. intros Ht Hb Hc Hcl []. split; try done; by rewrite ?Ht, ?Hb, ?Hc. Qed.

(** What a run from [s] leaves of the turns [q], queued, and [E], still to be emitted. *)
Definition stored_in_order (tenant session : string) (s s' : FlushTask) (q E : list TurnEnvelope) : Prop :=
  exists stored late,
    (q ++ E = stored ++ queue (tx (emitter s')) ++ late)%list /\
    table s' = (table s ++ rows_from (next_index tenant session (table s)) stored)%list /\
    (exists os, outcomes s' = (outcomes s ++ os)%list /\ map fst os = stored /\ Forall went_well os) /\
    late `suffix_of` E /\ (late = [] \/ live s' = false) /\
    exists k, on_course tenant session k s' (queue (tx (emitter s'))).

Lemma stored_later tenant session s s' q E : stored_in_order tenant session s s' q [] -> live s' = false ->
  stored_in_order tenant session s s' q E.
Proof.
  intros (stored & late & Hq & H1 & H2 & ->%suffix_nil_inv & _ & H3) Hd. exists stored, E.
  split_and!; [|done|done|done|by right|done]. rewrite !app_nil_r in Hq. rewrite Hq. by rewrite <- app_assoc.
Qed.

Lemma stored_same tenant session s s1 s' q E : table s1 = table s -> outcomes s1 = outcomes s ->
  stored_in_order tenant session s1 s' q E -> stored_in_order tenant session s s' q E.
Proof. unfold stored_in_order. by intros -> ->. Qed.

Lemma stored_one tenant session s s1 s' env o q E :
  went_well (env, o) -> table s1 = (table s ++ [row_of env (next_index tenant session (table s))])%list ->
  outcomes s1 = (outcomes s ++ [(env, o)])%list ->
  next_index tenant session (table s1) = next_index tenant session (table s) + 1 ->
  stored_in_order tenant session s1 s' q E -> stored_in_order tenant session s s' (env :: q) E.
Proof.
  intros Hw Ht Hos Hn (stored & late & Hq & H1 & (os & H2 & H3 & H4) & H5).
  exists (env :: stored), late. split_and!; [by simpl; rewrite Hq| | |apply H5..].
  - rewrite rows_from_cons, <- Hn, H1, Ht. by rewrite <- app_assoc.
  - exists ((env, o) :: os). split_and!; [by rewrite H2, Hos, <- app_assoc|by simpl; rewrite H3|by constructor].
Qed.

Lemma quiet_task tenant session : owner session = Some tenant -> forall evs, Forall quiet_event evs ->
  forall k s E, on_course tenant session k s (queue (tx (emitter s)) ++ E) ->
  E = (if live s then emitted_by evs else []) ->
  exists s', running_task evs s = Ret s' /\ (live s = false -> live s' = false) /\
    stored_in_order tenant session s s' (queue (tx (emitter s))) E.
Proof.
  intros Ho evs. induction evs as [|ev evs IH]; intros Hev k s E Hoc HE; simpl.
  { exists s. split_and!; [done|done|]. exists [], []. rewrite HE. destruct (live s); simpl;
      (split_and!; [done|by rewrite app_nil_r|exists []; by rewrite app_nil_r|done|by left|]);
      exists k; by eapply on_course_prefix. }
  apply Forall_cons in Hev as [Hq Hev]. specialize (IH Hev).
  assert (Hsame : forall s1, table s1 = table s -> base_offsets s1 = base_offsets s -> outcomes s1 = outcomes s ->
    tx (emitter s1) = tx (emitter s) -> finished s1 = finished s -> senders_dropped s1 = senders_dropped s ->
    (if live s then emitted_by (ev :: evs) else []) = (if live s then emitted_by evs else []) ->
    exists s', running_task evs s1 = Ret s' /\ (live s = false -> live s' = false) /\
      stored_in_order tenant session s s' (queue (tx (emitter s))) E).
  { intros s1 H1 H2 H3 H4 H5 H6 H7. assert (Hl : live s1 = live s) by (unfold live; congruence).
    destruct (IH k s1 E) as (s' & Hrun & Hd & Hst).
    - rewrite H4. eapply on_course_same; [..|done]; try congruence. rewrite H4, H5. by destruct Hoc.
    - rewrite Hl. congruence.
    - exists s'. rewrite Hl in Hd. rewrite H4 in Hst. split_and!; [done|done|by eapply stored_same]. }
  assert (Hdie : forall s1, table s1 = table s -> base_offsets s1 = base_offsets s -> outcomes s1 = outcomes s ->
    queue (tx (emitter s1)) = queue (tx (emitter s)) -> capacity (tx (emitter s1)) = capacity (tx (emitter s)) ->
    closed (tx (emitter s1)) = finished s1 -> live s1 = false ->
    exists s', running_task evs s1 = Ret s' /\ (live s = false -> live s' = false) /\
      stored_in_order tenant session s s' (queue (tx (emitter s))) E).
  { intros s1 H1 H2 H3 H4 H5 H6 H7. destruct (IH k s1 []) as (s' & Hrun & Hd & Hst).
    - rewrite H4, app_nil_r. eapply on_course_same; [..|by eapply on_course_prefix]; done.
    - by rewrite H7.
    - exists s'. rewrite H4 in Hst. split_and!; [done|auto|]. apply stored_later; [|auto]. by eapply stored_same. }
  destruct ev as [env| | |a1 a2]; simpl.
  - destruct (senders_dropped s) eqn:Hsd; [apply Hsame; try done; by unfold live; rewrite Hsd, andb_false_r|].
    destruct (finished s) eqn:Hfin.
    + apply Hsame; try done; [|by unfold live; rewrite Hfin].
      unfold set_emitter, emit_turn, try_send. simpl. destruct Hoc. by rewrite oc_closed0, Hfin.
    + assert (Hl : live s = true) by (unfold live; by rewrite Hsd, Hfin). rewrite Hl in HE. simpl in HE.
      assert (Htx : (try_send env (tx (emitter s))).1 = set_queue (queue (tx (emitter s)) ++ [env])%list (tx (emitter s))).
      { destruct Hoc. apply emit_enqueues; [congruence|]. rewrite HE, length_app in oc_capacity0. simpl in *. lia. }
      destruct (IH k (set_emitter (emit_turn env (emitter s)) s) (emitted_by evs)) as (s' & Hrun & Hd & Hst).
      * simpl. rewrite Htx. simpl. rewrite <- app_assoc. simpl. rewrite <- HE.
        eapply on_course_same; [..|done]; simpl; rewrite ?Htx; try done. simpl. by destruct Hoc.
      * unfold live, set_emitter. simpl. by rewrite Hsd, Hfin.
      * exists s'. split_and!; [done|congruence|]. simpl in Hst. rewrite Htx in Hst.
        destruct Hst as (stored & late & Hqq & H1 & H2 & H3 & H4). exists stored, late. split_and!; try apply H4; try done.
        -- rewrite HE. simpl in Hqq. by rewrite <- app_assoc in Hqq.
        -- rewrite HE. by apply suffix_cons_r.
  - by apply Hsame.
  - apply Hdie; try done; [by destruct Hoc|by unfold live; simpl; rewrite andb_false_r].
  - destruct Hq as [-> ->]. destruct (finished s) eqn:Hfin; [unfold task_step; rewrite Hfin; by apply Hsame|].
    destruct (queue (tx (emitter s))) as [|env rest] eqn:Hqu.
    + unfold task_step. rewrite Hfin, Hqu. destruct (cancelled s || senders_dropped s); simpl; [|by apply Hsame].
      apply Hdie; try done.
    + destruct (task_step_stores tenant session k s env rest E) as (s1 & o & Hstep & Hw & Hq1 & Ht1 & Ho1 & Hf1 & Hs1 & Hn1 & Hoc1); try done.
      assert (Hl : live s1 = live s) by (unfold live; congruence).
      destruct (IH (te_turn_index env + 1) s1 E) as (s' & Hrun & Hd & Hst); [by rewrite Hq1|by rewrite Hl|].
      rewrite Hstep. exists s'. rewrite Hl in Hd. rewrite Hq1 in Hst. split_and!; [done|done|by eapply stored_one].
Qed.

(** *** A whole session *)

Lemma run_task_app evs1 evs2 : forall s,
  running_task (evs1 ++ evs2) s = exec_bind (running_task evs1 s) (fun s1 => running_task evs2 s1).
Proof.
  induction evs1 as [|ev evs1 IH]; simpl; intros s; [done|]. destruct (stepping ev s); simpl; [apply IH|done].
Qed.

(** The session at work: turns are emitted and the task runs, in any interleaving. *)
Definition working (ev : Event) : Prop :=
  match ev with EmitTurn _ => True | TaskStep a1 a2 => a1 = quiet /\ a2 = quiet | _ => False end.

Lemma task_step_flags a1 a2 s s' : task_step owner rls a1 a2 s = Ret s' ->
  cancelled s' = cancelled s /\ senders_dropped s' = senders_dropped s /\
  (finished s = true -> s' = s) /\ (cancelled s = false -> senders_dropped s = false -> finished s' = finished s).
Proof.
  unfold task_step. destruct (finished s) eqn:Ef; [intros [= <-]; by rewrite Ef|].
  destruct (queue (tx (emitter s))) as [|env rest].
  - destruct (cancelled s) eqn:Ec, (senders_dropped s) eqn:Es; simpl; intros H; simplify_eq/=; by rewrite ?Ec, ?Es, ?Ef.
  - intros ([[off rows] o] & _ & H)%exec_bind_ret. by simplify_eq/=.
Qed.

Lemma working_open evs : Forall working evs -> forall s s', running_task evs s = Ret s' ->
  cancelled s = false -> senders_dropped s = false -> finished s = false ->
  cancelled s' = false /\ live s' = true.
Proof.
  induction 1 as [|ev evs Hev _ IH]; simpl; intros s s' H Hc Hs Hf.
  { simplify_eq. unfold live. by rewrite Hs, Hf. }
  apply exec_bind_ret in H as (s1 & H1 & H).
  assert (Hs1 : cancelled s1 = false /\ senders_dropped s1 = false /\ finished s1 = false).
  { destruct ev; simpl in *; try done.
    - rewrite Hs in H1. by simplify_eq.
    - apply task_step_flags in H1 as (-> & -> & _ & ->); auto. }
  apply IH in H; tauto.
Qed.

Lemma finished_stays n : forall s s', running_task (repeat (TaskStep quiet quiet) n) s = Ret s' ->
  finished s = true -> s' = s.
Proof.
  induction n as [|n IH]; simpl; intros s s' H Hf; [by simplify_eq|].
  unfold task_step in H. rewrite Hf in H. simpl in H. eauto.
Qed.

Lemma run_steps n s : running_task (repeat (TaskStep quiet quiet) (S n)) s =
  exec_bind (task_step owner rls quiet quiet s) (running_task (repeat (TaskStep quiet quiet) n)).
Proof. done. Qed.

Lemma drains n : forall s s', running_task (repeat (TaskStep quiet quiet) (S n)) s = Ret s' ->
  cancelled s = true -> finished s = false -> (length (queue (tx (emitter s))) <= n)%nat ->
  finished s' = true /\ queue (tx (emitter s')) = [].
Proof.
  induction n as [|n IH]; intros s s' H Hc Hf Hl; rewrite run_steps in H; apply exec_bind_ret in H as (s1 & H1 & H);
    unfold task_step in H1; rewrite Hf, Hc in H1; destruct (queue (tx (emitter s))) as [|env rest] eqn:Hq;
    simpl in Hl, H1; try lia.
  - simpl in H. by simplify_eq/=.
  - simplify_eq. apply finished_stays in H; by subst.
  - apply exec_bind_ret in H1 as ([[off rows] o] & _ & H1). simplify_eq.
    apply IH in H; [done|done|done|simpl; lia].
Qed.

Lemma start_on_course tenant session em rows l : in_runs 0 l -> session_turns tenant session l -> room (length l) rows ->
  closed (tx em) = false -> (length l <= capacity (tx em))%nat ->
  on_course tenant session 0 (start_flush em rows) l.
Proof. intros. by split. Qed.

Lemma next_rows tenant session : owner session = Some tenant -> forall l rows, session_turns tenant session l ->
  next_index tenant session (rows ++ rows_from (next_index tenant session rows) l) =
  next_index tenant session rows + Z.of_nat (length l).
Proof.
  intros Ho l. induction l as [|e l IH]; intros rows; [intros _; simpl; rewrite app_nil_r; lia|].
  intros [[_ Hk] Hl]%Forall_cons. assert (Hse : te_session_id e = session) by (by inversion Hk).
  pose proof (next_snoc tenant e rows) as H. rewrite Hse in H. specialize (H Ho).
  rewrite rows_from_cons, (cons_middle (row_of _ _)), app_assoc, <- H, (IH _ Hl), H. simpl length. lia.
Qed.

Lemma rows_from_app l1 l2 : forall n, rows_from n (l1 ++ l2) = (rows_from n l1 ++ rows_from (n + Z.of_nat (length l1)) l2)%list.
Proof.
  induction l1 as [|e l1 IH]; intros n; [simpl; f_equal; lia|]. rewrite <- app_comm_cons, !rows_from_cons, IH. simpl.
  do 3 f_equal. lia.
Qed.

Lemma quiet_session_stored cap em rows tenant session evs :
  with_fact_extractor cap = Ret em -> Forall working evs -> owner session = Some tenant ->
  in_runs 0 (emitted_by evs) -> session_turns tenant session (emitted_by evs) ->
  (length (emitted_by evs) <= cap)%nat -> room (length (emitted_by evs)) rows ->
  exists s', running_task (evs ++ CancelTask :: repeat (TaskStep quiet quiet) (S (length (emitted_by evs))))
               (start_flush em rows) = Ret s' /\
    finished s' = true /\
    table s' = (rows ++ rows_from (next_index tenant session rows) (emitted_by evs))%list /\
    map fst (outcomes s') = emitted_by evs /\ Forall went_well (outcomes s').
Proof.
  intros Hem Hev Ho Hr Ht Hl Hroom.
  assert (Htx : tx em = {| capacity := cap; queue := []; closed := false |}).
  { unfold with_fact_extractor, channel in Hem. destruct (cap =? 0)%nat; by simplify_eq/=. }
  set (E := emitted_by evs) in *. set (s0 := start_flush em rows).
  assert (Hq0 : queue (tx (emitter s0)) = []) by (simpl; by rewrite Htx).
  destruct (quiet_task tenant session Ho evs) with (k := 0) (s := s0) (E := E) as (s1 & Hrun1 & _ & Hst1).
  { eapply Forall_impl; [done|]. by intros []. }
  { rewrite Hq0. apply start_on_course; try done; by rewrite Htx. }
  { done. }
  destruct (working_open evs Hev s0 s1) as [Hc1 Hl1]; try done.
  destruct Hst1 as (done1 & late & Heq & Ht1 & (os & Hos & Hfst & Hgood) & _ & [->|Hd] & k1 & Hoc1); [|congruence].
  rewrite Hq0, app_nil_r in Heq. simpl in Heq.
  set (cancelling := CancelTask :: repeat (TaskStep quiet quiet) (S (length E))).
  destruct (quiet_task tenant session Ho cancelling) with (k := k1) (s := s1) (E := @nil TurnEnvelope)
    as (s2 & Hrun2 & _ & done2 & late & Heq2 & Ht2 & (os2 & Hos2 & Hfst2 & Hgood2) & ->%suffix_nil_inv & _).
  { constructor; [done|]. apply Forall_forall. intros ev ->%list_elem_of_In%repeat_spec. done. }
  { by rewrite app_nil_r. }
  { unfold cancelling. destruct (live s1); [|done]. simpl. clear. induction (length E); simpl; auto. }
  exists s2. rewrite run_task_app, Hrun1. simpl.
  pose proof Hrun2 as Hdr. unfold cancelling in Hdr. cbn [run_task step exec_bind] in Hdr.
  apply drains in Hdr as [Hf Hq2]; [|done|simpl; unfold live in Hl1; by destruct (finished s1)|].
  2: { simpl. apply (f_equal length) in Heq. rewrite length_app in Heq. lia. }
  rewrite Hq2, !app_nil_r in Heq2. subst done2.
  simpl in Hos. rewrite Hos in Hos2.
  split_and!; [done|done| |by rewrite Hos2, map_app, Hfst, Hfst2|rewrite Hos2; by apply Forall_app].
  rewrite Ht2, Ht1, Heq, rows_from_app, <- app_assoc, next_rows; [done|done|].
  rewrite Heq in Ht. by apply Forall_app in Ht as [? _].
Qed.

(** *** The turns of the agent loop's runs *)

Context (parse_uuid : string -> option string).

(** The conversation of a run of the agent loop for this session: what
    [AgentLoop.run_numbers_its_turns] states of every run's end. *)
Definition session_run (tenant session : string) (r : AgentInput * Convo) : Prop :=
  numbered parse_uuid r.1 r.2 /\ parse_uuid (in_task_id r.1) = Some session /\ parse_uuid (in_tenant_id r.1) = Some tenant.

Definition transcript (runs : list (AgentInput * Convo)) : list TurnEnvelope :=
  concat (map (fun r => emitted r.2) runs).

Lemma in_runs_from l rest : forall j k, (forall i e, l !! i = Some e -> te_turn_index e = j + Z.of_nat i) ->
  (j = 0 \/ j = k) -> (forall k, in_runs k rest) -> in_runs k (l ++ rest).
Proof.
  induction l as [|e l IH]; intros j k Hl Hj Hrest; simpl; [done|].
  assert (He : te_turn_index e = j) by (rewrite (Hl 0%nat e eq_refl); lia). rewrite He. split; [done|].
  apply IH with (j := j + 1); [|by right|done]. intros i x Hx. rewrite (Hl (S i) x Hx). lia.
Qed.

Lemma transcript_in_runs tenant session runs : Forall (session_run tenant session) runs ->
  Z.of_nat (length (transcript runs)) <= i32_max -> forall k, in_runs k (transcript runs).
Proof.
  unfold transcript. induction 1 as [|[i c] runs [[Hn _] _] _ IH]; simpl; intros Hl k; [done|].
  rewrite length_app in Hl. apply in_runs_from with (j := 0); [|by left|apply IH; lia].
  intros n e He. destruct (Hn n e He) as [-> _]. apply lookup_lt_Some in He. lia.
Qed.

Lemma transcript_turns tenant session runs : owner session = Some tenant -> Forall (session_run tenant session) runs ->
  session_turns tenant session (transcript runs).
Proof.
  intros Ho. unfold transcript. induction 1 as [|[i c] runs ([Hn _] & Hs & Ht) _ IH]; simpl; [constructor|].
  apply Forall_app. split; [|done]. apply Forall_lookup. intros n e He. destruct (Hn n e He) as (Hi & H1 & H2 & Hk).
  rewrite Hs in H1. rewrite Ht in H2. simplify_eq. split; [|done]. split; [done|]. split.
  - unfold valid_kind. by destruct Hk as [-> | ->].
  - rewrite Hi. assert (0 < i32_max) by done. lia.
Qed.

(** C20: a session's transcript: its runs of the agent loop emit their turns one run after the
    other, in any interleaving with the flush task, and the session then cancels the task.  If
    the channel never fills, the database raises no error and nobody else writes, the drain ends
    the task with exactly the runs' turns appended to the table, in order, under consecutive
    indices from [MAX + 1] on, although each run counts its turns from 0 again and the offset
    cached for the first run is stale for every later one. *)
Theorem session_transcript_stored cap em rows tenant session evs runs :
  with_fact_extractor cap = Ret em -> Forall working evs -> owner session = Some tenant ->
  Forall (session_run tenant session) runs -> emitted_by evs = transcript runs ->
  (length (transcript runs) <= cap)%nat -> room (length (transcript runs)) rows ->
  exists s', running_task (evs ++ CancelTask :: repeat (TaskStep quiet quiet) (S (length (transcript runs))))
               (start_flush em rows) = Ret s' /\
    finished s' = true /\
    table s' = (rows ++ rows_from (next_index tenant session rows) (transcript runs))%list /\
    map fst (outcomes s') = transcript runs /\ Forall went_well (outcomes s').
Proof.
  intros Hem Hev Ho Hr He Hl Hroom. pose proof (quiet_session_stored cap em rows tenant session evs Hem Hev Ho) as H.
  rewrite He in H. apply H; [|by apply transcript_turns|done|done].
  apply (transcript_in_runs tenant session); [done|by destruct Hroom].
Qed.

(** whatever the events, faults and other writers: UNIQUE(session_id, turn_index) holds on,
    and no stored row is changed, removed or moved. *)
Theorem table_only_grows evs s s' : running_task evs s = Ret s' ->
  table s `prefix_of` table s' /\ (unique_rows (table s) -> unique_rows (table s')).
Proof. intros H. by apply task_grows in H. Qed.

(** the retry heals: whatever stale offset is cached, and whichever rows other writers commit
    before and within the first attempt and before the second, a turn whose two attempts the
    database does not fail is stored, provided nobody writes between the second attempt's seed
    and its insert. *)
Theorem stale_offset_heals a1 a2 env offsets rows :
  storable env -> healthy a1 -> healthy a2 -> seed_fails a2 = false -> before_insert a2 = [] ->
  fits env (rows ++ before_seed a1 ++ before_insert a1 ++ before_seed a2) ->
  exists offsets' rows' o i, persisting a1 a2 env offsets rows = Ret (offsets', rows', o) /\
    (o = Flushed \/ o = FlushedAfterReseed) /\ rows `prefix_of` rows' /\ row_of env i ∈ rows'.
Proof.
  intros Hs Ha1 Ha2 Hsd Hbi Hf. unfold persist.
  destruct (flush_healthy a1 env offsets rows Hs Ha1) as ([[off1 rows1] r1] & H1 & Hst).
  { intros r Hr%others_elem. apply Hf. rewrite !elem_of_app in *. tauto. }
  rewrite H1. simpl. pose proof (flush_grows _ _ _ _ _ _ _ H1) as [Hp1 _].
  destruct Hst as [[-> (i & Hi)]|(-> & Hnone & Hsub)]; [by exists off1, rows1, Flushed, i; auto|]. simpl.
  assert (Hf2 : fits env (others_commit (before_seed a2) rows1)).
  { intros r Hr%others_elem. apply Hf. rewrite !elem_of_app in *. destruct Hr as [Hr|Hr]; [|tauto].
    apply Hsub in Hr. rewrite !elem_of_app in Hr. tauto. }
  pose proof (flush_seeded a2 env off1 rows1 Hs Ha2 Hnone Hf2 Hsd Hbi) as H2. rewrite H2. simpl.
  do 4 eexists. split; [done|]. split; [by right|]. apply flush_grows in H2 as [Hp2 _]. split; [by etrans|].
  apply elem_of_app. right. by constructor.
Qed.

(** *** The channels *)

Definition taken_turns (s : FlushTask) : list TurnEnvelope := map fst (outcomes s).

Definition fact_queue (s : FlushTask) : list TurnEnvelope :=
  match fact_tx (emitter s) with Some fx => queue fx | None => [] end.

Definition is_turn (e : TurnEnvelope) : Prop := te_kind e = KIND_TURN.

Definition within_capacity (s : FlushTask) : Prop :=
  (length (queue (tx (emitter s))) <= capacity (tx (emitter s)))%nat /\
  match fact_tx (emitter s) with Some fx => (length (queue fx) <= capacity fx)%nat | None => True end.

Lemma try_send_queue env c : (queue (try_send env c).1 = queue c \/ queue (try_send env c).1 = (queue c ++ [env])%list) /\
  capacity (try_send env c).1 = capacity c /\
  ((length (queue c) <= capacity c)%nat -> (length (queue (try_send env c).1) <= capacity c)%nat).
Proof.
  unfold try_send. destruct (closed c); [simpl; auto|]. destruct (_ <=? _)%nat eqn:E; simpl; [auto|].
  apply Nat.leb_gt in E. rewrite length_app. simpl. split_and!; auto with lia.
Qed.

Definition sent_turns (s : FlushTask) : list TurnEnvelope := (taken_turns s ++ queue (tx (emitter s)))%list.

Definition emits (ev : Event) : list TurnEnvelope := match ev with EmitTurn e => [e] | _ => [] end.

Lemma emitted_by_cons ev evs : emitted_by (ev :: evs) = (emits ev ++ emitted_by evs)%list.
Proof. by destruct ev. Qed.

(** One event sends at most the envelope it emits. *)
Record sends_in_order (ev : Event) (s s1 : FlushTask) : Prop := {
  sent_step : sent_turns s1 `sublist_of` (sent_turns s ++ emits ev);
  fact_step : fact_queue s1 `sublist_of` (fact_queue s ++ emits ev);
  kind_step : Forall is_turn (fact_queue s) -> Forall is_turn (fact_queue s1);
  capacity_step : within_capacity s -> within_capacity s1;
}.

Lemma sends_refl ev s s1 : sent_turns s1 = sent_turns s -> fact_tx (emitter s1) = fact_tx (emitter s) ->
  (within_capacity s -> within_capacity s1) -> sends_in_order ev s s1.
Proof.
  intros H1 H2 H3. unfold fact_queue. split; unfold fact_queue; rewrite ?H1, ?H2; auto; by apply sublist_inserts_r.
Qed.

Lemma emit_in_order env s : sends_in_order (EmitTurn env) s (set_emitter (emit_turn env (emitter s)) s).
Proof.
  pose proof (try_send_queue env (tx (emitter s))) as (Hq & Hc & Hl).
  split; unfold sent_turns, taken_turns, fact_queue, within_capacity; simpl.
  - rewrite <- app_assoc. apply sublist_app; [done|]. destruct Hq as [->| ->]; [by apply sublist_inserts_r|done].
  - destruct (fact_tx (emitter s)) as [fx|]; [|apply sublist_nil_l].
    destruct (String.eqb _ _); [|by apply sublist_inserts_r].
    destruct (try_send_queue env fx) as [[->| ->] _]; [by apply sublist_inserts_r|done].
  - destruct (fact_tx (emitter s)) as [fx|]; [|done].
    destruct (String.eqb _ _) eqn:Ek; [|done]. apply String.eqb_eq in Ek.
    destruct (try_send_queue env fx) as [[->| ->] _]; [done|]. intros H. apply Forall_app. by repeat constructor.
  - rewrite Hc. intros [H1 H2]. split; [auto|]. destruct (fact_tx (emitter s)) as [fx|]; [|done].
    destruct (String.eqb _ _); [|done]. destruct (try_send_queue env fx) as (_ & -> & H). auto.
Qed.

Lemma step_in_order ev s s1 : stepping ev s = Ret s1 -> sends_in_order ev s s1.
Proof.
  destruct ev as [env| | |a1 a2]; simpl; intros H; try (simplify_eq; by apply sends_refl).
  - simplify_eq. destruct (senders_dropped s); [by apply sends_refl|]. apply emit_in_order.
  - unfold task_step in H. destruct (finished s); [simplify_eq; by apply sends_refl|].
    destruct (queue (tx (emitter s))) as [|env rest] eqn:Hq.
    + destruct (_ || _); simplify_eq; by apply sends_refl.
    + apply exec_bind_ret in H as ([[off rows] o] & _ & H). simplify_eq. apply sends_refl; [|done|].
      * unfold sent_turns, taken_turns. simpl. by rewrite Hq, map_app, <- app_assoc.
      * unfold within_capacity. simpl. rewrite Hq. simpl. intros [? ?]. split; [lia|done].
Qed.

Lemma run_in_order evs : forall s s', running_task evs s = Ret s' ->
  sent_turns s' `sublist_of` (sent_turns s ++ emitted_by evs) /\
  fact_queue s' `sublist_of` (fact_queue s ++ emitted_by evs) /\
  (Forall is_turn (fact_queue s) -> Forall is_turn (fact_queue s')) /\
  (within_capacity s -> within_capacity s').
Proof.
  induction evs as [|ev evs IH]; intros s s' H; [simpl in *; simplify_eq; by rewrite !app_nil_r|].
  simpl in H. apply exec_bind_ret in H as (s1 & []%step_in_order & (H1 & H2 & H3 & H4)%IH).
  rewrite emitted_by_cons, !app_assoc. split_and!; auto; (etrans; [eassumption|]); by apply sublist_app.
Qed.

(** backpressure drops, it never reorders: whatever happens, the turns taken and the turns
    queued are, in order, among the emitted ones, each once; neither channel outgrows its
    capacity, a full one keeps what it holds; and only turns of kind "turn" ever reach the fact
    extractor. *)
Theorem channels_drop_newest cap em rows evs s : with_fact_extractor cap = Ret em ->
  running_task evs (start_flush em rows) = Ret s ->
  sent_turns s `sublist_of` emitted_by evs /\
  fact_queue s `sublist_of` emitted_by evs /\ Forall is_turn (fact_queue s) /\ within_capacity s.
Proof.
  intros Hem H. apply run_in_order in H as (H1 & H2 & H3 & H4).
  unfold with_fact_extractor, channel in Hem. destruct (cap =? 0)%nat; simplify_eq/=.
  split_and!; [done|done|by apply H3; constructor|]. apply H4. split; simpl; lia.
Qed.

End TableFacts.

(** ** Examples *)

Module TurnDemo.

Definition owner (session : string) : option string := if String.eqb session "s1" then Some "t1" else None.

Definition turn (i : Z) (text : string) : TurnEnvelope := {|
  te_session_id := "s1"; te_tenant_id := "t1"; te_turn_index := i; te_role := "user"; te_content := JString text;
  te_token_usage := None; te_kind := KIND_TURN |}.

Definition old_rows : list Row := [row_of (turn 0 "old") 0; row_of (turn 1 "old") 1].

Definition emitter_of (cap : nat) : TurnEmitter :=
  {| tx := {| capacity := cap; queue := []; closed := false |};
     fact_tx := Some {| capacity := cap; queue := []; closed := false |} |}.

(** Two runs; the first is half persisted when the second starts. *)
Definition two_runs : list Event :=
  [EmitTurn (turn 0 "a"); TaskStep quiet quiet; EmitTurn (turn 1 "b"); EmitTurn (turn 0 "c"); TaskStep quiet quiet;
   EmitTurn (turn 1 "d")].

Definition loop_input : AgentInput :=
  runtime_shell "s1" "t1" "m" React 4 100 1000 false false Safety.Autonomous.
Definition loop_run (l : list TurnEnvelope) : Convo :=
  {| messages := []; turn_index := Z.of_nat (length l); emitted := l |}.
Definition loop_runs : list (AgentInput * Convo) :=
  [(loop_input, loop_run [turn 0 "a"; turn 1 "b"]); (loop_input, loop_run [turn 0 "c"; turn 1 "d"])].

Definition stored_indices (s : FlushTask) : list (Z * json) := map (fun r => (row_index r, row_content r)) (table s).

Definition unreachable : DbError := OtherError "connection refused".
Definition down : Attempt :=
  {| begin_fails := Some unreachable; context_fails := None; before_seed := []; seed_fails := false;
     before_insert := []; insert_fails := None; commit_fails := None |}.

(** Another writer takes the index between the seed and the insert. *)
Definition raced : Attempt :=
  {| begin_fails := None; context_fails := None; before_seed := []; seed_fails := false;
     before_insert := [row_of (turn 0 "theirs") 2]; insert_fails := None; commit_fails := None |}.

End TurnDemo.

Import TurnDemo.

Lemma session_transcript_stored_witness : exists s',
  run_task owner true (two_runs ++ CancelTask :: repeat (TaskStep quiet quiet) 5) (start_flush (emitter_of 8) old_rows) = Ret s' /\
  finished s' = true /\
  table s' = (old_rows ++ rows_from (next_index owner true "t1" "s1" old_rows) (transcript loop_runs))%list /\
  map fst (outcomes s') = transcript loop_runs /\ Forall went_well (outcomes s').
Proof.
  apply (session_transcript_stored owner true Some 8 (emitter_of 8) old_rows "t1" "s1" two_runs loop_runs).
  - reflexivity.
  - repeat constructor.
  - reflexivity.
  - assert (H : forall a b, numbered Some loop_input (loop_run [turn 0 a; turn 1 b])).
    { intros a b. split; [|reflexivity]. intros [|[|i]] e He; simpl in He; [injection He as <-..|discriminate];
        (split_and!; [reflexivity..|by left]). }
    constructor; [split; [apply H|split; reflexivity]|]. constructor; [split; [apply H|split; reflexivity]|constructor].
  - reflexivity.
  - simpl. lia.
  - split; [vm_compute; discriminate|]. intros r Hr.
    repeat (apply elem_of_cons in Hr as [->|Hr]; [vm_compute; split; discriminate|]). by apply elem_of_nil in Hr.
Defined.

(** The absolute indices of the two runs: 2, 3 and, after the reseed, 4, 5. *)
Example two_runs_indices : exists s',
  run_task owner true (two_runs ++ CancelTask :: repeat (TaskStep quiet quiet) 5) (start_flush (emitter_of 8) old_rows) = Ret s' /\
  map fst (stored_indices s') = [0; 1; 2; 3; 4; 5] /\
  map snd (outcomes s') = [Flushed; Flushed; FlushedAfterReseed; Flushed].
Proof. eexists. split; [vm_compute; reflexivity|]. split; reflexivity. Qed.

Lemma stale_offset_heals_witness : exists offsets' rows' o i,
  persist owner true raced quiet (turn 0 "ours") ∅ old_rows = Ret (offsets', rows', o) /\
  (o = Flushed \/ o = FlushedAfterReseed) /\ old_rows `prefix_of` rows' /\ row_of (turn 0 "ours") i ∈ rows'.
Proof.
  apply (stale_offset_heals owner true raced quiet (turn 0 "ours") ∅ old_rows); try reflexivity.
  - split; [reflexivity|]. split; [reflexivity|]. vm_compute. split; discriminate.
  - repeat split.
  - repeat split.
  - intros r Hr. repeat (apply elem_of_cons in Hr as [->|Hr]; [vm_compute; split; discriminate|]). by apply elem_of_nil in Hr.
Defined.

Lemma table_only_grows_witness : exists s',
  run_task owner true two_runs (start_flush (emitter_of 8) old_rows) = Ret s' /\
  old_rows `prefix_of` table s' /\ (unique_rows old_rows -> unique_rows (table s')).
Proof.
  destruct (run_task owner true two_runs (start_flush (emitter_of 8) old_rows)) as [s'|] eqn:E; [|vm_compute in E; discriminate].
  exists s'. split; [reflexivity|]. exact (table_only_grows owner true two_runs (start_flush (emitter_of 8) old_rows) s' E).
Defined.

Lemma channels_drop_newest_witness : exists s,
  run_task owner true two_runs (start_flush (emitter_of 1) old_rows) = Ret s /\
  sent_turns s `sublist_of` emitted_by two_runs.
Proof.
  destruct (run_task owner true two_runs (start_flush (emitter_of 1) old_rows)) as [s|] eqn:E; [|vm_compute in E; discriminate].
  exists s. split; [reflexivity|].
  exact (proj1 (channels_drop_newest owner true 1 (emitter_of 1) old_rows two_runs s eq_refl E)).
Defined.

(** One failed connection on the session's first turn leaves index 0 free; the next run's first
    turn then takes it, before the turns of the run that preceded it. *)
Example lost_turn_inverts_the_transcript : exists s',
  run_task owner true
    [EmitTurn (turn 0 "run 1, lost"); EmitTurn (turn 1 "run 1, answer"); EmitTurn (turn 0 "run 2, question");
     EmitTurn (turn 1 "run 2, answer"); TaskStep down quiet; TaskStep quiet quiet; TaskStep quiet quiet; TaskStep quiet quiet]
    (start_flush (emitter_of 8) []) = Ret s' /\
  stored_indices s' =
    [(1, JString "run 1, answer"); (0, JString "run 2, question"); (3, JString "run 2, answer")].
Proof. eexists. split; vm_compute; reflexivity. Qed.
