(* ===== verification/FactExtract.v ===== *)
(** * User-model facts

    roz-agent/agent_loop/fact_extractor.rs (batches of a tenant's turns, the auxiliary model's
    answer and what is kept of it) and roz-db/user_model_facts.rs.  The auxiliary model's
    answers, the parsed facts, the digest, the clock and the database's faults are given. *)

From stdpp Require Import sorting.
From Stdlib Require Import Ascii.
From S2P Require Import Prelude Float64 RustStr Json Context Dispatch ModelCalls AgentLoop TurnFlush.

(** ** user_model_facts.rs *)

Definition USER_MODEL_FACT_CHAR_CAP : Z := 1024.

Record FactRow : Type := {
  fact_tenant : string;
  observed_peer : string;
  observer_peer : string;
  fact_text : string;
  fact_confidence : f64;
  stale_after : option DateTime;
  created_at : DateTime;
}.

(** ORDER BY created_at DESC *)
Definition newer (a b : FactRow) : Prop := created_at b <= created_at a.

#[export] Instance newer_dec : RelDecision newer.
Proof. intros a b. unfold newer. apply Z_le_dec. Defined.

Definition newest_first (rows : list FactRow) : list FactRow := merge_sort newer rows.

Definition of_peer (tenant observed : string) (r : FactRow) : bool :=
  String.eqb (fact_tenant r) tenant && String.eqb (observed_peer r) observed.

Definition fresh_at (now : DateTime) (r : FactRow) : bool :=
  match stale_after r with None => true | Some t => now <? t end.

Definition list_recent_facts (now : DateTime) (tenant observed : string) (limit : nat) (rows : list FactRow) : list FactRow :=
  take limit (newest_first (List.filter (fun r => of_peer tenant observed r && fresh_at now r) rows)).

(** The row-level policy and the CHECKs on the text and on the confidence. *)
Definition insert_fact (tenant : string) (r : FactRow) (rows : list FactRow) : result (list FactRow) DbError :=
  if negb (String.eqb (fact_tenant r) tenant) then Err (Database "42501")
  else if (0 <? chars_count (fact_text r)) && (chars_count (fact_text r) <=? USER_MODEL_FACT_CHAR_CAP) &&
          f64_le zero (fact_confidence r) && f64_le (fact_confidence r) one
  then Ok (rows ++ [r])%list
  else Err (Database "23514").

Section Facts.

Context (md5 : string -> string) (to_string : json -> string).

Definition is_duplicate (tenant observed fact : string) (recent_limit : nat) (rows : list FactRow) : bool :=
  let matching := List.filter (fun r => of_peer tenant observed r && String.eqb (md5 (fact_text r)) (md5 fact)) rows in
  (0 <? length (take recent_limit (newest_first matching)))%nat.

(** ** fact_extractor.rs *)

Definition DEFAULT_FACT_EXTRACTION_BATCH_SIZE : Z := 5.
Definition FACT_EXTRACTION_BATCH_MIN : Z := 4.
Definition FACT_EXTRACTION_BATCH_MAX : Z := 6.
Definition FACT_BUFFER_PER_SESSION_MAX : nat := 50.
Definition FACT_DEDUP_RECENT_LIMIT : nat := 50.
Definition DEFAULT_FACT_STALE_AFTER_SECS : Z := 90 * 24 * 60 * 60.

(** [0.6f32], the binary32 value. *)
Definition FACT_CONFIDENCE_FLOOR : f64 := f64_div (f64_of_Z 10066330) (f64_of_Z 16777216).

Record FactExtractorConfig : Type := {
  observed_peer_id : string;
  observer_peer_id : string;
  batch_size : Z;
  default_stale_after_secs : option Z;
}.

(** [env] is ROZ_FACT_EXTRACTION_BATCH_SIZE. *)
Definition default_config (env : option string) : FactExtractorConfig :=
  let n := default DEFAULT_FACT_EXTRACTION_BATCH_SIZE (env ≫= parse_usize) in {|
  observed_peer_id := "user"; observer_peer_id := "roz";
  batch_size := Z.max FACT_EXTRACTION_BATCH_MIN (Z.min FACT_EXTRACTION_BATCH_MAX n);
  default_stale_after_secs := Some DEFAULT_FACT_STALE_AFTER_SECS |}.

Definition transcript_line (t : TurnEnvelope) : string :=
  "[" +:+ te_role t +:+ "] " +:+ match te_content t with JString s => s | other => to_string other end.

Definition extraction_prompt (turns : list TurnEnvelope) : string :=
  let q := String (ascii_of_nat 34) "" in
  "Conversation transcript:" +:+ newline +:+ join_lines (map transcript_line turns) +:+ newline +:+ newline +:+
  "Task: Extract 0 to 5 DURABLE facts about the user that would be useful in future sessions (preferences, constraints, calibration quirks, stated goals). Ignore transient conversational content. Return ONLY valid JSON in the shape: [{" +:+
  q +:+ "fact" +:+ q +:+ ": " +:+ q +:+ "..." +:+ q +:+ ", " +:+ q +:+ "confidence" +:+ q +:+ ": 0.0..1.0}]".

Definition EXTRACTION_SYSTEM : string := "You extract durable user-model facts from conversation transcripts.".

(** What one batch meets: the auxiliary model, the text of its answer as facts, the clock and
    [try_seconds] per fact, and the transactions the database fails. *)
Record BatchWorld : Type := {
  complete_text : string -> string -> result string string;
  parse_facts : string -> option (list (string * f64));
  now_at : nat -> DateTime;
  db_fails : nat -> option DbError;
}.

Definition store_fact (w : BatchWorld) (config : FactExtractorConfig) (tenant : string) (i : nat) (f : string * f64)
    (rows : list FactRow) : list FactRow :=
  let trimmed := trim f.1 in
  if String.eqb trimmed "" || (USER_MODEL_FACT_CHAR_CAP <? chars_count trimmed) then rows
  else if f64_lt f.2 FACT_CONFIDENCE_FLOOR then rows
  else
    match db_fails w i with
    | Some _ => rows
    | None =>
        if is_duplicate tenant (observed_peer_id config) trimmed FACT_DEDUP_RECENT_LIMIT rows then rows
        else
          match insert_fact tenant
            {| fact_tenant := tenant; observed_peer := observed_peer_id config; observer_peer := observer_peer_id config;
               fact_text := trimmed; fact_confidence := f.2;
               stale_after := (fun s => now_at w i + from_secs s) <$> default_stale_after_secs config;
               created_at := now_at w i |} rows with
          | Ok rows' => rows'
          | Err _ => rows
          end
    end.

Fixpoint store_facts (w : BatchWorld) (config : FactExtractorConfig) (tenant : string) (i : nat) (facts : list (string * f64))
    (rows : list FactRow) : list FactRow :=
  match facts with
  | [] => rows
  | f :: facts => store_facts w config tenant (S i) facts (store_fact w config tenant i f rows)
  end.

Definition flush_batch (w : BatchWorld) (config : FactExtractorConfig) (tenant : string) (buffered : list TurnEnvelope)
    (rows : list FactRow) : list FactRow :=
  match buffered with
  | [] => rows
  | _ =>
      match complete_text w EXTRACTION_SYSTEM (extraction_prompt buffered) with
      | Err _ => rows
      | Ok raw =>
          match parse_facts w raw with
          | None => rows
          | Some facts => store_facts w config tenant 0 facts rows
          end
      end
  end.

(** *** run_fact_extractor_task *)

Record Extractor : Type := {
  buffers : gmap string (list TurnEnvelope);
  batches : list (string * list TurnEnvelope);
  fact_rows : list FactRow;
}.

Definition start_extractor (rows : list FactRow) : Extractor := {| buffers := ∅; batches := []; fact_rows := rows |}.

Definition set_buffers (b : gmap string (list TurnEnvelope)) (s : Extractor) : Extractor :=
  {| buffers := b; batches := batches s; fact_rows := fact_rows s |}.

(** The [world] answers the batches in their order. *)
Definition flush_to (world : nat -> BatchWorld) (config : FactExtractorConfig) (tenant : string)
    (buffered : list TurnEnvelope) (s : Extractor) : Extractor := {|
  buffers := buffers s; batches := (batches s ++ [(tenant, buffered)])%list;
  fact_rows := flush_batch (world (length (batches s))) config tenant buffered (fact_rows s) |}.

(** Drop-oldest above the cap. *)
Definition trim_buffer (tenant : string) (s : Extractor) : Extractor :=
  match buffers s !! tenant with
  | Some bucket =>
      if (FACT_BUFFER_PER_SESSION_MAX <? length bucket)%nat
      then set_buffers (<[tenant := drop (length bucket - FACT_BUFFER_PER_SESSION_MAX) bucket]> (buffers s)) s
      else s
  | None => s
  end.

Definition on_turn (world : nat -> BatchWorld) (config : FactExtractorConfig) (env : TurnEnvelope) (s : Extractor) : Extractor :=
  let tenant := te_tenant_id env in
  let bucket := (default [] (buffers s !! tenant) ++ [env])%list in
  let s := if batch_size config <=? Z.of_nat (length bucket)
           then flush_to world config tenant bucket (set_buffers (<[tenant := []]> (buffers s)) s)
           else set_buffers (<[tenant := bucket]> (buffers s)) s in
  trim_buffer tenant s.

(** [buffers.drain()]: in the order the hash map yields its entries, [order]. *)
Definition drain_buffers (world : nat -> BatchWorld) (config : FactExtractorConfig)
    (order : list (string * list TurnEnvelope) -> list (string * list TurnEnvelope)) (s : Extractor) : Extractor :=
  fold_left (fun s tb => flush_to world config tb.1 tb.2 s) (order (map_to_list (buffers s))) (set_buffers ∅ s).

Definition drain_channel (world : nat -> BatchWorld) (config : FactExtractorConfig) (rest : list TurnEnvelope) (s : Extractor)
    : Extractor :=
  fold_left (fun s env => flush_to world config (te_tenant_id env) [env] s) rest s.

(** The task: [received] before the end, [rest] still queued when it was cancelled (none when
    the channel was closed). *)
Definition run_fact_extractor_task (world : nat -> BatchWorld) (config : FactExtractorConfig)
    (order : list (string * list TurnEnvelope) -> list (string * list TurnEnvelope))
    (received rest : list TurnEnvelope) (rows : list FactRow) : Extractor :=
  drain_channel world config rest
    (drain_buffers world config order (fold_left (fun s env => on_turn world config env s) received (start_extractor rows))).

End Facts.

(** ** Facts: the table *)

Section TableFacts.
Context (md5 : string -> string) (to_string : json -> string).

Abbreviation storing := (store_fact md5).
Abbreviation duplicate := (is_duplicate md5).
Abbreviation flushing := (flush_batch md5 to_string).
Abbreviation receiving := (on_turn md5 to_string).
Abbreviation sending := (flush_to md5 to_string).

(** What identifies a fact to the duplicate check. *)
Definition fact_key (r : FactRow) : string * string * string := (fact_tenant r, observed_peer r, md5 (fact_text r)).

Lemma of_peer_spec tenant observed r : of_peer tenant observed r = true <-> fact_tenant r = tenant /\ observed_peer r = observed.
Proof. unfold of_peer. by rewrite andb_true_iff, !String.eqb_eq. Qed.

(** The query sees every row of the peer, not the most recent ones only. *)
Lemma duplicate_spec tenant observed fact limit rows : (0 < limit)%nat ->
  duplicate tenant observed fact limit rows = true <-> (tenant, observed, md5 fact) ∈ map fact_key rows.
Proof.
  intros Hl. unfold is_duplicate. rewrite Nat.ltb_lt, length_take. unfold newest_first.
  set (p := fun r => (of_peer tenant observed r && String.eqb (md5 (fact_text r)) (md5 fact))%bool).
  rewrite (Permutation_length (merge_sort_Permutation newer _)).
  assert (Hp : forall r, p r = true <-> fact_key r = (tenant, observed, md5 fact)).
  { intros r. unfold p, fact_key. rewrite andb_true_iff, of_peer_spec, String.eqb_eq.
    split; [by intros [[-> ->] ->]|by intros [= -> -> ->]]. }
  rewrite list_elem_of_fmap. split.
  - destruct (List.filter p rows) as [|r l] eqn:E; simpl; [lia|]. intros _. exists r.
    assert (H : In r (List.filter p rows)) by (rewrite E; by left). apply filter_In in H as [H1 H2%Hp].
    split; [done|by apply list_elem_of_In].
  - intros (r & Hk & Hr). assert (H : In r (List.filter p rows)).
    { apply filter_In. split; [by apply list_elem_of_In|by apply Hp]. }
    destruct (List.filter p rows); [done|]. simpl. lia.
Qed.

Definition well_formed_fact (r : FactRow) : Prop :=
  fact_text r <> "" /\ chars_count (fact_text r) <= USER_MODEL_FACT_CHAR_CAP /\
  f64_lt (fact_confidence r) FACT_CONFIDENCE_FLOOR = false /\ f64_le (fact_confidence r) one = true.

(** A stored fact is new, well formed, trimmed and the configured observer's. *)
Definition adds_fact (config : FactExtractorConfig) (tenant : string) (rows rows' : list FactRow) : Prop :=
  rows' = rows \/
  exists r, rows' = (rows ++ [r])%list /\ fact_key r ∉ map fact_key rows /\ well_formed_fact r /\
    fact_tenant r = tenant /\ observed_peer r = observed_peer_id config /\ observer_peer r = observer_peer_id config.

Lemma store_fact_spec w config tenant i f rows : adds_fact config tenant rows (storing w config tenant i f rows).
Proof.
  unfold store_fact. destruct (String.eqb (trim f.1) "") eqn:E1; simpl; [by left|].
  destruct (_ <? _) eqn:E2; [by left|]. destruct (f64_lt _ _) eqn:E3; [by left|]. destruct (db_fails w i); [by left|].
  destruct (is_duplicate _ _ _ _ _ _) eqn:E4; [by left|]. destruct (insert_fact _ _ _) as [rows'|] eqn:E5; [|by left].
  right. unfold insert_fact in E5. repeat case_match; simplify_eq/=.
  eexists. split_and!; [done|..|done|done|done].
  - unfold fact_key. simpl. intros Hd. apply duplicate_spec with (limit := FACT_DEDUP_RECENT_LIMIT) in Hd;
      [congruence|unfold FACT_DEDUP_RECENT_LIMIT; lia].
  - bool_prop. split_and!; simpl; [by apply String.eqb_neq|tauto..].
Qed.
(** Any number of such additions. *)
Definition unique_facts (rows : list FactRow) : Prop := NoDup (map fact_key rows).

Record learns (config : FactExtractorConfig) (rows rows' : list FactRow) : Prop := {
  learns_prefix : rows `prefix_of` rows';
  learns_unique : unique_facts rows -> unique_facts rows';
  learns_new : forall r, r ∈ rows' -> r ∈ rows \/
    (fact_key r ∉ map fact_key rows /\ well_formed_fact r /\ observed_peer r = observed_peer_id config /\
     observer_peer r = observer_peer_id config);
}.

#[local] Instance learns_preorder config : PreOrder (learns config).
Proof.
  split; [intros rows; by split; auto|]. intros a b c [H1 H2 H3] [H4 H5 H6]. split; [by etrans|auto|].
  intros r [Hr|(Hk & Hr)]%H6; [by apply H3|]. right. split; [|done].
  intros (x & Hx & Hin)%list_elem_of_fmap. apply Hk. apply list_elem_of_fmap. exists x. split; [done|].
  destruct H1 as [new ->]. apply elem_of_app. by left.
Qed.

Lemma adds_learns config tenant rows rows' : adds_fact config tenant rows rows' -> learns config rows rows'.
Proof.
  intros [->|(r & -> & Hk & Hw & _ & H1 & H2)]; [reflexivity|]. split.
  - by eexists.
  - intros Hu. unfold unique_facts. rewrite map_app. simpl. apply NoDup_app. split_and!; [done| |apply NoDup_singleton].
    by intros x Hx ->%list_elem_of_singleton.
  - intros x [Hx| ->%list_elem_of_singleton]%elem_of_app; [by left|]. by right.
Qed.

Lemma store_facts_learns w config tenant facts : forall i rows,
  learns config rows (store_facts md5 w config tenant i facts rows).
Proof.
  induction facts as [|f facts IH]; intros i rows; simpl; [reflexivity|].
  etrans; [eapply adds_learns, store_fact_spec|apply IH].
Qed.

Lemma flush_batch_learns w config tenant buffered rows : learns config rows (flushing w config tenant buffered rows).
Proof.
  unfold flush_batch. destruct buffered; [reflexivity|]. destruct (complete_text _ _ _); [|reflexivity].
  destruct (parse_facts _ _); [apply store_facts_learns|reflexivity].
Qed.

(** ** Facts: the task *)

Definition turns_of (tenant : string) (bs : list (string * list TurnEnvelope)) : list TurnEnvelope :=
  concat (map snd (base.filter (fun b => b.1 = tenant) bs)).

Definition of_tenant (tenant : string) (l : list TurnEnvelope) : list TurnEnvelope :=
  base.filter (fun e => te_tenant_id e = tenant) l.

Lemma turns_of_app tenant a b : turns_of tenant (a ++ b) = (turns_of tenant a ++ turns_of tenant b)%list.
Proof. unfold turns_of. by rewrite filter_app, map_app, concat_app. Qed.

Lemma turns_of_one tenant t l : turns_of tenant [(t, l)] = if decide (t = tenant) then l else [].
Proof. unfold turns_of. rewrite filter_cons. simpl. destruct (decide (t = tenant)); simpl; by rewrite ?app_nil_r. Qed.

(** Before the end: every turn received is in a batch or in its tenant's buffer, in order; no
    buffer holds a whole batch, so that the drop-oldest branch is dead. *)
Record steady (config : FactExtractorConfig) (rows : list FactRow) (received : list TurnEnvelope) (s : Extractor) : Prop := {
  st_turns : forall t, (turns_of t (batches s) ++ default [] (buffers s !! t))%list = of_tenant t received;
  st_small : forall t b, buffers s !! t = Some b -> Z.of_nat (length b) < batch_size config;
  st_batches : Forall (fun b => Z.of_nat (length b.2) = batch_size config) (batches s);
  st_rows : learns config rows (fact_rows s);
}.

Definition reasonable (config : FactExtractorConfig) : Prop :=
  1 <= batch_size config <= Z.of_nat FACT_BUFFER_PER_SESSION_MAX.

Lemma default_reasonable env : reasonable (default_config env).
Proof. unfold reasonable, default_config, FACT_BUFFER_PER_SESSION_MAX, FACT_EXTRACTION_BATCH_MIN, FACT_EXTRACTION_BATCH_MAX. simpl. lia. Qed.

Lemma trim_small tenant s : (forall b, buffers s !! tenant = Some b -> (length b <= FACT_BUFFER_PER_SESSION_MAX)%nat) ->
  trim_buffer tenant s = s.
Proof.
  intros H. unfold trim_buffer. destruct (buffers s !! tenant) as [b|] eqn:E; [|done].
  specialize (H _ eq_refl). by rewrite (proj2 (Nat.ltb_ge _ _)).
Qed.

Lemma of_tenant_snoc t l env :
  of_tenant t (l ++ [env]) = (of_tenant t l ++ if decide (te_tenant_id env = t) then [env] else [])%list.
Proof. unfold of_tenant. rewrite filter_app. f_equal. Qed.

Lemma on_turn_steady world config rows received s env : reasonable config ->
  steady config rows received s -> steady config rows (received ++ [env]) (receiving world config env s).
Proof.
  intros [Hb1 Hb2] [Ht Hs Hb Hr]. unfold on_turn. set (tenant := te_tenant_id env).
  set (bucket := (default [] (buffers s !! tenant) ++ [env])%list).
  assert (Hlen : Z.of_nat (length bucket) <= batch_size config).
  { unfold bucket. rewrite length_app. simpl. destruct (buffers s !! tenant) as [b|] eqn:E; simpl; [|lia].
    specialize (Hs _ _ E). lia. }
  destruct (Z.leb_spec (batch_size config) (Z.of_nat (length bucket))); simpl.
  - rewrite trim_small by (simpl; intros b; rewrite lookup_insert_eq; intros [= <-]; simpl; lia).
    split; simpl.
    + intros t. rewrite turns_of_app, turns_of_one, of_tenant_snoc, <- Ht. fold tenant.
      destruct (decide (tenant = t)) as [->|Hne].
      * rewrite lookup_insert_eq. simpl. unfold bucket. by rewrite app_nil_r, app_assoc.
      * by rewrite lookup_insert_ne, !app_nil_r.
    + intros t b. destruct (decide (tenant = t)) as [->|Hne]; [rewrite lookup_insert_eq; intros [= <-]; simpl; lia|].
      rewrite lookup_insert_ne by done. apply Hs.
    + apply Forall_app. split; [done|]. constructor; [simpl; lia|done].
    + etrans; [done|]. apply flush_batch_learns.
  - rewrite trim_small by (simpl; intros b; rewrite lookup_insert_eq; intros [= <-]; lia).
    split; simpl; [| |done|done].
    + intros t. rewrite of_tenant_snoc, <- Ht. fold tenant. destruct (decide (tenant = t)) as [->|Hne].
      * rewrite lookup_insert_eq. simpl. unfold bucket. by rewrite app_assoc.
      * by rewrite lookup_insert_ne, app_nil_r.
    + intros t b. destruct (decide (tenant = t)) as [->|Hne]; [rewrite lookup_insert_eq; intros [= <-]; lia|].
      rewrite lookup_insert_ne by done. apply Hs.
Qed.

Lemma received_steady world config rows received : reasonable config ->
  steady config rows received (fold_left (fun s env => receiving world config env s) received (start_extractor rows)).
Proof.
  intros Hc. induction received as [|env received IH] using rev_ind.
  - split; simpl; done.
  - rewrite fold_left_app. simpl. by apply on_turn_steady.
Qed.

(** *** The end *)

Lemma fold_flush world config {A} (f : A -> string * list TurnEnvelope) l : forall s,
  let s' := fold_left (fun s x => sending world config (f x).1 (f x).2 s) l s in
  batches s' = (batches s ++ map f l)%list /\ buffers s' = buffers s /\ learns config (fact_rows s) (fact_rows s').
Proof.
  induction l as [|x l IH]; intros s; simpl; [by rewrite app_nil_r|].
  destruct (IH (sending world config (f x).1 (f x).2 s)) as (H1 & H2 & H3). split_and!.
  - rewrite H1. simpl. rewrite <- app_assoc. simpl. by rewrite <- surjective_pairing.
  - by rewrite H2.
  - etrans; [|done]. apply flush_batch_learns.
Qed.

Abbreviation extracting := (run_fact_extractor_task md5 to_string).

(** The end of the task: the buffers, then the channel, one batch each. *)
Lemma extracted world config order received rest rows : reasonable config ->
  let s := extracting world config order received rest rows in
  learns config rows (fact_rows s) /\ buffers s = ∅ /\
  exists s0, steady config rows received s0 /\
    batches s = (batches s0 ++ order (map_to_list (buffers s0)) ++ map (fun e => (te_tenant_id e, [e])) rest)%list.
Proof.
  intros Hc. unfold run_fact_extractor_task, drain_channel, drain_buffers.
  pose proof (received_steady world config rows received Hc) as Hst. set (s0 := fold_left _ received _) in *.
  destruct (fold_flush world config (fun b => b) (order (map_to_list (buffers s0))) (set_buffers ∅ s0)) as (H1 & H2 & H3).
  set (s1 := fold_left _ _ (set_buffers ∅ s0)) in *.
  destruct (fold_flush world config (fun e => (te_tenant_id e, [e])) rest s1) as (H4 & H5 & H6).
  split_and!; [exact (transitivity (st_rows _ _ _ _ Hst) (transitivity H3 H6))|exact (eq_trans H5 H2)|].
  exists s0. split; [done|]. etrans; [exact H4|]. rewrite H1, map_id. by rewrite <- app_assoc.
Qed.

Lemma tenant_entry (m : gmap string (list TurnEnvelope)) t l : l ≡ₚ map_to_list m ->
  turns_of t l = default [] (m !! t).
Proof.
  intros Hl. unfold turns_of.
  assert (H : base.filter (fun b => b.1 = t) l ≡ₚ match m !! t with Some b => [(t, b)] | None => [] end).
  { rewrite Hl. clear Hl l. induction m as [|k b m Hk IH] using map_ind; [by rewrite map_to_list_empty, lookup_empty|].
    rewrite map_to_list_insert by done. rewrite filter_cons. simpl. destruct (decide (k = t)) as [->|Hne].
    - rewrite lookup_insert_eq, IH, Hk. done.
    - by rewrite IH, lookup_insert_ne. }
  destruct (m !! t) as [b|].
  - apply Permutation_singleton_r in H as ->. simpl. by rewrite app_nil_r.
  - apply Permutation_nil_r in H as ->. done.
Qed.

Lemma turns_of_singles t l : turns_of t (map (fun e => (te_tenant_id e, [e])) l) = of_tenant t l.
Proof.
  induction l as [|e l IH]; [done|]. cbn [map]. etrans; [apply (turns_of_app t [(te_tenant_id e, [e])])|].
  rewrite turns_of_one, IH. unfold of_tenant. rewrite filter_cons. by destruct (decide (te_tenant_id e = t)).
Qed.

(** nothing the extractor receives is lost or seen twice: when the task ends, however the
    hash map orders its buffers, the batches sent to the auxiliary model hold, for every tenant,
    exactly the turns received and drained, in their order; until the end they are full batches
    of the configured size, so that a buffer never exceeds its cap and no turn is dropped. *)
Theorem every_turn_extracted_once world env order received rest rows (t : string) :
  let config := default_config env in
  (forall l, order l ≡ₚ l) ->
  let s := run_fact_extractor_task md5 to_string world config order received rest rows in
  turns_of t (batches s) = of_tenant t (received ++ rest) /\ buffers s = ∅.
Proof.
  intros config Ho. destruct (extracted world config order received rest rows (default_reasonable env))
    as (_ & Hb & s0 & [Ht _ _ _] & Hbs). split; [|done].
  rewrite Hbs, !turns_of_app, turns_of_singles, (tenant_entry (buffers s0) t (order _)) by apply Ho.
  unfold of_tenant. rewrite filter_app, app_assoc, Ht. done.
Qed.

(** the table of facts under the extractor, whatever the model answers and the database
    fails: existing facts stay, no two facts of a peer have the same digest unless they already
    had, and every new fact is trimmed, not empty, within the cap, confident enough and of the
    configured peers. *)
Theorem facts_stay_unique world env order received rest rows :
  let s := run_fact_extractor_task md5 to_string world (default_config env) order received rest rows in
  rows `prefix_of` fact_rows s /\ (unique_facts rows -> unique_facts (fact_rows s)) /\
  forall r, r ∈ fact_rows s -> r ∈ rows \/
    (fact_key r ∉ map fact_key rows /\ well_formed_fact r /\ observed_peer r = "user" /\ observer_peer r = "roz").
Proof.
  intros s. destruct (extracted world _ order received rest rows (default_reasonable env)) as ([] & _). done.
Qed.

(** an expired fact is never learnt again: a fact that some row of the peer already states,
    stale or not, is not stored by any batch, so a preference the listing has dropped after its
    90 days stays unlisted however often the user repeats it. *)
Theorem expired_fact_never_relearnt world env order received rest rows tenant (old : FactRow) now limit :
  fact_tenant old = tenant -> observed_peer old = "user" -> old ∈ rows ->
  (forall r, r ∈ rows -> fact_key r = fact_key old -> fresh_at now r = false) ->
  let s := run_fact_extractor_task md5 to_string world (default_config env) order received rest rows in
  forall r, r ∈ list_recent_facts now tenant "user" limit (fact_rows s) -> fact_text r <> fact_text old.
Proof.
  intros Ht Hp Hold Hstale s r Hr Htext.
  destruct (extracted world _ order received rest rows (default_reasonable env)) as ([_ _ Hnew] & _).
  unfold list_recent_facts in Hr. apply elem_of_take in Hr as (i & Hi & _). apply list_elem_of_lookup_2 in Hi.
  unfold newest_first in Hi. rewrite (merge_sort_Permutation newer) in Hi.
  apply list_elem_of_In, filter_In in Hi as [Hin [[Hrt Hrp]%of_peer_spec Hf]%andb_true_iff].
  assert (Hk : fact_key r = fact_key old) by (unfold fact_key; congruence).
  destruct (Hnew r) as [Hr|[Hr _]]; [by apply list_elem_of_In| |].
  - rewrite Hstale in Hf; done.
  - apply Hr. rewrite Hk. apply list_elem_of_fmap. by exists old.
Qed.
End TableFacts.

(** ** Examples *)

Module FactDemo.

Definition md5 (s : string) : string := s.
Definition to_string (v : json) : string := "{}".

Definition turn (i : Z) (text : string) : TurnEnvelope := {|
  te_session_id := "s1"; te_tenant_id := "t1"; te_turn_index := i; te_role := "user"; te_content := JString text;
  te_token_usage := None; te_kind := KIND_TURN |}.

Definition old : FactRow := {|
  fact_tenant := "t1"; observed_peer := "user"; observer_peer := "roz"; fact_text := "prefers slow motion";
  fact_confidence := f64_dec 9 1; stale_after := Some 100; created_at := 10 |}.

(** The auxiliary model answers every batch with the same three facts. *)
Definition world (n : nat) : BatchWorld := {|
  complete_text := fun _ _ => Ok "";
  parse_facts := fun _ => Some [(" prefers slow motion ", f64_dec 9 1); ("is left-handed", f64_dec 8 1); ("hums", f64_dec 5 1)];
  now_at := fun _ => 200; db_fails := fun _ => None |}.

Definition received : list TurnEnvelope := [turn 0 "a"; turn 1 "b"; turn 2 "c"; turn 3 "d"; turn 4 "e"].

Definition extracted : Extractor :=
  run_fact_extractor_task md5 to_string world (default_config (Some "1")) (fun l => l) received [turn 5 "f"] [old].

End FactDemo.

Import FactDemo.

(** The batch size is clamped to 4; three batches; the expired preference is not stored again. *)
Example extracted_rows :
  map (fun b => length b.2) (batches extracted) = [4; 1; 1]%nat /\
  map fact_text (fact_rows extracted) = ["prefers slow motion"; "is left-handed"] /\
  map fact_text (list_recent_facts 200 "t1" "user" 10 (fact_rows extracted)) = ["is left-handed"].
Proof. split_and!; vm_compute; reflexivity. Qed.

Lemma every_turn_extracted_once_witness :
  turns_of "t1" (batches extracted) = of_tenant "t1" (received ++ [turn 5 "f"]) /\ buffers extracted = ∅.
Proof.
  exact (every_turn_extracted_once md5 to_string world (Some "1") (fun l => l) received [turn 5 "f"] [old] "t1"
           (fun l => Permutation_refl l)).
Defined.

Lemma expired_fact_never_relearnt_witness :
  forall r, r ∈ list_recent_facts 200 "t1" "user" 10 (fact_rows extracted) -> fact_text r <> "prefers slow motion".
Proof.
  apply (expired_fact_never_relearnt md5 to_string world (Some "1") (fun l => l) received [turn 5 "f"] [old] "t1" old 200 10).
  - reflexivity.
  - reflexivity.
  - by constructor.
  - intros r ->%list_elem_of_singleton _. reflexivity.
Defined.
