(* ===== verification/Tasks.v ===== *)
(** * Tasks

    The life of a task across the system: roz-nats/dispatch.rs (messages), roz-db/tasks.rs (rows
    of tasks and runs), roz-server/routes/task_dispatch.rs and tasks.rs (dispatch and
    cancellation inside the request's transaction, middleware/tx.rs), nats_handlers.rs (status
    events, child tasks), restate/task_workflow.rs (the durable workflow), and the shell
    roz-worker/main.rs and dispatch.rs put around the agent loop.  Identifiers and clocks are
    given; the answers of the database, of Restate and of NATS are given per call. *)

From Stdlib Require Import Ascii.
From stdpp Require Import pretty.
From S2P Require Import Prelude Float64 RustStr Json Command Embodiment Deployment SafetyFilter Guards Approvals.
From S2P Require Import Subjects Context Policy Dispatch ModelCalls AgentLoop SessionData SessionRuntime TurnFlush.

(** ** roz-nats/dispatch.rs *)

Inductive ExecutionMode : Type := ModeReact | ModeOodaReAct.

#[export] Instance ExecutionMode_eq_dec : EqDecision ExecutionMode.
Proof. solve_decision. Defined.

Record TaskInvocation : Type := {
  ti_task_id : string;
  ti_tenant_id : string;
  ti_prompt : string;
  ti_environment_id : string;
  ti_host_id : string;
  ti_timeout_secs : Z;
  ti_mode : ExecutionMode;
  ti_parent_task_id : option string;
  ti_restate_url : string;
  ti_phases : list PhaseSpec;
  ti_control_interface_manifest : option ControlInterfaceManifest;
  ti_delegation_scope : option DelegationScope;
}.

Inductive TaskTerminalStatus : Type := Succeeded | TaskFailed | TimedOut | TaskCancelled | SafetyStop.

#[export] Instance TaskTerminalStatus_eq_dec : EqDecision TaskTerminalStatus.
Proof. solve_decision. Defined.

Definition as_str (s : TaskTerminalStatus) : string :=
  match s with
  | Succeeded => "succeeded" | TaskFailed => "failed" | TimedOut => "timed_out" | TaskCancelled => "cancelled"
  | SafetyStop => "safety_stop"
  end.

Record TaskResult : Type := {
  tr_task_id : string;
  tr_status : TaskTerminalStatus;
  tr_output : option json;
  tr_error : option string;
  tr_cycles : Z;
  tr_token_usage : TokenUsage;
}.

Record TaskStatusEvent : Type := {
  se_task_id : string;
  se_status : string;
  se_detail : option string;
  se_host_id : option string;
}.

(** ** roz-worker: from the turn's end to a terminal status *)

(** [Display] of the agent's errors. *)
Definition agent_error_display (e : AgentError) : string :=
  match e with
  | ModelErr e => "model error: " +:+ error_text e
  | ToolDispatchErr tool message => "tool dispatch error for '" +:+ tool +:+ "': " +:+ message
  | SafetyErr m => "safety evaluation failed: " +:+ m
  | MaxCyclesExceeded n => "max cycles (" +:+ pretty n +:+ ") exceeded"
  | StreamErr t m => "stream error [" +:+ t +:+ "]: " +:+ m
  | HttpErr _ t => "HTTP error: " +:+ t
  | UnsupportedModel n => "unsupported model: " +:+ n
  | CircuitBreakerTripped n => "circuit breaker tripped after " +:+ pretty n +:+ " consecutive all-error turns"
  | Cancelled i o => "agent loop cancelled (partial usage: " +:+ pretty i +:+ " in / " +:+ pretty o +:+ " out)"
  | BudgetExceeded p e => "usage limit reached on plan '" +:+ p +:+ "', resets " +:+ e
  | StructuredOutputParse raw err => "structured output parse failed: " +:+ err +:+ " (raw: " +:+ raw +:+ ")"
  | UnknownEndpoint n => "unknown endpoint: " +:+ n
  | InternalErr t => "internal error: " +:+ t
  end.

Definition debug_failure (f : RuntimeFailureKind) : string :=
  match f with
  | ModelError => "ModelError" | ToolError => "ToolError" | SafetyBlocked => "SafetyBlocked"
  | VerificationFailed => "VerificationFailed" | FailCircuitBreakerTripped => "CircuitBreakerTripped"
  | ApprovalTimeout => "ApprovalTimeout" | TrustViolation => "TrustViolation" | ControllerTrap => "ControllerTrap"
  | ControllerWatchdog => "ControllerWatchdog" | EdgeTransportLost => "EdgeTransportLost"
  | SessionTimeout => "SessionTimeout" | OperatorAbort => "OperatorAbort"
  end.

Definition ESTOP_MESSAGE : string := "E-STOP activated during task execution".

Definition agent_error_to_turn_execution_failure (e : AgentError) : ExecutorError :=
  match e with
  | SafetyErr m => TurnExecutionFailure SafetyBlocked m None false
  | ToolDispatchErr _ m => TurnExecutionFailure ToolError m None false
  | CircuitBreakerTripped n =>
      TurnExecutionFailure FailCircuitBreakerTripped
        ("circuit breaker tripped after " +:+ pretty n +:+ " consecutive all-error turns") None false
  | Cancelled _ _ => TurnExecutionFailure OperatorAbort "turn cancelled" None false
  | other => TurnExecutionFailure ModelError (agent_error_display other) None false
  end.

(** What the executor's [select!] takes: the agent's own end, the cancellation, or a change of
    the e-stop watch ([None] when its sender is gone). *)
Inductive TurnEnd : Type :=
| AgentEnded (r : result AgentOutput AgentError)
| TokenCancelled
| EstopChanged (active : option bool).

Definition selected (x : TurnEnd) : result AgentOutput AgentError :=
  match x with
  | AgentEnded r => r
  | TokenCancelled => Err (Cancelled 0 0)
  | EstopChanged (Some true) => Err (SafetyErr ESTOP_MESSAGE)
  | EstopChanged _ => Err (InternalErr "worker estop watch fired without activation")
  end.

(** [execute_turn_streaming]'s completion. *)
Definition executor_completion (x : TurnEnd) : result TurnOutput ExecutorError :=
  match selected x with
  | Ok o => Ok {|
      assistant_message := default "" (out_final_response o); tool_calls_made := out_cycles o;
      to_input_tokens := input_tokens (out_total_usage o); to_output_tokens := output_tokens (out_total_usage o);
      to_cache_read_tokens := cache_read_tokens (out_total_usage o);
      to_cache_creation_tokens := cache_creation_tokens (out_total_usage o); to_messages := out_messages o |}
  | Err e => Err (agent_error_to_turn_execution_failure e)
  end.

Definition session_runtime_error_to_agent_error (e : SessionRuntimeError) (estop_active : bool) : AgentError :=
  match e with
  | ErrSessionPaused => SafetyErr "session paused"
  | ErrSessionCompleted => InternalErr "session already completed"
  | ErrTurnFailed OperatorAbort | ErrSessionFailed OperatorAbort => Cancelled 0 0
  | ErrTurnFailed f =>
      if bool_decide (f = SafetyBlocked) && estop_active then SafetyErr ESTOP_MESSAGE
      else InternalErr ("turn runtime failed: " +:+ debug_failure f)
  | ErrSessionFailed f =>
      if bool_decide (f = SafetyBlocked) && estop_active then SafetyErr ESTOP_MESSAGE
      else InternalErr ("session runtime failed: " +:+ debug_failure f)
  end.

(** [u32::try_from(n).unwrap_or(u32::MAX)] of a [u64]. *)
Definition u32_or_max (n : Z) : Z := if n <=? u32_max then n else u32_max.

Definition build_agent_output_from_turn_output (t : TurnOutput) : AgentOutput := {|
  out_cycles := tool_calls_made t;
  out_final_response := if String.eqb (assistant_message t) "" then None else Some (assistant_message t);
  out_total_usage := {| input_tokens := u32_or_max (to_input_tokens t); output_tokens := u32_or_max (to_output_tokens t);
                        cache_read_tokens := u32_or_max (to_cache_read_tokens t);
                        cache_creation_tokens := u32_or_max (to_cache_creation_tokens t) |};
  out_messages := to_messages t |}.

Definition classify_terminal_status (output : result AgentOutput AgentError) (timed_out : bool)
    : TaskTerminalStatus * option string :=
  if timed_out then
    (TimedOut, Some (match output with Err e => agent_error_display e | Ok _ => "task timed out" end))
  else
    match output with
    | Ok _ => (Succeeded, None)
    | Err (Cancelled _ _) => (TaskCancelled, Some "task cancelled")
    | Err (SafetyErr m) => (SafetyStop, Some m)
    | Err e => (TaskFailed, Some (agent_error_display e))
    end.

Definition build_task_result (task_id : string) (status : TaskTerminalStatus) (output : result AgentOutput AgentError)
    : TaskResult :=
  match output with
  | Ok o => {| tr_task_id := task_id; tr_status := status; tr_output := JString <$> out_final_response o; tr_error := None;
               tr_cycles := out_cycles o; tr_token_usage := out_total_usage o |}
  | Err e => {| tr_task_id := task_id; tr_status := status; tr_output := None; tr_error := Some (agent_error_display e);
                tr_cycles := 0; tr_token_usage := no_usage |}
  end.

(** *** The shell around the turn *)

Definition validate_control_interface_manifest (inv : TaskInvocation) : result unit string :=
  match ti_mode inv, ti_control_interface_manifest inv with
  | ModeOodaReAct, None => Err "OODA task missing control_interface_manifest"
  | _, _ => Ok tt
  end.

(** What the worker sends: status events and team events over NATS, the result to Restate. *)
Inductive WorkerEffect : Type :=
| PublishStatus (e : TaskStatusEvent)
| PublishExited (parent_task_id worker_id : string)
| SignalResult (r : TaskResult).

Definition status_event (inv : TaskInvocation) (status : string) (detail : option string) : TaskStatusEvent :=
  {| se_task_id := ti_task_id inv; se_status := status; se_detail := detail; se_host_id := Some (ti_host_id inv) |}.

(** A task refused before its turn: one status event and one result. *)
Definition refuse (inv : TaskInvocation) (detail : string) (e : AgentError) : list WorkerEffect :=
  [PublishStatus (status_event inv "failed" (Some detail));
   SignalResult (build_task_result (ti_task_id inv) TaskFailed (Err e))].

Definition MISSING_SCOPE : string := "child worker invocation missing delegation scope".

(** The turn under its timeout: what the session's turn returned and whether the e-stop was
    active then, or the expiry. *)
Inductive TimedTurn : Type :=
| TurnReturned (r : result StreamingTurnResult SessionRuntimeError) (estop_active : bool)
| TurnElapsed.

Definition timeout_of (inv : TaskInvocation) : Z := Z.max (ti_timeout_secs inv) 1.

Definition turn_output (inv : TaskInvocation) (t : TimedTurn) : result AgentOutput AgentError * bool :=
  match t with
  | TurnReturned (Ok (TurnCompleted o)) _ => (Ok (build_agent_output_from_turn_output o), false)
  | TurnReturned (Ok TurnCancelled) _ => (Err (Cancelled 0 0), false)
  | TurnReturned (Err e) estop => (Err (session_runtime_error_to_agent_error e estop), false)
  | TurnElapsed => (Err (InternalErr ("task timed out after " +:+ pretty (timeout_of inv) +:+ "s")), true)
  end.

Definition report (inv : TaskInvocation) (output : result AgentOutput AgentError) (timed_out : bool) : list WorkerEffect :=
  let '(status, detail) := classify_terminal_status output timed_out in
  let result := build_task_result (ti_task_id inv) status output in
  [PublishStatus (status_event inv (as_str status) (match detail with Some d => Some d | None => tr_error result end));
   SignalResult result].

(** [model]: the model factory's answer. *)
Definition execute_task (inv : TaskInvocation) (model : result unit string) (turn : TimedTurn) : list WorkerEffect :=
  if bool_decide (is_Some (ti_parent_task_id inv)) && bool_decide (ti_delegation_scope inv = None) then
    refuse inv MISSING_SCOPE (SafetyErr MISSING_SCOPE)
  else
    match validate_control_interface_manifest inv with
    | Err error => refuse inv error (SafetyErr error)
    | Ok _ =>
        match model with
        | Err e => refuse inv ("failed to build model: " +:+ e) (ModelErr (ModelCalls.OtherError e))
        | Ok _ =>
            let '(output, timed_out) := turn_output inv turn in
            (PublishStatus (status_event inv "running" (Some "worker accepted invocation")) ::
             match ti_parent_task_id inv with Some p => [PublishExited p (ti_task_id inv)] | None => [] end ++
             report inv output timed_out)%list
        end
    end.

(** The invocation loop of [main]: the e-stop and the slots before the task. *)
Definition receive_invocation (estop_active slot_free : bool) (max_concurrent_tasks : Z) (inv : TaskInvocation)
    (model : result unit string) (turn : TimedTurn) : list WorkerEffect :=
  if estop_active then []
  else if negb slot_free then
    let error := "worker saturated: max_concurrent_tasks=" +:+ pretty max_concurrent_tasks +:+ " exhausted" in
    refuse inv error (InternalErr error)
  else execute_task inv model turn.

(** The format of the signal's address. *)
Definition strip_slash (s : string) : string := if ends_with "/" s then take_front (String.length s - 1) s else s.
Definition signal_url (restate_url task_id : string) : string :=
  strip_slash restate_url +:+ "/TaskWorkflow/" +:+ task_id +:+ "/deliver_result/send".

(** ** restate/task_workflow.rs *)

Inductive TaskOutcome : Type :=
| OutSucceeded (result : json)
| OutFailed (error : string)
| OutTimedOut (reason : string)
| OutCancelled (reason : string)
| OutSafetyStop (guard : option string) (reason : string).

Inductive TaskStatus : Type :=
| StatusPending
| StatusRunning (iteration tool_calls : Z)
| StatusWaitingForApproval (tool_name reason : string)
| StatusSucceeded (result : json)
| StatusFailed (error : string)
| StatusTimedOut (reason : string)
| StatusCancelled (reason : string)
| StatusSafetyStop (guard : option string) (reason : string).

Definition task_outcome_from_result (r : TaskResult) : TaskOutcome :=
  match tr_status r with
  | Succeeded => OutSucceeded (default Null (tr_output r))
  | TaskFailed => OutFailed (default "unknown error" (tr_error r))
  | TimedOut => OutTimedOut (default "task timed out" (tr_error r))
  | TaskCancelled => OutCancelled (default "task cancelled" (tr_error r))
  | SafetyStop => OutSafetyStop None (default "task stopped by safety policy" (tr_error r))
  end.

Definition task_status_from_outcome (o : TaskOutcome) : TaskStatus :=
  match o with
  | OutSucceeded r => StatusSucceeded r
  | OutFailed e => StatusFailed e
  | OutTimedOut r => StatusTimedOut r
  | OutCancelled r => StatusCancelled r
  | OutSafetyStop g r => StatusSafetyStop g r
  end.

(** The serialised tag of a status. *)
Definition status_tag (s : TaskStatus) : string :=
  match s with
  | StatusPending => "pending" | StatusRunning _ _ => "running" | StatusWaitingForApproval _ _ => "waiting_for_approval"
  | StatusSucceeded _ => "succeeded" | StatusFailed _ => "failed" | StatusTimedOut _ => "timed_out"
  | StatusCancelled _ => "cancelled" | StatusSafetyStop _ _ => "safety_stop"
  end.

(** A workflow's durable state: its status, its promises, and whether [run] has begun and
    returned.  A promise keeps its first value. *)
Record Workflow : Type := {
  wf_status : option TaskStatus;
  task_result : option TaskResult;
  approvals : gmap string json;
  run_started : bool;
  run_returned : option TaskOutcome;
}.

Definition new_workflow : Workflow :=
  {| wf_status := None; task_result := None; approvals := ∅; run_started := false; run_returned := None |}.

(** [run] goes on as soon as the promise is resolved. *)
Definition workflow_proceed (w : Workflow) : Workflow :=
  match run_started w, run_returned w, task_result w with
  | true, None, Some r =>
      let o := task_outcome_from_result r in
      {| wf_status := Some (task_status_from_outcome o); task_result := task_result w; approvals := approvals w;
         run_started := true; run_returned := Some o |}
  | _, _, _ => w
  end.

(** A workflow runs once; the status goes from pending to running before the promise is awaited. *)
Definition workflow_run (w : Workflow) : Workflow :=
  if run_started w then w
  else workflow_proceed {| wf_status := Some (StatusRunning 0 0); task_result := task_result w; approvals := approvals w;
                           run_started := true; run_returned := None |}.

Definition deliver_result (r : TaskResult) (w : Workflow) : Workflow :=
  workflow_proceed {| wf_status := wf_status w;
                      task_result := match task_result w with Some x => Some x | None => Some r end;
                      approvals := approvals w; run_started := run_started w; run_returned := run_returned w |}.

Definition approve_tool (approval_id : string) (approval : json) (w : Workflow) : Workflow :=
  {| wf_status := wf_status w; task_result := task_result w;
     approvals := match approvals w !! approval_id with Some _ => approvals w | None => <[approval_id := approval]> (approvals w) end;
     run_started := run_started w; run_returned := run_returned w |}.

Definition get_status (w : Workflow) : TaskStatus := default StatusPending (wf_status w).

Inductive WorkflowCall : Type :=
| CallRun
| CallDeliver (r : TaskResult)
| CallApprove (approval_id : string) (approval : json).

Definition workflow_call (c : WorkflowCall) (w : Workflow) : Workflow :=
  match c with CallRun => workflow_run w | CallDeliver r => deliver_result r w | CallApprove i a => approve_tool i a w end.

(** ** roz-db/tasks.rs *)

(** The columns the code reads; the timestamps of tasks are left out. *)
Record TaskRow : Type := {
  tk_id : string;
  tk_tenant_id : string;
  tk_prompt : string;
  tk_environment_id : string;
  tk_host_id : option string;
  tk_status : string;
  tk_timeout_secs : option Z;
  tk_phases : json;
  tk_parent_task_id : option string;
}.

Record TaskRunRow : Type := {
  rn_id : string;
  rn_task_id : string;
  rn_tenant_id : string;
  rn_host_id : option string;
  rn_status : string;
  rn_started_at : DateTime;
  rn_completed_at : option DateTime;
  rn_error_message : option string;
}.

Record HostRow : Type := { h_id : string; h_tenant_id : string; h_name : string }.

Record Db : Type := {
  tasks : gmap string TaskRow;
  runs : list TaskRunRow;
  hosts : gmap string HostRow;
  environments : gset string;
}.

Definition set_tasks (t : gmap string TaskRow) (db : Db) : Db :=
  {| tasks := t; runs := runs db; hosts := hosts db; environments := environments db |}.
Definition set_runs (r : list TaskRunRow) (db : Db) : Db :=
  {| tasks := tasks db; runs := r; hosts := hosts db; environments := environments db |}.

(** The CHECKs of migrations 002 and 021. *)
Definition TASK_STATUSES : list string :=
  ["pending"; "queued"; "provisioning"; "running"; "succeeded"; "failed"; "timed_out"; "cancelled"; "safety_stop"; "retrying"].
Definition RUN_STATUSES : list string := ["running"; "succeeded"; "failed"; "timed_out"; "cancelled"; "safety_stop"].

Definition CHECK_VIOLATION : DbError := Database "23514".
Definition FOREIGN_KEY_VIOLATION : DbError := Database "23503".
Definition RowNotFound : DbError := OtherError "no rows returned by a query that expected to return at least one row".

Definition set_status (s : string) (r : TaskRow) : TaskRow :=
  {| tk_id := tk_id r; tk_tenant_id := tk_tenant_id r; tk_prompt := tk_prompt r; tk_environment_id := tk_environment_id r;
     tk_host_id := tk_host_id r; tk_status := s; tk_timeout_secs := tk_timeout_secs r; tk_phases := tk_phases r;
     tk_parent_task_id := tk_parent_task_id r |}.
Definition set_host (h : string) (r : TaskRow) : TaskRow :=
  {| tk_id := tk_id r; tk_tenant_id := tk_tenant_id r; tk_prompt := tk_prompt r; tk_environment_id := tk_environment_id r;
     tk_host_id := Some h; tk_status := tk_status r; tk_timeout_secs := tk_timeout_secs r; tk_phases := tk_phases r;
     tk_parent_task_id := tk_parent_task_id r |}.

Definition create (fresh tenant prompt environment : string) (timeout : option Z) (phases : json) (parent : option string)
    (db : Db) : result TaskRow DbError * Db :=
  if negb (bool_decide (environment ∈ environments db)) ||
     match parent with Some p => bool_decide (tasks db !! p = None) | None => false end
  then (Err FOREIGN_KEY_VIOLATION, db)
  else
    let r := {| tk_id := fresh; tk_tenant_id := tenant; tk_prompt := prompt; tk_environment_id := environment;
                tk_host_id := None; tk_status := "pending"; tk_timeout_secs := timeout; tk_phases := phases;
                tk_parent_task_id := parent |} in
    (Ok r, set_tasks (<[fresh := r]> (tasks db)) db).

Definition get_by_id (id : string) (db : Db) : option TaskRow := tasks db !! id.

(** An UPDATE of the task's row; one that meets no row changes nothing and fails no CHECK. *)
Definition update_task (id : string) (f : TaskRow -> result TaskRow DbError) (db : Db) : result (option TaskRow) DbError * Db :=
  match tasks db !! id with
  | None => (Ok None, db)
  | Some r => match f r with Err e => (Err e, db) | Ok r => (Ok (Some r), set_tasks (<[id := r]> (tasks db)) db) end
  end.

Definition update_status (id status : string) (db : Db) : result (option TaskRow) DbError * Db :=
  update_task id (fun r => if bool_decide (status ∈ TASK_STATUSES) then Ok (set_status status r) else Err CHECK_VIOLATION) db.

Definition assign_host (id host : string) (db : Db) : result (option TaskRow) DbError * Db :=
  update_task id (fun r => if bool_decide (is_Some (hosts db !! host)) then Ok (set_host host r) else Err FOREIGN_KEY_VIOLATION) db.

Definition open_run (task : string) (r : TaskRunRow) : bool :=
  String.eqb (rn_task_id r) task && bool_decide (rn_completed_at r = None).

(** The unfinished run of the task that started last. *)
Fixpoint latest_open (task : string) (rs : list TaskRunRow) : option TaskRunRow :=
  match rs with
  | [] => None
  | r :: rs =>
      let l := latest_open task rs in
      if open_run task r then
        match l with Some x => if rn_started_at x <? rn_started_at r then Some r else Some x | None => Some r end
      else l
  end.

Definition active_run_for_task (task : string) (db : Db) : option TaskRunRow := latest_open task (runs db).

(** The insert conflicts exactly when an unfinished run exists. *)
Definition ensure_active_run (now : DateTime) (fresh task : string) (host : option string) (db : Db)
    : result TaskRunRow DbError * Db :=
  let select db := match active_run_for_task task db with Some r => (Ok r, db) | None => (Err RowNotFound, db) end in
  match tasks db !! task with
  | None => select db
  | Some t =>
      if existsb (open_run task) (runs db) then select db
      else if match host with Some h => bool_decide (hosts db !! h = None) | None => false end
      then (Err FOREIGN_KEY_VIOLATION, db)
      else
        let r := {| rn_id := fresh; rn_task_id := task; rn_tenant_id := tk_tenant_id t; rn_host_id := host;
                    rn_status := "running"; rn_started_at := now; rn_completed_at := None; rn_error_message := None |} in
        (Ok r, set_runs (runs db ++ [r])%list db)
  end.

Definition completed (now : DateTime) (status : string) (error : option string) (r : TaskRunRow) : TaskRunRow :=
  {| rn_id := rn_id r; rn_task_id := rn_task_id r; rn_tenant_id := rn_tenant_id r; rn_host_id := rn_host_id r;
     rn_status := status; rn_started_at := rn_started_at r; rn_completed_at := Some now; rn_error_message := error |}.

Definition complete_run (now : DateTime) (run status : string) (error : option string) (db : Db)
    : result (option TaskRunRow) DbError * Db :=
  match List.find (fun r => String.eqb (rn_id r) run) (runs db) with
  | None => (Ok None, db)
  | Some r =>
      if bool_decide (status ∈ RUN_STATUSES) then
        (Ok (Some (completed now status error r)),
         set_runs (map (fun r => if String.eqb (rn_id r) run then completed now status error r else r) (runs db)) db)
      else (Err CHECK_VIOLATION, db)
  end.

Definition complete_active_run_for_task (now : DateTime) (task status : string) (error : option string) (db : Db)
    : result (option TaskRunRow) DbError * Db :=
  match active_run_for_task task db with
  | None => (Ok None, db)
  | Some r => complete_run now (rn_id r) status error db
  end.

(** ** nats_handlers.rs: status events *)

Definition is_terminal_task_status (s : string) : bool :=
  bool_decide (s ∈ ["succeeded"; "failed"; "timed_out"; "cancelled"; "safety_stop"]).

(** What the handler's statements meet: the clock, identifiers of new runs, lost connections. *)
Inductive HandlerStatement : Type := StAssignHost | StActiveRun | StEnsureRun | StCompleteRun | StUpdateStatus.

Record HandlerWorld : Type := {
  hw_now : DateTime;
  hw_fresh : string;
  hw_fails : HandlerStatement -> bool;
}.

Definition attempt {A : Type} (w : HandlerWorld) (st : HandlerStatement) (op : Db -> A * Db) (db : Db) : Db :=
  if hw_fails w st then db else (op db).2.

Definition apply_task_status_event (w : HandlerWorld) (e : TaskStatusEvent) (db : Db) : Db :=
  let db := match se_host_id e with
            | Some h => attempt w StAssignHost (assign_host (se_task_id e) h) db
            | None => db
            end in
  let ensure db := attempt w StEnsureRun (ensure_active_run (hw_now w) (hw_fresh w) (se_task_id e) (se_host_id e)) db in
  let db :=
    if String.eqb (se_status e) "running" then ensure db
    else if is_terminal_task_status (se_status e) then
      let db := if negb (hw_fails w StActiveRun) && bool_decide (active_run_for_task (se_task_id e) db = None)
                then ensure db else db in
      attempt w StCompleteRun (complete_active_run_for_task (hw_now w) (se_task_id e) (se_status e) (se_detail e)) db
    else db in
  attempt w StUpdateStatus (update_status (se_task_id e) (se_status e)) db.

(** ** routes/task_dispatch.rs *)

Definition mode_from_phases (phases : list PhaseSpec) : ExecutionMode :=
  match ph_mode <$> head phases with Some PhaseOodaReAct => ModeOodaReAct | _ => ModeReact end.

Record TaskDispatchRequest : Type := {
  rq_tenant_id : string;
  rq_prompt : string;
  rq_environment_id : string;
  rq_timeout_secs : option Z;
  rq_host_id : option string;
  rq_phases : list PhaseSpec;
  rq_parent_task_id : option string;
  rq_control_interface_manifest : option ControlInterfaceManifest;
  rq_delegation_scope : option DelegationScope;
}.

Inductive TaskDispatchError : Type :=
| DispatchDatabase (e : DbError)
| BadRequest (m : string)
| NotFound (m : string)
| TrustRejected
| DispatchInternal (m : string).

Record TaskInput : Type := {
  wi_task_id : string;
  wi_environment_id : string;
  wi_prompt : string;
  wi_host_id : option string;
  wi_parent_task_id : option string;
}.

(** What leaves the server. *)
Inductive ServerEffect : Type :=
| StartWorkflow (i : TaskInput)
| PublishInvocation (subject : string) (i : TaskInvocation).

Inductive DispatchStatement : Type := DbGetParent | DbGetHost | DbCreate | DbAssign | DbMarkFailed | DbMarkQueued.

Inductive RestateAnswer : Type := WorkflowAccepted | WorkflowRefused (error : string) | RestateUnreachable (error : string).

(** The services: Restate accepts the workflow or answers with an error; NATS is absent, or
    takes the publication or not; [trust] is the gate's answer for the host. *)
Record DispatchWorld : Type := {
  dw_fresh : string;
  dw_db_fails : DispatchStatement -> option DbError;
  dw_trust : string -> result unit DeviceTrust.TrustRejection;
  dw_restate_url : string;
  dw_restate : RestateAnswer;
  dw_nats : bool;
  dw_publish : option string;
}.

Definition validate_child_task_delegation_scope (parent : option string) (scope : option DelegationScope)
    : result unit TaskDispatchError :=
  if bool_decide (is_Some parent) && bool_decide (scope = None)
  then Err (BadRequest "child tasks require delegation_scope") else Ok tt.

Definition invocation_of (w : DispatchWorld) (rq : TaskDispatchRequest) (task : TaskRow) (host : string) : TaskInvocation := {|
  ti_task_id := tk_id task; ti_tenant_id := rq_tenant_id rq; ti_prompt := tk_prompt task;
  ti_environment_id := tk_environment_id task; ti_host_id := host;
  ti_timeout_secs := match rq_timeout_secs rq with Some t => if 0 <=? t then t else 300 | None => 300 end;
  ti_mode := mode_from_phases (rq_phases rq); ti_parent_task_id := rq_parent_task_id rq;
  ti_restate_url := dw_restate_url w; ti_phases := rq_phases rq;
  ti_control_interface_manifest := rq_control_interface_manifest rq; ti_delegation_scope := rq_delegation_scope rq |}.

Section Dispatch.

(** [Uuid::parse_str] with the parsed identifier's text, the stored form of phases. *)
Context (parse_uuid : string -> option string) (phases_json : list PhaseSpec -> json).

Definition db_read {A : Type} (w : DispatchWorld) (st : DispatchStatement) (x : A) : result A TaskDispatchError :=
  match dw_db_fails w st with Some e => Err (DispatchDatabase e) | None => Ok x end.

(** The parent is a task of the same tenant. *)
Definition admit_parent (w : DispatchWorld) (rq : TaskDispatchRequest) (db : Db) : result unit TaskDispatchError :=
  match rq_parent_task_id rq with
  | None => Ok tt
  | Some parent =>
      let? row := db_read w DbGetParent (get_by_id parent db) in
      if match row with Some r => String.eqb (tk_tenant_id r) (rq_tenant_id rq) | None => false end
      then Ok tt else Err (BadRequest "parent_task_id not found")
  end%roz.

(** The host as the caller wrote it (trimmed), and its row. *)
Definition admit_host (w : DispatchWorld) (rq : TaskDispatchRequest) (db : Db) : result (string * HostRow) TaskDispatchError :=
  match rq_host_id rq with
  | None => Err (BadRequest "host_id is required until deferred assignment is implemented")
  | Some h =>
      let host_id_str := trim h in
      if String.eqb host_id_str "" then Err (BadRequest "host_id is required until deferred assignment is implemented")
      else
        match parse_uuid host_id_str with
        | None => Err (BadRequest "host_id is not a valid UUID")
        | Some host_uuid =>
            let? row := db_read w DbGetHost (hosts db !! host_uuid) in
            match row with
            | Some host =>
                if String.eqb (h_tenant_id host) (rq_tenant_id rq) then
                  match dw_trust w host_uuid with
                  | Err _ => Err TrustRejected
                  | Ok _ =>
                      if dw_nats w then Ok (host_id_str, host)
                      else Err (DispatchInternal "task dispatch unavailable: NATS is not configured")
                  end
                else Err (NotFound ("host " +:+ host_id_str +:+ " not found"))
            | None => Err (NotFound ("host " +:+ host_id_str +:+ " not found"))
            end
        end
  end%roz.

(** The checks before anything is written: the scope, the parent, the host, the trust gate and
    the broker. *)
Definition admit_request (w : DispatchWorld) (rq : TaskDispatchRequest) (db : Db) : result (string * HostRow) TaskDispatchError :=
  let? _ := validate_child_task_delegation_scope (rq_parent_task_id rq) (rq_delegation_scope rq) in
  let? _ := admit_parent w rq db in
  admit_host w rq db.

(** [let _ = update_status(.., "failed")]. *)
Definition mark_failed (w : DispatchWorld) (id : string) (db : Db) : Db :=
  match dw_db_fails w DbMarkFailed with Some _ => db | None => (update_status id "failed" db).2 end.

(** The rows: the new task with its host. *)
Definition create_task (w : DispatchWorld) (rq : TaskDispatchRequest) (host : HostRow) (db : Db)
    : result TaskRow TaskDispatchError * Db :=
  match dw_db_fails w DbCreate with
  | Some e => (Err (DispatchDatabase e), db)
  | None =>
      let '(r, db) := create (dw_fresh w) (rq_tenant_id rq) (rq_prompt rq) (rq_environment_id rq) (rq_timeout_secs rq)
                        (phases_json (rq_phases rq)) (rq_parent_task_id rq) db in
      match r with
      | Err e => (Err (DispatchDatabase e), db)
      | Ok task =>
          match dw_db_fails w DbAssign with
          | Some e => (Err (DispatchDatabase e), db)
          | None =>
              let '(r, db) := assign_host (tk_id task) (h_id host) db in
              match r with
              | Err e => (Err (DispatchDatabase e), db)
              | Ok None => (Err (DispatchInternal "created task disappeared before host assignment"), db)
              | Ok (Some task) => (Ok task, db)
              end
          end
      end
  end.

(** The workflow and the invocation of a created task. *)
Definition start_task (w : DispatchWorld) (rq : TaskDispatchRequest) (host_id_str : string) (host : HostRow) (task : TaskRow)
    (db : Db) : result unit TaskDispatchError * Db * list ServerEffect :=
  let input := {| wi_task_id := tk_id task; wi_environment_id := tk_environment_id task; wi_prompt := tk_prompt task;
                  wi_host_id := Some host_id_str; wi_parent_task_id := rq_parent_task_id rq |} in
  match dw_restate w with
  | WorkflowRefused error => (Err (DispatchInternal ("failed to start workflow: " +:+ error)), mark_failed w (tk_id task) db, [])
  | RestateUnreachable error =>
      (Err (DispatchInternal ("failed to start Restate workflow: " +:+ error)), mark_failed w (tk_id task) db, [])
  | WorkflowAccepted =>
      match Subjects.invoke (h_name host) (tk_id task) with
      | Err _ => (Err (BadRequest "invalid NATS subject"), db, [StartWorkflow input])
      | Ok subject =>
          match dw_publish w with
          | Some error => (Err (DispatchInternal ("failed to publish task invocation: " +:+ error)),
                           mark_failed w (tk_id task) db, [StartWorkflow input])
          | None => (Ok tt, db, [StartWorkflow input; PublishInvocation subject (invocation_of w rq task (h_id host))])
          end
      end
  end.

(** [meanwhile] is what other connections commit between the publication and the last update. *)
Definition dispatch_task (w : DispatchWorld) (rq : TaskDispatchRequest) (meanwhile : Db -> Db) (db : Db)
    : result TaskRow TaskDispatchError * Db * list ServerEffect :=
  match admit_request w rq db with
  | Err e => (Err e, db, [])
  | Ok (host_id_str, host) =>
      let '(r, db) := create_task w rq host db in
      match r with
      | Err e => (Err e, db, [])
      | Ok task =>
          let '(r, db, effects) := start_task w rq host_id_str host task db in
          match r with
          | Err e => (Err e, db, effects)
          | Ok _ =>
              let db := meanwhile db in
              match dw_db_fails w DbMarkQueued with
              | Some e => (Err (DispatchDatabase e), db, effects)
              | None =>
                  let '(r, db) := update_status (tk_id task) "queued" db in
                  (match r with
                   | Err e => Err (DispatchDatabase e)
                   | Ok None => Err (DispatchInternal "task disappeared after dispatch")
                   | Ok (Some task) => Ok task
                   end, db, effects)
              end
          end
      end
  end.

(** *** The two surfaces *)

(** gRPC: every statement of a plain connection commits by itself. *)
Definition grpc_create_task := dispatch_task.

(** REST: the request's transaction is committed on success and dropped otherwise.  The others
    do not see its row before; what it changes is that row only. *)
Definition rest_create_task (w : DispatchWorld) (rq : TaskDispatchRequest) (meanwhile : Db -> Db) (db : Db)
    : result TaskRow TaskDispatchError * Db * list ServerEffect :=
  let '(r, _, effects) := dispatch_task w rq (fun db => db) db in
  let committed := meanwhile db in
  (r, match r with Ok task => set_tasks (<[tk_id task := task]> (tasks committed)) committed | Err _ => committed end, effects).

(** DELETE /v1/tasks/:id *)
Definition cancel_task (tenant id : string) (db : Db) : result unit string * Db :=
  match get_by_id id db with
  | Some r =>
      if String.eqb (tk_tenant_id r) tenant then
        match update_status id "cancelled" db with
        | (Ok (Some _), db) => (Ok tt, db)
        | (Ok None, db) => (Err "task not found", db)
        | (Err _, db) => (Err "database error", db)
        end
      else (Err "task not found", db)
  | None => (Err "task not found", db)
  end.

(** ** nats_handlers.rs: child tasks *)

Record SpawnRequest : Type := {
  sp_tenant_id : string;
  sp_prompt : string;
  sp_host_id : string;
  sp_environment_id : string;
  sp_phases : list PhaseSpec;
  sp_parent_task_id : string;
  sp_control_interface_manifest : option ControlInterfaceManifest;
  sp_delegation_scope : option DelegationScope;
}.

Definition spawn_invocation (restate_url : string) (rq : SpawnRequest) (task : TaskRow) (host : string) : TaskInvocation := {|
  ti_task_id := tk_id task; ti_tenant_id := sp_tenant_id rq; ti_prompt := tk_prompt task;
  ti_environment_id := tk_environment_id task; ti_host_id := host; ti_timeout_secs := 300;
  ti_mode := mode_from_phases (sp_phases rq); ti_parent_task_id := Some (sp_parent_task_id rq);
  ti_restate_url := restate_url; ti_phases := sp_phases rq;
  ti_control_interface_manifest := sp_control_interface_manifest rq; ti_delegation_scope := sp_delegation_scope rq |}.

(** The reply carries the task or an error; [db_error] fails the transaction. *)
Definition spawn_task (fresh restate_url : string) (db_error : option string) (restate_ok publish_ok : bool) (rq : SpawnRequest)
    (db : Db) : result string string * Db * list ServerEffect :=
  match sp_delegation_scope rq with
  | None => (Err "child tasks require delegation_scope", db, [])
  | Some _ =>
      match db_error with
      | Some e => (Err e, db, [])
      | None =>
          match create fresh (sp_tenant_id rq) (sp_prompt rq) (sp_environment_id rq) None (phases_json (sp_phases rq))
                  (Some (sp_parent_task_id rq)) db with
          | (Err _, db) => (Err "task creation failed", db, [])
          | (Ok task, db) =>
              let started := if restate_ok
                then [StartWorkflow {| wi_task_id := tk_id task; wi_environment_id := tk_environment_id task;
                        wi_prompt := tk_prompt task; wi_host_id := Some (sp_host_id rq);
                        wi_parent_task_id := Some (sp_parent_task_id rq) |}]
                else [] in
              match parse_uuid (sp_host_id rq) with
              | None => (Err "invalid host_id UUID", db, started)
              | Some host_uuid =>
                  match hosts db !! host_uuid with
                  | None => (Err ("host " +:+ sp_host_id rq +:+ " not found"), db, started)
                  | Some host =>
                      let subject := "invoke." +:+ h_name host +:+ "." +:+ tk_id task in
                      let sent := if publish_ok
                        then [PublishInvocation subject (spawn_invocation restate_url rq task host_uuid)] else [] in
                      (Ok (tk_id task), db, (started ++ sent)%list)
                  end
              end
          end
      end
  end.

End Dispatch.
