(* ===== verification/TaskLife.v ===== *)
(** * The life of a task: theorems

    What holds of the definitions of [Tasks]: the worker's reports, the workflow, the rows of
    tasks and runs under status events, dispatch and its races, and a task end to end. *)

From Stdlib Require Import Ascii.
From stdpp Require Import pretty.
From S2P Require Import Prelude Float64 RustStr Json Command Embodiment Deployment SafetyFilter Guards Approvals Subjects.
From S2P Require Import Context Policy Dispatch ModelCalls AgentLoop SessionData SessionRuntime TurnFlush Tasks.

(** ** The worker's reports *)

Definition statuses (l : list WorkerEffect) : list string :=
  omap (fun e => match e with PublishStatus s => Some (se_status s) | _ => None end) l.
Definition results (l : list WorkerEffect) : list TaskResult :=
  omap (fun e => match e with SignalResult r => Some r | _ => None end) l.
Definition events (l : list WorkerEffect) : list TaskStatusEvent :=
  omap (fun e => match e with PublishStatus s => Some s | _ => None end) l.

(** One result, and the status events end with its status, all of them the task's. *)
Definition reports (inv : TaskInvocation) (l : list WorkerEffect) (r : TaskResult) : Prop :=
  results l = [r] /\ tr_task_id r = ti_task_id inv /\
  (statuses l = [as_str (tr_status r)] \/ statuses l = ["running"; as_str (tr_status r)]) /\
  Forall (fun e => se_task_id e = ti_task_id inv /\ se_host_id e = Some (ti_host_id inv)) (events l).

Lemma refuse_reports inv d e : reports inv (refuse inv d e) (build_task_result (ti_task_id inv) TaskFailed (Err e)).
Proof. repeat split; simpl; [by left|]. by repeat constructor. Qed.

Lemma build_task_result_id id s o : tr_task_id (build_task_result id s o) = id /\ tr_status (build_task_result id s o) = s.
Proof. by destruct o. Qed.

Lemma shell_reports inv output timed_out :
  reports inv
    (PublishStatus (status_event inv "running" (Some "worker accepted invocation")) ::
     match ti_parent_task_id inv with Some p => [PublishExited p (ti_task_id inv)] | None => [] end ++
     report inv output timed_out)
    (build_task_result (ti_task_id inv) (classify_terminal_status output timed_out).1 output).
Proof.
  unfold report. destruct (classify_terminal_status output timed_out) as [st d]. cbn [fst].
  destruct (build_task_result_id (ti_task_id inv) st output) as [H1 H2].
  split; [destruct (ti_parent_task_id inv); reflexivity|]. split; [exact H1|]. split.
  - right. destruct (ti_parent_task_id inv); simpl; by rewrite H2.
  - destruct (ti_parent_task_id inv); simpl; by repeat constructor.
Qed.

(** A task that reaches its turn. *)
Definition runnable (inv : TaskInvocation) : Prop :=
  (ti_delegation_scope inv <> None \/ ti_parent_task_id inv = None) /\ is_ok (validate_control_interface_manifest inv) = true.

Lemma execute_runnable inv turn : runnable inv ->
  let '(output, timed_out) := turn_output inv turn in
  reports inv (execute_task inv (Ok tt) turn)
    (build_task_result (ti_task_id inv) (classify_terminal_status output timed_out).1 output).
Proof.
  intros [Hs Hok]. unfold execute_task.
  replace (bool_decide (is_Some (ti_parent_task_id inv)) && bool_decide (ti_delegation_scope inv = None))%bool with false.
  2:{ destruct Hs as [Hs|Hp]; [by rewrite (bool_decide_false _ Hs), andb_false_r|]. rewrite Hp. done. }
  destruct (validate_control_interface_manifest inv); [|done].
  destruct (turn_output inv turn) as [output timed_out]. apply shell_reports.
Qed.

Lemma execute_reports inv model turn : exists r, reports inv (execute_task inv model turn) r.
Proof.
  unfold execute_task. destruct (_ && _); [eexists; apply refuse_reports|].
  destruct (validate_control_interface_manifest inv); [|eexists; apply refuse_reports].
  destruct model; [|eexists; apply refuse_reports].
  destruct (turn_output inv turn) as [output timed_out]. eexists. apply shell_reports.
Qed.

(** *** Which end of a turn becomes which status *)

(** The status of an invocation whose turn ended by [x] with the e-stop [estop] active or not
    when the worker looked. *)
Definition expected_status (x : TurnEnd) (estop : bool) : TaskTerminalStatus :=
  match x with
  | AgentEnded (Ok _) => Succeeded
  | AgentEnded (Err (Cancelled _ _)) | TokenCancelled => TaskCancelled
  | AgentEnded (Err (SafetyErr _)) | EstopChanged (Some true) => if estop then SafetyStop else TaskFailed
  | _ => TaskFailed
  end.

Lemma executor_kind x : match executor_completion x with
  | Ok _ => exists o, x = AgentEnded (Ok o)
  | Err e => expected_status x true = (if decide (error_kind e = OperatorAbort) then TaskCancelled
                                       else if decide (error_kind e = SafetyBlocked) then SafetyStop else TaskFailed) /\
             expected_status x false = (if decide (error_kind e = OperatorAbort) then TaskCancelled else TaskFailed) /\
             is_terminal (error_kind e) = bool_decide (error_kind e = OperatorAbort)
  end.
Proof.
  destruct x as [[o|e]| |[[]|]]; unfold executor_completion; simpl; [by eexists|by destruct e|done..].
Qed.

Lemma completion_output x o : executor_completion x = Ok o -> exists a, x = AgentEnded (Ok a) /\
  assistant_message o = default "" (out_final_response a) /\ tool_calls_made o = out_cycles a.
Proof. destruct x as [[a|e]| |[[]|]]; unfold executor_completion; simpl; intros [= <-]. by exists a. Qed.

Section Turn.
Context (debug_verdict : VerifierVerdict -> string) (debug_freshness : FreshnessState -> string) (debug_alert : Alert -> string).

#[local] Notation streamed := (run_turn_streaming debug_verdict debug_freshness debug_alert).

(** what a task's turn reports: one result, and status events that end with its status.
    Through the session runtime and back, the status is succeeded exactly when the agent came to
    an end without error, cancelled when it was cancelled, a safety stop when the e-stop (or a
    safety error) ended it and the e-stop was still active afterwards, and failed otherwise; a
    success carries the agent's final response and cycles, an expired turn is timed out. *)
Theorem turn_report_exact inv now id input mid ops items x (r r' : SessionRuntime) y estop :
  runnable inv ->
  ensure_turn_can_start r = None ->
  streamed now id input mid ops (fun _ => (items, executor_completion x)) r = Ret (y, r') ->
  exists res, reports inv (execute_task inv (Ok tt) (TurnReturned y estop)) res /\
    tr_status res = expected_status x estop /\
    (forall o, x = AgentEnded (Ok o) -> tr_cycles res = out_cycles o /\
       tr_output res = match out_final_response o with None | Some "" => None | Some t => Some (JString t) end).
Proof.
  intros Hrun Hstart H.
  destruct (streamed_turn_cases debug_verdict debug_freshness debug_alert now id input mid ops
              (fun _ => (items, executor_completion x)) r r' y H Hstart) as (p & _ & _ & Hx). cbn [snd] in Hx.
  pose proof (execute_runnable inv (TurnReturned y estop) Hrun) as Hr.
  pose proof (executor_kind x) as Hk. destruct (executor_completion x) as [o|e] eqn:Hc.
  - destruct Hx as (-> & _). apply completion_output in Hc as (a & -> & Ha & Hcyc). simpl in Hr.
    eexists. split; [exact Hr|]. split; [done|]. intros o' [= <-]. simpl. split; [by rewrite Hcyc|].
    rewrite Ha. by destruct (out_final_response a) as [[|]|].
  - destruct Hk as (Ht & Hf & Hterm). destruct Hx as (_ & -> & _). rewrite Hterm in Hr |- *. clear H.
    assert (Hne : forall o, x <> AgentEnded (Ok o)) by (intros o ->; done).
    destruct (decide (error_kind e = OperatorAbort)) as [Ho|Ho].
    + simpl in Hr. eexists. split; [exact Hr|]. split; [by destruct estop|]. intros o ->. by destruct (Hne o).
    + rewrite bool_decide_false in Hr |- * by done. cbn [turn_output] in Hr. eexists. split; [exact Hr|].
      split; [|intros o ->; by destruct (Hne o)].
      rewrite (proj2 (build_task_result_id _ _ _)). destruct estop; [rewrite Ht|rewrite Hf]; destruct (error_kind e) eqn:Hk; done.
Qed.

End Turn.

(** ** The workflow *)

Definition delivered (l : list WorkflowCall) : list TaskResult :=
  omap (fun c => match c with CallDeliver r => Some r | _ => None end) l.
Definition run_called (l : list WorkflowCall) : bool := existsb (fun c => match c with CallRun => true | _ => false end) l.
Definition approvals_of (i : string) (l : list WorkflowCall) : list json :=
  omap (fun c => match c with CallApprove j a => if String.eqb i j then Some a else None | _ => None end) l.
Definition workflow_after (l : list WorkflowCall) : Workflow := foldl (fun w c => workflow_call c w) new_workflow l.

(** A workflow as a function of its calls. *)
Definition settled (l : list WorkflowCall) (w : Workflow) : Prop :=
  run_started w = run_called l /\ task_result w = head (delivered l) /\
  run_returned w = (if run_called l then task_outcome_from_result <$> head (delivered l) else None) /\
  wf_status w = (if run_called l
                 then Some (match head (delivered l) with
                            | Some r => task_status_from_outcome (task_outcome_from_result r)
                            | None => StatusRunning 0 0
                            end)
                 else None) /\
  forall i, approvals w !! i = head (approvals_of i l).

Lemma head_snoc {A} (l : list A) x : head (l ++ [x])%list = match head l with Some y => Some y | None => Some x end.
Proof. by destruct l. Qed.

Lemma settled_snoc l w c : settled l w -> settled (l ++ [c])%list (workflow_call c w).
Proof.
  destruct w as [st tr ap rs rr]. intros (Hrs & Htr & Hrr & Hst & Hap). simpl in *. subst.
  unfold settled, delivered, run_called, approvals_of in *. setoid_rewrite omap_app. rewrite existsb_app.
  unfold workflow_call, workflow_run, deliver_result, approve_tool, workflow_proceed.
  destruct c as [|r|j a]; simpl; rewrite ?app_nil_r, ?head_snoc, ?orb_false_r.
  - rewrite orb_true_r. destruct (existsb _ l) eqn:Hc; destruct (head (omap _ l)) eqn:Hd; simpl;
      repeat split; auto; intros i; rewrite app_nil_r; apply Hap.
  - destruct (existsb _ l) eqn:Hc; destruct (head (omap _ l)) eqn:Hd; simpl;
      repeat split; auto; intros i; rewrite app_nil_r; apply Hap.
  - repeat split; auto. intros i. destruct (String.eqb_spec i j) as [<-|Hij].
    + rewrite head_snoc. rewrite <-Hap. destruct (ap !! i) eqn:Ha; [done|]. by rewrite lookup_insert_eq.
    + rewrite app_nil_r. rewrite <-Hap. destruct (ap !! j) eqn:Ha; [done|]. by rewrite lookup_insert_ne.
Qed.

Lemma workflow_after_settled l : settled l (workflow_after l).
Proof.
  unfold workflow_after. induction l as [|c l IH] using rev_ind; [by repeat split|].
  rewrite foldl_app. by apply settled_snoc.
Qed.

Lemma outcome_tag r : status_tag (task_status_from_outcome (task_outcome_from_result r)) = as_str (tr_status r).
Proof. by destruct r as [? []]. Qed.

(** whatever the order and the number of the calls a task's workflow receives (the result
    may arrive before it runs, twice, with approvals between), it ends exactly when it was run
    and a result was delivered; its status and outcome are then the first result's, under the
    worker's own name of that status, and never change again.  Without a result it is
    running, before the run it is pending.  Each approval keeps its first value. *)
Theorem workflow_settles l i :
  let w := workflow_after l in
  status_tag (get_status w) = (if run_called l then match head (delivered l) with
                                                    | Some r => as_str (tr_status r) | None => "running" end
                               else "pending") /\
  run_returned w = (if run_called l then task_outcome_from_result <$> head (delivered l) else None) /\
  approvals w !! i = head (approvals_of i l).
Proof.
  destruct (workflow_after_settled l) as (_ & _ & Hr & Hs & Ha). simpl. split; [|by split].
  unfold get_status. rewrite Hs. destruct (run_called l); [|done]. simpl.
  destruct (head (delivered l)); [apply outcome_tag|done].
Qed.

(** ** The rows of tasks and runs *)

Definition open_runs (task : string) (db : Db) : list TaskRunRow := base.filter (fun r => open_run task r = true) (runs db).
Definition run_ids (db : Db) : list string := rn_id <$> runs db.

(** At most one unfinished run of each task, and run identifiers of their own. *)
Definition runs_ok (db : Db) : Prop := NoDup (run_ids db) /\ forall task, (length (open_runs task db) <= 1)%nat.

Lemma latest_open_some task rs r : latest_open task rs = Some r -> r ∈ rs /\ open_run task r = true.
Proof.
  revert r. induction rs as [|x rs IH]; simpl; intros r; [done|].
  destruct (open_run task x) eqn:Hx.
  - destruct (latest_open task rs) as [y|].
    + destruct (_ <? _); intros [= <-]; [by split; [left|]|]. destruct (IH y eq_refl). by split; [right|].
    + intros [= <-]. by split; [left|].
  - intros H. destruct (IH r H). by split; [right|].
Qed.

Lemma latest_open_none task rs : latest_open task rs = None <-> existsb (open_run task) rs = false.
Proof.
  induction rs as [|x rs IH]; simpl; [done|]. destruct (open_run task x); simpl; [|done].
  destruct (latest_open task rs); [destruct (_ <? _)|]; done.
Qed.

Lemma open_runs_none task db : existsb (open_run task) (runs db) = false -> open_runs task db = [].
Proof.
  unfold open_runs. intros H. induction (runs db) as [|x rs IH]; [done|]. simpl in H. apply orb_false_iff in H as [Hx H].
  rewrite filter_cons_False; [by apply IH|]. by rewrite Hx.
Qed.

Definition closing (now : DateTime) (run status : string) (error : option string) (r : TaskRunRow) : TaskRunRow :=
  if String.eqb (rn_id r) run then completed now status error r else r.

Lemma closing_open now run status error task r : open_run task (closing now run status error r) = true ->
  closing now run status error r = r /\ rn_id r <> run.
Proof.
  unfold closing. destruct (String.eqb_spec (rn_id r) run); [|done]. unfold open_run, completed. simpl.
  by intros [_ H]%andb_prop.
Qed.

Lemma closing_filter now run status error task rs :
  base.filter (fun r => open_run task r = true) (map (closing now run status error) rs) =
  base.filter (fun r => open_run task r = true /\ rn_id r <> run) rs.
Proof.
  induction rs as [|x rs IH]; [done|]. simpl. rewrite !filter_cons, IH.
  destruct (decide (open_run task (closing now run status error x) = true)) as [Ho|Ho].
  - apply closing_open in Ho as Hx. destruct Hx as [Hx Hid]. rewrite Hx in Ho |- *. by rewrite decide_True.
  - rewrite decide_False; [done|]. intros [Hx Hid]. apply Ho. unfold closing.
    destruct (String.eqb_spec (rn_id x) run); [done|]. exact Hx.
Qed.

Lemma closing_ids now run status error rs : rn_id <$> map (closing now run status error) rs = rn_id <$> rs.
Proof.
  induction rs as [|x rs IH]; [done|]. cbn [map]. rewrite !fmap_cons, IH. f_equal. unfold closing.
  by destruct (String.eqb _ _).
Qed.

Lemma filter_weaken {A} (P Q : A -> Prop) `{!forall x, Decision (P x)} `{!forall x, Decision (Q x)} (l : list A) :
  (forall x, Q x -> P x) -> (length (base.filter Q l) <= length (base.filter P l))%nat.
Proof.
  intros Hw. induction l as [|x l IH]; [done|]. rewrite !filter_cons.
  destruct (decide (Q x)) as [Hq|Hq]; [rewrite decide_True by auto; simpl; lia|]. destruct (decide (P x)); simpl; lia.
Qed.

Lemma runs_ok_close now run status error db : runs_ok db -> runs_ok (set_runs (map (closing now run status error) (runs db)) db).
Proof.
  intros [Hnd Ho]. split.
  - unfold run_ids, set_runs. cbn [runs]. by rewrite closing_ids.
  - intros task. unfold open_runs. simpl. rewrite closing_filter. etransitivity; [|apply (Ho task)].
    apply filter_weaken. by intros x [H _].
Qed.

(** Closing the one unfinished run leaves none. *)
Lemma close_latest now status error task r db :
  runs_ok db -> latest_open task (runs db) = Some r ->
  open_runs task (set_runs (map (closing now (rn_id r) status error) (runs db)) db) = [].
Proof.
  intros [_ Ho] Hl. apply latest_open_some in Hl as [Hin Hop].
  unfold open_runs. simpl. rewrite closing_filter. specialize (Ho task). unfold open_runs in Ho.
  destruct (base.filter (fun x => open_run task x = true /\ rn_id x <> rn_id r) (runs db)) as [|x l] eqn:Hf; [done|].
  assert (Hx : x ∈ x :: l) by left. rewrite <-Hf in Hx. apply list_elem_of_filter in Hx as [[Hox Hid] Hx].
  assert (H1 : x ∈ base.filter (fun r => open_run task r = true) (runs db)) by (by apply list_elem_of_filter).
  assert (H2 : r ∈ base.filter (fun r => open_run task r = true) (runs db)) by (by apply list_elem_of_filter).
  destruct (base.filter (fun x => open_run task x = true) (runs db)) as [|y [|]]; simpl in Ho; [by apply not_elem_of_nil in H1| |lia].
  apply list_elem_of_singleton in H1, H2. congruence.
Qed.

Lemma complete_run_closes now run status error db :
  (complete_run now run status error db).2 =
  (if bool_decide (run ∈ run_ids db) && bool_decide (status ∈ RUN_STATUSES)
   then set_runs (map (closing now run status error) (runs db)) db else db).
Proof.
  unfold complete_run. destruct (List.find _ (runs db)) as [r|] eqn:Hf.
  - apply find_some in Hf as [Hin Hid%String.eqb_eq]. rewrite (bool_decide_true (run ∈ run_ids db)).
    + by destruct (bool_decide (status ∈ RUN_STATUSES)).
    + apply list_elem_of_fmap. exists r. split; [done|]. by apply list_elem_of_In.
  - rewrite (bool_decide_false (run ∈ run_ids db)); [done|]. intros (r & Hid & Hr)%list_elem_of_fmap.
    apply list_elem_of_In in Hr. pose proof (List.find_none _ _ Hf r Hr) as Hn. simpl in Hn. by rewrite Hid, String.eqb_refl in Hn.
Qed.

Lemma ensure_inserts now fresh task host db :
  (ensure_active_run now fresh task host db).2 = db \/
  existsb (open_run task) (runs db) = false /\ exists r,
    rn_id r = fresh /\ rn_task_id r = task /\ rn_completed_at r = None /\
    (ensure_active_run now fresh task host db).2 = set_runs (runs db ++ [r])%list db.
Proof.
  unfold ensure_active_run. destruct (tasks db !! task) as [t|]; [|left; by destruct (active_run_for_task task db)].
  destruct (existsb (open_run task) (runs db)) eqn:He; [left; by destruct (active_run_for_task task db)|].
  destruct (match host with Some h => _ | None => _ end); [by left|]. right. split; [done|].
  eexists. refine (conj _ (conj _ (conj _ eq_refl))); done.
Qed.

Lemma open_runs_snoc task r db :
  open_runs task (set_runs (runs db ++ [r])%list db) =
  (open_runs task db ++ (if open_run task r then [r] else []))%list.
Proof. unfold open_runs. simpl. rewrite filter_app, filter_cons. by destruct (open_run task r). Qed.

Lemma runs_ok_ensure now fresh task host db : fresh ∉ run_ids db ->
  runs_ok db -> runs_ok (ensure_active_run now fresh task host db).2.
Proof.
  intros Hfresh [Hnd Ho]. destruct (ensure_inserts now fresh task host db) as [->|(He & r & Hid & Htask & _ & ->)]; [done|].
  split.
  - unfold run_ids, set_runs. cbn [runs]. rewrite fmap_app. apply NoDup_app. split; [done|]. split; [|by apply NoDup_singleton].
    intros x Hx ->%list_elem_of_singleton. by rewrite Hid in Hx.
  - intros task'. rewrite open_runs_snoc, length_app. destruct (open_run task' r) eqn:Hr; simpl; [|rewrite Nat.add_0_r; apply Ho].
    unfold open_run in Hr. rewrite Htask in Hr. apply andb_prop in Hr as [->%String.eqb_eq _].
    by rewrite open_runs_none.
Qed.

(** *** A status event *)

(** The run ids after an event: those before, and perhaps the fresh one. *)
Definition same_tasks (db db' : Db) : Prop :=
  (forall id, is_Some (tasks db' !! id) <-> is_Some (tasks db !! id)) /\ hosts db' = hosts db.

Lemma attempt_cases {A} w st (op : Db -> A * Db) db : attempt w st op db = db \/ attempt w st op db = (op db).2.
Proof. unfold attempt. destruct (hw_fails w st); auto. Qed.

Lemma update_task_runs id f db : runs (update_task id f db).2 = runs db.
Proof. unfold update_task. destruct (tasks db !! id); [|done]. by destruct (f t). Qed.

Lemma runs_ok_same db db' : runs db' = runs db -> runs_ok db -> runs_ok db'.
Proof. unfold runs_ok, run_ids, open_runs. by intros ->. Qed.

Lemma runs_ok_complete now task status error db :
  runs_ok db -> runs_ok (complete_active_run_for_task now task status error db).2.
Proof.
  intros Hok. unfold complete_active_run_for_task. destruct (active_run_for_task task db) as [r|]; [|done].
  rewrite complete_run_closes. destruct (_ && _); [|done]. by apply runs_ok_close.
Qed.

Lemma ids_complete now task status error db :
  run_ids (complete_active_run_for_task now task status error db).2 = run_ids db.
Proof.
  unfold complete_active_run_for_task. destruct (active_run_for_task task db) as [r|]; [|done].
  rewrite complete_run_closes. destruct (_ && _); [|done]. apply closing_ids.
Qed.

Lemma ids_ensure now fresh task host db :
  run_ids (ensure_active_run now fresh task host db).2 ⊆ run_ids db ++ [fresh].
Proof.
  destruct (ensure_inserts now fresh task host db) as [->|(_ & r & Hid & _ & _ & ->)]; [set_solver|].
  unfold run_ids, set_runs. cbn [runs]. rewrite fmap_app. simpl. rewrite Hid. done.
Qed.

Lemma event_keeps w e db : hw_fresh w ∉ run_ids db -> runs_ok db ->
  runs_ok (apply_task_status_event w e db) /\ run_ids (apply_task_status_event w e db) ⊆ run_ids db ++ [hw_fresh w].
Proof.
  intros Hf Hok. unfold apply_task_status_event.
  set (db1 := match se_host_id e with Some h => _ | None => db end).
  assert (H1 : runs db1 = runs db).
  { unfold db1. destruct (se_host_id e) as [h|]; [|done].
    destruct (attempt_cases w StAssignHost (assign_host (se_task_id e) h) db) as [->| ->]; [done|apply update_task_runs]. }
  assert (Hid1 : run_ids db1 = run_ids db) by (unfold run_ids; by rewrite H1).
  apply (runs_ok_same db db1 H1) in Hok. rewrite <-Hid1 in Hf |- *. clearbody db1. clear H1 Hid1 db.
  set (ens := attempt w StEnsureRun (ensure_active_run (hw_now w) (hw_fresh w) (se_task_id e) (se_host_id e)) db1).
  assert (He : runs_ok ens /\ run_ids ens ⊆ run_ids db1 ++ [hw_fresh w]).
  { unfold ens. destruct (attempt_cases w StEnsureRun
      (ensure_active_run (hw_now w) (hw_fresh w) (se_task_id e) (se_host_id e)) db1) as [->| ->].
    - split; [done|set_solver].
    - split; [by apply runs_ok_ensure|apply ids_ensure]. }
  assert (Hend : forall d, runs_ok d /\ run_ids d ⊆ run_ids db1 ++ [hw_fresh w] ->
    runs_ok (attempt w StUpdateStatus (update_status (se_task_id e) (se_status e)) d) /\
    run_ids (attempt w StUpdateStatus (update_status (se_task_id e) (se_status e)) d) ⊆ run_ids db1 ++ [hw_fresh w]).
  { intros d [Hd Hi]. destruct (attempt_cases w StUpdateStatus (update_status (se_task_id e) (se_status e)) d) as [->| ->]; [done|].
    unfold update_status. split; [eapply runs_ok_same; [apply update_task_runs|done]|].
    unfold run_ids. by rewrite update_task_runs. }
  assert (Hsame : runs_ok db1 /\ run_ids db1 ⊆ run_ids db1 ++ [hw_fresh w]) by (split; [done|set_solver]).
  apply Hend. destruct (String.eqb _ _); [done|]. destruct (is_terminal_task_status _); [|done].
  assert (Hc : forall d, runs_ok d /\ run_ids d ⊆ run_ids db1 ++ [hw_fresh w] ->
    let d' := attempt w StCompleteRun (complete_active_run_for_task (hw_now w) (se_task_id e) (se_status e) (se_detail e)) d in
    runs_ok d' /\ run_ids d' ⊆ run_ids db1 ++ [hw_fresh w]).
  { intros d [Hd Hi]. simpl. destruct (attempt_cases w StCompleteRun
      (complete_active_run_for_task (hw_now w) (se_task_id e) (se_status e) (se_detail e)) d) as [->| ->]; [done|].
    split; [by apply runs_ok_complete|]. by rewrite ids_complete. }
  apply Hc. by destruct (_ && _).
Qed.

Definition no_faults (w : HandlerWorld) : Prop := forall st, hw_fails w st = false.
Definition host_known (e : TaskStatusEvent) (db : Db) : Prop := forall h, se_host_id e = Some h -> is_Some (hosts db !! h).

Lemma attempt_ok {A} w st (op : Db -> A * Db) db : no_faults w -> attempt w st op db = (op db).2.
Proof. unfold attempt. by intros ->. Qed.

Lemma terminal_status_valid s : is_terminal_task_status s = true -> s ∈ TASK_STATUSES /\ s ∈ RUN_STATUSES.
Proof.
  unfold is_terminal_task_status. intros H%bool_decide_eq_true.
  repeat (apply elem_of_cons in H as [->|H]; [split; repeat constructor|]). by apply not_elem_of_nil in H.
Qed.

(** The row of a task once its host is assigned. *)
Lemma assign_host_row id h db t : tasks db !! id = Some t -> is_Some (hosts db !! h) ->
  (assign_host id h db).2 = set_tasks (<[id := set_host h t]> (tasks db)) db.
Proof. intros Ht Hh. unfold assign_host, update_task. rewrite Ht. by rewrite bool_decide_true. Qed.

Lemma update_status_row id s db t : tasks db !! id = Some t -> s ∈ TASK_STATUSES ->
  (update_status id s db).2 = set_tasks (<[id := set_status s t]> (tasks db)) db.
Proof. intros Ht Hh. unfold update_status, update_task. rewrite Ht. by rewrite bool_decide_true. Qed.

(** The database once the event's host is assigned. *)
Definition with_host (e : TaskStatusEvent) (db : Db) : Db :=
  match se_host_id e with Some h => (assign_host (se_task_id e) h db).2 | None => db end.

Lemma with_host_spec e db t : tasks db !! se_task_id e = Some t -> host_known e db ->
  exists t', tasks (with_host e db) !! se_task_id e = Some t' /\ tk_status t' = tk_status t /\
    runs (with_host e db) = runs db /\ hosts (with_host e db) = hosts db.
Proof.
  intros Ht Hh. unfold with_host. destruct (se_host_id e) as [h|] eqn:He; [|by exists t].
  rewrite (assign_host_row _ _ _ t Ht) by (by apply Hh). exists (set_host h t).
  split; [simpl; apply lookup_insert_eq|done].
Qed.

Lemma ensure_opens now fresh task host db t :
  tasks db !! task = Some t -> (forall h, host = Some h -> is_Some (hosts db !! h)) ->
  existsb (open_run task) (runs db) = false ->
  exists r, (ensure_active_run now fresh task host db).2 = set_runs (runs db ++ [r])%list db /\ open_run task r = true.
Proof.
  intros Ht Hh He. unfold ensure_active_run. rewrite Ht, He.
  replace (match host with Some h => bool_decide (hosts db !! h = None) | None => false end) with false.
  2:{ destruct host as [h|]; [|done]. destruct (Hh h eq_refl) as [x Hx]. by rewrite Hx. }
  eexists. split; [reflexivity|]. unfold open_run. simpl. by rewrite String.eqb_refl.
Qed.

Lemma complete_latest now task status error db r :
  runs_ok db -> latest_open task (runs db) = Some r -> status ∈ RUN_STATUSES ->
  let db' := (complete_active_run_for_task now task status error db).2 in
  open_runs task db' = [] /\ tasks db' = tasks db /\
  exists r', r' ∈ runs db' /\ rn_task_id r' = task /\ rn_status r' = status /\ rn_completed_at r' = Some now /\ rn_error_message r' = error.
Proof.
  intros Hok Hl Hs. unfold complete_active_run_for_task, active_run_for_task. rewrite Hl. simpl.
  apply latest_open_some in Hl as Hr. destruct Hr as [Hin Hop].
  rewrite complete_run_closes, !bool_decide_true; simpl; [|done|by apply list_elem_of_fmap; exists r].
  split; [by apply close_latest|]. split; [done|]. exists (completed now status error r). split; [|split; [|done]].
  - apply list_elem_of_In, in_map_iff. exists r. split; [|by apply list_elem_of_In]. unfold closing. by rewrite String.eqb_refl.
  - simpl. by apply andb_prop in Hop as [->%String.eqb_eq _].
Qed.

Lemma terminal_closes w e db t :
  no_faults w -> hw_fresh w ∉ run_ids db -> runs_ok db -> tasks db !! se_task_id e = Some t -> host_known e db ->
  is_terminal_task_status (se_status e) = true ->
  let db' := apply_task_status_event w e db in
  open_runs (se_task_id e) db' = [] /\
  (tk_status <$> tasks db' !! se_task_id e) = Some (se_status e) /\
  exists r, r ∈ runs db' /\ rn_task_id r = se_task_id e /\ rn_status r = se_status e /\
    rn_completed_at r = Some (hw_now w) /\ rn_error_message r = se_detail e.
Proof.
  intros Hw Hf Hok Ht Hh Hterm. pose proof (terminal_status_valid _ Hterm) as [Hts Hrs].
  destruct (with_host_spec e db t Ht Hh) as (t1 & Ht1 & _ & Hr1 & Hh1).
  unfold apply_task_status_event.
  replace (match se_host_id e with Some h => _ | None => db end) with (with_host e db).
  2:{ unfold with_host. destruct (se_host_id e); [|done]. by rewrite attempt_ok. }
  assert (Hok1 : runs_ok (with_host e db)) by (by eapply runs_ok_same).
  assert (Hf1 : hw_fresh w ∉ run_ids (with_host e db)) by (unfold run_ids; by rewrite Hr1).
  assert (Hh2 : forall h, se_host_id e = Some h -> is_Some (hosts (with_host e db) !! h)) by (intros h; rewrite Hh1; apply Hh).
  rewrite Hterm. replace (se_status e =? "running")%string with false.
  2:{ symmetry. apply String.eqb_neq. intros He. by rewrite He in Hterm. }
  clear Hr1 Hh1 Hok Hf Hh Ht. generalize dependent (with_host e db). intros d Ht Hok Hf Hh.
  rewrite !attempt_ok by done. rewrite Hw. simpl.
  set (d2 := if bool_decide (active_run_for_task (se_task_id e) d = None) then _ else d).
  assert (Hd : runs_ok d2 /\ tasks d2 = tasks d /\ exists r, latest_open (se_task_id e) (runs d2) = Some r).
  { unfold d2. case_bool_decide as Ha.
    - apply latest_open_none in Ha.
      destruct (ensure_opens (hw_now w) (hw_fresh w) _ (se_host_id e) d t1 Ht Hh Ha) as (r & Hr & Hop).
      split; [by apply runs_ok_ensure|]. rewrite Hr. split; [done|].
      destruct (latest_open _ _) as [x|] eqn:Hl; [by exists x|]. apply latest_open_none in Hl.
      simpl in Hl. rewrite existsb_app in Hl. simpl in Hl. by rewrite Hop, orb_true_r in Hl.
    - split; [done|]. split; [done|]. unfold active_run_for_task in Ha. by destruct (latest_open _ (runs d)) as [x|]; [exists x|]. }
  destruct Hd as (Hok2 & Htd & r & Hl). clearbody d2.
  destruct (complete_latest (hw_now w) _ (se_status e) (se_detail e) d2 r Hok2 Hl Hrs) as (Ho & Ht3 & Hr).
  rewrite (update_status_row _ _ _ t1); [|by rewrite Ht3, Htd|done]. split; [exact Ho|]. split; [|exact Hr].
  simpl. by rewrite lookup_insert_eq.
Qed.

(** Events in the order the server handles them. *)
Definition handle_events (l : list (HandlerWorld * TaskStatusEvent)) (db : Db) : Db :=
  foldl (fun db x => apply_task_status_event x.1 x.2 db) db l.
Definition fresh_ids (l : list (HandlerWorld * TaskStatusEvent)) : list string := hw_fresh ∘ fst <$> l.

Lemma events_keep l db : NoDup (fresh_ids l) -> (forall i, i ∈ fresh_ids l -> i ∉ run_ids db) -> runs_ok db ->
  runs_ok (handle_events l db) /\ run_ids (handle_events l db) ⊆ run_ids db ++ fresh_ids l.
Proof.
  revert db. induction l as [|[w e] l IH]; intros db Hnd Hf Hok; [split; [done|set_solver]|].
  cbn [fresh_ids fmap list_fmap compose fst] in Hnd, Hf. apply NoDup_cons in Hnd as [Hw Hnd].
  destruct (event_keeps w e db) as [Hok1 Hi1]; [by apply Hf; left|done|].
  destruct (IH (apply_task_status_event w e db)) as [Hok2 Hi2]; [done| |done|].
  - intros i Hi Hin. apply Hi1, elem_of_app in Hin as [Hin| ->%list_elem_of_singleton]; [|done].
    apply (Hf i); [by right|done].
  - split; [exact Hok2|]. simpl. set_solver.
Qed.

(** over any status events, of any tasks, in any order, duplicated or with any of their
    statements failing, a task never has two unfinished runs; and after an event with a
    terminal status that meets the task's row and no fault, the task has no unfinished run,
    its status is the event's, and a run of it carries that status, the time and the detail --
    also when no run had been opened. *)
Theorem one_open_run l w e db t :
  NoDup (fresh_ids l ++ [hw_fresh w]) -> (forall i, i ∈ (fresh_ids l ++ [hw_fresh w])%list -> i ∉ run_ids db) -> runs_ok db ->
  let before := handle_events l db in
  let after := apply_task_status_event w e before in
  (forall task, (length (open_runs task before) <= 1)%nat) /\
  (no_faults w -> tasks before !! se_task_id e = Some t -> host_known e before -> is_terminal_task_status (se_status e) = true ->
   open_runs (se_task_id e) after = [] /\ (tk_status <$> tasks after !! se_task_id e) = Some (se_status e) /\
   exists r, r ∈ runs after /\ rn_task_id r = se_task_id e /\ rn_status r = se_status e /\
     rn_completed_at r = Some (hw_now w) /\ rn_error_message r = se_detail e).
Proof.
  intros Hnd Hf Hok. apply NoDup_app in Hnd as (Hnd & Hw & _). simpl.
  destruct (events_keep l db Hnd) as [Hok1 Hi]; [|done|].
  { intros i Hin. apply Hf, elem_of_app. by left. }
  split; [apply Hok1|]. intros Hnf Ht Hh Hterm. eapply terminal_closes; [done| |done..].
  intros Hin%Hi. apply elem_of_app in Hin as [Hin|Hin].
  - apply (Hf (hw_fresh w)); [|done]. apply elem_of_app. right. by apply list_elem_of_singleton.
  - apply (Hw _ Hin). by apply list_elem_of_singleton.
Qed.

(** ** Dispatch *)

Section DispatchTheorems.
Context (parse_uuid : string -> option string) (phases_json : list PhaseSpec -> json).

#[local] Notation admit_request' := (admit_request parse_uuid).
#[local] Notation create_task' := (create_task phases_json).
#[local] Notation dispatch := (dispatch_task parse_uuid phases_json).

(** What the guards promise of an admitted request. *)
Definition admissible (w : DispatchWorld) (rq : TaskDispatchRequest) (db : Db) (host_id_str : string) (host : HostRow) : Prop :=
  (is_Some (rq_parent_task_id rq) -> is_Some (rq_delegation_scope rq)) /\
  (forall parent, rq_parent_task_id rq = Some parent ->
     exists row, tasks db !! parent = Some row /\ tk_tenant_id row = rq_tenant_id rq) /\
  (exists h uuid, rq_host_id rq = Some h /\ host_id_str = trim h /\ parse_uuid host_id_str = Some uuid /\
     hosts db !! uuid = Some host /\ h_tenant_id host = rq_tenant_id rq /\ dw_trust w uuid = Ok tt) /\
  dw_nats w = true.

Lemma db_read_ok {A} w st (x y : A) : db_read w st x = Ok y -> y = x.
Proof. unfold db_read. destruct (dw_db_fails w st); [done|]. by intros [= ->]. Qed.

Lemma admit_parent_ok w rq db u : admit_parent w rq db = Ok u ->
  forall parent, rq_parent_task_id rq = Some parent ->
  exists row, tasks db !! parent = Some row /\ tk_tenant_id row = rq_tenant_id rq.
Proof.
  unfold admit_parent. intros H parent Hp. rewrite Hp in H. unfold result_bind in H.
  destruct (db_read _ _ _) as [row|] eqn:Hr; [|done]. apply db_read_ok in Hr as ->.
  unfold get_by_id in H. destruct (tasks db !! parent) as [row|]; [|done]. exists row. split; [done|].
  by destruct (String.eqb_spec (tk_tenant_id row) (rq_tenant_id rq)).
Qed.

Lemma admit_host_ok w rq db host_id_str host : admit_host parse_uuid w rq db = Ok (host_id_str, host) ->
  (exists h uuid, rq_host_id rq = Some h /\ host_id_str = trim h /\ parse_uuid host_id_str = Some uuid /\
     hosts db !! uuid = Some host /\ h_tenant_id host = rq_tenant_id rq /\ dw_trust w uuid = Ok tt) /\
  dw_nats w = true.
Proof.
  unfold admit_host. destruct (rq_host_id rq) as [h|]; [|done]. simpl. destruct (trim h =? "")%string; [done|].
  destruct (parse_uuid (trim h)) as [uuid|] eqn:Hu; [|done]. unfold result_bind.
  destruct (db_read _ _ _) as [row|] eqn:Hr; [|done]. apply db_read_ok in Hr as ->.
  destruct (hosts db !! uuid) as [x|] eqn:Hx; [|done].
  destruct (String.eqb_spec (h_tenant_id x) (rq_tenant_id rq)); [|done].
  destruct (dw_trust w uuid) as [[]|] eqn:Ht; [|done]. destruct (dw_nats w); [|done]. intros [= <- <-].
  split; [|done]. by exists h, uuid.
Qed.

Lemma admit_admissible w rq db host_id_str host : admit_request' w rq db = Ok (host_id_str, host) -> admissible w rq db host_id_str host.
Proof.
  unfold admit_request, result_bind, validate_child_task_delegation_scope.
  destruct (bool_decide (is_Some (rq_parent_task_id rq)) && bool_decide (rq_delegation_scope rq = None))%bool eqn:Hscope; [done|].
  destruct (admit_parent w rq db) as [u|] eqn:Hp; [|done]. intros Hh. split; [|split; [by eapply admit_parent_ok|by apply admit_host_ok]].
  intros Hs. rewrite bool_decide_true in Hscope by done. by destruct (rq_delegation_scope rq).
Qed.

(** A created row: the request's, on the host, pending. *)
Definition created_row (w : DispatchWorld) (rq : TaskDispatchRequest) (host : HostRow) (task : TaskRow) : Prop :=
  tk_id task = dw_fresh w /\ tk_tenant_id task = rq_tenant_id rq /\ tk_prompt task = rq_prompt rq /\
  tk_environment_id task = rq_environment_id rq /\ tk_host_id task = Some (h_id host) /\ tk_status task = "pending" /\
  tk_parent_task_id task = rq_parent_task_id rq.

Definition same_rest (db db' : Db) : Prop := runs db' = runs db /\ hosts db' = hosts db /\ environments db' = environments db.

Lemma create_task_ok w rq host db task db' : create_task' w rq host db = (Ok task, db') ->
  created_row w rq host task /\ tasks db' !! dw_fresh w = Some task /\ same_rest db db'.
Proof.
  unfold create_task. destruct (dw_db_fails w DbCreate); [done|]. unfold create.
  destruct (_ || _)%bool; [done|]. destruct (dw_db_fails w DbAssign); [done|]. simpl.
  unfold assign_host, update_task. simpl. rewrite lookup_insert_eq. case_bool_decide; [|done].
  intros [= <- <-]. repeat split. simpl. apply lookup_insert_eq.
Qed.

Lemma create_task_rest w rq host db : same_rest db (create_task' w rq host db).2.
Proof.
  unfold create_task. destruct (dw_db_fails w DbCreate); [done|]. unfold create.
  destruct (_ || _)%bool; [done|]. destruct (dw_db_fails w DbAssign); [done|]. simpl.
  unfold assign_host, update_task. simpl. rewrite lookup_insert_eq. by case_bool_decide.
Qed.

Definition workflow_input (rq : TaskDispatchRequest) (host_id_str : string) (task : TaskRow) : TaskInput :=
  {| wi_task_id := tk_id task; wi_environment_id := tk_environment_id task; wi_prompt := tk_prompt task;
     wi_host_id := Some host_id_str; wi_parent_task_id := rq_parent_task_id rq |}.

Lemma start_task_cases w rq host_id_str host task db :
  let '(r, db', effects) := start_task w rq host_id_str host task db in
  match r with
  | Ok _ => db' = db /\ exists subject, Subjects.invoke (h_name host) (tk_id task) = Ok subject /\
      effects = [StartWorkflow (workflow_input rq host_id_str task); PublishInvocation subject (invocation_of w rq task (h_id host))]
  | Err _ => effects = [] \/ effects = [StartWorkflow (workflow_input rq host_id_str task)]
  end.
Proof.
  unfold start_task. destruct (dw_restate w); [|by left..].
  destruct (Subjects.invoke _ _) as [subject|] eqn:Hs; [|by right]. destruct (dw_publish w); [by right|].
  split; [done|]. by exists subject.
Qed.

(** What left the server for an admitted request whose row was created. *)
Definition sent (w : DispatchWorld) (rq : TaskDispatchRequest) (db : Db) (r : result TaskRow TaskDispatchError)
    (effects : list ServerEffect) : Prop :=
  exists host_id_str host task, admissible w rq db host_id_str host /\ created_row w rq host task /\
    (effects = [StartWorkflow (workflow_input rq host_id_str task)] /\ is_ok r = false \/
     exists subject, Subjects.invoke (h_name host) (dw_fresh w) = Ok subject /\
       effects = [StartWorkflow (workflow_input rq host_id_str task); PublishInvocation subject (invocation_of w rq task (h_id host))]).

Lemma dispatch_cases w rq meanwhile db :
  let '(r, db', effects) := dispatch w rq meanwhile db in
  (effects = [] \/ sent w rq db r effects) /\
  (forall e, admit_request' w rq db = Err e -> r = Err e /\ db' = db /\ effects = []) /\
  (forall task, r = Ok task -> length effects = 2%nat /\ tk_status task = "queued" /\ tasks db' !! dw_fresh w = Some task).
Proof.
  unfold dispatch_task. destruct (admit_request' w rq db) as [[hs host]|e0] eqn:Ha.
  2:{ split; [by left|]. split; [by intros e [= ->]|done]. }
  destruct (create_task' w rq host db) as [[task|e] db1] eqn:Hc.
  2:{ split; [by left|]. by split. }
  apply create_task_ok in Hc as (Hrow & _ & _). pose proof (start_task_cases w rq hs host task db1) as Hs.
  destruct (start_task w rq hs host task db1) as [[[u|e] db2] effects].
  2:{ split; [|by split]. destruct Hs as [->| ->]; [by left|]. right. exists hs, host, task. split; [by apply admit_admissible|]. auto. }
  destruct Hs as (_ & subject & Hsub & ->).
  assert (Hsent : forall r, sent w rq db r [StartWorkflow (workflow_input rq hs task); PublishInvocation subject (invocation_of w rq task (h_id host))]).
  { intros r. exists hs, host, task. split; [by apply admit_admissible|]. split; [done|]. right. exists subject.
    by rewrite <-(proj1 Hrow). }
  destruct (dw_db_fails w DbMarkQueued); [split; [by right|by split]|].
  unfold update_status, update_task. rewrite (proj1 Hrow).
  destruct (tasks (meanwhile db2) !! dw_fresh w) as [t|] eqn:Ht; simpl; (split; [by right|]); (split; [done|]); [|done].
  intros t' [= <-]. repeat split. simpl. apply lookup_insert_eq.
Qed.

(** nothing leaves the server for a task that was not admitted, and what leaves names that
    task and that host: a workflow is started only for a request with a delegation scope if it
    has a parent, a parent and a host of the caller's own tenant, a host whose trust was
    accepted, and a connected broker; the invocation, if any, goes to the host's own subject
    and carries the request's tenant and the new task's id.  A request that is not admitted
    changes no row.  When dispatch answers with a task, both were sent and its row is queued,
    whatever other connections did to it meanwhile. *)
Theorem dispatch_guarded w rq meanwhile db :
  let '(r, db', effects) := dispatch w rq meanwhile db in
  (effects = [] \/ sent w rq db r effects) /\
  (forall e, admit_request' w rq db = Err e -> r = Err e /\ db' = db /\ effects = []) /\
  (forall task, r = Ok task -> length effects = 2%nat /\ tk_status task = "queued" /\ tasks db' !! dw_fresh w = Some task).
Proof. apply dispatch_cases. Qed.

(** *** The races of the two surfaces *)

Lemma event_unknown_task w e db :
  tasks db !! se_task_id e = None -> existsb (open_run (se_task_id e)) (runs db) = false -> apply_task_status_event w e db = db.
Proof.
  intros Ht Ho. assert (Hl : active_run_for_task (se_task_id e) db = None) by (by apply latest_open_none).
  assert (Hu : forall id f, id = se_task_id e -> (update_task id f db).2 = db) by (intros id f ->; unfold update_task; by rewrite Ht).
  assert (He : forall now fresh host, (ensure_active_run now fresh (se_task_id e) host db).2 = db).
  { intros now fresh host. unfold ensure_active_run. rewrite Ht. by rewrite Hl. }
  assert (Hc : forall now s d, (complete_active_run_for_task now (se_task_id e) s d db).2 = db).
  { intros now s d. unfold complete_active_run_for_task. by rewrite Hl. }
  assert (Hat : forall A st (op : Db -> A * Db), (op db).2 = db -> attempt w st op db = db).
  { intros A st op Hop. destruct (attempt_cases w st op db) as [->| ->]; done. }
  unfold apply_task_status_event. replace (match se_host_id e with Some h => _ | None => db end) with db.
  2:{ destruct (se_host_id e); [|done]. symmetry. apply Hat, Hu. done. }
  rewrite (Hat _ StEnsureRun) by apply He. replace (if _ && _ then db else db) with db by (by destruct (_ && _)).
  rewrite (Hat _ StCompleteRun) by apply Hc. replace (if is_terminal_task_status _ then db else db) with db by (by destruct (is_terminal_task_status _)).
  replace (if (_ =? _)%string then db else db) with db by (by destruct (_ =? _)%string).
  apply Hat, Hu. done.
Qed.

Lemma handle_events_unknown l id db :
  tasks db !! id = None -> existsb (open_run id) (runs db) = false -> Forall (fun x => se_task_id x.2 = id) l ->
  handle_events l db = db.
Proof.
  intros Ht Ho. induction 1 as [|[w e] l Hx Hl IH]; [done|]. simpl in Hx |- *. rewrite event_unknown_task; [done|by rewrite Hx..].
Qed.

(** a REST request commits its row last.  When the worker answers before the commit, every
    status event of the task -- running, failed, succeeded -- meets no row and is lost: the
    database ends as if no event had come, with the task queued and no run.  A
    request that fails after its workflow was accepted leaves no row at all. *)
Theorem rest_loses_early_events w rq l db :
  tasks db !! dw_fresh w = None -> existsb (open_run (dw_fresh w)) (runs db) = false ->
  Forall (fun x => se_task_id x.2 = dw_fresh w) l ->
  let '(r, db', effects) := rest_create_task parse_uuid phases_json w rq (handle_events l) db in
  match r with
  | Ok task => tasks db' = <[tk_id task := task]> (tasks db) /\ tk_status task = "queued" /\ runs db' = runs db
  | Err _ => db' = db
  end.
Proof.
  intros Ht Ho Hl. unfold rest_create_task.
  pose proof (dispatch_cases w rq (fun d => d) db) as Hg.
  destruct (dispatch w rq (fun d => d) db) as [[r db1] effects].
  rewrite (handle_events_unknown l (dw_fresh w)) by done. destruct r as [task|]; [|done].
  destruct Hg as (_ & _ & Hq). destruct (Hq task eq_refl) as (_ & Hst & _). by repeat split.
Qed.

End DispatchTheorems.

(** ** A task end to end *)

(** Rows are only updated, hosts never. *)
Definition grows (db db' : Db) : Prop :=
  (forall id, is_Some (tasks db !! id) -> is_Some (tasks db' !! id)) /\ hosts db' = hosts db.

#[export] Instance grows_preorder : PreOrder grows.
Proof. split; [by split|]. intros x y z [H1 H2] [H3 H4]. split; [auto|congruence]. Qed.

Lemma grows_update_task id f db : grows db (update_task id f db).2.
Proof.
  unfold update_task. destruct (tasks db !! id) as [t|]; [|done]. destruct (f t) as [t'|]; [|done]. split; [|done]. simpl.
  intros i Hi. destruct (decide (id = i)) as [->|]; [by rewrite lookup_insert_eq|by rewrite lookup_insert_ne].
Qed.

Lemma grows_ensure now fresh task host db : grows db (ensure_active_run now fresh task host db).2.
Proof. by destruct (ensure_inserts now fresh task host db) as [->|(_ & r & _ & _ & _ & ->)]. Qed.

Lemma grows_complete now task s d db : grows db (complete_active_run_for_task now task s d db).2.
Proof.
  unfold complete_active_run_for_task. destruct (active_run_for_task task db); [|done].
  rewrite complete_run_closes. by destruct (_ && _).
Qed.

Lemma grows_attempt {A} w st (op : Db -> A * Db) d db : grows d db -> (forall x, grows x (op x).2) -> grows d (attempt w st op db).
Proof. intros H Hop. etransitivity; [exact H|]. destruct (attempt_cases w st op db) as [->| ->]; [done|apply Hop]. Qed.

Lemma event_grows w e db : grows db (apply_task_status_event w e db).
Proof.
  unfold apply_task_status_event. apply grows_attempt; [|intros; apply grows_update_task].
  set (db1 := match se_host_id e with Some h => _ | None => db end).
  assert (H1 : grows db db1).
  { unfold db1. destruct (se_host_id e); [|done]. apply grows_attempt; [done|intros; apply grows_update_task]. }
  destruct (String.eqb _ _); [apply grows_attempt; [done|intros; apply grows_ensure]|].
  destruct (is_terminal_task_status _); [|done]. apply grows_attempt; [|intros; apply grows_complete].
  destruct (_ && _); [|done]. apply grows_attempt; [done|intros; apply grows_ensure].
Qed.

Lemma events_grow l db : grows db (handle_events l db).
Proof.
  revert db. induction l as [|[w e] l IH]; intros db; [done|]. simpl. etransitivity; [apply event_grows|apply IH].
Qed.

(** Hosts are kept under their own identifiers. *)
Definition hosts_ok (db : Db) : Prop := forall k h, hosts db !! k = Some h -> h_id h = k.

Lemma statuses_events l : statuses l = se_status <$> events l.
Proof. unfold statuses, events. induction l as [|[] l IH]; simpl; [done|by f_equal|done..]. Qed.

Lemma reports_last inv l r : reports inv l r -> exists l0 e, events l = (l0 ++ [e])%list /\ se_status e = as_str (tr_status r).
Proof.
  intros (_ & _ & Hs & _). rewrite statuses_events in Hs. destruct (events l) as [|e1 [|e2 [|]]]; simpl in Hs.
  - by destruct Hs.
  - exists [], e1. split; [done|]. destruct Hs as [[= ->]|]; done.
  - exists [e1], e2. split; [done|]. destruct Hs as [|[= _ ->]]; done.
  - by destruct Hs.
Qed.

Lemma terminal_as_str st : is_terminal_task_status (as_str st) = true.
Proof. by destruct st. Qed.

(** The worker's events, handled without faults, settle the task's rows. *)
Lemma events_settle inv l effects r db :
  reports inv effects r -> l.*2 = events effects -> Forall no_faults l.*1 ->
  NoDup (fresh_ids l) -> (forall i, i ∈ fresh_ids l -> i ∉ run_ids db) -> runs_ok db ->
  is_Some (tasks db !! ti_task_id inv) -> is_Some (hosts db !! ti_host_id inv) ->
  let db' := handle_events l db in
  (tk_status <$> tasks db' !! ti_task_id inv) = Some (as_str (tr_status r)) /\ open_runs (ti_task_id inv) db' = [].
Proof.
  intros Hrep Hl Hnf Hnd Hf Hok Ht Hh. simpl. destruct (reports_last _ _ _ Hrep) as (es & e & He & Hst).
  destruct Hrep as (_ & _ & _ & Hev). rewrite He in Hl, Hev. apply Forall_app in Hev as [_ Hev].
  apply Forall_singleton in Hev as [Hid Hhost].
  destruct l as [|[w e'] l _] using rev_ind; [by destruct es|].
  rewrite fmap_app in Hl. apply app_inj_tail in Hl as [_ Hl]. simpl in Hl. subst e'.
  unfold fresh_ids in Hnd, Hf. rewrite fmap_app in Hnd, Hf. apply NoDup_app in Hnd as (Hnd & Hw & _).
  rewrite fmap_app in Hnf. apply Forall_app in Hnf as [_ Hnf]. apply Forall_cons in Hnf as [Hnf _]. simpl in Hnf.
  unfold handle_events. rewrite foldl_app. fold (handle_events l db). cbn [foldl fst snd].
  destruct (events_keep l db Hnd) as [Hok1 Hi]; [|done|].
  { intros i Hin. apply Hf, elem_of_app. by left. }
  destruct (events_grow l db) as [Hg Hhosts]. destruct (Hg _ Ht) as [t Ht1].
  rewrite <-Hid in Ht1 |- *. rewrite <-Hst. destruct (terminal_closes w e (handle_events l db) t) as (Ho & Hs & _); [done| |done|done| | |by split].
  - intros Hin%Hi. apply elem_of_app in Hin as [Hin|Hin].
    + apply (Hf (hw_fresh w)); [|done]. apply elem_of_app. right. by apply list_elem_of_singleton.
    + apply (Hw _ Hin). by apply list_elem_of_singleton.
  - intros h. rewrite Hhost, Hhosts. by intros [= <-].
  - rewrite Hst. apply terminal_as_str.
Qed.

(** A dispatched task: its rows, and its invocation. *)
Lemma dispatch_ok parse_uuid phases_json w rq db task db1 wf subject inv :
  dispatch_task parse_uuid phases_json w rq (fun d => d) db = (Ok task, db1, [StartWorkflow wf; PublishInvocation subject inv]) ->
  ti_task_id inv = tk_id task /\ wi_task_id wf = tk_id task /\ runs db1 = runs db /\ hosts db1 = hosts db /\
  is_Some (tasks db1 !! tk_id task) /\ exists uuid h, hosts db !! uuid = Some h /\ ti_host_id inv = h_id h.
Proof.
  unfold dispatch_task. destruct (admit_request _ w rq db) as [[hs host]|] eqn:Ha; [|done].
  apply admit_admissible in Ha as (_ & _ & (_ & uuid & _ & _ & _ & Hhost & _) & _).
  destruct (create_task _ w rq host db) as [[t|] d1] eqn:Hc; [|done].
  apply create_task_ok in Hc as (Hrow & Ht & Hr & Hh & _). pose proof (start_task_cases w rq hs host t d1) as Hs.
  destruct (start_task w rq hs host t d1) as [[[u|] d2] effects]; [|done].
  destruct Hs as (-> & s & _ & ->). destruct (dw_db_fails w DbMarkQueued); [done|].
  unfold update_status, update_task. rewrite (proj1 Hrow), Ht. simpl. intros [= <- <- <- <- <-]. simpl.
  repeat split; [done..| |].
  - rewrite (proj1 Hrow), lookup_insert_eq. by eexists.
  - by exists uuid, host.
Qed.

(** C21: a task end to end.  A dispatched task whose invocation a worker executes ends with one
    status, the same everywhere, provided that each of the worker's events is handled once and
    in their order, by a database that fails no statement and that nobody else writes, and that
    the workflow is not cancelled: whatever the turn does and whether it starts at all, once the
    events were handled and the worker's one result delivered -- in any order with the run of
    the workflow, repeated, with approvals between -- the workflow's status, the workflow's
    outcome and the row in the database are the result's status, which is terminal, and the
    task has no unfinished run. *)
Theorem task_settles parse_uuid phases_json w rq db task db1 wf subject inv model turn l calls :
  runs_ok db -> hosts_ok db ->
  dispatch_task parse_uuid phases_json w rq (fun d => d) db = (Ok task, db1, [StartWorkflow wf; PublishInvocation subject inv]) ->
  let effects := execute_task inv model turn in
  l.*2 = events effects -> Forall no_faults l.*1 -> NoDup (fresh_ids l) -> (forall i, i ∈ fresh_ids l -> i ∉ run_ids db) ->
  run_called calls = true -> delivered calls <> [] -> (forall r, r ∈ delivered calls -> r ∈ results effects) ->
  exists r, tr_task_id r = wi_task_id wf /\ results effects = [r] /\
    run_returned (workflow_after calls) = Some (task_outcome_from_result r) /\
    status_tag (get_status (workflow_after calls)) = as_str (tr_status r) /\
    (tk_status <$> tasks (handle_events l db1) !! tk_id task) = Some (as_str (tr_status r)) /\
    open_runs (tk_id task) (handle_events l db1) = [].
Proof.
  intros Hok Hhosts Hd effects Hl Hnf Hnd Hf Hrun Hne Hdel.
  apply dispatch_ok in Hd as (Hid & Hwf & Hr & Hh & Ht & uuid & h & Hhost & Hinv).
  destruct (execute_reports inv model turn) as [r Hrep]. fold effects in Hrep. exists r.
  pose proof Hrep as (Hres & Htid & _). rewrite Hres in Hdel |- *.
  assert (Hhead : head (delivered calls) = Some r).
  { destruct (delivered calls) as [|x ds]; [done|]. simpl. f_equal. by apply list_elem_of_singleton, Hdel; left. }
  destruct (workflow_after_settled calls) as (_ & _ & Hret & Hst & _). rewrite Hrun, Hhead in Hret, Hst.
  split; [congruence|]. split; [done|]. split; [done|]. split; [unfold get_status; rewrite Hst; apply outcome_tag|].
  rewrite <-Hid in Ht |- *. eapply events_settle; try done.
  - intros i Hi. unfold run_ids. rewrite Hr. by apply Hf.
  - by eapply runs_ok_same.
  - rewrite Hh, Hinv, (Hhosts _ _ Hhost). by eexists.
Qed.

(** ** Witnesses and races, on a concrete task *)

Module TaskDemo.
Definition inv : TaskInvocation := {|
  ti_task_id := "t1"; ti_tenant_id := "acme"; ti_prompt := "pick"; ti_environment_id := "lab"; ti_host_id := "h1";
  ti_timeout_secs := 300; ti_mode := ModeReact; ti_parent_task_id := None; ti_restate_url := "http://r";
  ti_phases := []; ti_control_interface_manifest := None; ti_delegation_scope := None |}.
Definition rq : TaskDispatchRequest := {|
  rq_tenant_id := "acme"; rq_prompt := "pick"; rq_environment_id := "lab"; rq_timeout_secs := None;
  rq_host_id := Some "h1"; rq_phases := []; rq_parent_task_id := None; rq_control_interface_manifest := None;
  rq_delegation_scope := None |}.
Definition world (trusted : bool) : DispatchWorld := {|
  dw_fresh := "t1"; dw_db_fails := fun _ => None;
  dw_trust := fun _ => if trusted then Ok tt else Err {| DeviceTrust.tj_reason := "unknown" |};
  dw_restate_url := "http://r"; dw_restate := WorkflowAccepted; dw_nats := true; dw_publish := None |}.
Definition db : Db := {|
  tasks := ∅; runs := []; hosts := {[ "h1" := {| h_id := "h1"; h_tenant_id := "acme"; h_name := "arm" |} ]};
  environments := {[ "lab" ]} |}.
Definition handler (fresh : string) : HandlerWorld := {| hw_now := 7; hw_fresh := fresh; hw_fails := fun _ => false |}.
Definition output : AgentOutput :=
  {| out_cycles := 2; out_final_response := Some "done"; out_total_usage := no_usage; out_messages := [] |}.
Definition uuid (s : string) : option string := Some s.
Definition stored (l : list PhaseSpec) : json := JArray [].
Definition event (s : string) : TaskStatusEvent := status_event inv s None.
Definition status_of (db : Db) : option string := tk_status <$> tasks db !! "t1".
End TaskDemo.

(** Both surfaces against a worker that fails its task at once (it is saturated): over gRPC the
    last update overwrites the terminal status with queued, over REST the events meet no row
    and the run is lost too. *)
Example grpc_queued_overwrites_failed :
  let early := handle_events [(TaskDemo.handler "r1", TaskDemo.event "failed")] in
  let '(r, db, _) := grpc_create_task TaskDemo.uuid TaskDemo.stored (TaskDemo.world true) TaskDemo.rq early TaskDemo.db in
  is_ok r = true /\ TaskDemo.status_of db = Some "queued" /\ (rn_status <$> runs db) = ["failed"].
Proof. vm_compute. auto. Qed.

Example rest_queued_hides_failed :
  let early := handle_events [(TaskDemo.handler "r1", TaskDemo.event "failed")] in
  let '(r, db, _) := rest_create_task TaskDemo.uuid TaskDemo.stored (TaskDemo.world true) TaskDemo.rq early TaskDemo.db in
  is_ok r = true /\ TaskDemo.status_of db = Some "queued" /\ runs db = [].
Proof. vm_compute. auto. Qed.

(** A child task reaches a host the trust gate refuses to dispatch to, also of another tenant. *)
Definition child_request (tenant : string) : SpawnRequest := {|
  sp_tenant_id := tenant; sp_prompt := "pick"; sp_host_id := "h1"; sp_environment_id := "lab"; sp_phases := [];
  sp_parent_task_id := "t0"; sp_control_interface_manifest := None;
  sp_delegation_scope := Some {| Dispatch.allowed_tools := []; Dispatch.trust_posture := Trust.default_posture |} |}.

Example child_task_skips_the_gate :
  let db := set_tasks {[ "t0" := {| tk_id := "t0"; tk_tenant_id := "other"; tk_prompt := ""; tk_environment_id := "lab";
    tk_host_id := None; tk_status := "running"; tk_timeout_secs := None; tk_phases := Null; tk_parent_task_id := None |} ]} TaskDemo.db in
  (dispatch_task TaskDemo.uuid TaskDemo.stored (TaskDemo.world false) TaskDemo.rq (fun d => d) TaskDemo.db).1.1 = Err TrustRejected /\
  let '(r, _, effects) := spawn_task TaskDemo.uuid TaskDemo.stored "t1" "http://r" None true true (child_request "other") db in
  r = Ok "t1" /\ exists i, nth_error effects 1 = Some (PublishInvocation "invoke.arm.t1" i) /\ ti_tenant_id i = "other".
Proof. vm_compute. split; [done|]. split; [done|]. by eexists. Qed.

(** Cancelling a task writes its row and reaches no worker: the worker's next event undoes it. *)
Example cancellation_is_overwritten :
  let '(r, db, _) := dispatch_task TaskDemo.uuid TaskDemo.stored (TaskDemo.world true) TaskDemo.rq (fun d => d) TaskDemo.db in
  let db := handle_events [(TaskDemo.handler "r1", TaskDemo.event "running")] db in
  let '(c, db1) := cancel_task "acme" "t1" db in
  let db2 := handle_events [(TaskDemo.handler "r2", TaskDemo.event "succeeded")] db1 in
  c = Ok tt /\ TaskDemo.status_of db1 = Some "cancelled" /\ length (open_runs "t1" db1) = 1%nat /\
  TaskDemo.status_of db2 = Some "succeeded".
Proof. vm_compute. auto. Qed.

(** A REST request whose publication fails has started a workflow and left no row. *)
Example orphan_workflow :
  let w := {| dw_fresh := "t1"; dw_db_fails := fun _ => None; dw_trust := fun _ => Ok tt; dw_restate_url := "http://r";
              dw_restate := WorkflowAccepted; dw_nats := true; dw_publish := Some "down" |} in
  let '(r, db, effects) := rest_create_task TaskDemo.uuid TaskDemo.stored w TaskDemo.rq (fun d => d) TaskDemo.db in
  is_ok r = false /\ db = TaskDemo.db /\ length effects = 1%nat.
Proof. vm_compute. auto. Qed.

(** An invocation that arrives under an active e-stop is dropped: no event, no result. *)
Example estopped_invocation_unanswered model turn : receive_invocation true true 1 TaskDemo.inv model turn = [].
Proof. reflexivity. Qed.

Lemma turn_report_exact_witness : exists y r' res,
  run_turn_streaming (fun _ => "") (fun _ => "") (fun _ => "") 3 "m" SessionDemo.input None []
    (fun _ => ([], executor_completion (AgentEnded (Ok TaskDemo.output))))
    (new_with_memory_store (fun _ => None) 0 SessionDemo.config None) = Ret (y, r') /\
  reports TaskDemo.inv (execute_task TaskDemo.inv (Ok tt) (TurnReturned y false)) res /\ tr_status res = Succeeded /\
  tr_output res = Some (JString "done").
Proof.
  destruct (run_turn_streaming (fun _ => "") (fun _ => "") (fun _ => "") 3 "m" SessionDemo.input None []
    (fun _ => ([], executor_completion (AgentEnded (Ok TaskDemo.output))))
    (new_with_memory_store (fun _ => None) 0 SessionDemo.config None)) as [[y r']|] eqn:H; [|vm_compute in H; discriminate H].
  destruct (turn_report_exact (fun _ => "") (fun _ => "") (fun _ => "") TaskDemo.inv 3 "m" SessionDemo.input None [] []
    (AgentEnded (Ok TaskDemo.output)) (new_with_memory_store (fun _ => None) 0 SessionDemo.config None) r' y false) as (res & Hrep & Hst & Hok);
    [split; [right; reflexivity|reflexivity]|vm_compute; reflexivity|exact H|].
  exists y, r', res. split; [reflexivity|]. split; [exact Hrep|]. split; [exact Hst|].
  exact (proj2 (Hok _ eq_refl)).
Defined.

Lemma no_runs_ok db : runs db = [] -> runs_ok db.
Proof.
  intros H. split; [unfold run_ids; rewrite H; constructor|]. intros task. unfold open_runs. rewrite H. simpl. lia.
Qed.

Lemma demo_handler_sound fresh : no_faults (TaskDemo.handler fresh).
Proof. by intros st. Qed.

Definition dispatched : Db :=
  (dispatch_task TaskDemo.uuid TaskDemo.stored (TaskDemo.world true) TaskDemo.rq (fun d => d) TaskDemo.db).1.2.

Lemma one_open_run_witness : exists db,
  db = handle_events [(TaskDemo.handler "r1", TaskDemo.event "running")] dispatched /\
  open_runs "t1" (apply_task_status_event (TaskDemo.handler "r2") (TaskDemo.event "succeeded") db) = [].
Proof.
  destruct (tasks (handle_events [(TaskDemo.handler "r1", TaskDemo.event "running")] dispatched) !! "t1") as [t|] eqn:Ht;
    [|vm_compute in Ht; discriminate Ht].
  eexists. split; [reflexivity|].
  destruct (one_open_run [(TaskDemo.handler "r1", TaskDemo.event "running")] (TaskDemo.handler "r2") (TaskDemo.event "succeeded")
    dispatched t) as [_ H].
  - vm_compute. apply (bool_decide_unpack _). vm_compute. exact I.
  - intros i _. vm_compute. intros Hin. inversion Hin.
  - apply no_runs_ok. reflexivity.
  - destruct H as [H _]; [apply demo_handler_sound|exact Ht|intros h [= <-]; vm_compute; eexists; reflexivity|reflexivity|].
    exact H.
Defined.

Lemma rest_loses_early_events_witness :
  let '(r, db', _) := rest_create_task TaskDemo.uuid TaskDemo.stored (TaskDemo.world true) TaskDemo.rq
    (handle_events [(TaskDemo.handler "r1", TaskDemo.event "failed")]) TaskDemo.db in
  is_ok r = true /\ runs db' = [].
Proof.
  pose proof (rest_loses_early_events TaskDemo.uuid TaskDemo.stored (TaskDemo.world true) TaskDemo.rq
    [(TaskDemo.handler "r1", TaskDemo.event "failed")] TaskDemo.db eq_refl eq_refl) as H.
  assert (Forall (fun x => se_task_id x.2 = dw_fresh (TaskDemo.world true)) [(TaskDemo.handler "r1", TaskDemo.event "failed")])
    as Hl by (constructor; [reflexivity|constructor]).
  specialize (H Hl).
  destruct (rest_create_task TaskDemo.uuid TaskDemo.stored (TaskDemo.world true) TaskDemo.rq
    (handle_events [(TaskDemo.handler "r1", TaskDemo.event "failed")]) TaskDemo.db) as [[r db'] effects] eqn:He.
  destruct r as [task|e]; [|vm_compute in He; discriminate He]. split; [reflexivity|exact (proj2 (proj2 H))].
Defined.

Definition demo_invocation : TaskInvocation :=
  invocation_of (TaskDemo.world true) TaskDemo.rq
    {| tk_id := "t1"; tk_tenant_id := "acme"; tk_prompt := "pick"; tk_environment_id := "lab"; tk_host_id := Some "h1";
       tk_status := "pending"; tk_timeout_secs := None; tk_phases := JArray []; tk_parent_task_id := None |} "h1".
Definition demo_effects : list WorkerEffect := execute_task demo_invocation (Ok tt) TurnElapsed.
Definition demo_events : list (HandlerWorld * TaskStatusEvent) :=
  zip [TaskDemo.handler "r1"; TaskDemo.handler "r2"] (events demo_effects).
Definition demo_calls : list WorkflowCall := (CallDeliver <$> results demo_effects) ++ [CallRun; CallApprove "a" Null].

Lemma demo_hosts : hosts_ok TaskDemo.db.
Proof. intros k h Hk. simpl in Hk. by apply lookup_singleton_Some in Hk as [<- <-]. Qed.

(** The turn of a dispatched task expires: everywhere it is timed out. *)
Lemma task_settles_witness : exists task db1 wf subject,
  dispatch_task TaskDemo.uuid TaskDemo.stored (TaskDemo.world true) TaskDemo.rq (fun d => d) TaskDemo.db =
    (Ok task, db1, [StartWorkflow wf; PublishInvocation subject demo_invocation]) /\
  exists r, results demo_effects = [r] /\ tr_status r = TimedOut /\
    status_tag (get_status (workflow_after demo_calls)) = as_str (tr_status r) /\
    (tk_status <$> tasks (handle_events demo_events db1) !! tk_id task) = Some (as_str (tr_status r)).
Proof.
  destruct (dispatch_task TaskDemo.uuid TaskDemo.stored (TaskDemo.world true) TaskDemo.rq (fun d => d) TaskDemo.db)
    as [[[task|x] db1] effects] eqn:H; [|vm_compute in H; discriminate H].
  assert (exists wf subject, effects = [StartWorkflow wf; PublishInvocation subject demo_invocation]) as (wf & subject & ->).
  { vm_compute in H. injection H as _ _ <-. eexists _, _. reflexivity. }
  exists task, db1, wf, subject. split; [reflexivity|].
  destruct (task_settles TaskDemo.uuid TaskDemo.stored (TaskDemo.world true) TaskDemo.rq TaskDemo.db task db1 wf subject
    demo_invocation (Ok tt) TurnElapsed demo_events demo_calls) as (r & _ & Hr & _ & Hs & Ht & _).
  - apply no_runs_ok. reflexivity.
  - exact demo_hosts.
  - exact H.
  - reflexivity.
  - repeat constructor.
  - apply (bool_decide_unpack _). vm_compute. exact I.
  - intros i _ Hin. vm_compute in Hin. inversion Hin.
  - reflexivity.
  - discriminate.
  - intros r Hr. exact Hr.
  - exists r. split; [exact Hr|]. split; [|split; [exact Hs|exact Ht]]. vm_compute in Hr. injection Hr as <-. reflexivity.
Defined.
