(* ===== verification/Schedule.v ===== *)
(** * Schedules

    roz-core/schedule.rs: catch-up policies, schedules over cron expressions and time zones, the
    resolution of missed fires, and the natural-language form of a schedule.  The cron and
    time-zone libraries are a class: the iterator over the fires after an instant.  An occurrence is its UTC
    instant; its local time is the same instant in the schedule's zone. *)

From Stdlib Require Import Ascii Sorted.
From stdpp Require Import pretty.
From S2P Require Import Prelude RustStr.

(** ** The libraries *)

Class CronLib := {
  Cron : Type;
  cron_from_str : string -> result Cron string;
  Tz : Type;
  tz_from_str : string -> option Tz;
  tz_to_string : Tz -> string;
  (** [schedule.after(t)] in the zone, an iterator with a state, and its [next] *)
  CronIter : Type;
  after : Cron -> Tz -> DateTime -> CronIter;
  next_item : CronIter -> option (DateTime * CronIter);
}.

(** The first item of [schedule.after(t)]. *)
Definition upcoming `{CronLib} (c : Cron) (z : Tz) (t : DateTime) : option DateTime := fst <$> next_item (after c z t).

(** Whole seconds in nanoseconds. *)
Definition second : Z := 1000000000.

(** What the theorems rely on, for the zones whose clock is never set back or forward
    ([fixed_offset]; where it is, local times are skipped or come twice): the next fire is
    later, on a whole second, and the first one, so that any later start before it gives the
    same fire; and an iterator that gave a fire goes on with the first one after it. *)
Class CronLaws `{CronLib} := {
  fixed_offset : Tz -> Prop;
  upcoming_after c z t u : fixed_offset z -> upcoming c z t = Some u -> t < u;
  upcoming_whole c z t u : fixed_offset z -> upcoming c z t = Some u -> u mod second = 0;
  upcoming_first c z t u t' : fixed_offset z -> upcoming c z t = Some u -> t <= t' < u -> upcoming c z t' = Some u;
  upcoming_none c z t t' : fixed_offset z -> upcoming c z t = None -> t <= t' -> upcoming c z t' = None;
  (** the iterator stands after [t] *)
  iter_at : Cron -> Tz -> CronIter -> DateTime -> Prop;
  iter_start c z t : fixed_offset z -> iter_at c z (after c z t) t;
  iter_next c z it t : fixed_offset z -> iter_at c z it t ->
    match next_item it with
    | None => upcoming c z t = None
    | Some (u, it') => upcoming c z t = Some u /\ iter_at c z it' u
    end;
}.

(** ** Policies *)

Definition DEFAULT_PREVIEW_COUNT : nat := 5.
Definition MAX_CATCH_UP_WINDOW : Duration := from_secs (7 * 86400).

Inductive CatchUpPolicy : Type := SkipMissed | RunLatest | RunAll.

#[export] Instance CatchUpPolicy_eq_dec : EqDecision CatchUpPolicy.
Proof. solve_decision. Defined.

Definition as_str (p : CatchUpPolicy) : string :=
  match p with SkipMissed => "skip_missed" | RunLatest => "run_latest" | RunAll => "run_all" end.

Inductive ScheduleError : Type :=
| ExpectedSixFields (got : nat) (cron : string)
| InvalidCron (cron source : string)
| InvalidTimezone (name : string)
| InvalidCatchUpPolicy (value : string)
| EmptyNaturalLanguageSchedule
| InvalidNaturalLanguageSchedule (text : string).

Definition from_str (value : string) : result CatchUpPolicy ScheduleError :=
  match value with
  | "skip_missed" | "SkipMissed" => Ok SkipMissed
  | "run_latest" | "RunLatest" => Ok RunLatest
  | "run_all" | "RunAll" => Ok RunAll
  | _ => Err (InvalidCatchUpPolicy value)
  end.

(** ** Words *)

(** The text up to the next white space, and the rest from it. *)
Fixpoint take_word (s : string) : string * string :=
  match s with
  | "" => ("", "")
  | String a s' =>
      match leading_ws s with
      | Some _ => ("", s)
      | None => let '(w, rest) := take_word s' in (String a w, rest)
      end
  end.

(** [s.split_whitespace()] *)
Fixpoint split_words (fuel : nat) (s : string) : list string :=
  match fuel with
  | O => []
  | S fuel =>
      match trim_start s with
      | "" => []
      | s => let '(w, rest) := take_word s in w :: split_words fuel rest
      end
  end.
Definition split_whitespace (s : string) : list string := split_words (String.length s) s.

(** ** Cron expressions *)

Section Schedules.
Context `{CronLib}.

Definition canonicalize_cron (cron_expression : string) : result string ScheduleError :=
  let fields := split_whitespace cron_expression in
  if negb (Nat.eqb (length fields) 6) then Err (ExpectedSixFields (length fields) cron_expression)
  else
    let canonical_cron := String.concat " " fields in
    match cron_from_str canonical_cron with
    | Ok _ => Ok canonical_cron
    | Err source => Err (InvalidCron canonical_cron source)
    end.

Record ScheduleDefinition : Type := {
  canonical_cron : string;
  timezone : Tz;
  schedule : Cron;
}.

Definition parse (cron_expression timezone_name : string) : result ScheduleDefinition ScheduleError :=
  let? canonical_cron := canonicalize_cron cron_expression in
  match tz_from_str timezone_name with
  | None => Err (InvalidTimezone timezone_name)
  | Some timezone =>
      match cron_from_str canonical_cron with
      | Err source => Err (InvalidCron canonical_cron source)
      | Ok schedule => Ok {| canonical_cron := canonical_cron; timezone := timezone; schedule := schedule |}
      end
  end%roz.

Definition timezone_name (self : ScheduleDefinition) : string := tz_to_string (timezone self).

Definition next_fire_after (self : ScheduleDefinition) (after_utc : DateTime) : option DateTime :=
  upcoming (schedule self) (timezone self) after_utc.

(** [.take(count)] *)
Fixpoint take_items (it : CronIter) (count : nat) : list DateTime :=
  match count with
  | O => []
  | S count =>
      match next_item it with
      | None => []
      | Some (fire, it) => fire :: take_items it count
      end
  end.

Definition preview_next_runs (self : ScheduleDefinition) (now_utc : DateTime) (count : nat) : list DateTime :=
  take_items (after (schedule self) (timezone self) now_utc) count.

(** [.take_while(<= last)], at most [fuel] items. *)
Fixpoint fires_until (fuel : nat) (it : CronIter) (last : DateTime) : list DateTime :=
  match fuel with
  | O => []
  | S fuel =>
      match next_item it with
      | None => []
      | Some (fire, it) => if fire <=? last then fire :: fires_until fuel it last else []
      end
  end.

(** As many items as fit: fires are at whole seconds, each comes once, and where a clock is set
    back the iterator may go back by that hour. *)
Definition seconds_between (cursor last : DateTime) : nat := Z.to_nat ((last - cursor) / second + 3602).

Definition occurrences_between (self : ScheduleDefinition) (start_inclusive_utc end_inclusive_utc : DateTime) : list DateTime :=
  if end_inclusive_utc <? start_inclusive_utc then []
  else
    let cursor := start_inclusive_utc - second in
    fires_until (seconds_between cursor end_inclusive_utc) (after (schedule self) (timezone self) cursor)
      end_inclusive_utc.

Record CatchUpResolution : Type := {
  due_runs : list DateTime;
  next_fire_at_utc : option DateTime;
  window_truncated : bool;
}.

Definition resolve_catch_up (self : ScheduleDefinition) (next_fire_at : option DateTime) (now_utc : DateTime)
    (policy : CatchUpPolicy) : CatchUpResolution :=
  match next_fire_at with
  | None => {| due_runs := []; next_fire_at_utc := next_fire_after self now_utc; window_truncated := false |}
  | Some next =>
      if now_utc <? next then {| due_runs := []; next_fire_at_utc := Some next; window_truncated := false |}
      else
        let window_start := now_utc - MAX_CATCH_UP_WINDOW in
        let due_start := if next <? window_start then window_start else next in
        let due := occurrences_between self due_start now_utc in
        let due := match policy with
                   | SkipMissed => []
                   | RunLatest => match last due with Some d => [d] | None => [] end
                   | RunAll => due
                   end in
        {| due_runs := due;
           next_fire_at_utc := next_fire_after self (default now_utc (last due));
           window_truncated := next <? window_start |}
  end.

End Schedules.

(** ** The natural-language form *)

(** [^(\d{1,2})]: one or two digits that no third follows, their number and the rest. *)
Definition one_or_two_digits (s : string) : option (Z * string) :=
  match read_digits 0 0 s with
  | (v, n, rest) => if ((1 <=? n) && (n <=? 2))%nat then Some (v, rest) else None
  end.

(** [:(\d{2})] *)
Definition colon_minutes (s : string) : option (Z * string) :=
  match s with
  | String ":" s => match read_digits 0 0 s with (v, 2%nat, rest) => Some (v, rest) | _ => None end
  | _ => None
  end.

Definition strip_every (s : string) : option string :=
  match strip_prefix "every " s with Some r => Some r | None => strip_prefix "each " s end.

(** [^(?:every|each) (\d{1,2}) <unit>s?$] *)
Definition every_units (unit : string) (s : string) : option Z :=
  match strip_every s with
  | None => None
  | Some r =>
      match one_or_two_digits r with
      | Some (v, rest) => if String.eqb rest (" " +:+ unit) || String.eqb rest (" " +:+ unit +:+ "s") then Some v else None
      | None => None
      end
  end.

(** The patterns of the match, in its order. *)
Definition DAY_PATTERNS : list (list string * string) := [
  (["every day"; "daily"; "each day"], "*");
  (["every weekday"; "weekdays"; "each weekday"], "Mon-Fri");
  (["every weekend"; "weekends"; "each weekend"], "Sat,Sun");
  (["every monday"; "monday"; "every mon"; "mon"], "Mon");
  (["every tuesday"; "tuesday"; "every tue"; "tue"; "every tues"; "tues"], "Tue");
  (["every wednesday"; "wednesday"; "every wed"; "wed"], "Wed");
  (["every thursday"; "thursday"; "every thu"; "thu"; "every thur"; "thur"; "every thurs"; "thurs"], "Thu");
  (["every friday"; "friday"; "every fri"; "fri"], "Fri");
  (["every saturday"; "saturday"; "every sat"; "sat"], "Sat");
  (["every sunday"; "sunday"; "every sun"; "sun"], "Sun")].

Definition parse_day_expression (day_expr : string) : result string ScheduleError :=
  match List.find (fun row => existsb (String.eqb (trim day_expr)) row.1) DAY_PATTERNS with
  | Some row => Ok row.2
  | None => Err (InvalidNaturalLanguageSchedule day_expr)
  end.

(** [^(?P<hour>\d{1,2})(?::(?P<minute>\d{2}))?(?P<suffix>am|pm)$] *)
Definition twelve_hour (s : string) : option (Z * option Z * bool) :=
  match one_or_two_digits s with
  | None => None
  | Some (hour, rest) =>
      let '(minute, rest) := match colon_minutes rest with Some (m, r) => (Some m, r) | None => (None, rest) end in
      match rest with "am" => Some (hour, minute, false) | "pm" => Some (hour, minute, true) | _ => None end
  end.

(** [^(?P<hour>\d{1,2}):(?P<minute>\d{2})$] *)
Definition twenty_four (s : string) : option (Z * Z) :=
  match one_or_two_digits s with
  | Some (hour, rest) => match colon_minutes rest with Some (minute, "") => Some (hour, minute) | _ => None end
  | None => None
  end.

Definition to_24 (hour : Z) (pm : bool) : Z :=
  if pm then (if hour =? 12 then 12 else hour + 12) else (if hour =? 12 then 0 else hour).

Definition parse_time_expression (time_expr original : string) : result (Z * Z) ScheduleError :=
  let bad := InvalidNaturalLanguageSchedule original in
  match split_whitespace time_expr with
  | [] => Err bad
  | first :: rest =>
      let combined := match rest with
                      | second :: _ => if String.eqb second "am" || String.eqb second "pm" then first +:+ second else first
                      | [] => first
                      end in
      match twelve_hour combined with
      | Some (hour, minute, pm) =>
          if negb ((1 <=? hour) && (hour <=? 12)) then Err bad
          else if 59 <? default 0 minute then Err bad
          else Ok (to_24 hour pm, default 0 minute)
      | None =>
          match twenty_four combined with
          | Some (hour, minute) => if (23 <? hour) || (59 <? minute) then Err bad else Ok (hour, minute)
          | None => Err bad
          end
      end
  end.

Definition split_once (p s : string) : option (string * string) :=
  match find p s with
  | Some i => Some (take_front i s, drop_front (i + String.length p) s)
  | None => None
  end.

Definition normalize (nl_schedule : string) : string :=
  to_ascii_lowercase (trim (String.concat " " (split_whitespace nl_schedule))).

Definition parse_natural_language_schedule (nl_schedule : string) : result string ScheduleError :=
  let bad := InvalidNaturalLanguageSchedule nl_schedule in
  let normalized := normalize nl_schedule in
  if String.eqb normalized "" then Err EmptyNaturalLanguageSchedule
  else if String.eqb normalized "every minute" || String.eqb normalized "each minute" then Ok "0 * * * * *"
  else if String.eqb normalized "every hour" || String.eqb normalized "each hour" then Ok "0 0 * * * *"
  else
    match every_units "minute" normalized with
    | Some step =>
        if (1 <=? step) && (step <=? 59) then Ok ("0 */" +:+ pretty step +:+ " * * * *") else Err bad
    | None =>
        match every_units "hour" normalized with
        | Some step =>
            if (1 <=? step) && (step <=? 23) then Ok ("0 0 */" +:+ pretty step +:+ " * * *") else Err bad
        | None =>
            match split_once " at " normalized with
            | None => Err bad
            | Some (day_expr, time_expr) =>
                let? day_of_week := parse_day_expression day_expr in
                let? (hour, minute) := parse_time_expression time_expr nl_schedule in
                Ok ("0 " +:+ pretty minute +:+ " " +:+ pretty hour +:+ " * * " +:+ day_of_week)
            end
        end
    end%roz.

(** ** Fires and missed fires *)

(** An instant at which the schedule fires. *)
Definition occurrence `{CronLib} (self : ScheduleDefinition) (t : DateTime) : Prop := next_fire_after self (t - 1) = Some t.

Section Fires.
Context `{CronLaws} (self : ScheduleDefinition) (steady : fixed_offset (timezone self)).

Lemma next_occurrence t u : next_fire_after self t = Some u -> occurrence self u /\ t < u.
Proof.
  intros Hn. pose proof (upcoming_after _ _ _ _ steady Hn). split; [|done].
  eapply upcoming_first; [exact steady|exact Hn|lia].
Qed.

Lemma occurrence_next t v : occurrence self v -> t < v -> exists u, next_fire_after self t = Some u /\ u <= v.
Proof.
  intros Hv Ht. unfold next_fire_after. destruct (upcoming _ _ t) as [u|] eqn:Hu.
  - exists u. split; [done|]. destruct (Z_le_gt_dec u v) as [|Hgt]; [done|].
    assert (Hv' : upcoming (schedule self) (timezone self) (v - 1) = Some u) by (eapply upcoming_first; [exact steady|exact Hu|lia]).
    unfold occurrence, next_fire_after in Hv. rewrite Hv' in Hv. injection Hv. lia.
  - assert (Hv' : upcoming (schedule self) (timezone self) (v - 1) = None) by (eapply upcoming_none; [exact steady|exact Hu|lia]).
    unfold occurrence, next_fire_after in Hv. congruence.
Qed.

(** No fire lies between a start and the fire after it. *)
Lemma next_same t t' : t <= t' -> (forall v, occurrence self v -> t < v -> t' < v) ->
  next_fire_after self t' = next_fire_after self t.
Proof.
  intros Ht Hno. unfold next_fire_after. destruct (upcoming _ _ t) as [u|] eqn:Hu.
  - eapply upcoming_first; [exact steady|exact Hu|]. destruct (next_occurrence t u Hu) as [Ho Hlt]. specialize (Hno u Ho Hlt). lia.
  - eapply upcoming_none; [exact steady|exact Hu|done].
Qed.

Lemma occurrence_whole t : occurrence self t -> t mod second = 0.
Proof. by apply upcoming_whole. Qed.

Lemma whole_gap a b : a mod second = 0 -> b mod second = 0 -> a < b -> a <= b - second.
Proof.
  intros Ha Hb Hlt. unfold second in *. apply Z.div_exact in Ha; [|lia]. apply Z.div_exact in Hb; [|lia]. nia.
Qed.

#[local] Notation stands it t := (iter_at (schedule self) (timezone self) it t).

Lemma stands_next it cursor : stands it cursor ->
  match next_item it with
  | None => next_fire_after self cursor = None
  | Some (u, it') => next_fire_after self cursor = Some u /\ stands it' u
  end.
Proof. apply iter_next, steady. Qed.

Lemma fires_until_sorted fuel it cursor last : stands it cursor ->
  StronglySorted Z.lt (fires_until fuel it last) /\ Forall (fun v => cursor < v) (fires_until fuel it last).
Proof.
  revert it cursor. induction fuel as [|fuel IH]; intros it cursor Hit; simpl; [by split; constructor|].
  apply stands_next in Hit. destruct (next_item it) as [[u it']|]; [|by split; constructor].
  destruct Hit as [Hu Hit]. destruct (u <=? last); [|by split; constructor].
  destruct (next_occurrence _ _ Hu) as [_ Hlt].
  destruct (IH it' u Hit) as [Hs Hf]. split; constructor; [done|done|done|].
  eapply Forall_impl; [exact Hf|]. simpl. lia.
Qed.

Lemma fires_until_spec fuel it cursor last v :
  stands it cursor -> last / second - cursor / second < Z.of_nat fuel ->
  v ∈ fires_until fuel it last <-> occurrence self v /\ cursor < v <= last.
Proof.
  revert it cursor. induction fuel as [|fuel IH]; intros it cursor Hit Hfuel; cbn [fires_until].
  { split; [by intros ?%not_elem_of_nil|]. intros (Ho & Hv). apply occurrence_whole in Ho.
    unfold second in *. assert (cursor / 1000000000 <= last / 1000000000) by (apply Z.div_le_mono; lia).
    apply Z.div_exact in Ho; [|lia].
    assert (v / 1000000000 <= last / 1000000000) by (apply Z.div_le_mono; lia).
    assert (cursor / 1000000000 < v / 1000000000) by (apply Z.div_lt_upper_bound; lia). lia. }
  apply stands_next in Hit. destruct (next_item it) as [[u it']|].
  2:{ split; [by intros ?%not_elem_of_nil|]. intros (Ho & Hv).
      destruct (occurrence_next cursor v Ho) as (u & Hu' & _); [lia|congruence]. }
  destruct Hit as [Hu Hit]. destruct (next_occurrence _ _ Hu) as [Hou Hlt].
  assert (Hfirst : forall v, occurrence self v -> cursor < v -> u <= v).
  { intros w Hw Hcw. destruct (occurrence_next cursor w Hw Hcw) as (u' & Hu' & Hle). congruence. }
  destruct (Z.leb_spec u last) as [Hle|Hle].
  2:{ split; [by intros ?%not_elem_of_nil|]. intros (Ho & Hv). specialize (Hfirst v Ho). lia. }
  rewrite elem_of_cons, (IH it' u).
  - split; [intros [->|(Ho & Hv)]; split; auto; lia|]. intros (Ho & Hv). specialize (Hfirst v Ho).
    destruct (Z.eq_dec v u); [by left|right]. split; [done|lia].
  - done.
  - pose proof (occurrence_whole _ Hou) as Hw. unfold second in *. apply Z.div_exact in Hw; [|lia].
    assert (cursor / 1000000000 < u / 1000000000) by (apply Z.div_lt_upper_bound; lia). lia.
Qed.

Lemma seconds_enough cursor last : last / second - cursor / second < Z.of_nat (seconds_between cursor last).
Proof. unfold seconds_between, second. Z.to_euclidean_division_equations. lia. Qed.

Lemma occurrences_between_spec first last v :
  v ∈ occurrences_between self first last <-> occurrence self v /\ first - second < v <= last /\ first <= last.
Proof.
  unfold occurrences_between. destruct (Z.ltb_spec last first).
  - split; [by intros ?%not_elem_of_nil|lia].
  - rewrite (fires_until_spec _ _ (first - second)) by first [by apply iter_start|apply seconds_enough].
    naive_solver lia.
Qed.

Lemma occurrences_between_sorted first last : StronglySorted Z.lt (occurrences_between self first last).
Proof.
  unfold occurrences_between. destruct (_ <? _); [constructor|].
  eapply fires_until_sorted. by apply iter_start.
Qed.

Lemma last_sorted (l : list Z) d : StronglySorted Z.lt l -> last l = Some d -> d ∈ l /\ Forall (fun v => v <= d) l.
Proof.
  induction 1 as [|x l Hs IH Hf]; [done|]. destruct l as [|y l].
  - intros [= <-]. split; [left|]. by repeat constructor.
  - intros Hl. destruct (IH Hl) as [Hin Hle]. split; [by right|]. constructor; [|done].
    rewrite Forall_forall in Hf. specialize (Hf d Hin). lia.
Qed.

(** The start of the window a catch-up looks at. *)
Definition window (next now : DateTime) : DateTime := Z.max next (now - MAX_CATCH_UP_WINDOW).

Lemma next_after_due first now :
  first <= now -> next_fire_after self (default now (last (occurrences_between self first now))) = next_fire_after self now.
Proof.
  intros Hle. destruct (last _) as [d|] eqn:Hd; [|done]. simpl. apply last_sorted in Hd as [Hin Hmax]; [|apply occurrences_between_sorted].
  apply occurrences_between_spec in Hin as (Ho & Hr & _). symmetry. apply next_same; [lia|].
  intros v Hv Hdv. destruct (Z_lt_le_dec now v) as [|Hvn]; [done|].
  assert (Hin : v ∈ occurrences_between self first now) by (apply occurrences_between_spec; split; [done|lia]).
  rewrite Forall_forall in Hmax. specialize (Hmax v Hin). simpl in Hmax. lia.
Qed.

(** The resolution of missed fires.  With no cursor, or one in the future, nothing is due.
    Otherwise [run_all] runs every fire from the cursor (or from seven days ago, when that is
    later, and then it says so) up to now, in order; [run_latest] the last of these;
    [skip_missed] none.  The new cursor is the first fire after now under every policy. *)
Lemma catch_up_exact next now policy :
  let r := resolve_catch_up self next now policy in
  match next with
  | None => due_runs r = [] /\ next_fire_at_utc r = next_fire_after self now
  | Some c =>
      if now <? c then due_runs r = [] /\ next_fire_at_utc r = Some c
      else
        next_fire_at_utc r = next_fire_after self now /\
        (window_truncated r = true <-> c < now - MAX_CATCH_UP_WINDOW) /\
        exists all, StronglySorted Z.lt all /\
          (forall v, v ∈ all <-> occurrence self v /\ window c now - second < v <= now) /\
          due_runs r = match policy with
                       | SkipMissed => [] | RunAll => all
                       | RunLatest => match last all with Some d => [d] | None => [] end
                       end
  end.
Proof.
  simpl. unfold resolve_catch_up. destruct next as [c|]; [|done]. destruct (Z.ltb_spec now c) as [|Hc]; [done|].
  assert (Hw : (if c <? now - MAX_CATCH_UP_WINDOW then now - MAX_CATCH_UP_WINDOW else c) = window c now).
  { unfold window. destruct (Z.ltb_spec c (now - MAX_CATCH_UP_WINDOW)); lia. }
  assert (Hle : window c now <= now) by (unfold window, MAX_CATCH_UP_WINDOW, from_secs; lia).
  rewrite Hw. split; [|split].
  - destruct policy; cbn [next_fire_at_utc]; [done| |by apply next_after_due].
    rewrite <-(next_after_due _ now Hle). by destruct (last (occurrences_between _ _ _)).
  - simpl. apply Z.ltb_lt.
  - exists (occurrences_between self (window c now) now). split; [apply occurrences_between_sorted|].
    split; [|by destruct policy]. intros v. rewrite occurrences_between_spec. naive_solver.
Qed.

(** *** A schedule over a sequence of wake-ups *)

(** The cursor threaded through the wake-ups, and what each of them runs. *)
Fixpoint wake_all (policy : CatchUpPolicy) (cursor : option DateTime) (times : list DateTime)
    : list (list DateTime) * option DateTime :=
  match times with
  | [] => ([], cursor)
  | now :: times =>
      let r := resolve_catch_up self cursor now policy in
      let '(runs, cursor) := wake_all policy (next_fire_at_utc r) times in
      (due_runs r :: runs, cursor)
  end.

(** Wake-ups in order, none more than the window after the one before. *)
Fixpoint regular (last : DateTime) (times : list DateTime) : Prop :=
  match times with
  | [] => True
  | now :: times => last <= now <= last + MAX_CATCH_UP_WINDOW /\ regular now times
  end.

Definition end_of (last : DateTime) (times : list DateTime) : DateTime := List.last times last.

(** One wake-up from the cursor after [before]. *)
Lemma wake_once policy before now :
  before <= now <= before + MAX_CATCH_UP_WINDOW ->
  let r := resolve_catch_up self (next_fire_after self before) now policy in
  next_fire_at_utc r = next_fire_after self now /\
  exists all, StronglySorted Z.lt all /\ (forall v, v ∈ all <-> occurrence self v /\ before < v <= now) /\
    due_runs r = match policy with
                 | SkipMissed => [] | RunAll => all
                 | RunLatest => match last all with Some d => [d] | None => [] end
                 end.
Proof.
  intros Hnow. simpl. pose proof (catch_up_exact (next_fire_after self before) now policy) as Hx. simpl in Hx.
  destruct (next_fire_after self before) as [c|] eqn:Hc.
  - destruct (next_occurrence _ _ Hc) as [Hco Hbc].
    assert (Hfirst : forall v, occurrence self v -> before < v -> c <= v).
    { intros v Hv Hbv. destruct (occurrence_next before v Hv Hbv) as (u & Hu & Hle). congruence. }
    destruct (Z.ltb_spec now c) as [Hnc|Hnc].
    + destruct Hx as [Hd Hn]. rewrite Hd, Hn. split.
      * rewrite <-Hc. symmetry. apply next_same; [lia|]. intros v Hv Hbv. specialize (Hfirst v Hv Hbv). lia.
      * exists []. split; [constructor|]. split; [|by destruct policy].
        intros v. split; [by intros ?%not_elem_of_nil|]. intros (Hv & Hr). specialize (Hfirst v Hv). lia.
    + destruct Hx as (Hn & _ & all & Hs & Hall & Hd). split; [done|]. exists all. split; [done|]. split; [|done].
      intros v. rewrite Hall. unfold window. split; intros (Hv & Hr); (split; [done|]).
      * pose proof (whole_gap v c (occurrence_whole _ Hv) (occurrence_whole _ Hco)). lia.
      * specialize (Hfirst v Hv). unfold second. lia.
  - destruct Hx as [Hd Hn]. rewrite Hd, Hn. split; [done|]. exists []. split; [constructor|]. split; [|by destruct policy].
    intros v. split; [by intros ?%not_elem_of_nil|]. intros (Hv & Hr).
    destruct (occurrence_next before v Hv) as (u & Hu & _); [lia|congruence].
Qed.

Lemma sorted_join (m : Z) (l k : list Z) :
  StronglySorted Z.lt l -> StronglySorted Z.lt k -> Forall (fun v => v <= m) l -> Forall (fun v => m < v) k ->
  StronglySorted Z.lt (l ++ k).
Proof.
  induction 1 as [|x l Hs IH Hf]; intros Hk Hl Hm; [done|]. apply Forall_cons in Hl as [Hx Hl]. simpl.
  constructor; [by apply IH|]. apply Forall_app. split; [done|]. eapply Forall_impl; [exact Hm|]. simpl. lia.
Qed.

(** Each wake-up runs the latest fire since the wake-up before it, and nothing without one. *)
Fixpoint latest_runs (before : DateTime) (times : list DateTime) (runs : list (list DateTime)) : Prop :=
  match times, runs with
  | [], [] => True
  | now :: times, l :: runs =>
      match l with
      | [] => forall v, occurrence self v -> ~ before < v <= now
      | [d] => occurrence self d /\ before < d <= now /\
          forall v, occurrence self v -> before < v <= now -> v <= d
      | _ => False
      end /\ latest_runs now times runs
  | _, _ => False
  end.

(** What a policy promises of the runs of wake-ups after [before]. *)
Definition policy_runs (policy : CatchUpPolicy) (before : DateTime) (times : list DateTime)
    (runs : list (list DateTime)) : Prop :=
  match policy with
  | RunAll => forall v, v ∈ concat runs <-> occurrence self v /\ before < v <= end_of before times
  | RunLatest => latest_runs before times runs
  | SkipMissed => concat runs = []
  end.

Lemma end_of_cons before now times : end_of before (now :: times) = end_of now times.
Proof.
  unfold end_of. revert now. induction times as [|x l IH]; intros now; [done|]. simpl in *. by destruct l.
Qed.

Lemma policy_runs_cons policy before now times all runs :
  before <= now -> now <= end_of now times -> StronglySorted Z.lt all ->
  (forall v, v ∈ all <-> occurrence self v /\ before < v <= now) ->
  policy_runs policy now times runs ->
  policy_runs policy before (now :: times)
    (match policy with SkipMissed => [] | RunAll => all
     | RunLatest => match last all with Some d => [d] | None => [] end end :: runs).
Proof.
  intros Hbn Hnl Hs Hall Hp. destruct policy; cbn [policy_runs latest_runs concat app] in Hp |- *; [done| |].
  - split; [|done]. destruct (last all) as [d|] eqn:Hd.
    + apply last_sorted in Hd as [Hd Hmax]; [|done]. apply Hall in Hd as [Hdo Hdr].
      split_and!; [done|lia|lia|]. intros v Hv Hr. rewrite Forall_forall in Hmax. by apply Hmax, Hall.
    + apply last_None in Hd as ->. intros v Hv Hr. assert (v ∈ []) by by apply Hall. by eapply not_elem_of_nil.
  - intros v. rewrite end_of_cons, elem_of_app, Hall, Hp.
    split; [intros [[? ?]|[? ?]]; split; [done|lia|done|lia]|].
    intros (Hv & Hr). destruct (Z_le_gt_dec v now); [left|right]; (split; [done|lia]).
Qed.

(** C22: over any wake-ups of a schedule in a zone whose clock is never changed, none more than
    seven days after the one before, from the cursor after [before]: with [run_all] every fire
    up to the last wake-up is run exactly once and in order; with [run_latest] each wake-up runs
    exactly the last fire since the one before it, and nothing if none was; with [skip_missed]
    nothing is ever run -- not even a fire the workflow woke up for on time.  The cursor is then
    the next fire. *)
Theorem every_fire_once policy before times :
  regular before times ->
  let '(runs, cursor) := wake_all policy (next_fire_after self before) times in
  cursor = next_fire_after self (end_of before times) /\ StronglySorted Z.lt (concat runs) /\
  policy_runs policy before times runs.
Proof.
  intros Hreg.
  assert (before <= end_of before times /\
    let '(runs, cursor) := wake_all policy (next_fire_after self before) times in
    cursor = next_fire_after self (end_of before times) /\ StronglySorted Z.lt (concat runs) /\
    Forall (fun v => before < v) (concat runs) /\
    policy_runs policy before times runs) as [_ Hx].
  2:{ destruct (wake_all _ _ _) as [runs cursor]. destruct Hx as (? & ? & _ & ?). done. }
  revert before Hreg. induction times as [|now times IH]; intros before Hreg.
  - split; [done|]. split; [done|]. split; [constructor|]. split; [constructor|]. destruct policy; simpl; [done|done|].
    intros v. split; [by intros ?%not_elem_of_nil|lia].
  - destruct Hreg as [Hnow Hreg]. destruct (IH now Hreg) as [Hle IHn].
    rewrite end_of_cons. split; [lia|]. cbn [wake_all].
    destruct (wake_once policy before now Hnow) as (Hn & all & Hs & Hall & Hd). rewrite Hn, Hd.
    destruct (wake_all policy (next_fire_after self now) times) as [runs cursor].
    destruct IHn as (Hc & Hsr & Hbr & Hp). split; [done|].
    assert (Hdue : forall v, v ∈ match policy with SkipMissed => [] | RunAll => all
      | RunLatest => match last all with Some d => [d] | None => [] end end -> before < v <= now).
    { intros v Hv. assert (v ∈ all) as [_ ?]%Hall; [|done]. destruct policy; [by apply not_elem_of_nil in Hv| |done].
      destruct (last all) as [d|] eqn:Hl; [|by apply not_elem_of_nil in Hv]. apply list_elem_of_singleton in Hv as ->.
      by apply last_sorted in Hl as [? _]. }
    cbn [concat]. split; [apply (sorted_join now)|split; [apply Forall_app; split|apply (policy_runs_cons _ _ now); auto; lia]].
    + destruct policy; [constructor| |done]. destruct (last all); repeat constructor.
    + done.
    + apply Forall_forall. intros v Hv. apply Hdue in Hv. lia.
    + done.
    + apply Forall_forall. intros v Hv. apply Hdue in Hv. lia.
    + eapply Forall_impl; [exact Hbr|]. simpl. lia.
Qed.

End Fires.

(** ** The natural-language form, and what it produces *)

Lemma digit_range a d : digit a = Some d -> 0 <= d <= 9.
Proof.
  unfold digit. destruct (_ && _) eqn:Hb; [|done]. intros [= <-]. apply andb_prop in Hb as [H1%Z.leb_le H2%Z.leb_le]. lia.
Qed.

Lemma read_digits_nonneg acc n s : 0 <= acc -> 0 <= (read_digits acc n s).1.1.
Proof.
  revert acc n. induction s as [|a s IH]; intros acc n Hacc; simpl; [done|].
  destruct (digit a) as [d|] eqn:Hd; [|done]. apply digit_range in Hd. apply IH. lia.
Qed.

Lemma one_or_two_digits_nonneg s v r : one_or_two_digits s = Some (v, r) -> 0 <= v.
Proof.
  unfold one_or_two_digits. pose proof (read_digits_nonneg 0 0 s (Z.le_refl 0)) as Hn.
  destruct (read_digits 0 0 s) as [[x n] rest]. destruct (_ && _)%bool; [|done]. by intros [= <- <-].
Qed.

Lemma colon_minutes_nonneg s v r : colon_minutes s = Some (v, r) -> 0 <= v.
Proof.
  unfold colon_minutes. destruct s as [|[[] [] [] [] [] [] [] []] s]; try done.
  pose proof (read_digits_nonneg 0 0 s (Z.le_refl 0)) as Hn. destruct (read_digits 0 0 s) as [[x [|[|[|n]]]] rest]; try done.
  by intros [= <- <-].
Qed.

Lemma time_in_range t original h m : parse_time_expression t original = Ok (h, m) -> 0 <= h <= 23 /\ 0 <= m <= 59.
Proof.
  unfold parse_time_expression. destruct (split_whitespace t) as [|first rest]; [done|].
  generalize (match rest with second :: _ => if String.eqb second "am" || String.eqb second "pm" then first +:+ second else first
              | [] => first end). intros c.
  destruct (twelve_hour c) as [[[hour minute] pm]|] eqn:Ht.
  - destruct (negb _) eqn:Hh; [done|]. apply negb_false_iff, andb_prop in Hh as [H1%Z.leb_le H2%Z.leb_le].
    destruct (Z.ltb_spec 59 (default 0 minute)); [done|]. intros [= <- <-]. split.
    + unfold to_24. destruct pm, (Z.eqb_spec hour 12); lia.
    + split; [|done]. unfold twelve_hour in Ht. destruct (one_or_two_digits c) as [[x r]|]; [|done].
      destruct (colon_minutes r) as [[y r2]|] eqn:Hc.
      * apply colon_minutes_nonneg in Hc. assert (minute = Some y) as ->; [|done].
        destruct r2 as [|a [|b [|]]]; repeat (case_match; try done); congruence.
      * assert (minute = None) as ->; [|done]. repeat (case_match; try done); congruence.
  - destruct (twenty_four c) as [[hour minute]|] eqn:Hf; [|done].
    destruct ((23 <? hour) || (59 <? minute))%bool eqn:Hr; [done|]. apply orb_false_elim in Hr as [H1%Z.ltb_ge H2%Z.ltb_ge].
    intros [= <- <-]. unfold twenty_four in Hf. destruct (one_or_two_digits c) as [[x r]|] eqn:Ho; [|done].
    apply one_or_two_digits_nonneg in Ho. destruct (colon_minutes r) as [[y r2]|] eqn:Hc; [|done].
    apply colon_minutes_nonneg in Hc. destruct r2; [|done]. injection Hf as <- <-. lia.
Qed.

(** *** Fields come apart as they were joined *)

Lemma take_word_plain w r : all_chars printable w = true -> (r = "" \/ exists t, r = String " " t) ->
  take_word (w +:+ r) = (w, r).
Proof.
  intros Hw Hr. induction w as [|a w IH]; simpl.
  - destruct Hr as [->|[t ->]]; [done|]. simpl. by assert (leading_ws (String " " t) = Some " ") as -> by by destruct t.
  - simpl in Hw. apply andb_prop in Hw as [Ha Hw]. rewrite leading_ws_printable by done. by rewrite IH.
Qed.

Definition is_field (w : string) : bool := negb (String.eqb w "") && all_chars printable w.

Lemma field_head w : is_field w = true -> exists a v, w = String a v /\ printable a = true /\ all_chars printable w = true.
Proof.
  unfold is_field. intros [Hne Hp]%andb_prop. destruct w as [|a v]; [done|]. exists a, v. split; [done|]. split; [|done].
  simpl in Hp. by apply andb_prop in Hp as [? _].
Qed.

Lemma split_words_concat fuel ws :
  Forall (fun w => is_field w = true) ws -> (length ws <= fuel)%nat ->
  split_words fuel (String.concat " " ws) = ws /\ split_words fuel (String " " (String.concat " " ws)) = ws.
Proof.
  intros Hws. revert fuel. induction Hws as [|w ws Hw Hws IH]; intros fuel Hf.
  - destruct fuel; done.
  - destruct fuel as [|fuel]; [simpl in Hf; lia|].
    destruct (field_head w Hw) as (a & v & -> & Ha & Hp).
    assert (Htw : exists r, String.concat " " (String a v :: ws) = String a v +:+ r /\ (r = "" \/ exists t, r = String " " t) /\
      split_words fuel r = ws).
    { destruct ws as [|w2 ws].
      - exists "". simpl. rewrite str_app_nil_r. split; [done|]. split; [by left|]. by destruct fuel.
      - exists (String " " (String.concat " " (w2 :: ws))). split; [done|]. split; [right; by eexists|].
        apply IH. simpl in Hf |- *. lia. }
    destruct Htw as (r & -> & Hr & Hsr).
    assert (Hgo : split_words (S fuel) (String a v +:+ r) = String a v :: ws).
    { cbn [split_words]. change (String a v +:+ r) with (String a (v +:+ r)). rewrite trim_start_printable by done.
      change (String a (v +:+ r)) with (String a v +:+ r). rewrite take_word_plain by done. by rewrite Hsr. }
    split; [exact Hgo|]. cbn [split_words] in Hgo |- *. by rewrite trim_start_space.
Qed.

Lemma concat_length ws : Forall (fun w => is_field w = true) ws -> (length ws <= String.length (String.concat " " ws))%nat.
Proof.
  induction 1 as [|w ws Hw Hws IH]; [done|]. destruct (field_head w Hw) as (a & v & -> & _).
  destruct ws as [|w2 ws]; [simpl; lia|].
  change (String.concat " " (String a v :: w2 :: ws)) with (String a v +:+ (" " +:+ String.concat " " (w2 :: ws))).
  rewrite !str_app_length. cbn [length String.length] in *. lia.
Qed.

Lemma split_whitespace_concat ws : Forall (fun w => is_field w = true) ws -> split_whitespace (String.concat " " ws) = ws.
Proof. intros Hws. apply split_words_concat; [done|]. by apply concat_length. Qed.

(** Canonicalising leaves six joined fields as they are. *)
Lemma canonicalize_fields `{CronLib} ws c :
  Forall (fun w => is_field w = true) ws -> length ws = 6%nat -> cron_from_str (String.concat " " ws) = Ok c ->
  canonicalize_cron (String.concat " " ws) = Ok (String.concat " " ws).
Proof. intros Hws Hl Hc. unfold canonicalize_cron. rewrite split_whitespace_concat by done. rewrite Hl. simpl. by rewrite Hc. Qed.

(** The six fields a natural-language schedule can have. *)
Definition DAYS : list string := ["*"; "Mon-Fri"; "Sat,Sun"; "Mon"; "Tue"; "Wed"; "Thu"; "Fri"; "Sat"; "Sun"].

Inductive nl_fields : list string -> Prop :=
| FieldsMinute : nl_fields ["0"; "*"; "*"; "*"; "*"; "*"]
| FieldsHour : nl_fields ["0"; "0"; "*"; "*"; "*"; "*"]
| FieldsMinutes n : 1 <= n <= 59 -> nl_fields ["0"; "*/" +:+ pretty n; "*"; "*"; "*"; "*"]
| FieldsHours n : 1 <= n <= 23 -> nl_fields ["0"; "0"; "*/" +:+ pretty n; "*"; "*"; "*"]
| FieldsDaily h m d : 0 <= h <= 23 -> 0 <= m <= 59 -> d ∈ DAYS -> nl_fields ["0"; pretty m; pretty h; "*"; "*"; d].

Lemma small_number n : 0 <= n <= 59 -> is_field (pretty n) = true.
Proof.
  intros Hn. assert (forallb (fun k => is_field (pretty (Z.of_nat k))) (seq 0 60) = true) as Hall by (vm_compute; reflexivity).
  rewrite forallb_forall in Hall. specialize (Hall (Z.to_nat n)). rewrite Z2Nat.id in Hall by lia. apply Hall, in_seq. lia.
Qed.

Lemma day_field d : d ∈ DAYS -> is_field d = true.
Proof.
  intros Hd. assert (Forall (fun d => is_field d = true) DAYS) as Hall by by repeat constructor.
  rewrite Forall_forall in Hall. by apply Hall.
Qed.

Lemma step_field n : 0 <= n <= 59 -> is_field ("*/" +:+ pretty n) = true.
Proof. intros [_ H]%small_number%andb_prop. revert H. generalize (pretty n : string). intros x Hx. unfold is_field. by rewrite all_chars_app, Hx. Qed.

Lemma nl_fields_ok ws : nl_fields ws -> Forall (fun w => is_field w = true) ws /\ length ws = 6%nat.
Proof.
  intros H. split; [|by destruct H]. destruct H; repeat constructor.
  - apply step_field. lia.
  - apply step_field. lia.
  - apply small_number. lia.
  - apply small_number. lia.
  - by apply day_field.
Qed.

Lemma parse_day_days s d : parse_day_expression s = Ok d -> d ∈ DAYS.
Proof.
  unfold parse_day_expression. destruct (List.find _ _) as [row|] eqn:Hf; [|done]. intros [= <-].
  apply find_some in Hf as [Hin _]. change DAYS with (map snd DAY_PATTERNS). apply list_elem_of_In. by apply in_map.
Qed.

(** what the natural-language parser accepts.  The cron expression it gives has six fields
    of one of five forms -- every minute, every hour, steps of 1 to 59 minutes or 1 to 23
    hours, or a time of day from 0:00 to 23:59 on known days -- and is canonical: whenever the
    cron library accepts it, canonicalising gives the same text, so that the stored form of a
    schedule matches the one its own words parse to. *)
Theorem natural_language_canonical `{CronLib} s cron :
  parse_natural_language_schedule s = Ok cron ->
  (exists ws, nl_fields ws /\ cron = String.concat " " ws) /\
  forall c, cron_from_str cron = Ok c -> canonicalize_cron cron = Ok cron.
Proof.
  intros Hp. assert (exists ws, nl_fields ws /\ cron = String.concat " " ws) as (ws & Hws & ->).
  { unfold parse_natural_language_schedule in Hp.
    destruct (String.eqb (normalize s) ""); [done|].
    destruct (_ || _)%bool; [injection Hp as <-; by eexists; split; [apply FieldsMinute|]|].
    destruct (_ || _)%bool; [injection Hp as <-; by eexists; split; [apply FieldsHour|]|].
    destruct (every_units "minute" _) as [step|].
    { destruct (_ && _)%bool eqn:Hr; [|done]. apply andb_prop in Hr as [H1%Z.leb_le H2%Z.leb_le]. injection Hp as <-.
      by eexists; split; [apply (FieldsMinutes step)|]. }
    destruct (every_units "hour" _) as [step|].
    { destruct (_ && _)%bool eqn:Hr; [|done]. apply andb_prop in Hr as [H1%Z.leb_le H2%Z.leb_le]. injection Hp as <-.
      by eexists; split; [apply (FieldsHours step)|]. }
    destruct (split_once " at " _) as [[day time]|]; [|done].
    destruct (parse_day_expression day) as [d|] eqn:Hd; [|done]. cbn [result_bind] in Hp.
    destruct (parse_time_expression time s) as [[h m]|] eqn:Ht; [|done]. cbn [result_bind] in Hp. injection Hp as <-.
    apply parse_day_days in Hd. apply time_in_range in Ht as [Hh Hm].
    by eexists; split; [apply (FieldsDaily h m d)|]. }
  split; [by exists ws|]. intros c Hc. apply nl_fields_ok in Hws as [Hf Hl]. by eapply canonicalize_fields.
Qed.

(** ** A clock that fires every hour, and witnesses *)

Module Hourly.
Definition hour : Z := 3600 * second.
Definition next (t : DateTime) : DateTime := (t / hour + 1) * hour.
Lemma next_after t : t < next t.
Proof. unfold next, hour, second. Z.to_euclidean_division_equations. lia. Qed.
Lemma next_first t t' : t <= t' < next t -> next t' = next t.
Proof. unfold next, hour, second. Z.to_euclidean_division_equations. nia. Qed.
Lemma next_whole t : next t mod second = 0.
Proof.
  unfold next, hour. replace ((t / (3600 * second) + 1) * (3600 * second)) with ((t / (3600 * second) + 1) * 3600 * second) by lia.
  by apply Z.mod_mul.
Qed.
End Hourly.

#[export] Instance hourly : CronLib := {
  Cron := unit; cron_from_str := fun s => if String.eqb s "bad" then Err "bad" else Ok tt; Tz := unit;
  tz_from_str := fun s => if String.eqb s "UTC" then Some tt else None; tz_to_string := fun _ => "UTC";
  CronIter := DateTime; after := fun _ _ t => t; next_item := fun t => Some (Hourly.next t, Hourly.next t);
}.

#[export] Instance hourly_laws : @CronLaws hourly.
Proof.
  refine {| fixed_offset := fun _ => True; iter_at := fun _ _ it t => it = t |}; unfold upcoming; simpl.
  - intros _ _ t u _ [= <-]. apply Hourly.next_after.
  - intros _ _ t u _ [= <-]. apply Hourly.next_whole.
  - intros _ _ t u t' _ [= <-] Ht. f_equal. by apply Hourly.next_first.
  - done.
  - done.
  - by intros _ _ it t _ ->.
Defined.

Definition hourly_schedule : ScheduleDefinition := {| canonical_cron := "0 0 * * * *"; timezone := tt; schedule := tt |}.

Lemma every_fire_once_witness :
  let times := [3 * Hourly.hour + 1; 5 * Hourly.hour] in
  let woken policy := (wake_all hourly_schedule policy (next_fire_after hourly_schedule 0) times).1 in
  regular 0 times /\
  woken RunAll = [[Hourly.hour; 2 * Hourly.hour; 3 * Hourly.hour]; [4 * Hourly.hour; 5 * Hourly.hour]] /\
  woken RunLatest = [[3 * Hourly.hour]; [5 * Hourly.hour]] /\ woken SkipMissed = [[]; []] /\
  policy_runs hourly_schedule RunLatest 0 times (woken RunLatest).
Proof.
  assert (regular 0 [3 * Hourly.hour + 1; 5 * Hourly.hour]) as Hr
    by (vm_compute; repeat split; discriminate).
  split; [exact Hr|]. do 3 (split; [vm_compute; reflexivity|]).
  exact (proj2 (proj2 (every_fire_once hourly_schedule I RunLatest 0 _ Hr))).
Defined.

Lemma natural_language_canonical_witness :
  parse_natural_language_schedule "Every weekday at 5:30 PM" = Ok "0 30 17 * * Mon-Fri" /\
  canonicalize_cron "0 30 17 * * Mon-Fri" = Ok "0 30 17 * * Mon-Fri".
Proof.
  assert (parse_natural_language_schedule "Every weekday at 5:30 PM" = Ok "0 30 17 * * Mon-Fri") as Hp
    by (vm_compute; reflexivity).
  split; [exact Hp|]. exact (proj2 (natural_language_canonical _ _ Hp) tt eq_refl).
Defined.

(** A suffix the parser does not know is dropped without a word: nine in the evening becomes nine
    in the morning, and a zone is ignored. *)
Example unknown_suffix_ignored :
  parse_natural_language_schedule "daily at 9:00 p.m." = Ok "0 0 9 * * *" /\
  parse_natural_language_schedule "every weekday at 9am Eastern" = Ok "0 0 9 * * Mon-Fri".
Proof. split; vm_compute; reflexivity. Qed.
