(* ===== verification/ScheduledTasks.v ===== *)
(** * Scheduled tasks

    roz-server/grpc/tasks.rs (the scheduled-task calls), roz-db/scheduled_tasks.rs (rows) and
    restate/scheduled_task_workflow.rs (the durable workflow that sleeps until a schedule
    fires and dispatches its task).  The workflow's durable steps, the calls and the signals
    interleave as events; clocks, stored JSON and the answers of the services are given. *)

From Stdlib Require Import Ascii Sorted.
From stdpp Require Import pretty.
From S2P Require Import Prelude RustStr Json Embodiment SafetyFilter Approvals Context Policy Dispatch AgentLoop TurnFlush Schedule Tasks TaskLife.

(** ** Rows *)

Record ScheduledTaskRow : Type := {
  sr_id : string;
  sr_tenant_id : string;
  sr_name : string;
  sr_nl_schedule : string;
  sr_parsed_cron : string;
  sr_timezone : string;
  sr_task_template : json;
  sr_enabled : bool;
  sr_catch_up_policy : string;
  sr_next_fire_at : option DateTime;
  sr_last_fire_at : option DateTime;
  sr_updated_at : DateTime;
}.

Record NewScheduledTask : Type := {
  ns_name : string;
  ns_nl_schedule : string;
  ns_parsed_cron : string;
  ns_timezone : string;
  ns_task_template : json;
  ns_enabled : bool;
  ns_catch_up_policy : CatchUpPolicy;
  ns_next_fire_at : option DateTime;
  ns_last_fire_at : option DateTime;
}.

(** The tables: those of [Tasks] and the schedules. *)
Record Store : Type := { st_db : Db; schedules : gmap string ScheduledTaskRow }.
Definition set_schedules (m : gmap string ScheduledTaskRow) (s : Store) : Store := {| st_db := st_db s; schedules := m |}.
Definition set_db (db : Db) (s : Store) : Store := {| st_db := db; schedules := schedules s |}.

(** The columns of a new row, and of an updated one; the trigger stamps [updated_at]. *)
Definition row_of (stamp : DateTime) (tenant id : string) (n : NewScheduledTask) : ScheduledTaskRow := {|
  sr_id := id; sr_tenant_id := tenant; sr_name := ns_name n; sr_nl_schedule := ns_nl_schedule n;
  sr_parsed_cron := ns_parsed_cron n; sr_timezone := ns_timezone n; sr_task_template := ns_task_template n;
  sr_enabled := ns_enabled n; sr_catch_up_policy := Schedule.as_str (ns_catch_up_policy n);
  sr_next_fire_at := ns_next_fire_at n; sr_last_fire_at := ns_last_fire_at n; sr_updated_at := stamp |}.

Definition get (tenant id : string) (s : Store) : option ScheduledTaskRow :=
  match schedules s !! id with
  | Some r => if String.eqb (sr_tenant_id r) tenant then Some r else None
  | None => None
  end.

(** CHECK roz_scheduled_tasks_fire_markers_order *)
Definition markers_ordered (last next : option DateTime) : bool :=
  match last, next with Some l, Some n => l <=? n | _, _ => true end.

(** INSERT ... RETURNING *)
Definition create (stamp : DateTime) (tenant fresh : string) (n : NewScheduledTask) (s : Store)
    : result ScheduledTaskRow DbError * Store :=
  if markers_ordered (ns_last_fire_at n) (ns_next_fire_at n) then
    let r := row_of stamp tenant fresh n in (Ok r, set_schedules (<[fresh := r]> (schedules s)) s)
  else (Err CHECK_VIOLATION, s).

Definition update (stamp : DateTime) (tenant id : string) (n : NewScheduledTask) (s : Store)
    : result (option ScheduledTaskRow) DbError * Store :=
  match get tenant id s with
  | None => (Ok None, s)
  | Some _ =>
      if markers_ordered (ns_last_fire_at n) (ns_next_fire_at n) then
        let r := row_of stamp tenant id n in (Ok (Some r), set_schedules (<[id := r]> (schedules s)) s)
      else (Err CHECK_VIOLATION, s)
  end.

Definition delete (tenant id : string) (s : Store) : nat * Store :=
  match get tenant id s with
  | None => (0%nat, s)
  | Some _ => (1%nat, set_schedules (base.delete id (schedules s)) s)
  end.

Definition progressed (stamp : DateTime) (last next : option DateTime) (r : ScheduledTaskRow) : ScheduledTaskRow := {|
  sr_id := sr_id r; sr_tenant_id := sr_tenant_id r; sr_name := sr_name r; sr_nl_schedule := sr_nl_schedule r;
  sr_parsed_cron := sr_parsed_cron r; sr_timezone := sr_timezone r; sr_task_template := sr_task_template r;
  sr_enabled := sr_enabled r; sr_catch_up_policy := sr_catch_up_policy r;
  sr_next_fire_at := next; sr_last_fire_at := last; sr_updated_at := stamp |}.

Definition record_fire_progress (stamp : DateTime) (tenant id : string) (last next : option DateTime) (s : Store)
    : result (option ScheduledTaskRow) DbError * Store :=
  match get tenant id s with
  | None => (Ok None, s)
  | Some r =>
      if markers_ordered last next then
        let r := progressed stamp last next r in (Ok (Some r), set_schedules (<[id := r]> (schedules s)) s)
      else (Err CHECK_VIOLATION, s)
  end.

(** ** The calls *)

Inductive Status : Type := InvalidArgument (m : string) | StatusNotFound (m : string) | StatusInternal (m : string).

Definition db_err_to_status (e : DbError) : Status := StatusInternal "database error".

Definition normalize_nonempty (field_name value : string) : result string Status :=
  let trimmed := trim value in
  if String.eqb trimmed "" then Err (InvalidArgument (field_name +:+ " is required")) else Ok trimmed.

(** What follows the commit of a call. *)
Inductive ScheduleEffect : Type := StartSchedule (scheduled_task_id : string) | RefreshSchedule (scheduled_task_id reason : string).

Record StoredScheduledTaskTemplate : Type := {
  tp_prompt : string;
  tp_environment_id : string;
  tp_host_id : string;
  tp_timeout_secs : option Z;
  tp_control_interface_manifest : option ControlInterfaceManifest;
  tp_delegation_scope : option DelegationScope;
  tp_phases : list PhaseSpec;
  tp_parent_task_id : option string;
}.

Section Calls.
Context `{CronLib}.

(** [Display] of a schedule error, the JSON of a template, what a stored one decodes to. *)
Context (error_text : ScheduleError -> string) (template_to_json : StoredScheduledTaskTemplate -> json)
        (template_from_json : json -> result StoredScheduledTaskTemplate string).

Definition schedule_err_to_status (field_name : string) (e : ScheduleError) : Status :=
  InvalidArgument ("invalid " +:+ field_name +:+ ": " +:+ error_text e).

Record ResolvedSchedule : Type := {
  rs_nl_schedule : option string;
  rs_parsed_cron : string;
  rs_timezone : string;
  rs_definition : ScheduleDefinition;
}.

(** [value.trim()], kept when not empty. *)
Definition nonempty (value : option string) : option string :=
  match value with
  | Some v => if String.eqb (trim v) "" then None else Some (trim v)
  | None => None
  end.

(** [option.map(f).transpose().map_err(..)] *)
Definition parse_option (field_name : string) (f : string -> result string ScheduleError) (v : option string)
    : result (option string) Status :=
  match v with
  | None => Ok None
  | Some v => match f v with Ok c => Ok (Some c) | Err e => Err (schedule_err_to_status field_name e) end
  end.

Definition resolve_schedule (nl_schedule parsed_cron : option string) (timezone : string) (require_nl_schedule : bool)
    : result ResolvedSchedule Status :=
  let? timezone := normalize_nonempty "timezone" timezone in
  let nl_schedule := nonempty nl_schedule in
  let parsed_cron := nonempty parsed_cron in
  if require_nl_schedule && bool_decide (nl_schedule = None) then Err (InvalidArgument "nl_schedule is required")
  else if bool_decide (nl_schedule = None) && bool_decide (parsed_cron = None)
  then Err (InvalidArgument "either nl_schedule or parsed_cron is required")
  else
    let? canonical_from_nl := parse_option "nl_schedule" parse_natural_language_schedule nl_schedule in
    let? canonical_from_request := parse_option "parsed_cron" canonicalize_cron parsed_cron in
    let? parsed_cron :=
      match canonical_from_nl, canonical_from_request with
      | Some from_nl, Some from_request =>
          if String.eqb from_nl from_request then Ok from_nl
          else Err (InvalidArgument "parsed_cron does not match nl_schedule")
      | Some from_nl, None => Ok from_nl
      | None, Some from_request => Ok from_request
      | None, None => Ok ""
      end in
    match parse parsed_cron timezone with
    | Err e => Err (schedule_err_to_status "parsed_cron" e)
    | Ok definition =>
        Ok {| rs_nl_schedule := nl_schedule; rs_parsed_cron := parsed_cron; rs_timezone := timezone; rs_definition := definition |}
    end%roz.

Definition parse_catch_up_policy (value : string) : result CatchUpPolicy Status :=
  match Schedule.from_str (trim value) with
  | Ok p => Ok p
  | Err e => Err (InvalidArgument ("invalid catch_up_policy: " +:+ error_text e))
  end.

Definition next_fire_from_schedule (now : DateTime) (schedule : ScheduleDefinition) (enabled : bool) : option DateTime :=
  if enabled then next_fire_after schedule now else None.

Record CreateScheduledTaskRequest : Type := {
  cr_name : string;
  cr_nl_schedule : string;
  cr_parsed_cron : string;
  cr_timezone : string;
  cr_task_template : StoredScheduledTaskTemplate;
  cr_enabled : bool;
  cr_catch_up_policy : string;
}.

(** [started]: whether Restate took the workflow; [cleaned]: whether the clean-up after a failure
    went through. *)
Definition create_scheduled_task (now : DateTime) (tenant fresh : string) (started cleaned : bool)
    (body : CreateScheduledTaskRequest) (s : Store) : result ScheduledTaskRow Status * Store * list ScheduleEffect :=
  match
    (let? name := normalize_nonempty "name" (cr_name body) in
     let? schedule := resolve_schedule (Some (cr_nl_schedule body)) (Some (cr_parsed_cron body)) (cr_timezone body) true in
     let? catch_up_policy := parse_catch_up_policy (cr_catch_up_policy body) in
     Ok {| ns_name := name; ns_nl_schedule := default "" (rs_nl_schedule schedule); ns_parsed_cron := rs_parsed_cron schedule;
           ns_timezone := rs_timezone schedule; ns_task_template := template_to_json (cr_task_template body);
           ns_enabled := cr_enabled body; ns_catch_up_policy := catch_up_policy;
           ns_next_fire_at := next_fire_from_schedule now (rs_definition schedule) (cr_enabled body);
           ns_last_fire_at := None |})%roz
  with
  | Err e => (Err e, s, [])
  | Ok n =>
      match create now tenant fresh n s with
      | (Err e, s) => (Err (db_err_to_status e), s, [])
      | (Ok created, s) =>
          if started then (Ok created, s, [StartSchedule (sr_id created)])
          else (Err (StatusInternal "failed to start scheduled task workflow"),
                if cleaned then (delete tenant fresh s).2 else s, [])
      end
  end.

Record UpdateScheduledTaskRequest : Type := {
  up_name : option string;
  up_nl_schedule : option string;
  up_parsed_cron : option string;
  up_timezone : option string;
  up_task_template : option StoredScheduledTaskTemplate;
  up_enabled : option bool;
  up_catch_up_policy : option string;
}.

Definition or_else {A : Type} (x : option A) (y : A) : option A := match x with Some v => Some v | None => Some y end.

(** The policy of an update; a stored one that does not parse panics. *)
Definition updated_policy (body : UpdateScheduledTaskRequest) (existing : ScheduledTaskRow) : exec (result CatchUpPolicy Status) :=
  match up_catch_up_policy body with
  | Some v => Ret (parse_catch_up_policy v)
  | None => match Schedule.from_str (sr_catch_up_policy existing) with Ok p => Ret (Ok p) | Err _ => Panic end
  end.

(** The name, the template and the schedule of an update. *)
Definition updated_parts (body : UpdateScheduledTaskRequest) (existing : ScheduledTaskRow)
    : result (string * StoredScheduledTaskTemplate * ResolvedSchedule) Status :=
  let? name := match up_name body with Some v => normalize_nonempty "name" v | None => Ok (sr_name existing) end in
  let? template :=
    match up_task_template body with
    | Some t => Ok t
    | None => match template_from_json (sr_task_template existing) with
              | Ok t => Ok t
              | Err e => Err (StatusInternal ("invalid persisted task_template: " +:+ e))
              end
    end in
  let? schedule := resolve_schedule (or_else (up_nl_schedule body) (sr_nl_schedule existing))
                     (or_else (up_parsed_cron body) (sr_parsed_cron existing)) (default (sr_timezone existing) (up_timezone body)) true in
  Ok (name, template, schedule)%roz.

Definition updated_columns (now : DateTime) (body : UpdateScheduledTaskRequest) (existing : ScheduledTaskRow)
    : exec (result NewScheduledTask Status) :=
  match updated_parts body existing with
  | Err e => Ret (Err e)
  | Ok (name, template, schedule) =>
      let enabled := default (sr_enabled existing) (up_enabled body) in
      let! policy := updated_policy body existing in
      Ret (let? catch_up_policy := policy in
           Ok {| ns_name := name; ns_nl_schedule := default (sr_nl_schedule existing) (rs_nl_schedule schedule);
                 ns_parsed_cron := rs_parsed_cron schedule; ns_timezone := rs_timezone schedule;
                 ns_task_template := template_to_json template; ns_enabled := enabled; ns_catch_up_policy := catch_up_policy;
                 ns_next_fire_at := next_fire_from_schedule now (rs_definition schedule) enabled;
                 ns_last_fire_at := sr_last_fire_at existing |})
  end%roz.

Definition update_scheduled_task (now : DateTime) (tenant id : string) (body : UpdateScheduledTaskRequest) (s : Store)
    : exec (result ScheduledTaskRow Status * Store * list ScheduleEffect) :=
  match get tenant id s with
  | None => Ret (Err (StatusNotFound "scheduled task not found"), s, [])
  | Some existing =>
      let! columns := updated_columns now body existing in
      Ret match columns with
          | Err e => (Err e, s, [])
          | Ok n =>
              match update now tenant id n s with
              | (Err e, s) => (Err (db_err_to_status e), s, [])
              | (Ok None, s) => (Err (StatusNotFound "scheduled task not found"), s, [])
              | (Ok (Some updated), s) => (Ok updated, s, [RefreshSchedule id "update"])
              end
          end
  end%roz.

Definition delete_scheduled_task (tenant id : string) (s : Store) : result unit Status * Store * list ScheduleEffect :=
  let '(deleted, s') := delete tenant id s in
  if (deleted =? 0)%nat then (Err (StatusNotFound "scheduled task not found"), s, [])
  else (Ok tt, s', [RefreshSchedule id "delete"]).

Definition preview_schedule (now : DateTime) (nl_schedule parsed_cron : option string) (timezone : string)
    : result (list DateTime) Status :=
  let? schedule := resolve_schedule nl_schedule parsed_cron timezone false in
  Ok (preview_next_runs (rs_definition schedule) now DEFAULT_PREVIEW_COUNT)%roz.

End Calls.

(** ** restate/scheduled_task_workflow.rs: one iteration *)

Inductive ScheduledTaskSnapshot : Type :=
| Missing
| Present (name : string) (enabled : bool) (next_fire_at last_fire_at : option DateTime) (updated_at : DateTime).

#[export] Instance ScheduledTaskSnapshot_eq_dec : EqDecision ScheduledTaskSnapshot.
Proof. solve_decision. Defined.

Definition snapshot_from_row (r : ScheduledTaskRow) : ScheduledTaskSnapshot :=
  Present (sr_name r) (sr_enabled r) (sr_next_fire_at r) (sr_last_fire_at r) (sr_updated_at r).

Definition load_snapshot (tenant id : string) (s : Store) : ScheduledTaskSnapshot :=
  match get tenant id s with Some r => snapshot_from_row r | None => Missing end.

Record IterationResult : Type := {
  it_snapshot : ScheduledTaskSnapshot;
  dispatched_task_ids : list string;
  dispatch_errors : list TaskDispatchError;
}.

(** An iteration commits with a result, fails the workflow for good, or fails and is retried from
    its start: then nothing was committed. *)
Inductive IterationEnd : Type :=
| Committed (r : IterationResult)
| Terminal (m : string)
| Retried.

Definition request_of (tenant : string) (t : StoredScheduledTaskTemplate) : TaskDispatchRequest := {|
  rq_tenant_id := tenant; rq_prompt := tp_prompt t; rq_environment_id := tp_environment_id t;
  rq_timeout_secs := tp_timeout_secs t; rq_host_id := Some (tp_host_id t); rq_phases := tp_phases t;
  rq_parent_task_id := tp_parent_task_id t; rq_control_interface_manifest := tp_control_interface_manifest t;
  rq_delegation_scope := tp_delegation_scope t |}.

(** A statement that fails aborts its transaction: every later one fails too. *)
Definition IN_FAILED_TRANSACTION : DbError := Database "25P02".

Definition aborts (w : DispatchWorld) (r : result TaskRow TaskDispatchError) : bool :=
  match r with
  | Err (DispatchDatabase _) => true
  | Err (DispatchInternal _) => dw_nats w && bool_decide (is_Some (dw_db_fails w DbMarkFailed))
  | _ => false
  end.

Definition aborted_world (w : DispatchWorld) : DispatchWorld := {|
  dw_fresh := dw_fresh w; dw_db_fails := fun _ => Some IN_FAILED_TRANSACTION; dw_trust := dw_trust w;
  dw_restate_url := dw_restate_url w; dw_restate := dw_restate w; dw_nats := dw_nats w; dw_publish := dw_publish w |}.

Section Iteration.
Context `{CronLib}.
Context (error_text : ScheduleError -> string) (template_from_json : json -> result StoredScheduledTaskTemplate string)
        (parse_uuid : string -> option string) (phases_json : list PhaseSpec -> json).

Record Dispatched : Type := {
  ds_ids : list string;
  ds_errors : list TaskDispatchError;
  ds_effects : list ServerEffect;
  ds_aborted : bool;
}.

Definition dispatched_one (r : result TaskRow TaskDispatchError) (effects : list ServerEffect) (aborted : bool) (d : Dispatched)
    : Dispatched := {|
  ds_ids := match r with Ok task => tk_id task :: ds_ids d | Err _ => ds_ids d end;
  ds_errors := match r with Ok _ => ds_errors d | Err e => e :: ds_errors d end;
  ds_effects := (effects ++ ds_effects d)%list;
  ds_aborted := aborted || ds_aborted d |}.

(** One dispatch for each due run, in one transaction; [worlds] are what each of them meets. *)
Fixpoint dispatch_due (worlds : list DispatchWorld) (rq : TaskDispatchRequest) (aborted : bool) (db : Db) : Dispatched * Db :=
  match worlds with
  | [] => ({| ds_ids := []; ds_errors := []; ds_effects := []; ds_aborted := false |}, db)
  | w :: worlds =>
      let w := if aborted then aborted_world w else w in
      let '(r, db, effects) := dispatch_task parse_uuid phases_json w rq (fun db => db) db in
      let '(d, db) := dispatch_due worlds rq (aborted || aborts w r) db in
      (dispatched_one r effects (aborts w r) d, db)
  end.

(** What the transaction wrote, over what the others committed meanwhile. *)
Definition adopt (written : list string) (after committed : Db) : Db :=
  set_tasks (foldr (fun id m => match tasks after !! id with Some r => <[id := r]> m | None => m end) (tasks committed) written)
            committed.

(** What an enabled row asks for. *)
Definition plan (now : DateTime) (row : ScheduledTaskRow) : result (CatchUpResolution * StoredScheduledTaskTemplate) string :=
  match parse (sr_parsed_cron row) (sr_timezone row) with
  | Err e => Err ("invalid persisted schedule " +:+ sr_id row +:+ ": " +:+ error_text e)
  | Ok schedule =>
      match Schedule.from_str (sr_catch_up_policy row) with
      | Err e => Err ("invalid persisted catch-up policy " +:+ sr_id row +:+ ": " +:+ error_text e)
      | Ok policy =>
          match template_from_json (sr_task_template row) with
          | Err e => Err ("invalid persisted task template " +:+ sr_id row +:+ ": " +:+ e)
          | Ok template => Ok (resolve_catch_up schedule (sr_next_fire_at row) now policy, template)
          end
      end
  end.

(** [now]: the clock of the catch-up; [stamp]: the transaction's; [fresh]: the world of each
    dispatch; [others]: what other connections commit before the progress is recorded. *)
Definition execute_iteration (now stamp : DateTime) (worlds : nat -> DispatchWorld) (others : Store -> Store) (tenant id : string)
    (s : Store) : IterationEnd * Store * list ServerEffect :=
  match get tenant id s with
  | None => (Committed {| it_snapshot := Missing; dispatched_task_ids := []; dispatch_errors := [] |}, s, [])
  | Some row =>
      if negb (sr_enabled row) then
        (Committed {| it_snapshot := snapshot_from_row row; dispatched_task_ids := []; dispatch_errors := [] |}, s, [])
      else
        match plan now row with
        | Err m => (Terminal m, s, [])
        | Ok (resolution, template) =>
            let ws := map worlds (seq 0 (length (due_runs resolution))) in
            let '(d, db) := dispatch_due ws (request_of tenant template) false (st_db s) in
            let committed := others s in
            if ds_aborted d then (Retried, committed, ds_effects d)
            else
              let s' := set_db (adopt (dw_fresh <$> ws) db (st_db committed)) committed in
              let result snap := {| it_snapshot := snap; dispatched_task_ids := ds_ids d; dispatch_errors := ds_errors d |} in
              if negb (bool_decide (due_runs resolution = [])) || negb (bool_decide (next_fire_at_utc resolution = sr_next_fire_at row)) then
                let last_fire_at := match last (due_runs resolution) with Some f => Some f | None => sr_last_fire_at row end in
                match record_fire_progress stamp tenant id last_fire_at (next_fire_at_utc resolution) s' with
                | (Err _, _) => (Retried, committed, ds_effects d)
                | (Ok None, s') => (Committed (result Missing), s', ds_effects d)
                | (Ok (Some updated), s') => (Committed (result (snapshot_from_row updated)), s', ds_effects d)
                end
              else (Committed (result (snapshot_from_row row)), s', ds_effects d)
        end
  end.

(** ** The workflow *)

Inductive ScheduledTaskWorkflowStatus : Type :=
| Starting
| Waiting (enabled : bool) (next_fire_at last_fire_at : option DateTime) (wait_reason : string) (dispatch_count : nat)
          (errors : list TaskDispatchError)
| Deleted.

Definition status_from_snapshot (snap : ScheduledTaskSnapshot) (wait_reason : string) (dispatch_count : nat)
    (errors : list TaskDispatchError) : ScheduledTaskWorkflowStatus :=
  match snap with
  | Missing => Deleted
  | Present _ enabled next last _ => Waiting enabled next last wait_reason dispatch_count errors
  end.

Definition wait_reason_of (snap : ScheduledTaskSnapshot) : string :=
  match snap with Present _ true (Some _) _ _ => "next_fire" | _ => "refresh" end.

(** Where [run] stands, between its durable steps. *)
Inductive Phase : Type :=
| Executing
| Loading (r : IterationResult)
| Arming (snap : ScheduledTaskSnapshot)
| Rechecking (snap : ScheduledTaskSnapshot) (token : nat)
| Asleep (snap : ScheduledTaskSnapshot) (token : nat)
| Finished (state : string)
| FailedWorkflow (m : string).

Inductive PromiseName : Type := TickPromise (token : nat) | RefreshPromise (token : nat).

#[export] Instance PromiseName_eq_dec : EqDecision PromiseName.
Proof. solve_decision. Defined.

(** The whole: the tables, the workflow's durable state and promises, the delayed ticks it sent
    with their times, the refresh signals on their way, and all that left the server. *)
Record World : Type := {
  w_store : Store;
  w_phase : Phase;
  w_status : ScheduledTaskWorkflowStatus;
  wait_token : option nat;
  wait_seq : nat;
  promises : list PromiseName;
  ticks : list (nat * DateTime);
  refreshes : nat;
  w_effects : list ServerEffect;
}.

Definition next_phase (p : Phase) (w : World) : World := {|
  w_store := w_store w; w_phase := p; w_status := w_status w; wait_token := wait_token w; wait_seq := wait_seq w;
  promises := promises w; ticks := ticks w; refreshes := refreshes w; w_effects := w_effects w |}.
Definition with_status (st : ScheduledTaskWorkflowStatus) (w : World) : World := {|
  w_store := w_store w; w_phase := w_phase w; w_status := st; wait_token := wait_token w; wait_seq := wait_seq w;
  promises := promises w; ticks := ticks w; refreshes := refreshes w; w_effects := w_effects w |}.
Definition with_token (t : option nat) (w : World) : World := {|
  w_store := w_store w; w_phase := w_phase w; w_status := w_status w; wait_token := t; wait_seq := wait_seq w;
  promises := promises w; ticks := ticks w; refreshes := refreshes w; w_effects := w_effects w |}.
Definition with_seq (n : nat) (w : World) : World := {|
  w_store := w_store w; w_phase := w_phase w; w_status := w_status w; wait_token := wait_token w; wait_seq := n;
  promises := promises w; ticks := ticks w; refreshes := refreshes w; w_effects := w_effects w |}.
Definition with_ticks (l : list (nat * DateTime)) (w : World) : World := {|
  w_store := w_store w; w_phase := w_phase w; w_status := w_status w; wait_token := wait_token w; wait_seq := wait_seq w;
  promises := promises w; ticks := l; refreshes := refreshes w; w_effects := w_effects w |}.
Definition resolve (p : PromiseName) (w : World) : World := {|
  w_store := w_store w; w_phase := w_phase w; w_status := w_status w; wait_token := wait_token w; wait_seq := wait_seq w;
  promises := p :: promises w; ticks := ticks w; refreshes := refreshes w; w_effects := w_effects w |}.
Definition with_store (s : Store) (signals : nat) (effects : list ServerEffect) (w : World) : World := {|
  w_store := s; w_phase := w_phase w; w_status := w_status w; wait_token := wait_token w; wait_seq := wait_seq w;
  promises := promises w; ticks := ticks w; refreshes := signals; w_effects := (w_effects w ++ effects)%list |}.

(** What [run] does between the recheck and its sleep. *)
Inductive Command : Type :=
| ClearWaitToken
| SendTick (token : nat) (at_time : DateTime)
| AwaitRefresh (token : nat)
| AwaitTickOrRefresh (token : nat).

Definition wait_commands (now : DateTime) (snap : ScheduledTaskSnapshot) (token : nat) : list Command :=
  match snap with
  | Present _ true (Some next) _ _ =>
      if next <=? now then [ClearWaitToken] else [SendTick token next; AwaitTickOrRefresh token]
  | _ => [AwaitRefresh token]
  end.

Definition run_command (snap : ScheduledTaskSnapshot) (c : Command) (w : World) : World :=
  match c with
  | ClearWaitToken => next_phase Executing (with_token None w)
  | SendTick token t => with_ticks ((token, t) :: ticks w) w
  | AwaitRefresh token | AwaitTickOrRefresh token => next_phase (Asleep snap token) w
  end.

(** What can happen next, anywhere. *)
Inductive Event : Type :=
| RunIteration (now stamp : DateTime) (worlds : nat -> DispatchWorld) (others : Store -> Store)
| LoadSnapshot
| Arm
| Recheck (now : DateTime)
| Wake
| DeliverTick (i : nat)
| DeliverRefresh
| CallUpdate (now : DateTime) (body : UpdateScheduledTaskRequest) (signal_sent : bool)
| CallDelete (signal_sent : bool).

(** An iteration's own row can be changed by another call while it runs; such a call sends its
    refresh like any other. *)
Definition run_iteration (now stamp : DateTime) (worlds : nat -> DispatchWorld) (others : Store -> Store) (tenant id : string) (w : World)
    : World :=
  let '(r, s, effects) := execute_iteration now stamp worlds others tenant id (w_store w) in
  let w := with_store s (refreshes w) effects w in
  match r with
  | Retried => w
  | Terminal m => next_phase (FailedWorkflow m) w
  | Committed r =>
      match it_snapshot r with
      | Missing => next_phase (Finished "deleted") (with_status Deleted w)
      | _ => next_phase (Loading r) w
      end
  end.

Definition load (r : IterationResult) (tenant id : string) (w : World) : World :=
  match load_snapshot tenant id (w_store w) with
  | Missing => next_phase (Finished "deleted") (with_status Deleted w)
  | snap =>
      next_phase (Arming snap)
        (with_status (status_from_snapshot snap (wait_reason_of snap) (length (dispatched_task_ids r)) (dispatch_errors r)) w)
  end.

(** [next_wait_token]: the numbers are the tokens' texts. *)
Definition arm (snap : ScheduledTaskSnapshot) (w : World) : World :=
  let token := S (wait_seq w) in next_phase (Rechecking snap token) (with_token (Some token) (with_seq token w)).

Definition recheck (now : DateTime) (snap : ScheduledTaskSnapshot) (token : nat) (tenant id : string) (w : World) : World :=
  if negb (bool_decide (load_snapshot tenant id (w_store w) = snap)) then next_phase Executing (with_token None w)
  else foldl (fun w c => run_command snap c w) w (wait_commands now snap token).

(** Only an armed wait looks at the tick's promise. *)
Definition awake (snap : ScheduledTaskSnapshot) (token : nat) (w : World) : bool :=
  bool_decide (RefreshPromise token ∈ promises w) ||
  match snap with Present _ true (Some _) _ _ => bool_decide (TickPromise token ∈ promises w) | _ => false end.

(** The shared handlers. *)
Definition tick (token : nat) (w : World) : World :=
  if bool_decide (wait_token w = Some token) then resolve (TickPromise token) w else w.
Definition refresh (w : World) : World :=
  match wait_token w with Some token => resolve (RefreshPromise token) w | None => w end.

Context (template_to_json : StoredScheduledTaskTemplate -> json).

Definition signals_of (effects : list ScheduleEffect) (sent : bool) : nat := if sent then length effects else 0%nat.

Definition step (tenant id : string) (e : Event) (w : World) : World :=
  match e, w_phase w with
  | RunIteration now stamp worlds others, Executing => run_iteration now stamp worlds others tenant id w
  | LoadSnapshot, Loading r => load r tenant id w
  | Arm, Arming snap => arm snap w
  | Recheck now, Rechecking snap token => recheck now snap token tenant id w
  | Wake, Asleep snap token => if awake snap token w then next_phase Executing (with_token None w) else w
  | DeliverTick i, _ =>
      match ticks w !! i with
      | Some (token, _) => tick token (with_ticks (base.delete i (ticks w)) w)
      | None => w
      end
  | DeliverRefresh, _ =>
      match refreshes w with
      | O => w
      | S n => refresh (with_store (w_store w) n [] w)
      end
  | CallUpdate now body sent, _ =>
      match update_scheduled_task error_text template_to_json template_from_json now tenant id body (w_store w) with
      | Ret (_, s, effects) => with_store s (refreshes w + signals_of effects sent)%nat [] w
      | Panic => w
      end
  | CallDelete sent, _ =>
      let '(_, s, effects) := delete_scheduled_task tenant id (w_store w) in
      with_store s (refreshes w + signals_of effects sent)%nat [] w
  | _, _ => w
  end.

Definition run_events (tenant id : string) (l : list Event) (w : World) : World := foldl (fun w e => step tenant id e w) w l.

Definition started (s : Store) : World := {|
  w_store := s; w_phase := Executing; w_status := Starting; wait_token := None; wait_seq := 0; promises := []; ticks := [];
  refreshes := 0; w_effects := [] |}.

End Iteration.

(** ** What an iteration does *)

Section IterationTheorems.
Context `{CronLib}.
Context (error_text : ScheduleError -> string) (template_from_json : json -> result StoredScheduledTaskTemplate string)
        (parse_uuid : string -> option string) (phases_json : list PhaseSpec -> json).

#[local] Notation dispatch := (dispatch_task parse_uuid phases_json).
#[local] Notation dispatch_due' := (dispatch_due parse_uuid phases_json).
#[local] Notation execute := (execute_iteration error_text template_from_json parse_uuid phases_json).

(** A dispatch writes the row of its own new task only. *)
Lemma update_task_other id f db id' : id' <> id -> tasks (update_task id f db).2 !! id' = tasks db !! id'.
Proof.
  intros Hne. unfold update_task. destruct (tasks db !! id) as [t|]; [|done]. destruct (f t) as [t'|]; [|done]. simpl.
  by rewrite lookup_insert_ne.
Qed.

Lemma create_task_other w rq host db id : id <> dw_fresh w ->
  tasks (create_task phases_json w rq host db).2 !! id = tasks db !! id.
Proof.
  intros Hne. unfold create_task. destruct (dw_db_fails w DbCreate); [done|]. unfold Tasks.create.
  destruct (_ || _)%bool; [done|]. destruct (dw_db_fails w DbAssign); [simpl; by rewrite lookup_insert_ne|].
  cbn [tk_id]. destruct (assign_host (dw_fresh w) (h_id host) _) as [r d] eqn:Ha.
  assert (Hd : tasks d !! id = tasks db !! id).
  { change d with (r, d).2. rewrite <-Ha. unfold assign_host. rewrite update_task_other by done. simpl. by rewrite lookup_insert_ne. }
  by destruct r as [[t|]|].
Qed.

Lemma mark_failed_other w id db id' : id' <> id -> tasks (mark_failed w id db) !! id' = tasks db !! id'.
Proof. intros Hne. unfold mark_failed. destruct (dw_db_fails w DbMarkFailed); [done|]. by apply update_task_other. Qed.

Lemma start_task_other w rq hs host task db id : id <> tk_id task ->
  tasks (start_task w rq hs host task db).1.2 !! id = tasks db !! id.
Proof.
  intros Hne. unfold start_task. destruct (dw_restate w); simpl; [|by apply mark_failed_other..].
  destruct (Subjects.invoke _ _); [|done]. destruct (dw_publish w); [by apply mark_failed_other|done].
Qed.

Lemma dispatch_other w rq db id : id <> dw_fresh w -> tasks (dispatch w rq (fun d => d) db).1.2 !! id = tasks db !! id.
Proof.
  intros Hne. unfold dispatch_task. destruct (admit_request parse_uuid w rq db) as [[hs host]|]; [|done].
  pose proof (create_task_other w rq host db id Hne) as Hc.
  destruct (create_task phases_json w rq host db) as [[task|e] db1] eqn:Hct; simpl in Hc; [|done].
  apply create_task_ok in Hct as (Hrow & _ & _). pose proof (start_task_other w rq hs host task db1 id) as Hs.
  rewrite (proj1 Hrow) in Hs. specialize (Hs Hne).
  destruct (start_task w rq hs host task db1) as [[[u|e] db2] effects]; simpl in Hs; [|simpl; congruence].
  destruct (dw_db_fails w DbMarkQueued); [simpl; congruence|].
  unfold update_status. destruct (update_task (tk_id task) _ db2) as [r d] eqn:Hu. simpl.
  change d with (r, d).2. rewrite <-Hu, update_task_other by (by rewrite (proj1 Hrow)). congruence.
Qed.

Lemma dispatch_id w rq db task : (dispatch w rq (fun d => d) db).1.1 = Ok task -> tk_id task = dw_fresh w.
Proof.
  unfold dispatch_task. destruct (admit_request parse_uuid w rq db) as [[hs host]|]; [|done].
  destruct (create_task phases_json w rq host db) as [[t|e] db1] eqn:Hct; [|done].
  apply create_task_ok in Hct as (Hrow & Ht & _). pose proof (start_task_cases w rq hs host t db1) as Hs.
  destruct (start_task w rq hs host t db1) as [[[u|e] db2] effects]; [|done]. destruct Hs as (-> & _).
  destruct (dw_db_fails w DbMarkQueued); [done|]. unfold update_status, update_task. rewrite (proj1 Hrow), Ht. simpl.
  intros [= <-]. apply (proj1 Hrow).
Qed.

(** What the dispatches of an iteration leave: an outcome each, queued rows for the successes. *)
Lemma dispatch_due_spec worlds rq aborted db :
  NoDup (dw_fresh <$> worlds) ->
  let '(d, db') := dispatch_due' worlds rq aborted db in
  (length (ds_ids d) + length (ds_errors d) = length worlds)%nat /\
  (forall id, id ∉ (dw_fresh <$> worlds) -> tasks db' !! id = tasks db !! id) /\
  (forall id, id ∈ ds_ids d -> id ∈ (dw_fresh <$> worlds) /\ tk_status <$> tasks db' !! id = Some "queued").
Proof.
  revert aborted db. induction worlds as [|w worlds IH]; intros aborted db Hnd.
  { simpl. split; [done|]. split; [done|]. by intros id ?%not_elem_of_nil. }
  cbn [dispatch_due fmap list_fmap] in Hnd |- *. apply NoDup_cons in Hnd as [Hw Hnd].
  set (w' := if aborted then aborted_world w else w).
  assert (Hfr : dw_fresh w' = dw_fresh w) by (unfold w'; by destruct aborted).
  pose proof (dispatch_cases parse_uuid phases_json w' rq (fun d => d) db) as Hg.
  pose proof (fun id => dispatch_other w' rq db id) as Ho. pose proof (dispatch_id w' rq db) as Hid'. rewrite Hfr in Ho, Hid'.
  destruct (dispatch w' rq (fun d => d) db) as [[r db1] effects]. cbn [fst snd] in Ho, Hid'. destruct Hg as (_ & _ & Hq).
  specialize (IH (aborted || aborts w' r)%bool db1 Hnd).
  destruct (dispatch_due' worlds rq (aborted || aborts w' r)%bool db1) as [d db2].
  destruct IH as (Hlen & Hout & Hin). unfold dispatched_one. cbn [ds_ids ds_errors]. split; [|split].
  - destruct r; simpl; lia.
  - intros id Hid. apply not_elem_of_cons in Hid as [Hne Hid]. rewrite Hout by done. by apply Ho.
  - assert (Hrest : forall id, id ∈ ds_ids d -> id ∈ dw_fresh w :: (dw_fresh <$> worlds) /\
      tk_status <$> tasks db2 !! id = Some "queued").
    { intros id Hid. destruct (Hin id Hid) as [H1 H2]. split; [by right|done]. }
    intros id Hid. destruct r as [task|e]; [|by apply Hrest]. apply elem_of_cons in Hid as [->|Hid]; [|by apply Hrest].
    destruct (Hq task eq_refl) as (_ & Hst & Hrow). rewrite Hfr in Hrow.
    rewrite (Hid' task eq_refl). split; [by left|]. rewrite Hout by done. rewrite Hrow. simpl. by rewrite Hst.
Qed.

Lemma adopt_lookup ids after committed id t :
  id ∈ ids -> tasks after !! id = Some t -> tasks (adopt ids after committed) !! id = Some t.
Proof.
  intros Hin Ht. unfold adopt. simpl. induction ids as [|i ids IH]; [by apply not_elem_of_nil in Hin|]. simpl.
  destruct (decide (id = i)) as [->|Hne]; [rewrite Ht; apply lookup_insert_eq|].
  apply elem_of_cons in Hin as [Hin|Hin]; [done|]. specialize (IH Hin).
  destruct (tasks after !! i); [by rewrite lookup_insert_ne|done].
Qed.

(** C24: one iteration of an enabled schedule.  It commits with one outcome for each due run -- a
    task that is queued in the database, or an error -- and with the cursor at the next fire
    and the last fire, if one was due, marked, in one transaction; when nothing is due and the
    cursor already is the next fire, the row is left as it is; or it commits nothing and is
    retried; a valid row never fails the workflow.  (The identifiers of the tasks dispatched
    for different fires are distinct, and the row may be gone by the time of the commit.) *)
Theorem iteration_exact now stamp worlds others tenant id s row schedule policy template :
  get tenant id s = Some row -> sr_enabled row = true ->
  parse (sr_parsed_cron row) (sr_timezone row) = Ok schedule -> Schedule.from_str (sr_catch_up_policy row) = Ok policy ->
  template_from_json (sr_task_template row) = Ok template -> (forall i j, dw_fresh (worlds i) = dw_fresh (worlds j) -> i = j) ->
  let due := resolve_catch_up schedule (sr_next_fire_at row) now policy in
  let '(r, s', effects) := execute now stamp worlds others tenant id s in
  match r with
  | Committed it =>
      (length (dispatched_task_ids it) + length (dispatch_errors it) = length (due_runs due))%nat /\
      (forall t, t ∈ dispatched_task_ids it -> tk_status <$> tasks (st_db s') !! t = Some "queued") /\
      (forall current, get tenant id (others s) = Some current -> exists row', get tenant id s' = Some row' /\
         (due_runs due = [] /\ next_fire_at_utc due = sr_next_fire_at row /\ row' = current /\
            it_snapshot it = snapshot_from_row row \/
          it_snapshot it = snapshot_from_row row' /\ sr_next_fire_at row' = next_fire_at_utc due /\
            sr_last_fire_at row' = match last (due_runs due) with Some f => Some f | None => sr_last_fire_at row end))
  | Retried => s' = others s
  | Terminal _ => False
  end.
Proof.
  intros Hget Hen Hparse Hpol Htpl Hinj. cbn zeta. unfold execute_iteration, plan. rewrite Hget, Hen, Hparse, Hpol, Htpl.
  cbn [negb]. set (due := resolve_catch_up schedule (sr_next_fire_at row) now policy).
  set (ws := map worlds (seq 0 (length (due_runs due)))).
  assert (Hnd : NoDup (dw_fresh <$> ws)).
  { unfold ws. change (map worlds ?l) with (worlds <$> l). rewrite <-list_fmap_compose. apply NoDup_fmap_2_strong; [|apply NoDup_seq].
    intros i j _ _ Hij. by apply Hinj. }
  pose proof (dispatch_due_spec ws (request_of tenant template) false (st_db s) Hnd) as Hd.
  destruct (dispatch_due' ws (request_of tenant template) false (st_db s)) as [d db]. destruct Hd as (Hlen & _ & Hq).
  assert (Hws : length ws = length (due_runs due)) by (unfold ws; by rewrite length_map, length_seq).
  rewrite Hws in Hlen. destruct (ds_aborted d); [done|].
  set (s1 := set_db (adopt (dw_fresh <$> ws) db (st_db (others s))) (others s)).
  assert (Hqs : forall t, t ∈ ds_ids d -> tk_status <$> tasks (st_db s1) !! t = Some "queued").
  { intros t Ht. destruct (Hq t Ht) as [Hin Hst]. destruct (tasks db !! t) as [x|] eqn:Hx; [|done].
    unfold s1. cbn [st_db set_db]. by rewrite (adopt_lookup _ _ _ _ x). }
  destruct (_ || _)%bool eqn:Hprog.
  - unfold record_fire_progress. change (get tenant id s1) with (get tenant id (others s)).
    destruct (get tenant id (others s)) as [r0|] eqn:Hg.
    2:{ cbn. split; [done|]. split; [done|]. by intros ? [=]. }
    destruct (markers_ordered _ _); [|done]. cbn [dispatched_task_ids dispatch_errors it_snapshot st_db set_schedules].
    split; [done|]. split; [done|]. intros current _. eexists. split; [|right; split; [reflexivity|split; reflexivity]].
    unfold get, set_schedules. cbn [schedules]. rewrite lookup_insert_eq. simpl.
    unfold get in Hg. destruct (schedules (others s) !! id) as [x|]; [|done].
    destruct (String.eqb_spec (sr_tenant_id x) tenant) as [<-|]; [|done]. injection Hg as ->. by rewrite String.eqb_refl.
  - apply orb_false_elim in Hprog as [Hdue Hnext]. apply negb_false_iff, bool_decide_eq_true in Hdue.
    apply negb_false_iff, bool_decide_eq_true in Hnext.
    cbn [dispatched_task_ids dispatch_errors it_snapshot]. split; [done|]. split; [done|].
    intros current Hc. exists current. split; [exact Hc|]. left. done.
Qed.

(** a schedule whose policy is [skip_missed] never dispatches: the policy drops every fire
    that is due, and the workflow dispatches nothing but due fires. *)
Theorem skip_missed_never_dispatches now stamp worlds others tenant id s row :
  get tenant id s = Some row -> sr_catch_up_policy row = "skip_missed" ->
  let '(r, _, effects) := execute now stamp worlds others tenant id s in
  effects = [] /\ match r with Committed it => dispatched_task_ids it = [] | _ => True end.
Proof.
  intros Hget Hpol. unfold execute_iteration. rewrite Hget. destruct (sr_enabled row); [|done]. cbn [negb].
  unfold plan. rewrite Hpol. cbn [Schedule.from_str]. destruct (parse _ _) as [schedule|]; [|done].
  destruct (template_from_json _) as [template|]; [|done].
  assert (Hd : due_runs (resolve_catch_up schedule (sr_next_fire_at row) now SkipMissed) = []).
  { unfold resolve_catch_up. destruct (sr_next_fire_at row); [|done]. by destruct (_ <? _). }
  rewrite Hd. cbn. destruct (negb _); [|done].
  destruct (record_fire_progress _ _ _ _ _ _) as [[[u|]|e] s']; done.
Qed.

End IterationTheorems.

(** ** No change to a schedule is slept through *)

Section Wakeups.
Context `{CronLib}.
Context (error_text : ScheduleError -> string) (template_from_json : json -> result StoredScheduledTaskTemplate string)
        (parse_uuid : string -> option string) (phases_json : list PhaseSpec -> json)
        (template_to_json : StoredScheduledTaskTemplate -> json) (tenant id : string).

#[local] Notation stp := (step error_text template_from_json parse_uuid phases_json template_to_json tenant id).
#[local] Notation run := (run_events error_text template_from_json parse_uuid phases_json template_to_json tenant id).

(** A wait armed for a fire. *)
Definition armed_for (snap : ScheduledTaskSnapshot) : option DateTime :=
  match snap with Present _ true next _ _ => next | _ => None end.

(** The wait's wake-up is on its way: its refresh promise is resolved or a signal travels. *)
Definition refresh_coming (token : nat) (w : World) : Prop := RefreshPromise token ∈ promises w \/ (0 < refreshes w)%nat.

Definition wait_ok (w : World) : Prop :=
  match w_phase w with
  | Rechecking snap token => wait_token w = Some token /\ wait_seq w = token
  | Asleep snap token =>
      wait_token w = Some token /\ wait_seq w = token /\
      (load_snapshot tenant id (w_store w) = snap \/ refresh_coming token w) /\
      (forall next, armed_for snap = Some next -> (token, next) ∈ ticks w \/ TickPromise token ∈ promises w) /\
      (forall at_time, (token, at_time) ∈ ticks w -> armed_for snap = Some at_time)
  | _ => True
  end.

(** Tokens are used once: none is ahead of the counter, and none of the current wait is out
    before it is armed. *)
Definition tokens_ok (w : World) : Prop :=
  (forall token at_time, (token, at_time) ∈ ticks w -> (token <= wait_seq w)%nat) /\
  match w_phase w with
  | Rechecking _ token => forall at_time, (token, at_time) ∉ ticks w
  | _ => True
  end.

Definition waits_ok (w : World) : Prop := wait_ok w /\ tokens_ok w.

(** Calls whose refresh was sent. *)
Definition signal_sent (e : Event) : Prop :=
  match e with CallUpdate _ _ sent | CallDelete sent => sent = true | _ => True end.

(** A call that changes the tables has exactly one refresh to send. *)
Lemma update_call_effects now body s r s' effects :
  update_scheduled_task error_text template_to_json template_from_json now tenant id body s = Ret (r, s', effects) ->
  s' = s /\ effects = [] \/ length effects = 1%nat.
Proof.
  unfold update_scheduled_task. destruct (get tenant id s) as [row|] eqn:Hg; [|intros [= <- <- <-]; by left].
  destruct (updated_columns _ _ _ _ _ _) as [[n|e]|]; [..|done]; [|intros [= <- <- <-]; by left].
  cbn [exec_bind]. unfold update. rewrite Hg. destruct (markers_ordered _ _); intros [= <- <- <-]; [by right|by left].
Qed.

Lemma delete_call_effects s r s' effects :
  delete_scheduled_task tenant id s = (r, s', effects) -> s' = s /\ effects = [] \/ length effects = 1%nat.
Proof.
  unfold delete_scheduled_task, delete. destruct (get tenant id s); cbn; intros [= <- <- <-]; [by right|by left].
Qed.

(** Other tables and more signals keep a wait right. *)
Lemma store_step_ok s n w : waits_ok w ->
  (s = w_store w /\ (refreshes w <= n)%nat \/ (refreshes w < n)%nat) -> waits_ok (with_store s n [] w).
Proof.
  intros [Hw Ht] Hn. split; [|exact Ht]. unfold wait_ok in *. cbn [with_store w_phase].
  destruct (w_phase w); try done. destruct Hw as (H1 & H2 & H3 & H4 & H5). split; [done|]. split; [done|].
  split; [|by split]. unfold refresh_coming in *. cbn [w_store promises refreshes with_store].
  destruct Hn as [[-> Hn]|Hn]; [|right; right; lia]. destruct H3 as [H3|[H3|H3]]; [by left|right; by left|right; right; lia].
Qed.

Lemma call_ok effects sent s w : waits_ok w -> sent = true ->
  (s = w_store w /\ effects = [] \/ length effects = 1%nat) ->
  waits_ok (with_store s (refreshes w + signals_of effects sent)%nat [] w).
Proof.
  intros Hw -> [[-> ->]|He]; apply store_step_ok; try done; [left|right]; unfold signals_of; simpl; [split; [done|]; lia|lia].
Qed.

(** Resolving a promise keeps a wait right. *)
Lemma resolve_ok p w : waits_ok w -> waits_ok (resolve p w).
Proof.
  intros [Hw Ht]. split; [|exact Ht]. unfold wait_ok in *. cbn [resolve w_phase]. destruct (w_phase w); try done.
  destruct Hw as (H1 & H2 & H3 & H4 & H5). split; [done|]. split; [done|].
  unfold refresh_coming in *. cbn [resolve w_store promises refreshes ticks].
  split; [destruct H3 as [H3|[H3|H3]]; [by left|right; left; by right|right; by right]|].
  split; [|done]. intros next Hn. destruct (H4 next Hn); [by left|right; by right].
Qed.

(** A signal that is delivered is not lost on the wait it was sent to. *)
Lemma deliver_refresh_ok n w : waits_ok w -> refreshes w = S n -> waits_ok (refresh (with_store (w_store w) n [] w)).
Proof.
  intros [Hw Ht] Hn. unfold refresh. cbn [wait_token with_store]. split.
  - unfold wait_ok in *. destruct (wait_token w) as [t|] eqn:Htok; cbn [resolve with_store w_phase]; destruct (w_phase w); try done.
    + cbn. by rewrite Htok.
    + destruct Hw as (H1 & H2 & H3 & H4 & H5). injection H1 as H1. subst t. split; [exact Htok|]. split; [done|]. cbn.
      split; [right; left; by left|]. split; [|done]. intros next Hx. destruct (H4 next Hx); [by left|right; by right].
    + by destruct Hw.
    + by destruct Hw.
  - unfold tokens_ok in *. by destruct (wait_token w).
Qed.

(** So is a tick. *)
Lemma deliver_tick_ok i token at_time w : waits_ok w -> ticks w !! i = Some (token, at_time) ->
  waits_ok (tick token (with_ticks (base.delete i (ticks w)) w)).
Proof.
  intros [Hw Ht] Hi.
  assert (Hsub : forall x, x ∈ base.delete i (ticks w) -> x ∈ ticks w).
  { intros x Hx. rewrite delete_take_drop in Hx. apply elem_of_app in Hx as [Hx|Hx].
    - rewrite <-(take_drop i (ticks w)). apply elem_of_app. by left.
    - rewrite <-(take_drop (S i) (ticks w)). apply elem_of_app. by right. }
  assert (Hkeep : forall x, x ∈ ticks w -> x = (token, at_time) \/ x ∈ base.delete i (ticks w)).
  { intros x Hx. rewrite delete_take_drop. rewrite <-(take_drop_middle (ticks w) i (token, at_time)) in Hx.
    - apply elem_of_app in Hx as [Hx|Hx]; [right; apply elem_of_app; by left|].
      apply elem_of_cons in Hx as [Hx|Hx]; [by left|right; apply elem_of_app; by right].
    - done. }
  unfold tick. cbn [wait_token with_ticks]. split.
  - unfold wait_ok in *. case_bool_decide as Htok; cbn [resolve with_ticks w_phase]; destruct (w_phase w); try done.
    + destruct Hw as (H1 & H2 & H3 & H4 & H5). split; [done|]. split; [done|]. cbn.
      split; [destruct H3 as [H3|[H3|H3]]; [by left|right; left; by right|right; by right]|].
      rewrite H1 in Htok. injection Htok as <-. split; [intros next Hn; right; by left|]. intros a Ha. by apply H5, Hsub.
    + destruct Hw as (H1 & H2 & H3 & H4 & H5). split; [done|]. split; [done|]. cbn. split; [done|]. split.
      * intros next Hn. destruct (H4 next Hn) as [Hin|]; [|by right]. left.
        destruct (Hkeep _ Hin) as [[= -> ->]|]; [|done]. by rewrite H1 in Htok.
      * intros a Ha. by apply H5, Hsub.
  - destruct Ht as [Hb Hp]. unfold tokens_ok in *. case_bool_decide; cbn [resolve with_ticks w_phase ticks wait_seq]; split.
    + intros t a Ha. by eapply Hb, Hsub.
    + destruct (w_phase w); try done. intros a Ha. by eapply Hp, Hsub.
    + intros t a Ha. by eapply Hb, Hsub.
    + destruct (w_phase w); try done. intros a Ha. by eapply Hp, Hsub.
Qed.

(** Outside of a wait only the tokens matter. *)
Lemma not_waiting p w : (forall token at_time, (token, at_time) ∈ ticks w -> (token <= wait_seq w)%nat) ->
  w_phase w = p -> match p with Rechecking _ _ | Asleep _ _ => False | _ => True end -> waits_ok w.
Proof. intros Hb Hp Hn. unfold waits_ok, wait_ok, tokens_ok. rewrite Hp. by destruct p. Qed.

Lemma run_iteration_ok now stamp worlds others w :
  waits_ok w -> w_phase w = Executing ->
  waits_ok (run_iteration error_text template_from_json parse_uuid phases_json now stamp worlds others tenant id w).
Proof.
  intros [_ [Hb _]] Hp. unfold run_iteration. destruct (execute_iteration _ _ _ _ _ _ _ _ _ _ _) as [[r s] effects].
  destruct r as [r|m|]; [destruct (it_snapshot r)|..]; (eapply not_waiting; [exact Hb|reflexivity|]); [done..|].
  cbn. by rewrite Hp.
Qed.

Lemma recheck_ok now snap token w :
  waits_ok w -> w_phase w = Rechecking snap token -> waits_ok (recheck now snap token tenant id w).
Proof.
  intros [Hw [Hb Ht]] Hp. unfold wait_ok in Hw. rewrite Hp in Hw, Ht. destruct Hw as [Htok Hseq]. unfold recheck.
  case_bool_decide as Hload; cbn [negb]; [|eapply not_waiting; [exact Hb|reflexivity|done]].
  assert (Hsleep : armed_for snap = None -> waits_ok (next_phase (Asleep snap token) w)).
  { intros Ha. split; [|by split]. unfold wait_ok. cbn. split; [done|]. split; [done|]. split; [by left|].
    rewrite Ha. split; [done|]. intros a Hin. by destruct (Ht a). }
  destruct snap as [|name enabled next last upd]; [by apply Hsleep|].
  destruct enabled, next as [next|]; cbn [wait_commands]; [|by apply Hsleep..].
  destruct (Z.leb_spec next now); cbn [foldl run_command]; [eapply not_waiting; [exact Hb|reflexivity|done]|].
  split.
  - unfold wait_ok. cbn. split; [done|]. split; [done|]. split; [by left|]. split.
    + intros n [= <-]. left. by left.
    + intros a [[= ->]|Hin]%elem_of_cons; [done|]. by destruct (Ht a).
  - split; [|done]. cbn. intros t a [[= -> ->]|Hin]%elem_of_cons; [lia|by eapply Hb].
Qed.

Lemma step_ok e w : signal_sent e -> waits_ok w -> waits_ok (stp e w).
Proof.
  intros Hs Hw. pose proof Hw as [_ [Hb _]].
  destruct e as [now stamp worlds others| | |now| |i| |now body sent|sent]; cbn [step].
  - destruct (w_phase w) eqn:Hp; try done. by apply run_iteration_ok.
  - destruct (w_phase w) eqn:Hp; try done. unfold load.
    destruct (load_snapshot tenant id (w_store w)); (eapply not_waiting; [exact Hb|reflexivity|done]).
  - destruct (w_phase w) eqn:Hp; try done. split; [done|]. split.
    + cbn. intros t a Hin. specialize (Hb t a Hin). lia.
    + cbn. intros a Hin. specialize (Hb _ a Hin). lia.
  - destruct (w_phase w) eqn:Hp; try done. by apply recheck_ok.
  - destruct (w_phase w) eqn:Hp; try done. destruct (awake _ _ _); [|done]. eapply not_waiting; [exact Hb|reflexivity|done].
  - destruct (ticks w !! i) as [[t a]|] eqn:Hi; [|by destruct (w_phase w)]. 
    destruct (w_phase w); by eapply deliver_tick_ok.
  - destruct (refreshes w) as [|n] eqn:Hn; [by destruct (w_phase w)|]. destruct (w_phase w); by apply deliver_refresh_ok.
  - destruct (update_scheduled_task _ _ _ _ _ _ _ _) as [[[r s] effects]|] eqn:Hu; [|by destruct (w_phase w)].
    assert (waits_ok (with_store s (refreshes w + signals_of effects sent)%nat [] w)); [|by destruct (w_phase w)].
    apply call_ok; [done|done|]. by eapply update_call_effects.
  - destruct (delete_scheduled_task _ _ _) as [[r s] effects] eqn:Hu.
    assert (waits_ok (with_store s (refreshes w + signals_of effects sent)%nat [] w)); [|by destruct (w_phase w)].
    apply call_ok; [done|done|]. by eapply delete_call_effects.
Qed.

Lemma started_ok s : waits_ok (started s).
Proof. eapply not_waiting; [|reflexivity|done]. by intros t a ?%not_elem_of_nil. Qed.

Lemma run_ok l w : Forall signal_sent l -> waits_ok w -> waits_ok (run l w).
Proof. intros Hl. revert w. induction Hl as [|e l He Hl IH]; intros w Hw; [done|]. simpl. by apply IH, step_ok. Qed.

(** Waking up, and what a delivered refresh leaves alone. *)
Lemma wake_asleep x snap token : w_phase x = Asleep snap token -> awake snap token x = true -> w_phase (stp Wake x) = Executing.
Proof. intros Hx Ha. cbn [step]. by rewrite Hx, Ha. Qed.

Lemma wake_not x snap token : w_phase x = Asleep snap token -> awake snap token x = false -> stp Wake x = x.
Proof. intros Hx Ha. cbn [step]. by rewrite Hx, Ha. Qed.

Lemma wake_executing x : w_phase x = Executing -> stp Wake x = x.
Proof. intros Hx. cbn [step]. by rewrite Hx. Qed.

Lemma deliver_refresh_phase x : w_phase (stp DeliverRefresh x) = w_phase x.
Proof. cbn [step]. destruct (refreshes x); [done|]. unfold refresh. cbn [with_store wait_token]. by destruct (wait_token x). Qed.

(** C23: whatever the interleaving of the workflow's steps, its ticks and signals, and the calls
    that update or delete the schedule (each of which sends its refresh), a sleeping workflow
    never sleeps through a change: if the row is not the one it went to sleep on, it can be
    woken by what is already on its way; if it sleeps until a fire, the tick of that very fire
    is on its way or has come, and no other tick can wake it. *)
Theorem no_lost_wakeup s l : Forall signal_sent l ->
  let w := run l (started s) in
  match w_phase w with
  | Asleep snap token =>
      (load_snapshot tenant id (w_store w) <> snap -> w_phase (run [Wake; DeliverRefresh; Wake] w) = Executing) /\
      (forall next, armed_for snap = Some next -> exists i, w_phase (run [DeliverTick i; Wake] w) = Executing) /\
      (forall at_time, (token, at_time) ∈ ticks w -> armed_for snap = Some at_time)
  | _ => True
  end.
Proof.
  intros Hl. cbn zeta. pose proof (run_ok l (started s) Hl (started_ok s)) as [Hw _].
  unfold wait_ok in Hw. destruct (w_phase (run l (started s))) as [| | | |snap token| |] eqn:Hp; try done.
  destruct Hw as (Htok & _ & Hload & Htick & Hown). remember (run l (started s)) as w eqn:Hweq. clear Hweq Hl.
  split; [|split; [|exact Hown]].
  - intros Hne. destruct Hload as [|Hcome]; [done|]. cbn [run_events foldl].
    destruct (awake snap token w) eqn:Ha.
    + pose proof (wake_asleep w snap token Hp Ha) as Hw1.
      rewrite (wake_executing (stp DeliverRefresh (stp Wake w))); rewrite deliver_refresh_phase; done.
    + rewrite (wake_not w snap token Hp Ha). destruct Hcome as [Hin|Hr].
      { unfold awake in Ha. by rewrite bool_decide_true in Ha. }
      apply (wake_asleep _ snap token); [by rewrite deliver_refresh_phase|]. cbn [step].
      destruct (refreshes w) as [|n]; [lia|]. unfold refresh. cbn [with_store wait_token]. rewrite Htok.
      unfold awake. cbn [resolve promises]. by rewrite bool_decide_true by (by left).
  - intros next Hn. assert (Hshape : exists name last upd, snap = Present name true (Some next) last upd).
    { destruct snap as [|name [] nx last upd]; simpl in Hn; [done| |done]. rewrite Hn. by eexists _, _, _. }
    destruct Hshape as (name & last & upd & ->).
    assert (Haw : forall x, TickPromise token ∈ promises x -> awake (Present name true (Some next) last upd) token x = true).
    { intros x Hx. unfold awake. rewrite (bool_decide_true (TickPromise token ∈ _)) by done. by rewrite orb_true_r. }
    destruct (Htick next Hn) as [Hin|Hin].
    + apply list_elem_of_lookup in Hin as [i Hi]. exists i. cbn [run_events foldl].
      assert (Hd : stp (DeliverTick i) w = resolve (TickPromise token) (with_ticks (base.delete i (ticks w)) w)).
      { cbn [step]. rewrite Hi. unfold tick. cbn [with_ticks wait_token]. by rewrite bool_decide_true by done. }
      rewrite Hd. eapply wake_asleep; [exact Hp|]. apply Haw. by left.
    + exists (length (ticks w)). cbn [run_events foldl].
      assert (Hd : stp (DeliverTick (length (ticks w))) w = w).
      { cbn [step]. by rewrite (proj2 (lookup_ge_None (ticks w) (length (ticks w)))). }
      rewrite Hd. eapply wake_asleep; [exact Hp|]. by apply Haw.
Qed.

End Wakeups.

(** ** Races and witnesses, on a schedule that fires every hour *)

Module ScheduleDemo.
Definition template : StoredScheduledTaskTemplate := {|
  tp_prompt := "pick"; tp_environment_id := "lab"; tp_host_id := "h1"; tp_timeout_secs := None;
  tp_control_interface_manifest := None; tp_delegation_scope := None; tp_phases := []; tp_parent_task_id := None |}.
Definition row (policy : string) (enabled : bool) (next : option DateTime) : ScheduledTaskRow := {|
  sr_id := "s1"; sr_tenant_id := "acme"; sr_name := "patrol"; sr_nl_schedule := "every hour"; sr_parsed_cron := "0 0 * * * *";
  sr_timezone := "UTC"; sr_task_template := Null; sr_enabled := enabled; sr_catch_up_policy := policy;
  sr_next_fire_at := next; sr_last_fire_at := None; sr_updated_at := 0 |}.
Definition store (r : ScheduledTaskRow) : Store := {| st_db := TaskDemo.db; schedules := {[ "s1" := r ]} |}.
Definition world (fails : nat -> bool) (i : nat) : DispatchWorld := {|
  dw_fresh := pretty (N.of_nat i); dw_db_fails := fun st => if fails i then Some (Database "23503") else None;
  dw_trust := fun _ => Ok tt; dw_restate_url := "http://r"; dw_restate := WorkflowAccepted; dw_nats := true; dw_publish := None |}.
Definition decode (j : json) : result StoredScheduledTaskTemplate string := Ok template.
Definition encode (t : StoredScheduledTaskTemplate) : json := Null.
Definition text (e : ScheduleError) : string := "".
Definition run_it (fails : nat -> bool) (now : DateTime) (others : Store -> Store) (s : Store) : IterationEnd * Store * list ServerEffect :=
  execute_iteration text decode TaskDemo.uuid TaskDemo.stored now now (world fails) others "acme" "s1" s.
Definition change : UpdateScheduledTaskRequest := {|
  up_name := None; up_nl_schedule := None; up_parsed_cron := None; up_timezone := None; up_task_template := None;
  up_enabled := Some true; up_catch_up_policy := None |}.
Definition to_sleep : list Event := [RunIteration 1 1 (world (fun _ => false)) (fun s => s); LoadSnapshot; Arm; Recheck 2].
Definition run (l : list Event) (s : Store) : World := run_events text decode TaskDemo.uuid TaskDemo.stored encode "acme" "s1" l (started s).
End ScheduleDemo.

(** A due fire of a [skip_missed] schedule, on time, beside one of [run_all]. *)
Example on_time_fire_is_skipped :
  let at_fire := Hourly.hour in
  (ScheduleDemo.run_it (fun _ => false) at_fire (fun s => s) (ScheduleDemo.store (ScheduleDemo.row "skip_missed" true (Some Hourly.hour)))).2 = [] /\
  length (ScheduleDemo.run_it (fun _ => false) at_fire (fun s => s) (ScheduleDemo.store (ScheduleDemo.row "run_all" true (Some Hourly.hour)))).2 = 2%nat.
Proof. vm_compute. split; reflexivity. Qed.

(** The second of two due dispatches meets a database error: the transaction is lost, the first
    task's workflow and invocation are out, and the retry sends both again. *)
Example retry_dispatches_again :
  let s := ScheduleDemo.store (ScheduleDemo.row "run_all" true (Some Hourly.hour)) in
  let '(r1, s1, sent1) := ScheduleDemo.run_it (fun i => Nat.eqb i 1) (2 * Hourly.hour) (fun s => s) s in
  let '(r2, s2, sent2) := ScheduleDemo.run_it (fun _ => false) (2 * Hourly.hour) (fun s => s) s1 in
  r1 = Retried /\ length sent1 = 2%nat /\ s1 = s /\ length sent2 = 4%nat /\ match r2 with Committed it => length (dispatched_task_ids it) = 2%nat | _ => False end.
Proof. vm_compute. repeat split. Qed.

(** A call that commits while an iteration dispatches has its new cursor overwritten. *)
Example concurrent_update_overwritten :
  let later := update 5 "acme" "s1" {| ns_name := "patrol"; ns_nl_schedule := "daily at 9am"; ns_parsed_cron := "0 0 9 * * *"; ns_timezone := "UTC";
    ns_task_template := Null; ns_enabled := true; ns_catch_up_policy := RunAll; ns_next_fire_at := Some (9 * Hourly.hour); ns_last_fire_at := None |} in
  let s := ScheduleDemo.store (ScheduleDemo.row "run_all" true (Some Hourly.hour)) in
  let '(_, s1, _) := ScheduleDemo.run_it (fun _ => false) Hourly.hour (fun s => (later s).2) s in
  match get "acme" "s1" s1 with
  | Some r => sr_parsed_cron r = "0 0 9 * * *" /\ sr_next_fire_at r = Some (2 * Hourly.hour)
  | None => False
  end.
Proof. vm_compute. split; reflexivity. Qed.

(** New words for a schedule are compared with the stored expression of the old ones. *)
Example words_alone_are_refused :
  let body := {| up_name := None; up_nl_schedule := Some "every minute"; up_parsed_cron := None; up_timezone := None;
                 up_task_template := None; up_enabled := None; up_catch_up_policy := None |} in
  match update_scheduled_task ScheduleDemo.text ScheduleDemo.encode ScheduleDemo.decode 0 "acme" "s1" body
          (ScheduleDemo.store (ScheduleDemo.row "run_all" true None)) with
  | Ret (r, _, _) => r = Err (InvalidArgument "parsed_cron does not match nl_schedule")
  | Panic => False
  end.
Proof. vm_compute. reflexivity. Qed.

(** A refresh that is not sent (the call only logs it) is slept through. *)
Example unsent_refresh_is_slept_through :
  let w := ScheduleDemo.run (ScheduleDemo.to_sleep ++ [CallUpdate 3 ScheduleDemo.change false])
             (ScheduleDemo.store (ScheduleDemo.row "run_all" false None)) in
  match w_phase w with
  | Asleep snap _ =>
      bool_decide (load_snapshot "acme" "s1" (w_store w) = snap) = false /\
      w_phase (run_events ScheduleDemo.text ScheduleDemo.decode TaskDemo.uuid TaskDemo.stored ScheduleDemo.encode "acme" "s1"
                 [Wake; DeliverRefresh; Wake] w) = w_phase w
  | _ => False
  end.
Proof. vm_compute. split; reflexivity. Qed.

(** The clock between the recheck and the sleep is read outside of the journal: run again after
    the fire, as a resumed workflow is, the code does something else than it recorded. *)
Theorem clock_breaks_replay name next last upd token now later :
  now < next -> next <= later ->
  wait_commands now (Present name true (Some next) last upd) token <> wait_commands later (Present name true (Some next) last upd) token.
Proof.
  intros Hn Hl. cbn [wait_commands]. destruct (Z.leb_spec next now); [lia|]. by destruct (Z.leb_spec next later); [|lia].
Qed.

Lemma demo_worlds_fresh fails i j : dw_fresh (ScheduleDemo.world fails i) = dw_fresh (ScheduleDemo.world fails j) -> i = j.
Proof. intros He. change (pretty (N.of_nat i) = pretty (N.of_nat j)) in He. apply (inj (pretty (A := N))) in He. lia. Qed.

Lemma iteration_exact_witness :
  let s := ScheduleDemo.store (ScheduleDemo.row "run_all" true (Some Hourly.hour)) in
  let '(r, s', _) := ScheduleDemo.run_it (fun _ => false) (2 * Hourly.hour) (fun s => s) s in
  match r with
  | Committed it =>
      (length (dispatched_task_ids it) + length (dispatch_errors it) = 2)%nat /\
      (forall t, t ∈ dispatched_task_ids it -> tk_status <$> tasks (st_db s') !! t = Some "queued")
  | _ => False
  end.
Proof.
  cbn zeta. unfold ScheduleDemo.run_it.
  pose proof (iteration_exact ScheduleDemo.text ScheduleDemo.decode TaskDemo.uuid TaskDemo.stored (2 * Hourly.hour) (2 * Hourly.hour)
    (ScheduleDemo.world (fun _ => false)) (fun s => s) "acme" "s1"
    (ScheduleDemo.store (ScheduleDemo.row "run_all" true (Some Hourly.hour))) (ScheduleDemo.row "run_all" true (Some Hourly.hour))
    hourly_schedule RunAll ScheduleDemo.template eq_refl eq_refl eq_refl eq_refl eq_refl (demo_worlds_fresh _)) as Hx.
  destruct (execute_iteration _ _ _ _ _ _ _ _ _ _ _) as [[r s'] effects] eqn:He.
  destruct r as [it|m|]; [|destruct Hx|vm_compute in He; discriminate He].
  destruct Hx as (Hlen & Hq & _). split; [|exact Hq]. rewrite Hlen. vm_compute. reflexivity.
Defined.

Lemma skip_missed_never_dispatches_witness :
  let '(_, _, effects) := ScheduleDemo.run_it (fun _ => false) (3 * Hourly.hour) (fun s => s)
    (ScheduleDemo.store (ScheduleDemo.row "skip_missed" true (Some Hourly.hour))) in
  effects = [].
Proof.
  pose proof (skip_missed_never_dispatches ScheduleDemo.text ScheduleDemo.decode TaskDemo.uuid TaskDemo.stored (3 * Hourly.hour)
    (3 * Hourly.hour) (ScheduleDemo.world (fun _ => false)) (fun s => s) "acme" "s1"
    (ScheduleDemo.store (ScheduleDemo.row "skip_missed" true (Some Hourly.hour))) (ScheduleDemo.row "skip_missed" true (Some Hourly.hour))
    eq_refl eq_refl) as Hx.
  unfold ScheduleDemo.run_it. destruct (execute_iteration _ _ _ _ _ _ _ _ _ _ _) as [[r s'] effects]. exact (proj1 Hx).
Defined.

(** Asleep until the next hour; the schedule is disabled, its refresh still on its way. *)
Lemma no_lost_wakeup_witness :
  let s := ScheduleDemo.store (ScheduleDemo.row "run_all" true (Some Hourly.hour)) in
  let l := (ScheduleDemo.to_sleep ++ [CallDelete true])%list in
  let w := ScheduleDemo.run l s in
  exists snap, w_phase w = Asleep snap 1 /\ load_snapshot "acme" "s1" (w_store w) <> snap /\
  w_phase (run_events ScheduleDemo.text ScheduleDemo.decode TaskDemo.uuid TaskDemo.stored ScheduleDemo.encode "acme" "s1"
             [Wake; DeliverRefresh; Wake] w) = Executing.
Proof.
  cbn zeta. unfold ScheduleDemo.run.
  pose proof (no_lost_wakeup ScheduleDemo.text ScheduleDemo.decode TaskDemo.uuid TaskDemo.stored ScheduleDemo.encode "acme" "s1"
    (ScheduleDemo.store (ScheduleDemo.row "run_all" true (Some Hourly.hour))) (ScheduleDemo.to_sleep ++ [CallDelete true])%list
    ltac:(repeat constructor)) as Hx. cbn zeta in Hx.
  remember (run_events ScheduleDemo.text ScheduleDemo.decode TaskDemo.uuid TaskDemo.stored ScheduleDemo.encode "acme" "s1"
    (ScheduleDemo.to_sleep ++ [CallDelete true])%list (started (ScheduleDemo.store (ScheduleDemo.row "run_all" true (Some Hourly.hour))))) as w eqn:Hw.
  assert (w_phase w = Asleep (Present "patrol" true (Some Hourly.hour) None 0) 1 /\ load_snapshot "acme" "s1" (w_store w) = Missing) as [Hp Hm]
    by (rewrite Hw; vm_compute; split; reflexivity).
  exists (Present "patrol" true (Some Hourly.hour) None 0). split; [exact Hp|]. rewrite Hp in Hx.
  assert (load_snapshot "acme" "s1" (w_store w) <> Present "patrol" true (Some Hourly.hour) None 0) as Hne
    by (rewrite Hm; discriminate).
  split; [exact Hne|]. exact (proj1 Hx Hne).
Defined.
