(* ===== verification/EdgeHealth.v ===== *)
(** * Edge health

    roz-core/edge_health.rs (the aggregator of health signals), roz-zenoh/health.rs (the
    heartbeat publisher, the liveliness and the freshness monitor) and the watcher of health
    transitions in roz-worker/main.rs.  The tasks interleave as events of one state; samples,
    liveliness changes and instants are given.  The signal channel is bounded and drops: what
    it dropped is kept in the state, so that theorems can speak of runs that lost nothing. *)

From Stdlib Require Import Ascii.
From stdpp Require Import sorting.
From S2P Require Import Prelude Float64 RustStr Json Deployment SafetyFilter Guards Approvals Context Policy.
From S2P Require Import FrameTree Subjects Dispatch ModelCalls SessionData.
#[local] Open Scope string_scope.

(** ** edge_health.rs *)

Record TopicContract : Type := {
  topic : string;
  max_publish_interval_ms : Z;
  max_staleness_ms : Z;
}.

Inductive EdgeHealthSignal : Type :=
| PeerLost (robot_id : string)
| PeerRecovered (robot_id : string)
| SubsystemStale (name : string)
| SubsystemFresh (name : string)
| SecondaryTransportFailing (label : string)
| TransportDown
| TransportRestored.

#[export] Instance EdgeHealthSignal_eq_dec : EqDecision EdgeHealthSignal.
Proof. solve_decision. Defined.

#[export] Instance EdgeTransportHealth_eq_dec : EqDecision EdgeTransportHealth.
Proof. solve_decision. Defined.

(** The watch channel holds its last value and the number of values sent; the signal channel
    is its queue and its capacity. *)
Record EdgeHealthAggregator : Type := {
  tx : EdgeTransportHealth;
  tx_version : nat;
  rx_signals : list EdgeHealthSignal;
  signal_capacity : nat;
  affected : gset string;
  transport_down : bool;
}.

(** [mpsc::channel] panics on a capacity of zero. *)
Definition new (capacity : nat) : exec EdgeHealthAggregator :=
  match capacity with
  | O => Panic
  | S _ => Ret {| tx := Healthy; tx_version := 0; rx_signals := []; signal_capacity := capacity;
                  affected := ∅; transport_down := false |}
  end.

(** [try_send]: [false] when the queue is full and the signal is dropped. *)
Definition send (signal : EdgeHealthSignal) (self : EdgeHealthAggregator) : bool * EdgeHealthAggregator :=
  if (length (rx_signals self) <? signal_capacity self)%nat
  then (true, {| tx := tx self; tx_version := tx_version self; rx_signals := (rx_signals self ++ [signal])%list;
                 signal_capacity := signal_capacity self; affected := affected self;
                 transport_down := transport_down self |})
  else (false, self).

Definition recompute (self : EdgeHealthAggregator) : EdgeTransportHealth :=
  if transport_down self then Disconnected
  else if decide (affected self = ∅) then Healthy
  else EdgeDegraded (sorted_set (affected self)).

Definition peer_mark (robot_id : string) : string := "peer:" +:+ robot_id.
Definition subsystem_mark (name : string) : string := "subsystem:" +:+ name.
Definition secondary_mark (label : string) : string := "secondary:" +:+ label.

Definition set_affected (f : gset string -> gset string) (self : EdgeHealthAggregator) : EdgeHealthAggregator :=
  {| tx := tx self; tx_version := tx_version self; rx_signals := rx_signals self;
     signal_capacity := signal_capacity self; affected := f (affected self); transport_down := transport_down self |}.

Definition set_transport_down (b : bool) (self : EdgeHealthAggregator) : EdgeHealthAggregator :=
  {| tx := tx self; tx_version := tx_version self; rx_signals := rx_signals self;
     signal_capacity := signal_capacity self; affected := affected self; transport_down := b |}.

Definition apply (signal : EdgeHealthSignal) (self : EdgeHealthAggregator) : EdgeHealthAggregator :=
  match signal with
  | PeerLost robot_id => set_affected (fun a => a ∪ {[peer_mark robot_id]}) self
  | PeerRecovered robot_id => set_affected (fun a => a ∖ {[peer_mark robot_id]}) self
  | SubsystemStale name => set_affected (fun a => a ∪ {[subsystem_mark name]}) self
  | SubsystemFresh name => set_affected (fun a => a ∖ {[subsystem_mark name]}) self
  | SecondaryTransportFailing label => set_affected (fun a => a ∪ {[secondary_mark label]}) self
  | TransportDown => set_transport_down true self
  | TransportRestored => set_transport_down false self
  end.

(** One turn of [run]: receive, apply, send the new value to the watchers. *)
Definition run_turn (self : EdgeHealthAggregator) : EdgeHealthAggregator :=
  match rx_signals self with
  | [] => self
  | signal :: rest =>
      let self := apply signal {| tx := tx self; tx_version := tx_version self; rx_signals := rest;
                                  signal_capacity := signal_capacity self; affected := affected self;
                                  transport_down := transport_down self |} in
      {| tx := recompute self; tx_version := S (tx_version self); rx_signals := rx_signals self;
         signal_capacity := signal_capacity self; affected := affected self; transport_down := transport_down self |}
  end.

(** ** health.rs *)

(** The monitor of one heartbeat; instants are nanoseconds, [elapsed] saturates at zero. *)
Record TransportHealthMonitor : Type := { last_heartbeat : option Z; timeout : Z }.

Definition record_heartbeat (now : Z) (self : TransportHealthMonitor) : TransportHealthMonitor :=
  {| last_heartbeat := Some now; timeout := timeout self |}.

Definition check (now : Z) (self : TransportHealthMonitor) : EdgeTransportHealth :=
  match last_heartbeat self with
  | None => Disconnected
  | Some last => if (Z.max 0 (now - last) <=? timeout self)%Z then Healthy else EdgeDegraded ["zenoh_transport"]
  end.

Definition HEARTBEAT_CADENCE : Z := 2 * 1000000000.
Definition HEARTBEAT_STALENESS : Z := 10 * 1000000000.
Definition SUBSYSTEM_FRESHNESS : Z := 15 * 1000000000.

Inductive SampleKind : Type := Put | Delete.

(** The robot a liveliness key names: one segment after [roz/peers/]. *)
Definition robot_of_key (key : string) : option string :=
  match strip_prefix "roz/peers/" key with
  | Some robot_id =>
      if bool_decide (robot_id = "") || contains_char "/"%char robot_id then None else Some robot_id
  | None => None
  end.

(** What the liveliness monitor sends for a sample. *)
Definition liveliness_signal (kind : SampleKind) (key : string) : option EdgeHealthSignal :=
  robot_id ← robot_of_key key;
  Some (match kind with Put => PeerRecovered robot_id | Delete => PeerLost robot_id end).

(** [map.get(name).is_none_or(|t| now.duration_since( *t) > freshness_window)] *)
Definition is_stale (freshness_window now : Z) (seen : option Z) : bool :=
  match seen with
  | None => true
  | Some t => (freshness_window <? Z.max 0 (now - t))%Z
  end.

(** ** The tasks together *)

(** The aggregator; the freshness monitor ([last_seen], the stale names, and the names a tick
    has left with its instant and its copy of the map); the heartbeat publisher and the
    worker's watcher, each with the version of the health it saw last.  [offered] is every
    signal handed to [send], [dropped] those the full queue refused. *)
Record Edge : Type := {
  agg : EdgeHealthAggregator;
  last_seen : gmap string Z;
  stale_set : gset string;
  ticking : option (Z * gmap string Z * list string);
  publisher_seen : nat;
  published : list EdgeTransportHealth;
  watcher_seen : nat;
  watcher_last : EdgeTransportHealth;
  emitted : list EdgeTransportHealth;
  dropped : list EdgeHealthSignal;
}.

Definition with_agg (a : EdgeHealthAggregator) (e : Edge) : Edge :=
  {| agg := a; last_seen := last_seen e; stale_set := stale_set e; ticking := ticking e;
     publisher_seen := publisher_seen e; published := published e; watcher_seen := watcher_seen e;
     watcher_last := watcher_last e; emitted := emitted e; dropped := dropped e |}.

Definition with_monitor (seen : gmap string Z) (stale : gset string)
    (t : option (Z * gmap string Z * list string)) (e : Edge) : Edge :=
  {| agg := agg e; last_seen := seen; stale_set := stale; ticking := t;
     publisher_seen := publisher_seen e; published := published e; watcher_seen := watcher_seen e;
     watcher_last := watcher_last e; emitted := emitted e; dropped := dropped e |}.

(** [handle.send(signal).await]: the result of [try_send] is not looked at. *)
Definition handle_send (signal : EdgeHealthSignal) (e : Edge) : Edge :=
  let '(sent, a) := send signal (agg e) in
  {| agg := a; last_seen := last_seen e; stale_set := stale_set e; ticking := ticking e;
     publisher_seen := publisher_seen e; published := published e; watcher_seen := watcher_seen e;
     watcher_last := watcher_last e; emitted := emitted e;
     dropped := if sent then dropped e else (dropped e ++ [signal])%list |}.

(** What is left of a tick; the task is back at [tick.tick()] when nothing is. *)
Definition names_left (now : Z) (map : gmap string Z) (names : list string) :
    option (Z * gmap string Z * list string) :=
  match names with [] => None | _ => Some (now, map, names) end.

(** The body of the loop over the names. *)
Definition scan_name (freshness_window now : Z) (map : gmap string Z) (name : string) (e : Edge) : Edge :=
  match is_stale freshness_window now (map !! name), bool_decide (name ∈ stale_set e) with
  | true, false =>
      handle_send (SubsystemStale name) (with_monitor (last_seen e) (stale_set e ∪ {[name]}) (ticking e) e)
  | false, true =>
      handle_send (SubsystemFresh name) (with_monitor (last_seen e) (stale_set e ∖ {[name]}) (ticking e) e)
  | _, _ => e
  end.

(** A put of the current health: on a tick it leaves the change unseen, on a change it marks
    it seen. *)
Definition publish_health (seen : nat) (e : Edge) : Edge :=
  {| agg := agg e; last_seen := last_seen e; stale_set := stale_set e; ticking := ticking e;
     publisher_seen := seen; published := (published e ++ [tx (agg e)])%list; watcher_seen := watcher_seen e;
     watcher_last := watcher_last e; emitted := emitted e; dropped := dropped e |}.

(** One turn of the watcher: [EdgeTransportDegraded] for a health that differs from the last. *)
Definition watch_transition (e : Edge) : Edge :=
  let current := tx (agg e) in
  {| agg := agg e; last_seen := last_seen e; stale_set := stale_set e; ticking := ticking e;
     publisher_seen := publisher_seen e; published := published e; watcher_seen := tx_version (agg e);
     watcher_last := current;
     emitted := if decide (current = watcher_last e) then emitted e else (emitted e ++ [current])%list;
     dropped := dropped e |}.

Inductive EdgeEvent : Type :=
| Sample (name : string) (now : Z)
| TickStart (now : Z)
| TickName
| Liveliness (kind : SampleKind) (key : string)
| SecondaryFails (label : string)
| TransportGoes (down : bool)
| Aggregate
| HeartbeatTick
| HealthChanged
| WatcherTurn.

Definition edge_step (ticker_names : list string) (freshness_window : Z) (e : Edge) (ev : EdgeEvent) : Edge :=
  match ev with
  | Sample name now => with_monitor (<[name := now]> (last_seen e)) (stale_set e) (ticking e) e
  | TickStart now =>
      match ticking e with
      | None => with_monitor (last_seen e) (stale_set e) (names_left now (last_seen e) ticker_names) e
      | Some _ => e
      end
  | TickName =>
      match ticking e with
      | Some (now, map, name :: rest) =>
          scan_name freshness_window now map name
            (with_monitor (last_seen e) (stale_set e) (names_left now map rest) e)
      | _ => e
      end
  | Liveliness kind key =>
      match liveliness_signal kind key with Some signal => handle_send signal e | None => e end
  | SecondaryFails label => handle_send (SecondaryTransportFailing label) e
  | TransportGoes down => handle_send (if down then TransportDown else TransportRestored) e
  | Aggregate => with_agg (run_turn (agg e)) e
  | HeartbeatTick => publish_health (publisher_seen e) e
  | HealthChanged => if (publisher_seen e <? tx_version (agg e))%nat then publish_health (tx_version (agg e)) e else e
  | WatcherTurn => if (watcher_seen e <? tx_version (agg e))%nat then watch_transition e else e
  end.

Definition edge_run (ticker_names : list string) (freshness_window : Z) : Edge -> list EdgeEvent -> Edge :=
  foldl (edge_step ticker_names freshness_window).

Definition edge_start (a : EdgeHealthAggregator) : Edge :=
  {| agg := a; last_seen := ∅; stale_set := ∅; ticking := None; publisher_seen := tx_version a; published := [];
     watcher_seen := tx_version a; watcher_last := tx a; emitted := []; dropped := [] |}.

(** The subsystems a worker watches. *)
Definition worker_subsystems : list string :=
  ["telemetry_summary"; "controller_evidence"; "safety_interventions"; "perception_availability"].

(** ** Marks *)

#[export] Instance peer_mark_inj : Inj (=) (=) peer_mark.
Proof. intros a b H. by injection H. Qed.

#[export] Instance subsystem_mark_inj : Inj (=) (=) subsystem_mark.
Proof. intros a b H. by injection H. Qed.

#[export] Instance secondary_mark_inj : Inj (=) (=) secondary_mark.
Proof. intros a b H. by injection H. Qed.

(** What the signals still in the queue will make of the affected names and of the flag. *)
Definition settled (a : EdgeHealthAggregator) : EdgeHealthAggregator :=
  foldl (fun a s => apply s a) a (rx_signals a).

Definition marked (x : string) (e : Edge) : Prop := x ∈ affected (settled (agg e)).

(** The effect of a signal on one mark and on the flag. *)
Definition mark_after (x : string) (s : EdgeHealthSignal) (before : Prop) : Prop :=
  match s with
  | PeerLost r => x = peer_mark r \/ before
  | PeerRecovered r => x <> peer_mark r /\ before
  | SubsystemStale n => x = subsystem_mark n \/ before
  | SubsystemFresh n => x <> subsystem_mark n /\ before
  | SecondaryTransportFailing l => x = secondary_mark l \/ before
  | TransportDown | TransportRestored => before
  end.

#[export] Instance mark_after_proper x s : Proper (iff ==> iff) (mark_after x s).
Proof. intros P Q H. destruct s; cbn; by rewrite H. Qed.

Definition down_after (s : EdgeHealthSignal) (before : bool) : bool :=
  match s with TransportDown => true | TransportRestored => false | _ => before end.

Lemma apply_mark x s a : x ∈ affected (apply s a) <-> mark_after x s (x ∈ affected a).
Proof. destruct s; cbn; set_solver. Qed.

Lemma apply_down s a : transport_down (apply s a) = down_after s (transport_down a).
Proof. by destruct s. Qed.

Lemma apply_version s a : tx_version (apply s a) = tx_version a.
Proof. by destruct s. Qed.

Lemma apply_queue s a : rx_signals (apply s a) = rx_signals a.
Proof. by destruct s. Qed.

Lemma settle_from (q : list EdgeHealthSignal) : forall a b,
  affected a = affected b -> transport_down a = transport_down b ->
  affected (foldl (fun a s => apply s a) a q) = affected (foldl (fun a s => apply s a) b q) /\
  transport_down (foldl (fun a s => apply s a) a q) = transport_down (foldl (fun a s => apply s a) b q).
Proof.
  induction q as [|s q IH]; intros a b Ha Hd; [done|]. apply IH; [|by rewrite !apply_down, Hd].
  apply set_eq. intros x. by rewrite !apply_mark, Ha.
Qed.

Lemma settled_run_turn a :
  affected (settled (run_turn a)) = affected (settled a) /\
  transport_down (settled (run_turn a)) = transport_down (settled a).
Proof.
  unfold settled, run_turn. destruct (rx_signals a) as [|s q] eqn:E; [by rewrite E|].
  cbn [rx_signals]. rewrite apply_queue. cbn [rx_signals foldl]. apply settle_from.
  - apply set_eq. intros x. cbn [affected]. by rewrite !apply_mark.
  - cbn [transport_down]. by rewrite !apply_down.
Qed.

Lemma run_turn_length a : length (rx_signals (run_turn a)) = pred (length (rx_signals a)).
Proof. unfold run_turn. destruct (rx_signals a) as [|s q] eqn:E; [by rewrite E|]. by cbn; rewrite apply_queue. Qed.

Lemma run_turn_capacity a : signal_capacity (run_turn a) = signal_capacity a.
Proof. unfold run_turn. destruct (rx_signals a) as [|s q]; [done|]. by destruct s. Qed.

(** A send that is not refused acts on the marks as the signal does. *)
Lemma handle_send_kept s e : dropped (handle_send s e) = [] ->
  dropped e = [] /\ (forall x, marked x (handle_send s e) <-> mark_after x s (marked x e)) /\
  transport_down (settled (agg (handle_send s e))) = down_after s (transport_down (settled (agg e))).
Proof.
  unfold handle_send, send. destruct (_ <? _)%nat; cbn [dropped agg]; [|intros H; by apply app_nil in H as [_ ?]].
  intros Hd. split; [done|]. unfold marked, settled. cbn [agg rx_signals].
  set (a' := {| tx := _; rx_signals := _ |}).
  destruct (settle_from (rx_signals (agg e)) a' (agg e)) as [H1 H2]; [done..|].
  rewrite foldl_snoc. split; [intros x; by rewrite apply_mark, H1|by rewrite apply_down, H2].
Qed.

Lemma handle_send_monitor s e :
  last_seen (handle_send s e) = last_seen e /\ stale_set (handle_send s e) = stale_set e /\
  ticking (handle_send s e) = ticking e.
Proof. unfold handle_send. by destruct (send s (agg e)). Qed.

Lemma step_dropped names w e ev : dropped (edge_step names w e ev) = [] -> dropped e = [].
Proof.
  assert (Hs : forall s e, dropped (handle_send s e) = [] -> dropped e = [])
    by (intros s e0 H; by apply handle_send_kept in H as [??]).
  destruct ev; cbn; try done; try (by apply Hs); repeat case_match; try done; try (by apply Hs).
  unfold scan_name. repeat case_match; try done; by intros ?%Hs.
Qed.

(** *** The specification: what the events of a run say is affected *)

Definition lost_peers (evs : list EdgeEvent) : gset string :=
  foldl (fun lost ev =>
    match ev with
    | Liveliness kind key =>
        match robot_of_key key, kind with
        | Some r, Put => lost ∖ {[r]}
        | Some r, Delete => lost ∪ {[r]}
        | None, _ => lost
        end
    | _ => lost
    end) ∅ evs.

Definition failed_labels (evs : list EdgeEvent) : gset string :=
  foldl (fun failed ev => match ev with SecondaryFails l => failed ∪ {[l]} | _ => failed end) ∅ evs.

Definition transport_is_down (evs : list EdgeEvent) : bool :=
  foldl (fun down ev => match ev with TransportGoes d => d | _ => down end) false evs.

Definition last_sample (name : string) (evs : list EdgeEvent) : option Z :=
  foldl (fun seen ev =>
    match ev with Sample n now => if decide (n = name) then Some now else seen | _ => seen end) None evs.

(** The marks of a state and the trace that led to it. *)
Definition affected_of (stale : gset string) (evs : list EdgeEvent) : gset string :=
  set_map subsystem_mark stale ∪ set_map peer_mark (lost_peers evs) ∪ set_map secondary_mark (failed_labels evs).

Definition reports_of (stale : gset string) (e : Edge) (evs : list EdgeEvent) : Prop :=
  (forall x, marked x e <-> x ∈ affected_of stale evs) /\
  transport_down (settled (agg e)) = transport_is_down evs.

Definition reports (e : Edge) (evs : list EdgeEvent) : Prop := reports_of (stale_set e) e evs.

Lemma marked_with_monitor x seen stale t e : marked x (with_monitor seen stale t e) <-> marked x e.
Proof. done. Qed.

Lemma in_affected_of x stale evs : x ∈ affected_of stale evs <->
  (exists n, x = subsystem_mark n /\ n ∈ stale) \/ (exists r, x = peer_mark r /\ r ∈ lost_peers evs) \/
  (exists l, x = secondary_mark l /\ l ∈ failed_labels evs).
Proof. unfold affected_of. rewrite !elem_of_union, !elem_of_map. tauto. Qed.

Lemma subsystem_peer n r : subsystem_mark n <> peer_mark r.
Proof. done. Qed.

Lemma subsystem_secondary n l : subsystem_mark n <> secondary_mark l.
Proof. intros H. by injection H. Qed.

Lemma peer_secondary r l : peer_mark r <> secondary_mark l.
Proof. done. Qed.

(** A mark removed from one kind of marks leaves the other kinds alone. *)
Lemma mark_removed (f : string -> string) `{!Inj (=) (=) f} (x a : string) (s : gset string) (P : Prop) :
  (P -> x <> f a) ->
  (x <> f a /\ ((exists b, x = f b /\ b ∈ s) \/ P)) <-> ((exists b, x = f b /\ b ∈ s ∖ {[a]}) \/ P).
Proof.
  intros HP. split.
  - intros [Hx [(b & -> & Hb)|Hp]]; [|by right]. left. exists b. split; [done|].
    apply elem_of_difference. split; [done|]. rewrite elem_of_singleton. by intros ->.
  - intros [(b & -> & [Hb Hn]%elem_of_difference)|Hp]; [|split; [by apply HP|by right]].
    rewrite elem_of_singleton in Hn. split; [by intros ?%(inj f)|]. left. by exists b.
Qed.

Lemma mark_added (f : string -> string) (x a : string) (s : gset string) (P : Prop) :
  (x = f a \/ ((exists b, x = f b /\ b ∈ s) \/ P)) <-> ((exists b, x = f b /\ b ∈ s ∪ {[a]}) \/ P).
Proof. set_solver. Qed.

(** A signal about one kind of mark changes that set only. *)
Lemma affected_signal x s stale evs stale' evs' :
  match s with
  | PeerLost r => stale' = stale /\ lost_peers evs' = lost_peers evs ∪ {[r]} /\ failed_labels evs' = failed_labels evs
  | PeerRecovered r => stale' = stale /\ lost_peers evs' = lost_peers evs ∖ {[r]} /\ failed_labels evs' = failed_labels evs
  | SubsystemStale n => stale' = stale ∪ {[n]} /\ lost_peers evs' = lost_peers evs /\ failed_labels evs' = failed_labels evs
  | SubsystemFresh n => stale' = stale ∖ {[n]} /\ lost_peers evs' = lost_peers evs /\ failed_labels evs' = failed_labels evs
  | SecondaryTransportFailing l => stale' = stale /\ lost_peers evs' = lost_peers evs /\ failed_labels evs' = failed_labels evs ∪ {[l]}
  | TransportDown | TransportRestored =>
      stale' = stale /\ lost_peers evs' = lost_peers evs /\ failed_labels evs' = failed_labels evs
  end ->
  mark_after x s (x ∈ affected_of stale evs) <-> x ∈ affected_of stale' evs'.
Proof.
  intros Hs. rewrite !in_affected_of. set (A := fun st : gset string => exists n, x = subsystem_mark n /\ n ∈ st).
  set (B := fun st : gset string => exists r, x = peer_mark r /\ r ∈ st). set (C := fun st : gset string => exists l, x = secondary_mark l /\ l ∈ st).
  change (mark_after x s (A stale \/ B (lost_peers evs) \/ C (failed_labels evs)) <->
          A stale' \/ B (lost_peers evs') \/ C (failed_labels evs')).
  assert (swap : forall P Q R : Prop, P \/ Q \/ R <-> Q \/ P \/ R) by tauto.
  assert (last : forall P Q R : Prop, P \/ Q \/ R <-> R \/ P \/ Q) by tauto.
  destruct s; cbn [mark_after]; destruct Hs as (-> & -> & ->); [..|done|done].
  - rewrite !(swap (A _)). apply mark_added.
  - rewrite !(swap (A _)). apply (mark_removed peer_mark). intros [(n & -> & _)|(l & -> & _)]; [done|].
    intros H. by destruct (peer_secondary robot_id l).
  - apply mark_added.
  - apply (mark_removed subsystem_mark). intros [(r & -> & _)|(l & -> & _)]; [done|].
    intros H. by destruct (subsystem_secondary name l).
  - rewrite !(last (A _)). apply mark_added.
Qed.

Lemma lost_peers_snoc evs ev : lost_peers (evs ++ [ev]) =
  match ev with
  | Liveliness kind key =>
      match robot_of_key key, kind with
      | Some r, Put => lost_peers evs ∖ {[r]}
      | Some r, Delete => lost_peers evs ∪ {[r]}
      | None, _ => lost_peers evs
      end
  | _ => lost_peers evs
  end.
Proof. unfold lost_peers. by rewrite foldl_snoc. Qed.

Lemma failed_labels_snoc evs ev : failed_labels (evs ++ [ev]) =
  match ev with SecondaryFails l => failed_labels evs ∪ {[l]} | _ => failed_labels evs end.
Proof. unfold failed_labels. by rewrite foldl_snoc. Qed.

Lemma transport_is_down_snoc evs ev : transport_is_down (evs ++ [ev]) =
  match ev with TransportGoes d => d | _ => transport_is_down evs end.
Proof. unfold transport_is_down. by rewrite foldl_snoc. Qed.

(** A send that is not refused keeps what is reported in step with the specification. *)
Lemma reports_send s e stale evs evs' :
  dropped (handle_send s e) = [] -> reports_of stale e evs ->
  (forall x, mark_after x s (x ∈ affected_of stale evs) <-> x ∈ affected_of (stale_set (handle_send s e)) evs') ->
  transport_is_down evs' = down_after s (transport_is_down evs) ->
  reports (handle_send s e) evs'.
Proof.
  intros Hd [Hm Ht] Hx Hd'. apply handle_send_kept in Hd as (_ & Hm' & Ht').
  split; [|by rewrite Ht', Ht, Hd']. intros x. by rewrite Hm', <- Hx, (Hm x).
Qed.

Lemma reports_step names w e ev evs :
  dropped (edge_step names w e ev) = [] -> reports e evs -> reports (edge_step names w e ev) (evs ++ [ev]).
Proof.
  intros Hd He.
  assert (Hquiet : forall e', agg e' = agg e \/ agg e' = run_turn (agg e) -> stale_set e' = stale_set e ->
    lost_peers (evs ++ [ev]) = lost_peers evs -> failed_labels (evs ++ [ev]) = failed_labels evs ->
    transport_is_down (evs ++ [ev]) = transport_is_down evs -> reports e' (evs ++ [ev])).
  { destruct He as [Hm Ht], (settled_run_turn (agg e)) as [R1 R2].
    intros e' Ha Hs H1 H2 H3. unfold reports, reports_of, marked, affected_of in *. rewrite Hs, H1, H2, H3.
    destruct Ha as [-> | ->]; [done|]. by rewrite R1, R2. }
  destruct ev as [name now|now| |kind key|label|down| | | |]; cbn [edge_step] in *;
    try (apply Hquiet; rewrite ?lost_peers_snoc, ?failed_labels_snoc, ?transport_is_down_snoc; auto; fail).
  - destruct (ticking e); apply Hquiet; rewrite ?lost_peers_snoc, ?failed_labels_snoc, ?transport_is_down_snoc; auto.
  - destruct (ticking e) as [[[now map] [|name rest]]|];
      try (apply Hquiet; rewrite ?lost_peers_snoc, ?failed_labels_snoc, ?transport_is_down_snoc; auto; fail).
    unfold scan_name in *. cbn [stale_set last_seen ticking with_monitor] in *.
    destruct (is_stale _ _ _), (bool_decide _);
      try (apply Hquiet; rewrite ?lost_peers_snoc, ?failed_labels_snoc, ?transport_is_down_snoc; auto; fail).
    all: refine (reports_send _ _ (stale_set e) evs _ Hd He _ _); [|by rewrite transport_is_down_snoc];
      intros x; match goal with |- context [handle_send ?s ?e'] => destruct (handle_send_monitor s e') as (_ & -> & _) end;
      apply affected_signal; by rewrite lost_peers_snoc, failed_labels_snoc.
  - unfold liveliness_signal in *. destruct (robot_of_key key) as [r|] eqn:Hr; cbn [mbind option_bind] in *.
    + refine (reports_send _ _ _ evs _ Hd He _ _); [|by rewrite transport_is_down_snoc; destruct kind].
      intros x. destruct (handle_send_monitor (match kind with Put => PeerRecovered r | Delete => PeerLost r end) e) as (_ & -> & _).
      apply affected_signal. rewrite lost_peers_snoc, failed_labels_snoc, Hr. by destruct kind.
    + apply Hquiet; rewrite ?lost_peers_snoc, ?failed_labels_snoc, ?transport_is_down_snoc, ?Hr; auto.
  - refine (reports_send _ _ _ evs _ Hd He _ _); [|by rewrite transport_is_down_snoc].
    intros x. destruct (handle_send_monitor (SecondaryTransportFailing label) e) as (_ & -> & _).
    apply affected_signal. by rewrite lost_peers_snoc, failed_labels_snoc.
  - refine (reports_send _ _ _ evs _ Hd He _ _); [|by rewrite transport_is_down_snoc; destruct down].
    intros x. destruct (handle_send_monitor (if down then TransportDown else TransportRestored) e) as (_ & -> & _).
    apply affected_signal. rewrite lost_peers_snoc, failed_labels_snoc. by destruct down.
  - destruct (_ <? _)%nat; apply Hquiet; rewrite ?lost_peers_snoc, ?failed_labels_snoc, ?transport_is_down_snoc; auto.
  - destruct (_ <? _)%nat; apply Hquiet; rewrite ?lost_peers_snoc, ?failed_labels_snoc, ?transport_is_down_snoc; auto.
Qed.

Lemma reports_run names w evs : forall e evs0,
  dropped (edge_run names w e evs) = [] -> reports e evs0 -> reports (edge_run names w e evs) (evs0 ++ evs).
Proof.
  induction evs as [|ev evs IH] using rev_ind; intros e evs0 Hd He; [by rewrite app_nil_r|].
  unfold edge_run in *. rewrite foldl_snoc in *. rewrite app_assoc. apply reports_step; [done|].
  apply IH; [|done]. by eapply step_dropped.
Qed.

Lemma reports_start a capacity : new capacity = Ret a -> reports (edge_start a) [].
Proof.
  destruct capacity; cbn; [done|]. intros [= <-]. split; [|done]. intros x.
  unfold marked, affected_of. cbn. rewrite !set_map_empty. set_solver.
Qed.

(** *** What is sent to the watchers *)

Lemma tx_current_step names w e ev :
  tx (agg e) = recompute (agg e) -> tx (agg (edge_step names w e ev)) = recompute (agg (edge_step names w e ev)).
Proof.
  assert (Hs : forall s e, tx (agg e) = recompute (agg e) -> tx (agg (handle_send s e)) = recompute (agg (handle_send s e))).
  { intros s e0 H. unfold handle_send, send. by destruct (_ <? _)%nat. }
  assert (Hr : forall a, tx a = recompute a -> tx (run_turn a) = recompute (run_turn a)).
  { intros a H. unfold run_turn. by destruct (rx_signals a). }
  intros He. destruct ev; cbn; auto; repeat case_match; auto.
  unfold scan_name. repeat case_match; auto; by apply Hs.
Qed.

Lemma tx_current names w evs : forall e,
  tx (agg e) = recompute (agg e) -> tx (agg (edge_run names w e evs)) = recompute (agg (edge_run names w e evs)).
Proof. induction evs as [|ev evs IH]; intros e He; [done|]. apply IH. by apply tx_current_step. Qed.

(** *** Ticks of the freshness monitor *)

Definition is_tick_name (ev : EdgeEvent) : bool := match ev with TickName => true | _ => false end.

Lemma step_monitor names w e ev : is_tick_name ev = false ->
  stale_set (edge_step names w e ev) = stale_set e /\
  (is_Some (ticking e) -> ticking (edge_step names w e ev) = ticking e).
Proof.
  destruct ev; cbn; try done; intros _; repeat case_match; try done;
    match goal with |- context [handle_send ?s ?e'] => by destruct (handle_send_monitor s e') as (_ & -> & ->) | _ => idtac end.
Qed.

Lemma run_monitor names w evs : forall e,
  Forall (fun ev => is_tick_name ev = false) evs -> stale_set (edge_run names w e evs) = stale_set e.
Proof.
  induction evs as [|ev evs IH]; intros e Hq; [done|]. apply Forall_cons in Hq as [H1 H2].
  cbn. fold (edge_run names w). rewrite IH by done. by apply step_monitor.
Qed.

Lemma scan_name_exact w now map name e n :
  n ∈ stale_set (scan_name w now map name e) <->
  if decide (n = name) then is_stale w now (map !! name) = true else n ∈ stale_set e.
Proof.
  unfold scan_name. destruct (is_stale _ _ _); destruct (bool_decide (name ∈ stale_set e)) eqn:Hb;
    [apply bool_decide_eq_true in Hb|apply bool_decide_eq_false in Hb
    |apply bool_decide_eq_true in Hb|apply bool_decide_eq_false in Hb];
    try match goal with |- context [handle_send ?s ?e'] => destruct (handle_send_monitor s e') as (_ & -> & _) end;
    cbn [stale_set with_monitor]; case_decide; subst; set_solver.
Qed.

Lemma scan_name_ticking w now map name e : ticking (scan_name w now map name e) = ticking e.
Proof.
  unfold scan_name. repeat case_match; try done;
    match goal with |- context [handle_send ?s ?e'] => by destruct (handle_send_monitor s e') as (_ & _ & ->) end.
Qed.

(** A tick decides every name it has left by its own copy of the map, whatever else happens. *)
Lemma tick_exact names w now map evs : forall rest e,
  ticking e = names_left now map rest -> length (List.filter is_tick_name evs) = length rest ->
  forall n, n ∈ stale_set (edge_run names w e evs) <->
    if decide (n ∈ rest) then is_stale w now (map !! n) = true else n ∈ stale_set e.
Proof.
  induction evs as [|ev evs IH]; intros rest e Ht Hl n; [destruct rest; [|done]; cbn; by rewrite decide_False by set_solver|].
  cbn. fold (edge_run names w). destruct rest as [|name rest].
  - rewrite decide_False by set_solver.
    assert (Hq : Forall (fun ev => is_tick_name ev = false) (ev :: evs)).
    { apply Forall_forall. intros x Hx. destruct (is_tick_name x) eqn:E; [|done].
      assert (Hin : In x (List.filter is_tick_name (ev :: evs))) by (apply List.filter_In; split; [by apply list_elem_of_In|done]).
      apply length_zero_iff_nil in Hl. by rewrite Hl in Hin. }
    apply Forall_cons in Hq as [H1 H2]. rewrite run_monitor by done.
    by destruct (step_monitor names w e ev) as [-> _].
  - destruct (is_tick_name ev) eqn:Eev.
    + destruct ev; try done. cbn in Hl. cbn [edge_step]. rewrite Ht. cbn [names_left].
      set (e1 := scan_name _ _ _ _ _).
      rewrite (IH rest e1); [|unfold e1; by rewrite scan_name_ticking|cbn in Hl; lia].
      pose proof (scan_name_exact w now map name (with_monitor (last_seen e) (stale_set e) (names_left now map rest) e) n) as Hs.
      fold e1 in Hs. cbn [stale_set with_monitor] in Hs. repeat case_decide; subst; set_solver.
    + destruct (step_monitor names w e ev) as [H1 H2]; [done|].
      rewrite (IH (name :: rest)), H1; [done| |by cbn in Hl; rewrite Eev in Hl].
      rewrite H2; [done|]. rewrite Ht. by eexists.
Qed.

Lemma last_seen_step names w e ev n :
  last_seen (edge_step names w e ev) !! n =
  match ev with Sample m now => if decide (m = n) then Some now else last_seen e !! n | _ => last_seen e !! n end.
Proof.
  assert (Hs : forall s e, last_seen (handle_send s e) = last_seen e) by (intros; apply handle_send_monitor).
  destruct ev as [m now| | | | | | | | |]; cbn; rewrite ?Hs; repeat case_match; rewrite ?Hs; try done.
  - subst. by rewrite lookup_insert_eq.
  - by rewrite lookup_insert_ne.
  - unfold scan_name. repeat case_match; by rewrite ?Hs.
Qed.

Lemma last_sample_seen names w evs n a :
  last_seen (edge_run names w (edge_start a) evs) !! n = last_sample n evs.
Proof.
  induction evs as [|ev evs IH] using rev_ind; [done|].
  unfold edge_run, last_sample in *. rewrite !foldl_snoc, last_seen_step, IH.
  by destruct ev; try done; case_decide.
Qed.

(** ** What the health says *)

(** C25: a silent subsystem is reported.  Take any interleaving of samples, ticks, liveliness
    changes, failing secondary transports, transport changes, aggregation and publishing that
    reaches the state before a tick of the freshness monitor at [now], and any interleaving
    in which that tick looks at every name.  If the signal channel dropped nothing and the
    aggregator has caught up, then a subsystem is among the affected names exactly if it was
    never sampled or its last sample before the tick is older than the window; a peer exactly
    if its last liveliness change was a loss; a secondary transport exactly if it ever failed;
    the transport is down exactly if the last change said so; and the health that watchers
    read is [Disconnected], [Healthy] or the sorted affected names accordingly. *)
Theorem silent_subsystems_reported (names : list string) (w : Z) (capacity : nat) (a : EdgeHealthAggregator)
    (evs1 evs2 : list EdgeEvent) (now : Z) :
  new capacity = Ret a ->
  ticking (edge_run names w (edge_start a) evs1) = None ->
  length (List.filter is_tick_name evs2) = length names ->
  let evs := (evs1 ++ TickStart now :: evs2)%list in
  let e := edge_run names w (edge_start a) evs in
  dropped e = [] -> rx_signals (agg e) = [] ->
  (forall n, n ∈ names ->
     subsystem_mark n ∈ affected (agg e) <->
     match last_sample n evs1 with None => True | Some t => (w < Z.max 0 (now - t))%Z end) /\
  (forall r, peer_mark r ∈ affected (agg e) <-> r ∈ lost_peers evs) /\
  (forall l, secondary_mark l ∈ affected (agg e) <-> l ∈ failed_labels evs) /\
  transport_down (agg e) = transport_is_down evs /\
  tx (agg e) =
    if transport_down (agg e) then Disconnected
    else if decide (affected (agg e) = ∅) then Healthy
    else EdgeDegraded (sorted_set (affected (agg e))).
Proof.
  intros Hnew Htick Hlen evs e Hd Hq.
  destruct (reports_run names w evs (edge_start a) [] Hd (reports_start a capacity Hnew)) as [Hm Ht].
  fold e in Hm, Ht. cbn [app] in Hm, Ht.
  assert (Hs : settled (agg e) = agg e) by (unfold settled; by rewrite Hq).
  unfold marked in Hm. rewrite Hs in Hm, Ht.
  split_and!; [| | |done|].
  - intros n Hn. rewrite Hm, in_affected_of.
    assert (Hst : n ∈ stale_set e <-> is_stale w now (last_sample n evs1) = true).
    { set (e0 := edge_run names w (edge_start a) evs1) in *.
      set (e1 := edge_step names w e0 (TickStart now)).
      assert (Ee : e = edge_run names w e1 evs2) by (unfold e, edge_run, evs; by rewrite foldl_app).
      rewrite Ee, (tick_exact names w now (last_seen e0) evs2 names e1); [|unfold e1; cbn; by rewrite Htick|done].
      rewrite decide_True by done. unfold e0. by rewrite last_sample_seen. }
    transitivity (n ∈ stale_set e).
    + split; [|intros ?; left; by exists n].
      intros [(m & ->%(inj _) & ?)|[(r & Hr & _)|(l & Hl & _)]]; [done|by destruct (subsystem_peer n r)|by destruct (subsystem_secondary n l)].
    + rewrite Hst. unfold is_stale. destruct (last_sample n evs1); [by rewrite Z.ltb_lt|done].
  - intros r. rewrite Hm, in_affected_of. split; [|intros ?; right; left; by exists r].
    intros [(m & Hr & _)|[(r' & ->%(inj _) & ?)|(l & Hl & _)]]; [by destruct (subsystem_peer m r)|done|by destruct (peer_secondary r l)].
  - intros l. rewrite Hm, in_affected_of. split; [|intros ?; right; right; by exists l].
    intros [(m & Hr & _)|[(r & Hr & _)|(l' & ->%(inj _) & ?)]]; [by destruct (subsystem_secondary m l)|by destruct (peer_secondary r l)|done].
  - unfold e. rewrite tx_current; [done|]. destruct capacity; [done|]. by injection Hnew as <-.
Qed.

(** *** Room in the channel *)

Definition may_send (ev : EdgeEvent) : bool :=
  match ev with TickName | Liveliness _ _ | SecondaryFails _ | TransportGoes _ => true | _ => false end.

Lemma handle_send_room s e : (length (rx_signals (agg e)) < signal_capacity (agg e))%nat ->
  dropped (handle_send s e) = dropped e /\ signal_capacity (agg (handle_send s e)) = signal_capacity (agg e) /\
  length (rx_signals (agg (handle_send s e))) = S (length (rx_signals (agg e))).
Proof.
  intros H. unfold handle_send, send. rewrite (proj2 (Nat.ltb_lt _ _) H). cbn. by rewrite length_app, Nat.add_1_r.
Qed.

Lemma step_room names w e ev :
  (length (rx_signals (agg e)) + (if may_send ev then 1 else 0) <= signal_capacity (agg e))%nat ->
  dropped (edge_step names w e ev) = dropped e /\
  signal_capacity (agg (edge_step names w e ev)) = signal_capacity (agg e) /\
  (length (rx_signals (agg (edge_step names w e ev))) <= length (rx_signals (agg e)) + (if may_send ev then 1 else 0))%nat.
Proof.
  assert (Hs : forall s e0, agg e0 = agg e -> dropped e0 = dropped e ->
    (length (rx_signals (agg e)) + 1 <= signal_capacity (agg e))%nat ->
    dropped (handle_send s e0) = dropped e /\ signal_capacity (agg (handle_send s e0)) = signal_capacity (agg e) /\
    (length (rx_signals (agg (handle_send s e0))) <= length (rx_signals (agg e)) + 1)%nat).
  { intros s e0 Ha Hd Hc. destruct (handle_send_room s e0) as (H1 & H2 & H3); [rewrite Ha; lia|].
    rewrite H1, H2, H3, Ha. split_and!; [done|done|lia]. }
  destruct ev; cbn -[Nat.add]; intros Hc; repeat case_match; cbn -[Nat.add]; auto; try (split_and!; (done || lia)).
  - unfold scan_name. repeat case_match; try (by apply Hs); cbn; split_and!; (done || lia).
  - rewrite run_turn_capacity, run_turn_length. split_and!; (done || lia).
Qed.

(** While the queued signals and the events that may send fit the capacity, nothing is dropped:
    four subsystems never fill the worker's channel of 64 on their own. *)
Theorem nothing_dropped_with_room (names : list string) (w : Z) (evs : list EdgeEvent) : forall e : Edge,
  (length (rx_signals (agg e)) + length (List.filter may_send evs) <= signal_capacity (agg e))%nat ->
  dropped (edge_run names w e evs) = dropped e.
Proof.
  induction evs as [|ev evs IH]; intros e Hc; [done|]. cbn in *. fold (edge_run names w).
  destruct (step_room names w e ev) as (H1 & H2 & H3); [destruct (may_send ev); cbn in Hc; lia|].
  rewrite IH, H1; [done|]. rewrite H2. destruct (may_send ev); cbn in Hc; lia.
Qed.

(** *** Signals that are lost *)

Lemma handle_send_mark x s e :
  (marked x (handle_send s e) <-> mark_after x s (marked x e)) \/ (marked x (handle_send s e) <-> marked x e).
Proof.
  unfold handle_send, send. destruct (_ <? _)%nat; [left|by right]. unfold marked, settled. cbn [agg rx_signals].
  set (a' := {| tx := _; rx_signals := _ |}).
  destruct (settle_from (rx_signals (agg e)) a' (agg e)) as [H1 _]; [done..|].
  by rewrite foldl_snoc, apply_mark, H1.
Qed.

(** Only a recovery of the very name takes its mark away. *)
Lemma mark_stays names w e ev n :
  n ∉ stale_set e -> marked (subsystem_mark n) e -> marked (subsystem_mark n) (edge_step names w e ev).
Proof.
  intros Hn Hm.
  assert (Hs : forall s e0, agg e0 = agg e -> s <> SubsystemFresh n -> marked (subsystem_mark n) (handle_send s e0)).
  { intros s e0 Ha Hs. assert (H0 : marked (subsystem_mark n) e0) by (unfold marked; by rewrite Ha).
    destruct (handle_send_mark (subsystem_mark n) s e0) as [->| ->]; [|done].
    destruct s; cbn; try (by right); try done; split; try done. intros ->%(inj _). done. }
  destruct ev; cbn; repeat case_match; try done; try (by apply Hs).
  - unfold scan_name. repeat case_match; try done; try (by apply Hs).
    apply Hs; [done|]. intros [= ->].
    match goal with H : bool_decide _ = true |- _ => apply bool_decide_eq_true in H; done end.
  - apply Hs; [done|]. unfold liveliness_signal in *. destruct (robot_of_key key), kind; naive_solver.
  - unfold marked. cbn [agg with_agg]. by rewrite (proj1 (settled_run_turn (agg e))).
Qed.

(** A recovery that the full channel dropped is not sent again: while the subsystem stays fresh,
    over any number of ticks, it stays among the affected. *)
Theorem dropped_recovery_is_for_good (names : list string) (w : Z) (n : string) (evs : list EdgeEvent) : forall e : Edge,
  marked (subsystem_mark n) e ->
  (forall k, n ∉ stale_set (edge_run names w e (take k evs))) ->
  marked (subsystem_mark n) (edge_run names w e evs).
Proof.
  induction evs as [|ev evs IH]; intros e Hm Hn; [done|]. cbn. fold (edge_run names w). apply IH.
  - apply mark_stays; [apply (Hn 0%nat)|done].
  - intros k. apply (Hn (S k)).
Qed.

(** No signal takes the mark of a secondary transport away: once it failed, the health is never
    [Healthy] again. *)
Theorem secondary_never_recovers (names : list string) (w : Z) (l : string) (evs : list EdgeEvent) : forall e : Edge,
  marked (secondary_mark l) e -> marked (secondary_mark l) (edge_run names w e evs).
Proof.
  induction evs as [|ev evs IH]; intros e Hm; [done|]. cbn. fold (edge_run names w). apply IH.
  assert (Hs : forall s e0, agg e0 = agg e -> marked (secondary_mark l) (handle_send s e0)).
  { intros s e0 Ha. assert (H0 : marked (secondary_mark l) e0) by (unfold marked; by rewrite Ha).
    destruct (handle_send_mark (secondary_mark l) s e0) as [->| ->]; [|done].
    destruct s as [r|r|m|m|l'| |]; cbn; try (by right); try done; by split. }
  destruct ev; cbn; repeat case_match; try done; try (by apply Hs).
  - unfold scan_name. repeat case_match; try done; by apply Hs.
  - unfold marked. cbn [agg with_agg]. by rewrite (proj1 (settled_run_turn (agg e))).
Qed.

(** *** The watcher of transitions *)

Fixpoint changes_from (h : EdgeTransportHealth) (l : list EdgeTransportHealth) : Prop :=
  match l with [] => True | h' :: l => h <> h' /\ changes_from h' l end.

Lemma changes_from_snoc h l h' :
  changes_from h (l ++ [h']) <-> changes_from h l /\ default h (last l) <> h'.
Proof.
  revert h. induction l as [|x l IH]; intros h; [cbn; tauto|].
  cbn [app changes_from]. rewrite IH. destruct l as [|y l]; [cbn; tauto|]. change (last (x :: y :: l)) with (last (y :: l)).
  destruct (last (y :: l)) eqn:E; [cbn; tauto|]. by apply last_None in E.
Qed.

Lemma handle_send_watch s e :
  watcher_seen (handle_send s e) = watcher_seen e /\ watcher_last (handle_send s e) = watcher_last e /\
  emitted (handle_send s e) = emitted e /\ tx (agg (handle_send s e)) = tx (agg e) /\
  tx_version (agg (handle_send s e)) = tx_version (agg e).
Proof. unfold handle_send, send. by destruct (_ <? _)%nat. Qed.

Definition watched (e : Edge) : Prop :=
  changes_from Healthy (emitted e) /\ default Healthy (last (emitted e)) = watcher_last e /\
  (watcher_seen e <= tx_version (agg e))%nat /\
  (watcher_seen e = tx_version (agg e) -> watcher_last e = tx (agg e)).

Lemma watched_same e e' :
  watcher_seen e' = watcher_seen e -> watcher_last e' = watcher_last e -> emitted e' = emitted e ->
  tx (agg e') = tx (agg e) -> tx_version (agg e') = tx_version (agg e) -> watched e -> watched e'.
Proof. unfold watched. intros -> -> -> -> ->. done. Qed.

Lemma watched_step names w e ev : watched e -> watched (edge_step names w e ev).
Proof.
  intros He.
  assert (Hs : forall s e0, watched e0 -> watched (handle_send s e0)).
  { intros s e0. destruct (handle_send_watch s e0) as (? & ? & ? & ? & ?). by apply watched_same. }
  destruct ev; cbn; repeat case_match; auto; try (by apply (watched_same e)).
  - unfold scan_name. repeat case_match; try apply Hs; by apply (watched_same e).
  - destruct He as (H1 & H2 & H3 & H4). unfold run_turn. cbn.
    destruct (rx_signals (agg e)) eqn:E; [done|]; cbn; unfold watched; cbn.
    rewrite apply_version. cbn. split_and!; [done|done|lia|intros ?; exfalso; lia].
  - destruct He as (H1 & H2 & H3 & H4). unfold watch_transition, watched. cbn.
    case_decide as Hd; [by rewrite Hd in *|]. rewrite changes_from_snoc, last_snoc, H2. cbn.
    split_and!; done || lia || (by intros <-).
Qed.

(** The transitions the watcher announces start from [Healthy], differ from one to the next, and
    end in the current health whenever the watcher has caught up. *)
Theorem transitions_announced (names : list string) (w : Z) (capacity : nat) (a : EdgeHealthAggregator)
    (evs : list EdgeEvent) :
  new capacity = Ret a ->
  let e := edge_run names w (edge_start a) evs in
  changes_from Healthy (emitted e) /\
  (watcher_seen e = tx_version (agg e) -> default Healthy (last (emitted e)) = tx (agg e)).
Proof.
  intros Ha e.
  assert (H0 : watched (edge_start a)) by (destruct capacity; [done|]; injection Ha as <-; done).
  assert (H : watched e).
  { unfold e. clear e. revert H0. generalize (edge_start a). induction evs as [|ev evs IH]; intros e He; [done|].
    apply IH. by apply watched_step. }
  destruct H as (H1 & H2 & _ & H4). split; [done|]. intros Hv. rewrite H2. by apply H4.
Qed.

(** *** Runs *)

Definition seconds (n : Z) : Z := (n * 1000000000)%Z.

(** The worker's channel: a sample, a departure in the middle of a tick, everything drained. *)
Definition sample_aggregator : EdgeHealthAggregator :=
  {| tx := Healthy; tx_version := 0; rx_signals := []; signal_capacity := 64; affected := ∅; transport_down := false |}.

Definition before_tick : list EdgeEvent :=
  [Sample "telemetry_summary" (seconds 0); Sample "controller_evidence" (seconds 14)].

Definition during_tick : list EdgeEvent :=
  [TickName; Liveliness Delete "roz/peers/arm-2"; TickName; Aggregate; TickName; TickName;
   Aggregate; Aggregate; Aggregate; WatcherTurn; HeartbeatTick].

Lemma silent_subsystems_reported_witness :
  let e := edge_run worker_subsystems SUBSYSTEM_FRESHNESS (edge_start sample_aggregator)
             (before_tick ++ TickStart (seconds 16) :: during_tick) in
  dropped e = [] /\ rx_signals (agg e) = [] /\
  subsystem_mark "telemetry_summary" ∈ affected (agg e) /\
  subsystem_mark "controller_evidence" ∉ affected (agg e) /\
  peer_mark "arm-2" ∈ affected (agg e).
Proof.
  assert (Hd : dropped (edge_run worker_subsystems SUBSYSTEM_FRESHNESS (edge_start sample_aggregator)
             (before_tick ++ TickStart (seconds 16) :: during_tick)) = []) by (vm_compute; reflexivity).
  assert (Hq : rx_signals (agg (edge_run worker_subsystems SUBSYSTEM_FRESHNESS (edge_start sample_aggregator)
             (before_tick ++ TickStart (seconds 16) :: during_tick))) = []) by (vm_compute; reflexivity).
  destruct (silent_subsystems_reported worker_subsystems SUBSYSTEM_FRESHNESS 64 sample_aggregator before_tick during_tick
              (seconds 16) eq_refl ltac:(vm_compute; reflexivity) ltac:(vm_compute; reflexivity) Hd Hq)
    as (Hn & Hp & _).
  split; [exact Hd|]. split; [exact Hq|]. split; [|split].
  - apply Hn; [repeat constructor|]. vm_compute. reflexivity.
  - intros H. apply Hn in H; [|repeat constructor]. vm_compute in H. discriminate H.
  - apply Hp. apply (bool_decide_unpack _). vm_compute. exact I.
Defined.

Example worker_reports :
  let e := edge_run worker_subsystems SUBSYSTEM_FRESHNESS (edge_start sample_aggregator)
             (before_tick ++ TickStart (seconds 16) :: during_tick) in
  published e = [EdgeDegraded ["peer:arm-2"; "subsystem:perception_availability"; "subsystem:safety_interventions";
                               "subsystem:telemetry_summary"]] /\ emitted e = published e.
Proof. by vm_compute. Qed.

(** A channel of one place: the peer's departure is queued when the subsystem recovers, and the
    recovery is dropped.  Later ticks see the subsystem fresh and say nothing. *)
Example recovery_dropped :
  let a := {| tx := Healthy; tx_version := 0; rx_signals := []; signal_capacity := 1; affected := ∅; transport_down := false |} in
  let e := edge_run ["telemetry_summary"] SUBSYSTEM_FRESHNESS (edge_start a)
             [TickStart (seconds 0); TickName; Aggregate; Sample "telemetry_summary" (seconds 1);
              Liveliness Delete "roz/peers/arm-2"; TickStart (seconds 2); TickName; Aggregate;
              Liveliness Put "roz/peers/arm-2"; Aggregate; TickStart (seconds 4); TickName; Aggregate;
              TickStart (seconds 6); TickName; Aggregate; HeartbeatTick] in
  dropped e = [SubsystemFresh "telemetry_summary"] /\ stale_set e = ∅ /\
  published e = [EdgeDegraded ["subsystem:telemetry_summary"]].
Proof. by vm_compute. Qed.

(** The watch channel keeps the last value: a peer lost and found between two turns of the
    watcher is not announced. *)
Example short_loss_unannounced :
  emitted (edge_run [] SUBSYSTEM_FRESHNESS (edge_start sample_aggregator)
    [Liveliness Delete "roz/peers/arm-2"; Aggregate; Liveliness Put "roz/peers/arm-2"; Aggregate; WatcherTurn]) = [].
Proof. by vm_compute. Qed.
