(* ===== verification/PeerKeys.v ===== *)
(** * Peer keys and signed session events

    roz-zenoh/envelope.rs (the peer key cache, signing and verifying envelopes, loading the
    signing key) and session.rs (the transport: identity bootstrap, liveliness, publishing and
    the verified subscription).  Ed25519, the hexadecimal, base64 and JSON codecs are a class
    with their documented laws; what peers send is given.  The cache is shared between two
    tasks and its maps have a lock each, so an operation is two steps. *)

From Stdlib Require Import Ascii.
From S2P Require Import Prelude RustStr Subjects.
#[local] Open Scope string_scope.

Abbreviation bytes := (list Byte.byte).

(** ** The data of envelope.rs *)

Record SignedSessionEnvelope : Type := {
  signer_pubkey_hex : string;
  envelope_bytes : bytes;
  signature_hex : string;
}.

Record PeerAnnouncement : Type := {
  pa_robot_id : string;
  pa_device_id : string;
  verifying_key_hex : string;
  announced_at : Z;
}.

(** The parts of roz-core's [EventEnvelope] the transport reads. *)
Record EventEnvelope (SessionEvent : Type) : Type := {
  event_id : string;
  correlation_id : string;
  parent_event_id : option string;
  ev_timestamp : Z;
  event : SessionEvent;
}.
Arguments event_id {_} _.
Arguments correlation_id {_} _.
Arguments parent_event_id {_} _.
Arguments ev_timestamp {_} _.
Arguments event {_} _.

(** ** The libraries *)

Class EnvelopeLib := {
  SigningKey : Type;
  VerifyingKey : Type;
  SessionEvent : Type;
  hex_encode : bytes -> string;
  hex_decode : string -> option bytes;
  base64_decode : string -> option bytes;
  from_utf8 : bytes -> option string;
  signing_key_from_bytes : bytes -> SigningKey;
  verifying_key : SigningKey -> VerifyingKey;
  vk_from_bytes : bytes -> option VerifyingKey;
  vk_to_bytes : VerifyingKey -> bytes;
  ed_sign : SigningKey -> bytes -> bytes;
  ed_verify : VerifyingKey -> bytes -> bytes -> bool;
  envelope_to_vec : EventEnvelope SessionEvent -> option bytes;
  envelope_from_slice : bytes -> option (EventEnvelope SessionEvent);
  signed_to_vec : SignedSessionEnvelope -> option bytes;
  signed_from_slice : bytes -> option SignedSessionEnvelope;
  announcement_from_slice : bytes -> option PeerAnnouncement;
}.

(** Keys have 32 bytes and signatures 64; what is encoded decodes; a signature verifies. *)
Class EnvelopeLaws `{EnvelopeLib} : Prop := {
  hex_decode_encode b : hex_decode (hex_encode b) = Some b;
  sign_length sk m : length (ed_sign sk m) = 64%nat;
  verify_sign sk m : ed_verify (verifying_key sk) m (ed_sign sk m) = true;
  envelope_round e b : envelope_to_vec e = Some b -> envelope_from_slice b = Some e;
  signed_round s b : signed_to_vec s = Some b -> signed_from_slice b = Some s;
}.

Section Envelope.
Context `{Lib : EnvelopeLib}.

Inductive EnvelopeError : Type :=
| VerifierRejects
| PubkeyHexDecode | PubkeyLength | PubkeyParse
| UnknownPeer (hex : string)
| SignatureHexDecode | SignatureLength | VerificationFailed | EnvelopeDecode
| EnvelopeEncode
| SeedBase64 | SeedLength (len : nat) | SeedRead | SeedUtf8 | SeedFileBase64 | SeedFileLength (len : nat).

(** ** The cache *)

Record PeerKeyCache : Type := {
  inner : gmap string VerifyingKey;
  robot_to_hex : gmap string string;
}.

Definition empty_cache : PeerKeyCache := {| inner := ∅; robot_to_hex := ∅ |}.

Definition set_inner (f : gmap string VerifyingKey -> gmap string VerifyingKey) (self : PeerKeyCache) : PeerKeyCache :=
  {| inner := f (inner self); robot_to_hex := robot_to_hex self |}.

Definition set_robots (f : gmap string string -> gmap string string) (self : PeerKeyCache) : PeerKeyCache :=
  {| inner := inner self; robot_to_hex := f (robot_to_hex self) |}.

Definition AcceptAnyVerifier : PeerAnnouncement -> bool := fun _ => true.

Definition exactly (n : nat) (b : bytes) : bool := (length b =? n)%nat.

(** The checks of [insert_from_announcement] before it writes. *)
Definition announced_key (verifier : PeerAnnouncement -> bool) (announcement : PeerAnnouncement) :
    result VerifyingKey EnvelopeError :=
  if negb (verifier announcement) then Err VerifierRejects
  else match hex_decode (verifying_key_hex announcement) with
  | None => Err PubkeyHexDecode
  | Some vk_bytes =>
      if negb (exactly 32 vk_bytes) then Err PubkeyLength
      else match vk_from_bytes vk_bytes with None => Err PubkeyParse | Some vk => Ok vk end
  end.

Definition insert (pubkey_hex : string) (key : VerifyingKey) : PeerKeyCache -> PeerKeyCache :=
  set_inner <[pubkey_hex := key]>.

Definition insert_from_announcement (verifier : PeerAnnouncement -> bool) (announcement : PeerAnnouncement)
    (self : PeerKeyCache) : result () EnvelopeError * PeerKeyCache :=
  match announced_key verifier announcement with
  | Err e => (Err e, self)
  | Ok vk =>
      (Ok (), set_robots <[pa_robot_id announcement := verifying_key_hex announcement]>
                (insert (verifying_key_hex announcement) vk self))
  end.

Definition get (pubkey_hex : string) (self : PeerKeyCache) : option VerifyingKey := inner self !! pubkey_hex.

Definition evict (pubkey_hex : string) (self : PeerKeyCache) : option VerifyingKey * PeerKeyCache :=
  (inner self !! pubkey_hex, set_inner (base.delete pubkey_hex) self).

Definition evict_by_robot_id (robot_id : string) (self : PeerKeyCache) : option VerifyingKey * PeerKeyCache :=
  match robot_to_hex self !! robot_id with
  | None => (None, self)
  | Some hex => evict hex (set_robots (base.delete robot_id) self)
  end.

(** ** Keys and envelopes *)

(** [read_file] is what [fs::read] finds at a path. *)
Definition load_signing_key (read_file : string -> option bytes) (value : string) : result SigningKey EnvelopeError :=
  match strip_prefix "base64:" value with
  | Some rest =>
      match base64_decode (trim rest) with
      | None => Err SeedBase64
      | Some b => if exactly 32 b then Ok (signing_key_from_bytes b) else Err (SeedLength (length b))
      end
  | None =>
      match read_file value with
      | None => Err SeedRead
      | Some content =>
          if exactly 32 content then Ok (signing_key_from_bytes content)
          else match from_utf8 content with
          | None => Err SeedUtf8
          | Some text =>
              match base64_decode (trim text) with
              | None => Err SeedFileBase64
              | Some b => if exactly 32 b then Ok (signing_key_from_bytes b) else Err (SeedFileLength (length b))
              end
          end
      end
  end.

Definition device_id_of (key : VerifyingKey) : string := hex_encode (take 8 (vk_to_bytes key)).

Definition key_hex (key : VerifyingKey) : string := hex_encode (vk_to_bytes key).

Definition sign_envelope (signing_key : SigningKey) (envelope : EventEnvelope SessionEvent) :
    result SignedSessionEnvelope EnvelopeError :=
  match envelope_to_vec envelope with
  | None => Err EnvelopeEncode
  | Some b =>
      Ok {| signer_pubkey_hex := key_hex (verifying_key signing_key); envelope_bytes := b;
            signature_hex := hex_encode (ed_sign signing_key b) |}
  end.

Definition verify_envelope (cache : PeerKeyCache) (signed : SignedSessionEnvelope) :
    result (EventEnvelope SessionEvent) EnvelopeError :=
  match get (signer_pubkey_hex signed) cache with
  | None => Err (UnknownPeer (signer_pubkey_hex signed))
  | Some key =>
      match hex_decode (signature_hex signed) with
      | None => Err SignatureHexDecode
      | Some sig =>
          if negb (exactly 64 sig) then Err SignatureLength
          else if negb (ed_verify key (envelope_bytes signed) sig) then Err VerificationFailed
          else match envelope_from_slice (envelope_bytes signed) with None => Err EnvelopeDecode | Some e => Ok e end
      end
  end.

(** ** The transport *)

Definition session_key (team_id session_id : string) : string := "roz/sessions/" +:+ team_id +:+ "/" +:+ session_id.

Definition envelope_routing (envelope : EventEnvelope SessionEvent) : string * string :=
  ("default", correlation_id envelope).

(** What [publish_event_envelope] puts, and where. *)
Definition publish_event_envelope (signing_key : SigningKey) (envelope : EventEnvelope SessionEvent) :
    result (string * bytes) EnvelopeError :=
  let '(team_id, session_id) := envelope_routing envelope in
  match sign_envelope signing_key envelope with
  | Err e => Err e
  | Ok signed =>
      match signed_to_vec signed with None => Err EnvelopeEncode | Some payload => Ok (session_key team_id session_id, payload) end
  end.

(** The announcement the identity queryable of [open] answers with. *)
Definition own_announcement (signing_key : SigningKey) (robot_id : string) (now : Z) : PeerAnnouncement :=
  {| pa_robot_id := robot_id; pa_device_id := device_id_of (verifying_key signing_key);
     verifying_key_hex := key_hex (verifying_key signing_key); announced_at := now |}.

(** The two tasks that write the cache, and what is left of an operation a task is in: the
    second write of an insertion or of an eviction. *)
Inductive CacheTask : Type := Bootstrap | LivelinessSub.

#[local] Instance CacheTask_eq_dec : EqDecision CacheTask.
Proof. solve_decision. Defined.

Inductive TaskState : Type := Idle | Inserting (robot_id hex : string) | Evicting (hex : string).

Record Transport : Type := {
  peer_keys : PeerKeyCache;
  bootstrap : TaskState;
  sub_task : TaskState;
  rx : list (EventEnvelope SessionEvent);
}.

Definition task_state (t : CacheTask) (s : Transport) : TaskState :=
  match t with Bootstrap => bootstrap s | LivelinessSub => sub_task s end.

Definition with_task (t : CacheTask) (st : TaskState) (keys : PeerKeyCache) (s : Transport) : Transport :=
  match t with
  | Bootstrap => {| peer_keys := keys; bootstrap := st; sub_task := sub_task s; rx := rx s |}
  | LivelinessSub => {| peer_keys := keys; bootstrap := bootstrap s; sub_task := st; rx := rx s |}
  end.

(** The robot a liveliness key names. *)
Definition peer_robot_id (key : string) : option string :=
  match strip_prefix "roz/peers/" key with
  | Some id => if contains_char "/"%char id then None else Some id
  | None => None
  end.

Inductive TransportEvent : Type :=
| IdentityReply (t : CacheTask) (payload : bytes)
| PeerGone (key : string)
| SecondWrite (t : CacheTask)
| OwnKey
| SessionSample (payload : bytes).

Context (verifier : PeerAnnouncement -> bool) (signing_key : SigningKey).

Definition transport_step (s : Transport) (ev : TransportEvent) : Transport :=
  match ev with
  | IdentityReply t payload =>
      match task_state t s, announcement_from_slice payload with
      | Idle, Some a =>
          match announced_key verifier a with
          | Ok vk => with_task t (Inserting (pa_robot_id a) (verifying_key_hex a)) (insert (verifying_key_hex a) vk (peer_keys s)) s
          | Err _ => s
          end
      | _, _ => s
      end
  | PeerGone key =>
      match sub_task s, peer_robot_id key with
      | Idle, Some robot_id =>
          match robot_to_hex (peer_keys s) !! robot_id with
          | Some hex => with_task LivelinessSub (Evicting hex) (set_robots (base.delete robot_id) (peer_keys s)) s
          | None => s
          end
      | _, _ => s
      end
  | SecondWrite t =>
      match task_state t s with
      | Idle => s
      | Inserting robot_id hex => with_task t Idle (set_robots <[robot_id := hex]> (peer_keys s)) s
      | Evicting hex => with_task t Idle (set_inner (base.delete hex) (peer_keys s)) s
      end
  | OwnKey =>
      {| peer_keys := insert (key_hex (verifying_key signing_key)) (verifying_key signing_key) (peer_keys s);
         bootstrap := bootstrap s; sub_task := sub_task s; rx := rx s |}
  | SessionSample payload =>
      match signed_from_slice payload with
      | None => s
      | Some signed =>
          match verify_envelope (peer_keys s) signed with
          | Ok e => {| peer_keys := peer_keys s; bootstrap := bootstrap s; sub_task := sub_task s; rx := (rx s ++ [e])%list |}
          | Err _ => s
          end
      end
  end.

Definition transport_open : Transport :=
  {| peer_keys := empty_cache; bootstrap := Idle; sub_task := Idle; rx := [] |}.

Definition transport_run (evs : list TransportEvent) : Transport := foldl transport_step transport_open evs.

(** ** What the cache knows *)

(** The payload is an announcement that the verifier accepts and whose key field is the name
    [hex], the hexadecimal form of 32 bytes that are the key [vk]. *)
Definition announces (payload : bytes) (hex : string) (vk : VerifyingKey) : Prop :=
  exists a b, announcement_from_slice payload = Some a /\ verifier a = true /\ verifying_key_hex a = hex /\
    hex_decode hex = Some b /\ length b = 32%nat /\ vk_from_bytes b = Some vk.

Lemma announced_key_ok a vk : announced_key verifier a = Ok vk <->
  exists b, verifier a = true /\ hex_decode (verifying_key_hex a) = Some b /\ length b = 32%nat /\ vk_from_bytes b = Some vk.
Proof.
  unfold announced_key, exactly. destruct (verifier a); cbn; [|naive_solver].
  destruct (hex_decode _) as [b|]; [|naive_solver].
  destruct (length b =? 32)%nat eqn:E; cbn; [apply Nat.eqb_eq in E|apply Nat.eqb_neq in E; naive_solver].
  destruct (vk_from_bytes b) eqn:Ev; naive_solver.
Qed.

Lemma announces_intro payload a vk : announcement_from_slice payload = Some a -> announced_key verifier a = Ok vk ->
  announces payload (verifying_key_hex a) vk.
Proof. intros Ha (b & ? & ? & ? & ?)%announced_key_ok. by exists a, b. Qed.

(** A key the events so far made known: the transport's own, or one a peer announced. *)
Definition known (evs : list TransportEvent) (hex : string) (vk : VerifyingKey) : Prop :=
  (OwnKey ∈ evs /\ hex = key_hex (verifying_key signing_key) /\ vk = verifying_key signing_key) \/
  (exists t payload, IdentityReply t payload ∈ evs /\ announces payload hex vk).

Lemma known_app evs evs' hex vk : known evs hex vk -> known (evs ++ evs') hex vk.
Proof.
  intros [(? & ? & ?)|(t & p & ? & ?)]; [left|right; exists t, p]; rewrite elem_of_app; auto.
Qed.

Lemma known_step s evs ev :
  (forall hex vk, inner (peer_keys s) !! hex = Some vk -> known evs hex vk) ->
  forall hex vk, inner (peer_keys (transport_step s ev)) !! hex = Some vk -> known (evs ++ [ev]) hex vk.
Proof.
  intros H hex vk.
  assert (Hw : forall t st k s', inner (peer_keys (with_task t st k s')) = inner k) by (by intros []).
  destruct ev as [t p|key|t| |p]; cbn; repeat case_match; cbn; rewrite ?Hw; cbn;
    try (intros Hk; by apply known_app, H).
  - rewrite lookup_insert_Some. intros [[<- <-]|[_ Hk]]; [|by apply known_app, H].
    right. exists t, p. rewrite elem_of_app, list_elem_of_singleton. split; [by right|]. by apply announces_intro.
  - rewrite lookup_delete_Some. intros [_ Hk]. by apply known_app, H.
  - rewrite lookup_insert_Some. intros [[<- <-]|[_ Hk]]; [|by apply known_app, H].
    left. rewrite elem_of_app, list_elem_of_singleton. auto.
Qed.

Lemma transport_run_snoc evs ev : transport_run (evs ++ [ev]) = transport_step (transport_run evs) ev.
Proof. unfold transport_run. by rewrite foldl_snoc. Qed.

Lemma cache_known evs hex vk : inner (peer_keys (transport_run evs)) !! hex = Some vk -> known evs hex vk.
Proof.
  revert hex vk. induction evs as [|ev evs IH] using rev_ind; [done|].
  rewrite transport_run_snoc. by apply known_step.
Qed.

Lemma verify_envelope_ok cache signed e : verify_envelope cache signed = Ok e <->
  exists vk sig, inner cache !! signer_pubkey_hex signed = Some vk /\ hex_decode (signature_hex signed) = Some sig /\
    length sig = 64%nat /\ ed_verify vk (envelope_bytes signed) sig = true /\
    envelope_from_slice (envelope_bytes signed) = Some e.
Proof.
  unfold verify_envelope, get, exactly.
  destruct (inner cache !! _) as [vk|]; [|by split; [|intros (? & ? & ? & _)]].
  destruct (hex_decode _) as [sig|]; [|by split; [|intros (? & ? & _ & ? & _)]].
  transitivity (length sig = 64%nat /\ ed_verify vk (envelope_bytes signed) sig = true /\
                envelope_from_slice (envelope_bytes signed) = Some e).
  2: { split; [by exists vk, sig|]. by intros (? & ? & [= <-] & [= <-] & ?). }
  destruct (length sig =? 64)%nat eqn:E1; cbn; [apply Nat.eqb_eq in E1|apply Nat.eqb_neq in E1; by split; [|intros (? & _)]].
  destruct (ed_verify _ _ _); cbn; [|by split; [|intros (_ & ? & _)]].
  destruct (envelope_from_slice _); split; [by intros [= ->]|by intros (_ & _ & [= ->])|done|by intros (_ & _ & ?)].
Qed.

(** C26: no trust on first use.  Whatever the peers send and in whatever order the two tasks
    write the cache, every event the subscription passes on came in a sample whose signature
    verified, over the very bytes decoded, under a key the cache already knew then: the
    transport's own, or the 32 bytes an earlier announcement, which the verifier accepted,
    gave as its key in exactly that hexadecimal form. *)
Theorem only_known_keys_accepted (evs : list TransportEvent) (e : EventEnvelope SessionEvent) :
  e ∈ rx (transport_run evs) ->
  exists evs1 payload evs2 signed vk sig,
    evs = (evs1 ++ SessionSample payload :: evs2)%list /\ signed_from_slice payload = Some signed /\
    known evs1 (signer_pubkey_hex signed) vk /\
    hex_decode (signature_hex signed) = Some sig /\ length sig = 64%nat /\
    ed_verify vk (envelope_bytes signed) sig = true /\ envelope_from_slice (envelope_bytes signed) = Some e.
Proof.
  induction evs as [|ev evs IH] using rev_ind; [by intros ?%not_elem_of_nil|].
  rewrite transport_run_snoc. intros He.
  assert (Hold : e ∈ rx (transport_run evs) -> exists evs1 payload evs2 signed vk sig,
    (evs ++ [ev] = evs1 ++ SessionSample payload :: evs2)%list /\ signed_from_slice payload = Some signed /\
    known evs1 (signer_pubkey_hex signed) vk /\
    hex_decode (signature_hex signed) = Some sig /\ length sig = 64%nat /\
    ed_verify vk (envelope_bytes signed) sig = true /\ envelope_from_slice (envelope_bytes signed) = Some e).
  { intros (evs1 & p & evs2 & signed & vk & sig & -> & H)%IH.
    exists evs1, p, (evs2 ++ [ev])%list, signed, vk, sig. split; [by rewrite <- app_assoc|done]. }
  assert (Hw : forall t st k s', rx (with_task t st k s') = rx s') by (by intros []).
  destruct ev as [t p|key|t| |p]; cbn in He; repeat case_match; rewrite ?Hw in He; cbn in He; auto.
  apply elem_of_app in He as [He|He]; [by apply Hold|].
  apply list_elem_of_singleton in He as ->.
  match goal with H : verify_envelope _ ?sg = Ok _ |- _ => apply verify_envelope_ok in H as (vk & sig & Hk & H) end.
  exists evs, p, [], s, vk, sig. split_and!; try done; try naive_solver. by apply cache_known.
Qed.

(** ** Departures *)

(** In these announcements robot [r] and key [k] go together. *)
Definition own_pair (evs : list TransportEvent) (r k : string) : Prop :=
  forall t payload a vk, IdentityReply t payload ∈ evs -> announcement_from_slice payload = Some a ->
    announced_key verifier a = Ok vk -> (pa_robot_id a = r <-> verifying_key_hex a = k).

Definition quiet (s : Transport) : Prop := bootstrap s = Idle /\ sub_task s = Idle.

(** The entry of [k], if there is one, is reachable from [r], or will be when a task has
    finished its insertion, or is about to go. *)
Definition paired (r k : string) (s : Transport) : Prop :=
  (is_Some (inner (peer_keys s) !! k) ->
     robot_to_hex (peer_keys s) !! r = Some k \/ (exists t, task_state t s = Inserting r k) \/ sub_task s = Evicting k) /\
  (forall r' h, robot_to_hex (peer_keys s) !! r' = Some h -> (r' = r <-> h = k)) /\
  (forall t r' h, task_state t s = Inserting r' h -> (r' = r <-> h = k)) /\
  (forall h, bootstrap s <> Evicting h).

Lemma paired_reply r k t payload s :
  paired r k s -> own_pair [IdentityReply t payload] r k -> paired r k (transport_step s (IdentityReply t payload)).
Proof.
  intros (H1 & H2 & H3 & H4) Ho. cbn [transport_step].
  destruct (task_state t s) eqn:Et; [|done..]. destruct (announcement_from_slice payload) as [a|] eqn:Ea; [|done].
  destruct (announced_key verifier a) as [vk|] eqn:Ek; [|done].
  assert (Hp : pa_robot_id a = r <-> verifying_key_hex a = k) by (by eapply Ho; [left| |]).
  unfold paired. split_and!.
  - intros Hk. destruct (decide (verifying_key_hex a = k)) as [Ehex|Hne].
    + right. left. exists t. rewrite Ehex. rewrite (proj2 Hp Ehex). by destruct t.
    + assert (Hold : is_Some (inner (peer_keys s) !! k)).
      { destruct t; cbn in Hk; by rewrite lookup_insert_ne in Hk. }
      destruct (H1 Hold) as [?|[[t' Ht']|?]]; [left; by destruct t| |].
      * right. left. exists t'. destruct t, t'; cbn in *; congruence.
      * right. right. destruct t; cbn in *; congruence.
  - intros r' h. destruct t; cbn; apply H2.
  - intros t' r' h. destruct t, t'; cbn; try (by intros [= <- <-]); [apply (H3 LivelinessSub)|apply (H3 Bootstrap)].
  - intros h. destruct t; cbn; [done|apply H4].
Qed.

Lemma paired_gone r k key s : paired r k s -> paired r k (transport_step s (PeerGone key)).
Proof.
  intros (H1 & H2 & H3 & H4). cbn [transport_step].
  destruct (sub_task s) eqn:Es; [|by unfold paired; rewrite ?Es..].
  destruct (peer_robot_id key) as [g|]; [|by unfold paired; rewrite Es].
  destruct (robot_to_hex (peer_keys s) !! g) as [hex|] eqn:Eg; [|by unfold paired; rewrite Es].
  unfold paired. cbn. split_and!; [| | |done].
  - intros Hk. destruct (H1 Hk) as [Hr|[[[] Ht]|?]]; [| | |done].
    + destruct (decide (g = r)) as [->|]; [right; right; rewrite Eg in Hr; by injection Hr as ->|].
      left. by rewrite lookup_delete_ne.
    + right. left. by exists Bootstrap.
    + cbn in Ht. congruence.
  - intros r' h. rewrite lookup_delete_Some. intros [_ ?]. by apply H2.
  - intros t' r' h. destruct t'; cbn; [apply (H3 Bootstrap)|done].
Qed.

Lemma paired_second r k t s : paired r k s -> paired r k (transport_step s (SecondWrite t)).
Proof.
  intros (H1 & H2 & H3 & H4). cbn [transport_step].
  destruct (task_state t s) as [|r0 h0|h0] eqn:Et; [done| |].
  - pose proof (H3 t r0 h0 Et) as Hp. unfold paired. split_and!.
    + intros Hk. assert (Hold : is_Some (inner (peer_keys s) !! k)) by (by destruct t).
      destruct (decide (r0 = r)) as [->|Hne].
      { left. rewrite (proj1 Hp eq_refl). destruct t; cbn; by rewrite lookup_insert_eq. }
      destruct (H1 Hold) as [?|[[t' Ht']|?]].
      * left. destruct t; cbn; by rewrite lookup_insert_ne.
      * right. left. exists t'. destruct t, t'; cbn in *; congruence.
      * right. right. destruct t; cbn in *; congruence.
    + intros r' h. assert (E : robot_to_hex (peer_keys (with_task t Idle (set_robots <[r0:=h0]> (peer_keys s)) s)) =
        <[r0:=h0]> (robot_to_hex (peer_keys s))) by (by destruct t). rewrite E, lookup_insert_Some.
      intros [[<- <-]|[_ ?]]; [done|by apply H2].
    + intros t' r' h. destruct t, t'; cbn; try done; [apply (H3 LivelinessSub)|apply (H3 Bootstrap)].
    + intros h. destruct t; cbn; [done|apply H4].
  - destruct t; [by destruct (H4 h0)|]. cbn in Et. unfold paired. cbn. split_and!; [| | |done].
    + rewrite lookup_delete_is_Some. intros [Hne Hk]. destruct (H1 Hk) as [?|[[[] Ht]|?]]; cbn in *.
      * by left.
      * right. left. by exists Bootstrap.
      * congruence.
      * congruence.
    + done.
    + intros t' r' h. destruct t'; cbn; [apply (H3 Bootstrap)|done].
Qed.

Lemma paired_run r k evs : own_pair evs r k -> key_hex (verifying_key signing_key) <> k -> paired r k (transport_run evs).
Proof.
  intros Ho Hk. induction evs as [|ev evs IH] using rev_ind.
  { unfold paired. cbn. rewrite !lookup_empty. split_and!; [by intros [? ?]|intros ? ?; by rewrite lookup_empty|by intros []|done]. }
  rewrite transport_run_snoc.
  assert (IH' : paired r k (transport_run evs)).
  { apply IH. intros t p a vk Hin. apply (Ho t p a vk). rewrite elem_of_app. by left. }
  clear IH. destruct ev as [t p|key|t| |p].
  - apply paired_reply; [done|]. intros t' p' a vk Hin. apply (Ho t' p' a vk). rewrite elem_of_app. by right.
  - by apply paired_gone.
  - by apply paired_second.
  - destruct IH' as (H1 & H2 & H3 & H4). unfold paired. cbn. rewrite lookup_insert_ne by done.
    split_and!; [exact H1|exact H2|intros t; apply (H3 t)|exact H4].
  - cbn. repeat case_match; try done.
Qed.

(** No announcement of [k]: its entry does not come back. *)
Lemma absent_stays k evs : forall s, key_hex (verifying_key signing_key) <> k ->
  Forall (fun ev => match ev with IdentityReply _ p => forall vk, ~ announces p k vk | _ => True end) evs ->
  inner (peer_keys s) !! k = None -> inner (peer_keys (foldl transport_step s evs)) !! k = None.
Proof.
  induction evs as [|ev evs IH]; intros s Hk Hq Hs; [done|]. apply Forall_cons in Hq as [H1 H2].
  cbn [foldl]. apply IH; [done|done|].
  assert (Hw : forall t st c s', inner (peer_keys (with_task t st c s')) = inner c) by (by intros []).
  destruct ev as [t p|key|t| |p]; cbn; repeat case_match; cbn; rewrite ?Hw; cbn; try done.
  - rewrite lookup_insert_ne; [done|]. intros <-. eapply H1. by apply announces_intro.
  - rewrite lookup_delete_None. by right.
  - by rewrite lookup_insert_ne.
Qed.

(** a departed peer is no longer believed.  Suppose that in all announcements robot [r]
    and key [k] go together, that [k] is not the transport's own key, and that no operation of
    either task is half done when [r]'s token goes.  Then, whatever the tasks did before and in
    whatever interleaving, once the eviction is done every envelope that names [k] is refused as
    of an unknown peer, and stays so until [k] is announced again. *)
Theorem departed_peer_rejected (evs1 evs2 : list TransportEvent) (key r k : string) (signed : SignedSessionEnvelope) :
  own_pair evs1 r k -> key_hex (verifying_key signing_key) <> k ->
  quiet (transport_run evs1) -> peer_robot_id key = Some r ->
  Forall (fun ev => match ev with IdentityReply _ p => forall vk, ~ announces p k vk | _ => True end) evs2 ->
  signer_pubkey_hex signed = k ->
  verify_envelope (peer_keys (transport_run (evs1 ++ PeerGone key :: SecondWrite LivelinessSub :: evs2))) signed =
  Err (UnknownPeer k).
Proof.
  intros Ho Hk [Qb Qs] Hr Hq Hs.
  assert (Hgone : inner (peer_keys (foldl transport_step (transport_run evs1) [PeerGone key; SecondWrite LivelinessSub])) !! k = None).
  { destruct (paired_run r k evs1 Ho Hk) as (H1 & H2 & _). cbn [foldl].
    cbn [transport_step]. rewrite Qs, Hr. destruct (robot_to_hex (peer_keys (transport_run evs1)) !! r) as [h|] eqn:Eh.
    - assert (h = k) as -> by (by apply (H2 r h)). cbn. by rewrite lookup_delete_eq.
    - cbn. rewrite Qs. destruct (inner (peer_keys (transport_run evs1)) !! k) eqn:Ek; [|done].
      destruct H1 as [?|[[[] Ht]|?]]; [done|congruence|cbn in Ht; congruence|cbn in Ht; congruence|congruence]. }
  unfold verify_envelope, get. rewrite Hs. unfold transport_run. rewrite foldl_app. fold (transport_run evs1).
  change (PeerGone key :: SecondWrite LivelinessSub :: evs2)%list with ([PeerGone key; SecondWrite LivelinessSub] ++ evs2)%list.
  rewrite foldl_app, absent_stays; done.
Qed.

(** ** Publishing and receiving *)

(** an event published by one transport is received as it was by every transport that
    knows the publisher's key: signing, encoding, decoding and verifying give the same
    envelope back, on the topic of the session its correlation id names. *)
Theorem publish_receive_roundtrip `{!EnvelopeLaws} (publisher : SigningKey) (e : EventEnvelope SessionEvent)
    (topic : string) (payload : bytes) (s : Transport) :
  publish_event_envelope publisher e = Ok (topic, payload) ->
  inner (peer_keys s) !! key_hex (verifying_key publisher) = Some (verifying_key publisher) ->
  topic = session_key "default" (correlation_id e) /\
  rx (transport_step s (SessionSample payload)) = (rx s ++ [e])%list /\
  peer_keys (transport_step s (SessionSample payload)) = peer_keys s.
Proof.
  unfold publish_event_envelope, envelope_routing, sign_envelope. intros Hp Hk.
  destruct (envelope_to_vec e) as [b|] eqn:Eb; [|done].
  destruct (signed_to_vec _) as [p|] eqn:Ep in Hp; [|done]. injection Hp as <- <-.
  split; [done|]. cbn [transport_step]. rewrite (signed_round _ _ Ep).
  rewrite (proj2 (verify_envelope_ok _ _ e)); [done|].
  exists (verifying_key publisher), (ed_sign publisher b). cbn.
  split_and!; [done|apply hex_decode_encode|apply sign_length|apply verify_sign|by apply envelope_round].
Qed.

(** The seed of a key is found in each of the three forms the variable may have. *)
Lemma load_signing_key_base64 read_file text seed :
  base64_decode (trim text) = Some seed -> length seed = 32%nat ->
  load_signing_key read_file ("base64:" +:+ text) = Ok (signing_key_from_bytes seed).
Proof. intros Hd Hl. unfold load_signing_key. rewrite strip_prefix_app, Hd. unfold exactly. by rewrite Hl. Qed.

Lemma load_signing_key_file read_file path content :
  strip_prefix "base64:" path = None -> read_file path = Some content ->
  forall key, load_signing_key read_file path = Ok key <->
    exists seed, key = signing_key_from_bytes seed /\ length seed = 32%nat /\
      (content = seed \/ length content <> 32%nat /\ exists text, from_utf8 content = Some text /\ base64_decode (trim text) = Some seed).
Proof.
  intros Hp Hr key. unfold load_signing_key. rewrite Hp, Hr. unfold exactly.
  destruct (length content =? 32)%nat eqn:E; [apply Nat.eqb_eq in E|apply Nat.eqb_neq in E].
  - split; [intros [= <-]; exists content; auto|]. by intros (seed & -> & _ & [-> |[? _]]).
  - destruct (from_utf8 content) as [text|] eqn:Et; [|split; [done|intros (? & _ & ? & [->|(_ & ? & ? & _)]); done]].
    destruct (base64_decode (trim text)) as [seed|] eqn:Es.
    + destruct (length seed =? 32)%nat eqn:E2; [apply Nat.eqb_eq in E2|apply Nat.eqb_neq in E2].
      * split; [intros [= <-]; exists seed; split_and!; [done|done|right; split; [done|by exists text]]|].
        intros (seed' & -> & ? & [->|(_ & text' & [= <-] & Hs)]); [done|]. rewrite Es in Hs. by injection Hs as ->.
      * split; [done|]. intros (seed' & -> & ? & [->|(_ & text' & [= <-] & Hs)]); [done|]. rewrite Es in Hs. injection Hs as ->. done.
    + split; [done|]. intros (seed' & -> & ? & [->|(_ & text' & [= <-] & Hs)]); [done|]. by rewrite Es in Hs.
Qed.

End Envelope.

(** ** A library for the examples

    Keys and signatures are bytes, a key signs with itself and the message, hexadecimal is
    the plain string of the bytes; the codecs know the payloads of the examples only. *)

Definition pad (n : nat) (b : bytes) : bytes := take n (b ++ repeat Byte.x00 n)%list.
Definition toy_sign (sk m : bytes) : bytes := pad 64 (sk ++ m)%list.
Definition alice : bytes := repeat Byte.x61 32.
Definition mallory : bytes := repeat Byte.x6d 32.
Definition renewed : bytes := repeat Byte.x6e 32.
Definition own_key : bytes := repeat Byte.x6f 32.

Definition toy_envelope : EventEnvelope () :=
  {| event_id := "e1"; correlation_id := "s1"; parent_event_id := None; ev_timestamp := 0; event := () |}.

Definition toy_signed : SignedSessionEnvelope :=
  {| signer_pubkey_hex := String.string_of_list_byte alice; envelope_bytes := [Byte.x01];
     signature_hex := String.string_of_list_byte (toy_sign alice [Byte.x01]) |}.

Definition toy_announcement (robot_id : string) (key : bytes) : PeerAnnouncement :=
  {| pa_robot_id := robot_id; pa_device_id := "d"; verifying_key_hex := String.string_of_list_byte key; announced_at := 0 |}.

Definition alice_reply : bytes := [Byte.x02].
Definition mallory_reply : bytes := [Byte.x03].
Definition renewed_reply : bytes := [Byte.x04].
Definition usurped_reply : bytes := [Byte.x05].
Definition toy_payload : bytes := [Byte.x06].

#[local] Instance byte_eq_dec : EqDecision Byte.byte := Byte.byte_eq_dec.

#[local] Instance signed_eq_dec : EqDecision SignedSessionEnvelope.
Proof. solve_decision. Defined.

#[local] Instance envelope_eq_dec : EqDecision (EventEnvelope ()).
Proof. solve_decision. Defined.

Definition toy_announcements (b : bytes) : option PeerAnnouncement :=
  if decide (b = alice_reply) then Some (toy_announcement "alice" alice)
  else if decide (b = mallory_reply) then Some (toy_announcement "mallory" mallory)
  else if decide (b = renewed_reply) then Some (toy_announcement "alice" renewed)
  else if decide (b = usurped_reply) then Some (toy_announcement "mallory" alice)
  else None.

#[local] Instance toy_lib : EnvelopeLib := {|
  SigningKey := bytes; VerifyingKey := bytes; SessionEvent := ();
  hex_encode := String.string_of_list_byte;
  hex_decode s := Some (String.list_byte_of_string s);
  base64_decode s := Some (String.list_byte_of_string s);
  from_utf8 b := Some (String.string_of_list_byte b);
  signing_key_from_bytes b := b;
  verifying_key b := b;
  vk_from_bytes b := Some b;
  vk_to_bytes b := b;
  ed_sign := toy_sign;
  ed_verify vk m sig := bool_decide (sig = toy_sign vk m);
  envelope_to_vec e := if decide (e = toy_envelope) then Some [Byte.x01] else None;
  envelope_from_slice b := if decide (b = [Byte.x01]) then Some toy_envelope else None;
  signed_to_vec s := if decide (s = toy_signed) then Some toy_payload else None;
  signed_from_slice b := if decide (b = toy_payload) then Some toy_signed else None;
  announcement_from_slice := toy_announcements |}.

#[local] Instance toy_laws : EnvelopeLaws.
Proof.
  split.
  - intros b. exact (f_equal Some (String.list_byte_of_string_of_list_byte b)).
  - intros sk m. cbn. unfold toy_sign, pad. rewrite length_take, length_app, repeat_length. lia.
  - intros sk m. cbn. by apply bool_decide_eq_true.
  - intros e b. cbn. case_decide as He; [|done]. intros [= <-]. by subst.
  - intros s b. cbn. case_decide as He; [|done]. intros [= <-]. by subst.
Qed.

#[local] Notation open_run := (transport_run (Lib:=toy_lib) AcceptAnyVerifier own_key).
#[local] Notation alice_hex := (String.string_of_list_byte alice).

Lemma only_known_keys_accepted_witness :
  let evs := [OwnKey; IdentityReply Bootstrap alice_reply; SessionSample toy_payload; SecondWrite Bootstrap] in
  toy_envelope ∈ rx (open_run evs) /\
  exists evs1 payload evs2 signed vk sig,
    evs = (evs1 ++ SessionSample payload :: evs2)%list /\ signed_from_slice payload = Some signed /\
    known (Lib:=toy_lib) AcceptAnyVerifier own_key evs1 (signer_pubkey_hex signed) vk /\
    hex_decode (signature_hex signed) = Some sig /\ length sig = 64%nat /\
    ed_verify vk (envelope_bytes signed) sig = true /\ envelope_from_slice (envelope_bytes signed) = Some toy_envelope.
Proof.
  assert (H : toy_envelope ∈ rx (open_run [OwnKey; IdentityReply Bootstrap alice_reply; SessionSample toy_payload; SecondWrite Bootstrap])).
  { vm_compute. left. }
  split; [exact H|]. exact (only_known_keys_accepted (Lib:=toy_lib) AcceptAnyVerifier own_key _ toy_envelope H).
Defined.

Lemma publish_receive_roundtrip_witness :
  let s := open_run [IdentityReply LivelinessSub alice_reply] in
  publish_event_envelope (Lib:=toy_lib) alice toy_envelope = Ok ("roz/sessions/default/s1", toy_payload) /\
  rx (transport_step (Lib:=toy_lib) AcceptAnyVerifier own_key s (SessionSample toy_payload)) = [toy_envelope].
Proof.
  split; [vm_compute; reflexivity|].
  destruct (publish_receive_roundtrip (Lib:=toy_lib) AcceptAnyVerifier own_key alice toy_envelope "roz/sessions/default/s1" toy_payload
    (open_run [IdentityReply LivelinessSub alice_reply])) as (_ & H & _); [vm_compute; reflexivity..|exact H].
Defined.

Lemma departed_peer_rejected_witness :
  let evs := [OwnKey; IdentityReply Bootstrap alice_reply; IdentityReply LivelinessSub mallory_reply; SecondWrite Bootstrap;
              SecondWrite LivelinessSub; SessionSample toy_payload] in
  rx (open_run evs) = [toy_envelope] /\
  verify_envelope (Lib:=toy_lib) (peer_keys (open_run (evs ++ [PeerGone "roz/peers/alice"; SecondWrite LivelinessSub;
                                               IdentityReply Bootstrap mallory_reply]))) toy_signed = Err (UnknownPeer alice_hex).
Proof.
  split; [vm_compute; reflexivity|].
  apply (departed_peer_rejected (Lib:=toy_lib) AcceptAnyVerifier own_key
    [OwnKey; IdentityReply Bootstrap alice_reply; IdentityReply LivelinessSub mallory_reply; SecondWrite Bootstrap;
     SecondWrite LivelinessSub; SessionSample toy_payload] [IdentityReply Bootstrap mallory_reply] "roz/peers/alice" "alice" alice_hex).
  - intros t payload a vk Hin Ha _.
    assert (Hp : payload = alice_reply \/ payload = mallory_reply).
    { repeat (apply elem_of_cons in Hin as [Hin|Hin]; [try discriminate Hin; injection Hin; intros; subst; auto|]).
      by apply not_elem_of_nil in Hin. }
    destruct Hp as [-> | ->]; vm_compute in Ha; injection Ha as <-; split; intros H; try reflexivity; vm_compute in H; discriminate H.
  - intros H. vm_compute in H. discriminate H.
  - split; vm_compute; reflexivity.
  - vm_compute. reflexivity.
  - repeat constructor. intros vk (a & b & Ha & _ & Hh & _). vm_compute in Ha. injection Ha as <-. vm_compute in Hh. discriminate Hh.
  - reflexivity.
Defined.

(** A robot that comes back with a new key without having been seen to leave: the old key is
    accepted for good, as its name is no longer on the robot's entry. *)
Example renewed_key_leaves_the_old :
  let s := open_run [IdentityReply LivelinessSub alice_reply; SecondWrite LivelinessSub;
                     IdentityReply LivelinessSub renewed_reply; SecondWrite LivelinessSub;
                     PeerGone "roz/peers/alice"; SecondWrite LivelinessSub; SessionSample toy_payload] in
  rx s = [toy_envelope].
Proof. by vm_compute. Qed.

(** A peer that announces another's key and leaves takes the other's key with it. *)
Example usurper_evicts :
  let s := open_run [IdentityReply LivelinessSub alice_reply; SecondWrite LivelinessSub;
                     IdentityReply LivelinessSub usurped_reply; SecondWrite LivelinessSub;
                     PeerGone "roz/peers/mallory"; SecondWrite LivelinessSub; SessionSample toy_payload] in
  rx s = [] /\ robot_to_hex (peer_keys s) = {["alice" := alice_hex]}.
Proof. by vm_compute. Qed.

(** A departure between the two writes of the bootstrap task finds no entry to evict: the key
    of the departed robot stays. *)
Example departure_between_the_writes :
  rx (open_run [IdentityReply Bootstrap alice_reply; PeerGone "roz/peers/alice"; SecondWrite Bootstrap; SessionSample toy_payload])
  = [toy_envelope].
Proof. by vm_compute. Qed.

(** The same sample again is passed on again. *)
Example replayed_sample_accepted :
  rx (open_run [IdentityReply Bootstrap alice_reply; SessionSample toy_payload; SessionSample toy_payload])
  = [toy_envelope; toy_envelope].
Proof. by vm_compute. Qed.
