(* ===== verification/Coordination.v ===== *)
(** * Coordination of robots and the edge state bus

    roz-zenoh/topics.rs, edge_state_bus.rs (the runner that declares one publisher for each
    topic and one fan-out task for each subscribed topic), pubsub.rs (the fan-out of decoded
    samples) and coordination.rs (poses and barriers, whose members are liveliness tokens).
    What Zenoh answers, and the order in which it delivers, is given. *)

From Stdlib Require Import Ascii.
From stdpp Require Import sorting.
From S2P Require Import Prelude Float64 RustStr Json Deployment Embodiment Subjects.
From S2P Require Import FrameTree EdgeHealth.
#[local] Open Scope string_scope.

(** ** topics.rs *)

Record TopicDef : Type := { suffix : string; description : string }.

Definition TELEMETRY_SUMMARY : TopicDef := {| suffix := "telemetry/summary"; description := "Periodic telemetry rollups" |}.
Definition CONTROLLER_EVIDENCE : TopicDef := {| suffix := "controller/evidence"; description := "Controller evidence summaries" |}.
Definition SAFETY_INTERVENTIONS : TopicDef :=
  {| suffix := "safety/interventions"; description := "Safety filter intervention summaries" |}.
Definition PERCEPTION_AVAILABILITY : TopicDef :=
  {| suffix := "perception/availability"; description := "Camera/sensor online status" |}.
Definition TRANSPORT_HEALTH : TopicDef := {| suffix := "transport/health"; description := "EdgeTransportHealth heartbeat" |}.
Definition COORDINATION_POSE : TopicDef :=
  {| suffix := "coordination/pose"; description := "Robot pose broadcasts (DEPRECATED: use ZenohCoordinator)" |}.
Definition COORDINATION_BARRIER : TopicDef :=
  {| suffix := "coordination/barrier"; description := "Synchronization barriers (DEPRECATED: use ZenohCoordinator)" |}.

(** ** edge_state_bus.rs *)

Definition DEFAULT_BROADCAST_CAPACITY : Z := 64.

Definition ALL_TOPICS : list TopicDef :=
  [TELEMETRY_SUMMARY; CONTROLLER_EVIDENCE; SAFETY_INTERVENTIONS; PERCEPTION_AVAILABILITY; TRANSPORT_HEALTH].

Definition topic_key (robot_id : string) (topic : TopicDef) : string := "roz/" +:+ robot_id +:+ "/" +:+ suffix topic.

Inductive BusError : Type :=
| DeclarePublisher (key : string)
| DeclareSubscriber (key : string)
| EncodeFailed (topic : string)
| PublisherMissing (topic : string)
| PublishFailed (topic : string)
| TypeMismatch (topic : string).

(** The publishers by suffix; the fan-out senders by suffix, each with the type it decodes and
    the key it subscribed.  [fanouts] is every fan-out task spawned so far. *)
Record EdgeStateBusRunner : Type := {
  bus_robot_id : string;
  publishers : gmap string string;
  subscriber_senders : gmap string string;
  fanouts : list (string * string);
}.

(** The loop of [start]; [declare] is Zenoh's answer for a key. *)
Fixpoint declare_publishers (declare : string -> bool) (robot_id : string) (topics : list TopicDef)
    (publishers : gmap string string) : result (gmap string string) BusError :=
  match topics with
  | [] => Ok publishers
  | topic :: topics =>
      let key := topic_key robot_id topic in
      if declare key then declare_publishers declare robot_id topics (<[suffix topic := key]> publishers)
      else Err (DeclarePublisher key)
  end.

Definition start (declare : string -> bool) (robot_id : string) : result EdgeStateBusRunner BusError :=
  match declare_publishers declare robot_id ALL_TOPICS ∅ with
  | Err e => Err e
  | Ok publishers => Ok {| bus_robot_id := robot_id; publishers := publishers; subscriber_senders := ∅; fanouts := [] |}
  end.

(** [publish]: the key and the bytes put. *)
Definition publish {B : Type} (self : EdgeStateBusRunner) (topic : TopicDef) (encoded : option B) (put_ok : bool) :
    result (string * B) BusError :=
  match encoded with
  | None => Err (EncodeFailed (suffix topic))
  | Some b =>
      match publishers self !! suffix topic with
      | None => Err (PublisherMissing (suffix topic))
      | Some key => if put_ok then Ok (key, b) else Err (PublishFailed (suffix topic))
      end
  end.

Definition sub_key (topic : TopicDef) : string := "roz/*/" +:+ suffix topic.

(** [subscribe::<T>], which holds the lock of the senders throughout; [type_id] stands for [T]. *)
Definition subscribe (declare : string -> bool) (topic : TopicDef) (type_id : string) (self : EdgeStateBusRunner) :
    result () BusError * EdgeStateBusRunner :=
  match subscriber_senders self !! suffix topic with
  | Some t => (if decide (t = type_id) then Ok () else Err (TypeMismatch (suffix topic)), self)
  | None =>
      if declare (sub_key topic) then
        (Ok (), {| bus_robot_id := bus_robot_id self; publishers := publishers self;
                   subscriber_senders := <[suffix topic := type_id]> (subscriber_senders self);
                   fanouts := (fanouts self ++ [(suffix topic, type_id)])%list |})
      else (Err (DeclareSubscriber (sub_key topic)), self)
  end.

(** ** pubsub.rs *)

(** The fan-out task: what it broadcasts for the samples it receives. *)
Definition topic_fanout {B T : Type} (decode : B -> option T) (samples : list B) : list T := omap decode samples.

(** ** coordination.rs *)

Record RobotPose : Type := {
  pose_robot_id : string;
  position : f64 * f64 * f64;
  orientation : f64 * f64 * f64 * f64;
  pose_timestamp_ns : Z;
}.

Definition pose_key (robot_id : string) : string := "roz/coordination/pose/" +:+ robot_id.
Definition barrier_key (barrier_name : string) : string := "roz/coordination/barrier/" +:+ barrier_name.

(** [publish_pose] puts on the key of the robot the pose names. *)
Definition publish_pose {B : Type} (to_vec : RobotPose -> option B) (pose : RobotPose) : option (string * B) :=
  b ← to_vec pose; Some (pose_key (pose_robot_id pose), b).

Definition subscribe_poses {B : Type} (decode : B -> option RobotPose) (samples : list B) : list RobotPose :=
  topic_fanout decode samples.

(** The token of a member. *)
Definition join_key (name robot_id : string) : string := "roz/coordination/barrier/" +:+ name +:+ "/" +:+ robot_id.

Definition extract_robot_id (key barrier_name : string) : option string :=
  match strip_prefix ("roz/coordination/barrier/" +:+ barrier_name +:+ "/") key with
  | Some rest => if bool_decide (rest = "") || contains_char "/"%char rest then None else Some rest
  | None => None
  end.

(** The seed of [observe_barrier]: a reply is the key of a token, or an error. *)
Definition seed_participants (name : string) (replies : list (option string)) : gset string :=
  foldl (fun participants reply =>
    match reply ≫= fun key => extract_robot_id key name with
    | Some robot_id => participants ∪ {[robot_id]}
    | None => participants
    end) ∅ replies.

(** The task: one liveliness sample. *)
Definition observe_sample (name : string) (participants : gset string) (sample : SampleKind * string) : gset string :=
  match extract_robot_id sample.2 name with
  | None => participants
  | Some robot_id =>
      match sample.1 with Put => participants ∪ {[robot_id]} | Delete => participants ∖ {[robot_id]} end
  end.

Definition observe_barrier (name : string) (replies : list (option string)) (samples : list (SampleKind * string)) :
    gset string :=
  foldl (observe_sample name) (seed_participants name replies) samples.

(** What [declare_barrier_queryable] answers a query with. *)
Definition barrier_reply (participants : gset string) : list string := sorted_set participants.

(** ** The edge state bus: theorems *)

Lemma no_slash_split (a b c d : string) :
  contains_char "/"%char a = false -> contains_char "/"%char c = false ->
  a +:+ String "/" b = c +:+ String "/" d -> a = c /\ b = d.
Proof.
  unfold contains_char. revert c. induction a as [|x a IH]; intros [|y c]; cbn.
  - by intros _ _ [= ->].
  - intros _ Hc [= <- _]. done.
  - intros Ha _ [= -> _]. done.
  - intros Ha Hc [= -> He]. destruct (Ascii.eqb y "/"); [done|]. cbn in *.
    destruct (IH c Ha Hc He) as [-> ->]. done.
Qed.

(** Robots never share a topic: for identifiers without a slash the key determines the robot and
    the topic. *)
Theorem topic_keys_distinct (r r' : string) (t t' : TopicDef) :
  contains_char "/"%char r = false -> contains_char "/"%char r' = false ->
  topic_key r t = topic_key r' t' -> r = r' /\ suffix t = suffix t'.
Proof. intros Hr Hr' H. unfold topic_key in H. cbn in H. injection H as H. by apply no_slash_split. Qed.

Lemma declare_publishers_lookup declare robot_id topic key topics : forall pubs m,
  declare_publishers declare robot_id topics pubs = Ok m ->
  m !! suffix topic = Some key <->
  (suffix topic ∈ map suffix topics /\ key = topic_key robot_id topic) \/
  (suffix topic ∉ map suffix topics /\ pubs !! suffix topic = Some key).
Proof.
  induction topics as [|t topics IH]; intros pubs m; cbn.
  - intros [= <-]. set_solver.
  - destruct (declare (topic_key robot_id t)); [|done]. intros H. rewrite (IH _ _ H), not_elem_of_cons, elem_of_cons.
    destruct (decide (suffix t = suffix topic)) as [E|Hne].
    + assert (Ek : topic_key robot_id t = topic_key robot_id topic) by (unfold topic_key; by rewrite E).
      rewrite E, lookup_insert_eq, Ek. clear. generalize (suffix topic) as x. intros x.
      destruct (decide (x ∈ map suffix topics)); naive_solver.
    + rewrite lookup_insert_ne by done. naive_solver.
Qed.

(** Exactly the five fixed topics can be published, each on its own key. *)
Theorem published_topics {B : Type} (declare : string -> bool) (robot_id : string) (bus : EdgeStateBusRunner)
    (topic : TopicDef) (b : B) (key : string) :
  start declare robot_id = Ok bus ->
  publish bus topic (Some b) true = Ok (key, b) <->
  suffix topic ∈ map suffix ALL_TOPICS /\ key = topic_key robot_id topic.
Proof.
  unfold start. destruct (declare_publishers _ _ _ _) as [m|] eqn:E; [|done]. intros [= <-].
  pose proof (declare_publishers_lookup declare robot_id topic key _ _ _ E) as H. rewrite lookup_empty in H.
  unfold publish. cbn [publishers]. destruct (m !! suffix topic) as [k|]; naive_solver.
Qed.

(** *** One fan-out for each topic *)

Definition subscribe_all (declare : string -> bool) : EdgeStateBusRunner -> list (TopicDef * string) -> EdgeStateBusRunner :=
  foldl (fun bus call => snd (subscribe declare call.1 call.2 bus)).

Definition memoised (bus : EdgeStateBusRunner) : Prop :=
  NoDup (map fst (fanouts bus)) /\
  forall s t, subscriber_senders bus !! s = Some t <-> (s, t) ∈ fanouts bus.

Lemma memoised_subscribe declare topic t bus : memoised bus -> memoised (snd (subscribe declare topic t bus)).
Proof.
  intros [Hn Hm]. unfold subscribe. destruct (_ !! _) as [t'|] eqn:E; [done|]. destruct (declare _); [|done].
  unfold memoised. cbn. rewrite map_app. cbn. split.
  - apply NoDup_app. split; [done|]. split; [|apply NoDup_singleton]. intros s Hs ->%list_elem_of_singleton.
    apply list_elem_of_fmap in Hs as ([s' t'] & Es & Hin). cbn in Es. subst. apply Hm in Hin. by rewrite E in Hin.
  - intros s t0. rewrite lookup_insert_Some, elem_of_app, list_elem_of_singleton, <- Hm.
    split; [naive_solver|]. intros [Hs|[= -> ->]]; [|by left]. right. split; [|done]. intros <-. by rewrite E in Hs.
Qed.

(** subscribing is memoised.  Over any calls, whatever Zenoh answers, there is at most one
    fan-out task for a topic; a further call succeeds exactly if the topic is not subscribed yet
    and Zenoh declares its key, or the type is the one registered first, which no call replaces;
    it spawns a task only in the first case. *)
Theorem one_fanout_per_topic (declare declare' : string -> bool) (robot_id : string) (bus0 : EdgeStateBusRunner)
    (calls : list (TopicDef * string)) (topic : TopicDef) (t : string) :
  start declare robot_id = Ok bus0 ->
  let bus := subscribe_all declare' bus0 calls in
  let after := subscribe declare' topic t bus in
  NoDup (map fst (fanouts bus)) /\
  (fst after = Ok () <->
     (subscriber_senders bus !! suffix topic = None /\ declare' (sub_key topic) = true) \/
     subscriber_senders bus !! suffix topic = Some t) /\
  (forall s u, subscriber_senders bus !! s = Some u -> subscriber_senders (snd after) !! s = Some u) /\
  fanouts (snd after) =
    (fanouts bus ++ if decide (subscriber_senders bus !! suffix topic = None /\ declare' (sub_key topic) = true)
                    then [(suffix topic, t)] else [])%list.
Proof.
  intros Hs bus after.
  assert (H0 : memoised bus0).
  { unfold start in Hs. destruct (declare_publishers _ _ _ _); [|done]. injection Hs as <-.
    split; [apply NoDup_nil_2|]. intros s u. cbn. rewrite lookup_empty. split; [done|by intros ?%not_elem_of_nil]. }
  assert (H : memoised bus).
  { unfold bus. clear bus after Hs. revert bus0 H0. induction calls as [|c calls IH]; intros bus0 H0; [done|].
    apply IH. by apply memoised_subscribe. }
  split; [apply H|]. unfold after, subscribe.
  destruct (subscriber_senders bus !! suffix topic) as [u|] eqn:E.
  - cbn [fst snd]. rewrite (decide_False (P := Some u = None /\ _)) by (by intros [? _]). rewrite app_nil_r. split_and!; [|done..].
    case_decide as Hd; [subst; split; auto|split; [done|intros [[? _]|[= ?]]; done]].
  - destruct (declare' (sub_key topic)) eqn:Ed; cbn [fst snd fanouts subscriber_senders].
    + rewrite decide_True by done. split_and!; [split; auto| |done]. intros s u Hu.
      rewrite lookup_insert_ne; [done|]. intros <-. by rewrite E in Hu.
    + rewrite decide_False by (by intros [_ ?]). rewrite app_nil_r. split_and!; [|done..].
      split; [done|]. by intros [[_ ?]|?].
Qed.

(** ** Barriers: theorems *)

(** The identifiers a barrier can hold: one non-empty segment. *)
Definition segment (robot_id : string) : Prop := robot_id <> "" /\ contains_char "/"%char robot_id = false.

(** The key of a member gives the member back, and only such keys give one. *)
Lemma extract_join name robot_id key :
  extract_robot_id key name = Some robot_id <-> key = join_key name robot_id /\ segment robot_id.
Proof.
  unfold extract_robot_id, join_key, segment.
  assert (Ea : "roz/coordination/barrier/" +:+ name +:+ "/" +:+ robot_id =
               ("roz/coordination/barrier/" +:+ name +:+ "/") +:+ robot_id).
  { by rewrite !str_app_assoc. }
  destruct (strip_prefix _ key) as [rest|] eqn:E.
  - apply strip_prefix_some in E as ->. rewrite Ea.
    destruct (bool_decide (rest = "")) eqn:Eb; [apply bool_decide_eq_true in Eb|apply bool_decide_eq_false in Eb]; cbn.
    + split; [done|]. intros [H [Hn _]]. apply (inj _) in H. congruence.
    + destruct (contains_char "/" rest) eqn:Ec.
      * split; [done|]. intros [H [_ Hn]]. apply (inj _) in H. congruence.
      * split; [by intros [= ->]|]. intros [H _]. apply (inj _) in H. by rewrite H.
  - split; [done|]. intros [-> _]. rewrite Ea, strip_prefix_app in E. done.
Qed.

(** *** What an observer sees *)

(** Tokens declared and dropped, and who is in the barrier after them. *)
Abbreviation membership := (list (SampleKind * string)).

Definition change (m : gset string) (ev : SampleKind * string) : gset string :=
  match ev.1 with Put => m ∪ {[ev.2]} | Delete => m ∖ {[ev.2]} end.

Definition members (evs : membership) : gset string := foldl change ∅ evs.

Definition last_change (r : string) (evs : membership) : option SampleKind :=
  foldl (fun k ev => if decide (ev.2 = r) then Some ev.1 else k) None evs.

Lemma in_changes r evs : forall m,
  r ∈ foldl change m evs <-> match last_change r evs with Some Put => True | Some Delete => False | None => r ∈ m end.
Proof.
  induction evs as [|[k x] evs IH] using rev_ind; intros m; [done|].
  unfold last_change in *. rewrite !foldl_snoc. cbn [snd fst]. unfold change at 1. cbn [snd fst].
  case_decide as Hx.
  - subst. destruct k; set_solver.
  - rewrite <- IH. destruct k; set_solver.
Qed.

Lemma seed_exact name replies r :
  r ∈ seed_participants name replies <-> Some (join_key name r) ∈ replies /\ segment r.
Proof.
  unfold seed_participants. induction replies as [|reply replies IH] using rev_ind; [set_solver|].
  rewrite foldl_snoc, elem_of_app, list_elem_of_singleton.
  destruct reply as [key|]; cbn [mbind option_bind].
  - destruct (extract_robot_id key name) as [r'|] eqn:E.
    + rewrite elem_of_union, elem_of_singleton, IH. apply extract_join in E as [-> Hs]. split.
      * intros [?| ->]; naive_solver.
      * intros [[?|H] Hr]; [naive_solver|]. right. apply (inj Some) in H.
        assert (Hr' : extract_robot_id (join_key name r) name = Some r) by (by apply extract_join).
        assert (Hr'' : extract_robot_id (join_key name r') name = Some r') by (by apply extract_join).
        rewrite H in Hr'. congruence.
    + rewrite IH. split; [naive_solver|]. intros [[?|H] Hr]; [done|]. apply (inj Some) in H as <-.
      rewrite (proj2 (extract_join name r (join_key name r))) in E; done.
  - rewrite IH. naive_solver.
Qed.

Lemma observe_change name m k r : segment r -> observe_sample name m (k, join_key name r) = change m (k, r).
Proof. intros Hr. unfold observe_sample. cbn. by rewrite (proj2 (extract_join name r _)). Qed.

Lemma members_segment evs x : Forall (fun ev => segment ev.2) evs -> x ∈ members evs -> segment x.
Proof.
  unfold members. induction evs as [|[k y] l IH] using rev_ind; [set_solver|].
  rewrite foldl_snoc. intros [Hl [Hy _]%Forall_cons]%Forall_app. unfold change at 1. cbn in *.
  destruct k; [intros [Hx| ->%elem_of_singleton]%elem_of_union; auto|].
  intros [Hx _]%elem_of_difference. auto.
Qed.

(** what an observer of a barrier sees.  Tokens come and go: [before] the seed is
    queried, in the [gap] until the subscriber is declared, and [after].  If the seed answers
    with the tokens of then and the subscriber delivers every later change in order, the
    participants are, for every robot, what its last change after the subscription says, and
    without one what the seed said; so the view is right about a robot exactly if it changed
    after the subscription or its membership is the same on both sides of the gap. *)
Theorem barrier_view_exact (name : string) (before gap after : membership) (replies : list (option string)) (r : string) :
  Forall (fun ev => segment ev.2) (before ++ gap ++ after) ->
  (forall key, Some key ∈ replies <-> exists x, x ∈ members before /\ key = join_key name x) ->
  let participants := observe_barrier name replies (map (fun ev => (ev.1, join_key name ev.2)) after) in
  (r ∈ participants <->
     match last_change r after with Some Put => True | Some Delete => False | None => r ∈ members before end) /\
  ((r ∈ participants <-> r ∈ members (before ++ gap ++ after)) <->
     last_change r after <> None \/ (r ∈ members before <-> r ∈ members (before ++ gap))).
Proof.
  intros Hseg Hrep participants.
  assert (Hsegm : forall x, x ∈ members before -> segment x).
  { intros x. apply members_segment. by apply Forall_app in Hseg as [Hb _]. }
  assert (Hseed : r ∈ seed_participants name replies <-> r ∈ members before).
  { rewrite seed_exact, Hrep. split; [|intros Hr; split; [by exists r|by apply Hsegm]].
    intros [(x & Hx & He) Hr]. assert (E1 : extract_robot_id (join_key name r) name = Some r) by (by apply extract_join).
    rewrite He in E1. rewrite (proj2 (extract_join name x _)) in E1 by (split; [done|by apply Hsegm]). by injection E1 as ->. }
  assert (Hview : r ∈ participants <->
     match last_change r after with Some Put => True | Some Delete => False | None => r ∈ members before end).
  { unfold participants, observe_barrier.
    assert (Hfold : forall m, foldl (observe_sample name) m (map (fun ev => (ev.1, join_key name ev.2)) after) = foldl change m after).
    { apply Forall_app in Hseg as [_ Hs]. apply Forall_app in Hs as [_ Hs]. clear -Hs. induction after as [|[k y] l IH]; intros m; [done|].
      apply Forall_cons in Hs as [Hy Hl]. cbn. rewrite observe_change by done. by apply IH. }
    rewrite Hfold, in_changes. destruct (last_change r after) as [[]|]; [done|done|exact Hseed]. }
  split; [exact Hview|]. unfold members at 1 3. rewrite app_assoc, foldl_app. fold (members (before ++ gap)).
  rewrite Hview, in_changes. destruct (last_change r after) as [[]|]; naive_solver.
Qed.

(** A barrier with a robot that leaves and one that comes after the subscription. *)
Lemma barrier_view_exact_witness :
  let view := observe_barrier "lift" [None; Some (join_key "lift" "r1"); Some (join_key "lift" "r2")]
                [(Delete, join_key "lift" "r1"); (Put, join_key "lift" "r3")] in
  "r1" ∉ view /\ "r2" ∈ view /\ "r3" ∈ view.
Proof.
  assert (Hseg : Forall (fun ev => segment ev.2) ([(Put, "r1"); (Put, "r2")] ++ [] ++ [(Delete, "r1"); (Put, "r3")] : membership)).
  { cbn [app]. repeat (apply Forall_cons; split; [split; [discriminate|reflexivity]|]). apply Forall_nil. exact I. }
  assert (Hrep : forall key, Some key ∈ [None; Some (join_key "lift" "r1"); Some (join_key "lift" "r2")] <->
    exists x, x ∈ members [(Put, "r1"); (Put, "r2")] /\ key = join_key "lift" x).
  { intros key. unfold members, change. cbn [foldl fst snd]. set_solver. }
  pose proof (fun r => barrier_view_exact "lift" [(Put, "r1"); (Put, "r2")] [] [(Delete, "r1"); (Put, "r3")]
    [None; Some (join_key "lift" "r1"); Some (join_key "lift" "r2")] r
    Hseg Hrep) as H.
  split; [|split].
  - intros H1. apply (proj1 (H "r1")) in H1. vm_compute in H1. exact H1.
  - apply (proj1 (H "r2")). change (last_change "r2" [(Delete, "r1"); (Put, "r3")]) with (@None SampleKind).
    cbv beta iota. unfold members, change. cbn [foldl fst snd]. set_solver.
  - apply (proj1 (H "r3")). vm_compute. exact I.
Defined.

(** [observe_barrier] queries the seed before it declares the subscriber: who joins in between is
    never seen, and who leaves in between stays. *)
Example gap_is_not_seen :
  let view := observe_barrier "lift" [Some (join_key "lift" "r1")] [] in
  "r1" ∈ view /\ "r2" ∉ view /\ members ([(Put, "r1")] ++ [(Delete, "r1"); (Put, "r2")] ++ []) = {["r2"]}.
Proof. by vm_compute. Qed.

(** The worker's startup sample goes out on the key of the health heartbeat. *)
Example startup_sample_key : topic_key "arm-1" TRANSPORT_HEALTH = "roz/arm-1/transport/health".
Proof. done. Qed.

Lemma one_fanout_per_topic_witness :
  exists bus0, start (fun _ => true) "arm-1" = Ok bus0 /\
  let bus := subscribe_all (fun _ => true) bus0 [(TRANSPORT_HEALTH, "Health"); (TRANSPORT_HEALTH, "Health"); (TELEMETRY_SUMMARY, "Value")] in
  fst (subscribe (fun _ => true) TRANSPORT_HEALTH "Health" bus) = Ok () /\ NoDup (map fst (fanouts bus)).
Proof.
  eexists. split; [vm_compute; reflexivity|].
  destruct (one_fanout_per_topic (fun _ => true) (fun _ => true) "arm-1" _
    [(TRANSPORT_HEALTH, "Health"); (TRANSPORT_HEALTH, "Health"); (TELEMETRY_SUMMARY, "Value")] TRANSPORT_HEALTH "Health" eq_refl) as (Hn & Hok & _).
  split; [|exact Hn]. apply Hok. right. vm_compute. reflexivity.
Defined.
