(* ===== verification/Adapter.v ===== *)
(** * Hardware adapters

    roz-core/adapter.rs (the lifecycle of an adapter), roz-worker/adapter/mod.rs (the manager
    that checks the lifecycle before it calls the hardware) and adapter/mock.rs.  The trait of
    the hardware is a class; what derived [Debug] prints for a string is an argument. *)

From S2P Require Import Prelude Float64 Json Command.
#[local] Open Scope string_scope.

(** ** adapter.rs *)

Inductive AdapterState : Type := Unconfigured | Inactive | Active | SafeStop | Finalized | AdapterFault (message : string).

Inductive AdapterEvent : Type :=
| Configure | Activate | Deactivate | Cleanup | Shutdown | EmergencyStop | SafeState | ErrorOccurred (message : string) | Recover.

#[export] Instance AdapterState_eq_dec : EqDecision AdapterState.
Proof. solve_decision. Defined.

#[export] Instance AdapterEvent_eq_dec : EqDecision AdapterEvent.
Proof. solve_decision. Defined.

Section Lifecycle.
Context (debug_str : string -> string).

Definition debug_adapter_state (s : AdapterState) : string :=
  match s with
  | Unconfigured => "Unconfigured" | Inactive => "Inactive" | Active => "Active" | SafeStop => "SafeStop"
  | Finalized => "Finalized" | AdapterFault message => "Error(" +:+ debug_str message +:+ ")"
  end.

Definition debug_adapter_event (e : AdapterEvent) : string :=
  match e with
  | Configure => "Configure" | Activate => "Activate" | Deactivate => "Deactivate" | Cleanup => "Cleanup"
  | Shutdown => "Shutdown" | EmergencyStop => "EmergencyStop" | SafeState => "SafeState"
  | ErrorOccurred message => "ErrorOccurred(" +:+ debug_str message +:+ ")" | Recover => "Recover"
  end.

Definition adapter_transition (self : AdapterState) (event : AdapterEvent) : result AdapterState RozError :=
  match event with
  | Shutdown =>
      match self with
      | Finalized => Err (InvalidTransitionErr (debug_adapter_state self) "Finalized")
      | _ => Ok Finalized
      end
  | EmergencyStop =>
      match self with
      | Active | SafeStop => Ok SafeStop
      | _ => Err (InvalidTransitionErr (debug_adapter_state self) "SafeStop")
      end
  | _ =>
      match self, event with
      | Unconfigured, Configure => Ok Inactive
      | Inactive, Activate => Ok Active
      | Active, Deactivate | SafeStop, Deactivate => Ok Inactive
      | Inactive, Cleanup => Ok Unconfigured
      | SafeStop, SafeState => Ok Inactive
      | Finalized, ErrorOccurred _ => Err (InvalidTransitionErr "Finalized" "Error")
      | _, ErrorOccurred msg => Ok (AdapterFault msg)
      | AdapterFault _, Recover => Ok Unconfigured
      | _, _ => Err (InvalidTransitionErr (debug_adapter_state self) (debug_adapter_event event))
      end
  end.

(** ** adapter/mod.rs *)

Record CommandMsg : Type := { cmd_id : string; command : string; params : json; cmd_task_id : option string }.

(** The trait: a callback answers and may change the adapter; [execute] and [capabilities] only
    read it. *)
Class HardwareAdapter (A : Type) := {
  on_configure : A -> result () string * A;
  on_activate : A -> result () string * A;
  on_deactivate : A -> result () string * A;
  on_cleanup : A -> result () string * A;
  on_shutdown : A -> result () string * A;
  on_error : string -> A -> A;
  capabilities : A -> list string;
  execute : A -> CommandMsg -> result json string;
  emergency_stop : A -> result () string * A;
}.

Inductive ManagerError : Type := Refused (e : RozError) | CallbackFailed (e : string) | NotActive (message : string).

Record AdapterManager (A : Type) : Type := { adapter : A; state : AdapterState }.
Arguments adapter {A} _.
Arguments state {A} _.

Definition manager_new {A : Type} (adapter : A) : AdapterManager A := {| adapter := adapter; state := Unconfigured |}.

(** The common body of the transitions: the check, the callback, and the new state only if it
    succeeds.  A failed callback is reported to the adapter ([reports]) or not. *)
Definition guarded {A : Type} `{HardwareAdapter A} (event : AdapterEvent) (callback : A -> result () string * A)
    (reports : bool) (self : AdapterManager A) : result () ManagerError * AdapterManager A :=
  match adapter_transition (state self) event with
  | Err e => (Err (Refused e), self)
  | Ok new_state =>
      match callback (adapter self) with
      | (Err e, a) => (Err (CallbackFailed e), {| adapter := if reports then on_error e a else a; state := state self |})
      | (Ok _, a) => (Ok (), {| adapter := a; state := new_state |})
      end
  end.

Definition manager_configure {A : Type} `{HardwareAdapter A} : AdapterManager A -> result () ManagerError * AdapterManager A :=
  guarded Configure on_configure true.
Definition manager_activate {A : Type} `{HardwareAdapter A} : AdapterManager A -> result () ManagerError * AdapterManager A :=
  guarded Activate on_activate true.
Definition manager_deactivate {A : Type} `{HardwareAdapter A} : AdapterManager A -> result () ManagerError * AdapterManager A :=
  guarded Deactivate on_deactivate true.
Definition manager_cleanup {A : Type} `{HardwareAdapter A} : AdapterManager A -> result () ManagerError * AdapterManager A :=
  guarded Cleanup on_cleanup false.
Definition manager_shutdown {A : Type} `{HardwareAdapter A} : AdapterManager A -> result () ManagerError * AdapterManager A :=
  guarded Shutdown on_shutdown false.
Definition manager_emergency_stop {A : Type} `{HardwareAdapter A} : AdapterManager A -> result () ManagerError * AdapterManager A :=
  guarded EmergencyStop emergency_stop true.

Definition manager_execute {A : Type} `{HardwareAdapter A} (command : CommandMsg) (self : AdapterManager A) :
    result json ManagerError :=
  if decide (state self = Active) then
    match execute (adapter self) command with Ok v => Ok v | Err e => Err (CallbackFailed e) end
  else Err (NotActive ("cannot execute command: adapter is in " +:+ debug_adapter_state (state self) +:+ ", expected Active")).

(** The operations of a manager as calls. *)
Inductive ManagerCall : Type :=
| CallConfigure | CallActivate | CallDeactivate | CallCleanup | CallShutdown | CallEmergencyStop | CallExecute (command : CommandMsg).

Definition manager_call {A : Type} `{HardwareAdapter A} (self : AdapterManager A) (c : ManagerCall) : AdapterManager A :=
  match c with
  | CallConfigure => snd (manager_configure self)
  | CallActivate => snd (manager_activate self)
  | CallDeactivate => snd (manager_deactivate self)
  | CallCleanup => snd (manager_cleanup self)
  | CallShutdown => snd (manager_shutdown self)
  | CallEmergencyStop => snd (manager_emergency_stop self)
  | CallExecute _ => self
  end.

(** ** What the hardware sees *)

(** A call the manager makes to the hardware, with whether it succeeded. *)
Inductive HardwareCall : Type :=
| SawConfigure (ok : bool) | SawActivate (ok : bool) | SawDeactivate (ok : bool) | SawCleanup (ok : bool)
| SawShutdown (ok : bool) | SawEmergencyStop (ok : bool) | SawError (e : string) | SawExecute (command : CommandMsg).

Definition succeeded {T E : Type} (r : result T E) : bool := match r with Ok _ => true | Err _ => false end.

(** Any adapter, wrapped to write down its calls. *)
#[global] Instance recorded {A : Type} `{HardwareAdapter A} : HardwareAdapter (A * list HardwareCall) := {|
  on_configure x := let '(r, a) := on_configure x.1 in (r, (a, x.2 ++ [SawConfigure (succeeded r)])%list);
  on_activate x := let '(r, a) := on_activate x.1 in (r, (a, x.2 ++ [SawActivate (succeeded r)])%list);
  on_deactivate x := let '(r, a) := on_deactivate x.1 in (r, (a, x.2 ++ [SawDeactivate (succeeded r)])%list);
  on_cleanup x := let '(r, a) := on_cleanup x.1 in (r, (a, x.2 ++ [SawCleanup (succeeded r)])%list);
  on_shutdown x := let '(r, a) := on_shutdown x.1 in (r, (a, x.2 ++ [SawShutdown (succeeded r)])%list);
  on_error e x := (on_error e x.1, (x.2 ++ [SawError e])%list);
  capabilities x := capabilities x.1;
  execute x := execute x.1;
  emergency_stop x := let '(r, a) := emergency_stop x.1 in (r, (a, x.2 ++ [SawEmergencyStop (succeeded r)])%list);
|}.

(** The calls of a manager, with the commands it lets through written into the same log. *)
Definition recorded_call {A : Type} `{HardwareAdapter A} (self : AdapterManager (A * list HardwareCall)) (c : ManagerCall) :
    AdapterManager (A * list HardwareCall) :=
  match c with
  | CallExecute command =>
      match manager_execute command self with
      | Err (NotActive _) => self
      | _ => {| adapter := ((adapter self).1, ((adapter self).2 ++ [SawExecute command])%list); state := state self |}
      end
  | _ => manager_call self c
  end.

Definition recorded_run {A : Type} `{HardwareAdapter A} (a : A) (calls : list ManagerCall) : AdapterManager (A * list HardwareCall) :=
  foldl recorded_call (manager_new (a, [])) calls.

(** The state the successful calls of a log lead to. *)
Definition state_after (s : AdapterState) (c : HardwareCall) : AdapterState :=
  match c with
  | SawConfigure true | SawDeactivate true => Inactive
  | SawActivate true => Active
  | SawCleanup true => Unconfigured
  | SawShutdown true => Finalized
  | SawEmergencyStop true => SafeStop
  | _ => s
  end.

Definition log_state (log : list HardwareCall) : AdapterState := foldl state_after Unconfigured log.

(** When the hardware may see a call: only in the states the lifecycle allows. *)
Definition allowed (s : AdapterState) (c : HardwareCall) : Prop :=
  match c with
  | SawConfigure _ => s = Unconfigured
  | SawActivate _ | SawCleanup _ => s = Inactive
  | SawDeactivate _ | SawEmergencyStop _ => s = Active \/ s = SafeStop
  | SawShutdown _ => s <> Finalized
  | SawError _ => True
  | SawExecute _ => s = Active
  end.

Definition log_allowed (log : list HardwareCall) : Prop :=
  forall pre c post, log = (pre ++ c :: post)%list -> allowed (log_state pre) c.

(** ** Theorems *)

Lemma log_allowed_snoc log c : log_allowed log -> allowed (log_state log) c -> log_allowed (log ++ [c]).
Proof.
  intros Hl Hc pre c' post He. destruct post as [|x post] using rev_ind.
  - apply app_inj_tail in He as [-> ->]. done.
  - rewrite app_comm_cons, app_assoc in He. apply app_inj_tail in He as [-> _]. by eapply Hl.
Qed.

Lemma log_state_snoc log c : log_state (log ++ [c]) = state_after (log_state log) c.
Proof. unfold log_state. by rewrite foldl_snoc. Qed.

(** The manager's state is the one its log leads to, and the log keeps to the lifecycle. *)
Definition in_step {A : Type} (m : AdapterManager (A * list HardwareCall)) : Prop :=
  state m = log_state (adapter m).2 /\ log_allowed (adapter m).2.

Lemma guarded_in_step {A : Type} `{HardwareAdapter A} event (callback : A -> result () string * A) (saw : bool -> HardwareCall)
    (reports : bool) (m : AdapterManager (A * list HardwareCall)) :
  (forall s ok, adapter_transition (state m) event = Ok s ->
     allowed (state m) (saw ok) /\ state_after (state m) (saw ok) = if ok then s else state m) ->
  in_step m ->
  in_step (snd (guarded event (fun x => let '(r, a) := callback x.1 in (r, (a, x.2 ++ [saw (succeeded r)])%list)) reports m)).
Proof.
  intros Hsaw [Hs Hl]. unfold guarded. destruct (adapter_transition (state m) event) as [s|] eqn:Et; [|done].
  assert (Hlog : forall ok, log_allowed ((adapter m).2 ++ [saw ok]) /\
                   log_state ((adapter m).2 ++ [saw ok]) = if ok then s else state m).
  { intros ok. destruct (Hsaw s ok eq_refl) as [Ha He]. split; [apply log_allowed_snoc; [done|by rewrite <- Hs]|].
    by rewrite log_state_snoc, <- Hs. }
  destruct (callback (adapter m).1) as [[[]|e] a] eqn:Ec; cbn [succeeded].
  - by destruct (Hlog true).
  - destruct (Hlog false) as [H1 H2]. destruct reports; split; cbn; try done.
    + by rewrite log_state_snoc.
    + by apply log_allowed_snoc.
Qed.

Lemma recorded_in_step {A : Type} `{HardwareAdapter A} (m : AdapterManager (A * list HardwareCall)) c :
  in_step m -> in_step (recorded_call m c).
Proof.
  intros Hm. destruct c as [| | | | | |command]; cbn [recorded_call manager_call].
  1: apply (guarded_in_step Configure on_configure SawConfigure true m); [|done].
  2: apply (guarded_in_step Activate on_activate SawActivate true m); [|done].
  3: apply (guarded_in_step Deactivate on_deactivate SawDeactivate true m); [|done].
  4: apply (guarded_in_step Cleanup on_cleanup SawCleanup false m); [|done].
  5: apply (guarded_in_step Shutdown on_shutdown SawShutdown false m); [|done].
  6: apply (guarded_in_step EmergencyStop emergency_stop SawEmergencyStop true m); [|done].
  all: try (intros s ok; destruct (state m), ok; cbn; intros [= <-]; auto; done).
  destruct Hm as [Hs Hl]. unfold manager_execute. case_decide as Ha; [|done].
  assert (Hx : log_allowed ((adapter m).2 ++ [SawExecute command])) by (apply log_allowed_snoc; [done|cbn; by rewrite <- Hs]).
  destruct (execute _ _); split; cbn; rewrite ?log_state_snoc; done.
Qed.

(** C27: the hardware is driven through its lifecycle.  Whatever the adapter answers and whatever
    is asked of the manager, every call the hardware sees is one its lifecycle allows in the
    state its earlier successful calls led to: in particular a command reaches it only while the
    last lifecycle call that succeeded is an activation; and the manager's state is that state. *)
Theorem hardware_follows_lifecycle {A : Type} `{HardwareAdapter A} (a : A) (calls : list ManagerCall) :
  let m := recorded_run a calls in
  log_allowed (adapter m).2 /\ state m = log_state (adapter m).2.
Proof.
  assert (H0 : in_step (manager_new (a, [] : list HardwareCall))).
  { split; [done|]. intros pre c post He. by destruct pre. }
  unfold recorded_run. revert H0. generalize (manager_new (a, [] : list HardwareCall)). induction calls as [|c calls IH]; intros m Hm.
  - by destruct Hm.
  - apply IH. by apply recorded_in_step.
Qed.

(** The recording changes nothing: without it the adapter and the state are the same. *)
Theorem recording_is_transparent {A : Type} `{HardwareAdapter A} (a : A) (calls : list ManagerCall) :
  let m := recorded_run a calls in
  {| adapter := (adapter m).1; state := state m |} = foldl manager_call (manager_new a) calls.
Proof.
  cbn. unfold recorded_run.
  assert (Hg : forall event (callback : A -> result () string * A) saw reports (m : AdapterManager (A * list HardwareCall)),
    let m' := snd (guarded event (fun x => let '(r, a) := callback x.1 in (r, (a, x.2 ++ [saw (succeeded r)])%list)) reports m) in
    {| adapter := (adapter m').1; state := state m' |} = snd (guarded event callback reports {| adapter := (adapter m).1; state := state m |})).
  { intros event callback saw reports m. unfold guarded. cbn [state adapter]. destruct (adapter_transition _ _); [|done].
    destruct (callback _) as [[|] ?]; [done|]. by destruct reports. }
  assert (Hstep : forall (m : AdapterManager (A * list HardwareCall)) c,
    {| adapter := (adapter (recorded_call m c)).1; state := state (recorded_call m c) |} =
    manager_call {| adapter := (adapter m).1; state := state m |} c).
  { intros m [| | | | | |command]; [exact (Hg Configure on_configure SawConfigure true m)|exact (Hg Activate on_activate SawActivate true m)
      |exact (Hg Deactivate on_deactivate SawDeactivate true m)|exact (Hg Cleanup on_cleanup SawCleanup false m)
      |exact (Hg Shutdown on_shutdown SawShutdown false m)|exact (Hg EmergencyStop emergency_stop SawEmergencyStop true m)|].
    cbn. unfold manager_execute. case_decide; [|done]. by destruct (execute _ _). }
  change (manager_new a) with {| adapter := (adapter (manager_new (a, [] : list HardwareCall))).1;
                                 state := state (manager_new (a, [] : list HardwareCall)) |}.
  generalize (manager_new (a, [] : list HardwareCall)). induction calls as [|c calls IH]; intros m; [done|].
  cbn [foldl]. by rewrite IH, Hstep.
Qed.

(** *** A stop that fails *)

(** When the hardware's emergency stop fails, the manager keeps its state: an adapter that was
    active stays active, and the next command is handed to it. *)
Theorem failed_stop_keeps_commanding {A : Type} `{HardwareAdapter A} (m : AdapterManager A) (command : CommandMsg) (e : string) (a : A) :
  state m = Active -> emergency_stop (adapter m) = (Err e, a) ->
  let m' := snd (manager_emergency_stop m) in
  state m' = Active /\
  manager_execute command m' = match execute (on_error e a) command with Ok v => Ok v | Err err => Err (CallbackFailed err) end.
Proof. intros Hs He. unfold manager_emergency_stop, guarded. rewrite Hs. cbn. by rewrite He. Qed.

(** No operation of the manager leads to the fault state, and none leaves it: [ErrorOccurred],
    [Recover] and [SafeState] are never fired. *)
Theorem manager_never_faults {A : Type} `{HardwareAdapter A} (a : A) (calls : list ManagerCall) (message : string) :
  state (foldl manager_call (manager_new a) calls) <> AdapterFault message.
Proof.
  rewrite <- recording_is_transparent. cbn [state].
  destruct (hardware_follows_lifecycle a calls) as [_ ->]. generalize (adapter (recorded_run a calls)).2. intros log.
  induction log as [|c log IH] using rev_ind; [done|]. rewrite log_state_snoc.
  destruct c as [[]|[]|[]|[]|[]|[]| |]; cbn; done.
Qed.

(** The transition table of an emergency stop: from an inactive or faulty adapter it is refused. *)
Lemma emergency_stop_accepted s : (exists s', adapter_transition s EmergencyStop = Ok s') <-> s = Active \/ s = SafeStop.
Proof. split; [intros [s' H]; destruct s; try done; auto|intros [-> | ->]; by eexists]. Qed.

End Lifecycle.

(** ** adapter/mock.rs *)

Record MockAdapter : Type := { configured : bool; active : bool }.

Definition mock_new : MockAdapter := {| configured := false; active := false |}.

#[export] Instance mock_adapter : HardwareAdapter MockAdapter := {|
  on_configure m := (Ok (), {| configured := true; active := active m |});
  on_activate m := (Ok (), {| configured := configured m; active := true |});
  on_deactivate m := (Ok (), {| configured := configured m; active := false |});
  on_cleanup m := (Ok (), {| configured := false; active := active m |});
  on_shutdown m := (Ok (), {| configured := false; active := false |});
  on_error _ m := {| configured := configured m; active := false |};
  capabilities _ := ["mock_capability"];
  execute _ c := Ok (JObject [("status", JString "ok"); ("command", JString (command c)); ("id", JString (cmd_id c))]);
  emergency_stop m := (Ok (), {| configured := configured m; active := false |});
|}.

(** The mock's own flags agree with the manager's state in every run. *)
Theorem mock_agrees (debug_str : string -> string) (calls : list ManagerCall) :
  let m := foldl (manager_call debug_str) (manager_new mock_new) calls in
  active (adapter _ m) = bool_decide (state _ m = Active) /\
  configured (adapter _ m) = bool_decide (state _ m = Inactive \/ state _ m = Active \/ state _ m = SafeStop).
Proof.
  cbn. assert (H0 : let m := manager_new mock_new in active (adapter _ m) = bool_decide (state _ m = Active) /\
    configured (adapter _ m) = bool_decide (state _ m = Inactive \/ state _ m = Active \/ state _ m = SafeStop)) by done.
  revert H0. generalize (manager_new mock_new). induction calls as [|c calls IH]; intros m H0; [done|]. cbn [foldl]. apply IH. clear IH.
  destruct m as [[cf ac] s]. cbn in H0. destruct H0 as [-> ->]. destruct c; destruct s; cbn; by split.
Qed.

(** *** A run *)

(** An adapter whose emergency stop fails. *)
Definition stuck : HardwareAdapter () := {|
  on_configure _ := (Ok (), tt); on_activate _ := (Ok (), tt); on_deactivate _ := (Ok (), tt);
  on_cleanup _ := (Ok (), tt); on_shutdown _ := (Ok (), tt); on_error _ _ := tt; capabilities _ := [];
  execute _ _ := Ok Null; emergency_stop _ := (Err "bus timeout", tt) |}.

Definition move_arm : CommandMsg := {| cmd_id := "c1"; command := "move"; params := Null; cmd_task_id := None |}.

(** After a stop that failed the next command reaches the hardware; a second activation is
    refused; after a deactivation commands are refused. *)
Example command_after_failed_stop :
  (adapter _ (recorded_run (H := stuck) (fun s => s) tt
    [CallConfigure; CallActivate; CallEmergencyStop; CallExecute move_arm; CallActivate; CallDeactivate; CallExecute move_arm])).2
  = [SawConfigure true; SawActivate true; SawEmergencyStop false; SawError "bus timeout"; SawExecute move_arm; SawDeactivate true].
Proof. reflexivity. Qed.

Lemma failed_stop_keeps_commanding_witness :
  let m := {| adapter := tt; state := Active |} in
  state _ m = Active /\ manager_execute (H := stuck) (fun s => s) move_arm (snd (manager_emergency_stop (H := stuck) (fun s => s) m)) = Ok Null.
Proof.
  split; [reflexivity|].
  exact (proj2 (failed_stop_keeps_commanding (H := stuck) (fun s => s) {| adapter := tt; state := Active |} move_arm
                 "bus timeout" tt eq_refl eq_refl)).
Defined.
