(* ===== verification/Wal.v ===== *)
(** * The worker's write-ahead log

    roz-core/wal.rs (entries) and roz-worker/wal.rs (the store over SQLite: the log of a
    task's entries with their acknowledgements, the worker's state, the idempotency cache).
    A table is the list of its rows in the order of its key.  The JSON codec, the text of a
    time and the clock are given, and so is whether SQLite carries a statement out. *)

From Stdlib Require Import Ascii Sorted.
From S2P Require Import Prelude Float64 RustStr Json SafetyFilter Guards Approvals Policy Adapter.
#[local] Open Scope string_scope.

(** ** roz-core/wal.rs *)

Inductive WalEntry : Type :=
| AdapterTransition (from to : AdapterState)
| ToolResultEntry (call_id : string) (tool_result : ToolResult)
| HardwareCommand (idempotency_key command : string) (acked : bool)
| OodaCycleComplete (cycle : Z)
| TelemetryBatch (count last_seq : Z)
| SafetyEvent (level : Safety.SafetyLevel) (message : string)
| SkillStarted (skill_name kind : string)
| SkillCompleted (skill_name : string) (success : bool) (ticks : option Z)
| ConditionViolation (skill_name condition phase : string).

(** ** The libraries *)

(** [B] is what a blob holds. *)
Class WalLib := {
  Blob : Type;
  entry_to_vec : WalEntry -> option Blob;
  entry_from_slice : Blob -> option WalEntry;
  to_rfc3339 : Z -> string;
}.

(** The text of an instant before the year 10000 (in nanoseconds since 1970) is ordered as the
    instants. *)
Definition YEAR_10000 : Z := 253402300800 * 1000000000.

Class WalLaws `{WalLib} : Prop := {
  rfc3339_order s t : 0 <= s < YEAR_10000 -> 0 <= t < YEAR_10000 -> String.ltb (to_rfc3339 s) (to_rfc3339 t) = (s <? t)%Z;
}.

Section Wal.
Context `{Lib : WalLib}.

(** ** The store *)

Record WalRow : Type := { seq : Z; row_task_id : string; entry : Blob; row_acked : bool; ts : string }.

(** [sqlite_sequence] is the largest key [AUTOINCREMENT] ever gave. *)
Record WalStore : Type := {
  wal_entries : list WalRow;
  sqlite_sequence : Z;
  worker_state : gmap string Blob;
  idempotency_cache : gmap string (Blob * string);
}.

Inductive SqliteError : Type := StatementFailed | ToSqlConversionFailure | FromSqlConversionFailure | DiskFull.

Definition empty_store : WalStore :=
  {| wal_entries := []; sqlite_sequence := 0; worker_state := ∅; idempotency_cache := ∅ |}.

(** [open]: the tables are created only where they are missing, so a file keeps its rows. *)
Definition open (file : option WalStore) : WalStore := default empty_store file.

Definition set_entries (rows : list WalRow) (s : Z) (self : WalStore) : WalStore :=
  {| wal_entries := rows; sqlite_sequence := s; worker_state := worker_state self; idempotency_cache := idempotency_cache self |}.

Definition append (task_id : string) (e : WalEntry) (now : Z) (db_ok : bool) (self : WalStore) : result Z SqliteError * WalStore :=
  match entry_to_vec e with
  | None => (Err ToSqlConversionFailure, self)
  | Some blob =>
      if negb db_ok then (Err StatementFailed, self)
      else if (i64_max <=? sqlite_sequence self)%Z then (Err DiskFull, self)
      else
        let s := (sqlite_sequence self + 1)%Z in
        (Ok s, set_entries (wal_entries self ++ [{| seq := s; row_task_id := task_id; entry := blob; row_acked := false; ts := to_rfc3339 now |}])%list s self)
  end.

(** The rows the query selects. *)
Definition unacked_rows (task_id : string) (self : WalStore) : list WalRow :=
  base.filter (fun r => row_task_id r = task_id /\ row_acked r = false) (wal_entries self).

(** The loop over the rows: the first entry that does not decode ends it. *)
Fixpoint decode_rows (rows : list WalRow) : result (list (Z * WalEntry)) SqliteError :=
  match rows with
  | [] => Ok []
  | r :: rows =>
      match entry_from_slice (entry r) with
      | None => Err FromSqlConversionFailure
      | Some e => match decode_rows rows with Ok l => Ok ((seq r, e) :: l) | Err err => Err err end
      end
  end.

Definition unacked (task_id : string) (self : WalStore) : result (list (Z * WalEntry)) SqliteError :=
  decode_rows (unacked_rows task_id self).

Definition ack_row (s : Z) (r : WalRow) : WalRow :=
  if decide (seq r = s) then {| seq := seq r; row_task_id := row_task_id r; entry := entry r; row_acked := true; ts := ts r |} else r.

Definition ack (s : Z) (db_ok : bool) (self : WalStore) : result () SqliteError * WalStore :=
  if db_ok then (Ok (), set_entries (map (ack_row s) (wal_entries self)) (sqlite_sequence self) self)
  else (Err StatementFailed, self).

Definition set_state (key : string) (value : Blob) (db_ok : bool) (self : WalStore) : result () SqliteError * WalStore :=
  if db_ok then
    (Ok (), {| wal_entries := wal_entries self; sqlite_sequence := sqlite_sequence self;
               worker_state := <[key := value]> (worker_state self); idempotency_cache := idempotency_cache self |})
  else (Err StatementFailed, self).

Definition get_state (key : string) (self : WalStore) : option Blob := worker_state self !! key.

(** [chrono::Duration::from_std(ttl).unwrap_or_default()]: a duration of more milliseconds than
    an [i64] counts becomes zero. *)
Definition ttl_or_default (ttl : Z) : Z := if (ttl / 1000000 <=? i64_max)%Z then ttl else 0%Z.

(** The last instant of [DateTime<Utc>], beyond which [+] panics. *)
Context (MAX_UTC : Z).

Definition cache_idempotency (key : string) (res : Blob) (ttl now : Z) (db_ok : bool) (self : WalStore) :
    exec (result () SqliteError * WalStore) :=
  let expires := (now + ttl_or_default ttl)%Z in
  if (MAX_UTC <? expires)%Z then Panic
  else Ret (if db_ok then
    (Ok (), {| wal_entries := wal_entries self; sqlite_sequence := sqlite_sequence self; worker_state := worker_state self;
               idempotency_cache := <[key := (res, to_rfc3339 expires)]> (idempotency_cache self) |})
  else (Err StatementFailed, self)).

(** [expires > ?2] compares texts. *)
Definition check_idempotency (key : string) (now : Z) (self : WalStore) : option Blob :=
  match idempotency_cache self !! key with
  | Some (res, expires) => if String.ltb (to_rfc3339 now) expires then Some res else None
  | None => None
  end.

(** ** Runs of the log *)

(** What a worker does with the log; a restart opens the file again. *)
Inductive WalCall : Type :=
| Append (task_id : string) (e : WalEntry) (now : Z) (db_ok : bool)
| Ack (s : Z) (db_ok : bool)
| SetState (key : string) (value : Blob) (db_ok : bool)
| Reopen.

Definition wal_call (self : WalStore) (c : WalCall) : WalStore :=
  match c with
  | Append task_id e now db_ok => snd (append task_id e now db_ok self)
  | Ack s db_ok => snd (ack s db_ok self)
  | SetState key value db_ok => snd (set_state key value db_ok self)
  | Reopen => open (Some self)
  end.

Definition wal_run (calls : list WalCall) : WalStore := foldl wal_call empty_store calls.

(** The specification: the log of the appended entries, each with its number, and the numbers
    that were acknowledged after their entry was there. *)
Record LogSpec : Type := { appended : list (Z * (string * WalEntry)); acknowledged : gset Z }.

Definition log_call (l : LogSpec) (c : WalCall) : LogSpec :=
  match c with
  | Append task_id e _ true =>
      if decide (is_Some (entry_to_vec e) /\ (Z.of_nat (length (appended l)) < i64_max)%Z)
      then {| appended := (appended l ++ [(Z.of_nat (length (appended l)) + 1, (task_id, e))])%list%Z; acknowledged := acknowledged l |}
      else l
  | Ack s true =>
      if decide (1 <= s <= Z.of_nat (length (appended l)))%Z
      then {| appended := appended l; acknowledged := acknowledged l ∪ {[s]} |} else l
  | _ => l
  end.

Definition log_of (calls : list WalCall) : LogSpec := foldl log_call {| appended := []; acknowledged := ∅ |} calls.

(** What comes back of an entry that is written and read.  An entry need not come back as it
    was: its blob may not decode (a value nested too deep), or to another value (a float). *)
Definition read_back (e : WalEntry) : option WalEntry := blob ← entry_to_vec e; entry_from_slice blob.

(** What recovery of a task must find: its entries that were not acknowledged, in order. *)
Definition outstanding (task_id : string) (l : LogSpec) : list (Z * WalEntry) :=
  map (fun x => (x.1, x.2.2)) (base.filter (fun x => x.2.1 = task_id /\ x.1 ∉ acknowledged l) (appended l)).

(** ** The log implements its specification *)

Definition row_of (acks : gset Z) (x : Z * (string * WalEntry)) (r : WalRow) : Prop :=
  seq r = x.1 /\ row_task_id r = x.2.1 /\ entry_to_vec x.2.2 = Some (entry r) /\ row_acked r = bool_decide (x.1 ∈ acks).

Record implements (l : LogSpec) (s : WalStore) : Prop := {
  impl_rows : Forall2 (row_of (acknowledged l)) (appended l) (wal_entries s);
  impl_sequence : sqlite_sequence s = Z.of_nat (length (appended l));
  impl_numbers : forall i x, appended l !! i = Some x -> x.1 = (Z.of_nat i + 1)%Z;
  impl_acks : forall n, n ∈ acknowledged l -> (1 <= n <= Z.of_nat (length (appended l)))%Z;
}.

Lemma row_of_grow acks n x r : x.1 <> n -> row_of acks x r -> row_of (acks ∪ {[n]}) x r.
Proof.
  intros Hn (H1 & H2 & H3 & H4). split_and!; [done..|]. rewrite H4. apply bool_decide_ext. set_solver.
Qed.

Lemma row_of_ack acks n x r : row_of acks x r -> row_of (acks ∪ {[n]}) x (ack_row n r).
Proof.
  intros (H1 & H2 & H3 & H4). unfold ack_row. rewrite H1. destruct (decide (x.1 = n)) as [Hn|Hn].
  - split_and!; cbn; try done. symmetry. apply bool_decide_eq_true. set_solver.
  - by apply row_of_grow.
Qed.

Lemma implements_append l s task_id e now db_ok :
  implements l s -> implements (log_call l (Append task_id e now db_ok)) (snd (append task_id e now db_ok s)).
Proof.
  intros [Hr Hs Hn Ha]. unfold append. cbn [log_call].
  destruct (entry_to_vec e) as [blob|] eqn:Eb.
  2: { destruct db_ok; [rewrite decide_False by (by intros [[? ?] _])|]; done. }
  destruct db_ok; cbn [negb]; [|done]. rewrite Hs. destruct (i64_max <=? _)%Z eqn:Ei.
  { apply Z.leb_le in Ei. rewrite decide_False by (intros [_ ?]; lia). done. }
  apply Z.leb_gt in Ei. rewrite decide_True by (by split). cbn [snd]. split; cbn.
  - apply Forall2_app; [done|]. constructor; [|constructor]. split_and!; cbn; [done..|].
    symmetry. apply bool_decide_eq_false. intros ?%Ha. lia.
  - rewrite length_app. cbn. lia.
  - intros i x. rewrite lookup_app_Some. intros [?|[Hi Hx]]; [by apply Hn|].
    destruct (i - length (appended l))%nat as [|k] eqn:Ek; [|by destruct k]. injection Hx as <-. cbn. lia.
  - intros n ?%Ha. rewrite length_app. cbn. lia.
Qed.

Lemma implements_ack l s n db_ok :
  implements l s -> implements (log_call l (Ack n db_ok)) (snd (ack n db_ok s)).
Proof.
  intros [Hr Hs Hn Ha]. cbn [log_call]. unfold ack. destruct db_ok; [|done]. cbn [snd].
  case_decide as Hin; split; cbn; try done.
  - apply Forall2_fmap_r. eapply Forall2_impl; [exact Hr|]. intros x r. apply row_of_ack.
  - intros m [?%Ha|Hm]%elem_of_union; [done|]. apply elem_of_singleton in Hm. by subst.
  - rewrite (map_ext_in _ id), map_id; [done|]. intros r [i Hi]%list_elem_of_In%list_elem_of_lookup.
    unfold ack_row. rewrite decide_False; [done|]. intros <-.
    destruct (Forall2_lookup_r _ _ _ _ _ Hr Hi) as (x & Hx & (Hsr & _)). pose proof (Hn _ _ Hx) as Hnx.
    apply lookup_lt_Some in Hx. apply Hin. rewrite Hsr. lia.
Qed.

Lemma implements_call l s c : implements l s -> implements (log_call l c) (wal_call s c).
Proof.
  destruct c as [task_id e now db_ok|n db_ok|key value db_ok|]; intros Hi.
  - by apply implements_append.
  - by apply implements_ack.
  - destruct Hi. cbn. by destruct db_ok.
  - done.
Qed.

Lemma implements_run calls : implements (log_of calls) (wal_run calls).
Proof.
  induction calls as [|c calls IH] using rev_ind.
  - split; cbn; [constructor|done|done|set_solver].
  - unfold log_of, wal_run in *. rewrite !foldl_snoc. by apply implements_call.
Qed.

(** Recovery decodes the rows of what is outstanding. *)
Lemma outstanding_rows acks task_id (xs : list (Z * (string * WalEntry))) (rows : list WalRow) :
  Forall2 (row_of acks) xs rows ->
  Forall2 (fun x r => seq r = x.1 /\ entry_to_vec x.2 = Some (entry r))
    (map (fun x => (x.1, x.2.2)) (base.filter (fun x => x.2.1 = task_id /\ x.1 ∉ acks) xs))
    (base.filter (fun r => row_task_id r = task_id /\ row_acked r = false) rows).
Proof.
  induction 1 as [|x r xs rows (H1 & H2 & H3 & H4) _ IH]; [constructor|].
  assert (He : row_task_id r = task_id /\ row_acked r = false <-> x.2.1 = task_id /\ x.1 ∉ acks)
    by (by rewrite H2, H4, bool_decide_eq_false).
  destruct (decide (x.2.1 = task_id /\ x.1 ∉ acks)) as [Hd|Hd].
  - rewrite (filter_cons_True _ r) by (by apply He). rewrite (filter_cons_True _ x) by done. by constructor.
  - rewrite (filter_cons_False _ r) by (by rewrite He). by rewrite (filter_cons_False _ x) by done.
Qed.

Lemma read_back_row (x : Z * WalEntry) (r : WalRow) : entry_to_vec x.2 = Some (entry r) -> read_back x.2 = entry_from_slice (entry r).
Proof. intros H. unfold read_back. by rewrite H. Qed.

Lemma decode_rows_ok (xs : list (Z * WalEntry)) (rows : list WalRow) :
  Forall2 (fun x r => seq r = x.1 /\ entry_to_vec x.2 = Some (entry r)) xs rows ->
  Forall (fun x => read_back x.2 = Some x.2) xs -> decode_rows rows = Ok xs.
Proof.
  induction 1 as [|[n e] r xs rows [Hs He] _ IH]; [done|]. intros [Hx Hxs]%Forall_cons. cbn [decode_rows].
  rewrite (read_back_row _ _ He) in Hx. cbn in Hs, Hx. by rewrite Hx, Hs, (IH Hxs).
Qed.

Lemma decode_rows_err (xs : list (Z * WalEntry)) (rows : list WalRow) :
  Forall2 (fun x r => seq r = x.1 /\ entry_to_vec x.2 = Some (entry r)) xs rows ->
  Exists (fun x => read_back x.2 = None) xs -> decode_rows rows = Err FromSqlConversionFailure.
Proof.
  induction 1 as [|x r xs rows [Hs He] _ IH]; [by intros ?%Exists_nil|]. intros [Hx|Hx]%Exists_cons; cbn [decode_rows];
    [rewrite (read_back_row _ _ He) in Hx; by rewrite Hx|].
  destruct (entry_from_slice (entry r)); [by rewrite (IH Hx)|done].
Qed.

Lemma recovery_rows calls task_id :
  Forall2 (fun x r => seq r = x.1 /\ entry_to_vec x.2 = Some (entry r))
    (outstanding task_id (log_of calls)) (unacked_rows task_id (wal_run calls)).
Proof. apply outstanding_rows, (impl_rows _ _ (implements_run calls)). Qed.

(** C28: the log implements its specification.  Over any appends, acknowledgements, state writes and
    restarts, with any statements failing, recovery of a task is about exactly the entries that
    were appended for it and not acknowledged afterwards, in the order of their numbers
    (acknowledging a number before it is given has no effect): if the encoding of each of them
    decodes to the entry it came from, recovery gives them as they were; if the encoding of one
    does not decode, the whole recovery fails with a conversion error. *)
Theorem recovery_exact (calls : list WalCall) (task_id : string) :
  (Forall (fun x => read_back x.2 = Some x.2) (outstanding task_id (log_of calls)) ->
   unacked task_id (wal_run calls) = Ok (outstanding task_id (log_of calls))) /\
  (Exists (fun x => read_back x.2 = None) (outstanding task_id (log_of calls)) ->
   unacked task_id (wal_run calls) = Err FromSqlConversionFailure).
Proof.
  split; [apply decode_rows_ok, recovery_rows|apply decode_rows_err, recovery_rows].
Qed.

(** *** No entry is lost before it is acknowledged *)

Lemma log_keeps calls : forall l,
  exists more, appended (foldl log_call l calls) = (appended l ++ more)%list /\
    forall n, n ∈ acknowledged (foldl log_call l calls) -> n ∈ acknowledged l \/ Ack n true ∈ calls.
Proof.
  induction calls as [|c calls IH]; intros l; [exists []; cbn; split; [by rewrite app_nil_r|auto]|].
  destruct (IH (log_call l c)) as (more & Hm & Ha). cbn [foldl].
  assert (Hc : exists m, appended (log_call l c) = (appended l ++ m)%list /\
                 forall n, n ∈ acknowledged (log_call l c) -> n ∈ acknowledged l \/ Ack n true = c).
  { destruct c as [task_id e now [|]|s [|]|key value db_ok|]; cbn; try case_decide;
      try (exists []; rewrite app_nil_r; split; [done|auto]; done); cbn.
    - eexists. split; [done|auto].
    - exists []. rewrite app_nil_r. split; [done|]. intros n [?|Hn]%elem_of_union; [by left|].
      apply elem_of_singleton in Hn as ->. by right. }
  destruct Hc as (m & Hm' & Ha'). exists (m ++ more)%list. rewrite Hm, Hm', app_assoc. split; [done|].
  intros n [Hn|Hn]%Ha; [|right; by right]. destruct (Ha' n Hn) as [?| <-]; [by left|right; by left].
Qed.

Lemma outstanding_sorted task_id l :
  (forall i x, appended l !! i = Some x -> x.1 = (Z.of_nat i + 1)%Z) -> StronglySorted Z.lt (map fst (outstanding task_id l)).
Proof.
  intros Hn. unfold outstanding. rewrite map_map. cbn.
  assert (Hs : StronglySorted Z.lt (map fst (appended l))).
  { revert Hn. generalize (appended l). intros xs Hn.
    assert (Hg : forall k, (forall i x, xs !! i = Some x -> x.1 = (Z.of_nat i + k)%Z) -> StronglySorted Z.lt (map fst xs)).
    { clear Hn. induction xs as [|x xs IH]; intros k Hk; [constructor|]. cbn. constructor.
      - apply (IH (k + 1)%Z). intros i y Hy. rewrite (Hk (S i) y Hy). lia.
      - apply List.Forall_forall. intros z Hz. apply in_map_iff in Hz as (y & <- & Hy).
        apply list_elem_of_In, list_elem_of_lookup in Hy as [i Hi].
        rewrite (Hk 0%nat x eq_refl), (Hk (S i) y Hi). lia. }
    by apply (Hg 1%Z). }
  clear Hn. induction (appended l) as [|x xs IH]; [constructor|]. cbn in Hs. apply StronglySorted_inv in Hs as [Hs Hx].
  rewrite filter_cons. case_decide; [|by apply IH]. cbn. constructor; [by apply IH|].
  apply List.Forall_forall. intros z Hz. apply in_map_iff in Hz as (y & <- & Hy).
  rewrite List.Forall_forall in Hx. apply Hx, in_map. apply list_elem_of_In in Hy. apply list_elem_of_filter in Hy as [_ Hy].
  by apply list_elem_of_In.
Qed.

(** An entry whose append returned a number is found by every recovery of its task, once and in
    order, until that number is acknowledged, as long as what is outstanding decodes to what
    was encoded. *)
Theorem entry_survives_until_acked (calls1 calls2 : list WalCall) (task_id : string) (e : WalEntry) (now n : Z) (s : WalStore) :
  append task_id e now true (wal_run calls1) = (Ok n, s) ->
  Ack n true ∉ calls2 ->
  Forall (fun x => read_back x.2 = Some x.2) (outstanding task_id (log_of (calls1 ++ Append task_id e now true :: calls2))) ->
  exists l, unacked task_id (wal_run (calls1 ++ Append task_id e now true :: calls2)) = Ok l /\ (n, e) ∈ l /\
    StronglySorted Z.lt (map fst l).
Proof.
  intros Hap Hack Hback. set (calls := (calls1 ++ Append task_id e now true :: calls2)%list).
  exists (outstanding task_id (log_of calls)). split; [by apply decode_rows_ok, Hback; apply recovery_rows|].
  split; [|apply outstanding_sorted, (impl_numbers _ _ (implements_run calls))].
  destruct (implements_run calls1) as [_ Hs _ Ha]. set (l1 := log_of calls1) in *.
  assert (Hl : log_call l1 (Append task_id e now true) =
    {| appended := (appended l1 ++ [(n, (task_id, e))])%list; acknowledged := acknowledged l1 |} /\ n ∉ acknowledged l1).
  { unfold append in Hap. cbn. destruct (entry_to_vec e) as [blob|]; [|done]. cbn in Hap.
    destruct (i64_max <=? _)%Z eqn:Ei; [done|]. apply Z.leb_gt in Ei. rewrite Hs in *. injection Hap as <- _.
    rewrite decide_True by (by split). split; [done|]. intros ?%Ha. lia. }
  destruct Hl as [Hl Hna]. destruct (log_keeps calls2 (log_call l1 (Append task_id e now true))) as (more & Hm & Hk).
  assert (El : log_of calls = foldl log_call (log_call l1 (Append task_id e now true)) calls2).
  { unfold log_of, calls. rewrite foldl_app. done. }
  unfold outstanding. apply list_elem_of_fmap. exists (n, (task_id, e)). split; [done|].
  apply list_elem_of_filter. rewrite El, Hm, Hl. split.
  - split; [done|]. intros Hin. rewrite <- Hl in Hin. apply Hk in Hin as [Hin|?]; [by rewrite Hl in Hin|done].
  - cbn. rewrite !elem_of_app, list_elem_of_singleton. auto.
Qed.

(** *** The idempotency cache *)

(** a cached result is given back until it expires.  Under the documented order of the text of
    instants, for lifetimes that fit and end before the year 10000: a check of the key, over
    any later writes of other keys, gives the result exactly while the lifetime lasts. *)
Theorem idempotency_exact `{!WalLaws} (s s' : WalStore) (key : string) (res : Blob) (ttl now later : Z)
    (others : list (string * (Blob * string))) (r : result () SqliteError) :
  cache_idempotency key res ttl now true s = Ret (r, s') ->
  0 <= now -> 0 <= ttl -> (ttl / 1000000 <= i64_max)%Z -> now + ttl < YEAR_10000 -> 0 <= later < YEAR_10000 ->
  Forall (fun o => o.1 <> key) others ->
  let cache := foldl (fun m o => <[o.1 := o.2]> m) (idempotency_cache s') others in
  check_idempotency key later {| wal_entries := wal_entries s'; sqlite_sequence := sqlite_sequence s';
                                 worker_state := worker_state s'; idempotency_cache := cache |}
  = if (later <? now + ttl)%Z then Some res else None.
Proof.
  intros Hc Hn Ht Hfit Hend Hl Ho cache. unfold cache_idempotency, ttl_or_default in Hc.
  rewrite (proj2 (Z.leb_le _ _) Hfit) in Hc. destruct (MAX_UTC <? _)%Z; [done|]. injection Hc as _ <-.
  unfold check_idempotency. cbn [idempotency_cache].
  assert (Hk : cache !! key = Some (res, to_rfc3339 (now + ttl))).
  { unfold cache. cbn [idempotency_cache].
    assert (H0 : <[key:=(res, to_rfc3339 (now + ttl))]> (idempotency_cache s) !! key = Some (res, to_rfc3339 (now + ttl)))
      by (by rewrite lookup_insert_eq).
    revert H0. generalize (<[key:=(res, to_rfc3339 (now + ttl))]> (idempotency_cache s)). clear cache.
    induction Ho as [|o others Hne _ IH]; intros m H0; [done|]. cbn [foldl]. apply IH. by rewrite lookup_insert_ne. }
  rewrite Hk, rfc3339_order; [done|lia|lia].
Qed.

(** A lifetime of more milliseconds than an [i64] counts becomes zero: the result is never found. *)
Theorem endless_ttl_expires_at_once `{!WalLaws} (s s' : WalStore) (key : string) (res : Blob) (ttl now later : Z) (r : result () SqliteError) :
  cache_idempotency key res ttl now true s = Ret (r, s') ->
  (i64_max < ttl / 1000000)%Z -> 0 <= now <= later -> later < YEAR_10000 ->
  check_idempotency key later s' = None.
Proof.
  unfold cache_idempotency, ttl_or_default. intros Hc Hfit Hn Hl.
  rewrite (proj2 (Z.leb_gt _ _) Hfit) in Hc. destruct (MAX_UTC <? _)%Z; [done|]. injection Hc as _ <-.
  unfold check_idempotency. cbn [idempotency_cache]. rewrite lookup_insert_eq, rfc3339_order by lia.
  by rewrite (proj2 (Z.ltb_ge _ _)) by lia.
Qed.

(** A lifetime that ends after the last instant of the calendar panics. *)
Lemma cache_panics_iff key res ttl now db_ok s :
  cache_idempotency key res ttl now db_ok s = Panic <-> (MAX_UTC < now + ttl_or_default ttl)%Z.
Proof. unfold cache_idempotency. destruct (Z.ltb_spec MAX_UTC (now + ttl_or_default ttl)); split; [done..|lia]. Qed.

(** State written is state read. *)
Lemma get_set_state key key' value s :
  get_state key (snd (set_state key' value true s)) = if decide (key = key') then Some value else get_state key s.
Proof.
  unfold get_state. cbn. case_decide; [subst; by rewrite lookup_insert_eq|by rewrite lookup_insert_ne].
Qed.

End Wal.

(** ** A library for the examples: blobs are entries, times are binary numerals of one width *)

Fixpoint binary (w : nat) (z : Z) : string :=
  match w with
  | O => ""
  | S w => if (2 ^ Z.of_nat w <=? z)%Z then String "1"%char (binary w (z - 2 ^ Z.of_nat w)) else String "0"%char (binary w z)
  end.

Lemma binary_order w : forall s t, 0 <= s < 2 ^ Z.of_nat w -> 0 <= t < 2 ^ Z.of_nat w ->
  String.ltb (binary w s) (binary w t) = (s <? t)%Z.
Proof.
  induction w as [|w IH]; intros s t Hs Ht.
  - change (2 ^ Z.of_nat 0) with 1 in *. assert (s = 0) as -> by lia. by assert (t = 0) as -> by lia.
  - replace (2 ^ Z.of_nat (S w)) with (2 * 2 ^ Z.of_nat w) in * by (rewrite Nat2Z.inj_succ, Z.pow_succ_r; lia).
    cbn [binary]. destruct (Z.leb_spec (2 ^ Z.of_nat w) s), (Z.leb_spec (2 ^ Z.of_nat w) t).
    + change (String.ltb (String "1"%char ?a) (String "1"%char ?b)) with (String.ltb a b).
      transitivity (String.ltb (binary w (s - 2 ^ Z.of_nat w)) (binary w (t - 2 ^ Z.of_nat w))); [done|].
      rewrite IH by lia. apply Bool.eq_iff_eq_true. rewrite !Z.ltb_lt. lia.
    + transitivity false; [done|]. symmetry. apply Z.ltb_ge. lia.
    + transitivity true; [done|]. symmetry. apply Z.ltb_lt. lia.
    + transitivity (String.ltb (binary w s) (binary w t)); [done|]. apply IH; lia.
Qed.

#[local] Instance toy_wal : WalLib :=
  {| Blob := WalEntry; entry_to_vec := Some; entry_from_slice := Some; to_rfc3339 := binary 70 |}.

#[local] Instance toy_wal_laws : WalLaws.
Proof.
  split.
  intros s t Hs Ht. cbn [to_rfc3339 toy_wal].
  assert (YEAR_10000 < 2 ^ Z.of_nat 70) by (vm_compute; reflexivity). apply binary_order; lia.
Qed.

Definition crash_run : list WalCall :=
  [Ack 2 true; Append "t1" (OodaCycleComplete 1) 5 true; Append "t2" (OodaCycleComplete 9) 6 true;
   Append "t1" (HardwareCommand "k" "stop" false) 7 false; Append "t1" (OodaCycleComplete 2) 8 true; Ack 1 true].

Lemma recovery_exact_witness : unacked "t1" (wal_run (crash_run ++ [Reopen])) = Ok [(3, OodaCycleComplete 2)].
Proof.
  rewrite (proj1 (recovery_exact (crash_run ++ [Reopen]) "t1")); [vm_compute; reflexivity|].
  vm_compute. repeat constructor.
Defined.

(** One entry whose blob does not decode: no entry of the task is recovered. *)
Example undecodable_entry_blocks :
  let lib := {| Blob := WalEntry; entry_to_vec := Some;
                entry_from_slice e := match e with OodaCycleComplete 1 => None | _ => Some e end; to_rfc3339 := binary 70 |} in
  let calls := [Append "t1" (OodaCycleComplete 1) 5 true; Append "t1" (OodaCycleComplete 2) 8 true] in
  unacked (Lib := lib) "t1" (wal_run (Lib := lib) calls) = Err FromSqlConversionFailure.
Proof. reflexivity. Qed.

Lemma entry_survives_until_acked_witness :
  exists l, unacked "t2" (wal_run ([Ack 2 true] ++ Append "t2" (OodaCycleComplete 9) 6 true :: [Reopen; Ack 7 true])) = Ok l /\
    (1, OodaCycleComplete 9) ∈ l /\ StronglySorted Z.lt (map fst l).
Proof.
  apply (entry_survives_until_acked [Ack 2 true] [Reopen; Ack 7 true] "t2" (OodaCycleComplete 9) 6 1
    (snd (append "t2" (OodaCycleComplete 9) 6 true (wal_run [Ack 2 true])))).
  - reflexivity.
  - intros H. repeat (apply elem_of_cons in H as [H|H]; [discriminate H|]). apply not_elem_of_nil in H. exact H.
  - vm_compute. repeat constructor.
Defined.

Definition cached_store : WalStore :=
  {| wal_entries := []; sqlite_sequence := 0; worker_state := ∅;
     idempotency_cache := <["k" := (OodaCycleComplete 4, binary 70 110)]> ∅ |}.

Lemma idempotency_exact_witness :
  cache_idempotency YEAR_10000 "k" (OodaCycleComplete 4) 10 100 true empty_store = Ret (Ok (), cached_store) /\
  check_idempotency "k" 109 {| wal_entries := wal_entries cached_store; sqlite_sequence := sqlite_sequence cached_store;
                               worker_state := worker_state cached_store; idempotency_cache := idempotency_cache cached_store |}
    = Some (OodaCycleComplete 4).
Proof.
  assert (Hc : cache_idempotency YEAR_10000 "k" (OodaCycleComplete 4) 10 100 true empty_store = Ret (Ok (), cached_store)) by reflexivity.
  split; [exact Hc|].
  refine (idempotency_exact YEAR_10000 empty_store cached_store "k" (OodaCycleComplete 4) 10 100 109 [] (Ok ()) Hc _ _ _ _ _ _).
  - discriminate.
  - discriminate.
  - vm_compute. discriminate.
  - vm_compute. reflexivity.
  - split; [discriminate|vm_compute; reflexivity].
  - constructor.
Defined.
