(* ===== verification/SimDistance.v ===== *)
(** * Distances between trajectories

    roz-core/sim2real/dtw.rs (dynamic time warping with a band) and frechet.rs (the discrete
    Fréchet distance): two dynamic programs over a table of costs, and the path the first one
    walks back.  A cell is [f64]; the distance of points is nalgebra's, an argument. *)

From S2P Require Import Prelude Float64 Float64Round Float64Mono.

Definition INFINITY : f64 := S754_infinity false.

(** ** The table *)

(** Both programs fill a table row by row: a cell combines its own distance with the least of
    its three neighbours above and to the left; on the borders there is one neighbour, at the
    origin none.  Cells out of the band keep the initial infinity. *)
Section Table.
Context (dist : nat -> nat -> f64) (in_band : nat -> nat -> bool) (first : f64 -> f64) (combine : f64 -> f64 -> f64).

(** [cost[i][j]]; reads are always in range. *)
Definition at_cell (cost : list (list f64)) (i j : nat) : f64 := nth j (nth i cost []) INFINITY.

Definition least_of (up left diag : f64) : f64 := f64_min (f64_min up left) diag.

(** The body of the inner loop, from the row above and the cells of this row so far. *)
Definition cell (i j : nat) (above row : list f64) : f64 :=
  if negb (in_band i j) then INFINITY
  else
    let d := dist i j in
    match i, j with
    | O, O => first d
    | O, S j' => combine d (nth j' row INFINITY)
    | S _, O => combine d (nth 0 above INFINITY)
    | S _, S j' => combine d (least_of (nth j above INFINITY) (nth j' row INFINITY) (nth j' above INFINITY))
    end.

(** [for j in 0..m] and [for i in 0..n]; [k] counts the turns left. *)
Fixpoint fill_row (i j k : nat) (above row : list f64) : list f64 :=
  match k with
  | O => row
  | S k => fill_row i (S j) k above (row ++ [cell i j above row])
  end.

Fixpoint fill_rows (i k m : nat) (above : list f64) (cost : list (list f64)) : list (list f64) :=
  match k with
  | O => cost
  | S k => let row := fill_row i 0 m above [] in fill_rows (S i) k m row (cost ++ [row])
  end.

Definition fill (n m : nat) : list (list f64) := fill_rows 0 n m [] [].

(** The walk back from the last cell, the path growing at its front. *)
Fixpoint backtrack (cost : list (list f64)) (fuel i j : nat) (path : list (nat * nat)) : list (nat * nat) :=
  match fuel with
  | O => path
  | S fuel =>
      match i, j with
      | O, O => path
      | O, S j' => backtrack cost fuel 0 j' ((0, j')%nat :: path)
      | S i', O => backtrack cost fuel i' 0 ((i', 0)%nat :: path)
      | S i', S j' =>
          let diag := at_cell cost i' j' in
          let left := at_cell cost (S i') j' in
          let up := at_cell cost i' (S j') in
          if f64_le diag left && f64_le diag up then backtrack cost fuel i' j' ((i', j') :: path)
          else if f64_le up left then backtrack cost fuel i' (S j') ((i', S j') :: path)
          else backtrack cost fuel (S i') j' ((S i', j') :: path)
      end
  end.

(** ** The reference: paths through the table *)

Definition next (p q : nat * nat) : Prop :=
  q = (S p.1, p.2) \/ q = (p.1, S p.2) \/ q = (S p.1, S p.2).

(** A path from the origin to a cell. *)
Inductive path_to : list (nat * nat) -> nat * nat -> Prop :=
| path_origin : path_to [(0, 0)%nat] (0, 0)%nat
| path_step l p q : path_to l p -> next p q -> path_to (l ++ [q]) q.

Definition in_band_all (l : list (nat * nat)) : Prop := Forall (fun p => in_band p.1 p.2 = true) l.

(** The cost of a path, accumulated along it. *)
Definition path_cost (l : list (nat * nat)) : f64 :=
  match l with
  | [] => zero
  | p :: l => foldl (fun c q => combine (dist q.1 q.2) c) (first (dist p.1 p.2)) l
  end.

(** ** What the table holds *)

Lemma fill_row_length i k above : forall j row, length (fill_row i j k above row) = (length row + k)%nat.
Proof. induction k as [|k IH]; intros j row; cbn [fill_row]; [lia|]. rewrite IH, length_app. cbn. lia. Qed.

Lemma fill_row_prefix i k above : forall j row, exists more, fill_row i j k above row = row ++ more.
Proof.
  induction k as [|k IH]; intros j row; cbn [fill_row]; [exists []; by rewrite app_nil_r|].
  destruct (IH (S j) (row ++ [cell i j above row])) as [more ->]. rewrite <- app_assoc. by eexists.
Qed.

Lemma cell_ext i j above row row' :
  (forall j', j = S j' -> nth j' row INFINITY = nth j' row' INFINITY) -> cell i j above row = cell i j above row'.
Proof.
  intros H. unfold cell. destruct (negb _); [done|]. destruct i, j; try done; by rewrite (H j eq_refl).
Qed.

Lemma fill_row_nth i k above : forall j row, length row = j -> forall j', (j <= j' < j + k)%nat ->
  nth j' (fill_row i j k above row) INFINITY = cell i j' above (fill_row i j k above row).
Proof.
  induction k as [|k IH]; intros j row Hl j' Hj; [lia|]. cbn [fill_row].
  set (v := cell i j above row). destruct (Nat.eq_dec j' j) as [->|Hne].
  - destruct (fill_row_prefix i k above (S j) (row ++ [v])) as [more E]. rewrite E.
    subst j. rewrite <- app_assoc, app_nth2, Nat.sub_diag by lia. cbn [nth app]. unfold v. apply cell_ext.
    intros p Hp. rewrite app_nth1; [done|lia].
  - apply IH; [rewrite length_app; cbn; lia|lia].
Qed.

Lemma fill_rows_prefix m k : forall i above cost, exists more, fill_rows i k m above cost = cost ++ more.
Proof.
  induction k as [|k IH]; intros i above cost; cbn [fill_rows]; [exists []; by rewrite app_nil_r|].
  destruct (IH (S i) (fill_row i 0 m above []) (cost ++ [fill_row i 0 m above []])) as [more ->].
  rewrite <- app_assoc. by eexists.
Qed.

Lemma fill_rows_nth m k : forall i above cost, length cost = i -> above = nth (pred i) cost [] -> forall i', (i <= i' < i + k)%nat ->
  nth i' (fill_rows i k m above cost) [] = fill_row i' 0 m (nth (pred i') (fill_rows i k m above cost) []) [] \/
  (i' = 0%nat /\ nth i' (fill_rows i k m above cost) [] = fill_row 0 0 m above []).
Proof.
  induction k as [|k IH]; intros i above cost Hl Ha i' Hi; [lia|]. cbn [fill_rows].
  set (row := fill_row i 0 m above []). destruct (Nat.eq_dec i' i) as [->|Hne].
  - destruct (fill_rows_prefix m k (S i) row (cost ++ [row])) as [more E]. rewrite E.
    rewrite <- app_assoc, app_nth2 by lia. replace (i - length cost)%nat with 0%nat by lia. cbn [nth app].
    destruct i as [|i]; [by right|]. left. rewrite app_nth1 by (cbn; lia). unfold row. by rewrite Ha.
  - destruct (IH (S i) row (cost ++ [row])) with (i' := i') as [?|[? _]]; [rewrite length_app; cbn; lia| |lia|by left|lia].
    cbn. rewrite app_nth2 by lia. by rewrite Hl, Nat.sub_diag.
Qed.

Lemma fill_row_of n m i : (i < n)%nat -> exists above,
  nth i (fill n m) [] = fill_row i 0 m above [] /\ forall i', i = S i' -> above = nth i' (fill n m) [].
Proof.
  intros Hi. unfold fill. destruct (fill_rows_nth m n 0 [] [] eq_refl eq_refl i) as [H|[-> H]]; [lia| |].
  - rewrite H. eexists. split; [done|]. by intros i' ->.
  - rewrite H. exists []. by split.
Qed.

(** The cells of the filled table satisfy the recurrence. *)
Definition prev_cell (cost : list (list f64)) (i j : nat) : f64 :=
  match i, j with
  | O, O => zero
  | O, S j' => at_cell cost 0 j'
  | S i', O => at_cell cost i' 0
  | S i', S j' => least_of (at_cell cost i' (S j')) (at_cell cost (S i') j') (at_cell cost i' j')
  end.

Lemma fill_cell n m i j : (i < n)%nat -> (j < m)%nat ->
  at_cell (fill n m) i j =
  if in_band i j then match i, j with O, O => first (dist 0 0) | _, _ => combine (dist i j) (prev_cell (fill n m) i j) end
  else INFINITY.
Proof.
  intros Hi Hj. destruct (fill_row_of n m i Hi) as (above & Hrow & Habove).
  unfold at_cell at 1. rewrite Hrow. rewrite (fill_row_nth i m above 0 [] eq_refl j) by lia. rewrite <- Hrow.
  unfold cell. destruct (in_band i j); [|done]. cbn [negb].
  destruct i as [|i], j as [|j]; cbn [prev_cell]; unfold at_cell; [done|done| |]; by rewrite (Habove i eq_refl).
Qed.

(** ** Costs *)

(** A cost: a number without a sign, possibly infinite. *)
Definition cost_ok (c : f64) : Prop := valid c = true /\ is_nan c = false /\ is_sign_negative c = false.

Lemma infinity_ok : cost_ok INFINITY.
Proof. done. Qed.

Lemma cost_nonneg c : cost_ok c -> f64_le zero c = true.
Proof. by intros (_ & ? & ?); destruct c as [[]|[]| |[]]. Qed.

Lemma cost_le_infinity c : cost_ok c -> f64_le c INFINITY = true.
Proof. by intros (_ & ? & ?); destruct c as [[]|[]| |[]]. Qed.

Lemma cost_antisym a b : cost_ok a -> cost_ok b -> f64_le a b = true -> f64_le b a = true -> a = b.
Proof.
  intros (Va & Na & Sa) (Vb & Nb & Sb) H1 H2. destruct a as [[]|[]| |[] ma ea], b as [[]|[]| |[] mb eb]; try done.
  apply f64_le_spec in H1 as (_ & _ & H1). apply f64_le_spec in H2 as (_ & _ & H2). unfold rank_lt in *. cbn in *.
  assert (ea = eb) as -> by lia. by assert (ma = mb) as -> by lia.
Qed.

Lemma cost_total a b : cost_ok a -> cost_ok b -> f64_le a b = false -> f64_lt b a = true /\ f64_le b a = true.
Proof. intros (_ & Na & _) (_ & Nb & _) H. split; f64_order. Qed.

Lemma f64_min_ok a b : cost_ok a -> cost_ok b ->
  cost_ok (f64_min a b) /\ f64_le (f64_min a b) a = true /\ f64_le (f64_min a b) b = true.
Proof.
  intros Ha Hb. destruct Ha as (Va & Na & Sa), Hb as (Vb & Nb & Sb). unfold f64_min. rewrite Na, Nb.
  destruct (f64_lt b a) eqn:E; (split; [done|]); split; f64_order.
Qed.

Lemma f64_min_glb a b c : f64_le c a = true -> f64_le c b = true -> f64_le c (f64_min a b) = true.
Proof. intros Ha Hb. unfold f64_min. by repeat case_match. Qed.

Lemma f64_min_l a b : cost_ok a -> cost_ok b -> f64_le a b = true -> f64_min a b = a.
Proof. intros (_ & Na & _) (_ & Nb & _) H. unfold f64_min. rewrite Na, Nb. destruct (f64_lt b a) eqn:E; [exfalso; f64_order|done]. Qed.

Lemma f64_min_r a b : cost_ok a -> cost_ok b -> f64_lt b a = true -> f64_min a b = b.
Proof. intros (_ & Na & _) (_ & Nb & _) H. unfold f64_min. by rewrite Na, Nb, H. Qed.

Lemma least_of_ok up left diag : cost_ok up -> cost_ok left -> cost_ok diag ->
  cost_ok (least_of up left diag) /\ f64_le (least_of up left diag) up = true /\
  f64_le (least_of up left diag) left = true /\ f64_le (least_of up left diag) diag = true.
Proof.
  intros Hu Hl Hd. unfold least_of. destruct (f64_min_ok up left Hu Hl) as (H1 & H2 & H3).
  destruct (f64_min_ok _ diag H1 Hd) as (H4 & H5 & H6).
  split; [done|]. split; [exact (f64_le_trans _ _ _ H5 H2)|]. split; [exact (f64_le_trans _ _ _ H5 H3)|done].
Qed.

(** The neighbour the walk back chooses is the least. *)
Lemma least_of_choice up left diag : cost_ok up -> cost_ok left -> cost_ok diag ->
  least_of up left diag =
  if f64_le diag left && f64_le diag up then diag else if f64_le up left then up else left.
Proof.
  intros Hu Hl Hd. pose proof (least_of_ok up left diag Hu Hl Hd) as (Ho & H1 & H2 & H3).
  destruct (f64_le diag left) eqn:E1, (f64_le diag up) eqn:E2; cbn [andb].
  - apply cost_antisym; [done..|]. unfold least_of. repeat apply f64_min_glb; [done|done|by apply f64_le_refl, Hd].
  - destruct (cost_total _ _ Hd Hu E2) as [Hlt Hle]. assert (E3 : f64_le up left = true) by (exact (f64_le_trans _ _ _ Hle E1)).
    rewrite E3. unfold least_of. by rewrite (f64_min_l up left), (f64_min_l up diag).
  - destruct (cost_total _ _ Hd Hl E1) as [Hlt Hle]. destruct (f64_le up left) eqn:E3.
    + unfold least_of. rewrite (f64_min_l up left) by done. apply f64_min_l; [done..|exact (f64_le_trans _ _ _ E3 Hle)].
    + destruct (cost_total _ _ Hu Hl E3) as [Hlt' _]. unfold least_of. rewrite (f64_min_r up left) by done. by apply f64_min_l.
  - destruct (cost_total _ _ Hd Hl E1) as [Hlt Hle]. destruct (f64_le up left) eqn:E3.
    + unfold least_of. rewrite (f64_min_l up left) by done. destruct (cost_total _ _ Hd Hu E2) as [_ ?]. by apply f64_min_l.
    + destruct (cost_total _ _ Hu Hl E3) as [Hlt' _]. unfold least_of. rewrite (f64_min_r up left) by done. by apply f64_min_l.
Qed.

(** ** The table holds the least costs *)

Section Optimal.
Context (Hdist : forall i j, cost_ok (dist i j)).
Context (Hfirst : forall d, cost_ok d -> cost_ok (first d)).
Context (Hcombine : forall d c, cost_ok d -> cost_ok c -> cost_ok (combine d c)).
Context (Hmono : forall d a b, cost_ok d -> cost_ok a -> cost_ok b -> f64_le a b = true -> f64_le (combine d a) (combine d b) = true).
Context (n m : nat).

Lemma cell_ok : forall s i j, (i + j < s)%nat -> (i < n)%nat -> (j < m)%nat -> cost_ok (at_cell (fill n m) i j).
Proof using Hdist Hfirst Hcombine.
  induction s as [|s IH]; intros i j Hs Hi Hj; [lia|]. rewrite fill_cell by done.
  destruct (in_band i j); [|done]. destruct i as [|i], j as [|j]; cbn [prev_cell]; [by apply Hfirst|..]; apply Hcombine; try done.
  1-2: apply IH; lia. apply least_of_ok; apply IH; lia.
Qed.

Lemma cell_cost_ok i j : (i < n)%nat -> (j < m)%nat -> cost_ok (at_cell (fill n m) i j).
Proof using Hdist Hfirst Hcombine. intros. by apply (cell_ok (S (i + j))); [lia|..]. Qed.

Lemma path_to_cons l q : path_to l q -> exists p rest, l = p :: rest.
Proof. intros H. destruct H as [|l p q H _]; [by eexists _, _|]. destruct l; by eexists _, _. Qed.

Lemma path_cost_snoc l p q : path_to l p -> path_cost (l ++ [q]) = combine (dist q.1 q.2) (path_cost l).
Proof. intros H. destruct (path_to_cons l p H) as (x & rest & ->). cbn. by rewrite foldl_app. Qed.

Lemma path_last l q : path_to l q -> exists l', l = l' ++ [q].
Proof. intros []; [by exists []|by eexists]. Qed.

(** No path in the band costs less than its cell. *)
Lemma path_lower l q : path_to l q -> in_band_all l -> (q.1 < n)%nat -> (q.2 < m)%nat ->
  cost_ok (path_cost l) /\ f64_le (at_cell (fill n m) q.1 q.2) (path_cost l) = true.
Proof using Hdist Hfirst Hcombine Hmono.
  induction 1 as [|l p q Hp IH Hn]; intros Hb Hi Hj.
  - cbn in *. rewrite fill_cell by done. apply Forall_cons in Hb as [Hb _]. cbn in Hb. rewrite Hb.
    split; [by apply Hfirst|]. apply f64_le_refl. by destruct (Hfirst _ (Hdist 0 0)) as (_ & ? & _).
  - apply Forall_app in Hb as [Hb Hq]. apply Forall_cons in Hq as [Hq _].
    assert (Hr : (p.1 < n)%nat /\ (p.2 < m)%nat) by (destruct Hn as [-> |[-> | ->]]; cbn in *; lia).
    destruct (IH Hb (proj1 Hr) (proj2 Hr)) as [Hok Hle]. rewrite (path_cost_snoc l p q Hp).
    split; [by apply Hcombine|]. rewrite fill_cell, Hq by done.
    pose proof (cell_cost_ok p.1 p.2 (proj1 Hr) (proj2 Hr)) as Hc.
    destruct q as [i j], p as [pi pj]. cbn [fst snd] in *.
    destruct i as [|i], j as [|j].
    + by destruct Hn as [[=]|[[=]|[=]]].
    + cbn [prev_cell]. apply Hmono; [done|apply cell_cost_ok; lia|done|].
      destruct Hn as [[=]|[[=]|[=]]]; by subst.
    + cbn [prev_cell]. apply Hmono; [done|apply cell_cost_ok; lia|done|].
      destruct Hn as [[=]|[[=]|[=]]]; by subst.
    + cbn [prev_cell]. destruct (least_of_ok (at_cell (fill n m) i (S j)) (at_cell (fill n m) (S i) j) (at_cell (fill n m) i j))
        as (H0 & H1 & H2 & H3); [apply cell_cost_ok; lia..|]. apply Hmono; [done|done|done|].
      destruct Hn as [[=]|[[=]|[=]]]; subst.
      * exact (f64_le_trans _ _ _ H1 Hle).
      * exact (f64_le_trans _ _ _ H2 Hle).
      * exact (f64_le_trans _ _ _ H3 Hle).
Qed.

(** A band that a walk back along the least neighbours cannot leave. *)
Context (Hband_row : forall j, in_band 0 (S j) = true -> in_band 0 j = true).
Context (Hband_col : forall i, in_band (S i) 0 = true -> in_band i 0 = true).
Context (Hband_diag : forall i j, in_band (S i) (S j) = true -> in_band i j = true).

Lemma out_of_band i j : (i < n)%nat -> (j < m)%nat -> in_band i j = false -> at_cell (fill n m) i j = INFINITY.
Proof. intros Hi Hj Hb. by rewrite fill_cell, Hb. Qed.

(** The walk back from a cell of the band is a path in the band, and its cost is the cell. *)
Lemma backtrack_path fuel : forall i j path,
  (i + j <= fuel)%nat -> (i < n)%nat -> (j < m)%nat -> in_band i j = true ->
  exists l, backtrack (fill n m) fuel i j path = l ++ path /\ path_to (l ++ [(i, j)]) (i, j) /\
    in_band_all (l ++ [(i, j)]) /\ path_cost (l ++ [(i, j)]) = at_cell (fill n m) i j.
Proof using Hdist Hfirst Hcombine Hband_row Hband_col Hband_diag.
  assert (Hdone : forall path fuel, in_band 0 0 = true -> (0 < n)%nat -> (0 < m)%nat ->
    exists l, backtrack (fill n m) fuel 0 0 path = l ++ path /\ path_to (l ++ [(0, 0)%nat]) (0, 0)%nat /\
    in_band_all (l ++ [(0, 0)%nat]) /\ path_cost (l ++ [(0, 0)%nat]) = at_cell (fill n m) 0 0).
  { intros path f Hb Hn Hm. exists []. cbn [app]. split; [by destruct f|]. split; [constructor|].
    split; [by constructor|]. by rewrite fill_cell, Hb. }
  assert (Hstep : forall i j i' j' path f l, (i < n)%nat -> (j < m)%nat -> in_band i j = true -> next (i', j') (i, j) ->
    at_cell (fill n m) i j = combine (dist i j) (at_cell (fill n m) i' j') ->
    backtrack (fill n m) f i' j' ((i', j') :: path) = l ++ (i', j') :: path -> path_to (l ++ [(i', j')]) (i', j') ->
    in_band_all (l ++ [(i', j')]) -> path_cost (l ++ [(i', j')]) = at_cell (fill n m) i' j' ->
    exists l', backtrack (fill n m) f i' j' ((i', j') :: path) = l' ++ path /\ path_to (l' ++ [(i, j)]) (i, j) /\
    in_band_all (l' ++ [(i, j)]) /\ path_cost (l' ++ [(i, j)]) = at_cell (fill n m) i j).
  { intros i j i' j' path f l Hi Hj Hb Hn Hc He Hp Hl Hcost. exists (l ++ [(i', j')]). split; [by rewrite He, <- app_assoc|].
    split; [by eapply path_step|]. split; [apply Forall_app; split; [done|by constructor]|].
    by rewrite (path_cost_snoc _ _ _ Hp), Hcost, Hc. }
  induction fuel as [|fuel IH]; intros i j path Hf Hi Hj Hb.
  { assert (i = 0%nat) as -> by lia. assert (j = 0%nat) as -> by lia. by apply Hdone. }
  destruct i as [|i], j as [|j]; [by apply Hdone|..]; cbn [backtrack].
  - destruct (IH 0%nat j ((0, j)%nat :: path)) as (l & ? & ? & ? & ?); [lia|lia|lia|by apply Hband_row|].
    eapply (Hstep 0%nat (S j) 0%nat j); eauto; [by right; left|]. by rewrite (fill_cell n m 0 (S j)), Hb by done.
  - destruct (IH i 0%nat ((i, 0)%nat :: path)) as (l & ? & ? & ? & ?); [lia|lia|lia|by apply Hband_col|].
    eapply (Hstep (S i) 0%nat i 0%nat); eauto; [by left|]. by rewrite (fill_cell n m (S i) 0), Hb by done.
  - pose proof (cell_cost_ok i (S j) ltac:(lia) ltac:(lia)) as Hu. pose proof (cell_cost_ok (S i) j ltac:(lia) ltac:(lia)) as Hl.
    pose proof (cell_cost_ok i j ltac:(lia) ltac:(lia)) as Hd.
    pose proof (fill_cell n m (S i) (S j) Hi Hj) as Hc. rewrite Hb in Hc. cbn [prev_cell] in Hc.
    rewrite (least_of_choice _ _ _ Hu Hl Hd) in Hc.
    destruct (f64_le (at_cell (fill n m) i j) (at_cell (fill n m) (S i) j) && f64_le (at_cell (fill n m) i j) (at_cell (fill n m) i (S j))) eqn:Ed.
    + destruct (IH i j ((i, j) :: path)) as (l & ? & ? & ? & ?); [lia|lia|lia|by apply Hband_diag|].
      eapply (Hstep (S i) (S j) i j); eauto. by right; right.
    + destruct (f64_le (at_cell (fill n m) i (S j)) (at_cell (fill n m) (S i) j)) eqn:Eu.
      * assert (Hbu : in_band i (S j) = true).
        { destruct (in_band i (S j)) eqn:E; [done|exfalso]. rewrite (out_of_band i (S j)) in * by (done || lia).
          assert (Hinf : f64_le (at_cell (fill n m) i j) (at_cell (fill n m) (S i) j) = true)
            by (exact (f64_le_trans _ _ _ (cost_le_infinity _ Hd) Eu)).
          by rewrite Hinf, (cost_le_infinity _ Hd) in Ed. }
        destruct (IH i (S j) ((i, S j) :: path)) as (l & ? & ? & ? & ?); [lia|lia|lia|done|].
        eapply (Hstep (S i) (S j) i (S j)); eauto. by left.
      * assert (Hbl : in_band (S i) j = true).
        { destruct (in_band (S i) j) eqn:E; [done|exfalso]. rewrite (out_of_band (S i) j) in * by (done || lia).
          by rewrite (cost_le_infinity _ Hu) in Eu. }
        destruct (IH (S i) j ((S i, j) :: path)) as (l & ? & ? & ? & ?); [lia|lia|lia|done|].
        eapply (Hstep (S i) (S j) (S i) j); eauto. by right; left.
Qed.

End Optimal.
End Table.

(** ** Dynamic time warping (dtw.rs) *)

Definition MAX_DTW_CELLS : Z := 10000000.

Record DtwResult := mkDtwResult { distance : f64; warping_path : list (nat * nat) }.

(** [in_band]: [None] is no band. *)
Definition in_band (band_width : option nat) (i j : nat) : bool :=
  match band_width with None => true | Some w => Z.abs (Z.of_nat i - Z.of_nat j) <=? Z.of_nat w end.

(** [(sim_series[i] - real_series[j]).abs()]; the indices are always in range. *)
Definition gap (sim_series real_series : list f64) (i j : nat) : f64 :=
  match sim_series !! i, real_series !! j with
  | Some s, Some r => f64_abs (f64_sub s r)
  | _, _ => zero
  end.

Definition dtw_table (sim_series real_series : list f64) (band_width : option nat) : list (list f64) :=
  fill (gap sim_series real_series) (in_band band_width) (fun d => f64_add d zero) f64_add
    (length sim_series) (length real_series).

Definition dtw_align (sim_series real_series : list f64) (band_width : option nat) : DtwResult :=
  let n := length sim_series in
  let m := length real_series in
  if (n =? 0)%nat || (m =? 0)%nat then mkDtwResult zero []
  else if Z.of_nat n * Z.of_nat m >? MAX_DTW_CELLS then mkDtwResult INFINITY []
  else
    let cost := dtw_table sim_series real_series band_width in
    let path := backtrack cost (n + m) (n - 1) (m - 1) [(n - 1, m - 1)%nat] in
    mkDtwResult (f64_div (at_cell cost (n - 1) (m - 1)) (f64_of_Z (Z.of_nat (length path)))) path.

(** ** The discrete Fréchet distance (frechet.rs) *)

Definition leash {P} (distance : P -> P -> f64) (curve_p curve_q : list P) (i j : nat) : f64 :=
  match curve_p !! i, curve_q !! j with
  | Some p, Some q => distance p q
  | _, _ => zero
  end.

(** [f64::max(prev, dist)]; no band. *)
Definition coupling_table {P} (distance : P -> P -> f64) (curve_p curve_q : list P) : list (list f64) :=
  fill (leash distance curve_p curve_q) (fun _ _ => true) id (fun dist prev => f64_max prev dist)
    (length curve_p) (length curve_q).

Definition discrete_frechet {P} (distance : P -> P -> f64) (curve_p curve_q : list P) : option f64 :=
  let rows := length curve_p in
  let cols := length curve_q in
  if (rows =? 0)%nat || (cols =? 0)%nat then None
  else Some (at_cell (coupling_table distance curve_p curve_q) (rows - 1) (cols - 1)).

(** ** Both operations on costs are monotone *)

Lemma f64_add_ok d c : cost_ok d -> cost_ok c -> cost_ok (f64_add d c).
Proof.
  intros Hd Hc. pose proof Hd as (Vd & Nd & Sd). pose proof Hc as (Vc & Nc & Sc).
  assert (V : valid (f64_add d c) = true) by (by apply f64_add_valid).
  assert (H : f64_le zero (f64_add d c) = true /\ f64_add d c <> S754_zero true).
  { destruct d as [[]|[]| |[] md ed], c as [[]|[]| |[] mc ec]; try done.
    unfold f64_add, SFadd. cbn [cond_Zopp].
    destruct (Zpos _ + Zpos _) as [|p|p] eqn:E; [lia| |lia]. cbn [binary_normalize].
    pose proof (binary_normalize_not_nan (Zpos p) (Z.min ed ec) false) as Hn. cbn [binary_normalize] in Hn.
    rewrite binary_round_sign. destruct (binary_round 53 1024 false p _) as [[]|[]| |[] ? ?]; done. }
  destruct H as [Hle Hz]. split; [done|]. destruct (f64_add d c) as [[]|[]| |[] ? ?]; done.
Qed.

Lemma f64_max_ok d c : cost_ok d -> cost_ok c -> cost_ok (f64_max c d).
Proof. intros Hd Hc. unfold f64_max. by repeat case_match. Qed.

Lemma f64_max_mono d a b : cost_ok d -> cost_ok a -> cost_ok b -> f64_le a b = true -> f64_le (f64_max a d) (f64_max b d) = true.
Proof.
  intros (_ & Nd & _) (_ & Na & _) (_ & Nb & _) H. unfold f64_max. rewrite Nd, Na, Nb.
  destruct (f64_lt a d) eqn:E1, (f64_lt b d) eqn:E2; f64_order.
Qed.

(** What the series must be: numbers of the format, neither NaN nor infinite. *)
Definition finite_series (l : list f64) : Prop := Forall (fun x => valid x = true /\ is_finite x = true) l.

Lemma gap_ok sim real i j : finite_series sim -> finite_series real -> cost_ok (gap sim real i j).
Proof.
  intros Hs Hr. unfold gap. destruct (sim !! i) as [s|] eqn:Es; [|done]. destruct (real !! j) as [r|] eqn:Er; [|done].
  apply (Forall_lookup_1 _ _ _ _ Hs) in Es as [Vs Fs]. apply (Forall_lookup_1 _ _ _ _ Hr) in Er as [Vr Fr].
  pose proof (f64_sub_valid s r Vs Vr) as V. pose proof (f64_sub_not_nan s r Fs Fr) as N.
  by destruct (f64_sub s r) as [[]|[]| |[] ? ?].
Qed.

(** The band is closed towards the diagonal. *)
Lemma in_band_row w j : in_band w 0 (S j) = true -> in_band w 0 j = true.
Proof. destruct w; [|done]. cbn. rewrite !Z.leb_le. lia. Qed.

Lemma in_band_col w i : in_band w (S i) 0 = true -> in_band w i 0 = true.
Proof. destruct w; [|done]. cbn. rewrite !Z.leb_le. lia. Qed.

Lemma in_band_diag w i j : in_band w (S i) (S j) = true -> in_band w i j = true.
Proof. destruct w; [|done]. unfold in_band. rewrite !Z.leb_le. lia. Qed.

(** The cost the reference gives a warping path, and a coupling. *)
Definition warping_cost (sim_series real_series : list f64) : list (nat * nat) -> f64 :=
  path_cost (gap sim_series real_series) (fun d => f64_add d zero) f64_add.

Definition coupling_cost {P} (distance : P -> P -> f64) (curve_p curve_q : list P) : list (nat * nat) -> f64 :=
  path_cost (leash distance curve_p curve_q) id (fun dist prev => f64_max prev dist).

Lemma dtw_align_unfold sim real w : sim <> [] -> real <> [] ->
  Z.of_nat (length sim) * Z.of_nat (length real) <= MAX_DTW_CELLS ->
  let path := backtrack (dtw_table sim real w) (length sim + length real) (length sim - 1) (length real - 1) [(length sim - 1, length real - 1)%nat] in
  dtw_align sim real w =
  mkDtwResult (f64_div (at_cell (dtw_table sim real w) (length sim - 1) (length real - 1)) (f64_of_Z (Z.of_nat (length path)))) path.
Proof.
  intros Hs Hr Hm path. unfold dtw_align. destruct sim as [|s sim]; [done|]. destruct real as [|r real]; [done|].
  cbn [length Nat.eqb orb]. destruct (Z.gtb_spec (Z.of_nat (S (length sim)) * Z.of_nat (S (length real))) MAX_DTW_CELLS) as [H|_]; [|done].
  cbn [length] in Hm. lia.
Qed.

Lemma length_pos {A} (l : list A) : l <> [] -> (0 < length l)%nat.
Proof. destruct l; [done|cbn; lia]. Qed.

(** ** Whatever the numbers are, the walk back ends at the origin *)

Lemma backtrack_walk cost fuel : forall i j path, (i + j <= fuel)%nat ->
  exists l, backtrack cost fuel i j path = l ++ path /\ path_to (l ++ [(i, j)]) (i, j).
Proof.
  assert (Hstep : forall i j i' j' path f, next (i', j') (i, j) ->
    (exists l, backtrack cost f i' j' ((i', j') :: path) = l ++ (i', j') :: path /\ path_to (l ++ [(i', j')]) (i', j')) ->
    exists l', backtrack cost f i' j' ((i', j') :: path) = l' ++ path /\ path_to (l' ++ [(i, j)]) (i, j)).
  { intros i j i' j' path f Hn (l & E & Hp). exists (l ++ [(i', j')]). split; [by rewrite E, <- app_assoc|]. by eapply path_step. }
  induction fuel as [|fuel IH]; intros i j path Hf.
  { assert (i = 0%nat) as -> by lia. assert (j = 0%nat) as -> by lia. exists []. split; [done|constructor]. }
  destruct i as [|i], j as [|j]; cbn [backtrack].
  - exists []. split; [done|constructor].
  - apply Hstep; [by right; left|]. apply IH. lia.
  - apply Hstep; [by left|]. apply IH. lia.
  - repeat case_match; (apply Hstep; [|apply IH; lia]); [by right; right|by left|by right; left].
Qed.

(** A path to [(i, j)] has at least [max(i, j) + 1] and at most [i + j + 1] points, and none
    beyond [(i, j)]. *)
Lemma path_to_length l q : path_to l q -> (Nat.max q.1 q.2 < length l <= S (q.1 + q.2))%nat.
Proof.
  induction 1 as [|l p q Hp IH Hn]; [cbn; lia|]. rewrite length_app. cbn [length].
  destruct Hn as [-> |[-> | ->]]; cbn [fst snd]; lia.
Qed.

Lemma path_to_range l q : path_to l q -> Forall (fun p => (p.1 <= q.1)%nat /\ (p.2 <= q.2)%nat) l.
Proof.
  induction 1 as [|l p q Hp IH Hn]; [by constructor|]. apply Forall_app. split; [|by constructor].
  eapply Forall_impl; [exact IH|]. intros x [? ?]. destruct Hn as [-> |[-> | ->]]; cbn [fst snd]; lia.
Qed.

(** whatever the samples are (NaN and infinities included), within the size limit the
    alignment of two non-empty series is a warping path from the first pair of samples to the
    last one: it moves by one in one series or in both, it never leaves the series, and its
    length lies between the longer series' and the sum of both less one. *)
Theorem dtw_path_complete sim real w :
  sim <> [] -> real <> [] -> Z.of_nat (length sim) * Z.of_nat (length real) <= MAX_DTW_CELLS ->
  let path := warping_path (dtw_align sim real w) in
  path_to path (length sim - 1, length real - 1)%nat /\
  Forall (fun p => (p.1 < length sim)%nat /\ (p.2 < length real)%nat) path /\
  (Nat.max (length sim) (length real) <= length path < length sim + length real)%nat.
Proof.
  intros Hs Hr Hm. rewrite (dtw_align_unfold sim real w Hs Hr Hm). cbn [warping_path].
  pose proof (length_pos sim Hs) as Hn. pose proof (length_pos real Hr) as Hm'.
  destruct (backtrack_walk (dtw_table sim real w) (length sim + length real) (length sim - 1) (length real - 1) [(length sim - 1, length real - 1)%nat]) as (l & -> & Hp); [lia|].
  pose proof (path_to_length _ _ Hp) as Hl. pose proof (path_to_range _ _ Hp) as Hg. cbn [fst snd] in *.
  split; [done|]. split; [|lia]. eapply Forall_impl; [exact Hg|]. intros p [? ?]. lia.
Qed.

Lemma dtw_path_complete_witness :
  ([S754_nan; one] : list f64) <> [] /\ warping_path (dtw_align [S754_nan; one] [one] (Some 0%nat)) = [(0, 0); (1, 0)]%nat /\
  path_to (warping_path (dtw_align [S754_nan; one] [one] (Some 0%nat))) (1, 0)%nat.
Proof.
  split; [done|]. split; [vm_compute; reflexivity|].
  apply (dtw_path_complete [S754_nan; one] [one] (Some 0%nat)); [done|done|by vm_compute].
Defined.

(** ** The distances are the optima of the reference *)

(** C29: for series of finite numbers and a band that reaches the last pair of samples, the
    alignment is a cheapest warping path in the band: the path returned stays in the band, the
    distance is its accumulated cost over its length, and no other warping path in the band
    accumulates less. *)
Theorem dtw_optimal sim real w :
  finite_series sim -> finite_series real -> sim <> [] -> real <> [] ->
  Z.of_nat (length sim) * Z.of_nat (length real) <= MAX_DTW_CELLS ->
  let last := (length sim - 1, length real - 1)%nat in
  in_band w last.1 last.2 = true ->
  let r := dtw_align sim real w in
  path_to (warping_path r) last /\ in_band_all (in_band w) (warping_path r) /\
  distance r = f64_div (warping_cost sim real (warping_path r)) (f64_of_Z (Z.of_nat (length (warping_path r)))) /\
  forall l, path_to l last -> in_band_all (in_band w) l ->
    f64_le (warping_cost sim real (warping_path r)) (warping_cost sim real l) = true.
Proof.
  intros Fs Fr Hs Hr Hm last Hb r. unfold r. rewrite (dtw_align_unfold sim real w Hs Hr Hm). cbn [warping_path distance].
  pose proof (length_pos sim Hs) as Hn. pose proof (length_pos real Hr) as Hm'.
  assert (Hd : forall i j, cost_ok (gap sim real i j)) by (intros; by apply gap_ok).
  assert (Hf : forall d, cost_ok d -> cost_ok (f64_add d zero)) by (intros; by apply f64_add_ok).
  destruct (backtrack_path (gap sim real) (in_band w) (fun d => f64_add d zero) f64_add Hd Hf f64_add_ok
    (length sim) (length real) (in_band_row w) (in_band_col w) (in_band_diag w) (length sim + length real)
    (length sim - 1) (length real - 1) [(length sim - 1, length real - 1)%nat]) as (l & E & Hp & Hl & Hc); [lia..|done|].
  unfold dtw_table. rewrite E. split; [done|]. split; [done|]. unfold warping_cost. rewrite Hc. split; [done|].
  intros l' Hp' Hl'.
  refine (proj2 (path_lower _ _ _ _ Hd Hf f64_add_ok _ (length sim) (length real) l' last Hp' Hl' _ _)); [|cbn; lia..].
  intros d a b Hkd Hka Hkb Hab. apply f64_add_mono; [by apply Hkd|by apply Hka|by apply Hkb|by apply cost_nonneg..|done].
Qed.

(** C30: the discrete Fréchet distance is the least leash: when the distance of any two points
    of the curves is a cost (not NaN, not negative), some coupling of the two curves never
    needs more than the value returned, and every coupling needs at least it. *)
Theorem frechet_optimal {P} (distance : P -> P -> f64) curve_p curve_q :
  (forall p q, p ∈ curve_p -> q ∈ curve_q -> cost_ok (distance p q)) ->
  curve_p <> [] -> curve_q <> [] ->
  let last := (length curve_p - 1, length curve_q - 1)%nat in
  exists d, discrete_frechet distance curve_p curve_q = Some d /\
  (exists l, path_to l last /\ coupling_cost distance curve_p curve_q l = d) /\
  forall l, path_to l last -> f64_le d (coupling_cost distance curve_p curve_q l) = true.
Proof.
  intros Hdist Hp Hq last. unfold discrete_frechet.
  pose proof (length_pos curve_p Hp) as Hn. pose proof (length_pos curve_q Hq) as Hm.
  destruct (Nat.eqb_spec (length curve_p) 0) as [|_]; [lia|]. destruct (Nat.eqb_spec (length curve_q) 0) as [|_]; [lia|].
  cbn [orb]. eexists. split; [done|].
  assert (Hd : forall i j, cost_ok (leash distance curve_p curve_q i j)).
  { intros i j. unfold leash. destruct (curve_p !! i) eqn:E1; [|done]. destruct (curve_q !! j) eqn:E2; [|done].
    apply Hdist; by eapply list_elem_of_lookup_2. }
  assert (Hin : forall l, in_band_all (fun _ _ => true) l) by (intros l; by apply Forall_true).
  split.
  - destruct (backtrack_path (leash distance curve_p curve_q) (fun _ _ => true) id (fun d c => f64_max c d) Hd (fun _ H => H) f64_max_ok
      (length curve_p) (length curve_q) (fun _ H => H) (fun _ H => H) (fun _ _ H => H) (length curve_p + length curve_q)
      (length curve_p - 1) (length curve_q - 1) []) as (l & _ & Hl & _ & Hc); [lia..|done|].
    exists (l ++ [last]). by split.
  - intros l Hl.
    refine (proj2 (path_lower _ _ _ _ Hd (fun _ H => H) f64_max_ok f64_max_mono (length curve_p) (length curve_q) l last Hl (Hin l) _ _)); cbn; lia.
Qed.

Definition two : f64 := f64_of_Z 2.

Lemma dtw_optimal_witness :
  let r := dtw_align [zero; one; one] [zero; one] None in
  warping_path r = [(0, 0); (1, 1); (2, 1)]%nat /\ in_band_all (in_band None) (warping_path r) /\
  f64_le (warping_cost [zero; one; one] [zero; one] (warping_path r))
    (warping_cost [zero; one; one] [zero; one] [(0, 0); (1, 0); (2, 1)]%nat) = true.
Proof.
  assert (H0 : valid zero = true /\ is_finite zero = true) by (split; reflexivity).
  assert (H1 : valid one = true /\ is_finite one = true) by (split; vm_compute; reflexivity).
  destruct (dtw_optimal [zero; one; one] [zero; one] None) as (_ & Hb & _ & Hmin);
    [by repeat constructor|by repeat constructor|done|done|by vm_compute|done|].
  split; [vm_compute; reflexivity|]. split; [exact Hb|]. apply Hmin; [|by repeat constructor].
  apply (path_step [(0, 0); (1, 0)]%nat (1, 0)%nat (2, 1)%nat); [|by right; right].
  apply (path_step [(0, 0)]%nat (0, 0)%nat (1, 0)%nat); [constructor|by left].
Defined.

Lemma frechet_optimal_witness :
  exists d, discrete_frechet (fun a b => f64_abs (f64_sub a b)) [zero; one] [zero; two] = Some d /\ d = one /\
  f64_le d (coupling_cost (fun a b => f64_abs (f64_sub a b)) [zero; one] [zero; two] [(0, 0); (1, 0); (1, 1)]%nat) = true.
Proof.
  assert (Hdist : forall p q : f64, p ∈ [zero; one] -> q ∈ [zero; two] -> cost_ok (f64_abs (f64_sub p q))).
  { intros p q Hp Hq. apply list_elem_of_In in Hp, Hq. cbn in Hp, Hq.
    destruct Hp as [<-|[<-|[]]], Hq as [<-|[<-|[]]]; repeat split; vm_compute; reflexivity. }
  destruct (frechet_optimal _ [zero; one] [zero; two] Hdist) as (d & Hd & _ & Hmin); [done|done|].
  exists d. split; [exact Hd|]. split; [|apply Hmin].
  - assert (E : discrete_frechet (fun a b => f64_abs (f64_sub a b)) [zero; one] [zero; two] = Some one) by (vm_compute; reflexivity).
    rewrite E in Hd. by injection Hd.
  - apply (path_step [(0, 0); (1, 0)]%nat (1, 0)%nat (1, 1)%nat); [|by right; left].
    apply (path_step [(0, 0)]%nat (0, 0)%nat (1, 0)%nat); [constructor|by left].
Defined.

(** ** Where the distances mislead *)

(** A band narrower than the difference of the lengths: the last cell is out of the band, so
    the distance is infinite although the two series are the same samples at another rate, and
    the path returned leaves the band it was asked to stay in. *)
Example narrow_band_is_infinite :
  let r := dtw_align [zero; zero; zero] [zero] (Some 1%nat) in
  distance r = INFINITY /\ warping_path r = [(0, 0); (1, 0); (2, 0)]%nat /\ in_band (Some 1%nat) 2 0 = false.
Proof. repeat split; vm_compute; reflexivity. Qed.

Lemma narrow_band sim real w : sim <> [] -> real <> [] ->
  Z.of_nat (length sim) * Z.of_nat (length real) <= MAX_DTW_CELLS ->
  in_band w (length sim - 1) (length real - 1) = false ->
  distance (dtw_align sim real w) = f64_div INFINITY (f64_of_Z (Z.of_nat (length (warping_path (dtw_align sim real w))))) /\
  ~ in_band_all (in_band w) (warping_path (dtw_align sim real w)).
Proof.
  intros Hs Hr Hm Hb. pose proof (dtw_align_unfold sim real w Hs Hr Hm) as E. cbn zeta in E. rewrite E. cbn [warping_path distance].
  pose proof (length_pos sim Hs) as Hn. pose proof (length_pos real Hr) as Hm'. split.
  - do 2 f_equal. unfold dtw_table. rewrite fill_cell, Hb by lia. done.
  - destruct (backtrack_walk (dtw_table sim real w) (length sim + length real) (length sim - 1) (length real - 1) [(length sim - 1, length real - 1)%nat]) as (l & -> & _); [lia|].
    intros H. apply Forall_app in H as [_ H]. apply Forall_cons in H as [H _]. cbn in H. congruence.
Qed.

(** A point the localisation lost (NaN) leaves no trace in the Fréchet distance: [f64::max]
    and [f64::min] drop it. *)
Example frechet_ignores_nan :
  discrete_frechet (fun a b => f64_abs (f64_sub a b)) [zero; S754_nan; one] [zero; S754_nan; one] = Some zero.
Proof. vm_compute. reflexivity. Qed.

(** The same lost sample makes the warping distance NaN. *)
Example dtw_keeps_nan : is_nan (distance (dtw_align [zero; S754_nan] [zero; one] None)) = true.
Proof. vm_compute. reflexivity. Qed.
