(* ===== verification/AdaptiveBitrate.v ===== *)
(** * Adaptive bit rate of the cameras

    roz-worker/camera/adaptive.rs with the profiles of roz-core/camera.rs: a score of the
    network from each RTCP report, its moving average, and the tier it asks for, followed
    only after it was asked for long enough.  [now] is the instant of a call. *)

From Stdlib Require Import Sorted.
From S2P Require Import Prelude Float64 Float64Round.

Record BitrateProfile : Type := { width : Z; height : Z; fps : Z; bitrate_kbps : Z }.

Definition HIGH : BitrateProfile := {| width := 1280; height := 720; fps := 30; bitrate_kbps := 2000 |}.
Definition MEDIUM : BitrateProfile := {| width := 640; height := 480; fps := 15; bitrate_kbps := 500 |}.
Definition LOW : BitrateProfile := {| width := 320; height := 240; fps := 10; bitrate_kbps := 150 |}.
Definition LADDER : list BitrateProfile := [HIGH; MEDIUM; LOW].

Record RtcpFeedback : Type := { fraction_lost : f64; jitter_ms : f64; rtt_ms : f64 }.

Record AdaptiveBitrateController : Type := {
  current_tier : nat;
  ewma_score : f64;
  pending_tier : option nat;
  pending_since : Instant;
  upgrade_stability : Duration;
  downgrade_stability : Duration;
}.

Definition LOSS_WEIGHT : f64 := f64_dec 5 1.
Definition JITTER_WEIGHT : f64 := f64_dec 3 1.
Definition RTT_WEIGHT : f64 := f64_dec 2 1.
Definition MAX_JITTER_MS : f64 := f64_of_Z 200.
Definition MAX_RTT_MS : f64 := f64_of_Z 500.
Definition EWMA_ALPHA : f64 := f64_dec 3 1.
Definition HIGH_THRESHOLD : f64 := f64_dec 8 1.
Definition MEDIUM_THRESHOLD : f64 := f64_dec 4 1.
Definition TIER_HIGH : nat := 0.
Definition TIER_MEDIUM : nat := 1.
Definition TIER_LOW : nat := 2.

Definition new (now : Instant) : AdaptiveBitrateController :=
  {| current_tier := TIER_MEDIUM; ewma_score := f64_dec 6 1; pending_tier := None; pending_since := now;
     upgrade_stability := 5000000000; downgrade_stability := 1000000000 |}.

Definition with_stability (self : AdaptiveBitrateController) (upgrade downgrade : Duration) : AdaptiveBitrateController :=
  {| current_tier := current_tier self; ewma_score := ewma_score self; pending_tier := pending_tier self;
     pending_since := pending_since self; upgrade_stability := upgrade; downgrade_stability := downgrade |}.

Definition set_score (s : f64) (self : AdaptiveBitrateController) : AdaptiveBitrateController :=
  {| current_tier := current_tier self; ewma_score := s; pending_tier := pending_tier self;
     pending_since := pending_since self; upgrade_stability := upgrade_stability self;
     downgrade_stability := downgrade_stability self |}.
Definition set_pending (p : option nat) (self : AdaptiveBitrateController) : AdaptiveBitrateController :=
  {| current_tier := current_tier self; ewma_score := ewma_score self; pending_tier := p;
     pending_since := pending_since self; upgrade_stability := upgrade_stability self;
     downgrade_stability := downgrade_stability self |}.
Definition set_since (t : Instant) (self : AdaptiveBitrateController) : AdaptiveBitrateController :=
  {| current_tier := current_tier self; ewma_score := ewma_score self; pending_tier := pending_tier self;
     pending_since := t; upgrade_stability := upgrade_stability self;
     downgrade_stability := downgrade_stability self |}.
Definition set_tier (d : nat) (self : AdaptiveBitrateController) : AdaptiveBitrateController :=
  {| current_tier := d; ewma_score := ewma_score self; pending_tier := pending_tier self;
     pending_since := pending_since self; upgrade_stability := upgrade_stability self;
     downgrade_stability := downgrade_stability self |}.

(** ** Operations *)

(** [BitrateProfile::LADDER[self.current_tier]]: an index out of the array panics. *)
Definition current_profile (self : AdaptiveBitrateController) : exec BitrateProfile :=
  match LADDER !! current_tier self with Some p => Ret p | None => Panic end.

Definition network_score (self : AdaptiveBitrateController) : f64 := ewma_score self.

Definition compute_score (feedback : RtcpFeedback) : exec f64 :=
  let normalized_jitter := f64_min (f64_div (jitter_ms feedback) MAX_JITTER_MS) one in
  let normalized_rtt := f64_min (f64_div (rtt_ms feedback) MAX_RTT_MS) one in
  let! loss := clamp (fraction_lost feedback) zero one in
  let score := f64_sub one (mul_add RTT_WEIGHT normalized_rtt (mul_add LOSS_WEIGHT loss (f64_mul JITTER_WEIGHT normalized_jitter))) in
  clamp score zero one.

Definition score_to_tier (score : f64) : nat :=
  if f64_gt score HIGH_THRESHOLD then TIER_HIGH
  else if f64_gt score MEDIUM_THRESHOLD then TIER_MEDIUM
  else TIER_LOW.

Definition average (ewma raw_score : f64) : f64 := mul_add (f64_sub one EWMA_ALPHA) ewma (f64_mul EWMA_ALPHA raw_score).

(** [Instant::elapsed]: never negative. *)
Definition elapsed (now since : Instant) : Duration := Z.max 0 (now - since).

Definition stability_for (self : AdaptiveBitrateController) (desired_tier : nat) : Duration :=
  if (desired_tier <? current_tier self)%nat then upgrade_stability self else downgrade_stability self.

(** The part after the average is updated. *)
Definition follow (self : AdaptiveBitrateController) (now : Instant) : exec (AdaptiveBitrateController * option BitrateProfile) :=
  let desired_tier := score_to_tier (ewma_score self) in
  if (desired_tier =? current_tier self)%nat then Ret (set_pending None self, None)
  else if bool_decide (pending_tier self = Some desired_tier) then
    if stability_for self desired_tier <=? elapsed now (pending_since self) then
      let self := set_pending None (set_tier desired_tier self) in
      let! p := current_profile self in
      Ret (self, Some p)
    else Ret (self, None)
  else Ret (set_since now (set_pending (Some desired_tier) self), None).

Definition on_rtcp_feedback (self : AdaptiveBitrateController) (now : Instant) (feedback : RtcpFeedback)
  : exec (AdaptiveBitrateController * option BitrateProfile) :=
  let! raw_score := compute_score feedback in
  follow (set_score (average (ewma_score self) raw_score) self) now.

(** ** The score *)

Definition in_unit (x : f64) : Prop := valid x = true /\ f64_le zero x = true /\ f64_le x one = true.

Lemma clamp_valid x lo hi r : clamp x lo hi = Ret r -> valid x = true -> valid lo = true -> valid hi = true -> valid r = true.
Proof. unfold clamp. destruct (f64_le lo hi); [|done]. intros [= <-] ? ? ?. by repeat case_match. Qed.

Lemma score_total feedback : exists r, compute_score feedback = Ret r.
Proof.
  unfold compute_score. destruct (clamp_total (fraction_lost feedback) zero one) as [loss ->]; [done|]. cbn [exec_bind].
  by apply clamp_total.
Qed.

(** A loss that is not a number makes the score one that is not. *)
Lemma score_nan feedback : is_nan (fraction_lost feedback) = true -> compute_score feedback = Ret S754_nan.
Proof.
  intros H. unfold compute_score. destruct (fraction_lost feedback); try done. rewrite clamp_nan by done. cbn [exec_bind].
  replace (f64_sub one _) with S754_nan; [by apply clamp_nan|].
  unfold mul_add at 2. change LOSS_WEIGHT with (S754_finite false (2 ^ 52) (-53)). cbn match.
  destruct (f64_mul JITTER_WEIGHT _), (f64_min _ _), RTT_WEIGHT; reflexivity.
Qed.

Lemma average_nan ewma raw : is_nan ewma = true \/ is_nan raw = true -> average ewma raw = S754_nan.
Proof.
  intros [H|H]; unfold average; [by destruct ewma|]. destruct raw; try done.
  replace (f64_mul EWMA_ALPHA S754_nan) with S754_nan by by destruct EWMA_ALPHA.
  unfold mul_add. by destruct (f64_sub one EWMA_ALPHA), ewma.
Qed.

Lemma le_value m e m' e' k :
  valid (S754_finite false m e) = true -> valid (S754_finite false m' e') = true ->
  f64_le (S754_finite false m e) (S754_finite false m' e') = true -> k <= e -> k <= e' ->
  Zpos m * 2 ^ (e - k) <= Zpos m' * 2 ^ (e' - k).
Proof.
  intros [G _]%valid_grid [G' _]%valid_grid Hle ? ?. apply Znot_gt_le. intros Hgt.
  apply f64_le_spec in Hle as (_ & _ & Hr). unfold rank_lt in Hr. simpl in Hr.
  assert (e' < e \/ e' = e /\ Zpos m' <= Zpos m) as [?|[-> ?]]; [|exfalso; lia|assert (m = m') as -> by lia; lia].
  apply (canonical_order _ _ _ _ k); first [done|lia].
Qed.

Lemma one_value : one = S754_finite false (2 ^ 52) (-52).
Proof. reflexivity. Qed.

(** A positive number that is at most one. *)
Lemma unit_value m e : in_unit (S754_finite false m e) -> e <= -52 /\ Zpos m <= 2 ^ (- e).
Proof.
  intros (V & _ & H). rewrite one_value in H.
  assert (He : e <= -52) by (apply f64_le_spec in H as (_ & _ & Hr); unfold rank_lt in Hr; simpl in Hr; lia).
  split; [done|]. assert (V1 : valid (S754_finite false (2 ^ 52) (-52)) = true) by reflexivity.
  pose proof (le_value _ _ _ _ e V V1 H ltac:(lia) He) as Hv. rewrite Z.sub_diag, Z.mul_1_r in Hv.
  rewrite (pow2_split 52 (-52 - e) (- e)) by lia. exact Hv.
Qed.

(** A product with a number of the unit interval is at most the other factor. *)
Lemma mul_unit_le a b : valid a = true -> is_finite a = true -> f64_le zero a = true -> in_unit b -> f64_le (f64_mul a b) a = true.
Proof.
  intros Va Fa Ha Hb. destruct a as [sa| | |[] ma ea]; try done.
  - destruct Hb as (Vb & Zb & Ob). by destruct b as [|[]| |[]].
  - destruct b as [sb|[]| |[] mb eb]; try (by destruct Hb as (_ & ? & ?)).
    destruct (unit_value mb eb Hb) as [He Hm]. destruct Hb as (Vb & _ & _).
    assert (Hg : ea + eb <= grid (Zpos (ma * mb)) (ea + eb)) by by apply mul_on_grid with false false.
    pose proof (binary_round_aux_rounded false _ _ (Pos2Z.is_pos _) Hg) as Hr.
    change (f64_mul (S754_finite false ma ea) (S754_finite false mb eb)) with (binary_round_aux 53 1024 false (Zpos (ma * mb)) (ea + eb) loc_Exact).
    rewrite (rounded_sign _ _ _ _ Hr).
    eapply rounded_upper; [..|exact Hr|exact Va| |]; [lia|done|lia|].
    replace (ea - (ea + eb)) with (- eb) by lia. rewrite Pos2Z.inj_mul. by apply Z.mul_le_mono_nonneg_l.
Qed.

Definition KEEP : f64 := S754_finite false 6305039478318694 (-53).

Lemma keep_value : f64_sub one EWMA_ALPHA = KEEP.
Proof. vm_compute. reflexivity. Qed.

Lemma alpha_value : EWMA_ALPHA = S754_finite false 5404319552844595 (-54).
Proof. vm_compute. reflexivity. Qed.

(** The new sample's share of the average. *)
Lemma share_bounds raw : in_unit raw ->
  valid (f64_mul EWMA_ALPHA raw) = true /\ f64_le zero (f64_mul EWMA_ALPHA raw) = true /\ f64_le (f64_mul EWMA_ALPHA raw) EWMA_ALPHA = true.
Proof.
  intros Hu. pose proof Hu as (Vr & Zr & Or).
  assert (Va : valid EWMA_ALPHA = true) by reflexivity.
  split; [by apply f64_mul_valid|]. split; [|by apply mul_unit_le].
  apply f64_mul_nonneg; try done. by destruct raw as [|[]| |[]].
Qed.

(** An exact sum of at most one rounds to a number of the unit interval. *)
Lemma normalize_in_unit p k : k <= -52 -> 0 < p <= 2 ^ 52 * 2 ^ (-52 - k) -> in_unit (binary_normalize 53 1024 p k false).
Proof.
  intros Hk [Hp H]. split; [by apply binary_normalize_valid|]. split.
  - pose proof (binary_normalize_not_nan p k false) as Hn. destruct p as [|p|p]; [lia| |lia]. cbn [binary_normalize] in *.
    rewrite binary_round_sign. by destruct (binary_round 53 1024 false p k) as [[]|[]| |[] ? ?].
  - rewrite one_value. by apply normalize_le.
Qed.

Lemma average_in_unit ewma raw : in_unit ewma -> in_unit raw -> in_unit (average ewma raw).
Proof.
  intros He Hr. destruct (share_bounds raw Hr) as (Vx & Zx & Ax). unfold average. rewrite keep_value.
  set (x := f64_mul EWMA_ALPHA raw) in *. clearbody x.
  assert (Hx : in_unit x) by (split; [done|split; [done|exact (f64_le_trans x EWMA_ALPHA one Ax eq_refl)]]).
  pose proof He as (Ve & Ze & Oe). destruct ewma as [se|[]| |[] me ee]; try done.
  - unfold mul_add. destruct x as [sx|[]| |[] mx ex]; try done; by destruct sx, se.
  - destruct (unit_value me ee He) as [Hee Hme]. destruct x as [sx|[]| |[] mx ex]; try done.
    + change (in_unit (f64_mul KEEP (S754_finite false me ee))).
      assert (Vk : valid KEEP = true) by reflexivity.
      split; [by apply f64_mul_valid|]. split; [by apply f64_mul_nonneg|].
      refine (f64_le_trans _ KEEP one _ eq_refl). by apply mul_unit_le.
    + destruct (unit_value mx ex Hx) as [Hex _]. rewrite alpha_value in Ax.
      assert (Hea : ex <= -54) by (apply f64_le_spec in Ax as (_ & _ & Hk); unfold rank_lt in Hk; simpl in Hk; lia).
      unfold KEEP, mul_add. set (k := Z.min (-53 + ee) ex). assert (Hk : k <= -53 + ee /\ k <= ex) by (split; [apply Z.le_min_l|apply Z.le_min_r]). clearbody k.
      pose proof (le_value mx ex 5404319552844595 (-54) k Vx eq_refl Ax ltac:(lia) ltac:(lia)) as Hvx.
      rewrite !shl_align_fst by lia. cbn [xorb cond_Zopp].
      assert (Hvk : Zpos (6305039478318694 * me) * 2 ^ (-53 + ee - k) <= 6305039478318694 * 2 ^ (-53 - k)).
      { rewrite Pos2Z.inj_mul, <- Z.mul_assoc. apply Z.mul_le_mono_nonneg_l; [lia|].
        rewrite (pow2_split (- ee) (-53 + ee - k) (-53 - k)) by lia. apply Z.mul_le_mono_nonneg_r; [apply Z.pow_nonneg; lia|done]. }
      apply normalize_in_unit; [lia|].
      assert (0 < 2 ^ (-53 + ee - k) /\ 0 < 2 ^ (ex - k)) as [? ?] by (split; apply Z.pow_pos_nonneg; lia).
      rewrite (pow2_split 1 (-54 - k) (-53 - k)) in Hvk by lia. rewrite (pow2_split 2 (-54 - k) (-52 - k)) by lia. rewrite Z.pow_1_r in Hvk.
      assert (0 < 2 ^ (-54 - k)) by (apply Z.pow_pos_nonneg; lia). split; [nia|]. lia.
Qed.

(** Whatever the report holds, its score is a number of the unit interval or none at all. *)
Lemma score_in_unit feedback r : compute_score feedback = Ret r -> is_nan r = true \/ in_unit r.
Proof.
  unfold compute_score. destruct (clamp (fraction_lost feedback) zero one) as [loss|]; [|done]. cbn [exec_bind].
  set (x := mul_add RTT_WEIGHT _ _). clearbody x. intros H.
  assert (V : valid (f64_sub one x) = true \/ is_nan (f64_sub one x) = true).
  { destruct x as [|[]| |]; [by left|by left|by left|by right|left]. apply binary_normalize_valid. }
  destruct V as [V|V].
  - destruct (is_nan (f64_sub one x)) eqn:N; [left; destruct (f64_sub one x); try done; rewrite clamp_nan in H by done; by injection H as <-|].
    right. split; [by eapply clamp_valid|]. by eapply clamp_ret.
  - left. destruct (f64_sub one x); try done. rewrite clamp_nan in H by done. by injection H as <-.
Qed.

(** ** Sustained scores *)

(** The tier a score asks for, with its profile; a score that is no number asks for the lowest. *)
Inductive wants (score : f64) : nat -> BitrateProfile -> Prop :=
| wants_high : f64_gt score (f64_dec 8 1) = true ->
    wants score 0 {| width := 1280; height := 720; fps := 30; bitrate_kbps := 2000 |}
| wants_medium : f64_gt score (f64_dec 8 1) = false -> f64_gt score (f64_dec 4 1) = true ->
    wants score 1 {| width := 640; height := 480; fps := 15; bitrate_kbps := 500 |}
| wants_low : f64_gt score (f64_dec 8 1) = false -> f64_gt score (f64_dec 4 1) = false ->
    wants score 2 {| width := 320; height := 240; fps := 10; bitrate_kbps := 150 |}.

(** The average after a report: seven tenths of the old one and three of the report's score, one
    less half the loss, three tenths of the jitter and two of the round trip. *)
Definition averaged (ewma : f64) (fb : RtcpFeedback) (ewma' : f64) : Prop :=
  exists loss raw, clamp (fraction_lost fb) zero one = Ret loss /\
    clamp (f64_sub one (mul_add (f64_dec 2 1) (f64_min (f64_div (rtt_ms fb) (f64_of_Z 500)) one)
      (mul_add (f64_dec 5 1) loss (f64_mul (f64_dec 3 1) (f64_min (f64_div (jitter_ms fb) (f64_of_Z 200)) one))))) zero one = Ret raw /\
    ewma' = mul_add (f64_sub one (f64_dec 3 1)) ewma (f64_mul (f64_dec 3 1) raw).

(** A call in the log, most recent first: its instant, the average after it, and the tier in
    use before it. *)
Definition entry : Type := Instant * f64 * nat.
Definition at_time (e : entry) : Instant := e.1.1.
Definition asks (d cur : nat) (e : entry) : Prop := (exists p, wants e.1.2 d p) /\ e.2 = cur.

(** [up] and [down]: how long a better and a worse tier must be asked for. *)
Inductive reachable (up down : Duration) : AdaptiveBitrateController -> list entry -> Prop :=
| reach_new t0 : up = 5000000000 -> down = 1000000000 -> reachable up down (new t0) []
| reach_with t0 : reachable up down (with_stability (new t0) up down) []
| reach_report s log now fb s' out :
    reachable up down s log -> Forall (fun e => at_time e <= now) log ->
    on_rtcp_feedback s now fb = Ret (s', out) ->
    reachable up down s' ((now, ewma_score s', current_tier s) :: log).

Lemma wants_iff score d p : wants score d p <-> score_to_tier score = d /\ LADDER !! d = Some p.
Proof.
  unfold score_to_tier, HIGH_THRESHOLD, MEDIUM_THRESHOLD. split.
  - by intros [-> | -> -> | -> ->].
  - destruct (f64_gt score (f64_dec 8 1)) eqn:Eh; [|destruct (f64_gt score (f64_dec 4 1)) eqn:Em]; intros [<- [= <-]]; by constructor.
Qed.

Lemma wants_exists score : exists p, wants score (score_to_tier score) p.
Proof.
  setoid_rewrite wants_iff. unfold score_to_tier. repeat case_match; eexists; (split; [done|reflexivity]).
Qed.

Lemma asks_iff d cur e : asks d cur e <-> score_to_tier e.1.2 = d /\ e.2 = cur.
Proof.
  unfold asks. split; intros [H ?]; (split; [|done]); [by destruct H as [p [? _]%wants_iff]|].
  subst. apply wants_exists.
Qed.

(** Since when tier [d] has been asked for without interruption, [cur] being in use. *)
Fixpoint asked_since (d cur : nat) (log : list entry) : option Instant :=
  match log with
  | [] => None
  | e :: log => if (score_to_tier e.1.2 =? d)%nat && (e.2 =? cur)%nat then Some (default (at_time e) (asked_since d cur log)) else None
  end.

Lemma on_feedback_split s now fb s' out : on_rtcp_feedback s now fb = Ret (s', out) ->
  exists raw, compute_score fb = Ret raw /\ follow (set_score (average (ewma_score s) raw) s) now = Ret (s', out) /\
  ewma_score s' = average (ewma_score s) raw /\ upgrade_stability s' = upgrade_stability s /\ downgrade_stability s' = downgrade_stability s.
Proof.
  unfold on_rtcp_feedback. destruct (compute_score fb) as [raw|]; [|done]. cbn [exec_bind]. intros H. exists raw. split; [done|]. split; [done|].
  revert H. unfold follow. repeat case_match; try (by intros [= <- <-]).
  unfold current_profile. destruct (LADDER !! _); [|done]. cbn [exec_bind]. by intros [= <- <-].
Qed.

Lemma tier_low s : (score_to_tier s <= 2)%nat.
Proof. unfold score_to_tier, TIER_HIGH, TIER_MEDIUM, TIER_LOW. repeat case_match; lia. Qed.

(** What a call does to tier and candidate. *)
Lemma follow_exact s now : let d := score_to_tier (ewma_score s) in
  follow s now =
  if (d =? current_tier s)%nat then Ret (set_pending None s, None)
  else if bool_decide (pending_tier s = Some d) then
    if stability_for s d <=? elapsed now (pending_since s) then Ret (set_pending None (set_tier d s), LADDER !! d) else Ret (s, None)
  else Ret (set_since now (set_pending (Some d) s), None).
Proof.
  intros d. unfold follow. fold d. repeat case_match; try done. unfold current_profile. cbn [current_tier set_pending set_tier].
  pose proof (tier_low (ewma_score s)) as H2. fold d in H2. by destruct d as [|[|[|]]]; [..|lia].
Qed.

(** The candidate and its clock are what the log says. *)
Definition pending_explained (s : AdaptiveBitrateController) (log : list entry) : Prop :=
  pending_tier s <> Some (current_tier s) /\
  forall d, d <> current_tier s ->
    asked_since d (current_tier s) log = if bool_decide (pending_tier s = Some d) then Some (pending_since s) else None.

Lemma follow_explained s log now s' out :
  pending_explained s log -> follow s now = Ret (s', out) ->
  pending_explained s' ((now, ewma_score s, current_tier s) :: log).
Proof.
  intros [Hne Hlog] H. rewrite follow_exact in H. cbv zeta in H. unfold pending_explained. cbn [asked_since fst snd at_time].
  generalize dependent (score_to_tier (ewma_score s)). intros d H.
  destruct (Nat.eqb_spec d (current_tier s)) as [E|Hd].
  { subst d. injection H as <- <-. split; [done|]. intros d' Hd'. cbn in *. by rewrite (proj2 (Nat.eqb_neq _ _) (not_eq_sym Hd')). }
  pose proof (Hlog d Hd) as Hsince. destruct (bool_decide_reflect (pending_tier s = Some d)) as [Hp|Hp].
  - destruct (stability_for s d <=? elapsed now (pending_since s)); injection H as <- <-.
    + split; [done|]. intros d' Hd'. cbn in *. by rewrite (proj2 (Nat.eqb_neq d d')) by congruence.
    + split; [done|]. intros d' Hd'. cbn [asked_since fst snd]. destruct (Nat.eqb_spec d d') as [->|Hdd].
      * rewrite Nat.eqb_refl, Hsince. cbn. by rewrite bool_decide_true.
      * cbn. rewrite bool_decide_false; [done|congruence].
  - injection H as <- <-. cbn. split; [by intros [=]|]. intros d' Hd'. cbn in *. destruct (Nat.eqb_spec d d') as [->|Hdd].
    + rewrite Nat.eqb_refl, Hsince. cbn. by rewrite bool_decide_true.
    + cbn. rewrite bool_decide_false; [done|congruence].
Qed.

Lemma log_explained up down s log : reachable up down s log -> pending_explained s log.
Proof.
  induction 1 as [t0|t0|s log now fb s' out Hr IH Ht Hf]; [by split..|].
  destruct (on_feedback_split _ _ _ _ _ Hf) as (raw & _ & Hfo & He & _).
  rewrite He. exact (follow_explained (set_score (average (ewma_score s) raw) s) log now s' out IH Hfo).
Qed.

Lemma reachable_stability up down s log : reachable up down s log -> upgrade_stability s = up /\ downgrade_stability s = down.
Proof.
  induction 1 as [t0 -> ->|t0|s log now fb s' out Hr IH Ht Hf]; [done..|].
  by destruct (on_feedback_split _ _ _ _ _ Hf) as (raw & _ & _ & _ & -> & ->).
Qed.

Lemma reachable_sorted up down s log : reachable up down s log -> StronglySorted (fun a b => at_time b <= at_time a) log.
Proof. induction 1; [constructor..|]. by constructor. Qed.

(** The clock of the log starts no later than any uninterrupted stretch of it. *)
Lemma asked_since_stretch d cur stretch : forall rest, StronglySorted (fun a b => at_time b <= at_time a) (stretch ++ rest) ->
  Forall (asks d cur) stretch -> forall e, last stretch = Some e -> exists since, asked_since d cur (stretch ++ rest) = Some since /\ since <= at_time e.
Proof.
  induction stretch as [|x stretch IH]; intros rest Hs Hf e He; [done|]. cbn [app asked_since].
  apply Forall_cons in Hf as [[-> ->]%asks_iff Hf]. rewrite !Nat.eqb_refl. cbn [andb]. eexists. split; [done|].
  cbn [app] in Hs. apply StronglySorted_inv in Hs as [Hs Hx].
  destruct stretch as [|y stretch].
  - injection He as <-. cbn [app] in *. clear IH Hf. revert Hs Hx. generalize (at_time x). induction rest as [|z rest IHr]; intros t Hs Hx; [done|].
    cbn [asked_since]. destruct (_ && _); [cbn [default]|done]. apply Forall_cons in Hx as [Hz Hx]. apply StronglySorted_inv in Hs as [Hs Hz'].
    cbn. transitivity (at_time z); [by apply IHr|done].
  - rewrite last_cons_cons in He. destruct (IH rest Hs Hf e He) as (since & -> & ?). done.
Qed.

Lemma asked_since_witness d cur log since : asked_since d cur log = Some since ->
  exists stretch rest e, log = stretch ++ rest /\ Forall (asks d cur) stretch /\ last stretch = Some e /\ at_time e = since.
Proof.
  revert since. induction log as [|x log IH]; intros since; [done|]. cbn [asked_since].
  destruct (Nat.eqb_spec (score_to_tier x.1.2) d), (Nat.eqb_spec x.2 cur); cbn [andb]; try done. intros [= <-].
  assert (Hx : asks d cur x) by (by apply asks_iff).
  destruct (asked_since d cur log) as [since|] eqn:E.
  - destruct (IH since eq_refl) as (st & rest & y & -> & Hf & Hl & Hy). exists (x :: st), rest, y.
    split; [done|]. split; [by constructor|]. split; [|done]. destruct st; [done|]. by rewrite last_cons_cons.
  - exists [x], log, x. split; [done|]. split; [by constructor|]. done.
Qed.

(** C31: in every run of reports, a report changes the tier exactly when its average asks for
    another tier and an unbroken stretch of the reports before it asked for the same one, with
    the present tier in use, for at least [up] when that tier is better and [down] when it is
    worse (five seconds and one, if not set otherwise); the change is to the tier asked for, and
    its profile is returned.  A score above 0.8 asks for the first tier, one above 0.4 for the
    second, any other for the third.  No report panics. *)
Theorem tier_change_exact up down s log now fb :
  reachable up down s log -> Forall (fun e => at_time e <= now) log ->
  exists s' out d p, on_rtcp_feedback s now fb = Ret (s', out) /\
  averaged (ewma_score s) fb (ewma_score s') /\ wants (ewma_score s') d p /\
  let changes := d <> current_tier s /\
    exists stretch rest e, log = stretch ++ rest /\ Forall (asks d (current_tier s)) stretch /\ last stretch = Some e /\
      (if (d <? current_tier s)%nat then up else down) <= Z.max 0 (now - at_time e) in
  (changes -> current_tier s' = d /\ out = Some p) /\
  (~ changes -> current_tier s' = current_tier s /\ out = None).
Proof.
  intros Hr Ht. destruct (score_total fb) as [raw Eraw].
  assert (Estep : on_rtcp_feedback s now fb = follow (set_score (average (ewma_score s) raw) s) now)
    by (unfold on_rtcp_feedback; by rewrite Eraw).
  assert (Hav : averaged (ewma_score s) fb (average (ewma_score s) raw)).
  { unfold compute_score in Eraw. destruct (clamp (fraction_lost fb) zero one) as [loss|] eqn:El; [|done]. by exists loss, raw. }
  rewrite Estep, follow_exact. cbv zeta. cbn [ewma_score current_tier pending_tier pending_since set_score].
  destruct (wants_exists (average (ewma_score s) raw)) as [p Hp].
  destruct (log_explained up down s log Hr) as [_ Hlog]. pose proof (reachable_sorted up down s log Hr) as Hs.
  destruct (reachable_stability up down s log Hr) as [Hup Hdown].
  set (d := score_to_tier (average (ewma_score s) raw)) in *.
  destruct (Nat.eqb_spec d (current_tier s)) as [E|Hne].
  { eexists _, _, d, p. split; [done|]. split; [done|]. split; [done|]. split; [by intros [? _]|done]. }
  specialize (Hlog _ Hne). destruct (bool_decide_reflect (pending_tier s = Some d)) as [Hpend|Hpend].
  - change (stability_for (set_score (average (ewma_score s) raw) s) d) with (stability_for s d).
    assert (Hst' : stability_for s d = if (d <? current_tier s)%nat then up else down) by (unfold stability_for; by rewrite Hup, Hdown).
    destruct (Z.leb_spec (stability_for s d) (elapsed now (pending_since s))) as [Hst|Hst]; rewrite Hst' in Hst;
      (eexists _, _, d, p; split; [done|]; split; [done|]; split; [done|]).
    + split; [intros _; split; [done|]; by apply wants_iff in Hp as [_ Hp]|].
      intros Hno. exfalso. apply Hno. split; [done|]. destruct (asked_since_witness _ _ _ _ Hlog) as (st & rest & e & ? & ? & ? & Ee).
      exists st, rest, e. rewrite Ee. by repeat split.
    + split; [|done]. intros (_ & st & rest & e & -> & Hf & Hl & He). exfalso.
      destruct (asked_since_stretch _ _ _ _ Hs Hf e Hl) as (since & Es & Hle). rewrite Hlog in Es. injection Es as <-.
      unfold elapsed in Hst. destruct (d <? current_tier s)%nat; lia.
  - eexists _, _, d, p. split; [done|]. split; [done|]. split; [done|]. split; [|done].
    intros (_ & st & rest & e & -> & Hf & Hl & _). exfalso.
    destruct (asked_since_stretch _ _ _ _ Hs Hf e Hl) as (since & Es & _). by rewrite Hlog in Es.
Qed.

(** in every run the average is a number of the unit interval, or, from the first report
    whose loss is no number on, none at all. *)
Theorem average_bounded up down s log : reachable up down s log -> is_nan (ewma_score s) = true \/ in_unit (ewma_score s).
Proof.
  induction 1 as [t0|t0|s log now fb s' out Hr IH Ht Hf]; [by right..|].
  destruct (on_feedback_split _ _ _ _ _ Hf) as (raw & Eraw & _ & -> & _).
  destruct IH as [IH|IH]; [left; by rewrite average_nan; [|left]|].
  destruct (score_in_unit _ _ Eraw) as [H|H]; [left; by rewrite average_nan; [|right]|right; by apply average_in_unit].
Qed.

(** ** Where a report misleads the controller *)

(** one loss that is no number, and the average is none for good: from then on every report,
    however good, asks for the lowest tier. *)
Theorem nan_loss_for_good s now fb s' out : on_rtcp_feedback s now fb = Ret (s', out) ->
  is_nan (fraction_lost fb) = true \/ is_nan (ewma_score s) = true ->
  is_nan (ewma_score s') = true /\ score_to_tier (ewma_score s') = TIER_LOW.
Proof.
  intros H Hn. destruct (on_feedback_split _ _ _ _ _ H) as (raw & Eraw & _ & -> & _).
  assert (is_nan (ewma_score s) = true \/ is_nan raw = true) as Hn'.
  { destruct Hn as [Hn|Hn]; [right|by left]. rewrite score_nan in Eraw by done. by injection Eraw as <-. }
  by rewrite (average_nan _ _ Hn').
Qed.

Definition perfect : RtcpFeedback := {| fraction_lost := zero; jitter_ms := zero; rtt_ms := zero |}.
Definition terrible : RtcpFeedback := {| fraction_lost := one; jitter_ms := MAX_JITTER_MS; rtt_ms := MAX_RTT_MS |}.

(** The state a run of reports ends in. *)
Definition after (s : AdaptiveBitrateController) (now : Instant) (fb : RtcpFeedback) : AdaptiveBitrateController :=
  match on_rtcp_feedback s now fb with Ret r => r.1 | Panic => s end.

(** Two terrible reports move the average below the threshold, the second starts the clock, and
    one a second later moves down. *)
Definition start : AdaptiveBitrateController := with_stability (new 0) 5000000000 1000000000.
Definition worse : AdaptiveBitrateController := after (after start 0 terrible) 100 terrible.

Definition worse_log : list entry := [(100, ewma_score worse, 1%nat); (0, ewma_score (after start 0 terrible), 1%nat)].

Lemma worse_reachable : reachable 5000000000 1000000000 worse worse_log.
Proof.
  apply (reach_report _ _ (after start 0 terrible) [(0, ewma_score (after start 0 terrible), 1%nat)] 100 terrible worse None).
  - apply (reach_report _ _ start [] 0 terrible (after start 0 terrible) None); [apply reach_with|constructor|vm_compute; reflexivity].
  - repeat constructor. by vm_compute.
  - vm_compute. reflexivity.
Qed.

Lemma tier_change_exact_witness :
  current_tier worse = TIER_MEDIUM /\ exists s', on_rtcp_feedback worse 1000000100 terrible = Ret (s', Some LOW) /\ current_tier s' = TIER_LOW.
Proof.
  split; [vm_compute; reflexivity|].
  destruct (tier_change_exact 5000000000 1000000000 worse worse_log 1000000100 terrible worse_reachable)
    as (s' & out & d & p & E & _ & Hw & H & _); [repeat constructor; by vm_compute|].
  assert (Ed : score_to_tier (ewma_score (after worse 1000000100 terrible)) = TIER_LOW) by (vm_compute; reflexivity).
  unfold after in Ed. rewrite E in Ed. cbn [fst] in Ed. apply wants_iff in Hw as [Hd Hp]. rewrite Ed in Hd. subst d. injection Hp as <-.
  assert (Ht : current_tier worse = 1%nat) by (vm_compute; reflexivity).
  assert (Hw : score_to_tier (ewma_score worse) = TIER_LOW) by (vm_compute; reflexivity).
  destruct H as (Hc & Ho).
  { rewrite Ht. split; [done|]. exists [(100, ewma_score worse, 1%nat)], [(0, ewma_score (after start 0 terrible), 1%nat)], (100, ewma_score worse, 1%nat).
    split; [reflexivity|]. split; [|split; [reflexivity|cbn; lia]]. constructor; [|constructor]. apply asks_iff. by split. }
  exists s'. rewrite E, Ho. split; [reflexivity|exact Hc].
Defined.

Lemma average_bounded_witness : is_nan (ewma_score worse) = true \/ in_unit (ewma_score worse).
Proof. exact (average_bounded _ _ worse _ worse_reachable). Defined.

Lemma nan_loss_for_good_witness :
  score_to_tier (ewma_score (after (after start 0 {| fraction_lost := S754_nan; jitter_ms := zero; rtt_ms := zero |}) 1 perfect)) = TIER_LOW.
Proof.
  set (s := after start 0 {| fraction_lost := S754_nan; jitter_ms := zero; rtt_ms := zero |}).
  destruct (on_rtcp_feedback s 1 perfect) as [[s' out]|] eqn:E; unfold after; rewrite E.
  - apply (nan_loss_for_good s 1 perfect s' out E). by right.
  - exfalso. revert E. vm_compute. done.
Defined.
