(* ===== verification/Fallback.v ===== *)
(** * Falling back to other models

    roz-agent/model/fallback.rs: a pair of a primary and a fallback model, and the chain that
    tries its models in order, skips those below the minimum tier or on cooldown, and puts a
    model that was unavailable on cooldown.  A request is a task that alternates with the
    others at the lock of the cooldowns, as does whoever calls [set_cooldown]; what a model
    answers, and when, is given.
    [is_connect] and [is_timeout] of the HTTP library's error are arguments. *)

From S2P Require Import Prelude RustStr ModelCalls.
Open Scope string_scope.
Open Scope list_scope.
Open Scope Z_scope.

Definition FALLBACK_STATUS_CODES : list Z := [429; 503; 529].

Section Fallback.
Context {Resp : Type} (is_connect is_timeout : BoxedError -> bool).
Implicit Types (e : BoxedError) (n : string).

Definition is_fallback_eligible (e : BoxedError) : bool :=
  match e with
  | Reqwest status _ =>
      match status with Some s => bool_decide (s ∈ FALLBACK_STATUS_CODES) | None => false end
      || is_connect e || is_timeout e
  | OtherError msg =>
      contains "temporarily blocked" msg || contains "rate_limit" msg || contains "overloaded" msg ||
      contains "error 503" msg || contains "error 529" msg
  end.

(** [FallbackModel::complete] (and [stream]): the fallback is asked at most once. *)
Definition fallback_complete (primary fallback : result Resp BoxedError) : result Resp BoxedError :=
  match primary with
  | Ok resp => Ok resp
  | Err e => if is_fallback_eligible e then fallback else Err e
  end.

(** ** The chain *)

(** [models] by name; [cooldowns] are behind their own lock. *)
Record FallbackChain : Type := {
  models : list string;
  cooldown_duration : Duration;
  min_tier_prefix : option string;
}.

Definition new_chain (models : list string) : FallbackChain :=
  {| models := models; cooldown_duration := 60000000000; min_tier_prefix := None |}.
Definition with_cooldown (self : FallbackChain) (d : Duration) : FallbackChain :=
  {| models := models self; cooldown_duration := d; min_tier_prefix := min_tier_prefix self |}.
Definition with_min_tier (self : FallbackChain) (prefix : string) : FallbackChain :=
  {| models := models self; cooldown_duration := cooldown_duration self; min_tier_prefix := Some prefix |}.

Definition is_on_cooldown (cooldowns : gmap string Instant) (n : string) (now : Instant) : bool :=
  match cooldowns !! n with Some until => now <? until | None => false end.

Definition set_cooldown (self : FallbackChain) (cooldowns : gmap string Instant) (n : string) (now : Instant) : gmap string Instant :=
  <[n := now + cooldown_duration self]> cooldowns.

Definition meets_min_tier (self : FallbackChain) (n : string) : bool :=
  match min_tier_prefix self with Some prefix => contains prefix n | None => true end.

Definition exhausted : BoxedError := OtherError "all models exhausted or on cooldown".

(** What a request made of a model it came to. *)
Inductive Visit : Type :=
| BelowTier
| OnCooldown
| Answer (r : result Resp BoxedError).

(** A call of [complete] or [stream]: before a model, waiting for one, or answered. *)
Inductive Stage : Type :=
| Trying (rest : list string) (last_error : option BoxedError)
| Waiting (n : string) (rest : list string) (last_error : option BoxedError)
| Answered (r : result Resp BoxedError).

(** [visits]: what it did so far, in order. *)
Record Request : Type := { stage : Stage; visits : list (string * Visit) }.

Variable self : FallbackChain.

Definition new_request : Request := {| stage := Trying (models self) None; visits := [] |}.

(** One turn of the loop up to the call of the model, or its end. *)
Definition visit_model (cooldowns : gmap string Instant) (now : Instant) (t : Request) : option Request :=
  match stage t with
  | Trying [] last_error => Some {| stage := Answered (Err (default exhausted last_error)); visits := visits t |}
  | Trying (n :: rest) last_error =>
      Some (if negb (meets_min_tier self n) then {| stage := Trying rest last_error; visits := visits t ++ [(n, BelowTier)] |}
            else if is_on_cooldown cooldowns n now then {| stage := Trying rest last_error; visits := visits t ++ [(n, OnCooldown)] |}
            else {| stage := Waiting n rest last_error; visits := visits t |})
  | _ => None
  end.

(** What becomes of the model's answer. *)
Definition model_answers (cooldowns : gmap string Instant) (now : Instant) (r : result Resp BoxedError) (t : Request)
  : option (gmap string Instant * Request) :=
  match stage t with
  | Waiting n rest last_error =>
      let vs := visits t ++ [(n, Answer r)] in
      Some match r with
           | Ok resp => (cooldowns, {| stage := Answered (Ok resp); visits := vs |})
           | Err e =>
               if is_fallback_eligible e then
                 (set_cooldown self cooldowns n now, {| stage := Trying rest (Some e); visits := vs |})
               else (cooldowns, {| stage := Answered (Err e); visits := vs |})
           end
  | _ => None
  end.

(** ** Requests that share the chain *)

(** Why a model was put on cooldown, or might have been: a request was answered with an error,
    or somebody called [set_cooldown]. *)
Inductive Cause : Type := Failed (e : BoxedError) | Called.

(** [history]: every failed answer and every call of [set_cooldown], with their instants. *)
Record System : Type := {
  cooldowns : gmap string Instant;
  requests : list Request;
  clock : Instant;
  history : list (string * Instant * Cause);
}.

Inductive Event : Type :=
| NewRequest
| Visits (i : nat)
| Answers (i : nat) (r : result Resp BoxedError)
| SetCooldown (n : string).

Definition system_step (s : System) (ev : Event) (now : Instant) : option System :=
  if now <? clock s then None
  else
    match ev with
    | NewRequest => Some {| cooldowns := cooldowns s; requests := requests s ++ [new_request]; clock := now; history := history s |}
    | Visits i =>
        t ← requests s !! i; t' ← visit_model (cooldowns s) now t;
        Some {| cooldowns := cooldowns s; requests := <[i := t']> (requests s); clock := now; history := history s |}
    | Answers i r =>
        t ← requests s !! i; ct ← model_answers (cooldowns s) now r t;
        Some {| cooldowns := ct.1; requests := <[i := ct.2]> (requests s); clock := now;
                history := match stage t, r with
                           | Waiting n _ _, Err e => (n, now, Failed e) :: history s
                           | _, _ => history s
                           end |}
    | SetCooldown n =>
        Some {| cooldowns := set_cooldown self (cooldowns s) n now; requests := requests s; clock := now;
                history := (n, now, Called) :: history s |}
    end.

Definition initial (now : Instant) : System := {| cooldowns := ∅; requests := []; clock := now; history := [] |}.

Inductive reachable : System -> Prop :=
| reach_initial now : reachable (initial now)
| reach_step s ev now s' : reachable s -> system_step s ev now = Some s' -> reachable s'.

(** ** The cooldowns are the failures of the last while *)

(** The model is unavailable: too many requests, out of service or overloaded by its status or
    by what the message says, or not reached at all. *)
Definition unavailable (e : BoxedError) : Prop :=
  match e with
  | Reqwest status _ => status = Some 429 \/ status = Some 503 \/ status = Some 529 \/ is_connect e = true \/ is_timeout e = true
  | OtherError msg =>
      exists phrase before after, msg = (before +:+ phrase +:+ after)%string /\
        phrase ∈ ["temporarily blocked"; "rate_limit"; "overloaded"; "error 503"; "error 529"]
  end.

Definition takes_down (c : Cause) : Prop := match c with Failed e => unavailable e | Called => True end.

(** Somebody put the model on cooldown, or found it unavailable, less than a cooldown ago. *)
Definition cooling (s : System) (n : string) (now : Instant) : Prop :=
  exists t c, (n, t, c) ∈ history s /\ takes_down c /\ now < t + cooldown_duration self.

(** The name contains the prefix of the minimum tier, if there is one. *)
Definition in_tier (n : string) : Prop :=
  forall prefix, min_tier_prefix self = Some prefix -> exists before after, n = (before +:+ prefix +:+ after)%string.

Lemma contains_spec p s : contains p s = true <-> exists before after, s = (before +:+ p +:+ after)%string.
Proof. unfold contains. rewrite bool_decide_eq_true. apply find_is_Some. Qed.

Lemma eligible_unavailable e : is_fallback_eligible e = true <-> unavailable e.
Proof.
  destruct e as [status text|msg]; cbn [is_fallback_eligible unavailable]; rewrite !orb_true_iff.
  - destruct status as [st|]; [rewrite bool_decide_eq_true, !(inj_iff Some); unfold FALLBACK_STATUS_CODES; set_solver|].
    assert (forall z : Z, None <> Some z) by done. naive_solver.
  - rewrite !contains_spec. split.
    + intros [[[[(a & b & ->)|(a & b & ->)]|(a & b & ->)]|(a & b & ->)]|(a & b & ->)]; eexists _, a, b; (split; [done|set_solver]).
    + intros (phrase & a & b & -> & Hin). rewrite !elem_of_cons, elem_of_nil in Hin. naive_solver.
Qed.

Lemma min_tier_spec n : meets_min_tier self n = true <-> in_tier n.
Proof.
  unfold meets_min_tier, in_tier. destruct (min_tier_prefix self) as [prefix|]; [rewrite contains_spec|]; naive_solver.
Qed.

Definition cooldowns_explained (s : System) : Prop :=
  (forall n t c, (n, t, c) ∈ history s -> takes_down c -> t <= clock s /\ exists u, cooldowns s !! n = Some u /\ t + cooldown_duration self <= u) /\
  (forall n u, cooldowns s !! n = Some u -> exists t c, (n, t, c) ∈ history s /\ takes_down c /\ u = t + cooldown_duration self).

Lemma step_clock s ev now s' : system_step s ev now = Some s' -> clock s <= now /\ clock s' = now.
Proof.
  unfold system_step. destruct (Z.ltb_spec now (clock s)) as [|Hle]; [done|]. intros H. split; [done|].
  destruct ev; simplify_option_eq; done.
Qed.

(** A step that leaves the cooldowns as they are, and adds at most a failure that takes no model
    down. *)
Lemma explained_same s s' (new : list (string * Instant * Cause)) :
  cooldowns_explained s -> clock s <= clock s' -> cooldowns s' = cooldowns s -> history s' = new ++ history s ->
  Forall (fun h => ~ takes_down h.2) new -> cooldowns_explained s'.
Proof.
  intros [IH1 IH2] Hc Ec Eh Hnew. split; rewrite Ec, Eh.
  - intros n t c [Hn|Hn]%elem_of_app Hd; [by destruct (proj1 (Forall_forall _ _) Hnew _ Hn)|].
    destruct (IH1 n t c Hn Hd). split; [lia|done].
  - intros n u Hu. destruct (IH2 n u Hu) as (t & c & ? & ? & ?). exists t, c. rewrite elem_of_app. auto.
Qed.

(** A step that puts a model on cooldown, and says why. *)
Lemma explained_down s s' n c :
  cooldowns_explained s -> clock s <= clock s' -> cooldowns s' = set_cooldown self (cooldowns s) n (clock s') ->
  history s' = (n, clock s', c) :: history s -> takes_down c -> cooldowns_explained s'.
Proof.
  intros [IH1 IH2] Hc Ec Eh Hd. unfold set_cooldown in Ec. split; rewrite Ec, Eh.
  - intros n' t c' [[= -> -> ->]|Hn]%elem_of_cons Hd'.
    + split; [lia|]. eexists. by rewrite lookup_insert_eq.
    + destruct (IH1 n' t c' Hn Hd') as (? & u & Hu & ?). split; [lia|]. destruct (decide (n = n')) as [->|].
      * eexists. rewrite lookup_insert_eq. split; [done|lia].
      * exists u. by rewrite lookup_insert_ne.
  - intros n' u. rewrite lookup_insert_Some. intros [[-> <-]|[_ Hu]].
    + exists (clock s'), c. split; [by left|done].
    + destruct (IH2 n' u Hu) as (t & c' & ? & ? & ?). exists t, c'. split; [by right|done].
Qed.

Lemma reachable_explained s : reachable s -> cooldowns_explained s.
Proof.
  induction 1 as [now|s ev now s' _ IH Hst]; [by split; [intros ? ? ? ?%elem_of_nil|]|].
  pose proof (step_clock _ _ _ _ Hst) as [Hc <-].
  assert (Hsame : cooldowns s' = cooldowns s -> history s' = history s -> cooldowns_explained s')
    by (intros; by eapply (explained_same s s' [])).
  revert Hst. unfold system_step. destruct (clock s' <? clock s); [done|]. intros Hst.
  destruct ev as [|i|i r|n].
  - injection Hst as Hst. apply Hsame; by rewrite <- Hst.
  - destruct (requests s !! i) as [t|]; [|done]. cbn [mbind option_bind] in Hst.
    destruct (visit_model (cooldowns s) (clock s') t); [|done]. injection Hst as Hst. apply Hsame; by rewrite <- Hst.
  - destruct (requests s !! i) as [t|]; [|done]. cbn [mbind option_bind] in Hst.
    unfold model_answers in Hst. destruct (stage t) as [|n rest le|]; try done. cbn [mbind option_bind] in Hst.
    injection Hst as Hst. destruct r as [resp|e]; [apply Hsame; by rewrite <- Hst|].
    destruct (is_fallback_eligible e) eqn:Ee; pose proof (f_equal cooldowns Hst) as Ec; pose proof (f_equal history Hst) as Eh.
    + by apply (explained_down s s' n (Failed e)); [..|by apply eligible_unavailable].
    + apply (explained_same s s' [(n, clock s', Failed e)]); [done..|].
      constructor; [|done]. cbn. by rewrite <- eligible_unavailable, Ee.
  - injection Hst as Hst. pose proof (f_equal cooldowns Hst) as Ec. pose proof (f_equal history Hst) as Eh.
    by apply (explained_down s s' n Called).
Qed.

Lemma cooldown_exact s n now : reachable s -> (is_on_cooldown (cooldowns s) n now = true <-> cooling s n now).
Proof.
  intros Hr. destruct (reachable_explained s Hr) as [H1 H2]. unfold is_on_cooldown, cooling. split.
  - destruct (cooldowns s !! n) as [u|] eqn:Hu; [|done]. intros Hlt%Z.ltb_lt.
    destruct (H2 n u Hu) as (t & c & ? & ? & ->). by exists t, c.
  - intros (t & c & Hn & Hd & Hlt). destruct (H1 n t c Hn Hd) as (_ & u & -> & ?). apply Z.ltb_lt. lia.
Qed.

(** C32: in every interleaving of requests and calls of [set_cooldown], a request that comes to
    a model asks it exactly when the model's name contains the prefix of the minimum tier and
    nobody found it unavailable, or put it on cooldown, within the last cooldown; otherwise it
    goes on to the next model. *)
Theorem asked_iff_available s i now t n rest last_error :
  reachable s -> clock s <= now -> requests s !! i = Some t -> stage t = Trying (n :: rest) last_error ->
  exists s', system_step s (Visits i) now = Some s' /\ cooldowns s' = cooldowns s /\ history s' = history s /\
  (in_tier n /\ ~ cooling s n now ->
     requests s' !! i = Some {| stage := Waiting n rest last_error; visits := visits t |}) /\
  (~ in_tier n -> requests s' !! i = Some {| stage := Trying rest last_error; visits := visits t ++ [(n, BelowTier)] |}) /\
  (in_tier n /\ cooling s n now ->
     requests s' !! i = Some {| stage := Trying rest last_error; visits := visits t ++ [(n, OnCooldown)] |}).
Proof.
  intros Hr Hc Ht Est. pose proof (cooldown_exact s n now Hr) as Hcd.
  assert (Hstep : forall t', visit_model (cooldowns s) now t = Some t' ->
    system_step s (Visits i) now = Some {| cooldowns := cooldowns s; requests := <[i := t']> (requests s); clock := now; history := history s |}).
  { intros t' Hv. unfold system_step. destruct (Z.ltb_spec now (clock s)); [lia|]. rewrite Ht. cbn [mbind option_bind]. by rewrite Hv. }
  pose proof (lookup_lt_Some _ _ _ Ht) as Hlt. unfold visit_model in Hstep. rewrite Est in Hstep.
  eexists. split; [by apply Hstep|]. cbn [cooldowns history requests]. split; [done|]. split; [done|].
  rewrite list_lookup_insert_eq, <- !(min_tier_spec n) by done. destruct (meets_min_tier self n) eqn:Em; cbn [negb].
  - destruct (is_on_cooldown (cooldowns s) n now) eqn:E.
    + split; [intros [_ Hno]; destruct Hno; by apply Hcd|]. done.
    + split; [done|]. split; [done|]. intros [_ Hy%Hcd]. done.
  - split; [by intros [? _]|]. split; [done|]. by intros [? _].
Qed.

(** ** What a request answers *)

(** A visit after which the request goes on. *)
Definition goes_on (v : string * Visit) : Prop :=
  match v.2 with
  | BelowTier => meets_min_tier self v.1 = false
  | OnCooldown => meets_min_tier self v.1 = true
  | Answer (Ok _) => False
  | Answer (Err e) => meets_min_tier self v.1 = true /\ is_fallback_eligible e = true
  end.

(** The last error met. *)
Definition last_failure (vs : list (string * Visit)) : option BoxedError :=
  foldl (fun le v => match v.2 with Answer (Err e) => Some e | _ => le end) None vs.

Definition request_explained (t : Request) : Prop :=
  match stage t with
  | Trying rest le => (visits t).*1 ++ rest = models self /\ Forall goes_on (visits t) /\ le = last_failure (visits t)
  | Waiting n rest le =>
      (visits t).*1 ++ n :: rest = models self /\ Forall goes_on (visits t) /\ le = last_failure (visits t) /\ meets_min_tier self n = true
  | Answered r =>
      (exists before n, visits t = before ++ [(n, Answer r)] /\ Forall goes_on before /\ (visits t).*1 `prefix_of` models self /\
         meets_min_tier self n = true /\ match r with Ok _ => True | Err e => is_fallback_eligible e = false end)
      \/ ((visits t).*1 = models self /\ Forall goes_on (visits t) /\ r = Err (default exhausted (last_failure (visits t))))
  end.

Lemma last_failure_snoc vs v : last_failure (vs ++ [v]) = match v.2 with Answer (Err e) => Some e | _ => last_failure vs end.
Proof. unfold last_failure. by rewrite foldl_app. Qed.

Lemma visit_explained c now t t' : request_explained t -> visit_model c now t = Some t' -> request_explained t'.
Proof.
  unfold visit_model, request_explained at 1. destruct (stage t) as [rest le|n rest le|r] eqn:Est; try done.
  intros (Hn & Hf & ->). destruct rest as [|n rest].
  { intros [= <-]. right. cbn [visits]. rewrite app_nil_r in Hn. done. }
  intros [= <-]. destruct (meets_min_tier self n) eqn:Em; cbn [negb]; [destruct (is_on_cooldown c n now)|]; unfold request_explained; cbn [stage visits].
  2: done.
  all: split; [by rewrite fmap_app, <- app_assoc|]; split; [apply Forall_app; split; [done|by constructor]|by rewrite last_failure_snoc].
Qed.

Lemma answer_explained c now r t c' t' : request_explained t -> model_answers c now r t = Some (c', t') -> request_explained t'.
Proof.
  unfold model_answers, request_explained at 1. destruct (stage t) as [|n rest le|] eqn:Est; try done.
  intros (Hn & Hf & -> & Hm) [= H].
  assert (Hp : (visits t ++ [(n, Answer r)]).*1 `prefix_of` models self).
  { exists rest. by rewrite fmap_app, <- app_assoc. }
  destruct r as [resp|e]; [|destruct (is_fallback_eligible e) eqn:Ee]; injection H as <- <-; unfold request_explained; cbn [stage visits].
  - left. by exists (visits t), n.
  - split; [by rewrite fmap_app, <- app_assoc|]. split; [apply Forall_app; split; [done|by constructor]|by rewrite last_failure_snoc].
  - left. by exists (visits t), n.
Qed.

Lemma requests_explained s : reachable s -> forall i t, requests s !! i = Some t -> request_explained t.
Proof.
  induction 1 as [now|s ev now s' _ IH Hst]; [done|]. intros i t Hi.
  unfold system_step in Hst. destruct (now <? clock s); [done|].
  destruct ev as [|j|j r|n]; [..|injection Hst as <-; by apply IH in Hi].
  - injection Hst as <-. cbn in Hi. apply lookup_app_Some in Hi as [Hi|[_ Hi]]; [by apply IH in Hi|].
    destruct (i - _)%nat; [|done]. injection Hi as <-. by split.
  - destruct (requests s !! j) as [u|] eqn:Eu; [|done]. cbn [mbind option_bind] in Hst.
    destruct (visit_model (cooldowns s) now u) as [u'|] eqn:Ev; [|done]. injection Hst as <-. cbn in Hi.
    apply list_lookup_insert_Some in Hi as [(-> & <- & _)|[_ Hi]]; [|by apply IH in Hi]. by eapply visit_explained; [apply (IH i u)|].
  - destruct (requests s !! j) as [u|] eqn:Eu; [|done]. cbn [mbind option_bind] in Hst.
    destruct (model_answers (cooldowns s) now r u) as [[c' u']|] eqn:Ev; [|done]. injection Hst as <-. cbn in Hi.
    apply list_lookup_insert_Some in Hi as [(-> & <- & _)|[_ Hi]]; [|by apply IH in Hi]. by eapply answer_explained; [apply (IH i u)|].
Qed.

(** in every interleaving, a request answers what the first model answered that did not
    fail as unavailable, every model before it in the chain having been below the tier, on
    cooldown or unavailable; only when that is so of the whole chain does it fail, with the
    last model's error, or with its own message if no model was asked. *)
Theorem answer_exact s i t r : reachable s -> requests s !! i = Some t -> stage t = Answered r ->
  (exists before n, visits t = before ++ [(n, Answer r)] /\ Forall goes_on before /\ (visits t).*1 `prefix_of` models self /\
     meets_min_tier self n = true /\ match r with Ok _ => True | Err e => is_fallback_eligible e = false end)
  \/ ((visits t).*1 = models self /\ Forall goes_on (visits t) /\ r = Err (default exhausted (last_failure (visits t)))).
Proof. intros Hr Hi Hst. pose proof (requests_explained s Hr i t Hi) as H. unfold request_explained in H. by rewrite Hst in H. Qed.

(** ** Every request is answered *)

Definition left_to_do (t : Request) : nat :=
  match stage t with
  | Trying rest _ => S (2 * length rest)
  | Waiting _ rest _ => S (S (2 * length rest))
  | Answered _ => 0
  end.

(** A request that is not answered can go on whatever the others do, and each of its own steps
    brings it closer: at most [2 * length (models self) + 1] of them. *)
Lemma request_progress c now t : left_to_do t <> 0%nat ->
  (exists t', visit_model c now t = Some t' /\ (left_to_do t' < left_to_do t)%nat) \/
  (forall r, exists c' t', model_answers c now r t = Some (c', t') /\ (left_to_do t' < left_to_do t)%nat).
Proof.
  unfold left_to_do, visit_model, model_answers. destruct (stage t) as [[|n rest] le|n rest le|r]; [..|done]; intros _.
  - left. eexists. split; [done|]. cbn. lia.
  - left. destruct (meets_min_tier self n); cbn [negb]; [destruct (is_on_cooldown c n now)|]; (eexists; split; [done|]; cbn; lia).
  - right. intros [resp|e]; [|destruct (is_fallback_eligible e)]; eexists _, _; (split; [done|]; cbn; lia).
Qed.

Lemma new_request_bound : left_to_do new_request = S (2 * length (models self)).
Proof. reflexivity. Qed.

End Fallback.

(** ** Examples *)

Definition never (e : BoxedError) : bool := false.
Definition overloaded : BoxedError := OtherError "Stream error [overloaded_error]: Service temporarily overloaded".
Definition two_models : FallbackChain := new_chain ["a"; "b"].

Definition steps (l : list (Event (Resp := string) * Instant)) : option (System (Resp := string)) :=
  foldl (fun s e => s' ← s; system_step never never two_models s' e.1 e.2) (Some (initial 0)) l.

Lemma steps_reachable l s : steps l = Some s -> reachable never never two_models s.
Proof.
  revert s. induction l as [|[ev now] l IH] using rev_ind; intros s; unfold steps; [intros [= <-]; constructor|].
  rewrite foldl_app. cbn [foldl]. fold (steps l). destruct (steps l) as [s0|]; [|done]. cbn [mbind option_bind fst snd].
  intros H. by apply (reach_step _ _ _ s0 ev now s (IH s0 eq_refl)).
Qed.

(** The first model is overloaded at instant 5; a second request skips it a minute long. *)
Definition after_overload : list (Event (Resp := string) * Instant) :=
  [(NewRequest, 0); (Visits 0, 1); (Answers 0 (Err overloaded), 5); (Visits 0, 6); (Answers 0 (Ok "hi"), 7); (NewRequest, 8)].

Lemma asked_iff_available_witness :
  exists s s', steps after_overload = Some s /\ system_step never never two_models s (Visits 1) 9 = Some s' /\
  requests s' !! 1%nat = Some {| stage := Trying ["b"] None; visits := [("a", OnCooldown)] |}.
Proof.
  destruct (steps after_overload) as [s|] eqn:E; [|by vm_compute in E].
  assert (Hq : clock s = 8 /\ requests s !! 1%nat = Some (new_request two_models) /\ ("a", 5, Failed overloaded) ∈ history s).
  { assert (Ho : option_map (fun s => (clock s, requests s !! 1%nat, history s)) (steps after_overload)
      = Some (8, Some (new_request two_models), [("a", 5, Failed overloaded)])) by reflexivity.
    rewrite E in Ho. cbn in Ho. injection Ho as Hc Hq Hf. rewrite Hf. split; [done|]. split; [done|]. by left. }
  destruct Hq as (Hc & Hq & Hf).
  destruct (asked_iff_available never never two_models s 1 9 (new_request two_models) "a" ["b"] None (steps_reachable _ s E))
    as (s' & Hs & _ & _ & _ & _ & Hcool); [rewrite Hc; by vm_compute|exact Hq|reflexivity|].
  exists s, s'. split; [reflexivity|]. split; [exact Hs|]. apply Hcool. split; [intros prefix H; discriminate H|].
  exists 5, (Failed overloaded). split; [exact Hf|]. split; [|by vm_compute].
  exists "overloaded", "Stream error [", "_error]: Service temporarily overloaded". split; [reflexivity|].
  right. right. left.
Defined.

(** [set_cooldown] puts a model on cooldown without any request. *)
Example set_cooldown_skips :
  (fun s => requests s !! 0%nat) <$> steps [(SetCooldown "a", 0); (NewRequest, 1); (Visits 0, 2)] =
  Some (Some {| stage := Trying ["b"] None; visits := [("a", OnCooldown)] |}).
Proof. reflexivity. Qed.

Lemma answer_exact_witness :
  exists s t, steps after_overload = Some s /\ requests s !! 0%nat = Some t /\ (visits t).*1 `prefix_of` ["a"; "b"].
Proof.
  destruct (steps after_overload) as [s|] eqn:E; [|by vm_compute in E].
  destruct (requests s !! 0%nat) as [t|] eqn:Et.
  - assert (Hst : stage t = Answered (Ok "hi")).
    { assert (Ho : option_map stage (steps after_overload ≫= (fun s => requests s !! 0%nat)) = Some (Answered (Ok "hi"))) by reflexivity.
      rewrite E in Ho. cbn [mbind option_bind] in Ho. rewrite Et in Ho. by injection Ho. }
    exists s, t. split; [reflexivity|]. split; [exact Et|].
    destruct (answer_exact never never two_models s 0 t (Ok "hi") (steps_reachable _ s E) Et Hst) as [(b & n & _ & _ & Hp & _)|(_ & _ & Hx)]; [exact Hp|done].
  - exfalso. assert (Ho : option_map (fun s => requests s !! 0%nat) (steps after_overload) <> Some None) by done. by rewrite E in Ho; cbn in Ho; rewrite Et in Ho.
Defined.

(** A 429 of the Anthropic client is a text; when the body does not name the limit, it is not
    taken for a reason to fall back, although 429 is among the codes. *)
Example text_429_not_eligible : is_fallback_eligible never never (OtherError "Anthropic API error 429 Too Many Requests: ") = false.
Proof. reflexivity. Qed.

Example status_429_eligible text : is_fallback_eligible never never (Reqwest (Some 429) text) = true.
Proof. reflexivity. Qed.

(** With every model on cooldown the chain's own error is not transient to the retries. *)
Example exhausted_not_retried : is_retryable (ModelErr exhausted) = false.
Proof. reflexivity. Qed.
