(* ===== verification/SimToReal.v ===== *)
(** * Comparing simulated with real runs

    roz-core/sim2real: metrics.rs and spectral.rs (distances of equally long series),
    alignment.rs (anchors of common events and interpolation between them), pipeline.rs (the
    verdict over the configured channels), signatures.rs (known failures), scenario.rs (the
    sweep over parameters) and the statistics of diagnosis.rs.  [powi], nalgebra's distance of
    points, and what the sort does under an order that is not one are arguments. *)

From stdpp Require Import sorting.
From S2P Require Import Prelude Float64 Float64Round Float64Mono RustStr ModelCalls SimDistance.
Open Scope list_scope.
Open Scope Z_scope.

(** ** report.rs *)

Inductive MetricKind : Type := Rmse | Mae | MaxDeviation | Frechet | Dtw | SpectralCoherence.

#[export] Instance MetricKind_eq_dec : EqDecision MetricKind.
Proof. solve_decision. Defined.

Record ChannelDivergence : Type := {
  channel_name : string;
  metric : MetricKind;
  value : f64;
  threshold : option f64;
  passed : bool;
}.

Record PhaseScore : Type := { phase_name : string; score : f64; channels : list ChannelDivergence }.

Inductive DiagnosisAction : Type := Pass | Investigate | Retune | Escalate.

(** The identifiers and the instant of the report are left out. *)
Record DivergenceReport : Type := {
  overall_score : f64;
  phases : list PhaseScore;
  action : DiagnosisAction;
  signatures_matched : list string;
}.

Definition NAN : f64 := S754_nan.

(** [Iterator::sum] of [f64] starts from the negative zero. *)
Definition f64_sum (l : list f64) : f64 := foldl f64_add (S754_zero true) l.

(** [Iterator::reduce]. *)
Definition reduce {A} (f : A -> A -> A) (l : list A) : option A :=
  match l with [] => None | x :: l => Some (foldl f x l) end.

Definition len_f64 {A} (l : list A) : f64 := f64_of_Z (Z.of_nat (length l)).

Section Metrics.
Context (powi : f64 -> Z -> f64).

(** ** metrics.rs *)

Definition comparable (sim real : list f64) : bool := negb (length sim =? 0)%nat && (length sim =? length real)%nat.

Definition differences (sim real : list f64) : list f64 := zip_with f64_sub sim real.

Definition rmse (sim real : list f64) : option f64 :=
  if comparable sim real then
    let sum_sq := f64_sum (map (fun d => powi d 2) (differences sim real)) in
    Some (f64_sqrt (f64_div sum_sq (len_f64 sim)))
  else None.

Definition mae (sim real : list f64) : option f64 :=
  if comparable sim real then
    let sum_abs := f64_sum (map f64_abs (differences sim real)) in
    Some (f64_div sum_abs (len_f64 sim))
  else None.

Definition max_deviation (sim real : list f64) : option f64 :=
  if comparable sim real then reduce f64_max (map f64_abs (differences sim real)) else None.

Definition normalized_rmse (sim real : list f64) : option f64 :=
  r ← rmse sim real;
  min ← reduce f64_min real;
  max ← reduce f64_max real;
  let range := f64_sub max min in
  if f64_eq range zero then None else Some (f64_div r range).

(** ** spectral.rs *)

(** The sums of the loop: covariance and both variances. *)
Definition moments (mean_s mean_r : f64) (sim real : list f64) : f64 * f64 * f64 :=
  foldl (fun '(cov, var_s, var_r) '(s, r) =>
    let ds := f64_sub s mean_s in
    let dr := f64_sub r mean_r in
    (f64_add cov (f64_mul ds dr), f64_add var_s (f64_mul ds ds), f64_add var_r (f64_mul dr dr)))
    (zero, zero, zero) (zip sim real).

Definition spectral_coherence (sim real : list f64) : option f64 :=
  if comparable sim real then
    let mean_s := f64_div (f64_sum sim) (len_f64 sim) in
    let mean_r := f64_div (f64_sum real) (len_f64 sim) in
    let '(cov, var_s, var_r) := moments mean_s mean_r sim real in
    if f64_eq var_s zero || f64_eq var_r zero then None
    else
      let r := f64_div cov (f64_mul (f64_sqrt var_s) (f64_sqrt var_r)) in
      match clamp (f64_abs r) zero one with Ret c => Some c | Panic => None end
  else None.

(** ** diagnosis.rs *)

Record ChannelStats : Type := {
  stats_name : string; mean : f64; std_dev : f64; min : f64; max : f64; sample_count : Z }.

Definition compute_channel_stats (name : string) (data : list f64) : ChannelStats :=
  if (length data =? 0)%nat then
    {| stats_name := name; mean := zero; std_dev := zero; min := zero; max := zero; sample_count := 0 |}
  else
    let n := len_f64 data in
    let mean := f64_div (f64_sum data) n in
    let variance := f64_div (f64_sum (map (fun x => powi (f64_sub x mean) 2) data)) n in
    {| stats_name := name; mean := mean; std_dev := f64_sqrt variance;
       min := default zero (reduce f64_min data); max := default zero (reduce f64_max data);
       sample_count := Z.of_nat (length data) |}.

(** ** pipeline.rs *)

Record ChannelConfig : Type := { name : string; config_metric : MetricKind; config_threshold : f64 }.
Record ComparisonConfig : Type := { config_channels : list ChannelConfig; pass_score : f64 }.

Definition Point3 : Type := f64 * f64 * f64.
Context (distance3 : Point3 -> Point3 -> f64).

(** The index as X, the value as Y. *)
Definition to_pts (data : list f64) : list Point3 := imap (fun i v => (f64_of_Z (Z.of_nat i), v, zero)) data.

Definition compute_metric (metric : MetricKind) (sim real : list f64) : option f64 :=
  match metric with
  | Rmse => rmse sim real
  | Mae => mae sim real
  | MaxDeviation => max_deviation sim real
  | SpectralCoherence => spectral_coherence sim real
  | Dtw => Some (distance (dtw_align sim real None))
  | Frechet => discrete_frechet distance3 (to_pts sim) (to_pts real)
  end.

Definition action_for_score (score pass_score : f64) : DiagnosisAction :=
  if f64_ge score pass_score then Pass
  else if f64_ge score (f64_dec 7 1) then Investigate
  else if f64_ge score (f64_dec 5 1) then Retune
  else Escalate.

Definition is_higher_better (metric : MetricKind) : bool := bool_decide (metric = SpectralCoherence).

(** The body of the loop over the channels. *)
Definition judge_channel (sim_data real_data : gmap string (list f64)) (ch : ChannelConfig) : ChannelDivergence :=
  let '(value, passed) :=
    match sim_data !! name ch, real_data !! name ch with
    | Some sim, Some real =>
        match compute_metric (config_metric ch) sim real with
        | Some v => (v, if is_higher_better (config_metric ch) then f64_ge v (config_threshold ch) else f64_le v (config_threshold ch))
        | None => (NAN, false)
        end
    | _, _ => (NAN, false)
    end in
  {| channel_name := name ch; metric := config_metric ch; value := value; threshold := Some (config_threshold ch); passed := passed |}.

Definition compare (sim_data real_data : gmap string (list f64)) (config : ComparisonConfig) : DivergenceReport :=
  let divergences := map (judge_channel sim_data real_data) (config_channels config) in
  let passed_count := length (List.filter passed divergences) in
  let total := length divergences in
  let overall_score :=
    if (0 <? total)%nat then f64_div (f64_of_Z (Z.of_nat passed_count)) (f64_of_Z (Z.of_nat total)) else one in
  {| overall_score := overall_score;
     phases := [{| phase_name := "default"%string; score := overall_score; channels := divergences |}];
     action := action_for_score overall_score (pass_score config);
     signatures_matched := [] |}.

End Metrics.

(** ** signatures.rs *)

Record SignatureCondition : Type := {
  condition_metric : MetricKind; channel_pattern : string; min_value : option f64; max_value : option f64 }.
Record FailureSignature : Type := { signature_name : string; description : string; conditions : list SignatureCondition }.

Definition at_least (m : MetricKind) (pattern : string) (v : f64) : list SignatureCondition :=
  [{| condition_metric := m; channel_pattern := pattern; min_value := Some v; max_value := None |}].

Definition builtin_signatures : list FailureSignature :=
  [ {| signature_name := "motor_stall"; description := "High RMSE on motor velocity channels indicates a stalled motor.";
       conditions := at_least Rmse "motor" (f64_dec 5 1) |};
    {| signature_name := "pid_oscillation"; description := "High spectral coherence divergence on control channels suggests PID oscillation.";
       conditions := at_least SpectralCoherence "control" (f64_dec 3 1) |};
    {| signature_name := "contact_timing_mismatch"; description := "High DTW on contact event timing indicates misaligned contact events.";
       conditions := at_least Dtw "contact" (f64_dec 2 1) |};
    {| signature_name := "sensor_saturation"; description := "High max deviation on sensor channels indicates sensor saturation.";
       conditions := at_least MaxDeviation "sensor" (f64_dec 10 1) |};
    {| signature_name := "integral_windup"; description := "High MAE on integral error channels indicates integral windup.";
       conditions := at_least Mae "integral" (f64_dec 5 1) |};
    {| signature_name := "grasp_slip"; description := "High Frechet distance on gripper trajectory indicates grasp slippage.";
       conditions := at_least Frechet "gripper" (f64_dec 3 1) |};
    {| signature_name := "communication_latency"; description := "High DTW on command-response timing indicates communication latency.";
       conditions := at_least Dtw "command" (f64_dec 1 1) |} ]%string.

(** A channel that meets a condition. *)
Definition channel_matches (condition : SignatureCondition) (ch : ChannelDivergence) : bool :=
  negb (passed ch) && bool_decide (metric ch = condition_metric condition) &&
  contains (channel_pattern condition) (channel_name ch) &&
  match min_value condition with Some min => f64_ge (value ch) min | None => true end &&
  match max_value condition with Some max => f64_le (value ch) max | None => true end.

Definition condition_matches (condition : SignatureCondition) (report : DivergenceReport) : bool :=
  existsb (fun phase => existsb (channel_matches condition) (channels phase)) (phases report).

Definition match_signatures (report : DivergenceReport) (signatures : list FailureSignature) : list string :=
  map signature_name (List.filter (fun sig => forallb (fun c => condition_matches c report) (conditions sig)) signatures).

(** ** scenario.rs *)

Record ScenarioParameter (V : Type) : Type := { param_name : string; values : list V }.
Arguments param_name {V} _.
Arguments values {V} _.

Definition sweep_step {V} (results : list (gmap string V)) (param : ScenarioParameter V) : list (gmap string V) :=
  existing ← results; val ← values param; [<[param_name param := val]> existing].

Definition generate_sweep_matrix {V} (params : list (ScenarioParameter V)) : list (gmap string V) :=
  foldl sweep_step [∅] params.

(** ** alignment.rs *)

Record TimeAnchor : Type := { sim_time_secs : f64; real_time_secs : f64; event_name : string }.

(** The anchors before sorting: the first occurrence of each common name, in simulated order. *)
Definition anchor_step (real_events : list (f64 * string)) (anchors : list TimeAnchor) (ev : f64 * string) : list TimeAnchor :=
  if existsb (fun a => String.eqb (event_name a) ev.2) anchors then anchors
  else
    match List.find (fun re => String.eqb re.2 ev.2) real_events with
    | Some re => anchors ++ [{| sim_time_secs := ev.1; real_time_secs := re.1; event_name := ev.2 |}]
    | None => anchors
    end.

(** [a] may stand before [b]: [b] does not compare less. *)
Definition by_sim_time (a b : TimeAnchor) : Prop := f64_lt (sim_time_secs b) (sim_time_secs a) = false.

#[export] Instance by_sim_time_dec a b : Decision (by_sim_time a b).
Proof. unfold by_sim_time. apply _. Defined.

#[export] Instance by_sim_time_total : Total by_sim_time.
Proof.
  intros a b. unfold by_sim_time. destruct (f64_lt (sim_time_secs b) (sim_time_secs a)) eqn:E; [right|by left].
  apply f64_lt_spec in E as (Nb & Na & Hr). destruct (f64_lt (sim_time_secs a) (sim_time_secs b)) eqn:E'; [exfalso|done].
  apply f64_lt_spec in E' as (_ & _ & Hr'). unfold rank_lt in *. lia.
Qed.

Definition time_le (a b : TimeAnchor) : Prop := f64_le (sim_time_secs a) (sim_time_secs b) = true.

(** [sort_by] with an incomparable pair equal: with a time that is no number the comparison
    is no order, and the result is unspecified or a panic, [unordered]. *)
Definition sort_anchors (unordered : list TimeAnchor -> exec (list TimeAnchor)) (anchors : list TimeAnchor) : exec (list TimeAnchor) :=
  if existsb (fun a => is_nan (sim_time_secs a)) anchors then unordered anchors else Ret (merge_sort by_sim_time anchors).

Definition event_align (unordered : list TimeAnchor -> exec (list TimeAnchor)) (sim_events real_events : list (f64 * string)) : exec (list TimeAnchor) :=
  sort_anchors unordered (foldl (anchor_step real_events) [] sim_events).

(** [windows(2)]: the first pair of neighbours around the time. *)
Fixpoint between_anchors (anchors : list TimeAnchor) (sim_time : f64) : option f64 :=
  match anchors with
  | lo :: ((hi :: _) as rest) =>
      if f64_ge sim_time (sim_time_secs lo) && f64_le sim_time (sim_time_secs hi) then
        let range := f64_sub (sim_time_secs hi) (sim_time_secs lo) in
        if f64_eq range zero then Some (real_time_secs lo)
        else
          let t := f64_div (f64_sub sim_time (sim_time_secs lo)) range in
          Some (mul_add t (f64_sub (real_time_secs hi) (real_time_secs lo)) (real_time_secs lo))
      else between_anchors rest sim_time
  | _ => None
  end.

Definition interpolate_at (anchors : list TimeAnchor) (sim_time : f64) : option f64 :=
  match anchors with
  | [] => None
  | [a] => if f64_eq sim_time (sim_time_secs a) then Some (real_time_secs a) else None
  | first :: _ =>
      let last := List.last anchors first in
      if f64_lt sim_time (sim_time_secs first) || f64_gt sim_time (sim_time_secs last) then None
      else between_anchors anchors sim_time
  end.

(** ** Interpolation covers the anchors *)

Lemma between_covers anchors x d :
  StronglySorted time_le anchors -> (2 <= length anchors)%nat ->
  f64_le (sim_time_secs (hd d anchors)) x = true -> f64_le x (sim_time_secs (List.last anchors d)) = true ->
  is_Some (between_anchors anchors x).
Proof.
  induction anchors as [|lo anchors IH]; intros Hs Hl Hlo Hhi; [cbn in Hl; lia|].
  destruct anchors as [|hi rest]; [cbn in Hl; lia|]. apply StronglySorted_inv in Hs as [Hs Hall].
  cbn [between_anchors hd] in *. unfold f64_ge. rewrite Hlo. cbn [andb]. destruct (f64_le x (sim_time_secs hi)) eqn:E; [by destruct (f64_eq _ _)|].
  apply Forall_cons in Hall as [Hlh _].
  assert (Hx : f64_le (sim_time_secs hi) x = true).
  { apply f64_le_not_nan in Hlo as [_ Nx]. apply f64_le_not_nan in Hlh as [_ Nh]. f64_order. }
  destruct rest as [|z rest]; [exfalso; cbn in Hhi; congruence|]. apply IH; [done|cbn; lia|done|done].
Qed.

Lemma list_last_default {A} (l : list A) x d : last l = Some x -> List.last l d = x.
Proof. induction l as [|a [|b l] IH]; [done|by intros [= ->]|]. rewrite last_cons_cons. exact IH. Qed.

Lemma f64_eq_le a b : f64_eq a b = f64_le a b && f64_le b a.
Proof.
  destruct (is_nan a) eqn:Na; [by destruct a|]. destruct (is_nan b) eqn:Nb; [by destruct a, b|].
  destruct (SFcompare_rank a b Na Nb) as (Hl & Hg & Hn). pose proof (f64_le_spec b a) as Hb.
  unfold f64_eq, SFeqb, f64_le at 1, SFleb. destruct (SFcompare a b) as [[]|]; [..|done]; cbn [andb]; symmetry.
  - apply Hb. split; [done|]. split; [done|]. by intros ?%Hl.
  - destruct (f64_le b a); [|done]. by destruct (proj1 Hb eq_refl) as (_ & _ & []); apply Hl.
  - done.
Qed.

(** between the first and the last of at least two sorted anchors every simulated time has a
    real time, outside it has none; with one anchor only that anchor's time has one. *)
Theorem interpolation_range anchors x :
  StronglySorted time_le anchors -> Forall (fun a => is_nan (sim_time_secs a) = false) anchors ->
  (is_Some (interpolate_at anchors x) <->
   exists first final, head anchors = Some first /\ last anchors = Some final /\
     f64_le (sim_time_secs first) x = true /\ f64_le x (sim_time_secs final) = true).
Proof.
  intros Hs Hn. destruct anchors as [|a [|b rest]]; cbn [interpolate_at].
  - split; [by intros []|]. by intros (? & ? & ? & _).
  - rewrite f64_eq_le. split.
    + intros H. exists a, a. destruct (f64_le x _) eqn:E1, (f64_le (sim_time_secs a) x) eqn:E2; by destruct H.
    + by intros (first & final & [= <-] & [= <-] & -> & ->).
  - set (l := a :: b :: rest) in *. assert (Hl : exists z, last l = Some z) by (destruct (last l) eqn:E; [by eexists|by apply last_None in E]).
    destruct Hl as [z Hz]. rewrite (list_last_default l z a Hz).
    assert (Na : is_nan (sim_time_secs a) = false) by by apply Forall_cons in Hn as [? _].
    assert (Nz : is_nan (sim_time_secs z) = false) by (apply last_Some in Hz as [l' E]; rewrite E in Hn; apply Forall_app in Hn as [_ Hn]; by apply Forall_cons in Hn as [? _]).
    split.
    + intros H. exists a, z. split; [done|]. split; [done|]. destruct (f64_lt x (sim_time_secs a)) eqn:E1; [by destruct H|].
      destruct (f64_gt x (sim_time_secs z)) eqn:E2; [by destruct H|].
      destruct (is_nan x) eqn:Nx; [exfalso|split; f64_order].
      clear -H Nx. destruct x; try done. destruct H as [r H]. clearbody l. induction l as [|u [|v l] IH]; try done.
      cbn [orb] in IH. cbn [between_anchors] in H. unfold f64_ge in H. replace (f64_le (sim_time_secs u) S754_nan) with false in H by by destruct (sim_time_secs u) as [|[]| |[]].
      by apply IH.
    + intros (first & final & [= <-] & Hf & H1 & H2). rewrite Hz in Hf. injection Hf as <-.
      replace (f64_lt x (sim_time_secs a)) with false by (symmetry; f64_order).
      replace (f64_gt x (sim_time_secs z)) with false by (symmetry; f64_order). cbn [orb].
      apply (between_covers l x a); [done|cbn; lia|done|]. by rewrite (list_last_default l z a Hz).
Qed.

(** ** The anchors of common events *)

Lemma anchor_step_names real anchors ev :
  map event_name (anchor_step real anchors ev) =
  map event_name anchors ++ (if bool_decide (ev.2 ∈ map event_name anchors) then [] else if bool_decide (ev.2 ∈ real.*2) then [ev.2] else []).
Proof.
  unfold anchor_step. assert (E : existsb (fun a => String.eqb (event_name a) ev.2) anchors = bool_decide (ev.2 ∈ map event_name anchors)).
  { apply Bool.eq_iff_eq_true. rewrite existsb_exists, bool_decide_eq_true, list_elem_of_fmap.
    split; intros (a & H1 & H2).
    - apply String.eqb_eq in H2. exists a. by rewrite list_elem_of_In.
    - exists a. rewrite <- list_elem_of_In, String.eqb_eq. by split. }
  rewrite E. destruct (bool_decide _); [by rewrite app_nil_r|].
  destruct (List.find _ real) as [re|] eqn:Ef.
  - apply List.find_some in Ef as [Hin Heq%String.eqb_eq]. rewrite bool_decide_true; [by rewrite map_app|].
    rewrite <- Heq. apply list_elem_of_fmap. exists re. by rewrite list_elem_of_In.
  - rewrite bool_decide_false; [by rewrite app_nil_r|]. intros (re & Hre & Hin%list_elem_of_In)%list_elem_of_fmap.
    apply (List.find_none _ _ Ef) in Hin. by rewrite Hre, String.eqb_refl in Hin.
Qed.

(** An anchor pairs the first simulated with the first real occurrence of its name. *)
Definition anchors_events (sim real : list (f64 * string)) (a : TimeAnchor) : Prop :=
  List.find (fun e => String.eqb e.2 (event_name a)) sim = Some (sim_time_secs a, event_name a) /\
  List.find (fun e => String.eqb e.2 (event_name a)) real = Some (real_time_secs a, event_name a).

Lemma find_app {A} (p : A -> bool) l l' : List.find p (l ++ l') = match List.find p l with Some x => Some x | None => List.find p l' end.
Proof. induction l as [|x l IH]; [done|]. cbn. by destruct (p x). Qed.

Lemma anchors_explained sim real : let anchors := foldl (anchor_step real) [] sim in
  Forall (anchors_events sim real) anchors /\ NoDup (map event_name anchors) /\
  forall n, n ∈ map event_name anchors <-> n ∈ sim.*2 /\ n ∈ real.*2.
Proof.
  cbn zeta. induction sim as [|ev sim (IHf & IHn & IHe)] using rev_ind.
  { cbn. split; [done|]. split; [constructor|]. intros n. split; [by intros ?%elem_of_nil|by intros [?%elem_of_nil _]]. }
  rewrite foldl_app. cbn [foldl]. set (anchors := foldl (anchor_step real) [] sim) in *. split; [|split].
  - assert (Hold : Forall (anchors_events (sim ++ [ev]) real) anchors).
    { eapply Forall_impl; [exact IHf|]. intros a [H1 H2]. split; [|done]. by rewrite find_app, H1. }
    unfold anchor_step. destruct (existsb _ anchors) eqn:Ex; [done|]. destruct (List.find _ real) as [re|] eqn:Ef; [|done].
    apply Forall_app. split; [done|]. constructor; [|done]. split; cbn.
    + rewrite find_app. destruct (List.find _ sim) as [e|] eqn:Es.
      * exfalso. apply List.find_some in Es as [Hin Heq%String.eqb_eq].
        assert (Hr : ev.2 ∈ real.*2).
        { apply List.find_some in Ef as [Hr Hre%String.eqb_eq]. apply list_elem_of_fmap. exists re. by rewrite list_elem_of_In. }
        assert (Ha : ev.2 ∈ map event_name anchors).
        { apply IHe. split; [|done]. apply list_elem_of_fmap. exists e. by rewrite list_elem_of_In. }
        apply list_elem_of_fmap in Ha as (a & Hae & Hain). apply (f_equal negb) in Ex. cbn in Ex.
        assert (existsb (fun a => String.eqb (event_name a) ev.2) anchors = true); [|by destruct (existsb _ anchors)].
        apply existsb_exists. exists a. rewrite <- list_elem_of_In, String.eqb_eq. done.
      * cbn. rewrite String.eqb_refl. by destruct ev.
    + rewrite Ef. apply List.find_some in Ef as [_ Hre%String.eqb_eq]. destruct re as [t n]. cbn in *. by subst n.
  - rewrite anchor_step_names. destruct (bool_decide_reflect (ev.2 ∈ map event_name anchors)) as [|Hni]; [by rewrite app_nil_r|].
    destruct (bool_decide _); [|by rewrite app_nil_r]. apply NoDup_app. split; [done|]. split; [|by apply NoDup_singleton].
    by intros n Hn ->%list_elem_of_singleton.
  - intros n. rewrite anchor_step_names, elem_of_app, IHe, fmap_app, elem_of_app. cbn [fmap list_fmap].
    rewrite list_elem_of_singleton.
    destruct (bool_decide_reflect (ev.2 ∈ map event_name anchors)) as [Hi|Hni].
    + apply IHe in Hi. split; [intros [[? ?]|?%elem_of_nil]; [by split; [left|]|done]|]. intros [[?| ->] ?]; by left.
    + destruct (bool_decide_reflect (ev.2 ∈ real.*2)) as [Hr|Hnr].
      * rewrite list_elem_of_singleton. split; [intros [[? ?]| ->]; [by split; [left|]|by split; [right|]]|].
        intros [[?| ->] ?]; [by left|by right].
      * split; [intros [[? ?]|?%elem_of_nil]; [by split; [left|]|done]|]. intros [[?| ->] ?]; [by left|done].
Qed.

Lemma sorted_times l : Forall (fun a => is_nan (sim_time_secs a) = false) l -> Sorted by_sim_time l -> StronglySorted time_le l.
Proof.
  intros Hn Hs. apply Sorted_StronglySorted; [intros a b c H1 H2; exact (f64_le_trans _ _ _ H1 H2)|].
  revert Hs Hn. induction 1 as [|a l Hs IH Hd]; intros Hn; [constructor|]. apply Forall_cons in Hn as [Na Hn]. constructor; [by apply IH|].
  destruct Hd as [|b l Hd]; constructor. apply Forall_cons in Hn as [Nb _]. unfold by_sim_time, time_le in *. f64_order.
Qed.

(** when no simulated time of a common event is NaN, the alignment holds one anchor for each
    event name that occurs in both runs and no other, with the times of its first occurrences,
    in the order of simulated time. *)
Theorem event_align_exact unordered sim real :
  Forall (fun e => is_nan e.1 = false) sim ->
  exists anchors, event_align unordered sim real = Ret anchors /\
  StronglySorted time_le anchors /\ Forall (anchors_events sim real) anchors /\ NoDup (map event_name anchors) /\
  forall n, n ∈ map event_name anchors <-> n ∈ sim.*2 /\ n ∈ real.*2.
Proof.
  intros Hn. destruct (anchors_explained sim real) as (Hf & Hd & He). unfold event_align, sort_anchors.
  set (anchors := foldl (anchor_step real) [] sim) in *.
  assert (Hnan : Forall (fun a => is_nan (sim_time_secs a) = false) anchors).
  { eapply Forall_impl; [exact Hf|]. intros a [H1%List.find_some _]. destruct H1 as [Hin _].
    rewrite <- list_elem_of_In in Hin. apply (proj1 (Forall_forall _ _) Hn _ Hin). }
  replace (existsb _ anchors) with false.
  2: { symmetry. apply not_true_is_false. intros (a & Hin & Ha)%existsb_exists. rewrite <- list_elem_of_In in Hin.
       pose proof (proj1 (Forall_forall _ _) Hnan a Hin) as Hx. cbn in Hx. congruence. }
  pose proof (merge_sort_Permutation by_sim_time anchors) as Hp.
  eexists. split; [done|]. split.
  { apply sorted_times; [by rewrite Hp|apply Sorted_merge_sort, _]. }
  split; [by rewrite Hp|]. split; [by rewrite Hp|]. intros n. rewrite Hp. apply He.
Qed.

(** ** The sweep *)

Lemma sweep_step_elem {V} (results : list (gmap string V)) p m :
  m ∈ sweep_step results p <-> exists m0 v, m0 ∈ results /\ v ∈ values p /\ m = <[param_name p := v]> m0.
Proof.
  unfold sweep_step. rewrite list_elem_of_bind. setoid_rewrite list_elem_of_bind. setoid_rewrite list_elem_of_singleton. split.
  - intros (m0 & (v & -> & Hv) & Hm). by exists m0, v.
  - intros (m0 & v & Hm & Hv & ->). exists m0. split; [|done]. by exists v.
Qed.

(** for parameters with distinct names the sweep holds exactly the assignments of one of its
    values to each parameter, their number being the product of the numbers of values. *)
Theorem sweep_exact {V} (params : list (ScenarioParameter V)) : NoDup (map param_name params) ->
  (forall m, m ∈ generate_sweep_matrix params <->
     dom m = list_to_set (map param_name params) /\
     forall p, p ∈ params -> exists v, v ∈ values p /\ m !! param_name p = Some v) /\
  length (generate_sweep_matrix params) = foldr Nat.mul 1%nat (map (fun p => length (values p)) params).
Proof.
  intros Hd. split.
  - induction params as [|p params IH] using rev_ind; intros m.
    { cbn. rewrite list_elem_of_singleton. split; [intros ->; split; [set_solver|by intros p ?%elem_of_nil]|].
      intros [H _]. by apply dom_empty_inv_L. }
    unfold generate_sweep_matrix. rewrite foldl_app. cbn [foldl]. fold (generate_sweep_matrix params).
    rewrite map_app in Hd. apply NoDup_app in Hd as (Hd & Hp & _).
    assert (Hnp : param_name p ∉ map param_name params) by (intros H; apply (Hp _ H); by left).
    assert (Hne : forall q, q ∈ params -> param_name q <> param_name p).
    { intros q Hq E. apply Hnp. rewrite <- E. by apply list_elem_of_fmap_2. }
    rewrite sweep_step_elem, map_app, list_to_set_app_L. cbn [map list_to_set]. split.
    + intros (m0 & v & Hm & Hv & ->). apply (IH Hd) in Hm as [Hdom Hall]. split; [rewrite dom_insert_L, Hdom; set_solver|].
      intros q [Hq| ->%list_elem_of_singleton]%elem_of_app; [|exists v; by rewrite lookup_insert_eq].
      destruct (Hall q Hq) as (w & ? & ?). exists w. rewrite lookup_insert_ne by (by apply not_eq_sym, Hne). done.
    + intros [Hdom Hall]. destruct (Hall p) as (v & Hv & Hm); [set_solver|].
      exists (delete (param_name p) m), v. split; [|split; [done|by rewrite insert_delete_id]].
      apply (IH Hd). split.
      * rewrite dom_delete_L, Hdom. assert (param_name p ∉@{gset string} list_to_set (map param_name params)) by by rewrite elem_of_list_to_set. set_solver.
      * intros q Hq. destruct (Hall q) as (w & ? & ?); [set_solver|]. exists w. by rewrite lookup_delete_ne by (by apply not_eq_sym, Hne).
  - clear Hd. unfold generate_sweep_matrix.
    assert (H : forall results : list (gmap string V), length (foldl sweep_step results params) = (length results * foldr Nat.mul 1 (map (fun p => length (values p)) params))%nat).
    { induction params as [|p params IH]; intros results; cbn [foldl map foldr]; [lia|]. rewrite IH.
      assert (El : length (sweep_step results p) = (length results * length (values p))%nat); [|rewrite El; lia].
      unfold sweep_step. induction results as [|m results IHr]; [done|]. cbn [mbind list_bind]. rewrite length_app, IHr. cbn [length].
      assert (Ev : forall vs : list V, length (val ← vs; [<[param_name p:=val]> m]) = length vs); [|rewrite Ev; lia].
      induction vs as [|w vs IHv]; [done|]. rewrite bind_cons, length_app, IHv. done. }
    rewrite H. cbn. lia.
Qed.

(** ** Identical runs *)

Lemma f64_div_self s m e : f64_div (S754_finite s m e) (S754_finite s m e) = one.
Proof.
  unfold f64_div, SFdiv, SFdiv_core_binary. cbn [Zdigits2]. rewrite !Z.sub_diag.
  change (Z.min (fexp 53 1024 0) 0) with (-53). cbn [Z.sub Z.add Z.opp]. rewrite Bool.xorb_nilpotent.
  assert (E : Z.div_eucl (Z.shiftl (Zpos m) 53) (Zpos m) = (2 ^ 53, 0)).
  { rewrite Z.shiftl_mul_pow2 by lia. pose proof (Z.div_mul (2 ^ 53) (Zpos m) ltac:(lia)) as Hq. pose proof (Z.mod_mul (2 ^ 53) (Zpos m) ltac:(lia)) as Hr.
    rewrite Z.mul_comm in Hq, Hr. unfold Z.div, Z.modulo in *. destruct (Z.div_eucl _ _). by subst. }
  change (0 - -53) with 53. cbv iota. change IntDef.Z.div_eucl with Z.div_eucl. rewrite E. cbv iota beta.
  replace (new_location (Zpos m) 0) with loc_Exact by (unfold new_location, new_location_even, new_location_odd; by destruct (Z.even (Zpos m))).
  vm_compute. reflexivity.
Qed.

(** A sum of zeros that starts from the negative zero. *)
Lemma zeros_sum (l : list f64) : Forall (eq zero) l -> l <> [] -> f64_sum l = zero.
Proof.
  intros Hl Hne. destruct l as [|x l]; [done|]. apply Forall_cons in Hl as [<- Hl]. unfold f64_sum. cbn [foldl].
  change (f64_add (S754_zero true) zero) with zero. induction Hl as [|y l <- _ IH]; [done|]. cbn [foldl]. exact (IH ltac:(done)).
Qed.

Lemma zeros_reduce (l : list f64) : Forall (eq zero) l -> l <> [] -> reduce f64_max l = Some zero.
Proof.
  intros Hl Hne. destruct l as [|x l]; [done|]. apply Forall_cons in Hl as [<- Hl]. cbn. f_equal.
  induction Hl as [|y l <- _ IH]; [done|]. cbn. exact (IH ltac:(done)).
Qed.

Lemma f64_sub_self x : is_finite x = true -> f64_sub x x = zero.
Proof.
  destruct x as [s| | |s m e]; try done; intros _; [by destruct s|]. unfold f64_sub, SFsub. by rewrite Z.sub_diag.
Qed.

(** A [Vec] holds fewer than [2^63] elements; such a count is a finite positive number. *)
Lemma count_positive n : 0 < n < 2 ^ 63 -> exists m e, f64_of_Z n = S754_finite false m e.
Proof.
  intros [Hp Hn]. assert (Hle : f64_le (f64_of_Z n) (S754_finite false (2 ^ 52) 11) = true).
  { apply normalize_le; [reflexivity|lia|]. change (cond_Zopp false (Z.pos (2 ^ 52)) * 2 ^ (11 - 0)) with (2 ^ 63). lia. }
  destruct n as [|p|p]; [lia| |lia]. unfold f64_of_Z in *. cbn [binary_normalize] in *.
  pose proof (binary_round_sign false p 0) as Hs. pose proof (binary_round_nonzero false p 0 false ltac:(lia)) as Hz.
  destruct (binary_round 53 1024 false p 0) as [[]|[]| |[] m e]; try done. by exists m, e.
Qed.

Definition diagonal (n : nat) : list (nat * nat) := map (fun i => (i, i)) (seq 0 (S n)).

Lemma diagonal_snoc n : diagonal (S n) = diagonal n ++ [(S n, S n)].
Proof. unfold diagonal. by rewrite (seq_S (S n)), map_app. Qed.

Lemma diagonal_path n : path_to (diagonal n) (n, n).
Proof. induction n as [|n IH]; [constructor|]. rewrite diagonal_snoc. eapply path_step; [exact IH|]. by right; right. Qed.

(** Along the diagonal equal samples cost nothing. *)
Lemma diagonal_cost dist first combine n :
  (forall i, dist i i = zero) -> first zero = zero -> combine zero zero = zero ->
  path_cost dist first combine (diagonal n) = zero.
Proof.
  intros Hd Hf Hc. induction n as [|n IH]; [cbn; by rewrite Hd|].
  rewrite diagonal_snoc, (path_cost_snoc dist first combine _ _ _ (diagonal_path n)), IH. cbn. by rewrite Hd.
Qed.

Lemma cost_zero c : cost_ok c -> f64_le c zero = true -> c = zero.
Proof. intros Hc Hle. apply cost_antisym; [done|done|done|by apply cost_nonneg]. Qed.

Lemma dtw_identical s : finite_series s -> s <> [] ->
  Z.of_nat (length s) * Z.of_nat (length s) <= MAX_DTW_CELLS -> distance (dtw_align s s None) = zero.
Proof.
  intros Hf Hs Hm. destruct (dtw_optimal s s None Hf Hf Hs Hs Hm eq_refl) as (Hp & Hb & -> & Hmin).
  assert (Hd : forall i j, cost_ok (gap s s i j)) by (intros; by apply gap_ok).
  assert (Ha : forall d, cost_ok d -> cost_ok (f64_add d zero)) by (intros; by apply f64_add_ok).
  pose proof (length_pos s Hs) as Hl.
  assert (Hz : warping_cost s s (warping_path (dtw_align s s None)) = zero).
  { apply cost_zero.
    - refine (proj1 (path_lower _ _ _ _ Hd Ha f64_add_ok _ (length s) (length s) _ _ Hp Hb _ _)); [|cbn; lia..].
      intros d a b Hkd Hka Hkb Hab. apply f64_add_mono; [by apply Hkd|by apply Hka|by apply Hkb|by apply cost_nonneg..|done].
    - assert (E : warping_cost s s (diagonal (length s - 1)) = zero).
      { apply diagonal_cost; [|done|done]. intros i. unfold gap. destruct (s !! i) as [x|] eqn:Ex; [|done].
        apply (Forall_lookup_1 _ _ _ _ Hf) in Ex as [_ Fx]. by rewrite f64_sub_self. }
      rewrite <- E. apply Hmin; [apply diagonal_path|by apply Forall_true]. }
  rewrite Hz. destruct (count_positive (Z.of_nat (length (warping_path (dtw_align s s None))))) as (m & e & ->); [|done].
  pose proof (path_to_length _ _ Hp) as Hr. cbn [fst snd] in Hr. unfold MAX_DTW_CELLS in Hm. nia.
Qed.

Lemma frechet_identical {P} (d : P -> P -> f64) (l : list P) :
  (forall p q, p ∈ l -> q ∈ l -> cost_ok (d p q)) -> (forall p, p ∈ l -> d p p = zero) -> l <> [] -> discrete_frechet d l l = Some zero.
Proof.
  intros Hok Hself Hl. destruct (frechet_optimal d l l Hok Hl Hl) as (r & -> & (c & Hc & Er) & Hmin). f_equal.
  assert (Hd : forall i j, cost_ok (leash d l l i j)).
  { intros i j. unfold leash. destruct (l !! i) eqn:E1; [|done]. destruct (l !! j) eqn:E2; [|done].
    apply Hok; by eapply list_elem_of_lookup_2. }
  pose proof (length_pos l Hl) as Hlen. apply cost_zero.
  - rewrite <- Er. refine (proj1 (path_lower _ (fun _ _ => true) _ _ Hd (fun _ H => H) f64_max_ok f64_max_mono (length l) (length l) _ _ Hc _ _ _)); [by apply Forall_true|cbn; lia..].
  - assert (E : coupling_cost d l l (diagonal (length l - 1)) = zero).
    { apply diagonal_cost; [|done|done]. intros i. unfold leash. destruct (l !! i) as [x|] eqn:Ex; [|done].
      apply Hself. by eapply list_elem_of_lookup_2. }
    rewrite <- E. apply Hmin, diagonal_path.
Qed.

(** [powi] is exact at zero, and nalgebra's distance is a distance on the points in use. *)
Definition powi_zero (powi : f64 -> Z -> f64) : Prop := powi zero 2 = zero.
Definition distance_laws (distance3 : Point3 -> Point3 -> f64) (s : list f64) : Prop :=
  (forall p q, p ∈ to_pts s -> q ∈ to_pts s -> cost_ok (distance3 p q)) /\ (forall p, p ∈ to_pts s -> distance3 p p = zero).

Lemma metric_identical powi distance3 k s :
  powi_zero powi -> distance_laws distance3 s -> finite_series s -> s <> [] -> Z.of_nat (length s) * Z.of_nat (length s) <= MAX_DTW_CELLS ->
  k <> SpectralCoherence -> compute_metric powi distance3 k s s = Some zero.
Proof.
  intros Hp [Hok Hself] Hf Hs Hm Hk. pose proof (length_pos s Hs) as Hl.
  assert (Hc : comparable s s = true) by (unfold comparable; rewrite Nat.eqb_refl, andb_true_r; by destruct (Nat.eqb_spec (length s) 0); [lia|]).
  assert (Hz : Forall (eq zero) (differences s s)).
  { unfold differences. clear -Hf. induction Hf as [|x s [_ Hx] _ IH]; [constructor|]. cbn. constructor; [by rewrite f64_sub_self|done]. }
  assert (Hne : differences s s <> []) by by destruct s.
  assert (Hd : exists m e, len_f64 s = S754_finite false m e) by (apply count_positive; unfold MAX_DTW_CELLS in Hm; nia).
  destruct Hd as (m & e & Hlen).
  assert (Hmap : forall f, f zero = zero -> Forall (eq zero) (map f (differences s s)) /\ map f (differences s s) <> []).
  { intros f Hf0. split; [|by destruct (differences s s)]. apply Forall_fmap. eapply Forall_impl; [exact Hz|]. by intros x <-. }
  destruct k; [..|done]; cbn [compute_metric].
  - unfold rmse. rewrite Hc, zeros_sum, Hlen by (apply (Hmap (fun d => powi d 2)), Hp). done.
  - unfold mae. rewrite Hc, zeros_sum, Hlen by (by apply (Hmap f64_abs)). done.
  - unfold max_deviation. rewrite Hc. apply zeros_reduce; by apply (Hmap f64_abs).
  - apply frechet_identical; [done|done|]. by destruct s.
  - by rewrite dtw_identical.
Qed.

(** a run compared with itself passes: when every configured channel was recorded, with
    between one and 3162 finite samples, is compared by another metric than the coherence and
    has a threshold that is not negative, every channel passes, the score is one, and the
    action is to pass for every pass score up to one. *)
Theorem identical_runs_pass powi distance3 data config :
  powi_zero powi ->
  (forall ch, ch ∈ config_channels config -> exists s, data !! name ch = Some s /\ s <> [] /\ finite_series s /\
     Z.of_nat (length s) * Z.of_nat (length s) <= MAX_DTW_CELLS /\ distance_laws distance3 s /\
     config_metric ch <> SpectralCoherence /\ f64_le zero (config_threshold ch) = true) ->
  Z.of_nat (length (config_channels config)) < 2 ^ 63 -> f64_le (pass_score config) one = true ->
  let report := compare powi distance3 data data config in
  Forall (fun ch => passed ch = true) (concat (map channels (phases report))) /\
  overall_score report = one /\ action report = Pass.
Proof.
  intros Hp Hch Hlen Hps report.
  assert (Hall : Forall (fun ch => passed ch = true) (map (judge_channel powi distance3 data data) (config_channels config))).
  { apply Forall_fmap, Forall_forall. intros ch Hin. destruct (Hch ch Hin) as (s & Hs & Hne & Hf & Hm & Hd & Hk & Ht). cbn.
    unfold judge_channel. rewrite Hs, (metric_identical powi distance3 _ s Hp Hd Hf Hne Hm Hk). cbn.
    unfold is_higher_better. by rewrite bool_decide_false. }
  assert (Hscore : overall_score report = one).
  { unfold report, compare. cbn [overall_score]. rewrite length_map.
    replace (List.filter passed _) with (map (judge_channel powi distance3 data data) (config_channels config)).
    2: { symmetry. induction Hall as [|c l Hc _ IH]; [done|]. cbn. by rewrite Hc, IH. }
    rewrite length_map. destruct (Nat.ltb_spec 0 (length (config_channels config))); [|done].
    destruct (count_positive (Z.of_nat (length (config_channels config)))) as (m & e & ->); [lia|]. apply f64_div_self. }
  split; [by cbn; rewrite app_nil_r|]. split; [done|].
  change (action report) with (action_for_score (overall_score report) (pass_score config)). rewrite Hscore.
  unfold action_for_score, f64_ge. by rewrite Hps.
Qed.

(** ** Where the comparison misleads *)

Definition no_powi (x : f64) (_ : Z) : f64 := f64_mul x x.
Definition flat (p q : Point3) : f64 := f64_abs (f64_sub p.1.2 q.1.2).
Definition one_channel (m : MetricKind) : ComparisonConfig :=
  {| config_channels := [{| name := "control_pid"; config_metric := m; config_threshold := f64_dec 1 1 |}]; pass_score := one |}.
Definition recorded (l : list f64) : gmap string (list f64) := {[ "control_pid"%string := l ]}.

Lemma compared sim real m :
  map passed (map (judge_channel no_powi flat (recorded sim) (recorded real)) (config_channels (one_channel m))) =
  [match compute_metric no_powi flat m sim real with
   | Some v => if is_higher_better m then f64_ge v (f64_dec 1 1) else f64_le v (f64_dec 1 1)
   | None => false
   end].
Proof.
  cbn [map config_channels one_channel]. unfold judge_channel, recorded. cbn [name config_metric config_threshold].
  rewrite !lookup_singleton_eq. by destruct (compute_metric _ _ _ _ _).
Qed.

(** An empty recording fails by every metric but warping, by which it passes with distance zero. *)
Example empty_recording_passes :
  map passed (map (judge_channel no_powi flat (recorded []) (recorded [one; one])) (config_channels (one_channel Dtw))) = [true] /\
  map passed (map (judge_channel no_powi flat (recorded []) (recorded [one; one])) (config_channels (one_channel Rmse))) = [false].
Proof. rewrite !compared. split; vm_compute; reflexivity. Qed.

(** A sample that is no number fails by the mean error and is overlooked by the maximal one. *)
Example nan_sample_passes :
  map passed (map (judge_channel no_powi flat (recorded [one; S754_nan]) (recorded [one; one])) (config_channels (one_channel MaxDeviation))) = [true] /\
  map passed (map (judge_channel no_powi flat (recorded [one; S754_nan]) (recorded [one; one])) (config_channels (one_channel Mae))) = [false].
Proof. rewrite !compared. split; vm_compute; reflexivity. Qed.

(** The report never carries the signatures that match it. *)
Lemma compare_matches_nothing powi distance3 sim real config : signatures_matched (compare powi distance3 sim real config) = [].
Proof. reflexivity. Qed.

(** The signature for oscillation asks for a coherence of at least 0.3, so of two failed
    control channels the one without any coherence is not reported, the better one is. *)
Definition control_report (v : f64) : DivergenceReport :=
  {| overall_score := zero; action := Escalate; signatures_matched := [];
     phases := [{| phase_name := "default"; score := zero;
       channels := [{| channel_name := "control_pid"; metric := SpectralCoherence; value := v; threshold := Some (f64_dec 9 1); passed := false |}] |}] |}.

Example oscillation_missed :
  match_signatures (control_report zero) builtin_signatures = [] /\
  match_signatures (control_report (f64_dec 8 1)) builtin_signatures = ["pid_oscillation"%string].
Proof. split; vm_compute; reflexivity. Qed.

(** ** Witnesses *)

Lemma identical_runs_pass_witness : action (compare no_powi flat (recorded [zero; one]) (recorded [zero; one]) (one_channel Frechet)) = Pass.
Proof.
  apply identical_runs_pass.
  - reflexivity.
  - intros ch ->%list_elem_of_singleton. exists [zero; one]. cbn [name config_metric config_threshold].
    split; [reflexivity|]. split; [done|]. split; [repeat constructor; vm_compute; reflexivity|]. split; [by vm_compute|].
    split; [|split; [done|vm_compute; reflexivity]].
    split; [intros p q Hp Hq|intros p Hp]; apply list_elem_of_In in Hp; cbn in Hp.
    + apply list_elem_of_In in Hq. cbn in Hq. destruct Hp as [<-|[<-|[]]], Hq as [<-|[<-|[]]]; repeat split; vm_compute; reflexivity.
    + destruct Hp as [<-|[<-|[]]]; vm_compute; reflexivity.
  - by vm_compute.
  - vm_compute. reflexivity.
Defined.

Definition anchor (s r : f64) (n : string) : TimeAnchor := {| sim_time_secs := s; real_time_secs := r; event_name := n |}.

Lemma interpolation_range_witness : is_Some (interpolate_at [anchor zero one "start"; anchor two two "stop"] one).
Proof.
  apply interpolation_range.
  - repeat constructor; vm_compute; reflexivity.
  - repeat constructor; vm_compute; reflexivity.
  - eexists _, _. split; [reflexivity|]. split; [reflexivity|]. split; vm_compute; reflexivity.
Defined.

Lemma event_align_exact_witness : exists anchors,
  event_align (fun _ => Panic) [(two, "stop"%string); (one, "start"%string)] [(one, "start"%string); (one, "x"%string)] = Ret anchors /\
  ("start"%string ∈ map event_name anchors) /\ ~ ("stop"%string ∈ map event_name anchors).
Proof.
  destruct (event_align_exact (fun _ => Panic) [(two, "stop"%string); (one, "start"%string)] [(one, "start"%string); (one, "x"%string)])
    as (anchors & E & _ & _ & _ & Hn); [repeat constructor; vm_compute; reflexivity|].
  exists anchors. split; [exact E|]. split.
  - apply Hn. cbn. split; [right; left|left].
  - intros [_ H]%Hn. cbn in H. apply list_elem_of_In in H. cbn in H. by destruct H as [|[|[]]].
Defined.

Lemma sweep_exact_witness :
  length (generate_sweep_matrix [{| param_name := "a"%string; values := [1; 2] |}; {| param_name := "b"%string; values := [3; 4; 5] |}]) = 6%nat.
Proof. apply sweep_exact. repeat constructor; set_solver. Defined.
