(* ===== verification/Retargeting.v ===== *)
(** * Retargeting between embodiments

    roz-core/embodiment/retargeting.rs: the two maps between the canonical action space and
    the channels of a robot, built from the bindings that have a semantic role. *)

From stdpp Require Import pretty.
From S2P Require Import Prelude Float64 Embodiment FrameTree FrameGraph.
Open Scope string_scope.

Record RetargetingMap : Type := {
  embodiment_family : EmbodimentFamily;
  canonical_to_local : gmap string string;
  local_to_canonical : gmap string string;
}.

Definition semantic_role_to_canonical_name (role : SemanticRole) : string :=
  match role with
  | PrimaryManipulatorJoint index => "primary_manipulator_joint_" +:+ pretty index
  | SecondaryManipulatorJoint index => "secondary_manipulator_joint_" +:+ pretty index
  | PrimaryGripper => "primary_gripper"
  | SecondaryGripper => "secondary_gripper"
  | BaseTranslation => "base_translation"
  | BaseRotation => "base_rotation"
  | HeadPan => "head_pan"
  | HeadTilt => "head_tilt"
  | PrimaryCamera => "primary_camera"
  | WristCamera => "wrist_camera"
  | RoleForceTorqueSensor => "force_torque_sensor"
  | CustomRole role => "custom_" +:+ role
  end.

(** The body of the loop over the bindings. *)
Definition map_binding (maps : gmap string string * gmap string string) (binding : ChannelBinding)
    : gmap string string * gmap string string :=
  match semantic_role binding with
  | Some role =>
      let canonical_name := semantic_role_to_canonical_name role in
      (<[canonical_name := physical_name binding]> maps.1, <[physical_name binding := canonical_name]> maps.2)
  | None => maps
  end.

Definition from_bindings (family : EmbodimentFamily) (bindings : list ChannelBinding) : RetargetingMap :=
  let '(c2l, l2c) := fold_left map_binding bindings (∅, ∅) in
  {| embodiment_family := family; canonical_to_local := c2l; local_to_canonical := l2c |}.

Definition canonical_slots (self : RetargetingMap) : list string := sorted_keys (canonical_to_local self).

(** ** Names *)

(** Different roles have different canonical names. *)
Lemma canonical_name_inj r1 r2 : semantic_role_to_canonical_name r1 = semantic_role_to_canonical_name r2 -> r1 = r2.
Proof.
  destruct r1, r2; cbn; intros H; try done; apply (inj (String.append _)) in H; [by apply (inj pretty) in H as ->..|by subst].
Qed.

(** ** The maps *)

(** The pairs the bindings name. *)
Definition pairs (bindings : list ChannelBinding) : list (string * string) :=
  omap (fun b => option_map (fun role => (semantic_role_to_canonical_name role, physical_name b)) (semantic_role b)) bindings.

Lemma from_bindings_maps family bs c l :
  (canonical_to_local (from_bindings family bs) !! c = Some l -> (c, l) ∈ pairs bs) /\
  (local_to_canonical (from_bindings family bs) !! l = Some c -> (c, l) ∈ pairs bs) /\
  ((exists l', (c, l') ∈ pairs bs) -> is_Some (canonical_to_local (from_bindings family bs) !! c)) /\
  ((exists c', (c', l) ∈ pairs bs) -> is_Some (local_to_canonical (from_bindings family bs) !! l)).
Proof.
  unfold from_bindings. destruct (fold_left map_binding bs (∅, ∅)) as [c2l l2c] eqn:E. cbn [canonical_to_local local_to_canonical].
  revert c2l l2c E. induction bs as [|b bs IH] using rev_ind; intros c2l l2c E.
  { injection E as <- <-. rewrite !lookup_empty. split_and!; try done; by intros (? & ?%elem_of_nil). }
  rewrite fold_left_app in E. cbn [fold_left] in E. destruct (fold_left map_binding bs (∅, ∅)) as [c0 l0].
  specialize (IH c0 l0 eq_refl). unfold pairs in *. rewrite omap_app. unfold map_binding in E.
  assert (Hone : omap (fun b => option_map (fun role => (semantic_role_to_canonical_name role, physical_name b)) (semantic_role b)) [b]
    = match semantic_role b with Some role => [(semantic_role_to_canonical_name role, physical_name b)] | None => [] end) by (cbn; by destruct (semantic_role b)).
  rewrite Hone. destruct (semantic_role b) as [role|]; [|injection E as <- <-; by rewrite app_nil_r].
  injection E as <- <-. cbn [fst snd] in *. setoid_rewrite elem_of_app. setoid_rewrite list_elem_of_singleton.
  destruct IH as (H1 & H2 & H3 & H4). split_and!.
  - rewrite lookup_insert_Some. intros [[<- <-]|[_ ?]]; [by right|left; auto].
  - rewrite lookup_insert_Some. intros [[<- <-]|[_ ?]]; [by right|left; auto].
  - intros [l' [Hl'|[= -> ->]]]; rewrite lookup_insert_is_Some; [|by left]. destruct (decide (semantic_role_to_canonical_name role = c)); [by left|right; eauto].
  - intros [c' [Hl'|[= -> ->]]]; rewrite lookup_insert_is_Some; [|by left]. destruct (decide (physical_name b = l)); [by left|right; eauto].
Qed.

(** when the bindings give each role one channel and each channel one role, the two maps
    are inverse to each other and hold exactly the pairs the bindings name. *)
Theorem retargeting_inverse family bs :
  (forall c l l', (c, l) ∈ pairs bs -> (c, l') ∈ pairs bs -> l = l') ->
  (forall c c' l, (c, l) ∈ pairs bs -> (c', l) ∈ pairs bs -> c = c') ->
  forall c l, (canonical_to_local (from_bindings family bs) !! c = Some l <-> (c, l) ∈ pairs bs) /\
              (local_to_canonical (from_bindings family bs) !! l = Some c <-> (c, l) ∈ pairs bs).
Proof.
  intros Hl Hc c l. split; (split; [apply from_bindings_maps|intros Hin]).
  - destruct (from_bindings_maps family bs c l) as (_ & _ & [l' E] & _); [by exists l|].
    rewrite E. f_equal. exact (Hl c l' l (proj1 (from_bindings_maps family bs c l') E) Hin).
  - destruct (from_bindings_maps family bs c l) as (_ & _ & _ & [c' E]); [by exists c|].
    rewrite E. f_equal. exact (Hc c' c l (proj1 (proj2 (from_bindings_maps family bs c' l)) E) Hin).
Qed.

(** ** Examples *)

Definition bound (n : string) (role : option SemanticRole) : ChannelBinding := {|
  physical_name := n; channel_index := 0%Z; binding_type := BJointPosition; b_frame_id := ""; b_units := "rad"; semantic_role := role |}.
Definition demo_family : EmbodimentFamily := {| family_id := "arm"; family_description := "" |}.

Lemma retargeting_inverse_witness :
  canonical_to_local (from_bindings demo_family [bound "shoulder" (Some (PrimaryManipulatorJoint 0)); bound "hand" (Some PrimaryGripper)])
    !! "primary_gripper" = Some "hand".
Proof.
  assert (E : pairs [bound "shoulder" (Some (PrimaryManipulatorJoint 0)); bound "hand" (Some PrimaryGripper)]
    = [("primary_manipulator_joint_0", "shoulder"); ("primary_gripper", "hand")]) by reflexivity.
  apply retargeting_inverse; rewrite E; [..|right; left].
  - intros c l l' [[= -> ->]|[[= -> ->]|?%elem_of_nil]%elem_of_cons]%elem_of_cons [[=]|[[=]|?%elem_of_nil]%elem_of_cons]%elem_of_cons; done.
  - intros c c' l [[= -> ->]|[[= -> ->]|?%elem_of_nil]%elem_of_cons]%elem_of_cons [[=]|[[=]|?%elem_of_nil]%elem_of_cons]%elem_of_cons; done.
Defined.

(** Two channels of one role: the role leads to the later one, both lead to the role. *)
Example shared_role :
  let m := from_bindings demo_family [bound "left" (Some PrimaryGripper); bound "right" (Some PrimaryGripper)] in
  local_to_canonical m !! "left" = Some "primary_gripper" /\ canonical_to_local m !! "primary_gripper" = Some "right".
Proof. split; reflexivity. Qed.
