(* ===== verification/EmbodimentConvert.v ===== *)
(** * Embodiments on the wire

    roz-server/grpc/embodiment_convert.rs: the conversions between the embodiment model and
    the protobuf messages of proto/roz/v1/embodiment.proto.  [From] and [TryFrom] are type
    classes with one instance per message, and what survives the wire is stated by a third
    class.  [DateTime::from_timestamp] of chrono is an argument. *)

From stdpp Require Import sorting pretty.
From S2P Require Import Prelude Float64 Embodiment FrameTree Retargeting FrameGraph.
Open Scope string_scope.
Open Scope list_scope.
Open Scope Z_scope.

(** ** The messages

    A message field is optional, an enumeration is its number, a map is a [BTreeMap]. *)

Module V1.

Record Timestamp : Type := { seconds : Z; nanos : Z }.
Record Vec3 : Type := { vx : f64; vy : f64; vz : f64 }.
Record Quaternion : Type := { qx : f64; qy : f64; qz : f64; qw : f64 }.
Record Transform3D : Type := { translation : option Vec3; rotation : option Quaternion; timestamp_ns : Z }.

Record EmbodimentFamily : Type := { family_id : string; description : string }.
Record RetargetingMap : Type := {
  rm_embodiment_family : option EmbodimentFamily;
  canonical_to_local : gmap string string;
  local_to_canonical : gmap string string;
}.
Record Inertial : Type := { mass : f64; center_of_mass : option Vec3 }.

Inductive GeometryShape : Type :=
| GBox (half_extent_x half_extent_y half_extent_z : f64)
| GSphere (radius : f64)
| GCylinder (radius length : f64)
| GMesh (path : string) (scale : option Vec3).
Record Geometry : Type := { geometry_shape : option GeometryShape }.

Inductive ZoneShape : Type :=
| WBox (half_extent_x half_extent_y half_extent_z : f64)
| WSphere (radius : f64)
| WCylinder (radius half_height : f64).
Record WorkspaceShape : Type := { zone_shape : option ZoneShape }.

Inductive Role : Type :=
| PrimaryManipulatorJoint (index : Z) | SecondaryManipulatorJoint (index : Z)
| PrimaryGripper | SecondaryGripper | BaseTranslation | BaseRotation | HeadPan | HeadTilt
| PrimaryCamera | WristCamera | ForceTorqueSensor | Custom (role : string).
Record SemanticRole : Type := { role : option Role }.

Record JointSafetyLimits : Type := {
  joint_name : string; max_velocity : f64; max_acceleration : f64; max_jerk : f64;
  position_min : f64; position_max : f64; max_torque : option f64 }.
Record ForceSafetyLimits : Type := { max_contact_force_n : f64; max_contact_torque_nm : f64; force_rate_limit : f64 }.
Record ContactForceEnvelope : Type := {
  cfe_link_name : string; max_normal_force_n : f64; max_shear_force_n : f64; max_force_rate_n_per_s : f64 }.
Record CollisionPair : Type := { link_a : string; link_b : string }.
Record CameraResolution : Type := { width : Z; height : Z }.
Record CameraFrustum : Type := {
  fov_horizontal_deg : f64; fov_vertical_deg : f64; near_clip_m : f64; far_clip_m : f64; resolution : option CameraResolution }.

Record Joint : Type := {
  j_name : string; joint_type : Z; parent_link : string; child_link : string;
  axis : option Vec3; j_origin : option Transform3D; limits : option JointSafetyLimits }.
Record Link : Type := {
  l_name : string; parent_joint : option string; inertial : option Inertial;
  visual_geometry : option Geometry; collision_geometry : option Geometry }.
Record CollisionBody : Type := { cb_link_name : string; cb_geometry : option Geometry; cb_origin : option Transform3D }.
Record ToolCenterPoint : Type := { tcp_name : string; tcp_parent_link : string; tcp_offset : option Transform3D; tcp_type : Z }.
Record SensorMount : Type := {
  sensor_id : string; sm_parent_link : string; sm_offset : option Transform3D; sensor_type : Z;
  is_actuated : bool; actuation_joint : option string; frustum : option CameraFrustum }.
Record WorkspaceZone : Type := {
  zone_name : string; zshape : option WorkspaceShape; origin_frame : string; zone_type : Z; margin_m : f64 }.
Record FrameNode : Type := {
  frame_id : string; parent_id : option string; static_transform : option Transform3D; source : Z }.
Record FrameTree : Type := { frames : gmap string FrameNode; root : option string }.
Record ChannelBinding : Type := {
  physical_name : string; channel_index : Z; binding_type : Z; b_frame_id : string; b_units : string;
  semantic_role : option SemanticRole }.
Record ControlChannelDef : Type := { cc_name : string; interface_type : Z; cc_units : string; cc_frame_id : string }.
Record ControlInterfaceManifest : Type := {
  version : Z; manifest_digest : string; channels : list ControlChannelDef; bindings : list ChannelBinding }.
Record SensorCalibration : Type := {
  sc_sensor_id : string; sc_offset : list f64; sc_scale : list f64; sc_calibrated_at : option Timestamp }.
Record CalibrationOverlay : Type := {
  calibration_id : string; calibration_digest : string; calibrated_at : option Timestamp; stale_after : option Timestamp;
  joint_offsets : gmap string f64; frame_corrections : gmap string Transform3D;
  sensor_calibrations : gmap string SensorCalibration;
  temperature_min : option f64; temperature_max : option f64; valid_for_model_digest : string }.
Record SafetyOverlay : Type := {
  overlay_digest : string; workspace_restrictions : list WorkspaceZone; joint_limit_overrides : gmap string JointSafetyLimits;
  max_payload_kg : option f64; human_presence_zones : list WorkspaceZone; force_limits : option ForceSafetyLimits;
  contact_force_envelopes : list ContactForceEnvelope; contact_allowed_zones : list WorkspaceZone;
  force_rate_limits : gmap string f64 }.
Record EmbodimentModel : Type := {
  model_id : string; m_model_digest : string; m_embodiment_family : option EmbodimentFamily; links : list Link; joints : list Joint;
  frame_tree : option FrameTree; collision_bodies : list CollisionBody; allowed_collision_pairs : list CollisionPair;
  tcps : list ToolCenterPoint; sensor_mounts : list SensorMount; workspace_zones : list WorkspaceZone;
  m_watched_frames : list string; channel_bindings : list ChannelBinding }.
Record EmbodimentRuntime : Type := {
  model : option EmbodimentModel; calibration : option CalibrationOverlay; safety_overlay : option SafetyOverlay;
  model_digest : string; r_calibration_digest : string; safety_digest : string; combined_digest : string;
  frame_graph : option FrameTree; active_calibration_id : option string; joint_count : Z; tcp_count : Z;
  watched_frames : list string; validation_issues : list string }.

End V1.

(** ** The traits *)

Inductive EmbodimentConvertError : Type :=
| MissingField (field : string)
| InvalidEnum (type_name : string) (value : Z)
| MissingOneOf (field : string)
| InvalidTimestamp.

Definition converted (A : Type) : Type := result A EmbodimentConvertError.

(** [impl From<&D> for P] and [impl TryFrom<P> for D]. *)
Class From (D P : Type) := from : D -> P.
Class TryFrom (P D : Type) := try_from : P -> converted D.

(** What of [D] comes back from the wire as it was. *)
Class Wire (D P : Type) `{From D P, TryFrom P D} := {
  survives : D -> Prop;
  roundtrip d : survives d -> try_from (from d) = Ok d;
}.

(** [ok_or_else(|| MissingField(..))]. *)
Definition required {A} (o : option A) (field : string) : converted A := ok_or o (MissingField field).

(** [opt.map(T::try_from).transpose()]. *)
Definition transpose {A B} (f : A -> converted B) (o : option A) : converted (option B) :=
  match o with
  | None => Ok None
  | Some a => let? b := f a in Ok (Some b)
  end.

(** [.map(T::try_from).collect::<Result<Vec<_>, _>>()]: the first error. *)
Fixpoint collect {A B} (f : A -> converted B) (l : list A) : converted (list B) :=
  match l with
  | [] => Ok []
  | a :: l => let? b := f a in let? bs := collect f l in Ok (b :: bs)
  end.

(** The same into a [BTreeMap], in the order of the keys. *)
Definition collect_map {A B} (f : A -> converted B) (m : gmap string A) : converted (gmap string B) :=
  let? l := collect (fun k => match m !! k with Some a => let? b := f a in Ok (Some (k, b)) | None => Ok None end) (sorted_keys m) in
  Ok (list_to_map (omap id l)).

Lemma transpose_roundtrip {A B} (f : A -> converted B) (g : B -> A) o :
  (forall b, o = Some b -> f (g b) = Ok b) -> transpose f (option_map g o) = Ok o.
Proof. intros H. destruct o as [b|]; [|done]. cbn. by rewrite H. Qed.

Lemma collect_roundtrip {A B} (f : A -> converted B) (g : B -> A) l :
  Forall (fun b => f (g b) = Ok b) l -> collect f (map g l) = Ok l.
Proof. induction 1 as [|b l Hb _ IH]; [done|]. cbn. by rewrite Hb, IH. Qed.

Lemma collect_ok {A B} (f : A -> converted B) l r : Forall2 (fun a b => f a = Ok b) l r -> collect f l = Ok r.
Proof. induction 1 as [|a b l r Hb _ IH]; [done|]. cbn. by rewrite Hb, IH. Qed.

Lemma list_to_map_of_keys {B} (m : gmap string B) ks k :
  (list_to_map (omap id (map (fun k => option_map (pair k) (m !! k)) ks)) : gmap string B) !! k =
  if decide (k ∈ ks) then m !! k else None.
Proof.
  induction ks as [|k' ks IH]; [done|]. cbn [map]. unfold omap at 1. cbn [list_omap id]. fold (omap (M:=list) (A:=option (string * B)) (B:=string * B) id).
  destruct (decide (k = k')) as [->|Hne].
  - rewrite decide_True by left. destruct (m !! k') as [b|] eqn:E; cbn [option_map].
    + cbn. by rewrite lookup_insert_eq.
    + rewrite IH. by destruct (decide _).
  - assert (Hlook : (list_to_map (match option_map (pair k') (m !! k') with
        | Some y => y :: omap id (map (fun k => option_map (pair k) (m !! k)) ks)
        | None => omap id (map (fun k => option_map (pair k) (m !! k)) ks) end) : gmap string B) !! k
      = (list_to_map (omap id (map (fun k => option_map (pair k) (m !! k)) ks)) : gmap string B) !! k).
    { destruct (m !! k'); [|done]. cbn. by rewrite lookup_insert_ne. }
    etransitivity; [exact Hlook|]. rewrite IH. apply decide_ext. set_solver.
Qed.

Lemma collect_map_ok {A B} (f : A -> converted B) (m : gmap string A) (r : gmap string B) :
  (forall k, match m !! k, r !! k with Some a, Some b => f a = Ok b | None, None => True | _, _ => False end) ->
  collect_map f m = Ok r.
Proof.
  intros H. unfold collect_map. rewrite (collect_ok _ (sorted_keys m) (map (fun k => option_map (pair k) (r !! k)) (sorted_keys m))).
  - cbn. f_equal. apply map_eq. intros k. rewrite list_to_map_of_keys. specialize (H k). destruct (decide (k ∈ sorted_keys m)) as [|Hn]; [done|].
    rewrite elem_of_sorted_keys in Hn. destruct (m !! k); [by destruct Hn|]. by destruct (r !! k).
  - induction (sorted_keys m) as [|k ks IH]; constructor; [|done]. specialize (H k).
    destruct (m !! k) as [a|], (r !! k) as [b|]; try done. cbn. by rewrite H.
Qed.

Lemma collect_map_roundtrip {A B} (f : A -> converted B) (g : B -> A) (m : gmap string B) :
  map_Forall (fun _ b => f (g b) = Ok b) m -> collect_map f (g <$> m) = Ok m.
Proof.
  intros H. apply collect_map_ok. intros k. rewrite lookup_fmap. destruct (m !! k) as [b|] eqn:E; [|done]. by apply (H k).
Qed.

(** ** Scalars, vectors and enumerations *)

Section Convert.
(** [DateTime::from_timestamp(secs, nsecs)]: none out of range. *)
Context (from_timestamp : Z -> Z -> option DateTime) (representable : DateTime -> Prop).
(** [{:?}] of a list of names. *)
Context (debug_list : list string -> string).

Definition NANOS : Z := 1000000000.

Definition datetime_to_proto (ts : DateTime) : V1.Timestamp :=
  {| V1.seconds := ts / NANOS; V1.nanos := ts mod NANOS |}.

(** [u32::try_from(ts.nanos).unwrap_or(0)]. *)
Definition proto_to_datetime (ts : V1.Timestamp) : converted DateTime :=
  ok_or (from_timestamp (V1.seconds ts) (if V1.nanos ts <? 0 then 0 else V1.nanos ts)) InvalidTimestamp.

#[export] Instance vec3_from : From vec3 V1.Vec3 := fun v => {| V1.vx := v0 v; V1.vy := v1 v; V1.vz := v2 v |}.
Definition vec3_of (v : V1.Vec3) : vec3 := V3 (V1.vx v) (V1.vy v) (V1.vz v).
#[export] Instance vec3_try : TryFrom V1.Vec3 vec3 := fun v => Ok (vec3_of v).

(** The domain's quaternion is [w, x, y, z], the message's [x, y, z, w]. *)
#[export] Instance quat_from : From quat V1.Quaternion :=
  fun q => {| V1.qx := qx q; V1.qy := qy q; V1.qz := qz q; V1.qw := qw q |}.
Definition quat_of (q : V1.Quaternion) : quat := Q4 (V1.qw q) (V1.qx q) (V1.qy q) (V1.qz q).

#[export] Instance transform_from : From Transform3D V1.Transform3D := fun t =>
  {| V1.translation := Some (from (translation t)); V1.rotation := Some (from (rotation t)); V1.timestamp_ns := timestamp_ns t |}.
#[export] Instance transform_try : TryFrom V1.Transform3D Transform3D := fun proto =>
  let? translation := required (V1.translation proto) "Transform3D.translation" in
  let? rotation := required (V1.rotation proto) "Transform3D.rotation" in
  Ok {| translation := vec3_of translation; rotation := quat_of rotation; timestamp_ns := V1.timestamp_ns proto |}.

#[export] Instance inertial_from : From Inertial V1.Inertial := fun i =>
  {| V1.mass := mass i; V1.center_of_mass := Some (from (center_of_mass i)) |}.
#[export] Instance inertial_try : TryFrom V1.Inertial Inertial := fun proto =>
  let? center_of_mass := required (V1.center_of_mass proto) "Inertial.center_of_mass" in
  Ok {| mass := V1.mass proto; center_of_mass := vec3_of center_of_mass |}.

(** The numbers are those of embodiment.proto; 0 is [Unspecified]. *)
Definition domain_joint_type_to_proto (jt : JointType) : Z :=
  match jt with Revolute => 1 | Prismatic => 2 | Fixed => 3 | Continuous => 4 end.
Definition proto_to_domain_joint_type (value : Z) : converted JointType :=
  match value with 1 => Ok Revolute | 2 => Ok Prismatic | 3 => Ok Fixed | 4 => Ok Continuous | _ => Err (InvalidEnum "JointType" value) end.

Definition domain_tcp_type_to_proto (tt : TcpType) : Z :=
  match tt with TcpGripper => 1 | TcpTool => 2 | TcpSensor => 3 | TcpCustom => 4 end.
Definition proto_to_domain_tcp_type (value : Z) : converted TcpType :=
  match value with 1 => Ok TcpGripper | 2 => Ok TcpTool | 3 => Ok TcpSensor | 4 => Ok TcpCustom | _ => Err (InvalidEnum "TcpType" value) end.

Definition domain_sensor_type_to_proto (st : SensorType) : Z :=
  match st with
  | SensorJointState => 1 | SensorForceTorque => 2 | SensorImu => 3 | SensorCamera => 4 | SensorPointCloud => 5 | SensorOther => 6
  end.
Definition proto_to_domain_sensor_type (value : Z) : converted SensorType :=
  match value with
  | 1 => Ok SensorJointState | 2 => Ok SensorForceTorque | 3 => Ok SensorImu | 4 => Ok SensorCamera | 5 => Ok SensorPointCloud
  | 6 => Ok SensorOther | _ => Err (InvalidEnum "SensorType" value)
  end.

Definition domain_zone_type_to_proto (zt : ZoneType) : Z :=
  match zt with Allowed => 1 | Restricted => 2 | HumanPresence => 3 end.
Definition proto_to_domain_zone_type (value : Z) : converted ZoneType :=
  match value with 1 => Ok Allowed | 2 => Ok Restricted | 3 => Ok HumanPresence | _ => Err (InvalidEnum "ZoneType" value) end.

Definition domain_frame_source_to_proto (fs : FrameSource) : Z :=
  match fs with SrcStatic => 1 | SrcDynamic => 2 | SrcComputed => 3 end.
Definition proto_to_domain_frame_source (value : Z) : converted FrameSource :=
  match value with 1 => Ok SrcStatic | 2 => Ok SrcDynamic | 3 => Ok SrcComputed | _ => Err (InvalidEnum "FrameSource" value) end.

Definition domain_binding_type_to_proto (bt : BindingType) : Z :=
  match bt with
  | BJointPosition => 1 | BJointVelocity => 2 | BForceTorque => 3 | BCommand => 4 | BGripperPosition => 5 | BGripperForce => 6
  | BImuOrientation => 7 | BImuAngularVelocity => 8 | BImuLinearAcceleration => 9
  end.
Definition proto_to_domain_binding_type (value : Z) : converted BindingType :=
  match value with
  | 1 => Ok BJointPosition | 2 => Ok BJointVelocity | 3 => Ok BForceTorque | 4 => Ok BCommand | 5 => Ok BGripperPosition
  | 6 => Ok BGripperForce | 7 => Ok BImuOrientation | 8 => Ok BImuAngularVelocity | 9 => Ok BImuLinearAcceleration
  | _ => Err (InvalidEnum "BindingType" value)
  end.

Definition domain_command_interface_type_to_proto (ct : CommandInterfaceType) : Z :=
  match ct with
  | JointVelocity => 1 | JointPosition => 2 | JointTorque => 3 | GripperPosition => 4 | GripperForce => 5
  | ForceTorqueSensor => 6 | ImuSensor => 7
  end.
Definition proto_to_domain_command_interface_type (value : Z) : converted CommandInterfaceType :=
  match value with
  | 1 => Ok JointVelocity | 2 => Ok JointPosition | 3 => Ok JointTorque | 4 => Ok GripperPosition | 5 => Ok GripperForce
  | 6 => Ok ForceTorqueSensor | 7 => Ok ImuSensor | _ => Err (InvalidEnum "CommandInterfaceType" value)
  end.

(** ** Oneofs *)

#[export] Instance geometry_from : From Geometry V1.Geometry := fun g =>
  {| V1.geometry_shape := Some match g with
     | GBox h => V1.GBox (v0 h) (v1 h) (v2 h)
     | GSphere radius => V1.GSphere radius
     | GCylinder radius length => V1.GCylinder radius length
     | GMesh path scale => V1.GMesh path (option_map from scale)
     end |}.
#[export] Instance geometry_try : TryFrom V1.Geometry Geometry := fun proto =>
  let? shape := ok_or (V1.geometry_shape proto) (MissingOneOf "Geometry.shape") in
  Ok match shape with
     | V1.GBox x y z => GBox (V3 x y z)
     | V1.GSphere radius => GSphere radius
     | V1.GCylinder radius length => GCylinder radius length
     | V1.GMesh path scale => GMesh path (option_map vec3_of scale)
     end.

#[export] Instance shape_from : From WorkspaceShape V1.WorkspaceShape := fun ws =>
  {| V1.zone_shape := Some match ws with
     | WBox h => V1.WBox (v0 h) (v1 h) (v2 h)
     | WSphere radius => V1.WSphere radius
     | WCylinder radius half_height => V1.WCylinder radius half_height
     end |}.
#[export] Instance shape_try : TryFrom V1.WorkspaceShape WorkspaceShape := fun proto =>
  let? shape := ok_or (V1.zone_shape proto) (MissingOneOf "WorkspaceShape.shape") in
  Ok match shape with
     | V1.WBox x y z => WBox (V3 x y z)
     | V1.WSphere radius => WSphere radius
     | V1.WCylinder radius half_height => WCylinder radius half_height
     end.

#[export] Instance role_from : From SemanticRole V1.SemanticRole := fun sr =>
  {| V1.role := Some match sr with
     | PrimaryManipulatorJoint index => V1.PrimaryManipulatorJoint index
     | SecondaryManipulatorJoint index => V1.SecondaryManipulatorJoint index
     | PrimaryGripper => V1.PrimaryGripper | SecondaryGripper => V1.SecondaryGripper
     | BaseTranslation => V1.BaseTranslation | BaseRotation => V1.BaseRotation
     | HeadPan => V1.HeadPan | HeadTilt => V1.HeadTilt
     | PrimaryCamera => V1.PrimaryCamera | WristCamera => V1.WristCamera
     | RoleForceTorqueSensor => V1.ForceTorqueSensor
     | CustomRole role => V1.Custom role
     end |}.
#[export] Instance role_try : TryFrom V1.SemanticRole SemanticRole := fun proto =>
  let? role := ok_or (V1.role proto) (MissingOneOf "SemanticRole.role") in
  Ok match role with
     | V1.PrimaryManipulatorJoint index => PrimaryManipulatorJoint index
     | V1.SecondaryManipulatorJoint index => SecondaryManipulatorJoint index
     | V1.PrimaryGripper => PrimaryGripper | V1.SecondaryGripper => SecondaryGripper
     | V1.BaseTranslation => BaseTranslation | V1.BaseRotation => BaseRotation
     | V1.HeadPan => HeadPan | V1.HeadTilt => HeadTilt
     | V1.PrimaryCamera => PrimaryCamera | V1.WristCamera => WristCamera
     | V1.ForceTorqueSensor => RoleForceTorqueSensor
     | V1.Custom role => CustomRole role
     end.

(** ** Scalar wrappers: conversions that cannot fail *)

#[export] Instance joint_limits_from : From JointSafetyLimits V1.JointSafetyLimits := fun l => {|
  V1.joint_name := joint_name l; V1.max_velocity := max_velocity l; V1.max_acceleration := max_acceleration l;
  V1.max_jerk := max_jerk l; V1.position_min := position_min l; V1.position_max := position_max l; V1.max_torque := max_torque l |}.
Definition joint_limits_of (proto : V1.JointSafetyLimits) : JointSafetyLimits := {|
  joint_name := V1.joint_name proto; max_velocity := V1.max_velocity proto; max_acceleration := V1.max_acceleration proto;
  max_jerk := V1.max_jerk proto; position_min := V1.position_min proto; position_max := V1.position_max proto;
  max_torque := V1.max_torque proto |}.

#[export] Instance force_limits_from : From ForceSafetyLimits V1.ForceSafetyLimits := fun l => {|
  V1.max_contact_force_n := max_contact_force_n l; V1.max_contact_torque_nm := max_contact_torque_nm l;
  V1.force_rate_limit := force_rate_limit l |}.
Definition force_limits_of (proto : V1.ForceSafetyLimits) : ForceSafetyLimits := {|
  max_contact_force_n := V1.max_contact_force_n proto; max_contact_torque_nm := V1.max_contact_torque_nm proto;
  force_rate_limit := V1.force_rate_limit proto |}.

#[export] Instance envelope_from : From ContactForceEnvelope V1.ContactForceEnvelope := fun e => {|
  V1.cfe_link_name := cfe_link_name e; V1.max_normal_force_n := max_normal_force_n e;
  V1.max_shear_force_n := max_shear_force_n e; V1.max_force_rate_n_per_s := max_force_rate_n_per_s e |}.
Definition envelope_of (proto : V1.ContactForceEnvelope) : ContactForceEnvelope := {|
  cfe_link_name := V1.cfe_link_name proto; max_normal_force_n := V1.max_normal_force_n proto;
  max_shear_force_n := V1.max_shear_force_n proto; max_force_rate_n_per_s := V1.max_force_rate_n_per_s proto |}.

#[export] Instance family_from : From EmbodimentFamily V1.EmbodimentFamily := fun f => {|
  V1.family_id := family_id f; V1.description := family_description f |}.
Definition family_of (proto : V1.EmbodimentFamily) : EmbodimentFamily := {|
  family_id := V1.family_id proto; family_description := V1.description proto |}.

#[export] Instance pair_from : From (string * string) V1.CollisionPair := fun pair => {| V1.link_a := pair.1; V1.link_b := pair.2 |}.
Definition pair_of (proto : V1.CollisionPair) : string * string := (V1.link_a proto, V1.link_b proto).

#[export] Instance frustum_from : From CameraFrustum V1.CameraFrustum := fun f => {|
  V1.fov_horizontal_deg := fov_horizontal_deg f; V1.fov_vertical_deg := fov_vertical_deg f;
  V1.near_clip_m := near_clip_m f; V1.far_clip_m := far_clip_m f;
  V1.resolution := option_map (fun r => {| V1.width := r.1; V1.height := r.2 |}) (resolution f) |}.
Definition frustum_of (proto : V1.CameraFrustum) : CameraFrustum := {|
  fov_horizontal_deg := V1.fov_horizontal_deg proto; fov_vertical_deg := V1.fov_vertical_deg proto;
  near_clip_m := V1.near_clip_m proto; far_clip_m := V1.far_clip_m proto;
  resolution := option_map (fun r => (V1.width r, V1.height r)) (V1.resolution proto) |}.

(** ** Composite messages *)

#[export] Instance joint_from : From Joint V1.Joint := fun j => {|
  V1.j_name := j_name j; V1.joint_type := domain_joint_type_to_proto (joint_type j); V1.parent_link := parent_link j;
  V1.child_link := child_link j; V1.axis := Some (from (axis j)); V1.j_origin := Some (from (origin j));
  V1.limits := Some (from (j_limits j)) |}.
#[export] Instance joint_try : TryFrom V1.Joint Joint := fun proto =>
  let? axis := required (V1.axis proto) "Joint.axis" in
  let? origin := required (V1.j_origin proto) "Joint.origin" in
  let? origin := try_from origin in
  let? limits := required (V1.limits proto) "Joint.limits" in
  let? joint_type := proto_to_domain_joint_type (V1.joint_type proto) in
  Ok {| j_name := V1.j_name proto; joint_type := joint_type; parent_link := V1.parent_link proto; child_link := V1.child_link proto;
        axis := vec3_of axis; origin := origin; j_limits := joint_limits_of limits |}.

#[export] Instance link_from : From Link V1.Link := fun l => {|
  V1.l_name := link_name l; V1.parent_joint := parent_joint l; V1.inertial := option_map from (inertial l);
  V1.visual_geometry := option_map from (visual_geometry l); V1.collision_geometry := option_map from (collision_geometry l) |}.
#[export] Instance link_try : TryFrom V1.Link Link := fun proto =>
  let? inertial := transpose try_from (V1.inertial proto) in
  let? visual_geometry := transpose try_from (V1.visual_geometry proto) in
  let? collision_geometry := transpose try_from (V1.collision_geometry proto) in
  Ok {| link_name := V1.l_name proto; parent_joint := V1.parent_joint proto; inertial := inertial;
        visual_geometry := visual_geometry; collision_geometry := collision_geometry |}.

#[export] Instance body_from : From CollisionBody V1.CollisionBody := fun cb => {|
  V1.cb_link_name := cb_link_name cb; V1.cb_geometry := Some (from (geometry cb)); V1.cb_origin := Some (from (cb_origin cb)) |}.
#[export] Instance body_try : TryFrom V1.CollisionBody CollisionBody := fun proto =>
  let? geometry := required (V1.cb_geometry proto) "CollisionBody.geometry" in
  let? geometry := try_from geometry in
  let? origin := required (V1.cb_origin proto) "CollisionBody.origin" in
  let? origin := try_from origin in
  Ok {| cb_link_name := V1.cb_link_name proto; geometry := geometry; cb_origin := origin |}.

#[export] Instance tcp_from : From ToolCenterPoint V1.ToolCenterPoint := fun tcp => {|
  V1.tcp_name := tcp_name tcp; V1.tcp_parent_link := tcp_parent_link tcp; V1.tcp_offset := Some (from (tcp_offset tcp));
  V1.tcp_type := domain_tcp_type_to_proto (tcp_type tcp) |}.
#[export] Instance tcp_try : TryFrom V1.ToolCenterPoint ToolCenterPoint := fun proto =>
  let? offset := required (V1.tcp_offset proto) "ToolCenterPoint.offset" in
  let? offset := try_from offset in
  let? tcp_type := proto_to_domain_tcp_type (V1.tcp_type proto) in
  Ok {| tcp_name := V1.tcp_name proto; tcp_parent_link := V1.tcp_parent_link proto; tcp_offset := offset; tcp_type := tcp_type |}.

#[export] Instance mount_from : From SensorMount V1.SensorMount := fun sm => {|
  V1.sensor_id := sensor_id sm; V1.sm_parent_link := sensor_parent_link sm; V1.sm_offset := Some (from (sensor_offset sm));
  V1.sensor_type := domain_sensor_type_to_proto (sensor_type sm); V1.is_actuated := is_actuated sm;
  V1.actuation_joint := actuation_joint sm; V1.frustum := option_map from (frustum sm) |}.
#[export] Instance mount_try : TryFrom V1.SensorMount SensorMount := fun proto =>
  let? offset := required (V1.sm_offset proto) "SensorMount.offset" in
  let? offset := try_from offset in
  let? sensor_type := proto_to_domain_sensor_type (V1.sensor_type proto) in
  Ok {| sensor_id := V1.sensor_id proto; sensor_parent_link := V1.sm_parent_link proto; sensor_offset := offset;
        sensor_type := sensor_type; is_actuated := V1.is_actuated proto; actuation_joint := V1.actuation_joint proto;
        frustum := option_map frustum_of (V1.frustum proto) |}.

#[export] Instance zone_from : From WorkspaceZone V1.WorkspaceZone := fun wz => {|
  V1.zone_name := zone_name wz; V1.zshape := Some (from (shape wz)); V1.origin_frame := origin_frame wz;
  V1.zone_type := domain_zone_type_to_proto (zone_type wz); V1.margin_m := margin_m wz |}.
#[export] Instance zone_try : TryFrom V1.WorkspaceZone WorkspaceZone := fun proto =>
  let? shape := required (V1.zshape proto) "WorkspaceZone.shape" in
  let? shape := try_from shape in
  let? zone_type := proto_to_domain_zone_type (V1.zone_type proto) in
  Ok {| zone_name := V1.zone_name proto; shape := shape; origin_frame := V1.origin_frame proto; zone_type := zone_type;
        margin_m := V1.margin_m proto |}.

#[export] Instance node_from : From FrameNode V1.FrameNode := fun node => {|
  V1.frame_id := frame_id node; V1.parent_id := parent_id node; V1.static_transform := Some (from (static_transform node));
  V1.source := domain_frame_source_to_proto (source node) |}.
#[export] Instance node_try : TryFrom V1.FrameNode FrameNode := fun proto =>
  let? static_transform := required (V1.static_transform proto) "FrameNode.static_transform" in
  let? static_transform := try_from static_transform in
  let? source := proto_to_domain_frame_source (V1.source proto) in
  Ok {| frame_id := V1.frame_id proto; parent_id := V1.parent_id proto; static_transform := static_transform; source := source |}.

#[export] Instance binding_from : From ChannelBinding V1.ChannelBinding := fun cb => {|
  V1.physical_name := physical_name cb; V1.channel_index := channel_index cb;
  V1.binding_type := domain_binding_type_to_proto (binding_type cb); V1.b_frame_id := b_frame_id cb; V1.b_units := b_units cb;
  V1.semantic_role := option_map from (semantic_role cb) |}.
#[export] Instance binding_try : TryFrom V1.ChannelBinding ChannelBinding := fun proto =>
  let? binding_type := proto_to_domain_binding_type (V1.binding_type proto) in
  let? semantic_role := transpose try_from (V1.semantic_role proto) in
  Ok {| physical_name := V1.physical_name proto; channel_index := V1.channel_index proto; binding_type := binding_type;
        b_frame_id := V1.b_frame_id proto; b_units := V1.b_units proto; semantic_role := semantic_role |}.

#[export] Instance channel_from : From ControlChannelDef V1.ControlChannelDef := fun cd => {|
  V1.cc_name := ch_name cd; V1.interface_type := domain_command_interface_type_to_proto (interface_type cd);
  V1.cc_units := units cd; V1.cc_frame_id := ch_frame_id cd |}.
#[export] Instance channel_try : TryFrom V1.ControlChannelDef ControlChannelDef := fun proto =>
  let? interface_type := proto_to_domain_command_interface_type (V1.interface_type proto) in
  Ok {| ch_name := V1.cc_name proto; interface_type := interface_type; units := V1.cc_units proto; ch_frame_id := V1.cc_frame_id proto |}.

#[export] Instance manifest_from : From ControlInterfaceManifest V1.ControlInterfaceManifest := fun cim => {|
  V1.version := version cim; V1.manifest_digest := manifest_digest cim;
  V1.channels := map from (channels cim); V1.bindings := map from (bindings cim) |}.
#[export] Instance manifest_try : TryFrom V1.ControlInterfaceManifest ControlInterfaceManifest := fun proto =>
  let? channels := collect try_from (V1.channels proto) in
  let? bindings := collect try_from (V1.bindings proto) in
  Ok {| version := V1.version proto; manifest_digest := V1.manifest_digest proto; channels := channels; bindings := bindings |}.

(** ** Overlays *)

(** [scale.clone().unwrap_or_default()]: an absent scale is the empty list. *)
#[export] Instance sensor_calibration_from : From SensorCalibration V1.SensorCalibration := fun sc => {|
  V1.sc_sensor_id := sc_sensor_id sc; V1.sc_offset := sc_offset sc; V1.sc_scale := default [] (sc_scale sc);
  V1.sc_calibrated_at := Some (datetime_to_proto (sc_calibrated_at sc)) |}.
#[export] Instance sensor_calibration_try : TryFrom V1.SensorCalibration SensorCalibration := fun proto =>
  let? calibrated_at := required (V1.sc_calibrated_at proto) "SensorCalibration.calibrated_at" in
  let? calibrated_at := proto_to_datetime calibrated_at in
  Ok {| sc_sensor_id := V1.sc_sensor_id proto; sc_offset := V1.sc_offset proto;
        sc_scale := match V1.sc_scale proto with [] => None | l => Some l end; sc_calibrated_at := calibrated_at |}.

#[export] Instance calibration_from : From CalibrationOverlay V1.CalibrationOverlay := fun co => {|
  V1.calibration_id := calibration_id co; V1.calibration_digest := calibration_digest co;
  V1.calibrated_at := Some (datetime_to_proto (calibrated_at co)); V1.stale_after := option_map datetime_to_proto (stale_after co);
  V1.joint_offsets := joint_offsets co; V1.frame_corrections := from <$> frame_corrections co;
  V1.sensor_calibrations := from <$> sensor_calibrations co;
  V1.temperature_min := option_map fst (temperature_range co); V1.temperature_max := option_map snd (temperature_range co);
  V1.valid_for_model_digest := valid_for_model_digest co |}.
#[export] Instance calibration_try : TryFrom V1.CalibrationOverlay CalibrationOverlay := fun proto =>
  let? calibrated_at := required (V1.calibrated_at proto) "CalibrationOverlay.calibrated_at" in
  let? calibrated_at := proto_to_datetime calibrated_at in
  let? stale_after := transpose proto_to_datetime (V1.stale_after proto) in
  let? temperature_range :=
    match V1.temperature_min proto, V1.temperature_max proto with
    | Some min, Some max => Ok (Some (min, max))
    | None, None => Ok None
    | _, _ => Err (MissingField "CalibrationOverlay.temperature_min/max must both be set or both absent")
    end in
  let? frame_corrections := collect_map try_from (V1.frame_corrections proto) in
  let? sensor_calibrations := collect_map try_from (V1.sensor_calibrations proto) in
  Ok {| calibration_id := V1.calibration_id proto; calibration_digest := V1.calibration_digest proto;
        calibrated_at := calibrated_at; stale_after := stale_after; joint_offsets := V1.joint_offsets proto;
        frame_corrections := frame_corrections; sensor_calibrations := sensor_calibrations;
        temperature_range := temperature_range; valid_for_model_digest := V1.valid_for_model_digest proto |}.

#[export] Instance safety_from : From SafetyOverlay V1.SafetyOverlay := fun so => {|
  V1.overlay_digest := overlay_digest so; V1.workspace_restrictions := map from (workspace_restrictions so);
  V1.joint_limit_overrides := from <$> joint_limit_overrides so; V1.max_payload_kg := max_payload_kg so;
  V1.human_presence_zones := map from (human_presence_zones so); V1.force_limits := option_map from (force_limits so);
  V1.contact_force_envelopes := map from (contact_force_envelopes so);
  V1.contact_allowed_zones := map from (contact_allowed_zones so); V1.force_rate_limits := force_rate_limits so |}.
#[export] Instance safety_try : TryFrom V1.SafetyOverlay SafetyOverlay := fun proto =>
  let? workspace_restrictions := collect try_from (V1.workspace_restrictions proto) in
  let? human_presence_zones := collect try_from (V1.human_presence_zones proto) in
  let? contact_allowed_zones := collect try_from (V1.contact_allowed_zones proto) in
  Ok {| overlay_digest := V1.overlay_digest proto; workspace_restrictions := workspace_restrictions;
        joint_limit_overrides := joint_limits_of <$> V1.joint_limit_overrides proto; max_payload_kg := V1.max_payload_kg proto;
        human_presence_zones := human_presence_zones; force_limits := option_map force_limits_of (V1.force_limits proto);
        contact_force_envelopes := map envelope_of (V1.contact_force_envelopes proto);
        contact_allowed_zones := contact_allowed_zones; force_rate_limits := V1.force_rate_limits proto |}.

#[export] Instance retargeting_from : From Retargeting.RetargetingMap V1.RetargetingMap := fun rm => {|
  V1.rm_embodiment_family := Some (from (Retargeting.embodiment_family rm));
  V1.canonical_to_local := Retargeting.canonical_to_local rm; V1.local_to_canonical := Retargeting.local_to_canonical rm |}.
#[export] Instance retargeting_try : TryFrom V1.RetargetingMap Retargeting.RetargetingMap := fun proto =>
  let? family := required (V1.rm_embodiment_family proto) "embodiment_family" in
  Ok {| Retargeting.embodiment_family := family_of family; Retargeting.canonical_to_local := V1.canonical_to_local proto;
        Retargeting.local_to_canonical := V1.local_to_canonical proto |}.

(** ** Frame trees *)

#[export] Instance tree_from : From FrameTree V1.FrameTree := fun ft => {|
  V1.frames := list_to_map (omap (fun id => option_map (fun node => (id, from node)) (get_frame ft id)) (all_frame_ids ft));
  V1.root := root ft |}.

(** [Display]. *)
Definition display_tree_error (e : FrameTreeError) : string :=
  match e with
  | FrameNotFound id => "frame not found: " +:+ id
  | ParentNotFound id => "parent frame not found: " +:+ id
  | NoCommonAncestor from to => "no common ancestor between " +:+ from +:+ " and " +:+ to
  | CycleDetected id => "cycle detected at frame: " +:+ id
  | StaticFrameMutation id => "cannot mutate static frame: " +:+ id +:+ " — use CalibrationOverlay for static geometry corrections"
  end.

Record Bfs : Type := { tree : FrameTree; visited : gset string; queue : list string }.

(** The transform and the source of a frame that is added. *)
Definition frame_parts (id : string) (node : V1.FrameNode) : converted (Transform3D * FrameSource) :=
  let? transform := required (V1.static_transform node) ("FrameNode(" +:+ id +:+ ").static_transform") in
  let? transform := try_from transform in
  let? source := proto_to_domain_frame_source (V1.source node) in
  Ok (transform, source).

(** The body of the inner loop, for one frame of the message. *)
Definition visit_frame (proto : V1.FrameTree) (parent : string) (st : Bfs) (id : string) : converted Bfs :=
  match V1.frames proto !! id with
  | None => Ok st
  | Some node =>
      if decide (id ∈ visited st) then Ok st
      else if decide (V1.parent_id node = Some parent) then
        let? parts := frame_parts id node in
        match add_frame (tree st) id parent parts.1 parts.2 with
        | (Ok _, tree) => Ok {| tree := tree; visited := {[id]} ∪ visited st; queue := queue st ++ [id] |}
        | (Err e, _) => Err (MissingField ("FrameTree BFS: " +:+ display_tree_error e))
        end
      else Ok st
  end.

Fixpoint visit_frames (proto : V1.FrameTree) (parent : string) (ids : list string) (st : Bfs) : converted Bfs :=
  match ids with
  | [] => Ok st
  | id :: ids => let? st := visit_frame proto parent st id in visit_frames proto parent ids st
  end.

(** [while let Some(parent_id) = queue.pop_front()]; a turn per frame is enough. *)
Fixpoint bfs (proto : V1.FrameTree) (fuel : nat) (st : Bfs) : converted Bfs :=
  match fuel with
  | O => Ok st
  | S fuel =>
      match queue st with
      | [] => Ok st
      | parent :: queue =>
          let? st := visit_frames proto parent (sorted_keys (V1.frames proto)) {| tree := tree st; visited := visited st; queue := queue |} in
          bfs proto fuel st
      end
  end.

#[export] Instance tree_try : TryFrom V1.FrameTree FrameTree := fun proto =>
  let? root_id := required (V1.root proto) "FrameTree.root" in
  let? root_node := required (V1.frames proto !! root_id) ("FrameTree.frames[" +:+ root_id +:+ "]") in
  let? source := proto_to_domain_frame_source (V1.source root_node) in
  let? st := bfs proto (size (V1.frames proto)) {| tree := set_root new root_id source; visited := {[root_id]}; queue := [root_id] |} in
  if decide (size (visited st) = size (V1.frames proto)) then Ok (tree st)
  else
    let orphaned := List.filter (fun k => negb (bool_decide (k ∈ visited st))) (sorted_keys (V1.frames proto)) in
    Err (MissingField ("FrameTree has " +:+ pretty (Z.of_nat (length orphaned)) +:+ " orphaned frames: " +:+ debug_list orphaned)).

(** ** Model and runtime *)

#[export] Instance model_from : From EmbodimentModel V1.EmbodimentModel := fun m => {|
  V1.model_id := model_id m; V1.m_model_digest := model_digest m; V1.m_embodiment_family := option_map from (embodiment_family m);
  V1.links := map from (links m); V1.joints := map from (joints m); V1.frame_tree := Some (from (frame_tree m));
  V1.collision_bodies := map from (collision_bodies m); V1.allowed_collision_pairs := map from (allowed_collision_pairs m);
  V1.tcps := map from (tcps m); V1.sensor_mounts := map from (sensor_mounts m); V1.workspace_zones := map from (workspace_zones m);
  V1.m_watched_frames := watched_frames m; V1.channel_bindings := map from (channel_bindings m) |}.
#[export] Instance model_try : TryFrom V1.EmbodimentModel EmbodimentModel := fun proto =>
  let? frame_tree := required (V1.frame_tree proto) "EmbodimentModel.frame_tree" in
  let? frame_tree := try_from frame_tree in
  let? links := collect try_from (V1.links proto) in
  let? joints := collect try_from (V1.joints proto) in
  let? collision_bodies := collect try_from (V1.collision_bodies proto) in
  let? tcps := collect try_from (V1.tcps proto) in
  let? sensor_mounts := collect try_from (V1.sensor_mounts proto) in
  let? workspace_zones := collect try_from (V1.workspace_zones proto) in
  let? channel_bindings := collect try_from (V1.channel_bindings proto) in
  Ok {| model_id := V1.model_id proto; model_digest := V1.m_model_digest proto;
        embodiment_family := option_map family_of (V1.m_embodiment_family proto); links := links; joints := joints;
        frame_tree := frame_tree; collision_bodies := collision_bodies;
        allowed_collision_pairs := map pair_of (V1.allowed_collision_pairs proto); tcps := tcps; sensor_mounts := sensor_mounts;
        workspace_zones := workspace_zones; watched_frames := V1.m_watched_frames proto; channel_bindings := channel_bindings |}.

(** [u32::try_from(n).unwrap_or(u32::MAX)] of a [usize]. *)
Definition U32_MAX : Z := 4294967295.
Definition to_u32 (n : Z) : Z := if n <=? U32_MAX then n else U32_MAX.

#[export] Instance runtime_from : From EmbodimentRuntime V1.EmbodimentRuntime := fun r => {|
  V1.model := Some (from (model r)); V1.calibration := option_map from (calibration r);
  V1.safety_overlay := option_map from (safety_overlay r); V1.model_digest := rt_model_digest r;
  V1.r_calibration_digest := rt_calibration_digest r; V1.safety_digest := safety_digest r; V1.combined_digest := combined_digest r;
  V1.frame_graph := Some (from (frame_graph r)); V1.active_calibration_id := active_calibration_id r;
  V1.joint_count := to_u32 (joint_count r); V1.tcp_count := to_u32 (tcp_count r);
  V1.watched_frames := rt_watched_frames r; V1.validation_issues := validation_issues r |}.
#[export] Instance runtime_try : TryFrom V1.EmbodimentRuntime EmbodimentRuntime := fun proto =>
  let? model := required (V1.model proto) "EmbodimentRuntime.model" in
  let? model := try_from model in
  let? frame_graph := required (V1.frame_graph proto) "EmbodimentRuntime.frame_graph" in
  let? frame_graph := try_from frame_graph in
  let? calibration := transpose try_from (V1.calibration proto) in
  let? safety_overlay := transpose try_from (V1.safety_overlay proto) in
  Ok {| model := model; calibration := calibration; safety_overlay := safety_overlay; rt_model_digest := V1.model_digest proto;
        rt_calibration_digest := V1.r_calibration_digest proto; safety_digest := V1.safety_digest proto;
        combined_digest := V1.combined_digest proto; frame_graph := frame_graph;
        active_calibration_id := V1.active_calibration_id proto; joint_count := V1.joint_count proto; tcp_count := V1.tcp_count proto;
        rt_watched_frames := V1.watched_frames proto; validation_issues := V1.validation_issues proto |}.

(** ** What a received tree is *)

Section Tree.
Context (proto : V1.FrameTree) (r : string) (root_source : FrameSource).

Definition root_frame : FrameNode := {| frame_id := r; parent_id := None; static_transform := identity; source := root_source |}.

(** The node a frame of the message becomes. *)
Definition received_node (f : string) : option FrameNode :=
  if decide (f = r) then Some root_frame
  else
    match V1.frames proto !! f with
    | Some n =>
        match V1.parent_id n, frame_parts f n with
        | Some p, Ok parts => Some {| frame_id := f; parent_id := Some p; static_transform := parts.1; source := parts.2 |}
        | _, _ => None
        end
    | None => None
    end.

(** The frames that climb to the root along the parents of the message. *)
Inductive climbs : string -> Prop :=
| climbs_root : climbs r
| climbs_up f n p : V1.frames proto !! f = Some n -> V1.parent_id n = Some p -> climbs p -> climbs f.

(** Every frame climbs to the root and has its parts. *)
Definition acceptable : Prop :=
  forall f n, V1.frames proto !! f = Some n -> climbs f /\ (f <> r -> exists parts, frame_parts f n = Ok parts).

(** [todo]: the frames the pass over the children of [parent] has not come to yet. *)
Record searching (parent : string) (todo : list string) (st : Bfs) : Prop := {
  se_root : root (tree st) = Some r;
  se_frames : forall f, frames (tree st) !! f = if decide (f ∈ visited st) then received_node f else None;
  se_known : forall f, f ∈ visited st -> is_Some (received_node f) /\ is_Some (V1.frames proto !! f) /\ climbs f;
  se_start : r ∈ visited st;
  se_queue : forall f, f ∈ queue st -> f ∈ visited st;
  se_closed : forall f n p, V1.frames proto !! f = Some n -> V1.parent_id n = Some p -> p ∈ visited st -> p ∉ queue st ->
    f ∈ visited st \/ (p = parent /\ f ∈ todo);
}.

(** Turns of the outer loop still to come. *)
Definition turns_left (st : Bfs) : nat := length (queue st) + (size (V1.frames proto) - size (visited st)).

Lemma visited_size parent todo st : searching parent todo st -> (size (visited st) <= size (V1.frames proto))%nat.
Proof.
  intros H. rewrite <- size_dom. apply subseteq_size. intros f Hf. apply elem_of_dom. by apply (se_known _ _ _ H).
Qed.

Lemma visit_frame_searching parent id todo st :
  searching parent (id :: todo) st -> parent ∈ visited st ->
  match visit_frame proto parent st id with
  | Ok st' => searching parent todo st' /\ parent ∈ visited st' /\ turns_left st' = turns_left st
  | Err _ => ~ acceptable
  end.
Proof.
  intros H Hp. unfold visit_frame.
  assert (Hskip : (forall n, V1.frames proto !! id = Some n -> V1.parent_id n = Some parent -> id ∈ visited st) ->
    searching parent todo st /\ parent ∈ visited st /\ turns_left st = turns_left st).
  { intros Hid. split; [|done]. destruct H as [H1 H2 H3 H4 H5 H6]. split; try done.
    intros f n p Hf Hn Hv Hq. destruct (H6 f n p Hf Hn Hv Hq) as [|[-> Hin]]; [by left|].
    apply elem_of_cons in Hin as [->|Hin]; [left; by apply (Hid n)|by right]. }
  destruct (V1.frames proto !! id) as [n|] eqn:En; [|by apply Hskip].
  destruct (decide (id ∈ visited st)) as [|Hnv]; [by apply Hskip|].
  destruct (decide (V1.parent_id n = Some parent)) as [Hpar|Hpar]; [|apply Hskip; intros m [= <-] ?; by destruct Hpar].
  assert (Hne : id <> r) by (intros ->; by destruct Hnv; apply (se_start _ _ _ H)).
  destruct (frame_parts id n) as [parts|e] eqn:Eparts; cbn [result_bind].
  2: { intros Hacc. destruct (Hacc id n En) as [_ Hok]. destruct (Hok Hne) as [parts Hparts]. congruence. }
  destruct H as [H1 H2 H3 H4 H5 H6].
  assert (Hex : frame_exists (tree st) parent = true).
  { unfold frame_exists. apply bool_decide_eq_true. rewrite H2, decide_True by done. by apply H3. }
  assert (Hnode : received_node id = Some {| frame_id := id; parent_id := Some parent; static_transform := parts.1; source := parts.2 |}).
  { unfold received_node. by rewrite decide_False, En, Hpar, Eparts by done. }
  unfold add_frame. rewrite Hex. cbn [negb]. split; [|split; [set_solver|]].
  - split; cbn [tree visited queue root frames].
    + done.
    + intros f. destruct (decide (f = id)) as [->|Hf]; [rewrite lookup_insert_eq, decide_True by set_solver; by rewrite Hnode|].
      rewrite lookup_insert_ne, H2 by done. apply decide_ext. set_solver.
    + intros f [->%elem_of_singleton|Hf]%elem_of_union; [|by apply H3]. rewrite Hnode, En. split; [done|]. split; [done|].
      apply (climbs_up id n parent); [done|done|by apply H3].
    + set_solver.
    + intros f [Hf|Hf]%elem_of_app; [|apply list_elem_of_singleton in Hf as ->]; set_solver.
    + intros f m p Hf Hm Hv Hq. destruct (decide (f = id)) as [->|Hfid]; [left; set_solver|].
      assert (p <> id) by (intros ->; apply Hq; apply elem_of_app; right; by left).
      destruct (H6 f m p Hf Hm) as [|[-> Hin]]; [set_solver|set_solver|left; set_solver|].
      right. split; [done|]. by apply elem_of_cons in Hin as [->|].
  - unfold turns_left. cbn [queue visited]. rewrite length_app, size_union, size_singleton by set_solver. cbn [length].
    assert (Hsz : (size ({[id]} ∪ visited st) <= size (V1.frames proto))%nat).
    { rewrite <- size_dom. apply subseteq_size. intros f [->%elem_of_singleton|Hf]%elem_of_union; apply elem_of_dom; [by rewrite En|by apply H3]. }
    rewrite size_union, size_singleton in Hsz by set_solver. lia.
Qed.

Lemma visit_frames_searching parent ids : forall st,
  searching parent ids st -> parent ∈ visited st ->
  match visit_frames proto parent ids st with
  | Ok st' => searching parent [] st' /\ turns_left st' = turns_left st
  | Err _ => ~ acceptable
  end.
Proof.
  induction ids as [|id ids IH]; intros st H Hp; [done|]. cbn [visit_frames].
  pose proof (visit_frame_searching parent id ids st H Hp) as Hv. destruct (visit_frame proto parent st id) as [st'|]; [|done].
  cbn [result_bind]. destruct Hv as (H' & Hp' & <-). by apply IH.
Qed.

Lemma bfs_searching fuel : forall st, (exists parent, searching parent [] st) -> (turns_left st <= fuel)%nat ->
  match bfs proto fuel st with
  | Ok st' => (exists parent, searching parent [] st') /\ queue st' = []
  | Err _ => ~ acceptable
  end.
Proof.
  induction fuel as [|fuel IH]; intros st [q H] Hf; cbn [bfs].
  { split; [by exists q|]. unfold turns_left in Hf. destruct (queue st); [done|cbn in Hf; lia]. }
  destruct (queue st) as [|parent rest] eqn:Eq; [split; [by exists q|done]|].
  set (st0 := {| tree := tree st; visited := visited st; queue := rest |}).
  assert (Hpv : parent ∈ visited st) by (apply (se_queue _ _ _ H); rewrite Eq; by left).
  assert (H0 : searching parent (sorted_keys (V1.frames proto)) st0).
  { destruct H as [H1 H2 H3 H4 H5 H6]. rewrite Eq in *. split; try done; cbn [tree visited queue st0].
    - intros f Hin. apply H5. by right.
    - intros f n p Hn Hp Hv Hr. destruct (decide (p = parent)) as [->|Hne].
      + right. split; [done|]. apply elem_of_sorted_keys. by exists n.
      + destruct (H6 f n p Hn Hp Hv) as [|[_ ?%elem_of_nil]]; [|by left|done].
        intros [->|?]%elem_of_cons; done. }
  pose proof (visit_frames_searching parent _ st0 H0 Hpv) as Hv. fold st0.
  destruct (visit_frames proto parent (sorted_keys (V1.frames proto)) st0) as [st'|]; [|done]. cbn [result_bind].
  destruct Hv as [H' Ht]. apply IH; [by exists parent|]. rewrite Ht.
  unfold turns_left in *. cbn [queue visited st0]. rewrite Eq in Hf. cbn [length] in Hf. lia.
Qed.

Definition start : Bfs := {| tree := set_root new r root_source; visited := {[r]}; queue := [r] |}.

Lemma start_searching : is_Some (V1.frames proto !! r) -> searching r [] start /\ turns_left start = size (V1.frames proto).
Proof.
  intros Hr. split.
  - split; cbn [tree visited queue start]; [done|..].
    + intros f. cbn [set_root frames new]. unfold received_node. destruct (decide (f = r)) as [->|Hne].
      * rewrite lookup_insert_eq, decide_True by set_solver. done.
      * rewrite lookup_insert_ne, decide_False by set_solver. done.
    + intros f ->%elem_of_singleton. unfold received_node. rewrite decide_True by done. split; [done|]. split; [done|constructor].
    + set_solver.
    + set_solver.
    + intros f n p _ _ ->%elem_of_singleton Hq. by destruct Hq; left.
  - unfold turns_left, start. cbn [queue visited length]. rewrite size_singleton.
    assert (size (V1.frames proto) <> 0)%nat; [|lia]. intros Hz%map_size_empty_inv. rewrite Hz in Hr. by destruct Hr.
Qed.

Lemma closed_climbs parent st f : searching parent [] st -> queue st = [] -> climbs f -> f ∈ visited st.
Proof.
  intros H Hq. induction 1 as [|f n p Hf Hn Hp IH]; [apply (se_start _ _ _ H)|].
  destruct (se_closed _ _ _ H f n p Hf Hn IH) as [|[_ ?%elem_of_nil]]; [by rewrite Hq; apply not_elem_of_nil|done|done].
Qed.

(** What the message says the tree is. *)
Definition received (t : FrameTree) : Prop :=
  root t = Some r /\ forall f, frames t !! f = V1.frames proto !! f ≫= fun _ => received_node f.

Lemma receive_tree : is_Some (V1.frames proto !! r) ->
  match bfs proto (size (V1.frames proto)) start with
  | Ok st => (size (visited st) = size (V1.frames proto) <-> acceptable) /\ (acceptable -> received (tree st))
  | Err _ => ~ acceptable
  end.
Proof.
  intros Hr. destruct (start_searching Hr) as [Hs Ht].
  pose proof (bfs_searching (size (V1.frames proto)) start (ex_intro _ r Hs) ltac:(lia)) as Hb.
  destruct (bfs proto _ start) as [st|]; [|done]. destruct Hb as [[q H] Hq].
  assert (Hdom : acceptable -> forall f, f ∈ visited st <-> is_Some (V1.frames proto !! f)).
  { intros Hacc f. split; [apply (se_known _ _ _ H)|]. intros [n Hn]. eapply closed_climbs; [done|done|]. by apply (Hacc f n). }
  split; [split|].
  - intros Hsz f n Hf. assert (Hv : f ∈ visited st).
    { assert (visited st = dom (V1.frames proto)) as ->; [|apply elem_of_dom; by exists n].
      apply set_subseteq_size_eq; [intros g Hg; apply elem_of_dom; by apply (se_known _ _ _ H)|rewrite size_dom; lia]. }
    destruct (se_known _ _ _ H f Hv) as (Hk & _ & Hc). split; [done|]. intros Hne.
    unfold received_node in Hk. rewrite decide_False, Hf in Hk by done.
    destruct (V1.parent_id n), (frame_parts f n) as [parts|]; try by destruct Hk. by exists parts.
  - intros Hacc. rewrite <- size_dom. f_equal. apply set_eq. intros f. rewrite (Hdom Hacc f), elem_of_dom. done.
  - intros Hacc. split; [apply (se_root _ _ _ H)|]. intros f. rewrite (se_frames _ _ _ H).
    pose proof (Hdom Hacc f) as Hf. destruct (V1.frames proto !! f) as [n|] eqn:En; cbn.
    + rewrite decide_True; [done|by apply Hf].
    + rewrite decide_False; [done|]. intros Hv. apply Hf in Hv. by destruct Hv.
Qed.

End Tree.

(** The conversion in terms of its own checks. *)
Lemma tree_try_ok proto t :
  try_from proto = Ok t <->
  exists r n src, V1.root proto = Some r /\ V1.frames proto !! r = Some n /\
    proto_to_domain_frame_source (V1.source n) = Ok src /\ acceptable proto r /\ received proto r src t.
Proof.
  unfold try_from, tree_try. destruct (V1.root proto) as [r|]; cbn [required ok_or result_bind].
  2: { split; [done|]. by intros (? & ? & ? & ? & _). }
  destruct (V1.frames proto !! r) as [n|] eqn:En; cbn [required ok_or result_bind].
  2: { split; [done|]. intros (? & ? & ? & [= <-] & ? & _). congruence. }
  destruct (proto_to_domain_frame_source (V1.source n)) as [src|e] eqn:Es; cbn [result_bind].
  2: { split; [done|]. intros (r' & n' & src' & [= <-] & Hn & Hs & _). congruence. }
  pose proof (receive_tree proto r src (mk_is_Some _ _ En)) as Hrt. fold (start r src).
  destruct (bfs proto _ (start r src)) as [st|e]; cbn [result_bind].
  2: { split; [done|]. intros (r' & n' & src' & [= <-] & _ & _ & Hacc & _). done. }
  destruct Hrt as [Hsz Hrec]. destruct (decide (size (visited st) = size (V1.frames proto))) as [E|E].
  - apply Hsz in E as Hacc. split.
    + intros [= <-]. exists r, n, src. by split_and!; [..|apply Hrec].
    + intros (r' & n' & src' & [= <-] & Hn & Hs & _ & [Hr Hf]). rewrite En in Hn. injection Hn as <-. rewrite Es in Hs. injection Hs as <-.
      destruct (Hrec Hacc) as [Hr' Hf']. f_equal. destruct (tree st) as [fs ro], t as [fs' ro']. cbn in *. f_equal; [|congruence].
      apply map_eq. intros f. by rewrite Hf, Hf'.
  - split; [done|]. intros (r' & n' & src' & [= <-] & _ & _ & Hacc & _). by apply Hsz in Hacc.
Qed.

(** *** The same without the conversion's own checks *)

(** The node names a source, by its number in the schema. *)
Definition source_given (n : V1.FrameNode) (src : FrameSource) : Prop :=
  V1.source n = 1 /\ src = SrcStatic \/ V1.source n = 2 /\ src = SrcDynamic \/ V1.source n = 3 /\ src = SrcComputed.

(** The node has a transform, with a translation and a rotation. *)
Definition transform_given (n : V1.FrameNode) (t : Transform3D) : Prop :=
  exists w a q, V1.static_transform n = Some w /\ V1.translation w = Some a /\ V1.rotation w = Some q /\
    t = {| translation := V3 (V1.vx a) (V1.vy a) (V1.vz a);
           rotation := Q4 (V1.qw q) (V1.qx q) (V1.qy q) (V1.qz q); timestamp_ns := V1.timestamp_ns w |}.

(** Every frame climbs to the root, and every frame but the root has a transform and a source. *)
Definition well_formed (proto : V1.FrameTree) (r : string) : Prop :=
  forall f n, V1.frames proto !! f = Some n ->
    climbs proto r f /\ (f <> r -> (exists t, transform_given n t) /\ exists src, source_given n src).

(** The tree has the root [r], with the identity and no parent, and the frames of the message
    with what it says of them. *)
Definition holds_exactly (proto : V1.FrameTree) (r : string) (src : FrameSource) (t : FrameTree) : Prop :=
  root t = Some r /\ frames t !! r = Some {| frame_id := r; parent_id := None; static_transform := identity; source := src |} /\
  forall f, f <> r ->
    match V1.frames proto !! f with
    | None => frames t !! f = None
    | Some n =>
        exists node, frames t !! f = Some node /\ frame_id node = f /\ parent_id node = V1.parent_id n /\
          transform_given n (static_transform node) /\ source_given n (source node)
    end.

Lemma source_ok n src : proto_to_domain_frame_source (V1.source n) = Ok src <-> source_given n src.
Proof.
  unfold source_given, proto_to_domain_frame_source. split.
  - repeat case_match; naive_solver.
  - by intros [[-> ->]|[[-> ->]|[-> ->]]].
Qed.

Lemma frame_parts_ok id n t src : frame_parts id n = Ok (t, src) <-> transform_given n t /\ source_given n src.
Proof.
  rewrite <- source_ok. unfold frame_parts, transform_given, required, ok_or, try_from, transform_try.
  destruct (V1.static_transform n) as [w|]; cbn [result_bind]; [|by split; [|intros [(? & ? & ? & ? & ? & ? & _) ?]]]. unfold required, ok_or.
  destruct (V1.translation w) as [a|] eqn:Ea; cbn [result_bind]; [|split; [done|intros [(w' & a' & ? & [= <-] & ? & _) _]; congruence]].
  destruct (V1.rotation w) as [q|] eqn:Eq; cbn [result_bind]; [|split; [done|intros [(w' & ? & q' & [= <-] & _ & ? & _) _]; congruence]].
  destruct (proto_to_domain_frame_source (V1.source n)) as [src'|]; cbn [result_bind]; [|by split; [|intros [_ ?]]].
  split; [intros [= <- <-]; split; [by exists w, a, q|done]|].
  intros [(w' & a' & q' & [= <-] & Ea' & Eq' & ->) [= ->]]. rewrite Ea in Ea'. rewrite Eq in Eq'. by injection Ea' as <-; injection Eq' as <-.
Qed.

Lemma acceptable_well_formed proto r : acceptable proto r <-> well_formed proto r.
Proof.
  unfold acceptable, well_formed. split; intros H f n Hf; destruct (H f n Hf) as [Hc Hp]; (split; [done|]); intros Hne.
  - destruct (Hp Hne) as [[t src] [Ht Hs]%frame_parts_ok]. by split; eexists.
  - destruct (Hp Hne) as [[t Ht] [src Hs]]. exists (t, src). by apply frame_parts_ok.
Qed.

Lemma received_holds proto r src t n :
  V1.frames proto !! r = Some n -> well_formed proto r -> (received proto r src t <-> holds_exactly proto r src t).
Proof.
  intros Hr Hw. unfold received, holds_exactly.
  assert (Hnode : forall f m, f <> r -> V1.frames proto !! f = Some m -> exists node, received_node proto r src f = Some node /\
    frame_id node = f /\ parent_id node = V1.parent_id m /\ transform_given m (static_transform node) /\ source_given m (source node) /\
    forall node', frame_id node' = f -> parent_id node' = V1.parent_id m -> transform_given m (static_transform node') ->
      source_given m (source node') -> node' = node).
  { intros f m Hne Hf. destruct (Hw f m Hf) as [Hc Hp]. destruct (Hp Hne) as [[tr Ht] [sr Hs]].
    destruct Hc as [|f m' p Hm Hpar _]; [done|]. rewrite Hf in Hm. injection Hm as <-.
    unfold received_node. rewrite decide_False, Hf, Hpar by done.
    pose proof (proj2 (frame_parts_ok f m tr sr) (conj Ht Hs)) as E. rewrite E.
    eexists. split; [done|]. do 4 (split; [done|]). intros [i' p' t' s']. cbn. intros -> -> Ht' Hs'.
    rewrite (proj2 (frame_parts_ok f m t' s') (conj Ht' Hs')) in E. by injection E as -> ->. }
  split.
  - intros [Hroot H]. split; [done|]. split.
    + rewrite H, Hr. cbn. unfold received_node. by rewrite decide_True.
    + intros f Hne. rewrite H. destruct (V1.frames proto !! f) as [m|] eqn:Em; [|done]. cbn.
      destruct (Hnode f m Hne Em) as (node & ? & ? & ? & ? & ? & _). by exists node.
  - intros (Hroot & Hrr & H). split; [done|]. intros f. destruct (decide (f = r)) as [->|Hne].
    { rewrite Hrr, Hr. cbn. unfold received_node. by rewrite decide_True. }
    specialize (H f Hne). destruct (V1.frames proto !! f) as [m|] eqn:Em; [|done]. cbn.
    destruct H as (node' & -> & ? & ? & ? & ?). destruct (Hnode f m Hne Em) as (node & -> & _ & _ & _ & _ & Hu).
    f_equal. by apply Hu.
Qed.

(** C34: a message becomes a tree exactly when it names a root it holds, the root has one of the
    three sources, every frame climbs to that root along the parents of the message, and every
    other frame has a transform with translation and rotation and one of the three sources; the
    tree then holds the frames of the message under their keys with these transforms and
    sources, the root with the identity and no parent, and nothing else.  Whatever the message,
    the conversion ends. *)
Theorem received_tree_exact proto t :
  try_from proto = Ok t <->
  exists r n src, V1.root proto = Some r /\ V1.frames proto !! r = Some n /\
    source_given n src /\ well_formed proto r /\ holds_exactly proto r src t.
Proof.
  rewrite tree_try_ok. split; intros (r & n & src & Hr & Hn & Hs & Hw & Hh); exists r, n, src.
  - apply source_ok in Hs. apply acceptable_well_formed in Hw. split_and!; [done..|]. by eapply received_holds.
  - split_and!; [done|done|by apply source_ok|by apply acceptable_well_formed|]. by eapply received_holds.
Qed.

(** ** What survives the wire *)

Context (timestamp_law : forall ts, representable ts -> from_timestamp (ts / NANOS) (ts mod NANOS) = Some ts).

Lemma datetime_roundtrip ts : representable ts -> proto_to_datetime (datetime_to_proto ts) = Ok ts.
Proof using timestamp_law.
  intros H. unfold proto_to_datetime, datetime_to_proto. cbn [V1.seconds V1.nanos].
  destruct (Z.ltb_spec (ts mod NANOS) 0) as [Hn|_]; [pose proof (Z.mod_pos_bound ts NANOS ltac:(done)); lia|].
  by rewrite timestamp_law.
Qed.

(** A successful step of a conversion. *)
Lemma bind_ok {A B} (c : converted A) (k : A -> converted B) a r : c = Ok a -> k a = r -> result_bind c k = r.
Proof. by intros -> <-. Qed.

Lemma wire_list `{Wire D P} (l : list D) : Forall survives l -> collect try_from (map from l) = Ok l.
Proof. intros Hl. apply collect_roundtrip. eapply Forall_impl; [exact Hl|]. intros d. apply roundtrip. Qed.

Lemma wire_option `{Wire D P} (o : option D) : (forall d, o = Some d -> survives d) -> transpose try_from (option_map from o) = Ok o.
Proof. intros Ho. apply transpose_roundtrip. intros d E. by apply roundtrip, Ho. Qed.

Lemma wire_map `{Wire D P} (m : gmap string D) : map_Forall (fun _ => survives) m -> collect_map try_from (from <$> m) = Ok m.
Proof. intros Hm. apply collect_map_roundtrip. intros k d E. by apply roundtrip, (Hm k). Qed.

Lemma vec3_roundtrip v : vec3_of (from v) = v.
Proof. by destruct v. Qed.
Lemma quat_roundtrip q : quat_of (from q) = q.
Proof. by destruct q. Qed.
Lemma joint_limits_roundtrip l : joint_limits_of (from l) = l.
Proof. by destruct l. Qed.
Lemma force_limits_roundtrip l : force_limits_of (from l) = l.
Proof. by destruct l. Qed.
Lemma envelope_roundtrip e : envelope_of (from e) = e.
Proof. by destruct e. Qed.
Lemma family_roundtrip f : family_of (from f) = f.
Proof. by destruct f. Qed.
Lemma pair_roundtrip p : pair_of (from p) = p.
Proof. by destruct p. Qed.
Lemma frustum_roundtrip f : frustum_of (from f) = f.
Proof. by destruct f as [? ? ? ? [[]|]]. Qed.

(** Mapping a conversion and its inverse over a container. *)
Lemma option_map_roundtrip {D P} (f : D -> P) (g : P -> D) o : (forall d, g (f d) = d) -> option_map g (option_map f o) = o.
Proof. intros H. destruct o as [d|]; [|done]. cbn. by rewrite H. Qed.
Lemma map_roundtrip {D P} (f : D -> P) (g : P -> D) l : (forall d, g (f d) = d) -> map g (map f l) = l.
Proof. intros H. rewrite map_map. rewrite <- (map_id l) at 2. by apply map_ext. Qed.
Lemma fmap_roundtrip {D P} (f : D -> P) (g : P -> D) (m : gmap string D) : (forall d, g (f d) = d) -> g <$> (f <$> m) = m.
Proof. intros H. rewrite <- map_fmap_compose. rewrite <- (map_fmap_id m) at 2. apply map_fmap_ext. intros k d _. apply H. Qed.

Lemma enums_roundtrip :
  (forall x, proto_to_domain_joint_type (domain_joint_type_to_proto x) = Ok x) /\
  (forall x, proto_to_domain_tcp_type (domain_tcp_type_to_proto x) = Ok x) /\
  (forall x, proto_to_domain_sensor_type (domain_sensor_type_to_proto x) = Ok x) /\
  (forall x, proto_to_domain_zone_type (domain_zone_type_to_proto x) = Ok x) /\
  (forall x, proto_to_domain_frame_source (domain_frame_source_to_proto x) = Ok x) /\
  (forall x, proto_to_domain_binding_type (domain_binding_type_to_proto x) = Ok x) /\
  (forall x, proto_to_domain_command_interface_type (domain_command_interface_type_to_proto x) = Ok x).
Proof. split_and!; by intros []. Qed.

#[local] Instance transform_wire : Wire Transform3D V1.Transform3D.
Proof.
  apply Build_Wire with (survives := fun _ => True).
  by intros [[] []] _. Defined.

#[local] Instance inertial_wire : Wire Inertial V1.Inertial.
Proof.
  apply Build_Wire with (survives := fun _ => True).
  by intros [? []] _. Defined.

#[local] Instance geometry_wire : Wire Geometry V1.Geometry.
Proof.
  apply Build_Wire with (survives := fun _ => True).
  by intros [[]| | |? [[]|]] _. Defined.

#[local] Instance shape_wire : Wire WorkspaceShape V1.WorkspaceShape.
Proof.
  apply Build_Wire with (survives := fun _ => True).
  by intros [[]| |] _. Defined.

#[local] Instance role_wire : Wire SemanticRole V1.SemanticRole.
Proof.
  apply Build_Wire with (survives := fun _ => True).
  by intros [] _. Defined.

#[local] Instance joint_wire : Wire Joint V1.Joint.
Proof.
  apply Build_Wire with (survives := fun _ => True).
  by intros [? [] ? ? [] [[] []] []] _. Defined.

#[local] Instance link_wire : Wire Link V1.Link.
Proof.
  apply Build_Wire with (survives := fun _ => True). intros l _.
  eapply bind_ok; [exact (wire_option (inertial l) (fun _ _ => I))|].
  eapply bind_ok; [exact (wire_option (visual_geometry l) (fun _ _ => I))|].
  eapply bind_ok; [exact (wire_option (collision_geometry l) (fun _ _ => I))|]. by destruct l.
Defined.

#[local] Instance body_wire : Wire CollisionBody V1.CollisionBody.
Proof.
  apply Build_Wire with (survives := fun _ => True). intros b _.
  eapply bind_ok; [reflexivity|]. eapply bind_ok; [exact (roundtrip (geometry b) I)|].
  eapply bind_ok; [reflexivity|]. eapply bind_ok; [exact (roundtrip (cb_origin b) I)|]. by destruct b.
Defined.

#[local] Instance tcp_wire : Wire ToolCenterPoint V1.ToolCenterPoint.
Proof.
  apply Build_Wire with (survives := fun _ => True).
  by intros [? ? [[] []] []] _. Defined.

#[local] Instance mount_wire : Wire SensorMount V1.SensorMount.
Proof.
  apply Build_Wire with (survives := fun _ => True).
  by intros [? ? [[] []] [] ? ? [[? ? ? ? [[]|]]|]] _. Defined.

#[local] Instance zone_wire : Wire WorkspaceZone V1.WorkspaceZone.
Proof.
  apply Build_Wire with (survives := fun _ => True).
  by intros [? [[]| |] ? [] ?] _. Defined.

#[local] Instance node_wire : Wire FrameNode V1.FrameNode.
Proof.
  apply Build_Wire with (survives := fun _ => True).
  by intros [? ? [[] []] []] _. Defined.

#[local] Instance binding_wire : Wire ChannelBinding V1.ChannelBinding.
Proof.
  apply Build_Wire with (survives := fun _ => True).
  by intros [? ? [] ? ? [[]|]] _. Defined.

#[local] Instance channel_wire : Wire ControlChannelDef V1.ControlChannelDef.
Proof.
  apply Build_Wire with (survives := fun _ => True).
  by intros [? [] ? ?] _. Defined.

Lemma all_survive {D} (l : list D) : Forall (fun _ => True) l.
Proof. by apply Forall_true. Qed.

#[local] Instance manifest_wire : Wire ControlInterfaceManifest V1.ControlInterfaceManifest.
Proof.
  apply Build_Wire with (survives := fun _ => True). intros m _.
  eapply bind_ok; [exact (wire_list (channels m) (all_survive _))|].
  eapply bind_ok; [exact (wire_list (bindings m) (all_survive _))|]. by destruct m.
Defined.

(** A scale without entries comes back as no scale. *)
#[local] Instance sensor_calibration_wire : Wire SensorCalibration V1.SensorCalibration.
Proof using timestamp_law.
  apply Build_Wire with (survives := fun sc => representable (sc_calibrated_at sc) /\ sc_scale sc <> Some []).
  intros sc [Ht Hs]. eapply bind_ok; [reflexivity|]. eapply bind_ok; [exact (datetime_roundtrip _ Ht)|].
  destruct sc as [? ? [[|]|] ?]; done.
Defined.

#[local] Instance calibration_wire : Wire CalibrationOverlay V1.CalibrationOverlay.
Proof using timestamp_law.
  apply Build_Wire with (survives := fun co => representable (calibrated_at co) /\ (forall ts, stale_after co = Some ts -> representable ts) /\
    map_Forall (fun _ => survives) (sensor_calibrations co)).
  intros co (Ht & Hst & Hs). eapply bind_ok; [reflexivity|]. eapply bind_ok; [exact (datetime_roundtrip _ Ht)|].
  eapply bind_ok; [exact (transpose_roundtrip proto_to_datetime datetime_to_proto (stale_after co) (fun ts E => datetime_roundtrip ts (Hst ts E)))|].
  apply (bind_ok _ _ (temperature_range co)); [cbn; by destruct (temperature_range co) as [[]|]|].
  eapply bind_ok; [exact (wire_map (frame_corrections co) (fun _ _ _ => I))|].
  eapply bind_ok; [exact (wire_map (sensor_calibrations co) Hs)|]. by destruct co.
Defined.

#[local] Instance safety_wire : Wire SafetyOverlay V1.SafetyOverlay.
Proof.
  apply Build_Wire with (survives := fun _ => True). intros so _.
  eapply bind_ok; [exact (wire_list (workspace_restrictions so) (all_survive _))|].
  eapply bind_ok; [exact (wire_list (human_presence_zones so) (all_survive _))|].
  eapply bind_ok; [exact (wire_list (contact_allowed_zones so) (all_survive _))|].
  pose proof (fmap_roundtrip _ _ (joint_limit_overrides so) joint_limits_roundtrip) as E1.
  pose proof (option_map_roundtrip _ _ (force_limits so) force_limits_roundtrip) as E2.
  pose proof (map_roundtrip _ _ (contact_force_envelopes so) envelope_roundtrip) as E3.
  destruct so. cbn in *. by rewrite E1, E2, E3.
Defined.

(** A tree as [set_root] and [add_frame] build it: every frame under its own name, the root
    with the identity and no parent, every other frame climbing to it. *)
Definition wire_tree (t : FrameTree) : Prop :=
  exists r src, root t = Some r /\ frames t !! r = Some (root_frame r src) /\
    forall f n, frames t !! f = Some n -> frame_id n = f /\ reaches t r f /\ (f <> r -> is_Some (parent_id n)).

Lemma omap_map {A B} (f : A -> option B) l : omap f l = omap id (map f l).
Proof. induction l as [|a l IH]; [done|]. cbn [map]. unfold omap in *. cbn [list_omap id]. rewrite IH. by destruct (f a). Qed.

Lemma tree_from_frames t f : V1.frames (from t) !! f = from <$> frames t !! f.
Proof.
  unfold from at 1, tree_from. cbn [V1.frames]. rewrite omap_map.
  replace (map (fun id => option_map (fun node => (id, from node)) (get_frame t id)) (all_frame_ids t))
    with (map (fun id => option_map (pair id) ((from <$> frames t) !! id)) (all_frame_ids t)).
  2: { apply map_ext. intros id. unfold get_frame. rewrite lookup_fmap. by destruct (frames t !! id). }
  rewrite list_to_map_of_keys, lookup_fmap. destruct (decide (f ∈ all_frame_ids t)) as [|Hn]; [done|].
  unfold all_frame_ids in Hn. rewrite elem_of_sorted_keys in Hn. destruct (frames t !! f); [by destruct Hn|done].
Qed.

Lemma node_parts f n : frame_parts f (from n) = Ok (static_transform n, source n).
Proof. by destruct n as [? ? [[] []] []]. Qed.

Lemma reaches_climbs t r f : reaches t r f -> climbs (from t) r f.
Proof.
  induction 1 as [|f n p Hf Hp _ IH]; [constructor|]. apply (climbs_up _ _ f (from n) p); [by rewrite tree_from_frames, Hf|by destruct n|done].
Qed.

#[local] Instance tree_wire : Wire FrameTree V1.FrameTree.
Proof.
  apply Build_Wire with (survives := wire_tree). intros t (r & src & Hr & Hroot & Hall).
  apply tree_try_ok. exists r, (from (root_frame r src)), src.
  split; [by destruct t|]. split; [by rewrite tree_from_frames, Hroot|]. split; [by destruct src|]. split.
  - intros f n Hf. rewrite tree_from_frames in Hf. destruct (frames t !! f) as [m|] eqn:Em; [|done]. injection Hf as <-.
    destruct (Hall f m Em) as (_ & Hc & _). split; [by apply reaches_climbs|]. intros _. eexists. apply node_parts.
  - split; [done|]. intros f. rewrite tree_from_frames. destruct (frames t !! f) as [m|] eqn:Em; [|done]. cbn.
    unfold received_node. destruct (decide (f = r)) as [->|Hne]; [by rewrite <- Em|].
    rewrite tree_from_frames, Em. cbn [fmap option_fmap option_map]. rewrite node_parts.
    destruct (Hall f m Em) as (Hid & _ & Hp). destruct (Hp Hne) as [p Ep]. destruct m as [mid mp mt ms]. cbn in *. by subst.
Defined.

#[local] Instance model_wire : Wire EmbodimentModel V1.EmbodimentModel.
Proof.
  apply Build_Wire with (survives := fun m => wire_tree (frame_tree m)). intros m Ht.
  eapply bind_ok; [reflexivity|]. eapply bind_ok; [exact (roundtrip (frame_tree m) Ht)|].
  eapply bind_ok; [exact (wire_list (links m) (all_survive _))|].
  eapply bind_ok; [exact (wire_list (joints m) (all_survive _))|].
  eapply bind_ok; [exact (wire_list (collision_bodies m) (all_survive _))|].
  eapply bind_ok; [exact (wire_list (tcps m) (all_survive _))|].
  eapply bind_ok; [exact (wire_list (sensor_mounts m) (all_survive _))|].
  eapply bind_ok; [exact (wire_list (workspace_zones m) (all_survive _))|].
  eapply bind_ok; [exact (wire_list (channel_bindings m) (all_survive _))|].
  pose proof (option_map_roundtrip _ _ (embodiment_family m) family_roundtrip) as E1.
  pose proof (map_roundtrip _ _ (allowed_collision_pairs m) pair_roundtrip) as E2.
  destruct m. cbn in *. by rewrite E1, E2.
Defined.

(** What of a runtime survives: trees as their operations build them, counts that fit in 32
    bits, instants chrono can represent, and no scale without entries. *)
Definition wire_runtime (r : EmbodimentRuntime) : Prop :=
  wire_tree (frame_tree (model r)) /\ wire_tree (frame_graph r) /\
  (forall c, calibration r = Some c -> survives c) /\
  joint_count r <= U32_MAX /\ tcp_count r <= U32_MAX.

Lemma to_u32_small n : n <= U32_MAX -> to_u32 n = n.
Proof. unfold to_u32. by intros ->%Z.leb_le. Qed.

Lemma runtime_roundtrip_core r : wire_runtime r -> try_from (from r) = Ok r.
Proof using timestamp_law.
  intros (Hm & Hg & Hc & Hj & Ht).
  eapply bind_ok; [reflexivity|]. eapply bind_ok; [exact (roundtrip (model r) Hm)|].
  eapply bind_ok; [reflexivity|]. eapply bind_ok; [exact (roundtrip (frame_graph r) Hg)|].
  eapply bind_ok; [exact (wire_option (calibration r) Hc)|].
  eapply bind_ok; [exact (wire_option (safety_overlay r) (fun _ _ => I))|].
  apply to_u32_small in Hj, Ht. destruct r. cbn in *. by rewrite Hj, Ht.
Qed.

#[local] Instance retargeting_wire : Wire Retargeting.RetargetingMap V1.RetargetingMap.
Proof. apply Build_Wire with (survives := fun _ => True). by intros [[]] _. Defined.

Lemma corrected_reaches src corrections r n f :
  frames src !! r = Some n -> reaches src r f -> reaches {| root := Some r; frames := corrected src corrections r n |} r f.
Proof.
  intros Hn. induction 1 as [|f k p Hk Hp _ IH]; [constructor|].
  destruct (decide (f = r)) as [->|Hne]; [constructor|].
  eapply (reaches_up _ _ f _ p); [cbn; by rewrite lookup_corrected, Hk| |done]. unfold corrected_node. by rewrite decide_False.
Qed.

(** A frame graph that compiled without fallback survives: compilation rebuilds the tree with
    its operations, whatever the source made of its root. *)
Lemma compiled_graph_survives m c t : compiled_frame_graph m c = (t, []) -> root t <> None ->
  (forall f k, frames (frame_tree m) !! f = Some k -> Some f <> root t -> is_Some (parent_id k)) -> wire_tree t.
Proof.
  intros H Hroot Hpar. assert (Hr : exists r, root (frame_tree m) = Some r).
  { unfold compiled_frame_graph in H. destruct (root (frame_tree m)); [by eexists|]. by injection H as <-. }
  destruct Hr as [r Hr]. destruct (frames (frame_tree m) !! r) as [n|] eqn:En.
  2: { unfold compiled_frame_graph, get_frame in H. rewrite Hr, En in H. by injection H as <-. }
  destruct (compiled_frame_graph_cases m c r n Hr En) as [[Hall E]|(us & Hne & _ & E)]; rewrite E in H; [|by injection H].
  injection H as <-. exists r, (source n). split; [done|]. cbn [frames root] in *. split.
  { rewrite lookup_corrected, En. cbn. unfold corrected_node. by rewrite decide_True. }
  intros f k Hk. rewrite lookup_corrected in Hk. destruct (frames (frame_tree m) !! f) as [k'|] eqn:Ek; [|done]. injection Hk as <-.
  split; [unfold corrected_node; by destruct (decide (f = r))|]. split; [apply corrected_reaches; [done|]; apply Hall; by exists k'|].
  intros Hne. unfold corrected_node. rewrite decide_False by done. cbn. apply (Hpar f k' Ek). by intros [= ->].
Qed.

(** C33: a runtime whose two trees each have their root at the identity, their frames under the
    names they bear and no frame that does not climb to the root, with counts of 32 bits,
    instants that chrono can represent and no empty scales, comes back from its message as it
    was: model, calibration, safety overlay, digests, frame graph, counts and issues. *)
Theorem runtime_roundtrip r : wire_runtime r -> try_from (from r) = Ok r.
Proof using timestamp_law. exact (runtime_roundtrip_core r). Qed.

End Convert.

(** ** Examples *)

(** chrono's constructor where seconds and nanoseconds are in range. *)
Definition demo_from_timestamp (secs nsecs : Z) : option DateTime :=
  if (-8334601228800 <=? secs) && (secs <=? 8210266876799) && (0 <=? nsecs) && (nsecs <? NANOS) then Some (secs * NANOS + nsecs) else None.
Definition demo_representable (ts : DateTime) : Prop := -8334601228800 * NANOS <= ts < 8210266876800 * NANOS.

Lemma demo_timestamp_law ts : demo_representable ts -> demo_from_timestamp (ts / NANOS) (ts mod NANOS) = Some ts.
Proof.
  intros H. unfold demo_from_timestamp, demo_representable, NANOS in *. pose proof (Z.div_mod ts 1000000000 ltac:(lia)).
  pose proof (Z.mod_pos_bound ts 1000000000 ltac:(lia)).
  repeat (match goal with |- context [?a <=? ?b] => destruct (Z.leb_spec a b) | |- context [?a <? ?b] => destruct (Z.ltb_spec a b) end; try lia).
  cbn [andb]. f_equal. lia.
Qed.

Definition names (l : list string) : string := String.concat ", " l.
Definition small_tree : FrameTree := snd (add_frame (set_root new "world" SrcStatic) "tool" "world" (along_x 3) SrcDynamic).

Definition demo_runtime (t : FrameTree) : EmbodimentRuntime := {|
  model := bare_model t; calibration := Some tool_calibration; safety_overlay := None; rt_model_digest := "m";
  rt_calibration_digest := "c"; safety_digest := "s"; combined_digest := "d"; frame_graph := t; active_calibration_id := Some "cal";
  joint_count := 0; tcp_count := 0; rt_watched_frames := []; validation_issues := [] |}.

Lemma small_tree_survives : wire_tree small_tree.
Proof.
  exists "world", SrcStatic. split; [reflexivity|]. split; [reflexivity|]. intros f n Hf.
  change (frames small_tree) with (<["tool" := {| frame_id := "tool"; parent_id := Some "world"; static_transform := along_x 3; source := SrcDynamic |}]>
    (<["world" := root_frame "world" SrcStatic]> (∅ : gmap string FrameNode))) in Hf.
  apply lookup_insert_Some in Hf as [[<- <-]|[_ Hf]].
  - split; [reflexivity|]. split; [|by eexists]. apply (reaches_up _ _ "tool" {| frame_id := "tool"; parent_id := Some "world"; static_transform := along_x 3; source := SrcDynamic |} "world"); [reflexivity|reflexivity|constructor].
  - apply lookup_insert_Some in Hf as [[<- <-]|[_ Hf]]; [|by rewrite lookup_empty in Hf]. split; [reflexivity|]. split; [constructor|done].
Qed.

Lemma runtime_roundtrip_witness :
  runtime_try demo_from_timestamp names (runtime_from (demo_runtime small_tree)) = Ok (demo_runtime small_tree).
Proof.
  apply (runtime_roundtrip demo_from_timestamp demo_representable names demo_timestamp_law).
  split; [exact small_tree_survives|]. split; [exact small_tree_survives|]. split; [|by split].
  intros c [= <-]. split; [by vm_compute|]. split; [intros ts [= <-]; by vm_compute|]. apply map_Forall_empty.
Defined.

Lemma received_tree_exact_witness : exists r n src, V1.root (tree_from small_tree) = Some r /\ V1.frames (tree_from small_tree) !! r = Some n /\
  source_given n src /\ well_formed (tree_from small_tree) r /\ holds_exactly (tree_from small_tree) r src small_tree.
Proof. apply (received_tree_exact names). reflexivity. Defined.

(** An embodiment without frames, as a new one is, does not come back. *)
Example empty_tree_refused : tree_try names (tree_from new) = Err (MissingField "FrameTree.root").
Proof. reflexivity. Qed.

(** A root that a loaded tree placed elsewhere comes back at the identity. *)
Example root_transform_lost :
  let t := with_node (set_root new "world" SrcStatic) "world" {| frame_id := "world"; parent_id := None; static_transform := along_x 3; source := SrcStatic |} in
  tree_try names (tree_from t) = Ok (set_root new "world" SrcStatic) /\ static_transform <$> frames t !! "world" = Some (along_x 3).
Proof. split; reflexivity. Qed.

(** A negative count of nanoseconds is read as none. *)
Example negative_nanos_accepted : proto_to_datetime demo_from_timestamp {| V1.seconds := 5; V1.nanos := -7 |} = Ok (5 * NANOS).
Proof. reflexivity. Qed.

(** An empty scale comes back as none. *)
Example empty_scale_lost :
  let sc := {| sc_sensor_id := "imu"; sc_offset := []; sc_scale := Some []; sc_calibrated_at := 0 |} in
  sensor_calibration_try demo_from_timestamp (sensor_calibration_from sc) = Ok {| sc_sensor_id := "imu"; sc_offset := []; sc_scale := None; sc_calibrated_at := 0 |}.
Proof. reflexivity. Qed.
